(* ===== verification/_CoqProject ===== *)
-Q . S2P
Prelude.v
Buffer.v
Uapi.v
Wire.v
Replay.v
Ordering.v
Reliability.v
Airtime.v
Radio.v
Blake2s.v
Mapping.v
NodeId.v
Genl.v
Contract.v
Slots.v
Device.v
Fragments.v
Peers.v
Reassembly.v
Arrivals.v
Delivery.v
Identity.v
Policy.v
Queue.v
QueueInv.v
QueueOps.v
QueueSched.v
QueueRun.v
QueueDrain.v
QueueSteps.v
QueueAir.v
Send.v
Receive.v
Sequence.v
Kept.v
Secure.v
Transfer.v
Nonces.v
Discovery.v
Nodes.v
Claims.v
Freshness.v
Handshake.v
Outstanding.v
Waits.v
Settled.v
Retry.v
Logical.v
Bindings.v
Link.v
Attach.v
Input.v
Keys.v
Requests.v
