(* ===== verification/Prelude.v ===== *)
(** * Melodi: a verification library for the native message network stack

    Melodi is a message network over radio modems: a Linux kernel core that keeps
    peers, sessions, policy, delivery state and a transmit queue per network
    device; a protocol library (src/proto) that kernel and user space share; a USB
    driver that speaks to the radio; and user-space tools that talk to the core
    over generic netlink.  This library models the protocol library in full; of the
    kernel core its policy, transmit queue, data plane, discovery of peers, logical
    queue, links, attachment of radios and bindings in full; and of its netlink front
    end and of its keys what is not glue over the kernel.

    ** How the C code is represented

    A function of the program is a function of the same name.  Pointers are values,
    or indices where they point into a table; a pointer that the code tests against
    NULL is an option, otherwise the test has no counterpart.  Out-parameters are
    part of the result.  Fallible code returns [result]: [Err] carries the errno,
    [Ok] what success hands back; a function that changes state and may fail returns
    both.  Integers are in [Z]; wherever the code's type can wrap, [wrap w] is
    written out, and the bounds that make it the identity are proved.  Memory that
    the code does not initialise is an argument (a [stack], or the buffer before the
    call), and the theorems hold for every content of it.  Locks have no
    counterpart: what one holding of the lock does is one function, and what
    several entry points do to one another is studied as sequences of such steps.
    Where a call releases a lock between two sections, what everybody else does in the
    gap is a function on the state, an argument ([receive_gaps], [discovery_gaps],
    [waiting_gaps], [turn_env]), or the sections are the steps of a transition system
    ([queue_step], [order_step], [logical_step], [use_step]).
    The clock, allocation, the state of the network interface and the answers of the
    link driver are arguments.  Code outside the repository, and the vendored
    cryptography, is a section variable, and the theorems assume nothing of it
    unless a hypothesis says so.

    ** Files

    - Prelude: errors, results, words and the lemmas and tactics all files share;
      Buffer: memory as lists of bytes, the laws of load and store, big- and
      little-endian integers; Uapi: constants and node identities of
      src/proto/melodi.h.
    - Wire (src/proto/wire.c): every frame class, encoder and decoder, behind the
      interface [FrameCodec].
    - Replay (replay.c), Ordering (ordering.c), Reliability (reliability.c),
      Airtime (airtime.c): the four windows of the delivery layer, each with an
      abstract specification: a set of counters, an unbounded index and a set of
      held indices, the union of acknowledged fragments, the log of transmissions.
    - Radio (radio.c): the stream framer, the messages between host and radio,
      segments and the time-on-air estimate.
    - Blake2s, Mapping (mapping.c): the hash, and the native locators derived with
      it; NodeId (nodeid.c): identities as text.
    - Genl (genl.c): the netlink messages of user space, over either byte order.
    - Contract (kernel/usb/contract.c): which radios and firmware are accepted.
    - Slots: the search idiom of the kernel's fixed tables, and a table of such
      slots as a finite map.
    - Device (kernel/core/internal.h): the records of the kernel core, with an
      update function per field that the code assigns.
    - Peers (discovery.c, data.c): ends of sessions, locator conflicts; Identity
      (main.c): identities and counters; Policy (policy.c): the policy tables, as
      two finite maps, and the checks made with them.
    - Reassembly (data.c): the table of partly received messages, as a finite map
      from the key of a message to its parts, the receipts and the timer; Arrivals:
      what runs of arrivals and expiries make of it.
    - Delivery (data.c): ordered flows, their buffers, batches and timer work, and
      the coupling of the buffers to the windows of Ordering; Sequence: runs of
      them, with ends of sessions (Peers).
    - Queue (kernel/core/queue.c): state and operations of the transmit queue;
      QueueInv: its books ([accounts], [spaces_ok]) and what removal and
      cancellation do to them; QueueOps: reservations and batches; QueueSched: the
      scheduler; QueueRun: the sections of the worker and changes of state;
      QueueDrain: what these leave behind; QueueSteps: all of it as a transition
      system; QueueAir: the airtime it spends, proved against the interface
      [AirtimeGate] of Airtime.
    - Fragments (data.c): nonces, cutting and sealing of messages, signed broadcast
      frames and the checks on a received header, with the cipher as an interface
      ([Aead], [AeadLaws]); Send (data.c): admission, messages, broadcasts and
      acknowledgements, in the sections between which the code releases its lock;
      Receive (data.c): a received data frame from the decoder to the delivery and
      the answer.
    - Kept: what every part of a send leaves alone, for any preorder on states;
      Secure: what a receiver accepts; Transfer: from one node to another; Nonces:
      counters and nonces over runs.
    - Discovery (discovery.c): expiry, announcements, probes, claims and collisions,
      and the handshake that makes sessions, in the sections the code locks; the key
      exchange, the keyed hash and the signatures are interfaces ([Curve], [KeyedHash],
      [Signer]).  Nodes: two concrete nodes that find each other.  Claims: the
      invariant of the peer table and what every handler does to it; Freshness: what a
      frame must be to count, and that it counts once; Handshake: both sides of the
      handshake together.
    - Outstanding (data.c): messages that wait for a peer, reliable messages that wait
      for their acknowledgement, retransmission, received acknowledgements, changes of
      state, failure and reset; and with them [melodi_data_send] as a whole.  Waits:
      the books of what waits for a peer ([waits_ok]) and where every such message
      goes; Settled: the loops that end messages; Retry: the records of the filed
      messages ([filing_ok]), what a retransmission and an acknowledgement do to them,
      and how each ends.
    - Logical (main.c, netlink.c): the packet of a message of a binding, from the
      request through the interface's queue to the work that sends it; Bindings
      (netlink.c): sockets, services and monitors, and what the kernel tells them.
    - Link (main.c): opening, closing and the state of a link, references to its
      transport, identities, namespaces; Attach (main.c): the list of interfaces and
      which radio gets which; Input (main.c): a received frame of any class, and the
      statistics.
    - Keys (identity_crypto.c): which key of user space belongs to an identity, and the
      signatures made with it, with Ed25519 as an interface ([Ed25519Laws]); Requests
      (netlink.c): the check in front of the handlers, the handlers that change a device,
      the replies and the dump of the peers.

    ** How the parts interact

    User space loads an identity (Requests, Keys, Link), a driver attaches a transport
    (Attach, Link), and a socket binds a service (Bindings).  Discovery fills the table
    of peers and makes the session keys.  A message of a binding is admitted by Policy,
    given a reservation in the Queue and sent through the interface as a packet of its
    own (Logical); the work behind the interface claims the reservation, and the message
    is cut and sealed (Fragments, Send) in frames that Wire encodes, and queued against
    its reservation.  The worker of the Queue picks a frame, asks
    [melodi_data_queue_valid_locked] (Policy, over peers and sessions) whether it
    may still go, charges it to the Airtime windows and hands it to the link, where
    Radio carries it.  A change of policy ends sessions (Peers) and makes the Queue
    look at everything it holds ([melodi_queue_state_changed]).  On the way in,
    Receive opens a frame under the session of its peer (Peers), lets Replay decide
    whether it is new, Reassembly whether the message is whole and Delivery whose turn
    it is, and answers with an acknowledgement; Input decides which frames
    get there, and Bindings which socket is told.  A reliable message stays filed
    (Outstanding) until such an answer settles it; Reliability decides when what is sent
    again, through the Queue.  A message for a peer without a session waits
    (Outstanding), starts a probe (Discovery) and is sent when the session is there.

    ** What is shown

    - Codecs (Wire, Radio, Genl, NodeId): encoder and decoder are mutually inverse,
      what is accepted is exactly the canonical encodings, for every content of
      uninitialised memory; the framer finds every frame in noise without the first
      magic byte (other noise can cost a frame, [noise_swallows]) and never writes
      outside its buffer.
    - Windows (Replay, Ordering, Reliability, Airtime): refinement of their abstract
      specifications, and the promises these make over whole runs: no counter twice,
      delivery in order, no acknowledged fragment sent again, an end to every
      message, and the duty cycle in every interval of 3590 seconds.
    - Hash and locators: streaming equals one-shot; the result depends on the set of
      nodes only; searches end with the least acceptable round.
    - Kernel tables (Contract, Peers, Identity, Policy): exact acceptance, complete
      forgetting at the end of a session, two finite maps behind the policy tables,
      and that a blocked peer is cut off.
    - Reassembly and ordered delivery: the table is the map of its specification
      over every run, what is completed is the concatenation of its fragments, and
      all fragments in any order complete it; what a flow takes out of its buffers under
      the lock follows the order of its sender, each message once and as it came, and
      the failures that make the code throw a flow away do not occur.  Batches are handed
      on after the lock has been released: each message once, and in order as long as the
      threads do not overtake one another, which nothing prevents ([batches_overtake]).
    - Data plane: what one node prepares and seals, the other hands over exactly once,
      however its frames are reordered and repeated; a frame that is not authentic
      leaves the device exactly as it was; no counter of a session is accepted twice
      and no nonce is used twice, over any run.  The laws of the cipher are hypotheses
      ([AeadLaws]), and a small cipher that obeys them shows that they can be met.
    - Waiting and reliable messages: the counters agree with the table of waiting
      messages and every destination is searched for once; over any run a message that was
      let in is there, or its binding was told an error, or it left without one: sent,
      cleared after a failed probe, or forgotten in a reset; none is told twice; a filed
      message ends once, silently only when it is acknowledged wholly, and none
      outlives its time; a retransmission is exactly what is not acknowledged; an
      accepted acknowledgement is sealed under the key of a session, new, and settles
      exactly the message it names; the loop over a changed state ends.
    - Discovery: over every run of frames, expiries, announcements and probes the peer
      table stays well-formed; a frame counts only if its node has signed it, and only
      once while its node stays in the table ([accepted_again] shows the rest); a
      collision of locators moves one of the two nodes; both ends of a handshake hold
      the same keys when the response claims what the announcement did, under the law
      of the key exchange ([CurveLaws]) and that signatures have 64 bytes ([SignerLaws]).
      [newer_generation_exposes_keys] shows where this goes wrong: a response with a newer
      generation leaves a session whose keys anybody can compute.
    - Transmit queue: over every interleaving of entry points, worker sections and
      changes around it ([queue_step]), counters are exact and all limits hold, the
      frame the worker holds is never freed or replaced; a claimed reservation is
      never refused for want of room; the scheduler serves peers and flows in turn
      and no priority starves; the device keeps its duty cycle from one drain to the
      next; a change of state and a drain end, and leave nothing
      behind that should be gone.
    - Logical queue: a message is sent as its request asked; over every interleaving of
      senders, work, starts and stops the bytes under way are accounted for.
    - Bindings: one service, one socket; a notice never reaches a later owner.
    - Links: a transport in use is not freed, over every interleaving of calls, attaches
      and the sections of detaches; carrier, state, identity and queues agree after every
      whole call; no two interfaces are pinned to one radio by whole calls, and a radio
      finds its interface.  [failure_can_leave_carrier] and [radio_pinned_twice] show
      what calls that interleave can do.
    - Received frames: nothing is done with a frame that does not carry the signature or
      seal that its class asks for.
    - Keys and requests: a key is accepted for an identity exactly when it is the key of
      that identity, and what it signs is accepted; a request passes the check exactly
      when it is made of the attributes that its command allows; it changes only the
      device it names, and nothing without the capability; a dump of the peers ends and
      leaves out no peer that stays.

    ** Bounds and fuel

    Loops over tables are folds or recursions over the list.  Loops without a
    structural bound take fuel, and the fuel is proved enough: the locator search
    ([locator_least]) runs over all 2^32 rounds through [iter_until] on binary
    numbers; the parser of Genl consumes four bytes per turn and has the length of
    the message as fuel; the loops of Airtime have 360 turns, one per bucket;
    [drain_reservations] has one turn more than there are reservations;
    [melodi_queue_state_changed] takes the readings of the clock of its turns, and
    257 of them are enough; [melodi_data_state_changed] does too, and needs one more
    than there are messages ([data_changed_settles]); the loops of
    [melodi_data_fail_pending] have one turn more than their tables have places
    ([fail_pending_empties]).

    ** Time in the kernel core

    Jiffies are 64-bit and compared by the sign of their difference, as the macros
    of Linux document; [msecs_to_jiffies] is a parameter.  The clock is read once for
    each holding of the lock, but for the look over the filed messages, in which every
    reading is a number of its own ([look_clock]).

    ** Environment of the transmit queue

    Frames are not longer than the byte limit of the queue ([frames_ok]; the link's
    MTU is far below it); the counts given to [melodi_queue_reserve] are not
    negative (they are unsigned); other devices use the shared namespace table by
    the same rules ([step_others]); the second half of a drain runs when the worker
    does not ([cancel_delayed_work_sync]).  A scheduled work item is kept as the
    delay it was last given; nothing is assumed of when it runs.

    ** Not modelled

    Registration, sysfs and ethtool in main.c; the registration of the netlink family,
    the attribute policy of generic netlink and its multicast groups in netlink.c; URBs
    in usb/main.c; the emulator and the virtual links; the tools: glue over the kernel or
    the C library.  The vendored Monocypher is a parameter, but for its comparison in
    constant time.  Reading memory that has been freed is not modelled: where the code
    may do so, the value is the one from before. *)
From Stdlib Require Export ZArith Lia Bool.
From stdpp Require Export base numbers list sorting option.

#[global] Open Scope Z_scope.
#[global] Open Scope bool_scope.

Declare Scope melodi_scope.
Delimit Scope melodi_scope with melodi.
#[global] Open Scope melodi_scope.

(** ** Error numbers and results

    A C function of the program returns 0 (or a small positive code) on
    success and a negated [errno] on failure.  The failing branch is [Err];
    what the function hands back through its out-parameters on success is the
    payload of [Ok]. *)

Inductive errno : Set :=
| EPERM | ENOENT | EIO | EAGAIN | ENOMEM | EACCES | EBUSY | EEXIST | EXDEV
| ENODEV | EINVAL | ENOSPC | ERANGE | ENONET | EPROTO | EBADMSG | EOVERFLOW
| EMSGSIZE | EOPNOTSUPP | EADDRINUSE | ENETDOWN | ENOBUFS | ENOTCONN
| ETIMEDOUT | ECONNREFUSED | EHOSTUNREACH | EALREADY | ESTALE | ENOKEY
| EKEYREVOKED | EKEYREJECTED.

#[export] Instance errno_eq_dec : EqDecision errno.
Proof. solve_decision. Defined.

Inductive result (A : Type) : Type :=
| Ok (a : A)
| Err (e : errno).
Arguments Ok {A} _.
Arguments Err {A} _.

#[export] Instance result_eq_dec {A} `{EqDecision A} : EqDecision (result A).
Proof. solve_decision. Defined.

#[export] Instance result_ret : MRet result := @Ok.
#[export] Instance result_bind : MBind result := fun A B f r =>
  match r with Ok a => f a | Err e => Err e end.

Definition is_ok {A} (r : result A) : bool :=
  match r with Ok _ => true | Err _ => false end.

Lemma bind_Ok {A B} (r : result A) (f : A -> result B) b :
  r ≫= f = Ok b -> exists a, r = Ok a /\ f a = Ok b.
Proof. destruct r; simpl; [eauto | discriminate]. Qed.

Lemma Ok_inj {A} (a b : A) : Ok a = Ok b -> a = b.
Proof. now intros [= ->]. Qed.

(** ** Machine-width integers

    A [w]-bit unsigned integer is a [Z] in [0, 2^w); arithmetic that the code
    performs at width [w] is followed by [wrap w]. *)

Definition wrap (w x : Z) : Z := x mod 2 ^ w.
Definition uint (w x : Z) : Prop := 0 <= x < 2 ^ w.
Definition sint (w x : Z) : Prop := - 2 ^ (w - 1) <= x < 2 ^ (w - 1).

(** Reinterpretation of a [w]-bit pattern as a signed integer, and back. *)
Definition to_signed (w x : Z) : Z :=
  let y := wrap w x in if y <? 2 ^ (w - 1) then y else y - 2 ^ w.
Definition to_unsigned (w x : Z) : Z := wrap w x.

#[export] Instance uint_dec w x : Decision (uint w x).
Proof. unfold uint. apply _. Defined.
#[export] Instance sint_dec w x : Decision (sint w x).
Proof. unfold sint. apply _. Defined.

Abbreviation u8 := (uint 8).
Abbreviation u16 := (uint 16).
Abbreviation u32 := (uint 32).
Abbreviation u64 := (uint 64).
Abbreviation s16 := (sint 16).

Definition U8_MAX : Z := 2 ^ 8 - 1.
Definition U32_MAX : Z := 2 ^ 32 - 1.
Definition U64_MAX : Z := 2 ^ 64 - 1.

(** The bytes of an array. *)
Abbreviation bytes := (list Z) (only parsing).
Definition wf_bytes (n : nat) (l : bytes) : Prop :=
  length l = n /\ Forall u8 l.
#[export] Instance wf_bytes_dec n l : Decision (wf_bytes n l).
Proof. unfold wf_bytes. apply _. Defined.

Definition zlen {A} (l : list A) : Z := Z.of_nat (length l).

Lemma wrap_id w x : uint w x -> wrap w x = x.
Proof. apply Z.mod_small. Qed.

Lemma wrap_uint w x : 0 <= w -> uint w (wrap w x).
Proof. intros. apply Z.mod_pos_bound. lia. Qed.

Lemma uint_mono w v x : w <= v -> uint w x -> uint v x.
Proof.
  unfold uint. intros Hwv [H0 H1].
  destruct (decide (0 <= w)).
  - pose proof (Z.pow_le_mono_r 2 w v). lia.
  - rewrite (Z.pow_neg_r 2 w) in H1 by lia. lia.
Qed.

Lemma to_signed_unsigned w x :
  1 < w -> sint w x -> to_signed w (to_unsigned w x) = x.
Proof.
  unfold sint, to_signed, to_unsigned, wrap. intros Hw Hx.
  assert (2 ^ w = 2 * 2 ^ (w - 1)) as Hp.
  { rewrite <- Z.pow_succ_r by lia. f_equal. lia. }
  rewrite Zmod_mod. destruct (Z.ltb_spec x 0).
  - replace (x mod 2 ^ w) with (x + 2 ^ w)
      by (rewrite <- (Z.mod_add x 1), Z.mod_small; lia).
    destruct (Z.ltb_spec (x + 2 ^ w) (2 ^ (w - 1))); lia.
  - rewrite Z.mod_small by lia.
    destruct (Z.ltb_spec x (2 ^ (w - 1))); lia.
Qed.

Lemma to_unsigned_signed w x :
  1 < w -> uint w x -> to_unsigned w (to_signed w x) = x.
Proof.
  unfold uint, to_signed, to_unsigned, wrap. intros Hw Hx.
  rewrite (Z.mod_small x) by lia.
  destruct (Z.ltb_spec x (2 ^ (w - 1))).
  - apply Z.mod_small. lia.
  - rewrite <- (Z.mod_add _ 1), Z.mod_small by lia. lia.
Qed.

Lemma to_signed_sint w x : 1 < w -> sint w (to_signed w x).
Proof.
  unfold sint, to_signed, wrap. intros Hw.
  assert (2 ^ w = 2 * 2 ^ (w - 1)) as Hp.
  { rewrite <- Z.pow_succ_r by lia. f_equal. lia. }
  pose proof (Z.mod_pos_bound x (2 ^ w)).
  destruct (Z.ltb_spec (x mod 2 ^ w) (2 ^ (w - 1))); lia.
Qed.

(** ** Bit operations *)

Definition bit (i : Z) : Z := Z.shiftl 1 i.
(** [has flags mask]: the C condition [flags & mask] read as a truth value. *)
Definition has (x mask : Z) : bool := negb (Z.land x mask =? 0).
(** [~x] at width [w]. *)
Definition lnot_w (w x : Z) : Z := 2 ^ w - 1 - x.

Lemma land_bit_testbit x i :
  0 <= i -> (Z.land x (bit i) =? 0) = negb (Z.testbit x i).
Proof.
  intros Hi. unfold bit. rewrite Z.shiftl_1_l.
  destruct (Z.testbit x i) eqn:E; simpl.
  - apply Z.eqb_neq. intros H.
    assert (Z.testbit (Z.land x (2 ^ i)) i = true) as Ht.
    { rewrite Z.land_spec, E, Z.pow2_bits_true; auto. }
    rewrite H, Z.bits_0 in Ht. discriminate.
  - apply Z.eqb_eq. apply Z.bits_inj_0. intros n.
    rewrite Z.land_spec. destruct (decide (n = i)) as [->|Hn].
    + now rewrite E.
    + rewrite Z.pow2_bits_false by auto. apply andb_false_r.
Qed.

Lemma has_bit_testbit x i : 0 <= i -> has x (bit i) = Z.testbit x i.
Proof. intros. unfold has. rewrite land_bit_testbit by auto. apply negb_involutive. Qed.

Lemma uint_testbit_high w x n : 0 <= w -> uint w x -> w <= n -> Z.testbit x n = false.
Proof.
  intros Hw Hx Hn. rewrite <- (wrap_id w x Hx). apply Z.mod_pow2_bits_high. lia.
Qed.

Lemma uint_testbit_intro w x :
  0 <= w -> 0 <= x -> (forall n, w <= n -> Z.testbit x n = false) -> uint w x.
Proof.
  intros Hw Hx Hb. replace x with (wrap w x); [now apply wrap_uint|].
  apply Z.bits_inj'. intros n Hn. unfold wrap.
  rewrite Z.testbit_mod_pow2 by lia.
  destruct (Z.ltb_spec n w); simpl; [reflexivity|]. symmetry. auto.
Qed.

Lemma uint_lor w x y : 0 <= w -> uint w x -> uint w y -> uint w (Z.lor x y).
Proof.
  intros Hw Hx Hy. apply uint_testbit_intro; [lia| |].
  - apply Z.lor_nonneg. unfold uint in *. lia.
  - intros. rewrite Z.lor_spec, !(uint_testbit_high w); auto.
Qed.

Lemma uint_land w x y : 0 <= w -> uint w x -> 0 <= y -> uint w (Z.land x y).
Proof.
  intros Hw Hx Hy. apply uint_testbit_intro; [lia| |].
  - apply Z.land_nonneg. lia.
  - intros. now rewrite Z.land_spec, (uint_testbit_high w x).
Qed.

Lemma uint_shiftr w x k : 0 <= w -> 0 <= k -> uint w x -> uint w (Z.shiftr x k).
Proof.
  intros Hw Hk Hx. apply uint_testbit_intro; [lia| |].
  - apply Z.shiftr_nonneg. unfold uint in Hx. lia.
  - intros. rewrite Z.shiftr_spec by lia. apply (uint_testbit_high w); auto. lia.
Qed.

Lemma uint_bit w i : 0 <= i < w -> uint w (bit i).
Proof.
  intros. unfold bit, uint. rewrite Z.shiftl_1_l.
  split; [lia|]. apply Z.pow_lt_mono_r; lia.
Qed.

(** ** Bounded loops

    [iter_until p step s] runs [step] at most [p] times: [inl] carries the
    state on, [inr] is the loop's early exit.  The fuel is binary, so that a
    loop with 2^32 iterations in the worst case still evaluates at the cost of
    the iterations it makes. *)

Fixpoint iter_until {S R} (p : positive) (step : S -> S + R) (s : S) : S + R :=
  match p with
  | xH => step s
  | xO q => match iter_until q step s with
            | inl s' => iter_until q step s'
            | inr r => inr r
            end
  | xI q => match step s with
            | inl s1 => match iter_until q step s1 with
                        | inl s' => iter_until q step s'
                        | inr r => inr r
                        end
            | inr r => inr r
            end
  end.

(** The unary reference of the same loop. *)
Fixpoint iter_nat {S R} (n : nat) (step : S -> S + R) (s : S) : S + R :=
  match n with
  | O => inl s
  | S n => match step s with inl s' => iter_nat n step s' | inr r => inr r end
  end.

Lemma iter_nat_add {S R} (n m : nat) (step : S -> S + R) s :
  iter_nat (n + m) step s =
  match iter_nat n step s with inl s' => iter_nat m step s' | inr r => inr r end.
Proof.
  revert s. induction n as [|n IH]; intros s; simpl; [reflexivity|].
  destruct (step s); auto.
Qed.

Lemma iter_until_nat {S R} (p : positive) (step : S -> S + R) s :
  iter_until p step s = iter_nat (Pos.to_nat p) step s.
Proof.
  revert s. induction p as [p IH|p IH|]; intros s.
  - rewrite Pos2Nat.inj_xI. simpl. destruct (step s); [|reflexivity].
    rewrite Nat.add_0_r, iter_nat_add, IH.
    destruct (iter_nat (Pos.to_nat p) step s0); auto.
  - rewrite Pos2Nat.inj_xO. simpl. rewrite Nat.add_0_r, iter_nat_add, IH.
    destruct (iter_nat (Pos.to_nat p) step s); auto.
  - simpl. destruct (step s); reflexivity.
Qed.

(** ** Lists *)

Definition sumZ (l : list Z) : Z := foldr Z.add 0 l.

Lemma sumZ_cons x l : sumZ (x :: l) = x + sumZ l.
Proof. reflexivity. Qed.

Lemma sumZ_app l k : sumZ (l ++ k) = sumZ l + sumZ k.
Proof. induction l; simpl; [reflexivity|]. fold (sumZ (l ++ k)). fold (sumZ l). lia. Qed.

Lemma sumZ_nonneg l : Forall (fun x => 0 <= x) l -> 0 <= sumZ l.
Proof. induction 1; simpl; [lia|]. fold (sumZ l). lia. Qed.

#[export] Instance sumZ_Permutation : Proper (Permutation ==> eq) sumZ.
Proof. intros l k H. induction H; cbn in *; unfold sumZ in *; lia. Qed.

Lemma sumZ_insert l i x y :
  l !! i = Some x -> sumZ (<[i := y]> l) = sumZ l - x + y.
Proof.
  revert i. induction l as [|a l IH]; intros [|i] Hi; simplify_eq/=.
  - lia.
  - fold (sumZ (<[i:=y]> l)). fold (sumZ l). rewrite (IH i Hi). lia.
Qed.

(** A loop [for (i = 0; i < n; i++)] keeps an invariant indexed by the turn. *)
Lemma fold_seq_ind {S} (P : nat -> S -> Prop) (f : S -> nat -> S) n s :
  P 0%nat s -> (forall i s, (i < n)%nat -> P i s -> P (Datatypes.S i) (f s i)) ->
  P n (fold_left f (seq 0 n) s).
Proof.
  intros H0 Hs. induction n as [|n IH]; [exact H0|].
  rewrite seq_S, fold_left_app. cbn. apply Hs; [lia|]. apply IH. intros. apply Hs; [lia|auto].
Qed.

(** A list of which the first [i] elements have been mapped: what a loop that
    updates an array in place has done after [i] turns. *)
Definition swept {A} (g : A -> A) (i : nat) (l : list A) : list A := map g (take i l) ++ drop i l.

Lemma length_swept {A} (g : A -> A) i l : length (swept g i l) = length l.
Proof. unfold swept. rewrite length_app, length_map, length_take, length_drop. lia. Qed.

Lemma swept_0 {A} (g : A -> A) l : swept g 0 l = l.
Proof. reflexivity. Qed.

Lemma swept_all {A} (g : A -> A) l : swept g (length l) l = map g l.
Proof. unfold swept. now rewrite take_ge, drop_ge, app_nil_r by lia. Qed.

Lemma swept_lookup {A} (g : A -> A) i l : swept g i l !! i = l !! i.
Proof.
  unfold swept. destruct (decide (i < length l)%nat).
  - rewrite lookup_app_r; rewrite length_map, length_take; [|lia]. rewrite lookup_drop. f_equal. lia.
  - rewrite !lookup_ge_None_2; [reflexivity|lia|]. rewrite length_app, length_map, length_take, length_drop. lia.
Qed.

Lemma swept_S {A} (g : A -> A) i l e :
  l !! i = Some e -> swept g (S i) l = <[i := g e]> (swept g i l).
Proof.
  intros H. unfold swept. rewrite (take_S_r _ _ _ H), map_app. cbn [map].
  pose proof (lookup_lt_Some _ _ _ H). rewrite (drop_S _ _ _ H).
  rewrite insert_app_r_alt; rewrite length_map, length_take; [|lia].
  rewrite Nat.min_l, Nat.sub_diag by lia. cbn. now rewrite <- app_assoc.
Qed.

(** The turn of such a loop that leaves the element alone. *)
Lemma swept_S_id {A} (g : A -> A) i l e :
  l !! i = Some e -> g e = e -> swept g (S i) l = swept g i l.
Proof. intros H Hg. rewrite (swept_S _ _ _ _ H), Hg. apply list_insert_id. now rewrite swept_lookup. Qed.

(** The first index whose element satisfies [P]: a C search loop with [break]. *)
Fixpoint find_index {A} (P : A -> bool) (l : list A) : option nat :=
  match l with
  | [] => None
  | x :: l => if P x then Some 0%nat else S <$> find_index P l
  end.

Lemma find_index_Some {A} (P : A -> bool) l i :
  find_index P l = Some i ->
  exists x, l !! i = Some x /\ P x = true /\
    forall j y, (j < i)%nat -> l !! j = Some y -> P y = false.
Proof.
  revert i. induction l as [|a l IH]; intros i; simpl; [discriminate|].
  destruct (P a) eqn:E.
  - intros [= <-]. exists a. repeat split; auto. lia.
  - destruct (find_index P l) as [k|] eqn:F; simpl; [|discriminate].
    intros [= <-]. destruct (IH k eq_refl) as (x & ? & ? & Hlt).
    exists x. repeat split; auto. intros [|j] y Hj Hl; simplify_eq/=; auto.
    apply (Hlt j); [lia|auto].
Qed.

Lemma find_index_ext {A} (P Q : A -> bool) l : (forall x, P x = Q x) -> find_index P l = find_index Q l.
Proof. intros H. induction l as [|x l IH]; cbn; [reflexivity|]. now rewrite H, IH. Qed.

Lemma find_index_None {A} (P : A -> bool) l :
  find_index P l = None <-> forall x, In x l -> P x = false.
Proof.
  induction l as [|a l IH]; simpl.
  - split; auto. intros _ x [].
  - destruct (P a) eqn:E.
    + split; [discriminate|]. intros H. specialize (H a (or_introl eq_refl)). congruence.
    + destruct (find_index P l); simpl.
      * split; [discriminate|]. intros H. exfalso.
        assert (Some n = None) as [=]. apply IH. auto.
      * split; auto. intros _ x [<-|Hx]; auto. now apply IH.
Qed.

(** ** Tactics

    [guards] opens the chain of early returns of a translated function, one
    [if] at a time; [guards_in H] does it in a hypothesis that says how the
    function returned, and discards the branches that contradict it. *)

Ltac guards :=
  repeat match goal with
         | |- context [if ?b then _ else _] => destruct b eqn:?; try discriminate
         end.

Ltac guards_in H :=
  repeat match type of H with
         | context [if ?b then _ else _] => destruct b eqn:?; try discriminate H
         end.

(** Splits every conjunction among the hypotheses. *)
Ltac split_hyps :=
  repeat match goal with H : _ /\ _ |- _ => destruct H end.

(** Splits the conjunctions of the goal, leaving defined predicates folded. *)
Ltac conj_split := repeat match goal with |- _ /\ _ => split end.

(** A guard that did not fire: every disjunct of it is false.  [guard_hyps]
    splits such hypotheses, [guard_false] proves such a goal. *)
Ltac guard_hyps :=
  repeat match goal with
         | H : (_ || _) = false |- _ => apply orb_false_iff in H; destruct H
         | H : negb _ = false |- _ => apply negb_false_iff in H
         | H : negb _ = true |- _ => apply negb_true_iff in H
         | H : (_ && _) = true |- _ => apply andb_true_iff in H; destruct H
         | H : (_ =? _) = true |- _ => apply Z.eqb_eq in H
         | H : (_ =? _) = false |- _ => apply Z.eqb_neq in H
         | H : (_ <? _) = true |- _ => apply Z.ltb_lt in H
         | H : (_ <? _) = false |- _ => apply Z.ltb_ge in H
         | H : (_ <=? _) = true |- _ => apply Z.leb_le in H
         | H : (_ <=? _) = false |- _ => apply Z.leb_gt in H
         end.

Ltac guard_false :=
  repeat match goal with |- _ || _ = false => apply orb_false_iff; split end;
  first [ reflexivity | assumption
        | apply negb_false_iff; first [assumption | apply Z.eqb_eq; lia | lia]
        | apply Z.eqb_neq; lia | apply Z.ltb_ge; lia | apply Z.leb_gt; lia
        | lia | unfold zlen in *; lia ].

(** Takes the [else] branch of the goal's leading guard. *)
Ltac pass_guard :=
  match goal with
  | |- context [if ?b then Err _ else _] =>
      let H := fresh in assert (b = false) as H by guard_false; rewrite H; clear H
  end.

(** Unfolds the width predicates and closes the goal by linear arithmetic. *)
Ltac width_lia :=
  unfold wf_bytes, uint, sint, zlen, U8_MAX, U32_MAX, U64_MAX in *; lia.

(** Linear arithmetic with division and remainder by constants. *)
Ltac div_lia := Z.to_euclidean_division_equations; lia.

(** The powers of two of the widths, as literals. *)
Ltac pow_norm :=
  change (2 ^ 8) with 256 in *; change (2 ^ 16) with 65536 in *;
  change (2 ^ 24) with 16777216 in *; change (2 ^ 32) with 4294967296 in *;
  change (2 ^ 64) with 18446744073709551616 in *.

(** Evaluates a decidable closed proposition. *)
Ltac by_decide := apply (bool_decide_unpack _); vm_compute; exact I.

Create HintDb melodi discriminated.
#[export] Hint Extern 1 (_ <= _) => lia : melodi.
#[export] Hint Resolve wrap_uint uint_lor uint_land uint_shiftr : melodi.
Create Rewrite HintDb len.
#[export] Hint Rewrite @length_inserts @length_app @length_replicate @length_take
  @length_drop @length_insert : len.
