(* ===== verification/Buffer.v ===== *)
(** * Byte buffers and fixed-width integers in memory

    The byte-level operations that every codec of the program is made of:
    [memcpy]/[memset]/indexed stores into a buffer ([store]), reads through a
    pointer and an offset ([load]), and the big- and little-endian integer
    accessors that src/proto/wire.c, radio.c, mapping.c and the netlink
    structures use.  The laws are those of a memory: a load sees the last store
    to its range and is unaffected by a store to a disjoint range. *)
From S2P Require Import Prelude.

(** [store off bs buf]: [memcpy(buf + off, bs, |bs|)].  A store never changes
    the size of the buffer. *)
Definition store (off : nat) (bs buf : bytes) : bytes := list_inserts off bs buf.

(** [load off n buf]: the [n] bytes at [buf + off]. *)
Definition load (off n : nat) (buf : bytes) : bytes := take n (drop off buf).

(** [buf\[off\]], for an offset inside the buffer. *)
Definition byte_at (off : nat) (buf : bytes) : Z := nth off buf 0.

(** Big-endian integers: the bytes written and the value read. *)
Definition be16 (v : Z) : bytes := [wrap 8 (Z.shiftr v 8); wrap 8 v].
Definition be32 (v : Z) : bytes :=
  [wrap 8 (Z.shiftr v 24); wrap 8 (Z.shiftr v 16); wrap 8 (Z.shiftr v 8); wrap 8 v].
Definition be64 (v : Z) : bytes := be32 (wrap 32 (Z.shiftr v 32)) ++ be32 (wrap 32 v).

Definition get_be16 (b : bytes) : Z :=
  Z.lor (Z.shiftl (byte_at 0 b) 8) (byte_at 1 b).
Definition get_be32 (b : bytes) : Z :=
  Z.lor (Z.lor (Z.lor (Z.shiftl (byte_at 0 b) 24) (Z.shiftl (byte_at 1 b) 16))
           (Z.shiftl (byte_at 2 b) 8))
    (byte_at 3 b).
Definition get_be64 (b : bytes) : Z :=
  Z.lor (Z.shiftl (get_be32 b) 32) (get_be32 (drop 4 b)).

(** Little-endian integers. *)
Definition le16 (v : Z) : bytes := [wrap 8 v; wrap 8 (Z.shiftr v 8)].
Definition le32 (v : Z) : bytes :=
  [wrap 8 v; wrap 8 (Z.shiftr v 8); wrap 8 (Z.shiftr v 16); wrap 8 (Z.shiftr v 24)].
Definition get_le16 (b : bytes) : Z :=
  Z.lor (byte_at 0 b) (Z.shiftl (byte_at 1 b) 8).
Definition get_le32 (b : bytes) : Z :=
  Z.lor (Z.lor (Z.lor (byte_at 0 b) (Z.shiftl (byte_at 1 b) 8))
           (Z.shiftl (byte_at 2 b) 16))
    (Z.shiftl (byte_at 3 b) 24).

#[global] Arguments load : simpl never.
#[global] Arguments byte_at : simpl never.
#[global] Arguments store : simpl never.
#[global] Arguments be16 : simpl never.
#[global] Arguments be32 : simpl never.
#[global] Arguments be64 : simpl never.

(** ** Laws of the memory *)

Lemma length_store off bs buf : length (store off bs buf) = length buf.
Proof. apply length_inserts. Qed.

Lemma length_load off n buf :
  (off + n <= length buf)%nat -> length (load off n buf) = n.
Proof. intros. unfold load. rewrite length_take, length_drop. lia. Qed.

Lemma load_lookup off n buf i :
  load off n buf !! i = if decide (i < n)%nat then buf !! (off + i)%nat else None.
Proof.
  unfold load. case_decide.
  - now rewrite lookup_take_lt, lookup_drop by lia.
  - now rewrite lookup_take_ge by lia.
Qed.

Lemma load_store_eq off n bs buf :
  length bs = n -> (off + n <= length buf)%nat -> load off n (store off bs buf) = bs.
Proof.
  intros <- Hlen. apply list_eq. intros i. rewrite load_lookup. case_decide.
  - unfold store. rewrite list_lookup_inserts by lia. f_equal. lia.
  - symmetry. apply lookup_ge_None. lia.
Qed.

Lemma load_store_ne off n off' bs buf :
  (off + n <= off' \/ off' + length bs <= off)%nat ->
  load off n (store off' bs buf) = load off n buf.
Proof.
  intros Hd. apply list_eq. intros i. rewrite !load_lookup. case_decide; [|reflexivity].
  unfold store. destruct Hd.
  - apply list_lookup_inserts_lt. lia.
  - apply list_lookup_inserts_ge. lia.
Qed.

Lemma load_take off n m buf :
  (off + n <= m)%nat -> load off n (take m buf) = load off n buf.
Proof.
  intros. apply list_eq. intros i. rewrite !load_lookup. case_decide; [|reflexivity].
  apply lookup_take_lt. lia.
Qed.

Lemma load_all n buf : length buf = n -> load 0 n buf = buf.
Proof. intros <-. unfold load. rewrite drop_0. apply firstn_all. Qed.

Lemma load_app off n m buf : load off (n + m) buf = load off n buf ++ load (off + n) m buf.
Proof.
  apply list_eq. intros i. rewrite load_lookup.
  unfold load at 1. destruct (decide (off + n <= length buf)%nat).
  - destruct (decide (i < n)%nat).
    + rewrite lookup_app_l by (rewrite length_take, length_drop; lia).
      rewrite lookup_take_lt, lookup_drop by lia. now rewrite decide_True by lia.
    + rewrite lookup_app_r by (rewrite length_take, length_drop; lia).
      rewrite length_take, length_drop, load_lookup.
      replace (n `min` (length buf - off))%nat with n by lia.
      destruct (decide (i < n + m)%nat).
      * rewrite decide_True by lia. f_equal. lia.
      * now rewrite decide_False by lia.
  - rewrite (take_ge (drop off buf)) by (rewrite length_drop; lia).
    assert (load (off + n) m buf = []) as ->.
    { unfold load. rewrite drop_ge by lia. apply take_nil. }
    rewrite app_nil_r, lookup_drop. case_decide; [reflexivity|].
    symmetry. apply lookup_ge_None. lia.
Qed.

Lemma load_Forall P off n buf : Forall P buf -> Forall P (load off n buf).
Proof. intros. unfold load. now apply Forall_take, Forall_drop. Qed.

Lemma load_wf_bytes off n buf :
  (off + n <= length buf)%nat -> Forall u8 buf -> wf_bytes n (load off n buf).
Proof. split; [now apply length_load|now apply load_Forall]. Qed.

Lemma byte_at_load off buf : byte_at off buf = byte_at 0 (load off 1 buf).
Proof.
  unfold byte_at, load. revert off. induction buf as [|b buf IH]; intros [|off]; try reflexivity.
  simpl. apply IH.
Qed.

Lemma byte_at_drop off i buf : byte_at i (drop off buf) = byte_at (off + i) buf.
Proof.
  unfold byte_at. revert off. induction buf as [|b buf IH]; intros [|off]; try reflexivity.
  - now destruct i.
  - simpl. apply IH.
Qed.

Lemma byte_at_take n i buf : (i < n)%nat -> byte_at i (take n buf) = byte_at i buf.
Proof.
  unfold byte_at. revert n i. induction buf as [|b buf IH]; intros [|n] [|i] ?; try lia; try reflexivity.
  simpl. apply IH. lia.
Qed.

Lemma byte_at_u8 i buf : Forall u8 buf -> u8 (byte_at i buf).
Proof.
  unfold byte_at. intros H. revert i. induction H; intros [|i]; simpl; auto; unfold uint; lia.
Qed.

Lemma byte_at_lookup i buf x : buf !! i = Some x -> byte_at i buf = x.
Proof. unfold byte_at. intros. rewrite nth_lookup. now rewrite H. Qed.

(** A one-byte range of a buffer. *)
Lemma load_1 off buf : (off < length buf)%nat -> load off 1 buf = [byte_at off buf].
Proof.
  intros H. apply list_eq. intros i. rewrite load_lookup. case_decide.
  - assert (i = 0%nat) as -> by lia. rewrite Nat.add_0_r. simpl.
    apply lookup_lt_is_Some_2 in H as [x Hx]. now rewrite Hx, (byte_at_lookup _ _ _ Hx).
  - symmetry. apply lookup_ge_None. simpl. lia.
Qed.

(** ** Integers *)

Lemma lor_shiftl a k b : 0 <= k -> uint k b -> Z.lor (Z.shiftl a k) b = a * 2 ^ k + b.
Proof.
  intros Hk Hb. rewrite <- Z.shiftl_mul_pow2 by lia.
  assert (Z.land (Z.shiftl a k) b = 0) as Hz.
  { apply Z.bits_inj_0. intros n. rewrite Z.land_spec.
    destruct (Z.ltb_spec n k).
    - destruct (decide (0 <= n)).
      + now rewrite Z.shiftl_spec_low by lia.
      + now rewrite !Z.testbit_neg_r by lia.
    - rewrite (uint_testbit_high k b) by (auto; lia). apply andb_false_r. }
  now rewrite <- Z.lxor_lor, <- Z.add_nocarry_lxor.
Qed.

Lemma wrap8_shiftr v k : 0 <= k -> wrap 8 (Z.shiftr v k) = v / 2 ^ k mod 256.
Proof. intros. unfold wrap. now rewrite Z.shiftr_div_pow2. Qed.

(** The integers read are the positional values of their bytes. *)
Lemma get_be16_val a b l : u8 a -> u8 b -> get_be16 (a :: b :: l) = a * 256 + b.
Proof.
  intros. unfold get_be16, byte_at. simpl nth. now rewrite lor_shiftl by (auto; lia).
Qed.

Lemma be32_combine a b c d : u8 a -> u8 b -> u8 c -> u8 d ->
  Z.lor (Z.lor (Z.lor (Z.shiftl a 24) (Z.shiftl b 16)) (Z.shiftl c 8)) d
  = a * 16777216 + b * 65536 + c * 256 + d.
Proof.
  intros Ha Hb Hc Hd. rewrite <- !Z.lor_assoc.
  assert (Z.lor (Z.shiftl c 8) d = c * 256 + d) as -> by (rewrite lor_shiftl; auto; lia).
  assert (Z.lor (Z.shiftl b 16) (c * 256 + d) = b * 65536 + (c * 256 + d)) as ->.
  { rewrite lor_shiftl; [lia|lia|]. width_lia. }
  rewrite lor_shiftl; [lia|lia|]. width_lia.
Qed.

Lemma get_be32_val a b c d l : u8 a -> u8 b -> u8 c -> u8 d ->
  get_be32 (a :: b :: c :: d :: l) = a * 16777216 + b * 65536 + c * 256 + d.
Proof. apply be32_combine. Qed.

Lemma get_be16_be16 v l : u16 v -> get_be16 (be16 v ++ l) = v.
Proof.
  intros. unfold be16. cbn [app]. rewrite get_be16_val by auto with melodi.
  rewrite wrap8_shiftr by lia. unfold wrap, uint in *. pow_norm. div_lia.
Qed.

Lemma get_be32_be32 v l : u32 v -> get_be32 (be32 v ++ l) = v.
Proof.
  intros. unfold be32. cbn [app]. rewrite get_be32_val by auto with melodi.
  rewrite !wrap8_shiftr by lia. unfold wrap, uint in *. pow_norm. div_lia.
Qed.

Lemma get_be64_be64 v l : u64 v -> get_be64 (be64 v ++ l) = v.
Proof.
  intros. unfold be64, get_be64. rewrite <- app_assoc, get_be32_be32 by auto with melodi.
  change (drop 4 (be32 (wrap 32 (Z.shiftr v 32)) ++ be32 (wrap 32 v) ++ l))
    with (be32 (wrap 32 v) ++ l).
  rewrite get_be32_be32, lor_shiftl by auto with melodi.
  unfold wrap, uint in *. rewrite Z.shiftr_div_pow2 by lia. pow_norm. div_lia.
Qed.

Lemma be16_get_be16 b : wf_bytes 2 b -> be16 (get_be16 b) = b.
Proof.
  intros [Hl Hb]. destruct b as [|x [|y []]]; try discriminate Hl.
  rewrite !Forall_cons_iff in Hb. split_hyps. rewrite get_be16_val by auto.
  unfold be16. rewrite wrap8_shiftr by lia. unfold wrap, uint in *. pow_norm.
  repeat f_equal; div_lia.
Qed.

Lemma be32_get_be32 b : wf_bytes 4 b -> be32 (get_be32 b) = b.
Proof.
  intros [Hl Hb]. destruct b as [|x [|y [|z [|t []]]]]; try discriminate Hl.
  rewrite !Forall_cons_iff in Hb. split_hyps. rewrite get_be32_val by auto.
  unfold be32. rewrite !wrap8_shiftr by lia. unfold wrap, uint in *. pow_norm.
  repeat f_equal; div_lia.
Qed.

Lemma get_be16_u16 b : Forall u8 b -> u16 (get_be16 b).
Proof.
  intros H. unfold get_be16.
  pose proof (byte_at_u8 0 b H). pose proof (byte_at_u8 1 b H).
  rewrite lor_shiftl by (auto; lia). width_lia.
Qed.

Lemma get_be32_u32 b : Forall u8 b -> u32 (get_be32 b).
Proof.
  intros H. unfold get_be32.
  pose proof (byte_at_u8 0 b H). pose proof (byte_at_u8 1 b H).
  pose proof (byte_at_u8 2 b H). pose proof (byte_at_u8 3 b H).
  rewrite be32_combine by auto. width_lia.
Qed.

Lemma get_be64_u64 b : Forall u8 b -> u64 (get_be64 b).
Proof.
  intros H. unfold get_be64.
  pose proof (get_be32_u32 b H). pose proof (get_be32_u32 (drop 4 b) (Forall_drop _ 4 _ H)).
  rewrite lor_shiftl by (auto; lia). width_lia.
Qed.

Lemma be64_get_be64 b : wf_bytes 8 b -> be64 (get_be64 b) = b.
Proof.
  intros [Hl Hb]. unfold get_be64.
  pose proof (get_be32_u32 b Hb). pose proof (get_be32_u32 (drop 4 b) (Forall_drop _ 4 _ Hb)).
  rewrite lor_shiftl by (auto; lia). unfold be64.
  assert (wrap 32 (Z.shiftr (get_be32 b * 2 ^ 32 + get_be32 (drop 4 b)) 32) = get_be32 b) as ->.
  { unfold wrap, uint in *. rewrite Z.shiftr_div_pow2 by lia. pow_norm. div_lia. }
  assert (wrap 32 (get_be32 b * 2 ^ 32 + get_be32 (drop 4 b)) = get_be32 (drop 4 b)) as ->.
  { unfold wrap, uint in *. pow_norm. div_lia. }
  destruct b as [|b0 [|b1 [|b2 [|b3 [|b4 [|b5 [|b6 [|b7 []]]]]]]]]; try discriminate Hl.
  rewrite !Forall_cons_iff in Hb. split_hyps.
  change (get_be32 [b0; b1; b2; b3; b4; b5; b6; b7]) with (get_be32 [b0; b1; b2; b3]).
  change (drop 4 [b0; b1; b2; b3; b4; b5; b6; b7]) with [b4; b5; b6; b7].
  rewrite !be32_get_be32 by (split; [reflexivity|repeat apply Forall_cons_2; auto]).
  reflexivity.
Qed.

Lemma length_be16 v : length (be16 v) = 2%nat. Proof. reflexivity. Qed.
Lemma length_be32 v : length (be32 v) = 4%nat. Proof. reflexivity. Qed.
Lemma length_be64 v : length (be64 v) = 8%nat. Proof. reflexivity. Qed.

Lemma be16_u8 v : Forall u8 (be16 v).
Proof. repeat apply Forall_cons_2; auto with melodi. Qed.
Lemma be32_u8 v : Forall u8 (be32 v).
Proof. repeat apply Forall_cons_2; auto with melodi. Qed.
Lemma be64_u8 v : Forall u8 (be64 v).
Proof. apply Forall_app. split; apply be32_u8. Qed.

(** ** Normal forms: every read of a buffer as the value of one [load] *)

Lemma get_be16_load off buf : get_be16 (drop off buf) = get_be16 (load off 2 buf).
Proof. unfold get_be16, load. now rewrite !(byte_at_take 2) by lia. Qed.

Lemma get_be32_load off buf : get_be32 (drop off buf) = get_be32 (load off 4 buf).
Proof. unfold get_be32, load. now rewrite !(byte_at_take 4) by lia. Qed.

Lemma get_be64_load off buf : get_be64 (drop off buf) = get_be64 (load off 8 buf).
Proof.
  unfold get_be64, get_be32, load.
  rewrite !(byte_at_take 8), !(byte_at_drop 4), !(byte_at_take 8) by lia. reflexivity.
Qed.

Lemma get_be16_nil v : u16 v -> get_be16 (be16 v) = v.
Proof. intros. rewrite <- (get_be16_be16 v []) at 2 by auto. now rewrite app_nil_r. Qed.
Lemma get_be32_nil v : u32 v -> get_be32 (be32 v) = v.
Proof. intros. rewrite <- (get_be32_be32 v []) at 2 by auto. now rewrite app_nil_r. Qed.
Lemma get_be64_nil v : u64 v -> get_be64 (be64 v) = v.
Proof. intros. rewrite <- (get_be64_be64 v []) at 2 by auto. now rewrite app_nil_r. Qed.

Lemma store_u8 off bs buf : Forall u8 bs -> Forall u8 buf -> Forall u8 (store off bs buf).
Proof.
  intros Hbs Hbuf. unfold store. revert off. induction Hbs; intros off; simpl; auto.
  apply Forall_insert; auto.
Qed.

Lemma load_load off n off' m buf :
  (off + n <= m)%nat -> load off n (load off' m buf) = load (off' + off) n buf.
Proof.
  intros. apply list_eq. intros i. rewrite !load_lookup.
  repeat case_decide; try reflexivity; try lia. f_equal. lia.
Qed.

(** ** Layouts

    What a frame encoder writes, as data: at each offset, a field of a given
    width.  [stores] is the sequence of writes; when the fields follow one
    another without gap or overlap the buffer starts with their concatenation,
    and a buffer that [matches] the layout is that concatenation. *)

Record chunk := Chunk { c_off : nat; c_len : nat; c_data : bytes }.

Definition stores (l : list chunk) (buf : bytes) : bytes :=
  fold_left (fun b c => store c.(c_off) c.(c_data) b) l buf.

Definition layout_bytes (l : list chunk) : bytes := concat (map c_data l).

Fixpoint contiguous (start : nat) (l : list chunk) : option nat :=
  match l with
  | [] => Some start
  | c :: rest => if Nat.eqb c.(c_off) start then contiguous (start + c.(c_len)) rest else None
  end.

Fixpoint sized (l : list chunk) : Prop :=
  match l with
  | [] => True
  | c :: rest => length c.(c_data) = c.(c_len) /\ sized rest
  end.

Fixpoint matches (buf : bytes) (l : list chunk) : Prop :=
  match l with
  | [] => True
  | c :: rest => load c.(c_off) c.(c_len) buf = c.(c_data) /\ matches buf rest
  end.

#[global] Arguments stores : simpl never.
#[global] Arguments layout_bytes : simpl never.

Lemma store_app_r off bs a b :
  length a = off -> (length bs <= length b)%nat ->
  store off bs (a ++ b) = a ++ bs ++ drop (length bs) b.
Proof.
  intros <- Hle. unfold store. rewrite <- (Nat.add_0_r (length a)), list_inserts_app_r.
  f_equal. rewrite <- (take_drop (length bs) b) at 1. apply list_inserts_0_r.
  rewrite length_take. lia.
Qed.

(** Two adjacent stores are one. *)
Lemma store_store off off' a b buf :
  off' = (off + length a)%nat -> store off' b (store off a buf) = store off (a ++ b) buf.
Proof.
  intros ->. unfold store. rewrite list_inserts_app_l. f_equal. lia.
Qed.

Lemma length_stores l buf : length (stores l buf) = length buf.
Proof.
  unfold stores. revert buf. induction l as [|c l IH]; intros buf; simpl; [reflexivity|].
  rewrite IH. apply length_store.
Qed.

Lemma layout_bytes_length start l stop :
  contiguous start l = Some stop -> sized l -> (length (layout_bytes l) + start = stop)%nat.
Proof.
  unfold layout_bytes. revert start. induction l as [|c l IH]; intros start; simpl.
  - now intros [= ->].
  - destruct (Nat.eqb_spec (c_off c) start); [|discriminate].
    intros Hc [Hd Hs]. rewrite length_app. specialize (IH _ Hc Hs). lia.
Qed.

Lemma stores_app l a b stop :
  contiguous (length a) l = Some stop -> sized l -> (stop - length a <= length b)%nat ->
  stores l (a ++ b) = a ++ layout_bytes l ++ drop (stop - length a) b.
Proof.
  unfold stores, layout_bytes. revert a b.
  induction l as [|c l IH]; intros a b; cbn [fold_left concat map contiguous sized].
  - intros [= <-] _ _. now rewrite Nat.sub_diag, drop_0.
  - destruct (Nat.eqb_spec (c_off c) (length a)) as [Ho|]; [|discriminate].
    intros Hc [Hd Hs] Hle.
    pose proof (layout_bytes_length _ _ _ Hc Hs) as Hlen.
    rewrite Ho, store_app_r by (auto; lia). rewrite app_assoc.
    rewrite (IH (a ++ c_data c)).
    + rewrite length_app, <- !app_assoc, drop_drop. repeat f_equal. lia.
    + rewrite length_app, Hd. exact Hc.
    + exact Hs.
    + rewrite length_app, length_drop. lia.
Qed.

(** The bytes a contiguous sequence of writes leaves at the start of a buffer. *)
Lemma stores_layout l n buf :
  contiguous 0 l = Some n -> sized l -> (n <= length buf)%nat ->
  stores l buf = layout_bytes l ++ drop n buf.
Proof.
  intros Hc Hs Hle. pose proof (stores_app l [] buf n Hc Hs) as H. simpl in H.
  rewrite Nat.sub_0_r in H. now apply H.
Qed.

Lemma matches_app start l stop pre rest :
  contiguous start l = Some stop -> sized l -> length pre = start ->
  matches (pre ++ layout_bytes l ++ rest) l.
Proof.
  unfold layout_bytes. revert start pre. induction l as [|c l IH]; intros start pre;
    cbn [contiguous sized matches concat map]; auto.
  destruct (Nat.eqb_spec (c_off c) start) as [Ho|]; [|discriminate].
  intros Hc [Hd Hs] Hp. split.
  - unfold load. rewrite Ho, <- Hp, drop_app_length, <- app_assoc, <- Hd. apply take_app_length.
  - rewrite <- app_assoc, app_assoc. apply (IH _ _ Hc Hs). rewrite length_app. lia.
Qed.

(** A buffer that starts with the layout matches it. *)
Lemma matches_layout l n rest :
  contiguous 0 l = Some n -> sized l -> matches (layout_bytes l ++ rest) l.
Proof. intros Hc Hs. now apply (matches_app 0 l n [] rest). Qed.

Lemma matches_load start l stop buf :
  contiguous start l = Some stop -> matches buf l ->
  load start (stop - start) buf = layout_bytes l.
Proof.
  unfold layout_bytes. revert start. induction l as [|c l IH]; intros start;
    cbn [contiguous matches concat map].
  - intros [= ->] _. now rewrite Nat.sub_diag.
  - destruct (Nat.eqb_spec (c_off c) start) as [Ho|]; [|discriminate].
    intros Hc [Hd Hm]. specialize (IH _ Hc Hm).
    assert (start + c_len c <= stop)%nat as Hle.
    { clear -Hc. revert Hc. generalize (start + c_len c)%nat as k.
      induction l as [|d l IH]; simpl; intros k; [intros [= ->]; lia|].
      destruct (Nat.eqb_spec (c_off d) k); [|discriminate]. intros H%IH. lia. }
    replace (stop - start)%nat with (c_len c + (stop - (start + c_len c)))%nat by lia.
    rewrite load_app. rewrite Ho in Hd. now rewrite Hd, IH.
Qed.

(** A buffer that matches a layout starts with its bytes. *)
Lemma matches_take l n buf :
  contiguous 0 l = Some n -> matches buf l -> buf = layout_bytes l ++ drop n buf.
Proof.
  intros Hc Hm. rewrite <- (matches_load 0 l n buf Hc Hm), Nat.sub_0_r.
  unfold load. rewrite drop_0. symmetry. apply take_drop.
Qed.

(** A fixed-size frame written field by field. *)
Lemma stores_frame l n out :
  contiguous 0 l = Some n -> sized l -> length out = n ->
  stores l out = layout_bytes l /\ length (stores l out) = n /\ matches (stores l out) l.
Proof.
  intros Hc Hs Hl. rewrite length_stores. split; [|split; [exact Hl|]].
  - rewrite (stores_layout l n) by (auto; lia). now rewrite drop_ge, app_nil_r by lia.
  - rewrite (stores_layout l n) by (auto; lia). now apply matches_layout with n.
Qed.

(** A fixed-size frame that carries a layout is the frame its fields write. *)
Lemma matches_frame l n out b :
  contiguous 0 l = Some n -> sized l -> length out = n -> length b = n ->
  matches b l -> stores l out = b.
Proof.
  intros Hc Hs Ho Hb Hm. rewrite (proj1 (stores_frame l n out Hc Hs Ho)).
  rewrite (matches_take l n b Hc Hm) at 1. now rewrite drop_ge, app_nil_r by lia.
Qed.

Lemma matches_app_iff buf l k : matches buf (l ++ k) <-> matches buf l /\ matches buf k.
Proof. induction l; simpl; tauto. Qed.

Lemma load_zeros4 off buf :
  (off + 4 <= length buf)%nat ->
  byte_at off buf = 0 -> byte_at (off + 1) buf = 0 -> byte_at (off + 2) buf = 0 ->
  byte_at (off + 3) buf = 0 -> load off 4 buf = replicate 4 0.
Proof.
  intros Hl H0 H1 H2 H3.
  rewrite (load_app off 1 3), (load_app (off + 1) 1 2), (load_app (off + 1 + 1) 1 1).
  replace (off + 1 + 1)%nat with (off + 2)%nat by lia.
  replace (off + 2 + 1)%nat with (off + 3)%nat by lia.
  rewrite !load_1, H0, H1, H2, H3 by lia. reflexivity.
Qed.

Lemma zeros4_load off buf :
  load off 4 buf = replicate 4 0 ->
  byte_at off buf = 0 /\ byte_at (off + 1) buf = 0 /\
  byte_at (off + 2) buf = 0 /\ byte_at (off + 3) buf = 0.
Proof.
  intros H.
  assert (forall i, (i < 4)%nat -> byte_at (off + i) buf = 0) as Hz.
  { intros i Hi. rewrite <- (byte_at_drop off i buf), <- (byte_at_take 4) by lia.
    change (take 4 (drop off buf)) with (load off 4 buf). rewrite H.
    destruct i as [|[|[|[|]]]]; try reflexivity. lia. }
  rewrite <- (Nat.add_0_r off) at 1. repeat split; apply Hz; lia.
Qed.

Lemma load_byte off buf x : load off 1 buf = [x] -> byte_at off buf = x.
Proof. intros H. now rewrite byte_at_load, H. Qed.

#[export] Hint Rewrite length_store length_be16 length_be32 length_be64 : len.
#[export] Hint Resolve be16_u8 be32_u8 be64_u8 get_be16_u16 get_be32_u32 get_be64_u64
  byte_at_u8 store_u8 load_Forall Forall_take Forall_drop : melodi.

Lemma take_store_append n (a buf : bytes) :
  (n + length a <= length buf)%nat ->
  take (n + length a) (store n a buf) = take n buf ++ a.
Proof.
  intros H. pose proof (load_app 0 n (length a) (store n a buf)) as HA.
  unfold load at 1 in HA. rewrite drop_0 in HA. rewrite HA. cbn [Nat.add].
  rewrite load_store_eq, load_store_ne by lia. unfold load. now rewrite drop_0.
Qed.

(** ** Little-endian integers *)

Lemma get_le16_val a b l : u8 a -> u8 b -> get_le16 (a :: b :: l) = b * 256 + a.
Proof.
  intros. unfold get_le16, byte_at. cbn [nth]. rewrite Z.lor_comm. now rewrite lor_shiftl by (auto; lia).
Qed.

Lemma get_le32_val a b c d l : u8 a -> u8 b -> u8 c -> u8 d ->
  get_le32 (a :: b :: c :: d :: l) = d * 16777216 + c * 65536 + b * 256 + a.
Proof.
  intros. rewrite <- be32_combine by auto. unfold get_le32, byte_at. cbn [nth].
  rewrite <- !Z.lor_assoc. rewrite (Z.lor_comm a), !Z.lor_assoc.
  rewrite (Z.lor_comm (Z.lor (Z.shiftl b 8) (Z.shiftl c 16))), !Z.lor_assoc.
  f_equal. rewrite <- !Z.lor_assoc. f_equal. apply Z.lor_comm.
Qed.

Lemma get_le16_le16 v l : u16 v -> get_le16 (le16 v ++ l) = v.
Proof.
  intros. unfold le16. cbn [app]. rewrite get_le16_val by auto with melodi.
  rewrite wrap8_shiftr by lia. unfold wrap, uint in *. pow_norm. div_lia.
Qed.

Lemma get_le32_le32 v l : u32 v -> get_le32 (le32 v ++ l) = v.
Proof.
  intros. unfold le32. cbn [app]. rewrite get_le32_val by auto with melodi.
  rewrite !wrap8_shiftr by lia. unfold wrap, uint in *. pow_norm. div_lia.
Qed.

Lemma le16_get_le16 b : wf_bytes 2 b -> le16 (get_le16 b) = b.
Proof.
  intros [Hl Hb]. destruct b as [|x [|y []]]; try discriminate Hl.
  rewrite !Forall_cons_iff in Hb. split_hyps. rewrite get_le16_val by auto.
  unfold le16. rewrite wrap8_shiftr by lia. unfold wrap, uint in *. pow_norm.
  repeat f_equal; div_lia.
Qed.

Lemma le32_get_le32 b : wf_bytes 4 b -> le32 (get_le32 b) = b.
Proof.
  intros [Hl Hb]. destruct b as [|x [|y [|z [|t []]]]]; try discriminate Hl.
  rewrite !Forall_cons_iff in Hb. split_hyps. rewrite get_le32_val by auto.
  unfold le32. rewrite !wrap8_shiftr by lia. unfold wrap, uint in *. pow_norm.
  repeat f_equal; div_lia.
Qed.

Lemma get_le16_u16 b : Forall u8 b -> u16 (get_le16 b).
Proof.
  intros H. unfold get_le16. rewrite Z.lor_comm.
  pose proof (byte_at_u8 0 b H). pose proof (byte_at_u8 1 b H).
  rewrite lor_shiftl by (auto; lia). width_lia.
Qed.

Lemma get_le32_u32 b : Forall u8 b -> u32 (get_le32 b).
Proof.
  intros H. destruct b as [|x [|y [|z [|t b]]]];
    try (rewrite !Forall_cons_iff in H; split_hyps; rewrite get_le32_val by auto; width_lia);
    rewrite ?Forall_cons_iff in H; split_hyps;
    match goal with |- u32 (get_le32 ?l) => change (get_le32 l) with (get_le32 (l ++ replicate (4 - length l) 0)) end;
    cbn [length Nat.sub replicate app]; rewrite get_le32_val by (auto; unfold uint; lia); width_lia.
Qed.

Lemma get_le16_load off buf : get_le16 (drop off buf) = get_le16 (load off 2 buf).
Proof. unfold get_le16, load. now rewrite !(byte_at_take 2) by lia. Qed.

Lemma get_le32_load off buf : get_le32 (drop off buf) = get_le32 (load off 4 buf).
Proof. unfold get_le32, load. now rewrite !(byte_at_take 4) by lia. Qed.

Lemma le16_u8 v : Forall u8 (le16 v).
Proof. repeat apply Forall_cons_2; auto with melodi. Qed.
Lemma le32_u8 v : Forall u8 (le32 v).
Proof. repeat apply Forall_cons_2; auto with melodi. Qed.

(** ** Fields read back from a matching buffer *)

Lemma field_be16 off b v : load off 2 b = be16 v -> u16 v -> get_be16 (drop off b) = v.
Proof. intros H Hv. now rewrite get_be16_load, H, get_be16_nil. Qed.
Lemma field_be32 off b v : load off 4 b = be32 v -> u32 v -> get_be32 (drop off b) = v.
Proof. intros H Hv. now rewrite get_be32_load, H, get_be32_nil. Qed.
Lemma field_be64 off b v : load off 8 b = be64 v -> u64 v -> get_be64 (drop off b) = v.
Proof. intros H Hv. now rewrite get_be64_load, H, get_be64_nil. Qed.
Lemma field_u8 off b v : load off 1 b = [wrap 8 v] -> u8 v -> byte_at off b = v.
Proof. intros H Hv. rewrite (load_byte _ _ _ H). now apply wrap_id. Qed.

(** And the other way round: what is read determines the bytes. *)
Lemma be16_field off b :
  (off + 2 <= length b)%nat -> Forall u8 b -> load off 2 b = be16 (get_be16 (drop off b)).
Proof. intros. rewrite get_be16_load, be16_get_be16; auto using load_wf_bytes. Qed.
Lemma be32_field off b :
  (off + 4 <= length b)%nat -> Forall u8 b -> load off 4 b = be32 (get_be32 (drop off b)).
Proof. intros. rewrite get_be32_load, be32_get_be32; auto using load_wf_bytes. Qed.
Lemma be64_field off b :
  (off + 8 <= length b)%nat -> Forall u8 b -> load off 8 b = be64 (get_be64 (drop off b)).
Proof. intros. rewrite get_be64_load, be64_get_be64; auto using load_wf_bytes. Qed.
Lemma u8_field off b :
  (off < length b)%nat -> Forall u8 b -> load off 1 b = [wrap 8 (byte_at off b)].
Proof. intros. rewrite load_1, wrap_id; auto using byte_at_u8. Qed.
Lemma zero_field off b :
  (off < length b)%nat -> byte_at off b = 0 -> load off 1 b = [wrap 8 0].
Proof. intros ? H. now rewrite load_1, H. Qed.

(** Turns the layout equations among the hypotheses into field values. *)
Ltac fields_in :=
  repeat match goal with
  | H : load ?o 1 ?b = [wrap 8 ?v] |- _ => apply (field_u8 o b v) in H; [|solve [auto|width_lia]]
  | H : load ?o 2 ?b = be16 ?v |- _ => apply (field_be16 o b v) in H; [|solve [auto|width_lia]]
  | H : load ?o 4 ?b = be32 ?v |- _ => apply (field_be32 o b v) in H; [|solve [auto|width_lia]]
  | H : load ?o 8 ?b = be64 ?v |- _ => apply (field_be64 o b v) in H; [|solve [auto|width_lia]]
  | H : load ?o 4 ?b = replicate 4 0 |- _ =>
      apply zeros4_load in H; destruct H as (? & ? & ? & ?)
  end; cbn [Nat.add] in *.

(** Replaces the reads of the goal by those values. *)
Ltac fields_subst :=
  repeat match goal with
  | H : get_be16 _ = _ |- _ => rewrite H; clear H
  | H : get_be32 _ = _ |- _ => rewrite H; clear H
  | H : get_be64 _ = _ |- _ => rewrite H; clear H
  | H : byte_at _ _ = _ |- _ => rewrite H; clear H
  | H : load _ _ _ = _ |- _ => rewrite H; clear H
  end.

(** Proves that a buffer carries a layout whose values were read from it. *)
Ltac field_out :=
  first [ apply be16_field | apply be32_field | apply be64_field | apply u8_field
        | apply zero_field | apply load_zeros4 ]; try assumption; try (unfold zlen in *; lia).
