(* ===== verification/Uapi.v ===== *)
(** * The user ABI: constants and node identities (src/proto/melodi.h)

    Node identities are 33-byte values; the numeric constants of the header
    are notations for their values. *)
From stdpp Require Import countable.
From S2P Require Import Prelude.

Abbreviation MELODI_GENL_VERSION := 1.
Abbreviation MELODI_NODE_ID_SIZE := 33%nat.
Abbreviation MELODI_NODE_KEY_SIZE := 32%nat.
Abbreviation MELODI_NODE_ID_SCHEME_ED25519 := 1.
Abbreviation MELODI_NODE_ID_TEXT_SIZE := 54%nat.
Abbreviation MELODI_MESSAGE_MTU := 4096.
Abbreviation MELODI_BROADCAST_MTU := 512.
Abbreviation MELODI_FRAME_MTU_MAX := 4176.
Abbreviation MELODI_FRAME_HEADER_MIN := 40.
Abbreviation MELODI_SERVICE_CONTROL := 0.
Abbreviation MELODI_SERVICE_ECHO := 65535.
Abbreviation MELODI_PRIORITY_MAX := 3.
Abbreviation MELODI_TTL_DEFAULT_MS := 30000.
Abbreviation MELODI_RADIO_SERIAL_MAX := 63.
Abbreviation MELODI_BUS_INFO_MAX := 31.

(** [enum melodi_command] *)
Abbreviation MELODI_CMD_UNSPEC := 0.
Abbreviation MELODI_CMD_BIND := 1.
Abbreviation MELODI_CMD_UNBIND := 2.
Abbreviation MELODI_CMD_SEND := 3.
Abbreviation MELODI_CMD_RECV := 4.
Abbreviation MELODI_CMD_ERROR := 5.
Abbreviation MELODI_CMD_GET_BINDING := 6.
Abbreviation MELODI_CMD_LINK_GET := 32.
Abbreviation MELODI_CMD_LINK_SET := 33.
Abbreviation MELODI_CMD_IDENTITY_LOAD := 34.
Abbreviation MELODI_CMD_IDENTITY_GET_PUBLIC := 35.
Abbreviation MELODI_CMD_PEER_DUMP := 36.
Abbreviation MELODI_CMD_PEER_TRUST := 37.
Abbreviation MELODI_CMD_PEER_BLOCK := 38.
Abbreviation MELODI_CMD_PEER_CLEAR := 39.
Abbreviation MELODI_CMD_PEER_REVERIFY := 40.
Abbreviation MELODI_CMD_DISCOVER := 41.
Abbreviation MELODI_CMD_POLICY_GET := 42.
Abbreviation MELODI_CMD_POLICY_SET := 43.
Abbreviation MELODI_CMD_STATS_GET := 44.
Abbreviation MELODI_CMD_MONITOR_BIND := 45.
Abbreviation MELODI_CMD_MONITOR_FRAME := 46.

(** [enum melodi_attribute] *)
Abbreviation MELODI_A_UNSPEC := 0.
Abbreviation MELODI_A_IFINDEX := 1.
Abbreviation MELODI_A_LOCAL_SERVICE := 2.
Abbreviation MELODI_A_DEST_NODE := 3.
Abbreviation MELODI_A_DEST_SERVICE := 4.
Abbreviation MELODI_A_SOURCE_NODE := 5.
Abbreviation MELODI_A_SOURCE_SERVICE := 6.
Abbreviation MELODI_A_PAYLOAD := 7.
Abbreviation MELODI_A_FLAGS := 8.
Abbreviation MELODI_A_COOKIE := 9.
Abbreviation MELODI_A_TTL_MS := 10.
Abbreviation MELODI_A_PRIORITY := 11.
Abbreviation MELODI_A_RX_META := 12.
Abbreviation MELODI_A_ERROR := 13.
Abbreviation MELODI_A_NODE_ID := 14.
Abbreviation MELODI_A_KEY_SERIAL := 15.
Abbreviation MELODI_A_LINK_STATE := 16.
Abbreviation MELODI_A_PEER_NATIVE_LOCATOR := 17.
Abbreviation MELODI_A_COLLISION_ROUND := 18.
Abbreviation MELODI_A_PEER_STATE := 19.
Abbreviation MELODI_A_GENERATION := 20.
Abbreviation MELODI_A_POLICY_MODE := 21.
Abbreviation MELODI_A_LINK_FAILURE := 22.
Abbreviation MELODI_A_LINK_ERROR := 23.
Abbreviation MELODI_A_RADIO_SERIAL := 24.
Abbreviation MELODI_A_STATS := 25.
Abbreviation MELODI_A_MONITOR_DIRECTION := 26.
Abbreviation MELODI_A_FRAME := 27.
Abbreviation MELODI_A_BUS_INFO := 28.
Abbreviation MELODI_A_PREVIOUS_NODE_ID := 29.
Abbreviation MELODI_A_POLICY_SERVICE := 30.
Abbreviation MELODI_A_POLICY_ACTION := 31.
Abbreviation MELODI_A_POLICY_BROADCAST := 32.
Abbreviation MELODI_A_PEER_EXPIRY_MS := 33.
Abbreviation MELODI_A_PEER_CAPABILITIES := 34.
Abbreviation MELODI_A_PEER_RSSI := 35.
Abbreviation MELODI_A_PEER_SNR := 36.
Abbreviation MELODI_A_PEER_HOPS := 37.
Abbreviation MELODI_A_PEER_LAST_SEEN_NS := 38.
Abbreviation MELODI_A_PEER_POLICY := 39.
Abbreviation MELODI_A_POLICY_RESET := 40.
Abbreviation MELODI_A_FRAME_PACE_US := 41.
Abbreviation MELODI_A_MAX := 41.

(** [enum melodi_rx_meta_attribute] *)
Abbreviation MELODI_RX_A_UNSPEC := 0.
Abbreviation MELODI_RX_A_AUTHENTICATED := 1.
Abbreviation MELODI_RX_A_DUPLICATES := 2.
Abbreviation MELODI_RX_A_HOPS := 3.
Abbreviation MELODI_RX_A_RSSI := 4.
Abbreviation MELODI_RX_A_SNR := 5.
Abbreviation MELODI_RX_A_TIMESTAMP_NS := 6.
Abbreviation MELODI_RX_A_RETRANSMISSIONS := 7.
Abbreviation MELODI_RX_A_MAX := 7.

(** [enum melodi_error_attribute] *)
Abbreviation MELODI_ERROR_A_UNSPEC := 0.
Abbreviation MELODI_ERROR_A_CODE := 1.
Abbreviation MELODI_ERROR_A_DETAIL := 2.
Abbreviation MELODI_ERROR_A_MAX := 2.

(** [enum melodi_stat_attribute] *)
Abbreviation MELODI_STAT_A_UNSPEC := 0.
Abbreviation MELODI_STAT_A_RX_PACKETS := 1.
Abbreviation MELODI_STAT_A_RX_BYTES := 2.
Abbreviation MELODI_STAT_A_RX_ERRORS := 3.
Abbreviation MELODI_STAT_A_RX_DROPPED := 4.
Abbreviation MELODI_STAT_A_TX_PACKETS := 5.
Abbreviation MELODI_STAT_A_TX_BYTES := 6.
Abbreviation MELODI_STAT_A_TX_ERRORS := 7.
Abbreviation MELODI_STAT_A_TX_DROPPED := 8.
Abbreviation MELODI_STAT_A_TX_QUEUE_FRAMES := 9.
Abbreviation MELODI_STAT_A_TX_QUEUE_BYTES := 10.
Abbreviation MELODI_STAT_A_AUTHENTICATED_PEERS := 11.
Abbreviation MELODI_STAT_A_REASSEMBLIES := 12.
Abbreviation MELODI_STAT_A_RELIABLE_PENDING := 13.
Abbreviation MELODI_STAT_A_DISCOVERY_PENDING := 14.
Abbreviation MELODI_STAT_A_AUTH_FAILURES := 15.
Abbreviation MELODI_STAT_A_REPLAY_DROPS := 16.
Abbreviation MELODI_STAT_A_BROADCAST_TX := 17.
Abbreviation MELODI_STAT_A_BROADCAST_RX := 18.
Abbreviation MELODI_STAT_A_AIRTIME_US := 19.
Abbreviation MELODI_STAT_A_BROADCAST_AIRTIME_US := 20.
Abbreviation MELODI_STAT_A_DUTY_DEFERS := 21.
Abbreviation MELODI_STAT_A_QUEUE_EXPIRED := 22.
Abbreviation MELODI_STAT_A_APP_DELIVERY_DROPS := 23.
Abbreviation MELODI_STAT_A_MONITOR_DROPS := 24.
Abbreviation MELODI_STAT_A_MAX := 24.

(** [enum melodi_monitor_direction] *)
Abbreviation MELODI_MONITOR_RX := 0.
Abbreviation MELODI_MONITOR_TX := 1.

(** [enum melodi_link_state] *)
Abbreviation MELODI_LINK_DISCONNECTED := 0.
Abbreviation MELODI_LINK_CONFIGURING := 1.
Abbreviation MELODI_LINK_READY := 2.
Abbreviation MELODI_LINK_FAILED := 3.

(** [enum melodi_peer_state] *)
Abbreviation MELODI_PEER_AUTHENTICATED := 0.
Abbreviation MELODI_PEER_TRUSTED := 1.
Abbreviation MELODI_PEER_BLOCKED := 2.
Abbreviation MELODI_PEER_CONFLICTED := 3.
Abbreviation MELODI_PEER_OBSERVED := 4.
Abbreviation MELODI_PEER_CHALLENGED := 5.

(** [enum melodi_policy_mode] *)
Abbreviation MELODI_POLICY_ALLOW_AUTHENTICATED := 0.
Abbreviation MELODI_POLICY_REQUIRE_TRUST := 1.

(** [enum melodi_peer_policy] *)
Abbreviation MELODI_PEER_POLICY_DEFAULT := 0.
Abbreviation MELODI_PEER_POLICY_TRUSTED := 1.
Abbreviation MELODI_PEER_POLICY_BLOCKED := 2.

(** [enum melodi_policy_action] *)
Abbreviation MELODI_POLICY_SERVICE_ALLOW := 1.
Abbreviation MELODI_POLICY_SERVICE_DENY := 2.
Abbreviation MELODI_POLICY_SERVICE_CLEAR := 3.

(** [enum melodi_send_flag] *)
Abbreviation MELODI_F_RELIABLE := 1.
Abbreviation MELODI_F_ORDERED := 2.
Abbreviation MELODI_F_AUTH_REQUIRED := 4.
Abbreviation MELODI_F_BROADCAST := 8.
Abbreviation MELODI_F_DONTWAIT := 16.
Abbreviation MELODI_F_ALL := 31.

(** [struct melodi_node_id] *)
Record melodi_node_id := MkNodeId { node_bytes : bytes }.

#[export] Instance melodi_node_id_eq_dec : EqDecision melodi_node_id.
Proof. solve_decision. Defined.
#[export] Instance melodi_node_id_countable : Countable melodi_node_id.
Proof.
  apply (inj_countable' node_bytes MkNodeId). now intros [].
Defined.

Definition wf_node_id (n : melodi_node_id) : Prop :=
  wf_bytes MELODI_NODE_ID_SIZE (node_bytes n).
#[export] Instance wf_node_id_dec n : Decision (wf_node_id n).
Proof. unfold wf_node_id. apply _. Defined.

Lemma node_id_eta n : MkNodeId (node_bytes n) = n.
Proof. now destruct n. Qed.
