(* ===== verification/Wire.v ===== *)
(** * The wire codec (src/proto/wire.c, src/proto/wire.h)

    Frame headers as records with the source's fields, one encoder and one
    decoder per frame class.  An encoder receives the output buffer and
    returns it as the stores leave it; a decoder reads by offset.  Pointers
    are the values they point to (a [NULL] guard has no counterpart) and the
    out-parameters of a decoder are the payload of its [Ok]. *)
From S2P Require Import Prelude Buffer Uapi.

Abbreviation MELODI_WIRE_VERSION := 1.
Abbreviation MELODI_WIRE_COMMON_SIZE := 40.
Abbreviation MELODI_WIRE_DATA_SIZE := 80.
Abbreviation MELODI_WIRE_BROADCAST_OVERHEAD := 48.
Abbreviation MELODI_WIRE_ACK_SIZE := 72.
Abbreviation MELODI_WIRE_HELLO_SIZE := 213.
Abbreviation MELODI_WIRE_AUTH_SIZE := 302.
Abbreviation MELODI_WIRE_CONTROL_SIZE := 209.

(** enum melodi_wire_class *)
Abbreviation MELODI_WIRE_HELLO := 1.
Abbreviation MELODI_WIRE_CHALLENGE := 2.
Abbreviation MELODI_WIRE_RESPONSE := 3.
Abbreviation MELODI_WIRE_DATA := 4.
Abbreviation MELODI_WIRE_ACK := 5.
Abbreviation MELODI_WIRE_CONFLICT := 6.
Abbreviation MELODI_WIRE_CONTROL := 7.

(** enum melodi_wire_flag *)
Abbreviation MELODI_WIRE_F_BROADCAST := 1.
Abbreviation MELODI_WIRE_F_ENCRYPTED := 2.
Abbreviation MELODI_WIRE_F_FINAL := 16.
Abbreviation MELODI_WIRE_F_ALL := 0x801f.

Abbreviation MELODI_DELIVERY_UNRELIABLE := 0.
Abbreviation MELODI_DELIVERY_RELIABLE_ORDERED := 2.
Abbreviation MELODI_ACK_PARTIAL := 0.
Abbreviation MELODI_ACK_COMPLETE := 1.
Abbreviation MELODI_ACK_REJECTED := 2.
Abbreviation MELODI_CONTROL_PROBE := 1.
Abbreviation MELODI_NATIVE_LOCATOR_INVALID := 0.
Abbreviation MELODI_NATIVE_LOCATOR_BROADCAST := 0xffffffff.

(** ** Frame headers *)

Record melodi_wire_common := {
  version : Z;
  frame_class : Z;
  flags : Z;
  header_length : Z;
  payload_length : Z;
  source_native_locator : Z;
  destination_native_locator : Z;
  identity_generation : Z;
  message_id : Z;
  counter : Z;
}.

Record melodi_wire_data := {
  data_common : melodi_wire_common;
  destination_service : Z;
  source_service : Z;
  fragment_index : Z;
  fragment_count : Z;
  logical_length : Z;
  delivery_mode : Z;
  priority : Z;
  ordering_marker : Z;
  data_tag : bytes;
}.

Record melodi_wire_ack := {
  ack_common : melodi_wire_common;
  acknowledged_generation : Z;
  ack_fragment_count : Z;
  ack_status : Z;
  ack_bitmap : Z;
  ack_tag : bytes;
}.

Record melodi_wire_hello := {
  hello_common : melodi_wire_common;
  hello_node_id : melodi_node_id;
  hello_mesh_domain : bytes;
  hello_collision_round : Z;
  hello_capabilities : Z;
  hello_expiry_seconds : Z;
  hello_challenge : bytes;
  hello_signature : bytes;
}.

Record melodi_wire_auth := {
  auth_common : melodi_wire_common;
  auth_source_node_id : melodi_node_id;
  auth_destination_node_id : melodi_node_id;
  auth_ephemeral_key : bytes;
  auth_challenge : bytes;
  auth_reply_to : bytes;
  auth_mesh_domain : bytes;
  auth_collision_round : Z;
  auth_signature : bytes;
}.

Record melodi_wire_control := {
  control_common : melodi_wire_common;
  control_node_id : melodi_node_id;
  control_mesh_domain : bytes;
  control_collision_round : Z;
  control_opcode : Z;
  control_data : bytes;
  control_signature : bytes;
}.

(** ** Integer accessors *)

Definition melodi_wire_get16 (input : bytes) : Z := get_be16 input.
Definition melodi_wire_get32 (input : bytes) : Z := get_be32 input.
Definition melodi_wire_get64 (input : bytes) : Z :=
  Z.lor (Z.shiftl (melodi_wire_get32 input) 32) (melodi_wire_get32 (drop 4 input)).
Definition melodi_wire_put16 (off : nat) (value : Z) (output : bytes) : bytes :=
  store off (be16 value) output.
Definition melodi_wire_put32 (off : nat) (value : Z) (output : bytes) : bytes :=
  store off (be32 value) output.
Definition melodi_wire_put64 (off : nat) (value : Z) (output : bytes) : bytes :=
  store off (be64 value) output.
Definition put8 (off : nat) (value : Z) (output : bytes) : bytes :=
  store off [wrap 8 value] output.

Definition melodi_wire_class_valid (frame_class : Z) : bool :=
  (MELODI_WIRE_HELLO <=? frame_class) && (frame_class <=? MELODI_WIRE_CONTROL).

(** ** The common header *)

Definition melodi_wire_encode_common (output : bytes) (header : melodi_wire_common) : bytes :=
  let output := put8 0 header.(version) output in
  let output := put8 1 header.(frame_class) output in
  let output := melodi_wire_put16 2 header.(flags) output in
  let output := melodi_wire_put16 4 header.(header_length) output in
  let output := melodi_wire_put16 6 header.(payload_length) output in
  let output := melodi_wire_put32 8 header.(source_native_locator) output in
  let output := melodi_wire_put32 12 header.(destination_native_locator) output in
  let output := melodi_wire_put32 16 header.(identity_generation) output in
  let output := melodi_wire_put64 20 header.(message_id) output in
  let output := melodi_wire_put64 28 header.(counter) output in
  store 36 (replicate 4 0) output.

Definition melodi_wire_decode_common (input : bytes) : result melodi_wire_common :=
  if zlen input <? MELODI_WIRE_COMMON_SIZE then Err EMSGSIZE else
  let header := {|
    version := byte_at 0 input;
    frame_class := byte_at 1 input;
    flags := melodi_wire_get16 (drop 2 input);
    header_length := melodi_wire_get16 (drop 4 input);
    payload_length := melodi_wire_get16 (drop 6 input);
    source_native_locator := melodi_wire_get32 (drop 8 input);
    destination_native_locator := melodi_wire_get32 (drop 12 input);
    identity_generation := melodi_wire_get32 (drop 16 input);
    message_id := melodi_wire_get64 (drop 20 input);
    counter := melodi_wire_get64 (drop 28 input);
  |} in
  if negb (header.(version) =? MELODI_WIRE_VERSION) ||
     negb (melodi_wire_class_valid header.(frame_class)) ||
     has header.(flags) (Z.lnot MELODI_WIRE_F_ALL) ||
     (header.(header_length) <? MELODI_WIRE_COMMON_SIZE) ||
     (zlen input <? header.(header_length)) ||
     negb (header.(payload_length) =? zlen input - header.(header_length)) ||
     negb (byte_at 36 input =? 0) || negb (byte_at 37 input =? 0) ||
     negb (byte_at 38 input =? 0) || negb (byte_at 39 input =? 0)
  then Err EPROTO else Ok header.

(** The header an encoder sends: the caller's, with the fields that the
    encoder owns overwritten. *)
Definition set_common (c : melodi_wire_common) (class hlen plen : Z) : melodi_wire_common := {|
  version := MELODI_WIRE_VERSION;
  frame_class := class;
  flags := c.(flags);
  header_length := hlen;
  payload_length := plen;
  source_native_locator := c.(source_native_locator);
  destination_native_locator := c.(destination_native_locator);
  identity_generation := c.(identity_generation);
  message_id := c.(message_id);
  counter := c.(counter);
|}.

(** ** Data frames *)

Definition melodi_wire_encode_data_header (output : bytes)
    (header : melodi_wire_data) (wire_payload_length : Z) : result bytes :=
  if (0xffff <? wire_payload_length) ||
     (zlen output <? MELODI_WIRE_DATA_SIZE + wire_payload_length) ||
     (header.(fragment_count) =? 0) ||
     (header.(fragment_count) <=? header.(fragment_index)) ||
     (MELODI_DELIVERY_RELIABLE_ORDERED <? header.(delivery_mode)) ||
     (MELODI_PRIORITY_MAX <? header.(priority)) ||
     has header.(data_common).(flags) (Z.lnot MELODI_WIRE_F_ALL)
  then Err EINVAL else
  let common := set_common header.(data_common) MELODI_WIRE_DATA
                  MELODI_WIRE_DATA_SIZE wire_payload_length in
  let output := melodi_wire_encode_common output common in
  let output := melodi_wire_put16 40 header.(destination_service) output in
  let output := melodi_wire_put16 42 header.(source_service) output in
  let output := melodi_wire_put16 44 header.(fragment_index) output in
  let output := melodi_wire_put16 46 header.(fragment_count) output in
  let output := melodi_wire_put32 48 header.(logical_length) output in
  let output := put8 52 header.(delivery_mode) output in
  let output := put8 53 header.(priority) output in
  let output := put8 54 0 output in
  let output := put8 55 0 output in
  let output := melodi_wire_put32 56 header.(ordering_marker) output in
  let output := store 60 header.(data_tag) output in
  Ok (store 76 (replicate 4 0) output).

(** The result is the buffer and the encoded length. *)
Definition melodi_wire_encode_data (output : bytes) (header : melodi_wire_data)
    (payload : bytes) : result (bytes * Z) :=
  if header.(logical_length) <? zlen payload then Err EINVAL else
  output ← melodi_wire_encode_data_header output header (zlen payload);
  let output := store 80 payload output in
  Ok (output, MELODI_WIRE_DATA_SIZE + zlen payload).

Definition set_tag (h : melodi_wire_data) (tag : bytes) : melodi_wire_data := {|
  data_common := h.(data_common);
  destination_service := h.(destination_service);
  source_service := h.(source_service);
  fragment_index := h.(fragment_index);
  fragment_count := h.(fragment_count);
  logical_length := h.(logical_length);
  delivery_mode := h.(delivery_mode);
  priority := h.(priority);
  ordering_marker := h.(ordering_marker);
  data_tag := tag;
|}.

Definition melodi_wire_encode_broadcast_data (output : bytes)
    (header : melodi_wire_data) (signature payload : bytes) : result (bytes * Z) :=
  if (header.(logical_length) <? zlen payload) ||
     negb (header.(data_common).(destination_native_locator) =?
             MELODI_NATIVE_LOCATOR_BROADCAST) ||
     negb (Z.land header.(data_common).(flags) (Z.lnot MELODI_WIRE_F_FINAL) =?
             MELODI_WIRE_F_BROADCAST) ||
     negb (header.(delivery_mode) =? MELODI_DELIVERY_UNRELIABLE) ||
     negb (header.(ordering_marker) =? 0)
  then Err EINVAL else
  let wire_payload_length := MELODI_WIRE_BROADCAST_OVERHEAD + zlen payload in
  let signed_header := set_tag header (load 0 16 signature) in
  output ← melodi_wire_encode_data_header output signed_header wire_payload_length;
  let output := store 80 (load 16 48 signature) output in
  let output := store 128 payload output in
  Ok (output, MELODI_WIRE_DATA_SIZE + wire_payload_length).

Definition melodi_wire_decode_data (input : bytes) : result (melodi_wire_data * bytes) :=
  common ← melodi_wire_decode_common input;
  if negb (common.(frame_class) =? MELODI_WIRE_DATA) ||
     negb (common.(header_length) =? MELODI_WIRE_DATA_SIZE)
  then Err EPROTO else
  let header := {|
    data_common := common;
    destination_service := melodi_wire_get16 (drop 40 input);
    source_service := melodi_wire_get16 (drop 42 input);
    fragment_index := melodi_wire_get16 (drop 44 input);
    fragment_count := melodi_wire_get16 (drop 46 input);
    logical_length := melodi_wire_get32 (drop 48 input);
    delivery_mode := byte_at 52 input;
    priority := byte_at 53 input;
    ordering_marker := melodi_wire_get32 (drop 56 input);
    data_tag := load 60 16 input;
  |} in
  if (header.(fragment_count) =? 0) ||
     (header.(fragment_count) <=? header.(fragment_index)) ||
     (if has common.(flags) MELODI_WIRE_F_BROADCAST
      then (common.(payload_length) <? MELODI_WIRE_BROADCAST_OVERHEAD) ||
           (header.(logical_length) <?
              wrap 32 (common.(payload_length) - MELODI_WIRE_BROADCAST_OVERHEAD))
      else header.(logical_length) <? common.(payload_length)) ||
     (MELODI_DELIVERY_RELIABLE_ORDERED <? header.(delivery_mode)) ||
     (MELODI_PRIORITY_MAX <? header.(priority)) ||
     negb (byte_at 54 input =? 0) || negb (byte_at 55 input =? 0) ||
     negb (byte_at 76 input =? 0) || negb (byte_at 77 input =? 0) ||
     negb (byte_at 78 input =? 0) || negb (byte_at 79 input =? 0)
  then Err EPROTO else Ok (header, drop 80 input).

(** The result is the header, the 64-byte signature and the application payload. *)
Definition melodi_wire_decode_broadcast_data (input : bytes)
    : result (melodi_wire_data * bytes * bytes) :=
  '(header, physical_payload) ← melodi_wire_decode_data input;
  let common := header.(data_common) in
  if negb (common.(destination_native_locator) =? MELODI_NATIVE_LOCATOR_BROADCAST) ||
     negb (Z.land common.(flags) (Z.lnot MELODI_WIRE_F_FINAL) =? MELODI_WIRE_F_BROADCAST) ||
     negb (header.(delivery_mode) =? MELODI_DELIVERY_UNRELIABLE) ||
     negb (header.(ordering_marker) =? 0) ||
     (common.(payload_length) <? MELODI_WIRE_BROADCAST_OVERHEAD)
  then Err EPROTO else
  let signature := header.(data_tag) ++ load 0 48 physical_payload in
  let payload_length := common.(payload_length) - MELODI_WIRE_BROADCAST_OVERHEAD in
  Ok (header, signature, load 48 (Z.to_nat payload_length) physical_payload).

(** ** Acknowledgements *)

Definition ack_expected (fragment_count : Z) : Z :=
  if fragment_count =? 64 then U64_MAX else wrap 64 (bit fragment_count - 1).

Definition locator_bad (l : Z) : bool :=
  (l =? MELODI_NATIVE_LOCATOR_INVALID) || (l =? MELODI_NATIVE_LOCATOR_BROADCAST).

Definition melodi_wire_encode_ack (output : bytes) (header : melodi_wire_ack) : result bytes :=
  let c := header.(ack_common) in
  if negb (c.(flags) =? MELODI_WIRE_F_ENCRYPTED) ||
     locator_bad c.(source_native_locator) ||
     locator_bad c.(destination_native_locator) ||
     (c.(identity_generation) =? 0) || (c.(message_id) =? 0) || (c.(counter) =? 0) ||
     (header.(acknowledged_generation) =? 0) ||
     (header.(ack_fragment_count) =? 0) || (64 <? header.(ack_fragment_count)) ||
     (MELODI_ACK_REJECTED <? header.(ack_status)) || (header.(ack_bitmap) =? 0)
  then Err EINVAL else
  let expected := ack_expected header.(ack_fragment_count) in
  if has header.(ack_bitmap) (lnot_w 64 expected) ||
     ((header.(ack_status) =? MELODI_ACK_COMPLETE) && negb (header.(ack_bitmap) =? expected))
  then Err EINVAL else
  let common := set_common c MELODI_WIRE_ACK MELODI_WIRE_ACK_SIZE 0 in
  let output := melodi_wire_encode_common output common in
  let output := melodi_wire_put32 40 header.(acknowledged_generation) output in
  let output := melodi_wire_put16 44 header.(ack_fragment_count) output in
  let output := put8 46 header.(ack_status) output in
  let output := put8 47 0 output in
  let output := melodi_wire_put64 48 header.(ack_bitmap) output in
  Ok (store 56 header.(ack_tag) output).

Definition melodi_wire_decode_ack (input : bytes) : result melodi_wire_ack :=
  c ← melodi_wire_decode_common input;
  if negb (c.(frame_class) =? MELODI_WIRE_ACK) ||
     negb (c.(flags) =? MELODI_WIRE_F_ENCRYPTED) ||
     negb (c.(header_length) =? MELODI_WIRE_ACK_SIZE) ||
     negb (c.(payload_length) =? 0) ||
     locator_bad c.(source_native_locator) ||
     locator_bad c.(destination_native_locator) ||
     (c.(identity_generation) =? 0) || (c.(message_id) =? 0) || (c.(counter) =? 0) ||
     negb (byte_at 47 input =? 0)
  then Err EPROTO else
  let header := {|
    ack_common := c;
    acknowledged_generation := melodi_wire_get32 (drop 40 input);
    ack_fragment_count := melodi_wire_get16 (drop 44 input);
    ack_status := byte_at 46 input;
    ack_bitmap := melodi_wire_get64 (drop 48 input);
    ack_tag := load 56 16 input;
  |} in
  if (header.(acknowledged_generation) =? 0) ||
     (header.(ack_fragment_count) =? 0) || (64 <? header.(ack_fragment_count)) ||
     (MELODI_ACK_REJECTED <? header.(ack_status)) || (header.(ack_bitmap) =? 0)
  then Err EPROTO else
  let expected := ack_expected header.(ack_fragment_count) in
  if has header.(ack_bitmap) (lnot_w 64 expected) ||
     ((header.(ack_status) =? MELODI_ACK_COMPLETE) && negb (header.(ack_bitmap) =? expected))
  then Err EPROTO else Ok header.

(** ** Claims: hello and conflict frames *)

Definition scheme_of (n : melodi_node_id) : Z := byte_at 0 (node_bytes n).

Definition melodi_wire_encode_claim (output : bytes) (header : melodi_wire_hello)
    (frame_class : Z) : result bytes :=
  let c := header.(hello_common) in
  if has c.(flags) (Z.lnot MELODI_WIRE_F_BROADCAST) ||
     negb (has c.(flags) MELODI_WIRE_F_BROADCAST) ||
     negb (c.(destination_native_locator) =? MELODI_NATIVE_LOCATOR_BROADCAST) ||
     negb (scheme_of header.(hello_node_id) =? MELODI_NODE_ID_SCHEME_ED25519)
  then Err EINVAL else
  let common := set_common c frame_class MELODI_WIRE_HELLO_SIZE 0 in
  let output := melodi_wire_encode_common output common in
  let output := store 40 (node_bytes header.(hello_node_id)) output in
  let output := store 73 header.(hello_mesh_domain) output in
  let output := melodi_wire_put32 105 header.(hello_collision_round) output in
  let output := melodi_wire_put32 109 header.(hello_capabilities) output in
  let output := melodi_wire_put32 113 header.(hello_expiry_seconds) output in
  let output := store 117 header.(hello_challenge) output in
  Ok (store 149 header.(hello_signature) output).

Definition melodi_wire_encode_hello (output : bytes) (header : melodi_wire_hello) : result bytes :=
  melodi_wire_encode_claim output header MELODI_WIRE_HELLO.

Definition melodi_wire_encode_conflict (output : bytes) (header : melodi_wire_hello) : result bytes :=
  melodi_wire_encode_claim output header MELODI_WIRE_CONFLICT.

Definition melodi_wire_decode_claim (input : bytes) (class : Z) : result melodi_wire_hello :=
  c ← melodi_wire_decode_common input;
  if negb (c.(frame_class) =? class) ||
     negb (c.(header_length) =? MELODI_WIRE_HELLO_SIZE) ||
     negb (c.(payload_length) =? 0) ||
     negb (c.(flags) =? MELODI_WIRE_F_BROADCAST) ||
     negb (c.(destination_native_locator) =? MELODI_NATIVE_LOCATOR_BROADCAST)
  then Err EPROTO else
  let header := {|
    hello_common := c;
    hello_node_id := MkNodeId (load 40 33 input);
    hello_mesh_domain := load 73 32 input;
    hello_collision_round := melodi_wire_get32 (drop 105 input);
    hello_capabilities := melodi_wire_get32 (drop 109 input);
    hello_expiry_seconds := melodi_wire_get32 (drop 113 input);
    hello_challenge := load 117 32 input;
    hello_signature := load 149 64 input;
  |} in
  if scheme_of header.(hello_node_id) =? MELODI_NODE_ID_SCHEME_ED25519
  then Ok header else Err EPROTO.

Definition melodi_wire_decode_hello (input : bytes) : result melodi_wire_hello :=
  melodi_wire_decode_claim input MELODI_WIRE_HELLO.

Definition melodi_wire_decode_conflict (input : bytes) : result melodi_wire_hello :=
  melodi_wire_decode_claim input MELODI_WIRE_CONFLICT.

(** ** Challenge and response frames *)

Definition melodi_wire_encode_auth (output : bytes) (header : melodi_wire_auth) : result bytes :=
  let c := header.(auth_common) in
  if (negb (c.(frame_class) =? MELODI_WIRE_CHALLENGE) &&
      negb (c.(frame_class) =? MELODI_WIRE_RESPONSE)) ||
     negb (c.(flags) =? 0) ||
     locator_bad c.(source_native_locator) ||
     locator_bad c.(destination_native_locator) ||
     negb (scheme_of header.(auth_source_node_id) =? MELODI_NODE_ID_SCHEME_ED25519) ||
     negb (scheme_of header.(auth_destination_node_id) =? MELODI_NODE_ID_SCHEME_ED25519)
  then Err EINVAL else
  let common := set_common c c.(frame_class) MELODI_WIRE_AUTH_SIZE 0 in
  let output := melodi_wire_encode_common output common in
  let output := store 40 (node_bytes header.(auth_source_node_id)) output in
  let output := store 73 (node_bytes header.(auth_destination_node_id)) output in
  let output := store 106 header.(auth_ephemeral_key) output in
  let output := store 138 header.(auth_challenge) output in
  let output := store 170 header.(auth_reply_to) output in
  let output := store 202 header.(auth_mesh_domain) output in
  let output := melodi_wire_put32 234 header.(auth_collision_round) output in
  Ok (store 238 header.(auth_signature) output).

Definition melodi_wire_decode_auth (input : bytes) : result melodi_wire_auth :=
  c ← melodi_wire_decode_common input;
  if (negb (c.(frame_class) =? MELODI_WIRE_CHALLENGE) &&
      negb (c.(frame_class) =? MELODI_WIRE_RESPONSE)) ||
     negb (c.(flags) =? 0) ||
     negb (c.(header_length) =? MELODI_WIRE_AUTH_SIZE) ||
     negb (c.(payload_length) =? 0) ||
     locator_bad c.(source_native_locator) ||
     locator_bad c.(destination_native_locator)
  then Err EPROTO else
  let header := {|
    auth_common := c;
    auth_source_node_id := MkNodeId (load 40 33 input);
    auth_destination_node_id := MkNodeId (load 73 33 input);
    auth_ephemeral_key := load 106 32 input;
    auth_challenge := load 138 32 input;
    auth_reply_to := load 170 32 input;
    auth_mesh_domain := load 202 32 input;
    auth_collision_round := melodi_wire_get32 (drop 234 input);
    auth_signature := load 238 64 input;
  |} in
  if negb (scheme_of header.(auth_source_node_id) =? MELODI_NODE_ID_SCHEME_ED25519) ||
     negb (scheme_of header.(auth_destination_node_id) =? MELODI_NODE_ID_SCHEME_ED25519)
  then Err EPROTO else Ok header.

(** ** Control frames *)

Definition melodi_wire_encode_control (output : bytes) (header : melodi_wire_control)
    : result bytes :=
  let c := header.(control_common) in
  if negb (c.(flags) =? MELODI_WIRE_F_BROADCAST) ||
     locator_bad c.(source_native_locator) ||
     negb (c.(destination_native_locator) =? MELODI_NATIVE_LOCATOR_BROADCAST) ||
     negb (scheme_of header.(control_node_id) =? MELODI_NODE_ID_SCHEME_ED25519) ||
     negb (header.(control_opcode) =? MELODI_CONTROL_PROBE)
  then Err EINVAL else
  let common := set_common c MELODI_WIRE_CONTROL MELODI_WIRE_CONTROL_SIZE 0 in
  let output := melodi_wire_encode_common output common in
  let output := store 40 (node_bytes header.(control_node_id)) output in
  let output := store 73 header.(control_mesh_domain) output in
  let output := melodi_wire_put32 105 header.(control_collision_round) output in
  let output := melodi_wire_put16 109 header.(control_opcode) output in
  let output := put8 111 0 output in
  let output := put8 112 0 output in
  let output := store 113 header.(control_data) output in
  Ok (store 145 header.(control_signature) output).

Definition melodi_wire_decode_control (input : bytes) : result melodi_wire_control :=
  c ← melodi_wire_decode_common input;
  if negb (c.(frame_class) =? MELODI_WIRE_CONTROL) ||
     negb (c.(flags) =? MELODI_WIRE_F_BROADCAST) ||
     negb (c.(header_length) =? MELODI_WIRE_CONTROL_SIZE) ||
     negb (c.(payload_length) =? 0) ||
     locator_bad c.(source_native_locator) ||
     negb (c.(destination_native_locator) =? MELODI_NATIVE_LOCATOR_BROADCAST) ||
     negb (byte_at 111 input =? 0) || negb (byte_at 112 input =? 0)
  then Err EPROTO else
  let header := {|
    control_common := c;
    control_node_id := MkNodeId (load 40 33 input);
    control_mesh_domain := load 73 32 input;
    control_collision_round := melodi_wire_get32 (drop 105 input);
    control_opcode := melodi_wire_get16 (drop 109 input);
    control_data := load 113 32 input;
    control_signature := load 145 64 input;
  |} in
  if negb (scheme_of header.(control_node_id) =? MELODI_NODE_ID_SCHEME_ED25519) ||
     negb (header.(control_opcode) =? MELODI_CONTROL_PROBE)
  then Err EPROTO else Ok header.

(** ** Widths, validity and layouts

    [wf_*] states the widths of a record's fields; [*_layout] is the frame as
    a list of fields with their offsets. *)

Definition wf_common (c : melodi_wire_common) : Prop :=
  u8 c.(version) /\ u8 c.(frame_class) /\ u16 c.(flags) /\ u16 c.(header_length) /\
  u16 c.(payload_length) /\ u32 c.(source_native_locator) /\
  u32 c.(destination_native_locator) /\ u32 c.(identity_generation) /\
  u64 c.(message_id) /\ u64 c.(counter).

Definition valid_common (c : melodi_wire_common) (len : Z) : Prop :=
  c.(version) = MELODI_WIRE_VERSION /\ 1 <= c.(frame_class) <= 7 /\
  has c.(flags) (Z.lnot MELODI_WIRE_F_ALL) = false /\
  40 <= c.(header_length) <= len /\ c.(payload_length) = len - c.(header_length).

Definition common_layout (c : melodi_wire_common) : list chunk :=
  [ Chunk 0 1 [wrap 8 c.(version)]; Chunk 1 1 [wrap 8 c.(frame_class)];
    Chunk 2 2 (be16 c.(flags)); Chunk 4 2 (be16 c.(header_length));
    Chunk 6 2 (be16 c.(payload_length)); Chunk 8 4 (be32 c.(source_native_locator));
    Chunk 12 4 (be32 c.(destination_native_locator));
    Chunk 16 4 (be32 c.(identity_generation)); Chunk 20 8 (be64 c.(message_id));
    Chunk 28 8 (be64 c.(counter)); Chunk 36 4 (replicate 4 0) ].

Lemma encode_common_stores out c :
  melodi_wire_encode_common out c = stores (common_layout c) out.
Proof. reflexivity. Qed.

(** Unfolds a codec down to the big-endian reads. *)
Ltac wire_unfold f :=
  unfold f, melodi_wire_class_valid, melodi_wire_get16, melodi_wire_get32;
  change melodi_wire_get64 with get_be64.
Ltac wire_unfold_in f H :=
  unfold f, melodi_wire_class_valid, melodi_wire_get16, melodi_wire_get32 in H;
  change melodi_wire_get64 with get_be64 in H.

Lemma get64_load off buf : melodi_wire_get64 (drop off buf) = get_be64 (load off 8 buf).
Proof. exact (get_be64_load off buf). Qed.

(** Decoding a buffer that carries the layout of a valid header. *)
Lemma decode_common_layout input c :
  wf_common c -> valid_common c (zlen input) -> matches input (common_layout c) ->
  melodi_wire_decode_common input = Ok c.
Proof.
  intros Hw Hv Hm. unfold wf_common, valid_common in *. split_hyps.
  cbn [matches common_layout c_off c_len c_data] in Hm. split_hyps. fields_in; auto.
  wire_unfold melodi_wire_decode_common. fields_subst. destruct c; cbn in *.
  do 2 pass_guard. reflexivity.
Qed.

(** A buffer that decodes carries the layout of the header it decodes to. *)
Lemma decode_common_inv input c :
  Forall u8 input -> melodi_wire_decode_common input = Ok c ->
  wf_common c /\ valid_common c (zlen input) /\ matches input (common_layout c).
Proof.
  intros Hb H. wire_unfold_in melodi_wire_decode_common H. guards_in H.
  injection H as <-. guard_hyps. cbn in *.
  unfold wf_common, valid_common. cbn [matches common_layout c_off c_len c_data]. cbn.
  conj_split; auto with melodi; try lia; try field_out.
Qed.

(** The header as sent is the header itself when its owned fields already have
    the values that the encoder gives them. *)
Lemma set_common_id c class hlen plen :
  c.(version) = MELODI_WIRE_VERSION -> c.(frame_class) = class ->
  c.(header_length) = hlen -> c.(payload_length) = plen ->
  set_common c class hlen plen = c.
Proof. destruct c; cbn. now intros -> -> -> ->. Qed.

Lemma wf_set_common c class hlen plen :
  wf_common c -> u8 class -> u16 hlen -> u16 plen -> wf_common (set_common c class hlen plen).
Proof. unfold wf_common. intros. split_hyps. cbn. conj_split; auto. width_lia. Qed.

(** *** Acknowledgements *)

Definition wf_ack (h : melodi_wire_ack) : Prop :=
  wf_common h.(ack_common) /\ u32 h.(acknowledged_generation) /\
  u16 h.(ack_fragment_count) /\ u8 h.(ack_status) /\ u64 h.(ack_bitmap) /\
  wf_bytes 16 h.(ack_tag).

(** The header that goes on the air. *)
Definition sent_ack (h : melodi_wire_ack) : melodi_wire_ack := {|
  ack_common := set_common h.(ack_common) MELODI_WIRE_ACK MELODI_WIRE_ACK_SIZE 0;
  acknowledged_generation := h.(acknowledged_generation);
  ack_fragment_count := h.(ack_fragment_count);
  ack_status := h.(ack_status);
  ack_bitmap := h.(ack_bitmap);
  ack_tag := h.(ack_tag);
|}.

Definition ack_layout (h : melodi_wire_ack) : list chunk :=
  common_layout h.(ack_common) ++
  [ Chunk 40 4 (be32 h.(acknowledged_generation)); Chunk 44 2 (be16 h.(ack_fragment_count));
    Chunk 46 1 [wrap 8 h.(ack_status)]; Chunk 47 1 [wrap 8 0];
    Chunk 48 8 (be64 h.(ack_bitmap)); Chunk 56 16 h.(ack_tag) ].

Lemma encode_ack_eq out h :
  is_ok (melodi_wire_encode_ack out h) = true ->
  melodi_wire_encode_ack out h = Ok (stores (ack_layout (sent_ack h)) out).
Proof. unfold melodi_wire_encode_ack. guards; reflexivity. Qed.

Lemma sized_ack h : wf_ack h -> sized (ack_layout h).
Proof. unfold wf_ack, wf_bytes. cbn. tauto. Qed.

Lemma ack_encode_decode out h b :
  wf_ack h -> length out = 72%nat -> melodi_wire_encode_ack out h = Ok b ->
  melodi_wire_decode_ack b = Ok (sent_ack h).
Proof.
  intros Hw Hlen He. pose proof (encode_ack_eq out h) as Hb.
  rewrite He in Hb. specialize (Hb eq_refl). apply Ok_inj in Hb.
  destruct (stores_frame (ack_layout (sent_ack h)) 72 out) as (_ & Hl & Hm); auto.
  { apply (sized_ack h Hw). }
  rewrite <- Hb in Hl, Hm. clear Hb Hlen.
  unfold melodi_wire_encode_ack in He. guards_in He. clear He.
  unfold ack_layout in Hm. apply matches_app_iff in Hm as [Hc Hm]. unfold wf_ack in Hw.
  split_hyps. guard_hyps.
  wire_unfold melodi_wire_decode_ack.
  rewrite (decode_common_layout b (ack_common (sent_ack h))); auto.
  2: { apply wf_set_common; auto; width_lia. }
  2: { unfold valid_common. cbn. unfold zlen. rewrite Hl. conj_split; auto; try lia. now replace (flags _) with 2. }
  cbn [mbind result_bind]. cbn [matches c_off c_len c_data] in Hm. split_hyps. fields_in.
  fields_subst. cbn.
  do 3 pass_guard. reflexivity.
Qed.

Lemma ack_decode_encode out h b :
  Forall u8 b -> length out = 72%nat -> melodi_wire_decode_ack b = Ok h ->
  melodi_wire_encode_ack out h = Ok b.
Proof.
  intros Hb Hlen Hd. wire_unfold_in melodi_wire_decode_ack Hd.
  apply bind_Ok in Hd as (c & Hc & Hd). guards_in Hd. injection Hd as <-.
  apply decode_common_inv in Hc as (Hw & Hv & Hm); auto.
  unfold valid_common in Hv. cbn in *. guard_hyps. split_hyps.
  assert (length b = 72%nat) as Hl by (unfold zlen in *; lia).
  rewrite encode_ack_eq by (unfold melodi_wire_encode_ack; cbn; do 2 pass_guard; reflexivity).
  f_equal. unfold sent_ack. cbn [ack_common]. rewrite set_common_id by (auto; lia).
  apply matches_frame with 72%nat; auto.
  - cbn. rewrite length_load by lia. tauto.
  - cbn. conj_split; auto; field_out.
Qed.

Lemma claim_flags f :
  has f (Z.lnot MELODI_WIRE_F_BROADCAST) = false -> has f MELODI_WIRE_F_BROADCAST = true -> f = 1.
Proof.
  unfold has. intros H1%negb_false_iff%Z.eqb_eq H2%negb_true_iff%Z.eqb_neq.
  assert (f = Z.land f 1) as Hf.
  { apply Z.bits_inj'. intros n Hn. pose proof (f_equal (fun x => Z.testbit x n) H1) as E.
    cbn beta in E. rewrite Z.land_spec, Z.lnot_spec, Z.bits_0 in E by auto.
    rewrite Z.land_spec. destruct (Z.testbit f n), (Z.testbit 1 n); auto. }
  change 1 with (Z.ones 1) in Hf, H2. rewrite Z.land_ones in Hf, H2 by lia. div_lia.
Qed.

(** *** Hello and conflict frames *)

Definition wf_hello (h : melodi_wire_hello) : Prop :=
  wf_common h.(hello_common) /\ wf_node_id h.(hello_node_id) /\
  wf_bytes 32 h.(hello_mesh_domain) /\ u32 h.(hello_collision_round) /\
  u32 h.(hello_capabilities) /\ u32 h.(hello_expiry_seconds) /\
  wf_bytes 32 h.(hello_challenge) /\ wf_bytes 64 h.(hello_signature).

Definition sent_hello (h : melodi_wire_hello) (class : Z) : melodi_wire_hello := {|
  hello_common := set_common h.(hello_common) class MELODI_WIRE_HELLO_SIZE 0;
  hello_node_id := h.(hello_node_id);
  hello_mesh_domain := h.(hello_mesh_domain);
  hello_collision_round := h.(hello_collision_round);
  hello_capabilities := h.(hello_capabilities);
  hello_expiry_seconds := h.(hello_expiry_seconds);
  hello_challenge := h.(hello_challenge);
  hello_signature := h.(hello_signature);
|}.

Definition hello_layout (h : melodi_wire_hello) : list chunk :=
  common_layout h.(hello_common) ++
  [ Chunk 40 33 (node_bytes h.(hello_node_id)); Chunk 73 32 h.(hello_mesh_domain);
    Chunk 105 4 (be32 h.(hello_collision_round)); Chunk 109 4 (be32 h.(hello_capabilities));
    Chunk 113 4 (be32 h.(hello_expiry_seconds)); Chunk 117 32 h.(hello_challenge);
    Chunk 149 64 h.(hello_signature) ].

Lemma encode_hello_eq out h class :
  is_ok (melodi_wire_encode_claim out h class) = true ->
  melodi_wire_encode_claim out h class = Ok (stores (hello_layout (sent_hello h class)) out).
Proof. unfold melodi_wire_encode_claim. guards; reflexivity. Qed.

Lemma sized_hello h : wf_hello h -> sized (hello_layout h).
Proof. unfold wf_hello, wf_node_id, wf_bytes. cbn. tauto. Qed.

Lemma hello_encode_decode out h class b :
  1 <= class <= 7 -> wf_hello h -> length out = 213%nat -> melodi_wire_encode_claim out h class = Ok b ->
  melodi_wire_decode_claim b class = Ok (sent_hello h class).
Proof.
  intros Hcl Hw Hlen He. pose proof (encode_hello_eq out h class) as Hb.
  rewrite He in Hb. specialize (Hb eq_refl). apply Ok_inj in Hb.
  destruct (stores_frame (hello_layout (sent_hello h class)) 213 out) as (_ & Hl & Hm); auto.
  { apply (sized_hello h Hw). }
  rewrite <- Hb in Hl, Hm. clear Hb Hlen.
  unfold melodi_wire_encode_claim in He. guards_in He. clear He.
  unfold hello_layout in Hm. apply matches_app_iff in Hm as [Hc Hm].
  unfold wf_hello in Hw. split_hyps. guard_hyps.
  assert (flags (hello_common h) = 1) as Hf by now apply claim_flags.
  wire_unfold melodi_wire_decode_claim.
  rewrite (decode_common_layout b (hello_common (sent_hello h class))); auto.
  2: { apply wf_set_common; auto; width_lia. }
  2: { unfold valid_common. cbn. unfold zlen. rewrite Hl. conj_split; auto; try lia.
       now replace (flags _) with 1. }
  cbn [mbind result_bind]. cbn [matches c_off c_len c_data] in Hm. split_hyps. fields_in.
  fields_subst. cbn. unfold scheme_of in *. cbn.
  pass_guard. rewrite node_id_eta.
  match goal with H : byte_at 0 _ = 1 |- _ => now rewrite H end.
Qed.

Lemma hello_decode_encode out h class b :
  Forall u8 b -> length out = 213%nat -> melodi_wire_decode_claim b class = Ok h ->
  melodi_wire_encode_claim out h class = Ok b.
Proof.
  intros Hb Hlen Hd. wire_unfold_in melodi_wire_decode_claim Hd.
  apply bind_Ok in Hd as (c & Hc & Hd). guards_in Hd. injection Hd as <-.
  apply decode_common_inv in Hc as (Hw & Hv & Hm); auto.
  unfold valid_common in Hv. cbn in *. guard_hyps. split_hyps.
  assert (length b = 213%nat) as Hl by (unfold zlen in *; lia).
  rewrite encode_hello_eq.
  2: { unfold melodi_wire_encode_claim. cbn. replace (flags c) with 1 by lia. pass_guard. reflexivity. }
  f_equal. unfold sent_hello. cbn [hello_common]. rewrite set_common_id by (auto; lia).
  apply matches_frame with 213%nat; auto.
  - cbn. rewrite !length_load by lia. tauto.
  - cbn. conj_split; auto; field_out.
Qed.

(** *** Challenge and response frames *)

Definition wf_auth (h : melodi_wire_auth) : Prop :=
  wf_common h.(auth_common) /\ wf_node_id h.(auth_source_node_id) /\
  wf_node_id h.(auth_destination_node_id) /\ wf_bytes 32 h.(auth_ephemeral_key) /\
  wf_bytes 32 h.(auth_challenge) /\ wf_bytes 32 h.(auth_reply_to) /\
  wf_bytes 32 h.(auth_mesh_domain) /\ u32 h.(auth_collision_round) /\
  wf_bytes 64 h.(auth_signature).

Definition sent_auth (h : melodi_wire_auth) : melodi_wire_auth := {|
  auth_common := set_common h.(auth_common) h.(auth_common).(frame_class)
                   MELODI_WIRE_AUTH_SIZE 0;
  auth_source_node_id := h.(auth_source_node_id);
  auth_destination_node_id := h.(auth_destination_node_id);
  auth_ephemeral_key := h.(auth_ephemeral_key);
  auth_challenge := h.(auth_challenge);
  auth_reply_to := h.(auth_reply_to);
  auth_mesh_domain := h.(auth_mesh_domain);
  auth_collision_round := h.(auth_collision_round);
  auth_signature := h.(auth_signature);
|}.

Definition auth_layout (h : melodi_wire_auth) : list chunk :=
  common_layout h.(auth_common) ++
  [ Chunk 40 33 (node_bytes h.(auth_source_node_id));
    Chunk 73 33 (node_bytes h.(auth_destination_node_id));
    Chunk 106 32 h.(auth_ephemeral_key); Chunk 138 32 h.(auth_challenge);
    Chunk 170 32 h.(auth_reply_to); Chunk 202 32 h.(auth_mesh_domain);
    Chunk 234 4 (be32 h.(auth_collision_round)); Chunk 238 64 h.(auth_signature) ].

Lemma encode_auth_eq out h :
  is_ok (melodi_wire_encode_auth out h) = true ->
  melodi_wire_encode_auth out h = Ok (stores (auth_layout (sent_auth h)) out).
Proof. unfold melodi_wire_encode_auth. guards; reflexivity. Qed.

Lemma sized_auth h : wf_auth h -> sized (auth_layout h).
Proof. unfold wf_auth, wf_node_id, wf_bytes. cbn. tauto. Qed.

Lemma auth_encode_decode out h b :
  wf_auth h -> length out = 302%nat -> melodi_wire_encode_auth out h = Ok b ->
  melodi_wire_decode_auth b = Ok (sent_auth h).
Proof.
  intros Hw Hlen He. pose proof (encode_auth_eq out h) as Hb.
  rewrite He in Hb. specialize (Hb eq_refl). apply Ok_inj in Hb.
  destruct (stores_frame (auth_layout (sent_auth h)) 302 out) as (_ & Hl & Hm); auto.
  { apply (sized_auth h Hw). }
  rewrite <- Hb in Hl, Hm. clear Hb Hlen.
  unfold melodi_wire_encode_auth in He. guards_in He. clear He.
  unfold auth_layout in Hm. apply matches_app_iff in Hm as [Hc Hm].
  unfold wf_auth in Hw. split_hyps. guard_hyps.
  wire_unfold melodi_wire_decode_auth.
  rewrite (decode_common_layout b (auth_common (sent_auth h))); auto.
  2: { apply wf_set_common; auto; width_lia. }
  2: { unfold valid_common. cbn. unfold zlen. rewrite Hl. conj_split; auto; try lia.
       now replace (flags _) with 0. }
  cbn [mbind result_bind]. cbn [matches c_off c_len c_data] in Hm. split_hyps. fields_in.
  fields_subst. cbn. unfold scheme_of in *. cbn.
  do 2 pass_guard. now rewrite !node_id_eta.
Qed.

Lemma auth_decode_encode out h b :
  Forall u8 b -> length out = 302%nat -> melodi_wire_decode_auth b = Ok h ->
  melodi_wire_encode_auth out h = Ok b.
Proof.
  intros Hb Hlen Hd. wire_unfold_in melodi_wire_decode_auth Hd.
  apply bind_Ok in Hd as (c & Hc & Hd). guards_in Hd. injection Hd as <-.
  apply decode_common_inv in Hc as (Hw & Hv & Hm); auto.
  unfold valid_common in Hv. cbn in *. guard_hyps. split_hyps.
  assert (length b = 302%nat) as Hl by (unfold zlen in *; lia).
  rewrite encode_auth_eq.
  2: { unfold melodi_wire_encode_auth. cbn. pass_guard. reflexivity. }
  f_equal. unfold sent_auth. cbn [auth_common]. rewrite set_common_id by (auto; lia).
  apply matches_frame with 302%nat; auto.
  - cbn. rewrite !length_load by lia. tauto.
  - cbn. conj_split; auto; field_out.
Qed.

(** *** Control frames *)

Definition wf_control (h : melodi_wire_control) : Prop :=
  wf_common h.(control_common) /\ wf_node_id h.(control_node_id) /\
  wf_bytes 32 h.(control_mesh_domain) /\ u32 h.(control_collision_round) /\
  u16 h.(control_opcode) /\ wf_bytes 32 h.(control_data) /\
  wf_bytes 64 h.(control_signature).

Definition sent_control (h : melodi_wire_control) : melodi_wire_control := {|
  control_common := set_common h.(control_common) MELODI_WIRE_CONTROL
                      MELODI_WIRE_CONTROL_SIZE 0;
  control_node_id := h.(control_node_id);
  control_mesh_domain := h.(control_mesh_domain);
  control_collision_round := h.(control_collision_round);
  control_opcode := h.(control_opcode);
  control_data := h.(control_data);
  control_signature := h.(control_signature);
|}.

Definition control_layout (h : melodi_wire_control) : list chunk :=
  common_layout h.(control_common) ++
  [ Chunk 40 33 (node_bytes h.(control_node_id)); Chunk 73 32 h.(control_mesh_domain);
    Chunk 105 4 (be32 h.(control_collision_round)); Chunk 109 2 (be16 h.(control_opcode));
    Chunk 111 1 [wrap 8 0]; Chunk 112 1 [wrap 8 0]; Chunk 113 32 h.(control_data);
    Chunk 145 64 h.(control_signature) ].

Lemma encode_control_eq out h :
  is_ok (melodi_wire_encode_control out h) = true ->
  melodi_wire_encode_control out h = Ok (stores (control_layout (sent_control h)) out).
Proof. unfold melodi_wire_encode_control. guards; reflexivity. Qed.

Lemma sized_control h : wf_control h -> sized (control_layout h).
Proof. unfold wf_control, wf_node_id, wf_bytes. cbn. tauto. Qed.

Lemma control_encode_decode out h b :
  wf_control h -> length out = 209%nat -> melodi_wire_encode_control out h = Ok b ->
  melodi_wire_decode_control b = Ok (sent_control h).
Proof.
  intros Hw Hlen He. pose proof (encode_control_eq out h) as Hb.
  rewrite He in Hb. specialize (Hb eq_refl). apply Ok_inj in Hb.
  destruct (stores_frame (control_layout (sent_control h)) 209 out) as (_ & Hl & Hm); auto.
  { apply (sized_control h Hw). }
  rewrite <- Hb in Hl, Hm. clear Hb Hlen.
  unfold melodi_wire_encode_control in He. guards_in He. clear He.
  unfold control_layout in Hm. apply matches_app_iff in Hm as [Hc Hm].
  unfold wf_control in Hw. split_hyps. guard_hyps.
  wire_unfold melodi_wire_decode_control.
  rewrite (decode_common_layout b (control_common (sent_control h))); auto.
  2: { apply wf_set_common; auto; width_lia. }
  2: { unfold valid_common. cbn. unfold zlen. rewrite Hl. conj_split; auto; try lia.
       now replace (flags _) with 1. }
  cbn [mbind result_bind]. cbn [matches c_off c_len c_data] in Hm. split_hyps. fields_in.
  fields_subst. cbn. unfold scheme_of in *. cbn.
  do 2 pass_guard. now rewrite !node_id_eta.
Qed.

Lemma control_decode_encode out h b :
  Forall u8 b -> length out = 209%nat -> melodi_wire_decode_control b = Ok h ->
  melodi_wire_encode_control out h = Ok b.
Proof.
  intros Hb Hlen Hd. wire_unfold_in melodi_wire_decode_control Hd.
  apply bind_Ok in Hd as (c & Hc & Hd). guards_in Hd. injection Hd as <-.
  apply decode_common_inv in Hc as (Hw & Hv & Hm); auto.
  unfold valid_common in Hv. cbn in *. guard_hyps. split_hyps.
  assert (length b = 209%nat) as Hl by (unfold zlen in *; lia).
  rewrite encode_control_eq.
  2: { unfold melodi_wire_encode_control. cbn. pass_guard. reflexivity. }
  f_equal. unfold sent_control. cbn [control_common]. rewrite set_common_id by (auto; lia).
  apply matches_frame with 209%nat; auto.
  - cbn. rewrite !length_load by lia. tauto.
  - cbn. conj_split; auto; field_out.
Qed.

(** *** Data frames *)

Definition wf_data (h : melodi_wire_data) : Prop :=
  wf_common h.(data_common) /\ u16 h.(destination_service) /\ u16 h.(source_service) /\
  u16 h.(fragment_index) /\ u16 h.(fragment_count) /\ u32 h.(logical_length) /\
  u8 h.(delivery_mode) /\ u8 h.(priority) /\ u32 h.(ordering_marker) /\
  wf_bytes 16 h.(data_tag).

Definition sent_data (h : melodi_wire_data) (plen : Z) : melodi_wire_data := {|
  data_common := set_common h.(data_common) MELODI_WIRE_DATA MELODI_WIRE_DATA_SIZE plen;
  destination_service := h.(destination_service);
  source_service := h.(source_service);
  fragment_index := h.(fragment_index);
  fragment_count := h.(fragment_count);
  logical_length := h.(logical_length);
  delivery_mode := h.(delivery_mode);
  priority := h.(priority);
  ordering_marker := h.(ordering_marker);
  data_tag := h.(data_tag);
|}.

Definition data_layout (h : melodi_wire_data) : list chunk :=
  common_layout h.(data_common) ++
  [ Chunk 40 2 (be16 h.(destination_service)); Chunk 42 2 (be16 h.(source_service));
    Chunk 44 2 (be16 h.(fragment_index)); Chunk 46 2 (be16 h.(fragment_count));
    Chunk 48 4 (be32 h.(logical_length)); Chunk 52 1 [wrap 8 h.(delivery_mode)];
    Chunk 53 1 [wrap 8 h.(priority)]; Chunk 54 1 [wrap 8 0]; Chunk 55 1 [wrap 8 0];
    Chunk 56 4 (be32 h.(ordering_marker)); Chunk 60 16 h.(data_tag);
    Chunk 76 4 (replicate 4 0) ].

(** The fragment's length is consistent with the logical length it announces. *)
Definition data_length_ok (h : melodi_wire_data) : Prop :=
  let c := h.(data_common) in
  if has c.(flags) MELODI_WIRE_F_BROADCAST
  then 48 <= c.(payload_length) /\ c.(payload_length) - 48 <= h.(logical_length)
  else c.(payload_length) <= h.(logical_length).

Definition valid_data (h : melodi_wire_data) : Prop :=
  h.(data_common).(frame_class) = MELODI_WIRE_DATA /\
  h.(data_common).(header_length) = MELODI_WIRE_DATA_SIZE /\
  0 < h.(fragment_count) /\ h.(fragment_index) < h.(fragment_count) /\
  data_length_ok h /\ h.(delivery_mode) <= 2 /\ h.(priority) <= 3.

Lemma sized_data h : wf_data h -> sized (data_layout h).
Proof. unfold wf_data, wf_bytes. cbn. tauto. Qed.

Lemma decode_data_layout f h :
  wf_data h -> valid_common h.(data_common) (zlen f) -> valid_data h ->
  matches f (data_layout h) -> melodi_wire_decode_data f = Ok (h, drop 80 f).
Proof.
  intros Hw Hvc Hv Hm. unfold data_layout in Hm. apply matches_app_iff in Hm as [Hc Hm].
  unfold wf_data, valid_data in *. split_hyps.
  wire_unfold melodi_wire_decode_data. rewrite (decode_common_layout f (data_common h)); auto.
  cbn [mbind result_bind]. cbn [matches c_off c_len c_data] in Hm. split_hyps. fields_in.
  fields_subst. cbn. unfold data_length_ok, wf_common in *. pass_guard.
  destruct (has (flags (data_common h)) 1); split_hyps.
  - rewrite wrap_id by width_lia. pass_guard. now destruct h.
  - pass_guard. now destruct h.
Qed.

Lemma decode_data_inv f h p :
  Forall u8 f -> melodi_wire_decode_data f = Ok (h, p) ->
  wf_data h /\ valid_common h.(data_common) (zlen f) /\ valid_data h /\
  matches f (data_layout h) /\ p = drop 80 f.
Proof.
  intros Hb Hd. wire_unfold_in melodi_wire_decode_data Hd.
  apply bind_Ok in Hd as (c & Hc & Hd).
  apply decode_common_inv in Hc as (Hw & Hv & Hm); auto.
  destruct (negb _ || negb _) eqn:Hg1 in Hd; [discriminate|].
  destruct (_ || _) eqn:Hg2 in Hd; [discriminate|]. injection Hd as <- <-.
  guard_hyps. cbn in *.
  assert (80 <= zlen f) by (unfold valid_common in Hv; lia).
  assert (80 <= length f)%nat by (unfold zlen in *; lia).
  split; [|split; [exact Hv|split; [|split; [|reflexivity]]]].
  - unfold wf_data. cbn. conj_split; auto with melodi; try (apply load_wf_bytes; auto; lia); width_lia.
  - assert (0 <= payload_length c - 48 < 2 ^ 32 \/ payload_length c < 48) by
      (unfold wf_common in Hw; width_lia).
    pose proof (get_be16_u16 (drop 46 f) ltac:(auto with melodi)).
    unfold valid_data, data_length_ok. cbn.
    destruct (has (flags c) 1); guard_hyps.
    + rewrite wrap_id in * by width_lia. conj_split; auto; width_lia.
    + conj_split; auto; width_lia.
  - cbn. conj_split; auto; try tauto; field_out.
Qed.

Lemma encode_data_header_Ok out h n b :
  melodi_wire_encode_data_header out h n = Ok b ->
  b = stores (data_layout (sent_data h n)) out /\ n <= 0xffff /\ 80 + n <= zlen out /\
  h.(fragment_count) <> 0 /\ h.(fragment_index) < h.(fragment_count) /\
  h.(delivery_mode) <= 2 /\ h.(priority) <= 3 /\
  has h.(data_common).(flags) (Z.lnot MELODI_WIRE_F_ALL) = false.
Proof.
  unfold melodi_wire_encode_data_header. intros H.
  destruct (_ || _) eqn:Hg in H; [discriminate|]. guard_hyps.
  apply Ok_inj in H. split; [now rewrite <- H|]. auto 10.
Qed.

Lemma encode_data_header_eq out h n :
  n <= 0xffff -> 80 + n <= zlen out -> h.(fragment_count) <> 0 ->
  h.(fragment_index) < h.(fragment_count) -> h.(delivery_mode) <= 2 -> h.(priority) <= 3 ->
  has h.(data_common).(flags) (Z.lnot MELODI_WIRE_F_ALL) = false ->
  melodi_wire_encode_data_header out h n = Ok (stores (data_layout (sent_data h n)) out).
Proof. intros. unfold melodi_wire_encode_data_header. pass_guard. reflexivity. Qed.

(** The bytes of a data frame: header, then the physical payload. *)
Lemma data_frame_bytes out h n p :
  wf_data h -> 0 <= n -> zlen p = n -> 80 + n <= zlen out ->
  take (Z.to_nat (80 + n)) (store 80 p (stores (data_layout (sent_data h n)) out))
  = layout_bytes (data_layout (sent_data h n)) ++ p.
Proof.
  intros Hw Hn Hp Hc.
  assert (sized (data_layout (sent_data h n))) as Hs by exact (sized_data h Hw).
  pose proof (layout_bytes_length 0 (data_layout (sent_data h n)) 80 eq_refl Hs) as Hl.
  rewrite (stores_layout _ 80) by (auto; unfold zlen in *; lia).
  rewrite store_app_r by (rewrite ?length_drop; unfold zlen in *; lia).
  rewrite app_assoc. apply take_app_length'. rewrite length_app. unfold zlen in *. lia.
Qed.

Lemma decode_data_frame h n p :
  wf_data h -> u16 n -> zlen p = n ->
  has h.(data_common).(flags) (Z.lnot MELODI_WIRE_F_ALL) = false ->
  valid_data (sent_data h n) ->
  melodi_wire_decode_data (layout_bytes (data_layout (sent_data h n)) ++ p)
  = Ok (sent_data h n, p).
Proof.
  intros Hw Hn Hp Hf Hv.
  assert (sized (data_layout (sent_data h n))) as Hs by exact (sized_data h Hw).
  pose proof (layout_bytes_length 0 (data_layout (sent_data h n)) 80 eq_refl Hs) as Hl.
  rewrite (decode_data_layout _ (sent_data h n)).
  - f_equal. f_equal. apply drop_app_length'. lia.
  - unfold wf_data in *. split_hyps. cbn. conj_split; auto. apply wf_set_common; auto; width_lia.
  - revert Hl. generalize (layout_bytes (data_layout (sent_data h n))) as L. intros L Hl.
    unfold valid_common. cbn. unfold zlen in *. rewrite length_app. conj_split; auto; lia.
  - exact Hv.
  - now apply matches_layout with 80%nat.
Qed.

Lemma data_encode_decode out h p b n :
  wf_data h -> has h.(data_common).(flags) MELODI_WIRE_F_BROADCAST = false ->
  melodi_wire_encode_data out h p = Ok (b, n) ->
  melodi_wire_decode_data (take (Z.to_nat n) b) = Ok (sent_data h (zlen p), p).
Proof.
  intros Hw Hbc He. unfold melodi_wire_encode_data in He.
  destruct (_ <? _) eqn:Hg in He; [discriminate|]. guard_hyps.
  apply bind_Ok in He as (b0 & He & Hr). apply encode_data_header_Ok in He as (-> & ?). split_hyps.
  injection Hr as <- <-.
  rewrite data_frame_bytes by (auto; unfold zlen in *; lia).
  apply decode_data_frame; auto; [unfold zlen in *; width_lia|].
  unfold wf_data in Hw. unfold valid_data, data_length_ok. cbn. rewrite Hbc.
  conj_split; auto; width_lia.
Qed.

Lemma sent_data_id h n :
  valid_data h -> h.(data_common).(version) = 1 -> h.(data_common).(payload_length) = n ->
  sent_data h n = h.
Proof.
  intros Hv H1 H2. unfold valid_data in Hv. destruct h as [c]; cbn in *. unfold sent_data; cbn.
  rewrite set_common_id; tauto.
Qed.

Lemma data_decode_encode out f h p :
  Forall u8 f -> length out = length f ->
  has h.(data_common).(flags) MELODI_WIRE_F_BROADCAST = false ->
  melodi_wire_decode_data f = Ok (h, p) -> melodi_wire_encode_data out h p = Ok (f, zlen f).
Proof.
  intros Hb Hlen Hbc Hd. apply decode_data_inv in Hd as (Hw & Hvc & Hv & Hm & ->); auto.
  pose proof (matches_take (data_layout h) 80 f eq_refl Hm) as Hf. pose proof Hv as Hv'. pose proof Hw as Hw'.
  unfold valid_common, valid_data, data_length_ok, wf_data in Hvc, Hv, Hw. rewrite Hbc in Hv.
  split_hyps.
  assert (80 <= length f)%nat by (unfold zlen in *; lia).
  assert (zlen (drop 80 f) = zlen f - 80) as Hz by (unfold zlen; rewrite length_drop; lia).
  unfold melodi_wire_encode_data, wf_common in *. split_hyps. pass_guard.
  rewrite encode_data_header_eq by (auto; unfold zlen in *; width_lia). cbn [mbind result_bind].
  rewrite sent_data_id by (auto; lia).
  pose proof (sized_data h Hw') as Hs.
  pose proof (layout_bytes_length 0 (data_layout h) 80 eq_refl Hs) as Hl.
  rewrite (stores_layout _ 80) by (auto; lia).
  rewrite store_app_r by (rewrite ?length_drop; lia).
  rewrite (drop_ge (drop 80 out)) by (rewrite !length_drop; lia).
  rewrite app_nil_r, <- Hf. do 2 f_equal. lia.
Qed.

Lemma broadcast_flags f :
  Z.land f (Z.lnot MELODI_WIRE_F_FINAL) = MELODI_WIRE_F_BROADCAST -> f = 1 \/ f = 17.
Proof.
  intros H.
  assert (forall n, 0 <= n -> n <> 4 -> Z.testbit f n = Z.testbit 1 n) as Hn.
  { intros n Hn H4. rewrite <- H, Z.land_spec, Z.lnot_spec by auto.
    change 16 with (2 ^ 4). rewrite Z.pow2_bits_false by auto. now rewrite andb_true_r. }
  destruct (Z.testbit f 4) eqn:E; [right|left]; apply Z.bits_inj'; intros n Hn0;
    (destruct (decide (n = 4)) as [->|H4]; [now rewrite E|]); rewrite Hn by auto; auto.
  change 17 with (Z.lor 1 (2 ^ 4)).
  now rewrite Z.lor_spec, (Z.pow2_bits_false 4), orb_false_r by auto.
Qed.

Lemma broadcast_encode_decode out h sig p b n :
  wf_data h -> length sig = 64%nat -> Forall u8 sig ->
  melodi_wire_encode_broadcast_data out h sig p = Ok (b, n) ->
  melodi_wire_decode_broadcast_data (take (Z.to_nat n) b)
  = Ok (sent_data (set_tag h (take 16 sig)) (48 + zlen p), sig, p).
Proof.
  intros Hw Hsig Hs8 He. unfold melodi_wire_encode_broadcast_data in He.
  destruct (_ || _) eqn:Hg in He; [discriminate|]. guard_hyps.
  apply bind_Ok in He as (b0 & He & Hr). apply encode_data_header_Ok in He as (-> & ?). split_hyps.
  injection Hr as <- <-.
  assert (length (load 16 48 sig) = 48%nat) as Hsuf by (rewrite length_load; lia).
  assert (load 0 16 sig = take 16 sig) as Htag by reflexivity.
  match goal with H : Z.land _ _ = 1 |- _ => pose proof H; apply broadcast_flags in H as Hfl end.
  rewrite store_store by lia.
  assert (wf_data (set_tag h (take 16 sig))) as Hw'.
  { unfold wf_data in *. split_hyps. cbn. conj_split; auto. split; [rewrite length_take; lia|].
    now apply Forall_take. }
  assert (zlen (load 16 48 sig ++ p) = 48 + zlen p) as Hz
    by (unfold zlen; rewrite length_app; lia).
  rewrite Htag in *. rewrite data_frame_bytes by (auto; unfold zlen in *; lia).
  unfold melodi_wire_decode_broadcast_data.
  rewrite decode_data_frame; auto; [|unfold zlen in *; width_lia|].
  - cbn -[load zlen Z.add take]. pass_guard. f_equal. f_equal; [f_equal|].
    + transitivity (take 16 sig ++ drop 16 sig); [f_equal|apply take_drop].
      unfold load at 1. rewrite drop_0, take_app_length' by lia.
      apply take_ge. rewrite length_drop. lia.
    + unfold load at 1. rewrite drop_app_length' by lia. apply take_ge. unfold zlen. lia.
  - unfold wf_data, wf_common in *. split_hyps. unfold valid_data, data_length_ok.
    cbn -[zlen Z.add] in *. destruct Hfl as [-> | ->]; cbn -[zlen Z.add];
      change (has 1 1) with true; change (has 17 1) with true; cbn iota;
      conj_split; auto; width_lia.
Qed.

Lemma broadcast_decode_encode out f h sig p :
  Forall u8 f -> length out = length f ->
  melodi_wire_decode_broadcast_data f = Ok (h, sig, p) ->
  length sig = 64%nat /\ melodi_wire_encode_broadcast_data out h sig p = Ok (f, zlen f).
Proof.
  intros Hb Hlen Hd. unfold melodi_wire_decode_broadcast_data in Hd.
  apply bind_Ok in Hd as ([h' pp] & Hd & Hr). cbn in Hr.
  destruct (_ || _) eqn:Hg in Hr; [discriminate|]. injection Hr as -> <- <-. guard_hyps.
  apply decode_data_inv in Hd as (Hw & Hvc & Hv & Hm & ->); auto.
  pose proof (matches_take (data_layout h) 80 f eq_refl Hm) as Hf.
  pose proof (sized_data h Hw) as Hs.
  pose proof (layout_bytes_length 0 (data_layout h) 80 eq_refl Hs) as Hl.
  pose proof Hv as Hv'. pose proof Hw as Hw'.
  match goal with H : Z.land _ _ = 1 |- _ => pose proof H; apply broadcast_flags in H as Hfl end.
  assert (has (flags (data_common h)) 1 = true) as Hbc by (destruct Hfl as [-> | ->]; reflexivity).
  unfold valid_common, valid_data, data_length_ok, wf_data in Hvc, Hv, Hw. rewrite Hbc in Hv.
  split_hyps.
  assert (128 <= length f)%nat by (unfold zlen in *; lia).
  assert (zlen (drop 80 f) = zlen f - 80) as Hz by (unfold zlen; rewrite length_drop; lia).
  set (q := load 48 (Z.to_nat (payload_length (data_common h) - 48)) (drop 80 f)).
  assert (q = drop 128 f) as Hq.
  { unfold q, load. rewrite drop_drop. apply take_ge. rewrite length_drop. unfold zlen in *. lia. }
  assert (zlen q = zlen f - 128) as Hzq by (rewrite Hq; unfold zlen; rewrite length_drop; lia).
  assert (length (data_tag h) = 16%nat) as Ht by (unfold wf_bytes in *; tauto).
  assert (length (load 0 48 (drop 80 f)) = 48%nat) as H48
    by (rewrite length_load; rewrite ?length_drop; lia).
  split; [rewrite length_app; lia|].
  unfold melodi_wire_encode_broadcast_data, wf_common in *. split_hyps. pass_guard.
  assert (load 0 16 (data_tag h ++ load 0 48 (drop 80 f)) = data_tag h) as ->
    by (unfold load at 1; rewrite drop_0; apply take_app_length'; lia).
  assert (load 16 48 (data_tag h ++ load 0 48 (drop 80 f)) = load 0 48 (drop 80 f)) as ->
    by (unfold load at 1; rewrite drop_app_length' by lia; apply take_ge; lia).
  assert (set_tag h (data_tag h) = h) as -> by now destruct h.
  rewrite encode_data_header_eq by (auto; unfold zlen in *; width_lia). cbn [mbind result_bind].
  rewrite sent_data_id by (auto; lia). rewrite store_store by lia.
  rewrite (stores_layout _ 80) by (auto; lia).
  assert (load 0 48 (drop 80 f) ++ q = drop 80 f) as ->.
  { transitivity (take 48 (drop 80 f) ++ drop 48 (drop 80 f)); [|apply take_drop].
    now rewrite Hq, drop_drop. }
  rewrite store_app_r by (rewrite ?length_drop; lia).
  rewrite (drop_ge (drop 80 out)) by (rewrite !length_drop; lia).
  rewrite app_nil_r, <- Hf. do 2 f_equal. lia.
Qed.

(** ** The interface of a fixed-size frame class

    What the rest of the stack relies on: an encoder into a buffer of the
    class's size and a decoder that are inverse to each other in both
    directions. *)
Record FrameCodec (H : Type) := {
  fc_size : nat;
  fc_wf : H -> Prop;
  fc_sent : H -> H;
  fc_encode : bytes -> H -> result bytes;
  fc_decode : bytes -> result H;
  fc_encode_decode out h b :
    fc_wf h -> length out = fc_size -> fc_encode out h = Ok b -> fc_decode b = Ok (fc_sent h);
  fc_decode_encode out h b :
    Forall u8 b -> length out = fc_size -> fc_decode b = Ok h -> fc_encode out h = Ok b;
}.

Definition ack_codec : FrameCodec melodi_wire_ack := {|
  fc_size := 72; fc_wf := wf_ack; fc_sent := sent_ack;
  fc_encode := melodi_wire_encode_ack; fc_decode := melodi_wire_decode_ack;
  fc_encode_decode := ack_encode_decode; fc_decode_encode := ack_decode_encode;
|}.

Definition hello_codec : FrameCodec melodi_wire_hello := {|
  fc_size := 213; fc_wf := wf_hello; fc_sent h := sent_hello h MELODI_WIRE_HELLO;
  fc_encode := melodi_wire_encode_hello; fc_decode := melodi_wire_decode_hello;
  fc_encode_decode out h b := hello_encode_decode out h MELODI_WIRE_HELLO b ltac:(lia);
  fc_decode_encode out h b := hello_decode_encode out h MELODI_WIRE_HELLO b;
|}.

Definition conflict_codec : FrameCodec melodi_wire_hello := {|
  fc_size := 213; fc_wf := wf_hello; fc_sent h := sent_hello h MELODI_WIRE_CONFLICT;
  fc_encode := melodi_wire_encode_conflict; fc_decode := melodi_wire_decode_conflict;
  fc_encode_decode out h b := hello_encode_decode out h MELODI_WIRE_CONFLICT b ltac:(lia);
  fc_decode_encode out h b := hello_decode_encode out h MELODI_WIRE_CONFLICT b;
|}.

Definition auth_codec : FrameCodec melodi_wire_auth := {|
  fc_size := 302; fc_wf := wf_auth; fc_sent := sent_auth;
  fc_encode := melodi_wire_encode_auth; fc_decode := melodi_wire_decode_auth;
  fc_encode_decode := auth_encode_decode; fc_decode_encode := auth_decode_encode;
|}.

Definition control_codec : FrameCodec melodi_wire_control := {|
  fc_size := 209; fc_wf := wf_control; fc_sent := sent_control;
  fc_encode := melodi_wire_encode_control; fc_decode := melodi_wire_decode_control;
  fc_encode_decode := control_encode_decode; fc_decode_encode := control_decode_encode;
|}.

(** A client's view: a frame determines the header and conversely. *)
Lemma codec_decode_inj {H} (c : FrameCodec H) b1 b2 h :
  Forall u8 b1 -> Forall u8 b2 -> fc_decode H c b1 = Ok h -> fc_decode H c b2 = Ok h -> b1 = b2.
Proof.
  intros Hb1 Hb2 H1 H2.
  pose proof (fc_decode_encode H c (replicate (fc_size H c) 0) h b1 Hb1 (length_replicate _ _) H1).
  pose proof (fc_decode_encode H c (replicate (fc_size H c) 0) h b2 Hb2 (length_replicate _ _) H2).
  congruence.
Qed.

(** The class byte of every frame a decoder accepts. *)
Lemma decode_claim_class b k h :
  melodi_wire_decode_claim b k = Ok h -> byte_at 1 b = k.
Proof.
  unfold melodi_wire_decode_claim. intros Hd. apply bind_Ok in Hd as (c & Hc & Hd).
  destruct (_ || _) eqn:Hg in Hd; [discriminate|]. guard_hyps.
  unfold melodi_wire_decode_common in Hc. guards_in Hc. injection Hc as <-. assumption.
Qed.

#[export] Instance wf_common_dec c : Decision (wf_common c).
Proof. unfold wf_common. apply _. Defined.
#[export] Instance wf_ack_dec h : Decision (wf_ack h).
Proof. unfold wf_ack. apply _. Defined.
#[export] Instance wf_hello_dec h : Decision (wf_hello h).
Proof. unfold wf_hello. apply _. Defined.
#[export] Instance wf_auth_dec h : Decision (wf_auth h).
Proof. unfold wf_auth. apply _. Defined.
#[export] Instance wf_control_dec h : Decision (wf_control h).
Proof. unfold wf_control. apply _. Defined.
#[export] Instance wf_data_dec h : Decision (wf_data h).
Proof. unfold wf_data. apply _. Defined.

(** ** Sample frames *)

Definition sample_node (k : Z) : melodi_node_id := MkNodeId (1 :: replicate 32 k).
Definition sample_common (class flags dst : Z) : melodi_wire_common := {|
  version := 0; frame_class := class; flags := flags; header_length := 0; payload_length := 0;
  source_native_locator := 0x01020304; destination_native_locator := dst;
  identity_generation := 7; message_id := 0x1122334455667788; counter := 9;
|}.
Definition sample_ack : melodi_wire_ack := {|
  ack_common := sample_common 0 2 5; acknowledged_generation := 3; ack_fragment_count := 3;
  ack_status := 1; ack_bitmap := 7; ack_tag := replicate 16 0xaa;
|}.
Definition sample_hello : melodi_wire_hello := {|
  hello_common := sample_common 0 1 0xffffffff; hello_node_id := sample_node 0x42;
  hello_mesh_domain := replicate 32 5; hello_collision_round := 1; hello_capabilities := 2;
  hello_expiry_seconds := 300; hello_challenge := replicate 32 6; hello_signature := replicate 64 8;
|}.
Definition sample_auth : melodi_wire_auth := {|
  auth_common := sample_common 2 0 5; auth_source_node_id := sample_node 1;
  auth_destination_node_id := sample_node 2; auth_ephemeral_key := replicate 32 3;
  auth_challenge := replicate 32 4; auth_reply_to := replicate 32 5;
  auth_mesh_domain := replicate 32 6; auth_collision_round := 0; auth_signature := replicate 64 7;
|}.
Definition sample_control : melodi_wire_control := {|
  control_common := sample_common 0 1 0xffffffff; control_node_id := sample_node 0x42;
  control_mesh_domain := replicate 32 5; control_collision_round := 1; control_opcode := 1;
  control_data := replicate 32 6; control_signature := replicate 64 8;
|}.
Definition sample_data (flags dst : Z) : melodi_wire_data := {|
  data_common := sample_common 0 flags dst; destination_service := 12345; source_service := 7;
  fragment_index := 1; fragment_count := 2; logical_length := 200; delivery_mode := 0;
  priority := 3; ordering_marker := 0; data_tag := replicate 16 0xbb;
|}.

(** ** Properties *)

(** C21: data frames round-trip.  What [melodi_wire_encode_data] writes for a
    unicast header and payload, cut at the encoded length, is decoded to that
    header (with the fields the encoder owns) and that payload; and every
    unicast frame the decoder accepts is reproduced byte for byte by encoding
    what was decoded, so the accepted encodings are canonical. *)
Theorem data_frame_inverse out h p b n :
  has h.(data_common).(flags) MELODI_WIRE_F_BROADCAST = false ->
  (wf_data h -> melodi_wire_encode_data out h p = Ok (b, n) ->
   melodi_wire_decode_data (take (Z.to_nat n) b) = Ok (sent_data h (zlen p), p)) /\
  (Forall u8 b -> length out = length b -> melodi_wire_decode_data b = Ok (h, p) ->
   melodi_wire_encode_data out h p = Ok (b, zlen b)).
Proof.
  split; intros; [eapply data_encode_decode; eauto | now apply data_decode_encode].
Qed.

Lemma data_frame_inverse_witness :
  exists b n, melodi_wire_encode_data (replicate 100 0) (sample_data 2 5) [1; 2; 3] = Ok (b, n) /\
    melodi_wire_decode_data (take (Z.to_nat n) b) = Ok (sent_data (sample_data 2 5) 3, [1; 2; 3]) /\
    melodi_wire_encode_data (replicate 83 0) (sent_data (sample_data 2 5) 3) [1; 2; 3]
      = Ok (take 83 b, zlen (take 83 b)).
Proof.
  do 2 eexists. split; [vm_compute; reflexivity|]. split.
  - apply (data_frame_inverse (replicate 100 0) (sample_data 2 5) [1; 2; 3]);
      [reflexivity|by_decide|reflexivity].
  - apply (data_frame_inverse (replicate 83 0) (sent_data (sample_data 2 5) 3) [1; 2; 3]
             (take 83 _) 0);
      [reflexivity|by_decide|reflexivity|vm_compute; reflexivity].
Defined.

(** Signed broadcast frames round-trip.  The 64-byte signature travels
    split between the tag field (16 bytes) and the first 48 bytes of the
    payload; decoding an encoded broadcast gives back header, signature and
    application payload, and an accepted broadcast frame is re-encoded to the
    same bytes. *)
Theorem broadcast_frame_inverse out h sig p b n :
  length sig = 64%nat -> Forall u8 sig ->
  (wf_data h -> melodi_wire_encode_broadcast_data out h sig p = Ok (b, n) ->
   melodi_wire_decode_broadcast_data (take (Z.to_nat n) b)
   = Ok (sent_data (set_tag h (take 16 sig)) (48 + zlen p), sig, p)) /\
  (Forall u8 b -> length out = length b -> melodi_wire_decode_broadcast_data b = Ok (h, sig, p) ->
   melodi_wire_encode_broadcast_data out h sig p = Ok (b, zlen b)).
Proof.
  split; intros; [eapply broadcast_encode_decode; eauto | now apply broadcast_decode_encode].
Qed.

Definition sample_signature : bytes := map Z.of_nat (seq 1 64).

Lemma broadcast_frame_inverse_witness :
  exists b n, melodi_wire_encode_broadcast_data (replicate 140 0) (sample_data 17 0xffffffff)
                sample_signature [9; 8] = Ok (b, n) /\
    melodi_wire_decode_broadcast_data (take (Z.to_nat n) b)
    = Ok (sent_data (set_tag (sample_data 17 0xffffffff) (take 16 sample_signature)) 50,
          sample_signature, [9; 8]).
Proof.
  do 2 eexists. split; [vm_compute; reflexivity|].
  apply (broadcast_frame_inverse (replicate 140 0) (sample_data 17 0xffffffff) sample_signature [9; 8]);
    [reflexivity|by_decide|by_decide|reflexivity].
Defined.

(** A pair of an encoder into a buffer of a given length and a decoder: what is
    encoded decodes to the header sent, and bytes that decode are exactly the
    encoding of the header returned. *)
Definition mutually_inverse {H} (n : nat) (wf : H -> Prop) (sent : H -> H)
    (encode : bytes -> H -> result bytes) (decode : bytes -> result H) : Prop :=
  forall out h b, length out = n ->
    (wf h -> encode out h = Ok b -> decode b = Ok (sent h)) /\
    (Forall u8 b -> decode b = Ok h -> encode out h = Ok b).

Lemma codec_inverse {H} (c : FrameCodec H) :
  mutually_inverse (fc_size H c) (fc_wf H c) (fc_sent H c) (fc_encode H c) (fc_decode H c).
Proof.
  intros out h b Hl. split; intros; [now apply (fc_encode_decode H c out)|now apply (fc_decode_encode H c)].
Qed.

(** Signalling frames.  For acknowledgements, hellos, conflicts, challenges,
    responses and control frames, encoder and decoder are mutually inverse: an
    encoded header decodes to the header sent, and any bytes a decoder accepts are
    exactly the encoding of the header it returns, signature included (so an
    accepted acknowledgement has a bitmap within its fragment count, and the full
    bitmap when its status is COMPLETE).  No bytes are accepted both as a hello and
    as a conflict. *)
Theorem signalling_frames_inverse :
  mutually_inverse 72 wf_ack sent_ack melodi_wire_encode_ack melodi_wire_decode_ack /\
  mutually_inverse 213 wf_hello (fun h => sent_hello h MELODI_WIRE_HELLO)
    melodi_wire_encode_hello melodi_wire_decode_hello /\
  mutually_inverse 213 wf_hello (fun h => sent_hello h MELODI_WIRE_CONFLICT)
    melodi_wire_encode_conflict melodi_wire_decode_conflict /\
  mutually_inverse 302 wf_auth sent_auth melodi_wire_encode_auth melodi_wire_decode_auth /\
  mutually_inverse 209 wf_control sent_control melodi_wire_encode_control melodi_wire_decode_control /\
  forall b, is_ok (melodi_wire_decode_hello b) && is_ok (melodi_wire_decode_conflict b) = false.
Proof.
  split; [exact (codec_inverse ack_codec)|]. split; [exact (codec_inverse hello_codec)|].
  split; [exact (codec_inverse conflict_codec)|]. split; [exact (codec_inverse auth_codec)|].
  split; [exact (codec_inverse control_codec)|]. intros b.
  destruct (melodi_wire_decode_hello b) eqn:E1; [|reflexivity].
  destruct (melodi_wire_decode_conflict b) eqn:E2; [|reflexivity].
  apply decode_claim_class in E1, E2. congruence.
Qed.

(** The formats at work: a conflict is not a hello. *)
Lemma signalling_frames_witness :
  exists a c x d, melodi_wire_encode_ack (replicate 72 0) sample_ack = Ok a /\
    melodi_wire_decode_ack a = Ok (sent_ack sample_ack) /\
    melodi_wire_encode_conflict (replicate 213 0) sample_hello = Ok c /\
    melodi_wire_decode_conflict c = Ok (sent_hello sample_hello MELODI_WIRE_CONFLICT) /\
    melodi_wire_decode_hello c = Err EPROTO /\
    melodi_wire_encode_auth (replicate 302 0) sample_auth = Ok x /\
    melodi_wire_decode_auth x = Ok (sent_auth sample_auth) /\
    melodi_wire_encode_control (replicate 209 0) sample_control = Ok d /\
    melodi_wire_decode_control d = Ok (sent_control sample_control).
Proof.
  pose proof signalling_frames_inverse as (Ha & _ & Hc & Hx & Hd & _).
  do 4 eexists. split; [vm_compute; reflexivity|].
  split; [apply (Ha (replicate 72 0) sample_ack); [reflexivity|by_decide|reflexivity]|].
  split; [vm_compute; reflexivity|].
  split; [apply (Hc (replicate 213 0) sample_hello); [reflexivity|by_decide|reflexivity]|].
  split; [vm_compute; reflexivity|]. split; [vm_compute; reflexivity|].
  split; [apply (Hx (replicate 302 0) sample_auth); [reflexivity|by_decide|reflexivity]|].
  split; [vm_compute; reflexivity|].
  apply (Hd (replicate 209 0) sample_control); [reflexivity|by_decide|reflexivity].
Defined.
