(* ===== verification/Replay.v ===== *)
(** * The replay window (src/proto/replay.c, src/proto/replay.h)

    A sliding 64-bit bitmap over the authenticated counters of a peer.  The
    abstract specification is the set of counters accepted so far; the window
    is proved to implement it exactly, over every sequence of counters. *)
From S2P Require Import Prelude.

Abbreviation MELODI_REPLAY_WINDOW_BITS := 64.

Record melodi_replay_window := MkWindow { highest : Z; bitmap : Z }.

#[export] Instance melodi_replay_window_eq_dec : EqDecision melodi_replay_window.
Proof. solve_decision. Defined.

Definition melodi_replay_reset : melodi_replay_window := MkWindow 0 0.

Definition melodi_replay_seen (window : melodi_replay_window) (counter : Z) : bool :=
  if counter =? 0 then true else
  if window.(highest) <? counter then false else
  let distance := window.(highest) - counter in
  (MELODI_REPLAY_WINDOW_BITS <=? distance) || has window.(bitmap) (bit distance).

(** A refused counter leaves the window as it is. *)
Definition melodi_replay_mark (window : melodi_replay_window) (counter : Z)
    : result melodi_replay_window :=
  if counter =? 0 then Err EINVAL else
  if window.(highest) <? counter then
    let distance := counter - window.(highest) in
    Ok {| bitmap := if MELODI_REPLAY_WINDOW_BITS <=? distance then 1
                    else Z.lor (wrap 64 (Z.shiftl window.(bitmap) distance)) 1;
          highest := counter |}
  else
  let distance := window.(highest) - counter in
  if (MELODI_REPLAY_WINDOW_BITS <=? distance) || has window.(bitmap) (bit distance)
  then Err EALREADY
  else Ok {| bitmap := Z.lor window.(bitmap) (bit distance); highest := window.(highest) |}.

(** The receive path: a counter is marked when it authenticates; the counters
    for which [melodi_replay_mark] succeeded, latest first. *)
Fixpoint replay_run (window : melodi_replay_window) (accepted : list Z) (counters : list Z)
    : melodi_replay_window * list Z :=
  match counters with
  | [] => (window, accepted)
  | c :: rest =>
      match melodi_replay_mark window c with
      | Ok window' => replay_run window' (c :: accepted) rest
      | Err _ => replay_run window accepted rest
      end
  end.

(** ** Abstract specification: the set of accepted counters *)

Definition maxZ (l : list Z) : Z := foldr Z.max 0 l.

(** A counter is fresh when it is positive, was never accepted, and is less
    than 64 below the highest accepted one. *)
Definition replay_fresh (accepted : list Z) (c : Z) : bool :=
  (0 <? c) && bool_decide (c ∉ accepted) && (maxZ accepted - 64 <? c).

(** The window represents the set. *)
Definition represents (w : melodi_replay_window) (accepted : list Z) : Prop :=
  w.(highest) = maxZ accepted /\ u64 w.(highest) /\ u64 w.(bitmap) /\
  Forall (fun c => 0 < c) accepted /\
  forall d, 0 <= d < 64 -> Z.testbit w.(bitmap) d = true <-> w.(highest) - d ∈ accepted.

Lemma maxZ_le l c : c ∈ l -> c <= maxZ l.
Proof.
  induction l as [|a l IH]; simpl; [now intros ?%not_elem_of_nil|].
  intros [->|H%IH]%elem_of_cons; fold (maxZ l) in *; lia.
Qed.

Lemma represents_reset : represents melodi_replay_reset [].
Proof.
  unfold represents. cbn. conj_split; auto; try width_lia.
  intros d _. rewrite Z.testbit_0_l. split; [discriminate|]. now intros ?%not_elem_of_nil.
Qed.

(** Freshness decides the outcome of a mark. *)
Lemma represents_seen w A c :
  represents w A -> 0 <= c -> melodi_replay_seen w c = negb (replay_fresh A c).
Proof.
  intros (Hh & Hu & Hb & Hp & Hbits) Hc. unfold melodi_replay_seen, replay_fresh.
  destruct (Z.eqb_spec c 0) as [->|Hc0]; [reflexivity|].
  rewrite (proj2 (Z.ltb_lt 0 c)) by lia. rewrite <- Hh.
  destruct (Z.ltb_spec (highest w) c).
  - rewrite (proj2 (Z.ltb_lt _ _)) by lia.
    rewrite bool_decide_eq_true_2; [reflexivity|]. intros Hin%maxZ_le. lia.
  - destruct (Z.leb_spec 64 (highest w - c)).
    + rewrite (proj2 (Z.ltb_ge _ _)) by lia. now rewrite andb_false_r.
    + rewrite (proj2 (Z.ltb_lt _ _)) by lia. rewrite has_bit_testbit by lia. simpl.
      rewrite andb_true_r. specialize (Hbits (highest w - c)).
      replace (highest w - (highest w - c)) with c in Hbits by lia.
      destruct (Z.testbit (bitmap w) (highest w - c)).
      * rewrite bool_decide_eq_false_2; [reflexivity|]. intros Hn. apply Hn, Hbits; auto. lia.
      * rewrite bool_decide_eq_true_2; [reflexivity|]. intros Hin%Hbits; [discriminate|lia].
Qed.

Lemma mark_seen w c : is_ok (melodi_replay_mark w c) = negb (melodi_replay_seen w c).
Proof.
  unfold melodi_replay_mark, melodi_replay_seen. guards; auto.
Qed.

Lemma replay_fresh_spec A c :
  replay_fresh A c = true <-> 0 < c /\ (c ∉ A) /\ maxZ A - 64 < c.
Proof.
  unfold replay_fresh. rewrite !andb_true_iff, bool_decide_eq_true, !Z.ltb_lt. tauto.
Qed.

(** Marking a fresh counter adds it to the set. *)
Lemma represents_mark w A c w' :
  represents w A -> u64 c -> melodi_replay_mark w c = Ok w' -> represents w' (c :: A).
Proof.
  intros HR Hc Hm. pose proof HR as (Hh & Hu & Hb & Hp & Hbits).
  assert (replay_fresh A c = true) as Hf.
  { pose proof (mark_seen w c) as E. rewrite Hm in E.
    rewrite (represents_seen w A c HR), negb_involutive in E by width_lia. now symmetry. }
  apply replay_fresh_spec in Hf as (Hpos & Hnew & Hwin).
  unfold melodi_replay_mark in Hm. guards_in Hm; injection Hm as <-; guard_hyps;
    unfold represents; cbn [highest bitmap maxZ foldr]; fold (maxZ A).
  - (* far jump: only the new counter is in the window *)
    conj_split; auto; try (try constructor; auto; width_lia).
    intros d Hd. change 1 with (2 ^ 0). rewrite elem_of_cons.
    destruct (decide (d = 0)) as [->|Hd0].
    + rewrite Z.pow2_bits_true by lia. split; auto. intros _. left. lia.
    + rewrite Z.pow2_bits_false by auto. split; [discriminate|].
      intros [?|Hin%maxZ_le]; lia.
  - (* near jump: the bitmap slides *)
    conj_split; auto; try (try constructor; auto; width_lia).
    { apply uint_lor; [lia|apply wrap_uint; lia|width_lia]. }
    intros d Hd. rewrite Z.lor_spec. unfold wrap. rewrite Z.testbit_mod_pow2 by lia.
    rewrite (proj2 (Z.ltb_lt d 64)) by lia. rewrite Z.shiftl_spec by lia.
    change 1 with (2 ^ 0). rewrite elem_of_cons.
    destruct (decide (d = 0)) as [->|Hd0].
    + rewrite Z.pow2_bits_true, orb_true_r by lia. split; auto. intros _. left. lia.
    + rewrite Z.pow2_bits_false, orb_false_r by auto. cbn [andb].
      destruct (decide (c - highest w <= d)).
      * rewrite Hbits by lia. replace (highest w - (d - (c - highest w))) with (c - d) by lia.
        split; auto. intros [?|?]; [lia|auto].
      * rewrite Z.testbit_neg_r by lia. split; [discriminate|].
        intros [?|Hin%maxZ_le]; lia.
  - (* inside the window: one more bit *)
    conj_split; auto; try (try constructor; auto; width_lia).
    { apply uint_lor; auto; [lia|]. apply uint_bit. lia. }
    intros d Hd. rewrite Z.lor_spec, elem_of_cons. unfold bit. rewrite Z.shiftl_1_l.
    destruct (decide (d = highest w - c)) as [->|Hd0].
    + rewrite Z.pow2_bits_true, orb_true_r by lia. split; auto. intros _. left. lia.
    + rewrite Z.pow2_bits_false, orb_false_r by auto. rewrite Hbits by lia.
      split; auto. intros [?|?]; [lia|auto].
Qed.

Lemma replay_run_represents cs w A :
  represents w A -> Forall u64 cs ->
  represents (replay_run w A cs).1 (replay_run w A cs).2.
Proof.
  intros HR Hcs. revert w A HR. induction Hcs as [|c cs Hc Hcs IH]; intros w A HR; simpl; auto.
  destruct (melodi_replay_mark w c) eqn:E; apply IH; auto. eapply represents_mark; eauto.
Qed.

Lemma replay_run_NoDup cs w A :
  represents w A -> Forall u64 cs -> NoDup A -> NoDup (replay_run w A cs).2.
Proof.
  intros HR Hcs. revert w A HR. induction Hcs as [|c cs Hc Hcs IH]; intros w A HR Hnd; simpl; auto.
  destruct (melodi_replay_mark w c) eqn:E; apply IH; auto; [eapply represents_mark; eauto|].
  constructor; auto. pose proof (mark_seen w c) as E'. rewrite E in E'.
  rewrite (represents_seen w A c HR), negb_involutive in E' by width_lia.
  symmetry in E'. now apply replay_fresh_spec in E' as (_ & ? & _).
Qed.

(** C22: no replay is accepted.  Over any sequence of 64-bit counters presented
    to a fresh window, in any order and with any repetition, every counter is
    accepted at most once. *)
Theorem replay_accepts_once counters :
  Forall u64 counters -> NoDup (replay_run melodi_replay_reset [] counters).2.
Proof.
  intros. apply replay_run_NoDup; auto using represents_reset. constructor.
Qed.

Definition sample_counters : list Z := [5; 3; 5; 70; 4; 7; 3; 6; 70; 200; 69; 0; 137; 136].

Lemma replay_accepts_once_witness :
  (replay_run melodi_replay_reset [] sample_counters).2 = [137; 200; 7; 70; 3; 5] /\
  NoDup (replay_run melodi_replay_reset [] sample_counters).2.
Proof.
  split; [vm_compute; reflexivity|]. apply (replay_accepts_once sample_counters). by_decide.
Defined.

(** The window implements its specification.  After any sequence of
    counters, [melodi_replay_mark] accepts the next one exactly when it is
    positive, was not accepted before and is less than 64 below the highest
    accepted counter; [melodi_replay_seen] is the negation of that, so the
    check before decryption and the mark after it agree. *)
Theorem replay_window_refines counters c :
  Forall u64 counters -> u64 c ->
  let w := (replay_run melodi_replay_reset [] counters).1 in
  let accepted := (replay_run melodi_replay_reset [] counters).2 in
  is_ok (melodi_replay_mark w c) = replay_fresh accepted c /\
  melodi_replay_seen w c = negb (replay_fresh accepted c).
Proof.
  intros Hcs Hc.
  pose proof (replay_run_represents counters melodi_replay_reset [] represents_reset Hcs) as HR.
  cbv zeta. rewrite mark_seen, (represents_seen _ _ c HR) by width_lia. split; auto using negb_involutive.
Qed.

Lemma replay_window_refines_witness :
  let w := (replay_run melodi_replay_reset [] sample_counters).1 in
  let accepted := (replay_run melodi_replay_reset [] sample_counters).2 in
  is_ok (melodi_replay_mark w 138) = true /\ melodi_replay_seen w 137 = true /\
  is_ok (melodi_replay_mark w 138) = replay_fresh accepted 138.
Proof.
  split; [vm_compute; reflexivity|]. split; [vm_compute; reflexivity|].
  exact (proj1 (replay_window_refines sample_counters 138 ltac:(by_decide) ltac:(by_decide))).
Defined.
