(* ===== verification/Ordering.v ===== *)
(** * Ordered delivery (src/proto/ordering.c, src/proto/ordering.h)

    The receive window of an ordered flow.  Markers run over 1 .. 2^32-1 and
    wrap to 1; [pending] holds one bit per marker after the expected one.  The
    abstract specification counts messages without bound and keeps the set of
    held indices. *)
From S2P Require Import Prelude.

Abbreviation MELODI_ORDER_WINDOW := 32.
Abbreviation MELODI_ORDER_GAP_MS := 5000.
Abbreviation MELODI_ORDER_MODULUS := 0xffffffff.

Inductive melodi_order_result : Set :=
| MELODI_ORDER_HELD
| MELODI_ORDER_RELEASED
| MELODI_ORDER_DUPLICATE.

#[export] Instance melodi_order_result_eq_dec : EqDecision melodi_order_result.
Proof. solve_decision. Defined.

Record melodi_order_state := MkOrder {
  deadline_ms : Z;
  expected : Z;
  pending : Z;
}.

(** What an operation reports: its code, [*release_marker] and [*release_count]. *)
Record order_report := MkReport {
  code : melodi_order_result;
  release_marker : Z;
  release_count : Z;
}.

Definition melodi_order_deadline (now_ms : Z) : result Z :=
  if U64_MAX - MELODI_ORDER_GAP_MS <? now_ms then Err EOVERFLOW
  else Ok (now_ms + MELODI_ORDER_GAP_MS).

Definition melodi_order_next (marker : Z) : Z :=
  if marker =? U32_MAX then 1 else marker + 1.

Definition melodi_order_advance (marker count : Z) : Z :=
  Nat.iter (Z.to_nat count) melodi_order_next marker.

Definition melodi_order_distance (expected marker : Z) : result Z :=
  if (expected =? 0) || (marker =? 0) then Err EINVAL else
  let expected_index := expected - 1 in
  let marker_index := marker - 1 in
  let distance := if expected_index <=? marker_index
                  then marker_index - expected_index
                  else MELODI_ORDER_MODULUS - (expected_index - marker_index) in
  Ok (wrap 32 distance).

(** [while (bits & 1U)]: 32 iterations exhaust a 32-bit word. *)
Fixpoint release_loop (fuel : nat) (bits expected count : Z) : Z * Z * Z :=
  match fuel with
  | O => (bits, expected, count)
  | S fuel => if has bits 1
              then release_loop fuel (Z.shiftr bits 1) (melodi_order_next expected)
                     (wrap 8 (count + 1))
              else (bits, expected, count)
  end.

Definition melodi_order_release (state : melodi_order_state) (marker bits : Z)
    : melodi_order_state * order_report :=
  let '(bits, exp, count) := release_loop 32 bits (melodi_order_next marker) 1 in
  let pend := Z.shiftr bits 1 in
  (MkOrder (if pend =? 0 then 0 else state.(deadline_ms)) exp pend,
   MkReport MELODI_ORDER_RELEASED marker count).

Definition melodi_order_reset : melodi_order_state := MkOrder 0 1 0.

Definition set_pending (state : melodi_order_state) (deadline pend : Z) : melodi_order_state :=
  MkOrder deadline state.(expected) pend.

Definition melodi_order_admit (state : melodi_order_state) (marker now_ms : Z)
    : melodi_order_state * result order_report :=
  if state.(expected) =? 0 then (state, Err EINVAL) else
  match melodi_order_distance state.(expected) marker with
  | Err e => (state, Err e)
  | Ok forward =>
      if forward =? 0 then
        let '(state, report) := melodi_order_release state marker state.(pending) in
        (state, Ok report)
      else if forward <=? MELODI_ORDER_WINDOW then
        let b := bit (forward - 1) in
        if has state.(pending) b then (state, Ok (MkReport MELODI_ORDER_DUPLICATE 0 0)) else
        match (if state.(deadline_ms) =? 0 then melodi_order_deadline now_ms
               else Ok state.(deadline_ms)) with
        | Err e => (state, Err e)
        | Ok deadline => (set_pending state deadline (Z.lor state.(pending) b),
                          Ok (MkReport MELODI_ORDER_HELD 0 0))
        end
      else
        let backward := wrap 32 (MELODI_ORDER_MODULUS - forward) in
        (state, if backward <=? MELODI_ORDER_WINDOW
                then Ok (MkReport MELODI_ORDER_DUPLICATE 0 0) else Err ERANGE)
  end.

(** [while (!(bits & 1U))]: a non-zero 32-bit word ends it within 32 turns. *)
Fixpoint skip_loop (fuel : nat) (bits skipped : Z) : Z * Z :=
  match fuel with
  | O => (bits, skipped)
  | S fuel => if has bits 1 then (bits, skipped)
              else skip_loop fuel (Z.shiftr bits 1) (wrap 8 (skipped + 1))
  end.

Definition melodi_order_poll (state : melodi_order_state) (now_ms : Z)
    : melodi_order_state * result order_report :=
  if state.(expected) =? 0 then (state, Err EINVAL) else
  if (state.(pending) =? 0) || (now_ms <? state.(deadline_ms))
  then (state, Ok (MkReport MELODI_ORDER_HELD 0 0)) else
  let '(bits, skipped) := skip_loop 32 state.(pending) 0 in
  let marker := melodi_order_advance state.(expected) (wrap 8 (skipped + 1)) in
  let bits := Z.shiftr bits 1 in
  let '(state, report) := melodi_order_release state marker bits in
  if state.(pending) =? 0 then (state, Ok report) else
  match melodi_order_deadline now_ms with
  | Err e => (state, Err e)
  | Ok deadline => (set_pending state deadline state.(pending), Ok report)
  end.

(** ** Abstract specification

    Messages are numbered 0, 1, 2, ...; the sender marks message [n] with
    [marker_of n].  The receiver keeps the next index to deliver and the set
    of later indices it holds. *)

Definition marker_of (n : Z) : Z := 1 + n mod MELODI_ORDER_MODULUS.

Record order_spec := MkSpec { next_index : Z; held : list Z }.

(** The length of the run of held indices that starts at [k]. *)
Fixpoint run_length (fuel : nat) (h : list Z) (k : Z) : Z :=
  match fuel with
  | O => 0
  | S fuel => if decide (k ∈ h) then 1 + run_length fuel h (k + 1) else 0
  end.

(** Deliver [m] and the run that follows it; forget what is below. *)
Definition spec_release (s : order_spec) (m : Z) : order_spec * Z :=
  let n := run_length 32 s.(held) (m + 1) in
  (MkSpec (m + 1 + n) (filter (fun x => m + 1 + n < x) s.(held)), 1 + n).

Inductive spec_outcome : Set :=
| SHeld
| SDuplicate
| SReleased (first count : Z)
| SRange.

Definition spec_admit (s : order_spec) (i : Z) : order_spec * spec_outcome :=
  let e := s.(next_index) in
  if i =? e then let '(s', n) := spec_release s e in (s', SReleased e n)
  else if (e <? i) && (i <=? e + 32) then
    if decide (i ∈ s.(held)) then (s, SDuplicate) else (MkSpec e (i :: s.(held)), SHeld)
  else if (e - 32 <=? i) && (i <? e) then (s, SDuplicate)
  else (s, SRange).

(** The state represents the specification. *)
Definition order_rep (st : melodi_order_state) (s : order_spec) : Prop :=
  st.(expected) = marker_of s.(next_index) /\ u32 st.(pending) /\
  (forall j, 0 <= j -> Z.testbit st.(pending) j = bool_decide (s.(next_index) + 1 + j ∈ s.(held))) /\
  (forall x, x ∈ s.(held) -> s.(next_index) < x).

(** How an outcome is reported. *)
Definition reports (r : result order_report) (o : spec_outcome) : Prop :=
  match o with
  | SHeld => r = Ok (MkReport MELODI_ORDER_HELD 0 0)
  | SDuplicate => r = Ok (MkReport MELODI_ORDER_DUPLICATE 0 0)
  | SReleased first count => r = Ok (MkReport MELODI_ORDER_RELEASED (marker_of first) count)
  | SRange => r = Err ERANGE
  end.

Lemma marker_of_range n : 1 <= marker_of n <= 0xffffffff.
Proof. unfold marker_of. pose proof (Z.mod_pos_bound n 0xffffffff). lia. Qed.

Lemma next_marker n : melodi_order_next (marker_of n) = marker_of (n + 1).
Proof.
  unfold melodi_order_next, marker_of, U32_MAX. change (2 ^ 32 - 1) with 4294967295.
  destruct (Z.eqb_spec (1 + n mod 4294967295) 4294967295); div_lia.
Qed.

Lemma iter_next k n : Nat.iter k melodi_order_next (marker_of n) = marker_of (n + Z.of_nat k).
Proof.
  induction k as [|k IH]; simpl Nat.iter.
  - f_equal. lia.
  - rewrite IH, next_marker. f_equal. lia.
Qed.

Lemma distance_markers e i :
  melodi_order_distance (marker_of e) (marker_of i) = Ok ((i - e) mod MELODI_ORDER_MODULUS).
Proof.
  unfold melodi_order_distance. pose proof (marker_of_range e). pose proof (marker_of_range i).
  pass_guard. unfold marker_of in *. f_equal.
  assert (forall x, 0 <= x < 4294967295 -> wrap 32 x = x) as Hw
    by (intros; apply wrap_id; width_lia).
  destruct (Z.leb_spec (1 + e mod 4294967295 - 1) (1 + i mod 4294967295 - 1));
    rewrite Hw; div_lia.
Qed.

(** ** The loops *)

Lemma has_1 x : has x 1 = Z.testbit x 0.
Proof. exact (has_bit_testbit x 0 ltac:(lia)). Qed.

Lemma uint_half w x : 0 <= w -> uint (w + 1) x -> uint w (Z.shiftr x 1).
Proof.
  unfold uint. intros Hw Hx. rewrite Z.pow_add_r in Hx by lia.
  rewrite Z.shiftr_div_pow2 by lia. change (2 ^ 1) with 2 in *. div_lia.
Qed.

Lemma release_loop_spec fuel bits n count :
  uint (Z.of_nat fuel) bits -> 0 <= count -> count + Z.of_nat fuel < 256 ->
  exists k, 0 <= k <= Z.of_nat fuel /\
    release_loop fuel bits (marker_of n) count
    = (Z.shiftr bits k, marker_of (n + k), count + k) /\
    (forall j, 0 <= j < k -> Z.testbit bits j = true) /\ Z.testbit bits k = false.
Proof.
  revert bits n count. induction fuel as [|fuel IH]; intros bits n count Hb Hc Hlt.
  - exists 0. cbn [release_loop]. assert (bits = 0) as -> by (unfold uint in Hb; lia).
    rewrite Z.add_0_r, Z.add_0_r. conj_split; auto; lia.
  - cbn [release_loop]. rewrite has_1. destruct (Z.testbit bits 0) eqn:E.
    + rewrite next_marker, wrap_id by width_lia.
      destruct (IH (Z.shiftr bits 1) (n + 1) (count + 1)) as (k & Hk & -> & Hall & Hend);
        [apply uint_half; [lia|]; replace (Z.of_nat fuel + 1) with (Z.of_nat (S fuel)) by lia; auto
        |lia|lia|].
      exists (k + 1). rewrite Z.shiftr_shiftr by lia. rewrite Z.shiftr_spec in Hend by lia.
      conj_split; try lia.
      * rewrite (Z.add_comm 1 k). replace (n + 1 + k) with (n + (k + 1)) by lia.
        f_equal. lia.
      * intros j Hj. destruct (decide (j = 0)) as [->|]; [auto|].
        specialize (Hall (j - 1) ltac:(lia)). rewrite Z.shiftr_spec in Hall by lia.
        now replace (j - 1 + 1) with j in Hall by lia.
      * exact Hend.
    + exists 0. rewrite Z.shiftr_0_r, !Z.add_0_r. conj_split; auto; lia.
Qed.

Lemma skip_loop_spec fuel bits skipped :
  uint (Z.of_nat fuel) bits -> bits <> 0 -> 0 <= skipped -> skipped + Z.of_nat fuel < 256 ->
  exists k, 0 <= k < Z.of_nat fuel /\
    skip_loop fuel bits skipped = (Z.shiftr bits k, skipped + k) /\
    (forall j, 0 <= j < k -> Z.testbit bits j = false) /\ Z.testbit bits k = true.
Proof.
  revert bits skipped. induction fuel as [|fuel IH]; intros bits sk Hb Hnz Hs Hlt.
  - unfold uint in Hb. lia.
  - cbn [skip_loop]. rewrite has_1. destruct (Z.testbit bits 0) eqn:E.
    + exists 0. rewrite Z.shiftr_0_r, Z.add_0_r. conj_split; auto; lia.
    + rewrite wrap_id by width_lia.
      assert (Z.shiftr bits 1 <> 0) as Hnz'.
      { rewrite Z.shiftr_div_pow2 by lia. rewrite Z.bit0_odd in E.
        rewrite <- Z.negb_even, negb_false_iff, Z.even_spec in E. destruct E as [m ->].
        change (2 ^ 1) with 2. div_lia. }
      destruct (IH (Z.shiftr bits 1) (sk + 1)) as (k & Hk & -> & Hall & Hend);
        [apply uint_half; [lia|]; replace (Z.of_nat fuel + 1) with (Z.of_nat (S fuel)) by lia; auto
        |auto|lia|lia|].
      exists (k + 1). rewrite Z.shiftr_shiftr by lia. rewrite Z.shiftr_spec in Hend by lia.
      conj_split; try lia.
      * rewrite (Z.add_comm 1 k). f_equal. lia.
      * intros j Hj. destruct (decide (j = 0)) as [->|]; [auto|].
        specialize (Hall (j - 1) ltac:(lia)). rewrite Z.shiftr_spec in Hall by lia.
        now replace (j - 1 + 1) with j in Hall by lia.
      * exact Hend.
Qed.

Lemma run_length_spec fuel h n k :
  0 <= n <= Z.of_nat fuel ->
  (forall j, 0 <= j < n -> k + j ∈ h) -> (n < Z.of_nat fuel -> k + n ∉ h) ->
  run_length fuel h k = n.
Proof.
  revert n k. induction fuel as [|fuel IH]; intros n k Hn Hin Hout; cbn [run_length]; [lia|].
  case_decide as Hk.
  - destruct (decide (n = 0)) as [->|].
    + exfalso. apply Hout; [lia|]. now rewrite Z.add_0_r.
    + rewrite (IH (n - 1)); [lia|lia| |].
      * intros j Hj. replace (k + 1 + j) with (k + (j + 1)) by lia. apply Hin. lia.
      * intros Hlt. replace (k + 1 + (n - 1)) with (k + n) by lia. apply Hout. lia.
  - destruct (decide (n = 0)) as [->|]; [lia|].
    exfalso. apply Hk. rewrite <- (Z.add_0_r k). apply Hin. lia.
Qed.

(** Releasing [m] with the bits of the indices after it. *)
Lemma release_rep st s m bits :
  u32 bits -> s.(next_index) <= m ->
  (forall j, 0 <= j -> Z.testbit bits j = bool_decide (m + 1 + j ∈ s.(held))) ->
  let '(st', r) := melodi_order_release st (marker_of m) bits in
  let '(s', n) := spec_release s m in
  order_rep st' s' /\ r = MkReport MELODI_ORDER_RELEASED (marker_of m) n /\ 1 <= n <= 33 /\
  st'.(deadline_ms) = (if st'.(pending) =? 0 then 0 else st.(deadline_ms)).
Proof.
  intros Hb Hm Hbits. unfold melodi_order_release, spec_release. rewrite next_marker.
  destruct (release_loop_spec 32 bits (m + 1) 1) as (k & Hk & -> & Hall & Hend);
    [exact Hb|lia|lia|].
  assert (run_length 32 (held s) (m + 1) = k) as ->.
  { apply run_length_spec; [lia| |].
    - intros j Hj. specialize (Hall j Hj). rewrite Hbits in Hall by lia.
      now apply bool_decide_eq_true in Hall.
    - intros _. rewrite Hbits in Hend by lia. now apply bool_decide_eq_false in Hend. }
  cbn [deadline_ms pending]. unfold order_rep. cbn [expected pending next_index held].
  conj_split; auto; try lia.
  - apply uint_shiftr; [lia..|]. apply uint_shiftr; auto; lia.
  - intros j Hj. rewrite !Z.shiftr_spec, Hbits by lia.
    replace (m + 1 + (j + 1 + k)) with (m + 1 + k + 1 + j) by lia.
    apply bool_decide_ext. rewrite list_elem_of_filter. split; [split; auto; lia|tauto].
  - intros x Hx. apply list_elem_of_filter in Hx. lia.
Qed.

(** ** Refinement of the operations *)

Lemma order_admit_refines st s i now :
  order_rep st s -> Z.abs (i - s.(next_index)) < 2 ^ 31 -> now <= U64_MAX - 5000 ->
  let '(st', r) := melodi_order_admit st (marker_of i) now in
  let '(s', o) := spec_admit s i in
  order_rep st' s' /\ reports r o.
Proof.
  intros HR Hi Hnow. pose proof HR as (He & Hp & Hbits & Hheld).
  unfold melodi_order_admit, spec_admit. rewrite He. pose proof (marker_of_range (next_index s)).
  destruct (Z.eqb_spec (marker_of (next_index s)) 0); [lia|].
  rewrite distance_markers. set (e := next_index s) in *.
  change (2 ^ 31) with 2147483648 in Hi.
  destruct (Z.eqb_spec i e) as [->|Hne].
  - rewrite Z.sub_diag, Z.mod_0_l by lia. cbn [Z.eqb].
    pose proof (release_rep st s e (pending st) Hp ltac:(lia) Hbits) as HRel.
    destruct (melodi_order_release st (marker_of e) (pending st)) as [st' r].
    destruct (spec_release s e) as [s' cnt]. destruct HRel as (? & -> & _). split; auto. reflexivity.
  - destruct (Z.ltb_spec e i) as [Hlt|Hge].
    + rewrite Z.mod_small by lia. destruct (Z.eqb_spec (i - e) 0); [lia|].
      destruct (Z.leb_spec (i - e) 32); destruct (Z.leb_spec i (e + 32)); try lia; cbn [andb].
      * rewrite has_bit_testbit, Hbits by lia. replace (e + 1 + (i - e - 1)) with i by lia.
        destruct (decide (i ∈ held s)) as [Hin|Hin].
        { rewrite bool_decide_eq_true_2 by auto. split; auto. reflexivity. }
        rewrite bool_decide_eq_false_2 by auto.
        assert (exists d, (if deadline_ms st =? 0 then melodi_order_deadline now
                           else Ok (deadline_ms st)) = Ok d) as [d ->].
        { destruct (_ =? 0); eauto. unfold melodi_order_deadline. pass_guard. eauto. }
        split; [|reflexivity].
        unfold order_rep, set_pending; cbn [expected pending next_index held]. conj_split; auto.
        -- apply uint_lor; auto; [lia|]. apply uint_bit. lia.
        -- intros j Hj. rewrite Z.lor_spec, Hbits by lia. unfold bit. rewrite Z.shiftl_1_l.
           destruct (decide (j = i - e - 1)) as [->|Hj'].
           ++ rewrite Z.pow2_bits_true, orb_true_r by lia. symmetry. apply bool_decide_eq_true_2.
              apply elem_of_cons. left. fold e. lia.
           ++ rewrite Z.pow2_bits_false, orb_false_r by auto. apply bool_decide_ext.
              rewrite elem_of_cons. fold e. split; auto. intros [?|?]; [lia|auto].
        -- intros x [->|Hx]%elem_of_cons; auto.
      * assert (wrap 32 (4294967295 - (i - e)) = 4294967295 - (i - e)) as ->
          by (apply wrap_id; width_lia).
        destruct (Z.leb_spec (4294967295 - (i - e)) 32); [lia|].
        destruct (Z.ltb_spec i e); [lia|]. rewrite andb_false_r. split; auto. reflexivity.
    + assert ((i - e) mod 4294967295 = 4294967295 + (i - e)) as -> by div_lia.
      destruct (Z.eqb_spec (4294967295 + (i - e)) 0); [lia|].
      destruct (Z.leb_spec (4294967295 + (i - e)) 32); [lia|]. cbn [andb].
      replace (4294967295 - (4294967295 + (i - e))) with (e - i) by lia.
      rewrite wrap_id by width_lia.
      destruct (Z.ltb_spec i e); [|lia]. rewrite andb_true_r.
      destruct (Z.leb_spec (e - i) 32); destruct (Z.leb_spec (e - 32) i); try lia;
        split; auto; reflexivity.
Qed.

Lemma order_poll_refines st s now :
  order_rep st s -> st.(pending) <> 0 -> st.(deadline_ms) <= now <= U64_MAX - 5000 ->
  exists m, m ∈ s.(held) /\ (forall x, x ∈ s.(held) -> m <= x) /\
    let '(st', r) := melodi_order_poll st now in
    let '(s', n) := spec_release s m in
    order_rep st' s' /\ r = Ok (MkReport MELODI_ORDER_RELEASED (marker_of m) n) /\
    st'.(deadline_ms) = (if st'.(pending) =? 0 then 0 else now + 5000).
Proof.
  intros HR Hnz Hnow. pose proof HR as (He & Hp & Hbits & Hheld).
  unfold melodi_order_poll. rewrite He. pose proof (marker_of_range (next_index s)).
  destruct (Z.eqb_spec (marker_of (next_index s)) 0); [lia|].
  destruct (Z.eqb_spec (pending st) 0); [lia|]. destruct (Z.ltb_spec now (deadline_ms st)); [lia|].
  cbn [orb]. set (e := next_index s) in *.
  destruct (skip_loop_spec 32 (pending st) 0) as (k & Hk & -> & Hlow & Hbit); auto; [lia|lia|].
  unfold melodi_order_advance. rewrite wrap_id, iter_next, Z2Nat.id by width_lia.
  rewrite Z.add_0_l. set (m := e + (k + 1)).
  assert (Hm : m ∈ held s).
  { rewrite Hbits in Hbit by lia. apply bool_decide_eq_true in Hbit.
    now replace m with (e + 1 + k) by (unfold m; lia). }
  exists m. split; [exact Hm|]. split.
  { intros x Hx. pose proof (Hheld x Hx). destruct (Z.le_gt_cases m x); [auto|exfalso].
    specialize (Hlow (x - e - 1) ltac:(unfold m in *; lia)). rewrite Hbits in Hlow by lia.
    apply bool_decide_eq_false in Hlow. apply Hlow. now replace (e + 1 + (x - e - 1)) with x by lia. }
  rewrite Z.shiftr_shiftr by lia.
  pose proof (release_rep st s m (Z.shiftr (pending st) (k + 1))) as HRel.
  destruct (melodi_order_release st (marker_of m) (Z.shiftr (pending st) (k + 1))) as [st' r].
  destruct (spec_release s m) as [s' cnt].
  destruct HRel as (HR' & -> & _ & Hdl).
  { apply uint_shiftr; auto; lia. }
  { pose proof (Hheld m Hm). lia. }
  { intros j Hj. rewrite Z.shiftr_spec, Hbits by lia. f_equal.
    replace (e + 1 + (j + (k + 1))) with (m + 1 + j) by (unfold m; lia). reflexivity. }
  destruct (Z.eqb_spec (pending st') 0) as [Hz|Hz].
  - conj_split; auto. now rewrite Hz.
  - unfold melodi_order_deadline. pass_guard. unfold set_pending; cbn.
    rewrite (proj2 (Z.eqb_neq _ _) Hz). conj_split; auto.
Qed.

(** ** Runs

    The messages handed to the application by a sequence of arrivals and
    timer ticks, as markers. *)

Inductive order_op : Set :=
| Arrive (index now : Z)
| Tick (now : Z).

Definition delivered (r : result order_report) : list Z :=
  match r with
  | Ok (MkReport MELODI_ORDER_RELEASED m n) =>
      map (fun k => melodi_order_advance m (Z.of_nat k)) (seq 0 (Z.to_nat n))
  | _ => []
  end.

Definition order_step (st : melodi_order_state) (op : order_op) : melodi_order_state * list Z :=
  let '(st', r) := match op with
                   | Arrive i now => melodi_order_admit st (marker_of i) now
                   | Tick now => melodi_order_poll st now
                   end in (st', delivered r).

Fixpoint order_run (st : melodi_order_state) (ops : list order_op) : list Z :=
  match ops with
  | [] => []
  | op :: rest => let '(st', out) := order_step st op in out ++ order_run st' rest
  end.

Definition arrivals (ops : list order_op) : list Z :=
  omap (fun op => match op with Arrive i _ => Some i | Tick _ => None end) ops.

Definition op_time (op : order_op) : Z :=
  match op with Arrive _ now => now | Tick now => now end.

Lemma run_length_mem fuel h k j : 0 <= j < run_length fuel h k -> k + j ∈ h.
Proof.
  revert k j. induction fuel as [|fuel IH]; intros k j; cbn [run_length]; [lia|].
  case_decide; [|lia]. intros Hj. destruct (decide (j = 0)) as [->|]; [now rewrite Z.add_0_r|].
  replace (k + j) with (k + 1 + (j - 1)) by lia. apply IH. lia.
Qed.

Lemma run_length_nonneg fuel h k : 0 <= run_length fuel h k.
Proof. revert k. induction fuel; intros k; cbn; [lia|]. case_decide; [|lia]. specialize (IHfuel (k + 1)). lia. Qed.

Definition zseq (a n : Z) : list Z := map (fun k => a + Z.of_nat k) (seq 0 (Z.to_nat n)).

Lemma elem_of_zseq x a n : x ∈ zseq a n <-> a <= x < a + n.
Proof.
  unfold zseq. rewrite list_elem_of_In, in_map_iff. split.
  - intros (k & <- & Hk%in_seq). lia.
  - intros Hx. exists (Z.to_nat (x - a)). rewrite in_seq. lia.
Qed.

Lemma zseq_sorted a n : StronglySorted Z.lt (zseq a n).
Proof.
  unfold zseq. generalize (Z.to_nat n) as k. intros k. generalize 0%nat as o.
  induction k as [|k IH]; intros o; cbn [seq map]; [constructor|].
  constructor; [apply IH|]. rewrite list.Forall_forall. intros x Hx.
  apply list_elem_of_In, in_map_iff in Hx as (j & <- & Hj%in_seq). lia.
Qed.

Lemma delivered_release m n :
  delivered (Ok (MkReport MELODI_ORDER_RELEASED (marker_of m) n)) = map marker_of (zseq m n).
Proof.
  cbn [delivered]. unfold zseq, melodi_order_advance. rewrite map_map. apply map_ext.
  intros k. now rewrite Nat2Z.id, iter_next.
Qed.

(** One step delivers a run of indices, each of which was held or just arrived. *)
Definition step_ok (s s' : order_spec) (i : option Z) (idx : list Z) : Prop :=
  StronglySorted Z.lt idx /\ s.(next_index) <= s'.(next_index) /\
  Forall (fun x => s.(next_index) <= x < s'.(next_index) /\ (x ∈ s.(held) \/ Some x = i)) idx /\
  (forall x, x ∈ s'.(held) -> x ∈ s.(held) \/ Some x = i) /\
  (forall y, y = s'.(next_index) -> y = s.(next_index) \/ (y - 1) ∈ idx).

Lemma release_step_ok s m i :
  s.(next_index) <= m -> m ∈ s.(held) \/ Some m = i ->
  step_ok s (spec_release s m).1 i (zseq m (spec_release s m).2).
Proof.
  intros Hle Hm. unfold spec_release, step_ok. cbn [fst snd next_index held].
  pose proof (run_length_nonneg 32 (held s) (m + 1)).
  set (n := run_length 32 (held s) (m + 1)) in *. conj_split; auto using zseq_sorted; try lia.
  - rewrite list.Forall_forall. intros x Hx%elem_of_zseq. split; [lia|].
    destruct (decide (x = m)) as [->|]; [auto|]. left.
    replace x with (m + 1 + (x - m - 1)) by lia. apply run_length_mem with 32%nat. fold n. lia.
  - intros x Hx. apply list_elem_of_filter in Hx. tauto.
  - intros y ->. right. apply elem_of_zseq. lia.
Qed.

Lemma stutter_step_ok s i : step_ok s s i [].
Proof. unfold step_ok. conj_split; auto; try lia. constructor. Qed.

Lemma order_step_ok st s op :
  order_rep st s -> op_time op <= U64_MAX - 5000 ->
  (forall i now, op = Arrive i now -> Z.abs (i - s.(next_index)) < 2 ^ 31) ->
  exists s' idx, order_rep (order_step st op).1 s' /\
    (order_step st op).2 = map marker_of idx /\
    step_ok s s' (match op with Arrive i _ => Some i | Tick _ => None end) idx.
Proof.
  intros HR Ht Hi. destruct op as [i now|now]; unfold order_step; cbn [op_time] in Ht.
  - pose proof (order_admit_refines st s i now HR (Hi i now eq_refl) Ht) as H.
    destruct (melodi_order_admit st (marker_of i) now) as [st' r].
    destruct (spec_admit s i) as [s' o] eqn:Es. destruct H as [HR' Hr]. exists s'.
    unfold spec_admit in Es. destruct (Z.eqb_spec i (next_index s)) as [->|Hne].
    + destruct (spec_release s (next_index s)) as [s1 n1] eqn:Erel. injection Es as <- <-.
      cbn in Hr. subst r. exists (zseq (next_index s) n1). cbn [fst snd].
      rewrite delivered_release. conj_split; auto.
      pose proof (release_step_ok s (next_index s) (Some (next_index s))) as Hs.
      rewrite Erel in Hs. apply Hs; auto; lia.
    + exists []. repeat case_match; simplify_eq; cbn in Hr; subst r; cbn [fst snd delivered];
        conj_split; auto using stutter_step_ok.
      unfold step_ok. cbn. conj_split; auto; try lia; [constructor|].
      intros x [->|?]%elem_of_cons; auto.
  - destruct (decide (pending st = 0 \/ now < deadline_ms st)) as [Hq|Hq].
    + exists s, []. unfold melodi_order_poll. pose proof HR as (He & _).
      pose proof (marker_of_range (next_index s)).
      destruct (Z.eqb_spec (expected st) 0); [lia|].
      assert ((pending st =? 0) || (now <? deadline_ms st) = true) as -> by lia.
      cbn [fst snd delivered]. conj_split; auto using stutter_step_ok.
    + destruct (order_poll_refines st s now HR) as (m & Hm & _ & H); [lia|lia|].
      destruct (melodi_order_poll st now) as [st' r].
      destruct (spec_release s m) as [s' n] eqn:Erel. destruct H as (HR' & -> & _).
      exists s', (zseq m n). cbn [fst snd]. rewrite delivered_release. conj_split; auto.
      pose proof (release_step_ok s m None) as Hs. rewrite Erel in Hs. apply Hs; auto.
      destruct HR as (_ & _ & _ & Hh). specialize (Hh m Hm). lia.
Qed.

Lemma sorted_app (l k : list Z) :
  StronglySorted Z.lt l -> StronglySorted Z.lt k ->
  (forall x y, x ∈ l -> y ∈ k -> x < y) -> StronglySorted Z.lt (l ++ k).
Proof.
  induction 1 as [|a l Hs IH Ha]; intros Hk Hlk; simpl; auto.
  constructor.
  - apply IH; auto. intros x y Hx Hy. apply Hlk; auto. now apply elem_of_cons; right.
  - apply Forall_app. split; auto. rewrite list.Forall_forall. intros y Hy.
    apply Hlk; auto. now apply elem_of_cons; left.
Qed.

Lemma order_run_in_order base ops st s :
  order_rep st s ->
  base <= s.(next_index) <= base + 2 ^ 30 -> (forall x, x ∈ s.(held) -> x < base + 2 ^ 30) ->
  Forall (fun i => base - 2 ^ 30 < i < base + 2 ^ 30) (arrivals ops) ->
  Forall (fun op => op_time op <= U64_MAX - 5000) ops ->
  exists idx, order_run st ops = map marker_of idx /\ StronglySorted Z.lt idx /\
    Forall (fun x => s.(next_index) <= x /\ (x ∈ s.(held) \/ x ∈ arrivals ops)) idx.
Proof.
  change (2 ^ 30) with 1073741824.
  revert st s. induction ops as [|op ops IH]; intros st s HR Hn Hh Ha Ht.
  - exists []. cbn. conj_split; auto. constructor.
  - apply Forall_cons_iff in Ht as [Ht0 Ht].
    assert (Forall (fun i => base - 1073741824 < i < base + 1073741824) (arrivals ops) /\
            (forall i now, op = Arrive i now -> base - 1073741824 < i < base + 1073741824)) as [Ha' Hi].
    { destruct op; cbn in Ha; [apply Forall_cons_iff in Ha as [? Ha]|]; split; auto; congruence. }
    destruct (order_step_ok st s op HR Ht0) as (s' & idx & HR' & Hout & Hstep).
    { intros i now E. specialize (Hi i now E). change (2 ^ 31) with 2147483648. lia. }
    cbn [order_run]. destruct (order_step st op) as [st' out]. cbn [fst snd] in *.
    destruct Hstep as (Hsort & Hmono & Hidx & Hheld' & Hnext). rewrite list.Forall_forall in Hidx.
    assert (forall x, x ∈ idx -> x < base + 1073741824) as Hup.
    { intros x Hx. destruct (Hidx x Hx) as [_ [Hx'|Hx']]; [auto|].
      destruct op; [injection Hx' as ->; eapply Hi; eauto|discriminate]. }
    destruct (IH st' s' HR') as (idx' & Hrun & Hsort' & Hidx'); auto.
    { split; [lia|]. destruct (Hnext _ eq_refl) as [->|Hin]; [lia|]. specialize (Hup _ Hin). lia. }
    { intros x Hx. destruct (Hheld' x Hx) as [?|E]; auto.
      destruct op; [injection E as ->; eapply Hi; eauto|discriminate]. }
    rewrite list.Forall_forall in Hidx'.
    exists (idx ++ idx'). rewrite Hout, Hrun, map_app. conj_split; auto.
    + apply sorted_app; auto. intros x y Hx Hy. destruct (Hidx x Hx), (Hidx' y Hy). lia.
    + assert (forall x, Some x = match op with Arrive i _ => Some i | Tick _ => None end ->
                        x ∈ arrivals (op :: ops)) as Hcur.
      { intros x Hx. destruct op; [injection Hx as ->; cbn; apply elem_of_cons; auto|discriminate]. }
      assert (forall x, x ∈ arrivals ops -> x ∈ arrivals (op :: ops)) as Hlater.
      { intros x Hx. destruct op; cbn; [apply elem_of_cons|]; auto. }
      apply Forall_app. rewrite !list.Forall_forall. split; intros x Hx.
      * destruct (Hidx x Hx) as [? [?|?]]; split; auto; lia.
      * destruct (Hidx' x Hx) as [? [Hx'|?]]; split; auto; try lia.
        destruct (Hheld' x Hx'); auto.
Qed.

Lemma order_rep_reset : order_rep melodi_order_reset (MkSpec 0 []).
Proof.
  unfold order_rep. cbn. conj_split; auto; [width_lia| |now intros x ?%not_elem_of_nil].
  intros j _. rewrite Z.testbit_0_l, bool_decide_eq_false_2; auto. apply not_elem_of_nil.
Qed.

(** A flow that expects message [base] and holds nothing. *)
Definition order_start (base : Z) : melodi_order_state := MkOrder 0 (marker_of base) 0.

Lemma order_rep_start base : order_rep (order_start base) (MkSpec base []).
Proof.
  unfold order_rep. cbn. conj_split; auto; [width_lia| |now intros x ?%not_elem_of_nil].
  intros j _. rewrite Z.testbit_0_l, bool_decide_eq_false_2; auto. apply not_elem_of_nil.
Qed.

(** ** Properties *)

(** The 32-bit window implements the unbounded specification.  For a state
    that represents "next index, set of held indices": the arrival of any
    message within 2^31 of the next one is released with the run of held
    messages behind it, held, or rejected as a duplicate or out of range,
    exactly as the specification says, across the wrap of the marker; and once
    the gap deadline has passed a tick gives up on the gap, releases the
    smallest held message with its run and re-arms the deadline for what is
    left. *)
Theorem order_window_refines st s :
  order_rep st s ->
  (forall i now, Z.abs (i - s.(next_index)) < 2 ^ 31 -> now <= U64_MAX - 5000 ->
   order_rep (melodi_order_admit st (marker_of i) now).1 (spec_admit s i).1 /\
   reports (melodi_order_admit st (marker_of i) now).2 (spec_admit s i).2) /\
  (forall now, st.(pending) <> 0 -> st.(deadline_ms) <= now <= U64_MAX - 5000 ->
   exists m, m ∈ s.(held) /\ (forall x, x ∈ s.(held) -> m <= x) /\
     let '(st', r) := melodi_order_poll st now in
     order_rep st' (spec_release s m).1 /\
     r = Ok (MkReport MELODI_ORDER_RELEASED (marker_of m) (spec_release s m).2) /\
     st'.(deadline_ms) = (if st'.(pending) =? 0 then 0 else now + 5000)).
Proof.
  intros HR. split.
  - intros i now Hi Hn. pose proof (order_admit_refines st s i now HR Hi Hn) as H.
    destruct (melodi_order_admit st (marker_of i) now), (spec_admit s i). exact H.
  - intros now Hp Hd. destruct (order_poll_refines st s now HR Hp Hd) as (m & Hm & Hmin & H).
    exists m. split; [exact Hm|]. split; [exact Hmin|].
    destruct (melodi_order_poll st now), (spec_release s m). exact H.
Qed.

Lemma order_window_refines_witness :
  reports (melodi_order_admit (order_start 4294967294) (marker_of 4294967295) 10).2
    (spec_admit (MkSpec 4294967294 []) 4294967295).2 /\
  (melodi_order_admit (order_start 4294967294) (marker_of 4294967295) 10).2
    = Ok (MkReport MELODI_ORDER_HELD 0 0).
Proof.
  split; [|vm_compute; reflexivity].
  apply (order_window_refines (order_start 4294967294) (MkSpec 4294967294 []));
    [apply order_rep_start|vm_compute; reflexivity|vm_compute; discriminate].
Defined.

(** Ordered delivery.  Whatever the interleaving of arrivals, repetitions
    and timer ticks on a flow that expects message [base], the markers handed
    to the application are those of a strictly increasing sequence of message
    indices, none below [base] and each one having arrived: no message is
    delivered twice, out of order, or without having been received. *)
Theorem order_delivers_in_order base ops :
  Forall (fun i => base - 2 ^ 30 < i < base + 2 ^ 30) (arrivals ops) ->
  Forall (fun op => op_time op <= U64_MAX - 5000) ops ->
  exists idx, order_run (order_start base) ops = map marker_of idx /\
    StronglySorted Z.lt idx /\ Forall (fun x => base <= x /\ x ∈ arrivals ops) idx.
Proof.
  intros Ha Ht.
  destruct (order_run_in_order base ops _ _ (order_rep_start base)) as (idx & Hrun & Hs & Hi); auto.
  { cbn. lia. }
  { now intros x ?%not_elem_of_nil. }
  exists idx. conj_split; auto. eapply list.Forall_impl; [exact Hi|].
  intros x (? & [H|?]); auto. now apply not_elem_of_nil in H.
Qed.

Definition sample_ops : list order_op :=
  [Arrive 4294967296 0; Arrive 4294967293 1; Arrive 4294967296 2; Arrive 4294967294 3;
   Tick 100; Tick 5000; Arrive 4294967295 5001; Arrive 4294967297 5002].

Lemma order_delivers_in_order_witness :
  order_run (order_start 4294967293) sample_ops = [4294967294; 4294967295; 2; 3] /\
  exists idx, order_run (order_start 4294967293) sample_ops = map marker_of idx /\
    StronglySorted Z.lt idx /\
    Forall (fun x => 4294967293 <= x /\ x ∈ arrivals sample_ops) idx.
Proof.
  split; [vm_compute; reflexivity|].
  apply (order_delivers_in_order 4294967293 sample_ops); by_decide.
Defined.
