(* ===== verification/Reliability.v ===== *)
(** * Reliable delivery (src/proto/reliability.c, src/proto/reliability.h)

    The sender's record of one reliable message: which fragments were
    acknowledged, when to retransmit the missing ones and when to give up.
    Every operation is a function from the state to the state and a result. *)
From S2P Require Import Prelude.

Abbreviation MELODI_RELIABLE_RETRY_LIMIT := 4.
Abbreviation MELODI_RELIABLE_DEADLINE_MS := 5000.
Abbreviation MELODI_RELIABLE_PACE_BASE_MS := 100.
Abbreviation MELODI_RELIABLE_PACE_LIMIT_MS := 30000.

Record melodi_reliability_state := MkReliability {
  message_id : Z;
  acknowledged : Z;
  deadline_ms : Z;
  next_retry_ms : Z;
  generation : Z;
  pace_ms : Z;
  fragment_count : Z;
  retries : Z;
  active : bool;
}.

(** [memset(state, 0, sizeof( *state))] *)
Definition reliability_zero : melodi_reliability_state := MkReliability 0 0 0 0 0 0 0 0 false.

Definition melodi_retry_delays : list Z := [200; 500; 1000; 2000].

Definition melodi_reliability_mask (fragment_count : Z) : Z :=
  if fragment_count =? 64 then U64_MAX else wrap 64 (bit fragment_count - 1).

Definition melodi_reliability_add (value amount : Z) : result Z :=
  if U64_MAX - amount <? value then Err EOVERFLOW else Ok (value + amount).

Definition melodi_reliability_scale (pace_ms nominal_ms : Z) : Z :=
  let pace_ms := if pace_ms <? MELODI_RELIABLE_PACE_BASE_MS
                 then MELODI_RELIABLE_PACE_BASE_MS else pace_ms in
  let pace_ms := if MELODI_RELIABLE_PACE_LIMIT_MS <? pace_ms
                 then MELODI_RELIABLE_PACE_LIMIT_MS else pace_ms in
  wrap 64 (nominal_ms * pace_ms) / MELODI_RELIABLE_PACE_BASE_MS.

Definition melodi_reliability_delay (state : melodi_reliability_state) : Z :=
  let index := if MELODI_RELIABLE_RETRY_LIMIT <=? state.(retries)
               then MELODI_RELIABLE_RETRY_LIMIT - 1 else state.(retries) in
  melodi_reliability_scale state.(pace_ms) (nth (Z.to_nat index) melodi_retry_delays 0).

Definition melodi_reliability_start (state : melodi_reliability_state)
    (message_id generation fragment_count now_ms pace_ms ttl_ms : Z)
    : melodi_reliability_state * result unit :=
  if (message_id =? 0) || (generation =? 0) || (fragment_count =? 0) || (64 <? fragment_count)
  then (state, Err EINVAL) else
  let deadline := melodi_reliability_scale pace_ms MELODI_RELIABLE_DEADLINE_MS in
  let deadline := if negb (ttl_ms =? 0) && (ttl_ms <? deadline) then ttl_ms else deadline in
  match (deadline_ms ← melodi_reliability_add now_ms deadline;
         next_retry_ms ← melodi_reliability_add now_ms
           (melodi_reliability_scale pace_ms (nth 0 melodi_retry_delays 0));
         Ok (deadline_ms, next_retry_ms)) with
  | Err e => (reliability_zero, Err e)
  | Ok (deadline_ms, next_retry_ms) =>
      (MkReliability message_id 0 deadline_ms next_retry_ms generation pace_ms
         fragment_count 0 true, Ok tt)
  end.

(** Field updates. *)
Definition set_active (s : melodi_reliability_state) (b : bool) : melodi_reliability_state :=
  MkReliability s.(message_id) s.(acknowledged) s.(deadline_ms) s.(next_retry_ms)
    s.(generation) s.(pace_ms) s.(fragment_count) s.(retries) b.
Definition set_acknowledged (s : melodi_reliability_state) (a : Z) : melodi_reliability_state :=
  MkReliability s.(message_id) a s.(deadline_ms) s.(next_retry_ms)
    s.(generation) s.(pace_ms) s.(fragment_count) s.(retries) s.(active).
Definition set_next_retry (s : melodi_reliability_state) (t : Z) : melodi_reliability_state :=
  MkReliability s.(message_id) s.(acknowledged) s.(deadline_ms) t
    s.(generation) s.(pace_ms) s.(fragment_count) s.(retries) s.(active).
Definition set_retries (s : melodi_reliability_state) (r : Z) : melodi_reliability_state :=
  MkReliability s.(message_id) s.(acknowledged) s.(deadline_ms) s.(next_retry_ms)
    s.(generation) s.(pace_ms) s.(fragment_count) r s.(active).

(** [Ok true] is the C return value 1 (the message is complete), [Ok false] is 0. *)
Definition melodi_reliability_ack (state : melodi_reliability_state)
    (message_id0 generation0 fragment_count0 bitmap : Z) (rejected : bool)
    : melodi_reliability_state * result bool :=
  if negb state.(active) || negb (state.(message_id) =? message_id0) ||
     negb (state.(generation) =? generation0) ||
     negb (state.(fragment_count) =? fragment_count0)
  then (state, Err ENOENT) else
  let expected := melodi_reliability_mask fragment_count0 in
  if (bitmap =? 0) || has bitmap (lnot_w 64 expected) then (state, Err EPROTO) else
  let state := set_acknowledged state (Z.lor state.(acknowledged) bitmap) in
  if rejected then (set_active state false, Err ECONNREFUSED) else
  if state.(acknowledged) =? expected then (set_active state false, Ok true) else
  (state, Ok false).

(** [Ok (Some missing)] is the return value 1 with the bitmap to retransmit,
    [Ok None] is 0. *)
Definition melodi_reliability_poll (state : melodi_reliability_state) (now_ms : Z)
    (queued : bool) : melodi_reliability_state * result (option Z) :=
  if negb state.(active) then (state, Err ENOENT) else
  if state.(deadline_ms) <=? now_ms then (set_active state false, Err ETIMEDOUT) else
  if queued then
    match melodi_reliability_add now_ms (melodi_reliability_delay state) with
    | Err e => (state, Err e)
    | Ok t => (set_next_retry state t, Ok None)
    end
  else
  if now_ms <? state.(next_retry_ms) then (state, Ok None) else
  if MELODI_RELIABLE_RETRY_LIMIT <=? state.(retries)
  then (set_active state false, Err ETIMEDOUT) else
  let expected := melodi_reliability_mask state.(fragment_count) in
  let missing := Z.land expected (lnot_w 64 state.(acknowledged)) in
  let state := set_retries state (wrap 8 (state.(retries) + 1)) in
  if state.(retries) =? MELODI_RELIABLE_RETRY_LIMIT
  then (set_next_retry state state.(deadline_ms), Ok (Some missing)) else
  match melodi_reliability_add now_ms (melodi_reliability_delay state) with
  | Err e => (set_active state false, Err e)
  | Ok t => (set_next_retry state t, Ok (Some missing))
  end.

(** ** Invariant

    An active record misses at least one fragment, acknowledges only fragments
    of the message, and has made at most four retransmissions. *)
Definition reliability_inv (s : melodi_reliability_state) : Prop :=
  s.(active) = true ->
  1 <= s.(fragment_count) <= 64 /\ u64 s.(acknowledged) /\
  Z.land s.(acknowledged) (lnot_w 64 (melodi_reliability_mask s.(fragment_count))) = 0 /\
  s.(acknowledged) <> melodi_reliability_mask s.(fragment_count) /\
  0 <= s.(retries) <= 4.

Lemma mask_ones fc : 1 <= fc <= 64 -> melodi_reliability_mask fc = Z.ones fc.
Proof.
  intros H. unfold melodi_reliability_mask, U64_MAX. rewrite Z.ones_equiv.
  destruct (Z.eqb_spec fc 64) as [->|]; [reflexivity|].
  unfold bit. rewrite Z.shiftl_1_l, wrap_id; [lia|].
  unfold uint. pose proof (Z.pow_pos_nonneg 2 fc). pose proof (Z.pow_lt_mono_r 2 fc 64). lia.
Qed.

Lemma mask_u64 fc : 1 <= fc <= 64 -> u64 (melodi_reliability_mask fc).
Proof.
  intros H. rewrite mask_ones, Z.ones_equiv by lia. unfold uint.
  pose proof (Z.pow_pos_nonneg 2 fc). pose proof (Z.pow_le_mono_r 2 fc 64). lia.
Qed.

Lemma mask_testbit fc j :
  1 <= fc <= 64 -> 0 <= j -> Z.testbit (melodi_reliability_mask fc) j = (j <? fc).
Proof. intros. rewrite mask_ones by lia. apply Z.testbit_ones_nonneg; lia. Qed.

Lemma lnot_w_testbit w x j :
  0 <= w -> uint w x -> 0 <= j -> Z.testbit (lnot_w w x) j = (j <? w) && negb (Z.testbit x j).
Proof.
  intros Hw Hx Hj. unfold lnot_w.
  replace (2 ^ w - 1 - x) with (Z.ldiff (Z.ones w) x).
  - rewrite Z.ldiff_spec, Z.testbit_ones_nonneg; lia || reflexivity.
  - rewrite <- Z.sub_nocarry_ldiff; [rewrite Z.ones_equiv; lia|].
    apply Z.bits_inj_0. intros n. rewrite Z.ldiff_spec.
    destruct (Z.ltb_spec n 0); [now rewrite !Z.testbit_neg_r by lia|].
    rewrite Z.testbit_ones_nonneg by lia. destruct (Z.ltb_spec n w); [apply andb_false_r|].
    now rewrite (uint_testbit_high w x) by auto.
Qed.

(** A word with no bit outside the mask: its bits are below the fragment count. *)
Lemma within_mask fc x :
  1 <= fc <= 64 -> u64 x ->
  Z.land x (lnot_w 64 (melodi_reliability_mask fc)) = 0 <->
  (forall j, fc <= j -> Z.testbit x j = false).
Proof.
  intros Hfc Hx. split.
  - intros H j Hj. pose proof (f_equal (fun y => Z.testbit y j) H) as E. cbn beta in E.
    rewrite Z.land_spec, Z.bits_0, lnot_w_testbit, mask_testbit in E
      by (auto using mask_u64; lia).
    destruct (Z.ltb_spec j 64), (Z.ltb_spec j fc); try lia.
    + now destruct (Z.testbit x j).
    + apply (uint_testbit_high 64); auto. lia.
  - intros H. apply Z.bits_inj'. intros j Hj.
    rewrite Z.land_spec, Z.bits_0, lnot_w_testbit, mask_testbit by (auto using mask_u64; lia).
    destruct (Z.ltb_spec j fc); [now rewrite !andb_false_r|]. now rewrite (H j) by lia.
Qed.

(** ** Runs of a record

    The events that reach a started record: acknowledgements, addressed by
    message, generation and fragment count, and polls of the timer. *)

Inductive rel_op : Set :=
| Ack (id gen count bitmap : Z) (rejected : bool)
| Poll (now : Z) (queued : bool).

Inductive rel_out : Set :=
| AckOut (r : result bool)
| PollOut (r : result (option Z)).

Definition rel_step (s : melodi_reliability_state) (op : rel_op)
    : melodi_reliability_state * rel_out :=
  match op with
  | Ack id gen count bitmap rejected =>
      let r := melodi_reliability_ack s id gen count bitmap rejected in (r.1, AckOut r.2)
  | Poll now queued =>
      let r := melodi_reliability_poll s now queued in (r.1, PollOut r.2)
  end.

Fixpoint rel_exec (s : melodi_reliability_state) (ops : list rel_op) : melodi_reliability_state :=
  match ops with
  | [] => s
  | op :: ops => rel_exec (rel_step s op).1 ops
  end.

Fixpoint rel_trace (s : melodi_reliability_state) (ops : list rel_op) : list rel_out :=
  match ops with
  | [] => []
  | op :: ops => (rel_step s op).2 :: rel_trace (rel_step s op).1 ops
  end.

Definition wf_op (op : rel_op) : Prop :=
  match op with Ack _ _ _ bitmap _ => u64 bitmap | Poll now _ => u64 now end.

(** An acknowledgement that is addressed to the message and names only, and at
    least one of, its fragments. *)
Definition valid_ack (id gen count : Z) (op : rel_op) : option Z :=
  match op with
  | Ack id' gen' count' bitmap _ =>
      if (id =? id') && (gen =? gen') && (count =? count') && negb (bitmap =? 0) &&
         negb (has bitmap (lnot_w 64 (melodi_reliability_mask count)))
      then Some bitmap else None
  | Poll _ _ => None
  end.

(** The history's view of the acknowledged fragments: the union of the valid
    bitmaps received so far. *)
Definition acked_by (id gen count : Z) (ops : list rel_op) : Z :=
  foldl Z.lor 0 (omap (valid_ack id gen count) ops).

(** The number of retransmissions a trace ordered. *)
Definition retransmissions (outs : list rel_out) : nat :=
  length (omap (fun o => match o with PollOut (Ok (Some m)) => Some m | _ => None end) outs).

(** What an operation leaves alone. *)
Definition same_message (s s' : melodi_reliability_state) : Prop :=
  s'.(message_id) = s.(message_id) /\ s'.(generation) = s.(generation) /\
  s'.(fragment_count) = s.(fragment_count) /\ s'.(deadline_ms) = s.(deadline_ms).

Lemma same_message_trans s1 s2 s3 :
  same_message s1 s2 -> same_message s2 s3 -> same_message s1 s3.
Proof. unfold same_message. intuition congruence. Qed.

(** Opens an operation's result, branch by branch. *)
Ltac rel_cases :=
  repeat match goal with
         | |- context [if ?b then _ else _] => destruct b eqn:?
         | |- context [match melodi_reliability_add ?a ?b with _ => _ end] =>
             destruct (melodi_reliability_add a b) eqn:?
         end; cbn in *.

Lemma rel_step_same s op : same_message s (rel_step s op).1.
Proof.
  unfold same_message. destruct op; cbn [rel_step fst];
    [unfold melodi_reliability_ack|unfold melodi_reliability_poll]; rel_cases; auto.
Qed.

(** An inactive record stays as it is. *)
Lemma rel_step_inactive s op : s.(active) = false -> (rel_step s op).1 = s.
Proof.
  intros H. destruct op; cbn [rel_step fst];
    [unfold melodi_reliability_ack|unfold melodi_reliability_poll]; now rewrite H.
Qed.

Lemma rel_step_active s op : (rel_step s op).1.(active) = true -> s.(active) = true.
Proof.
  destruct (active s) eqn:E; [auto|]. now rewrite rel_step_inactive, E by auto.
Qed.

(** An acknowledgement leaves an active record exactly when the union it
    computes misses a fragment. *)
Lemma rel_step_acknowledged s op :
  (rel_step s op).1.(active) = true ->
  (rel_step s op).1.(acknowledged) =
    match valid_ack s.(message_id) s.(generation) s.(fragment_count) op with
    | Some b => Z.lor s.(acknowledged) b
    | None => s.(acknowledged)
    end /\
  (valid_ack s.(message_id) s.(generation) s.(fragment_count) op <> None ->
   (rel_step s op).1.(acknowledged) <> melodi_reliability_mask s.(fragment_count)).
Proof.
  intros Ha. pose proof (rel_step_active s op Ha) as Hs. revert Ha.
  destruct op as [id gen count bm rej|now q]; cbn [rel_step fst valid_ack].
  - unfold melodi_reliability_ack. rewrite Hs. cbn [negb orb].
    destruct (Z.eqb_spec (message_id s) id), (Z.eqb_spec (generation s) gen),
      (Z.eqb_spec (fragment_count s) count); cbn; auto; try (split; [auto|congruence]).
    subst. destruct (bm =? 0), (has bm _); cbn; auto; try (split; [auto|congruence]).
    destruct rej; [discriminate|]. destruct (Z.eqb_spec (Z.lor (acknowledged s) bm)
      (melodi_reliability_mask (fragment_count s))); [discriminate|]. auto.
  - unfold melodi_reliability_poll. rel_cases; intros; split; auto; congruence.
Qed.

Lemma rel_step_retries s op :
  (rel_step s op).1.(active) = true -> 0 <= s.(retries) <= 4 ->
  (rel_step s op).1.(retries) = s.(retries) + Z.of_nat (retransmissions [(rel_step s op).2]) /\
  (rel_step s op).1.(retries) <= 4.
Proof.
  intros Ha Hr. revert Ha. destruct op as [id gen count bm rej|now q]; cbn [rel_step fst snd].
  - unfold melodi_reliability_ack. rel_cases; intros; try discriminate; lia.
  - unfold melodi_reliability_poll. rel_cases; intros; try discriminate; guard_hyps;
      try lia; rewrite wrap_id by width_lia; lia.
Qed.

Lemma rel_exec_snoc s ops op :
  rel_exec s (ops ++ [op]) = (rel_step (rel_exec s ops) op).1.
Proof. revert s. induction ops; intros s; cbn; auto. Qed.

Lemma rel_trace_snoc s ops op :
  rel_trace s (ops ++ [op]) = rel_trace s ops ++ [(rel_step (rel_exec s ops) op).2].
Proof. revert s. induction ops as [|o ops IH]; intros s; cbn; [auto|]. now rewrite IH. Qed.

Lemma retransmissions_app a b :
  retransmissions (a ++ b) = (retransmissions a + retransmissions b)%nat.
Proof. unfold retransmissions. now rewrite omap_app, length_app. Qed.

Lemma acked_by_snoc id gen count ops op :
  acked_by id gen count (ops ++ [op]) =
  match valid_ack id gen count op with
  | Some b => Z.lor (acked_by id gen count ops) b
  | None => acked_by id gen count ops
  end.
Proof.
  unfold acked_by. rewrite omap_app, foldl_app. cbn. now destruct (valid_ack id gen count op).
Qed.

Lemma valid_ack_within id gen count op b :
  1 <= count <= 64 -> wf_op op -> valid_ack id gen count op = Some b ->
  u64 b /\ forall j, count <= j -> Z.testbit b j = false.
Proof.
  intros Hc Hw. destruct op as [id' gen' count' bm rej|]; cbn; [|discriminate].
  destruct (_ && _) eqn:E; [|discriminate]. intros [= <-]. cbn in Hw. split; [exact Hw|].
  apply within_mask; auto. guard_hyps. unfold has in *. guard_hyps. assumption.
Qed.

Lemma acked_by_within id gen count ops :
  1 <= count <= 64 -> Forall wf_op ops ->
  u64 (acked_by id gen count ops) /\
  forall j, count <= j -> Z.testbit (acked_by id gen count ops) j = false.
Proof.
  intros Hc. induction ops as [|op ops IH] using rev_ind; intros Hw.
  - cbn. split; [width_lia|]. intros. apply Z.testbit_0_l.
  - apply Forall_app in Hw as [Hw [Hop _]%Forall_cons_iff]. rewrite acked_by_snoc.
    destruct (IH Hw) as [IH1 IH2].
    destruct (valid_ack id gen count op) as [b|] eqn:E; [|auto].
    destruct (valid_ack_within _ _ _ _ _ Hc Hop E) as [Hb Hbits].
    split; [now apply uint_lor|]. intros j Hj. now rewrite Z.lor_spec, IH2, Hbits by lia.
Qed.

(** A retransmission is counted: the limit holds for the operation that
    deactivates the record, too. *)
Lemma rel_step_count s op :
  0 <= s.(retries) <= 4 ->
  s.(retries) + Z.of_nat (retransmissions [(rel_step s op).2]) <= 4.
Proof.
  intros Hr. destruct op as [id gen count bm rej|now q]; cbn [rel_step snd].
  - cbn. lia.
  - unfold melodi_reliability_poll. rel_cases; guard_hyps; lia.
Qed.

Lemma rel_step_inactive_count s op :
  s.(active) = false -> retransmissions [(rel_step s op).2] = 0%nat.
Proof.
  intros H. destruct op; cbn [rel_step snd]; [reflexivity|].
  unfold melodi_reliability_poll. now rewrite H.
Qed.

Lemma rel_exec_same st ops : same_message st (rel_exec st ops).
Proof.
  induction ops as [|op l IH] using rev_ind; [repeat split|].
  rewrite rel_exec_snoc. eapply same_message_trans; [exact IH|]. apply rel_step_same.
Qed.

(** The record agrees with its history. *)
Lemma rel_exec_history st ops :
  st.(active) = true /\ st.(acknowledged) = 0 /\ st.(retries) = 0 /\
    1 <= st.(fragment_count) <= 64 ->
  Forall wf_op ops ->
  (retransmissions (rel_trace st ops) <= 4)%nat /\
  ((rel_exec st ops).(active) = true ->
   (rel_exec st ops).(acknowledged) =
     acked_by st.(message_id) st.(generation) st.(fragment_count) ops /\
   (rel_exec st ops).(retries) = Z.of_nat (retransmissions (rel_trace st ops)) /\
   reliability_inv (rel_exec st ops)).
Proof.
  intros (Hact & Hack & Hret & Hfc). induction ops as [|op ops IH] using rev_ind; intros Hw.
  - cbn. split; [lia|]. intros _. rewrite Hack, Hret. conj_split; auto.
    intros _. rewrite Hack, Hret. conj_split; auto; try lia; [width_lia|].
    rewrite mask_ones, Z.ones_equiv by lia. pose proof (Z.pow_le_mono_r 2 1 (fragment_count st)). lia.
  - pose proof Hw as Hall. apply Forall_app in Hw as [Hw [Hop _]%Forall_cons_iff].
    destruct (IH Hw) as [Hcount Hactive].
    rewrite rel_exec_snoc, rel_trace_snoc, retransmissions_app.
    destruct (rel_exec_same st ops) as (Hm & Hg & Hf & _).
    set (s := rel_exec st ops) in *. destruct (active s) eqn:Es.
    2:{ rewrite rel_step_inactive_count, rel_step_inactive, Es by auto.
        split; [lia|discriminate]. }
    destruct (Hactive eq_refl) as (Hka & Hkr & Hinv).
    pose proof (rel_step_count s op ltac:(lia)) as Hc. split; [lia|].
    intros Ha. destruct (rel_step_acknowledged s op Ha) as [Hack' Hne].
    destruct (rel_step_retries s op Ha ltac:(lia)) as [Hr1 Hr2].
    destruct (rel_step_same s op) as (Hm' & Hg' & Hf' & _).
    assert ((rel_step s op).1.(acknowledged) =
      acked_by (message_id st) (generation st) (fragment_count st) (ops ++ [op])) as Hh.
    { rewrite acked_by_snoc, Hack', Hm, Hg, Hf, Hka. reflexivity. }
    conj_split; [exact Hh|lia|]. intros _. rewrite Hf', Hf.
    destruct (acked_by_within (message_id st) (generation st) (fragment_count st) (ops ++ [op]))
      as [Hu Hb]; auto.
    conj_split; try lia; [now rewrite Hh|rewrite Hh; now apply within_mask|].
    destruct (valid_ack (message_id s) (generation s) (fragment_count s) op) eqn:E.
    + rewrite <- Hf. apply Hne. congruence.
    + rewrite Hack', <- Hf. now apply Hinv.
Qed.

Lemma start_state s0 id gen fc now pace ttl st :
  melodi_reliability_start s0 id gen fc now pace ttl = (st, Ok tt) -> 0 <= fc ->
  st.(active) = true /\ st.(acknowledged) = 0 /\ st.(retries) = 0 /\
  1 <= fc <= 64 /\ st.(message_id) = id /\ st.(generation) = gen /\ st.(fragment_count) = fc.
Proof.
  unfold melodi_reliability_start. destruct (_ || _) eqn:E; [discriminate|]. guard_hyps.
  repeat match goal with
         | |- context [melodi_reliability_add ?a ?b] => destruct (melodi_reliability_add a b); cbn
         end; try discriminate. intros [= <-] ?. cbn. conj_split; auto; lia.
Qed.

Lemma missing_testbit fc a j :
  1 <= fc <= 64 -> u64 a -> 0 <= j ->
  Z.testbit (Z.land (melodi_reliability_mask fc) (lnot_w 64 a)) j = (j <? fc) && negb (Z.testbit a j).
Proof.
  intros. rewrite Z.land_spec, mask_testbit, lnot_w_testbit by (auto; lia).
  destruct (Z.ltb_spec j fc), (Z.ltb_spec j 64); try lia; reflexivity.
Qed.

Lemma mask_full fc a :
  1 <= fc <= 64 -> u64 a -> (forall j, fc <= j -> Z.testbit a j = false) ->
  (a = melodi_reliability_mask fc <->
   Z.land (melodi_reliability_mask fc) (lnot_w 64 a) = 0).
Proof.
  intros Hfc Ha Hb. split; intros H.
  - subst a. apply Z.bits_inj'. intros j Hj.
    rewrite missing_testbit, mask_testbit, Z.bits_0 by (auto; lia). now destruct (j <? fc).
  - apply Z.bits_inj'. intros j Hj. rewrite mask_testbit by lia.
    pose proof (f_equal (fun y => Z.testbit y j) H) as E. cbn beta in E.
    rewrite missing_testbit, Z.bits_0 in E by auto.
    destruct (Z.ltb_spec j fc); [now destruct (Z.testbit a j)|]. apply Hb. lia.
Qed.

Lemma poll_missing s t q m :
  (melodi_reliability_poll s t q).2 = Ok (Some m) ->
  s.(active) = true /\
  m = Z.land (melodi_reliability_mask s.(fragment_count)) (lnot_w 64 s.(acknowledged)).
Proof.
  unfold melodi_reliability_poll. rel_cases; intros; simplify_eq; guard_hyps; auto.
Qed.

(** ** The schedule

    Every nominal delay is a multiple of the base pace, so the scaling is exact
    and no product reaches the word size. *)

Definition clamp_pace (pace : Z) : Z := Z.min 30000 (Z.max 100 pace).

Lemma scale_exact pace k :
  0 <= k <= 50 -> melodi_reliability_scale pace (100 * k) = k * clamp_pace pace.
Proof.
  intros Hk. unfold melodi_reliability_scale.
  assert ((if 30000 <? (if pace <? 100 then 100 else pace) then 30000
           else if pace <? 100 then 100 else pace) = clamp_pace pace) as ->.
  { unfold clamp_pace. destruct (Z.ltb_spec pace 100), (Z.ltb_spec 30000 pace); cbn; lia. }
  assert (100 <= clamp_pace pace <= 30000) by (unfold clamp_pace; lia).
  rewrite wrap_id by (unfold uint; pow_norm; nia).
  replace (100 * k * clamp_pace pace) with (k * clamp_pace pace * 100) by lia.
  apply Z.div_mul. lia.
Qed.

Lemma delay_exact s :
  0 <= s.(retries) <= 3 ->
  melodi_reliability_delay s =
    nth (Z.to_nat s.(retries)) [2; 5; 10; 20] 0 * clamp_pace s.(pace_ms).
Proof.
  intros H. unfold melodi_reliability_delay. destruct (Z.leb_spec 4 (retries s)); [lia|].
  assert (retries s = 0 \/ retries s = 1 \/ retries s = 2 \/ retries s = 3)
    as [-> | [-> | [-> | ->]]] by lia; cbn [Z.to_nat Pos.to_nat Pos.iter_op nth melodi_retry_delays Nat.add];
    [apply (scale_exact _ 2)|apply (scale_exact _ 5)|apply (scale_exact _ 10)|apply (scale_exact _ 20)]; lia.
Qed.

Lemma add_ok a b : a + b <= U64_MAX -> melodi_reliability_add a b = Ok (a + b).
Proof. intros. unfold melodi_reliability_add. destruct (Z.ltb_spec (U64_MAX - b) a); [lia|reflexivity]. Qed.

(** Where a successful start puts the deadline and the first retry. *)
Lemma start_schedule s0 id gen fc now pace ttl st :
  melodi_reliability_start s0 id gen fc now pace ttl = (st, Ok tt) ->
  st.(pace_ms) = pace /\ st.(next_retry_ms) = now + 2 * clamp_pace pace /\
  st.(deadline_ms) = now + (if ttl =? 0 then 50 * clamp_pace pace
                            else Z.min ttl (50 * clamp_pace pace)) /\
  st.(deadline_ms) <= U64_MAX.
Proof.
  unfold melodi_reliability_start. destruct (_ || _); [discriminate|].
  change MELODI_RELIABLE_DEADLINE_MS with (100 * 50).
  change (nth 0 melodi_retry_delays 0) with (100 * 2). rewrite !scale_exact by lia.
  set (d := if negb (ttl =? 0) && _ then _ else _).
  unfold melodi_reliability_add. destruct (Z.ltb_spec (U64_MAX - d) now); [discriminate|]. cbn.
  destruct (_ <? now) eqn:?; [discriminate|]. intros [= <-]. cbn. conj_split; auto; [|lia].
  unfold d. destruct (Z.eqb_spec ttl 0); cbn; [lia|].
  destruct (Z.ltb_spec ttl (50 * clamp_pace pace)); lia.
Qed.

Lemma nominal_bound k : 0 <= nth k [2; 5; 10; 20] 0 <= 20.
Proof. destruct k as [|[|[|[|[|]]]]]; cbn; lia. Qed.

(** A poll that is due retransmits what is missing and schedules the next one. *)
Lemma poll_due s t :
  s.(active) = true -> 0 <= s.(retries) <= 3 ->
  s.(next_retry_ms) <= t -> t < s.(deadline_ms) ->
  (s.(retries) < 3 -> t + 20 * clamp_pace s.(pace_ms) <= U64_MAX) ->
  melodi_reliability_poll s t false =
    (MkReliability s.(message_id) s.(acknowledged) s.(deadline_ms)
       (if s.(retries) =? 3 then s.(deadline_ms)
        else t + nth (Z.to_nat (s.(retries) + 1)) [2; 5; 10; 20] 0 * clamp_pace s.(pace_ms))
       s.(generation) s.(pace_ms) s.(fragment_count) (s.(retries) + 1) true,
     Ok (Some (Z.land (melodi_reliability_mask s.(fragment_count)) (lnot_w 64 s.(acknowledged))))).
Proof.
  intros Ha Hr Hn Hd Ho. unfold melodi_reliability_poll. rewrite Ha. cbn [negb].
  destruct (Z.leb_spec (deadline_ms s) t); [lia|]. destruct (Z.ltb_spec t (next_retry_ms s)); [lia|].
  destruct (Z.leb_spec 4 (retries s)); [lia|]. rewrite wrap_id by width_lia. cbn [retries set_retries].
  destruct (Z.eqb_spec (retries s + 1) 4), (Z.eqb_spec (retries s) 3); try lia.
  - unfold set_next_retry, set_retries. cbn. now rewrite Ha.
  - rewrite delay_exact by (cbn; lia). cbn [retries set_retries pace_ms]. rewrite add_ok.
    + unfold set_next_retry, set_retries. cbn. now rewrite Ha.
    + assert (100 <= clamp_pace (pace_ms s) <= 30000) by (unfold clamp_pace; lia).
      pose proof (nominal_bound (Z.to_nat (retries s + 1))). specialize (Ho ltac:(lia)).
      set (k := nth _ _ _) in *. nia.
Qed.

(** Evaluates the retry counter and the delay it selects. *)
Ltac eval_retries :=
  change (0 + 1) with 1; change (1 + 1) with 2; change (2 + 1) with 3; change (3 + 1) with 4;
  repeat match goal with
         | |- context [nth (Z.to_nat ?k) ?l 0] =>
             let v := eval vm_compute in (nth (Z.to_nat k) l 0) in
             change (nth (Z.to_nat k) l 0) with v
         end;
  change (0 =? 3) with false; change (1 =? 3) with false; change (2 =? 3) with false;
  change (3 =? 3) with true; cbv iota.

(** ** Properties *)

(** C29: what is retransmitted.  Whatever acknowledgements and polls follow the
    start of a message, at most four retransmissions are ordered in the whole
    run; each one asks for exactly the fragments that no valid acknowledgement
    has named so far, and there is at least one. *)
Theorem reliability_retransmits_missing s0 id gen fc now pace ttl st ops :
  melodi_reliability_start s0 id gen fc now pace ttl = (st, Ok tt) ->
  0 <= fc -> Forall wf_op ops ->
  (retransmissions (rel_trace st ops) <= 4)%nat /\
  (forall t q m, (melodi_reliability_poll (rel_exec st ops) t q).2 = Ok (Some m) ->
   m <> 0 /\
   forall j, 0 <= j ->
     Z.testbit m j = (j <? fc) && negb (Z.testbit (acked_by id gen fc ops) j)).
Proof.
  intros Hs Hfc Hw. apply start_state in Hs as (Ha & Hk & Hr & Hc & Hid & Hg & Hf); [|lia].
  destruct (rel_exec_history st ops) as [Hcount Hact]; [rewrite Hf; auto|auto|].
  split; [exact Hcount|]. intros t q m Hp. apply poll_missing in Hp as [Hactive ->].
  destruct (Hact Hactive) as (Hack & _ & Hinv). destruct (Hinv Hactive) as (_ & Hu & Hin & Hne & _).
  destruct (rel_exec_same st ops) as (_ & _ & Hf' & _).
  rewrite Hf', Hf, Hid, Hg in *. rewrite Hack in *. split.
  - intros Hz. apply Hne, mask_full; auto. now apply within_mask.
  - intros j Hj. now apply missing_testbit.
Qed.

Definition sample_start : melodi_reliability_state :=
  (melodi_reliability_start reliability_zero 7 1 3 1000 100 0).1.

Lemma reliability_retransmits_missing_witness :
  (melodi_reliability_poll (rel_exec sample_start [Ack 7 1 3 2 false; Ack 8 1 3 1 false]) 1200 false).2
    = Ok (Some 5) /\
  forall j, 0 <= j -> Z.testbit 5 j =
    (j <? 3) && negb (Z.testbit (acked_by 7 1 3 [Ack 7 1 3 2 false; Ack 8 1 3 1 false]) j).
Proof.
  split; [vm_compute; reflexivity|].
  eapply (reliability_retransmits_missing reliability_zero 7 1 3 1000 100 0 sample_start
            [Ack 7 1 3 2 false; Ack 8 1 3 1 false]) with (t := 1200) (q := false);
    [reflexivity|lia|repeat constructor; vm_compute; discriminate || reflexivity|vm_compute; reflexivity].
Defined.

(** Completion.  After any run from the start of a message, an
    acknowledgement reports the message complete exactly when the record is
    still active, the acknowledgement is valid for it and not a rejection, and
    the valid acknowledgements of the run together with this one name every
    fragment. *)
Theorem reliability_completes s0 id gen fc now pace ttl st ops id' gen' fc' bm rej :
  melodi_reliability_start s0 id gen fc now pace ttl = (st, Ok tt) ->
  0 <= fc -> Forall wf_op ops -> u64 bm ->
  (melodi_reliability_ack (rel_exec st ops) id' gen' fc' bm rej).2 = Ok true <->
  (rel_exec st ops).(active) = true /\
  valid_ack id gen fc (Ack id' gen' fc' bm rej) = Some bm /\ rej = false /\
  acked_by id gen fc (ops ++ [Ack id' gen' fc' bm rej]) = melodi_reliability_mask fc.
Proof.
  intros Hs Hfc Hw Hbm. apply start_state in Hs as (Ha & Hk & Hr & Hc & Hid & Hg & Hf); [|lia].
  destruct (rel_exec_history st ops) as [_ Hact]; [rewrite Hf; auto|auto|].
  destruct (rel_exec_same st ops) as (Hid' & Hg' & Hf' & _).
  rewrite acked_by_snoc. unfold melodi_reliability_ack. rewrite Hid', Hg', Hf', Hid, Hg, Hf.
  destruct (active (rel_exec st ops)) eqn:E; cbn [negb orb]; [|cbn; split; [discriminate|intros [[=] _]]].
  destruct (Hact eq_refl) as (Hack & _ & _). rewrite Hid, Hg, Hf in Hack. cbn [valid_ack].
  destruct (Z.eqb_spec id id'), (Z.eqb_spec gen gen'), (Z.eqb_spec fc fc'); cbn;
    try (split; [discriminate|intuition congruence]). subst id' gen' fc'.
  destruct (bm =? 0), (has bm _); cbn; try (split; [discriminate|intuition congruence]).
  rewrite Hack. destruct rej; cbn; [split; [discriminate|intuition congruence]|].
  destruct (Z.eqb_spec (Z.lor (acked_by id gen fc ops) bm) (melodi_reliability_mask fc)); cbn;
    intuition congruence.
Qed.

Lemma reliability_completes_witness :
  (melodi_reliability_ack (rel_exec sample_start [Ack 7 1 3 2 false; Poll 1200 false]) 7 1 3 5 false).2
  = Ok true.
Proof.
  apply (reliability_completes reliability_zero 7 1 3 1000 100 0 sample_start
           [Ack 7 1 3 2 false; Poll 1200 false]);
    [reflexivity|lia|repeat constructor; vm_compute; discriminate || reflexivity
    |vm_compute; split; [discriminate|reflexivity]|vm_compute; auto].
Defined.

(** A message is always settled.  The deadline is fixed by the start: fifty
    times the clamped pace after it, or the time to live if that is shorter,
    and never more than twenty-five minutes.  After any run, a poll at or after
    the deadline leaves the record inactive (with a timeout if it was active),
    and an inactive record answers every later event with [ENOENT]. *)
Theorem reliability_settles s0 id gen fc now pace ttl st ops t q :
  melodi_reliability_start s0 id gen fc now pace ttl = (st, Ok tt) ->
  0 <= ttl -> st.(deadline_ms) <= t ->
  st.(deadline_ms) = now + (if ttl =? 0 then 50 * clamp_pace pace
                            else Z.min ttl (50 * clamp_pace pace)) /\
  st.(deadline_ms) <= now + 25 * 60 * 1000 /\
  let r := melodi_reliability_poll (rel_exec st ops) t q in
  r.1.(active) = false /\
  r.2 = Err (if (rel_exec st ops).(active) then ETIMEDOUT else ENOENT) /\
  forall op, rel_step r.1 op = (r.1, match op with
                                     | Ack _ _ _ _ _ => AckOut (Err ENOENT)
                                     | Poll _ _ => PollOut (Err ENOENT)
                                     end).
Proof.
  intros Hs Httl Ht. apply start_schedule in Hs as (_ & _ & Hd & _).
  split; [exact Hd|]. split.
  { rewrite Hd. unfold clamp_pace. destruct (ttl =? 0); lia. }
  destruct (rel_exec_same st ops) as (_ & _ & _ & Hd'). rewrite <- Hd' in Ht. cbn zeta.
  assert (forall s, s.(active) = false -> forall op, rel_step s op =
    (s, match op with Ack _ _ _ _ _ => AckOut (Err ENOENT) | Poll _ _ => PollOut (Err ENOENT) end))
    as Hdead.
  { intros s H [|]; cbn [rel_step];
      [unfold melodi_reliability_ack|unfold melodi_reliability_poll]; now rewrite H. }
  unfold melodi_reliability_poll.
  destruct (active (rel_exec st ops)) eqn:E; cbn [negb fst snd]; [|auto].
  destruct (Z.leb_spec (deadline_ms (rel_exec st ops)) t); [|lia]. cbn [fst snd set_active active]. auto.
Qed.

Lemma reliability_settles_witness :
  (melodi_reliability_poll (rel_exec sample_start [Poll 1200 false]) 6000 false).1.(active) = false.
Proof.
  apply (reliability_settles reliability_zero 7 1 3 1000 100 0 sample_start [Poll 1200 false] 6000 false);
    [reflexivity|lia|vm_compute; discriminate].
Defined.

(** The retry schedule.  With nothing acknowledged and no shorter time to
    live, a timer that polls at the due times, each poll late by some [d], gets
    all four retransmissions of the whole message at 2, 5, 10 and 20 paces
    after the previous one, provided the lateness adds up to less than the 13
    paces left before the deadline; then nothing more is sent, and the deadline
    ends the message. *)
Theorem reliability_schedule s0 id gen fc now pace ttl st d1 d2 d3 d4 :
  let c := clamp_pace pace in
  let t1 := now + 2 * c + d1 in
  let t2 := t1 + 5 * c + d2 in
  let t3 := t2 + 10 * c + d3 in
  let t4 := t3 + 20 * c + d4 in
  melodi_reliability_start s0 id gen fc now pace ttl = (st, Ok tt) ->
  0 <= fc -> ttl = 0 \/ 50 * c <= ttl ->
  0 <= d1 -> 0 <= d2 -> 0 <= d3 -> 0 <= d4 -> d1 + d2 + d3 + d4 < 13 * c ->
  let polls := [Poll t1 false; Poll t2 false; Poll t3 false; Poll t4 false] in
  rel_trace st polls = replicate 4 (PollOut (Ok (Some (melodi_reliability_mask fc)))) /\
  forall t, (melodi_reliability_poll (rel_exec st polls) t false).2 =
            if t <? now + 50 * c then Ok None else Err ETIMEDOUT.
Proof.
  intros c t1 t2 t3 t4 Hs Hfc Httl H1 H2 H3 H4 Hsum.
  pose proof (start_schedule _ _ _ _ _ _ _ _ Hs) as (Hp & Hn & Hd & Hu).
  apply start_state in Hs as (Ha & Hk & Hr & Hc & _ & _ & Hf); [|lia].
  assert (st.(deadline_ms) = now + 50 * c) as Hd'.
  { rewrite Hd. fold c. destruct (Z.eqb_spec ttl 0); lia. }
  rewrite Hd' in Hu. clear Hd. assert (100 <= c) by (unfold c, clamp_pace; lia).
  fold c in Hn. destruct st as [mid ak dl nr gn pc fc' rt ac].
  cbn [active acknowledged retries fragment_count pace_ms next_retry_ms deadline_ms] in *.
  subst ak dl nr pc fc' rt ac.
  assert (Z.land (melodi_reliability_mask fc) (lnot_w 64 0) = melodi_reliability_mask fc) as Hm.
  { apply Z.bits_inj'. intros j Hj. rewrite missing_testbit, mask_testbit, Z.testbit_0_l by (auto; width_lia).
    apply andb_true_r. }
  cbn zeta. cbn [rel_trace rel_exec rel_step fst snd].
  do 4 (rewrite poll_due;
        cbn [active acknowledged retries fragment_count pace_ms next_retry_ms
             deadline_ms message_id generation fst snd]; eval_retries; fold c;
        [|first [reflexivity|lia]..]).
  rewrite !Hm. split; [reflexivity|]. intros t. cbn.
  unfold melodi_reliability_poll. cbn [active deadline_ms next_retry_ms negb].
  destruct (Z.leb_spec (now + 50 * c) t), (Z.ltb_spec t (now + 50 * c)); try lia; reflexivity.
Qed.

Lemma reliability_schedule_witness :
  rel_trace sample_start [Poll 1200 false; Poll 1700 false; Poll 2750 false; Poll 4750 false] =
  replicate 4 (PollOut (Ok (Some 7))).
Proof.
  apply (reliability_schedule reliability_zero 7 1 3 1000 100 0 sample_start 0 0 50 0);
    first [reflexivity | left; reflexivity | lia | vm_compute; reflexivity].
Defined.
