(* ===== verification/Airtime.v ===== *)
(** * Airtime budget (src/proto/airtime.c, src/proto/airtime.h)

    A duty-cycle limiter: 360 buckets of ten seconds each hold the airtime
    spent in the last hour.  The abstract specification is the log of every
    admitted transmission; the window holds the sums of the log's recent
    slots. *)
From S2P Require Import Prelude.

Abbreviation MELODI_AIRTIME_BUCKETS := 360.
Abbreviation MELODI_AIRTIME_SLOT_MS := 10000.
Abbreviation MELODI_AIRTIME_WINDOW_US := 3600000000.

Record melodi_airtime_window := MkWindow {
  buckets : list Z;
  epoch_slot : Z;
  total_us : Z;
  initialized : bool;
}.

(** [memset(window, 0, sizeof( *window))] *)
Definition airtime_zero : melodi_airtime_window :=
  MkWindow (replicate 360 0) 0 0 false.

Definition melodi_airtime_reset (window : melodi_airtime_window) : melodi_airtime_window :=
  airtime_zero.

(** [window->buckets\[i\]]: the index is always a remainder modulo 360. *)
Definition bucket (b : list Z) (i : Z) : Z := nth (Z.to_nat i) b 0.

(** The loop over the slots that left the window: [n] iterations from [index]. *)
Fixpoint expire_loop (n : nat) (index epoch : Z) (b : list Z) (total : Z) : list Z * Z :=
  match n with
  | O => (b, total)
  | S n =>
      let expired := wrap 64 (epoch + index) mod MELODI_AIRTIME_BUCKETS in
      expire_loop n (index + 1) epoch (<[Z.to_nat expired := 0]> b)
        (wrap 64 (total - bucket b expired))
  end.

Definition melodi_airtime_advance (window : melodi_airtime_window) (slot : Z)
    : melodi_airtime_window :=
  if negb window.(initialized) || (slot <? window.(epoch_slot))
  then MkWindow (replicate 360 0) slot 0 true else
  let elapsed := slot - window.(epoch_slot) in
  if MELODI_AIRTIME_BUCKETS <=? elapsed
  then MkWindow (replicate 360 0) slot 0 window.(initialized)
  else
    let '(b, total) := expire_loop (Z.to_nat elapsed) 1 window.(epoch_slot)
                         window.(buckets) window.(total_us) in
    MkWindow b slot total window.(initialized).

(** The search for the first slot at which enough airtime has expired. *)
Fixpoint wait_loop (n : nat) (index slot : Z) (b : list Z) (remaining limit : Z) : option Z :=
  match n with
  | O => None
  | S n =>
      let expired := wrap 64 (slot + index) mod MELODI_AIRTIME_BUCKETS in
      let remaining := wrap 64 (remaining - bucket b expired) in
      if remaining <=? limit then Some index
      else wait_loop n (index + 1) slot b remaining limit
  end.

(** The state, [*wait_ms] and the return value. *)
Definition melodi_airtime_admit (window : melodi_airtime_window)
    (now_ms budget_us cost_us wait_ms : Z) : melodi_airtime_window * Z * result unit :=
  if (budget_us =? 0) || (cost_us =? 0) || (MELODI_AIRTIME_WINDOW_US <? budget_us)
  then (window, wait_ms, Err EINVAL) else
  if budget_us <? cost_us then (window, 0, Err EMSGSIZE) else
  let slot := now_ms / MELODI_AIRTIME_SLOT_MS in
  let window := melodi_airtime_advance window slot in
  if window.(total_us) <=? budget_us - cost_us then
    let index := slot mod MELODI_AIRTIME_BUCKETS in
    (MkWindow (<[Z.to_nat index := wrap 32 (bucket window.(buckets) index + wrap 32 cost_us)]>
                 window.(buckets))
       window.(epoch_slot) (wrap 64 (window.(total_us) + cost_us)) window.(initialized),
     0, Ok tt)
  else
    match wait_loop 360 1 slot window.(buckets) window.(total_us) (budget_us - cost_us) with
    | Some index => (window, wrap 64 (index * MELODI_AIRTIME_SLOT_MS - now_ms mod MELODI_AIRTIME_SLOT_MS),
                     Err EAGAIN)
    | None => (window, 0, Err EOVERFLOW)
    end.

(** ** Abstract specification

    The log of admitted transmissions, as pairs of slot and cost. *)

Abbreviation airtime_log := (list (Z * Z)) (only parsing).

(** The airtime logged in the slots [a <= s <= b]. *)
Definition spent (log : airtime_log) (a b : Z) : Z :=
  sumZ (map snd (filter (fun e => a <= e.1 <= b) log)).

(** The window of 360 slots that ends with [slot]. *)
Definition usage (log : airtime_log) (slot : Z) : Z := spent log (slot - 359) slot.

Definition wf_log (log : airtime_log) (slot : Z) : Prop :=
  Forall (fun e => 0 <= e.1 <= slot /\ 0 < e.2) log.

(** The buckets and the total of a window whose last slot is [e]. *)
Definition holds_log (e : Z) (b : list Z) (total : Z) (log : airtime_log) : Prop :=
  length b = 360%nat /\
  (forall k, 0 <= k < 360 -> bucket b ((e - k) mod 360) = spent log (e - k) (e - k)) /\
  total = usage log e.

Definition airtime_rep (w : melodi_airtime_window) (log : airtime_log) : Prop :=
  if w.(initialized) then
    u64 (w.(epoch_slot) * MELODI_AIRTIME_SLOT_MS) /\ wf_log log w.(epoch_slot) /\
    holds_log w.(epoch_slot) w.(buckets) w.(total_us) log /\
    usage log w.(epoch_slot) <= MELODI_AIRTIME_WINDOW_US
  else log = [].

(** ** Lemmas on the log *)

Lemma spent_cons e log a b :
  spent (e :: log) a b = (if decide (a <= e.1 <= b) then e.2 else 0) + spent log a b.
Proof.
  unfold spent. rewrite filter_cons. case_decide; cbn [map]; [reflexivity|lia].
Qed.

Lemma spent_split log a b c : a <= b + 1 -> b <= c -> spent log a c = spent log a b + spent log (b + 1) c.
Proof.
  intros. induction log as [|e log IH]; [reflexivity|]. rewrite !spent_cons, IH.
  repeat case_decide; lia.
Qed.

Lemma spent_empty log a b : b < a -> spent log a b = 0.
Proof. intros. induction log as [|e log IH]; [reflexivity|]. rewrite spent_cons, IH. case_decide; lia. Qed.

Lemma spent_nonneg log slot a b : wf_log log slot -> 0 <= spent log a b.
Proof.
  intros Hw. induction Hw as [|e log [_ He] _ IH]; [reflexivity|]. rewrite spent_cons.
  case_decide; lia.
Qed.

Lemma spent_future log slot a b : wf_log log slot -> slot < a -> spent log a b = 0.
Proof.
  intros Hw Ha. induction Hw as [|e log [He _] _ IH]; [reflexivity|]. rewrite spent_cons.
  case_decide; lia.
Qed.

Lemma wf_log_mono log s s' : s <= s' -> wf_log log s -> wf_log log s'.
Proof. intros. eapply list.Forall_impl; [eassumption|]. cbn. intros ? ?. lia. Qed.

(** Without new entries the usage only shrinks. *)
Lemma usage_later log slot s :
  wf_log log slot -> slot <= s -> usage log s = spent log (s - 359) slot.
Proof.
  intros Hw Hs. unfold usage. destruct (decide (slot < s - 359)).
  - rewrite (spent_empty log (s - 359) slot) by lia. now apply (spent_future log slot).
  - rewrite (spent_split log (s - 359) slot s) by lia.
    rewrite (spent_future log slot (slot + 1)) by (auto; lia). lia.
Qed.

Lemma usage_antitone log slot s s' :
  wf_log log slot -> slot <= s -> s <= s' -> usage log s' <= usage log s.
Proof.
  intros Hw Hs Hs'. rewrite !(usage_later log slot) by (auto; lia).
  destruct (decide (slot < s' - 359)).
  - rewrite spent_empty by lia. eapply spent_nonneg; eauto.
  - rewrite (spent_split log (s - 359) (s' - 360) slot) by lia.
    pose proof (spent_nonneg log slot (s - 359) (s' - 360) Hw).
    replace (s' - 360 + 1) with (s' - 359) by lia. lia.
Qed.

(** ** The loops *)

Lemma bucket_insert_eq b i v :
  length b = 360%nat -> bucket (<[Z.to_nat (i mod 360) := v]> b) (i mod 360) = v.
Proof.
  intros Hl. unfold bucket. rewrite nth_lookup, list_lookup_insert_eq; [reflexivity|].
  pose proof (Z.mod_pos_bound i 360). lia.
Qed.

Lemma bucket_insert_ne b i j v :
  i mod 360 <> j mod 360 -> bucket (<[Z.to_nat (i mod 360) := v]> b) (j mod 360) = bucket b (j mod 360).
Proof.
  intros Hl. unfold bucket. rewrite !nth_lookup, list_lookup_insert_ne; [reflexivity|].
  pose proof (Z.mod_pos_bound i 360). pose proof (Z.mod_pos_bound j 360). lia.
Qed.

(** Two slots of the same window never share a bucket. *)
Lemma slots_distinct e k : 0 < k < 360 -> e mod 360 <> (e - k) mod 360.
Proof. intros. div_lia. Qed.

Lemma slot_wraps e : e mod 360 = (e - 360) mod 360.
Proof. div_lia. Qed.

(** The window that ends with slot [e + 1] drops slot [e - 359]. *)
Lemma usage_succ log slot e :
  wf_log log slot -> slot <= e -> usage log (e + 1) = usage log e - spent log (e - 359) (e - 359).
Proof.
  intros Hw He. rewrite !(usage_later log slot) by (auto; lia).
  destruct (decide (slot < e - 359)).
  - rewrite !spent_empty, (spent_future log slot) by (auto; lia). reflexivity.
  - rewrite (spent_split log (e - 359) (e - 359) slot) by lia.
    replace (e - 359 + 1) with (e + 1 - 359) by lia. lia.
Qed.

Lemma spent_le_usage log slot s k :
  wf_log log slot -> 0 <= k < 360 -> 0 <= spent log (s - k) (s - k) <= usage log s.
Proof.
  intros Hw Hk. unfold usage.
  rewrite (spent_split log (s - 359) (s - k - 1) s), (spent_split log (s - k - 1 + 1) (s - k) s) by lia.
  pose proof (spent_nonneg log slot (s - 359) (s - k - 1) Hw).
  pose proof (spent_nonneg log slot (s - k - 1 + 1) (s - k) Hw).
  pose proof (spent_nonneg log slot (s - k + 1) s Hw).
  replace (s - k - 1 + 1) with (s - k) in * by lia. lia.
Qed.

Lemma usage_nonneg log slot s : wf_log log slot -> 0 <= usage log s.
Proof. apply spent_nonneg. Qed.

(** The bucket that expires when the window moves on by [index] slots. *)
Lemma expired_bucket e b total log index :
  holds_log e b total log -> 1 <= index <= 360 -> 0 <= e -> e + 360 < 2 ^ 64 ->
  bucket b (wrap 64 (e + index) mod 360) = spent log (e + index - 360) (e + index - 360).
Proof.
  intros (_ & Hb & _) Hi He Hmax. rewrite wrap_id by (unfold uint; lia).
  rewrite slot_wraps. replace (e + index - 360) with (e - (360 - index)) by lia. apply Hb. lia.
Qed.

Lemma slide e b total log slot :
  holds_log e b total log -> wf_log log slot -> slot <= e -> 0 <= e -> e + 360 < 2 ^ 64 ->
  usage log e <= MELODI_AIRTIME_WINDOW_US ->
  holds_log (e + 1) (<[Z.to_nat ((e + 1) mod 360) := 0]> b)
    (wrap 64 (total - bucket b ((e + 1) mod 360))) log.
Proof.
  intros HR Hw Hs He Hmax Hu. pose proof HR as (Hl & Hb & ->).
  pose proof (expired_bucket e b _ log 1 HR ltac:(lia) He Hmax) as Hx.
  rewrite wrap_id in Hx by (unfold uint; lia). replace (e + 1 - 360) with (e - 359) in Hx by lia.
  pose proof (spent_le_usage log slot e 359 Hw ltac:(lia)).
  rewrite Hx. repeat split.
  - now rewrite length_insert.
  - intros k Hk. destruct (decide (k = 0)) as [->|].
    + rewrite Z.sub_0_r, bucket_insert_eq by auto. symmetry. apply (spent_future log slot); auto. lia.
    + rewrite bucket_insert_ne by (apply slots_distinct; lia).
      replace (e + 1 - k) with (e - (k - 1)) by lia. apply Hb. lia.
  - rewrite wrap_id by (unfold uint; pow_norm; lia). symmetry. now apply (usage_succ log slot).
Qed.

Lemma expire_loop_holds log slot n : forall index e b total,
  holds_log (e + index - 1) b total log -> wf_log log slot -> slot <= e -> 0 <= e -> 1 <= index ->
  e + index + Z.of_nat n + 360 < 2 ^ 64 -> usage log e <= MELODI_AIRTIME_WINDOW_US ->
  let r := expire_loop n index e b total in
  holds_log (e + index - 1 + Z.of_nat n) r.1 r.2 log.
Proof.
  induction n as [|n IH]; intros index e b total HR Hw Hs He Hi Hmax Hu; cbn [expire_loop].
  - cbn. now rewrite Z.add_0_r.
  - pose proof (slide _ _ _ _ slot HR Hw ltac:(lia) ltac:(lia) ltac:(lia)) as Hsl.
    replace (e + index - 1 + 1) with (e + index) in Hsl by lia.
    rewrite (wrap_id 64 (e + index)) by (unfold uint; lia).
    replace (e + index - 1 + Z.of_nat (S n)) with (e + (index + 1) - 1 + Z.of_nat n) by lia.
    apply IH; auto; try lia.
    replace (e + (index + 1) - 1) with (e + index) by lia. apply Hsl.
    pose proof (usage_antitone log slot e (e + index - 1) Hw). lia.
Qed.

Lemma bucket_zero i : bucket (replicate 360 0) i = 0.
Proof.
  unfold bucket. rewrite nth_lookup. destruct (_ !! _) eqn:E; [|reflexivity].
  now apply lookup_replicate in E as [-> _].
Qed.

Lemma holds_log_stale e log slot :
  wf_log log slot -> slot + 360 <= e -> holds_log e (replicate 360 0) 0 log.
Proof.
  intros Hw He. repeat split.
  - intros k Hk. rewrite bucket_zero. symmetry. apply (spent_future log slot); auto. lia.
  - symmetry. rewrite (usage_later log slot) by (auto; lia). apply spent_empty. lia.
Qed.

Lemma holds_log_nil e : holds_log e (replicate 360 0) 0 [].
Proof. repeat split. intros. apply bucket_zero. Qed.

(** The clock has not run backwards past the window's last slot. *)
Definition monotone (w : melodi_airtime_window) (slot : Z) : Prop :=
  w.(initialized) = true -> w.(epoch_slot) <= slot.

Lemma advance_rep w log slot :
  airtime_rep w log -> monotone w slot -> u64 (slot * MELODI_AIRTIME_SLOT_MS) ->
  let w' := melodi_airtime_advance w slot in
  airtime_rep w' log /\ w'.(initialized) = true /\ w'.(epoch_slot) = slot.
Proof.
  unfold airtime_rep, monotone, melodi_airtime_advance. intros HR Hm Hs.
  destruct (initialized w) eqn:E; cbn [negb orb].
  - destruct HR as (He & Hw & Hh & Hu). specialize (Hm eq_refl).
    destruct (Z.ltb_spec slot (epoch_slot w)); [lia|].
    pose proof (wf_log_mono log _ slot Hm Hw) as Hw'.
    pose proof (usage_antitone log _ _ slot Hw (Z.le_refl _) Hm).
    destruct (Z.leb_spec 360 (slot - epoch_slot w)).
    + cbn. conj_split; auto; try lia. apply (holds_log_stale slot log (epoch_slot w)); auto. lia.
    + pose proof (expire_loop_holds log (epoch_slot w) (Z.to_nat (slot - epoch_slot w)) 1
        (epoch_slot w) (buckets w) (total_us w)) as HL. cbn zeta in HL.
      destruct (expire_loop _ _ _ _ _) as [b t]. cbn in *.
      replace (epoch_slot w + 1 - 1) with (epoch_slot w) in HL by lia.
      replace (epoch_slot w + Z.of_nat (Z.to_nat (slot - epoch_slot w))) with slot in HL by lia.
      conj_split; auto; try lia. unfold uint in *. apply HL; auto; pow_norm; lia.
  - subst log. cbn. conj_split; auto; [constructor|apply holds_log_nil|cbv; discriminate].
Qed.

(** The search returns the first slot at which the usage fits. *)
Lemma wait_loop_spec log slot b total limit n : forall index remaining,
  holds_log slot b total log -> wf_log log slot -> 0 <= slot -> slot + 360 < 2 ^ 64 ->
  usage log slot <= MELODI_AIRTIME_WINDOW_US -> 0 <= limit ->
  1 <= index -> index + Z.of_nat n = 361 -> remaining = usage log (slot + index - 1) ->
  limit < remaining ->
  exists j, wait_loop n index slot b remaining limit = Some j /\
    index <= j <= 360 /\ usage log (slot + j) <= limit < usage log (slot + j - 1).
Proof.
  induction n as [|n IH]; intros index remaining HR Hw Hs Hmax Hu Hlim Hi Hn -> Hlt; cbn [wait_loop].
  - exfalso. replace (slot + index - 1) with (slot + 360) in Hlt by lia.
    rewrite (usage_later log slot), spent_empty in Hlt by (auto; lia). lia.
  - rewrite (expired_bucket slot b total log index HR) by lia.
    pose proof (usage_succ log slot (slot + index - 1) Hw ltac:(lia)) as Hstep.
    replace (slot + index - 1 + 1) with (slot + index) in Hstep by lia.
    replace (slot + index - 1 - 359) with (slot + index - 360) in Hstep by lia.
    rewrite <- Hstep.
    pose proof (usage_nonneg log slot (slot + index) Hw).
    pose proof (usage_antitone log slot slot (slot + index) Hw).
    rewrite wrap_id by (unfold uint; pow_norm; lia).
    destruct (Z.leb_spec (usage log (slot + index)) limit).
    + exists index. repeat split; lia.
    + destruct (IH (index + 1) (usage log (slot + index))) as (j & Hj & Hb & Hu'); auto; try lia.
      { f_equal. lia. }
      exists j. repeat split; auto; lia.
Qed.

Lemma usage_add log slot c : usage ((slot, c) :: log) slot = usage log slot + c.
Proof. unfold usage. rewrite spent_cons. cbn. rewrite decide_True by lia. lia. Qed.

(** Charging a transmission to the current slot. *)
Lemma charge_holds slot b total log c :
  holds_log slot b total log -> wf_log log slot -> 0 < c ->
  usage log slot + c <= MELODI_AIRTIME_WINDOW_US ->
  holds_log slot (<[Z.to_nat (slot mod 360) := wrap 32 (bucket b (slot mod 360) + wrap 32 c)]> b)
    (wrap 64 (total + c)) ((slot, c) :: log).
Proof.
  intros (Hl & Hb & ->) Hw Hc Hu.
  pose proof (usage_nonneg log slot slot Hw).
  pose proof (spent_le_usage log slot slot 0 Hw ltac:(lia)) as Hsp. rewrite Z.sub_0_r in Hsp.
  pose proof (Hb 0 ltac:(lia)) as H0. rewrite Z.sub_0_r in H0. rewrite H0.
  rewrite (wrap_id 32 c), !wrap_id by (unfold uint; pow_norm; lia). repeat split.
  - now rewrite length_insert.
  - intros k Hk. rewrite spent_cons. cbn. destruct (decide (k = 0)) as [->|].
    + rewrite Z.sub_0_r, bucket_insert_eq, decide_True by (auto; lia). lia.
    + rewrite bucket_insert_ne, Hb, decide_False by (try apply slots_distinct; lia). lia.
  - now rewrite usage_add.
Qed.

Lemma admit_exact w log now budget cost wait0 :
  airtime_rep w log -> u64 now -> monotone w (now / 10000) ->
  0 < cost <= budget -> budget <= MELODI_AIRTIME_WINDOW_US ->
  let r := melodi_airtime_admit w now budget cost wait0 in
  if usage log (now / 10000) + cost <=? budget
  then r.2 = Ok tt /\ r.1.2 = 0 /\ airtime_rep r.1.1 ((now / 10000, cost) :: log)
  else r.2 = Err EAGAIN /\ airtime_rep r.1.1 log /\ 0 < r.1.2 <= 3600000 /\
       forall later, now <= later ->
         usage log (later / 10000) + cost <= budget <-> now + r.1.2 <= later.
Proof.
  intros HR Hnow Hm Hc Hbud. cbn zeta. unfold melodi_airtime_admit.
  assert ((budget =? 0) || (cost =? 0) || (MELODI_AIRTIME_WINDOW_US <? budget) = false) as -> by lia.
  destruct (Z.ltb_spec budget cost); [lia|]. set (slot := now / 10000) in *.
  assert (slot * 10000 <= now < slot * 10000 + 10000) as Hslot by (unfold slot; div_lia).
  assert (u64 (slot * 10000)) as Hslot64 by (unfold uint, slot in *; div_lia).
  destruct (advance_rep w log slot HR Hm Hslot64) as (HR' & Hi & He).
  destruct (melodi_airtime_advance w slot) as [b e t i]. cbn in Hi, He. subst i e.
  pose proof HR' as (_ & Hw & Hh & Hu). cbn [epoch_slot buckets total_us initialized] in *.
  pose proof Hh as (_ & _ & Ht). rewrite Ht. unfold uint in *. pow_norm.
  pose proof (usage_nonneg log slot slot Hw).
  destruct (Z.leb_spec (usage log slot + cost) budget) as [Hfit|Hfull];
    destruct (Z.leb_spec (usage log slot) (budget - cost)); try lia; cbn [fst snd].
  - conj_split; auto. unfold airtime_rep. cbn [initialized epoch_slot buckets total_us]. rewrite usage_add. conj_split; auto; try lia.
    + constructor; [cbn; lia|exact Hw].
    + rewrite <- Ht. apply charge_holds; auto; lia.
  - destruct (wait_loop_spec log slot b t (budget - cost) 360 1 (usage log slot))
      as (j & -> & Hj & Hfit & Hnot); auto; try (pow_norm; lia).
    { f_equal. lia. }
    cbn [fst snd].
    assert (now mod 10000 = now - slot * 10000) as -> by (unfold slot; div_lia).
    rewrite wrap_id by (unfold uint; pow_norm; lia). conj_split; auto; try lia; [now rewrite <- Ht|].
    intros later Hlater. assert (slot <= later / 10000) as Hmono by (unfold slot; apply Z.div_le_mono; lia).
    assert (now + (j * 10000 - (now - slot * 10000)) <= later <-> slot + j <= later / 10000) as ->.
    { split; intros; [|div_lia]. div_lia. }
    split; intros.
    + destruct (Z.le_gt_cases (slot + j) (later / 10000)); auto. exfalso.
      pose proof (usage_antitone log slot (later / 10000) (slot + j - 1) Hw). lia.
    + pose proof (usage_antitone log slot (slot + j) (later / 10000) Hw). lia.
Qed.

(** ** Runs

    A sequence of requests (time, cost) against one budget, and what it
    admits. *)

Fixpoint airtime_run (budget : Z) (w : melodi_airtime_window) (ops : list (Z * Z))
    : list (Z * Z) :=
  match ops with
  | [] => []
  | (now, cost) :: ops =>
      let r := melodi_airtime_admit w now budget cost 0 in
      if is_ok r.2 then (now, cost) :: airtime_run budget r.1.1 ops
      else airtime_run budget r.1.1 ops
  end.

Definition to_slot (e : Z * Z) : Z * Z := (e.1 / 10000, e.2).

(** A refusal for a bad argument leaves the window alone. *)
Lemma admit_bad_args w now budget cost wait0 :
  ~ (0 < cost <= budget /\ budget <= MELODI_AIRTIME_WINDOW_US) -> 0 <= cost -> 0 <= budget ->
  let r := melodi_airtime_admit w now budget cost wait0 in
  is_ok r.2 = false /\ r.1.1 = w.
Proof.
  intros Hb Hc Hbud. unfold melodi_airtime_admit. destruct (_ || _) eqn:E; [auto|]. guard_hyps.
  destruct (Z.ltb_spec budget cost); [auto|lia].
Qed.

Lemma advance_epoch w slot :
  (melodi_airtime_advance w slot).(epoch_slot) = slot.
Proof.
  unfold melodi_airtime_advance. guards; try reflexivity. now destruct (expire_loop _ _ _ _ _).
Qed.

Lemma admit_monotone w now budget cost wait0 :
  monotone w (now / 10000) -> monotone (melodi_airtime_admit w now budget cost wait0).1.1 (now / 10000).
Proof.
  intros Hm. unfold melodi_airtime_admit. destruct (_ || _); [exact Hm|].
  destruct (_ <? _); [exact Hm|]. set (w' := melodi_airtime_advance w _).
  assert (epoch_slot w' = now / 10000) by apply advance_epoch.
  destruct (_ <=? _); [|destruct (wait_loop _ _ _ _ _ _)]; cbn [fst]; unfold monotone; cbn; lia.
Qed.

Lemma usage_admit log slot c budget :
  wf_log log slot -> 0 < c -> usage log slot + c <= budget ->
  (forall s, usage log s <= budget) -> forall s, usage ((slot, c) :: log) s <= budget.
Proof.
  intros Hw Hc Hfit Hall s. unfold usage. rewrite spent_cons. cbn [fst snd].
  fold (usage log s). specialize (Hall s). case_decide; [|lia].
  pose proof (usage_antitone log slot slot s Hw). lia.
Qed.

Lemma airtime_rep_wf w log now : airtime_rep w log -> monotone w (now / 10000) -> wf_log log (now / 10000).
Proof.
  unfold airtime_rep, monotone. destruct (initialized w).
  - intros (_ & Hw & _) Hm. eapply wf_log_mono; eauto.
  - intros -> _. constructor.
Qed.

Lemma airtime_run_usage budget ops : forall w log last,
  airtime_rep w log -> monotone w (last / 10000) -> 0 <= budget ->
  Forall (fun op => last <= op.1 /\ u64 op.1 /\ 0 <= op.2) ops ->
  StronglySorted Z.le (map fst ops) ->
  (forall s, usage log s <= budget) ->
  forall s, usage (rev (map to_slot (airtime_run budget w ops)) ++ log) s <= budget.
Proof.
  induction ops as [|[now cost] ops IH]; intros w log last HR Hm Hbud Hops Hsort Hall s;
    cbn [airtime_run map rev app]; [apply Hall|].
  apply Forall_cons_iff in Hops as [(Hlast & Hu & Hc) Hops]. cbn in Hlast, Hu, Hc.
  cbn in Hsort. apply StronglySorted_inv in Hsort as [Hsort Hle].
  assert (monotone w (now / 10000)) as Hm'.
  { intros E. specialize (Hm E). pose proof (Z.div_le_mono last now 10000). lia. }
  assert (Forall (fun op => now <= op.1 /\ u64 op.1 /\ 0 <= op.2) ops) as Hops'.
  { rewrite list.Forall_forall in Hle. rewrite list.Forall_forall in Hops |- *. intros op Hop. destruct (Hops op Hop) as (_ & ? & ?).
    split; auto. apply Hle. apply list_elem_of_In, in_map, list_elem_of_In, Hop. }
  pose proof (admit_monotone w now budget cost 0 Hm') as Hm2.
  destruct (decide (0 < cost <= budget /\ budget <= MELODI_AIRTIME_WINDOW_US)) as [[Hok1 Hok2]|Hbad].
  - pose proof (admit_exact w log now budget cost 0 HR Hu Hm' Hok1 Hok2) as H. cbn zeta in H.
    destruct (melodi_airtime_admit w now budget cost 0) as [[w' wt] r]. cbn [fst snd] in *.
    destruct (Z.leb_spec (usage log (now / 10000) + cost) budget) as [Hfit|].
    + destruct H as (-> & _ & HR'). cbn [is_ok map rev]. rewrite <- app_assoc. cbn [app].
      apply (IH w' ((now / 10000, cost) :: log) now); auto. apply usage_admit; auto; [|lia].
      exact (airtime_rep_wf w log now HR Hm').
    + destruct H as (-> & HR' & _). cbn [is_ok]. apply (IH w' log now); auto.
  - destruct (admit_bad_args w now budget cost 0 Hbad Hc Hbud) as [-> ->].
    apply (IH w log now); auto.
Qed.

Lemma sumZ_filter_le {A} (f : A -> Z) (P Q : A -> Prop) `{!forall x, Decision (P x)}
    `{!forall x, Decision (Q x)} (l : list A) :
  (forall x, x ∈ l -> P x -> Q x) -> Forall (fun x => 0 <= f x) l ->
  sumZ (map f (filter P l)) <= sumZ (map f (filter Q l)).
Proof.
  intros HPQ. induction 1 as [|x l Hx Hl IH]; [reflexivity|].
  assert (sumZ (map f (filter P l)) <= sumZ (map f (filter Q l))) as IH'.
  { apply IH. intros y Hy. apply HPQ. now apply elem_of_cons; right. }
  rewrite !filter_cons. pose proof (HPQ x (list_elem_of_here x l)).
  repeat case_decide; cbn [map]; rewrite ?sumZ_cons; try lia. tauto.
Qed.

Lemma spent_rev log a b : spent (rev log) a b = spent log a b.
Proof. unfold spent. now rewrite <- Permutation_rev. Qed.

Lemma spent_to_slot l a b :
  spent (map to_slot l) a b = sumZ (map snd (filter (fun e => a <= e.1 / 10000 <= b) l)).
Proof.
  induction l as [|e l IH]; [reflexivity|]. cbn [map]. rewrite spent_cons, filter_cons. cbn [fst to_slot].
  case_decide; cbn [map]; rewrite ?sumZ_cons, IH; reflexivity.
Qed.

Lemma airtime_run_sub budget ops : forall w, airtime_run budget w ops ⊆ ops.
Proof.
  induction ops as [|[now cost] ops IH]; intros w; cbn; [auto|].
  destruct (is_ok _); intros x Hx.
  - apply elem_of_cons in Hx as [->|Hx]; [apply elem_of_cons; auto|].
    apply elem_of_cons. right. eapply IH; eauto.
  - apply elem_of_cons. right. eapply IH; eauto.
Qed.

(** ** The interface to the transmit queue

    What a client relies on: a relation between a window, the log of what was
    admitted to it (newest first) and the time of the last request, which a reset
    establishes, an admission extends and time may pass under; a window in that
    relation keeps its budget in every interval of 3590 seconds. *)
Class AirtimeGate (meters : Z -> melodi_airtime_window -> airtime_log -> Z -> Prop) : Prop := {
  gate_reset budget w now : 0 <= budget -> meters budget (melodi_airtime_reset w) [] now;
  gate_later budget w log now later : meters budget w log now -> now <= later -> meters budget w log later;
  gate_admit budget w log last now cost :
    meters budget w log last -> last <= now -> u64 now -> 0 <= cost ->
    is_ok (melodi_airtime_admit w now budget cost 0).2 = true ->
    meters budget (melodi_airtime_admit w now budget cost 0).1.1 ((now, cost) :: log) now;
  gate_bound budget w log last t :
    meters budget w log last -> sumZ (map snd (filter (fun e => t <= e.1 <= t + 3590000) log)) <= budget;
}.

Definition meters (budget : Z) (w : melodi_airtime_window) (log : airtime_log) (last : Z) : Prop :=
  0 <= budget /\ airtime_rep w (map to_slot log) /\ monotone w (last / 10000) /\ Forall (fun e => 0 <= e.2) log /\
  forall s, usage (map to_slot log) s <= budget.

Lemma monotone_later w last now : monotone w (last / 10000) -> last <= now -> monotone w (now / 10000).
Proof. intros H Hle E. specialize (H E). pose proof (Z.div_le_mono last now 10000). lia. Qed.

#[export] Instance melodi_airtime_gate : AirtimeGate meters.
Proof.
  constructor; unfold meters.
  - intros budget w now Hb. split; [exact Hb|]. split; [reflexivity|]. split; [discriminate|]. split; [constructor|]. intros s. exact Hb.
  - intros budget w log now later (Hb & HR & Hm & Hp & Hu) Hle. split; [exact Hb|]. split; [exact HR|].
    split; [now apply (monotone_later w now)|]. now split.
  - intros budget w log last now cost (Hb & HR & Hm & Hp & Hu) Hle Hnow Hc Hok.
    pose proof (monotone_later w last now Hm Hle) as Hm'. pose proof (admit_monotone w now budget cost 0 Hm') as Hm2.
    destruct (decide (0 < cost <= budget /\ budget <= MELODI_AIRTIME_WINDOW_US)) as [[Hok1 Hok2]|Hbad].
    + pose proof (admit_exact w (map to_slot log) now budget cost 0 HR Hnow Hm' Hok1 Hok2) as H. cbn zeta in H.
      destruct (Z.leb_spec (usage (map to_slot log) (now / 10000) + cost) budget) as [Hfit|].
      2:{ destruct H as [H _]. rewrite H in Hok. discriminate. }
      destruct H as (_ & _ & HR'). split; [exact Hb|]. split; [exact HR'|]. split; [exact Hm2|].
      split; [constructor; [exact Hc|exact Hp]|]. cbn [map].
      change (to_slot (now, cost)) with (now / 10000, cost).
      exact (usage_admit _ _ _ _ (airtime_rep_wf w _ now HR Hm') (proj1 Hok1) Hfit Hu).
    + destruct (admit_bad_args w now budget cost 0 Hbad Hc Hb) as [H _]. congruence.
  - intros budget w log last t (Hb & HR & Hm & Hp & Hu). etransitivity; [|exact (Hu (t / 10000 + 359))].
    unfold usage. rewrite spent_to_slot. apply (sumZ_filter_le snd); [|exact Hp]. intros [n c] _. cbn. intros. div_lia.
Qed.

(** ** Properties *)

(** Admission is exact.  A window that represents a log of transmissions
    admits a cost exactly when the airtime logged in the last 360 slots plus
    the cost is within the budget, and then represents the extended log.
    Otherwise it refuses with [EAGAIN], represents the same log, and the wait it
    reports is the least: at a later time the cost fits exactly when that wait
    has elapsed.  The overflow exit is never taken. *)
Theorem airtime_admit_exact w log now budget cost wait0 :
  airtime_rep w log -> u64 now -> monotone w (now / 10000) ->
  0 < cost <= budget -> budget <= MELODI_AIRTIME_WINDOW_US ->
  let r := melodi_airtime_admit w now budget cost wait0 in
  if usage log (now / 10000) + cost <=? budget
  then r.2 = Ok tt /\ r.1.2 = 0 /\ airtime_rep r.1.1 ((now / 10000, cost) :: log)
  else r.2 = Err EAGAIN /\ airtime_rep r.1.1 log /\ 0 < r.1.2 <= 3600000 /\
       forall later, now <= later ->
         usage log (later / 10000) + cost <= budget <-> now + r.1.2 <= later.
Proof. apply admit_exact. Qed.

Lemma airtime_admit_exact_witness :
  let w := (melodi_airtime_admit airtime_zero 12000 100 80 0).1.1 in
  (melodi_airtime_admit w 12000 100 30 0).2 = Err EAGAIN /\
  (melodi_airtime_admit w 12000 100 30 0).1.2 = 3598000 /\
  (usage [(1, 80)] (3610000 / 10000) + 30 <= 100 <-> 12000 + 3598000 <= 3610000).
Proof.
  cbn zeta. split; [vm_compute; reflexivity|]. split; [vm_compute; reflexivity|].
  pose proof (airtime_admit_exact airtime_zero [] 12000 100 80 0 eq_refl) as [_ [_ H1]];
    [vm_compute; split; [discriminate|reflexivity]|discriminate|lia|lia|].
  pose proof (airtime_admit_exact _ _ 12000 100 30 0 H1) as [_ [_ [_ H2]]];
    [vm_compute; split; [discriminate|reflexivity]|intros _; vm_compute; discriminate|lia|lia|].
  exact (H2 3610000 ltac:(lia)).
Defined.

(** C26: the duty-cycle guarantee.  Whatever requests are made of a reset window
    at non-decreasing times, in every interval of 3590 seconds the admitted
    transmissions add up to at most the budget. *)
Theorem airtime_duty_cycle budget ops t :
  0 <= budget -> Forall (fun op => u64 op.1 /\ 0 <= op.2) ops ->
  StronglySorted Z.le (map fst ops) ->
  sumZ (map snd (filter (fun e => t <= e.1 <= t + 3590000)
                   (airtime_run budget (melodi_airtime_reset airtime_zero) ops))) <= budget.
Proof.
  intros Hb Hops Hsort.
  pose proof (airtime_run_usage budget ops airtime_zero [] 0) as H.
  specialize (H eq_refl ltac:(discriminate) Hb).
  specialize (H ltac:(eapply list.Forall_impl; [exact Hops|]; intros ? ?; unfold uint in *; intuition lia)
                Hsort (fun _ => Hb) (t / 10000 + 359)).
  rewrite app_nil_r in H. etransitivity; [|exact H].
  change (melodi_airtime_reset airtime_zero) with airtime_zero.
  set (run := airtime_run budget airtime_zero ops).
  assert (Forall (fun e => 0 <= e.2) run) as Hpos.
  { rewrite list.Forall_forall in *. intros e He. apply (Hops e).
    eapply (airtime_run_sub budget ops airtime_zero); exact He. }
  unfold usage. rewrite spent_rev, spent_to_slot.
  apply (sumZ_filter_le snd); [|exact Hpos]. intros [n c] _. unfold to_slot. cbn. intros. div_lia.
Qed.

(** Three requests: the second is refused, the third is admitted as soon as
    the first has left the window. *)
Lemma airtime_duty_cycle_witness :
  airtime_run 100 airtime_zero [(9999, 100); (20000, 1); (3600000, 100)]
    = [(9999, 100); (3600000, 100)] /\
  sumZ (map snd (filter (fun e => 20000 <= e.1 <= 20000 + 3590000)
    (airtime_run 100 (melodi_airtime_reset airtime_zero)
       [(9999, 100); (20000, 1); (3600000, 100)]))) <= 100.
Proof.
  split; [vm_compute; reflexivity|].
  apply (airtime_duty_cycle 100 [(9999, 100); (20000, 1); (3600000, 100)] 20000);
    [lia|by_decide|repeat constructor; cbn; lia].
Defined.

(** The bound of 3590 seconds is sharp: the same run spends twice the budget
    within 3590.001 seconds, that is, within one hour. *)
Lemma airtime_hour_exceeded :
  sumZ (map snd (filter (fun e => 9999 <= e.1 <= 9999 + 3590001)
    (airtime_run 100 airtime_zero [(9999, 100); (20000, 1); (3600000, 100)]))) = 200.
Proof. vm_compute. reflexivity. Qed.
