(* ===== verification/Radio.v ===== *)
(** * The host-to-radio protocol (src/proto/radio.c, src/proto/radio.h)

    Frames on the serial line between the host and a radio: the stream framer,
    the payload of every message type, the segments of a packet and the LoRa
    time-on-air estimate.

    A pointer with its length is one list; a local array that the code does not
    initialise is an argument [stack], so that a theorem that holds for every
    [stack] says that nothing of it leaks into the frame. *)
From S2P Require Import Prelude Buffer.

Abbreviation MELODI_RADIO_MAGIC0 := 0x4d.
Abbreviation MELODI_RADIO_MAGIC1 := 0x4c.
Abbreviation MELODI_RADIO_VERSION := 2.
Abbreviation MELODI_RADIO_HEADER_SIZE := 8.
Abbreviation MELODI_RADIO_PAYLOAD_MAX := 512.
Abbreviation MELODI_RADIO_PACKET_MAX := 240.
Abbreviation MELODI_RADIO_SEGMENT_SIZE := 12.
Abbreviation MELODI_RADIO_SEGMENT_LIMIT := 32.
Abbreviation MELODI_RADIO_FRAME_MAX := ((240 - 12) * 32).
Abbreviation MELODI_RADIO_LOCATOR_BROADCAST := 0xffffffff.

(** [enum melodi_radio_type] *)
Abbreviation MELODI_RADIO_T_IDENTIFY := 1.
Abbreviation MELODI_RADIO_T_CONFIGURE := 2.
Abbreviation MELODI_RADIO_T_TRANSMIT := 3.
Abbreviation MELODI_RADIO_T_RESET := 4.
Abbreviation MELODI_RADIO_T_INFO := 0x81.
Abbreviation MELODI_RADIO_T_STATUS := 0x82.
Abbreviation MELODI_RADIO_T_RECEIVE := 0x83.
Abbreviation MELODI_RADIO_T_RESULT := 0x84.

Abbreviation MELODI_RADIO_STATE_FAILED := 2.
Abbreviation MELODI_RADIO_FAULT_INTERNAL := 7.
Abbreviation MELODI_RADIO_RESULT_DUTY := 5.

Abbreviation MELODI_RADIO_CONFIGURE_SIZE := 48.
Abbreviation MELODI_RADIO_INFO_SIZE := 72.
Abbreviation MELODI_RADIO_STATUS_SIZE := 11.
Abbreviation MELODI_RADIO_TRANSMIT_SIZE := 10.
Abbreviation MELODI_RADIO_RECEIVE_SIZE := 16.
Abbreviation MELODI_RADIO_RESULT_SIZE := 10.

(** ** Data *)

Record melodi_radio_header := MkHeader {
  magic0 : Z;
  magic1 : Z;
  version : Z;
  type : Z;
  payload_length : Z;
  checksum : Z;
}.

Record melodi_radio_configure := {
  domain : bytes;
  locator : Z;
  frequency_hz : Z;
  bandwidth_khz : Z;
  spreading_factor : Z;
  coding_rate : Z;
  transmit_power_dbm : Z;
  duty_permille : Z;
}.

Record melodi_radio_info := {
  firmware : bytes;
  hardware : bytes;
  abi_version : Z;
  packet_mtu : Z;
  queue_depth : Z;
}.

Record melodi_radio_status := {
  status_locator : Z;
  queue_free : Z;
  status_queue_depth : Z;
  state : Z;
  fault : Z;
  modem_status : Z;
}.

Record melodi_radio_transmit := {
  cookie : Z;
  destination : Z;
  payload : bytes;
}.

Record melodi_radio_receive := {
  source : Z;
  receive_destination : Z;
  rssi : Z;
  snr : Z;
  hops : Z;
  receive_payload : bytes;
}.

Record melodi_radio_result_report := {
  result_cookie : Z;
  duration_us : Z;
  result_code : Z;
}.

Record melodi_radio_segment := {
  frame_id : Z;
  total_length : Z;
  index : Z;
  count : Z;
  segment_payload : bytes;
}.

Inductive melodi_radio_stream_state : Set :=
| MELODI_RADIO_SCAN_MAGIC0
| MELODI_RADIO_SCAN_MAGIC1
| MELODI_RADIO_READ_HEADER
| MELODI_RADIO_READ_PAYLOAD.

#[export] Instance melodi_radio_stream_state_eq_dec : EqDecision melodi_radio_stream_state.
Proof. solve_decision. Defined.

Record melodi_radio_stream := MkStream {
  stream_state : melodi_radio_stream_state;
  offset : Z;
  expected : Z;
  header : melodi_radio_header;
  buffer : bytes;
}.

(** ** Integers and text *)

Definition melodi_radio_put_u16 (off : nat) (value : Z) (output : bytes) : bytes :=
  store off [wrap 8 (Z.shiftr value 8); wrap 8 value] output.

Definition melodi_radio_put_u32 (off : nat) (value : Z) (output : bytes) : bytes :=
  store off [wrap 8 (Z.shiftr value 24); wrap 8 (Z.shiftr value 16);
             wrap 8 (Z.shiftr value 8); wrap 8 value] output.

(** [output\[off\] = value] *)
Definition put8 (off : nat) (value : Z) (output : bytes) : bytes :=
  store off [wrap 8 value] output.

Definition melodi_radio_get_u16 (input : bytes) : Z :=
  wrap 16 (Z.lor (Z.shiftl (byte_at 0 input) 8) (byte_at 1 input)).

Definition melodi_radio_get_u32 (input : bytes) : Z :=
  Z.lor (Z.lor (Z.lor (wrap 32 (Z.shiftl (byte_at 0 input) 24))
                  (wrap 32 (Z.shiftl (byte_at 1 input) 16)))
           (wrap 32 (Z.shiftl (byte_at 2 input) 8)))
    (byte_at 3 input).

(** [for (...) sum += data\[index\]] at 32 bits. *)
Definition sum_loop (data : bytes) : Z := fold_left (fun sum b => wrap 32 (sum + b)) data 0.

(** [while (sum >> 16)]: two turns fold any 32-bit sum. *)
Fixpoint fold_loop (fuel : nat) (sum : Z) : Z :=
  match fuel with
  | O => sum
  | S fuel => if Z.shiftr sum 16 =? 0 then sum
              else fold_loop fuel (wrap 32 (Z.land sum 0xffff + Z.shiftr sum 16))
  end.

Definition melodi_radio_checksum (data : bytes) : Z :=
  wrap 16 (lnot_w 32 (fold_loop 2 (sum_loop data))).

Fixpoint put_text_loop (n i : nat) (off : nat) (text output : bytes) : bytes :=
  match n with
  | O => output
  | S n => if byte_at i text =? 0 then output
           else put_text_loop n (S i) off text (put8 (off + i) (byte_at i text) output)
  end.

Definition melodi_radio_put_text (off : nat) (text : bytes) (capacity : nat) (output : bytes)
    : bytes :=
  put_text_loop (capacity - 1) 0 off text (store off (replicate capacity 0) output).

Fixpoint get_text_loop (n i : nat) (input output : bytes) : result bytes :=
  match n with
  | O => Ok (<[i := 0]> output)
  | S n => if byte_at i input =? 0 then Ok (<[i := 0]> output)
           else if (byte_at i input <? 0x20) || (0x7e <? byte_at i input) then Err EPROTO
           else get_text_loop n (S i) input (<[i := byte_at i input]> output)
  end.

Definition melodi_radio_get_text (output input : bytes) (capacity : nat) : result bytes :=
  get_text_loop (capacity - 1) 0 input output.

(** ** The stream framer *)

Definition header_zero : melodi_radio_header := MkHeader 0 0 0 0 0 0.

Definition melodi_radio_stream_init : melodi_radio_stream :=
  MkStream MELODI_RADIO_SCAN_MAGIC0 0 0 header_zero (replicate 512 0).

(** The output buffer after the call and [*encoded_length]. *)
Definition melodi_radio_stream_encode (ty : Z) (pl output : bytes) : result (bytes * Z) :=
  if MELODI_RADIO_PAYLOAD_MAX <? zlen pl then Err EINVAL else
  if zlen output <? MELODI_RADIO_HEADER_SIZE + zlen pl then Err ENOSPC else
  let out := put8 0 MELODI_RADIO_MAGIC0 output in
  let out := put8 1 MELODI_RADIO_MAGIC1 out in
  let out := put8 2 MELODI_RADIO_VERSION out in
  let out := put8 3 ty out in
  let out := melodi_radio_put_u16 4 (wrap 16 (zlen pl)) out in
  let out := melodi_radio_put_u16 6 (melodi_radio_checksum pl) out in
  let out := store 8 pl out in
  Ok (out, MELODI_RADIO_HEADER_SIZE + zlen pl).

(** Field updates. *)
Definition set_state (s : melodi_radio_stream) (st : melodi_radio_stream_state) :=
  MkStream st s.(offset) s.(expected) s.(header) s.(buffer).
Definition set_offset (s : melodi_radio_stream) (off : Z) :=
  MkStream s.(stream_state) off s.(expected) s.(header) s.(buffer).
Definition set_expected (s : melodi_radio_stream) (n : Z) :=
  MkStream s.(stream_state) s.(offset) n s.(header) s.(buffer).
Definition set_header (s : melodi_radio_stream) (h : melodi_radio_header) :=
  MkStream s.(stream_state) s.(offset) s.(expected) h s.(buffer).

(** [stream->buffer\[stream->offset++\] = byte] *)
Definition push_byte (s : melodi_radio_stream) (byte : Z) : melodi_radio_stream :=
  MkStream s.(stream_state) (wrap 16 (s.(offset) + 1)) s.(expected) s.(header)
    (<[Z.to_nat s.(offset) := byte]> s.(buffer)).

(** [Ok (Some (header, payload))] is the return value 1, [Ok None] is 0; the
    payload handed out is the stream's own buffer. *)
Definition melodi_radio_stream_feed (stream : melodi_radio_stream) (byte : Z)
    : melodi_radio_stream * result (option (melodi_radio_header * bytes)) :=
  match stream.(stream_state) with
  | MELODI_RADIO_SCAN_MAGIC0 =>
      if byte =? MELODI_RADIO_MAGIC0
      then (set_state stream MELODI_RADIO_SCAN_MAGIC1, Ok None)
      else (stream, Ok None)
  | MELODI_RADIO_SCAN_MAGIC1 =>
      if byte =? MELODI_RADIO_MAGIC1
      then (set_offset (set_state stream MELODI_RADIO_READ_HEADER) 0, Ok None)
      else if negb (byte =? MELODI_RADIO_MAGIC0)
      then (set_state stream MELODI_RADIO_SCAN_MAGIC0, Ok None)
      else (stream, Ok None)
  | MELODI_RADIO_READ_HEADER =>
      let stream := push_byte stream byte in
      if stream.(offset) <? MELODI_RADIO_HEADER_SIZE - 2 then (stream, Ok None) else
      let h := MkHeader MELODI_RADIO_MAGIC0 MELODI_RADIO_MAGIC1
                 (byte_at 0 stream.(buffer)) (byte_at 1 stream.(buffer))
                 (melodi_radio_get_u16 (drop 2 stream.(buffer)))
                 (melodi_radio_get_u16 (drop 4 stream.(buffer))) in
      let stream := set_offset (set_header stream h) 0 in
      if negb (h.(version) =? MELODI_RADIO_VERSION) ||
         (MELODI_RADIO_PAYLOAD_MAX <? h.(payload_length))
      then (set_state stream MELODI_RADIO_SCAN_MAGIC0, Err EPROTO) else
      let stream := set_expected stream h.(payload_length) in
      if stream.(expected) =? 0 then
        let stream := set_state stream MELODI_RADIO_SCAN_MAGIC0 in
        if negb (h.(checksum) =? melodi_radio_checksum [])
        then (stream, Err EBADMSG)
        else (stream, Ok (Some (stream.(header), stream.(buffer))))
      else (set_state stream MELODI_RADIO_READ_PAYLOAD, Ok None)
  | MELODI_RADIO_READ_PAYLOAD =>
      let stream := push_byte stream byte in
      if stream.(offset) <? stream.(expected) then (stream, Ok None) else
      let stream := set_state stream MELODI_RADIO_SCAN_MAGIC0 in
      if negb (stream.(header).(checksum) =?
               melodi_radio_checksum (take (Z.to_nat stream.(expected)) stream.(buffer)))
      then (stream, Err EBADMSG)
      else (stream, Ok (Some (stream.(header), stream.(buffer))))
  end.

(** ** Messages *)

Definition melodi_radio_encode_identify (output : bytes) : result (bytes * Z) :=
  melodi_radio_stream_encode MELODI_RADIO_T_IDENTIFY [] output.

Definition melodi_radio_encode_reset (output : bytes) : result (bytes * Z) :=
  melodi_radio_stream_encode MELODI_RADIO_T_RESET [] output.

(** The condition the encoder and the decoder of a configuration share. *)
Definition configure_bad (c : melodi_radio_configure) : bool :=
  (c.(locator) =? 0) || (c.(locator) =? MELODI_RADIO_LOCATOR_BROADCAST) ||
  (c.(frequency_hz) =? 0) || (c.(bandwidth_khz) =? 0) ||
  (c.(spreading_factor) <? 6) || (12 <? c.(spreading_factor)) ||
  (c.(coding_rate) <? 5) || (8 <? c.(coding_rate)) ||
  (c.(duty_permille) =? 0) || (1000 <? c.(duty_permille)).

Definition melodi_radio_encode_configure (stack : bytes) (config : melodi_radio_configure)
    (output : bytes) : result (bytes * Z) :=
  if configure_bad config then Err EINVAL else
  let pl := store 0 config.(domain) stack in
  let pl := melodi_radio_put_u32 32 config.(locator) pl in
  let pl := melodi_radio_put_u32 36 config.(frequency_hz) pl in
  let pl := melodi_radio_put_u16 40 config.(bandwidth_khz) pl in
  let pl := put8 42 config.(spreading_factor) pl in
  let pl := put8 43 config.(coding_rate) pl in
  let pl := melodi_radio_put_u16 44 (to_unsigned 16 config.(transmit_power_dbm)) pl in
  let pl := melodi_radio_put_u16 46 config.(duty_permille) pl in
  melodi_radio_stream_encode MELODI_RADIO_T_CONFIGURE pl output.

Definition melodi_radio_decode_configure (input : bytes) : result melodi_radio_configure :=
  if negb (zlen input =? MELODI_RADIO_CONFIGURE_SIZE) then Err EINVAL else
  let config := {|
    domain := load 0 32 input;
    locator := melodi_radio_get_u32 (drop 32 input);
    frequency_hz := melodi_radio_get_u32 (drop 36 input);
    bandwidth_khz := melodi_radio_get_u16 (drop 40 input);
    spreading_factor := byte_at 42 input;
    coding_rate := byte_at 43 input;
    transmit_power_dbm := to_signed 16 (melodi_radio_get_u16 (drop 44 input));
    duty_permille := melodi_radio_get_u16 (drop 46 input);
  |} in
  if configure_bad config then Err EPROTO else Ok config.

Definition melodi_radio_encode_info (stack : bytes) (info : melodi_radio_info)
    (output : bytes) : result (bytes * Z) :=
  if (info.(packet_mtu) =? 0) || (MELODI_RADIO_PACKET_MAX <? info.(packet_mtu)) ||
     (info.(queue_depth) =? 0)
  then Err EINVAL else
  let pl := melodi_radio_put_u32 0 info.(abi_version) stack in
  let pl := melodi_radio_put_u16 4 info.(packet_mtu) pl in
  let pl := melodi_radio_put_u16 6 info.(queue_depth) pl in
  let pl := melodi_radio_put_text 8 info.(firmware) 32 pl in
  let pl := melodi_radio_put_text 40 info.(hardware) 32 pl in
  melodi_radio_stream_encode MELODI_RADIO_T_INFO pl output.

Definition melodi_radio_decode_info (input : bytes) : result melodi_radio_info :=
  if negb (zlen input =? MELODI_RADIO_INFO_SIZE) then Err EINVAL else
  let abi := melodi_radio_get_u32 input in
  let mtu := melodi_radio_get_u16 (drop 4 input) in
  let depth := melodi_radio_get_u16 (drop 6 input) in
  fw ← melodi_radio_get_text (replicate 32 0) (drop 8 input) 32;
  hw ← melodi_radio_get_text (replicate 32 0) (drop 40 input) 32;
  if (mtu =? 0) || (MELODI_RADIO_PACKET_MAX <? mtu) || (depth =? 0) then Err EPROTO
  else Ok {| firmware := fw; hardware := hw; abi_version := abi; packet_mtu := mtu;
             queue_depth := depth |}.

Definition status_bad (s : melodi_radio_status) : bool :=
  (MELODI_RADIO_STATE_FAILED <? s.(state)) || (MELODI_RADIO_FAULT_INTERNAL <? s.(fault)) ||
  (s.(status_queue_depth) <? s.(queue_free)).

Definition melodi_radio_encode_status (stack : bytes) (status : melodi_radio_status)
    (output : bytes) : result (bytes * Z) :=
  if status_bad status then Err EINVAL else
  let pl := melodi_radio_put_u32 0 status.(status_locator) stack in
  let pl := melodi_radio_put_u16 4 status.(queue_free) pl in
  let pl := melodi_radio_put_u16 6 status.(status_queue_depth) pl in
  let pl := put8 8 status.(state) pl in
  let pl := put8 9 status.(fault) pl in
  let pl := put8 10 status.(modem_status) pl in
  melodi_radio_stream_encode MELODI_RADIO_T_STATUS pl output.

Definition melodi_radio_decode_status (input : bytes) : result melodi_radio_status :=
  if negb (zlen input =? MELODI_RADIO_STATUS_SIZE) then Err EINVAL else
  let status := {|
    status_locator := melodi_radio_get_u32 input;
    queue_free := melodi_radio_get_u16 (drop 4 input);
    status_queue_depth := melodi_radio_get_u16 (drop 6 input);
    state := byte_at 8 input;
    fault := byte_at 9 input;
    modem_status := byte_at 10 input;
  |} in
  if status_bad status then Err EPROTO else Ok status.

(** [sizeof(payload)] of the local array is 250; the frame carries the first
    [10 + payload_length] bytes of it. *)
Definition melodi_radio_encode_transmit (stack : bytes) (transmit : melodi_radio_transmit)
    (output : bytes) : result (bytes * Z) :=
  if (transmit.(cookie) =? 0) || (transmit.(destination) =? 0) ||
     (zlen transmit.(payload) =? 0) || (MELODI_RADIO_PACKET_MAX <? zlen transmit.(payload))
  then Err EINVAL else
  let pl := melodi_radio_put_u32 0 transmit.(cookie) stack in
  let pl := melodi_radio_put_u32 4 transmit.(destination) pl in
  let pl := melodi_radio_put_u16 8 (zlen transmit.(payload)) pl in
  let pl := store 10 transmit.(payload) pl in
  melodi_radio_stream_encode MELODI_RADIO_T_TRANSMIT
    (take (10 + length transmit.(payload)) pl) output.

Definition melodi_radio_decode_transmit (input : bytes) : result melodi_radio_transmit :=
  if zlen input <? MELODI_RADIO_TRANSMIT_SIZE then Err EINVAL else
  let ck := melodi_radio_get_u32 input in
  let dst := melodi_radio_get_u32 (drop 4 input) in
  let n := melodi_radio_get_u16 (drop 8 input) in
  if (ck =? 0) || (dst =? 0) || (n =? 0) || (MELODI_RADIO_PACKET_MAX <? n) ||
     negb (zlen input =? MELODI_RADIO_TRANSMIT_SIZE + n)
  then Err EPROTO
  else Ok {| cookie := ck; destination := dst; payload := load 10 (Z.to_nat n) input |}.

Definition melodi_radio_encode_receive (stack : bytes) (receive : melodi_radio_receive)
    (output : bytes) : result (bytes * Z) :=
  if (receive.(source) =? 0) || (receive.(receive_destination) =? 0) ||
     (zlen receive.(receive_payload) =? 0) ||
     (MELODI_RADIO_PACKET_MAX <? zlen receive.(receive_payload))
  then Err EINVAL else
  let pl := melodi_radio_put_u32 0 receive.(source) stack in
  let pl := melodi_radio_put_u32 4 receive.(receive_destination) pl in
  let pl := melodi_radio_put_u16 8 (to_unsigned 16 receive.(rssi)) pl in
  let pl := melodi_radio_put_u16 10 (to_unsigned 16 receive.(snr)) pl in
  let pl := put8 12 receive.(hops) pl in
  let pl := put8 13 0 pl in
  let pl := melodi_radio_put_u16 14 (zlen receive.(receive_payload)) pl in
  let pl := store 16 receive.(receive_payload) pl in
  melodi_radio_stream_encode MELODI_RADIO_T_RECEIVE
    (take (16 + length receive.(receive_payload)) pl) output.

Definition melodi_radio_decode_receive (input : bytes) : result melodi_radio_receive :=
  if zlen input <? MELODI_RADIO_RECEIVE_SIZE then Err EINVAL else
  let src := melodi_radio_get_u32 input in
  let dst := melodi_radio_get_u32 (drop 4 input) in
  let n := melodi_radio_get_u16 (drop 14 input) in
  if (src =? 0) || (dst =? 0) || (n =? 0) || (MELODI_RADIO_PACKET_MAX <? n) ||
     negb (zlen input =? MELODI_RADIO_RECEIVE_SIZE + n)
  then Err EPROTO
  else Ok {| source := src; receive_destination := dst;
             rssi := to_signed 16 (melodi_radio_get_u16 (drop 8 input));
             snr := to_signed 16 (melodi_radio_get_u16 (drop 10 input));
             hops := byte_at 12 input;
             receive_payload := load 16 (Z.to_nat n) input |}.

Definition melodi_radio_encode_result (stack : bytes) (report : melodi_radio_result_report)
    (output : bytes) : result (bytes * Z) :=
  if (report.(result_cookie) =? 0) || (MELODI_RADIO_RESULT_DUTY <? report.(result_code))
  then Err EINVAL else
  let pl := melodi_radio_put_u32 0 report.(result_cookie) stack in
  let pl := melodi_radio_put_u32 4 report.(duration_us) pl in
  let pl := put8 8 report.(result_code) pl in
  let pl := put8 9 0 pl in
  melodi_radio_stream_encode MELODI_RADIO_T_RESULT pl output.

Definition melodi_radio_decode_result (input : bytes) : result melodi_radio_result_report :=
  if negb (zlen input =? MELODI_RADIO_RESULT_SIZE) then Err EINVAL else
  let report := {|
    result_cookie := melodi_radio_get_u32 input;
    duration_us := melodi_radio_get_u32 (drop 4 input);
    result_code := byte_at 8 input;
  |} in
  if (report.(result_cookie) =? 0) || (MELODI_RADIO_RESULT_DUTY <? report.(result_code))
  then Err EPROTO else Ok report.

(** ** Time on air *)

Definition melodi_radio_airtime_estimate (sf bw cr plen : Z) : result Z :=
  if (sf <? 6) || (12 <? sf) || (bw =? 0) || (cr <? 5) || (8 <? cr) ||
     (MELODI_RADIO_PACKET_MAX <? plen)
  then Err EINVAL else
  let symbol_us := wrap 64 (wrap 64 (bit sf) * 1000) / bw in
  let preamble_us := wrap 64 (symbol_us * 49) / 4 in
  let low_rate := if (11 <=? sf) && (bw <=? 125) then 1 else 0 in
  let numerator := 8 * plen - 4 * sf + 28 + 16 in
  let denominator := 4 * (sf - 2 * low_rate) in
  if denominator <=? 0 then Err EINVAL else
  let symbols := if numerator <=? 0 then 0
                 else Z.quot (numerator + denominator - 1) denominator in
  let symbols := 8 + symbols * (cr - 4 + 4) in
  let payload_us := wrap 64 (wrap 64 symbols * symbol_us) in
  Ok (wrap 32 (wrap 64 (preamble_us + payload_us))).

(** ** Segments *)

Definition melodi_radio_segment_encode (segment : melodi_radio_segment) (output : bytes)
    : result (bytes * Z) :=
  if (segment.(frame_id) =? 0) || (segment.(count) =? 0) ||
     (MELODI_RADIO_SEGMENT_LIMIT <? segment.(count)) ||
     (segment.(count) <=? segment.(index)) ||
     (zlen segment.(segment_payload) =? 0) || (segment.(total_length) =? 0) ||
     (MELODI_RADIO_FRAME_MAX <? segment.(total_length)) ||
     (MELODI_RADIO_PACKET_MAX - MELODI_RADIO_SEGMENT_SIZE <? zlen segment.(segment_payload))
  then Err EINVAL else
  if zlen output <? MELODI_RADIO_SEGMENT_SIZE + zlen segment.(segment_payload)
  then Err ENOSPC else
  let out := melodi_radio_put_u32 0 segment.(frame_id) output in
  let out := melodi_radio_put_u16 4 segment.(total_length) out in
  let out := melodi_radio_put_u16 6 segment.(index) out in
  let out := melodi_radio_put_u16 8 segment.(count) out in
  let out := melodi_radio_put_u16 10 0 out in
  let out := store 12 segment.(segment_payload) out in
  Ok (out, MELODI_RADIO_SEGMENT_SIZE + zlen segment.(segment_payload)).

Definition melodi_radio_segment_decode (input : bytes) : result melodi_radio_segment :=
  if (zlen input <=? MELODI_RADIO_SEGMENT_SIZE) || (MELODI_RADIO_PACKET_MAX <? zlen input)
  then Err EINVAL else
  let segment := {|
    frame_id := melodi_radio_get_u32 input;
    total_length := melodi_radio_get_u16 (drop 4 input);
    index := melodi_radio_get_u16 (drop 6 input);
    count := melodi_radio_get_u16 (drop 8 input);
    segment_payload := drop 12 input;
  |} in
  if (segment.(frame_id) =? 0) || (segment.(count) =? 0) ||
     (MELODI_RADIO_SEGMENT_LIMIT <? segment.(count)) ||
     (segment.(count) <=? segment.(index)) || (segment.(total_length) =? 0) ||
     (MELODI_RADIO_FRAME_MAX <? segment.(total_length))
  then Err EPROTO else Ok segment.

(** ** The checksum *)

Lemma sum_loop_acc data acc :
  Forall u8 data -> 0 <= acc -> acc + 255 * zlen data < 2 ^ 32 ->
  fold_left (fun sum b => wrap 32 (sum + b)) data acc = acc + sumZ data.
Proof.
  intros Hd. revert acc. induction Hd as [|b data Hb Hd IH]; intros acc Ha Hlt; cbn [fold_left]; [cbn; lia|].
  unfold zlen in *. cbn [length] in Hlt. rewrite sumZ_cons.
  rewrite wrap_id by width_lia. rewrite IH by width_lia. lia.
Qed.

Lemma sumZ_bytes data : Forall u8 data -> 0 <= sumZ data <= 255 * zlen data.
Proof.
  induction 1 as [|b l Hb Hl IH]; [vm_compute; split; discriminate|]. rewrite sumZ_cons. unfold zlen in *.
  cbn [length]. unfold uint in *. lia.
Qed.

(** The loop of the checksum always ends with a 16-bit sum. *)
Lemma fold_loop_done s : u32 s -> u16 (fold_loop 2 s).
Proof.
  assert (forall x, u32 x -> Z.land x 0xffff = x mod 65536 /\ Z.shiftr x 16 = x / 65536) as Hx.
  { intros x _. split; [apply (Z.land_ones x 16); lia|now rewrite Z.shiftr_div_pow2]. }
  intros Hs. cbn [fold_loop]. destruct (Hx s Hs) as [-> ->].
  destruct (Z.eqb_spec (s / 65536) 0); [unfold uint in *; pow_norm; div_lia|].
  set (t := s mod 65536 + s / 65536).
  assert (0 <= t <= 131070) by (unfold uint, t in *; pow_norm; div_lia).
  rewrite (wrap_id 32 t) by (unfold uint; pow_norm; lia).
  destruct (Hx t) as [-> ->]; [unfold uint; pow_norm; lia|].
  destruct (Z.eqb_spec (t / 65536) 0); [unfold uint in *; pow_norm; div_lia|].
  rewrite wrap_id by (unfold uint; pow_norm; div_lia). unfold uint. pow_norm. div_lia.
Qed.

(** The value of the checksum of a payload that fits the stream's buffer. *)
Lemma checksum_val data :
  Forall u8 data -> zlen data <= 512 ->
  melodi_radio_checksum data =
    65535 - (if sumZ data <? 65536 then sumZ data else sumZ data - 65535).
Proof.
  intros Hd Hl. pose proof (sumZ_bytes data Hd). unfold melodi_radio_checksum, sum_loop.
  rewrite sum_loop_acc by (auto; pow_norm; lia). rewrite Z.add_0_l. set (s := sumZ data) in *.
  assert (fold_loop 2 s = if s <? 65536 then s else s - 65535) as ->.
  { assert (forall x, Z.land x 0xffff = x mod 65536) as Hand by (intros x; apply (Z.land_ones x 16); lia).
    cbn [fold_loop]. rewrite !Hand, !Z.shiftr_div_pow2 by lia. change (2 ^ 16) with 65536.
    destruct (Z.ltb_spec s 65536).
    - now rewrite Z.div_small by lia.
    - assert (s / 65536 = 1) as E by div_lia. rewrite E. change (1 =? 0) with false. cbv iota.
      assert (s mod 65536 + 1 = s - 65535) as -> by div_lia.
      rewrite wrap_id by (unfold uint; pow_norm; lia). now rewrite Z.div_small by lia. }
  unfold lnot_w, wrap. pow_norm. destruct (s <? 65536) eqn:E; guard_hyps; div_lia.
Qed.

Lemma checksum_u16 data : u16 (melodi_radio_checksum data).
Proof. apply wrap_uint. lia. Qed.

(** ** Accessors *)

Lemma radio_get_u16 b : Forall u8 b -> melodi_radio_get_u16 b = get_be16 b.
Proof. intros H. apply (wrap_id 16 (get_be16 b)). now apply get_be16_u16. Qed.

Lemma radio_get_u32 b : Forall u8 b -> melodi_radio_get_u32 b = get_be32 b.
Proof.
  intros H. unfold melodi_radio_get_u32, get_be32.
  pose proof (byte_at_u8 0 b H). pose proof (byte_at_u8 1 b H). pose proof (byte_at_u8 2 b H).
  rewrite !wrap_id; [reflexivity|..]; rewrite Z.shiftl_mul_pow2 by lia; width_lia.
Qed.

Lemma radio_get_u32_0 b : Forall u8 b -> melodi_radio_get_u32 b = get_be32 (drop 0 b).
Proof. rewrite drop_0. apply radio_get_u32. Qed.

(** ** Frames and streams

    The frame of a payload, and what feeding a sequence of bytes to the framer
    reports. *)

Definition radio_frame (ty : Z) (p : bytes) : bytes :=
  [MELODI_RADIO_MAGIC0; MELODI_RADIO_MAGIC1; MELODI_RADIO_VERSION; ty] ++
  be16 (zlen p) ++ be16 (melodi_radio_checksum p) ++ p.

Lemma radio_frame_header ty p q :
  firstn 8 (radio_frame ty p) ++ q =
  [MELODI_RADIO_MAGIC0; MELODI_RADIO_MAGIC1; MELODI_RADIO_VERSION; ty] ++
  be16 (zlen p) ++ be16 (melodi_radio_checksum p) ++ q.
Proof. reflexivity. Qed.

Definition frame_header (ty : Z) (p : bytes) : melodi_radio_header :=
  MkHeader MELODI_RADIO_MAGIC0 MELODI_RADIO_MAGIC1 MELODI_RADIO_VERSION ty (zlen p)
    (melodi_radio_checksum p).

Inductive stream_event :=
| Frame (h : melodi_radio_header) (p : bytes)
| Fault (e : errno).

Definition event_of (r : result (option (melodi_radio_header * bytes))) : list stream_event :=
  match r with
  | Ok None => []
  | Ok (Some (h, buf)) => [Frame h (take (Z.to_nat h.(payload_length)) buf)]
  | Err e => [Fault e]
  end.

Fixpoint feed_all (s : melodi_radio_stream) (bs : bytes) : melodi_radio_stream * list stream_event :=
  match bs with
  | [] => (s, [])
  | b :: bs =>
      let r := melodi_radio_stream_feed s b in
      let t := feed_all r.1 bs in (t.1, event_of r.2 ++ t.2)
  end.

Lemma feed_all_app s a b :
  feed_all s (a ++ b) =
  ((feed_all (feed_all s a).1 b).1, (feed_all s a).2 ++ (feed_all (feed_all s a).1 b).2).
Proof.
  revert s. induction a as [|x a IH]; intros s.
  - cbn [app feed_all fst snd]. now destruct (feed_all s b).
  - cbn [app feed_all fst snd]. rewrite IH. cbn [fst snd]. now rewrite app_assoc.
Qed.

Lemma stream_encode_frame ty p out b n :
  u8 ty -> melodi_radio_stream_encode ty p out = Ok (b, n) ->
  n = 8 + zlen p /\ zlen p <= 512 /\ take (Z.to_nat n) b = radio_frame ty p /\ length b = length out.
Proof.
  unfold melodi_radio_stream_encode. intros Hty H. guards_in H. injection H as <- <-. guard_hyps.
  split; [reflexivity|]. split; [lia|].
  set (l := [ Chunk 0 1 [wrap 8 MELODI_RADIO_MAGIC0]; Chunk 1 1 [wrap 8 MELODI_RADIO_MAGIC1];
              Chunk 2 1 [wrap 8 MELODI_RADIO_VERSION]; Chunk 3 1 [wrap 8 ty];
              Chunk 4 2 (be16 (wrap 16 (zlen p))); Chunk 6 2 (be16 (melodi_radio_checksum p));
              Chunk 8 (length p) p ]).
  change (take (Z.to_nat (8 + zlen p)) (stores l out) = radio_frame ty p /\
          length (stores l out) = length out).
  rewrite length_stores. split; [|reflexivity].
  rewrite (stores_layout l (8 + length p)) by first [reflexivity|unfold zlen in *; lia|repeat split].
  replace (Z.to_nat (8 + zlen p)) with (length (layout_bytes l)).
  - rewrite take_app_length. unfold layout_bytes, radio_frame. cbn [map concat c_data l].
    rewrite app_nil_r, (wrap_id 8 ty), (wrap_id 16 (zlen p)) by (auto; width_lia). reflexivity.
  - pose proof (layout_bytes_length 0 l (8 + length p) eq_refl ltac:(repeat split)). unfold zlen. lia.
Qed.

(** The invariant of the framer and what it remembers of the bytes it was fed:
    [hist] ends with the part of a frame that the state stands for. *)
Definition stream_tracks (s : melodi_radio_stream) (hist : bytes) : Prop :=
  length s.(buffer) = 512%nat /\ Forall u8 s.(buffer) /\
  match s.(stream_state) with
  | MELODI_RADIO_SCAN_MAGIC0 => True
  | MELODI_RADIO_SCAN_MAGIC1 => exists pre, hist = pre ++ [MELODI_RADIO_MAGIC0]
  | MELODI_RADIO_READ_HEADER =>
      0 <= s.(offset) < 6 /\
      exists pre, hist = pre ++ [MELODI_RADIO_MAGIC0; MELODI_RADIO_MAGIC1] ++
                         take (Z.to_nat s.(offset)) s.(buffer)
  | MELODI_RADIO_READ_PAYLOAD =>
      0 <= s.(offset) < s.(expected) /\ s.(expected) <= 512 /\
      s.(header) = MkHeader MELODI_RADIO_MAGIC0 MELODI_RADIO_MAGIC1 MELODI_RADIO_VERSION
                     s.(header).(type) s.(expected) s.(header).(checksum) /\
      exists pre, hist = pre ++ [MELODI_RADIO_MAGIC0; MELODI_RADIO_MAGIC1; MELODI_RADIO_VERSION;
                                 s.(header).(type)] ++
                         be16 s.(expected) ++ be16 s.(header).(checksum) ++
                         take (Z.to_nat s.(offset)) s.(buffer)
  end.

Lemma take_insert_snoc (o : nat) (b : Z) (l : bytes) :
  (o < length l)%nat -> take (S o) (<[o := b]> l) = take o l ++ [b].
Proof.
  intros H. rewrite (take_S_r _ _ b) by now apply list_lookup_insert_eq.
  f_equal. apply take_insert_ge. lia.
Qed.

Lemma push_tracks s byte :
  length s.(buffer) = 512%nat -> 0 <= s.(offset) < 512 ->
  (push_byte s byte).(offset) = s.(offset) + 1 /\
  length (push_byte s byte).(buffer) = 512%nat /\
  take (Z.to_nat (s.(offset) + 1)) (push_byte s byte).(buffer)
    = take (Z.to_nat s.(offset)) s.(buffer) ++ [byte].
Proof.
  intros Hl Ho. cbn [push_byte offset buffer].
  rewrite wrap_id by (unfold uint; lia). rewrite length_insert. split; [reflexivity|].
  split; [exact Hl|]. rewrite Z2Nat.inj_add by lia. change (Z.to_nat 1) with 1%nat.
  rewrite Nat.add_1_r. apply take_insert_snoc. lia.
Qed.

Lemma bytes6 (l : bytes) :
  (6 <= length l)%nat -> Forall u8 l ->
  take 6 l = [byte_at 0 l; byte_at 1 l] ++ be16 (get_be16 (drop 2 l)) ++ be16 (get_be16 (drop 4 l)).
Proof.
  intros Hl Hu. rewrite <- !be16_field by (auto; lia).
  do 6 (destruct l as [|? l]; [cbn in Hl; lia|]). reflexivity.
Qed.

(** A frame is reported only if the history now ends with that frame. *)
Definition reports_frame (r : result (option (melodi_radio_header * bytes))) (hist : bytes) : Prop :=
  forall h buf, r = Ok (Some (h, buf)) ->
    let p := take (Z.to_nat h.(payload_length)) buf in
    h = frame_header h.(type) p /\ zlen p <= 512 /\
    exists pre, hist = pre ++ radio_frame h.(type) p.

Lemma scanning_tracks s hist :
  length s.(buffer) = 512%nat -> Forall u8 s.(buffer) ->
  s.(stream_state) = MELODI_RADIO_SCAN_MAGIC0 -> stream_tracks s hist.
Proof. unfold stream_tracks. intros ? ? ->. auto. Qed.

Lemma feed_header_tracks s hist byte :
  stream_tracks s hist -> u8 byte -> s.(stream_state) = MELODI_RADIO_READ_HEADER ->
  let r := melodi_radio_stream_feed s byte in
  stream_tracks r.1 (hist ++ [byte]) /\ reports_frame r.2 (hist ++ [byte]).
Proof.
  intros (Hl & Hu & Hst) Hb Es. unfold melodi_radio_stream_feed. rewrite Es in Hst |- *.
  destruct Hst as [Ho [pre Hh]]. destruct (push_tracks s byte Hl) as (Ho' & Hl' & Ht); [lia|].
  assert (Forall u8 (push_byte s byte).(buffer)) as Hu' by (apply Forall_insert; auto).
  assert (hist ++ [byte] = pre ++ [MELODI_RADIO_MAGIC0; MELODI_RADIO_MAGIC1] ++
            take (Z.to_nat (offset s + 1)) (buffer (push_byte s byte))) as Hh'.
  { rewrite Ht, Hh, <- !app_assoc. reflexivity. }
  cbn zeta. rewrite Ho'. change (8 - 2) with 6. destruct (Z.ltb_spec (offset s + 1) 6).
  { cbn [fst snd]. split; [|intros ? ? [=]]. unfold stream_tracks. rewrite Hl', Ho'.
    change (stream_state (push_byte s byte)) with (stream_state s). rewrite Es.
    conj_split; eauto; lia. }
  assert (offset s + 1 = 6) as E6 by lia. rewrite E6 in Hh'. change (Z.to_nat 6) with 6%nat in Hh'.
  set (buf := buffer (push_byte s byte)) in *.
  rewrite bytes6 in Hh' by (auto; lia). rewrite !radio_get_u16 by auto with melodi.
  pose proof (get_be16_u16 (drop 2 buf) ltac:(auto with melodi)) as H16.
  cbn [version payload_length checksum].
  destruct (_ || _) eqn:Eg; cbn [fst snd]; [split; [now apply scanning_tracks|intros ? ? [=]]|].
  guard_hyps. rewrite H0 in Hh'. cbn [set_expected set_offset set_header expected].
  destruct (Z.eqb_spec (get_be16 (drop 2 buf)) 0) as [E0|]; cbn [fst snd].
  - destruct (Z.eqb_spec (get_be16 (drop 4 buf)) (melodi_radio_checksum [])) as [Ec|]; cbn [negb fst snd];
      (split; [now apply scanning_tracks|]); [|intros ? ? [=]].
    intros h b [= <- <-]. cbn [payload_length type]. rewrite E0, Ec. cbn [Z.to_nat take].
    conj_split; [unfold frame_header; now rewrite H0|vm_compute; discriminate|].
    exists pre. rewrite Hh', E0, Ec. unfold radio_frame. now rewrite app_nil_r.
  - split; [|intros ? ? [=]]. unfold stream_tracks.
    cbn [set_state set_expected set_offset set_header stream_state offset expected header buffer
         type payload_length checksum fst]. fold buf. unfold uint in H16.
    conj_split; auto; try lia; [now rewrite H0|]. exists pre. rewrite Hh'. now rewrite app_nil_r.
Qed.

Lemma feed_payload_tracks s hist byte :
  stream_tracks s hist -> u8 byte -> s.(stream_state) = MELODI_RADIO_READ_PAYLOAD ->
  let r := melodi_radio_stream_feed s byte in
  stream_tracks r.1 (hist ++ [byte]) /\ reports_frame r.2 (hist ++ [byte]).
Proof.
  intros (Hl & Hu & Hst) Hb Es. unfold melodi_radio_stream_feed. rewrite Es in Hst |- *.
  destruct Hst as (Ho & Hexp & Hhd & pre & Hh).
  destruct (push_tracks s byte Hl) as (Ho' & Hl' & Ht); [lia|].
  assert (Forall u8 (push_byte s byte).(buffer)) as Hu' by (apply Forall_insert; auto).
  assert (hist ++ [byte] = pre ++ [MELODI_RADIO_MAGIC0; MELODI_RADIO_MAGIC1; MELODI_RADIO_VERSION;
            s.(header).(type)] ++ be16 s.(expected) ++ be16 s.(header).(checksum) ++
            take (Z.to_nat (offset s + 1)) (buffer (push_byte s byte))) as Hh'.
  { rewrite Ht, Hh. now rewrite <- !app_assoc. }
  cbn zeta. rewrite Ho'. cbn [set_state expected header buffer].
  change (expected (push_byte s byte)) with (expected s) in *.
  change (header (push_byte s byte)) with (header s) in *.
  destruct (Z.ltb_spec (offset s + 1) (expected s)).
  { cbn [fst snd]. split; [|intros ? ? [=]]. unfold stream_tracks. rewrite Hl', Ho'.
    change (stream_state (push_byte s byte)) with (stream_state s). rewrite Es.
    conj_split; eauto; lia. }
  assert (offset s + 1 = expected s) as E6 by lia. rewrite E6 in Hh'.
  set (buf := buffer (push_byte s byte)) in *.
  destruct (Z.eqb_spec (checksum (header s))
    (melodi_radio_checksum (take (Z.to_nat (expected s)) buf))) as [Ec|]; cbn [negb fst snd];
    (split; [now apply scanning_tracks|]); [|intros ? ? [=]].
  intros h b [= <- <-]. assert (payload_length (header s) = expected s) as El by now rewrite Hhd.
  rewrite El. assert (zlen (take (Z.to_nat (expected s)) buf) = expected s) as Ez.
  { unfold zlen. rewrite length_take. lia. }
  cbn zeta. conj_split; [unfold frame_header; rewrite <- Ec, Ez; exact Hhd|lia|].
  exists pre. rewrite Hh'. unfold radio_frame. now rewrite Ez, <- Ec.
Qed.

(** One byte: the history grows by it. *)
Lemma feed_tracks s hist byte :
  stream_tracks s hist -> u8 byte ->
  let r := melodi_radio_stream_feed s byte in
  stream_tracks r.1 (hist ++ [byte]) /\ reports_frame r.2 (hist ++ [byte]).
Proof.
  intros HT Hb. destruct (stream_state s) eqn:Es;
    [| |now apply feed_header_tracks|now apply feed_payload_tracks];
    destruct HT as (Hl & Hu & Hst); unfold melodi_radio_stream_feed; rewrite Es in Hst |- *.
  - destruct (Z.eqb_spec byte MELODI_RADIO_MAGIC0) as [->|]; cbn; split; try (intros ? ? [=]);
      unfold stream_tracks; cbn; rewrite ?Es; eauto.
  - destruct (Z.eqb_spec byte MELODI_RADIO_MAGIC1) as [->|]; cbn [fst snd].
    { split; [|intros ? ? [=]]. unfold stream_tracks. cbn. conj_split; auto; try lia.
      destruct Hst as [pre ->]. exists pre. now rewrite <- app_assoc. }
    destruct (Z.eqb_spec byte MELODI_RADIO_MAGIC0) as [->|]; cbn; split; try (intros ? ? [=]);
      unfold stream_tracks; cbn; rewrite ?Es; eauto.
Qed.

(** ** Feeding a whole frame *)

(** While the header or the payload is incomplete, bytes are collected. *)
Definition collecting (s : melodi_radio_stream) (limit : Z) : Prop :=
  limit <= 512 /\
  match s.(stream_state) with
  | MELODI_RADIO_READ_HEADER => limit = 6
  | MELODI_RADIO_READ_PAYLOAD => limit = s.(expected)
  | _ => False
  end.

Lemma feed_collects q : forall s limit,
  collecting s limit -> 0 <= s.(offset) -> s.(offset) + zlen q < limit ->
  feed_all s q = (MkStream s.(stream_state) (s.(offset) + zlen q) s.(expected) s.(header)
                    (store (Z.to_nat s.(offset)) q s.(buffer)), []).
Proof.
  induction q as [|b q IH]; intros s limit Hc Ho Hlt.
  - cbn [feed_all]. unfold zlen. cbn [length]. rewrite Z.add_0_r. now destruct s.
  - assert (zlen (b :: q) = 1 + zlen q) as Ez by (unfold zlen; cbn [length]; lia).
    assert (0 <= zlen q) by (unfold zlen; lia).
    assert (melodi_radio_stream_feed s b = (push_byte s b, Ok None)) as Hf.
    { destruct Hc as [Hlim Hc]. unfold melodi_radio_stream_feed.
      destruct (stream_state s); try contradiction; subst limit; cbn [push_byte offset expected];
        rewrite wrap_id by (unfold uint; lia).
      - destruct (Z.ltb_spec (offset s + 1) (8 - 2)); [reflexivity|lia].
      - destruct (Z.ltb_spec (offset s + 1) (expected s)); [reflexivity|lia]. }
    assert ((push_byte s b).(offset) = s.(offset) + 1) as Ho'.
    { destruct Hc as [Hlim _]. cbn [push_byte offset]. apply wrap_id. unfold uint. lia. }
    cbn [feed_all]. rewrite Hf. cbn [fst snd event_of app].
    rewrite (IH (push_byte s b) limit) by (try exact Hc; lia). rewrite Ho'.
    cbn [fst snd push_byte stream_state expected header buffer].
    change (<[Z.to_nat (offset s) := b]> (buffer s)) with (store (Z.to_nat (offset s)) [b] (buffer s)).
    rewrite store_store by (cbn [length]; lia). cbn [app].
    replace (offset s + zlen (b :: q)) with (offset s + 1 + zlen q) by lia. reflexivity.
Qed.

Lemma store_6 (a b c d e f : Z) (buf : bytes) :
  length buf = 512%nat ->
  exists rest, store 0 [a; b; c; d; e; f] buf = [a; b; c; d; e; f] ++ rest.
Proof.
  intros Hl. exists (drop 6 buf). rewrite <- (app_nil_l buf) at 1.
  rewrite store_app_r by (cbn [length]; lia). reflexivity.
Qed.

(** The header fields read back from the first six bytes of the buffer. *)
Lemma header_fields ty n ck buf :
  length buf = 512%nat -> u16 n -> u16 ck ->
  let b := store 0 ([MELODI_RADIO_VERSION; ty] ++ be16 n ++ be16 ck) buf in
  byte_at 0 b = MELODI_RADIO_VERSION /\ byte_at 1 b = ty /\
  melodi_radio_get_u16 (drop 2 b) = n /\ melodi_radio_get_u16 (drop 4 b) = ck.
Proof.
  intros Hl Hn Hck. cbn zeta.
  destruct (store_6 MELODI_RADIO_VERSION ty (wrap 8 (Z.shiftr n 8)) (wrap 8 n)
              (wrap 8 (Z.shiftr ck 8)) (wrap 8 ck) buf Hl) as [rest Er].
  change ([MELODI_RADIO_VERSION; ty] ++ be16 n ++ be16 ck) with
    [MELODI_RADIO_VERSION; ty; wrap 8 (Z.shiftr n 8); wrap 8 n; wrap 8 (Z.shiftr ck 8); wrap 8 ck].
  rewrite Er.
  assert (forall v l, u16 v -> melodi_radio_get_u16 (be16 v ++ l) = v) as Hget.
  { intros v l Hv. unfold melodi_radio_get_u16. fold (get_be16 (be16 v ++ l)).
    rewrite get_be16_be16 by auto. now apply wrap_id. }
  conj_split; [reflexivity|reflexivity| |].
  - exact (Hget n (be16 ck ++ rest) Hn).
  - exact (Hget ck rest Hck).
Qed.

(** Eight header bytes, from a framer that scans. *)
Lemma feed_header s ty n ck :
  length s.(buffer) = 512%nat -> s.(stream_state) = MELODI_RADIO_SCAN_MAGIC0 ->
  u16 n -> n <= 512 -> u16 ck ->
  let h := MkHeader MELODI_RADIO_MAGIC0 MELODI_RADIO_MAGIC1 MELODI_RADIO_VERSION ty n ck in
  let buf := store 0 ([MELODI_RADIO_VERSION; ty] ++ be16 n ++ be16 ck) s.(buffer) in
  feed_all s ([MELODI_RADIO_MAGIC0; MELODI_RADIO_MAGIC1; MELODI_RADIO_VERSION; ty] ++
              be16 n ++ be16 ck) =
  if n =? 0
  then (MkStream MELODI_RADIO_SCAN_MAGIC0 0 0 h buf,
        if ck =? melodi_radio_checksum [] then [Frame h []] else [Fault EBADMSG])
  else (MkStream MELODI_RADIO_READ_PAYLOAD 0 n h buf, []).
Proof.
  intros Hl Hs Hn Hmax Hck. cbn zeta.
  destruct (header_fields ty n ck (buffer s) Hl Hn Hck) as (Hv & Ht & Gn & Gc).
  set (s2 := MkStream MELODI_RADIO_READ_HEADER 0 (expected s) (header s) (buffer s)).
  assert (feed_all s [MELODI_RADIO_MAGIC0; MELODI_RADIO_MAGIC1] = (s2, [])) as E2.
  { destruct s. cbn in Hs. subst. reflexivity. }
  set (q := [MELODI_RADIO_VERSION; ty] ++ be16 n ++ [wrap 8 (Z.shiftr ck 8)]).
  change ([MELODI_RADIO_MAGIC0; MELODI_RADIO_MAGIC1; MELODI_RADIO_VERSION; ty] ++ be16 n ++ be16 ck)
    with ([MELODI_RADIO_MAGIC0; MELODI_RADIO_MAGIC1] ++ q ++ [wrap 8 ck]).
  rewrite feed_all_app, E2. cbn [fst snd]. rewrite feed_all_app.
  rewrite (feed_collects q s2 6) by (cbn; try split; unfold zlen; cbn; lia).
  cbn [fst snd app feed_all]. unfold melodi_radio_stream_feed. cbn [stream_state s2].
  set (s7 := MkStream _ _ _ _ _). change (8 - 2) with 6.
  set (buf := store 0 _ _) in *.
  assert ((push_byte s7 (wrap 8 ck)).(buffer) = buf) as Eb.
  { unfold buf. apply (store_store 0 5 q [wrap 8 ck] (buffer s)). reflexivity. }
  rewrite !Eb, Hv, Ht, Gn, Gc. change (offset (push_byte s7 (wrap 8 ck))) with 6.
  change (6 <? 6) with false. cbv iota.
  cbn [version payload_length checksum]. destruct (Z.ltb_spec 512 n); [lia|]. cbn [negb orb Z.eqb Pos.eqb].
  unfold set_offset, set_header, set_expected, set_state.
  cbn [expected stream_state header buffer offset]. rewrite !Eb.
  destruct (Z.eqb_spec n 0) as [->|]; [|reflexivity].
  now destruct (ck =? melodi_radio_checksum []).
Qed.

(** The payload bytes, from a framer that has read the header. *)
Lemma feed_payload s p :
  length s.(buffer) = 512%nat -> s.(stream_state) = MELODI_RADIO_READ_PAYLOAD ->
  s.(offset) = 0 -> s.(expected) = zlen p -> s.(header).(payload_length) = zlen p ->
  0 < zlen p <= 512 ->
  feed_all s p =
  (MkStream MELODI_RADIO_SCAN_MAGIC0 (zlen p) (zlen p) s.(header) (store 0 p s.(buffer)),
   if s.(header).(checksum) =? melodi_radio_checksum p then [Frame s.(header) p] else [Fault EBADMSG]).
Proof.
  intros Hl Hs Ho He Hh Hp.
  assert (exists q b, p = q ++ [b]) as (q & b & ->).
  { destruct p as [|x p _] using rev_ind; [unfold zlen in Hp; cbn in Hp; lia|eauto]. }
  set (p := q ++ [b]) in *. assert (zlen p = zlen q + 1) as Ez.
  { unfold p, zlen. rewrite length_app. cbn [length]. lia. }
  unfold p at 1. rewrite feed_all_app.
  rewrite (feed_collects q s (zlen p)) by (unfold collecting; rewrite ?Hs; auto; lia).
  cbn [fst snd app feed_all]. unfold melodi_radio_stream_feed. cbn [stream_state]. rewrite Hs, Ho.
  set (s7 := MkStream _ _ _ _ _).
  assert ((push_byte s7 b).(buffer) = store 0 p s.(buffer)) as Eb.
  { cbn [push_byte buffer s7 offset]. rewrite Z.add_0_l. apply (store_store 0 _ q [b]).
    unfold zlen. cbn [Nat.add]. lia. }
  assert ((push_byte s7 b).(offset) = zlen p) as Eo.
  { cbn [push_byte offset s7]. rewrite wrap_id by (unfold uint; unfold zlen in *; lia). lia. }
  rewrite Eo. cbn [set_state buffer expected header]. rewrite Eb.
  change (expected (push_byte s7 b)) with (expected s). change (header (push_byte s7 b)) with (header s).
  rewrite He. destruct (Z.ltb_spec (zlen p) (zlen p)); [lia|].
  assert (take (Z.to_nat (zlen p)) (store 0 p (buffer s)) = p) as Et.
  { unfold zlen. rewrite Nat2Z.id.
    pose proof (load_store_eq 0 (length p) p (buffer s) eq_refl) as HL. unfold load in HL.
    rewrite drop_0 in HL. apply HL. unfold zlen in *. lia. }
  rewrite Et. unfold set_state. cbn [fst snd offset expected header buffer].
  destruct (checksum (header s) =? melodi_radio_checksum p); cbn [negb fst snd event_of app];
    rewrite ?Hh, ?Et, Eo, Eb; cbn; rewrite ?He; reflexivity.
Qed.

(** A framer between frames. *)
Definition idle (s : melodi_radio_stream) : Prop :=
  length s.(buffer) = 512%nat /\ s.(stream_state) = MELODI_RADIO_SCAN_MAGIC0.

Lemma idle_init : idle melodi_radio_stream_init.
Proof. split; reflexivity. Qed.

(** A whole frame with any checksum field. *)
Lemma feed_frame s ty ck p :
  idle s -> u16 ck -> zlen p <= 512 ->
  let h := MkHeader MELODI_RADIO_MAGIC0 MELODI_RADIO_MAGIC1 MELODI_RADIO_VERSION ty (zlen p) ck in
  let r := feed_all s ([MELODI_RADIO_MAGIC0; MELODI_RADIO_MAGIC1; MELODI_RADIO_VERSION; ty] ++
                       be16 (zlen p) ++ be16 ck ++ p) in
  idle r.1 /\ r.2 = if ck =? melodi_radio_checksum p then [Frame h p] else [Fault EBADMSG].
Proof.
  intros [Hl Hs] Hck Hp. cbn zeta. assert (u16 (zlen p)) as H16 by (unfold uint, zlen in *; lia).
  rewrite (app_assoc (be16 _)), (app_assoc [_; _; _; _]), feed_all_app.
  rewrite (feed_header s ty (zlen p) ck Hl Hs H16 Hp Hck).
  destruct (Z.eqb_spec (zlen p) 0) as [E|E].
  - assert (p = []) as -> by (destruct p; [reflexivity|unfold zlen in E; cbn in E; lia]).
    change (zlen []) with 0. cbn [feed_all fst snd app].
    split; [split; [cbn [buffer]; now rewrite length_store|reflexivity]|].
    now destruct (ck =? melodi_radio_checksum []).
  - rewrite feed_payload by (cbn; rewrite ?length_store; auto; unfold zlen in *; lia).
    cbn [fst snd app header buffer checksum]. split; [split|reflexivity]; [|reflexivity].
    cbn [buffer]. now rewrite !length_store.
Qed.

Lemma feed_radio_frame s ty p :
  idle s -> zlen p <= 512 ->
  exists s', feed_all s (radio_frame ty p) = (s', [Frame (frame_header ty p) p]) /\ idle s'.
Proof.
  intros Hs Hp. pose proof (feed_frame s ty (melodi_radio_checksum p) p Hs (checksum_u16 p) Hp) as H.
  unfold radio_frame. cbn zeta in H. rewrite Z.eqb_refl in H.
  destruct (feed_all s _) as [s' ev]. cbn [fst snd] in H. destruct H as [Hi ->].
  exists s'. split; [reflexivity|exact Hi].
Qed.

Lemma feed_all_chunk s a b s' ev :
  feed_all s a = (s', ev) ->
  feed_all s (a ++ b) = ((feed_all s' b).1, ev ++ (feed_all s' b).2).
Proof. intros H. now rewrite feed_all_app, H. Qed.

Lemma feed_noise noise : forall s,
  s.(stream_state) = MELODI_RADIO_SCAN_MAGIC0 -> Forall (fun b => b <> MELODI_RADIO_MAGIC0) noise ->
  feed_all s noise = (s, []).
Proof.
  intros s Hs Hn. induction Hn as [|b noise Hb Hn IH]; [reflexivity|]. cbn [feed_all].
  assert (melodi_radio_stream_feed s b = (s, Ok None)) as ->.
  { unfold melodi_radio_stream_feed. rewrite Hs. now rewrite (proj2 (Z.eqb_neq _ _) Hb). }
  cbn [fst snd event_of app]. now rewrite IH.
Qed.

Lemma feed_all_tracks bs : forall s hist,
  stream_tracks s hist -> Forall u8 bs -> stream_tracks (feed_all s bs).1 (hist ++ bs).
Proof.
  induction bs as [|b bs IH]; intros s hist HT Hu; [now rewrite app_nil_r|].
  apply Forall_cons_iff in Hu as [Hb Hu]. cbn [feed_all fst].
  replace (hist ++ b :: bs) with ((hist ++ [b]) ++ bs) by now rewrite <- app_assoc.
  apply IH; auto. now apply feed_tracks.
Qed.

Lemma init_tracks : stream_tracks melodi_radio_stream_init [].
Proof.
  apply scanning_tracks; [reflexivity| |reflexivity]. apply (Forall_replicate u8 512). unfold uint. lia.
Qed.

(** Changing one byte changes the checksum. *)
Lemma checksum_change p i x y :
  Forall u8 p -> zlen p <= 512 -> p !! i = Some x -> u8 y -> x <> y ->
  melodi_radio_checksum (<[i := y]> p) <> melodi_radio_checksum p.
Proof.
  intros Hp Hl Hi Hy Hne.
  assert (u8 x) as Hx by (rewrite list.Forall_forall in Hp; apply Hp; eapply list_elem_of_lookup_2; eauto).
  assert (Forall u8 (<[i := y]> p)) by now apply Forall_insert.
  rewrite !checksum_val by (auto; unfold zlen in *; rewrite ?length_insert; auto).
  rewrite (sumZ_insert p i x y Hi). pose proof (sumZ_bytes p Hp) as Hs.
  pose proof (sumZ_bytes (<[i := y]> p) H) as Hs'. rewrite (sumZ_insert p i x y Hi) in Hs'.
  unfold uint in Hx, Hy. change (2 ^ 8) with 256 in *.
  destruct (Z.ltb_spec (sumZ p) 65536), (Z.ltb_spec (sumZ p - x + y) 65536); lia.
Qed.

(** ** Payload layouts

    Each encoder writes its payload field by field; the layout says which
    bytes, and the decoder reads the fields back. *)

Definition wf_configure (c : melodi_radio_configure) : Prop :=
  wf_bytes 32 c.(domain) /\ u32 c.(locator) /\ u32 c.(frequency_hz) /\ u16 c.(bandwidth_khz) /\
  u8 c.(spreading_factor) /\ u8 c.(coding_rate) /\ s16 c.(transmit_power_dbm) /\
  u16 c.(duty_permille).

Definition wf_status (s : melodi_radio_status) : Prop :=
  u32 s.(status_locator) /\ u16 s.(queue_free) /\ u16 s.(status_queue_depth) /\
  u8 s.(state) /\ u8 s.(fault) /\ u8 s.(modem_status).

Definition wf_result (r : melodi_radio_result_report) : Prop :=
  u32 r.(result_cookie) /\ u32 r.(duration_us) /\ u8 r.(result_code).

Definition wf_transmit (t : melodi_radio_transmit) : Prop :=
  u32 t.(cookie) /\ u32 t.(destination) /\ Forall u8 t.(payload).

Definition wf_receive (r : melodi_radio_receive) : Prop :=
  u32 r.(source) /\ u32 r.(receive_destination) /\ s16 r.(rssi) /\ s16 r.(snr) /\
  u8 r.(hops) /\ Forall u8 r.(receive_payload).

Definition wf_segment (s : melodi_radio_segment) : Prop :=
  u32 s.(frame_id) /\ u16 s.(total_length) /\ u16 s.(index) /\ u16 s.(count) /\
  Forall u8 s.(segment_payload).

Definition configure_layout (c : melodi_radio_configure) : list chunk :=
  [ Chunk 0 32 c.(domain); Chunk 32 4 (be32 c.(locator)); Chunk 36 4 (be32 c.(frequency_hz));
    Chunk 40 2 (be16 c.(bandwidth_khz)); Chunk 42 1 [wrap 8 c.(spreading_factor)];
    Chunk 43 1 [wrap 8 c.(coding_rate)];
    Chunk 44 2 (be16 (to_unsigned 16 c.(transmit_power_dbm)));
    Chunk 46 2 (be16 c.(duty_permille)) ].

Definition status_layout (s : melodi_radio_status) : list chunk :=
  [ Chunk 0 4 (be32 s.(status_locator)); Chunk 4 2 (be16 s.(queue_free));
    Chunk 6 2 (be16 s.(status_queue_depth)); Chunk 8 1 [wrap 8 s.(state)];
    Chunk 9 1 [wrap 8 s.(fault)]; Chunk 10 1 [wrap 8 s.(modem_status)] ].

Definition result_layout (r : melodi_radio_result_report) : list chunk :=
  [ Chunk 0 4 (be32 r.(result_cookie)); Chunk 4 4 (be32 r.(duration_us));
    Chunk 8 1 [wrap 8 r.(result_code)]; Chunk 9 1 [wrap 8 0] ].

Definition transmit_layout (t : melodi_radio_transmit) : list chunk :=
  [ Chunk 0 4 (be32 t.(cookie)); Chunk 4 4 (be32 t.(destination));
    Chunk 8 2 (be16 (zlen t.(payload))); Chunk 10 (length t.(payload)) t.(payload) ].

Definition receive_layout (r : melodi_radio_receive) : list chunk :=
  [ Chunk 0 4 (be32 r.(source)); Chunk 4 4 (be32 r.(receive_destination));
    Chunk 8 2 (be16 (to_unsigned 16 r.(rssi))); Chunk 10 2 (be16 (to_unsigned 16 r.(snr)));
    Chunk 12 1 [wrap 8 r.(hops)]; Chunk 13 1 [wrap 8 0];
    Chunk 14 2 (be16 (zlen r.(receive_payload)));
    Chunk 16 (length r.(receive_payload)) r.(receive_payload) ].

Definition segment_layout (s : melodi_radio_segment) : list chunk :=
  [ Chunk 0 4 (be32 s.(frame_id)); Chunk 4 2 (be16 s.(total_length));
    Chunk 6 2 (be16 s.(index)); Chunk 8 2 (be16 s.(count)); Chunk 10 2 (be16 0);
    Chunk 12 (length s.(segment_payload)) s.(segment_payload) ].

Lemma layout_bytes_u8 l : Forall (fun c => Forall u8 c.(c_data)) l -> Forall u8 (layout_bytes l).
Proof.
  unfold layout_bytes. induction 1; cbn [map concat]; [constructor|]. now apply Forall_app.
Qed.

Lemma to_unsigned_u16 x : u16 (to_unsigned 16 x).
Proof. apply wrap_uint. lia. Qed.

(** A payload that is exactly the bytes of a layout: its length, and its fields. *)
Lemma layout_payload l n :
  contiguous 0 l = Some n -> sized l -> Forall (fun c => Forall u8 c.(c_data)) l ->
  length (layout_bytes l) = n /\ matches (layout_bytes l) l /\ Forall u8 (layout_bytes l).
Proof.
  intros Hc Hs Hu. conj_split.
  - pose proof (layout_bytes_length 0 l n Hc Hs). lia.
  - rewrite <- (app_nil_r (layout_bytes l)). now apply matches_layout with n.
  - now apply layout_bytes_u8.
Qed.

(** Bytes of every chunk of a well-formed message. *)
Ltac chunk_u8 :=
  cbn [c_data];
  lazymatch goal with
  | |- Forall u8 (be32 _) => apply be32_u8
  | |- Forall u8 (be16 _) => apply be16_u8
  | |- Forall u8 [wrap 8 _] => apply Forall_singleton, wrap_uint; lia
  | H : wf_bytes _ ?x |- Forall u8 ?x => exact (proj2 H)
  | |- _ => assumption
  end.
Ltac chunks_u8 := repeat (apply Forall_cons_2; [chunk_u8|]); apply Forall_nil_2.

Ltac chunks_sized :=
  cbn [sized c_data c_len]; conj_split;
  first [exact I | reflexivity
        | match goal with H : wf_bytes _ ?x |- length ?x = _ => exact (proj1 H) end].

Ltac radio_reads b Hu :=
  rewrite ?(radio_get_u32_0 b Hu), ?(radio_get_u32 _ (Forall_drop _ _ b Hu)),
          ?(radio_get_u16 _ (Forall_drop _ _ b Hu)).

(** Replaces the encoded payload with layout [f m] of [n] bytes by a variable
    [b] with its length and its fields. *)
Ltac open_payload f m n b :=
  let Hl := fresh "Hlen" in let Hm := fresh "Hm" in let Hu := fresh "Hu" in
  destruct (layout_payload (f m) n) as (Hl & Hm & Hu);
  [reflexivity|unfold f; chunks_sized|unfold f; chunks_u8|];
  set (b := layout_bytes (f m)) in *; clearbody b;
  unfold f in Hm; cbn [matches c_off c_len c_data] in Hm; split_hyps; radio_reads b Hu; fields_in;
  unfold zlen; rewrite Hl.

Lemma configure_payload c :
  wf_configure c -> configure_bad c = false ->
  melodi_radio_decode_configure (layout_bytes (configure_layout c)) = Ok c.
Proof.
  intros (Hd & Hloc & Hf & Hb & Hsf & Hcr & Hp & Hdu) Hok.
  pose proof (to_unsigned_u16 (transmit_power_dbm c)).
  unfold melodi_radio_decode_configure. open_payload configure_layout c 48%nat b.
  change (negb (Z.of_nat 48 =? 48)) with false. cbv iota. fields_subst.
  rewrite to_signed_unsigned by (auto; lia). destruct c; cbn in *. now rewrite Hok.
Qed.

Lemma status_payload s :
  wf_status s -> status_bad s = false ->
  melodi_radio_decode_status (layout_bytes (status_layout s)) = Ok s.
Proof.
  intros (Hl & Hf & Hd & Hs & Hfa & Hm) Hok.
  unfold melodi_radio_decode_status. open_payload status_layout s 11%nat b.
  change (negb (Z.of_nat 11 =? 11)) with false. cbv iota. fields_subst. destruct s; cbn in *. now rewrite Hok.
Qed.

Lemma result_payload r :
  wf_result r -> r.(result_cookie) <> 0 -> r.(result_code) <= 5 ->
  melodi_radio_decode_result (layout_bytes (result_layout r)) = Ok r.
Proof.
  intros (Hc & Hd & Hr) H0 H5. unfold melodi_radio_decode_result.
  open_payload result_layout r 10%nat b. change (negb (Z.of_nat 10 =? 10)) with false. cbv iota.
  fields_subst. destruct r; cbn in *. pass_guard. reflexivity.
Qed.

(** The variable part of a payload, after [off] fixed bytes. *)
Lemma field_rest off (b p : bytes) :
  load off (length p) b = p -> length b = (off + length p)%nat -> drop off b = p.
Proof. intros H Hl. rewrite <- H. unfold load. rewrite take_ge; [reflexivity|]. rewrite length_drop. lia. Qed.

Lemma transmit_payload t :
  wf_transmit t -> t.(cookie) <> 0 -> t.(destination) <> 0 -> 0 < zlen t.(payload) <= 240 ->
  melodi_radio_decode_transmit (layout_bytes (transmit_layout t)) = Ok t.
Proof.
  intros (Hc & Hd & Hp) H0 H1 Hl. unfold melodi_radio_decode_transmit.
  assert (u16 (zlen (payload t))) by (unfold uint, zlen in *; lia).
  open_payload transmit_layout t (10 + length (payload t))%nat b. fields_subst.
  unfold zlen in *. do 2 pass_guard. rewrite Nat2Z.id. fields_subst. now destruct t.
Qed.

Lemma receive_payload_ok r :
  wf_receive r -> r.(source) <> 0 -> r.(receive_destination) <> 0 ->
  0 < zlen r.(receive_payload) <= 240 ->
  melodi_radio_decode_receive (layout_bytes (receive_layout r)) = Ok r.
Proof.
  intros (Hs & Hd & Hr & Hn & Hh & Hp) H0 H1 Hl. unfold melodi_radio_decode_receive.
  assert (u16 (zlen (receive_payload r))) by (unfold uint, zlen in *; lia).
  pose proof (to_unsigned_u16 (rssi r)). pose proof (to_unsigned_u16 (snr r)).
  open_payload receive_layout r (16 + length (receive_payload r))%nat b. fields_subst.
  unfold zlen in *. do 2 pass_guard. rewrite Nat2Z.id. fields_subst.
  rewrite !to_signed_unsigned by (auto; lia). now destruct r.
Qed.

Definition segment_bad (s : melodi_radio_segment) : bool :=
  (s.(frame_id) =? 0) || (s.(count) =? 0) || (MELODI_RADIO_SEGMENT_LIMIT <? s.(count)) ||
  (s.(count) <=? s.(index)) || (s.(total_length) =? 0) ||
  (MELODI_RADIO_FRAME_MAX <? s.(total_length)).

Lemma segment_payload_ok s :
  wf_segment s -> segment_bad s = false -> 0 < zlen s.(segment_payload) <= 228 ->
  melodi_radio_segment_decode (layout_bytes (segment_layout s)) = Ok s.
Proof.
  intros (Hf & Ht & Hi & Hc & Hp) Hok Hl. unfold melodi_radio_segment_decode.
  open_payload segment_layout s (12 + length (segment_payload s))%nat b.
  rewrite (field_rest 12 b (segment_payload s)) by auto. fields_subst.
  unfold zlen in *. pass_guard. fold (segment_bad {| frame_id := frame_id s;
    total_length := total_length s; index := index s; count := count s;
    segment_payload := segment_payload s |}). destruct s; cbn in *. now rewrite Hok.
Qed.

(** ** Text fields *)

(** A printable string in its zero-padded array of 32. *)
Definition printable (c : Z) : bool := (0x20 <=? c) && (c <=? 0x7e).
Definition text_of (p : bytes) : bytes := p ++ replicate (32 - length p) 0.
Definition wf_text (t : bytes) : Prop :=
  exists p, Forall (fun c => printable c = true) p /\ (length p <= 31)%nat /\ t = text_of p.

Lemma store_overwrite o (a : bytes) (x y : Z) (c buf : bytes) :
  store (o + length a) [x] (store o (a ++ y :: c) buf) = store o (a ++ x :: c) buf.
Proof.
  rewrite <- !(store_store o (o + length a)) by reflexivity. unfold store. cbn [list_inserts].
  apply list_insert_insert_eq.
Qed.

Lemma text_of_char done x q :
  byte_at (length done) (text_of (done ++ x :: q)) = x.
Proof.
  unfold text_of, byte_at. rewrite <- app_assoc, app_nth2, Nat.sub_diag by lia. reflexivity.
Qed.

Lemma text_of_end p : (length p <= 31)%nat -> byte_at (length p) (text_of p) = 0.
Proof.
  intros H. unfold text_of, byte_at. rewrite app_nth2, Nat.sub_diag by lia.
  replace (32 - length p)%nat with (S (31 - length p)) by lia. reflexivity.
Qed.

Lemma printable_nonzero c : printable c = true -> (c =? 0) = false /\ (c <? 0x20) || (0x7e <? c) = false /\ u8 c.
Proof. unfold printable, uint. change (2 ^ 8) with 256. lia. Qed.

(** Writing the next character of a partly written text. *)
Lemma text_step (done : bytes) (x : Z) :
  (length done <= 31)%nat ->
  done ++ x :: replicate (31 - length done) 0 = (done ++ [x]) ++ replicate (32 - length (done ++ [x])) 0.
Proof. intros H. rewrite <- app_assoc, length_app. cbn. do 3 f_equal. lia. Qed.

Lemma put_text_loop_ok off out q : forall done n,
  Forall (fun c => printable c = true) q -> (length (done ++ q) <= 31)%nat ->
  (n + length done = 31)%nat ->
  put_text_loop n (length done) off (text_of (done ++ q)) (store off (text_of done) out)
  = store off (text_of (done ++ q)) out.
Proof.
  induction q as [|x q IH]; intros done n Hq Hl Hn.
  - rewrite app_nil_r in *. destruct n; [reflexivity|]. cbn [put_text_loop].
    now rewrite text_of_end by lia.
  - apply Forall_cons_iff in Hq as [Hx Hq]. apply printable_nonzero in Hx as (Hx0 & _ & Hx8).
    rewrite length_app in Hl. cbn [length] in Hl. destruct n as [|n]; [lia|].
    cbn [put_text_loop]. rewrite text_of_char, Hx0. unfold put8. rewrite wrap_id by auto.
    unfold text_of at 2. replace (32 - length done)%nat with (S (31 - length done)) by lia.
    cbn [replicate]. rewrite store_overwrite, text_step by lia. fold (text_of (done ++ [x])).
    replace (S (length done)) with (length (done ++ [x])) by (rewrite length_app; cbn; lia).
    replace (done ++ x :: q) with ((done ++ [x]) ++ q) by now rewrite <- app_assoc.
    apply IH; auto; rewrite ?length_app; cbn [length]; lia.
Qed.

Lemma get_text_loop_ok rest q : forall done n,
  Forall (fun c => printable c = true) q -> (length (done ++ q) <= 31)%nat ->
  (n + length done = 31)%nat ->
  get_text_loop n (length done) (text_of (done ++ q) ++ rest) (text_of done) = Ok (text_of (done ++ q)).
Proof.
  assert (forall p, (length p <= 31)%nat -> <[length p := 0]> (text_of p) = text_of p) as Hend.
  { intros p Hp. unfold text_of. replace (32 - length p)%nat with (S (31 - length p)) by lia.
    cbn [replicate]. rewrite insert_app_r_alt, Nat.sub_diag by lia. reflexivity. }
  assert (forall p i, (i < 32)%nat -> (length p <= 31)%nat ->
    byte_at i (text_of p ++ rest) = byte_at i (text_of p)) as Happ.
  { intros p i Hi Hp. unfold byte_at, text_of. rewrite app_nth1; [reflexivity|].
    rewrite length_app, length_replicate. lia. }
  induction q as [|x q IH]; intros done n Hq Hl Hn.
  - rewrite app_nil_r in *. destruct n; cbn [get_text_loop]; [now rewrite Hend|].
    rewrite Happ, text_of_end by lia. cbn [Z.eqb]. now rewrite Hend.
  - apply Forall_cons_iff in Hq as [Hx Hq]. apply printable_nonzero in Hx as (Hx0 & Hxp & Hx8).
    rewrite length_app in Hl. cbn [length] in Hl. destruct n as [|n]; [lia|].
    cbn [get_text_loop]. rewrite Happ, text_of_char, Hx0, Hxp by (rewrite ?length_app; cbn [length]; lia).
    assert (<[length done := x]> (text_of done) = text_of (done ++ [x])) as ->.
    { unfold text_of. rewrite <- text_step by lia.
      replace (32 - length done)%nat with (S (31 - length done)) by lia. cbn [replicate].
      rewrite insert_app_r_alt, Nat.sub_diag by lia. reflexivity. }
    replace (S (length done)) with (length (done ++ [x])) by (rewrite length_app; cbn; lia).
    replace (done ++ x :: q) with ((done ++ [x]) ++ q) by now rewrite <- app_assoc.
    apply IH; auto; rewrite ?length_app; cbn [length]; lia.
Qed.

Lemma put_text_ok off t out : wf_text t -> melodi_radio_put_text off t 32 out = store off t out.
Proof. intros (p & Hp & Hl & ->). apply (put_text_loop_ok off out p [] 31); auto. Qed.

Lemma get_text_ok t rest :
  wf_text t -> melodi_radio_get_text (replicate 32 0) (t ++ rest) 32 = Ok t.
Proof. intros (p & Hp & Hl & ->). apply (get_text_loop_ok rest p [] 31); auto. Qed.

Lemma wf_text_bytes t : wf_text t -> wf_bytes 32 t.
Proof.
  intros (p & Hp & Hl & ->). unfold text_of. split.
  - rewrite length_app, length_replicate. lia.
  - apply Forall_app. split; [|apply (Forall_replicate u8); unfold uint; lia].
    eapply list.Forall_impl; [exact Hp|]. intros c Hc. now apply printable_nonzero.
Qed.

Definition wf_info (i : melodi_radio_info) : Prop :=
  wf_text i.(firmware) /\ wf_text i.(hardware) /\ u32 i.(abi_version) /\ u16 i.(packet_mtu) /\
  u16 i.(queue_depth).

Definition info_layout (i : melodi_radio_info) : list chunk :=
  [ Chunk 0 4 (be32 i.(abi_version)); Chunk 4 2 (be16 i.(packet_mtu));
    Chunk 6 2 (be16 i.(queue_depth)); Chunk 8 32 i.(firmware); Chunk 40 32 i.(hardware) ].

Lemma info_payload i :
  wf_info i -> 0 < i.(packet_mtu) <= 240 -> i.(queue_depth) <> 0 ->
  melodi_radio_decode_info (layout_bytes (info_layout i)) = Ok i.
Proof.
  intros (Hf & Hh & Ha & Hm & Hq) H0 H1. unfold melodi_radio_decode_info.
  pose proof (wf_text_bytes _ Hf). pose proof (wf_text_bytes _ Hh).
  open_payload info_layout i 72%nat b. change (negb (Z.of_nat 72 =? 72)) with false. cbv iota.
  assert (forall o t, load o 32 b = t -> drop o b = t ++ drop 32 (drop o b)) as Hsplit.
  { intros o t <-. symmetry. apply take_drop. }
  rewrite (Hsplit 8%nat (firmware i)), get_text_ok by auto. cbn [mbind result_bind].
  rewrite (Hsplit 40%nat (hardware i)), get_text_ok by auto. cbn [mbind result_bind].
  fields_subst. pass_guard. now destruct i.
Qed.

(** ** Messages

    What the framer relies on of a message type: its encoder checks the message
    and frames the bytes of a payload that depends on the message alone, and
    its decoder reads that payload back. *)
Class Message (M : Type) := {
  msg_type : Z;
  msg_stack : nat;
  msg_wf : M -> Prop;
  msg_valid : M -> bool;
  msg_size : M -> Z;
  msg_encode : bytes -> M -> bytes -> result (bytes * Z);
  msg_decode : bytes -> result M;
  msg_layout : M -> list chunk;
  msg_type_u8 : u8 msg_type;
  msg_length m : msg_wf m -> msg_valid m = true ->
    zlen (layout_bytes (msg_layout m)) = msg_size m /\ msg_size m <= 512;
  msg_encode_eq stack m out : msg_wf m -> length stack = msg_stack ->
    msg_encode stack m out =
      if msg_valid m then melodi_radio_stream_encode msg_type (layout_bytes (msg_layout m)) out
      else Err EINVAL;
  msg_decode_payload m : msg_wf m -> msg_valid m = true ->
    msg_decode (layout_bytes (msg_layout m)) = Ok m;
}.

(** End-to-end behaviour of an encoder and its decoder: an invalid message is
    refused, a short buffer is refused, and otherwise the bytes written, fed to
    any framer between frames, report one frame of the right type whose payload
    decodes to the message.  Nothing of the encoder's uninitialised local array
    reaches the frame. *)
Definition delivers {M} (encode : bytes -> M -> bytes -> result (bytes * Z))
    (decode : bytes -> result M) (ty : Z) (stack_size : nat) (wf : M -> Prop)
    (valid : M -> bool) (size : M -> Z) : Prop :=
  forall stack m out s, wf m -> length stack = stack_size -> idle s ->
    if negb (valid m) then encode stack m out = Err EINVAL
    else if zlen out <? 8 + size m then encode stack m out = Err ENOSPC
    else exists b h p, encode stack m out = Ok (b, 8 + size m) /\
           idle (feed_all s (take (Z.to_nat (8 + size m)) b)).1 /\
           (feed_all s (take (Z.to_nat (8 + size m)) b)).2 = [Frame h p] /\
           h.(type) = ty /\ decode p = Ok m /\
           take (Z.to_nat (8 + size m)) b = radio_frame ty p.

Lemma message_delivers `{Message M} :
  delivers msg_encode msg_decode msg_type msg_stack msg_wf msg_valid msg_size.
Proof.
  intros stack m out s Hw Hst Hidle. rewrite (msg_encode_eq stack m out Hw Hst).
  destruct (msg_valid m) eqn:Ev; cbn [negb]; [|reflexivity].
  destruct (msg_length m Hw Ev) as [Hlen Hmax]. set (p := layout_bytes (msg_layout m)) in *.
  destruct (melodi_radio_stream_encode msg_type p out) as [[b n]|e] eqn:Ee.
  - destruct (stream_encode_frame msg_type p out b n msg_type_u8 Ee) as (-> & Hp & Hb & Hbl).
    rewrite Hlen in *. destruct (Z.ltb_spec (zlen out) (8 + msg_size m)) as [Hsmall|].
    { unfold melodi_radio_stream_encode in Ee. guards_in Ee. guard_hyps. lia. }
    destruct (feed_frame s msg_type (melodi_radio_checksum p) p Hidle (checksum_u16 p)) as [Hi He]; [lia|].
    exists b, (frame_header msg_type p), p. rewrite Hb. unfold radio_frame.
    rewrite Z.eqb_refl in He. conj_split; auto. now apply msg_decode_payload.
  - unfold melodi_radio_stream_encode in Ee. rewrite Hlen in Ee.
    destruct (Z.ltb_spec 512 (msg_size m)); [lia|].
    destruct (_ <? _); [|discriminate]. now injection Ee as <-.
Qed.

(** The local array after all its fields are written is the layout. *)
Lemma stores_stack l n stack :
  contiguous 0 l = Some n -> sized l -> length stack = n -> stores l stack = layout_bytes l.
Proof. intros Hc Hs Hl. now apply stores_frame with n. Qed.

Lemma take_stores_stack l n stack :
  contiguous 0 l = Some n -> sized l -> (n <= length stack)%nat ->
  take n (stores l stack) = layout_bytes l.
Proof.
  intros Hc Hs Hl. rewrite (stores_layout l n) by auto.
  pose proof (layout_bytes_length 0 l n Hc Hs) as Hn. rewrite Nat.add_0_r in Hn. rewrite <- Hn.
  apply take_app_length.
Qed.

Lemma layout_zlen l n : contiguous 0 l = Some n -> sized l -> zlen (layout_bytes l) = Z.of_nat n.
Proof. intros Hc Hs. pose proof (layout_bytes_length 0 l n Hc Hs). unfold zlen. lia. Qed.

Lemma configure_sized c : wf_configure c -> sized (configure_layout c).
Proof. intros (? & _). unfold configure_layout. chunks_sized. Qed.

Lemma info_sized i : wf_info i -> sized (info_layout i).
Proof.
  intros (Hf & Hh & _). apply wf_text_bytes in Hf, Hh. unfold info_layout. chunks_sized.
Qed.

Definition info_bad (i : melodi_radio_info) : bool :=
  (i.(packet_mtu) =? 0) || (MELODI_RADIO_PACKET_MAX <? i.(packet_mtu)) || (i.(queue_depth) =? 0).
Definition result_bad (r : melodi_radio_result_report) : bool :=
  (r.(result_cookie) =? 0) || (MELODI_RADIO_RESULT_DUTY <? r.(result_code)).
Definition transmit_bad (t : melodi_radio_transmit) : bool :=
  (t.(cookie) =? 0) || (t.(destination) =? 0) || (zlen t.(payload) =? 0) ||
  (MELODI_RADIO_PACKET_MAX <? zlen t.(payload)).
Definition receive_bad (r : melodi_radio_receive) : bool :=
  (r.(source) =? 0) || (r.(receive_destination) =? 0) || (zlen r.(receive_payload) =? 0) ||
  (MELODI_RADIO_PACKET_MAX <? zlen r.(receive_payload)).

#[export] Program Instance configure_message : Message melodi_radio_configure := {|
  msg_type := MELODI_RADIO_T_CONFIGURE; msg_stack := 48; msg_wf := wf_configure;
  msg_valid c := negb (configure_bad c); msg_size _ := 48;
  msg_encode := melodi_radio_encode_configure; msg_decode := melodi_radio_decode_configure;
  msg_layout := configure_layout;
|}.
Next Obligation. unfold uint. lia. Qed.
Next Obligation.
  cbn beta. intros c Hw _. split; [|lia]. apply (layout_zlen _ 48); [reflexivity|now apply configure_sized].
Qed.
Next Obligation.
  cbn beta. intros stack c out Hw Hl. unfold melodi_radio_encode_configure.
  destruct (configure_bad c); [reflexivity|]. cbn [negb].
  rewrite <- (stores_stack (configure_layout c) 48 stack); auto using configure_sized.
Qed.
Next Obligation.
  cbn beta. intros c Hw Hv%negb_true_iff. now apply configure_payload.
Qed.

#[export] Program Instance info_message : Message melodi_radio_info := {|
  msg_type := MELODI_RADIO_T_INFO; msg_stack := 72; msg_wf := wf_info;
  msg_valid m := negb (info_bad m); msg_size m := 72;
  msg_encode := melodi_radio_encode_info; msg_decode := melodi_radio_decode_info;
  msg_layout := info_layout;
|}.
Next Obligation. unfold uint. lia. Qed.
Next Obligation.
  cbn beta. intros m Hw Hv%negb_true_iff. split; [|unfold zlen in *; lia].
  rewrite (layout_zlen _ 72) by first [reflexivity|now apply info_sized]. reflexivity.
Qed.
Next Obligation.
  cbn beta. intros stack m out Hw Hl. unfold melodi_radio_encode_info. fold (info_bad m).
  pose proof Hw as (Hf & Hh & _). rewrite !put_text_ok by auto.
  destruct (info_bad m) eqn:E; [reflexivity|]. cbn [negb].
  rewrite <- (stores_stack (info_layout m) 72 stack); [reflexivity|reflexivity|now apply info_sized|exact Hl].
Qed.
Next Obligation.
  cbn beta. intros m Hw Hv%negb_true_iff. unfold info_bad in Hv. guard_hyps.
  apply info_payload; auto. unfold wf_info, uint in Hw. lia.
Qed.

#[export] Program Instance status_message : Message melodi_radio_status := {|
  msg_type := MELODI_RADIO_T_STATUS; msg_stack := 11; msg_wf := wf_status;
  msg_valid m := negb (status_bad m); msg_size m := 11;
  msg_encode := melodi_radio_encode_status; msg_decode := melodi_radio_decode_status;
  msg_layout := status_layout;
|}.
Next Obligation. unfold uint. lia. Qed.
Next Obligation.
  cbn beta. intros m Hw Hv%negb_true_iff. split; [|unfold zlen in *; lia].
  rewrite (layout_zlen _ 11) by first [reflexivity|repeat split]. reflexivity.
Qed.
Next Obligation.
  cbn beta. intros stack m out Hw Hl. unfold melodi_radio_encode_status. fold (status_bad m).
  destruct (status_bad m) eqn:E; [reflexivity|]. cbn [negb].
  rewrite <- (stores_stack (status_layout m) 11 stack); [reflexivity|reflexivity|repeat split|exact Hl].
Qed.
Next Obligation.
  cbn beta. intros m Hw Hv%negb_true_iff. unfold status_bad in Hv. guard_hyps.
  apply status_payload; auto. unfold status_bad. guard_false.
Qed.

#[export] Program Instance result_message : Message melodi_radio_result_report := {|
  msg_type := MELODI_RADIO_T_RESULT; msg_stack := 10; msg_wf := wf_result;
  msg_valid m := negb (result_bad m); msg_size m := 10;
  msg_encode := melodi_radio_encode_result; msg_decode := melodi_radio_decode_result;
  msg_layout := result_layout;
|}.
Next Obligation. unfold uint. lia. Qed.
Next Obligation.
  cbn beta. intros m Hw Hv%negb_true_iff. split; [|unfold zlen in *; lia].
  rewrite (layout_zlen _ 10) by first [reflexivity|repeat split]. reflexivity.
Qed.
Next Obligation.
  cbn beta. intros stack m out Hw Hl. unfold melodi_radio_encode_result. fold (result_bad m).
  destruct (result_bad m) eqn:E; [reflexivity|]. cbn [negb].
  rewrite <- (stores_stack (result_layout m) 10 stack); [reflexivity|reflexivity|repeat split|exact Hl].
Qed.
Next Obligation.
  cbn beta. intros m Hw Hv%negb_true_iff. unfold result_bad in Hv. guard_hyps.
  apply result_payload; auto.
Qed.

#[export] Program Instance transmit_message : Message melodi_radio_transmit := {|
  msg_type := MELODI_RADIO_T_TRANSMIT; msg_stack := 250; msg_wf := wf_transmit;
  msg_valid m := negb (transmit_bad m); msg_size m := 10 + zlen m.(payload);
  msg_encode := melodi_radio_encode_transmit; msg_decode := melodi_radio_decode_transmit;
  msg_layout := transmit_layout;
|}.
Next Obligation. unfold uint. lia. Qed.
Next Obligation.
  cbn beta. intros m Hw Hv%negb_true_iff. unfold transmit_bad in Hv. guard_hyps. split; [|unfold zlen in *; lia].
  rewrite (layout_zlen _ (10 + length m.(payload))) by first [reflexivity|repeat split]. unfold zlen. lia.
Qed.
Next Obligation.
  cbn beta. intros stack m out Hw Hl. unfold melodi_radio_encode_transmit. fold (transmit_bad m).
  destruct (transmit_bad m) eqn:E; [reflexivity|]. cbn [negb].
  unfold transmit_bad in E. guard_hyps. rewrite <- (take_stores_stack (transmit_layout m) (10 + length m.(payload)) stack); [reflexivity|reflexivity|repeat split|unfold zlen in *; lia].
Qed.
Next Obligation.
  cbn beta. intros m Hw Hv%negb_true_iff. unfold transmit_bad in Hv. guard_hyps.
  apply transmit_payload; auto. unfold zlen in *. lia.
Qed.

#[export] Program Instance receive_message : Message melodi_radio_receive := {|
  msg_type := MELODI_RADIO_T_RECEIVE; msg_stack := 256; msg_wf := wf_receive;
  msg_valid m := negb (receive_bad m); msg_size m := 16 + zlen m.(receive_payload);
  msg_encode := melodi_radio_encode_receive; msg_decode := melodi_radio_decode_receive;
  msg_layout := receive_layout;
|}.
Next Obligation. unfold uint. lia. Qed.
Next Obligation.
  cbn beta. intros m Hw Hv%negb_true_iff. unfold receive_bad in Hv. guard_hyps. split; [|unfold zlen in *; lia].
  rewrite (layout_zlen _ (16 + length m.(receive_payload))) by first [reflexivity|repeat split]. unfold zlen. lia.
Qed.
Next Obligation.
  cbn beta. intros stack m out Hw Hl. unfold melodi_radio_encode_receive. fold (receive_bad m).
  destruct (receive_bad m) eqn:E; [reflexivity|]. cbn [negb].
  unfold receive_bad in E. guard_hyps. rewrite <- (take_stores_stack (receive_layout m) (16 + length m.(receive_payload)) stack); [reflexivity|reflexivity|repeat split|unfold zlen in *; lia].
Qed.
Next Obligation.
  cbn beta. intros m Hw Hv%negb_true_iff. unfold receive_bad in Hv. guard_hyps.
  apply receive_payload_ok; auto. unfold zlen in *. lia.
Qed.

(** ** The LoRa formula

    The number of symbols after the preamble, in the notation of the data
    sheet, and its use in the estimate. *)

Definition ceil_div (a b : Z) : Z := - (- a / b).

Definition lora_symbols (sf bw cr plen : Z) : Z :=
  let de := if (11 <=? sf) && (bw <=? 125) then 1 else 0 in
  8 + Z.max 0 (ceil_div (8 * plen - 4 * sf + 28 + 16) (4 * (sf - 2 * de))) * cr.

Lemma lora_symbols_bound sf bw cr plen :
  6 <= sf <= 12 -> 5 <= cr <= 8 -> 0 <= plen <= 240 -> 8 <= lora_symbols sf bw cr plen <= 656.
Proof.
  intros Hsf Hcr Hp. unfold lora_symbols, ceil_div.
  set (de := if (11 <=? sf) && (bw <=? 125) then 1 else 0). cbn zeta.
  assert (24 <= 4 * (sf - 2 * de)) by (unfold de; destruct (_ && _) eqn:E; lia).
  set (a := 8 * plen - 4 * sf + 28 + 16). set (b := 4 * (sf - 2 * de)) in *.
  assert (-81 <= - a / b) by (apply Z.div_le_lower_bound; unfold a; lia).
  nia.
Qed.

Lemma estimate_eq sf bw cr plen :
  6 <= sf <= 12 -> 0 < bw -> 5 <= cr <= 8 -> 0 <= plen <= 240 ->
  let t := 2 ^ sf * 1000 / bw in
  melodi_radio_airtime_estimate sf bw cr plen
    = Ok (t * 49 / 4 + lora_symbols sf bw cr plen * t).
Proof.
  intros Hsf Hbw Hcr Hp. cbn zeta. unfold melodi_radio_airtime_estimate. pass_guard.
  pose proof (lora_symbols_bound sf bw cr plen Hsf Hcr Hp) as Hn.
  assert (64 <= 2 ^ sf <= 4096) as Hpow.
  { split; [apply (Z.pow_le_mono_r 2 6)|apply (Z.pow_le_mono_r 2 sf 12)]; lia. }
  assert (wrap 64 (bit sf) = 2 ^ sf) as ->.
  { unfold bit. rewrite Z.shiftl_1_l. apply wrap_id. unfold uint. pow_norm. lia. }
  rewrite (wrap_id 64 (2 ^ sf * 1000)) by (unfold uint; pow_norm; lia).
  set (t := 2 ^ sf * 1000 / bw).
  assert (0 <= t <= 4096000) as Ht.
  { unfold t. split; [apply Z.div_pos; lia|]. apply Z.div_le_upper_bound; nia. }
  unfold lora_symbols in *. set (de := if (11 <=? sf) && (bw <=? 125) then 1 else 0) in *. cbn zeta in *.
  assert (24 <= 4 * (sf - 2 * de)) by (unfold de; destruct (_ && _) eqn:E; lia).
  set (a := 8 * plen - 4 * sf + 28 + 16) in *. set (b := 4 * (sf - 2 * de)) in *.
  destruct (Z.leb_spec b 0); [lia|].
  assert ((if a <=? 0 then 0 else Z.quot (a + b - 1) b) = Z.max 0 (ceil_div a b)) as ->.
  { unfold ceil_div. destruct (Z.leb_spec a 0).
    - pose proof (Z.div_pos (- a) b). lia.
    - rewrite Z.quot_div_nonneg by lia.
      assert ((a + b - 1) / b = - (- a / b)) as ->.
      { pose proof (Z.div_mod (- a) b ltac:(lia)). pose proof (Z.mod_pos_bound (- a) b ltac:(lia)).
        symmetry. apply Z.div_unique with (b - 1 - (- a) mod b); lia. }
      assert (- a / b <= 0) by (apply Z.div_le_upper_bound; lia). lia. }
  replace (cr - 4 + 4) with cr by lia. set (n := 8 + _ * cr) in *.
  rewrite (wrap_id 64 n), (wrap_id 64 (t * 49)), (wrap_id 64 (n * t)) by (unfold uint; pow_norm; nia).
  assert (0 <= t * 49 / 4 <= 50176000) by div_lia.
  assert (0 <= n * t <= 656 * 4096000) by nia.
  rewrite (wrap_id 64), wrap_id by (unfold uint; pow_norm; lia). reflexivity.
Qed.

(** ** Properties *)

(** C32: the framer delivers what was encoded.  Any sequence of frames, each
    preceded by line noise without the first magic byte 0x4d, fed to a framer
    between frames is reported as exactly those frames, in order, with their
    payloads; the framer ends between frames again.  Noise with that byte can
    cost a frame: [noise_swallows]. *)
Theorem radio_stream_delivers s (items : list (bytes * Z * bytes)) :
  idle s ->
  Forall (fun '(noise, ty, p) => Forall (fun b => b <> MELODI_RADIO_MAGIC0) noise /\
            zlen p <= 512) items ->
  idle (feed_all s (concat (map (fun '(noise, ty, p) => noise ++ radio_frame ty p) items))).1 /\
  (feed_all s (concat (map (fun '(noise, ty, p) => noise ++ radio_frame ty p) items))).2
  = map (fun '(noise, ty, p) => Frame (frame_header ty p) p) items.
Proof.
  intros Hs Hi. revert s Hs. induction Hi as [|[[noise ty] p] items [Hn Hp] _ IH]; intros s Hs.
  - split; [exact Hs|reflexivity].
  - destruct (feed_radio_frame s ty p Hs Hp) as (s' & He & Hs').
    cbn [map concat]. set (rest := concat _). set (f := radio_frame ty p) in *. clearbody f.
    rewrite <- app_assoc, (feed_all_chunk _ _ (f ++ rest) _ _ (feed_noise noise s (proj2 Hs) Hn)).
    rewrite (feed_all_chunk _ _ rest _ _ He). destruct (IH s' Hs') as [IH1 IH2].
    fold rest in IH1, IH2. cbn [fst snd]. rewrite IH2. split; [exact IH1|reflexivity].
Qed.

Lemma radio_stream_delivers_witness :
  (feed_all melodi_radio_stream_init
     (concat (map (fun '(noise, ty, p) => noise ++ radio_frame ty p)
        [([0; 255], 1, []); ([], 3, [1; 2; 0x4d; 0x4c])]))).2
  = [Frame (frame_header 1 []) []; Frame (frame_header 3 [1; 2; 0x4d; 0x4c]) [1; 2; 0x4d; 0x4c]].
Proof.
  apply (radio_stream_delivers melodi_radio_stream_init [([0; 255], 1, []); ([], 3, [1; 2; 0x4d; 0x4c])]).
  - apply idle_init.
  - repeat constructor; cbn; vm_compute; discriminate.
Defined.

(** Two bytes of noise that look like the beginning of a frame, and the frame behind them
    is reported as a fault. *)
Lemma noise_swallows :
  (feed_all melodi_radio_stream_init ([MELODI_RADIO_MAGIC0; MELODI_RADIO_MAGIC1] ++ radio_frame 3 [1; 2; 3])).2 = [Fault EPROTO].
Proof. vm_compute. reflexivity. Qed.

(** The framer reports nothing else and stays inside its buffer.  Whatever
    bytes it is fed from its initial state, the next store goes to one of the
    512 bytes of its buffer; and when it reports a frame, the bytes it was fed
    end with exactly the encoding of that frame, of at most 512 bytes of
    payload and with the checksum of the payload. *)
Theorem radio_stream_sound bs byte :
  Forall u8 bs -> u8 byte ->
  let s := (feed_all melodi_radio_stream_init bs).1 in
  length s.(buffer) = 512%nat /\
  (s.(stream_state) = MELODI_RADIO_READ_HEADER \/ s.(stream_state) = MELODI_RADIO_READ_PAYLOAD ->
   0 <= s.(offset) < 512) /\
  forall h buf, (melodi_radio_stream_feed s byte).2 = Ok (Some (h, buf)) ->
    let p := take (Z.to_nat h.(payload_length)) buf in
    h = frame_header h.(type) p /\ zlen p <= 512 /\
    exists pre, bs ++ [byte] = pre ++ radio_frame h.(type) p.
Proof.
  intros Hu Hb. cbn zeta. pose proof (feed_all_tracks bs _ [] init_tracks Hu) as HT. cbn [app] in HT.
  pose proof HT as (Hl & _ & Hst). conj_split; [exact Hl| |].
  - destruct (stream_state _); intros [|]; try discriminate; lia.
  - now apply feed_tracks.
Qed.

Lemma radio_stream_sound_witness :
  exists pre, ([7; 0x4d] ++ [0x4d; 0x4c; 2; 9; 0; 1; 0xff; 0xfa]) ++ [5] = pre ++ radio_frame 9 [5].
Proof.
  apply (radio_stream_sound ([7; 0x4d] ++ [0x4d; 0x4c; 2; 9; 0; 1; 0xff; 0xfa]) 5
           ltac:(by_decide) ltac:(by_decide)) with
    (h := frame_header 9 [5])
    (buf := (feed_all melodi_radio_stream_init
               ([7; 0x4d] ++ [0x4d; 0x4c; 2; 9; 0; 1; 0xff; 0xfa] ++ [5])).1.(buffer)).
  vm_compute. reflexivity.
Defined.

(** Corruption is detected.  If any single payload byte of a frame is
    changed, the framer reports [EBADMSG], delivers nothing, and is ready for
    the next frame. *)
Theorem radio_corruption_detected s ty p i x y :
  idle s -> Forall u8 p -> zlen p <= 512 -> p !! i = Some x -> u8 y -> x <> y ->
  let damaged := firstn 8 (radio_frame ty p) ++ <[i := y]> p in
  (feed_all s damaged).2 = [Fault EBADMSG] /\ idle (feed_all s damaged).1.
Proof.
  intros Hs Hu Hp Hi Hy Hne. cbn zeta.
  pose proof (checksum_change p i x y Hu Hp Hi Hy Hne) as Hc.
  assert (zlen (<[i := y]> p) = zlen p) as Hz by (unfold zlen; now rewrite length_insert).
  destruct (feed_frame s ty (melodi_radio_checksum p) (<[i := y]> p) Hs (checksum_u16 p)) as [H1 H2];
    [lia|].
  rewrite Hz in H1, H2. destruct (Z.eqb_spec (melodi_radio_checksum p)
    (melodi_radio_checksum (<[i := y]> p))) as [E|_]; [now rewrite E in Hc|].
  rewrite radio_frame_header. split; [exact H2|exact H1].
Qed.

Lemma radio_corruption_detected_witness :
  (feed_all melodi_radio_stream_init (firstn 8 (radio_frame 3 [10; 20; 30]) ++ <[1%nat := 21]> [10; 20; 30])).2
  = [Fault EBADMSG].
Proof.
  apply (radio_corruption_detected melodi_radio_stream_init 3 [10; 20; 30] 1 20 21);
    [apply idle_init|by_decide|vm_compute; discriminate|reflexivity|by_decide|lia].
Defined.

(** Every message arrives.  For each of the six message types with a
    payload: the encoder refuses an invalid message with [EINVAL] and a short
    buffer with [ENOSPC]; otherwise the bytes it writes, fed to a framer, report
    one frame of that type, whose payload the decoder turns back into the
    message, and none of the encoder's uninitialised local bytes is sent. *)
Theorem radio_messages_delivered :
  delivers melodi_radio_encode_configure melodi_radio_decode_configure MELODI_RADIO_T_CONFIGURE
    48 wf_configure (fun m => negb (configure_bad m)) (fun _ => 48) /\
  delivers melodi_radio_encode_info melodi_radio_decode_info MELODI_RADIO_T_INFO
    72 wf_info (fun m => negb (info_bad m)) (fun _ => 72) /\
  delivers melodi_radio_encode_status melodi_radio_decode_status MELODI_RADIO_T_STATUS
    11 wf_status (fun m => negb (status_bad m)) (fun _ => 11) /\
  delivers melodi_radio_encode_result melodi_radio_decode_result MELODI_RADIO_T_RESULT
    10 wf_result (fun m => negb (result_bad m)) (fun _ => 10) /\
  delivers melodi_radio_encode_transmit melodi_radio_decode_transmit MELODI_RADIO_T_TRANSMIT
    250 wf_transmit (fun m => negb (transmit_bad m)) (fun m => 10 + zlen m.(payload)) /\
  delivers melodi_radio_encode_receive melodi_radio_decode_receive MELODI_RADIO_T_RECEIVE
    256 wf_receive (fun m => negb (receive_bad m)) (fun m => 16 + zlen m.(receive_payload)).
Proof.
  conj_split; [exact (@message_delivers _ configure_message)
    |exact (@message_delivers _ info_message)
    |exact (@message_delivers _ status_message)
    |exact (@message_delivers _ result_message)
    |exact (@message_delivers _ transmit_message)
    |exact (@message_delivers _ receive_message)].
Qed.

Definition sample_receive : melodi_radio_receive :=
  {| source := 7; receive_destination := MELODI_RADIO_LOCATOR_BROADCAST; rssi := -97; snr := -3;
     hops := 2; receive_payload := [1; 2; 3] |}.

Lemma radio_messages_delivered_witness :
  exists b h p, melodi_radio_encode_receive (replicate 256 0xaa) sample_receive (replicate 64 0) = Ok (b, 27) /\
    idle (feed_all melodi_radio_stream_init (take 27 b)).1 /\
    (feed_all melodi_radio_stream_init (take 27 b)).2 = [Frame h p] /\
    h.(type) = MELODI_RADIO_T_RECEIVE /\ melodi_radio_decode_receive p = Ok sample_receive /\
    take 27 b = radio_frame MELODI_RADIO_T_RECEIVE p.
Proof.
  destruct radio_messages_delivered as (_ & _ & _ & _ & _ & H).
  apply (H (replicate 256 0xaa) sample_receive (replicate 64 0) melodi_radio_stream_init);
    [unfold wf_receive; by_decide|reflexivity|apply idle_init].
Defined.

(** Segments.  A segment that satisfies the limits is encoded into the
    first 12 + n bytes of the buffer, and those bytes decode to it; a decoder
    never accepts a segment outside the limits. *)
Theorem radio_segment_roundtrip sg out :
  wf_segment sg ->
  (segment_bad sg = false -> 0 < zlen sg.(segment_payload) <= 228 ->
   12 + zlen sg.(segment_payload) <= zlen out ->
   exists b, melodi_radio_segment_encode sg out = Ok (b, 12 + zlen sg.(segment_payload)) /\
     melodi_radio_segment_decode (take (Z.to_nat (12 + zlen sg.(segment_payload))) b) = Ok sg) /\
  (forall input sg', melodi_radio_segment_decode input = Ok sg' ->
     segment_bad sg' = false /\ 0 < zlen sg'.(segment_payload) <= 228).
Proof.
  intros Hw. split.
  - intros Hok Hl Hcap. exists (stores (segment_layout sg) out). split.
    + pose proof Hok as Hok'. unfold segment_bad in Hok'. guard_hyps.
      unfold melodi_radio_segment_encode. do 2 pass_guard. reflexivity.
    + replace (Z.to_nat (12 + zlen (segment_payload sg))) with (12 + length (segment_payload sg))%nat
        by (unfold zlen; lia).
      rewrite (take_stores_stack (segment_layout sg) (12 + length (segment_payload sg)) out);
        [now apply segment_payload_ok|reflexivity|repeat split|unfold zlen in *; lia].
  - intros input sg' H. unfold melodi_radio_segment_decode in H. guards_in H.
    injection H as <-. guard_hyps. cbn [segment_payload]. split; [unfold segment_bad; guard_false|].
    unfold zlen in *. rewrite length_drop. lia.
Qed.

Definition sample_segment : melodi_radio_segment :=
  {| frame_id := 99; total_length := 300; index := 1; count := 2; segment_payload := [4; 5; 6] |}.

Lemma radio_segment_roundtrip_witness :
  exists b, melodi_radio_segment_encode sample_segment (replicate 20 0xee) = Ok (b, 15) /\
    melodi_radio_segment_decode (take 15 b) = Ok sample_segment.
Proof.
  apply (radio_segment_roundtrip sample_segment (replicate 20 0xee));
    [unfold wf_segment; by_decide|reflexivity|by_decide|vm_compute; discriminate].
Defined.

(** The time-on-air estimate.  For every modem setting the firmware accepts
    the estimate succeeds and fits 32 bits without truncation; it is the LoRa
    formula, (12.25 + n) symbols of 2^SF / BW, rounded down, by less than n + 14
    microseconds, and exact for the bandwidths of 125, 250 and 500 kHz. *)
Theorem radio_airtime_bounds sf bw cr plen :
  6 <= sf <= 12 -> 0 < bw <= 65535 -> 5 <= cr <= 8 -> 0 <= plen <= 240 ->
  let n := lora_symbols sf bw cr plen in
  exists d, melodi_radio_airtime_estimate sf bw cr plen = Ok d /\ 0 <= d < 2 ^ 32 /\
    4 * bw * d <= (49 + 4 * n) * (2 ^ sf * 1000) < 4 * bw * (d + n + 14) /\
    (bw = 125 \/ bw = 250 \/ bw = 500 -> 4 * bw * d = (49 + 4 * n) * (2 ^ sf * 1000)).
Proof.
  intros Hsf Hbw Hcr Hp. cbn zeta. rewrite (estimate_eq sf bw cr plen) by lia.
  pose proof (lora_symbols_bound sf bw cr plen Hsf Hcr Hp) as Hn.
  set (n := lora_symbols sf bw cr plen) in *. set (t := 2 ^ sf * 1000 / bw).
  assert (64 <= 2 ^ sf <= 4096) as Hpow.
  { split; [apply (Z.pow_le_mono_r 2 6)|apply (Z.pow_le_mono_r 2 sf 12)]; lia. }
  assert (bw * t <= 2 ^ sf * 1000 < bw * t + bw) as Ht.
  { unfold t. pose proof (Z.div_mod (2 ^ sf * 1000) bw). pose proof (Z.mod_pos_bound (2 ^ sf * 1000) bw). lia. }
  assert (0 <= t <= 4096000) as Htb by nia.
  exists (t * 49 / 4 + n * t). split; [reflexivity|].
  assert (4 * (t * 49 / 4) <= t * 49 < 4 * (t * 49 / 4) + 4) as Hq by div_lia.
  set (q := t * 49 / 4) in *. conj_split; [nia|pow_norm; nia|nia|nia|].
  intros Hstd. assert (exists k, 2 ^ sf * 1000 = 4 * bw * k) as [k Hk].
  { assert (2 ^ sf = 64 * 2 ^ (sf - 6)) as ->.
    { change 64 with (2 ^ 6). rewrite <- Z.pow_add_r by lia. f_equal. lia. }
    destruct Hstd as [-> | [-> | ->]];
      [exists (128 * 2 ^ (sf - 6))|exists (64 * 2 ^ (sf - 6))|exists (32 * 2 ^ (sf - 6))]; lia. }
  assert (t = 4 * k) as Et by (unfold t; rewrite Hk; replace (4 * bw * k) with (4 * k * bw) by lia; apply Z.div_mul; lia).
  assert (q = 49 * k) by lia. nia.
Qed.

Lemma radio_airtime_bounds_witness :
  melodi_radio_airtime_estimate 12 125 8 240 = Ok 13246464 /\
  exists d, melodi_radio_airtime_estimate 12 125 8 240 = Ok d /\ 0 <= d < 2 ^ 32 /\
    4 * 125 * d <= (49 + 4 * lora_symbols 12 125 8 240) * (2 ^ 12 * 1000)
      < 4 * 125 * (d + lora_symbols 12 125 8 240 + 14) /\
    (125 = 125 \/ 125 = 250 \/ 125 = 500 ->
     4 * 125 * d = (49 + 4 * lora_symbols 12 125 8 240) * (2 ^ 12 * 1000)).
Proof.
  split; [vm_compute; reflexivity|]. apply (radio_airtime_bounds 12 125 8 240); lia.
Defined.
