(* ===== verification/Blake2s.v ===== *)
(** * The hash behind native locators (the first half of src/proto/mapping.c)

    The program's own BLAKE2s-256: the compression function, the streaming
    interface with its 64-byte buffer and split 64-bit counter, and a one-shot
    reference that takes the whole message.  The main lemma is that the digest
    of a sequence of updates is the reference digest of the concatenation. *)
From S2P Require Import Prelude Buffer.

Record melodi_blake2s := MkBlake {
  hash : list Z;
  count0 : Z;
  count1 : Z;
  buffer : bytes;
  buffered : nat;
}.

Definition melodi_blake2s_iv : list Z :=
  [0x6a09e667; 0xbb67ae85; 0x3c6ef372; 0xa54ff53a;
   0x510e527f; 0x9b05688c; 0x1f83d9ab; 0x5be0cd19].

Definition melodi_blake2s_sigma : list (list nat) :=
  [ [0; 1; 2; 3; 4; 5; 6; 7; 8; 9; 10; 11; 12; 13; 14; 15];
    [14; 10; 4; 8; 9; 15; 13; 6; 1; 12; 0; 2; 11; 7; 5; 3];
    [11; 8; 12; 0; 5; 2; 15; 13; 10; 14; 3; 6; 7; 1; 9; 4];
    [7; 9; 3; 1; 13; 12; 11; 14; 2; 6; 5; 10; 4; 0; 15; 8];
    [9; 0; 5; 7; 2; 4; 10; 15; 14; 1; 11; 12; 6; 8; 3; 13];
    [2; 12; 6; 10; 0; 11; 8; 3; 4; 13; 7; 5; 15; 14; 1; 9];
    [12; 5; 1; 15; 14; 13; 4; 10; 0; 7; 6; 3; 9; 2; 8; 11];
    [13; 11; 7; 14; 12; 1; 3; 9; 5; 0; 15; 4; 8; 6; 2; 10];
    [6; 15; 14; 9; 11; 3; 0; 8; 12; 2; 13; 7; 1; 4; 10; 5];
    [10; 2; 8; 4; 7; 6; 1; 5; 15; 11; 9; 14; 3; 12; 13; 0] ]%nat.

Definition melodi_load32 (input : bytes) : Z :=
  Z.lor (Z.lor (Z.lor (byte_at 0 input) (wrap 32 (Z.shiftl (byte_at 1 input) 8)))
           (wrap 32 (Z.shiftl (byte_at 2 input) 16)))
    (wrap 32 (Z.shiftl (byte_at 3 input) 24)).

Definition melodi_store32 (value : Z) : bytes :=
  [wrap 8 value; wrap 8 (Z.shiftr value 8); wrap 8 (Z.shiftr value 16); wrap 8 (Z.shiftr value 24)].

Definition melodi_rotate_right (value count : Z) : Z :=
  Z.lor (Z.shiftr value count) (wrap 32 (Z.shiftl value (32 - count))).

(** [state\[i\]] *)
Definition at_ (state : list Z) (i : nat) : Z := nth i state 0.

Definition melodi_blake2s_mix (state : list Z) (a b c d : nat) (first second : Z) : list Z :=
  let state := <[a := wrap 32 (at_ state a + at_ state b + first)]> state in
  let state := <[d := melodi_rotate_right (Z.lxor (at_ state d) (at_ state a)) 16]> state in
  let state := <[c := wrap 32 (at_ state c + at_ state d)]> state in
  let state := <[b := melodi_rotate_right (Z.lxor (at_ state b) (at_ state c)) 12]> state in
  let state := <[a := wrap 32 (at_ state a + at_ state b + second)]> state in
  let state := <[d := melodi_rotate_right (Z.lxor (at_ state d) (at_ state a)) 8]> state in
  let state := <[c := wrap 32 (at_ state c + at_ state d)]> state in
  <[b := melodi_rotate_right (Z.lxor (at_ state b) (at_ state c)) 7]> state.

(** The body of the loop over the ten rounds. *)
Definition blake2s_round (message : list Z) (state : list Z) (order : list nat) : list Z :=
  let m i := at_ message (nth i order 0%nat) in
  let state := melodi_blake2s_mix state 0 4 8 12 (m 0%nat) (m 1%nat) in
  let state := melodi_blake2s_mix state 1 5 9 13 (m 2%nat) (m 3%nat) in
  let state := melodi_blake2s_mix state 2 6 10 14 (m 4%nat) (m 5%nat) in
  let state := melodi_blake2s_mix state 3 7 11 15 (m 6%nat) (m 7%nat) in
  let state := melodi_blake2s_mix state 0 5 10 15 (m 8%nat) (m 9%nat) in
  let state := melodi_blake2s_mix state 1 6 11 12 (m 10%nat) (m 11%nat) in
  let state := melodi_blake2s_mix state 2 7 8 13 (m 12%nat) (m 13%nat) in
  melodi_blake2s_mix state 3 4 9 14 (m 14%nat) (m 15%nat).

(** The new [context->hash]. *)
Definition melodi_blake2s_compress (context : melodi_blake2s) (block : bytes) (final : bool)
    : list Z :=
  let message := map (fun i => melodi_load32 (drop (4 * i) block)) (seq 0 16) in
  let state := context.(hash) ++ melodi_blake2s_iv in
  let state := <[12%nat := Z.lxor (at_ state 12) context.(count0)]> state in
  let state := <[13%nat := Z.lxor (at_ state 13) context.(count1)]> state in
  let state := if final then <[14%nat := lnot_w 32 (at_ state 14)]> state else state in
  let state := fold_left (blake2s_round message) melodi_blake2s_sigma state in
  map (fun i => Z.lxor (at_ context.(hash) i) (Z.lxor (at_ state i) (at_ state (i + 8)))) (seq 0 8).

Definition set_hash (c : melodi_blake2s) (h : list Z) : melodi_blake2s :=
  MkBlake h c.(count0) c.(count1) c.(buffer) c.(buffered).
Definition set_buffered (c : melodi_blake2s) (n : nat) : melodi_blake2s :=
  MkBlake c.(hash) c.(count0) c.(count1) c.(buffer) n.

Definition melodi_blake2s_count (context : melodi_blake2s) (amount : Z) : melodi_blake2s :=
  let c0 := wrap 32 (context.(count0) + amount) in
  MkBlake context.(hash) c0
    (if c0 <? amount then wrap 32 (context.(count1) + 1) else context.(count1))
    context.(buffer) context.(buffered).

(** The buffer of an automatic variable is not initialised: [stack] stands for
    its contents. *)
Definition melodi_blake2s_init (stack : bytes) : melodi_blake2s :=
  MkBlake (<[0%nat := Z.lxor (at_ melodi_blake2s_iv 0) 0x01010020]> melodi_blake2s_iv) 0 0 stack 0.

(** [while (length != 0)].  An iteration that starts with a full buffer consumes
    nothing, so a loop over [n] bytes takes at most [n + 1] turns of which each
    but one consumes a byte. *)
Fixpoint update_loop (fuel : nat) (context : melodi_blake2s) (input : bytes) : melodi_blake2s :=
  match fuel, input with
  | O, _ => context
  | _, [] => context
  | S fuel, _ =>
      let amount := Nat.min (64 - context.(buffered)) (length input) in
      let context := MkBlake context.(hash) context.(count0) context.(count1)
                       (store context.(buffered) (take amount input) context.(buffer))
                       (context.(buffered) + amount) in
      let input := drop amount input in
      let context :=
        if Nat.eqb context.(buffered) 64 && negb (Nat.eqb (length input) 0) then
          let context := melodi_blake2s_count context 64 in
          set_buffered (set_hash context (melodi_blake2s_compress context context.(buffer) false)) 0
        else context in
      update_loop fuel context input
  end.

Definition melodi_blake2s_update (context : melodi_blake2s) (input : bytes) : melodi_blake2s :=
  update_loop (length input + 1) context input.

Definition melodi_blake2s_final (context : melodi_blake2s) : bytes :=
  let context := melodi_blake2s_count context (Z.of_nat context.(buffered)) in
  let block := store context.(buffered) (replicate (64 - context.(buffered)) 0) context.(buffer) in
  let h := melodi_blake2s_compress context block true in
  concat (map (fun i => melodi_store32 (at_ h i)) (seq 0 8)).

(** The digest of a sequence of updates of a fresh context. *)
Definition blake2s_stream (stack : bytes) (pieces : list bytes) : bytes :=
  melodi_blake2s_final (fold_left melodi_blake2s_update pieces (melodi_blake2s_init stack)).

(** ** Reference

    The whole message at once: blocks of 64 bytes with a running byte count, the
    last one (of 1 to 64 bytes, or empty for the empty message) zero-padded and
    flagged. *)

Definition ref_compress (h : list Z) (t : Z) (block : bytes) (final : bool) : list Z :=
  melodi_blake2s_compress (MkBlake h (t mod 2 ^ 32) (t / 2 ^ 32 mod 2 ^ 32) [] 0) block final.

Fixpoint ref_run (fuel : nat) (h : list Z) (t : Z) (m : bytes) : bytes :=
  match fuel with
  | O => []
  | S fuel =>
      if (length m <=? 64)%nat then
        let h := ref_compress h (t + zlen m) (m ++ replicate (64 - length m) 0) true in
        concat (map (fun i => melodi_store32 (at_ h i)) (seq 0 8))
      else ref_run fuel (ref_compress h (t + 64) (take 64 m) false) (t + 64) (drop 64 m)
  end.

Definition blake2s_ref (m : bytes) : bytes :=
  ref_run (S (length m)) (<[0%nat := Z.lxor (at_ melodi_blake2s_iv 0) 0x01010020]> melodi_blake2s_iv) 0 m.

(** The test vector of RFC 7693, appendix B. *)
Example blake2s_abc :
  blake2s_stream (replicate 64 0xee) [[0x61; 0x62; 0x63]] =
  [0x50; 0x8c; 0x5e; 0x8c; 0x32; 0x7c; 0x14; 0xe2; 0xe1; 0xa7; 0x2b; 0xa3; 0x4e; 0xeb; 0x45; 0x2f;
   0x37; 0x45; 0x8b; 0x20; 0x9e; 0xd6; 0x3a; 0x29; 0x4d; 0x99; 0x9b; 0x4c; 0x86; 0x67; 0x59; 0x82].
Proof. vm_compute. reflexivity. Qed.

(** ** Streaming equals the reference *)

Lemma ref_run_fuel f : forall g h t m,
  (length m < f)%nat -> (length m < g)%nat -> ref_run f h t m = ref_run g h t m.
Proof.
  induction f as [|f IH]; intros [|g] h t m Hf Hg; try lia. cbn [ref_run].
  destruct (Nat.leb_spec (length m) 64); [reflexivity|].
  apply IH; rewrite length_drop; lia.
Qed.

Definition ref_from (h : list Z) (t : Z) (m : bytes) : bytes := ref_run (S (length m)) h t m.

Lemma ref_from_last h t m :
  (length m <= 64)%nat ->
  ref_from h t m =
  concat (map (fun i => melodi_store32 (at_ (ref_compress h (t + zlen m)
    (m ++ replicate (64 - length m) 0) true) i)) (seq 0 8)).
Proof.
  intros H. unfold ref_from. cbn [ref_run]. destruct (Nat.leb_spec (length m) 64); [reflexivity|lia].
Qed.

Lemma ref_from_block h t m :
  (64 < length m)%nat ->
  ref_from h t m = ref_from (ref_compress h (t + 64) (take 64 m) false) (t + 64) (drop 64 m).
Proof.
  intros H. unfold ref_from at 1. cbn [ref_run]. destruct (Nat.leb_spec (length m) 64); [lia|].
  apply ref_run_fuel; rewrite length_drop; lia.
Qed.

(** A context that has compressed [t] bytes. *)
Definition ctx_ok (c : melodi_blake2s) (t : Z) : Prop :=
  length c.(buffer) = 64%nat /\ (c.(buffered) <= 64)%nat /\ 0 <= t /\
  c.(count0) = t mod 2 ^ 32 /\ c.(count1) = t / 2 ^ 32 mod 2 ^ 32.

(** The digest of what the context holds followed by [rest]. *)
Definition ctx_digest (c : melodi_blake2s) (t : Z) (rest : bytes) : bytes :=
  ref_from c.(hash) t (take c.(buffered) c.(buffer) ++ rest).

(** The split counter with its carry counts bytes at 64 bits. *)
Lemma count_ok c t amount :
  ctx_ok c t -> 0 <= amount <= 64 -> ctx_ok (melodi_blake2s_count c amount) (t + amount).
Proof.
  intros (Hl & Hb & Ht & H0 & H1) Ha. unfold ctx_ok, melodi_blake2s_count, wrap.
  cbn [buffer buffered count0 count1]. rewrite H0, H1. pow_norm. conj_split; try assumption; try lia.
  - rewrite Zplus_mod_idemp_l. reflexivity.
  - rewrite Zplus_mod_idemp_l. destruct (Z.ltb_spec ((t + amount) mod 4294967296) amount).
    + rewrite Zplus_mod_idemp_l. f_equal. div_lia.
    + f_equal. div_lia.
Qed.

(** Compression depends on the context through its hash and its byte count. *)
Lemma compress_ref c t block final :
  c.(count0) = t mod 2 ^ 32 -> c.(count1) = t / 2 ^ 32 mod 2 ^ 32 ->
  melodi_blake2s_compress c block final = ref_compress c.(hash) t block final.
Proof.
  intros H0 H1. unfold ref_compress. rewrite <- H0, <- H1.
  unfold melodi_blake2s_compress. cbn [hash count0 count1]. reflexivity.
Qed.

(** Copying the next part of the input into the buffer. *)
Definition absorb (c : melodi_blake2s) (a : bytes) : melodi_blake2s :=
  MkBlake c.(hash) c.(count0) c.(count1) (store c.(buffered) a c.(buffer)) (c.(buffered) + length a).

Lemma absorb_ok c t a :
  ctx_ok c t -> (c.(buffered) + length a <= 64)%nat ->
  ctx_ok (absorb c a) t /\ forall rest, ctx_digest (absorb c a) t rest = ctx_digest c t (a ++ rest).
Proof.
  intros (Hl & Hb & Ht & H0 & H1) Ha. split.
  - unfold ctx_ok, absorb. cbn [buffer buffered count0 count1]. rewrite length_store.
    conj_split; assumption.
  - intros rest. unfold ctx_digest, absorb. cbn [buffer buffered hash]. now rewrite take_store_append, <- app_assoc by lia.
Qed.

(** Compressing a full buffer that is not the last block. *)
Definition flush (c : melodi_blake2s) : melodi_blake2s :=
  let c := melodi_blake2s_count c 64 in
  set_buffered (set_hash c (melodi_blake2s_compress c c.(buffer) false)) 0.

Lemma flush_ok c t rest :
  ctx_ok c t -> c.(buffered) = 64%nat -> rest <> [] ->
  ctx_ok (flush c) (t + 64) /\ ctx_digest (flush c) (t + 64) rest = ctx_digest c t rest.
Proof.
  intros Hc Hb Hr. pose proof (count_ok c t 64 Hc ltac:(lia)) as (Hl & _ & Ht & H0 & H1).
  split; [unfold ctx_ok, flush; cbn [buffer buffered count0 count1 set_buffered set_hash];
    conj_split; first [assumption|lia]|].
  destruct Hc as (Hl' & _). unfold ctx_digest.
  assert (take (buffered c) (buffer c) = buffer c) as -> by (rewrite Hb; apply take_ge; lia).
  assert (0 < length rest)%nat by (destruct rest; [congruence|cbn; lia]).
  rewrite (ref_from_block (hash c)) by (rewrite length_app; lia).
  assert (take 64 (buffer c ++ rest) = buffer c) as -> by (rewrite <- Hl'; apply take_app_length).
  assert (drop 64 (buffer c ++ rest) = rest) as -> by (rewrite <- Hl'; apply drop_app_length).
  unfold flush. cbn [hash set_buffered set_hash buffered take app].
  now rewrite (compress_ref _ (t + 64)) by assumption.
Qed.

(** The loop terminates with all the input absorbed. *)
Lemma update_loop_ok fuel : forall c t input,
  ctx_ok c t -> (length input + (if Nat.eqb c.(buffered) 64 then 1 else 0) <= fuel)%nat ->
  exists t', ctx_ok (update_loop fuel c input) t' /\
    forall rest, ctx_digest (update_loop fuel c input) t' rest = ctx_digest c t (input ++ rest).
Proof.
  induction fuel as [|fuel IH]; intros c t input Hc Hf.
  - destruct input; [|cbn in Hf; lia]. exists t. split; [exact Hc|reflexivity].
  - destruct input as [|x input0]; [exists t; split; [exact Hc|reflexivity]|].
    set (input := x :: input0) in *. assert (0 < length input)%nat by (cbn; lia).
    cbn [update_loop]. change (match input with [] => c | _ :: _ => ?e end) with e.
    set (amount := Nat.min (64 - buffered c) (length input)).
    assert (length (take amount input) = amount) as Hta by (rewrite length_take; lia).
    pose proof Hc as (_ & Hb & _).
    destruct (absorb_ok c t (take amount input) Hc) as [Hc1 Hd1]; [lia|].
    unfold absorb in Hc1, Hd1. rewrite Hta in Hc1, Hd1.
    set (c1 := MkBlake _ _ _ _ _) in *. set (rem := drop amount input).
    assert (length rem = length input - amount)%nat as Hrem by apply length_drop.
    assert (forall rest, ctx_digest c1 t (rem ++ rest) = ctx_digest c t (input ++ rest)) as Hd2.
    { intros rest. rewrite Hd1, app_assoc. unfold rem. now rewrite take_drop. }
    fold (flush c1).
    destruct (Nat.eqb_spec (buffered c1) 64) as [E64|N64]; cbn [andb].
    + destruct (Nat.eqb_spec (length rem) 0) as [Er|Nr]; cbn [negb].
      * assert (rem = []) as -> by now apply length_zero_iff_nil.
        exists t. replace (update_loop fuel c1 []) with c1 by now destruct fuel.
        split; [exact Hc1|]. intros rest. apply Hd2.
      * assert (rem <> []) as Hne by (intros E; now rewrite E in Nr).
        destruct (flush_ok c1 t (rem ++ []) Hc1 E64) as [Hc2 _]; [now rewrite app_nil_r|].
        destruct (IH (flush c1) (t + 64) rem Hc2) as (t' & Hc3 & Hd3).
        { cbn. rewrite Hrem. destruct (Nat.eqb_spec (buffered c) 64); lia. }
        exists t'. split; [exact Hc3|]. intros rest. rewrite Hd3, <- Hd2.
        apply flush_ok; auto. intros E. apply app_eq_nil in E. tauto.
    + destruct (IH c1 t rem Hc1) as (t' & Hc3 & Hd3).
      { rewrite (proj2 (Nat.eqb_neq _ _) N64), Hrem. destruct (Nat.eqb_spec (buffered c) 64); lia. }
      exists t'. split; [exact Hc3|]. intros rest. now rewrite Hd3, Hd2.
Qed.

Lemma update_ok c t input :
  ctx_ok c t -> exists t', ctx_ok (melodi_blake2s_update c input) t' /\
    forall rest, ctx_digest (melodi_blake2s_update c input) t' rest = ctx_digest c t (input ++ rest).
Proof.
  intros Hc. apply update_loop_ok; auto. destruct (_ =? _)%nat; lia.
Qed.

Lemma final_ok c t : ctx_ok c t -> melodi_blake2s_final c = ctx_digest c t [].
Proof.
  intros Hc. pose proof Hc as (Hl & Hb & _).
  pose proof (count_ok c t (Z.of_nat (buffered c)) Hc ltac:(lia)) as (_ & _ & _ & H0 & H1).
  unfold ctx_digest. rewrite app_nil_r.
  rewrite ref_from_last by (rewrite length_take; lia).
  assert (zlen (take (buffered c) (buffer c)) = Z.of_nat (buffered c)) as ->.
  { unfold zlen. rewrite length_take. lia. }
  rewrite length_take. replace (buffered c `min` length (buffer c))%nat with (buffered c) by lia.
  unfold melodi_blake2s_final. cbn [buffered buffer].
  assert (store (buffered c) (replicate (64 - buffered c) 0) (buffer c) =
          take (buffered c) (buffer c) ++ replicate (64 - buffered c) 0) as <-.
  { pose proof (take_store_append (buffered c) (replicate (64 - buffered c) 0) (buffer c)) as HT.
    rewrite length_replicate in HT. rewrite <- HT by lia. symmetry. apply take_ge.
    rewrite length_store. lia. }
  now rewrite (compress_ref _ (t + Z.of_nat (buffered c))) by assumption.
Qed.

Lemma updates_ok pieces : forall c t,
  ctx_ok c t -> exists t', ctx_ok (fold_left melodi_blake2s_update pieces c) t' /\
    ctx_digest (fold_left melodi_blake2s_update pieces c) t' [] = ctx_digest c t (concat pieces).
Proof.
  induction pieces as [|p pieces IH]; intros c t Hc; cbn [fold_left concat].
  - exists t. split; [exact Hc|reflexivity].
  - destruct (update_ok c t p Hc) as (t1 & Hc1 & Hd1).
    destruct (IH _ t1 Hc1) as (t' & Hc' & Hd'). exists t'. split; [exact Hc'|]. now rewrite Hd'.
Qed.

Lemma blake2s_stream_ref stack pieces :
  length stack = 64%nat -> blake2s_stream stack pieces = blake2s_ref (concat pieces).
Proof.
  intros Hl. unfold blake2s_stream.
  destruct (updates_ok pieces (melodi_blake2s_init stack) 0) as (t & Hc & Hd).
  { unfold ctx_ok. cbn [melodi_blake2s_init buffer buffered count0 count1].
    conj_split; first [assumption|lia|reflexivity]. }
  rewrite (final_ok _ t Hc), Hd. reflexivity.
Qed.

Lemma melodi_store32_u8 v : Forall u8 (melodi_store32 v).
Proof. repeat apply Forall_cons_2; auto with melodi. Qed.

Lemma ref_digest_wf m : wf_bytes 32 (blake2s_ref m).
Proof.
  unfold blake2s_ref. fold (ref_from (<[0%nat := Z.lxor (at_ melodi_blake2s_iv 0) 0x01010020]>
    melodi_blake2s_iv) 0 m).
  generalize (<[0%nat := Z.lxor (at_ melodi_blake2s_iv 0) 0x01010020]> melodi_blake2s_iv) as h.
  generalize 0 as t. remember (length m) as n eqn:Hn. revert m Hn.
  induction n as [n IH] using lt_wf_ind. intros m Hn t h.
  destruct (le_lt_dec (length m) 64).
  - rewrite ref_from_last by auto. set (h' := ref_compress _ _ _ _). clearbody h'.
    cbn [seq map concat]. split; [reflexivity|].
    repeat (apply Forall_app; split; [apply melodi_store32_u8|]). constructor.
  - rewrite ref_from_block by auto. apply (IH (length (drop 64 m))); [|reflexivity].
    rewrite length_drop. lia.
Qed.

(** ** Properties *)

(** C35: the streaming hash is the one-shot hash.  Whatever the pieces a message
    is cut into, and whatever the context's buffer held before, the digest of
    the updates is the reference digest of the concatenation (whole blocks with
    a 64-bit byte count, the last block padded and flagged), of 32 bytes. *)
Theorem blake2s_streaming stack pieces :
  length stack = 64%nat ->
  blake2s_stream stack pieces = blake2s_ref (concat pieces) /\
  wf_bytes 32 (blake2s_stream stack pieces).
Proof.
  intros Hl. rewrite blake2s_stream_ref by exact Hl. split; [reflexivity|apply ref_digest_wf].
Qed.

Lemma blake2s_streaming_witness :
  blake2s_stream (replicate 64 0xee) [[1; 2]; replicate 62 7; replicate 130 9]
  = blake2s_ref ([1; 2] ++ replicate 62 7 ++ replicate 130 9).
Proof.
  apply (blake2s_streaming (replicate 64 0xee) [[1; 2]; replicate 62 7; replicate 130 9]).
  reflexivity.
Defined.
