(* ===== verification/Mapping.v ===== *)
(** * Native locators (the second half of src/proto/mapping.c, src/proto/mapping.h)

    A node's 32-bit locator is the first acceptable word in the sequence of
    digests of (label, domain, node, round); a set of nodes is given distinct
    locators in the order of their identities.  The hash is the one of
    Blake2s.v. *)
From S2P Require Import Prelude Buffer Uapi Blake2s.

Abbreviation MELODI_MESH_DOMAIN_SIZE := 32%nat.
Abbreviation MELODI_NATIVE_LOCATOR_INVALID := 0.
Abbreviation MELODI_NATIVE_LOCATOR_BROADCAST := 0xffffffff.
Abbreviation MELODI_MAPPING_SET_LIMIT := 64.

Record melodi_mapping_entry := MkEntry {
  node_id : melodi_node_id;
  native_locator : Z;
  collision_round : Z;
}.

#[export] Instance melodi_mapping_entry_eq_dec : EqDecision melodi_mapping_entry.
Proof. solve_decision. Defined.

Definition melodi_mapping_node_valid (node : melodi_node_id) : bool :=
  if negb (byte_at 0 node.(node_bytes) =? MELODI_NODE_ID_SCHEME_ED25519) then false else
  let '(different_zero, different_ones) :=
    fold_left (fun '(z, o) b => (Z.lor z b, Z.lor o (Z.lxor b 0xff)))
      node.(node_bytes) (0, 0) in
  negb (different_zero =? 0) && negb (different_ones =? 0).

(** ["melodi-native-locator-v1"] *)
Definition locator_label : bytes :=
  [109; 101; 108; 111; 100; 105; 45; 110; 97; 116; 105; 118; 101; 45; 108; 111; 99; 97; 116; 111;
   114; 45; 118; 49].

Definition encoded_round (round : Z) : bytes :=
  [wrap 8 (Z.shiftr round 24); wrap 8 (Z.shiftr round 16); wrap 8 (Z.shiftr round 8); wrap 8 round].

(** The candidate of one round: four updates, the digest, its first word.  The
    context is an automatic variable whose buffer holds [stack] (and, after the
    first round, the zeros that [melodi_blake2s_final] leaves; the candidate
    depends on neither, see [candidate_ref]). *)
Definition locator_candidate (stack domain : bytes) (node : melodi_node_id) (round : Z) : Z :=
  let context := melodi_blake2s_init stack in
  let context := melodi_blake2s_update context locator_label in
  let context := melodi_blake2s_update context domain in
  let context := melodi_blake2s_update context node.(node_bytes) in
  let context := melodi_blake2s_update context (encoded_round round) in
  let digest := melodi_blake2s_final context in
  Z.lor (Z.lor (Z.lor (wrap 32 (Z.shiftl (byte_at 0 digest) 24))
                  (wrap 32 (Z.shiftl (byte_at 1 digest) 16)))
           (wrap 32 (Z.shiftl (byte_at 2 digest) 8)))
    (byte_at 3 digest).

(** Fuel for the loops over rounds: a round is a 32-bit word. *)
Definition rounds : positive := 4294967296%positive.

(** The result of a [for (;;)] that left by its fuel would be [EOVERFLOW]; it
    never does. *)
Definition loop_result {S A} (r : S + result A) : result A :=
  match r with inr r => r | inl _ => Err EOVERFLOW end.

(** [*native_locator] and [*selected_round]. *)
Definition melodi_map_native_locator (stack domain : bytes) (node : melodi_node_id)
    (first_round : Z) : result (Z * Z) :=
  if negb (melodi_mapping_node_valid node) then Err EINVAL else
  loop_result (iter_until rounds (fun round =>
    let candidate := locator_candidate stack domain node round in
    if negb (candidate =? MELODI_NATIVE_LOCATOR_INVALID) &&
       negb (candidate =? MELODI_NATIVE_LOCATOR_BROADCAST)
    then inr (Ok (candidate, round))
    else if round =? U32_MAX then inr (Err EOVERFLOW)
    else inl (round + 1)) first_round).

Definition melodi_map_native_locator_available (stack domain : bytes) (node : melodi_node_id)
    (first_round : Z) (occupied : list Z) : result (Z * Z) :=
  if MELODI_MAPPING_SET_LIMIT <? zlen occupied then Err EINVAL else
  loop_result (iter_until rounds (fun round =>
    match melodi_map_native_locator stack domain node round with
    | Err e => inr (Err e)
    | Ok (candidate, round) =>
        match find_index (fun o => o =? candidate) occupied with
        | None => inr (Ok (candidate, round))
        | Some _ => if round =? U32_MAX then inr (Err EOVERFLOW) else inl (round + 1)
        end
    end) first_round).

(** [memcmp] of two arrays of the same size. *)
Fixpoint memcmp (a b : bytes) : comparison :=
  match a, b with
  | x :: a, y :: b => match x ?= y with Eq => memcmp a b | c => c end
  | _, _ => Eq
  end.

Definition node_cmp (a b : melodi_node_id) : comparison := memcmp a.(node_bytes) b.(node_bytes).

Definition zero_entry : melodi_mapping_entry := MkEntry (MkNodeId []) 0 0.
Definition entry_at (entries : list melodi_mapping_entry) (i : nat) : melodi_mapping_entry :=
  nth i entries zero_entry.

(** The inner loop: moves the larger entries up by one place and returns the
    place that became free. *)
Fixpoint shift_loop (position : nat) (entry : melodi_mapping_entry)
    (entries : list melodi_mapping_entry) : nat * list melodi_mapping_entry :=
  match position with
  | O => (O, entries)
  | S p =>
      match node_cmp (entry_at entries p).(node_id) entry.(node_id) with
      | Gt => shift_loop p entry (<[S p := entry_at entries p]> entries)
      | _ => (S p, entries)
      end
  end.

Definition insert_node (entries : list melodi_mapping_entry) (index : nat) (node : melodi_node_id)
    : result (list melodi_mapping_entry) :=
  let entry := MkEntry node 0 0 in
  let '(position, entries) := shift_loop index entry entries in
  let same i := match node_cmp (entry_at entries i).(node_id) node with Eq => true | _ => false end in
  if (negb (Nat.eqb position 0) && same (position - 1)%nat) ||
     ((position <? index)%nat && same position)
  then Err EEXIST else Ok (<[position := entry]> entries).

Fixpoint sort_loop (nodes : list melodi_node_id) (index : nat) (entries : list melodi_mapping_entry)
    : result (list melodi_mapping_entry) :=
  match nodes with
  | [] => Ok entries
  | node :: nodes => entries ← insert_node entries index node; sort_loop nodes (S index) entries
  end.

Fixpoint assign_loop (stack domain : bytes) (n index : nat) (occupied : list Z)
    (entries : list melodi_mapping_entry) : result (list melodi_mapping_entry) :=
  match n with
  | O => Ok entries
  | S n =>
      let e := entry_at entries index in
      r ← melodi_map_native_locator_available stack domain e.(node_id) 0 occupied;
      assign_loop stack domain n (S index) (occupied ++ [r.1])
        (<[index := MkEntry e.(node_id) r.1 r.2]> entries)
  end.

(** [entries] is the caller's array, whatever it held; the result is the array
    after the call. *)
Definition melodi_resolve_collision_set (stack domain : bytes) (nodes : list melodi_node_id)
    (entries : list melodi_mapping_entry) : result (list melodi_mapping_entry) :=
  if (zlen nodes =? 0) || (MELODI_MAPPING_SET_LIMIT <? zlen nodes) then Err EINVAL else
  entries ← sort_loop nodes 0 entries;
  assign_loop stack domain (length nodes) 0 [] entries.

(** ** Searching rounds

    Both loops look for the least round, not below the first one, that satisfies
    a condition. *)

Definition least_round (P : Z -> bool) (first r : Z) : Prop :=
  first <= r <= U32_MAX /\ P r = true /\ forall q, first <= q < r -> P q = false.

Definition acceptable (c : Z) : bool :=
  negb (c =? MELODI_NATIVE_LOCATOR_INVALID) && negb (c =? MELODI_NATIVE_LOCATOR_BROADCAST).

Lemma acceptable_eq c :
  negb (c =? MELODI_NATIVE_LOCATOR_INVALID) && negb (c =? MELODI_NATIVE_LOCATOR_BROADCAST) = acceptable c.
Proof. reflexivity. Qed.

(** What a search over rounds returns: the value of the least good round, or
    [EOVERFLOW] when no round is good. *)
Definition search_spec (P : Z -> bool) (f : Z -> Z) (first : Z) (r : result (Z * Z)) : Prop :=
  (exists q, r = Ok (f q, q) /\ least_round P first q) \/
  (r = Err EOVERFLOW /\ forall q, first <= q <= U32_MAX -> P q = false).

(** A step of a search either decides or moves past rounds that are not good. *)
Lemma search_loop P f (step : Z -> Z + result (Z * Z)) n : forall first,
  (forall q, 0 <= q <= U32_MAX ->
     match step q with
     | inr r => search_spec P f q r
     | inl q' => q < q' <= U32_MAX /\ forall z, q <= z < q' -> P z = false
     end) ->
  0 <= first <= U32_MAX -> U32_MAX - first < Z.of_nat n ->
  search_spec P f first (loop_result (iter_nat n step first)).
Proof.
  induction n as [|n IH]; intros first Hstep Hf Hn; [lia|]. cbn [iter_nat].
  pose proof (Hstep first Hf) as Hs. destruct (step first) as [q'|r]; [|exact Hs].
  destruct Hs as [Hq Hno]. destruct (IH q' Hstep) as [(q & -> & Hb & HP & Hlt)|[-> Hnone]]; try lia.
  - left. exists q. split; [reflexivity|]. split; [lia|]. split; [exact HP|].
    intros z Hz. destruct (Z.lt_ge_cases z q'); [apply Hno; lia|apply Hlt; lia].
  - right. split; [reflexivity|]. intros z Hz.
    destruct (Z.lt_ge_cases z q'); [apply Hno; lia|apply Hnone; lia].
Qed.

Lemma rounds_enough first : 0 <= first -> U32_MAX - first < Z.of_nat (Pos.to_nat rounds).
Proof. intros. rewrite positive_nat_Z. unfold U32_MAX, rounds. lia. Qed.

Lemma map_locator_search stack domain node first :
  melodi_mapping_node_valid node = true -> 0 <= first <= U32_MAX ->
  search_spec (fun q => acceptable (locator_candidate stack domain node q))
    (locator_candidate stack domain node) first (melodi_map_native_locator stack domain node first).
Proof.
  intros Hv Hf. unfold melodi_map_native_locator. rewrite Hv. cbn [negb]. rewrite iter_until_nat.
  apply search_loop; [|exact Hf|apply rounds_enough; lia].
  intros q Hq. cbn zeta. rewrite acceptable_eq.
  destruct (acceptable _) eqn:E.
  - left. exists q. split; [reflexivity|]. split; [lia|]. split; [exact E|]. intros. lia.
  - destruct (Z.eqb_spec q U32_MAX) as [->|].
    + right. split; [reflexivity|]. intros z Hz. now replace z with U32_MAX by lia.
    + split; [lia|]. intros z Hz. now replace z with q by lia.
Qed.

(** A locator nobody else in the list uses. *)
Definition free (occupied : list Z) (c : Z) : bool := bool_decide (c ∉ occupied).

Lemma find_occupied occupied c :
  match find_index (fun o => o =? c) occupied with None => free occupied c = true
  | Some _ => free occupied c = false end.
Proof.
  unfold free. destruct (find_index _ _) as [i|] eqn:E.
  - apply find_index_Some in E as (x & Hx & Hc & _). apply Z.eqb_eq in Hc. subst x.
    apply bool_decide_eq_false. intros H. apply H. eapply list_elem_of_lookup_2; eauto.
  - apply bool_decide_eq_true. intros H. apply list_elem_of_In in H.
    pose proof (proj1 (find_index_None _ _) E c H) as Hc. cbn in Hc. now rewrite Z.eqb_refl in Hc.
Qed.

Lemma available_search stack domain node first occupied :
  melodi_mapping_node_valid node = true -> 0 <= first <= U32_MAX -> zlen occupied <= 64 ->
  search_spec (fun q => acceptable (locator_candidate stack domain node q) &&
                        free occupied (locator_candidate stack domain node q))
    (locator_candidate stack domain node) first
    (melodi_map_native_locator_available stack domain node first occupied).
Proof.
  intros Hv Hf Ho. unfold melodi_map_native_locator_available.
  destruct (Z.ltb_spec MELODI_MAPPING_SET_LIMIT (zlen occupied)); [lia|]. rewrite iter_until_nat.
  apply search_loop; [|exact Hf|apply rounds_enough; lia]. intros q Hq.
  destruct (map_locator_search stack domain node q Hv Hq) as [(r & -> & Hr & Hacc & Hlt)|[-> Hno]].
  2:{ right. split; [reflexivity|]. intros z Hz. now rewrite (Hno z Hz). }
  pose proof (find_occupied occupied (locator_candidate stack domain node r)) as Hfree.
  assert (forall z, q <= z < r -> acceptable (locator_candidate stack domain node z) &&
            free occupied (locator_candidate stack domain node z) = false) as Hskip.
  { intros z Hz. now rewrite (Hlt z Hz). }
  destruct (find_index _ _) as [i|].
  - destruct (Z.eqb_spec r U32_MAX) as [->|].
    + right. split; [reflexivity|]. intros z Hz.
      destruct (decide (z = U32_MAX)) as [->|]; [now rewrite Hfree, andb_false_r|]. apply Hskip. lia.
    + split; [lia|]. intros z Hz.
      destruct (decide (z = r)) as [->|]; [now rewrite Hfree, andb_false_r|]. apply Hskip. lia.
  - left. exists r. split; [reflexivity|]. split; [lia|]. split; [now rewrite Hacc, Hfree|exact Hskip].
Qed.

(** The candidate is a function of the domain, the node and the round alone. *)
Definition ref_candidate (domain : bytes) (node : melodi_node_id) (round : Z) : Z :=
  get_be32 (blake2s_ref (locator_label ++ domain ++ node.(node_bytes) ++ be32 round)).

Lemma candidate_ref stack domain node round :
  length stack = 64%nat -> locator_candidate stack domain node round = ref_candidate domain node round.
Proof.
  intros Hl. unfold locator_candidate, ref_candidate.
  assert (forall a b c d : bytes, melodi_blake2s_final (melodi_blake2s_update (melodi_blake2s_update
    (melodi_blake2s_update (melodi_blake2s_update (melodi_blake2s_init stack) a) b) c) d)
    = blake2s_ref (a ++ b ++ c ++ d)) as Hs.
  { intros a b c d. pose proof (blake2s_stream_ref stack [a; b; c; d] Hl) as Hr.
    unfold blake2s_stream in Hr. cbn [fold_left concat] in Hr. rewrite app_nil_r in Hr. exact Hr. }
  rewrite Hs. change (encoded_round round) with (be32 round).
  set (d := blake2s_ref _). assert (Forall u8 d) as Hd by apply ref_digest_wf.
  pose proof (byte_at_u8 0 d Hd). pose proof (byte_at_u8 1 d Hd). pose proof (byte_at_u8 2 d Hd).
  unfold get_be32. rewrite !wrap_id; [reflexivity|..]; rewrite Z.shiftl_mul_pow2 by lia; width_lia.
Qed.

Lemma ref_candidate_u32 domain node round : u32 (ref_candidate domain node round).
Proof. apply get_be32_u32, ref_digest_wf. Qed.

(** ** The order of identities *)

Lemma memcmp_opp a : forall b, memcmp b a = CompOpp (memcmp a b).
Proof.
  induction a as [|x a IH]; intros [|y b]; cbn; auto. rewrite (Z.compare_antisym x y).
  destruct (x ?= y); cbn; auto.
Qed.

Lemma memcmp_eq a : forall b, length a = length b -> memcmp a b = Eq -> a = b.
Proof.
  induction a as [|x a IH]; intros [|y b] Hl; try discriminate; cbn; auto.
  destruct (Z.compare_spec x y) as [->| |]; try discriminate. intros H. f_equal. auto.
Qed.

Lemma memcmp_refl a : memcmp a a = Eq.
Proof. induction a as [|x a IH]; cbn; [reflexivity|]. now rewrite Z.compare_refl. Qed.

Lemma memcmp_trans a : forall b c, length a = length b -> length b = length c ->
  memcmp a b = Lt -> memcmp b c = Lt -> memcmp a c = Lt.
Proof.
  induction a as [|x a IH]; intros [|y b] [|z c] H1 H2; try discriminate; cbn; auto.
  destruct (Z.compare_spec x y), (Z.compare_spec y z), (Z.compare_spec x z);
    try discriminate; try lia; auto. intros. apply (IH b c); auto; cbn in *; lia.
Qed.

Definition node_lt (a b : melodi_node_id) : Prop := node_cmp a b = Lt.

#[export] Instance node_lt_antisym : AntiSymm eq node_lt.
Proof.
  intros a b Ha Hb. unfold node_lt, node_cmp in *. rewrite memcmp_opp, Ha in Hb. discriminate.
Qed.

Lemma node_lt_trans a b c :
  wf_node_id a -> wf_node_id b -> wf_node_id c -> node_lt a b -> node_lt b c -> node_lt a c.
Proof. intros [Ha _] [Hb _] [Hc _]. apply memcmp_trans; congruence. Qed.

Lemma node_cmp_eq a b : wf_node_id a -> wf_node_id b -> node_cmp a b = Eq -> a = b.
Proof.
  intros [Ha _] [Hb _] H. destruct a, b. f_equal. apply memcmp_eq; auto. cbn in *. congruence.
Qed.

Lemma node_cmp_gt a b : node_cmp a b = Gt <-> node_lt b a.
Proof. unfold node_lt, node_cmp. rewrite (memcmp_opp (node_bytes a)). destruct (memcmp _ _); now cbn. Qed.

(** ** The insertion sort *)

Lemma entry_at_app (l : list melodi_mapping_entry) x r : entry_at (l ++ x :: r) (length l) = x.
Proof. unfold entry_at. rewrite app_nth2, Nat.sub_diag by lia. reflexivity. Qed.

(** The inner loop splits the sorted part [l] at the place of the new entry. *)
Lemma shift_spec entry l : forall j tl,
  exists a b j', l = a ++ b /\
    shift_loop (length l) entry (l ++ j :: tl) = (length a, a ++ j' :: b ++ tl) /\
    Forall (fun y => node_lt entry.(node_id) y.(node_id)) b /\
    (forall a' y, a = a' ++ [y] -> ~ node_lt entry.(node_id) y.(node_id)) /\
    ((b = [] /\ j' = j) \/ node_lt entry.(node_id) j'.(node_id)).
Proof.
  induction l as [|y l IH] using rev_ind; intros j tl.
  - exists [], [], j. cbn. conj_split; auto. intros a' y E. now destruct a'.
  - rewrite length_app. cbn [length]. rewrite Nat.add_1_r. cbn [shift_loop].
    replace ((l ++ [y]) ++ j :: tl) with (l ++ y :: j :: tl) by now rewrite <- app_assoc.
    rewrite entry_at_app.
    destruct (node_cmp (node_id y) (node_id entry)) eqn:E;
      [exists (l ++ [y]), [], j|exists (l ++ [y]), [], j|].
    1-2: rewrite app_nil_r, length_app, <- app_assoc; cbn [length app]; rewrite Nat.add_1_r;
      conj_split; auto; intros a' z Hz;
      apply app_inj_tail in Hz as [_ <-]; intros H%node_cmp_gt; congruence.
    apply node_cmp_gt in E.
    assert (<[S (length l) := y]> (l ++ y :: j :: tl) = l ++ y :: y :: tl) as ->.
    { rewrite insert_app_r_alt by lia. replace (S (length l) - length l)%nat with 1%nat by lia. reflexivity. }
    destruct (IH y (y :: tl)) as (a & b & j' & -> & Hs & Hb & Ha & Hj).
    exists a, (b ++ [y]), j'. rewrite Hs, <- !app_assoc. cbn [app]. conj_split; auto.
    + apply Forall_app. split; [exact Hb|]. now apply Forall_singleton.
    + right. destruct Hj as [[_ ->]|?]; auto.
Qed.

(** A sorted part without locators. *)
Definition fresh_entries (ids : list melodi_node_id) : list melodi_mapping_entry :=
  map (fun n => MkEntry n 0 0) ids.

Lemma fresh_ids ids : map node_id (fresh_entries ids) = ids.
Proof. unfold fresh_entries. rewrite map_map. apply map_id. Qed.

Lemma sorted_split (l k : list melodi_node_id) (x : melodi_node_id) :
  Forall wf_node_id (x :: l ++ k) -> StronglySorted node_lt (l ++ k) ->
  (forall a' y, l = a' ++ [y] -> node_lt y x) -> Forall (node_lt x) k ->
  StronglySorted node_lt (l ++ x :: k).
Proof.
  intros Hw Hs Hl Hk. apply Forall_cons_iff in Hw as [Hx Hw].
  induction l as [|y l IH]; cbn in *; [now constructor|].
  apply Forall_cons_iff in Hw as [Hy Hw].
  apply StronglySorted_inv in Hs as [Hs Hall]. constructor.
  - apply IH; auto. intros a' z ->. apply (Hl (y :: a') z). reflexivity.
  - apply Forall_app in Hall as [Hal Hak]. apply Forall_app. split; [exact Hal|].
    apply Forall_cons_2; [|exact Hak].
    destruct l as [|z l _] using rev_ind; [apply (Hl [] y); reflexivity|].
    apply Forall_app in Hal as [_ [Hz _]%Forall_cons_iff].
    apply Forall_app in Hw as [[_ [Hwz _]%Forall_cons_iff]%Forall_app _].
    apply (node_lt_trans y z x); auto. apply (Hl (y :: l) z). reflexivity.
Qed.

Lemma length_fresh ids : length (fresh_entries ids) = length ids.
Proof. apply length_map. Qed.

Lemma fresh_app a b : fresh_entries (a ++ b) = fresh_entries a ++ fresh_entries b.
Proof. apply map_app. Qed.

Lemma entry_at_fresh a x tl : entry_at (fresh_entries a ++ x :: tl) (length a) = x.
Proof. rewrite <- (length_fresh a). apply entry_at_app. Qed.

(** Whether the last identity of a list is [node]. *)
Definition last_is (l : list melodi_node_id) (node : melodi_node_id) : bool :=
  match list.last l with
  | Some y => match node_cmp y node with Eq => true | _ => false end
  | None => false
  end.

(** One insertion: the sorted part is split at the place of the new node, which
    is refused if it is there already. *)
Lemma insert_node_split ids node j tl :
  exists a b, ids = a ++ b /\ Forall (node_lt node) b /\
    (forall a' y, a = a' ++ [y] -> ~ node_lt node y) /\
    insert_node (fresh_entries ids ++ j :: tl) (length ids) node =
      if last_is a node then Err EEXIST else Ok (fresh_entries (a ++ node :: b) ++ tl).
Proof.
  destruct (shift_spec (MkEntry node 0 0) (fresh_entries ids) j tl)
    as (ea & eb & j' & Hsplit & Hshift & Hb & Ha & Hj).
  unfold fresh_entries in Hsplit. apply map_eq_app in Hsplit as (a & b & -> & <- & <-).
  fold (fresh_entries a) in *. fold (fresh_entries b) in *. rewrite !length_fresh in Hshift.
  exists a, b. split; [reflexivity|]. unfold insert_node. rewrite Hshift. split; [|split].
  - unfold fresh_entries in Hb. rewrite Forall_map in Hb. exact Hb.
  - intros a' y ->. apply (Ha (fresh_entries a') (MkEntry y 0 0)). apply fresh_app.
  - rewrite entry_at_fresh.
    assert ((length a <? length (a ++ b))%nat &&
      match node_cmp j'.(node_id) node with Eq => true | _ => false end = false) as ->.
    { destruct Hj as [[Eb _]|Hj].
      - apply map_eq_nil in Eb. subst b. now rewrite app_nil_r, Nat.ltb_irrefl.
      - apply node_cmp_gt in Hj. cbn in Hj. rewrite Hj. apply andb_false_r. }
    rewrite orb_false_r.
    assert (<[length a := MkEntry node 0 0]> (fresh_entries a ++ j' :: fresh_entries b ++ tl)
            = fresh_entries (a ++ node :: b) ++ tl) as ->.
    { rewrite fresh_app, <- (length_fresh a), insert_app_r_alt, Nat.sub_diag by lia.
      now rewrite <- app_assoc. }
    f_equal. unfold last_is. destruct a as [|y a _] using rev_ind; [reflexivity|].
    rewrite last_snoc, fresh_app, length_app, Nat.add_1_r, <- app_assoc. cbn [length Nat.eqb negb andb].
    replace (S (length a) - 1)%nat with (length a) by lia. change (fresh_entries [y]) with [MkEntry y 0 0].
    cbn [app]. now rewrite entry_at_fresh.
Qed.

Lemma node_lt_irrefl x : ~ node_lt x x.
Proof. unfold node_lt, node_cmp. rewrite memcmp_refl. discriminate. Qed.

(** One insertion into the sorted part. *)
Lemma insert_node_spec ids node j tl :
  Forall wf_node_id ids -> wf_node_id node -> StronglySorted node_lt ids ->
  let r := insert_node (fresh_entries ids ++ j :: tl) (length ids) node in
  if bool_decide (node ∈ ids) then r = Err EEXIST
  else exists ids', r = Ok (fresh_entries ids' ++ tl) /\ StronglySorted node_lt ids' /\
         ids' ≡ₚ node :: ids.
Proof.
  intros Hw Hn Hs. cbn zeta.
  destruct (insert_node_split ids node j tl) as (a & b & -> & Hb & Ha & ->).
  assert (forall x, x ∈ b -> x <> node) as Hnb.
  { rewrite list.Forall_forall in Hb. intros x Hx ->. exact (node_lt_irrefl node (Hb node Hx)). }
  destruct (last_is a node) eqn:El; unfold last_is in El.
  - destruct a as [|y a _] using rev_ind; [discriminate|]. rewrite last_snoc in El.
    destruct (node_cmp y node) eqn:Ec; try discriminate.
    assert (y = node) as ->.
    { apply node_cmp_eq in Ec; auto. rewrite <- app_assoc in Hw.
      apply Forall_app in Hw as [_ [Hy _]%Forall_cons_iff]. exact Hy. }
    rewrite bool_decide_eq_true_2; [reflexivity|]. rewrite !elem_of_app, elem_of_cons. auto.
  - assert (StronglySorted node_lt (a ++ node :: b)) as Hsorted.
    { apply sorted_split; auto. intros a' y ->. specialize (Ha a' y eq_refl).
      rewrite last_snoc in El. rewrite <- node_cmp_gt in Ha. unfold node_lt.
      destruct (node_cmp y node); congruence. }
    rewrite bool_decide_eq_false_2.
    + exists (a ++ node :: b). conj_split; [reflexivity|exact Hsorted|symmetry; apply Permutation_middle].
    + intros [Hin|Hin]%elem_of_app; [|now apply (Hnb node)].
      apply StronglySorted_app in Hsorted as (Hlt & _ & _).
      apply (node_lt_irrefl node), Hlt; [exact Hin|now apply elem_of_cons; left].
Qed.

(** The whole sort: it succeeds exactly when no identity occurs twice. *)
Lemma sort_loop_spec nodes : forall done entries,
  Forall wf_node_id (done ++ nodes) -> StronglySorted node_lt done ->
  (length nodes <= length entries)%nat ->
  let r := sort_loop nodes (length done) (fresh_entries done ++ entries) in
  (exists ids, r = Ok (fresh_entries ids ++ drop (length nodes) entries) /\
     StronglySorted node_lt ids /\ ids ≡ₚ done ++ nodes) \/
  (r = Err EEXIST /\ ~ NoDup (done ++ nodes)).
Proof.
  induction nodes as [|x nodes IH]; intros done entries Hw Hs Hl; cbn zeta.
  - left. exists done. cbn. now rewrite app_nil_r, drop_0.
  - destruct entries as [|j tl]; [cbn in Hl; lia|].
    pose proof Hw as Hw0. apply Forall_app in Hw as [Hwd [Hwx Hwn]%Forall_cons_iff].
    cbn [sort_loop]. pose proof (insert_node_spec done x j tl Hwd Hwx Hs) as Hins. cbn zeta in Hins.
    case_bool_decide as Hin.
    + rewrite Hins. right. split; [reflexivity|]. intros (_ & Hd & _)%list.NoDup_app.
      apply (Hd x Hin). now apply elem_of_cons; left.
    + destruct Hins as (ids & -> & Hs' & Hp). cbn [mbind result_bind].
      assert (ids ++ nodes ≡ₚ done ++ x :: nodes) as Hp'.
      { rewrite Hp. cbn. apply Permutation_middle. }
      replace (S (length done)) with (length ids) by (rewrite Hp; reflexivity).
      rewrite <- Hp' in Hw0. destruct (IH ids tl Hw0 Hs') as [(ids2 & -> & Hs2 & Hp2)|[-> Hnd]];
        [cbn in Hl; lia| |].
      * left. exists ids2. conj_split; auto. now rewrite Hp2.
      * right. split; [reflexivity|]. now rewrite <- Hp'.
Qed.

Lemma sorted_NoDup ids : StronglySorted node_lt ids -> NoDup ids.
Proof.
  induction 1 as [|x l Hs IH Hall]; constructor; auto. intros Hin.
  rewrite list.Forall_forall in Hall. exact (node_lt_irrefl x (Hall x Hin)).
Qed.

(** ** The assignment of locators *)

Fixpoint assign_ref (stack domain : bytes) (occupied : list Z) (ids : list melodi_node_id)
    : result (list melodi_mapping_entry) :=
  match ids with
  | [] => Ok []
  | id :: ids =>
      r ← melodi_map_native_locator_available stack domain id 0 occupied;
      rest ← assign_ref stack domain (occupied ++ [r.1]) ids;
      Ok (MkEntry id r.1 r.2 :: rest)
  end.

Lemma assign_loop_ref stack domain ids : forall done occupied tl,
  assign_loop stack domain (length ids) (length done) occupied (done ++ fresh_entries ids ++ tl) =
  l ← assign_ref stack domain occupied ids; Ok (done ++ l ++ tl).
Proof.
  induction ids as [|id ids IH]; intros done occupied tl; [reflexivity|].
  cbn [length assign_loop assign_ref fresh_entries map app]. rewrite entry_at_app. cbn [node_id].
  destruct (melodi_map_native_locator_available stack domain id 0 occupied) as [r|e]; [|reflexivity].
  cbn [mbind result_bind].
  rewrite insert_app_r_alt, Nat.sub_diag by lia. cbn [list_insert].
  change (<[0%nat := ?x]> (_ :: ?l)) with (x :: l).
  replace (S (length done)) with (length (done ++ [MkEntry id r.1 r.2])) by (rewrite length_app; cbn; lia).
  replace (done ++ MkEntry id r.1 r.2 :: map (fun n => MkEntry n 0 0) ids ++ tl)
    with ((done ++ [MkEntry id r.1 r.2]) ++ fresh_entries ids ++ tl) by now rewrite <- app_assoc.
  rewrite IH. destruct (assign_ref stack domain (occupied ++ [r.1]) ids); [|reflexivity].
  cbn. now rewrite <- app_assoc.
Qed.

(** Every entry carries the candidate of the least round that is acceptable and
    free given the entries before it. *)
Fixpoint well_assigned (domain : bytes) (occupied : list Z) (es : list melodi_mapping_entry) : Prop :=
  match es with
  | [] => True
  | e :: es =>
      e.(native_locator) = ref_candidate domain e.(node_id) e.(collision_round) /\
      least_round (fun q => acceptable (ref_candidate domain e.(node_id) q) &&
                            free occupied (ref_candidate domain e.(node_id) q)) 0 e.(collision_round) /\
      well_assigned domain (occupied ++ [e.(native_locator)]) es
  end.

Lemma least_round_ext P Q first r :
  (forall q, P q = Q q) -> least_round P first r -> least_round Q first r.
Proof.
  intros H (Hr & HP & Hlt). split; [exact Hr|]. split; [now rewrite <- H|]. intros q Hq. rewrite <- H. auto.
Qed.

Lemma available_invalid stack domain node first occupied :
  melodi_mapping_node_valid node = false -> zlen occupied <= 64 ->
  melodi_map_native_locator_available stack domain node first occupied = Err EINVAL.
Proof.
  intros Hv Ho. unfold melodi_map_native_locator_available.
  destruct (Z.ltb_spec MELODI_MAPPING_SET_LIMIT (zlen occupied)); [lia|].
  assert (forall q, melodi_map_native_locator stack domain node q = Err EINVAL) as Hm.
  { intros q. unfold melodi_map_native_locator. rewrite Hv. reflexivity. }
  rewrite iter_until_nat. destruct (Pos2Nat.is_succ rounds) as [n Hn]. rewrite Hn.
  cbn [iter_nat]. rewrite Hm. reflexivity.
Qed.

Lemma available_Ok stack domain node first occupied c r :
  length stack = 64%nat -> 0 <= first <= U32_MAX ->
  melodi_map_native_locator_available stack domain node first occupied = Ok (c, r) ->
  c = ref_candidate domain node r /\
  least_round (fun q => acceptable (ref_candidate domain node q) &&
                        free occupied (ref_candidate domain node q)) first r.
Proof.
  intros Hl Hf H. destruct (Z.ltb_spec 64 (zlen occupied)) as [Hbig|Hocc].
  { unfold melodi_map_native_locator_available in H.
    destruct (Z.ltb_spec 64 (zlen occupied)); [discriminate|lia]. }
  destruct (melodi_mapping_node_valid node) eqn:Hv.
  - destruct (available_search stack domain node first occupied Hv Hf Hocc)
      as [(q & Hq & Hleast)|[Hq _]]; rewrite H in Hq; [|discriminate].
    apply Ok_inj, pair_equal_spec in Hq as [-> ->]. rewrite candidate_ref by exact Hl. split; [reflexivity|].
    eapply least_round_ext; [|exact Hleast]. intros z. cbn beta. now rewrite candidate_ref by exact Hl.
  - rewrite available_invalid in H by assumption. discriminate.
Qed.

Lemma assign_ref_ok stack domain ids : forall occupied l,
  length stack = 64%nat -> assign_ref stack domain occupied ids = Ok l ->
  map node_id l = ids /\ well_assigned domain occupied l.
Proof.
  induction ids as [|id ids IH]; intros occupied l Hl H; cbn [assign_ref] in H.
  - apply Ok_inj in H. subst l. split; [reflexivity|exact I].
  - apply bind_Ok in H as ([c r] & Hr & H). apply bind_Ok in H as (rest & Hrest & H).
    apply Ok_inj in H. subst l. cbn [fst snd] in *.
    destruct (IH _ _ Hl Hrest) as [Hids Hw].
    destruct (available_Ok stack domain id 0 occupied c r Hl ltac:(unfold U32_MAX; lia) Hr) as [-> Hleast].
    cbn. rewrite Hids. conj_split; auto.
Qed.

(** Distinct locators follow. *)
Lemma well_assigned_NoDup domain es : forall occupied,
  well_assigned domain occupied es -> NoDup occupied ->
  NoDup (occupied ++ map native_locator es) /\
  Forall (fun e => acceptable e.(native_locator) = true) es.
Proof.
  induction es as [|e es IH]; intros occupied Hw Hnd; cbn [map]; [rewrite app_nil_r; auto|].
  destruct Hw as (Hloc & (_ & HP & _) & Hw). rewrite <- Hloc in HP.
  apply andb_true_iff in HP as [Hacc Hfree]. apply bool_decide_eq_true in Hfree.
  destruct (IH _ Hw) as [IH1 IH2].
  { apply list.NoDup_app. split; [exact Hnd|]. split; [|apply NoDup_singleton].
    intros x Hx ->%list_elem_of_singleton. contradiction. }
  split; [|now constructor]. now rewrite <- app_assoc in IH1.
Qed.

(** The whole call, as the assignment to a sorted permutation of the nodes. *)
Lemma resolve_eq stack domain nodes entries :
  Forall wf_node_id nodes -> 1 <= zlen nodes <= 64 -> (length nodes <= length entries)%nat ->
  (exists ids, StronglySorted node_lt ids /\ ids ≡ₚ nodes /\
     melodi_resolve_collision_set stack domain nodes entries =
       l ← assign_ref stack domain [] ids; Ok (l ++ drop (length nodes) entries)) \/
  (melodi_resolve_collision_set stack domain nodes entries = Err EEXIST /\ ~ NoDup nodes).
Proof.
  intros Hw Hn Hl. unfold melodi_resolve_collision_set.
  assert ((zlen nodes =? 0) || (MELODI_MAPPING_SET_LIMIT <? zlen nodes) = false) as -> by lia.
  destruct (sort_loop_spec nodes [] entries Hw) as [(ids & Hr & Hs & Hp)|[Hr Hnd]];
    [constructor|exact Hl| |]; cbn [length fresh_entries map app] in *; rewrite Hr; cbn [mbind result_bind].
  - left. exists ids. conj_split; auto. rewrite <- (Permutation_length Hp).
    exact (assign_loop_ref stack domain ids [] [] (drop (length ids) entries)).
  - now right.
Qed.

Lemma assign_ref_stack stack stack' domain ids : forall occupied,
  length stack = 64%nat -> length stack' = 64%nat ->
  (forall id occ, melodi_map_native_locator_available stack domain id 0 occ =
                  melodi_map_native_locator_available stack' domain id 0 occ) ->
  assign_ref stack domain occupied ids = assign_ref stack' domain occupied ids.
Proof.
  intros occupied Hl Hl' Hav. revert occupied. induction ids as [|id ids IH]; intros occupied; [reflexivity|].
  cbn [assign_ref]. rewrite Hav.
  destruct (melodi_map_native_locator_available stack' domain id 0 occupied); cbn [mbind result_bind]; [|reflexivity].
  now rewrite IH.
Qed.

Lemma least_round_unique P first r r' : least_round P first r -> least_round P first r' -> r = r'.
Proof.
  intros (Hr & HP & Hlt) (Hr' & HP' & Hlt').
  destruct (Z.lt_trichotomy r r') as [H|[H|H]]; auto.
  - rewrite (Hlt' r) in HP by lia. discriminate.
  - rewrite (Hlt r') in HP' by lia. discriminate.
Qed.

(** Two searches with the same specification agree. *)
Lemma search_spec_unique P f first r r' :
  search_spec P f first r -> search_spec P f first r' -> r = r'.
Proof.
  intros [(q & -> & Hq)|[-> Hn]] [(q' & -> & Hq')|[-> Hn']]; auto.
  - now rewrite (least_round_unique P first q q').
  - destruct Hq as (Hb & HP & _). rewrite Hn' in HP by lia. discriminate.
  - destruct Hq' as (Hb & HP & _). rewrite Hn in HP by lia. discriminate.
Qed.

Lemma search_spec_ext P Q f g first r :
  (forall q, P q = Q q) -> (forall q, f q = g q) -> search_spec P f first r -> search_spec Q g first r.
Proof.
  intros HP Hf [(q & -> & Hq)|[-> Hn]]; [left; exists q|right].
  - split; [now rewrite Hf|]. eapply least_round_ext; eauto.
  - split; [reflexivity|]. intros q Hq. rewrite <- HP. auto.
Qed.

(** What the call finds does not depend on the bytes of its stack. *)
Lemma available_ref stack domain node first occupied :
  length stack = 64%nat -> melodi_mapping_node_valid node = true -> 0 <= first <= U32_MAX ->
  zlen occupied <= 64 ->
  search_spec (fun q => acceptable (ref_candidate domain node q) &&
                        free occupied (ref_candidate domain node q))
    (ref_candidate domain node) first
    (melodi_map_native_locator_available stack domain node first occupied).
Proof.
  intros Hl Hv Hf Ho. eapply search_spec_ext; [| |now apply available_search]; intros q; cbn beta;
    now rewrite candidate_ref by exact Hl.
Qed.

Lemma available_stack stack stack' domain node occupied :
  length stack = 64%nat -> length stack' = 64%nat ->
  melodi_map_native_locator_available stack domain node 0 occupied =
  melodi_map_native_locator_available stack' domain node 0 occupied.
Proof.
  intros Hl Hl'. destruct (Z.ltb_spec 64 (zlen occupied)) as [Hbig|Ho].
  { unfold melodi_map_native_locator_available. now destruct (Z.ltb_spec 64 (zlen occupied)); [|lia]. }
  destruct (melodi_mapping_node_valid node) eqn:Hv.
  - eapply search_spec_unique; apply available_ref; auto; unfold U32_MAX; lia.
  - now rewrite !available_invalid.
Qed.

(** The assignment itself never reports a duplicate. *)
Lemma assign_ref_errors stack domain ids : forall occupied e,
  length stack = 64%nat -> assign_ref stack domain occupied ids = Err e -> e <> EEXIST.
Proof.
  induction ids as [|id ids IH]; intros occupied e Hl H; cbn [assign_ref] in H; [discriminate|].
  destruct (melodi_map_native_locator_available stack domain id 0 occupied) as [r|e'] eqn:Ea;
    cbn [mbind result_bind] in H.
  - destruct (assign_ref stack domain (occupied ++ [r.1]) ids) eqn:Er; cbn in H; [discriminate|].
    injection H as <-. eapply IH; eauto.
  - injection H as <-. destruct (Z.ltb_spec 64 (zlen occupied)) as [Hbig|Ho].
    { unfold melodi_map_native_locator_available in Ea.
      destruct (Z.ltb_spec 64 (zlen occupied)); [injection Ea as <-; discriminate|lia]. }
    destruct (melodi_mapping_node_valid id) eqn:Hv.
    + destruct (available_ref stack domain id 0 occupied Hl Hv ltac:(unfold U32_MAX; lia) Ho)
        as [(q & Hq & _)|[Hq _]]; rewrite Ea in Hq; [discriminate|]. injection Hq as ->. discriminate.
    + rewrite available_invalid in Ea by auto. injection Ea as <-. discriminate.
Qed.

(** ** Properties *)

(** C36: the locator of a node is the least good candidate.  Both searches, the
    plain one and the one that avoids a list of occupied locators, return the
    candidate of the least round, from the first one on, whose candidate is
    neither 0 nor the broadcast locator nor occupied, where the candidate is the
    first word of the digest of label, domain, node and round; only when no
    round up to 2^32-1 has one do they return [EOVERFLOW], and an invalid node
    is [EINVAL].  Neither depends on uninitialised memory. *)
Theorem locator_least stack domain node first occupied :
  length stack = 64%nat -> 0 <= first <= U32_MAX -> zlen occupied <= 64 ->
  if melodi_mapping_node_valid node then
    search_spec (fun q => acceptable (ref_candidate domain node q)) (ref_candidate domain node) first
      (melodi_map_native_locator stack domain node first) /\
    search_spec (fun q => acceptable (ref_candidate domain node q) &&
                          free occupied (ref_candidate domain node q))
      (ref_candidate domain node) first
      (melodi_map_native_locator_available stack domain node first occupied)
  else melodi_map_native_locator stack domain node first = Err EINVAL /\
       melodi_map_native_locator_available stack domain node first occupied = Err EINVAL.
Proof.
  intros Hl Hf Ho. destruct (melodi_mapping_node_valid node) eqn:Hv; split.
  - eapply search_spec_ext; [| |now apply map_locator_search]; intros q; cbn beta;
      now rewrite candidate_ref by exact Hl.
  - now apply available_ref.
  - unfold melodi_map_native_locator. rewrite Hv. reflexivity.
  - now apply available_invalid.
Qed.

Definition sample_node (last : Z) : melodi_node_id := MkNodeId
  [0x01; 0xd7; 0x5a; 0x98; 0x01; 0x82; 0xb1; 0x0a; 0xb7; 0xd5; 0x4b; 0xfe; 0xd3; 0xc9; 0x64; 0x07; 0x3a;
   0x0e; 0xe1; 0x72; 0xf3; 0xda; 0xa6; 0x23; 0x25; 0xaf; 0x02; 0x1a; 0x68; 0xf7; 0x07; 0x51; last].

(** The vector of tests/unit/test_mapping.c, and the next free round. *)
Lemma locator_least_witness :
  melodi_map_native_locator (replicate 64 0xcc) (replicate 32 0) (sample_node 0x1a) 0
    = Ok (0x3681f059, 0) /\
  search_spec (fun q => acceptable (ref_candidate (replicate 32 0) (sample_node 0x1a) q) &&
                        free [0x3681f059] (ref_candidate (replicate 32 0) (sample_node 0x1a) q))
      (ref_candidate (replicate 32 0) (sample_node 0x1a)) 0
      (melodi_map_native_locator_available (replicate 64 0xcc) (replicate 32 0) (sample_node 0x1a) 0
         [0x3681f059]).
Proof.
  split; [vm_compute; reflexivity|].
  apply (locator_least (replicate 64 0xcc) (replicate 32 0) (sample_node 0x1a) 0 [0x3681f059]);
    [reflexivity|unfold U32_MAX; lia|vm_compute; discriminate].
Defined.

(** A resolved set.  When a set of nodes is resolved, the entries are the
    nodes in increasing order of identity; their locators are pairwise distinct,
    none is 0 or broadcast, and each is the candidate of the least round that is
    free given the nodes before it; the rest of the caller's array is
    untouched. *)
Theorem collision_set_resolved stack domain nodes entries es :
  Forall wf_node_id nodes -> length stack = 64%nat -> (length nodes <= length entries)%nat ->
  melodi_resolve_collision_set stack domain nodes entries = Ok es ->
  StronglySorted node_lt (map node_id (take (length nodes) es)) /\
  map node_id (take (length nodes) es) ≡ₚ nodes /\
  NoDup (map native_locator (take (length nodes) es)) /\
  Forall (fun e => acceptable e.(native_locator) = true) (take (length nodes) es) /\
  well_assigned domain [] (take (length nodes) es) /\
  drop (length nodes) es = drop (length nodes) entries.
Proof.
  intros Hw Hst Hl Hr.
  assert (1 <= zlen nodes <= 64) as Hn.
  { unfold melodi_resolve_collision_set in Hr. destruct (_ || _) eqn:E; [discriminate|]. unfold zlen in *. lia. }
  destruct (resolve_eq stack domain nodes entries Hw Hn Hl) as [(ids & Hs & Hp & He)|[He _]];
    rewrite He in Hr; [|discriminate].
  apply bind_Ok in Hr as (l & Ha & Hr). apply Ok_inj in Hr. subst es.
  destruct (assign_ref_ok stack domain ids [] l Hst Ha) as [Hids Hwa].
  assert (length l = length nodes) as Hlen by (rewrite <- Hp, <- Hids, length_map; reflexivity).
  set (tl := drop (length nodes) entries) in *.
  assert (take (length nodes) (l ++ tl) = l) as -> by (rewrite <- Hlen; apply take_app_length).
  assert (drop (length nodes) (l ++ tl) = tl) as -> by (rewrite <- Hlen; apply drop_app_length).
  destruct (well_assigned_NoDup domain l [] Hwa) as [Hnd Hacc]; [constructor|].
  rewrite Hids. conj_split; auto.
Qed.

Lemma collision_set_resolved_witness :
  match melodi_resolve_collision_set (replicate 64 0) (replicate 32 0)
          [sample_node 9; sample_node 4; sample_node 7] (replicate 3 zero_entry) with
  | Ok es => map node_id (take 3 es) = [sample_node 4; sample_node 7; sample_node 9] /\
             NoDup (map native_locator (take 3 es))
  | Err _ => False
  end.
Proof.
  destruct (melodi_resolve_collision_set (replicate 64 0) (replicate 32 0)
    [sample_node 9; sample_node 4; sample_node 7] (replicate 3 zero_entry)) as [es|] eqn:E.
  - split.
    + vm_compute in E. injection E as <-. vm_compute. reflexivity.
    + apply (collision_set_resolved (replicate 64 0) (replicate 32 0)
        [sample_node 9; sample_node 4; sample_node 7] (replicate 3 zero_entry) es);
        [by_decide|reflexivity|vm_compute; lia|exact E].
  - vm_compute in E. discriminate.
Defined.

(** Every node computes the same map.  For the same set of nodes in any
    order, and whatever the uninitialised stack holds, resolving gives the same
    result, success or error; it is [EEXIST] exactly when an identity occurs
    twice. *)
Theorem collision_set_order_independent stack stack' domain nodes nodes' entries :
  Forall wf_node_id nodes -> length stack = 64%nat -> length stack' = 64%nat ->
  1 <= zlen nodes <= 64 -> (length nodes <= length entries)%nat -> nodes ≡ₚ nodes' ->
  melodi_resolve_collision_set stack domain nodes entries =
  melodi_resolve_collision_set stack' domain nodes' entries /\
  (melodi_resolve_collision_set stack domain nodes entries = Err EEXIST <-> ~ NoDup nodes).
Proof.
  intros Hw Hst Hst' Hn Hl Hperm.
  assert (forall ids occ, assign_ref stack domain occ ids = assign_ref stack' domain occ ids) as Hstack.
  { intros ids occ. apply assign_ref_stack; [exact Hst|exact Hst'|]. intros id occ'.
    exact (available_stack stack stack' domain id occ' Hst Hst'). }
  assert (Forall wf_node_id nodes') as Hw' by now rewrite <- Hperm.
  pose proof (Permutation_length Hperm) as Hlen. pose proof Hn as Hn'. pose proof Hl as Hl'.
  unfold zlen in Hn'. rewrite Hlen in Hn', Hl'.
  destruct (resolve_eq stack domain nodes entries Hw Hn Hl) as [(ids & Hs & Hp & He)|[He Hd]],
    (resolve_eq stack' domain nodes' entries Hw' Hn' Hl') as [(ids' & Hs' & Hp' & He')|[He' Hd']].
  - assert (ids = ids') as <-.
    { apply (StronglySorted_unique node_lt); auto. now rewrite Hp, Hp'. }
    rewrite He, He', Hstack, Hlen. split; [reflexivity|].
    split; [|intros Hnd; exfalso; apply Hnd; rewrite <- Hp; now apply sorted_NoDup].
    intros Hbad. exfalso. destruct (assign_ref stack' domain [] ids) as [l|e] eqn:Ea; [discriminate|].
    cbn in Hbad. injection Hbad as ->. exact (assign_ref_errors stack' domain ids [] EEXIST Hst' Ea eq_refl).
  - exfalso. apply Hd'. rewrite <- Hperm, <- Hp. now apply sorted_NoDup.
  - exfalso. apply Hd. rewrite Hperm, <- Hp'. now apply sorted_NoDup.
  - rewrite He, He'. split; [reflexivity|]. tauto.
Qed.

Lemma collision_set_order_independent_witness :
  melodi_resolve_collision_set (replicate 64 0) (replicate 32 0)
    [sample_node 9; sample_node 4] (replicate 2 zero_entry) =
  melodi_resolve_collision_set (replicate 64 1) (replicate 32 0)
    [sample_node 4; sample_node 9] (replicate 2 zero_entry).
Proof.
  apply (collision_set_order_independent (replicate 64 0) (replicate 64 1) (replicate 32 0)
    [sample_node 9; sample_node 4] [sample_node 4; sample_node 9]);
    [by_decide|reflexivity|reflexivity|by_decide|vm_compute; lia|apply perm_swap].
Defined.
