(* ===== verification/NodeId.v ===== *)
(** * Textual node identities (src/proto/nodeid.c, src/proto/nodeid.h)

    A node identity is written as ["m"] and 53 z-base-32 digits.  The libsodium
    calls are parameters: [sodium_init] and the point check, as the integers
    they return.  Characters are their byte codes. *)
From S2P Require Import Prelude Buffer Uapi.

Inductive melodi_nodeid_result : Set :=
| MELODI_NODEID_OK
| MELODI_NODEID_INVALID
| MELODI_NODEID_LENGTH
| MELODI_NODEID_SCHEME
| MELODI_NODEID_ENCODING
| MELODI_NODEID_KEY.

#[export] Instance melodi_nodeid_result_eq_dec : EqDecision melodi_nodeid_result.
Proof. solve_decision. Defined.

(** ["ybndrfg8ejkmcpqxot1uwisza345h769"] *)
Definition melodi_zbase32 : bytes :=
  [121; 98; 110; 100; 114; 102; 103; 56; 101; 106; 107; 109; 99; 112; 113; 120;
   111; 116; 49; 117; 119; 105; 115; 122; 97; 51; 52; 53; 104; 55; 54; 57].

Definition melodi_is_uniform (bs : bytes) (value : Z) : bool :=
  fold_left (fun different b => Z.lor different (Z.lxor b value)) bs 0 =? 0.

(** [while (bits >= 5)]: at most twelve bits are held, so two turns suffice. *)
Fixpoint emit_loop (fuel : nat) (accumulator bits : Z) (output : bytes) : Z * bytes :=
  match fuel with
  | O => (bits, output)
  | S fuel =>
      if 5 <=? bits then
        let bits := bits - 5 in
        emit_loop fuel accumulator bits
          (output ++ [byte_at (Z.to_nat (Z.land (Z.shiftr accumulator bits) 31)) melodi_zbase32])
      else (bits, output)
  end.

(** One turn of the loop over the identity's bytes; the state is the
    accumulator, the number of bits it holds and the characters written. *)
Definition format_byte (s : Z * Z * bytes) (byte : Z) : Z * Z * bytes :=
  let '(accumulator, bits, output) := s in
  let accumulator := Z.lor (wrap 32 (Z.shiftl accumulator 8)) byte in
  let '(bits, output) := emit_loop 2 accumulator (bits + 8) output in
  (accumulator, bits, output).

(** [strchr(melodi_zbase32, character)]: the terminator of the string is one of
    the characters it finds. *)
Definition melodi_zbase32_value (character : Z) : Z :=
  match find_index (fun c => c =? character) (melodi_zbase32 ++ [0]) with
  | Some position => Z.of_nat position
  | None => -1
  end.

(** The loop over the characters; the state is the accumulator, the number of
    bits and the bytes written. *)
Fixpoint parse_loop (text : bytes) (accumulator bits : Z) (node : bytes)
    : option (Z * Z) * bytes :=
  match text with
  | [] => (Some (accumulator, bits), node)
  | c :: text =>
      let value := melodi_zbase32_value c in
      if value <? 0 then (None, node) else
      let accumulator := Z.lor (wrap 32 (Z.shiftl accumulator 5)) value in
      let bits := bits + 5 in
      if 8 <=? bits then
        let bits := bits - 8 in
        if (MELODI_NODE_ID_SIZE <=? length node)%nat then (None, node)
        else parse_loop text accumulator bits (node ++ [wrap 8 (Z.shiftr accumulator bits)])
      else parse_loop text accumulator bits node
  end.

(** The identity after [memset] and the bytes written so far. *)
Definition padded (node : bytes) : melodi_node_id :=
  MkNodeId (node ++ replicate (MELODI_NODE_ID_SIZE - length node) 0).

Section NodeId.
  Context (sodium_init : Z) (crypto_core_ed25519_is_valid_point : bytes -> Z).

Definition melodi_key_is_valid (key : bytes) : bool :=
  (0 <=? sodium_init) && (crypto_core_ed25519_is_valid_point key =? 1).

Definition melodi_nodeid_validate (node : melodi_node_id) : melodi_nodeid_result :=
  if melodi_is_uniform node.(node_bytes) 0x00 || melodi_is_uniform node.(node_bytes) 0xff
  then MELODI_NODEID_INVALID else
  if negb (byte_at 0 node.(node_bytes) =? MELODI_NODE_ID_SCHEME_ED25519) then MELODI_NODEID_SCHEME else
  if negb (melodi_key_is_valid (drop 1 node.(node_bytes))) then MELODI_NODEID_KEY else
  MELODI_NODEID_OK.

(** The return value and the characters written, with their terminator. *)
Definition melodi_nodeid_format (node : melodi_node_id) : melodi_nodeid_result * bytes :=
  match melodi_nodeid_validate node with
  | MELODI_NODEID_OK =>
      let '(accumulator, bits, output) := fold_left format_byte node.(node_bytes) (0, 0, [109]) in
      let output :=
        if negb (bits =? 0)
        then output ++ [byte_at (Z.to_nat (Z.land (wrap 32 (Z.shiftl accumulator (5 - bits))) 31))
                          melodi_zbase32]
        else output in
      (if Nat.eqb (length output) MELODI_NODE_ID_TEXT_SIZE then MELODI_NODEID_OK
       else MELODI_NODEID_ENCODING, output ++ [0])
  | error => (error, [])
  end.

(** The return value and the identity the caller is left with; [before] is what
    it held. *)
Definition melodi_nodeid_parse (text : bytes) (before : melodi_node_id)
    : melodi_nodeid_result * melodi_node_id :=
  if negb (Nat.eqb (length text) MELODI_NODE_ID_TEXT_SIZE) || negb (byte_at 0 text =? 109)
  then (MELODI_NODEID_LENGTH, before) else
  let '(final, written) := parse_loop (drop 1 text) 0 0 [] in
  let node := padded written in
  match final with
  | None => (MELODI_NODEID_ENCODING, node)
  | Some (accumulator, bits) =>
      if negb (Nat.eqb (length written) MELODI_NODE_ID_SIZE) || negb (bits =? 1) ||
         negb (Z.land accumulator 1 =? 0)
      then (MELODI_NODEID_ENCODING, node) else
      match melodi_nodeid_validate node with
      | MELODI_NODEID_OK =>
          match melodi_nodeid_format node with
          | (MELODI_NODEID_OK, canonical) =>
              if bool_decide (text = take (length text) canonical) then (MELODI_NODEID_OK, node)
              else (MELODI_NODEID_ENCODING, node)
          | _ => (MELODI_NODEID_ENCODING, node)
          end
      | error => (error, node)
      end
  end.
End NodeId.

(** ** Positional numbers *)

(** The value of a list of digits, most significant first. *)
Definition num (base : Z) (l : list Z) : Z := fold_left (fun a d => a * base + d) l 0.

Lemma num_acc base l : forall a, fold_left (fun a d => a * base + d) l a = a * base ^ Z.of_nat (length l) + num base l.
Proof.
  unfold num. induction l as [|d l IH]; intros a; cbn [fold_left length]; [cbn; lia|].
  rewrite IH, (IH (0 * base + d)), Nat2Z.inj_succ, Z.pow_succ_r by lia. lia.
Qed.

Lemma num_snoc base l d : num base (l ++ [d]) = num base l * base + d.
Proof. unfold num. now rewrite fold_left_app. Qed.

Lemma num_bound base l : 0 < base -> Forall (fun d => 0 <= d < base) l ->
  0 <= num base l < base ^ Z.of_nat (length l).
Proof.
  intros Hb. induction l as [|d l IH] using rev_ind; intros Hl; [cbn; lia|].
  apply Forall_app in Hl as [Hl [Hd _]%Forall_cons_iff]. specialize (IH Hl).
  rewrite num_snoc, length_app, Nat2Z.inj_add, Z.pow_add_r by (cbn; lia).
  change (Z.of_nat (length [d])) with 1. rewrite Z.pow_1_r. nia.
Qed.

(** The digits of a number of fixed length are unique. *)
Lemma num_inj base l : 0 < base -> forall k, length l = length k ->
  Forall (fun d => 0 <= d < base) l -> Forall (fun d => 0 <= d < base) k ->
  num base l = num base k -> l = k.
Proof.
  intros Hb. induction l as [|d l IH] using rev_ind; intros k Hlen Hl Hk Hn.
  - now destruct k.
  - destruct k as [|e k _] using rev_ind; [rewrite length_app in Hlen; cbn in Hlen; lia|].
    rewrite !length_app in Hlen. cbn in Hlen.
    apply Forall_app in Hl as [Hl [Hd _]%Forall_cons_iff].
    apply Forall_app in Hk as [Hk [He _]%Forall_cons_iff]. rewrite !num_snoc in Hn.
    assert (num base l = num base k /\ d = e) as [Hn' ->].
    { assert (num base l = num base k) by nia. split; [auto|nia]. }
    f_equal. apply IH; auto. lia.
Qed.

(** Splitting off the top bits of an accumulator. *)
Lemma split_bits a k w : 0 <= k -> 0 <= w -> a mod 2 ^ (k + w) = (a / 2 ^ k) mod 2 ^ w * 2 ^ k + a mod 2 ^ k.
Proof.
  intros Hk Hw. rewrite Z.pow_add_r, Z.rem_mul_r by lia. lia.
Qed.

(** Shifting [w] more bits into a 32-bit accumulator that holds [k]. *)
Lemma push_bits a v k w :
  0 <= k -> 0 <= w -> k + w <= 32 -> uint w v ->
  let a' := Z.lor (wrap 32 (Z.shiftl a w)) v in
  a' mod 2 ^ (k + w) = a mod 2 ^ k * 2 ^ w + v.
Proof.
  intros Hk Hw Hkw Hv. cbn zeta.
  assert (wrap 32 (Z.shiftl a w) = Z.shiftl (a mod 2 ^ (32 - w)) w) as ->.
  { unfold wrap. rewrite !Z.shiftl_mul_pow2 by lia. replace 32 with (32 - w + w) at 1 by lia.
    now rewrite Z.pow_add_r, Z.mul_mod_distr_r by lia. }
  rewrite lor_shiftl by auto.
  replace (k + w) with (w + k) by lia.
  rewrite (split_bits _ w k) by lia. unfold uint in Hv.
  rewrite Z.div_add_l, (Z.div_small v), Z.add_0_r by lia.
  rewrite (Z.add_comm (_ * 2 ^ w) v), Z.mod_add, (Z.mod_small v) by lia. f_equal. f_equal.
  replace (32 - w) with (k + (32 - w - k)) by lia. rewrite split_bits by lia.
  rewrite Z.add_comm, Z.mod_add, Z.mod_mod by lia. reflexivity.
Qed.

(** ** Digits and characters *)

Definition zchar (d : Z) : Z := byte_at (Z.to_nat d) melodi_zbase32.

Abbreviation digit := (fun d => 0 <= d < 32).

Lemma zbase32_value_zchar d : 0 <= d < 32 -> melodi_zbase32_value (zchar d) = d.
Proof.
  intros Hd. assert (forallb (fun k => melodi_zbase32_value (zchar (Z.of_nat k)) =? Z.of_nat k) (seq 0 32) = true)
    as H by (vm_compute; reflexivity).
  rewrite forallb_forall in H. specialize (H (Z.to_nat d) ltac:(apply in_seq; lia)).
  rewrite Z2Nat.id in H by lia. now apply Z.eqb_eq in H.
Qed.

Lemma land_31 x : Z.land x 31 = x mod 32.
Proof. apply (Z.land_ones x 5). lia. Qed.

(** ** The encoder's loop

    After a prefix [bs] of the bytes, the digits written and the bits held
    spell the prefix. *)
Definition spelled (bs : bytes) (s : Z * Z * bytes) : Prop :=
  let '(a, k, out) := s in
  0 <= k < 5 /\ exists ds, out = 109 :: map zchar ds /\ Forall digit ds /\
    5 * zlen ds + k = 8 * zlen bs /\ num 32 ds * 2 ^ k + a mod 2 ^ k = num 256 bs.

Lemma emit_one a k ds n :
  5 <= k -> Forall digit ds -> num 32 ds * 2 ^ k + a mod 2 ^ k = n ->
  let d := Z.land (Z.shiftr a (k - 5)) 31 in
  Forall digit (ds ++ [d]) /\ num 32 (ds ++ [d]) * 2 ^ (k - 5) + a mod 2 ^ (k - 5) = n.
Proof.
  intros Hk Hds Hn. cbn zeta. rewrite land_31, Z.shiftr_div_pow2 by lia. split.
  - apply Forall_app. split; [exact Hds|]. apply Forall_singleton. apply Z.mod_pos_bound. lia.
  - pose proof (split_bits a (k - 5) 5 ltac:(lia) ltac:(lia)) as Hs.
    assert (2 ^ k = 2 ^ (k - 5) * 32) as Hp.
    { change 32 with (2 ^ 5). rewrite <- Z.pow_add_r by lia. f_equal. lia. }
    replace (k - 5 + 5) with k in Hs by lia. change (2 ^ 5) with 32 in Hs.
    rewrite num_snoc, <- Hn, Hs, Hp. lia.
Qed.

Lemma format_byte_spelled bs s b : spelled bs s -> u8 b -> spelled (bs ++ [b]) (format_byte s b).
Proof.
  destruct s as [[a k] out]. intros (Hk & ds & -> & Hds & Hlen & Hn) Hb. unfold format_byte.
  set (a' := Z.lor (wrap 32 (Z.shiftl a 8)) b).
  assert (num 32 ds * 2 ^ (k + 8) + a' mod 2 ^ (k + 8) = num 256 (bs ++ [b])) as Hn'.
  { unfold a'. rewrite push_bits by (auto; lia). rewrite num_snoc, <- Hn, Z.pow_add_r by lia.
    change (2 ^ 8) with 256. lia. }
  assert (forall l : list Z, forall d, zlen (l ++ [d]) = zlen l + 1) as Hsn
    by (intros; unfold zlen; rewrite length_app; cbn; lia).
  cbn [emit_loop]. destruct (Z.leb_spec 5 (k + 8)); [|lia].
  destruct (emit_one a' (k + 8) ds _ ltac:(lia) Hds Hn') as [Hds1 Hn1].
  set (d1 := Z.land (Z.shiftr a' (k + 8 - 5)) 31) in *.
  assert ((109 :: map zchar ds) ++ [byte_at (Z.to_nat d1) melodi_zbase32] = 109 :: map zchar (ds ++ [d1])) as ->.
  { rewrite map_app. reflexivity. }
  destruct (Z.leb_spec 5 (k + 8 - 5)); cbn [fst snd].
  - destruct (emit_one a' (k + 8 - 5) (ds ++ [d1]) _ ltac:(lia) Hds1 Hn1) as [Hds2 Hn2].
    set (d2 := Z.land (Z.shiftr a' (k + 8 - 5 - 5)) 31) in *.
    assert ((109 :: map zchar (ds ++ [d1])) ++ [byte_at (Z.to_nat d2) melodi_zbase32]
            = 109 :: map zchar ((ds ++ [d1]) ++ [d2])) as ->.
    { rewrite (map_app _ (ds ++ [d1])). reflexivity. }
    split; [lia|]. exists ((ds ++ [d1]) ++ [d2]). rewrite !Hsn. conj_split; auto. lia.
  - split; [lia|]. exists (ds ++ [d1]). rewrite !Hsn. conj_split; auto. lia.
Qed.

Lemma format_loop_spelled bs : Forall u8 bs -> spelled bs (fold_left format_byte bs (0, 0, [109])).
Proof.
  induction bs as [|b bs IH] using rev_ind; intros Hb.
  - split; [lia|]. exists []. repeat split. constructor.
  - apply Forall_app in Hb as [Hb [Hb1 _]%Forall_cons_iff]. rewrite fold_left_app. cbn [fold_left].
    apply format_byte_spelled; auto.
Qed.

(** The text of an identity: its digits are the base-32 digits of twice its
    value, 53 of them. *)
Definition spells (text : bytes) (bs : bytes) : Prop :=
  exists ds, text = 109 :: map zchar ds /\ Forall digit ds /\ length ds = 53%nat /\
    num 32 ds = 2 * num 256 bs.

Section Spec.
  Context (sodium_init : Z) (point : bytes -> Z).
  Abbreviation validate := (melodi_nodeid_validate sodium_init point).
  Abbreviation format := (melodi_nodeid_format sodium_init point).
  Abbreviation parse := (melodi_nodeid_parse sodium_init point).

Lemma format_spells node :
  wf_node_id node -> validate node = MELODI_NODEID_OK ->
  exists text, format node = (MELODI_NODEID_OK, text ++ [0]) /\ spells text node.(node_bytes).
Proof.
  intros [Hl Hu] Hv. unfold melodi_nodeid_format. rewrite Hv.
  pose proof (format_loop_spelled (node_bytes node) Hu) as Hs.
  destruct (fold_left format_byte (node_bytes node) (0, 0, [109])) as [[a k] out].
  destruct Hs as (Hk & ds & -> & Hds & Hlen & Hn).
  unfold zlen in Hlen. rewrite Hl in Hlen. change (8 * Z.of_nat 33) with 264 in Hlen.
  assert (k = 4) as -> by lia. cbn [Z.eqb negb].
  set (d := Z.land (wrap 32 (Z.shiftl a (5 - 4))) 31).
  assert (d = a mod 2 ^ 4 * 2) as Hd.
  { unfold d, wrap. rewrite land_31, Z.shiftl_mul_pow2 by lia. pow_norm.
    change (2 ^ (5 - 4)) with 2. change (2 ^ 4) with 16. div_lia. }
  assert (0 <= d < 32) as Hdr by (rewrite Hd; change (2 ^ 4) with 16; div_lia).
  assert ((109 :: map zchar ds) ++ [byte_at (Z.to_nat d) melodi_zbase32] = 109 :: map zchar (ds ++ [d])) as ->.
  { rewrite map_app. reflexivity. }
  exists (109 :: map zchar (ds ++ [d])). split.
  - cbn [length]. rewrite length_map, length_app. cbn [length].
    replace (length ds + 1)%nat with 53%nat by lia. reflexivity.
  - exists (ds ++ [d]). conj_split; [reflexivity| | |].
    + apply Forall_app. split; [exact Hds|]. now apply Forall_singleton.
    + rewrite length_app. cbn [length]. lia.
    + rewrite num_snoc, <- Hn, Hd. change (2 ^ 4) with 16. lia.
Qed.

(** The decoder's loop: the bytes written and the bits held spell the digits. *)
Lemma parse_loop_digits rest : forall ds a k out,
  Forall digit (ds ++ rest) -> (length (ds ++ rest) <= 53)%nat -> 0 <= k < 8 -> Forall u8 out ->
  8 * zlen out + k = 5 * zlen ds -> num 256 out * 2 ^ k + a mod 2 ^ k = num 32 ds ->
  exists a' k' out', parse_loop (map zchar rest) a k out = (Some (a', k'), out') /\ 0 <= k' < 8 /\
    Forall u8 out' /\ 8 * zlen out' + k' = 5 * zlen (ds ++ rest) /\
    num 256 out' * 2 ^ k' + a' mod 2 ^ k' = num 32 (ds ++ rest).
Proof.
  induction rest as [|d rest IH]; intros ds a k out Hd Hlen Hk Ho Hz Hn.
  - rewrite app_nil_r in *. exists a, k, out. cbn. auto.
  - cbn [map parse_loop]. pose proof Hd as Hd'. apply Forall_app in Hd' as [Hds [Hdd _]%Forall_cons_iff].
    rewrite zbase32_value_zchar by exact Hdd. destruct (Z.ltb_spec d 0); [lia|].
    set (a' := Z.lor (wrap 32 (Z.shiftl a 5)) d).
    replace (ds ++ d :: rest) with ((ds ++ [d]) ++ rest) in * by now rewrite <- app_assoc.
    assert (zlen (ds ++ [d]) = zlen ds + 1) as Hsn by (unfold zlen; rewrite length_app; cbn; lia).
    assert (num 256 out * 2 ^ (k + 5) + a' mod 2 ^ (k + 5) = num 32 (ds ++ [d])) as Hn'.
    { unfold a'. rewrite push_bits by (auto; try lia; unfold uint; lia).
      rewrite num_snoc, <- Hn, Z.pow_add_r by lia. change (2 ^ 5) with 32. lia. }
    destruct (Z.leb_spec 8 (k + 5)).
    + assert (length out < 33)%nat as Hout.
      { rewrite length_app in Hlen. unfold zlen in *. rewrite length_app in Hlen. cbn in Hlen. lia. }
      destruct (Nat.leb_spec MELODI_NODE_ID_SIZE (length out)); [lia|].
      apply IH; auto; try lia.
      * apply Forall_app. split; [exact Ho|]. apply Forall_singleton. auto with melodi.
      * unfold zlen in *. rewrite (length_app out). cbn [length]. lia.
      * pose proof (split_bits a' (k + 5 - 8) 8 ltac:(lia) ltac:(lia)) as Hs.
        assert (2 ^ (k + 5) = 2 ^ (k + 5 - 8) * 256) as Hp.
        { change 256 with (2 ^ 8). rewrite <- Z.pow_add_r by lia. f_equal. lia. }
        replace (k + 5 - 8 + 8) with (k + 5) in Hs by lia. change (2 ^ 8) with 256 in Hs.
        rewrite num_snoc, wrap8_shiftr by lia. lia.
    + apply IH; auto; lia.
Qed.

Lemma spells_parse text node before :
  wf_node_id node -> validate node = MELODI_NODEID_OK -> spells text node.(node_bytes) ->
  parse text before = (MELODI_NODEID_OK, node).
Proof.
  intros Hw Hv Hs. destruct (format_spells node Hw Hv) as (t' & Hf & Hs').
  destruct Hs as (ds & -> & Hds & Hl & Hn). destruct Hs' as (ds' & -> & Hds' & Hl' & Hn').
  assert (ds' = ds) as -> by (apply (num_inj 32); auto; lia || congruence).
  unfold melodi_nodeid_parse. cbn [length]. rewrite length_map, Hl. cbn [Nat.eqb negb orb byte_at nth].
  change (byte_at 0 (109 :: map zchar ds) =? 109) with true. cbn [negb orb].
  change (drop 1 (109 :: map zchar ds)) with (map zchar ds).
  destruct (parse_loop_digits ds [] 0 0 []) as (a & k & out & -> & Hk & Ho & Hz & Hnum); auto;
    [cbn; lia|lia|]. cbn [app] in Hz, Hnum. destruct Hw as [Hwl Hwu].
  unfold zlen in Hz. rewrite Hl in Hz. change (5 * Z.of_nat 53) with 265 in Hz.
  assert (k = 1) as -> by lia. assert (length out = 33%nat) as Hol by lia.
  rewrite Hn in Hnum. change (2 ^ 1) with 2 in Hnum.
  assert (a mod 2 = 0 /\ num 256 out = num 256 (node_bytes node)) as [Ha Hnn].
  { pose proof (Z.mod_pos_bound a 2 ltac:(lia)). lia. }
  assert (out = node_bytes node) as Hout.
  { apply (num_inj 256); auto; [lia|congruence|..]; eapply list.Forall_impl; eauto; unfold uint; intros; lia. }
  assert (padded out = node) as ->.
  { unfold padded. rewrite Hol. change (replicate (33 - 33) 0) with (@nil Z). rewrite app_nil_r, Hout.
    now destruct node. }
  assert (Z.land a 1 = 0) as -> by (etransitivity; [apply (Z.land_ones a 1); lia|exact Ha]).
  rewrite Hol. cbn [Nat.eqb negb orb Z.eqb]. rewrite Hv, Hf.
  rewrite bool_decide_eq_true_2; [reflexivity|].
  assert (length (109 :: map zchar ds) = 54%nat) as Hlen by (cbn [length]; now rewrite length_map, Hl).
  replace 54%nat with (length (109 :: map zchar ds)). symmetry. apply take_app_length.
Qed.

Lemma parse_loop_u8 text : forall a k out, Forall u8 out -> Forall u8 (parse_loop text a k out).2.
Proof.
  induction text as [|c text IH]; intros a k out Ho; cbn [parse_loop]; [exact Ho|].
  guards; try exact Ho; apply IH; auto.
  apply Forall_app. split; [exact Ho|]. apply Forall_singleton. auto with melodi.
Qed.

Lemma parse_format text node before :
  parse text before = (MELODI_NODEID_OK, node) ->
  wf_node_id node /\ validate node = MELODI_NODEID_OK /\ format node = (MELODI_NODEID_OK, text ++ [0]).
Proof.
  unfold melodi_nodeid_parse.
  destruct (Nat.eqb_spec (length text) MELODI_NODE_ID_TEXT_SIZE) as [Hlt|]; [|discriminate].
  cbn [negb orb]. destruct (negb _); [discriminate|].
  pose proof (parse_loop_u8 (drop 1 text) 0 0 [] (Forall_nil_2 _)) as Hu.
  destruct (parse_loop (drop 1 text) 0 0 []) as [[[a k]|] out]; [|discriminate]. cbn [snd] in Hu.
  destruct (_ || _) eqn:Eg; [discriminate|]. guard_hyps. apply Nat.eqb_eq in H.
  destruct (validate (padded out)) eqn:Hv; try discriminate.
  assert (wf_node_id (padded out)) as Hw.
  { unfold padded, wf_node_id. rewrite H. split; cbn; rewrite app_nil_r; assumption. }
  destruct (format_spells (padded out) Hw Hv) as (t & Hf & (ds & Ht & _ & Hl & _)). rewrite Hf.
  destruct (bool_decide _) eqn:Eb; [|discriminate]. apply bool_decide_eq_true in Eb.
  intros [= <-]. conj_split; auto. rewrite Hf. do 2 f_equal.
  assert (length t = 54%nat) as Htl by (rewrite Ht; cbn [length]; now rewrite length_map, Hl).
  rewrite Hlt, <- Htl, take_app_length in Eb. now symmetry.
Qed.
End Spec.

(** ** Properties *)

Lemma format_total sodium_init point node :
  wf_node_id node ->
  let verdict := melodi_nodeid_validate sodium_init point node in
  if decide (verdict = MELODI_NODEID_OK) then
    exists text, melodi_nodeid_format sodium_init point node = (MELODI_NODEID_OK, text ++ [0]) /\
      length text = MELODI_NODE_ID_TEXT_SIZE /\ spells text node.(node_bytes)
  else melodi_nodeid_format sodium_init point node = (verdict, []).
Proof.
  intros Hw. cbn zeta. case_decide as Hv.
  - destruct (format_spells sodium_init point node Hw Hv) as (t & Hf & Hs). exists t.
    split; [exact Hf|]. split; [|exact Hs]. destruct Hs as (ds & -> & _ & Hl & _).
    cbn [length]. now rewrite length_map, Hl.
  - unfold melodi_nodeid_format. now destruct (melodi_nodeid_validate sodium_init point node).
Qed.

Lemma parse_exact sodium_init point text node before :
  melodi_nodeid_parse sodium_init point text before = (MELODI_NODEID_OK, node) <->
  wf_node_id node /\ melodi_nodeid_validate sodium_init point node = MELODI_NODEID_OK /\
  melodi_nodeid_format sodium_init point node = (MELODI_NODEID_OK, text ++ [0]).
Proof.
  split; [apply parse_format|]. intros (Hw & Hv & Hf).
  destruct (format_spells sodium_init point node Hw Hv) as (t & Hf' & Hs).
  rewrite Hf in Hf'. injection Hf' as Ht. apply app_inj_tail in Ht as [-> _].
  now apply spells_parse.
Qed.

(** C37: identities as text.  Whatever libsodium answers, a valid identity is
    formatted as ["m"] and 53 characters of the alphabet followed by the terminator,
    55 bytes in all; the characters are the base-32 digits of the identity followed
    by one zero bit.  An invalid one is refused with the verdict of the validation
    and nothing is written.  And there is one spelling: a text is accepted as an
    identity exactly when it is what the identity, valid by the same verdict, is
    formatted as, so the parser inverts the formatter and accepts no other text, a
    NUL character (which the digit lookup finds) or a set padding bit included. *)
Theorem nodeid_text_exact sodium_init point node :
  (wf_node_id node ->
   let verdict := melodi_nodeid_validate sodium_init point node in
   if decide (verdict = MELODI_NODEID_OK) then
     exists text, melodi_nodeid_format sodium_init point node = (MELODI_NODEID_OK, text ++ [0]) /\
       length text = MELODI_NODE_ID_TEXT_SIZE /\ spells text node.(node_bytes)
   else melodi_nodeid_format sodium_init point node = (verdict, [])) /\
  forall text before,
    melodi_nodeid_parse sodium_init point text before = (MELODI_NODEID_OK, node) <->
    wf_node_id node /\ melodi_nodeid_validate sodium_init point node = MELODI_NODEID_OK /\
    melodi_nodeid_format sodium_init point node = (MELODI_NODEID_OK, text ++ [0]).
Proof. split; [apply format_total|intros; apply parse_exact]. Qed.

(** The identity of tests/unit/test_mapping.c, with a point check that accepts
    it. *)
Definition sample_id : melodi_node_id := MkNodeId
  [0x01; 0xd7; 0x5a; 0x98; 0x01; 0x82; 0xb1; 0x0a; 0xb7; 0xd5; 0x4b; 0xfe; 0xd3; 0xc9; 0x64; 0x07; 0x3a;
   0x0e; 0xe1; 0x72; 0xf3; 0xda; 0xa6; 0x23; 0x25; 0xaf; 0x02; 0x1a; 0x68; 0xf7; 0x07; 0x51; 0x1a].

Lemma nodeid_text_exact_witness :
  let text := take 54 (melodi_nodeid_format 0 (fun _ => 1) sample_id).2 in
  melodi_nodeid_parse 0 (fun _ => 1) text (MkNodeId []) = (MELODI_NODEID_OK, sample_id) /\
  (if decide (melodi_nodeid_validate 0 (fun _ => 1) sample_id = MELODI_NODEID_OK) then
     exists text, melodi_nodeid_format 0 (fun _ => 1) sample_id = (MELODI_NODEID_OK, text ++ [0]) /\
       length text = MELODI_NODE_ID_TEXT_SIZE /\ spells text sample_id.(node_bytes)
   else melodi_nodeid_format 0 (fun _ => 1) sample_id = (melodi_nodeid_validate 0 (fun _ => 1) sample_id, [])).
Proof.
  cbn zeta. split.
  - apply (nodeid_text_exact 0 (fun _ => 1) sample_id).
    split; [by_decide|]. split; vm_compute; reflexivity.
  - apply (nodeid_text_exact 0 (fun _ => 1) sample_id). by_decide.
Defined.
