(* ===== verification/Genl.v ===== *)
(** * The netlink message codec (src/proto/genl.c, src/proto/genl.h)

    Generic-netlink messages of user space: the builder, the parser with its
    attribute widths and nested blocks, and the schema of every command.
    Netlink integers are in host byte order, which is a parameter.  A pointer to
    an attribute with its length is the list of its bytes; the array of pointers
    indexed by type is a finite map. *)
From stdpp Require Import gmap.
From S2P Require Import Prelude Buffer Uapi.

Abbreviation NLMSG_HDRLEN := 16.
Abbreviation GENL_HDRLEN := 4.
Abbreviation NLA_HDRLEN := 4.
Abbreviation NLA_F_NESTED := 0x8000.
Abbreviation NLA_TYPE_MASK := 0x3fff.

Record melodi_genl_builder := MkBuilder {
  data : bytes;
  length_ : Z;
}.

Record melodi_genl_message := MkMessage {
  family : Z;
  msg_flags : Z;
  sequence : Z;
  portid : Z;
  command : Z;
  attributes : gmap Z bytes;
}.

Definition melodi_command_valid (command : Z) : bool :=
  ((MELODI_CMD_BIND <=? command) && (command <=? MELODI_CMD_GET_BINDING)) ||
  ((MELODI_CMD_LINK_GET <=? command) && (command <=? MELODI_CMD_MONITOR_FRAME)).

(** [switch (type) { case ...: }] *)
Definition case (type : Z) (labels : list Z) : bool := existsb (Z.eqb type) labels.

Definition melodi_attribute_width (type length : Z) : bool :=
  if case type [MELODI_A_IFINDEX; MELODI_A_FLAGS; MELODI_A_TTL_MS; MELODI_A_KEY_SERIAL;
                MELODI_A_PEER_NATIVE_LOCATOR; MELODI_A_COLLISION_ROUND; MELODI_A_GENERATION;
                MELODI_A_LINK_ERROR; MELODI_A_PEER_EXPIRY_MS; MELODI_A_PEER_CAPABILITIES;
                MELODI_A_FRAME_PACE_US]
  then length =? 4 else
  if case type [MELODI_A_LOCAL_SERVICE; MELODI_A_DEST_SERVICE; MELODI_A_SOURCE_SERVICE;
                MELODI_A_LINK_FAILURE; MELODI_A_POLICY_SERVICE; MELODI_A_PEER_RSSI;
                MELODI_A_PEER_SNR]
  then length =? 2 else
  if case type [MELODI_A_DEST_NODE; MELODI_A_SOURCE_NODE; MELODI_A_NODE_ID;
                MELODI_A_PREVIOUS_NODE_ID]
  then length =? 33 else
  if case type [MELODI_A_COOKIE; MELODI_A_PEER_LAST_SEEN_NS] then length =? 8 else
  if case type [MELODI_A_PRIORITY; MELODI_A_LINK_STATE; MELODI_A_PEER_STATE;
                MELODI_A_POLICY_MODE; MELODI_A_POLICY_ACTION; MELODI_A_POLICY_BROADCAST;
                MELODI_A_POLICY_RESET; MELODI_A_PEER_HOPS; MELODI_A_PEER_POLICY;
                MELODI_A_MONITOR_DIRECTION]
  then length =? 1 else
  if case type [MELODI_A_PAYLOAD] then length <=? MELODI_MESSAGE_MTU else
  if case type [MELODI_A_RADIO_SERIAL]
  then (2 <=? length) && (length <=? MELODI_RADIO_SERIAL_MAX + 1) else
  if case type [MELODI_A_BUS_INFO]
  then (2 <=? length) && (length <=? MELODI_BUS_INFO_MAX + 1) else
  if case type [MELODI_A_RX_META; MELODI_A_ERROR; MELODI_A_STATS] then NLA_HDRLEN <=? length else
  if case type [MELODI_A_FRAME]
  then (MELODI_FRAME_HEADER_MIN <=? length) && (length <=? MELODI_FRAME_MTU_MAX) else
  false.

Definition melodi_has (message : melodi_genl_message) (type : Z) : bool :=
  match message.(attributes) !! type with Some _ => true | None => false end.

(** The bytes at [message->attributes\[type\]]; the callers check that the
    attribute is there. *)
Definition attr (message : melodi_genl_message) (type : Z) : bytes :=
  default [] (message.(attributes) !! type).

Definition attr_types : list Z := map Z.of_nat (seq 1 41).

Definition melodi_present (message : melodi_genl_message) : Z :=
  fold_left (fun present type => if melodi_has message type then Z.lor present (bit type) else present)
    attr_types 0.

(** The union of the bits of some attribute types. *)
Definition mask (types : list Z) : Z := fold_left (fun m t => Z.lor m (bit t)) types 0.

(** [melodi_has && ...] on a terminated string of printable characters. *)
Definition string_ok (bad : Z -> bool) (s : bytes) : bool :=
  (byte_at (length s - 1) s =? 0) && negb (existsb bad (take (length s - 1) s)).

Definition melodi_validate_radio_serial (message : melodi_genl_message) : result unit :=
  if negb (melodi_has message MELODI_A_RADIO_SERIAL) ||
     negb (string_ok (fun c => (c <? 0x21) || (0x7e <? c) || (c =? 44)) (attr message MELODI_A_RADIO_SERIAL))
  then Err EINVAL else Ok tt.

Definition melodi_validate_bus_info (message : melodi_genl_message) : result unit :=
  if negb (melodi_has message MELODI_A_BUS_INFO) ||
     negb (string_ok (fun c => (c <? 0x21) || (0x7e <? c)) (attr message MELODI_A_BUS_INFO))
  then Err EINVAL else Ok tt.

Definition melodi_nested_width (outer type : Z) (value : bytes) : bool :=
  let length := zlen value in
  if outer =? MELODI_A_RX_META then
    if type =? MELODI_RX_A_AUTHENTICATED then (length =? 1) && (byte_at 0 value <=? 1) else
    if type =? MELODI_RX_A_DUPLICATES then length =? 2 else
    if (type =? MELODI_RX_A_HOPS) || (type =? MELODI_RX_A_RETRANSMISSIONS) then length =? 1 else
    if (type =? MELODI_RX_A_RSSI) || (type =? MELODI_RX_A_SNR) then length =? 2 else
    if type =? MELODI_RX_A_TIMESTAMP_NS then length =? 8 else false
  else if outer =? MELODI_A_STATS then (type <=? MELODI_STAT_A_MAX) && (length =? 8)
  else if type =? MELODI_ERROR_A_CODE then length =? 4
  else if type =? MELODI_ERROR_A_DETAIL
  then (0 <? length) && (length <=? 128) && (byte_at (Z.to_nat (length - 1)) value =? 0)
  else false.

(** [MELODI_ALIGN] *)
Definition align (value : Z) : Z := Z.land (value + 3) (Z.lnot 3).

Definition nested_type (type : Z) : bool :=
  (type =? MELODI_A_RX_META) || (type =? MELODI_A_ERROR) || (type =? MELODI_A_STATS).

(** [for (index = raw_length; index < aligned_length; index++)
       if (position\[index\] != 0)] *)
Definition padding_bad (raw aligned : Z) (position : bytes) : bool :=
  existsb (fun b => negb (b =? 0)) (load (Z.to_nat raw) (Z.to_nat (aligned - raw)) position).

Section Genl.
  Context (big_endian : bool).

(** Integers in host byte order, in memory and read back. *)
Definition host16 (v : Z) : bytes := if big_endian then be16 v else le16 v.
Definition host32 (v : Z) : bytes := if big_endian then be32 v else le32 v.
Definition host64 (v : Z) : bytes := if big_endian then be64 v else rev (be64 v).
Definition get16 (b : bytes) : Z := if big_endian then get_be16 b else get_le16 b.
Definition get32 (b : bytes) : Z := if big_endian then get_be32 b else get_le32 b.

Definition melodi_validate_bind (message : melodi_genl_message) : result unit :=
  if negb (melodi_has message MELODI_A_IFINDEX) || negb (melodi_has message MELODI_A_LOCAL_SERVICE)
  then Err EINVAL else
  let service := get16 (attr message MELODI_A_LOCAL_SERVICE) in
  if (service =? MELODI_SERVICE_CONTROL) || (service =? MELODI_SERVICE_ECHO) then Err EINVAL else Ok tt.

Definition melodi_validate_send (message : melodi_genl_message) : result unit :=
  if negb (melodi_has message MELODI_A_DEST_SERVICE) || negb (melodi_has message MELODI_A_PAYLOAD)
  then Err EINVAL else
  let flags := if melodi_has message MELODI_A_FLAGS then get32 (attr message MELODI_A_FLAGS) else 0 in
  if has flags (lnot_w 32 MELODI_F_ALL) then Err EINVAL else
  if Bool.eqb (has flags MELODI_F_BROADCAST) (melodi_has message MELODI_A_DEST_NODE) then Err EINVAL else
  if has flags MELODI_F_BROADCAST && has flags (Z.lor MELODI_F_RELIABLE MELODI_F_ORDERED)
  then Err EINVAL else
  if has flags MELODI_F_BROADCAST && (MELODI_BROADCAST_MTU <? zlen (attr message MELODI_A_PAYLOAD))
  then Err EMSGSIZE else
  if melodi_has message MELODI_A_PRIORITY &&
     (MELODI_PRIORITY_MAX <? byte_at 0 (attr message MELODI_A_PRIORITY)) then Err EINVAL else
  let ttl_ms := get32 (attr message MELODI_A_TTL_MS) in
  if melodi_has message MELODI_A_TTL_MS && ((ttl_ms =? 0) || (MELODI_TTL_DEFAULT_MS <? ttl_ms))
  then Err EINVAL else Ok tt.

(** [condition ? 0 : -EINVAL] *)
Definition valid_if (condition : bool) : result unit := if condition then Ok tt else Err EINVAL.

Definition melodi_validate_schema (message : melodi_genl_message) : result unit :=
  let bind := mask [MELODI_A_IFINDEX; MELODI_A_LOCAL_SERVICE] in
  let peer := mask [MELODI_A_IFINDEX; MELODI_A_NODE_ID] in
  let interface := mask [MELODI_A_IFINDEX] in
  let present := melodi_present message in
  let outside allowed := has present (lnot_w 64 allowed) in
  let command := message.(command) in
  if command =? MELODI_CMD_BIND then
    if negb (present =? bind) then Err EINVAL else melodi_validate_bind message
  else if command =? MELODI_CMD_SEND then
    let allowed := mask [MELODI_A_DEST_NODE; MELODI_A_DEST_SERVICE; MELODI_A_PAYLOAD; MELODI_A_FLAGS;
                         MELODI_A_COOKIE; MELODI_A_TTL_MS; MELODI_A_PRIORITY] in
    if outside allowed then Err EINVAL else melodi_validate_send message
  else if (command =? MELODI_CMD_UNBIND) || (command =? MELODI_CMD_GET_BINDING) then
    valid_if ((present =? 0) || ((command =? MELODI_CMD_GET_BINDING) && (present =? bind)))
  else if command =? MELODI_CMD_RECV then
    let allowed := mask [MELODI_A_SOURCE_NODE; MELODI_A_SOURCE_SERVICE; MELODI_A_LOCAL_SERVICE;
                         MELODI_A_PAYLOAD; MELODI_A_COOKIE; MELODI_A_RX_META] in
    valid_if ((present =? allowed) || (present =? Z.land allowed (lnot_w 64 (bit MELODI_A_COOKIE))))
  else if command =? MELODI_CMD_ERROR then
    let allowed := mask [MELODI_A_IFINDEX; MELODI_A_LOCAL_SERVICE; MELODI_A_COOKIE; MELODI_A_ERROR] in
    valid_if (has present (bit MELODI_A_ERROR) && negb (outside allowed))
  else if command =? MELODI_CMD_LINK_GET then
    let allowed := mask [MELODI_A_LINK_STATE; MELODI_A_LINK_FAILURE; MELODI_A_LINK_ERROR] in
    if present =? interface then Ok tt else
    if negb (Z.land present allowed =? allowed) ||
       outside (Z.lor allowed (mask [MELODI_A_RADIO_SERIAL; MELODI_A_BUS_INFO; MELODI_A_FRAME_PACE_US]))
    then Err EINVAL else
    if melodi_has message MELODI_A_BUS_INFO then melodi_validate_bus_info message else Ok tt
  else if command =? MELODI_CMD_LINK_SET then
    if present =? mask [MELODI_A_IFINDEX; MELODI_A_RADIO_SERIAL]
    then melodi_validate_radio_serial message else Err EINVAL
  else if command =? MELODI_CMD_IDENTITY_LOAD then
    let allowed := mask [MELODI_A_IFINDEX; MELODI_A_NODE_ID; MELODI_A_KEY_SERIAL; MELODI_A_GENERATION] in
    if negb (present =? allowed) && negb (present =? Z.lor allowed (bit MELODI_A_PREVIOUS_NODE_ID))
    then Err EINVAL else valid_if (negb (get32 (attr message MELODI_A_GENERATION) =? 0))
  else if command =? MELODI_CMD_IDENTITY_GET_PUBLIC then
    valid_if ((present =? interface) || (present =? mask [MELODI_A_NODE_ID; MELODI_A_GENERATION]))
  else if command =? MELODI_CMD_PEER_DUMP then
    let allowed := mask [MELODI_A_IFINDEX; MELODI_A_NODE_ID; MELODI_A_PEER_NATIVE_LOCATOR;
                         MELODI_A_COLLISION_ROUND; MELODI_A_GENERATION; MELODI_A_PEER_STATE;
                         MELODI_A_PEER_EXPIRY_MS; MELODI_A_PEER_CAPABILITIES; MELODI_A_PEER_RSSI;
                         MELODI_A_PEER_SNR; MELODI_A_PEER_HOPS; MELODI_A_PEER_LAST_SEEN_NS;
                         MELODI_A_PEER_POLICY] in
    if present =? interface then Ok tt else
    if negb (present =? allowed) then Err EINVAL else
    if MELODI_PEER_CHALLENGED <? byte_at 0 (attr message MELODI_A_PEER_STATE) then Err EINVAL else
    valid_if (byte_at 0 (attr message MELODI_A_PEER_POLICY) <=? MELODI_PEER_POLICY_BLOCKED)
  else if (command =? MELODI_CMD_PEER_TRUST) || (command =? MELODI_CMD_PEER_BLOCK) ||
          (command =? MELODI_CMD_PEER_CLEAR) || (command =? MELODI_CMD_PEER_REVERIFY) then
    valid_if (present =? peer)
  else if command =? MELODI_CMD_POLICY_GET then
    valid_if ((present =? interface) || (present =? mask [MELODI_A_POLICY_MODE]))
  else if command =? MELODI_CMD_POLICY_SET then
    let mode := Z.lor interface (mask [MELODI_A_POLICY_MODE]) in
    let service := Z.lor interface (mask [MELODI_A_POLICY_SERVICE; MELODI_A_POLICY_ACTION]) in
    let broadcast := Z.lor interface (mask [MELODI_A_POLICY_BROADCAST]) in
    let reset := Z.lor interface (mask [MELODI_A_POLICY_RESET]) in
    if present =? service then
      let value := byte_at 0 (attr message MELODI_A_POLICY_ACTION) in
      valid_if ((MELODI_POLICY_SERVICE_ALLOW <=? value) && (value <=? MELODI_POLICY_SERVICE_CLEAR))
    else if present =? broadcast then
      valid_if (byte_at 0 (attr message MELODI_A_POLICY_BROADCAST) <=? 1)
    else if present =? reset then valid_if (byte_at 0 (attr message MELODI_A_POLICY_RESET) =? 1)
    else valid_if (present =? mode)
  else if command =? MELODI_CMD_DISCOVER then valid_if (present =? interface)
  else if command =? MELODI_CMD_STATS_GET then
    valid_if ((present =? interface) || (present =? mask [MELODI_A_STATS]))
  else if command =? MELODI_CMD_MONITOR_BIND then valid_if (present =? interface)
  else if command =? MELODI_CMD_MONITOR_FRAME then
    let allowed := mask [MELODI_A_IFINDEX; MELODI_A_MONITOR_DIRECTION; MELODI_A_FRAME] in
    if negb (present =? allowed) && negb (present =? Z.lor allowed (bit MELODI_A_RX_META))
    then Err EINVAL else
    let direction := byte_at 0 (attr message MELODI_A_MONITOR_DIRECTION) in
    valid_if (Bool.eqb (direction =? MELODI_MONITOR_RX) (melodi_has message MELODI_A_RX_META) &&
              (direction <=? MELODI_MONITOR_TX))
  else Err EOPNOTSUPP.

(** [while (remaining)] over the attributes of a nested block; every turn
    consumes at least four bytes, so the block's length is fuel enough. *)
Fixpoint nested_loop (fuel : nat) (outer maximum : Z) (position : bytes) (seen : Z) : result Z :=
  if zlen position =? 0 then Ok seen else
  match fuel with
  | O => Err EPROTO
  | S fuel =>
      if zlen position <? NLA_HDRLEN then Err EPROTO else
      let raw_length := get16 position in
      if (raw_length <? NLA_HDRLEN) || (zlen position <? raw_length) then Err EPROTO else
      let aligned_length := align raw_length in
      if zlen position <? aligned_length then Err EPROTO else
      let type := get16 (drop 2 position) in
      if (type =? 0) && (raw_length =? NLA_HDRLEN)
      then nested_loop fuel outer maximum (drop (Z.to_nat aligned_length) position) seen else
      if (maximum <? type) || (type =? 0) || (64 <=? type) || has seen (bit type) ||
         negb (melodi_nested_width outer type (load 4 (Z.to_nat (raw_length - NLA_HDRLEN)) position))
      then Err EINVAL else
      if padding_bad raw_length aligned_length position then Err EPROTO else
      nested_loop fuel outer maximum (drop (Z.to_nat aligned_length) position) (Z.lor seen (bit type))
  end.

Definition melodi_validate_nested (outer : Z) (block : bytes) : result unit :=
  let maximum := if outer =? MELODI_A_RX_META then MELODI_RX_A_MAX
                 else if outer =? MELODI_A_STATS then MELODI_STAT_A_MAX else MELODI_ERROR_A_MAX in
  seen ← nested_loop (length block) outer maximum block 0;
  if outer =? MELODI_A_RX_META then valid_if (seen =? bit (MELODI_RX_A_MAX + 1) - 2)
  else if outer =? MELODI_A_STATS then valid_if (seen =? bit (MELODI_STAT_A_MAX + 1) - 2)
  else valid_if (has seen (bit MELODI_ERROR_A_CODE)).

Definition melodi_genl_begin (buffer : bytes) (family flags sequence portid command : Z)
    : result melodi_genl_builder :=
  let header_length := NLMSG_HDRLEN + GENL_HDRLEN in
  if (zlen buffer <? header_length) || negb (melodi_command_valid command) then Err EINVAL else
  let data := replicate (length buffer) 0 in
  let data := store 0 (host32 header_length) data in
  let data := store 4 (host16 family) data in
  let data := store 6 (host16 flags) data in
  let data := store 8 (host32 sequence) data in
  let data := store 12 (host32 portid) data in
  let data := store 16 [wrap 8 command] data in
  let data := store 17 [wrap 8 MELODI_GENL_VERSION] data in
  let data := store 18 (host16 0) data in
  Ok (MkBuilder data header_length).

Definition melodi_genl_put (builder : melodi_genl_builder) (type : Z) (value : bytes)
    : result melodi_genl_builder :=
  let raw_length := NLA_HDRLEN + zlen value in
  let aligned_length := align raw_length in
  if (type =? MELODI_A_UNSPEC) || (MELODI_A_MAX <? type) ||
     negb (melodi_attribute_width type (zlen value)) ||
     (zlen builder.(data) - builder.(length_) <? aligned_length)
  then Err EINVAL else
  let at_ := Z.to_nat builder.(length_) in
  let data := store at_ (host16 (wrap 16 raw_length)) builder.(data) in
  let data := store (at_ + 2) (host16 type) data in
  let data := store (at_ + 4) value data in
  let data := store (at_ + Z.to_nat raw_length)
                (replicate (Z.to_nat (aligned_length - raw_length)) 0) data in
  Ok (MkBuilder data (builder.(length_) + aligned_length)).

Definition melodi_genl_put_u8 (builder : melodi_genl_builder) (type value : Z) :=
  melodi_genl_put builder type [wrap 8 value].
Definition melodi_genl_put_u16 (builder : melodi_genl_builder) (type value : Z) :=
  melodi_genl_put builder type (host16 value).
Definition melodi_genl_put_u32 (builder : melodi_genl_builder) (type value : Z) :=
  melodi_genl_put builder type (host32 value).
Definition melodi_genl_put_u64 (builder : melodi_genl_builder) (type value : Z) :=
  melodi_genl_put builder type (host64 value).

Definition melodi_genl_end (builder : melodi_genl_builder) : result melodi_genl_builder :=
  if U32_MAX <? builder.(length_) then Err EINVAL else
  Ok (MkBuilder (store 0 (host32 builder.(length_)) builder.(data)) builder.(length_)).

(** [while (remaining != 0)] over the attributes of a message. *)
Fixpoint parse_loop (fuel : nat) (position : bytes) (attrs : gmap Z bytes) : result (gmap Z bytes) :=
  if zlen position =? 0 then Ok attrs else
  match fuel with
  | O => Err EPROTO
  | S fuel =>
      if zlen position <? NLA_HDRLEN then Err EPROTO else
      let raw_length := get16 position in
      if (raw_length <? NLA_HDRLEN) || (zlen position <? raw_length) then Err EPROTO else
      let aligned_length := align raw_length in
      if zlen position <? aligned_length then Err EPROTO else
      let type := Z.land (get16 (drop 2 position)) NLA_TYPE_MASK in
      let flags := Z.land (get16 (drop 2 position)) (lnot_w 16 NLA_TYPE_MASK) in
      let value := load 4 (Z.to_nat (raw_length - NLA_HDRLEN)) position in
      if (type =? MELODI_A_UNSPEC) || (MELODI_A_MAX <? type) ||
         match attrs !! type with Some _ => true | None => false end ||
         negb (melodi_attribute_width type (raw_length - NLA_HDRLEN))
      then Err EINVAL else
      if (if nested_type type then negb (flags =? NLA_F_NESTED) else negb (flags =? 0))
      then Err EINVAL else
      if nested_type type && negb (is_ok (melodi_validate_nested type value)) then Err EINVAL else
      if padding_bad raw_length aligned_length position then Err EPROTO else
      parse_loop fuel (drop (Z.to_nat aligned_length) position) (<[type := value]> attrs)
  end.

Definition melodi_genl_parse (buffer : bytes) : result melodi_genl_message :=
  if zlen buffer <? NLMSG_HDRLEN + GENL_HDRLEN then Err EINVAL else
  if negb (get32 buffer =? zlen buffer) then Err EPROTO else
  if negb (byte_at 17 buffer =? MELODI_GENL_VERSION) || negb (get16 (drop 18 buffer) =? 0) ||
     negb (melodi_command_valid (byte_at 16 buffer))
  then Err EPROTO else
  attrs ← parse_loop (length buffer) (drop 20 buffer) ∅;
  let message := MkMessage (get16 (drop 4 buffer)) (get16 (drop 6 buffer)) (get32 (drop 8 buffer))
                   (get32 (drop 12 buffer)) (byte_at 16 buffer) attrs in
  _ ← melodi_validate_schema message;
  Ok message.
End Genl.

(** ** Host integers *)

Section HostInt.
  Context (be : bool).

Lemma length_host16 v : length (host16 be v) = 2%nat. Proof. now destruct be. Qed.
Lemma length_host32 v : length (host32 be v) = 4%nat. Proof. now destruct be. Qed.
Lemma host16_u8 v : Forall u8 (host16 be v). Proof. destruct be; [apply be16_u8|apply le16_u8]. Qed.
Lemma host32_u8 v : Forall u8 (host32 be v). Proof. destruct be; [apply be32_u8|apply le32_u8]. Qed.

Lemma get16_host16 v l : u16 v -> get16 be (host16 be v ++ l) = v.
Proof. destruct be; [apply get_be16_be16|apply get_le16_le16]. Qed.
Lemma get32_host32 v l : u32 v -> get32 be (host32 be v ++ l) = v.
Proof. destruct be; [apply get_be32_be32|apply get_le32_le32]. Qed.
Lemma host16_get16 b : wf_bytes 2 b -> host16 be (get16 be b) = b.
Proof. destruct be; [apply be16_get_be16|apply le16_get_le16]. Qed.
Lemma host32_get32 b : wf_bytes 4 b -> host32 be (get32 be b) = b.
Proof. destruct be; [apply be32_get_be32|apply le32_get_le32]. Qed.
Lemma get16_u16 b : Forall u8 b -> u16 (get16 be b).
Proof. destruct be; [apply get_be16_u16|apply get_le16_u16]. Qed.
Lemma get32_u32 b : Forall u8 b -> u32 (get32 be b).
Proof. destruct be; [apply get_be32_u32|apply get_le32_u32]. Qed.
Lemma get16_load off b : get16 be (drop off b) = get16 be (load off 2 b).
Proof. destruct be; [apply get_be16_load|apply get_le16_load]. Qed.
Lemma get32_load off b : get32 be (drop off b) = get32 be (load off 4 b).
Proof. destruct be; [apply get_be32_load|apply get_le32_load]. Qed.

(** ** Attributes in memory *)

Lemma align_val v : align v = 4 * ((v + 3) / 4).
Proof.
  unfold align. change (Z.lnot 3) with (Z.lnot (Z.ones 2)).
  rewrite <- Z.ldiff_land, Z.ldiff_ones_r, Z.shiftl_mul_pow2, Z.shiftr_div_pow2 by lia. change (2 ^ 2) with 4. lia.
Qed.

Lemma align_bound v : v <= align v < v + 4.
Proof. rewrite align_val. div_lia. Qed.

(** One attribute: header, value, zero padding. *)
Definition tlv (type : Z) (v : bytes) : bytes :=
  host16 be (4 + zlen v) ++ host16 be type ++ v ++
  replicate (Z.to_nat (align (4 + zlen v) - (4 + zlen v))) 0.

Lemma zlen_app {A} (a b : list A) : zlen (a ++ b) = zlen a + zlen b.
Proof. unfold zlen. rewrite length_app. lia. Qed.

Lemma zlen_host16 v : zlen (host16 be v) = 2.
Proof. unfold zlen. now rewrite length_host16. Qed.

Lemma zlen_replicate {A} n (x : A) : 0 <= n -> zlen (replicate (Z.to_nat n) x) = n.
Proof. intros. unfold zlen. rewrite length_replicate. lia. Qed.

Lemma zlen_nil {A} (l : list A) : zlen l = 0 -> l = [].
Proof. destruct l; [reflexivity|]. unfold zlen. cbn. lia. Qed.

Lemma zlen_tlv type v : zlen (tlv type v) = align (4 + zlen v).
Proof.
  pose proof (align_bound (4 + zlen v)). unfold tlv.
  rewrite !zlen_app, !zlen_host16, zlen_replicate by lia. lia.
Qed.

Lemma load_app_l off n (a b : bytes) : (off + n <= length a)%nat -> load off n (a ++ b) = load off n a.
Proof.
  intros H. apply list_eq. intros i. rewrite !load_lookup. case_decide; [|reflexivity].
  apply lookup_app_l. lia.
Qed.

Lemma load_skip (a b : bytes) off n : load (length a + off) n (a ++ b) = load off n b.
Proof.
  unfold load. f_equal. rewrite <- drop_drop, drop_app_length. reflexivity.
Qed.

(** Reading an attribute at the start of what is left. *)
Lemma tlv_read type v rest :
  u16 type -> 4 + zlen v < 65536 ->
  let p := tlv type v ++ rest in
  get16 be p = 4 + zlen v /\ get16 be (drop 2 p) = type /\
  load 4 (Z.to_nat (4 + zlen v - 4)) p = v /\
  padding_bad (4 + zlen v) (align (4 + zlen v)) p = false /\
  drop (Z.to_nat (align (4 + zlen v))) p = rest.
Proof.
  intros Ht Hv. cbn zeta. assert (0 <= zlen v) by (unfold zlen; lia).
  pose proof (align_bound (4 + zlen v)).
  assert (u16 (4 + zlen v)) as H16 by (unfold uint; lia).
  assert (length (tlv type v) = Z.to_nat (align (4 + zlen v))) as Hlen
    by (rewrite <- zlen_tlv with type v; unfold zlen; lia).
  conj_split.
  - unfold tlv. rewrite <- !app_assoc. now apply get16_host16.
  - rewrite <- (length_host16 (4 + zlen v)). unfold tlv. rewrite <- app_assoc, drop_app_length.
    rewrite <- app_assoc. now apply get16_host16.
  - replace (Z.to_nat (4 + zlen v - 4)) with (length v) by (unfold zlen; lia).
    unfold tlv. rewrite <- !app_assoc.
    change 4%nat with (2 + (2 + 0))%nat at 1.
    rewrite <- (length_host16 (4 + zlen v)) at 1. rewrite load_skip.
    rewrite <- (length_host16 type) at 1. rewrite load_skip, load_app_l by lia. now apply load_all.
  - unfold padding_bad. rewrite load_app_l by lia.
    replace (load (Z.to_nat (4 + zlen v)) (Z.to_nat (align (4 + zlen v) - (4 + zlen v))) (tlv type v))
      with (replicate (Z.to_nat (align (4 + zlen v) - (4 + zlen v))) 0).
    + apply not_true_is_false. intros Hx. apply existsb_exists in Hx as (x & Hx & Hne).
      apply list_elem_of_In, elem_of_replicate in Hx as [-> _]. discriminate.
    + unfold tlv. rewrite !app_assoc.
      replace (Z.to_nat (4 + zlen v)) with (length ((host16 be (4 + zlen v) ++ host16 be type) ++ v) + 0)%nat
        by (rewrite !length_app, !length_host16; unfold zlen; lia).
      rewrite load_skip. symmetry. apply load_all. apply length_replicate.
  - rewrite <- Hlen. apply drop_app_length.
Qed.

(** The converse: an attribute that passes the checks is the encoding of its
    type and value. *)
Lemma tlv_write p :
  Forall u8 p -> let raw := get16 be p in 4 <= raw <= zlen p -> align raw <= zlen p ->
  padding_bad raw (align raw) p = false ->
  p = tlv (get16 be (drop 2 p)) (load 4 (Z.to_nat (raw - 4)) p) ++ drop (Z.to_nat (align raw)) p /\
  zlen (load 4 (Z.to_nat (raw - 4)) p) = raw - 4 /\ Forall u8 (load 4 (Z.to_nat (raw - 4)) p).
Proof.
  intros Hu. cbn zeta. intros Hr Ha Hpad. set (raw := get16 be p) in *.
  pose proof (align_bound raw). set (v := load 4 (Z.to_nat (raw - 4)) p).
  assert (zlen v = raw - 4) as Hv.
  { unfold v, zlen. rewrite length_load; unfold zlen in *; lia. }
  split; [|split; [exact Hv|unfold v; auto with melodi]].
  unfold tlv. replace (4 + zlen v) with raw by lia.
  assert (replicate (Z.to_nat (align raw - raw)) 0 = load (Z.to_nat raw) (Z.to_nat (align raw - raw)) p) as ->.
  { unfold padding_bad in Hpad. set (l := load (Z.to_nat raw) _ _) in *.
    assert (length l = Z.to_nat (align raw - raw)) as Hll by (unfold l; apply length_load; unfold zlen in *; lia).
    rewrite <- Hll. clearbody l. clear Hll. induction l as [|x l IH]; [reflexivity|]. cbn in *.
    apply orb_false_iff in Hpad as [Hx Hpad]. apply negb_false_iff, Z.eqb_eq in Hx. subst x. f_equal. auto. }
  assert (host16 be raw = load 0 2 p) as ->.
  { unfold raw. rewrite <- (drop_0 p) at 1. rewrite get16_load. apply host16_get16.
    apply load_wf_bytes; auto. unfold zlen in *. lia. }
  assert (host16 be (get16 be (drop 2 p)) = load 2 2 p) as ->.
  { rewrite get16_load. apply host16_get16, load_wf_bytes; auto. unfold zlen in *. lia. }
  assert (load 0 (Z.to_nat (align raw)) p =
    load 0 2 p ++ load 2 2 p ++ v ++ load (Z.to_nat raw) (Z.to_nat (align raw - raw)) p) as <-.
  { replace (Z.to_nat (align raw)) with (2 + (2 + (Z.to_nat (raw - 4) + Z.to_nat (align raw - raw))))%nat by lia.
    rewrite (load_app 0 2), (load_app (0 + 2) 2), (load_app (0 + 2 + 2) (Z.to_nat (raw - 4))).
    cbn [Nat.add]. replace (S (S (S (S (Z.to_nat (raw - 4)))))) with (Z.to_nat raw) by lia. reflexivity. }
  unfold load. rewrite drop_0. symmetry. apply take_drop.
Qed.
End HostInt.

(** ** The attribute loop *)

Section Parse.
  Context (be : bool).

(** The type field of an attribute: nested blocks carry the flag. *)
Definition wire_type (t : Z) : Z := if nested_type t then t + NLA_F_NESTED else t.

Definition body (l : list (Z * bytes)) : bytes := concat (map (fun e => tlv be (wire_type e.1) e.2) l).

(** What the parser requires of one attribute. *)
Definition attr_ok (e : Z * bytes) : Prop :=
  1 <= e.1 <= MELODI_A_MAX /\ melodi_attribute_width e.1 (zlen e.2) = true /\
  (nested_type e.1 = true -> is_ok (melodi_validate_nested be e.1 e.2) = true) /\
  4 + zlen e.2 < 65536 /\ Forall u8 e.2.

Definition insert_all (attrs : gmap Z bytes) (l : list (Z * bytes)) : gmap Z bytes :=
  fold_left (fun m e => <[e.1 := e.2]> m) l attrs.

Lemma type_bits w :
  u16 w -> Z.land w NLA_TYPE_MASK = w mod 16384 /\
           Z.land w (lnot_w 16 NLA_TYPE_MASK) = 16384 * (w / 16384).
Proof.
  intros Hw. assert (Z.land w NLA_TYPE_MASK = w mod 16384) as H1 by (apply (Z.land_ones w 14); lia).
  split; [exact H1|].
  change (lnot_w 16 NLA_TYPE_MASK) with (Z.ldiff (Z.ones 16) (Z.ones 14)).
  assert (Z.land w (Z.ldiff (Z.ones 16) (Z.ones 14)) = Z.ldiff w (Z.ones 14)) as ->.
  { apply Z.bits_inj'. intros n Hn. rewrite Z.land_spec, !Z.ldiff_spec.
    destruct (Z.ltb_spec n 16) as [Hlt|Hge].
    - rewrite (Z.testbit_ones_nonneg 16) by lia. now rewrite (proj2 (Z.ltb_lt n 16) Hlt).
    - now rewrite (uint_testbit_high 16 w) by (auto; lia). }
  rewrite Z.ldiff_ones_r, Z.shiftl_mul_pow2, Z.shiftr_div_pow2 by lia. change (2 ^ 14) with 16384. lia.
Qed.

Lemma wire_type_fields t :
  1 <= t <= MELODI_A_MAX ->
  u16 (wire_type t) /\ Z.land (wire_type t) NLA_TYPE_MASK = t /\
  Z.land (wire_type t) (lnot_w 16 NLA_TYPE_MASK) = (if nested_type t then NLA_F_NESTED else 0).
Proof.
  intros Ht. assert (u16 (wire_type t)) as Hu.
  { unfold wire_type, uint. pow_norm. destruct (nested_type t); lia. }
  destruct (type_bits _ Hu) as [-> ->]. split; [exact Hu|].
  unfold wire_type. destruct (nested_type t); div_lia.
Qed.

Lemma wire_type_of w t :
  u16 w -> Z.land w NLA_TYPE_MASK = t ->
  Z.land w (lnot_w 16 NLA_TYPE_MASK) = (if nested_type t then NLA_F_NESTED else 0) -> w = wire_type t.
Proof.
  intros Hw Ht Hf. destruct (type_bits w Hw) as [Ht' Hf']. rewrite Ht in Ht'. rewrite Hf in Hf'.
  unfold wire_type. destruct (nested_type t); div_lia.
Qed.

Lemma body_cons t v l : body ((t, v) :: l) = tlv be (wire_type t) v ++ body l.
Proof. reflexivity. Qed.

(** Forwards: the encoding of acceptable attributes is parsed to them. *)
Lemma parse_loop_body l : forall fuel attrs,
  Forall attr_ok l -> NoDup l.*1 -> (forall t, t ∈ l.*1 -> attrs !! t = None) ->
  (length (body l) <= fuel)%nat ->
  parse_loop be fuel (body l) attrs = Ok (insert_all attrs l).
Proof.
  induction l as [|[t v] l IH]; intros fuel attrs Hok Hnd Hno Hf; [now destruct fuel|].
  apply Forall_cons_iff in Hok as [(Ht & Hwid & Hnest & Hlen & _) Hok]. cbn [fst snd] in *.
  cbn [fmap list_fmap] in Hnd, Hno. apply list.NoDup_cons in Hnd as [Hin Hnd].
  cbn [fst] in Hin, Hno. destruct (wire_type_fields t Ht) as (Hw16 & Hwt & Hwf).
  destruct (tlv_read be (wire_type t) v (body l) Hw16 Hlen) as (R1 & R2 & R3 & R4 & R5).
  rewrite <- body_cons in R1, R2, R3, R4, R5.
  assert (zlen (body ((t, v) :: l)) = align (4 + zlen v) + zlen (body l)) as Hz
    by (rewrite body_cons, zlen_app, zlen_tlv; reflexivity).
  pose proof (align_bound (4 + zlen v)). assert (0 <= zlen v /\ 0 <= zlen (body l)) by (unfold zlen; lia).
  set (p := body ((t, v) :: l)) in *. destruct fuel as [|fuel]; [unfold zlen in *; lia|].
  cbn [parse_loop]. rewrite R1, R2, R3, R4, R5, Hwt, Hwf.
  replace (4 + zlen v - 4) with (zlen v) by lia. rewrite Hwid, Hno by (now apply elem_of_cons; left).
  assert ((zlen p =? 0) = false) as -> by lia. do 4 pass_guard.
  assert (nested_type t && negb (is_ok (melodi_validate_nested be t v)) = false) as ->.
  { destruct (nested_type t); [|reflexivity]. now rewrite Hnest. }
  destruct (nested_type t); cbn [negb Z.eqb Pos.eqb]; apply IH; auto;
    solve [ intros u Hu; rewrite lookup_insert_ne by (intros ->; contradiction); apply Hno; now apply elem_of_cons; right
          | unfold zlen in *; lia ].
Qed.

(** Backwards: what is parsed was the encoding of acceptable attributes. *)
Lemma parse_loop_inv fuel : forall p attrs r,
  Forall u8 p -> parse_loop be fuel p attrs = Ok r ->
  exists l, p = body l /\ Forall attr_ok l /\ NoDup l.*1 /\
    (forall t, t ∈ l.*1 -> attrs !! t = None) /\ r = insert_all attrs l.
Proof.
  induction fuel as [|fuel IH]; intros p attrs r Hu H; cbn [parse_loop] in H;
    (destruct (Z.eqb_spec (zlen p) 0) as [E|E];
     [apply zlen_nil in E; subst p; apply Ok_inj in H; subst r; exists [];
      conj_split; auto; [constructor|set_solver]|]); [discriminate|].
  set (raw := get16 be p) in *. set (w := get16 be (drop 2 p)) in *.
  set (t := Z.land w NLA_TYPE_MASK) in *. set (v := load 4 (Z.to_nat (raw - 4)) p) in *.
  guards_in H. guard_hyps.
  destruct (tlv_write be p Hu) as (Hp & Hzv & Huv); fold raw; [lia|lia|assumption|].
  fold raw w v in Hp, Hzv, Huv.
  assert (u16 w) as Hw16 by (apply get16_u16; auto with melodi).
  assert (u16 raw) as Hr16 by (apply get16_u16; auto).
  assert (w = wire_type t) as Hwt.
  { apply wire_type_of; [exact Hw16|reflexivity|]. destruct (nested_type t); guard_hyps; assumption. }
  destruct (IH (drop (Z.to_nat (align raw)) p) (<[t := v]> attrs) r) as (l & Hl & Hok & Hnd & Hno & ->);
    [auto with melodi|exact H|].
  exists ((t, v) :: l). rewrite body_cons, <- Hwt, <- Hl. cbn [fmap list_fmap fst].
  assert (t ∉ l.*1) as Hin by (intros Hin; specialize (Hno t Hin); now rewrite lookup_insert_eq in Hno).
  conj_split; [exact Hp| |now constructor| |reflexivity].
  - constructor; [|exact Hok]. unfold attr_ok. cbn [fst snd]. unfold uint in *. pow_norm.
    assert (0 <= t) by (apply Z.land_nonneg; right; lia).
    conj_split; [lia|lia|rewrite Hzv; assumption| |lia|exact Huv].
    intros Hn. match goal with G : nested_type t && _ = false |- _ => rewrite Hn in G; cbn in G end.
    now apply negb_false_iff.
  - intros u [->|Hu']%elem_of_cons; [now destruct (attrs !! t)|].
    specialize (Hno u Hu'). rewrite lookup_insert_ne in Hno; [exact Hno|]. intros ->. contradiction.
Qed.
End Parse.

(** ** Whole messages *)

Section Message.
  Context (be : bool).

(** The twenty bytes of the netlink and generic-netlink headers. *)
Definition header (len family flags sequence portid command : Z) : bytes :=
  host32 be len ++ host16 be family ++ host16 be flags ++ host32 be sequence ++ host32 be portid ++
  [command; MELODI_GENL_VERSION] ++ host16 be 0.

Lemma length_header n f fl s p c : length (header n f fl s p c) = 20%nat.
Proof. unfold header. now rewrite !length_app, !length_host32, !length_host16. Qed.

Lemma header_read n f fl s p c rest :
  u32 n -> u16 f -> u16 fl -> u32 s -> u32 p ->
  let b := header n f fl s p c ++ rest in
  get32 be b = n /\ get16 be (drop 4 b) = f /\ get16 be (drop 6 b) = fl /\
  get32 be (drop 8 b) = s /\ get32 be (drop 12 b) = p /\ byte_at 16 b = c /\
  byte_at 17 b = MELODI_GENL_VERSION /\ get16 be (drop 18 b) = 0 /\ drop 20 b = rest.
Proof.
  intros Hn Hf Hfl Hs Hp. cbn zeta. unfold header. rewrite <- !app_assoc.
  conj_split.
  - now apply get32_host32.
  - rewrite <- (get16_host16 be f) at 2 by exact Hf. now destruct be.
  - rewrite <- (get16_host16 be fl) at 2 by exact Hfl. now destruct be.
  - rewrite <- (get32_host32 be s) at 2 by exact Hs. now destruct be.
  - rewrite <- (get32_host32 be p) at 2 by exact Hp. now destruct be.
  - now destruct be.
  - now destruct be.
  - rewrite <- (get16_host16 be 0 rest) by (unfold uint; lia). now destruct be.
  - now destruct be.
Qed.

Lemma header_write b :
  Forall u8 b -> (20 <= length b)%nat -> byte_at 17 b = MELODI_GENL_VERSION -> get16 be (drop 18 b) = 0 ->
  b = header (get32 be b) (get16 be (drop 4 b)) (get16 be (drop 6 b)) (get32 be (drop 8 b))
        (get32 be (drop 12 b)) (byte_at 16 b) ++ drop 20 b.
Proof.
  intros Hu Hl Hv Hz. unfold header. rewrite <- (drop_0 b) at 2.
  rewrite !get32_load, !get16_load in *. rewrite <- Hz, <- Hv.
  rewrite !host32_get32, !host16_get16 by (apply load_wf_bytes; auto; lia).
  change ([byte_at 16 b; byte_at 17 b]) with ([byte_at 16 b] ++ [byte_at 17 b]).
  rewrite <- !(load_1 _ b) by lia. rewrite <- !app_assoc.
  change (drop 20 b) with (drop (0 + 4 + 2 + 2 + 4 + 4 + 1 + 1 + 2) b).
  change 4%nat with (0 + 4)%nat at 2. change 6%nat with (0 + 4 + 2)%nat.
  change 8%nat with (0 + 4 + 2 + 2)%nat. change 12%nat with (0 + 4 + 2 + 2 + 4)%nat.
  change 16%nat with (0 + 4 + 2 + 2 + 4 + 4)%nat. change 17%nat with (0 + 4 + 2 + 2 + 4 + 4 + 1)%nat.
  change 18%nat with (0 + 4 + 2 + 2 + 4 + 4 + 1 + 1)%nat.
  assert (forall off n, drop off b = load off n b ++ drop (off + n) b) as Hcut.
  { intros off n. unfold load. rewrite <- drop_drop. symmetry. apply take_drop. }
  rewrite <- !Hcut. now rewrite drop_0.
Qed.

(** The attribute table of a message whose attributes have distinct types. *)
Lemma insert_all_lookup l : forall attrs t v,
  NoDup l.*1 -> (forall u, u ∈ l.*1 -> attrs !! u = None) ->
  (insert_all attrs l !! t = Some v <-> attrs !! t = Some v \/ (t, v) ∈ l).
Proof.
  induction l as [|[u w] l IH]; intros attrs t v Hnd Hno.
  - cbn. set_solver.
  - cbn [fmap list_fmap fst] in *. apply list.NoDup_cons in Hnd as [Hin Hnd].
    change (insert_all attrs ((u, w) :: l)) with (insert_all (<[u := w]> attrs) l).
    rewrite IH; [|exact Hnd|].
    + destruct (decide (t = u)) as [->|Hne].
      * rewrite lookup_insert_eq. rewrite elem_of_cons. rewrite (Hno u) by (now left).
        split; [intros [[= ->]|H]; auto|].
        intros [H|[[= ->]|H]]; [discriminate|auto|]. exfalso. apply Hin.
        apply list_elem_of_fmap. now exists (u, v).
      * rewrite lookup_insert_ne by auto. rewrite elem_of_cons. split; [tauto|].
        intros [H|[[= -> ->]|H]]; [auto|contradiction|auto].
    + intros x Hx. rewrite lookup_insert_ne by (intros ->; contradiction). apply Hno. now right.
Qed.

(** C33: the parser accepts exactly the canonical encodings.  A buffer parses
    to a message if and only if it is the header with the buffer's own length,
    version and a known command, followed by attributes of distinct types, each
    of an admissible width and, when nested, with a valid block, zero padded,
    the schema of the command holds, and the message's table maps a type to a
    value exactly when that attribute is among them. *)
Theorem genl_parse_exact buffer m :
  Forall u8 buffer ->
  melodi_genl_parse be buffer = Ok m <->
  exists l,
    buffer = header (20 + zlen (body be l)) m.(family) m.(msg_flags) m.(sequence) m.(portid) m.(command)
               ++ body be l /\
    Forall (attr_ok be) l /\ NoDup l.*1 /\ (forall t v, m.(attributes) !! t = Some v <-> (t, v) ∈ l) /\
    melodi_command_valid m.(command) = true /\ melodi_validate_schema be m = Ok tt /\
    u32 (20 + zlen (body be l)) /\ u16 m.(family) /\ u16 m.(msg_flags) /\ u32 m.(sequence) /\ u32 m.(portid).
Proof.
  intros Hu. split.
  - unfold melodi_genl_parse. intros H. guards_in H. guard_hyps.
    apply bind_Ok in H as (attrs & Hp & H). apply bind_Ok in H as ([] & Hs & H). apply Ok_inj in H. subst m.
    apply parse_loop_inv in Hp as (l & Hb & Hok & Hnd & _ & ->); [|auto with melodi].
    exists l. cbn [family msg_flags sequence portid command attributes].
    assert (20 + zlen (body be l) = zlen buffer) as Hlen.
    { rewrite <- Hb. unfold zlen in *. rewrite length_drop. lia. }
    rewrite Hlen, <- Hb. conj_split; auto using get16_u16, get32_u32 with melodi.
    + replace (zlen buffer) with (get32 be buffer) by assumption.
      apply header_write; auto. unfold zlen in *. lia.
    + intros t v. rewrite insert_all_lookup by (auto; set_solver). set_solver.
    + replace (zlen buffer) with (get32 be buffer) by assumption. now apply get32_u32.
  - intros (l & -> & Hok & Hnd & Hattr & Hcmd & Hs & Hu32 & Hf & Hfl & Hsq & Hp).
    destruct (header_read _ _ _ _ _ (command m) (body be l) Hu32 Hf Hfl Hsq Hp)
      as (R1 & R2 & R3 & R4 & R5 & R6 & R7 & R8 & R9).
    set (b := _ ++ _) in *. assert (zlen b = 20 + zlen (body be l)) as Hlen.
    { unfold b. rewrite zlen_app. unfold zlen at 1. now rewrite length_header. }
    unfold melodi_genl_parse. rewrite R1, R2, R3, R4, R5, R6, R7, R8, R9, Hcmd.
    assert (0 <= zlen (body be l)) by (unfold zlen; lia). do 2 pass_guard.
    cbn [negb Z.eqb Pos.eqb orb]. rewrite parse_loop_body;
      [|exact Hok|exact Hnd|intros; apply lookup_empty|unfold zlen in *; lia].
    assert (insert_all ∅ l = attributes m) as ->.
    { apply map_eq. intros t. apply option_eq. intros v.
      rewrite insert_all_lookup by (auto; set_solver). rewrite Hattr. set_solver. }
    cbn [mbind result_bind]. destruct m as [f fl s p c a]. cbn in *. now rewrite Hs.
Qed.
End Message.

(** ** Nested blocks *)

Section Nested.
  Context (be : bool) (outer : Z).

Definition nested_max : Z :=
  if outer =? MELODI_A_RX_META then MELODI_RX_A_MAX
  else if outer =? MELODI_A_STATS then MELODI_STAT_A_MAX else MELODI_ERROR_A_MAX.

(** What every block of a kind must carry: all the types of the receive
    metadata and of the counters, the code of an error. *)
Definition nested_required : list Z :=
  if outer =? MELODI_A_RX_META then map Z.of_nat (seq 1 7)
  else if outer =? MELODI_A_STATS then map Z.of_nat (seq 1 24) else [MELODI_ERROR_A_CODE].

(** An entry is an empty pad of type 0 or an attribute of the block. *)
Definition is_pad (e : Z * bytes) : Prop := e = (0, []).
Definition entry_ok (e : Z * bytes) : Prop :=
  (is_pad e \/ 1 <= e.1 <= nested_max /\ melodi_nested_width outer e.1 e.2 = true) /\
  4 + zlen e.2 < 65536 /\ Forall u8 e.2.

Definition nested_body (ns : list (Z * bytes)) : bytes := concat (map (fun e => tlv be e.1 e.2) ns).

(** The types of the entries that are not pads. *)
Definition nested_types (ns : list (Z * bytes)) : list Z := filter (fun t => t <> 0) ns.*1.

Definition see (seen : Z) (ns : list (Z * bytes)) : Z :=
  fold_left (fun s t => Z.lor s (bit t)) (nested_types ns) seen.

Lemma nested_max_bound : nested_max < 64.
Proof. unfold nested_max. repeat case_match; lia. Qed.

Lemma see_testbit ns : forall seen i,
  Forall entry_ok ns -> 0 <= i ->
  Z.testbit (see seen ns) i = Z.testbit seen i || bool_decide (i ∈ nested_types ns).
Proof.
  unfold see. induction ns as [|[t v] ns IH]; intros seen i Hok Hi.
  - cbn. now rewrite orb_false_r.
  - apply Forall_cons_iff in Hok as [[Ht _] Hok]. unfold nested_types in *. cbn [fmap list_fmap fst] in *.
    destruct (decide (t = 0)) as [->|Hne].
    + rewrite filter_cons_False by auto. apply IH; auto.
    + rewrite filter_cons_True by auto. cbn [fold_left]. rewrite IH by auto.
      destruct Ht as [[=]|[Ht _]]; [congruence|]. cbn [fst] in Ht.
      rewrite Z.lor_spec. unfold bit. rewrite Z.shiftl_1_l, Z.pow2_bits_eqb by lia.
      rewrite <- orb_assoc. f_equal. apply eq_true_iff_eq.
      rewrite orb_true_iff, Z.eqb_eq, !bool_decide_eq_true, elem_of_cons. intuition congruence.
Qed.

Lemma nested_body_cons t v ns : nested_body ((t, v) :: ns) = tlv be t v ++ nested_body ns.
Proof. reflexivity. Qed.

Lemma nested_types_cons t v ns :
  nested_types ((t, v) :: ns) = if decide (t = 0) then nested_types ns else t :: nested_types ns.
Proof.
  unfold nested_types. cbn [fmap list_fmap fst]. case_decide.
  - now rewrite filter_cons_False.
  - now rewrite filter_cons_True.
Qed.

(** One turn of the loop on an attribute that is not a pad. *)
Lemma nested_loop_body ns : forall fuel seen,
  Forall entry_ok ns -> NoDup (nested_types ns) ->
  (forall t, t ∈ nested_types ns -> Z.testbit seen t = false) ->
  (length (nested_body ns) <= fuel)%nat ->
  nested_loop be fuel outer nested_max (nested_body ns) seen = Ok (see seen ns).
Proof.
  induction ns as [|[t v] ns IH]; intros fuel seen Hok Hnd Hno Hf; [now destruct fuel|].
  apply Forall_cons_iff in Hok as [(Ht & Hlen & _) Hok]. cbn [fst snd] in Ht, Hlen.
  pose proof nested_max_bound as Hmax.
  assert (u16 t) as Ht16 by (unfold uint; pow_norm; destruct Ht as [[= -> _]|[? _]]; lia).
  destruct (tlv_read be t v (nested_body ns) Ht16 Hlen) as (R1 & R2 & R3 & R4 & R5).
  rewrite <- nested_body_cons in R1, R2, R3, R4, R5.
  assert (zlen (nested_body ((t, v) :: ns)) = align (4 + zlen v) + zlen (nested_body ns)) as Hz
    by (rewrite nested_body_cons, zlen_app, zlen_tlv; reflexivity).
  pose proof (align_bound (4 + zlen v)). assert (0 <= zlen v /\ 0 <= zlen (nested_body ns)) by (unfold zlen; lia).
  unfold see. rewrite nested_types_cons in Hnd, Hno |- *.
  set (p := nested_body ((t, v) :: ns)) in *. destruct fuel as [|fuel]; [unfold zlen in *; lia|].
  assert (length (nested_body ns) <= fuel)%nat as Hf' by (unfold zlen in *; lia).
  cbn [nested_loop]. rewrite R1, R2, R3, R4, R5.
  assert ((zlen p =? 0) = false) as -> by lia. do 3 pass_guard.
  destruct Ht as [[= -> ->]|[Ht Hwid]]; [apply IH; auto|].
  rewrite decide_False in Hnd, Hno |- * by lia. apply list.NoDup_cons in Hnd as [Hin Hnd].
  assert ((t =? 0) = false) as E0 by lia. rewrite E0, Hwid. cbn [andb].
  rewrite has_bit_testbit, Hno by (lia || now left). pass_guard. cbn [fold_left].
  apply IH; auto. intros u Hu. rewrite Z.lor_spec, Hno by now right. unfold bit.
  rewrite Z.shiftl_1_l, Z.pow2_bits_eqb by lia. apply Z.eqb_neq. intros ->. contradiction.
Qed.

Lemma nested_loop_inv fuel : forall p seen r,
  Forall u8 p -> nested_loop be fuel outer nested_max p seen = Ok r ->
  exists ns, p = nested_body ns /\ Forall entry_ok ns /\ NoDup (nested_types ns) /\
    (forall t, t ∈ nested_types ns -> Z.testbit seen t = false) /\ r = see seen ns.
Proof.
  induction fuel as [|fuel IH]; intros p seen r Hu H; cbn [nested_loop] in H;
    (destruct (Z.eqb_spec (zlen p) 0) as [E|E];
     [apply zlen_nil in E; subst p; apply Ok_inj in H; subst r; exists [];
      conj_split; auto; [constructor|intros ? []%not_elem_of_nil]|]); [discriminate|].
  set (raw := get16 be p) in *. set (t := get16 be (drop 2 p)) in *.
  set (v := load 4 (Z.to_nat (raw - 4)) p) in *.
  assert (u16 t) as Ht16 by (apply get16_u16; auto with melodi).
  assert (u16 raw) as Hr16 by (apply get16_u16; auto).
  assert (Forall u8 (drop (Z.to_nat (align raw)) p)) as Hud by auto with melodi.
  guards_in H; guard_hyps.
  - destruct (tlv_write be p Hu) as (Hp & Hzv & Huv); fold raw; [lia|lia| |].
    { subst raw. now replace (get16 be p) with 4. }
    fold raw t v in Hp, Hzv, Huv.
    destruct (IH _ _ _ Hud H) as (ns & Hns & Hok & Hnd & Hno & ->).
    assert (v = []) as Hv by (apply zlen_nil; lia). rewrite Hns, Hv in Hp.
    exists ((0, []) :: ns). replace t with 0 in Hp by lia. unfold see.
    rewrite nested_body_cons, nested_types_cons. conj_split; auto.
    constructor; [|exact Hok]. split; [now left|]. split; [unfold zlen; cbn [snd length]; lia|constructor].
  - destruct (tlv_write be p Hu) as (Hp & Hzv & Huv); fold raw; [lia|lia|assumption|].
    fold raw t v in Hp, Hzv, Huv. unfold uint in *. pow_norm.
    destruct (IH _ _ _ Hud H) as (ns & Hns & Hok & Hnd & Hno & ->). rewrite Hns in Hp.
    match goal with G : has seen _ = false |- _ => rewrite has_bit_testbit in G by lia; rename G into Gs end.
    assert (t ∉ nested_types ns) as Hin.
    { intros Hin. specialize (Hno t Hin). unfold bit in Hno.
      rewrite Z.lor_spec, Z.shiftl_1_l, Z.pow2_bits_true, orb_true_r in Hno by lia. discriminate. }
    exists ((t, v) :: ns). unfold see. rewrite nested_body_cons, nested_types_cons, decide_False by assumption.
    conj_split; [exact Hp| |now constructor| |reflexivity].
    + constructor; [|exact Hok]. split; [right; cbn [fst snd]; split; [lia|assumption]|].
      cbn [snd]. split; [lia|exact Huv].
    + intros u [->|Hu']%elem_of_cons; [exact Gs|]. specialize (Hno u Hu').
      rewrite Z.lor_spec in Hno. now apply orb_false_iff in Hno.
Qed.

(** All the bits from 1 to [k] and no other. *)
Lemma full_mask k ns :
  0 <= k -> Forall entry_ok ns -> (forall t, t ∈ nested_types ns -> 1 <= t <= k) ->
  (see 0 ns = bit (k + 1) - 2 <-> forall t, 1 <= t <= k -> t ∈ nested_types ns).
Proof.
  intros Hk Hok Hrange. assert (bit (k + 1) - 2 = Z.ldiff (Z.ones (k + 1)) (Z.ones 1)) as ->.
  { unfold bit. rewrite Z.shiftl_1_l, Z.ldiff_ones_r, Z.shiftl_mul_pow2, Z.shiftr_div_pow2 by lia.
    rewrite Z.ones_equiv. pose proof (Z.pow_pos_nonneg 2 k). rewrite Z.pow_add_r by lia. cbn [Z.pow]. div_lia. }
  split.
  - intros H t Ht. pose proof (see_testbit ns 0 t Hok ltac:(lia)) as Hb. rewrite H, Z.bits_0 in Hb.
    rewrite Z.ldiff_spec, !Z.testbit_ones_nonneg in Hb by lia. cbn [orb] in Hb.
    symmetry in Hb. rewrite (proj2 (Z.ltb_lt t (k + 1))), (proj2 (Z.ltb_ge t 1)) in Hb by lia.
    now apply bool_decide_eq_true in Hb.
  - intros H. apply Z.bits_inj'. intros i Hi. rewrite see_testbit, Z.bits_0, Z.ldiff_spec by auto.
    rewrite !Z.testbit_ones_nonneg by lia. apply eq_true_iff_eq. cbn [orb].
    rewrite bool_decide_eq_true, andb_true_iff, negb_true_iff, Z.ltb_lt, Z.ltb_ge.
    split; [intros Hin; apply Hrange in Hin; lia|intros; apply H; lia].
Qed.

Lemma nested_types_range ns t : Forall entry_ok ns -> t ∈ nested_types ns -> 1 <= t <= nested_max.
Proof.
  intros Hok (Hne & Hin)%list_elem_of_filter. apply list_elem_of_fmap in Hin as ([u v] & -> & Hin).
  rewrite list.Forall_forall in Hok. destruct (Hok _ Hin) as [[[= -> _]|[Ht _]] _]; [now cbn in Hne|exact Ht].
Qed.

(** A nested block is valid if and only if it is a sequence of admissible
    attributes of distinct types, with empty pads between them, that carries
    everything required of its kind: all seven receive-metadata fields, all
    twenty-four counters, or the code of an error. *)
Theorem nested_block_exact block :
  Forall u8 block ->
  melodi_validate_nested be outer block = Ok tt <->
  exists ns, block = nested_body ns /\ Forall entry_ok ns /\ NoDup (nested_types ns) /\
    nested_required ⊆ nested_types ns.
Proof.
  intros Hu.
  assert (forall ns, Forall entry_ok ns ->
    (if outer =? MELODI_A_RX_META then valid_if (see 0 ns =? bit (MELODI_RX_A_MAX + 1) - 2)
     else if outer =? MELODI_A_STATS then valid_if (see 0 ns =? bit (MELODI_STAT_A_MAX + 1) - 2)
     else valid_if (has (see 0 ns) (bit MELODI_ERROR_A_CODE))) = Ok tt <->
    nested_required ⊆ nested_types ns) as Hreq.
  { intros ns Hok. pose proof (fun t => nested_types_range ns t Hok) as Hr.
    unfold nested_required, nested_max, valid_if in *.
    assert (forall k, 0 <= k -> map Z.of_nat (seq 1 (Z.to_nat k)) ⊆ nested_types ns <->
              forall t, 1 <= t <= k -> t ∈ nested_types ns) as Hsub.
    { intros k Hk. split; intros H t Ht.
      - apply H, list_elem_of_In, in_map_iff. exists (Z.to_nat t). rewrite in_seq. lia.
      - apply list_elem_of_In, in_map_iff in Ht as (n & <- & Hn%in_seq). apply H. lia. }
    destruct (outer =? MELODI_A_RX_META);
      [|destruct (outer =? MELODI_A_STATS)].
    - rewrite (Hsub 7), <- (full_mask 7) by (auto; lia). change MELODI_RX_A_MAX with 7.
      destruct (Z.eqb_spec (see 0 ns) (bit (7 + 1) - 2)); split; congruence.
    - rewrite (Hsub 24), <- (full_mask 24) by (auto; lia). change MELODI_STAT_A_MAX with 24.
      destruct (Z.eqb_spec (see 0 ns) (bit (24 + 1) - 2)); split; congruence.
    - rewrite has_bit_testbit, see_testbit, Z.bits_0 by (auto; lia). cbn [orb].
      case_bool_decide as Hin; split; try discriminate; auto.
      + intros _ t ->%list_elem_of_singleton. exact Hin.
      + intros H. exfalso. apply Hin, H. now left. }
  unfold melodi_validate_nested. fold nested_max. split.
  - intros H. apply bind_Ok in H as (r & Hl & H). apply nested_loop_inv in Hl as (ns & -> & Hok & Hnd & _ & ->); [|exact Hu].
    exists ns. conj_split; auto. now apply Hreq.
  - intros (ns & -> & Hok & Hnd & Hsub). rewrite nested_loop_body; auto; [|intros; apply Z.bits_0].
    cbn [mbind result_bind]. now apply Hreq.
Qed.
End Nested.

(** ** Building a message *)

Section Build.
  Context (be : bool).

(** What has been written so far is [p]. *)
Definition built (builder : melodi_genl_builder) (p : bytes) : Prop :=
  exists rest, builder.(data) = p ++ rest /\ builder.(length_) = zlen p.

Lemma built_capacity b p : built b p -> zlen p <= zlen b.(data).
Proof. intros (rest & -> & _). rewrite zlen_app. unfold zlen. lia. Qed.

(** The attributes of a message in the order they are put. *)
Definition put_all (builder : melodi_genl_builder) (l : list (Z * bytes)) : result melodi_genl_builder :=
  fold_left (fun r e => b ← r; melodi_genl_put be b e.1 e.2) l (Ok builder).

Lemma put_all_cons b t v l :
  put_all b ((t, v) :: l) = (b' ← melodi_genl_put be b t v; put_all b' l).
Proof.
  unfold put_all. cbn [fold_left mbind result_bind fst snd]. destruct (melodi_genl_put be b t v); [reflexivity|].
  induction l as [|x l IH]; [reflexivity|exact IH].
Qed.

Lemma begin_built buffer f fl s p c :
  20 <= zlen buffer -> melodi_command_valid c = true -> u8 c ->
  exists b, melodi_genl_begin be buffer f fl s p c = Ok b /\ built b (header be 20 f fl s p c) /\
    zlen b.(data) = zlen buffer.
Proof.
  intros Hb Hc Hc8. unfold melodi_genl_begin. rewrite Hc. pass_guard. cbn [negb].
  eexists. split; [reflexivity|]. cbn [data length_].
  set (l := [Chunk 0 4 (host32 be 20); Chunk 4 2 (host16 be f); Chunk 6 2 (host16 be fl);
             Chunk 8 4 (host32 be s); Chunk 12 4 (host32 be p); Chunk 16 1 [wrap 8 c];
             Chunk 17 1 [wrap 8 MELODI_GENL_VERSION]; Chunk 18 2 (host16 be 0)]).
  change (built (MkBuilder (stores l (replicate (length buffer) 0)) 20) (header be 20 f fl s p c) /\
    zlen (stores l (replicate (length buffer) 0)) = zlen buffer).
  split; [|unfold zlen; now rewrite length_stores, length_replicate].
  rewrite (stores_layout l 20);
    [|reflexivity|cbn; conj_split; auto using length_host16, length_host32|
      rewrite length_replicate; unfold zlen in Hb; lia].
  eexists. cbn [data length_]. split; [|unfold zlen; now rewrite length_header].
  f_equal. unfold l, layout_bytes, header. cbn [map concat c_data]. rewrite (wrap_id 8 c Hc8), app_nil_r. reflexivity.
Qed.

(** Putting one attribute appends it, or fails when it does not fit. *)
Lemma put_built b p t v :
  built b p -> 1 <= t <= MELODI_A_MAX -> melodi_attribute_width t (zlen v) = true -> 4 + zlen v < 65536 ->
  let n := zlen (p ++ tlv be t v) in
  if n <=? zlen b.(data)
  then exists b', melodi_genl_put be b t v = Ok b' /\ built b' (p ++ tlv be t v) /\ zlen b'.(data) = zlen b.(data)
  else melodi_genl_put be b t v = Err EINVAL.
Proof.
  intros (rest & Hd & Hl) Ht Hw Hlen. cbn zeta. rewrite zlen_app, zlen_tlv.
  assert (0 <= zlen v /\ 0 <= zlen p /\ 0 <= zlen rest) by (unfold zlen; lia).
  pose proof (align_bound (4 + zlen v)) as Hal.
  unfold melodi_genl_put. rewrite Hw, Hd, Hl, zlen_app.
  destruct (Z.leb_spec (zlen p + align (4 + zlen v)) (zlen p + zlen rest)).
  - do 1 pass_guard. eexists. split; [reflexivity|]. cbn [data length_].
    rewrite !(store_store _ _ _ _ (_ ++ _)); cycle 1.
    { rewrite !length_app, !length_host16. unfold zlen. lia. }
    { rewrite !length_app, !length_host16. reflexivity. }
    { now rewrite length_host16. }
    assert (((host16 be (wrap 16 (4 + zlen v)) ++ host16 be t) ++ v) ++
            replicate (Z.to_nat (align (4 + zlen v) - (4 + zlen v))) 0 = tlv be t v) as ->.
    { unfold tlv. rewrite wrap_id, <- !app_assoc by (unfold uint; lia). reflexivity. }
    assert (length (tlv be t v) = Z.to_nat (align (4 + zlen v))) as Hn
      by (rewrite <- (zlen_tlv be t v); unfold zlen; lia).
    rewrite store_app_r by (unfold zlen in *; lia).
    split; [|unfold zlen in *; rewrite !length_app, length_drop; lia].
    eexists. split; [rewrite <- app_assoc; reflexivity|]. cbn [length_]. rewrite zlen_app, zlen_tlv. reflexivity.
  - match goal with |- (if ?g then _ else _) = _ => assert (g = true) as -> end; [|reflexivity].
    apply orb_true_iff. right. apply Z.ltb_lt. lia.
Qed.

(** The widths of the attributes that are not nested fit their length field. *)
Lemma width_bound t n :
  nested_type t = false -> melodi_attribute_width t n = true -> 4 + n < 65536.
Proof.
  unfold nested_type, melodi_attribute_width. intros Hn. repeat case_match; intros; try lia.
  match goal with G : case t [_; _; _] = true |- _ => unfold case in G; cbn [existsb] in G; lia end.
Qed.

Lemma attr_ok_plain t v :
  nested_type t = false -> 1 <= t <= MELODI_A_MAX -> melodi_attribute_width t (zlen v) = true ->
  Forall u8 v -> attr_ok be (t, v).
Proof.
  intros Hn Ht Hw Hv. unfold attr_ok. cbn [fst snd]. conj_split; try lia; auto.
  - intros H. congruence.
  - now apply (width_bound t).
Qed.

(** The attributes a program puts: known, of an admissible width, not nested. *)
Definition plain (e : Z * bytes) : Prop :=
  nested_type e.1 = false /\ 1 <= e.1 <= MELODI_A_MAX /\
  melodi_attribute_width e.1 (zlen e.2) = true /\ Forall u8 e.2.
#[export] Instance plain_dec e : Decision (plain e).
Proof. unfold plain. apply _. Defined.

Lemma plain_ok l : Forall plain l -> Forall (attr_ok be) l.
Proof.
  intros H. apply (list.Forall_impl _ _ _ H). intros [t v] (Hn & Ht & Hw & Hv). now apply attr_ok_plain.
Qed.

Lemma body_cons_plain t v l : nested_type t = false -> body be ((t, v) :: l) = tlv be t v ++ body be l.
Proof. intros H. rewrite body_cons. unfold wire_type. now rewrite H. Qed.

Lemma put_all_built l : forall b p,
  built b p -> Forall plain l ->
  if zlen (p ++ body be l) <=? zlen b.(data)
  then exists b', put_all b l = Ok b' /\ built b' (p ++ body be l) /\ zlen b'.(data) = zlen b.(data)
  else put_all b l = Err EINVAL.
Proof.
  induction l as [|[t v] l IH]; intros b p Hb Hl.
  - unfold body. cbn [map concat]. rewrite app_nil_r. pose proof (built_capacity b p Hb).
    destruct (Z.leb_spec (zlen p) (zlen (data b))); [|lia]. now exists b.
  - apply Forall_cons_iff in Hl as [(Hn & Ht & Hw & Hv) Hl]. cbn [fst snd] in *.
    pose proof (put_built b p t v Hb Ht Hw (width_bound _ _ Hn Hw)) as Hp. cbn zeta in Hp.
    rewrite body_cons_plain, app_assoc, put_all_cons by exact Hn.
    assert (zlen (p ++ tlv be t v) <= zlen ((p ++ tlv be t v) ++ body be l))
      by (rewrite (zlen_app _ (body be l)); unfold zlen; lia).
    destruct (Z.leb_spec (zlen (p ++ tlv be t v)) (zlen (data b))).
    + destruct Hp as (b' & -> & Hb' & Hc). cbn [mbind result_bind]. rewrite <- Hc. exact (IH b' _ Hb' Hl).
    + rewrite Hp. destruct (Z.leb_spec (zlen ((p ++ tlv be t v) ++ body be l)) (zlen (data b))); [lia|reflexivity].
Qed.

Lemma end_built b n f fl s p c tail :
  built b (header be n f fl s p c ++ tail) -> 20 + zlen tail <= U32_MAX ->
  exists b', melodi_genl_end be b = Ok b' /\ built b' (header be (20 + zlen tail) f fl s p c ++ tail) /\
    zlen b'.(data) = zlen b.(data).
Proof.
  intros (rest & Hd & Hl) Hn.
  assert (length_ b = 20 + zlen tail) as Hz by (rewrite Hl, zlen_app; unfold zlen at 1; now rewrite length_header).
  unfold melodi_genl_end. rewrite Hz. destruct (Z.ltb_spec U32_MAX (20 + zlen tail)); [lia|].
  eexists. split; [reflexivity|]. cbn [data]. split; [|unfold zlen; now rewrite length_store].
  exists rest. cbn [data length_]. split; [|rewrite zlen_app; unfold zlen at 2; now rewrite length_header].
  rewrite Hd. unfold header. rewrite <- !app_assoc.
  match goal with |- store 0 ?a ?x = _ => change (store 0 a x) with (store 0 a ([] ++ x)) end.
  rewrite store_app_r by (rewrite ?length_app, ?length_host32; cbn; lia). cbn [app].
  f_equal. rewrite length_host32, <- (length_host32 be n). apply drop_app_length.
Qed.

(** The message a header and its attributes stand for. *)
Definition message_of (f fl s p c : Z) (l : list (Z * bytes)) : melodi_genl_message :=
  MkMessage f fl s p c (list_to_map l).

(** What the builder writes, the parser reads.  Beginning a message,
    putting any sequence of attributes that are not nested and ending it
    succeeds exactly when header and padded attributes fit the buffer; it then
    holds the header with the right length and the attributes in order, and, if
    their types are distinct, parsing it gives back the message whenever the
    schema of its command admits it, and the schema's error otherwise. *)
Theorem genl_build_parse buffer f fl s p c l :
  u16 f -> u16 fl -> u32 s -> u32 p -> u8 c -> melodi_command_valid c = true ->
  Forall plain l -> zlen buffer <= U32_MAX -> 20 <= zlen buffer ->
  let n := 20 + zlen (body be l) in
  let m := message_of f fl s p c l in
  let build := b ← melodi_genl_begin be buffer f fl s p c; b' ← put_all b l; melodi_genl_end be b' in
  if n <=? zlen buffer
  then exists b, build = Ok b /\ zlen b.(data) = zlen buffer /\ b.(length_) = n /\
         let sent := take (Z.to_nat n) b.(data) in
         sent = header be n f fl s p c ++ body be l /\
         (NoDup l.*1 -> melodi_genl_parse be sent = (_ ← melodi_validate_schema be m; Ok m))
  else build = Err EINVAL.
Proof.
  intros Hf Hfl Hs Hp Hc8 Hc Hl Hmax Hmin. cbn zeta.
  destruct (begin_built buffer f fl s p c Hmin Hc Hc8) as (b0 & -> & Hb0 & Hd0). cbn [mbind result_bind].
  pose proof (put_all_built l b0 _ Hb0 Hl) as Hput. rewrite zlen_app, Hd0 in Hput.
  assert (zlen (header be 20 f fl s p c) = 20) as Hh by (unfold zlen; now rewrite length_header).
  rewrite Hh in Hput. assert (0 <= zlen (body be l)) by (unfold zlen; lia).
  destruct (Z.leb_spec (20 + zlen (body be l)) (zlen buffer)) as [Hle|]; [|now rewrite Hput].
  destruct Hput as (b1 & -> & Hb1 & Hd1). cbn [mbind result_bind].
  destruct (end_built b1 20 f fl s p c (body be l) Hb1 ltac:(lia)) as (b2 & -> & (rest & Hd & Hlen) & Hd2).
  set (h := header be (20 + zlen (body be l)) f fl s p c) in *.
  assert (zlen (h ++ body be l) = 20 + zlen (body be l)) as Hn
    by (rewrite zlen_app; unfold h, zlen at 1; now rewrite length_header).
  exists b2. conj_split; [reflexivity|lia|lia| |].
  - rewrite Hd, <- Hn. unfold zlen at 1. rewrite Nat2Z.id. apply take_app_length.
  - intros Hnd. rewrite Hd, <- Hn. unfold zlen at 1. rewrite Nat2Z.id, take_app_length.
    destruct (header_read be (20 + zlen (body be l)) f fl s p c (body be l))
      as (R1 & R2 & R3 & R4 & R5 & R6 & R7 & R8 & R9); auto; [width_lia|].
    fold h in R1, R2, R3, R4, R5, R6, R7, R8, R9.
    unfold melodi_genl_parse. rewrite R1, R2, R3, R4, R5, R6, R7, R8, R9, Hc. do 2 pass_guard.
    cbn [negb Z.eqb Pos.eqb orb]. rewrite parse_loop_body;
      [|now apply plain_ok|exact Hnd|intros; apply lookup_empty|unfold zlen in *; rewrite length_app in *; lia].
    assert (insert_all ∅ l = list_to_map l) as ->; [|reflexivity].
    apply map_eq. intros t. apply option_eq. intros v. rewrite insert_all_lookup by (auto; set_solver).
    rewrite <- elem_of_list_to_map by exact Hnd. rewrite lookup_empty. intuition congruence.
Qed.
End Build.

(** ** Concrete messages *)

Definition sample_attributes : list (Z * bytes) :=
  [(MELODI_A_DEST_SERVICE, host16 false 40); (MELODI_A_FLAGS, host32 false MELODI_F_BROADCAST);
   (MELODI_A_PAYLOAD, [1; 2; 3; 4; 5])].
Definition sample_message : melodi_genl_message :=
  message_of 28 1 7 4000 MELODI_CMD_SEND sample_attributes.
Definition sample_buffer : bytes :=
  header false 48 28 1 7 4000 MELODI_CMD_SEND ++ body false sample_attributes.
Definition sample_error : bytes :=
  tlv false 0 [] ++ tlv false MELODI_ERROR_A_CODE (host32 false 5) ++
  tlv false MELODI_ERROR_A_DETAIL [110; 111; 0].

Lemma genl_parse_exact_witness :
  exists l, sample_buffer = header false (20 + zlen (body false l)) 28 1 7 4000 MELODI_CMD_SEND ++ body false l /\
    NoDup l.*1.
Proof.
  destruct (proj1 (genl_parse_exact false sample_buffer sample_message ltac:(by_decide)))
    as (l & Hb & _ & Hnd & _); [vm_compute; reflexivity|].
  exists l. exact (conj Hb Hnd).
Defined.

Lemma genl_build_parse_witness :
  exists b, (b ← melodi_genl_begin false (replicate 48 9) 28 1 7 4000 MELODI_CMD_SEND;
             b' ← put_all false b sample_attributes; melodi_genl_end false b') = Ok b /\
    melodi_genl_parse false (take 48 b.(data)) = Ok sample_message.
Proof.
  destruct (genl_build_parse false (replicate 48 9) 28 1 7 4000 MELODI_CMD_SEND sample_attributes
    ltac:(by_decide) ltac:(by_decide) ltac:(by_decide) ltac:(by_decide) ltac:(by_decide) eq_refl
    ltac:(by_decide) ltac:(by_decide) ltac:(by_decide)) as (b & Hb & _ & _ & _ & Hp).
  exists b. split; [exact Hb|]. etransitivity; [apply Hp; by_decide|]. vm_compute. reflexivity.
Defined.

Lemma nested_block_exact_witness :
  Forall u8 sample_error /\
  exists ns, sample_error = nested_body false ns /\
    nested_required MELODI_A_ERROR ⊆ nested_types ns.
Proof.
  split; [by_decide|].
  destruct (proj1 (nested_block_exact false MELODI_A_ERROR sample_error ltac:(by_decide)))
    as (ns & Hb & _ & _ & Hs); [vm_compute; reflexivity|].
  exists ns. exact (conj Hb Hs).
Defined.
