(* ===== verification/Contract.v ===== *)
(** * Supported radios (src/kernel/usb/contract.c, src/kernel/usb/contract.h)

    The USB driver binds only to radios whose descriptors are those of a known
    device, and runs only firmware it knows to speak the protocol.  A pointer
    that the code tests against NULL is an option; characters are their byte
    codes. *)
From S2P Require Import Prelude Buffer.

Abbreviation MELODI_USB_TEST_VENDOR := 0x1d6b.
Abbreviation MELODI_USB_TEST_PRODUCT := 0xf00d.
Abbreviation MELODI_USB_TEST_BCD := 0x0100.
Abbreviation MELODI_USB_TEST_INTERFACE := 0.
Abbreviation MELODI_USB_TEST_CLASS := 0xff.
Abbreviation MELODI_USB_TEST_SUBCLASS := 0x4d.
Abbreviation MELODI_USB_TEST_PROTOCOL := 0x01.
Abbreviation MELODI_USB_TEST_IN := 0x81.
Abbreviation MELODI_USB_TEST_OUT := 0x01.
Abbreviation MELODI_USB_TEST_MAX_PACKET := 512.
Abbreviation MELODI_USB_PICO_VENDOR := 0x2e8a.
Abbreviation MELODI_USB_PICO_PRODUCT := 0x000a.
Abbreviation MELODI_USB_PICO_BCD := 0x0100.
Abbreviation MELODI_USB_CDC_INTERFACE := 1.
Abbreviation MELODI_USB_CDC_CLASS := 0x0a.
Abbreviation MELODI_USB_CDC_SUBCLASS := 0x00.
Abbreviation MELODI_USB_CDC_PROTOCOL := 0x00.
Abbreviation MELODI_USB_CDC_IN := 0x82.
Abbreviation MELODI_USB_CDC_OUT := 0x01.
Abbreviation MELODI_USB_CDC_MAX_PACKET := 64.
Abbreviation MELODI_USB_FEATHER_VENDOR := 0x239a.
Abbreviation MELODI_USB_FEATHER_PRODUCT := 0x812d.
Abbreviation MELODI_USB_FEATHER_BCD := 0x0100.
Abbreviation MELODI_USB_CONTRACT_ENDPOINTS := 2.
Abbreviation MELODI_USB_ENDPOINT_BULK := 2.

(** ["Melodi USB Test Radio"] *)
Definition MELODI_USB_TEST_PRODUCT_NAME : bytes :=
  [77; 101; 108; 111; 100; 105; 32; 85; 83; 66; 32; 84; 101; 115; 116; 32; 82; 97; 100; 105;
   111].

(** ["Pico"] *)
Definition MELODI_USB_PICO_PRODUCT_NAME : bytes :=
  [80; 105; 99; 111].

(** ["Feather RP2040 RFM"] *)
Definition MELODI_USB_FEATHER_PRODUCT_NAME : bytes :=
  [70; 101; 97; 116; 104; 101; 114; 32; 82; 80; 50; 48; 52; 48; 32; 82; 70; 77].

(** ["melodi-usb-test-1"] *)
Definition test_firmware : bytes :=
  [109; 101; 108; 111; 100; 105; 45; 117; 115; 98; 45; 116; 101; 115; 116; 45; 49].

(** The [profile] byte holds these values, or any other. *)
Abbreviation MELODI_USB_CONTRACT_TEST := 1.
Abbreviation MELODI_USB_CONTRACT_CDC := 2.

Record melodi_usb_contract_endpoint := MkEndpoint {
  max_packet : Z;
  address : Z;
  attributes : Z;
}.

Record melodi_usb_contract := MkContract {
  endpoint0 : melodi_usb_contract_endpoint;
  endpoint1 : melodi_usb_contract_endpoint;
  product : option bytes;
  serial : option bytes;
  vendor : Z;
  product_id : Z;
  device_version : Z;
  interface_number : Z;
  alternate : Z;
  interface_class : Z;
  interface_subclass : Z;
  interface_protocol : Z;
  endpoint_count : Z;
  profile : Z;
  full_speed : bool;
  high_speed : bool;
}.

(** One turn of the loop over the endpoints, from the flags [found_in] and
    [found_out]. *)
Definition endpoint_step (packet in_ out : Z) (found : bool * bool) (endpoint : melodi_usb_contract_endpoint)
    : result (bool * bool) :=
  let '(found_in, found_out) := found in
  if negb (endpoint.(attributes) =? MELODI_USB_ENDPOINT_BULK) || negb (endpoint.(max_packet) =? packet)
  then Err ENODEV else
  if (endpoint.(address) =? in_) && negb found_in then Ok (true, found_out) else
  if (endpoint.(address) =? out) && negb found_out then Ok (found_in, true) else
  Err ENODEV.

(** What the profile and the identifiers select: product name, packet size and
    the two endpoint addresses. *)
Definition select_profile (contract : melodi_usb_contract) (serial_length : Z)
    : result (bytes * Z * Z * Z) :=
  let c := contract in
  if c.(profile) =? MELODI_USB_CONTRACT_TEST then
    if negb (c.(vendor) =? MELODI_USB_TEST_VENDOR) || negb (c.(product_id) =? MELODI_USB_TEST_PRODUCT) ||
       negb (c.(device_version) =? MELODI_USB_TEST_BCD) ||
       negb (c.(interface_number) =? MELODI_USB_TEST_INTERFACE) ||
       negb (c.(interface_class) =? MELODI_USB_TEST_CLASS) ||
       negb (c.(interface_subclass) =? MELODI_USB_TEST_SUBCLASS) ||
       negb (c.(interface_protocol) =? MELODI_USB_TEST_PROTOCOL) || negb c.(high_speed)
    then Err ENODEV else
    Ok (MELODI_USB_TEST_PRODUCT_NAME, MELODI_USB_TEST_MAX_PACKET, MELODI_USB_TEST_IN, MELODI_USB_TEST_OUT)
  else if c.(profile) =? MELODI_USB_CONTRACT_CDC then
    name ←
      (if (c.(vendor) =? MELODI_USB_PICO_VENDOR) && (c.(product_id) =? MELODI_USB_PICO_PRODUCT) &&
          (c.(device_version) =? MELODI_USB_PICO_BCD)
       then Ok MELODI_USB_PICO_PRODUCT_NAME
       else if (c.(vendor) =? MELODI_USB_FEATHER_VENDOR) && (c.(product_id) =? MELODI_USB_FEATHER_PRODUCT) &&
               (c.(device_version) =? MELODI_USB_FEATHER_BCD)
       then Ok MELODI_USB_FEATHER_PRODUCT_NAME
       else Err ENODEV);
    if negb (c.(interface_number) =? MELODI_USB_CDC_INTERFACE) ||
       negb (c.(interface_class) =? MELODI_USB_CDC_CLASS) ||
       negb (c.(interface_subclass) =? MELODI_USB_CDC_SUBCLASS) ||
       negb (c.(interface_protocol) =? MELODI_USB_CDC_PROTOCOL) ||
       negb c.(full_speed) || negb (serial_length =? 16)
    then Err ENODEV else
    Ok (name, MELODI_USB_CDC_MAX_PACKET, MELODI_USB_CDC_IN, MELODI_USB_CDC_OUT)
  else Err ENODEV.

(** Characters a serial number may not hold, and the digits of the CDC ones. *)
Definition serial_bad (c : Z) : bool := (c <? 0x21) || (0x7e <? c) || (c =? 44).
Definition upper_hex (c : Z) : bool := ((48 <=? c) && (c <=? 57)) || ((65 <=? c) && (c <=? 70)).

Definition melodi_usb_contract_validate (contract : melodi_usb_contract) : result unit :=
  if negb (contract.(alternate) =? 0) || negb (contract.(endpoint_count) =? MELODI_USB_CONTRACT_ENDPOINTS)
  then Err ENODEV else
  match contract.(product), contract.(serial) with
  | Some product, Some serial =>
      if (zlen serial =? 0) || (64 <? zlen serial) then Err ENODEV else
      '(name, packet, in_, out) ← select_profile contract (zlen serial);
      if negb (zlen product =? zlen name) || negb (bool_decide (product = name)) then Err ENODEV else
      if existsb serial_bad serial then Err ENODEV else
      if (contract.(profile) =? MELODI_USB_CONTRACT_CDC) && existsb (fun c => negb (upper_hex c)) serial
      then Err ENODEV else
      found ← endpoint_step packet in_ out (false, false) contract.(endpoint0);
      '(found_in, found_out) ← endpoint_step packet in_ out found contract.(endpoint1);
      if found_in && found_out then Ok tt else Err ENODEV
  | _, _ => Err ENODEV
  end.

Definition melodi_usb_firmware_supported (firmware : option bytes) (test_profile : bool) : bool :=
  match firmware with
  | None => false
  | Some firmware =>
      let at_ i := byte_at i firmware in
      if zlen firmware =? 0 then false else
      if test_profile then (zlen firmware =? 17) && bool_decide (firmware = test_firmware) else
      if (zlen firmware <? 5) || negb (at_ 0%nat =? 50) || negb (at_ 1%nat =? 46) || negb (at_ 3%nat =? 46) ||
         (at_ 2%nat <? 48) || (57 <? at_ 2%nat) then false else
      let minor := at_ 2%nat - 48 in
      if (minor <? 7) || (8 <? minor) then false else
      if existsb (fun c => (c <? 0x20) || (0x7e <? c)) (drop 4 firmware) then false else
      (48 <=? at_ 4%nat) && (at_ 4%nat <=? 57)
  end.

(** ** The catalogue *)

(** A supported device, as its data sheet lists it. *)
Record device := MkDevice {
  d_profile : Z;
  d_name : bytes;
  d_ids : Z * Z * Z;
  d_interface : Z * Z * Z * Z;
  d_packet : Z;
  d_in : Z;
  d_out : Z;
  d_speed : melodi_usb_contract -> bool;
  d_serial : bytes -> Prop;
}.

Definition printable_serial (s : bytes) : Prop :=
  1 <= zlen s <= 64 /\ Forall (fun c => 0x21 <= c <= 0x7e /\ c <> 44) s.
Definition hex_serial (s : bytes) : Prop :=
  zlen s = 16 /\ Forall (fun c => 48 <= c <= 57 \/ 65 <= c <= 70) s.

Definition test_radio : device :=
  MkDevice 1 MELODI_USB_TEST_PRODUCT_NAME (0x1d6b, 0xf00d, 0x0100) (0, 0xff, 0x4d, 0x01) 512 0x81 0x01
    high_speed printable_serial.
Definition pico : device :=
  MkDevice 2 MELODI_USB_PICO_PRODUCT_NAME (0x2e8a, 0x000a, 0x0100) (1, 0x0a, 0, 0) 64 0x82 0x01
    full_speed hex_serial.
Definition feather : device :=
  MkDevice 2 MELODI_USB_FEATHER_PRODUCT_NAME (0x239a, 0x812d, 0x0100) (1, 0x0a, 0, 0) 64 0x82 0x01
    full_speed hex_serial.
Definition catalogue : list device := [test_radio; pico; feather].

(** The descriptors are those of the device; its two bulk endpoints may come in
    either order. *)
Definition conforms (c : melodi_usb_contract) (d : device) : Prop :=
  c.(profile) = d.(d_profile) /\ c.(product) = Some d.(d_name) /\
  (c.(vendor), c.(product_id), c.(device_version)) = d.(d_ids) /\
  (c.(interface_number), c.(interface_class), c.(interface_subclass), c.(interface_protocol)) = d.(d_interface) /\
  c.(alternate) = 0 /\ c.(endpoint_count) = 2 /\ d.(d_speed) c = true /\
  (exists s, c.(serial) = Some s /\ d.(d_serial) s) /\
  [c.(endpoint0); c.(endpoint1)] ≡ₚ [MkEndpoint d.(d_packet) d.(d_in) 2; MkEndpoint d.(d_packet) d.(d_out) 2].

(** ** The validator against the catalogue *)

Lemma existsb_false {A} (f : A -> bool) l : existsb f l = false <-> Forall (fun x => f x = false) l.
Proof.
  induction l as [|x l IH]; cbn; [split; auto|]. rewrite orb_false_iff, IH, Forall_cons_iff. reflexivity.
Qed.

Lemma endpoints_exact packet in_ out e0 e1 :
  in_ <> out ->
  (found ← endpoint_step packet in_ out (false, false) e0;
   '(found_in, found_out) ← endpoint_step packet in_ out found e1;
   if found_in && found_out then Ok tt else Err ENODEV) = Ok tt <->
  [e0; e1] ≡ₚ [MkEndpoint packet in_ 2; MkEndpoint packet out 2].
Proof.
  intros Hne. destruct e0 as [p0 a0 t0], e1 as [p1 a1 t1]. split.
  - intros H. apply bind_Ok in H as ((f0 & g0) & H0 & H). apply bind_Ok in H as ((f1 & g1) & H1 & H).
    unfold endpoint_step in H0, H1. cbn [attributes max_packet address] in *.
    guards_in H0; guards_in H1; apply Ok_inj in H0, H1; simplify_eq/=; guard_hyps; subst; try discriminate.
    + reflexivity.
    + apply perm_swap.
  - intros H. apply Permutation_length_2_inv in H.
    assert ((in_ =? out) = false) as E1 by lia. assert ((out =? in_) = false) as E2 by lia.
    destruct H as [H|H]; injection H; intros; subst; unfold endpoint_step;
      repeat (cbn [attributes max_packet address mbind result_bind negb orb andb];
              rewrite ?Z.eqb_refl, ?E1, ?E2); reflexivity.
Qed.

(** The identifiers select exactly one entry of the catalogue. *)
Definition selects (c : melodi_usb_contract) (d : device) : Prop :=
  c.(profile) = d.(d_profile) /\ (c.(vendor), c.(product_id), c.(device_version)) = d.(d_ids) /\
  (c.(interface_number), c.(interface_class), c.(interface_subclass), c.(interface_protocol)) = d.(d_interface) /\
  d.(d_speed) c = true.

Lemma select_exact c n q :
  select_profile c n = Ok q <->
  exists d, d ∈ catalogue /\ selects c d /\ (d.(d_profile) = 2 -> n = 16) /\
    q = (d.(d_name), d.(d_packet), d.(d_in), d.(d_out)).
Proof.
  unfold selects. split.
  - unfold select_profile. intros H. guards_in H; try apply bind_Ok in H as (name & Hname & H);
      try (apply Ok_inj in Hname; subst name); try discriminate; guards_in H; apply Ok_inj in H; subst q; guard_hyps.
    + exists test_radio. unfold catalogue. cbn. conj_split; auto; [rewrite !elem_of_cons; tauto|congruence|congruence|discriminate].
    + exists pico. unfold catalogue. cbn. conj_split; auto; [rewrite !elem_of_cons; tauto|congruence|congruence].
    + exists feather. unfold catalogue. cbn. conj_split; auto; [rewrite !elem_of_cons; tauto|congruence|congruence].
  - intros (d & Hd & (Hp & Hi & Hf & Hs) & Hn & ->). unfold select_profile. unfold catalogue in Hd.
    rewrite !elem_of_cons, elem_of_nil in Hd. destruct Hd as [->|[->|[->|[]]]]; cbn in *;
      injection Hi as -> -> ->; injection Hf as -> -> -> ->; rewrite Hp, Hs; try rewrite Hn by reflexivity; reflexivity.
Qed.

Lemma serial_exact d s :
  d ∈ catalogue ->
  (zlen s <> 0 /\ zlen s <= 64 /\ existsb serial_bad s = false /\ (d.(d_profile) = 2 -> zlen s = 16) /\
   (d.(d_profile) =? 2) && existsb (fun c => negb (upper_hex c)) s = false) <-> d.(d_serial) s.
Proof.
  intros Hd. assert (0 <= zlen s) by (unfold zlen; lia).
  assert (existsb serial_bad s = false <-> Forall (fun c => 0x21 <= c <= 0x7e /\ c <> 44) s) as ->.
  { rewrite existsb_false. unfold serial_bad. split; intros G; apply (list.Forall_impl _ _ _ G); cbn; intros; lia. }
  unfold catalogue in Hd. rewrite !elem_of_cons, elem_of_nil in Hd.
  destruct Hd as [->|Hd].
  - unfold test_radio, printable_serial. cbn. intuition lia.
  - assert (d_profile d = 2 /\ d_serial d = hex_serial) as [-> ->] by (destruct Hd as [->|[->|[]]]; auto).
    change (2 =? 2) with true. cbn [andb]. rewrite existsb_false. unfold hex_serial.
    split.
    + intros (_ & _ & _ & Hn & Hh). split; [auto|]. apply (list.Forall_impl _ _ _ Hh). unfold upper_hex. intros. lia.
    + intros (Hn & Hh). rewrite Hn. conj_split; try lia; apply (list.Forall_impl _ _ _ Hh); unfold upper_hex; intros; lia.
Qed.

(** C38: the driver accepts exactly the catalogue.  The descriptors of an
    interface are accepted if and only if they are, field by field, those of
    one of the three supported devices, with a serial number of the form that
    device prints and its two bulk endpoints in either order; everything else
    is refused with [ENODEV]. *)
Theorem contract_validate_exact c :
  (melodi_usb_contract_validate c = Ok tt <-> exists d, d ∈ catalogue /\ conforms c d) /\
  (melodi_usb_contract_validate c <> Ok tt -> melodi_usb_contract_validate c = Err ENODEV).
Proof.
  assert (forall d, d ∈ catalogue -> d_in d <> d_out d) as Hne.
  { unfold catalogue. intros d Hd. rewrite !elem_of_cons, elem_of_nil in Hd. now destruct Hd as [->|[->|[->|[]]]]. }
  split; [split|].
  - unfold melodi_usb_contract_validate. intros H. guards_in H. guard_hyps.
    destruct (product c) as [p|] eqn:Hp; [|discriminate]. destruct (serial c) as [s|] eqn:Hs; [|discriminate].
    destruct ((zlen s =? 0) || (64 <? zlen s)) eqn:Hlen; [discriminate|].
    apply bind_Ok in H as ([[[name packet] i] o] & Hsel & H).
    apply select_exact in Hsel as (d & Hd & (S1 & S2 & S3 & S4) & Hn & [= -> -> -> ->]).
    guards_in H. guard_hyps. apply endpoints_exact in H; [|now apply Hne].
    match goal with G : bool_decide _ = true |- _ => apply bool_decide_eq_true in G; subst p end.
    exists d. split; [exact Hd|]. unfold conforms. conj_split; auto.
    exists s. split; [exact Hs|]. apply serial_exact; [exact Hd|]. rewrite <- S1. conj_split; auto.
    now rewrite S1.
  - intros (d & Hd & H1 & H2 & H3 & H4 & H5 & H6 & H7 & (s & H8 & H9) & H10).
    apply serial_exact in H9 as (Z0 & Z1 & Z2 & Z3 & Z4); [|exact Hd].
    unfold melodi_usb_contract_validate. rewrite H5, H6, H2, H8. cbn [negb orb Z.eqb Pos.eqb]. pass_guard.
    rewrite (proj2 (select_exact c (zlen s) (d_name d, d_packet d, d_in d, d_out d)));
      [|exists d; unfold selects; conj_split; auto].
    cbn [mbind result_bind]. rewrite Z.eqb_refl, bool_decide_eq_true_2 by reflexivity. cbn [negb orb].
    rewrite Z2, H1, Z4. apply endpoints_exact; auto.
  - assert (forall e, melodi_usb_contract_validate c = Err e -> e = ENODEV) as He.
    { unfold melodi_usb_contract_validate, select_profile, endpoint_step. intros e H.
      repeat (first [progress guards_in H | case_match; try discriminate | progress (cbn [mbind result_bind] in H)]); congruence. }
    destruct (melodi_usb_contract_validate c) as [[]|e]; [congruence|]. intros _. f_equal. auto.
Qed.

(** A Pico with its output endpoint listed first. *)
Definition sample_contract : melodi_usb_contract :=
  MkContract (MkEndpoint 64 0x01 2) (MkEndpoint 64 0x82 2) (Some MELODI_USB_PICO_PRODUCT_NAME)
    (Some (replicate 16 65)) 0x2e8a 0x000a 0x0100 1 0 0x0a 0 0 2 2 true false.

Lemma contract_validate_exact_witness :
  melodi_usb_contract_validate sample_contract = Ok tt.
Proof.
  apply (contract_validate_exact sample_contract). exists pico.
  split; [right; left|]. unfold conforms. conj_split; try reflexivity.
  - exists (replicate 16 65). split; [reflexivity|]. split; [reflexivity|]. apply Forall_replicate. lia.
  - apply perm_swap.
Defined.

(** ** Firmware versions *)

Definition digit (c : Z) : Prop := 48 <= c <= 57.

(** The firmware versions that are run.  Under the test profile exactly
    the test firmware; otherwise exactly a version "2.7." or "2.8." whose patch
    level starts with a digit and goes on with any printable ASCII characters,
    so that a suffix such as "2.8.1-rc2" is accepted.  A missing version is
    never supported. *)
Theorem firmware_supported_exact firmware :
  (melodi_usb_firmware_supported firmware true = true <-> firmware = Some test_firmware) /\
  (melodi_usb_firmware_supported firmware false = true <->
   exists minor patch rest, firmware = Some ([50; 46; minor; 46; patch] ++ rest) /\
     (minor = 55 \/ minor = 56) /\ digit patch /\ Forall (fun c => 0x20 <= c <= 0x7e) rest).
Proof.
  destruct firmware as [f|]; cbn [melodi_usb_firmware_supported];
    [|split; split; try discriminate; intros (? & ? & ? & [=] & _)].
  unfold digit. split; [split|split].
  - intros H. guards_in H. apply andb_true_iff in H as [_ H%bool_decide_eq_true]. now subst f.
  - intros [= ->]. reflexivity.
  - intros H. guards_in H. guard_hyps.
    match goal with G : existsb _ _ = false |- _ => apply existsb_false in G; rename G into Hall end.
    destruct f as [|a [|b [|m [|d [|q r]]]]]; unfold zlen in *; cbn [length] in *; try lia.
    unfold byte_at in *. cbn [nth drop] in *. subst. exists m, q, r. conj_split; try lia; auto.
    apply Forall_cons_iff in Hall as [_ Hall]. apply (list.Forall_impl _ _ _ Hall). cbn. intros. lia.
  - intros (m & q & r & [= ->] & Hm & Hq & Hr). assert (zlen r >= 0) by (unfold zlen; lia).
    assert (zlen ([50; 46; m; 46; q] ++ r) = 5 + zlen r) as Hl by (unfold zlen; rewrite length_app; cbn [length]; lia).
    unfold zlen in Hl at 1. cbn [app] in *. unfold byte_at. cbn [nth drop].
    assert (existsb (fun c => (c <? 0x20) || (0x7e <? c)) (q :: r) = false) as ->.
    { apply existsb_false. constructor; [lia|]. apply (list.Forall_impl _ _ _ Hr). cbn. intros. lia. }
    unfold zlen at 1 2. rewrite Hl. guards; lia.
Qed.
