(* ===== verification/Slots.v ===== *)
(** * Slot tables

    The tables of the kernel core are arrays of fixed size whose entries are
    marked active.  This file has the search they share and the theory that
    relates such a table to the finite map it stands for: the key of an entry
    to its value, for the active entries. *)
From stdpp Require Import gmap.
From S2P Require Import Prelude.

(** The shared search: the first active entry that matches ends the loop; on the
    way the first free entry is noted. *)

Section Slots.
  Context {A : Type} (active same : A -> bool).

Fixpoint slot_search (l : list A) (index : nat) (empty : option nat) : option nat * option nat :=
  match l with
  | [] => (None, empty)
  | e :: l =>
      let empty := match empty with
                   | None => if active e then None else Some index
                   | Some i => Some i
                   end in
      if active e && same e then (Some index, empty) else slot_search l (S index) empty
  end.

Lemma slot_search_entry l : forall i empty,
  fst (slot_search l i empty) = (fun k => (i + k)%nat) <$> find_index (fun e => active e && same e) l.
Proof.
  induction l as [|e l IH]; intros i empty; cbn; [reflexivity|].
  destruct (active e && same e); cbn; [f_equal; lia|].
  rewrite IH. destruct (find_index _ l); cbn; [f_equal; lia|reflexivity].
Qed.

Lemma slot_search_empty_Some l : forall i k, snd (slot_search l i (Some k)) = Some k.
Proof.
  induction l as [|e l IH]; intros i k; cbn; [reflexivity|]. destruct (active e && same e); [reflexivity|apply IH].
Qed.

Lemma slot_search_empty l : forall i,
  find_index (fun e => active e && same e) l = None ->
  snd (slot_search l i None) = (fun k => (i + k)%nat) <$> find_index (fun e => negb (active e)) l.
Proof.
  induction l as [|e l IH]; intros i H; cbn in *; [reflexivity|].
  destruct (active e && same e); [discriminate|].
  destruct (find_index (fun e => active e && same e) l) eqn:F; [discriminate|].
  destruct (active e); cbn.
  - rewrite IH by reflexivity. destruct (find_index (fun e => negb (active e)) l); cbn; [f_equal; lia|reflexivity].
  - rewrite slot_search_empty_Some. cbn. f_equal. lia.
Qed.
End Slots.

Lemma slot_search_ext {A} (active same same' : A -> bool) l :
  (forall e, same e = same' e) -> forall i empty,
  slot_search active same l i empty = slot_search active same' l i empty.
Proof. intros H. induction l as [|e l IH]; intros i empty; cbn; [reflexivity|]. now rewrite H, IH. Qed.

(** ** Tables as finite maps *)

Section Table.
  Context {A K V : Type} {K_eq : EqDecision K} {K_countable : Countable K}.
  Context (active : A -> bool) (key : A -> K) (value : A -> V).

(** No two active entries have the same key. *)
Definition table_wf (l : list A) : Prop :=
  forall i j e f, l !! i = Some e -> l !! j = Some f -> active e = true -> active f = true ->
    key e = key f -> i = j.

Definition table_map (l : list A) : gmap K V :=
  list_to_map (map (fun e => (key e, value e)) (filter (fun e => active e = true) l)).

Definition matches_key (k : K) (e : A) : bool := active e && bool_decide (key e = k).

Lemma table_wf_cons e l : table_wf (e :: l) -> table_wf l.
Proof. intros H i j x y Hi Hj Hx Hy Hk. specialize (H (S i) (S j) x y Hi Hj Hx Hy Hk). lia. Qed.

Lemma table_keys_NoDup l :
  table_wf l -> NoDup (map (fun e => (key e, value e)) (filter (fun e => active e = true) l)).*1.
Proof.
  induction l as [|e l IH]; intros H; [constructor|]. specialize (IH (table_wf_cons e l H)).
  rewrite filter_cons. case_decide as Ha; [|exact IH]. cbn. constructor; [|exact IH].
  intros ([k v] & Hk & Hin)%list_elem_of_fmap. cbn in Hk. subst k.
  apply list_elem_of_In, in_map_iff in Hin as (f & [= Hk _] & Hf).
  apply list_elem_of_In, list_elem_of_filter in Hf as [Hfa Hf]. apply list_elem_of_lookup in Hf as [j Hj].
  specialize (H 0%nat (S j) e f eq_refl Hj Ha Hfa (eq_sym Hk)). discriminate.
Qed.

Lemma table_lookup l k v :
  table_wf l ->
  table_map l !! k = Some v <-> exists i e, l !! i = Some e /\ active e = true /\ key e = k /\ value e = v.
Proof.
  intros H. unfold table_map. rewrite <- elem_of_list_to_map by now apply table_keys_NoDup.
  rewrite list_elem_of_In, in_map_iff. split.
  - intros (e & [= <- <-] & He). apply list_elem_of_In, list_elem_of_filter in He as [Ha He].
    apply list_elem_of_lookup in He as [i Hi]. now exists i, e.
  - intros (i & e & Hi & Ha & <- & <-). exists e. split; [reflexivity|].
    apply list_elem_of_In, list_elem_of_filter. split; [exact Ha|]. apply list_elem_of_lookup. now exists i.
Qed.

Lemma find_key_Some l k i :
  find_index (matches_key k) l = Some i -> exists e, l !! i = Some e /\ active e = true /\ key e = k.
Proof.
  intros (e & He & Hm & _)%find_index_Some. exists e. unfold matches_key in Hm.
  apply andb_true_iff in Hm as [Ha Hk%bool_decide_eq_true]. auto.
Qed.

Lemma find_key_None l k : table_wf l -> find_index (matches_key k) l = None <-> table_map l !! k = None.
Proof.
  intros H. rewrite find_index_None. split.
  - intros Hn. destruct (table_map l !! k) as [v|] eqn:E; [|reflexivity].
    apply table_lookup in E as (i & e & Hi & Ha & Hk & _); [|exact H].
    specialize (Hn e). unfold matches_key in Hn. rewrite Ha, bool_decide_eq_true_2 in Hn by exact Hk.
    discriminate Hn. apply list_elem_of_In, list_elem_of_lookup. now exists i.
  - intros Hn e He. apply list_elem_of_In, list_elem_of_lookup in He as [i Hi].
    unfold matches_key. destruct (active e) eqn:Ha; [|reflexivity]. cbn. apply bool_decide_eq_false. intros Hk.
    assert (table_map l !! k = Some (value e)) as E by (apply table_lookup; [exact H|]; now exists i, e). congruence.
Qed.

(** The value at the index a search found. *)
Lemma find_key_lookup l k i e :
  table_wf l -> find_index (matches_key k) l = Some i -> l !! i = Some e -> table_map l !! k = Some (value e).
Proof.
  intros H Hf He. apply find_key_Some in Hf as (e' & He' & Ha & Hk). rewrite He in He'. injection He' as <-.
  apply table_lookup; [exact H|]. now exists i, e.
Qed.

(** Writing an active entry over the one with its key, or over a free one when
    the key is new. *)
Lemma table_insert l i e e' k :
  table_wf l -> l !! i = Some e ->
  (active e = true /\ key e = k \/ active e = false /\ table_map l !! k = None) ->
  active e' = true -> key e' = k ->
  table_wf (<[i := e']> l) /\ table_map (<[i := e']> l) = <[k := value e']> (table_map l).
Proof.
  intros H He Hcase Ha' Hk'. pose proof (lookup_lt_Some _ _ _ He) as Hi.
  assert (forall j f, l !! j = Some f -> active f = true -> key f = k -> j = i) as Honly.
  { intros j f Hj Haf Hkf. destruct Hcase as [[Ha Hk]|[Ha Hn]].
    - apply (H j i f e); auto. congruence.
    - exfalso. assert (table_map l !! k = Some (value f)) as E by (apply table_lookup; [exact H|]; now exists j, f).
      congruence. }
  assert (table_wf (<[i := e']> l)) as Hwf.
  { intros a b x y Hx Hy Hax Hay Hkxy.
    destruct (decide (a = i)) as [->|Hna], (decide (b = i)) as [->|Hnb]; auto;
      rewrite ?(list_lookup_insert_eq l i e') in Hx by lia; rewrite ?(list_lookup_insert_eq l i e') in Hy by lia;
      rewrite ?(list_lookup_insert_ne l i a) in Hx by auto; rewrite ?(list_lookup_insert_ne l i b) in Hy by auto.
    - injection Hx as <-. symmetry. apply (Honly b y); auto. congruence.
    - injection Hy as <-. apply (Honly a x); auto. congruence.
    - now apply (H a b x y). }
  split; [exact Hwf|]. apply map_eq. intros k0. apply option_eq. intros v. rewrite table_lookup by exact Hwf.
  destruct (decide (k0 = k)) as [->|Hne].
  - rewrite lookup_insert_eq. split.
    + intros (j & f & Hj & Haf & Hkf & <-). destruct (decide (j = i)) as [->|Hnj].
      * rewrite list_lookup_insert_eq in Hj by lia. congruence.
      * rewrite list_lookup_insert_ne in Hj by auto. exfalso. exact (Hnj (Honly j f Hj Haf Hkf)).
    + intros [= <-]. exists i, e'. rewrite list_lookup_insert_eq by lia. auto.
  - rewrite lookup_insert_ne, table_lookup by auto. split; intros (j & f & Hj & Haf & Hkf & Hv); exists j, f.
    + rewrite list_lookup_insert_ne in Hj; [auto|]. intros ->. rewrite list_lookup_insert_eq in Hj by lia. congruence.
    + rewrite list_lookup_insert_ne; [auto|]. intros ->. rewrite He in Hj. injection Hj as ->.
      destruct Hcase as [[_ ?]|[? _]]; congruence.
Qed.

(** Clearing the entry with a key. *)
Lemma table_delete l i e z k :
  table_wf l -> l !! i = Some e -> active e = true -> key e = k -> active z = false ->
  table_wf (<[i := z]> l) /\ table_map (<[i := z]> l) = delete k (table_map l).
Proof.
  intros H He Ha Hk Hz. pose proof (lookup_lt_Some _ _ _ He) as Hi.
  assert (forall j f, <[i := z]> l !! j = Some f -> active f = true -> j <> i /\ l !! j = Some f) as Hin.
  { intros j f Hj Haf. destruct (decide (j = i)) as [->|Hnj].
    - rewrite list_lookup_insert_eq in Hj by lia. congruence.
    - now rewrite list_lookup_insert_ne in Hj. }
  assert (table_wf (<[i := z]> l)) as Hwf.
  { intros a b x y Hx Hy Hax Hay. apply (H a b x y); auto; now apply Hin. }
  split; [exact Hwf|]. apply map_eq. intros k0. apply option_eq. intros v. rewrite table_lookup by exact Hwf.
  destruct (decide (k0 = k)) as [->|Hne].
  - rewrite lookup_delete_eq. split; [|discriminate]. intros (j & f & Hj & Haf & Hkf & _).
    destruct (Hin j f Hj Haf) as [Hnj Hj']. exfalso. apply Hnj. apply (H j i f e); auto. congruence.
  - rewrite lookup_delete_ne, table_lookup by auto. split; intros (j & f & Hj & Haf & Hkf & Hv); exists j, f.
    + now destruct (Hin j f Hj Haf).
    + rewrite list_lookup_insert_ne; [auto|]. intros ->. congruence.
Qed.

(** A table is full exactly when the map has as many keys as it has slots. *)
Lemma table_size l : table_wf l -> size (table_map l) = length (filter (fun e => active e = true) l).
Proof.
  intros H. unfold table_map. rewrite map_size_list_to_map by now apply table_keys_NoDup. apply length_map.
Qed.

Lemma table_full l :
  table_wf l -> find_index (fun e => negb (active e)) l = None <-> size (table_map l) = length l.
Proof.
  intros H. rewrite table_size by exact H. clear H. rewrite find_index_None.
  induction l as [|e l IH]; [split; auto; intros _ x []|].
  pose proof (length_filter (fun e => active e = true) l).
  rewrite filter_cons. cbn [length]. case_decide as Ha.
  - cbn [length]. rewrite Nat.succ_inj_wd, <- IH. split; [intros Hx x Hin; apply Hx; now right|]. intros Hx x [<-|Hin]; [now rewrite Ha|auto].
  - split; [intros Hx; specialize (Hx e (or_introl eq_refl)); now destruct (active e)|lia].
Qed.

Lemma table_size_le l : table_wf l -> (size (table_map l) <= length l)%nat.
Proof. intros H. rewrite table_size by exact H. apply length_filter. Qed.

(** What the shared search returns, in terms of the map. *)
Lemma slot_search_table l k :
  table_wf l ->
  match slot_search active (fun e => bool_decide (key e = k)) l 0 None with
  | (Some i, _) => exists e, l !! i = Some e /\ active e = true /\ key e = k /\ table_map l !! k = Some (value e)
  | (None, Some i) => table_map l !! k = None /\ (size (table_map l) < length l)%nat /\
      exists e, l !! i = Some e /\ active e = false
  | (None, None) => table_map l !! k = None /\ size (table_map l) = length l
  end.
Proof.
  intros H. destruct (slot_search active _ l 0 None) as [[i|] empty] eqn:E;
    pose proof (slot_search_entry active (fun e => bool_decide (key e = k)) l 0 None) as H1; rewrite E in H1; cbn in H1;
    change (fun e => active e && bool_decide (key e = k)) with (matches_key k) in H1.
  - destruct (find_index (matches_key k) l) as [j|] eqn:F; [|discriminate]. injection H1 as ->.
    pose proof (find_key_Some l k j F) as (e & He & Ha & Hk). exists e. conj_split; auto.
    now apply (find_key_lookup l k j).
  - destruct (find_index (matches_key k) l) as [j|] eqn:F; [discriminate|].
    pose proof (slot_search_empty active (fun e => bool_decide (key e = k)) l 0 F) as H2. rewrite E in H2. cbn in H2.
    apply find_key_None in F; [|exact H]. pose proof (table_full l H) as Hfull. pose proof (table_size_le l H).
    destruct (find_index (fun e => negb (active e)) l) as [i|] eqn:G; cbn in H2; subst empty.
    + split; [exact F|]. split.
      { destruct (decide (size (table_map l) = length l)) as [G'|]; [|lia]. apply Hfull in G'. discriminate. }
      apply find_index_Some in G as (e & He & Hn & _). exists e. split; [exact He|]. now apply negb_true_iff.
    + split; [exact F|]. now apply Hfull.
Qed.
(** Summing over the map is summing over the active entries. *)
Lemma table_sum (w : V -> Z) l :
  table_wf l ->
  sumZ (map (fun kv => w kv.2) (map_to_list (table_map l))) =
  sumZ (map (fun e => if active e then w (value e) else 0) l).
Proof.
  intros H. unfold table_map. rewrite map_to_list_to_map by now apply table_keys_NoDup. rewrite map_map. clear H.
  induction l as [|e l IH]; [reflexivity|]. rewrite filter_cons. cbn [map].
  case_decide as Ha; cbn [map]; rewrite !sumZ_cons, IH; [now rewrite Ha|]. apply not_true_is_false in Ha. now rewrite Ha.
Qed.

(** Clearing the entries whose key and value satisfy a test. *)
Lemma table_sweep (c : A -> bool) (d : K -> V -> bool) z l :
  table_wf l -> active z = false -> (forall e, active e = true -> c e = d (key e) (value e)) ->
  let l' := map (fun e => if c e then z else e) l in
  table_wf l' /\ table_map l' = filter (fun kv => d kv.1 kv.2 = false) (table_map l).
Proof.
  intros H Hz Hd. cbv zeta. set (l' := map _ l).
  assert (forall i e, l' !! i = Some e -> active e = true -> l !! i = Some e /\ d (key e) (value e) = false) as Hin.
  { intros i e He Ha. unfold l' in He. rewrite (list_lookup_fmap (fun e => if c e then z else e)) in He.
    destruct (l !! i) as [f|]; [|discriminate]. injection He as He. destruct (c f) eqn:Ec; subst e; [congruence|].
    split; [reflexivity|]. now rewrite <- Hd. }
  assert (table_wf l') as Hw.
  { intros i j e f He Hf Hae Haf Hk. apply Hin in He as [He _]; [|exact Hae]. apply Hin in Hf as [Hf _]; [|exact Haf].
    exact (H i j e f He Hf Hae Haf Hk). }
  split; [exact Hw|]. apply map_eq. intros k. apply option_eq. intros v.
  rewrite map_lookup_filter_Some, !table_lookup by assumption. split.
  - intros (i & e & He & Ha & <- & <-). apply Hin in He as [He Hf]; [|exact Ha]. split; [now exists i, e|exact Hf].
  - intros [(i & e & He & Ha & <- & <-) Hf]. exists i, e. conj_split; auto. unfold l'.
    rewrite (list_lookup_fmap (fun e => if c e then z else e)), He. cbn. rewrite (Hd e Ha). cbn in Hf. now rewrite Hf.
Qed.
End Table.

Lemma empty_table {A K V} `{EqDecision K, Countable K} (active : A -> bool) (key : A -> K) (value : A -> V) n z :
  active z = false -> table_wf active key (replicate n z) /\ table_map active key value (replicate n z) = ∅.
Proof.
  intros Hz. assert (table_wf active key (replicate n z)) as Hwf.
  { intros i j e f [-> _]%lookup_replicate. congruence. }
  split; [exact Hwf|]. apply map_eq. intros k. rewrite lookup_empty. apply find_key_None with (active := active); [exact Hwf|].
  apply find_index_None. intros e He. apply list_elem_of_In, elem_of_replicate in He as [-> _].
  unfold matches_key. now rewrite Hz.
Qed.
