(* ===== verification/Device.v ===== *)
(** * The state of a device (src/kernel/core/internal.h, src/kernel/include/melodi/core.h)

    The structures the kernel core keeps per network device.  Fields are named
    after the members with a prefix per structure; [zero_x] is what
    [memset(x, 0, sizeof( *x))] leaves.  Pointers to buffers are the bytes they
    point to, a network namespace is a number, an [sk_buff] is its bytes.  The
    members of [struct melodi_device] are grouped by the component that owns
    them.  Locks, work items and module references have no counterpart, except
    that a scheduled work item is the delay it was last scheduled with. *)
From S2P Require Import Prelude Buffer Uapi.
From S2P Require Import Replay Ordering Reliability Airtime.

Abbreviation melodi_replay_window := Replay.melodi_replay_window.
Abbreviation melodi_replay_reset := Replay.melodi_replay_reset.
Abbreviation melodi_order_state := Ordering.melodi_order_state.
Abbreviation melodi_reliability_state := Reliability.melodi_reliability_state.
Abbreviation melodi_airtime_window := Airtime.melodi_airtime_window.
Abbreviation airtime_zero := Airtime.airtime_zero.

Abbreviation MELODI_PEER_LIMIT := 64%nat.
Abbreviation MELODI_FRAGMENT_LIMIT := 64.
Abbreviation MELODI_REASSEMBLY_LIMIT := 16%nat.
Abbreviation MELODI_POLICY_PEER_LIMIT := 64%nat.
Abbreviation MELODI_POLICY_SERVICE_LIMIT := 64%nat.
Abbreviation MELODI_PENDING_LIMIT := 32%nat.
Abbreviation MELODI_RECEIPT_LIMIT := 64%nat.
Abbreviation MELODI_ORDER_FLOW_LIMIT := 32%nat.
Abbreviation MELODI_ORDER_BUFFER_LIMIT := 64%nat.
Abbreviation MELODI_REASSEMBLY_BYTE_LIMIT := 32768.
Abbreviation MELODI_REASSEMBLY_TIMEOUT_MS := 5000.
Abbreviation MELODI_RECEIPT_TIMEOUT_MS := 10000.
Abbreviation MELODI_ORDER_BYTE_LIMIT := 32768.
Abbreviation MELODI_DISCOVERY_TARGET_LIMIT := 16%nat.
Abbreviation MELODI_DISCOVERY_PENDING_LIMIT := 32%nat.
Abbreviation MELODI_DISCOVERY_PER_NODE_LIMIT := 4.
Abbreviation MELODI_DISCOVERY_BYTE_LIMIT := 32768.
Abbreviation MELODI_DISCOVERY_TIMEOUT_MS := 5000.
Abbreviation MELODI_TX_QUEUE_LIMIT := 128%nat.
Abbreviation MELODI_TX_DATA_LIMIT := 112.
Abbreviation MELODI_TX_BYTE_LIMIT := 262144.
Abbreviation MELODI_TX_PER_PEER_LIMIT := 32.
Abbreviation MELODI_TX_PER_SERVICE_LIMIT := 32.
Abbreviation MELODI_TX_PER_BINDING_LIMIT := 32.
Abbreviation MELODI_TX_FLOW_LIMIT := 64%nat.
Abbreviation MELODI_TX_HIGH_WATER := 96.
Abbreviation MELODI_TX_LOW_WATER := 48.
Abbreviation MELODI_TX_CONTROL_TTL_MS := 5000.
Abbreviation MELODI_TX_CONTROL_BURST := 8.
Abbreviation MELODI_TX_NAMESPACE_LIMIT := 256.
Abbreviation MELODI_TX_NAMESPACE_BYTE_LIMIT := 524288.
Abbreviation MELODI_TX_RESERVATION_LIMIT := 128%nat.
Abbreviation MELODI_LINK_LOCATOR_BROADCAST := 0xffffffff.

Definition zero_node : melodi_node_id := MkNodeId (replicate 33 0).
Definition order_zero : melodi_order_state := Ordering.MkOrder 0 0 0.
Definition reliability_zero : melodi_reliability_state := Reliability.MkReliability 0 0 0 0 0 0 0 0 false.

Record melodi_tx_meta := MkTxMeta {
  tm_destination_locator : Z;
  tm_source_locator : Z;
  tm_cookie : Z;
}.

Definition zero_tx_meta : melodi_tx_meta :=
  MkTxMeta 0 0 0.

Record melodi_rx_meta := MkRxMeta {
  rm_timestamp_ns : Z;
  rm_source_locator : Z;
  rm_destination_locator : Z;
  rm_duplicates : Z;
  rm_rssi : Z;
  rm_snr : Z;
  rm_hops : Z;
  rm_retransmissions : Z;
  rm_authenticated : bool;
}.

Definition zero_rx_meta : melodi_rx_meta :=
  MkRxMeta 0 0 0 0 0 0 0 0 false.

Record melodi_pending_message := MkPending {
  pm_reliability : melodi_reliability_state;
  pm_destination : melodi_node_id;
  pm_fragments : list bytes;
  pm_reservation_id : Z;
  pm_cookie : Z;
  pm_expires_ms : Z;
  pm_session_epoch : Z;
  pm_binding_generation : Z;
  pm_source_native_locator : Z;
  pm_destination_native_locator : Z;
  pm_source_link_locator : Z;
  pm_destination_link_locator : Z;
  pm_destination_generation : Z;
  pm_source_service : Z;
  pm_destination_service : Z;
  pm_binding_portid : Z;
  pm_priority : Z;
  pm_allocated : bool;
}.

Definition zero_pending_message : melodi_pending_message :=
  MkPending reliability_zero zero_node [] 0 0 0 0 0 0 0 0 0 0 0 0 0 0 false.

Definition set_pm_reliability (v : melodi_reliability_state) (r : melodi_pending_message) : melodi_pending_message :=
  MkPending v r.(pm_destination) r.(pm_fragments) r.(pm_reservation_id) r.(pm_cookie)
    r.(pm_expires_ms) r.(pm_session_epoch) r.(pm_binding_generation) r.(pm_source_native_locator)
    r.(pm_destination_native_locator) r.(pm_source_link_locator) r.(pm_destination_link_locator)
    r.(pm_destination_generation) r.(pm_source_service) r.(pm_destination_service)
    r.(pm_binding_portid) r.(pm_priority) r.(pm_allocated).

Record melodi_receipt := MkReceipt {
  rc_source : melodi_node_id;
  rc_message_id : Z;
  rc_bitmap : Z;
  rc_session_epoch : Z;
  rc_expires : Z;
  rc_generation : Z;
  rc_fragment_count : Z;
  rc_status : Z;
  rc_active : bool;
}.

Definition zero_receipt : melodi_receipt :=
  MkReceipt zero_node 0 0 0 0 0 0 0 false.

Record melodi_order_tx_flow := MkOrderTx {
  otx_destination : melodi_node_id;
  otx_session_epoch : Z;
  otx_generation : Z;
  otx_next_marker : Z;
  otx_source_service : Z;
  otx_destination_service : Z;
  otx_active : bool;
}.

Definition zero_order_tx_flow : melodi_order_tx_flow :=
  MkOrderTx zero_node 0 0 0 0 0 false.

Record melodi_order_rx_flow := MkOrderRx {
  orx_state : melodi_order_state;
  orx_source : melodi_node_id;
  orx_session_epoch : Z;
  orx_generation : Z;
  orx_source_service : Z;
  orx_destination_service : Z;
  orx_active : bool;
}.

Definition zero_order_rx_flow : melodi_order_rx_flow :=
  MkOrderRx order_zero zero_node 0 0 0 0 false.

Record melodi_order_message := MkOrderMessage {
  om_source : melodi_node_id;
  om_metadata : melodi_rx_meta;
  om_payload : bytes;
  om_length : Z;
  om_marker : Z;
  om_source_service : Z;
  om_destination_service : Z;
  om_flow_index : Z;
  om_active : bool;
}.

Definition zero_order_message : melodi_order_message :=
  MkOrderMessage zero_node zero_rx_meta [] 0 0 0 0 0 false.

Record melodi_policy_peer := MkPolicyPeer {
  pp_node_id : melodi_node_id;
  pp_state : Z;
  pp_active : bool;
}.

Definition zero_policy_peer : melodi_policy_peer :=
  MkPolicyPeer zero_node 0 false.

Record melodi_policy_service := MkPolicyService {
  ps_service : Z;
  ps_action : Z;
  ps_active : bool;
}.

Definition zero_policy_service : melodi_policy_service :=
  MkPolicyService 0 0 false.

Record melodi_fragment := MkFragment {
  fr_data : bytes;
  fr_length : Z;
}.

Definition zero_fragment : melodi_fragment :=
  MkFragment [] 0.

Record melodi_reassembly := MkReassembly {
  re_source : melodi_node_id;
  re_metadata : melodi_rx_meta;
  re_message_id : Z;
  re_session_epoch : Z;
  re_expires : Z;
  re_received : Z;
  re_generation : Z;
  re_logical_length : Z;
  re_received_length : Z;
  re_ordering_marker : Z;
  re_source_service : Z;
  re_destination_service : Z;
  re_fragment_count : Z;
  re_flags : Z;
  re_delivery_mode : Z;
  re_priority : Z;
  re_active : bool;
  re_fragments : list melodi_fragment;
}.

Definition zero_reassembly : melodi_reassembly :=
  MkReassembly zero_node zero_rx_meta 0 0 0 0 0 0 0 0 0 0 0 0 0 0 false (replicate 64
    zero_fragment).

Definition set_re_received (v : Z) (r : melodi_reassembly) : melodi_reassembly :=
  MkReassembly r.(re_source) r.(re_metadata) r.(re_message_id) r.(re_session_epoch) r.(re_expires)
    v r.(re_generation) r.(re_logical_length) r.(re_received_length) r.(re_ordering_marker)
    r.(re_source_service) r.(re_destination_service) r.(re_fragment_count) r.(re_flags)
    r.(re_delivery_mode) r.(re_priority) r.(re_active) r.(re_fragments).
Definition set_re_received_length (v : Z) (r : melodi_reassembly) : melodi_reassembly :=
  MkReassembly r.(re_source) r.(re_metadata) r.(re_message_id) r.(re_session_epoch) r.(re_expires)
    r.(re_received) r.(re_generation) r.(re_logical_length) v r.(re_ordering_marker)
    r.(re_source_service) r.(re_destination_service) r.(re_fragment_count) r.(re_flags)
    r.(re_delivery_mode) r.(re_priority) r.(re_active) r.(re_fragments).
Definition set_re_fragments (v : list melodi_fragment) (r : melodi_reassembly) : melodi_reassembly :=
  MkReassembly r.(re_source) r.(re_metadata) r.(re_message_id) r.(re_session_epoch) r.(re_expires)
    r.(re_received) r.(re_generation) r.(re_logical_length) r.(re_received_length)
    r.(re_ordering_marker) r.(re_source_service) r.(re_destination_service) r.(re_fragment_count)
    r.(re_flags) r.(re_delivery_mode) r.(re_priority) r.(re_active) v.

Record melodi_peer := MkPeer {
  p_node_id : melodi_node_id;
  p_native_locator : Z;
  p_link_locator : Z;
  p_collision_round : Z;
  p_generation : Z;
  p_control_counter : Z;
  p_expires : Z;
  p_capabilities : Z;
  p_last_seen_ns : Z;
  p_rssi : Z;
  p_snr : Z;
  p_hops : Z;
  p_receive_replay : melodi_replay_window;
  p_session_epoch : Z;
  p_transmit_key : bytes;
  p_receive_key : bytes;
  p_ephemeral_private : bytes;
  p_ephemeral_public : bytes;
  p_remote_hello_challenge : bytes;
  p_local_challenge : bytes;
  p_authenticated : bool;
  p_conflicted : bool;
  p_handshake_pending : bool;
  p_session_ready : bool;
}.

Definition zero_peer : melodi_peer :=
  MkPeer zero_node 0 0 0 0 0 0 0 0 0 0 0 melodi_replay_reset 0 (replicate 32 0) (replicate 32
    0) (replicate 32 0) (replicate 32 0) (replicate 32 0) (replicate 32 0) false false false
    false.

Definition set_p_native_locator (v : Z) (r : melodi_peer) : melodi_peer :=
  MkPeer r.(p_node_id) v r.(p_link_locator) r.(p_collision_round) r.(p_generation)
    r.(p_control_counter) r.(p_expires) r.(p_capabilities) r.(p_last_seen_ns) r.(p_rssi) r.(p_snr)
    r.(p_hops) r.(p_receive_replay) r.(p_session_epoch) r.(p_transmit_key) r.(p_receive_key)
    r.(p_ephemeral_private) r.(p_ephemeral_public) r.(p_remote_hello_challenge)
    r.(p_local_challenge) r.(p_authenticated) r.(p_conflicted) r.(p_handshake_pending)
    r.(p_session_ready).
Definition set_p_link_locator (v : Z) (r : melodi_peer) : melodi_peer :=
  MkPeer r.(p_node_id) r.(p_native_locator) v r.(p_collision_round) r.(p_generation)
    r.(p_control_counter) r.(p_expires) r.(p_capabilities) r.(p_last_seen_ns) r.(p_rssi) r.(p_snr)
    r.(p_hops) r.(p_receive_replay) r.(p_session_epoch) r.(p_transmit_key) r.(p_receive_key)
    r.(p_ephemeral_private) r.(p_ephemeral_public) r.(p_remote_hello_challenge)
    r.(p_local_challenge) r.(p_authenticated) r.(p_conflicted) r.(p_handshake_pending)
    r.(p_session_ready).
Definition set_p_collision_round (v : Z) (r : melodi_peer) : melodi_peer :=
  MkPeer r.(p_node_id) r.(p_native_locator) r.(p_link_locator) v r.(p_generation)
    r.(p_control_counter) r.(p_expires) r.(p_capabilities) r.(p_last_seen_ns) r.(p_rssi) r.(p_snr)
    r.(p_hops) r.(p_receive_replay) r.(p_session_epoch) r.(p_transmit_key) r.(p_receive_key)
    r.(p_ephemeral_private) r.(p_ephemeral_public) r.(p_remote_hello_challenge)
    r.(p_local_challenge) r.(p_authenticated) r.(p_conflicted) r.(p_handshake_pending)
    r.(p_session_ready).
Definition set_p_generation (v : Z) (r : melodi_peer) : melodi_peer :=
  MkPeer r.(p_node_id) r.(p_native_locator) r.(p_link_locator) r.(p_collision_round) v
    r.(p_control_counter) r.(p_expires) r.(p_capabilities) r.(p_last_seen_ns) r.(p_rssi) r.(p_snr)
    r.(p_hops) r.(p_receive_replay) r.(p_session_epoch) r.(p_transmit_key) r.(p_receive_key)
    r.(p_ephemeral_private) r.(p_ephemeral_public) r.(p_remote_hello_challenge)
    r.(p_local_challenge) r.(p_authenticated) r.(p_conflicted) r.(p_handshake_pending)
    r.(p_session_ready).
Definition set_p_control_counter (v : Z) (r : melodi_peer) : melodi_peer :=
  MkPeer r.(p_node_id) r.(p_native_locator) r.(p_link_locator) r.(p_collision_round)
    r.(p_generation) v r.(p_expires) r.(p_capabilities) r.(p_last_seen_ns) r.(p_rssi) r.(p_snr)
    r.(p_hops) r.(p_receive_replay) r.(p_session_epoch) r.(p_transmit_key) r.(p_receive_key)
    r.(p_ephemeral_private) r.(p_ephemeral_public) r.(p_remote_hello_challenge)
    r.(p_local_challenge) r.(p_authenticated) r.(p_conflicted) r.(p_handshake_pending)
    r.(p_session_ready).
Definition set_p_expires (v : Z) (r : melodi_peer) : melodi_peer :=
  MkPeer r.(p_node_id) r.(p_native_locator) r.(p_link_locator) r.(p_collision_round)
    r.(p_generation) r.(p_control_counter) v r.(p_capabilities) r.(p_last_seen_ns) r.(p_rssi)
    r.(p_snr) r.(p_hops) r.(p_receive_replay) r.(p_session_epoch) r.(p_transmit_key)
    r.(p_receive_key) r.(p_ephemeral_private) r.(p_ephemeral_public) r.(p_remote_hello_challenge)
    r.(p_local_challenge) r.(p_authenticated) r.(p_conflicted) r.(p_handshake_pending)
    r.(p_session_ready).
Definition set_p_capabilities (v : Z) (r : melodi_peer) : melodi_peer :=
  MkPeer r.(p_node_id) r.(p_native_locator) r.(p_link_locator) r.(p_collision_round)
    r.(p_generation) r.(p_control_counter) r.(p_expires) v r.(p_last_seen_ns) r.(p_rssi) r.(p_snr)
    r.(p_hops) r.(p_receive_replay) r.(p_session_epoch) r.(p_transmit_key) r.(p_receive_key)
    r.(p_ephemeral_private) r.(p_ephemeral_public) r.(p_remote_hello_challenge)
    r.(p_local_challenge) r.(p_authenticated) r.(p_conflicted) r.(p_handshake_pending)
    r.(p_session_ready).
Definition set_p_last_seen_ns (v : Z) (r : melodi_peer) : melodi_peer :=
  MkPeer r.(p_node_id) r.(p_native_locator) r.(p_link_locator) r.(p_collision_round)
    r.(p_generation) r.(p_control_counter) r.(p_expires) r.(p_capabilities) v r.(p_rssi) r.(p_snr)
    r.(p_hops) r.(p_receive_replay) r.(p_session_epoch) r.(p_transmit_key) r.(p_receive_key)
    r.(p_ephemeral_private) r.(p_ephemeral_public) r.(p_remote_hello_challenge)
    r.(p_local_challenge) r.(p_authenticated) r.(p_conflicted) r.(p_handshake_pending)
    r.(p_session_ready).
Definition set_p_rssi (v : Z) (r : melodi_peer) : melodi_peer :=
  MkPeer r.(p_node_id) r.(p_native_locator) r.(p_link_locator) r.(p_collision_round)
    r.(p_generation) r.(p_control_counter) r.(p_expires) r.(p_capabilities) r.(p_last_seen_ns) v
    r.(p_snr) r.(p_hops) r.(p_receive_replay) r.(p_session_epoch) r.(p_transmit_key)
    r.(p_receive_key) r.(p_ephemeral_private) r.(p_ephemeral_public) r.(p_remote_hello_challenge)
    r.(p_local_challenge) r.(p_authenticated) r.(p_conflicted) r.(p_handshake_pending)
    r.(p_session_ready).
Definition set_p_snr (v : Z) (r : melodi_peer) : melodi_peer :=
  MkPeer r.(p_node_id) r.(p_native_locator) r.(p_link_locator) r.(p_collision_round)
    r.(p_generation) r.(p_control_counter) r.(p_expires) r.(p_capabilities) r.(p_last_seen_ns)
    r.(p_rssi) v r.(p_hops) r.(p_receive_replay) r.(p_session_epoch) r.(p_transmit_key)
    r.(p_receive_key) r.(p_ephemeral_private) r.(p_ephemeral_public) r.(p_remote_hello_challenge)
    r.(p_local_challenge) r.(p_authenticated) r.(p_conflicted) r.(p_handshake_pending)
    r.(p_session_ready).
Definition set_p_hops (v : Z) (r : melodi_peer) : melodi_peer :=
  MkPeer r.(p_node_id) r.(p_native_locator) r.(p_link_locator) r.(p_collision_round)
    r.(p_generation) r.(p_control_counter) r.(p_expires) r.(p_capabilities) r.(p_last_seen_ns)
    r.(p_rssi) r.(p_snr) v r.(p_receive_replay) r.(p_session_epoch) r.(p_transmit_key)
    r.(p_receive_key) r.(p_ephemeral_private) r.(p_ephemeral_public) r.(p_remote_hello_challenge)
    r.(p_local_challenge) r.(p_authenticated) r.(p_conflicted) r.(p_handshake_pending)
    r.(p_session_ready).
Definition set_p_session_epoch (v : Z) (r : melodi_peer) : melodi_peer :=
  MkPeer r.(p_node_id) r.(p_native_locator) r.(p_link_locator) r.(p_collision_round)
    r.(p_generation) r.(p_control_counter) r.(p_expires) r.(p_capabilities) r.(p_last_seen_ns)
    r.(p_rssi) r.(p_snr) r.(p_hops) r.(p_receive_replay) v r.(p_transmit_key) r.(p_receive_key)
    r.(p_ephemeral_private) r.(p_ephemeral_public) r.(p_remote_hello_challenge)
    r.(p_local_challenge) r.(p_authenticated) r.(p_conflicted) r.(p_handshake_pending)
    r.(p_session_ready).
Definition set_p_transmit_key (v : bytes) (r : melodi_peer) : melodi_peer :=
  MkPeer r.(p_node_id) r.(p_native_locator) r.(p_link_locator) r.(p_collision_round)
    r.(p_generation) r.(p_control_counter) r.(p_expires) r.(p_capabilities) r.(p_last_seen_ns)
    r.(p_rssi) r.(p_snr) r.(p_hops) r.(p_receive_replay) r.(p_session_epoch) v r.(p_receive_key)
    r.(p_ephemeral_private) r.(p_ephemeral_public) r.(p_remote_hello_challenge)
    r.(p_local_challenge) r.(p_authenticated) r.(p_conflicted) r.(p_handshake_pending)
    r.(p_session_ready).
Definition set_p_receive_key (v : bytes) (r : melodi_peer) : melodi_peer :=
  MkPeer r.(p_node_id) r.(p_native_locator) r.(p_link_locator) r.(p_collision_round)
    r.(p_generation) r.(p_control_counter) r.(p_expires) r.(p_capabilities) r.(p_last_seen_ns)
    r.(p_rssi) r.(p_snr) r.(p_hops) r.(p_receive_replay) r.(p_session_epoch) r.(p_transmit_key) v
    r.(p_ephemeral_private) r.(p_ephemeral_public) r.(p_remote_hello_challenge)
    r.(p_local_challenge) r.(p_authenticated) r.(p_conflicted) r.(p_handshake_pending)
    r.(p_session_ready).
Definition set_p_ephemeral_private (v : bytes) (r : melodi_peer) : melodi_peer :=
  MkPeer r.(p_node_id) r.(p_native_locator) r.(p_link_locator) r.(p_collision_round)
    r.(p_generation) r.(p_control_counter) r.(p_expires) r.(p_capabilities) r.(p_last_seen_ns)
    r.(p_rssi) r.(p_snr) r.(p_hops) r.(p_receive_replay) r.(p_session_epoch) r.(p_transmit_key)
    r.(p_receive_key) v r.(p_ephemeral_public) r.(p_remote_hello_challenge) r.(p_local_challenge)
    r.(p_authenticated) r.(p_conflicted) r.(p_handshake_pending) r.(p_session_ready).
Definition set_p_ephemeral_public (v : bytes) (r : melodi_peer) : melodi_peer :=
  MkPeer r.(p_node_id) r.(p_native_locator) r.(p_link_locator) r.(p_collision_round)
    r.(p_generation) r.(p_control_counter) r.(p_expires) r.(p_capabilities) r.(p_last_seen_ns)
    r.(p_rssi) r.(p_snr) r.(p_hops) r.(p_receive_replay) r.(p_session_epoch) r.(p_transmit_key)
    r.(p_receive_key) r.(p_ephemeral_private) v r.(p_remote_hello_challenge) r.(p_local_challenge)
    r.(p_authenticated) r.(p_conflicted) r.(p_handshake_pending) r.(p_session_ready).
Definition set_p_remote_hello_challenge (v : bytes) (r : melodi_peer) : melodi_peer :=
  MkPeer r.(p_node_id) r.(p_native_locator) r.(p_link_locator) r.(p_collision_round)
    r.(p_generation) r.(p_control_counter) r.(p_expires) r.(p_capabilities) r.(p_last_seen_ns)
    r.(p_rssi) r.(p_snr) r.(p_hops) r.(p_receive_replay) r.(p_session_epoch) r.(p_transmit_key)
    r.(p_receive_key) r.(p_ephemeral_private) r.(p_ephemeral_public) v r.(p_local_challenge)
    r.(p_authenticated) r.(p_conflicted) r.(p_handshake_pending) r.(p_session_ready).
Definition set_p_local_challenge (v : bytes) (r : melodi_peer) : melodi_peer :=
  MkPeer r.(p_node_id) r.(p_native_locator) r.(p_link_locator) r.(p_collision_round)
    r.(p_generation) r.(p_control_counter) r.(p_expires) r.(p_capabilities) r.(p_last_seen_ns)
    r.(p_rssi) r.(p_snr) r.(p_hops) r.(p_receive_replay) r.(p_session_epoch) r.(p_transmit_key)
    r.(p_receive_key) r.(p_ephemeral_private) r.(p_ephemeral_public) r.(p_remote_hello_challenge) v
    r.(p_authenticated) r.(p_conflicted) r.(p_handshake_pending) r.(p_session_ready).
Definition set_p_receive_replay (v : melodi_replay_window) (r : melodi_peer) : melodi_peer :=
  MkPeer r.(p_node_id) r.(p_native_locator) r.(p_link_locator) r.(p_collision_round)
    r.(p_generation) r.(p_control_counter) r.(p_expires) r.(p_capabilities) r.(p_last_seen_ns)
    r.(p_rssi) r.(p_snr) r.(p_hops) v r.(p_session_epoch) r.(p_transmit_key) r.(p_receive_key)
    r.(p_ephemeral_private) r.(p_ephemeral_public) r.(p_remote_hello_challenge)
    r.(p_local_challenge) r.(p_authenticated) r.(p_conflicted) r.(p_handshake_pending)
    r.(p_session_ready).
Definition set_p_authenticated (v : bool) (r : melodi_peer) : melodi_peer :=
  MkPeer r.(p_node_id) r.(p_native_locator) r.(p_link_locator) r.(p_collision_round)
    r.(p_generation) r.(p_control_counter) r.(p_expires) r.(p_capabilities) r.(p_last_seen_ns)
    r.(p_rssi) r.(p_snr) r.(p_hops) r.(p_receive_replay) r.(p_session_epoch) r.(p_transmit_key)
    r.(p_receive_key) r.(p_ephemeral_private) r.(p_ephemeral_public) r.(p_remote_hello_challenge)
    r.(p_local_challenge) v r.(p_conflicted) r.(p_handshake_pending) r.(p_session_ready).
Definition set_p_session_ready (v : bool) (r : melodi_peer) : melodi_peer :=
  MkPeer r.(p_node_id) r.(p_native_locator) r.(p_link_locator) r.(p_collision_round)
    r.(p_generation) r.(p_control_counter) r.(p_expires) r.(p_capabilities) r.(p_last_seen_ns)
    r.(p_rssi) r.(p_snr) r.(p_hops) r.(p_receive_replay) r.(p_session_epoch) r.(p_transmit_key)
    r.(p_receive_key) r.(p_ephemeral_private) r.(p_ephemeral_public) r.(p_remote_hello_challenge)
    r.(p_local_challenge) r.(p_authenticated) r.(p_conflicted) r.(p_handshake_pending) v.
Definition set_p_handshake_pending (v : bool) (r : melodi_peer) : melodi_peer :=
  MkPeer r.(p_node_id) r.(p_native_locator) r.(p_link_locator) r.(p_collision_round)
    r.(p_generation) r.(p_control_counter) r.(p_expires) r.(p_capabilities) r.(p_last_seen_ns)
    r.(p_rssi) r.(p_snr) r.(p_hops) r.(p_receive_replay) r.(p_session_epoch) r.(p_transmit_key)
    r.(p_receive_key) r.(p_ephemeral_private) r.(p_ephemeral_public) r.(p_remote_hello_challenge)
    r.(p_local_challenge) r.(p_authenticated) r.(p_conflicted) v r.(p_session_ready).
Definition set_p_conflicted (v : bool) (r : melodi_peer) : melodi_peer :=
  MkPeer r.(p_node_id) r.(p_native_locator) r.(p_link_locator) r.(p_collision_round)
    r.(p_generation) r.(p_control_counter) r.(p_expires) r.(p_capabilities) r.(p_last_seen_ns)
    r.(p_rssi) r.(p_snr) r.(p_hops) r.(p_receive_replay) r.(p_session_epoch) r.(p_transmit_key)
    r.(p_receive_key) r.(p_ephemeral_private) r.(p_ephemeral_public) r.(p_remote_hello_challenge)
    r.(p_local_challenge) r.(p_authenticated) v r.(p_handshake_pending) r.(p_session_ready).

Record melodi_discovery_target := MkTarget {
  dt_destination : melodi_node_id;
  dt_expires_ms : Z;
  dt_active : bool;
}.

Definition zero_discovery_target : melodi_discovery_target :=
  MkTarget zero_node 0 false.

Record melodi_discovery_pending := MkDiscovery {
  dp_destination : melodi_node_id;
  dp_payload : bytes;
  dp_cookie : Z;
  dp_expires_ms : Z;
  dp_binding_generation : Z;
  dp_binding_portid : Z;
  dp_flags : Z;
  dp_length : Z;
  dp_source_service : Z;
  dp_destination_service : Z;
  dp_priority : Z;
  dp_in_flight : bool;
  dp_active : bool;
}.

Definition zero_discovery_pending : melodi_discovery_pending :=
  MkDiscovery zero_node [] 0 0 0 0 0 0 0 0 0 false false.

Definition set_dp_in_flight (v : bool) (r : melodi_discovery_pending) : melodi_discovery_pending :=
  MkDiscovery r.(dp_destination) r.(dp_payload) r.(dp_cookie) r.(dp_expires_ms)
    r.(dp_binding_generation) r.(dp_binding_portid) r.(dp_flags) r.(dp_length) r.(dp_source_service)
    r.(dp_destination_service) r.(dp_priority) v r.(dp_active).

Record melodi_queue_request := MkRequest {
  q_destination : melodi_node_id;
  q_message_id : Z;
  q_session_epoch : Z;
  q_ttl_ms : Z;
  q_binding_portid : Z;
  q_identity_generation : Z;
  q_source_locator : Z;
  q_binding_generation : Z;
  q_service : Z;
  q_destination_service : Z;
  q_priority : Z;
  q_broadcast : bool;
  q_reliable : bool;
  q_control : bool;
}.

Definition zero_queue_request : melodi_queue_request :=
  MkRequest zero_node 0 0 0 0 0 0 0 0 0 0 false false false.

Record melodi_tx_reservation := MkReservation {
  v_destination : melodi_node_id;
  v_net : Z;
  v_id : Z;
  v_expires_ms : Z;
  v_binding_generation : Z;
  v_cookie : Z;
  v_tag : Z;
  v_session_epoch : Z;
  v_locator : Z;
  v_source_locator : Z;
  v_binding_portid : Z;
  v_identity_generation : Z;
  v_bytes : Z;
  v_logical_length : Z;
  v_count : Z;
  v_service : Z;
  v_destination_service : Z;
  v_priority : Z;
  v_peer_index : nat;
  v_flow_index : nat;
  v_pending_reserved : bool;
  v_broadcast : bool;
  v_reliable : bool;
  v_claimed : bool;
  v_sealed : bool;
  v_active : bool;
}.

Definition zero_tx_reservation : melodi_tx_reservation :=
  MkReservation zero_node 0 0 0 0 0 0 0 0 0 0 0 0 0 0 0 0 0 0%nat 0%nat false false false
    false false false.

Definition set_v_tag (v : Z) (r : melodi_tx_reservation) : melodi_tx_reservation :=
  MkReservation r.(v_destination) r.(v_net) r.(v_id) r.(v_expires_ms) r.(v_binding_generation)
    r.(v_cookie) v r.(v_session_epoch) r.(v_locator) r.(v_source_locator) r.(v_binding_portid)
    r.(v_identity_generation) r.(v_bytes) r.(v_logical_length) r.(v_count) r.(v_service)
    r.(v_destination_service) r.(v_priority) r.(v_peer_index) r.(v_flow_index)
    r.(v_pending_reserved) r.(v_broadcast) r.(v_reliable) r.(v_claimed) r.(v_sealed) r.(v_active).
Definition set_v_pending_reserved (v : bool) (r : melodi_tx_reservation) : melodi_tx_reservation :=
  MkReservation r.(v_destination) r.(v_net) r.(v_id) r.(v_expires_ms) r.(v_binding_generation)
    r.(v_cookie) r.(v_tag) r.(v_session_epoch) r.(v_locator) r.(v_source_locator)
    r.(v_binding_portid) r.(v_identity_generation) r.(v_bytes) r.(v_logical_length) r.(v_count)
    r.(v_service) r.(v_destination_service) r.(v_priority) r.(v_peer_index) r.(v_flow_index) v
    r.(v_broadcast) r.(v_reliable) r.(v_claimed) r.(v_sealed) r.(v_active).
Definition set_v_claimed (v : bool) (r : melodi_tx_reservation) : melodi_tx_reservation :=
  MkReservation r.(v_destination) r.(v_net) r.(v_id) r.(v_expires_ms) r.(v_binding_generation)
    r.(v_cookie) r.(v_tag) r.(v_session_epoch) r.(v_locator) r.(v_source_locator)
    r.(v_binding_portid) r.(v_identity_generation) r.(v_bytes) r.(v_logical_length) r.(v_count)
    r.(v_service) r.(v_destination_service) r.(v_priority) r.(v_peer_index) r.(v_flow_index)
    r.(v_pending_reserved) r.(v_broadcast) r.(v_reliable) v r.(v_sealed) r.(v_active).
Definition set_v_sealed (v : bool) (r : melodi_tx_reservation) : melodi_tx_reservation :=
  MkReservation r.(v_destination) r.(v_net) r.(v_id) r.(v_expires_ms) r.(v_binding_generation)
    r.(v_cookie) r.(v_tag) r.(v_session_epoch) r.(v_locator) r.(v_source_locator)
    r.(v_binding_portid) r.(v_identity_generation) r.(v_bytes) r.(v_logical_length) r.(v_count)
    r.(v_service) r.(v_destination_service) r.(v_priority) r.(v_peer_index) r.(v_flow_index)
    r.(v_pending_reserved) r.(v_broadcast) r.(v_reliable) r.(v_claimed) v r.(v_active).

Record melodi_tx_queue_entry := MkEntry {
  e_destination : melodi_node_id;
  e_frame : bytes;
  e_net : Z;
  e_metadata : melodi_tx_meta;
  e_sequence : Z;
  e_group_id : Z;
  e_message_id : Z;
  e_session_epoch : Z;
  e_expires_ms : Z;
  e_defer_until_ms : Z;
  e_binding_generation : Z;
  e_binding_portid : Z;
  e_identity_generation : Z;
  e_length : Z;
  e_service : Z;
  e_destination_service : Z;
  e_priority : Z;
  e_peer_index : nat;
  e_flow_index : nat;
  e_control : bool;
  e_broadcast : bool;
  e_reliable : bool;
  e_cancelled : bool;
  e_terminal_notified : bool;
  e_in_flight : bool;
  e_active : bool;
}.

Definition zero_tx_queue_entry : melodi_tx_queue_entry :=
  MkEntry zero_node [] 0 zero_tx_meta 0 0 0 0 0 0 0 0 0 0 0 0 0 0%nat 0%nat false false false
    false false false false.

Definition set_e_defer_until_ms (v : Z) (r : melodi_tx_queue_entry) : melodi_tx_queue_entry :=
  MkEntry r.(e_destination) r.(e_frame) r.(e_net) r.(e_metadata) r.(e_sequence) r.(e_group_id)
    r.(e_message_id) r.(e_session_epoch) r.(e_expires_ms) v r.(e_binding_generation)
    r.(e_binding_portid) r.(e_identity_generation) r.(e_length) r.(e_service)
    r.(e_destination_service) r.(e_priority) r.(e_peer_index) r.(e_flow_index) r.(e_control)
    r.(e_broadcast) r.(e_reliable) r.(e_cancelled) r.(e_terminal_notified) r.(e_in_flight)
    r.(e_active).
Definition set_e_cancelled (v : bool) (r : melodi_tx_queue_entry) : melodi_tx_queue_entry :=
  MkEntry r.(e_destination) r.(e_frame) r.(e_net) r.(e_metadata) r.(e_sequence) r.(e_group_id)
    r.(e_message_id) r.(e_session_epoch) r.(e_expires_ms) r.(e_defer_until_ms)
    r.(e_binding_generation) r.(e_binding_portid) r.(e_identity_generation) r.(e_length)
    r.(e_service) r.(e_destination_service) r.(e_priority) r.(e_peer_index) r.(e_flow_index)
    r.(e_control) r.(e_broadcast) r.(e_reliable) v r.(e_terminal_notified) r.(e_in_flight)
    r.(e_active).
Definition set_e_terminal_notified (v : bool) (r : melodi_tx_queue_entry) : melodi_tx_queue_entry :=
  MkEntry r.(e_destination) r.(e_frame) r.(e_net) r.(e_metadata) r.(e_sequence) r.(e_group_id)
    r.(e_message_id) r.(e_session_epoch) r.(e_expires_ms) r.(e_defer_until_ms)
    r.(e_binding_generation) r.(e_binding_portid) r.(e_identity_generation) r.(e_length)
    r.(e_service) r.(e_destination_service) r.(e_priority) r.(e_peer_index) r.(e_flow_index)
    r.(e_control) r.(e_broadcast) r.(e_reliable) r.(e_cancelled) v r.(e_in_flight) r.(e_active).
Definition set_e_in_flight (v : bool) (r : melodi_tx_queue_entry) : melodi_tx_queue_entry :=
  MkEntry r.(e_destination) r.(e_frame) r.(e_net) r.(e_metadata) r.(e_sequence) r.(e_group_id)
    r.(e_message_id) r.(e_session_epoch) r.(e_expires_ms) r.(e_defer_until_ms)
    r.(e_binding_generation) r.(e_binding_portid) r.(e_identity_generation) r.(e_length)
    r.(e_service) r.(e_destination_service) r.(e_priority) r.(e_peer_index) r.(e_flow_index)
    r.(e_control) r.(e_broadcast) r.(e_reliable) r.(e_cancelled) r.(e_terminal_notified) v
    r.(e_active).

Record melodi_tx_peer_turn := MkPeerTurn {
  pt_turn : Z;
  pt_locator : Z;
  pt_active : bool;
}.

Definition zero_tx_peer_turn : melodi_tx_peer_turn :=
  MkPeerTurn 0 0 false.

Definition set_pt_turn (v : Z) (r : melodi_tx_peer_turn) : melodi_tx_peer_turn :=
  MkPeerTurn v r.(pt_locator) r.(pt_active).

Record melodi_tx_flow_turn := MkFlowTurn {
  ft_turn : Z;
  ft_binding_generation : Z;
  ft_locator : Z;
  ft_binding_portid : Z;
  ft_service : Z;
  ft_peer_index : nat;
  ft_active : bool;
}.

Definition zero_tx_flow_turn : melodi_tx_flow_turn :=
  MkFlowTurn 0 0 0 0 0 0%nat false.

Definition set_ft_turn (v : Z) (r : melodi_tx_flow_turn) : melodi_tx_flow_turn :=
  MkFlowTurn v r.(ft_binding_generation) r.(ft_locator) r.(ft_binding_portid) r.(ft_service)
    r.(ft_peer_index) r.(ft_active).

(** ** The groups of [struct melodi_device] *)

(** Identity and link. *)
Record link_state := MkLink {
  l_node_id : melodi_node_id;
  l_identity_ready : bool;
  l_transport_ready : bool;
  l_local_native_locator : Z;
  l_local_link_locator : Z;
  l_local_collision_round : Z;
  l_identity_generation : Z;
  l_transmit_counter : Z;
}.

Definition set_l_transmit_counter (v : Z) (r : link_state) : link_state :=
  MkLink r.(l_node_id) r.(l_identity_ready) r.(l_transport_ready) r.(l_local_native_locator)
    r.(l_local_link_locator) r.(l_local_collision_round) r.(l_identity_generation) v.

(** Reassembly, receipts and ordered delivery. *)
Record receive_state := MkReceive {
  r_reassembly_bytes : Z;
  r_reassemblies : list melodi_reassembly;
  r_receipts : list melodi_receipt;
  r_order_tx : list melodi_order_tx_flow;
  r_order_rx : list melodi_order_rx_flow;
  r_order_messages : list melodi_order_message;
  r_order_bytes : Z;
}.

Definition set_r_reassembly_bytes (v : Z) (r : receive_state) : receive_state :=
  MkReceive v r.(r_reassemblies) r.(r_receipts) r.(r_order_tx) r.(r_order_rx) r.(r_order_messages)
    r.(r_order_bytes).
Definition set_r_reassemblies (v : list melodi_reassembly) (r : receive_state) : receive_state :=
  MkReceive r.(r_reassembly_bytes) v r.(r_receipts) r.(r_order_tx) r.(r_order_rx)
    r.(r_order_messages) r.(r_order_bytes).
Definition set_r_receipts (v : list melodi_receipt) (r : receive_state) : receive_state :=
  MkReceive r.(r_reassembly_bytes) r.(r_reassemblies) v r.(r_order_tx) r.(r_order_rx)
    r.(r_order_messages) r.(r_order_bytes).
Definition set_r_order_tx (v : list melodi_order_tx_flow) (r : receive_state) : receive_state :=
  MkReceive r.(r_reassembly_bytes) r.(r_reassemblies) r.(r_receipts) v r.(r_order_rx)
    r.(r_order_messages) r.(r_order_bytes).
Definition set_r_order_rx (v : list melodi_order_rx_flow) (r : receive_state) : receive_state :=
  MkReceive r.(r_reassembly_bytes) r.(r_reassemblies) r.(r_receipts) r.(r_order_tx) v
    r.(r_order_messages) r.(r_order_bytes).
Definition set_r_order_messages (v : list melodi_order_message) (r : receive_state) : receive_state :=
  MkReceive r.(r_reassembly_bytes) r.(r_reassemblies) r.(r_receipts) r.(r_order_tx) r.(r_order_rx)
    v r.(r_order_bytes).
Definition set_r_order_bytes (v : Z) (r : receive_state) : receive_state :=
  MkReceive r.(r_reassembly_bytes) r.(r_reassemblies) r.(r_receipts) r.(r_order_tx) r.(r_order_rx)
    r.(r_order_messages) v.

(** Policy tables. *)
Record policy_state := MkPolicy {
  y_mode : Z;
  y_broadcast_allowed : bool;
  y_peers : list melodi_policy_peer;
  y_services : list melodi_policy_service;
}.

Definition set_y_mode (v : Z) (r : policy_state) : policy_state :=
  MkPolicy v r.(y_broadcast_allowed) r.(y_peers) r.(y_services).
Definition set_y_broadcast_allowed (v : bool) (r : policy_state) : policy_state :=
  MkPolicy r.(y_mode) v r.(y_peers) r.(y_services).
Definition set_y_peers (v : list melodi_policy_peer) (r : policy_state) : policy_state :=
  MkPolicy r.(y_mode) r.(y_broadcast_allowed) v r.(y_services).
Definition set_y_services (v : list melodi_policy_service) (r : policy_state) : policy_state :=
  MkPolicy r.(y_mode) r.(y_broadcast_allowed) r.(y_peers) v.

(** The transmit queue, with the statistics of the network device and whether its
    transmit queues are stopped. *)
Record tx_state := MkTx {
  t_queue : list melodi_tx_queue_entry;
  t_reservations : list melodi_tx_reservation;
  t_peers : list melodi_tx_peer_turn;
  t_flows : list melodi_tx_flow_turn;
  t_queue_work : option Z;
  t_reservation_work : option Z;
  t_airtime : melodi_airtime_window;
  t_broadcast_airtime : melodi_airtime_window;
  t_airtime_after : melodi_airtime_window;
  t_broadcast_after : melodi_airtime_window;
  t_guard_until_ms : Z;
  t_queue_sequence : Z;
  t_group_sequence : Z;
  t_reservation_sequence : Z;
  t_scheduler_turn : Z;
  t_airtime_budget_us : Z;
  t_broadcast_budget_us : Z;
  t_queue_bytes : Z;
  t_reserved_bytes : Z;
  t_queue_count : Z;
  t_reserved_count : Z;
  t_pending_reserved : Z;
  t_priority_slot : Z;
  t_control_burst : Z;
  t_queue_stopping : bool;
  t_duty_defers : Z;
  t_queue_expired : Z;
  t_dropped : Z;
  t_packets : Z;
  t_bytes : Z;
  t_stopped : bool;
}.

Definition set_t_queue (v : list melodi_tx_queue_entry) (r : tx_state) : tx_state :=
  MkTx v r.(t_reservations) r.(t_peers) r.(t_flows) r.(t_queue_work) r.(t_reservation_work)
    r.(t_airtime) r.(t_broadcast_airtime) r.(t_airtime_after) r.(t_broadcast_after)
    r.(t_guard_until_ms) r.(t_queue_sequence) r.(t_group_sequence) r.(t_reservation_sequence)
    r.(t_scheduler_turn) r.(t_airtime_budget_us) r.(t_broadcast_budget_us) r.(t_queue_bytes)
    r.(t_reserved_bytes) r.(t_queue_count) r.(t_reserved_count) r.(t_pending_reserved)
    r.(t_priority_slot) r.(t_control_burst) r.(t_queue_stopping) r.(t_duty_defers)
    r.(t_queue_expired) r.(t_dropped) r.(t_packets) r.(t_bytes) r.(t_stopped).
Definition set_t_reservations (v : list melodi_tx_reservation) (r : tx_state) : tx_state :=
  MkTx r.(t_queue) v r.(t_peers) r.(t_flows) r.(t_queue_work) r.(t_reservation_work) r.(t_airtime)
    r.(t_broadcast_airtime) r.(t_airtime_after) r.(t_broadcast_after) r.(t_guard_until_ms)
    r.(t_queue_sequence) r.(t_group_sequence) r.(t_reservation_sequence) r.(t_scheduler_turn)
    r.(t_airtime_budget_us) r.(t_broadcast_budget_us) r.(t_queue_bytes) r.(t_reserved_bytes)
    r.(t_queue_count) r.(t_reserved_count) r.(t_pending_reserved) r.(t_priority_slot)
    r.(t_control_burst) r.(t_queue_stopping) r.(t_duty_defers) r.(t_queue_expired) r.(t_dropped)
    r.(t_packets) r.(t_bytes) r.(t_stopped).
Definition set_t_peers (v : list melodi_tx_peer_turn) (r : tx_state) : tx_state :=
  MkTx r.(t_queue) r.(t_reservations) v r.(t_flows) r.(t_queue_work) r.(t_reservation_work)
    r.(t_airtime) r.(t_broadcast_airtime) r.(t_airtime_after) r.(t_broadcast_after)
    r.(t_guard_until_ms) r.(t_queue_sequence) r.(t_group_sequence) r.(t_reservation_sequence)
    r.(t_scheduler_turn) r.(t_airtime_budget_us) r.(t_broadcast_budget_us) r.(t_queue_bytes)
    r.(t_reserved_bytes) r.(t_queue_count) r.(t_reserved_count) r.(t_pending_reserved)
    r.(t_priority_slot) r.(t_control_burst) r.(t_queue_stopping) r.(t_duty_defers)
    r.(t_queue_expired) r.(t_dropped) r.(t_packets) r.(t_bytes) r.(t_stopped).
Definition set_t_flows (v : list melodi_tx_flow_turn) (r : tx_state) : tx_state :=
  MkTx r.(t_queue) r.(t_reservations) r.(t_peers) v r.(t_queue_work) r.(t_reservation_work)
    r.(t_airtime) r.(t_broadcast_airtime) r.(t_airtime_after) r.(t_broadcast_after)
    r.(t_guard_until_ms) r.(t_queue_sequence) r.(t_group_sequence) r.(t_reservation_sequence)
    r.(t_scheduler_turn) r.(t_airtime_budget_us) r.(t_broadcast_budget_us) r.(t_queue_bytes)
    r.(t_reserved_bytes) r.(t_queue_count) r.(t_reserved_count) r.(t_pending_reserved)
    r.(t_priority_slot) r.(t_control_burst) r.(t_queue_stopping) r.(t_duty_defers)
    r.(t_queue_expired) r.(t_dropped) r.(t_packets) r.(t_bytes) r.(t_stopped).
Definition set_t_queue_work (v : option Z) (r : tx_state) : tx_state :=
  MkTx r.(t_queue) r.(t_reservations) r.(t_peers) r.(t_flows) v r.(t_reservation_work)
    r.(t_airtime) r.(t_broadcast_airtime) r.(t_airtime_after) r.(t_broadcast_after)
    r.(t_guard_until_ms) r.(t_queue_sequence) r.(t_group_sequence) r.(t_reservation_sequence)
    r.(t_scheduler_turn) r.(t_airtime_budget_us) r.(t_broadcast_budget_us) r.(t_queue_bytes)
    r.(t_reserved_bytes) r.(t_queue_count) r.(t_reserved_count) r.(t_pending_reserved)
    r.(t_priority_slot) r.(t_control_burst) r.(t_queue_stopping) r.(t_duty_defers)
    r.(t_queue_expired) r.(t_dropped) r.(t_packets) r.(t_bytes) r.(t_stopped).
Definition set_t_reservation_work (v : option Z) (r : tx_state) : tx_state :=
  MkTx r.(t_queue) r.(t_reservations) r.(t_peers) r.(t_flows) r.(t_queue_work) v r.(t_airtime)
    r.(t_broadcast_airtime) r.(t_airtime_after) r.(t_broadcast_after) r.(t_guard_until_ms)
    r.(t_queue_sequence) r.(t_group_sequence) r.(t_reservation_sequence) r.(t_scheduler_turn)
    r.(t_airtime_budget_us) r.(t_broadcast_budget_us) r.(t_queue_bytes) r.(t_reserved_bytes)
    r.(t_queue_count) r.(t_reserved_count) r.(t_pending_reserved) r.(t_priority_slot)
    r.(t_control_burst) r.(t_queue_stopping) r.(t_duty_defers) r.(t_queue_expired) r.(t_dropped)
    r.(t_packets) r.(t_bytes) r.(t_stopped).
Definition set_t_airtime (v : melodi_airtime_window) (r : tx_state) : tx_state :=
  MkTx r.(t_queue) r.(t_reservations) r.(t_peers) r.(t_flows) r.(t_queue_work)
    r.(t_reservation_work) v r.(t_broadcast_airtime) r.(t_airtime_after) r.(t_broadcast_after)
    r.(t_guard_until_ms) r.(t_queue_sequence) r.(t_group_sequence) r.(t_reservation_sequence)
    r.(t_scheduler_turn) r.(t_airtime_budget_us) r.(t_broadcast_budget_us) r.(t_queue_bytes)
    r.(t_reserved_bytes) r.(t_queue_count) r.(t_reserved_count) r.(t_pending_reserved)
    r.(t_priority_slot) r.(t_control_burst) r.(t_queue_stopping) r.(t_duty_defers)
    r.(t_queue_expired) r.(t_dropped) r.(t_packets) r.(t_bytes) r.(t_stopped).
Definition set_t_broadcast_airtime (v : melodi_airtime_window) (r : tx_state) : tx_state :=
  MkTx r.(t_queue) r.(t_reservations) r.(t_peers) r.(t_flows) r.(t_queue_work)
    r.(t_reservation_work) r.(t_airtime) v r.(t_airtime_after) r.(t_broadcast_after)
    r.(t_guard_until_ms) r.(t_queue_sequence) r.(t_group_sequence) r.(t_reservation_sequence)
    r.(t_scheduler_turn) r.(t_airtime_budget_us) r.(t_broadcast_budget_us) r.(t_queue_bytes)
    r.(t_reserved_bytes) r.(t_queue_count) r.(t_reserved_count) r.(t_pending_reserved)
    r.(t_priority_slot) r.(t_control_burst) r.(t_queue_stopping) r.(t_duty_defers)
    r.(t_queue_expired) r.(t_dropped) r.(t_packets) r.(t_bytes) r.(t_stopped).
Definition set_t_airtime_after (v : melodi_airtime_window) (r : tx_state) : tx_state :=
  MkTx r.(t_queue) r.(t_reservations) r.(t_peers) r.(t_flows) r.(t_queue_work)
    r.(t_reservation_work) r.(t_airtime) r.(t_broadcast_airtime) v r.(t_broadcast_after)
    r.(t_guard_until_ms) r.(t_queue_sequence) r.(t_group_sequence) r.(t_reservation_sequence)
    r.(t_scheduler_turn) r.(t_airtime_budget_us) r.(t_broadcast_budget_us) r.(t_queue_bytes)
    r.(t_reserved_bytes) r.(t_queue_count) r.(t_reserved_count) r.(t_pending_reserved)
    r.(t_priority_slot) r.(t_control_burst) r.(t_queue_stopping) r.(t_duty_defers)
    r.(t_queue_expired) r.(t_dropped) r.(t_packets) r.(t_bytes) r.(t_stopped).
Definition set_t_broadcast_after (v : melodi_airtime_window) (r : tx_state) : tx_state :=
  MkTx r.(t_queue) r.(t_reservations) r.(t_peers) r.(t_flows) r.(t_queue_work)
    r.(t_reservation_work) r.(t_airtime) r.(t_broadcast_airtime) r.(t_airtime_after) v
    r.(t_guard_until_ms) r.(t_queue_sequence) r.(t_group_sequence) r.(t_reservation_sequence)
    r.(t_scheduler_turn) r.(t_airtime_budget_us) r.(t_broadcast_budget_us) r.(t_queue_bytes)
    r.(t_reserved_bytes) r.(t_queue_count) r.(t_reserved_count) r.(t_pending_reserved)
    r.(t_priority_slot) r.(t_control_burst) r.(t_queue_stopping) r.(t_duty_defers)
    r.(t_queue_expired) r.(t_dropped) r.(t_packets) r.(t_bytes) r.(t_stopped).
Definition set_t_guard_until_ms (v : Z) (r : tx_state) : tx_state :=
  MkTx r.(t_queue) r.(t_reservations) r.(t_peers) r.(t_flows) r.(t_queue_work)
    r.(t_reservation_work) r.(t_airtime) r.(t_broadcast_airtime) r.(t_airtime_after)
    r.(t_broadcast_after) v r.(t_queue_sequence) r.(t_group_sequence) r.(t_reservation_sequence)
    r.(t_scheduler_turn) r.(t_airtime_budget_us) r.(t_broadcast_budget_us) r.(t_queue_bytes)
    r.(t_reserved_bytes) r.(t_queue_count) r.(t_reserved_count) r.(t_pending_reserved)
    r.(t_priority_slot) r.(t_control_burst) r.(t_queue_stopping) r.(t_duty_defers)
    r.(t_queue_expired) r.(t_dropped) r.(t_packets) r.(t_bytes) r.(t_stopped).
Definition set_t_queue_sequence (v : Z) (r : tx_state) : tx_state :=
  MkTx r.(t_queue) r.(t_reservations) r.(t_peers) r.(t_flows) r.(t_queue_work)
    r.(t_reservation_work) r.(t_airtime) r.(t_broadcast_airtime) r.(t_airtime_after)
    r.(t_broadcast_after) r.(t_guard_until_ms) v r.(t_group_sequence) r.(t_reservation_sequence)
    r.(t_scheduler_turn) r.(t_airtime_budget_us) r.(t_broadcast_budget_us) r.(t_queue_bytes)
    r.(t_reserved_bytes) r.(t_queue_count) r.(t_reserved_count) r.(t_pending_reserved)
    r.(t_priority_slot) r.(t_control_burst) r.(t_queue_stopping) r.(t_duty_defers)
    r.(t_queue_expired) r.(t_dropped) r.(t_packets) r.(t_bytes) r.(t_stopped).
Definition set_t_group_sequence (v : Z) (r : tx_state) : tx_state :=
  MkTx r.(t_queue) r.(t_reservations) r.(t_peers) r.(t_flows) r.(t_queue_work)
    r.(t_reservation_work) r.(t_airtime) r.(t_broadcast_airtime) r.(t_airtime_after)
    r.(t_broadcast_after) r.(t_guard_until_ms) r.(t_queue_sequence) v r.(t_reservation_sequence)
    r.(t_scheduler_turn) r.(t_airtime_budget_us) r.(t_broadcast_budget_us) r.(t_queue_bytes)
    r.(t_reserved_bytes) r.(t_queue_count) r.(t_reserved_count) r.(t_pending_reserved)
    r.(t_priority_slot) r.(t_control_burst) r.(t_queue_stopping) r.(t_duty_defers)
    r.(t_queue_expired) r.(t_dropped) r.(t_packets) r.(t_bytes) r.(t_stopped).
Definition set_t_reservation_sequence (v : Z) (r : tx_state) : tx_state :=
  MkTx r.(t_queue) r.(t_reservations) r.(t_peers) r.(t_flows) r.(t_queue_work)
    r.(t_reservation_work) r.(t_airtime) r.(t_broadcast_airtime) r.(t_airtime_after)
    r.(t_broadcast_after) r.(t_guard_until_ms) r.(t_queue_sequence) r.(t_group_sequence) v
    r.(t_scheduler_turn) r.(t_airtime_budget_us) r.(t_broadcast_budget_us) r.(t_queue_bytes)
    r.(t_reserved_bytes) r.(t_queue_count) r.(t_reserved_count) r.(t_pending_reserved)
    r.(t_priority_slot) r.(t_control_burst) r.(t_queue_stopping) r.(t_duty_defers)
    r.(t_queue_expired) r.(t_dropped) r.(t_packets) r.(t_bytes) r.(t_stopped).
Definition set_t_scheduler_turn (v : Z) (r : tx_state) : tx_state :=
  MkTx r.(t_queue) r.(t_reservations) r.(t_peers) r.(t_flows) r.(t_queue_work)
    r.(t_reservation_work) r.(t_airtime) r.(t_broadcast_airtime) r.(t_airtime_after)
    r.(t_broadcast_after) r.(t_guard_until_ms) r.(t_queue_sequence) r.(t_group_sequence)
    r.(t_reservation_sequence) v r.(t_airtime_budget_us) r.(t_broadcast_budget_us) r.(t_queue_bytes)
    r.(t_reserved_bytes) r.(t_queue_count) r.(t_reserved_count) r.(t_pending_reserved)
    r.(t_priority_slot) r.(t_control_burst) r.(t_queue_stopping) r.(t_duty_defers)
    r.(t_queue_expired) r.(t_dropped) r.(t_packets) r.(t_bytes) r.(t_stopped).
Definition set_t_airtime_budget_us (v : Z) (r : tx_state) : tx_state :=
  MkTx r.(t_queue) r.(t_reservations) r.(t_peers) r.(t_flows) r.(t_queue_work)
    r.(t_reservation_work) r.(t_airtime) r.(t_broadcast_airtime) r.(t_airtime_after)
    r.(t_broadcast_after) r.(t_guard_until_ms) r.(t_queue_sequence) r.(t_group_sequence)
    r.(t_reservation_sequence) r.(t_scheduler_turn) v r.(t_broadcast_budget_us) r.(t_queue_bytes)
    r.(t_reserved_bytes) r.(t_queue_count) r.(t_reserved_count) r.(t_pending_reserved)
    r.(t_priority_slot) r.(t_control_burst) r.(t_queue_stopping) r.(t_duty_defers)
    r.(t_queue_expired) r.(t_dropped) r.(t_packets) r.(t_bytes) r.(t_stopped).
Definition set_t_broadcast_budget_us (v : Z) (r : tx_state) : tx_state :=
  MkTx r.(t_queue) r.(t_reservations) r.(t_peers) r.(t_flows) r.(t_queue_work)
    r.(t_reservation_work) r.(t_airtime) r.(t_broadcast_airtime) r.(t_airtime_after)
    r.(t_broadcast_after) r.(t_guard_until_ms) r.(t_queue_sequence) r.(t_group_sequence)
    r.(t_reservation_sequence) r.(t_scheduler_turn) r.(t_airtime_budget_us) v r.(t_queue_bytes)
    r.(t_reserved_bytes) r.(t_queue_count) r.(t_reserved_count) r.(t_pending_reserved)
    r.(t_priority_slot) r.(t_control_burst) r.(t_queue_stopping) r.(t_duty_defers)
    r.(t_queue_expired) r.(t_dropped) r.(t_packets) r.(t_bytes) r.(t_stopped).
Definition set_t_queue_bytes (v : Z) (r : tx_state) : tx_state :=
  MkTx r.(t_queue) r.(t_reservations) r.(t_peers) r.(t_flows) r.(t_queue_work)
    r.(t_reservation_work) r.(t_airtime) r.(t_broadcast_airtime) r.(t_airtime_after)
    r.(t_broadcast_after) r.(t_guard_until_ms) r.(t_queue_sequence) r.(t_group_sequence)
    r.(t_reservation_sequence) r.(t_scheduler_turn) r.(t_airtime_budget_us)
    r.(t_broadcast_budget_us) v r.(t_reserved_bytes) r.(t_queue_count) r.(t_reserved_count)
    r.(t_pending_reserved) r.(t_priority_slot) r.(t_control_burst) r.(t_queue_stopping)
    r.(t_duty_defers) r.(t_queue_expired) r.(t_dropped) r.(t_packets) r.(t_bytes) r.(t_stopped).
Definition set_t_reserved_bytes (v : Z) (r : tx_state) : tx_state :=
  MkTx r.(t_queue) r.(t_reservations) r.(t_peers) r.(t_flows) r.(t_queue_work)
    r.(t_reservation_work) r.(t_airtime) r.(t_broadcast_airtime) r.(t_airtime_after)
    r.(t_broadcast_after) r.(t_guard_until_ms) r.(t_queue_sequence) r.(t_group_sequence)
    r.(t_reservation_sequence) r.(t_scheduler_turn) r.(t_airtime_budget_us)
    r.(t_broadcast_budget_us) r.(t_queue_bytes) v r.(t_queue_count) r.(t_reserved_count)
    r.(t_pending_reserved) r.(t_priority_slot) r.(t_control_burst) r.(t_queue_stopping)
    r.(t_duty_defers) r.(t_queue_expired) r.(t_dropped) r.(t_packets) r.(t_bytes) r.(t_stopped).
Definition set_t_queue_count (v : Z) (r : tx_state) : tx_state :=
  MkTx r.(t_queue) r.(t_reservations) r.(t_peers) r.(t_flows) r.(t_queue_work)
    r.(t_reservation_work) r.(t_airtime) r.(t_broadcast_airtime) r.(t_airtime_after)
    r.(t_broadcast_after) r.(t_guard_until_ms) r.(t_queue_sequence) r.(t_group_sequence)
    r.(t_reservation_sequence) r.(t_scheduler_turn) r.(t_airtime_budget_us)
    r.(t_broadcast_budget_us) r.(t_queue_bytes) r.(t_reserved_bytes) v r.(t_reserved_count)
    r.(t_pending_reserved) r.(t_priority_slot) r.(t_control_burst) r.(t_queue_stopping)
    r.(t_duty_defers) r.(t_queue_expired) r.(t_dropped) r.(t_packets) r.(t_bytes) r.(t_stopped).
Definition set_t_reserved_count (v : Z) (r : tx_state) : tx_state :=
  MkTx r.(t_queue) r.(t_reservations) r.(t_peers) r.(t_flows) r.(t_queue_work)
    r.(t_reservation_work) r.(t_airtime) r.(t_broadcast_airtime) r.(t_airtime_after)
    r.(t_broadcast_after) r.(t_guard_until_ms) r.(t_queue_sequence) r.(t_group_sequence)
    r.(t_reservation_sequence) r.(t_scheduler_turn) r.(t_airtime_budget_us)
    r.(t_broadcast_budget_us) r.(t_queue_bytes) r.(t_reserved_bytes) r.(t_queue_count) v
    r.(t_pending_reserved) r.(t_priority_slot) r.(t_control_burst) r.(t_queue_stopping)
    r.(t_duty_defers) r.(t_queue_expired) r.(t_dropped) r.(t_packets) r.(t_bytes) r.(t_stopped).
Definition set_t_pending_reserved (v : Z) (r : tx_state) : tx_state :=
  MkTx r.(t_queue) r.(t_reservations) r.(t_peers) r.(t_flows) r.(t_queue_work)
    r.(t_reservation_work) r.(t_airtime) r.(t_broadcast_airtime) r.(t_airtime_after)
    r.(t_broadcast_after) r.(t_guard_until_ms) r.(t_queue_sequence) r.(t_group_sequence)
    r.(t_reservation_sequence) r.(t_scheduler_turn) r.(t_airtime_budget_us)
    r.(t_broadcast_budget_us) r.(t_queue_bytes) r.(t_reserved_bytes) r.(t_queue_count)
    r.(t_reserved_count) v r.(t_priority_slot) r.(t_control_burst) r.(t_queue_stopping)
    r.(t_duty_defers) r.(t_queue_expired) r.(t_dropped) r.(t_packets) r.(t_bytes) r.(t_stopped).
Definition set_t_priority_slot (v : Z) (r : tx_state) : tx_state :=
  MkTx r.(t_queue) r.(t_reservations) r.(t_peers) r.(t_flows) r.(t_queue_work)
    r.(t_reservation_work) r.(t_airtime) r.(t_broadcast_airtime) r.(t_airtime_after)
    r.(t_broadcast_after) r.(t_guard_until_ms) r.(t_queue_sequence) r.(t_group_sequence)
    r.(t_reservation_sequence) r.(t_scheduler_turn) r.(t_airtime_budget_us)
    r.(t_broadcast_budget_us) r.(t_queue_bytes) r.(t_reserved_bytes) r.(t_queue_count)
    r.(t_reserved_count) r.(t_pending_reserved) v r.(t_control_burst) r.(t_queue_stopping)
    r.(t_duty_defers) r.(t_queue_expired) r.(t_dropped) r.(t_packets) r.(t_bytes) r.(t_stopped).
Definition set_t_control_burst (v : Z) (r : tx_state) : tx_state :=
  MkTx r.(t_queue) r.(t_reservations) r.(t_peers) r.(t_flows) r.(t_queue_work)
    r.(t_reservation_work) r.(t_airtime) r.(t_broadcast_airtime) r.(t_airtime_after)
    r.(t_broadcast_after) r.(t_guard_until_ms) r.(t_queue_sequence) r.(t_group_sequence)
    r.(t_reservation_sequence) r.(t_scheduler_turn) r.(t_airtime_budget_us)
    r.(t_broadcast_budget_us) r.(t_queue_bytes) r.(t_reserved_bytes) r.(t_queue_count)
    r.(t_reserved_count) r.(t_pending_reserved) r.(t_priority_slot) v r.(t_queue_stopping)
    r.(t_duty_defers) r.(t_queue_expired) r.(t_dropped) r.(t_packets) r.(t_bytes) r.(t_stopped).
Definition set_t_queue_stopping (v : bool) (r : tx_state) : tx_state :=
  MkTx r.(t_queue) r.(t_reservations) r.(t_peers) r.(t_flows) r.(t_queue_work)
    r.(t_reservation_work) r.(t_airtime) r.(t_broadcast_airtime) r.(t_airtime_after)
    r.(t_broadcast_after) r.(t_guard_until_ms) r.(t_queue_sequence) r.(t_group_sequence)
    r.(t_reservation_sequence) r.(t_scheduler_turn) r.(t_airtime_budget_us)
    r.(t_broadcast_budget_us) r.(t_queue_bytes) r.(t_reserved_bytes) r.(t_queue_count)
    r.(t_reserved_count) r.(t_pending_reserved) r.(t_priority_slot) r.(t_control_burst) v
    r.(t_duty_defers) r.(t_queue_expired) r.(t_dropped) r.(t_packets) r.(t_bytes) r.(t_stopped).
Definition set_t_duty_defers (v : Z) (r : tx_state) : tx_state :=
  MkTx r.(t_queue) r.(t_reservations) r.(t_peers) r.(t_flows) r.(t_queue_work)
    r.(t_reservation_work) r.(t_airtime) r.(t_broadcast_airtime) r.(t_airtime_after)
    r.(t_broadcast_after) r.(t_guard_until_ms) r.(t_queue_sequence) r.(t_group_sequence)
    r.(t_reservation_sequence) r.(t_scheduler_turn) r.(t_airtime_budget_us)
    r.(t_broadcast_budget_us) r.(t_queue_bytes) r.(t_reserved_bytes) r.(t_queue_count)
    r.(t_reserved_count) r.(t_pending_reserved) r.(t_priority_slot) r.(t_control_burst)
    r.(t_queue_stopping) v r.(t_queue_expired) r.(t_dropped) r.(t_packets) r.(t_bytes)
    r.(t_stopped).
Definition set_t_queue_expired (v : Z) (r : tx_state) : tx_state :=
  MkTx r.(t_queue) r.(t_reservations) r.(t_peers) r.(t_flows) r.(t_queue_work)
    r.(t_reservation_work) r.(t_airtime) r.(t_broadcast_airtime) r.(t_airtime_after)
    r.(t_broadcast_after) r.(t_guard_until_ms) r.(t_queue_sequence) r.(t_group_sequence)
    r.(t_reservation_sequence) r.(t_scheduler_turn) r.(t_airtime_budget_us)
    r.(t_broadcast_budget_us) r.(t_queue_bytes) r.(t_reserved_bytes) r.(t_queue_count)
    r.(t_reserved_count) r.(t_pending_reserved) r.(t_priority_slot) r.(t_control_burst)
    r.(t_queue_stopping) r.(t_duty_defers) v r.(t_dropped) r.(t_packets) r.(t_bytes) r.(t_stopped).
Definition set_t_dropped (v : Z) (r : tx_state) : tx_state :=
  MkTx r.(t_queue) r.(t_reservations) r.(t_peers) r.(t_flows) r.(t_queue_work)
    r.(t_reservation_work) r.(t_airtime) r.(t_broadcast_airtime) r.(t_airtime_after)
    r.(t_broadcast_after) r.(t_guard_until_ms) r.(t_queue_sequence) r.(t_group_sequence)
    r.(t_reservation_sequence) r.(t_scheduler_turn) r.(t_airtime_budget_us)
    r.(t_broadcast_budget_us) r.(t_queue_bytes) r.(t_reserved_bytes) r.(t_queue_count)
    r.(t_reserved_count) r.(t_pending_reserved) r.(t_priority_slot) r.(t_control_burst)
    r.(t_queue_stopping) r.(t_duty_defers) r.(t_queue_expired) v r.(t_packets) r.(t_bytes)
    r.(t_stopped).
Definition set_t_packets (v : Z) (r : tx_state) : tx_state :=
  MkTx r.(t_queue) r.(t_reservations) r.(t_peers) r.(t_flows) r.(t_queue_work)
    r.(t_reservation_work) r.(t_airtime) r.(t_broadcast_airtime) r.(t_airtime_after)
    r.(t_broadcast_after) r.(t_guard_until_ms) r.(t_queue_sequence) r.(t_group_sequence)
    r.(t_reservation_sequence) r.(t_scheduler_turn) r.(t_airtime_budget_us)
    r.(t_broadcast_budget_us) r.(t_queue_bytes) r.(t_reserved_bytes) r.(t_queue_count)
    r.(t_reserved_count) r.(t_pending_reserved) r.(t_priority_slot) r.(t_control_burst)
    r.(t_queue_stopping) r.(t_duty_defers) r.(t_queue_expired) r.(t_dropped) v r.(t_bytes)
    r.(t_stopped).
Definition set_t_bytes (v : Z) (r : tx_state) : tx_state :=
  MkTx r.(t_queue) r.(t_reservations) r.(t_peers) r.(t_flows) r.(t_queue_work)
    r.(t_reservation_work) r.(t_airtime) r.(t_broadcast_airtime) r.(t_airtime_after)
    r.(t_broadcast_after) r.(t_guard_until_ms) r.(t_queue_sequence) r.(t_group_sequence)
    r.(t_reservation_sequence) r.(t_scheduler_turn) r.(t_airtime_budget_us)
    r.(t_broadcast_budget_us) r.(t_queue_bytes) r.(t_reserved_bytes) r.(t_queue_count)
    r.(t_reserved_count) r.(t_pending_reserved) r.(t_priority_slot) r.(t_control_burst)
    r.(t_queue_stopping) r.(t_duty_defers) r.(t_queue_expired) r.(t_dropped) r.(t_packets) v
    r.(t_stopped).
Definition set_t_stopped (v : bool) (r : tx_state) : tx_state :=
  MkTx r.(t_queue) r.(t_reservations) r.(t_peers) r.(t_flows) r.(t_queue_work)
    r.(t_reservation_work) r.(t_airtime) r.(t_broadcast_airtime) r.(t_airtime_after)
    r.(t_broadcast_after) r.(t_guard_until_ms) r.(t_queue_sequence) r.(t_group_sequence)
    r.(t_reservation_sequence) r.(t_scheduler_turn) r.(t_airtime_budget_us)
    r.(t_broadcast_budget_us) r.(t_queue_bytes) r.(t_reserved_bytes) r.(t_queue_count)
    r.(t_reserved_count) r.(t_pending_reserved) r.(t_priority_slot) r.(t_control_burst)
    r.(t_queue_stopping) r.(t_duty_defers) r.(t_queue_expired) r.(t_dropped) r.(t_packets)
    r.(t_bytes) v.

(** Messages that wait for a peer, the timers of the data plane and its statistics. *)
Record data_state := MkData {
  a_reassembly_work : option Z;
  a_reliability_work : option Z;
  a_discovery_work : option Z;
  a_discovery_targets : list melodi_discovery_target;
  a_discovery_pending : list melodi_discovery_pending;
  a_discovery_bytes : Z;
  a_discovery_count : Z;
  a_broadcast_tx : Z;
  a_broadcast_rx : Z;
}.

Definition set_a_reassembly_work (v : option Z) (r : data_state) : data_state :=
  MkData v r.(a_reliability_work) r.(a_discovery_work) r.(a_discovery_targets)
    r.(a_discovery_pending) r.(a_discovery_bytes) r.(a_discovery_count) r.(a_broadcast_tx)
    r.(a_broadcast_rx).
Definition set_a_reliability_work (v : option Z) (r : data_state) : data_state :=
  MkData r.(a_reassembly_work) v r.(a_discovery_work) r.(a_discovery_targets)
    r.(a_discovery_pending) r.(a_discovery_bytes) r.(a_discovery_count) r.(a_broadcast_tx)
    r.(a_broadcast_rx).
Definition set_a_discovery_work (v : option Z) (r : data_state) : data_state :=
  MkData r.(a_reassembly_work) r.(a_reliability_work) v r.(a_discovery_targets)
    r.(a_discovery_pending) r.(a_discovery_bytes) r.(a_discovery_count) r.(a_broadcast_tx)
    r.(a_broadcast_rx).
Definition set_a_discovery_targets (v : list melodi_discovery_target) (r : data_state) : data_state :=
  MkData r.(a_reassembly_work) r.(a_reliability_work) r.(a_discovery_work) v
    r.(a_discovery_pending) r.(a_discovery_bytes) r.(a_discovery_count) r.(a_broadcast_tx)
    r.(a_broadcast_rx).
Definition set_a_discovery_pending (v : list melodi_discovery_pending) (r : data_state) : data_state :=
  MkData r.(a_reassembly_work) r.(a_reliability_work) r.(a_discovery_work) r.(a_discovery_targets)
    v r.(a_discovery_bytes) r.(a_discovery_count) r.(a_broadcast_tx) r.(a_broadcast_rx).
Definition set_a_discovery_bytes (v : Z) (r : data_state) : data_state :=
  MkData r.(a_reassembly_work) r.(a_reliability_work) r.(a_discovery_work) r.(a_discovery_targets)
    r.(a_discovery_pending) v r.(a_discovery_count) r.(a_broadcast_tx) r.(a_broadcast_rx).
Definition set_a_discovery_count (v : Z) (r : data_state) : data_state :=
  MkData r.(a_reassembly_work) r.(a_reliability_work) r.(a_discovery_work) r.(a_discovery_targets)
    r.(a_discovery_pending) r.(a_discovery_bytes) v r.(a_broadcast_tx) r.(a_broadcast_rx).
Definition set_a_broadcast_tx (v : Z) (r : data_state) : data_state :=
  MkData r.(a_reassembly_work) r.(a_reliability_work) r.(a_discovery_work) r.(a_discovery_targets)
    r.(a_discovery_pending) r.(a_discovery_bytes) r.(a_discovery_count) v r.(a_broadcast_rx).
Definition set_a_broadcast_rx (v : Z) (r : data_state) : data_state :=
  MkData r.(a_reassembly_work) r.(a_reliability_work) r.(a_discovery_work) r.(a_discovery_targets)
    r.(a_discovery_pending) r.(a_discovery_bytes) r.(a_discovery_count) r.(a_broadcast_tx) v.

Record melodi_device := MkDevice {
  d_link : link_state;
  d_peers : list melodi_peer;
  d_receive : receive_state;
  d_pending : list melodi_pending_message;
  d_policy : policy_state;
  d_tx : tx_state;
  d_data : data_state;
}.

Definition set_d_link (v : link_state) (r : melodi_device) : melodi_device :=
  MkDevice v r.(d_peers) r.(d_receive) r.(d_pending) r.(d_policy) r.(d_tx) r.(d_data).
Definition set_d_peers (v : list melodi_peer) (r : melodi_device) : melodi_device :=
  MkDevice r.(d_link) v r.(d_receive) r.(d_pending) r.(d_policy) r.(d_tx) r.(d_data).
Definition set_d_receive (v : receive_state) (r : melodi_device) : melodi_device :=
  MkDevice r.(d_link) r.(d_peers) v r.(d_pending) r.(d_policy) r.(d_tx) r.(d_data).
Definition set_d_pending (v : list melodi_pending_message) (r : melodi_device) : melodi_device :=
  MkDevice r.(d_link) r.(d_peers) r.(d_receive) v r.(d_policy) r.(d_tx) r.(d_data).
Definition set_d_policy (v : policy_state) (r : melodi_device) : melodi_device :=
  MkDevice r.(d_link) r.(d_peers) r.(d_receive) r.(d_pending) v r.(d_tx) r.(d_data).
Definition set_d_tx (v : tx_state) (r : melodi_device) : melodi_device :=
  MkDevice r.(d_link) r.(d_peers) r.(d_receive) r.(d_pending) r.(d_policy) v r.(d_data).
Definition set_d_data (v : data_state) (r : melodi_device) : melodi_device :=
  MkDevice r.(d_link) r.(d_peers) r.(d_receive) r.(d_pending) r.(d_policy) r.(d_tx) v.

(** An empty transmit queue, stopped until the device is opened. *)
Definition fresh_tx : tx_state :=
  MkTx (replicate MELODI_TX_QUEUE_LIMIT zero_tx_queue_entry)
    (replicate MELODI_TX_RESERVATION_LIMIT zero_tx_reservation)
    (replicate MELODI_TX_FLOW_LIMIT zero_tx_peer_turn) (replicate MELODI_TX_FLOW_LIMIT zero_tx_flow_turn)
    None None airtime_zero airtime_zero airtime_zero airtime_zero
    0 0 0 0 0 0 0 0 0 0 0 0 0 0 true 0 0 0 0 0 false.

(** Nothing waits. *)
Definition fresh_data : data_state :=
  MkData None None None (replicate MELODI_DISCOVERY_TARGET_LIMIT zero_discovery_target)
    (replicate MELODI_DISCOVERY_PENDING_LIMIT zero_discovery_pending) 0 0 0 0.

(** A device as it is allocated: every table empty, broadcast allowed. *)
Definition fresh_device : melodi_device :=
  MkDevice (MkLink zero_node false false 0 0 0 0 0) (replicate MELODI_PEER_LIMIT zero_peer)
    (MkReceive 0 (replicate MELODI_REASSEMBLY_LIMIT zero_reassembly)
       (replicate MELODI_RECEIPT_LIMIT zero_receipt)
       (replicate MELODI_ORDER_FLOW_LIMIT zero_order_tx_flow)
       (replicate MELODI_ORDER_FLOW_LIMIT zero_order_rx_flow)
       (replicate MELODI_ORDER_BUFFER_LIMIT zero_order_message) 0)
    (replicate MELODI_PENDING_LIMIT zero_pending_message)
    (MkPolicy MELODI_POLICY_ALLOW_AUTHENTICATED true
       (replicate MELODI_POLICY_PEER_LIMIT zero_policy_peer)
       (replicate MELODI_POLICY_SERVICE_LIMIT zero_policy_service)) fresh_tx fresh_data.

(** [memcmp(a, b, sizeof(struct melodi_node_id)) == 0] *)
Definition node_eqb (a b : melodi_node_id) : bool := bool_decide (a = b).
