(* ===== verification/Fragments.v ===== *)
(** * Messages as sealed fragments (src/kernel/core/data.c)

    How a message becomes data frames and a frame becomes a fragment again: the
    nonce, the flags of the wire, the loop that cuts a message and seals each piece,
    the signed broadcast frames, and the checks on a received header.  The
    authenticated cipher and the signature of the identity are parameters, with the
    documented laws they obey as an interface. *)
From S2P Require Import Prelude Buffer Uapi Wire Device.

Abbreviation MELODI_WIRE_F_RELIABLE := 4.
Abbreviation MELODI_WIRE_F_ORDERED := 8.
Abbreviation MELODI_WIRE_F_IGNORABLE := 0x8000.
Abbreviation MELODI_WIRE_TAG_SIZE := 16.
Abbreviation MELODI_WIRE_BROADCAST_AUTH_SIZE := 60%nat.
Abbreviation MELODI_DELIVERY_RELIABLE := 1.

(** ** The cipher

    XChaCha20-Poly1305 with a 24-byte nonce: a plaintext, the data authenticated with
    it, the nonce and the key give the ciphertext with its 16-byte tag behind; opening
    checks the tag. *)
Class Aead := {
  xchacha20poly1305_encrypt (plaintext authenticated nonce key : bytes) : bytes;
  xchacha20poly1305_decrypt (ciphertext authenticated nonce key : bytes) : option bytes;
}.

(** What its documentation promises: the tag adds 16 bytes, and a ciphertext opens,
    to a plaintext, exactly when it is what that plaintext is sealed to. *)
Class AeadLaws (A : Aead) : Prop := {
  aead_bytes p a n k : Forall u8 p -> Forall u8 (xchacha20poly1305_encrypt p a n k);
  aead_length p a n k : length (xchacha20poly1305_encrypt p a n k) = (length p + 16)%nat;
  aead_open c a n k p : xchacha20poly1305_decrypt c a n k = Some p <-> c = xchacha20poly1305_encrypt p a n k;
}.

(** The signature of the device's identity over some bytes, and its check. *)
Class Signer := {
  melodi_identity_sign : bytes -> result bytes;
}.

(** ** Nonces and flags *)

Definition melodi_data_nonce (source_native_locator generation counter message_id : Z) : bytes :=
  be32 source_native_locator ++ be32 generation ++ be64 counter ++ be64 message_id.

Definition melodi_data_wire_flags (flags : Z) : Z :=
  let wire_flags := MELODI_WIRE_F_ENCRYPTED in
  let wire_flags := if has flags (Z.lor MELODI_F_RELIABLE MELODI_F_ORDERED)
                    then Z.lor wire_flags MELODI_WIRE_F_RELIABLE else wire_flags in
  if has flags MELODI_F_ORDERED then Z.lor wire_flags MELODI_WIRE_F_ORDERED else wire_flags.

(** ** Cutting a message *)

(** [DIV_ROUND_UP(length, payload_mtu)], or one fragment for an empty message. *)
Definition fragments_of (length payload_mtu : Z) : Z :=
  if length =? 0 then 1 else (length + payload_mtu - 1) / payload_mtu.

(** [frame_mtu] too small for the header, or without room for a payload. *)
Definition mtu_bad (frame_mtu overhead length : Z) : bool :=
  (frame_mtu <? overhead) || (negb (length =? 0) && (frame_mtu =? overhead)).

(** The header of the fragment at [index]. *)
Definition fragment_header (header : melodi_wire_data) (base_counter index : Z) : melodi_wire_data :=
  let c := header.(data_common) in
  {| data_common := {|
       version := c.(version); frame_class := c.(frame_class);
       flags := if index + 1 =? header.(fragment_count) then Z.lor c.(flags) MELODI_WIRE_F_FINAL
                else Z.land c.(flags) (Z.lnot MELODI_WIRE_F_FINAL);
       header_length := c.(header_length); payload_length := c.(payload_length);
       source_native_locator := c.(source_native_locator);
       destination_native_locator := c.(destination_native_locator);
       identity_generation := c.(identity_generation); message_id := c.(message_id);
       counter := wrap 64 (base_counter + index) |};
     destination_service := header.(destination_service); source_service := header.(source_service);
     fragment_index := index; fragment_count := header.(fragment_count);
     logical_length := header.(logical_length); delivery_mode := header.(delivery_mode);
     priority := header.(priority); ordering_marker := header.(ordering_marker); data_tag := header.(data_tag) |}.

(** A buffer as the allocator hands it out: its size, with any contents. *)
Definition fresh_buffer (memory : nat -> Z) (size : Z) : bytes := map memory (seq 0 (Z.to_nat size)).

Section Seal.
  Context {A : Aead} {Sg : Signer}.

(** The nonce of a frame. *)
Definition frame_nonce (c : melodi_wire_common) : bytes :=
  melodi_data_nonce c.(source_native_locator) c.(identity_generation) c.(counter) c.(message_id).

(** The body of the loop of [melodi_data_send_internal]: one sealed frame. *)
Definition seal_fragment (memory : nat -> Z) (header : melodi_wire_data) (chunk key : bytes) : result bytes :=
  let frame := fresh_buffer memory (MELODI_WIRE_DATA_SIZE + zlen chunk) in
  '(frame, _) ← melodi_wire_encode_data frame header chunk;
  let encrypted := xchacha20poly1305_encrypt chunk (load 0 60 frame) (frame_nonce header.(data_common)) key in
  let frame := store 80 (load 0 (length chunk) encrypted) frame in
  Ok (store 60 (load (length chunk) 16 encrypted) frame).

(** The loop, from [index] and [offset] on; [alloc]: what [alloc_skb] hands out for
    each fragment, if it does. *)
Fixpoint seal_loop (alloc : Z -> option (nat -> Z)) (payload_mtu base_counter : Z) (payload key : bytes)
    (count : nat) (index offset : Z) (header : melodi_wire_data) : result (list bytes) :=
  match count with
  | O => Ok []
  | S count =>
      let fragment_length := Z.min payload_mtu (zlen payload - offset) in
      let header := fragment_header header base_counter index in
      match alloc index with
      | None => Err ENOMEM
      | Some memory =>
          frame ← seal_fragment memory header (load (Z.to_nat offset) (Z.to_nat fragment_length) payload) key;
          frames ← seal_loop alloc payload_mtu base_counter payload key count (index + 1) (offset + fragment_length) header;
          Ok (frame :: frames)
      end
  end.

(** [signing]: whether the buffer for what is signed could be allocated. *)
Definition melodi_data_sign_broadcast (signing : bool) (frame : bytes) (header : melodi_wire_data) (payload : bytes)
    : result bytes :=
  if negb signing then Err ENOMEM else
  '(frame, _) ← melodi_wire_encode_broadcast_data frame header (replicate 64 0) payload;
  signature ← melodi_identity_sign (load 0 MELODI_WIRE_BROADCAST_AUTH_SIZE frame ++ payload);
  let frame := store 60 (load 0 16 signature) frame in
  Ok (store 80 (load 16 48 signature) frame).

(** The same loop for a broadcast. *)
Fixpoint sign_loop (alloc : Z -> option (nat -> Z)) (signing : Z -> bool) (payload_mtu base_counter : Z) (payload : bytes)
    (count : nat) (index offset : Z) (header : melodi_wire_data) : result (list bytes) :=
  match count with
  | O => Ok []
  | S count =>
      let fragment_length := Z.min payload_mtu (zlen payload - offset) in
      let header := fragment_header header base_counter index in
      match alloc index with
      | None => Err ENOMEM
      | Some memory =>
          frame ← melodi_data_sign_broadcast (signing index)
                    (fresh_buffer memory (MELODI_WIRE_DATA_SIZE + MELODI_WIRE_BROADCAST_OVERHEAD + fragment_length)) header
                    (load (Z.to_nat offset) (Z.to_nat fragment_length) payload);
          frames ← sign_loop alloc signing payload_mtu base_counter payload count (index + 1) (offset + fragment_length) header;
          Ok (frame :: frames)
      end
  end.
End Seal.

(** ** A received header *)

Definition melodi_data_header_valid (header : melodi_wire_data) : result unit :=
  let c := header.(data_common) in
  let delivery_flags := Z.land c.(flags) (Z.lor MELODI_WIRE_F_RELIABLE MELODI_WIRE_F_ORDERED) in
  let broadcast := has c.(flags) MELODI_WIRE_F_BROADCAST in
  let final := has c.(flags) MELODI_WIRE_F_FINAL in
  if has c.(flags) MELODI_WIRE_F_IGNORABLE ||
     negb (Bool.eqb final (header.(fragment_index) + 1 =? header.(fragment_count))) ||
     (MELODI_FRAGMENT_LIMIT <? header.(fragment_count)) ||
     (c.(source_native_locator) =? MELODI_NATIVE_LOCATOR_INVALID) ||
     (c.(source_native_locator) =? MELODI_NATIVE_LOCATOR_BROADCAST) ||
     (c.(identity_generation) =? 0) || (c.(message_id) =? 0) || (c.(counter) =? 0) ||
     (header.(source_service) =? MELODI_SERVICE_CONTROL) || (header.(destination_service) =? MELODI_SERVICE_CONTROL) ||
     ((header.(source_service) =? MELODI_SERVICE_ECHO) && (header.(destination_service) =? MELODI_SERVICE_ECHO)) ||
     negb (Bool.eqb (header.(delivery_mode) =? MELODI_DELIVERY_RELIABLE_ORDERED) (negb (header.(ordering_marker) =? 0)))
  then Err EPROTO else
  if broadcast then
    if negb (Z.land c.(flags) (Z.lnot MELODI_WIRE_F_FINAL) =? MELODI_WIRE_F_BROADCAST) ||
       negb (c.(destination_native_locator) =? MELODI_NATIVE_LOCATOR_BROADCAST) ||
       (MELODI_BROADCAST_MTU <? header.(logical_length)) ||
       (c.(payload_length) <? MELODI_WIRE_BROADCAST_OVERHEAD) ||
       (header.(source_service) =? MELODI_SERVICE_ECHO) || (header.(destination_service) =? MELODI_SERVICE_ECHO) ||
       negb (header.(delivery_mode) =? MELODI_DELIVERY_UNRELIABLE) || negb (header.(ordering_marker) =? 0)
    then Err EPROTO else Ok tt
  else
  if negb (has c.(flags) MELODI_WIRE_F_ENCRYPTED) ||
     (c.(destination_native_locator) =? MELODI_NATIVE_LOCATOR_INVALID) ||
     (c.(destination_native_locator) =? MELODI_NATIVE_LOCATOR_BROADCAST) ||
     (MELODI_MESSAGE_MTU <? header.(logical_length)) ||
     ((header.(destination_service) =? MELODI_SERVICE_ECHO) &&
      negb (header.(delivery_mode) =? MELODI_DELIVERY_UNRELIABLE)) ||
     ((c.(payload_length) =? 0) && (negb (header.(logical_length) =? 0) || negb (header.(fragment_count) =? 1)))
  then Err EPROTO else
  if ((header.(delivery_mode) =? MELODI_DELIVERY_UNRELIABLE) && negb (delivery_flags =? 0)) ||
     ((header.(delivery_mode) =? MELODI_DELIVERY_RELIABLE) && negb (delivery_flags =? MELODI_WIRE_F_RELIABLE)) ||
     ((header.(delivery_mode) =? MELODI_DELIVERY_RELIABLE_ORDERED) &&
      negb (delivery_flags =? Z.lor MELODI_WIRE_F_RELIABLE MELODI_WIRE_F_ORDERED))
  then Err EPROTO else Ok tt.

(** The ciphertext and tag of a received frame, put together and opened. *)
Definition open_fragment {A : Aead} (frame : bytes) (header : melodi_wire_data) (ciphertext key : bytes) : option bytes :=
  xchacha20poly1305_decrypt (load 0 (Z.to_nat header.(data_common).(payload_length)) ciphertext ++ header.(data_tag))
    (load 0 60 frame) (frame_nonce header.(data_common)) key.

(** ** Nonces *)

Lemma length_nonce l g c m : length (melodi_data_nonce l g c m) = 24%nat.
Proof. unfold melodi_data_nonce. now rewrite !length_app, !length_be32, !length_be64. Qed.

Lemma nonce_inj l g c m l' g' c' m' :
  u32 l -> u32 g -> u64 c -> u64 m -> u32 l' -> u32 g' -> u64 c' -> u64 m' ->
  melodi_data_nonce l g c m = melodi_data_nonce l' g' c' m' -> l = l' /\ g = g' /\ c = c' /\ m = m'.
Proof.
  intros H1 H2 H3 H4 H5 H6 H7 H8 E. unfold melodi_data_nonce in E.
  apply app_inj_1 in E as [E1 E]; [|now rewrite !length_be32]. apply app_inj_1 in E as [E2 E]; [|now rewrite !length_be32].
  apply app_inj_1 in E as [E3 E4]; [|now rewrite !length_be64].
  rewrite <- (get_be32_nil l), <- (get_be32_nil g), <- (get_be64_nil c), <- (get_be64_nil m), E1, E2, E3, E4 by assumption.
  rewrite !get_be32_nil, !get_be64_nil by assumption. auto.
Qed.

(** ** A sealed frame *)

Lemma length_fresh_buffer memory n : 0 <= n -> zlen (fresh_buffer memory n) = n.
Proof. intros. unfold zlen, fresh_buffer. rewrite length_map, length_seq. lia. Qed.

Lemma load_prefix off n a b : (off + n <= length a)%nat -> load off n (a ++ b) = load off n a.
Proof.
  intros H. unfold load. rewrite drop_app_le by lia. apply take_app_le. rewrite length_drop. lia.
Qed.

(** The header's bytes before the tag. *)
Definition authenticated_bytes (h : melodi_wire_data) (n : Z) : bytes := layout_bytes (take 21 (data_layout (sent_data h n))).

Lemma data_layout_split h n :
  layout_bytes (data_layout (sent_data h n)) = authenticated_bytes h n ++ h.(data_tag) ++ replicate 4 0.
Proof. unfold authenticated_bytes, layout_bytes, data_layout, common_layout. cbn. rewrite <- ?app_assoc, app_nil_r. reflexivity. Qed.

Lemma authenticated_tag h n t : authenticated_bytes (set_tag h t) n = authenticated_bytes h n.
Proof. reflexivity. Qed.

Lemma length_authenticated h n : wf_data h -> length (authenticated_bytes h n) = 60%nat.
Proof.
  intros Hw. pose proof (sized_data h Hw) as Hs.
  pose proof (layout_bytes_length 0 (data_layout (sent_data h n)) 80 eq_refl Hs) as Hl.
  rewrite data_layout_split, !length_app, length_replicate in Hl. unfold wf_data, wf_bytes in Hw. split_hyps. lia.
Qed.

(** What the encoder accepts. *)
Definition encodable (h : melodi_wire_data) (n : Z) : Prop :=
  wf_data h /\ 0 <= n <= h.(logical_length) /\ n <= 0xffff /\ 0 <= h.(fragment_index) < h.(fragment_count) /\
  h.(delivery_mode) <= 2 /\ h.(priority) <= 3 /\ has h.(data_common).(flags) (Z.lnot MELODI_WIRE_F_ALL) = false.

Lemma encode_fresh memory h p : encodable h (zlen p) ->
  melodi_wire_encode_data (fresh_buffer memory (MELODI_WIRE_DATA_SIZE + zlen p)) h p =
  Ok (authenticated_bytes h (zlen p) ++ (h.(data_tag) ++ replicate 4 0) ++ p, 80 + zlen p).
Proof.
  intros (Hw & Hn & H16 & Hi & Hd & Hpr & Hf). unfold melodi_wire_encode_data. pass_guard.
  assert (zlen (fresh_buffer memory (80 + zlen p)) = 80 + zlen p) as Hfresh by (apply length_fresh_buffer; lia).
  rewrite encode_data_header_eq by (auto; lia). cbn [mbind result_bind]. do 2 f_equal.
  pose proof (data_frame_bytes (fresh_buffer memory (80 + zlen p)) h (zlen p) p Hw ltac:(lia) eq_refl ltac:(lia)) as H.
  rewrite take_ge in H by (rewrite length_store, length_stores; unfold zlen in *; lia).
  rewrite H, data_layout_split, <- !app_assoc. reflexivity.
Qed.

Section SealSpec.
  Context {A : Aead} {L : AeadLaws A}.

(** The tag and the ciphertext of a fragment. *)
Definition sealed (h : melodi_wire_data) (p key : bytes) : bytes :=
  xchacha20poly1305_encrypt p (authenticated_bytes h (zlen p)) (frame_nonce h.(data_common)) key.
Definition sealed_tag (h : melodi_wire_data) (p key : bytes) : bytes := drop (length p) (sealed h p key).
Definition sealed_text (h : melodi_wire_data) (p key : bytes) : bytes := take (length p) (sealed h p key).

Lemma length_sealed_tag h p key : length (sealed_tag h p key) = 16%nat.
Proof. unfold sealed_tag, sealed. rewrite length_drop, aead_length. lia. Qed.
Lemma length_sealed_text h p key : length (sealed_text h p key) = length p.
Proof. unfold sealed_text, sealed. rewrite length_take, aead_length. lia. Qed.

(** The frame: the header with the tag of the ciphertext, and the ciphertext. *)
Definition sealed_frame (h : melodi_wire_data) (p key : bytes) : bytes :=
  layout_bytes (data_layout (sent_data (set_tag h (sealed_tag h p key)) (zlen p))) ++ sealed_text h p key.

Lemma seal_fragment_exact memory h p key : encodable h (zlen p) ->
  seal_fragment memory h p key = Ok (sealed_frame h p key).
Proof.
  intros He. unfold seal_fragment. rewrite (encode_fresh memory h p He). cbn [mbind result_bind].
  pose proof He as (Hw & _). pose proof (length_authenticated h (zlen p) Hw) as Ha.
  assert (length (data_tag h) = 16%nat) as Ht by (unfold wf_data, wf_bytes in Hw; split_hyps; assumption).
  rewrite load_prefix, (load_all 60) by lia. fold (sealed h p key).
  assert (load 0 (length p) (sealed h p key) = sealed_text h p key) as -> by (unfold load; now rewrite drop_0).
  assert (load (length p) 16 (sealed h p key) = sealed_tag h p key) as ->.
  { unfold load. apply take_ge. change (length (sealed_tag h p key) <= 16)%nat. rewrite length_sealed_tag. lia. }
  f_equal. unfold sealed_frame. rewrite data_layout_split. cbn [set_tag data_tag]. rewrite authenticated_tag.
  rewrite app_assoc. rewrite (store_app_r 80 (sealed_text h p key)) by
    (rewrite ?length_app, ?length_replicate, ?length_sealed_text; lia).
  rewrite drop_ge, app_nil_r by (rewrite length_sealed_text; lia). rewrite <- !app_assoc.
  rewrite (store_app_r 60) by (rewrite ?length_app, ?length_replicate, ?length_sealed_tag; lia).
  rewrite length_sealed_tag. now rewrite (drop_app_length' (data_tag h)) by lia.
Qed.

(** What a receiver reads off the frame, and that it opens. *)
Lemma sealed_decodes h p key : encodable h (zlen p) -> Forall u8 p -> has h.(data_common).(flags) MELODI_WIRE_F_BROADCAST = false ->
  melodi_wire_decode_data (sealed_frame h p key) =
    Ok (sent_data (set_tag h (sealed_tag h p key)) (zlen p), sealed_text h p key) /\
  open_fragment (sealed_frame h p key) (sent_data (set_tag h (sealed_tag h p key)) (zlen p)) (sealed_text h p key) key = Some p.
Proof.
  intros (Hw & Hn & H16 & Hi & Hd & Hpr & Hf) Hp Hb.
  assert (Forall u8 (sealed_tag h p key)) as Htag by (apply Forall_drop, aead_bytes; exact Hp).
  assert (wf_data (set_tag h (sealed_tag h p key))) as Hw'.
  { unfold wf_data in *. split_hyps. cbn. conj_split; auto. split; [apply length_sealed_tag|exact Htag]. }
  split.
  - apply decode_data_frame; auto.
    + unfold uint. lia.
    + unfold zlen. now rewrite length_sealed_text.
    + unfold valid_data, data_length_ok. cbn. rewrite Hb. conj_split; auto; lia.
  - unfold open_fragment. cbn [sent_data set_tag data_common data_tag set_common payload_length].
    apply aead_open. unfold sealed_frame. rewrite data_layout_split. cbn [set_tag data_tag]. rewrite authenticated_tag.
    pose proof (length_authenticated h (zlen p) Hw) as Ha.
    rewrite <- app_assoc, (load_prefix 0 60), (load_all 60) by lia.
    unfold zlen. rewrite Nat2Z.id, load_all by apply length_sealed_text. unfold sealed_text, sealed_tag. rewrite take_drop. reflexivity.
Qed.
End SealSpec.

(** ** The pieces of a message *)

Definition piece (payload_mtu : Z) (payload : bytes) (i : Z) : bytes :=
  load (Z.to_nat (i * payload_mtu)) (Z.to_nat (Z.min payload_mtu (zlen payload - i * payload_mtu))) payload.

Lemma fragments_bounds length mtu : 0 < length -> 0 < mtu ->
  0 < fragments_of length mtu /\ (fragments_of length mtu - 1) * mtu < length <= fragments_of length mtu * mtu.
Proof.
  intros Hl Hm. unfold fragments_of. destruct (Z.eqb_spec length 0); [lia|].
  pose proof (Z.div_mod (length + mtu - 1) mtu ltac:(lia)). pose proof (Z.mod_pos_bound (length + mtu - 1) mtu Hm). nia.
Qed.

Lemma zlen_piece mtu payload i : 0 <= mtu -> 0 <= i -> i * mtu <= zlen payload ->
  zlen (piece mtu payload i) = Z.min mtu (zlen payload - i * mtu).
Proof. intros Hm Hi Hl. unfold piece, zlen in *. rewrite length_load by nia. lia. Qed.

Lemma fragment_header_absorb h base i j : fragment_header (fragment_header h base i) base j = fragment_header h base j.
Proof.
  unfold fragment_header. cbn [data_common flags version frame_class header_length payload_length source_native_locator
    destination_native_locator identity_generation message_id destination_service source_service fragment_count logical_length
    delivery_mode priority ordering_marker data_tag]. do 2 f_equal.
  destruct (i + 1 =? fragment_count h), (j + 1 =? fragment_count h); apply Z.bits_inj'; intros n Hn;
    rewrite ?Z.lor_spec, ?Z.land_spec, ?Z.lor_spec, ?Z.land_spec, ?Z.lnot_spec by exact Hn;
    destruct (Z.testbit (flags (data_common h)) n), (Z.testbit 16 n); reflexivity.
Qed.

(** The pieces from [offset] on. *)
Fixpoint pieces (mtu : Z) (payload : bytes) (count : nat) (i : Z) : list bytes :=
  match count with O => [] | S count => piece mtu payload i :: pieces mtu payload count (i + 1) end.

Lemma concat_pieces mtu payload count i : 0 < mtu -> 0 <= i -> zlen payload <= (i + Z.of_nat count) * mtu ->
  (i + Z.of_nat count - 1) * mtu < zlen payload \/ count = 0%nat -> concat (pieces mtu payload count i) = drop (Z.to_nat (i * mtu)) payload.
Proof.
  intros Hm. revert i. induction count as [|count IH]; intros i Hi Hl Hlast; cbn [pieces concat].
  - symmetry. apply drop_ge. unfold zlen in Hl. lia.
  - rewrite IH; [|lia| |].
    + unfold piece, load. destruct (Z.le_gt_cases (i * mtu + mtu) (zlen payload)) as [Hle|Hgt].
      * rewrite Z.min_l by lia. replace (Z.to_nat ((i + 1) * mtu)) with (Z.to_nat (i * mtu) + Z.to_nat mtu)%nat by nia.
        rewrite <- drop_drop. apply take_drop.
      * rewrite Z.min_r by lia. rewrite (drop_ge payload (Z.to_nat ((i + 1) * mtu))) by (rewrite Z.mul_add_distr_r; unfold zlen in *; lia). rewrite app_nil_r. apply take_ge.
        rewrite length_drop. unfold zlen in *. lia.
    + lia.
    + destruct count as [|count]; [now right|left]. lia.
Qed.

(** ** The frames of a message *)

(** What [melodi_data_send_internal] puts into the header of a message before it cuts
    it, with the MTU of the payload and the first of its counters. *)
Record message_ok (h : melodi_wire_data) (payload : bytes) (mtu base : Z) : Prop := {
  mo_wf : wf_data h;
  mo_mode : (h.(data_common).(flags), h.(delivery_mode)) ∈ [(2, 0); (6, 1); (14, 2)];
  mo_marker : (h.(ordering_marker) =? 0) = negb (h.(delivery_mode) =? 2);
  mo_priority : h.(priority) <= 3;
  mo_length : h.(logical_length) = zlen payload;
  mo_small : zlen payload <= MELODI_MESSAGE_MTU;
  mo_bytes : Forall u8 payload;
  mo_count : h.(fragment_count) = fragments_of (zlen payload) mtu;
  mo_limit : h.(fragment_count) <= MELODI_FRAGMENT_LIMIT;
  mo_mtu : 0 <= mtu;
  mo_room : zlen payload <> 0 -> 0 < mtu;
  mo_source : locator_bad h.(data_common).(source_native_locator) = false;
  mo_destination : locator_bad h.(data_common).(destination_native_locator) = false;
  mo_generation : h.(data_common).(identity_generation) <> 0;
  mo_message : h.(data_common).(message_id) <> 0;
  mo_counter : 1 <= base /\ base + h.(fragment_count) - 1 <= U64_MAX;
  mo_services : h.(source_service) <> MELODI_SERVICE_CONTROL /\ h.(destination_service) <> MELODI_SERVICE_CONTROL;
  mo_echo : h.(destination_service) = MELODI_SERVICE_ECHO -> h.(source_service) <> MELODI_SERVICE_ECHO /\ h.(delivery_mode) = 0;
}.

Section Message.
  Context (h : melodi_wire_data) (payload : bytes) (mtu base : Z) (Hok : message_ok h payload mtu base).

Lemma message_count : 0 < h.(fragment_count) /\ (zlen payload = 0 /\ h.(fragment_count) = 1 \/
  0 < mtu /\ (h.(fragment_count) - 1) * mtu < zlen payload <= h.(fragment_count) * mtu).
Proof.
  rewrite (mo_count _ _ _ _ Hok). pose proof (mo_room _ _ _ _ Hok) as Hr. destruct (decide (zlen payload = 0)) as [E|E].
  - unfold fragments_of. rewrite E. cbn. split; [lia|now left].
  - destruct (fragments_bounds (zlen payload) mtu ltac:(unfold zlen in *; lia) (Hr E)). split; [assumption|right]. auto.
Qed.

Lemma piece_length i : 0 <= i < h.(fragment_count) ->
  zlen (piece mtu payload i) = Z.min mtu (zlen payload - i * mtu) /\ i * mtu <= zlen payload.
Proof.
  intros Hi. pose proof (mo_mtu _ _ _ _ Hok). destruct message_count as [Hc [[E1 E2]|[Hm Hl]]].
  - assert (i = 0) as -> by lia. rewrite zlen_piece; unfold zlen in *; lia.
  - assert (i * mtu <= zlen payload) by nia. now rewrite zlen_piece by lia.
Qed.

Lemma fragment_wf i : 0 <= i < h.(fragment_count) -> wf_data (fragment_header h base i).
Proof.
  intros Hi. pose proof (mo_wf _ _ _ _ Hok) as Hw. pose proof (mo_limit _ _ _ _ Hok). pose proof (mo_mode _ _ _ _ Hok) as Hmode.
  unfold wf_data, wf_common in *. split_hyps. cbn. conj_split; try assumption.
  - rewrite !elem_of_cons, elem_of_nil in Hmode.
    destruct Hmode as [E|[E|[E|[]]]]; injection E as -> _; destruct (_ =? _); vm_compute; split; congruence.
  - apply wrap_uint. lia.
  - unfold uint. lia.
Qed.

Lemma fragment_encodable i : 0 <= i < h.(fragment_count) -> encodable (fragment_header h base i) (zlen (piece mtu payload i)).
Proof.
  intros Hi. destruct (piece_length i Hi) as [E Hle]. pose proof (mo_length _ _ _ _ Hok). pose proof (mo_small _ _ _ _ Hok). pose proof (mo_mtu _ _ _ _ Hok).
  pose proof (mo_mode _ _ _ _ Hok) as Hmode. split; [exact (fragment_wf i Hi)|].
  cbn [fragment_header logical_length fragment_index fragment_count delivery_mode priority data_common flags].
  pose proof (mo_priority _ _ _ _ Hok). rewrite E. assert (0 <= i * mtu) by nia. conj_split; try lia;
    rewrite !elem_of_cons, elem_of_nil in Hmode; destruct Hmode as [Em|[Em|[Em|[]]]]; injection Em as Ef Ed; rewrite ?Ef, ?Ed; try lia;
    destruct (_ =? _); vm_compute; reflexivity.
Qed.

(** A receiver finds nothing wrong with the header of a sent fragment. *)
Lemma fragment_valid i t : 0 <= i < h.(fragment_count) ->
  melodi_data_header_valid (sent_data (set_tag (fragment_header h base i) t) (zlen (piece mtu payload i))) = Ok tt.
Proof.
  intros Hi. destruct (piece_length i Hi) as [E Hle]. destruct Hok as [H1 Hmode Hmk Hpr Hlen Hsm _ Hcnt Hlim Hmtu Hroom Hs Hd Hg Hm Hc [Hv1 Hv2] He].
  rewrite !elem_of_cons, elem_of_nil in Hmode. unfold locator_bad in Hs, Hd. apply orb_false_iff in Hs as [Hs1 Hs2], Hd as [Hd1 Hd2].
  unfold melodi_data_header_valid.
  cbn [fragment_header sent_data set_tag set_common data_common flags source_native_locator destination_native_locator identity_generation message_id
    counter fragment_index fragment_count source_service destination_service delivery_mode ordering_marker logical_length payload_length].
  rewrite wrap_id by width_lia. rewrite Hs1, Hs2, Hd1, Hd2, Hmk.
  assert ((base + i =? 0) = false) as -> by lia. assert ((identity_generation (data_common h) =? 0) = false) as -> by lia.
  assert ((message_id (data_common h) =? 0) = false) as -> by lia. assert ((64 <? fragment_count h) = false) as -> by lia.
  assert ((source_service h =? 0) = false) as -> by lia. assert ((destination_service h =? 0) = false) as -> by lia.
  assert ((4096 <? logical_length h) = false) as -> by lia.
  assert ((source_service h =? 65535) && (destination_service h =? 65535) = false) as -> by lia.
  assert ((destination_service h =? 65535) && negb (delivery_mode h =? 0) = false) as -> by lia.
  assert ((zlen (piece mtu payload i) =? 0) && (negb (logical_length h =? 0) || negb (fragment_count h =? 1)) = false) as ->.
  { rewrite Hlen. destruct message_count as [_ [[-> ->]|[Hp1 [Hp2 _]]]]; [apply andb_false_r|].
    apply andb_false_intro1, Z.eqb_neq. clear - E Hi Hp1 Hp2. nia. }
  destruct Hmode as [Em|[Em|[Em|[]]]]; injection Em as -> ->; destruct (i + 1 =? fragment_count h); reflexivity.
Qed.
End Message.

(** ** The loop *)

Section Loop.
  Context {A : Aead} {L : AeadLaws A}.

Definition message_frame (h : melodi_wire_data) (payload : bytes) (mtu base : Z) (key : bytes) (i : nat) : bytes :=
  sealed_frame (fragment_header h base (Z.of_nat i)) (piece mtu payload (Z.of_nat i)) key.

Definition message_frames (h : melodi_wire_data) (payload : bytes) (mtu base : Z) (key : bytes) : list bytes :=
  map (message_frame h payload mtu base key) (seq 0 (Z.to_nat h.(fragment_count))).

(** Every frame is sealed, or the allocator has failed. *)
Lemma seal_loop_exact alloc h payload mtu base key : message_ok h payload mtu base ->
  forall n i offset h', (Z.of_nat i + Z.of_nat n <= h.(fragment_count)) -> (n <> 0%nat -> offset = Z.of_nat i * mtu) ->
  (h' = h \/ exists j, h' = fragment_header h base j) ->
  seal_loop alloc mtu base payload key n (Z.of_nat i) offset h' =
  if forallb (fun j => match alloc (Z.of_nat j) with Some _ => true | None => false end) (seq i n)
  then Ok (map (message_frame h payload mtu base key) (seq i n)) else Err ENOMEM.
Proof.
  intros Hok. induction n as [|n IH]; intros i offset h' Hin Hoff Hh; cbn [seal_loop seq forallb map]; [reflexivity|].
  assert (fragment_header h' base (Z.of_nat i) = fragment_header h base (Z.of_nat i)) as ->
    by (destruct Hh as [->|[j ->]]; [reflexivity|apply fragment_header_absorb]).
  rewrite (Hoff ltac:(congruence)). destruct (alloc (Z.of_nat i)) as [memory|]; cbn [andb]; [|reflexivity].
  fold (piece mtu payload (Z.of_nat i)).
  rewrite (seal_fragment_exact memory) by (apply (fragment_encodable h payload mtu base Hok); lia). cbn [mbind result_bind].
  replace (Z.of_nat i + 1) with (Z.of_nat (S i)) by lia. rewrite IH; [destruct (forallb _ _); reflexivity|lia| |right; eauto].
  intros Hn. destruct (message_count h payload mtu base Hok) as [_ [[_ E]|[Hm Hl]]]; [lia|].
  assert (Z.of_nat (S i) * mtu <= zlen payload) by nia. lia.
Qed.

Lemma seal_message alloc h payload mtu base key : message_ok h payload mtu base ->
  seal_loop alloc mtu base payload key (Z.to_nat h.(fragment_count)) 0 0 h =
  if forallb (fun j => match alloc (Z.of_nat j) with Some _ => true | None => false end) (seq 0 (Z.to_nat h.(fragment_count)))
  then Ok (message_frames h payload mtu base key) else Err ENOMEM.
Proof. intros Hok. apply (seal_loop_exact alloc h payload mtu base key Hok _ 0%nat); [|lia|auto]. destruct (message_count _ _ _ _ Hok). lia. Qed.

(** The pieces are the message. *)
Lemma message_pieces h payload mtu base : message_ok h payload mtu base ->
  concat (map (fun i => piece mtu payload (Z.of_nat i)) (seq 0 (Z.to_nat h.(fragment_count)))) = payload.
Proof.
  intros Hok. assert (forall n i, pieces mtu payload n (Z.of_nat i) = map (fun i => piece mtu payload (Z.of_nat i)) (seq i n)) as Hp.
  { induction n as [|n IH]; intros i; [reflexivity|]. cbn [pieces seq map]. f_equal. rewrite <- IH. f_equal. lia. }
  rewrite <- (Hp _ 0%nat). destruct (message_count h payload mtu base Hok) as [Hc [[E1 E2]|[Hm Hl]]].
  - rewrite E2. assert (payload = []) as E by (apply length_zero_iff_nil; unfold zlen in E1; lia). rewrite E.
    change (piece mtu [] 0 ++ [] = []). unfold piece, load. now rewrite drop_nil, take_nil.
  - rewrite concat_pieces; [reflexivity|lia|lia| |]; rewrite Z2Nat.id by lia; [|left]; rewrite ?Z.add_0_l; cbn [Z.of_nat]; nia.
Qed.

(** What is sent, frame by frame, is what a receiver with the key opens, piece by
    piece. *)
Lemma message_frame_opens h payload mtu base key i : message_ok h payload mtu base -> Z.of_nat i < h.(fragment_count) ->
  exists header ciphertext, melodi_wire_decode_data (message_frame h payload mtu base key i) = Ok (header, ciphertext) /\
    melodi_data_header_valid header = Ok tt /\
    open_fragment (message_frame h payload mtu base key i) header ciphertext key = Some (piece mtu payload (Z.of_nat i)) /\
    exists t, header = sent_data (set_tag (fragment_header h base (Z.of_nat i)) t) (zlen (piece mtu payload (Z.of_nat i))).
Proof.
  intros Hok Hi. unfold message_frame. set (hi := fragment_header h base (Z.of_nat i)). set (p := piece mtu payload (Z.of_nat i)).
  pose proof (fragment_encodable h payload mtu base Hok (Z.of_nat i) ltac:(lia)) as He.
  assert (Forall u8 p) as Hp by (unfold p, piece; apply load_Forall, (mo_bytes _ _ _ _ Hok)).
  assert (has (flags (data_common hi)) MELODI_WIRE_F_BROADCAST = false) as Hb.
  { pose proof (mo_mode _ _ _ _ Hok) as Hm. unfold hi. cbn [fragment_header data_common flags]. rewrite !elem_of_cons, elem_of_nil in Hm.
    destruct Hm as [E|[E|[E|[]]]]; injection E as -> _; destruct (_ =? _); reflexivity. }
  destruct (sealed_decodes hi p key He Hp Hb) as [Hd Ho].
  exists (sent_data (set_tag hi (sealed_tag hi p key)) (zlen p)), (sealed_text hi p key). split; [exact Hd|]. split; [|split; [exact Ho|eauto]].
  apply (fragment_valid h payload mtu base Hok). lia.
Qed.
End Loop.

(** ** An example

    A cipher that obeys the laws, without any secrecy: the tag is a sum of all that it
    protects.  A message of two fragments under it. *)
Definition toy_tag (p a n k : bytes) : bytes := replicate 16 ((sumZ p + sumZ a + sumZ n + sumZ k) mod 256).

#[export] Instance toy_aead : Aead := {|
  xchacha20poly1305_encrypt p a n k := p ++ toy_tag p a n k;
  xchacha20poly1305_decrypt c a n k :=
    let p := take (length c - 16) c in if bool_decide (c = p ++ toy_tag p a n k) then Some p else None;
|}.

#[export] Instance toy_laws : AeadLaws toy_aead.
Proof.
  split.
  - intros p a n k H. apply Forall_app. split; [exact H|]. apply Forall_replicate. unfold u8, uint. pose proof (Z.mod_pos_bound (sumZ p + sumZ a + sumZ n + sumZ k) 256). lia.
  - intros p a n k. cbn [xchacha20poly1305_encrypt toy_aead]. unfold toy_tag. now rewrite length_app, length_replicate.
  - intros c a n k p. cbn [xchacha20poly1305_encrypt xchacha20poly1305_decrypt toy_aead]. split.
    + destruct (bool_decide _) eqn:E; [|discriminate]. intros [= <-]. now apply bool_decide_eq_true in E.
    + intros ->. assert (length (toy_tag p a n k) = 16%nat) as Ht by apply length_replicate.
      rewrite length_app, Ht, Nat.add_sub, take_app_length. now rewrite bool_decide_eq_true_2.
Qed.

Definition sample_message : melodi_wire_data := {|
  data_common := {| version := 0; frame_class := 0; flags := 6; header_length := 0; payload_length := 0;
    source_native_locator := 31; destination_native_locator := 40; identity_generation := 1; message_id := 77; counter := 0 |};
  destination_service := 20; source_service := 10; fragment_index := 0; fragment_count := 2; logical_length := 5;
  delivery_mode := 1; priority := 2; ordering_marker := 0; data_tag := replicate 16 0;
|}.

Definition sample_payload : bytes := [1; 2; 3; 4; 5].

Definition sample_frames : list bytes := Eval vm_compute in message_frames sample_message sample_payload 3 5 (replicate 32 2).

Lemma sample_message_ok : message_ok sample_message sample_payload 3 5.
Proof.
  split; try (vm_compute; (reflexivity || discriminate || (split; discriminate))); try (cbn; lia).
  - unfold wf_data, wf_common, wf_bytes, uint. cbn [sample_message data_common data_tag version frame_class flags header_length
      payload_length source_native_locator destination_native_locator identity_generation message_id counter destination_service
      source_service fragment_index fragment_count logical_length delivery_mode priority ordering_marker].
    conj_split; try (vm_compute; (reflexivity || discriminate || (split; discriminate))). repeat constructor; vm_compute; discriminate.
  - rewrite !elem_of_cons. auto.
  - repeat constructor; vm_compute; discriminate.
Qed.
