(* ===== verification/Peers.v ===== *)
(** * Peers and their sessions (src/kernel/core/discovery.c, src/kernel/core/data.c)

    The peer table, the end of a session with everything received under it, and
    the recognition of locator conflicts.  A pointer to a table entry is its
    index. *)
From S2P Require Import Prelude Buffer Uapi Slots Device.

(** ** Operations *)

Definition melodi_peer_by_node (melodi : melodi_device) (node : melodi_node_id) : option nat :=
  find_index (fun p => p.(p_authenticated) && node_eqb p.(p_node_id) node) melodi.(d_peers).

Definition melodi_peer_slot (melodi : melodi_device) (node_id : melodi_node_id) : option nat :=
  match slot_search p_authenticated (fun p => node_eqb p.(p_node_id) node_id) melodi.(d_peers) 0 None with
  | (Some index, _) => Some index
  | (None, empty) => empty
  end.

Definition melodi_peer_session_advance (peer : melodi_peer) : melodi_peer :=
  let epoch := wrap 64 (peer.(p_session_epoch) + 1) in
  set_p_session_epoch (if epoch =? 0 then wrap 64 (epoch + 1) else epoch) peer.

Definition melodi_reassembly_clear (r : receive_state) (index : nat) : receive_state :=
  match r.(r_reassemblies) !! index with
  | Some entry =>
      if negb entry.(re_active) then r else
      let r := if entry.(re_received_length) <=? r.(r_reassembly_bytes)
               then set_r_reassembly_bytes (r.(r_reassembly_bytes) - entry.(re_received_length)) r
               else set_r_reassembly_bytes 0 r in
      set_r_reassemblies (<[index := zero_reassembly]> r.(r_reassemblies)) r
  | None => r
  end.

Definition melodi_order_message_clear (r : receive_state) (index : nat) : receive_state :=
  match r.(r_order_messages) !! index with
  | Some message =>
      if negb message.(om_active) then r else
      let r := if message.(om_length) <=? r.(r_order_bytes)
               then set_r_order_bytes (r.(r_order_bytes) - message.(om_length)) r
               else set_r_order_bytes 0 r in
      set_r_order_messages (<[index := zero_order_message]> r.(r_order_messages)) r
  | None => r
  end.

(** The condition of a loop's body on the entry at an index. *)
Definition at_index {A} (l : list A) (index : nat) (c : A -> bool) : bool :=
  match l !! index with Some e => c e | None => false end.

Definition melodi_order_flow_clear (r : receive_state) (flow_index : nat) : receive_state :=
  let r := fold_left (fun r index =>
             if at_index r.(r_order_messages) index
                  (fun m => m.(om_active) && (m.(om_flow_index) =? Z.of_nat flow_index))
             then melodi_order_message_clear r index else r)
             (seq 0 MELODI_ORDER_BUFFER_LIMIT) r in
  set_r_order_rx (<[flow_index := zero_order_rx_flow]> r.(r_order_rx)) r.

Definition melodi_data_order_reset_locked (r : receive_state) : receive_state :=
  let r := fold_left melodi_order_message_clear (seq 0 MELODI_ORDER_BUFFER_LIMIT) r in
  let r := set_r_order_tx (replicate MELODI_ORDER_FLOW_LIMIT zero_order_tx_flow) r in
  let r := set_r_order_rx (replicate MELODI_ORDER_FLOW_LIMIT zero_order_rx_flow) r in
  set_r_order_bytes 0 r.

Definition melodi_data_peer_reset_locked (r : receive_state) (node_id : melodi_node_id) : receive_state :=
  let r := fold_left (fun r index =>
             if at_index r.(r_reassemblies) index
                  (fun e => e.(re_active) && node_eqb e.(re_source) node_id)
             then melodi_reassembly_clear r index else r)
             (seq 0 MELODI_REASSEMBLY_LIMIT) r in
  let r := fold_left (fun r index =>
             if at_index r.(r_receipts) index
                  (fun e => e.(rc_active) && node_eqb e.(rc_source) node_id)
             then set_r_receipts (<[index := zero_receipt]> r.(r_receipts)) r else r)
             (seq 0 MELODI_RECEIPT_LIMIT) r in
  fold_left (fun r index =>
    let r := if at_index r.(r_order_rx) index
                  (fun f => f.(orx_active) && node_eqb f.(orx_source) node_id)
             then melodi_order_flow_clear r index else r in
    if at_index r.(r_order_tx) index
         (fun f => f.(otx_active) && node_eqb f.(otx_destination) node_id)
    then set_r_order_tx (<[index := zero_order_tx_flow]> r.(r_order_tx)) r else r)
    (seq 0 MELODI_ORDER_FLOW_LIMIT) r.

(** The session of the peer at an index ends. *)
Definition melodi_peer_session_reset_locked (melodi : melodi_device) (index : nat) : melodi_device :=
  match melodi.(d_peers) !! index with
  | Some peer =>
      let melodi := set_d_receive (melodi_data_peer_reset_locked melodi.(d_receive) peer.(p_node_id)) melodi in
      let peer := set_p_transmit_key (replicate 32 0) peer in
      let peer := set_p_receive_key (replicate 32 0) peer in
      let peer := set_p_ephemeral_private (replicate 32 0) peer in
      let peer := set_p_receive_replay melodi_replay_reset peer in
      let peer := set_p_session_ready false peer in
      let peer := set_p_handshake_pending false peer in
      let peer := melodi_peer_session_advance peer in
      set_d_peers (<[index := peer]> melodi.(d_peers)) melodi
  | None => melodi
  end.

(** [for (second = first + 1; ...)] with the body of the loop. *)
Definition mark_pair (peers : list melodi_peer) (first second : nat) : list melodi_peer :=
  match peers !! first, peers !! second with
  | Some a, Some b =>
      if negb b.(p_authenticated) || negb (a.(p_native_locator) =? b.(p_native_locator)) then peers else
      let peers := <[first := set_p_conflicted true a]> peers in
      <[second := set_p_conflicted true b]> peers
  | _, _ => peers
  end.

Definition melodi_conflicts_recompute_locked (melodi : melodi_device) : melodi_device :=
  let peers := map (fun p => set_p_conflicted
                      (p.(p_authenticated) &&
                       (p.(p_native_locator) =? melodi.(d_link).(l_local_native_locator))) p)
                 melodi.(d_peers) in
  let peers := fold_left (fun peers first =>
                 if negb (at_index peers first p_authenticated) then peers else
                 fold_left (fun peers second => mark_pair peers first second)
                   (seq (S first) (MELODI_PEER_LIMIT - S first)) peers)
                 (seq 0 MELODI_PEER_LIMIT) peers in
  set_d_peers peers melodi.

(** ** Byte accounting *)

Definition re_weight (e : melodi_reassembly) : Z := if e.(re_active) then e.(re_received_length) else 0.
Definition om_weight (m : melodi_order_message) : Z := if m.(om_active) then m.(om_length) else 0.

(** The counters are the sums of what the active entries hold. *)
Record receive_wf (r : receive_state) : Prop := {
  wf_reassemblies : length r.(r_reassemblies) = MELODI_REASSEMBLY_LIMIT;
  wf_receipts : length r.(r_receipts) = MELODI_RECEIPT_LIMIT;
  wf_order_tx : length r.(r_order_tx) = MELODI_ORDER_FLOW_LIMIT;
  wf_order_rx : length r.(r_order_rx) = MELODI_ORDER_FLOW_LIMIT;
  wf_order_messages : length r.(r_order_messages) = MELODI_ORDER_BUFFER_LIMIT;
  wf_re_weight : Forall (fun e => 0 <= re_weight e) r.(r_reassemblies);
  wf_om_weight : Forall (fun m => 0 <= om_weight m) r.(r_order_messages);
  wf_reassembly_bytes : r.(r_reassembly_bytes) = sumZ (map re_weight r.(r_reassemblies));
  wf_order_bytes : r.(r_order_bytes) = sumZ (map om_weight r.(r_order_messages));
}.

(** An entry that matches is cleared, any other stays. *)
Definition cleared {A} (c : A -> bool) (z : A) (e : A) : A := if c e then z else e.

Lemma sum_weight_lower {A} (w : A -> Z) l i e :
  Forall (fun x => 0 <= w x) l -> l !! i = Some e -> w e <= sumZ (map w l).
Proof.
  intros Hw. revert i. induction Hw as [|x l Hx Hw IH]; intros [|i] H; cbn in *; simplify_eq;
    change (foldr Z.add 0 (map w l)) with (sumZ (map w l)).
  - assert (0 <= sumZ (map w l)); [|lia]. apply sumZ_nonneg, Forall_map. exact Hw.
  - specialize (IH _ H). lia.
Qed.

Lemma sum_weight_insert {A} (w : A -> Z) l i e x :
  l !! i = Some e -> sumZ (map w (<[i := x]> l)) = sumZ (map w l) - w e + w x.
Proof.
  intros H. change (sumZ (w <$> <[i := x]> l) = sumZ (w <$> l) - w e + w x).
  rewrite list_fmap_insert. apply sumZ_insert. now rewrite list_lookup_fmap, H.
Qed.

Lemma Forall_swept {A} (P : A -> Prop) (g : A -> A) i l :
  Forall P l -> (forall x, P x -> P (g x)) -> Forall P (swept g i l).
Proof.
  intros H Hg. unfold swept. apply Forall_app. split; [|now apply Forall_drop].
  apply Forall_map. apply (list.Forall_impl P); [now apply Forall_take|]. cbn. exact Hg.
Qed.

(** One clearing step on a sum of weights. *)
Lemma clear_weight {A} (w : A -> Z) (z : A) l i e b :
  Forall (fun x => 0 <= w x) l -> l !! i = Some e -> w z = 0 -> b = sumZ (map w l) ->
  (w e <=? b) = true /\ b - w e = sumZ (map w (<[i := z]> l)).
Proof.
  intros Hw He Hz ->. rewrite (sum_weight_insert w l i e z He), Hz.
  pose proof (sum_weight_lower w l i e Hw He). lia.
Qed.

(** A loop that clears the matching reassemblies. *)
Lemma reassembly_loop c b re rc tx rx om ob :
  (forall e, c e = true -> e.(re_active) = true) ->
  length re = MELODI_REASSEMBLY_LIMIT -> Forall (fun e => 0 <= re_weight e) re ->
  b = sumZ (map re_weight re) ->
  fold_left (fun r index => if at_index r.(r_reassemblies) index c then melodi_reassembly_clear r index else r)
    (seq 0 MELODI_REASSEMBLY_LIMIT) (MkReceive b re rc tx rx om ob) =
  let re' := map (cleared c zero_reassembly) re in
  MkReceive (sumZ (map re_weight re')) re' rc tx rx om ob.
Proof.
  intros Hc Hl Hw ->. cbn zeta. set (g := cleared c zero_reassembly). rewrite <- (swept_all g), Hl.
  set (n := MELODI_REASSEMBLY_LIMIT) in *.
  apply (fold_seq_ind (fun i r => r = MkReceive (sumZ (map re_weight (swept g i re))) (swept g i re) rc tx rx om ob));
    [now rewrite swept_0|].
  intros i r Hi ->. cbn [r_reassemblies]. unfold at_index.
  destruct (lookup_lt_is_Some_2 re i) as [e He]; [lia|].
  rewrite swept_lookup, He. destruct (c e) eqn:Ece.
  - assert (g e = zero_reassembly) as Hg by (unfold g, cleared; now rewrite Ece). rewrite (swept_S g i re e He), Hg.
    unfold melodi_reassembly_clear. cbn [r_reassemblies]. rewrite swept_lookup, He, (Hc e Ece). cbn [negb r_reassembly_bytes].
    destruct (clear_weight re_weight zero_reassembly (swept g i re) i e (sumZ (map re_weight (swept g i re))))
      as [H1 H2]; [|now rewrite swept_lookup|reflexivity|reflexivity|].
    { apply Forall_swept; [exact Hw|]. intros x Hx. unfold g, cleared. destruct (c x); [cbn; lia|exact Hx]. }
    replace (re_weight e) with (re_received_length e) in H1, H2 by (unfold re_weight; now rewrite (Hc e Ece)).
    rewrite H1.
    unfold set_r_reassembly_bytes, set_r_reassemblies. cbn. now rewrite <- H2.
  - rewrite (swept_S_id g i re e He); [reflexivity|]. unfold g, cleared. now rewrite Ece.
Qed.

(** The same for the buffered messages of ordered flows. *)
Lemma order_message_loop c b re rc tx rx om ob :
  (forall m, c m = true -> m.(om_active) = true) ->
  length om = MELODI_ORDER_BUFFER_LIMIT -> Forall (fun m => 0 <= om_weight m) om ->
  ob = sumZ (map om_weight om) ->
  fold_left (fun r index => if at_index r.(r_order_messages) index c then melodi_order_message_clear r index else r)
    (seq 0 MELODI_ORDER_BUFFER_LIMIT) (MkReceive b re rc tx rx om ob) =
  let om' := map (cleared c zero_order_message) om in
  MkReceive b re rc tx rx om' (sumZ (map om_weight om')).
Proof.
  intros Hc Hl Hw ->. cbn zeta. set (g := cleared c zero_order_message). rewrite <- (swept_all g), Hl.
  set (n := MELODI_ORDER_BUFFER_LIMIT) in *.
  apply (fold_seq_ind (fun i r => r = MkReceive b re rc tx rx (swept g i om) (sumZ (map om_weight (swept g i om)))));
    [now rewrite swept_0|].
  intros i r Hi ->. cbn [r_order_messages]. unfold at_index.
  destruct (lookup_lt_is_Some_2 om i) as [e He]; [lia|].
  rewrite swept_lookup, He. destruct (c e) eqn:Ece.
  - assert (g e = zero_order_message) as Hg by (unfold g, cleared; now rewrite Ece). rewrite (swept_S g i om e He), Hg.
    unfold melodi_order_message_clear. cbn [r_order_messages]. rewrite swept_lookup, He, (Hc e Ece). cbn [negb r_order_bytes].
    destruct (clear_weight om_weight zero_order_message (swept g i om) i e (sumZ (map om_weight (swept g i om))))
      as [H1 H2]; [|now rewrite swept_lookup|reflexivity|reflexivity|].
    { apply Forall_swept; [exact Hw|]. intros x Hx. unfold g, cleared. destruct (c x); [cbn; lia|exact Hx]. }
    replace (om_weight e) with (om_length e) in H1, H2 by (unfold om_weight; now rewrite (Hc e Ece)).
    rewrite H1.
    unfold set_r_order_bytes, set_r_order_messages. cbn. now rewrite <- H2.
  - rewrite (swept_S_id g i om e He); [reflexivity|]. unfold g, cleared. now rewrite Ece.
Qed.

Lemma receipt_loop c b re rc tx rx om ob :
  length rc = MELODI_RECEIPT_LIMIT ->
  fold_left (fun r index => if at_index r.(r_receipts) index c
                            then set_r_receipts (<[index := zero_receipt]> r.(r_receipts)) r else r)
    (seq 0 MELODI_RECEIPT_LIMIT) (MkReceive b re rc tx rx om ob) =
  MkReceive b re (map (cleared c zero_receipt) rc) tx rx om ob.
Proof.
  intros Hl. set (g := cleared c zero_receipt). rewrite <- (swept_all g), Hl. set (n := MELODI_RECEIPT_LIMIT) in *.
  apply (fold_seq_ind (fun i r => r = MkReceive b re (swept g i rc) tx rx om ob)); [now rewrite swept_0|].
  intros i r Hi ->. cbn [r_receipts]. unfold at_index.
  destruct (lookup_lt_is_Some_2 rc i) as [e He]; [lia|]. rewrite swept_lookup, He.
  destruct (c e) eqn:Ece.
  - rewrite (swept_S g i rc e He). unfold set_r_receipts, g, cleared. cbn. now rewrite Ece.
  - rewrite (swept_S_id g i rc e He); [reflexivity|]. unfold g, cleared. now rewrite Ece.
Qed.

Lemma cleared_cleared {A} (c d : A -> bool) z l :
  d z = false -> map (cleared d z) (map (cleared c z) l) = map (cleared (fun e => c e || d e) z) l.
Proof.
  intros Hz. rewrite map_map. apply map_ext. intros e. unfold cleared.
  destruct (c e); cbn; [now rewrite Hz|reflexivity].
Qed.

Lemma cleared_ext {A} (c d : A -> bool) z l :
  (forall e, c e = d e) -> map (cleared c z) l = map (cleared d z) l.
Proof. intros H. apply map_ext. intros e. unfold cleared. now rewrite H. Qed.

(** A buffered message belongs to one of the first [n] flows that match. *)
Definition in_flow (cx : melodi_order_rx_flow -> bool) (rx : list melodi_order_rx_flow) (n : nat)
    (m : melodi_order_message) : bool :=
  existsb (fun k => (m.(om_flow_index) =? Z.of_nat k) && at_index rx k cx) (seq 0 n).

Definition of_flows cx rx n (m : melodi_order_message) : bool := m.(om_active) && in_flow cx rx n m.

Lemma of_flows_S cx rx n m :
  of_flows cx rx (S n) m =
  of_flows cx rx n m || (m.(om_active) && ((m.(om_flow_index) =? Z.of_nat n) && at_index rx n cx)).
Proof.
  unfold of_flows, in_flow. rewrite seq_S, existsb_app. cbn. rewrite orb_false_r. now destruct (om_active m).
Qed.

Lemma flow_loop cx ct b re rc tx rx om ob :
  length tx = MELODI_ORDER_FLOW_LIMIT -> length rx = MELODI_ORDER_FLOW_LIMIT ->
  length om = MELODI_ORDER_BUFFER_LIMIT -> Forall (fun m => 0 <= om_weight m) om ->
  ob = sumZ (map om_weight om) ->
  fold_left (fun r index =>
    let r := if at_index r.(r_order_rx) index cx then melodi_order_flow_clear r index else r in
    if at_index r.(r_order_tx) index ct
    then set_r_order_tx (<[index := zero_order_tx_flow]> r.(r_order_tx)) r else r)
    (seq 0 MELODI_ORDER_FLOW_LIMIT) (MkReceive b re rc tx rx om ob) =
  let om' := map (cleared (of_flows cx rx MELODI_ORDER_FLOW_LIMIT) zero_order_message) om in
  MkReceive b re rc (map (cleared ct zero_order_tx_flow) tx) (map (cleared cx zero_order_rx_flow) rx)
    om' (sumZ (map om_weight om')).
Proof.
  intros Htx Hrx Hom Hw ->. cbn zeta.
  set (gt := cleared ct zero_order_tx_flow). set (gx := cleared cx zero_order_rx_flow).
  rewrite <- (swept_all gt), <- (swept_all gx), Htx, Hrx. set (n := MELODI_ORDER_FLOW_LIMIT) in *.
  set (sw i := map (cleared (of_flows cx rx i) zero_order_message) om).
  apply (fold_seq_ind (fun i r => r = MkReceive b re rc (swept gt i tx) (swept gx i rx) (sw i)
    (sumZ (map om_weight (sw i))))).
  { rewrite !swept_0. assert (sw 0%nat = om) as ->; [|reflexivity]. unfold sw. rewrite <- (map_id om) at 2.
    apply map_ext. intros m. unfold cleared, of_flows, in_flow. cbn. now rewrite andb_false_r. }
  intros i r Hi ->. destruct (lookup_lt_is_Some_2 rx i) as [x Hx]; [lia|].
  destruct (lookup_lt_is_Some_2 tx i) as [t Ht]; [lia|]. cbn [r_order_rx].
  assert ((if at_index (swept gx i rx) i cx
           then melodi_order_flow_clear (MkReceive b re rc (swept gt i tx) (swept gx i rx) (sw i) (sumZ (map om_weight (sw i)))) i
           else MkReceive b re rc (swept gt i tx) (swept gx i rx) (sw i) (sumZ (map om_weight (sw i)))) =
          MkReceive b re rc (swept gt i tx) (swept gx (S i) rx) (sw (S i)) (sumZ (map om_weight (sw (S i))))) as ->.
  { unfold at_index. rewrite swept_lookup, Hx. destruct (cx x) eqn:Ex.
    - unfold melodi_order_flow_clear. rewrite order_message_loop; auto; cycle 1.
      { now intros m [? _]%andb_true_iff. } { unfold sw. now rewrite length_map. }
      { unfold sw. apply Forall_map. apply (list.Forall_impl _ _ _ Hw). intros m Hm. unfold cleared.
        destruct (of_flows cx rx i m); [cbn; lia|exact Hm]. }
      cbn zeta. unfold set_r_order_rx. cbn.
      assert (gx x = zero_order_rx_flow) as Hg by (unfold gx, cleared; now rewrite Ex).
      rewrite (swept_S gx i rx x Hx), Hg.
      assert (map (cleared (fun m => om_active m && (om_flow_index m =? Z.of_nat i)) zero_order_message) (sw i)
              = sw (S i)) as ->; [|reflexivity].
      unfold sw. rewrite cleared_cleared by reflexivity. apply cleared_ext. intros m. rewrite of_flows_S.
      unfold at_index. now rewrite Hx, Ex, andb_true_r.
    - rewrite (swept_S_id gx i rx x Hx) by (unfold gx, cleared; now rewrite Ex).
      assert (sw (S i) = sw i) as ->; [|reflexivity]. apply cleared_ext. intros m. rewrite of_flows_S.
      unfold at_index. now rewrite Hx, Ex, !andb_false_r, orb_false_r. }
  cbn [r_order_tx]. unfold at_index at 1. rewrite swept_lookup, Ht. destruct (ct t) eqn:Et.
  - assert (gt t = zero_order_tx_flow) as Hg by (unfold gt, cleared; now rewrite Et).
    now rewrite (swept_S gt i tx t Ht), Hg.
  - rewrite (swept_S_id gt i tx t Ht) by (unfold gt, cleared; now rewrite Et). reflexivity.
Qed.

(** What is left when everything received from a node and every ordered flow to
    or from it is forgotten, with the counters recomputed. *)
Definition peer_forgotten (r : receive_state) (node : melodi_node_id) : receive_state :=
  let re := map (cleared (fun e => e.(re_active) && node_eqb e.(re_source) node) zero_reassembly)
              r.(r_reassemblies) in
  let rc := map (cleared (fun e => e.(rc_active) && node_eqb e.(rc_source) node) zero_receipt) r.(r_receipts) in
  let from f := f.(orx_active) && node_eqb f.(orx_source) node in
  let om := map (cleared (of_flows from r.(r_order_rx) MELODI_ORDER_FLOW_LIMIT) zero_order_message)
              r.(r_order_messages) in
  MkReceive (sumZ (map re_weight re)) re rc
    (map (cleared (fun f => f.(otx_active) && node_eqb f.(otx_destination) node) zero_order_tx_flow) r.(r_order_tx))
    (map (cleared from zero_order_rx_flow) r.(r_order_rx)) om (sumZ (map om_weight om)).

Lemma peer_reset_forgets r node :
  receive_wf r -> melodi_data_peer_reset_locked r node = peer_forgotten r node.
Proof.
  intros [H1 H2 H3 H4 H5 H6 H7 H8 H9]. destruct r as [b re rc tx rx om ob].
  cbn [r_reassemblies r_receipts r_order_tx r_order_rx r_order_messages r_reassembly_bytes r_order_bytes] in *.
  unfold melodi_data_peer_reset_locked, peer_forgotten.
  cbn [r_reassemblies r_receipts r_order_tx r_order_rx r_order_messages].
  rewrite reassembly_loop; auto; [|now intros e [? _]%andb_true_iff]. cbv zeta.
  rewrite receipt_loop by exact H2. rewrite flow_loop; auto.
Qed.

Lemma Forall_cleared {A} (P : A -> Prop) c z l : P z -> Forall P l -> Forall P (map (cleared c z) l).
Proof.
  intros Hz Hl. apply Forall_map. apply (list.Forall_impl _ _ _ Hl). intros x Hx. unfold cleared.
  now destruct (c x).
Qed.

Lemma cleared_none {A} (c : A -> bool) z l : c z = false -> Forall (fun e => c e = false) (map (cleared c z) l).
Proof.
  intros Hz. apply Forall_map, list.Forall_forall. intros x _. unfold cleared. now destruct (c x) eqn:E.
Qed.

Lemma peer_forgotten_wf r node : receive_wf r -> receive_wf (peer_forgotten r node).
Proof.
  intros [H1 H2 H3 H4 H5 H6 H7 H8 H9].
  constructor; unfold peer_forgotten;
    cbn [r_reassemblies r_receipts r_order_tx r_order_rx r_order_messages r_reassembly_bytes r_order_bytes];
    rewrite ?length_map; auto; apply Forall_cleared; auto; cbn; lia.
Qed.

(** Nothing received from the node, and no ordered flow with it, is left. *)
Definition no_trace (r : receive_state) (node : melodi_node_id) : Prop :=
  Forall (fun e => e.(re_active) && node_eqb e.(re_source) node = false) r.(r_reassemblies) /\
  Forall (fun e => e.(rc_active) && node_eqb e.(rc_source) node = false) r.(r_receipts) /\
  Forall (fun f => f.(otx_active) && node_eqb f.(otx_destination) node = false) r.(r_order_tx) /\
  Forall (fun f => f.(orx_active) && node_eqb f.(orx_source) node = false) r.(r_order_rx).

Lemma peer_forgotten_no_trace r node : no_trace (peer_forgotten r node) node.
Proof. unfold no_trace, peer_forgotten. cbn. conj_split; now apply cleared_none. Qed.

Lemma session_advance_epoch p :
  u64 p.(p_session_epoch) ->
  let e := (melodi_peer_session_advance p).(p_session_epoch) in u64 e /\ e <> 0 /\ e <> p.(p_session_epoch).
Proof.
  intros Hu. unfold melodi_peer_session_advance. cbn [p_session_epoch set_p_session_epoch].
  assert (wrap 64 (p_session_epoch p + 1) = if p_session_epoch p =? 2 ^ 64 - 1 then 0 else p_session_epoch p + 1) as ->.
  { unfold wrap, uint in *. destruct (Z.eqb_spec (p_session_epoch p) (2 ^ 64 - 1)) as [->|]; [reflexivity|].
    apply Z.mod_small. lia. }
  unfold uint in *. destruct (Z.eqb_spec (p_session_epoch p) (2 ^ 64 - 1)) as [->|]; cbn zeta.
  - vm_compute. intuition congruence.
  - destruct (Z.eqb_spec (p_session_epoch p + 1) 0); lia.
Qed.

Definition session_gone (p p' : melodi_peer) : Prop :=
  p'.(p_node_id) = p.(p_node_id) /\ p'.(p_link_locator) = p.(p_link_locator) /\
  p'.(p_native_locator) = p.(p_native_locator) /\ p'.(p_generation) = p.(p_generation) /\
  p'.(p_authenticated) = p.(p_authenticated) /\ p'.(p_conflicted) = p.(p_conflicted) /\
  p'.(p_session_ready) = false /\ p'.(p_handshake_pending) = false /\
  p'.(p_transmit_key) = replicate 32 0 /\ p'.(p_receive_key) = replicate 32 0 /\
  p'.(p_ephemeral_private) = replicate 32 0 /\ p'.(p_receive_replay) = melodi_replay_reset /\
  u64 p'.(p_session_epoch) /\ p'.(p_session_epoch) <> 0 /\ p'.(p_session_epoch) <> p.(p_session_epoch).

Lemma session_reset_result melodi index peer :
  receive_wf melodi.(d_receive) -> melodi.(d_peers) !! index = Some peer -> u64 peer.(p_session_epoch) ->
  exists peer', session_gone peer peer' /\
    melodi_peer_session_reset_locked melodi index =
    MkDevice melodi.(d_link) (<[index := peer']> melodi.(d_peers))
      (peer_forgotten melodi.(d_receive) peer.(p_node_id)) melodi.(d_pending) melodi.(d_policy) melodi.(d_tx) melodi.(d_data).
Proof.
  intros Hwf Hp Hu. unfold melodi_peer_session_reset_locked. rewrite Hp, peer_reset_forgets by exact Hwf.
  eexists. split; [|reflexivity]. unfold session_gone. conj_split; try reflexivity.
  all: apply (session_advance_epoch (set_p_handshake_pending false (set_p_session_ready false
         (set_p_receive_replay melodi_replay_reset (set_p_ephemeral_private (replicate 32 0)
         (set_p_receive_key (replicate 32 0) (set_p_transmit_key (replicate 32 0) peer))))))); exact Hu.
Qed.

(** Ending a session leaves nothing of it.  The peer keeps its identity
    and locators but loses keys, replay window and readiness, and its epoch
    changes to another nonzero value, so that nothing accepted under the old
    session is taken for the new one; every reassembly, receipt and ordered
    flow of the node is cleared together with the messages buffered in its
    flows, the entries of other nodes stay as they are, and the byte counters
    remain exactly what the remaining entries hold. *)
Theorem session_reset_complete melodi index peer :
  receive_wf melodi.(d_receive) -> melodi.(d_peers) !! index = Some peer -> u64 peer.(p_session_epoch) ->
  exists peer', session_gone peer peer' /\
    let melodi' := melodi_peer_session_reset_locked melodi index in
    melodi'.(d_peers) = <[index := peer']> melodi.(d_peers) /\
    melodi'.(d_receive) = peer_forgotten melodi.(d_receive) peer.(p_node_id) /\
    no_trace melodi'.(d_receive) peer.(p_node_id) /\ receive_wf melodi'.(d_receive) /\
    melodi'.(d_link) = melodi.(d_link) /\ melodi'.(d_pending) = melodi.(d_pending) /\
    melodi'.(d_policy) = melodi.(d_policy).
Proof.
  intros Hwf Hp Hu. destruct (session_reset_result melodi index peer Hwf Hp Hu) as (p' & Hg & Hr).
  exists p'. split; [exact Hg|]. cbv zeta. rewrite Hr. cbn [d_peers d_receive d_link d_pending d_policy].
  conj_split; auto using peer_forgotten_wf, peer_forgotten_no_trace.
Qed.

(** ** Locator conflicts *)

(** An authenticated peer is in conflict when its locator is also the device's
    own or that of another authenticated peer. *)
Definition in_conflict (local : Z) (peers : list melodi_peer) (i : nat) (p : melodi_peer) : Prop :=
  p.(p_authenticated) = true /\
  (p.(p_native_locator) = local \/
   exists j q, j <> i /\ peers !! j = Some q /\ q.(p_authenticated) = true /\
     q.(p_native_locator) = p.(p_native_locator)).

(** The table with given conflict flags. *)
Definition with_flags (f : nat -> bool) (l : list melodi_peer) : list melodi_peer :=
  imap (fun i p => set_p_conflicted (f i) p) l.

Lemma with_flags_lookup f l i : with_flags f l !! i = set_p_conflicted (f i) <$> l !! i.
Proof. exact (list_lookup_imap (fun i p => set_p_conflicted (f i) p) l i). Qed.

Lemma with_flags_ext f g l : (forall i, (i < length l)%nat -> f i = g i) -> with_flags f l = with_flags g l.
Proof.
  intros H. apply list_eq. intros i. rewrite !with_flags_lookup. destruct (l !! i) eqn:E; [|reflexivity].
  cbn. rewrite H; [reflexivity|]. now apply lookup_lt_Some in E.
Qed.

(** The pair of entries the inner loop marks. *)
Definition same_locator (l : list melodi_peer) (a b : nat) : bool :=
  match l !! a, l !! b with
  | Some p, Some q => q.(p_authenticated) && (p.(p_native_locator) =? q.(p_native_locator))
  | _, _ => false
  end.

Definition member (i a b : nat) : bool := Nat.eqb i a || Nat.eqb i b.

Lemma mark_pair_flags f l a b :
  mark_pair (with_flags f l) a b = with_flags (fun i => f i || (member i a b && same_locator l a b)) l.
Proof.
  unfold mark_pair, same_locator. rewrite !with_flags_lookup.
  destruct (l !! a) as [p|] eqn:Ha; cbn [fmap option_fmap option_map];
    [destruct (l !! b) as [q|] eqn:Hb; cbn [fmap option_fmap option_map]|];
    [|apply with_flags_ext; intros; now rewrite andb_false_r, orb_false_r..].
  cbn [p_authenticated p_native_locator set_p_conflicted].
  destruct (p_authenticated q && (p_native_locator p =? p_native_locator q)) eqn:E.
  - assert (negb (p_authenticated q) || negb (p_native_locator p =? p_native_locator q) = false) as ->
      by (rewrite <- negb_andb, E; reflexivity).
    apply list_eq. intros i. pose proof (lookup_lt_Some _ _ _ Ha). pose proof (lookup_lt_Some _ _ _ Hb).
    rewrite with_flags_lookup. unfold member. rewrite andb_true_r.
    destruct (Nat.eqb_spec i b) as [->|Hib].
    + rewrite list_lookup_insert_eq by (rewrite length_insert; unfold with_flags; rewrite length_imap; lia).
      rewrite Hb, !orb_true_r. reflexivity.
    + rewrite list_lookup_insert_ne by auto. destruct (Nat.eqb_spec i a) as [->|Hia].
      * rewrite list_lookup_insert_eq by (unfold with_flags; rewrite length_imap; lia). now rewrite Ha, !orb_true_r.
      * rewrite list_lookup_insert_ne, with_flags_lookup by auto. now rewrite !orb_false_r.
  - assert (negb (p_authenticated q) || negb (p_native_locator p =? p_native_locator q) = true) as ->
      by (rewrite <- negb_andb, E; reflexivity).
    apply with_flags_ext. intros. now rewrite andb_false_r, orb_false_r.
Qed.

Lemma inner_flags l a bs : forall f,
  fold_left (fun peers second => mark_pair peers a second) bs (with_flags f l) =
  with_flags (fun i => f i || existsb (fun b => member i a b && same_locator l a b) bs) l.
Proof.
  induction bs as [|b bs IH]; intros f; cbn [fold_left existsb].
  - apply with_flags_ext. intros. now rewrite orb_false_r.
  - rewrite mark_pair_flags, IH. apply with_flags_ext. intros. now rewrite orb_assoc.
Qed.

Lemma at_index_flags f l a : at_index (with_flags f l) a p_authenticated = at_index l a p_authenticated.
Proof. unfold at_index. rewrite with_flags_lookup. now destruct (l !! a). Qed.

Lemma outer_flags l (bs : nat -> list nat) firsts : forall f,
  fold_left (fun peers first => if negb (at_index peers first p_authenticated) then peers else
    fold_left (fun peers second => mark_pair peers first second) (bs first) peers) firsts (with_flags f l) =
  with_flags (fun i => f i || existsb (fun a => at_index l a p_authenticated &&
                                existsb (fun b => member i a b && same_locator l a b) (bs a)) firsts) l.
Proof.
  induction firsts as [|a firsts IH]; intros f; cbn [fold_left existsb].
  - apply with_flags_ext. intros. now rewrite orb_false_r.
  - rewrite at_index_flags. destruct (at_index l a p_authenticated); cbn [negb andb].
    + rewrite inner_flags, IH. apply with_flags_ext. intros. now rewrite orb_assoc.
    + rewrite IH. apply with_flags_ext. intros. reflexivity.
Qed.

(** The marks of the double loop say that some other entry has the locator. *)
Lemma marks_exact l i p :
  length l = MELODI_PEER_LIMIT -> l !! i = Some p ->
  existsb (fun a => at_index l a p_authenticated &&
    existsb (fun b => member i a b && same_locator l a b) (seq (S a) (MELODI_PEER_LIMIT - S a))) (seq 0 MELODI_PEER_LIMIT) = true <->
  p.(p_authenticated) = true /\
  exists j q, j <> i /\ l !! j = Some q /\ q.(p_authenticated) = true /\ q.(p_native_locator) = p.(p_native_locator).
Proof.
  intros Hl Hp. set (n := MELODI_PEER_LIMIT) in *. pose proof (lookup_lt_Some _ _ _ Hp) as Hi.
  rewrite existsb_exists. split.
  - intros (a & Ha%in_seq & [Hau Hb]%andb_true_iff). apply existsb_exists in Hb as (b & Hb%in_seq & [Hm Hpr]%andb_true_iff).
    unfold at_index in Hau. unfold same_locator in Hpr.
    destruct (l !! a) as [pa|] eqn:Ea; [|discriminate]. destruct (l !! b) as [pb|] eqn:Eb; [|discriminate].
    apply andb_true_iff in Hpr as [Hbu Hloc%Z.eqb_eq].
    unfold member in Hm. apply orb_true_iff in Hm as [->%Nat.eqb_eq | ->%Nat.eqb_eq].
    + rewrite Ea in Hp. injection Hp as ->. split; [exact Hau|]. exists b, pb. conj_split; auto. lia.
    + rewrite Eb in Hp. injection Hp as ->. split; [exact Hbu|]. exists a, pa. conj_split; auto. lia.
  - intros (Hau & j & q & Hne & Hq & Hqu & Hloc). pose proof (lookup_lt_Some _ _ _ Hq) as Hj.
    exists (Nat.min i j). split; [apply in_seq; lia|]. apply andb_true_iff.
    assert (forall a b pa pb, (a < b)%nat -> l !! a = Some pa -> l !! b = Some pb -> pb.(p_authenticated) = true ->
              pa.(p_native_locator) = pb.(p_native_locator) -> member i a b = true ->
              existsb (fun b => member i a b && same_locator l a b) (seq (S a) (n - S a)) = true) as Hex.
    { intros a b pa pb Hab Ha Hb Hbu Hlc Hm. apply existsb_exists. exists b. pose proof (lookup_lt_Some _ _ _ Hb).
      split; [apply in_seq; lia|]. rewrite Hm. unfold same_locator. rewrite Ha, Hb, Hbu. apply Z.eqb_eq, Hlc. }
    unfold at_index. destruct (Nat.lt_ge_cases i j).
    + rewrite Nat.min_l, Hp by lia. split; [exact Hau|]. apply (Hex i j p q); auto.
      unfold member. now rewrite Nat.eqb_refl.
    + rewrite Nat.min_r, Hq by lia. split; [exact Hqu|]. apply (Hex j i q p); auto; [lia|].
      unfold member. rewrite Nat.eqb_refl. apply orb_true_r.
Qed.

(** Conflicts are recognised exactly.  Recomputing sets the flag of
    every peer to whether it is authenticated and its locator is the device's
    own or shared with another authenticated peer, whatever the flags were, and
    changes nothing else. *)
Theorem conflicts_recompute_exact melodi :
  length melodi.(d_peers) = MELODI_PEER_LIMIT ->
  let melodi' := melodi_conflicts_recompute_locked melodi in
  (forall i p, melodi.(d_peers) !! i = Some p ->
     exists c, melodi'.(d_peers) !! i = Some (set_p_conflicted c p) /\
       (c = true <-> in_conflict melodi.(d_link).(l_local_native_locator) melodi.(d_peers) i p)) /\
  length melodi'.(d_peers) = MELODI_PEER_LIMIT /\
  set_d_peers melodi.(d_peers) melodi' = melodi.
Proof.
  intros Hl. cbv zeta. set (local := melodi.(d_link).(l_local_native_locator)).
  set (l := melodi.(d_peers)) in *.
  assert (melodi_conflicts_recompute_locked melodi =
    set_d_peers (with_flags (fun i => at_index l i (fun p => p_authenticated p && (p_native_locator p =? local)) ||
      existsb (fun a => at_index l a p_authenticated &&
        existsb (fun b => member i a b && same_locator l a b) (seq (S a) (MELODI_PEER_LIMIT - S a)))
        (seq 0 MELODI_PEER_LIMIT)) l) melodi) as ->.
  { unfold melodi_conflicts_recompute_locked. cbv zeta. fold l local. f_equal. rewrite <- outer_flags.
    f_equal. apply list_eq. intros i. rewrite with_flags_lookup, list_lookup_fmap. unfold at_index.
    now destruct (l !! i). }
  conj_split.
  - intros i p Hp. cbn [d_peers set_d_peers]. rewrite with_flags_lookup, Hp. cbn [fmap option_fmap option_map].
    eexists. split; [reflexivity|]. rewrite orb_true_iff, (marks_exact l i p Hl Hp).
    unfold at_index, in_conflict. rewrite Hp, andb_true_iff, Z.eqb_eq. tauto.
  - cbn [d_peers set_d_peers]. unfold with_flags. now rewrite length_imap.
  - now destruct melodi.
Qed.

(** ** Concrete tables *)

Definition sample_peer (n locator : Z) : melodi_peer :=
  MkPeer (MkNodeId (1 :: replicate 32 n)) locator locator 0 1 9 0 0 0 0 0 0 melodi_replay_reset 5
    (replicate 32 1) (replicate 32 2) (replicate 32 3) (replicate 32 4) (replicate 32 0) (replicate 32 0)
    true false false true.

Definition sample_reassembly (n : Z) : melodi_reassembly :=
  MkReassembly (MkNodeId (1 :: replicate 32 n)) zero_rx_meta 1 5 0 1 1 20 10 0 40 40 2 0 0 0 true (replicate 64 zero_fragment).

Definition sample_device : melodi_device :=
  set_d_peers (<[2%nat := sample_peer 5 30]> (<[0%nat := sample_peer 4 30]> fresh_device.(d_peers)))
    (set_d_receive (set_r_reassembly_bytes 20
       (set_r_reassemblies (<[0%nat := sample_reassembly 4]> (<[3%nat := sample_reassembly 5]>
          fresh_device.(d_receive).(r_reassemblies))) fresh_device.(d_receive))) fresh_device).

Lemma session_reset_complete_witness :
  no_trace (melodi_peer_session_reset_locked sample_device 0).(d_receive) (sample_peer 4 30).(p_node_id).
Proof.
  destruct (session_reset_complete sample_device 0 (sample_peer 4 30)) as (p' & _ & _ & _ & H & _);
    [|reflexivity|by_decide|exact H].
  constructor; by_decide.
Defined.

Lemma conflicts_recompute_exact_witness :
  exists c, (melodi_conflicts_recompute_locked sample_device).(d_peers) !! 2%nat =
    Some (set_p_conflicted c (sample_peer 5 30)) /\ c = true.
Proof.
  destruct (proj1 (conflicts_recompute_exact sample_device ltac:(by_decide)) 2%nat (sample_peer 5 30) eq_refl)
    as (c & Hc & Hiff).
  exists c. split; [exact Hc|]. apply Hiff. split; [reflexivity|]. right.
  exists 0%nat, (sample_peer 4 30). repeat split; lia.
Defined.
