(* ===== verification/Reassembly.v ===== *)
(** * Reassembly of messages (src/kernel/core/data.c)

    The table of partly received messages and the receipts of complete ones.
    The table is a finite map from the source, generation, session and number of a
    message to what has arrived of it. *)
From stdpp Require Import gmap.
From S2P Require Import Prelude Buffer Uapi Wire Slots Device Peers.

(** ** Jiffies *)

Definition time_before (a b : Z) : bool := to_signed 64 (a - b) <? 0.
Definition time_after_eq (a b : Z) : bool := negb (time_before a b).

(** ** Receipts *)

Definition melodi_receipt_find (r : receive_state) (source : melodi_node_id) (generation session_epoch message_id : Z)
    : option nat :=
  find_index (fun e => e.(rc_active) && (e.(rc_generation) =? generation) && (e.(rc_session_epoch) =? session_epoch) &&
                       (e.(rc_message_id) =? message_id) && node_eqb e.(rc_source) source) r.(r_receipts).

(** The first free receipt, and the oldest of those before it, with its expiry. *)
Fixpoint receipt_slot (l : list melodi_receipt) (index : nat) (oldest : option (nat * Z)) : option nat * option (nat * Z) :=
  match l with
  | [] => (None, oldest)
  | e :: l =>
      if negb e.(rc_active) then (Some index, oldest) else
      let oldest := match oldest with
                    | None => Some (index, e.(rc_expires))
                    | Some (_, expires) => if time_before e.(rc_expires) expires then Some (index, e.(rc_expires)) else oldest
                    end in
      receipt_slot l (S index) oldest
  end.

Section Clock.
  Context (msecs_to_jiffies : Z -> Z).

Definition melodi_receipt_store (jiffies : Z) (r : receive_state) (source : melodi_node_id)
    (generation session_epoch message_id fragment_count bitmap status : Z) : receive_state * result unit :=
  let slot := match melodi_receipt_find r source generation session_epoch message_id with
              | Some index => Some index
              | None => match receipt_slot r.(r_receipts) 0 None with
                        | (Some index, _) => Some index
                        | (None, oldest) => fst <$> oldest
                        end
              end in
  match slot with
  | None => (r, Err ENOSPC)
  | Some index =>
      let receipt := MkReceipt source message_id bitmap session_epoch
                       (wrap 64 (jiffies + msecs_to_jiffies MELODI_RECEIPT_TIMEOUT_MS)) generation fragment_count status true in
      (set_r_receipts (<[index := receipt]> r.(r_receipts)) r, Ok tt)
  end.

(** ** The timer *)

(** [if (!earliest || time_before(expires, earliest)) earliest = expires] *)
Definition earlier (earliest expires : Z) : Z :=
  if (earliest =? 0) || time_before expires earliest then expires else earliest.

Definition order_target (jiffies now_ms : Z) (state : melodi_order_state) : Z :=
  let deadline := state.(Ordering.deadline_ms) in
  let remaining := if now_ms <? deadline then deadline - now_ms else 0 in
  let delay := if remaining =? 0 then 1 else msecs_to_jiffies (wrap 32 remaining) in
  wrap 64 (jiffies + (if delay =? 0 then 1 else delay)).

Definition melodi_reassembly_schedule (jiffies now_ms : Z) (melodi : melodi_device) : melodi_device :=
  let r := melodi.(d_receive) in
  let earliest := fold_left (fun earliest e => if e.(re_active) then earlier earliest e.(re_expires) else earliest)
                    r.(r_reassemblies) 0 in
  let earliest := fold_left (fun earliest e => if e.(rc_active) then earlier earliest e.(rc_expires) else earliest)
                    r.(r_receipts) earliest in
  let earliest := fold_left (fun earliest f =>
                    let state := f.(orx_state) in
                    if negb f.(orx_active) || (state.(Ordering.pending) =? 0) || (state.(Ordering.deadline_ms) =? 0)
                    then earliest else earlier earliest (order_target jiffies now_ms state)) r.(r_order_rx) earliest in
  if earliest =? 0 then melodi else
  let delay := if time_after_eq jiffies earliest then 1 else wrap 64 (earliest - jiffies) in
  set_d_data (set_a_reassembly_work (Some delay) melodi.(d_data)) melodi.

Definition melodi_reassembly_expire (jiffies : Z) (r : receive_state) : receive_state :=
  let r := fold_left (fun r index =>
             if at_index r.(r_reassemblies) index (fun e => e.(re_active) && time_after_eq jiffies e.(re_expires))
             then melodi_reassembly_clear r index else r)
             (seq 0 MELODI_REASSEMBLY_LIMIT) r in
  fold_left (fun r index =>
    if at_index r.(r_receipts) index (fun e => e.(rc_active) && time_after_eq jiffies e.(rc_expires))
    then set_r_receipts (<[index := zero_receipt]> r.(r_receipts)) r else r)
    (seq 0 MELODI_RECEIPT_LIMIT) r.

Definition melodi_data_reassembly_reset_locked (r : receive_state) : receive_state :=
  let r := fold_left melodi_reassembly_clear (seq 0 MELODI_REASSEMBLY_LIMIT) r in
  let r := set_r_receipts (replicate MELODI_RECEIPT_LIMIT zero_receipt) r in
  set_r_reassembly_bytes 0 r.

(** ** Fragments *)

Definition melodi_reassembly_find (r : receive_state) (source : melodi_node_id) (generation session_epoch message_id : Z)
    : option nat :=
  match slot_search re_active
          (fun e => (e.(re_generation) =? generation) && (e.(re_session_epoch) =? session_epoch) &&
                    (e.(re_message_id) =? message_id) && node_eqb e.(re_source) source) r.(r_reassemblies) 0 None with
  | (Some index, _) => Some index
  | (None, empty) => empty
  end.

Definition melodi_reassembly_consistent (entry : melodi_reassembly) (header : melodi_wire_data) : bool :=
  (entry.(re_logical_length) =? header.(logical_length)) && (entry.(re_source_service) =? header.(source_service)) &&
  (entry.(re_destination_service) =? header.(destination_service)) &&
  (entry.(re_fragment_count) =? header.(fragment_count)) &&
  (entry.(re_flags) =? Z.land header.(data_common).(flags) (Z.lnot MELODI_WIRE_F_FINAL)) &&
  (entry.(re_delivery_mode) =? header.(delivery_mode)) && (entry.(re_priority) =? header.(priority)) &&
  (entry.(re_ordering_marker) =? header.(ordering_marker)).

(** A complete message: the buffer that was allocated for it, and its length. *)
Record completed := MkCompleted {
  co_source : melodi_node_id;
  co_source_service : Z;
  co_destination_service : Z;
  co_metadata : melodi_rx_meta;
  co_payload : bytes;
  co_length : Z;
}.

(** The codes 0 and 1, and [*received_bitmap]. *)
Inductive reassembled : Type :=
| Partial (bitmap : Z)
| Complete (bitmap : Z) (message : completed).

(** A fresh entry. *)
Definition reassembly_start (jiffies : Z) (source : melodi_node_id) (header : melodi_wire_data) (session_epoch : Z)
    (metadata : melodi_rx_meta) : melodi_reassembly :=
  MkReassembly source metadata header.(data_common).(message_id) session_epoch
    (wrap 64 (jiffies + msecs_to_jiffies MELODI_REASSEMBLY_TIMEOUT_MS)) 0 header.(data_common).(identity_generation)
    header.(logical_length) 0 header.(ordering_marker) header.(source_service) header.(destination_service)
    header.(fragment_count) (Z.land header.(data_common).(flags) (Z.lnot MELODI_WIRE_F_FINAL)) header.(delivery_mode)
    header.(priority) true (replicate 64 zero_fragment).

(** The fragments copied one after the other into the buffer. *)
Definition reassembly_copy (entry : melodi_reassembly) (memory : bytes) : bytes * nat :=
  fold_left (fun '(complete, offset) index =>
    match entry.(re_fragments) !! index with
    | Some f => let n := Z.to_nat f.(fr_length) in (store offset (load 0 n f.(fr_data)) complete, (offset + n)%nat)
    | None => (complete, offset)
    end) (seq 0 (Z.to_nat entry.(re_fragment_count))) (memory, 0%nat).

(** The bitmap of a complete message. *)
Definition full_bitmap (count : Z) : Z := if count =? 64 then U64_MAX else wrap 64 (bit count - 1).

(** A fragment is filed in the entry of its message. *)
Definition file_fragment (index length : Z) (fragment : bytes) (e : melodi_reassembly) : melodi_reassembly :=
  let e := set_re_fragments (<[Z.to_nat index := MkFragment fragment length]> e.(re_fragments)) e in
  let e := set_re_received (Z.lor e.(re_received) (bit index)) e in
  set_re_received_length (wrap 32 (e.(re_received_length) + length)) e.

(** The function from where the entry is in use; [memory] is what [kmalloc] hands
    back for the message, if it does. *)
Definition reassembly_file (jiffies now_ms : Z) (memory : option bytes) (melodi : melodi_device) (index : nat)
    (entry : melodi_reassembly) (header : melodi_wire_data) (fragment : bytes) : melodi_device * result reassembled :=
  let r := melodi.(d_receive) in
  let length := header.(data_common).(payload_length) in
  if has entry.(re_received) (bit header.(fragment_index)) then (melodi, Err EALREADY) else
  if wrap 32 (MELODI_REASSEMBLY_BYTE_LIMIT - r.(r_reassembly_bytes)) <? length then (melodi, Err ENOSPC) else
  let entry := file_fragment header.(fragment_index) length fragment entry in
  let received_bitmap := entry.(re_received) in
  let r := set_r_reassemblies (<[index := entry]> r.(r_reassemblies)) r in
  let r := set_r_reassembly_bytes (wrap 32 (r.(r_reassembly_bytes) + length)) r in
  let melodi := melodi_reassembly_schedule jiffies now_ms (set_d_receive r melodi) in
  let clear := set_d_receive (melodi_reassembly_clear r index) melodi in
  if negb (entry.(re_received) =? full_bitmap entry.(re_fragment_count)) then (melodi, Ok (Partial received_bitmap)) else
  if negb (entry.(re_received_length) =? entry.(re_logical_length)) then (clear, Err EPROTO) else
  match memory with
  | None => (clear, Err ENOMEM)
  | Some memory =>
      (clear, Ok (Complete received_bitmap
                    (MkCompleted entry.(re_source) entry.(re_source_service) entry.(re_destination_service)
                       entry.(re_metadata) (reassembly_copy entry memory).1 entry.(re_logical_length))))
  end.

Definition melodi_reassembly_add (jiffies now_ms : Z) (memory : option bytes) (melodi : melodi_device)
    (source : melodi_node_id) (header : melodi_wire_data) (session_epoch : Z) (metadata : melodi_rx_meta) (fragment : bytes)
    : melodi_device * result reassembled :=
  let r := melodi_reassembly_expire jiffies melodi.(d_receive) in
  match melodi_reassembly_find r source header.(data_common).(identity_generation) session_epoch
          header.(data_common).(message_id) ≫= fun i => pair i <$> r.(r_reassemblies) !! i with
  | None => (set_d_receive r melodi, Err ENOSPC)
  | Some (index, entry) =>
      if entry.(re_active) && negb (melodi_reassembly_consistent entry header)
      then (set_d_receive (melodi_reassembly_clear r index) melodi, Err EPROTO) else
      let entry := if entry.(re_active) then entry else reassembly_start jiffies source header session_epoch metadata in
      let r := set_r_reassemblies (<[index := entry]> r.(r_reassemblies)) r in
      reassembly_file jiffies now_ms memory (set_d_receive r melodi) index entry header fragment
  end.
End Clock.

(** The part of [melodi_data_duplicate_ack_locked] on receipts. *)
Definition duplicate_receipt (r : receive_state) (source : melodi_node_id) (header : melodi_wire_data)
    (session_epoch : Z) : result (Z * Z) :=
  let c := header.(data_common) in
  match melodi_receipt_find r source c.(identity_generation) session_epoch c.(message_id) ≫= fun i => r.(r_receipts) !! i with
  | Some receipt =>
      if receipt.(rc_fragment_count) =? header.(fragment_count) then Ok (receipt.(rc_bitmap), receipt.(rc_status))
      else Err EALREADY
  | None => Err EALREADY
  end.

(** What is acknowledged when a fragment comes again: the bitmap and the status. *)
Definition melodi_data_duplicate_ack_locked (r : receive_state) (source : melodi_node_id) (header : melodi_wire_data)
    (session_epoch : Z) : result (Z * Z) :=
  let c := header.(data_common) in
  match melodi_reassembly_find r source c.(identity_generation) session_epoch c.(message_id)
          ≫= fun i => r.(r_reassemblies) !! i with
  | Some e =>
      if e.(re_active) && has e.(re_received) (bit header.(fragment_index)) then Ok (e.(re_received), MELODI_ACK_PARTIAL) else
      duplicate_receipt r source header session_epoch
  | None => duplicate_receipt r source header session_epoch
  end.

(** ** What the table stands for *)

(** What has arrived of a message: what its fragments must agree on, and the
    contents of those that are there. *)
Record partial := MkPartial {
  pa_metadata : melodi_rx_meta;
  pa_expires : Z;
  pa_length : Z;
  pa_marker : Z;
  pa_source_service : Z;
  pa_destination_service : Z;
  pa_count : Z;
  pa_flags : Z;
  pa_mode : Z;
  pa_priority : Z;
  pa_parts : list (option bytes);
}.

Definition set_parts (parts : list (option bytes)) (p : partial) : partial :=
  MkPartial p.(pa_metadata) p.(pa_expires) p.(pa_length) p.(pa_marker) p.(pa_source_service) p.(pa_destination_service)
    p.(pa_count) p.(pa_flags) p.(pa_mode) p.(pa_priority) parts.

Definition message_key : Type := melodi_node_id * Z * Z * Z.

Definition re_key (e : melodi_reassembly) : message_key :=
  (e.(re_source), e.(re_generation), e.(re_session_epoch), e.(re_message_id)).
Definition header_key (source : melodi_node_id) (header : melodi_wire_data) (session_epoch : Z) : message_key :=
  (source, header.(data_common).(identity_generation), session_epoch, header.(data_common).(message_id)).

Definition fragment_content (f : melodi_fragment) : bytes := load 0 (Z.to_nat f.(fr_length)) f.(fr_data).

Definition parts_of (e : melodi_reassembly) : list (option bytes) :=
  imap (fun i f => if Z.testbit e.(re_received) (Z.of_nat i) then Some (fragment_content f) else None) e.(re_fragments).

Definition partial_of (e : melodi_reassembly) : partial :=
  MkPartial e.(re_metadata) e.(re_expires) e.(re_logical_length) e.(re_ordering_marker) e.(re_source_service)
    e.(re_destination_service) e.(re_fragment_count) e.(re_flags) e.(re_delivery_mode) e.(re_priority) (parts_of e).

(** The bitmap, the length and the contents of what is there. *)
Fixpoint parts_bitmap (l : list (option bytes)) : Z :=
  match l with [] => 0 | o :: l => (match o with Some _ => 1 | None => 0 end) + 2 * parts_bitmap l end.
Definition part_size (o : option bytes) : Z := zlen (default [] o).
Definition parts_size (l : list (option bytes)) : Z := sumZ (map part_size l).
Definition parts_content (l : list (option bytes)) : bytes := concat (map (default []) l).
Definition parts_complete (count : Z) (l : list (option bytes)) : bool :=
  forallb (fun o => match o with Some _ => true | None => false end) (take (Z.to_nat count) l).

(** An entry in use: its bits say which fragments are there. *)
Record entry_ok (e : melodi_reassembly) : Prop := {
  ok_count : 0 < e.(re_fragment_count) <= 64;
  ok_received : 0 <= e.(re_received) < 2 ^ e.(re_fragment_count);
  ok_slots : length e.(re_fragments) = 64%nat;
  ok_fragments i f : e.(re_fragments) !! i = Some f ->
    if Z.testbit e.(re_received) (Z.of_nat i) then 0 <= f.(fr_length) < 65536 /\ f.(fr_length) <= zlen f.(fr_data)
    else f = zero_fragment;
  ok_length : e.(re_received_length) = parts_size (parts_of e);
}.

Record reassembly_inv (r : receive_state) : Prop := {
  ri_wf : receive_wf r;
  ri_table : table_wf re_active re_key r.(r_reassemblies);
  ri_entries : Forall (fun e => e.(re_active) = true -> entry_ok e) r.(r_reassemblies);
  ri_limit : r.(r_reassembly_bytes) <= MELODI_REASSEMBLY_BYTE_LIMIT;
}.

Definition messages (r : receive_state) : gmap message_key partial := table_map re_active re_key partial_of r.(r_reassemblies).

(** *** Entries *)

Lemma parts_lookup e i : parts_of e !! i =
  (fun f => if Z.testbit e.(re_received) (Z.of_nat i) then Some (fragment_content f) else None) <$> e.(re_fragments) !! i.
Proof. unfold parts_of. now rewrite list_lookup_imap. Qed.

Lemma length_parts e : length (parts_of e) = length e.(re_fragments).
Proof. apply length_imap. Qed.

Lemma parts_bitmap_range l : 0 <= parts_bitmap l < 2 ^ zlen l.
Proof.
  induction l as [|o l IH]; [by_decide|]. cbn [parts_bitmap]. unfold zlen in *. cbn [length].
  rewrite Nat2Z.inj_succ, Z.pow_succ_r by lia. destruct o; lia.
Qed.

Lemma parts_bitmap_testbit l i : (i < length l)%nat ->
  Z.testbit (parts_bitmap l) (Z.of_nat i) = match l !! i with Some (Some _) => true | _ => false end.
Proof.
  revert i. induction l as [|o l IH]; intros i Hi; [cbn in Hi; lia|]. cbn [parts_bitmap length] in *.
  destruct i as [|i].
  - cbn. destruct o; [now rewrite Z.add_comm, Z.testbit_odd_0|apply Z.testbit_even_0].
  - rewrite Nat2Z.inj_succ. cbn [lookup list_lookup]. rewrite <- IH by lia.
    destruct o; [rewrite Z.add_comm; apply Z.testbit_odd_succ; lia|rewrite Z.add_0_l; apply Z.testbit_even_succ; lia].
Qed.

(** Bits are equal when they agree below a bound for both. *)
Lemma bits_eq n a b : 0 <= a < 2 ^ Z.of_nat n -> 0 <= b < 2 ^ Z.of_nat n ->
  (forall i, (i < n)%nat -> Z.testbit a (Z.of_nat i) = Z.testbit b (Z.of_nat i)) -> a = b.
Proof.
  intros Ha Hb H. apply Z.bits_inj'. intros k Hk. destruct (decide (k < Z.of_nat n)) as [Hlt|Hge].
  - specialize (H (Z.to_nat k) ltac:(lia)). now rewrite Z2Nat.id in H by lia.
  - now rewrite !(uint_testbit_high (Z.of_nat n)) by (unfold uint; lia).
Qed.

Lemma parts_bitmap_of e : entry_ok e -> parts_bitmap (parts_of e) = e.(re_received).
Proof.
  intros [H1 H2 H3 H4 H5]. apply (bits_eq 64).
  - pose proof (parts_bitmap_range (parts_of e)) as H. unfold zlen in H. now rewrite length_parts, H3 in H.
  - pose proof (Z.pow_le_mono_r 2 (re_fragment_count e) (Z.of_nat 64) ltac:(lia) ltac:(lia)). lia.
  - intros i Hi. rewrite parts_bitmap_testbit by (rewrite length_parts; lia). rewrite parts_lookup.
    destruct (lookup_lt_is_Some_2 (re_fragments e) i ltac:(lia)) as [f ->]. cbn. now destruct (Z.testbit _ _).
Qed.

Lemma ones_testbit n i : 0 <= n -> 0 <= i -> Z.testbit (2 ^ n - 1) i = (i <? n).
Proof.
  intros Hn Hi. replace (2 ^ n - 1) with (Z.ones n) by (rewrite Z.ones_equiv; lia).
  destruct (Z.ltb_spec i n); [apply Z.ones_spec_low|apply Z.ones_spec_high]; lia.
Qed.

Lemma full_bitmap_ones count : 0 < count <= 64 -> full_bitmap count = 2 ^ count - 1.
Proof.
  intros H. unfold full_bitmap. destruct (Z.eqb_spec count 64) as [->|Hn]; [reflexivity|].
  unfold bit. rewrite Z.shiftl_1_l. apply wrap_id. unfold uint.
  pose proof (Z.pow_pos_nonneg 2 count). pose proof (Z.pow_lt_mono_r 2 count 64). lia.
Qed.

Lemma complete_exact e : entry_ok e ->
  (e.(re_received) =? full_bitmap e.(re_fragment_count)) = parts_complete e.(re_fragment_count) (parts_of e).
Proof.
  intros Hok. pose proof (ok_count e Hok) as Hc. pose proof (ok_received e Hok) as Hr. pose proof (ok_slots e Hok) as Hs.
  rewrite full_bitmap_ones by exact Hc. apply eq_true_iff_eq. rewrite Z.eqb_eq. unfold parts_complete.
  rewrite forallb_forall. split.
  - intros E o (i & Hi)%list_elem_of_In%list_elem_of_lookup. apply lookup_take_Some in Hi as [Hi Hlt].
    rewrite parts_lookup in Hi. destruct (re_fragments e !! i); [|discriminate]. injection Hi as <-.
    rewrite E, ones_testbit by lia. destruct (Z.ltb_spec (Z.of_nat i) (re_fragment_count e)); [reflexivity|lia].
  - intros H. apply (bits_eq (Z.to_nat (re_fragment_count e))); [rewrite Z2Nat.id by lia; lia|rewrite Z2Nat.id by lia; lia|].
    intros i Hi. rewrite ones_testbit by lia. replace (Z.of_nat i <? re_fragment_count e) with true by lia.
    destruct (lookup_lt_is_Some_2 (re_fragments e) i ltac:(lia)) as [f Hf].
    assert (take (Z.to_nat (re_fragment_count e)) (parts_of e) !! i =
      Some (if Z.testbit (re_received e) (Z.of_nat i) then Some (fragment_content f) else None)) as Hp
      by (now rewrite lookup_take_lt, parts_lookup, Hf by lia).
    apply list_elem_of_lookup_2, list_elem_of_In, H in Hp.
    now destruct (Z.testbit (re_received e) (Z.of_nat i)).
Qed.

Lemma testbit_lor_bit x i j : 0 <= i -> 0 <= j -> Z.testbit (Z.lor x (bit i)) j = Z.testbit x j || (j =? i).
Proof.
  intros Hi Hj. rewrite Z.lor_spec. f_equal. unfold bit. rewrite Z.shiftl_1_l, Z.pow2_bits_eqb by lia. apply Z.eqb_sym.
Qed.

Lemma parts_filed e index length fragment : entry_ok e -> 0 <= index < 64 ->
  parts_of (file_fragment index length fragment e) =
  <[Z.to_nat index := Some (fragment_content (MkFragment fragment length))]> (parts_of e).
Proof.
  intros Hok Hi. pose proof (ok_slots e Hok) as Hs. apply list_eq. intros i. rewrite parts_lookup.
  cbn [file_fragment set_re_received_length set_re_received set_re_fragments re_fragments re_received].
  destruct (decide (i = Z.to_nat index)) as [->|Hne].
  - rewrite !list_lookup_insert_eq by (rewrite ?length_parts; lia). cbn.
    rewrite testbit_lor_bit by lia. rewrite (proj2 (Z.eqb_eq _ _) (Z2Nat.id index (proj1 Hi))). now rewrite orb_true_r.
  - rewrite !list_lookup_insert_ne by auto. rewrite parts_lookup. destruct (re_fragments e !! i); [|reflexivity]. cbn.
    rewrite testbit_lor_bit by lia. replace (Z.of_nat i =? index) with false by lia. now rewrite orb_false_r.
Qed.

Lemma parts_size_insert l i o o' : l !! i = Some o -> parts_size (<[i := o']> l) = parts_size l - part_size o + part_size o'.
Proof. intros H. apply sum_weight_insert, H. Qed.

Lemma part_size_Some b : part_size (Some b) = zlen b. Proof. reflexivity. Qed.
Lemma part_size_None : part_size None = 0. Proof. reflexivity. Qed.

Lemma content_size f : 0 <= f.(fr_length) <= zlen f.(fr_data) -> zlen (fragment_content f) = f.(fr_length).
Proof. intros H. unfold fragment_content, zlen in *. rewrite length_load; lia. Qed.

Lemma filed_ok e index length fragment :
  entry_ok e -> 0 <= index < e.(re_fragment_count) -> Z.testbit e.(re_received) index = false ->
  0 <= length < 65536 -> length <= zlen fragment -> parts_size (parts_of e) + length < 2 ^ 32 ->
  entry_ok (file_fragment index length fragment e).
Proof.
  intros Hok Hi Hb Hl Hle Hsum. pose proof (ok_count e Hok) as Hc. pose proof (ok_received e Hok) as Hr.
  pose proof (ok_slots e Hok) as Hs. pose proof (ok_length e Hok) as HL.
  pose proof (parts_filed e index length fragment Hok ltac:(lia)) as HP. constructor.
  - exact Hc.
  - cbn [file_fragment set_re_received_length set_re_received set_re_fragments re_received re_fragment_count].
    apply (uint_lor (re_fragment_count e)); [lia|exact Hr|]. now apply uint_bit.
  - cbn [file_fragment set_re_received_length set_re_received set_re_fragments re_fragments]. now rewrite length_insert.
  - cbn [file_fragment set_re_received_length set_re_received set_re_fragments re_fragments re_received]. intros i f Hf.
    rewrite testbit_lor_bit by lia. destruct (decide (i = Z.to_nat index)) as [->|Hne].
    + rewrite list_lookup_insert_eq in Hf by lia. injection Hf as <-. rewrite Z2Nat.id, Z.eqb_refl, orb_true_r by lia. cbn. lia.
    + rewrite list_lookup_insert_ne in Hf by auto. replace (Z.of_nat i =? index) with false by lia. rewrite orb_false_r.
      exact (ok_fragments e Hok i f Hf).
  - rewrite HP. destruct (lookup_lt_is_Some_2 (re_fragments e) (Z.to_nat index) ltac:(lia)) as [f Hf].
    assert (parts_of e !! Z.to_nat index = Some None) as Hp by (rewrite parts_lookup, Hf; cbn; now rewrite Z2Nat.id, Hb by lia).
    rewrite (parts_size_insert _ _ _ _ Hp). rewrite part_size_Some, part_size_None.
    rewrite content_size by (cbn; lia). cbn [fr_length file_fragment set_re_received_length set_re_received set_re_fragments re_received_length].
    rewrite HL. rewrite wrap_id; [lia|]. unfold uint.
    assert (0 <= parts_size (parts_of e)); [|lia]. apply sumZ_nonneg, Forall_map, list.Forall_true. intros o. unfold part_size, zlen. lia.
Qed.

(** The copy is the contents in order, whatever the memory held. *)
Lemma copy_loop e memory n :
  entry_ok e -> (n <= 64)%nat ->
  (forall i, (i < n)%nat -> Z.testbit e.(re_received) (Z.of_nat i) = true) ->
  (length (parts_content (take n (parts_of e))) <= length memory)%nat ->
  fold_left (fun '(complete, offset) index =>
    match e.(re_fragments) !! index with
    | Some f => let n := Z.to_nat f.(fr_length) in (store offset (load 0 n f.(fr_data)) complete, (offset + n)%nat)
    | None => (complete, offset)
    end) (seq 0 n) (memory, 0%nat) =
  let c := parts_content (take n (parts_of e)) in (c ++ drop (length c) memory, length c).
Proof.
  intros Hok. induction n as [|n IH]; intros Hn Hbits Hlen; [reflexivity|].
  destruct (lookup_lt_is_Some_2 (re_fragments e) n) as [f Hf]; [rewrite (ok_slots e Hok); lia|].
  pose proof (ok_fragments e Hok n f Hf) as Hfok. rewrite (Hbits n ltac:(lia)) in Hfok.
  assert (parts_of e !! n = Some (Some (fragment_content f))) as Hp by (rewrite parts_lookup, Hf; cbn; now rewrite Hbits by lia).
  assert (parts_content (take (S n) (parts_of e)) = parts_content (take n (parts_of e)) ++ fragment_content f) as Hc.
  { unfold parts_content. rewrite (take_S_r _ _ _ Hp), map_app, concat_app. cbn. now rewrite app_nil_r. }
  rewrite Hc in *. rewrite length_app in Hlen. rewrite seq_S, fold_left_app, IH by (intros; try apply Hbits; lia).
  cbv zeta. set (c := parts_content (take n (parts_of e))) in *. cbn [fold_left Nat.add]. rewrite Hf.
  change (load 0 (Z.to_nat (fr_length f)) (fr_data f)) with (fragment_content f).
  assert (length (fragment_content f) = Z.to_nat (fr_length f)) as Hl.
  { pose proof (content_size f ltac:(lia)). unfold zlen in *. lia. }
  rewrite store_app_r; [|reflexivity|rewrite length_drop; lia]. rewrite drop_drop, length_app, app_assoc, Hl. reflexivity.
Qed.

(** ** The specification

    A finite map of partial messages. *)

Definition messages_size (m : gmap message_key partial) : Z :=
  sumZ (map (fun kp => parts_size kp.2.(pa_parts)) (map_to_list m)).

Definition agrees (p : partial) (header : melodi_wire_data) : bool :=
  bool_decide ((p.(pa_length), p.(pa_source_service), p.(pa_destination_service), p.(pa_count), p.(pa_flags), p.(pa_mode),
                p.(pa_priority), p.(pa_marker)) =
               (header.(logical_length), header.(source_service), header.(destination_service), header.(fragment_count),
                Z.land header.(data_common).(flags) (Z.lnot MELODI_WIRE_F_FINAL), header.(delivery_mode), header.(priority),
                header.(ordering_marker))).

Definition spec_expire (jiffies : Z) (m : gmap message_key partial) : gmap message_key partial :=
  filter (fun kp => time_after_eq jiffies kp.2.(pa_expires) = false) m.

Definition spec_file (has_memory : bool) (m : gmap message_key partial) (k : message_key) (p : partial) (index : nat)
    (fragment : bytes) : gmap message_key partial * result reassembled :=
  match p.(pa_parts) !! index with
  | Some (Some _) => (<[k := p]> m, Err EALREADY)
  | _ =>
      if MELODI_REASSEMBLY_BYTE_LIMIT <? messages_size (<[k := p]> m) + zlen fragment
      then (<[k := p]> m, Err ENOSPC) else
      let parts := <[index := Some fragment]> p.(pa_parts) in
      if negb (parts_complete p.(pa_count) parts)
      then (<[k := set_parts parts p]> m, Ok (Partial (parts_bitmap parts))) else
      if negb (parts_size parts =? p.(pa_length)) then (delete k m, Err EPROTO) else
      if has_memory
      then (delete k m, Ok (Complete (parts_bitmap parts)
              (MkCompleted k.1.1.1 p.(pa_source_service) p.(pa_destination_service) p.(pa_metadata) (parts_content parts)
                 p.(pa_length))))
      else (delete k m, Err ENOMEM)
  end.

Section Specification.
  Context (msecs_to_jiffies : Z -> Z).

Definition fresh_partial (jiffies : Z) (header : melodi_wire_data) (metadata : melodi_rx_meta) : partial :=
  MkPartial metadata (wrap 64 (jiffies + msecs_to_jiffies MELODI_REASSEMBLY_TIMEOUT_MS)) header.(logical_length)
    header.(ordering_marker) header.(source_service) header.(destination_service) header.(fragment_count)
    (Z.land header.(data_common).(flags) (Z.lnot MELODI_WIRE_F_FINAL)) header.(delivery_mode) header.(priority)
    (replicate 64 None).

Definition spec_add (jiffies : Z) (has_memory : bool) (m : gmap message_key partial) (k : message_key)
    (header : melodi_wire_data) (metadata : melodi_rx_meta) (fragment : bytes)
    : gmap message_key partial * result reassembled :=
  let m := spec_expire jiffies m in
  let index := Z.to_nat header.(fragment_index) in
  match m !! k with
  | Some p => if agrees p header then spec_file has_memory m k p index fragment else (delete k m, Err EPROTO)
  | None =>
      if bool_decide (size m < MELODI_REASSEMBLY_LIMIT)%nat
      then spec_file has_memory m k (fresh_partial jiffies header metadata) index fragment
      else (m, Err ENOSPC)
  end.
End Specification.

(** The result as the specification sees it: the message without the memory around it. *)
Definition content (r : reassembled) : reassembled :=
  match r with
  | Partial b => Partial b
  | Complete b c =>
      Complete b (MkCompleted c.(co_source) c.(co_source_service) c.(co_destination_service) c.(co_metadata)
                    (load 0 (Z.to_nat c.(co_length)) c.(co_payload)) c.(co_length))
  end.

Definition seen (r : result reassembled) : result reassembled :=
  match r with Ok r => Ok (content r) | Err e => Err e end.

(** What the wire decoder and [melodi_data_header_valid] guarantee. *)
Definition header_ok (header : melodi_wire_data) : Prop :=
  0 <= header.(fragment_index) < header.(fragment_count) /\ header.(fragment_count) <= 64 /\
  u16 header.(data_common).(payload_length) /\ u32 header.(logical_length).

(** *** Refinement *)

Lemma parts_size_nonneg l : 0 <= parts_size l.
Proof. apply sumZ_nonneg, Forall_map, list.Forall_true. intros o. unfold part_size, zlen. lia. Qed.

Lemma weight_parts e : (e.(re_active) = true -> entry_ok e) ->
  re_weight e = if e.(re_active) then parts_size (partial_of e).(pa_parts) else 0.
Proof. intros H. unfold re_weight. destruct (re_active e); [|reflexivity]. exact (ok_length e (H eq_refl)). Qed.

Lemma messages_bytes r : reassembly_inv r -> messages_size (messages r) = r.(r_reassembly_bytes).
Proof.
  intros [Hw Ht He _]. rewrite (wf_reassembly_bytes _ Hw). unfold messages_size, messages.
  etransitivity; [exact (table_sum re_active re_key partial_of (fun p => parts_size p.(pa_parts)) _ Ht)|].
  f_equal. apply map_ext_in. intros e Hin%list_elem_of_In. rewrite list.Forall_forall in He. symmetry. now apply weight_parts, He.
Qed.

Lemma find_messages r source header epoch :
  reassembly_inv r ->
  let k := header_key source header epoch in
  match melodi_reassembly_find r source header.(data_common).(identity_generation) epoch header.(data_common).(message_id) with
  | Some i => exists e, r.(r_reassemblies) !! i = Some e /\
      (e.(re_active) = true /\ re_key e = k /\ messages r !! k = Some (partial_of e) \/
       e.(re_active) = false /\ messages r !! k = None /\ (size (messages r) < MELODI_REASSEMBLY_LIMIT)%nat)
  | None => messages r !! k = None /\ ~ (size (messages r) < MELODI_REASSEMBLY_LIMIT)%nat
  end.
Proof.
  intros [Hw Ht _ _]. cbv zeta. unfold melodi_reassembly_find, messages. set (k := header_key source header epoch).
  pose proof (slot_search_table re_active re_key partial_of (r_reassemblies r) k Ht) as Hs.
  rewrite (wf_reassemblies _ Hw) in Hs.
  rewrite (slot_search_ext re_active _ (fun e => bool_decide (re_key e = k))).
  2:{ intros e. apply eq_true_iff_eq. rewrite bool_decide_eq_true, !andb_true_iff, !Z.eqb_eq. unfold node_eqb, k, re_key, header_key.
      rewrite bool_decide_eq_true. split; [intros [[[-> ->] ->] ->]; reflexivity|now intros [= -> -> -> ->]]. }
  destruct (slot_search re_active _ _ 0 None) as [[i|] [j|]].
  1,2: destruct Hs as (e & He & Ha & Hk & Hm); exists e; split; [exact He|left; auto].
  - destruct Hs as (Hn & Hsz & e & He & Ha). exists e. split; [exact He|right; auto].
  - destruct Hs as [Hn Hsz]. split; [exact Hn|lia].
Qed.

(** Writing an entry in use, over the one of its message or a free one. *)
Lemma write_entry r i e e' bytes :
  reassembly_inv r -> r.(r_reassemblies) !! i = Some e ->
  (e.(re_active) = true /\ re_key e = re_key e' \/ e.(re_active) = false /\ messages r !! re_key e' = None) ->
  e'.(re_active) = true -> entry_ok e' ->
  bytes = r.(r_reassembly_bytes) - re_weight e + re_weight e' -> bytes <= MELODI_REASSEMBLY_BYTE_LIMIT ->
  let r' := set_r_reassembly_bytes bytes (set_r_reassemblies (<[i := e']> r.(r_reassemblies)) r) in
  reassembly_inv r' /\ messages r' = <[re_key e' := partial_of e']> (messages r).
Proof.
  intros [Hw Ht He Hl] Hi Hcase Ha Hok -> Hle. cbv zeta.
  destruct (table_insert re_active re_key partial_of (r_reassemblies r) i e e' (re_key e') Ht Hi Hcase Ha eq_refl) as [Ht' Hm'].
  split; [|exact Hm']. constructor; cbn [set_r_reassembly_bytes set_r_reassemblies r_reassemblies r_reassembly_bytes].
  - destruct Hw as [W1 W2 W3 W4 W5 W6 W7 W8 W9].
    constructor; cbn [set_r_reassembly_bytes set_r_reassemblies r_reassemblies r_reassembly_bytes r_receipts r_order_tx r_order_rx
      r_order_messages r_order_bytes]; try assumption.
    + now rewrite length_insert.
    + apply Forall_insert; [exact W6|]. rewrite weight_parts, Ha by (intros _; exact Hok). apply parts_size_nonneg.
    + now rewrite (sum_weight_insert re_weight _ i e e' Hi), W8.
  - exact Ht'.
  - apply Forall_insert; [exact He|intros _; exact Hok].
  - exact Hle.
Qed.

Lemma clear_entry r i e :
  reassembly_inv r -> r.(r_reassemblies) !! i = Some e -> e.(re_active) = true ->
  reassembly_inv (melodi_reassembly_clear r i) /\ messages (melodi_reassembly_clear r i) = delete (re_key e) (messages r).
Proof.
  intros [Hw Ht He Hl] Hi Ha.
  destruct (table_delete re_active re_key partial_of (r_reassemblies r) i e zero_reassembly (re_key e) Ht Hi Ha eq_refl eq_refl)
    as [Ht' Hm']. destruct Hw as [W1 W2 W3 W4 W5 W6 W7 W8 W9].
  destruct (clear_weight re_weight zero_reassembly (r_reassemblies r) i e _ W6 Hi eq_refl W8) as [H1 H2].
  assert (re_weight e = re_received_length e) as Ew by (unfold re_weight; now rewrite Ha). rewrite Ew in H1, H2.
  unfold melodi_reassembly_clear. rewrite Hi, Ha. cbn [negb]. rewrite H1, H2.
  pose proof (sum_weight_lower re_weight _ i e W6 Hi).
  split; [|exact Hm']. constructor; cbn [set_r_reassembly_bytes set_r_reassemblies r_reassemblies r_reassembly_bytes].
  - constructor; cbn [set_r_reassembly_bytes set_r_reassemblies r_reassemblies r_reassembly_bytes r_receipts r_order_tx r_order_rx
      r_order_messages r_order_bytes]; try assumption; [now rewrite length_insert| |reflexivity].
    apply Forall_insert; [exact W6|cbn; lia].
  - exact Ht'.
  - apply Forall_insert; [exact He|discriminate].
  - rewrite <- H2. assert (0 <= re_weight e) by (rewrite list.Forall_forall in W6; apply W6, list_elem_of_lookup; now exists i). lia.
Qed.

Lemma expire_shape jiffies r : receive_wf r ->
  let dead e := e.(re_active) && time_after_eq jiffies e.(re_expires) in
  let re := map (cleared dead zero_reassembly) r.(r_reassemblies) in
  melodi_reassembly_expire jiffies r =
  MkReceive (sumZ (map re_weight re)) re
    (map (cleared (fun e => e.(rc_active) && time_after_eq jiffies e.(rc_expires)) zero_receipt) r.(r_receipts))
    r.(r_order_tx) r.(r_order_rx) r.(r_order_messages) r.(r_order_bytes).
Proof.
  intros [W1 W2 W3 W4 W5 W6 W7 W8 W9]. cbv zeta. destruct r as [b re rc otx orx om ob].
  cbn [r_reassemblies r_receipts r_order_tx r_order_rx r_order_messages r_reassembly_bytes r_order_bytes] in *.
  unfold melodi_reassembly_expire. rewrite reassembly_loop; auto; [|now intros e [? _]%andb_true_iff]. cbv zeta.
  now rewrite receipt_loop by exact W2.
Qed.

Lemma cleared_sum {A} (w : A -> Z) c z l : w z = 0 -> Forall (fun x => 0 <= w x) l ->
  Forall (fun x => 0 <= w x) (map (cleared c z) l) /\ sumZ (map w (map (cleared c z) l)) <= sumZ (map w l).
Proof.
  intros Hz. induction 1 as [|x l Hx Hl [IH1 IH2]]; [split; [constructor|reflexivity]|]. cbn [map]. rewrite !sumZ_cons.
  unfold cleared at 1 3. destruct (c x); rewrite ?Hz; (split; [constructor; [lia|exact IH1]|lia]).
Qed.

Lemma expire_refines jiffies r : reassembly_inv r ->
  reassembly_inv (melodi_reassembly_expire jiffies r) /\
  messages (melodi_reassembly_expire jiffies r) = spec_expire jiffies (messages r).
Proof.
  intros [Hw Ht He Hl]. rewrite expire_shape by exact Hw. cbv zeta.
  set (dead := fun e : melodi_reassembly => re_active e && time_after_eq jiffies (re_expires e)).
  destruct (table_sweep re_active re_key partial_of dead (fun _ p => time_after_eq jiffies p.(pa_expires)) zero_reassembly
    (r_reassemblies r) Ht eq_refl) as [Ht' Hm']. { intros e Ha. unfold dead. now rewrite Ha. }
  destruct Hw as [W1 W2 W3 W4 W5 W6 W7 W8 W9].
  destruct (cleared_sum re_weight dead zero_reassembly (r_reassemblies r) eq_refl W6) as [Hpos Hle].
  split; [|exact Hm']. constructor; cbn [r_reassemblies r_reassembly_bytes].
  - constructor; cbn [r_reassemblies r_reassembly_bytes r_receipts r_order_tx r_order_rx r_order_messages r_order_bytes];
      rewrite ?length_map; auto.
  - exact Ht'.
  - apply Forall_map, (list.Forall_impl _ _ _ He). intros e H. unfold cleared. destruct (dead e); [discriminate|exact H].
  - rewrite W8 in Hl. lia.
Qed.

Lemma schedule_receive msecs jiffies now_ms melodi :
  (melodi_reassembly_schedule msecs jiffies now_ms melodi).(d_receive) = melodi.(d_receive).
Proof. unfold melodi_reassembly_schedule. now destruct (_ =? 0). Qed.

Lemma received_parts e index : entry_ok e -> 0 <= index < 64 ->
  has e.(re_received) (bit index) = match parts_of e !! Z.to_nat index with Some (Some _) => true | _ => false end.
Proof.
  intros Hok Hi. rewrite has_bit_testbit, <- (parts_bitmap_of e Hok) by lia.
  rewrite <- parts_bitmap_testbit, Z2Nat.id by (rewrite ?length_parts, ?(ok_slots e Hok); lia). reflexivity.
Qed.

Lemma parts_size_content l : parts_size l = zlen (parts_content l).
Proof.
  unfold parts_size, parts_content, zlen. induction l as [|o l IH]; [reflexivity|]. cbn [map concat]. rewrite sumZ_cons, length_app, IH.
  unfold part_size, zlen. lia.
Qed.

(** No fragment is filed past the count. *)
Lemma content_count e : entry_ok e ->
  parts_content (take (Z.to_nat e.(re_fragment_count)) (parts_of e)) = parts_content (parts_of e).
Proof.
  intros Hok. rewrite <- (take_drop (Z.to_nat (re_fragment_count e)) (parts_of e)) at 2.
  unfold parts_content. rewrite map_app, concat_app. match goal with |- ?x = _ ++ concat (map _ ?l) => enough (concat (map (default []) l) = []) as -> by now rewrite app_nil_r end.
  apply concat_nil_Forall, Forall_map, list.Forall_forall. intros o (i & Hi)%list_elem_of_lookup. rewrite lookup_drop, parts_lookup in Hi.
  destruct (re_fragments e !! _) as [f|]; [|discriminate]. injection Hi as <-.
  rewrite (uint_testbit_high (re_fragment_count e)); [reflexivity| |exact (ok_received e Hok)|]; pose proof (ok_count e Hok); lia.
Qed.

Lemma copy_content e memory :
  entry_ok e -> parts_complete e.(re_fragment_count) (parts_of e) = true ->
  parts_size (parts_of e) = e.(re_logical_length) -> e.(re_logical_length) <= zlen memory ->
  load 0 (Z.to_nat e.(re_logical_length)) (reassembly_copy e memory).1 = parts_content (parts_of e).
Proof.
  intros Hok Hc Hl Hm. unfold reassembly_copy. pose proof (ok_count e Hok) as Hn.
  pose proof (parts_size_content (parts_of e)) as Hs. pose proof (content_count e Hok) as Ht.
  rewrite copy_loop; [|exact Hok|lia| |rewrite Ht; unfold zlen in *; lia].
  - cbv zeta. cbn [fst]. rewrite Ht. unfold load. rewrite drop_0. apply take_app_length'. unfold zlen in *. lia.
  - intros i Hi. unfold parts_complete in Hc. rewrite forallb_forall in Hc.
    destruct (lookup_lt_is_Some_2 (re_fragments e) i) as [f Hf]; [rewrite (ok_slots e Hok); lia|].
    assert (take (Z.to_nat (re_fragment_count e)) (parts_of e) !! i =
      Some (if Z.testbit (re_received e) (Z.of_nat i) then Some (fragment_content f) else None)) as Hp
      by (now rewrite lookup_take_lt, parts_lookup, Hf by lia).
    apply list_elem_of_lookup_2, list_elem_of_In, Hc in Hp. now destruct (Z.testbit _ _).
Qed.

Lemma file_refines msecs jiffies now_ms memory melodi index entry header fragment :
  let r := melodi.(d_receive) in
  reassembly_inv r -> r.(r_reassemblies) !! index = Some entry -> entry.(re_active) = true ->
  entry.(re_fragment_count) = header.(fragment_count) -> entry.(re_logical_length) = header.(logical_length) ->
  header_ok header -> header.(data_common).(payload_length) <= zlen fragment ->
  (forall mem, memory = Some mem -> header.(logical_length) <= zlen mem) ->
  let res := reassembly_file msecs jiffies now_ms memory melodi index entry header fragment in
  reassembly_inv res.1.(d_receive) /\
  (messages res.1.(d_receive), seen res.2) =
    spec_file (bool_decide (memory <> None)) (messages r) (re_key entry) (partial_of entry) (Z.to_nat header.(fragment_index))
      (load 0 (Z.to_nat header.(data_common).(payload_length)) fragment).
Proof.
  cbv zeta. intros Hinv Hi Ha Hcount Hlen (Hidx & Hn & Hp & Hll) Hfrag Hmem. set (r := melodi.(d_receive)) in *.
  pose proof (ri_entries r Hinv) as He. rewrite list.Forall_forall in He.
  pose proof (He entry ltac:(apply list_elem_of_lookup; now exists index) Ha) as Hok.
  assert (messages r !! re_key entry = Some (partial_of entry)) as Hm by (apply table_lookup; [apply Hinv|]; now exists index, entry).
  unfold spec_file, reassembly_file. fold r. set (len := payload_length (data_common header)) in *.
  cbn [partial_of pa_parts pa_count pa_length pa_source_service pa_destination_service pa_metadata].
  rewrite (insert_id _ _ _ Hm), (messages_bytes r Hinv).
  assert (0 <= len < 65536) as Hlr by exact Hp.
  pose proof (content_size (MkFragment fragment len) ltac:(cbn; lia)) as Hcs. unfold fragment_content in Hcs. cbn [fr_length fr_data] in Hcs.
  rewrite (received_parts entry (fragment_index header) Hok ltac:(lia)).
  assert (0 <= r_reassembly_bytes r) as Hb0.
  { rewrite <- (messages_bytes r Hinv). apply sumZ_nonneg, Forall_map, list.Forall_true. intros kp. apply parts_size_nonneg. }
  pose proof (ri_limit r Hinv) as Hlim.
  destruct (lookup_lt_is_Some_2 (parts_of entry) (Z.to_nat (fragment_index header))) as [o Ho];
    [rewrite length_parts, (ok_slots entry Hok); lia|]. rewrite Ho. destruct o as [c|]; [split; [exact Hinv|reflexivity]|].
  rewrite Hcs, (wrap_id 32 (_ - _)) by (unfold uint; lia).
  replace (MELODI_REASSEMBLY_BYTE_LIMIT <? r_reassembly_bytes r + len) with (MELODI_REASSEMBLY_BYTE_LIMIT - r_reassembly_bytes r <? len)
    by (apply eq_true_iff_eq; rewrite !Z.ltb_lt; lia).
  destruct (Z.ltb_spec (MELODI_REASSEMBLY_BYTE_LIMIT - r_reassembly_bytes r) len) as [|Hroom]; [split; [exact Hinv|reflexivity]|].
  assert (Z.testbit (re_received entry) (fragment_index header) = false) as Hbit.
  { rewrite <- has_bit_testbit, (received_parts entry _ Hok), Ho by lia. reflexivity. }
  assert (re_weight entry = parts_size (parts_of entry)) as Hw by (rewrite weight_parts, Ha by (intros; exact Hok); reflexivity).
  pose proof (sum_weight_lower re_weight _ index entry (wf_re_weight _ (ri_wf r Hinv)) Hi) as Hsum.
  rewrite <- (wf_reassembly_bytes _ (ri_wf r Hinv)) in Hsum.
  pose proof (filed_ok entry (fragment_index header) len fragment Hok ltac:(lia) Hbit ltac:(lia) Hfrag ltac:(lia)) as Hok'.
  pose proof (parts_filed entry (fragment_index header) len fragment Hok ltac:(lia)) as HP.
  set (entry' := file_fragment (fragment_index header) len fragment entry) in *.
  change (fragment_content (MkFragment fragment len)) with (load 0 (Z.to_nat len) fragment) in HP.
  set (parts' := <[Z.to_nat (fragment_index header) := Some (load 0 (Z.to_nat len) fragment)]> (parts_of entry)) in *.
  assert (re_weight entry' = re_weight entry + len) as Hw'.
  { rewrite (weight_parts entry') by (intros; exact Hok'). change (re_active entry') with (re_active entry). rewrite Ha.
    change (pa_parts (partial_of entry')) with (parts_of entry'). rewrite HP, Hw. unfold parts'. rewrite (parts_size_insert _ _ _ _ Ho), part_size_None, part_size_Some, Hcs. lia. }
  change (r_reassembly_bytes (set_r_reassemblies (<[index:=entry']> (r_reassemblies r)) r)) with (r_reassembly_bytes r).
  rewrite (wrap_id 32 (_ + len)) by (unfold uint; lia).
  destruct (write_entry r index entry entry' (r_reassembly_bytes r + len) Hinv Hi ltac:(left; now split) Ha Hok' ltac:(lia) ltac:(lia))
    as [Hinv' Hm']. change (re_key entry') with (re_key entry) in Hm'.
  set (r' := set_r_reassembly_bytes _ _) in *.
  assert (partial_of entry' = set_parts parts' (partial_of entry)) as Hpart by (unfold partial_of at 1; now rewrite HP).
  rewrite (complete_exact entry' Hok'), HP. change (re_fragment_count entry') with (re_fragment_count entry).
  rewrite <- (parts_bitmap_of entry' Hok'), HP, (ok_length entry' Hok'), HP.
  destruct (parts_complete (re_fragment_count entry) parts') eqn:Hcomp; cbn [negb].
  2:{ cbn [fst snd seen content]. rewrite schedule_receive. cbn [d_receive set_d_receive]. split; [exact Hinv'|].
      now rewrite Hm', Hpart. }
  assert (r_reassemblies r' !! index = Some entry') as Hi'.
  { cbn [r' set_r_reassembly_bytes set_r_reassemblies r_reassemblies]. apply list_lookup_insert_eq, (lookup_lt_Some _ _ _ Hi). }
  destruct (clear_entry r' index entry' Hinv' Hi' Ha) as [Hinv2 Hm2]. change (re_key entry') with (re_key entry) in Hm2.
  rewrite Hm', delete_insert_eq in Hm2. change (re_logical_length entry') with (re_logical_length entry).
  destruct (Z.eqb_spec (parts_size parts') (re_logical_length entry)) as [Hsize|]; cbn [negb].
  2:{ cbn [fst snd seen set_d_receive d_receive]. split; [exact Hinv2|]. now rewrite Hm2. }
  destruct memory as [mem|]; cbn [fst snd seen content set_d_receive d_receive]; (split; [exact Hinv2|]); rewrite Hm2.
  - rewrite bool_decide_eq_true_2 by discriminate. cbn [co_source co_source_service co_destination_service co_metadata co_length co_payload].
    pose proof (copy_content entry' mem Hok') as Hcopy. rewrite HP in Hcopy.
    change (re_fragment_count entry') with (re_fragment_count entry) in Hcopy.
    change (re_logical_length entry') with (re_logical_length entry) in Hcopy.
    rewrite (Hcopy Hcomp Hsize ltac:(rewrite Hlen; now apply Hmem)). reflexivity.
  - now rewrite bool_decide_eq_false_2 by (intros H; now apply H).
Qed.

Lemma agrees_consistent e header : melodi_reassembly_consistent e header = agrees (partial_of e) header.
Proof.
  unfold melodi_reassembly_consistent, agrees. cbn [partial_of pa_length pa_source_service pa_destination_service pa_count pa_flags
    pa_mode pa_priority pa_marker]. apply eq_true_iff_eq. rewrite bool_decide_eq_true, !andb_true_iff, !Z.eqb_eq.
  split; [intros [[[[[[[-> ->] ->] ->] ->] ->] ->] ->]; reflexivity|now intros [= -> -> -> -> -> -> -> ->]].
Qed.

Lemma start_ok msecs jiffies source header epoch metadata :
  header_ok header -> entry_ok (reassembly_start msecs jiffies source header epoch metadata) /\
  partial_of (reassembly_start msecs jiffies source header epoch metadata) = fresh_partial msecs jiffies header metadata.
Proof.
  intros (Hidx & Hn & Hp & Hl).
  assert (parts_of (reassembly_start msecs jiffies source header epoch metadata) = replicate 64 None) as HP.
  { apply list_eq. intros i. rewrite parts_lookup. cbn [reassembly_start re_fragments re_received]. rewrite Z.testbit_0_l.
    destruct (decide (i < 64)%nat); [rewrite !lookup_replicate_2 by lia; reflexivity|].
    now rewrite !lookup_ge_None_2 by (rewrite length_replicate; lia). }
  split; [|unfold partial_of, fresh_partial; now rewrite HP].
  constructor; cbn [reassembly_start re_fragments re_received re_fragment_count re_received_length].
  - lia.
  - pose proof (Z.pow_pos_nonneg 2 (fragment_count header)). lia.
  - apply length_replicate.
  - intros i f [-> _]%lookup_replicate. now rewrite Z.testbit_0_l.
  - rewrite HP. reflexivity.
Qed.

(** One fragment, as the code and as the map see it. *)
Lemma add_refines msecs jiffies now_ms memory melodi source header epoch metadata fragment :
  reassembly_inv melodi.(d_receive) -> header_ok header -> header.(data_common).(payload_length) <= zlen fragment ->
  (forall mem, memory = Some mem -> header.(logical_length) <= zlen mem) ->
  let res := melodi_reassembly_add msecs jiffies now_ms memory melodi source header epoch metadata fragment in
  reassembly_inv res.1.(d_receive) /\
  (messages res.1.(d_receive), seen res.2) =
    spec_add msecs jiffies (bool_decide (memory <> None)) (messages melodi.(d_receive)) (header_key source header epoch) header
      metadata (load 0 (Z.to_nat header.(data_common).(payload_length)) fragment).
Proof.
  cbv zeta. intros Hinv Hh Hfrag Hmem. unfold melodi_reassembly_add, spec_add.
  destruct (expire_refines jiffies _ Hinv) as [Hinv1 Hm1]. rewrite <- Hm1. clear Hm1.
  generalize dependent (melodi_reassembly_expire jiffies (d_receive melodi)). intros r Hinv1.
  pose proof (find_messages r source header epoch Hinv1) as Hf. cbv zeta in Hf. set (k := header_key source header epoch) in *.
  destruct (melodi_reassembly_find r source _ epoch _) as [index|]; cbn [mbind option_bind].
  2:{ destruct Hf as [-> Hfull]. rewrite bool_decide_eq_false_2 by exact Hfull. now split. }
  destruct Hf as (e & He & Hcase). rewrite He. cbn [fmap option_fmap option_map].
  pose proof (ri_entries r Hinv1) as Hall. rewrite list.Forall_forall in Hall.
  specialize (Hall e ltac:(apply list_elem_of_lookup; now exists index)).
  destruct Hcase as [(Ha & Hk & Hm)|(Ha & Hm & Hsz)]; rewrite Hm, Ha; cbn [andb].
  - rewrite agrees_consistent. destruct (agrees (partial_of e) header) eqn:Hag; cbn [negb].
    2:{ destruct (clear_entry r index e Hinv1 He Ha) as [H1 H2]. cbn [fst snd seen d_receive set_d_receive]. split; [exact H1|].
        now rewrite H2, Hk. }
    rewrite <- agrees_consistent in Hag. unfold melodi_reassembly_consistent in Hag. rewrite !andb_true_iff, !Z.eqb_eq in Hag.
    rewrite (list_insert_id _ _ _ He). rewrite <- Hk.
    replace (set_r_reassemblies (r_reassemblies r) r) with r by now destruct r.
    refine (file_refines msecs jiffies now_ms memory (set_d_receive r melodi) index e header fragment Hinv1 He Ha _ _ Hh Hfrag Hmem); tauto.
  - rewrite bool_decide_eq_true_2 by exact Hsz.
    destruct (start_ok msecs jiffies source header epoch metadata Hh) as [Hok Hp]. rewrite <- Hp.
    set (e' := reassembly_start msecs jiffies source header epoch metadata) in *.
    assert (re_weight e' = 0 /\ re_weight e = 0) as [W1 W2] by (split; [reflexivity|unfold re_weight; now rewrite Ha]).
    destruct (write_entry r index e e' (r_reassembly_bytes r) Hinv1 He ltac:(right; now split) eq_refl Hok ltac:(lia) (ri_limit r Hinv1))
      as [Hinv2 Hm2].
    replace (set_r_reassembly_bytes (r_reassembly_bytes r) (set_r_reassemblies (<[index:=e']> (r_reassemblies r)) r))
      with (set_r_reassemblies (<[index:=e']> (r_reassemblies r)) r) in Hinv2, Hm2 by now destruct r.
    set (r2 := set_r_reassemblies (<[index:=e']> (r_reassemblies r)) r) in *.
    assert (r_reassemblies r2 !! index = Some e') as He2 by (apply list_lookup_insert_eq, (lookup_lt_Some _ _ _ He)).
    pose proof (file_refines msecs jiffies now_ms memory (set_d_receive r2 melodi) index e' header fragment Hinv2 He2 eq_refl eq_refl eq_refl Hh
      Hfrag Hmem) as [H1 H2]. cbn [d_receive set_d_receive] in H2. split; [exact H1|]. rewrite H2, Hm2.
    change (re_key e') with k. unfold spec_file. rewrite insert_insert_eq.
    destruct (pa_parts (partial_of e') !! _) as [[c|]|]; try reflexivity;
      (destruct (_ <? _); [reflexivity|]); rewrite insert_insert_eq, delete_insert_eq; reflexivity.
Qed.
