(* ===== verification/Arrivals.v ===== *)
(** * Reassembly over runs

    Sequences of arriving fragments, expiries and ended sessions: that the table
    follows its specification throughout, that only what was sent is delivered, and
    that what was sent is. *)
From stdpp Require Import gmap.
From S2P Require Import Prelude Buffer Uapi Wire Slots Device Peers Reassembly.

(** Arrivals of fragments, and what else happens to the table in between. *)
Record arrival := MkArrival {
  ar_jiffies : Z;
  ar_now_ms : Z;
  ar_memory : option bytes;
  ar_source : melodi_node_id;
  ar_header : melodi_wire_data;
  ar_epoch : Z;
  ar_metadata : melodi_rx_meta;
  ar_fragment : bytes;
}.

Definition arrival_key (a : arrival) : message_key := header_key a.(ar_source) a.(ar_header) a.(ar_epoch).
Definition arrival_content (a : arrival) : bytes :=
  load 0 (Z.to_nat a.(ar_header).(data_common).(payload_length)) a.(ar_fragment).

Definition arrival_ok (a : arrival) : Prop :=
  header_ok a.(ar_header) /\ a.(ar_header).(data_common).(payload_length) <= zlen a.(ar_fragment) /\
  forall mem, a.(ar_memory) = Some mem -> a.(ar_header).(logical_length) <= zlen mem.

Inductive table_event : Type :=
| Arrive (a : arrival)
| Expire (jiffies : Z)
| Forget (node : melodi_node_id).

Section Runs.
  Context (msecs_to_jiffies : Z -> Z).

Definition table_step (melodi : melodi_device) (e : table_event) : melodi_device * option (result reassembled) :=
  match e with
  | Arrive a =>
      let '(melodi, r) := melodi_reassembly_add msecs_to_jiffies a.(ar_jiffies) a.(ar_now_ms) a.(ar_memory) melodi a.(ar_source)
                            a.(ar_header) a.(ar_epoch) a.(ar_metadata) a.(ar_fragment) in (melodi, Some r)
  | Expire jiffies => (set_d_receive (melodi_reassembly_expire jiffies melodi.(d_receive)) melodi, None)
  | Forget node => (set_d_receive (melodi_data_peer_reset_locked melodi.(d_receive) node) melodi, None)
  end.

Fixpoint table_run (melodi : melodi_device) (l : list table_event) : melodi_device * list (option (result reassembled)) :=
  match l with
  | [] => (melodi, [])
  | e :: l =>
      let '(melodi, r) := table_step melodi e in
      let '(melodi, rs) := table_run melodi l in (melodi, r :: rs)
  end.

Definition event_ok (e : table_event) : Prop := match e with Arrive a => arrival_ok a | _ => True end.

(** The sender's message: the fragments that arrive under its key are its parts. *)
Definition carries (k : message_key) (parts : list bytes) (e : table_event) : Prop :=
  match e with
  | Arrive a => arrival_key a = k ->
      a.(ar_header).(fragment_count) = zlen parts /\
      parts !! Z.to_nat a.(ar_header).(fragment_index) = Some (arrival_content a)
  | _ => True
  end.

(** What the table holds under a key comes from a message. *)
Definition comes_from (parts : list bytes) (p : partial) : Prop :=
  p.(pa_count) = zlen parts /\ length p.(pa_parts) = 64%nat /\
  forall i c, p.(pa_parts) !! i = Some (Some c) -> parts !! i = Some c.

Lemma complete_content parts p :
  comes_from parts p -> parts_complete p.(pa_count) p.(pa_parts) = true -> (length parts <= 64)%nat ->
  parts_content p.(pa_parts) = concat parts.
Proof.
  intros (Hn & Hl & Hin) Hc H64. unfold parts_complete in Hc. rewrite Hn in Hc. unfold zlen in Hc. rewrite Nat2Z.id in Hc.
  rewrite forallb_forall in Hc.
  assert (p.(pa_parts) = map Some parts ++ replicate (64 - length parts) None) as ->.
  { apply list_eq. intros i. destruct (decide (i < length parts)%nat) as [Hlt|Hge].
    - rewrite lookup_app_l by now rewrite length_map. rewrite (list_lookup_fmap Some).
      destruct (lookup_lt_is_Some_2 (pa_parts p) i ltac:(lia)) as [o Ho]. rewrite Ho.
      assert (take (length parts) (pa_parts p) !! i = Some o) as Ht by now rewrite lookup_take_lt by lia.
      apply list_elem_of_lookup_2, list_elem_of_In, Hc in Ht. destruct o as [c|]; [|discriminate]. now rewrite (Hin i c Ho).
    - rewrite lookup_app_r by (rewrite length_map; lia). rewrite length_map.
      destruct (decide (i < 64)%nat) as [H6|H6].
      + rewrite lookup_replicate_2 by lia. destruct (lookup_lt_is_Some_2 (pa_parts p) i ltac:(lia)) as [o Ho]. rewrite Ho.
        destruct o as [c|]; [|reflexivity]. apply Hin, lookup_lt_Some in Ho. lia.
      + rewrite !lookup_ge_None_2; [reflexivity|rewrite length_replicate; lia|lia]. }
  unfold parts_content. rewrite map_app, concat_app, map_map, map_id.
  assert (forall n, concat (map (default []) (replicate n (@None (list Z)))) = []) as -> by (induction n; auto).
  apply app_nil_r.
Qed.

Lemma file_comes_from has_memory m k p index c parts m' r :
  comes_from parts p -> (length parts <= 64)%nat -> parts !! index = Some c ->
  spec_file has_memory m k p index c = (m', r) ->
  (forall q, m' !! k = Some q -> comes_from parts q) /\
  (forall b msg, r = Ok (Complete b msg) -> msg.(co_payload) = concat parts).
Proof.
  intros (Hn & Hl & Hin) H64 Hc H. unfold spec_file in H.
  assert (forall m q, <[k:=p]> m !! k = Some q -> comes_from parts q) as Hsame
    by (intros m0 q; rewrite lookup_insert_eq; intros [= <-]; now split).
  assert (comes_from parts (set_parts (<[index := Some c]> (pa_parts p)) p)) as Hnew.
  { split; [exact Hn|]. cbn [set_parts pa_parts]. split; [now rewrite length_insert|]. intros i c0.
    destruct (decide (i = index)) as [->|Hne]; [|rewrite list_lookup_insert_ne by auto; apply Hin].
    rewrite list_lookup_insert_eq by (apply lookup_lt_Some in Hc; lia). congruence. }
  pose proof (complete_content parts _ Hnew) as Hcont. cbn [set_parts pa_parts pa_count] in Hcont.
  destruct (pa_parts p !! index) as [[o|]|]; [injection H as <- <-; split; [apply Hsame|discriminate]| |].
  all: destruct (_ <? _); [injection H as <- <-; split; [apply Hsame|discriminate]|].
  all: destruct (parts_complete (pa_count p) _); cbn [negb] in H;
    [|injection H as <- <-; split; [intros q; rewrite lookup_insert_eq; intros [= <-]; exact Hnew|discriminate]].
  all: destruct (negb _); [injection H as <- <-; split; [intros q; now rewrite lookup_delete_eq|discriminate]|].
  all: destruct has_memory; injection H as <- <-; (split; [intros q; now rewrite lookup_delete_eq|]); [|discriminate].
  all: intros b msg [= <- <-]; cbn [co_payload]; now apply Hcont.
Qed.

Lemma spec_file_other has_memory m k p index c k' : k' <> k -> (spec_file has_memory m k p index c).1 !! k' = m !! k'.
Proof.
  intros Hne. unfold spec_file. destruct (pa_parts p !! index) as [[o|]|];
    repeat match goal with |- context [if ?b then _ else _] => destruct b end;
    cbn [fst]; rewrite ?lookup_insert_ne, ?lookup_delete_ne by congruence; reflexivity.
Qed.

Lemma spec_add_other jiffies has_memory m k header metadata c k' : k' <> k ->
  (spec_add msecs_to_jiffies jiffies has_memory m k header metadata c).1 !! k' = spec_expire jiffies m !! k'.
Proof.
  intros Hne. unfold spec_add. destruct (spec_expire jiffies m !! k) as [p|].
  - destruct (agrees p header); [now apply spec_file_other|]. cbn [fst]. now rewrite lookup_delete_ne by congruence.
  - destruct (bool_decide _); [now apply spec_file_other|reflexivity].
Qed.

Lemma spec_expire_lookup jiffies m k p : spec_expire jiffies m !! k = Some p -> m !! k = Some p.
Proof. unfold spec_expire. rewrite map_lookup_filter_Some. tauto. Qed.

(** A fragment of the message arrives. *)
Lemma spec_add_comes_from jiffies has_memory m k header metadata c parts m' r :
  (forall p, m !! k = Some p -> comes_from parts p) -> (length parts <= 64)%nat ->
  header.(fragment_count) = zlen parts -> parts !! Z.to_nat header.(fragment_index) = Some c ->
  spec_add msecs_to_jiffies jiffies has_memory m k header metadata c = (m', r) ->
  (forall q, m' !! k = Some q -> comes_from parts q) /\
  (forall b msg, r = Ok (Complete b msg) -> msg.(co_payload) = concat parts).
Proof.
  intros Hm H64 Hn Hc H. unfold spec_add in H. destruct (spec_expire jiffies m !! k) as [p|] eqn:Hp.
  - apply spec_expire_lookup, Hm in Hp. destruct (agrees p header).
    + exact (file_comes_from _ _ _ _ _ _ _ _ _ Hp H64 Hc H).
    + injection H as <- <-. split; [intros q; now rewrite lookup_delete_eq|discriminate].
  - destruct (bool_decide _).
    + refine (file_comes_from _ _ _ _ _ _ _ _ _ _ H64 Hc H). split; [exact Hn|]. cbn [fresh_partial pa_parts].
      split; [apply length_replicate|]. intros i c0 [? _]%lookup_replicate. discriminate.
    + injection H as <- <-. split; [congruence|discriminate].
Qed.

(** Ending a session forgets the messages of its node. *)
Lemma forget_refines r node : reassembly_inv r ->
  reassembly_inv (melodi_data_peer_reset_locked r node) /\
  messages (melodi_data_peer_reset_locked r node) = filter (fun kp => bool_decide (kp.1.1.1.1 = node) = false) (messages r).
Proof.
  intros [Hw Ht He Hl]. pose proof (peer_forgotten_wf r node Hw) as Hw'. rewrite peer_reset_forgets by exact Hw.
  set (dead := fun e : melodi_reassembly => re_active e && node_eqb (re_source e) node).
  destruct (table_sweep re_active re_key partial_of dead (fun k _ => bool_decide (k.1.1.1 = node)) zero_reassembly
    (r_reassemblies r) Ht eq_refl) as [Ht' Hm']. { intros e Ha. unfold dead. now rewrite Ha. }
  destruct (cleared_sum re_weight dead zero_reassembly (r_reassemblies r) eq_refl (wf_re_weight _ Hw)) as [_ Hle].
  split; [|exact Hm']. constructor; [exact Hw'|exact Ht'| |].
  - apply Forall_map, (list.Forall_impl _ _ _ He). intros e H. fold dead. unfold cleared. destruct (dead e); [discriminate|exact H].
  - rewrite (wf_reassembly_bytes _ Hw'). pose proof (wf_reassembly_bytes _ Hw). etransitivity; [exact Hle|]. lia.
Qed.

Lemma table_step_sound k parts melodi e :
  reassembly_inv melodi.(d_receive) -> event_ok e -> carries k parts e -> (length parts <= 64)%nat ->
  (forall p, messages melodi.(d_receive) !! k = Some p -> comes_from parts p) ->
  let '(melodi', r) := table_step melodi e in
  reassembly_inv melodi'.(d_receive) /\
  (forall p, messages melodi'.(d_receive) !! k = Some p -> comes_from parts p) /\
  (forall a b msg, e = Arrive a -> arrival_key a = k -> r = Some (Ok (Complete b msg)) ->
     load 0 (Z.to_nat msg.(co_length)) msg.(co_payload) = concat parts).
Proof.
  intros Hinv Hok Hcar H64 Hm. destruct e as [a|j|node]; cbn [table_step].
  - destruct Hok as (Hh & Hf & Hmem).
    destruct (add_refines msecs_to_jiffies a.(ar_jiffies) a.(ar_now_ms) a.(ar_memory) melodi a.(ar_source) a.(ar_header) a.(ar_epoch)
      a.(ar_metadata) a.(ar_fragment) Hinv Hh Hf Hmem) as [Hinv' Hspec].
    destruct (melodi_reassembly_add _ _ _ _ _ _ _ _ _ _) as [melodi' r]. cbn [fst snd] in *. split; [exact Hinv'|].
    change (header_key (ar_source a) (ar_header a) (ar_epoch a)) with (arrival_key a) in Hspec.
    change (load 0 _ (ar_fragment a)) with (arrival_content a) in Hspec. symmetry in Hspec.
    destruct (decide (arrival_key a = k)) as [Hk|Hk].
    + destruct (Hcar Hk) as [Hn Hc]. rewrite Hk in Hspec.
      destruct (spec_add_comes_from _ _ _ _ _ _ _ _ _ _ Hm H64 Hn Hc Hspec) as [H1 H2]. split; [exact H1|].
      intros a0 b msg _ _ [= ->]. exact (H2 b _ eq_refl).
    + split; [|congruence]. intros p Hp. apply Hm, (spec_expire_lookup a.(ar_jiffies)).
      pose proof (spec_add_other a.(ar_jiffies) (bool_decide (ar_memory a <> None)) (messages (d_receive melodi)) (arrival_key a)
        a.(ar_header) a.(ar_metadata) (arrival_content a) k ltac:(congruence)) as Ho.
      rewrite Hspec in Ho. cbn [fst] in Ho. congruence.
  - destruct (expire_refines j _ Hinv) as [H1 H2]. cbn [set_d_receive d_receive]. split; [exact H1|]. split; [|discriminate].
    intros p. rewrite H2. intros Hp. now apply Hm, (spec_expire_lookup j).
  - destruct (forget_refines _ node Hinv) as [H1 H2]. cbn [set_d_receive d_receive]. split; [exact H1|]. split; [|discriminate].
    intros p. rewrite H2, map_lookup_filter_Some. intros [Hp _]. now apply Hm.
Qed.

Lemma table_run_sound k parts l : forall melodi,
  reassembly_inv melodi.(d_receive) -> Forall event_ok l -> Forall (carries k parts) l -> (length parts <= 64)%nat ->
  (forall p, messages melodi.(d_receive) !! k = Some p -> comes_from parts p) ->
  let '(melodi', rs) := table_run melodi l in
  reassembly_inv melodi'.(d_receive) /\
  forall i a b msg, l !! i = Some (Arrive a) -> arrival_key a = k -> rs !! i = Some (Some (Ok (Complete b msg))) ->
    load 0 (Z.to_nat msg.(co_length)) msg.(co_payload) = concat parts.
Proof.
  induction l as [|e l IH]; intros melodi Hinv Hok Hcar H64 Hm; cbn [table_run]; [split; [exact Hinv|discriminate]|].
  inversion_clear Hok as [|? ? He Hl]. inversion_clear Hcar as [|? ? Hc Hcl].
  pose proof (table_step_sound k parts melodi e Hinv He Hc H64 Hm) as Hs. destruct (table_step melodi e) as [m1 r].
  destruct Hs as (Hinv1 & Hm1 & Hr). specialize (IH m1 Hinv1 Hl Hcl H64 Hm1). destruct (table_run m1 l) as [m2 rs].
  destruct IH as [Hinv2 IH]. split; [exact Hinv2|]. intros [|i] a b msg Ha Hk Hrs.
  - injection Ha as ->. injection Hrs as ->. exact (Hr a b msg eq_refl Hk eq_refl).
  - exact (IH i a b msg Ha Hk Hrs).
Qed.

(** *** All fragments of a message *)

Lemma messages_size_new m k p : m !! k = None -> messages_size (<[k := p]> m) = parts_size p.(pa_parts) + messages_size m.
Proof. intros H. unfold messages_size. rewrite (map_to_list_insert m k p H). cbn [map]. now rewrite sumZ_cons. Qed.

Lemma messages_size_update m k p p' : m !! k = Some p ->
  messages_size (<[k := p']> m) = messages_size m - parts_size p.(pa_parts) + parts_size p'.(pa_parts).
Proof.
  intros H. rewrite <- (insert_delete_id m k p H) at 2. rewrite <- (insert_delete_eq m k p').
  rewrite !messages_size_new by apply lookup_delete_eq. lia.
Qed.

Lemma messages_size_expire jiffies m : messages_size (spec_expire jiffies m) <= messages_size m.
Proof.
  unfold spec_expire. induction m as [|k p m Hk IH] using map_ind; [now rewrite map_filter_empty|].
  rewrite messages_size_new by exact Hk. destruct (decide (time_after_eq jiffies p.(pa_expires) = false)) as [Hd|Hd].
  - rewrite map_filter_insert_True by exact Hd. rewrite messages_size_new by (apply map_lookup_filter_None; now left). lia.
  - rewrite map_filter_insert_False by exact Hd. rewrite delete_id by exact Hk. pose proof (parts_size_nonneg p.(pa_parts)). lia.
Qed.

(** What has arrived are the parts with an index in [seen]. *)
Definition arrived (parts : list bytes) (seen : list nat) (p : partial) : Prop :=
  p.(pa_count) = zlen parts /\ p.(pa_length) = zlen (concat parts) /\
  forall i, (i < 64)%nat -> p.(pa_parts) !! i = Some (if decide (i ∈ seen) then parts !! i else None).

Lemma arrived_length parts seen p : arrived parts seen p -> (64 <= length p.(pa_parts))%nat.
Proof. intros (_ & _ & H). specialize (H 63%nat ltac:(lia)). apply lookup_lt_Some in H. lia. Qed.

Lemma arrived_complete parts seen p : arrived parts seen p -> (length parts <= 64)%nat ->
  parts_complete p.(pa_count) p.(pa_parts) = true <-> Forall (fun i => i ∈ seen) (seq 0 (length parts)).
Proof.
  rewrite list.Forall_forall. setoid_rewrite elem_of_seq. intros Harr H64. pose proof (arrived_length _ _ _ Harr) as Hlen. destruct Harr as (Hn & _ & Hp).
  unfold parts_complete. rewrite Hn, forallb_forall. unfold zlen. rewrite Nat2Z.id. split.
  - intros H i [_ Hi]. cbn in Hi. assert (take (length parts) (pa_parts p) !! i = Some (if decide (i ∈ seen) then parts !! i else None)) as Ht
      by (rewrite lookup_take_lt by lia; apply Hp; lia).
    apply list_elem_of_lookup_2, list_elem_of_In, H in Ht. now destruct (decide (i ∈ seen)).
  - intros H o (i & [Hi Hlt]%lookup_take_Some)%list_elem_of_In%list_elem_of_lookup.
    rewrite Hp in Hi by lia. injection Hi as <-. rewrite decide_True by (apply H; lia).
    now destruct (lookup_lt_is_Some_2 parts i Hlt) as [c ->].
Qed.

Lemma arrived_comes_from parts seen p : arrived parts seen p -> length p.(pa_parts) = 64%nat -> comes_from parts p.
Proof.
  intros (Hn & _ & Hp) Hl. split; [exact Hn|]. split; [exact Hl|]. intros i c Hi. pose proof (lookup_lt_Some _ _ _ Hi).
  rewrite Hp in Hi by lia. injection Hi as Hi. destruct (decide (i ∈ seen)); [exact Hi|discriminate].
Qed.

(** One more part. *)
Lemma file_step m k p parts seen j c :
  arrived parts seen p -> length p.(pa_parts) = 64%nat -> (length parts <= 64)%nat -> parts !! j = Some c -> j ∉ seen ->
  messages_size (<[k := p]> m) + zlen c <= MELODI_REASSEMBLY_BYTE_LIMIT ->
  let p' := set_parts (<[j := Some c]> p.(pa_parts)) p in
  arrived parts (j :: seen) p' /\
  spec_file true m k p j c =
  if decide (Forall (fun i => i ∈ j :: seen) (seq 0 (length parts)))
  then (delete k m, Ok (Complete (parts_bitmap p'.(pa_parts))
          (MkCompleted k.1.1.1 p.(pa_source_service) p.(pa_destination_service) p.(pa_metadata) (concat parts) p.(pa_length))))
  else (<[k := p']> m, Ok (Partial (parts_bitmap p'.(pa_parts)))).
Proof.
  intros Harr Hl H64 Hc Hj Hroom. cbv zeta. pose proof (lookup_lt_Some _ _ _ Hc) as Hjl.
  assert (arrived parts (j :: seen) (set_parts (<[j := Some c]> p.(pa_parts)) p)) as Harr'.
  { destruct Harr as (Hn & Hll & Hp). split; [exact Hn|]. split; [exact Hll|]. intros i Hi. cbn [set_parts pa_parts].
    destruct (decide (i = j)) as [->|Hne].
    - rewrite list_lookup_insert_eq by lia. rewrite decide_True by (now apply elem_of_cons; left). now rewrite Hc.
    - rewrite list_lookup_insert_ne, Hp by auto. f_equal. apply decide_ext. rewrite elem_of_cons. tauto. }
  split; [exact Harr'|]. unfold spec_file. pose proof Harr as (_ & Hlen & Hp). rewrite (Hp j) by lia. rewrite decide_False by exact Hj.
  replace (MELODI_REASSEMBLY_BYTE_LIMIT <? messages_size (<[k:=p]> m) + zlen c) with false by lia.
  pose proof (arrived_complete parts (j :: seen) _ Harr' H64) as Hcomp. cbn [set_parts pa_parts pa_count] in Hcomp.
  destruct (decide (Forall (fun i => i ∈ j :: seen) (seq 0 (length parts)))) as [Hall|Hnot].
  - apply Hcomp in Hall. rewrite Hall. cbn [negb].
    assert (parts_content (<[j := Some c]> (pa_parts p)) = concat parts) as Hcont.
    { apply (complete_content parts _ (arrived_comes_from _ _ _ Harr' ltac:(cbn; now rewrite length_insert)) Hall H64). }
    rewrite parts_size_content, Hcont, Hlen, Z.eqb_refl. reflexivity.
  - destruct (parts_complete _ _); [exfalso; apply Hnot, Hcomp; reflexivity|reflexivity].
Qed.

Definition arrival_index (a : arrival) : nat := Z.to_nat a.(ar_header).(fragment_index).

Fixpoint spec_arrivals (m : gmap message_key partial) (l : list arrival)
    : gmap message_key partial * list (result reassembled) :=
  match l with
  | [] => (m, [])
  | a :: l =>
      let '(m, r) := spec_add msecs_to_jiffies a.(ar_jiffies) (bool_decide (a.(ar_memory) <> None)) m (arrival_key a) a.(ar_header)
                       a.(ar_metadata) (arrival_content a) in
      let '(m, rs) := spec_arrivals m l in (m, r :: rs)
  end.

(** The arrivals, in any order, of parts of the message [p] was opened for. *)
Definition arrives_for (k : message_key) (parts : list bytes) (p : partial) (a : arrival) : Prop :=
  arrival_key a = k /\ a.(ar_memory) <> None /\ agrees p a.(ar_header) = true /\
  time_after_eq a.(ar_jiffies) p.(pa_expires) = false /\ parts !! arrival_index a = Some (arrival_content a).

Definition sizes (l : list arrival) : Z := sumZ (map (fun a => zlen (arrival_content a)) l).

(** The results: partial ones and the message at the end. *)
Definition delivered (k : message_key) (p : partial) (parts : list bytes) (rs : list (result reassembled)) : Prop :=
  exists bs b, rs = map (fun b => Ok (Partial b)) bs ++
    [Ok (Complete b (MkCompleted k.1.1.1 p.(pa_source_service) p.(pa_destination_service) p.(pa_metadata) (concat parts)
                       (zlen (concat parts))))].

Lemma delivered_cons k p parts b rs : delivered k p parts rs -> delivered k p parts (Ok (Partial b) :: rs).
Proof. intros (bs & b0 & ->). now exists (b :: bs), b0. Qed.

Lemma spec_arrivals_file k parts p m a l seen m' r :
  arrived parts seen p -> length p.(pa_parts) = 64%nat -> (length parts <= 64)%nat ->
  arrives_for k parts p a -> arrival_index a ∉ seen ->
  messages_size (<[k := p]> m) + zlen (arrival_content a) <= MELODI_REASSEMBLY_BYTE_LIMIT ->
  (forall i, (i < length parts)%nat -> i ∈ arrival_index a :: seen \/ i ∈ map arrival_index l) ->
  (l <> [] -> exists i, (i < length parts)%nat /\ i ∉ arrival_index a :: seen) ->
  spec_file true m k p (arrival_index a) (arrival_content a) = (m', r) ->
  if decide (l = [])
  then m' !! k = None /\ delivered k p parts [r]
  else exists b p', r = Ok (Partial b) /\ m' = <[k := p']> m /\ p' = set_parts (<[arrival_index a := Some (arrival_content a)]> p.(pa_parts)) p /\
       arrived parts (arrival_index a :: seen) p'.
Proof.
  intros Harr Hl H64 (_ & _ & _ & _ & Hc) Hj Hroom Hcov Hleft Hf.
  destruct (file_step m k p parts seen _ _ Harr Hl H64 Hc Hj Hroom) as [Harr' E]. rewrite E in Hf. clear E.
  destruct (decide (l = [])) as [->|Hne].
  - rewrite decide_True in Hf.
    2:{ rewrite list.Forall_forall. intros i [_ Hi]%elem_of_seq. destruct (Hcov i ltac:(lia)) as [H|H]; [exact H|now apply elem_of_nil in H]. }
    injection Hf as <- <-. split; [apply lookup_delete_eq|]. destruct Harr as (_ & Hlen & _). eexists [], _. now rewrite Hlen.
  - rewrite decide_False in Hf.
    2:{ rewrite list.Forall_forall. intros H. destruct (Hleft Hne) as (i & Hi & Hn). apply Hn, H, elem_of_seq. lia. }
    injection Hf as <- <-. eauto 6.
Qed.

Lemma order_split (parts : list bytes) seen a l :
  Permutation (seen ++ map arrival_index (a :: l)) (seq 0 (length parts)) ->
  (arrival_index a ∉ seen) /\
  (forall i, (i < length parts)%nat -> i ∈ arrival_index a :: seen \/ i ∈ map arrival_index l) /\
  (l <> [] -> exists i, (i < length parts)%nat /\ i ∉ arrival_index a :: seen) /\
  Permutation ((arrival_index a :: seen) ++ map arrival_index l) (seq 0 (length parts)).
Proof.
  intros HP. cbn [map] in HP.
  assert (Permutation ((arrival_index a :: seen) ++ map arrival_index l) (seq 0 (length parts))) as HP'
    by (rewrite <- HP; apply Permutation_middle).
  pose proof (NoDup_seq 0 (length parts)) as Hnd. rewrite <- HP' in Hnd. apply list.NoDup_app in Hnd as (H1 & H2 & H3).
  apply list.NoDup_cons in H1 as [H1 _]. split; [exact H1|]. split; [|split; [|exact HP']].
  - intros i Hi. apply elem_of_app. rewrite HP'. apply elem_of_seq. lia.
  - destruct l as [|b l]; [congruence|]. intros _. exists (arrival_index b).
    assert (arrival_index b ∈ map arrival_index (b :: l)) as Hb by (cbn; apply elem_of_cons; now left).
    split; [|intros Hin; exact (H2 _ Hin Hb)].
    assert (arrival_index b ∈ seq 0 (length parts)) as Hs by (rewrite <- HP'; apply elem_of_app; now right).
    apply elem_of_seq in Hs. lia.
Qed.

Lemma spec_arrivals_rest k parts l : forall m p seen,
  l <> [] -> m !! k = Some p -> arrived parts seen p -> length p.(pa_parts) = 64%nat -> (length parts <= 64)%nat ->
  Forall (arrives_for k parts p) l -> Permutation (seen ++ map arrival_index l) (seq 0 (length parts)) ->
  messages_size m + sizes l <= MELODI_REASSEMBLY_BYTE_LIMIT ->
  let '(m', rs) := spec_arrivals m l in m' !! k = None /\ delivered k p parts rs.
Proof.
  induction l as [|a l IH]; intros m p seen Hne Hm Harr Hl H64 Hfor HP Hroom; [congruence|]. clear Hne. cbn [spec_arrivals].
  inversion_clear Hfor as [|? ? Ha Hfor']. destruct (order_split parts seen a l HP) as (Hj & Hcov & Hleft & HP').
  pose proof Ha as (Hk & Hmem & Hag & Htime & Hc). unfold sizes in Hroom. cbn [map] in Hroom. rewrite sumZ_cons in Hroom.
  pose proof (messages_size_expire a.(ar_jiffies) m) as Hexp.
  set (me := spec_expire a.(ar_jiffies) m) in *.
  assert (me !! k = Some p) as Hme by (apply map_lookup_filter_Some; now split).
  assert (0 <= sumZ (map (fun a => zlen (arrival_content a)) l)) as Hpos
    by (apply sumZ_nonneg, Forall_map, list.Forall_true; intros; unfold zlen; lia).
  destruct (spec_add _ _ _ m _ _ _ _) as [m1 r] eqn:E. unfold spec_add in E. fold me in E.
  rewrite Hk, Hme, Hag, bool_decide_eq_true_2 in E by exact Hmem.
  pose proof (spec_arrivals_file k parts p me a l seen m1 r Harr Hl H64 Ha Hj ltac:(rewrite insert_id by exact Hme; lia) Hcov Hleft E) as Hs.
  destruct (decide (l = [])) as [->|Hne].
  - cbn [spec_arrivals]. exact Hs.
  - destruct Hs as (b & p' & -> & -> & Hp' & Harr').
    assert (parts_size p'.(pa_parts) = parts_size p.(pa_parts) + zlen (arrival_content a)) as Hsz.
    { subst p'. cbn [set_parts pa_parts]. pose proof (lookup_lt_Some _ _ _ Hc) as Hjl. destruct Harr as (_ & _ & Hp).
      rewrite (parts_size_insert _ _ None), part_size_None, part_size_Some; [lia|]. rewrite Hp by lia. now rewrite decide_False by exact Hj. }
    specialize (IH (<[k:=p']> me) p' (arrival_index a :: seen) Hne (lookup_insert_eq _ _ _) Harr'
      ltac:(subst p'; cbn [set_parts pa_parts]; now rewrite length_insert) H64 ltac:(subst p'; exact Hfor') HP'
      ltac:(rewrite (messages_size_update _ _ _ _ Hme), Hsz; unfold sizes; lia)).
    destruct (spec_arrivals (<[k:=p']> me) l) as [m2 rs]. destruct IH as [H1 H2]. split; [exact H1|]. apply delivered_cons. now subst p'.
Qed.

(** The first fragment to arrive opens the entry. *)
Lemma spec_arrivals_whole k parts m a l :
  let p := fresh_partial msecs_to_jiffies a.(ar_jiffies) a.(ar_header) a.(ar_metadata) in
  m !! k = None -> (size m < MELODI_REASSEMBLY_LIMIT)%nat -> messages_size m + sizes (a :: l) <= MELODI_REASSEMBLY_BYTE_LIMIT ->
  (length parts <= 64)%nat -> a.(ar_header).(fragment_count) = zlen parts -> a.(ar_header).(logical_length) = zlen (concat parts) ->
  Forall (arrives_for k parts p) (a :: l) -> Permutation (map arrival_index (a :: l)) (seq 0 (length parts)) ->
  let '(m', rs) := spec_arrivals m (a :: l) in m' !! k = None /\ delivered k p parts rs.
Proof.
  cbv zeta. set (p := fresh_partial _ _ _ _). intros Hm Hsz Hroom H64 Hn Hlen Hfor HP. cbn [spec_arrivals].
  inversion_clear Hfor as [|? ? Ha Hfor']. destruct (order_split parts [] a l HP) as (Hj & Hcov & Hleft & HP').
  pose proof Ha as (Hk & Hmem & Hag & Htime & Hc). unfold sizes in Hroom. cbn [map] in Hroom. rewrite sumZ_cons in Hroom.
  pose proof (messages_size_expire a.(ar_jiffies) m) as Hexp.
  assert (size (spec_expire a.(ar_jiffies) m) <= size m)%nat as Hsize by (apply map_subseteq_size, map_filter_subseteq).
  set (me := spec_expire a.(ar_jiffies) m) in *.
  assert (me !! k = None) as Hme by (apply map_lookup_filter_None; now left).
  assert (0 <= sumZ (map (fun a => zlen (arrival_content a)) l)) as Hpos
    by (apply sumZ_nonneg, Forall_map, list.Forall_true; intros; unfold zlen; lia).
  assert (arrived parts [] p) as Harr.
  { split; [exact Hn|]. split; [exact Hlen|]. intros i Hi. now apply lookup_replicate_2. }
  assert (parts_size p.(pa_parts) = 0) as Hp0 by reflexivity.
  destruct (spec_add _ _ _ m _ _ _ _) as [m1 r] eqn:E. unfold spec_add in E. fold me in E. fold p in E.
  rewrite Hk, Hme, !bool_decide_eq_true_2 in E by (exact Hmem || lia).
  pose proof (spec_arrivals_file k parts p me a l [] m1 r Harr (length_replicate _ _) H64 Ha Hj
    ltac:(rewrite messages_size_new by exact Hme; lia) Hcov Hleft E) as Hs.
  destruct (decide (l = [])) as [->|Hne]; [exact Hs|]. destruct Hs as (b & p' & -> & -> & Hp' & Harr').
  assert (parts_size p'.(pa_parts) = zlen (arrival_content a)) as Hsz'.
  { subst p'. cbn [set_parts pa_parts]. pose proof (lookup_lt_Some _ _ _ Hc) as Hjl. destruct Harr as (_ & _ & Hp).
    rewrite (parts_size_insert _ _ None), part_size_None, part_size_Some; [lia|]. now rewrite Hp by lia. }
  pose proof (spec_arrivals_rest k parts l (<[k:=p']> me) p' [arrival_index a] Hne (lookup_insert_eq _ _ _) Harr'
    ltac:(subst p'; cbn [set_parts pa_parts]; now rewrite length_insert) H64 ltac:(subst p'; exact Hfor') HP'
    ltac:(rewrite messages_size_new by exact Hme; unfold sizes; lia)) as IH.
  destruct (spec_arrivals (<[k:=p']> me) l) as [m2 rs]. destruct IH as [H1 H2]. split; [exact H1|]. apply delivered_cons. now subst p'.
Qed.

Definition spec_step (m : gmap message_key partial) (e : table_event)
    : gmap message_key partial * option (result reassembled) :=
  match e with
  | Arrive a =>
      let '(m, r) := spec_add msecs_to_jiffies a.(ar_jiffies) (bool_decide (a.(ar_memory) <> None)) m (arrival_key a) a.(ar_header)
                       a.(ar_metadata) (arrival_content a) in (m, Some r)
  | Expire jiffies => (spec_expire jiffies m, None)
  | Forget node => (filter (fun kp => bool_decide (kp.1.1.1.1 = node) = false) m, None)
  end.

Fixpoint spec_table (m : gmap message_key partial) (l : list table_event)
    : gmap message_key partial * list (option (result reassembled)) :=
  match l with
  | [] => (m, [])
  | e :: l => let '(m, r) := spec_step m e in let '(m, rs) := spec_table m l in (m, r :: rs)
  end.

Lemma table_step_refines melodi e : reassembly_inv melodi.(d_receive) -> event_ok e ->
  let res := table_step melodi e in
  reassembly_inv res.1.(d_receive) /\ (messages res.1.(d_receive), option_map seen res.2) = spec_step (messages melodi.(d_receive)) e.
Proof.
  intros Hinv Hok. cbv zeta. destruct e as [a|j|node]; cbn [table_step spec_step].
  - destruct Hok as (Hh & Hf & Hmem).
    destruct (add_refines msecs_to_jiffies a.(ar_jiffies) a.(ar_now_ms) a.(ar_memory) melodi a.(ar_source) a.(ar_header) a.(ar_epoch)
      a.(ar_metadata) a.(ar_fragment) Hinv Hh Hf Hmem) as [Hinv' Hspec].
    destruct (melodi_reassembly_add _ _ _ _ _ _ _ _ _ _) as [melodi' r]. cbn [fst snd option_map] in *. split; [exact Hinv'|].
    unfold arrival_key, arrival_content. rewrite <- Hspec. reflexivity.
  - destruct (expire_refines j _ Hinv) as [H1 H2]. cbn [fst snd option_map set_d_receive d_receive]. split; [exact H1|]. now rewrite H2.
  - destruct (forget_refines _ node Hinv) as [H1 H2]. cbn [fst snd option_map set_d_receive d_receive]. split; [exact H1|]. now rewrite H2.
Qed.

Lemma table_run_refines l : forall melodi, reassembly_inv melodi.(d_receive) -> Forall event_ok l ->
  let res := table_run melodi l in
  reassembly_inv res.1.(d_receive) /\
  (messages res.1.(d_receive), map (option_map seen) res.2) = spec_table (messages melodi.(d_receive)) l.
Proof.
  cbv zeta. induction l as [|e l IH]; intros melodi Hinv Hok; cbn [table_run spec_table]; [now split|].
  inversion_clear Hok as [|? ? He Hl]. destruct (table_step_refines melodi e Hinv He) as [H1 H2].
  destruct (table_step melodi e) as [m1 r]. cbn [fst snd] in *. specialize (IH m1 H1 Hl). rewrite <- H2.
  destruct (table_run m1 l) as [m2 rs]. cbn [fst snd map] in *. destruct IH as [H3 H4]. split; [exact H3|]. now rewrite <- H4.
Qed.

Lemma spec_table_arrivals l : forall m,
  spec_table m (map Arrive l) = let '(m', rs) := spec_arrivals m l in (m', map Some rs).
Proof.
  induction l as [|a l IH]; intros m; [reflexivity|]. cbn [map spec_table spec_step spec_arrivals].
  destruct (spec_add _ _ _ _ _ _ _ _) as [m1 r]. rewrite IH. now destruct (spec_arrivals m1 l) as [m2 rs].
Qed.
End Runs.

(** ** Properties *)

(** C28: the reassembly table is a finite map of partial messages.  Over any sequence
    of arriving fragments, expiries and ended sessions, the table, its bitmaps and
    its byte count stay consistent, what it stands for is what the specification
    makes of the map, and so is every answer: which fragment is new, what is
    refused for want of room, which message is complete and what it says. *)
Theorem reassembly_refines msecs_to_jiffies melodi l :
  reassembly_inv melodi.(d_receive) -> Forall event_ok l ->
  let res := table_run msecs_to_jiffies melodi l in
  reassembly_inv res.1.(d_receive) /\
  (messages res.1.(d_receive), map (option_map seen) res.2) =
    spec_table msecs_to_jiffies (messages melodi.(d_receive)) l.
Proof. apply table_run_refines. Qed.

(** Nothing is delivered but what was sent.  Whatever else arrives and expires in
    between, and in whatever order and however often: if the fragments that arrive
    under the key of a message are its parts, then what is delivered under that key
    is the concatenation of the parts, and the memory it was copied to was large
    enough. *)
Theorem reassembly_sound msecs_to_jiffies k parts melodi l i a b msg :
  reassembly_inv melodi.(d_receive) -> messages melodi.(d_receive) !! k = None -> (length parts <= 64)%nat ->
  Forall event_ok l -> Forall (carries k parts) l ->
  l !! i = Some (Arrive a) -> arrival_key a = k ->
  (table_run msecs_to_jiffies melodi l).2 !! i = Some (Some (Ok (Complete b msg))) ->
  load 0 (Z.to_nat msg.(co_length)) msg.(co_payload) = concat parts.
Proof.
  intros Hinv Hm H64 Hok Hcar Hi Hk Hr.
  pose proof (table_run_sound msecs_to_jiffies k parts l melodi Hinv Hok Hcar H64 ltac:(congruence)) as H.
  destruct (table_run msecs_to_jiffies melodi l) as [m rs]. destruct H as [_ H]. exact (H i a b msg Hi Hk Hr).
Qed.

(** Every message arrives.  When all the parts of a message arrive before it
    expires, in any order, with room for the message and a free entry at the start
    and memory at the end, every arrival but the last is answered with a bitmap,
    the last with the whole message and what its first fragment said of it, and
    the table keeps nothing of the message. *)
Theorem reassembly_delivers msecs_to_jiffies k parts melodi a l :
  let m := messages melodi.(d_receive) in
  let p := fresh_partial msecs_to_jiffies a.(ar_jiffies) a.(ar_header) a.(ar_metadata) in
  reassembly_inv melodi.(d_receive) -> m !! k = None -> (size m < MELODI_REASSEMBLY_LIMIT)%nat ->
  messages_size m + sizes (a :: l) <= MELODI_REASSEMBLY_BYTE_LIMIT -> (length parts <= 64)%nat ->
  a.(ar_header).(fragment_count) = zlen parts -> a.(ar_header).(logical_length) = zlen (concat parts) ->
  Forall arrival_ok (a :: l) -> Forall (arrives_for k parts p) (a :: l) ->
  Permutation (map arrival_index (a :: l)) (seq 0 (length parts)) ->
  let res := table_run msecs_to_jiffies melodi (map Arrive (a :: l)) in
  messages res.1.(d_receive) !! k = None /\
  exists rs, map (option_map seen) res.2 = map Some rs /\ delivered k p parts rs.
Proof.
  cbv zeta. intros Hinv Hm Hsz Hroom H64 Hn Hlen Hok Hfor HP.
  destruct (table_run_refines msecs_to_jiffies (map Arrive (a :: l)) melodi Hinv) as [_ H]; [now apply Forall_map|].
  rewrite spec_table_arrivals in H.
  pose proof (spec_arrivals_whole msecs_to_jiffies k parts _ a l Hm Hsz Hroom H64 Hn Hlen Hfor HP) as Hs.
  destruct (table_run msecs_to_jiffies melodi (map Arrive (a :: l))) as [melodi' ans]. cbn [fst snd] in H |- *.
  destruct (spec_arrivals msecs_to_jiffies (messages (d_receive melodi)) (a :: l)) as [m' rs].
  destruct Hs as [Hs1 Hs2]. split; [now replace (messages (d_receive melodi')) with m' by congruence|].
  exists rs. split; [congruence|exact Hs2].
Qed.

(** ** A message of two fragments *)

Definition sample_fragment (index length : Z) : melodi_wire_data := {|
  data_common := {| version := 1; frame_class := 1; flags := 3; header_length := 80; payload_length := length;
    source_native_locator := 31; destination_native_locator := 40; identity_generation := 1; message_id := 77;
    counter := 5 + index |};
  destination_service := 20; source_service := 10; fragment_index := index; fragment_count := 2; logical_length := 5;
  delivery_mode := 1; priority := 2; ordering_marker := 0; data_tag := replicate 16 0;
|}.

Definition sample_sender : melodi_node_id := MkNodeId (1 :: replicate 32 5).

Definition sample_arrival (now index : Z) (fragment : bytes) : arrival :=
  MkArrival now now (Some [9; 9; 9; 9; 9; 9]) sample_sender (sample_fragment index (zlen fragment)) 3 zero_rx_meta fragment.

Definition sample_arrivals : list arrival := [sample_arrival 20 1 [4; 5]; sample_arrival 30 0 [1; 2; 3]].
Definition sample_key : message_key := (sample_sender, 1, 3, 77).

Lemma fresh_inv : reassembly_inv fresh_device.(d_receive) /\ messages fresh_device.(d_receive) = ∅.
Proof.
  destruct (empty_table re_active re_key partial_of MELODI_REASSEMBLY_LIMIT zero_reassembly eq_refl) as [Ht Hm].
  split; [|exact Hm]. constructor; [|exact Ht| |cbn; lia].
  - constructor; try reflexivity; apply Forall_replicate; cbn; lia.
  - apply Forall_replicate. discriminate.
Qed.

Lemma sample_arrivals_ok : Forall arrival_ok sample_arrivals.
Proof.
  repeat constructor; unfold arrival_ok, header_ok; try by_decide; intros mem [= <-]; by_decide.
Qed.

Lemma reassembly_refines_witness :
  (messages (table_run id fresh_device (Expire 5 :: map Arrive sample_arrivals)).1.(d_receive),
   map (option_map seen) (table_run id fresh_device (Expire 5 :: map Arrive sample_arrivals)).2) =
  spec_table id (messages fresh_device.(d_receive)) (Expire 5 :: map Arrive sample_arrivals).
Proof.
  apply (reassembly_refines id fresh_device (Expire 5 :: map Arrive sample_arrivals)); [apply fresh_inv|].
  constructor; [exact I|]. apply Forall_map. exact sample_arrivals_ok.
Defined.

Lemma reassembly_sound_witness :
  (table_run id fresh_device (map Arrive sample_arrivals)).2 !! 1%nat =
    Some (Some (Ok (Complete 3 (MkCompleted sample_sender 10 20 zero_rx_meta [1; 2; 3; 4; 5; 9] 5)))) /\
  load 0 5 [1; 2; 3; 4; 5; 9] = [1; 2; 3; 4; 5].
Proof.
  assert ((table_run id fresh_device (map Arrive sample_arrivals)).2 !! 1%nat =
    Some (Some (Ok (Complete 3 (MkCompleted sample_sender 10 20 zero_rx_meta [1; 2; 3; 4; 5; 9] 5))))) as H by (vm_compute; reflexivity).
  split; [exact H|].
  apply (reassembly_sound id sample_key [[1; 2; 3]; [4; 5]] fresh_device (map Arrive sample_arrivals) 1
    (sample_arrival 30 0 [1; 2; 3]) 3 (MkCompleted sample_sender 10 20 zero_rx_meta [1; 2; 3; 4; 5; 9] 5)).
  - apply fresh_inv.
  - destruct fresh_inv as [_ ->]. reflexivity.
  - cbn. lia.
  - apply Forall_map. exact sample_arrivals_ok.
  - repeat constructor.
  - reflexivity.
  - reflexivity.
  - exact H.
Defined.

Lemma reassembly_delivers_witness :
  messages (table_run id fresh_device (map Arrive sample_arrivals)).1.(d_receive) !! sample_key = None.
Proof.
  refine (proj1 (reassembly_delivers id sample_key [[1; 2; 3]; [4; 5]] fresh_device (sample_arrival 20 1 [4; 5])
    [sample_arrival 30 0 [1; 2; 3]] (proj1 fresh_inv) _ _ _ _ eq_refl eq_refl sample_arrivals_ok _ _)).
  - destruct fresh_inv as [_ ->]. reflexivity.
  - destruct fresh_inv as [_ ->]. rewrite map_size_empty. lia.
  - destruct fresh_inv as [_ ->]. vm_compute. discriminate.
  - cbn. lia.
  - repeat constructor; discriminate.
  - apply perm_swap.
Defined.
