(* ===== verification/Delivery.v ===== *)
(** * Ordered delivery (src/kernel/core/data.c)

    Flows of ordered messages: the markers a sender gives out, the messages a
    receiver buffers until those before them have arrived or are given up, and the
    batches it hands on.  The window of each flow is that of Ordering. *)
From stdpp Require Import gmap.
From S2P Require Import Prelude Buffer Uapi Wire Ordering Slots Device Peers Reassembly.

(** ** Buffered messages *)

Definition melodi_order_message_find (r : receive_state) (flow_index : nat) (marker : Z) : option nat :=
  find_index (fun m => m.(om_active) && (m.(om_flow_index) =? Z.of_nat flow_index) && (m.(om_marker) =? marker))
    r.(r_order_messages).

Definition melodi_order_message_empty (r : receive_state) : option nat :=
  find_index (fun m => negb m.(om_active)) r.(r_order_messages).

(** [struct melodi_order_batch]: the messages; the array has 33 places. *)
Abbreviation melodi_order_batch := (list melodi_order_message) (only parsing).
Definition batch_limit : Z := 33.

(** The two loops over the markers of a run. *)
Fixpoint detach_check (r : receive_state) (flow_index : nat) (cursor : Z) (count : nat) : bool :=
  match count with
  | O => true
  | S count =>
      match melodi_order_message_find r flow_index cursor with
      | None => false
      | Some _ => detach_check r flow_index (melodi_order_next cursor) count
      end
  end.

Fixpoint detach_loop (r : receive_state) (flow_index : nat) (cursor : Z) (count : nat) (batch : melodi_order_batch)
    : receive_state * melodi_order_batch :=
  match count with
  | O => (r, batch)
  | S count =>
      match melodi_order_message_find r flow_index cursor ≫= fun i => pair i <$> r.(r_order_messages) !! i with
      | None => (r, batch)
      | Some (i, message) =>
          let r := set_r_order_bytes (if message.(om_length) <=? r.(r_order_bytes)
                                      then r.(r_order_bytes) - message.(om_length) else 0) r in
          let r := set_r_order_messages (<[i := zero_order_message]> r.(r_order_messages)) r in
          detach_loop r flow_index (melodi_order_next cursor) count (batch ++ [message])
      end
  end.

Definition melodi_order_detach_locked (r : receive_state) (flow_index : nat) (marker count : Z) (batch : melodi_order_batch)
    : receive_state * melodi_order_batch * result unit :=
  if batch_limit - zlen batch <? count then (r, batch, Err EOVERFLOW) else
  if negb (detach_check r flow_index marker (Z.to_nat count)) then (r, batch, Err EIO) else
  let '(r, batch) := detach_loop r flow_index marker (Z.to_nat count) batch in (r, batch, Ok tt).

(** ** Flows *)

(** The state and the marker. *)
Definition melodi_order_tx_marker_locked (r : receive_state) (destination : melodi_node_id)
    (source_service destination_service generation session_epoch : Z) : receive_state * result Z :=
  let '(found, empty) := slot_search otx_active
         (fun f => node_eqb f.(otx_destination) destination && (f.(otx_source_service) =? source_service) &&
                   (f.(otx_destination_service) =? destination_service)) r.(r_order_tx) 0 None in
  let stale f := negb (f.(otx_generation) =? generation) || negb (f.(otx_session_epoch) =? session_epoch) in
  let '(flow, slot) := match found ≫= fun i => pair i <$> r.(r_order_tx) !! i with
                       | Some (i, f) => if stale f then (None, Some i) else (Some f, Some i)
                       | None => (None, empty)
                       end in
  match slot with
  | None => (r, Err ENOSPC)
  | Some i =>
      let f := match flow with
               | Some f => f
               | None => MkOrderTx destination session_epoch generation 1 source_service destination_service true
               end in
      let f' := MkOrderTx f.(otx_destination) f.(otx_session_epoch) f.(otx_generation)
                  (melodi_order_next f.(otx_next_marker)) f.(otx_source_service) f.(otx_destination_service) f.(otx_active) in
      (set_r_order_tx (<[i := f']> r.(r_order_tx)) r, Ok f.(otx_next_marker))
  end.

(** The index of the flow, and whether it must be created. *)
Definition melodi_order_rx_flow_locked (r : receive_state) (source : melodi_node_id)
    (source_service destination_service generation session_epoch : Z) : result (nat * bool) :=
  match slot_search orx_active
          (fun f => (f.(orx_generation) =? generation) && (f.(orx_session_epoch) =? session_epoch) &&
                    (f.(orx_source_service) =? source_service) && (f.(orx_destination_service) =? destination_service) &&
                    node_eqb f.(orx_source) source) r.(r_order_rx) 0 None with
  | (Some index, _) => Ok (index, false)
  | (None, Some index) => Ok (index, true)
  | (None, None) => Err ENOSPC
  end.

Definition set_orx_state (state : melodi_order_state) (f : melodi_order_rx_flow) : melodi_order_rx_flow :=
  MkOrderRx state f.(orx_source) f.(orx_session_epoch) f.(orx_generation) f.(orx_source_service)
    f.(orx_destination_service) f.(orx_active).

Section Clock.
  Context (msecs_to_jiffies : Z -> Z).

Definition melodi_order_admit_locked (jiffies now_ms : Z) (melodi : melodi_device) (source : melodi_node_id)
    (header : melodi_wire_data) (session_epoch : Z) (metadata : melodi_rx_meta) (payload : bytes) (length : Z)
    (batch : melodi_order_batch) : melodi_device * melodi_order_batch * result unit :=
  let r := melodi.(d_receive) in
  let generation := header.(data_common).(identity_generation) in
  match melodi_order_rx_flow_locked r source header.(source_service) header.(destination_service) generation session_epoch with
  | Err e => (melodi, batch, Err e)
  | Ok (flow_index, created) =>
  match r.(r_order_rx) !! flow_index with
  | None => (melodi, batch, Err ENOSPC)
  | Some flow =>
  let state := if created then melodi_order_reset else flow.(orx_state) in
  match melodi_order_admit state header.(ordering_marker) now_ms with
  | (_, Err e) => (melodi, batch, Err e)
  | (next_state, Ok report) =>
  match report.(code) with
  | MELODI_ORDER_DUPLICATE => (melodi, batch, Ok tt)
  | result =>
  if wrap 32 (MELODI_ORDER_BYTE_LIMIT - r.(r_order_bytes)) <? length then (melodi, batch, Err ENOSPC) else
  match melodi_order_message_empty r with
  | None => (melodi, batch, Err ENOSPC)
  | Some i =>
      let flow := if created
                  then MkOrderRx flow.(orx_state) source session_epoch generation header.(source_service)
                         header.(destination_service) true
                  else flow in
      let r := set_r_order_rx (<[flow_index := set_orx_state next_state flow]> r.(r_order_rx)) r in
      let message := MkOrderMessage source metadata payload length header.(ordering_marker) header.(source_service)
                       header.(destination_service) (Z.of_nat flow_index) true in
      let r := set_r_order_messages (<[i := message]> r.(r_order_messages)) r in
      let r := set_r_order_bytes (wrap 32 (r.(r_order_bytes) + length)) r in
      match result with
      | MELODI_ORDER_RELEASED =>
          match melodi_order_detach_locked r flow_index report.(release_marker) report.(release_count) batch with
          | (r, batch, Err e) => (set_d_receive (melodi_order_flow_clear r flow_index) melodi, batch, Err e)
          | (r, batch, Ok _) => (melodi_reassembly_schedule msecs_to_jiffies jiffies now_ms (set_d_receive r melodi), batch, Ok tt)
          end
      | _ => (melodi_reassembly_schedule msecs_to_jiffies jiffies now_ms (set_d_receive r melodi), batch, Ok tt)
      end
  end
  end
  end
  end
  end.

(** The loop over the flows ends with the first that releases messages or fails. *)
Fixpoint order_poll_loop (indices : list nat) (now_ms : Z) (r : receive_state) (batch : melodi_order_batch)
    : receive_state * melodi_order_batch * result unit :=
  match indices with
  | [] => (r, batch, Ok tt)
  | index :: indices =>
      match r.(r_order_rx) !! index with
      | None => order_poll_loop indices now_ms r batch
      | Some flow =>
          if negb flow.(orx_active) then order_poll_loop indices now_ms r batch else
          let '(state, result) := melodi_order_poll flow.(orx_state) now_ms in
          let r := set_r_order_rx (<[index := set_orx_state state flow]> r.(r_order_rx)) r in
          match result with
          | Err e => (melodi_order_flow_clear r index, batch, Err e)
          | Ok report =>
              match report.(code) with
              | MELODI_ORDER_RELEASED =>
                  match melodi_order_detach_locked r index report.(release_marker) report.(release_count) batch with
                  | (r, batch, Err e) => (melodi_order_flow_clear r index, batch, Err e)
                  | (r, batch, Ok _) => (r, batch, Ok tt)
                  end
              | _ => order_poll_loop indices now_ms r batch
              end
          end
      end
  end.

Definition melodi_order_poll_locked (now_ms : Z) (r : receive_state) (batch : melodi_order_batch)
    : receive_state * melodi_order_batch * result unit :=
  order_poll_loop (seq 0 MELODI_ORDER_FLOW_LIMIT) now_ms r batch.

(** What [melodi_reassembly_work] does up to the end of its section under the lock: the
    device, and the batch that it hands on once the lock has been released; [alloc]:
    whether the batch could be allocated. *)
Definition melodi_reassembly_locked (alloc : bool) (jiffies now_ms : Z) (melodi : melodi_device)
    : melodi_device * melodi_order_batch :=
  if negb alloc
  then (set_d_data (set_a_reassembly_work (Some (msecs_to_jiffies 100)) melodi.(d_data)) melodi, []) else
  let r := melodi_reassembly_expire jiffies melodi.(d_receive) in
  let '(r, batch, _) := melodi_order_poll_locked now_ms r [] in
  (melodi_reassembly_schedule msecs_to_jiffies jiffies now_ms (set_d_receive r melodi), batch).
End Clock.

(** ** Buffered messages and windows

    The messages a flow buffers are those whose indices its window holds. *)

Definition buffered (r : receive_state) (f i : nat) (m : melodi_order_message) : Prop :=
  r.(r_order_messages) !! i = Some m /\ m.(om_active) = true /\ m.(om_flow_index) = Z.of_nat f.

Record holds (r : receive_state) (f : nat) (H : list Z) : Prop := {
  ho_has x : x ∈ H -> exists i m, buffered r f i m /\ m.(om_marker) = marker_of x;
  ho_all i m : buffered r f i m -> exists x, x ∈ H /\ m.(om_marker) = marker_of x;
  ho_one i j m n : buffered r f i m -> buffered r f j n -> m.(om_marker) = n.(om_marker) -> i = j;
}.

(** Indices close enough for their markers to differ. *)
Definition close (H : list Z) : Prop := forall x y, x ∈ H -> y ∈ H -> Z.abs (x - y) < MELODI_ORDER_MODULUS.

Lemma marker_inj x y : Z.abs (x - y) < MELODI_ORDER_MODULUS -> marker_of x = marker_of y -> x = y.
Proof. unfold marker_of. intros H E. assert (x mod 4294967295 = y mod 4294967295) by lia. div_lia. Qed.

Lemma holds_ext r f H K : (forall x, x ∈ H <-> x ∈ K) -> holds r f H -> holds r f K.
Proof.
  intros E [H1 H2 H3]. constructor.
  - intros x Hx. apply H1. now apply E.
  - intros i m Hm. destruct (H2 i m Hm) as (x & Hx & Hk). exists x. split; [now apply E|exact Hk].
  - exact H3.
Qed.

Lemma holds_messages r r' f H : r'.(r_order_messages) = r.(r_order_messages) -> holds r f H -> holds r' f H.
Proof. intros E [H1 H2 H3]. constructor; unfold buffered in *; rewrite E; assumption. Qed.

Lemma find_held r f H x : holds r f H -> x ∈ H ->
  exists i m, melodi_order_message_find r f (marker_of x) = Some i /\ buffered r f i m /\ m.(om_marker) = marker_of x.
Proof.
  intros Hh Hx. destruct (ho_has _ _ _ Hh x Hx) as (i & m & (Hi & Ha & Hf) & Hk). unfold melodi_order_message_find.
  match goal with |- context [find_index ?P ?l] => destruct (find_index P l) as [j|] eqn:E end.
  - apply find_index_Some in E as (n & Hn & Ht & _). rewrite !andb_true_iff, !Z.eqb_eq in Ht. destruct Ht as [[Hna Hnf] Hnk].
    now exists j, n.
  - rewrite find_index_None in E. specialize (E m ltac:(apply list_elem_of_In, list_elem_of_lookup; now exists i)).
    rewrite Ha, Hf, Hk, !Z.eqb_refl in E. discriminate.
Qed.

(** Everything but the buffered messages and their bytes. *)
Definition same_rest (r r' : receive_state) : Prop :=
  r'.(r_reassembly_bytes) = r.(r_reassembly_bytes) /\ r'.(r_reassemblies) = r.(r_reassemblies) /\
  r'.(r_receipts) = r.(r_receipts) /\ r'.(r_order_tx) = r.(r_order_tx) /\ r'.(r_order_rx) = r.(r_order_rx).

#[export] Instance same_rest_preorder : PreOrder same_rest.
Proof.
  split; [now intros r|]. intros r1 r2 r3 (A1 & A2 & A3 & A4 & A5) (B1 & B2 & B3 & B4 & B5). unfold same_rest. now rewrite B1, B2, B3, B4, B5.
Qed.

(** A message is taken out. *)
Definition take_message (r : receive_state) (i : nat) (message : melodi_order_message) : receive_state :=
  let r := set_r_order_bytes (if message.(om_length) <=? r.(r_order_bytes)
                              then r.(r_order_bytes) - message.(om_length) else 0) r in
  set_r_order_messages (<[i := zero_order_message]> r.(r_order_messages)) r.

Lemma take_message_wf r i m : receive_wf r -> r.(r_order_messages) !! i = Some m -> m.(om_active) = true ->
  receive_wf (take_message r i m) /\ same_rest r (take_message r i m) /\
  (take_message r i m).(r_order_bytes) <= r.(r_order_bytes).
Proof.
  intros [W1 W2 W3 W4 W5 W6 W7 W8 W9] Hi Ha.
  destruct (clear_weight om_weight zero_order_message (r_order_messages r) i m _ W7 Hi eq_refl W9) as [H1 H2].
  pose proof (sum_weight_lower om_weight _ i m W7 Hi).
  assert (0 <= om_weight m) by (rewrite list.Forall_forall in W7; apply W7, list_elem_of_lookup; now exists i).
  assert (om_weight m = om_length m) as Ew by (unfold om_weight; now rewrite Ha). rewrite Ew in H1, H2.
  unfold take_message. rewrite H1. split; [|split; [repeat split|cbn; lia]].
  constructor; cbn [set_r_order_bytes set_r_order_messages r_reassemblies r_reassembly_bytes r_receipts r_order_tx r_order_rx
    r_order_messages r_order_bytes]; try assumption; [now rewrite length_insert|].
  apply Forall_insert; [exact W7|cbn; lia].
Qed.

Lemma take_message_buffered r i m f j n : r.(r_order_messages) !! i = Some m ->
  buffered (take_message r i m) f j n <-> buffered r f j n /\ j <> i.
Proof.
  intros Hi. unfold buffered, take_message. cbn [set_r_order_bytes set_r_order_messages r_order_messages].
  destruct (decide (j = i)) as [->|Hne].
  - rewrite list_lookup_insert_eq by (apply (lookup_lt_Some _ _ _ Hi)). split; [intros ([= <-] & ? & _); discriminate|tauto].
  - rewrite list_lookup_insert_ne by auto. tauto.
Qed.

Lemma take_message_holds r f H x i m :
  holds r f H -> close H -> x ∈ H -> buffered r f i m -> m.(om_marker) = marker_of x ->
  holds (take_message r i m) f (filter (fun y => y <> x) H).
Proof.
  intros [H1 H2 H3] Hc Hx Hm Hk. pose proof (fun g j n => take_message_buffered r i m g j n (proj1 Hm)) as Hb. constructor.
  - intros y [Hy Hyx]%list_elem_of_filter%and_comm. destruct (H1 y Hy) as (j & n & Hn & Hnk). exists j, n. split; [|exact Hnk].
    apply Hb. split; [exact Hn|]. intros ->. destruct Hn as [Hn _]. rewrite (proj1 Hm) in Hn. injection Hn as ->.
    apply Hyx, marker_inj; [now apply Hc|congruence].
  - intros j n [Hn Hj]%Hb. destruct (H2 j n Hn) as (y & Hy & Hnk). exists y. split; [|exact Hnk].
    apply list_elem_of_filter. split; [|exact Hy]. intros ->. apply Hj, (H3 j i n m Hn Hm). congruence.
  - intros j k n n' [Hn _]%Hb [Hn' _]%Hb. now apply H3.
Qed.

Lemma take_message_other r f g H i m : holds r g H -> buffered r f i m -> g <> f -> holds (take_message r i m) g H.
Proof.
  intros [H1 H2 H3] Hm Hne. pose proof (fun g j n => take_message_buffered r i m g j n (proj1 Hm)) as Hb. constructor.
  - intros y Hy. destruct (H1 y Hy) as (j & n & Hn & Hnk). exists j, n. split; [|exact Hnk]. apply Hb. split; [exact Hn|].
    intros ->. destruct Hn as (Hn & _ & Hng), Hm as (Hm & _ & Hmf). rewrite Hm in Hn. injection Hn as ->. lia.
  - intros j n [Hn _]%Hb. exact (H2 j n Hn).
  - intros j k n n' [Hn _]%Hb [Hn' _]%Hb. now apply H3.
Qed.

Lemma zseq_S x n : zseq x (Z.of_nat (S n)) = x :: zseq (x + 1) (Z.of_nat n).
Proof.
  unfold zseq. rewrite !Nat2Z.id. cbn [seq map]. rewrite Z.add_0_r. f_equal. rewrite <- seq_shift, map_map. apply map_ext. intros k. lia.
Qed.

Lemma detach_check_true r f H x n :
  holds r f H -> (forall y, y ∈ zseq x (Z.of_nat n) -> y ∈ H) -> detach_check r f (marker_of x) n = true.
Proof.
  intros Hh. revert x. induction n as [|n IH]; intros x Hin; [reflexivity|]. cbn [detach_check]. rewrite zseq_S in Hin.
  destruct (find_held r f H x Hh (Hin x ltac:(apply elem_of_cons; now left))) as (i & m & -> & _). rewrite next_marker.
  apply IH. intros y Hy. apply Hin, elem_of_cons. now right.
Qed.

(** What a message is delivered as: the index of its marker, from where it was. *)
Definition delivers (r : receive_state) (f : nat) (x : Z) (m : melodi_order_message) : Prop :=
  m.(om_marker) = marker_of x /\ exists i, buffered r f i m.

Record detached (r r' : receive_state) (f : nat) : Prop := {
  de_wf : receive_wf r';
  de_rest : same_rest r r';
  de_bytes : r'.(r_order_bytes) <= r.(r_order_bytes);
  de_other g K : g <> f -> holds r g K -> holds r' g K;
  de_sub i m : r'.(r_order_messages) !! i = Some m -> m.(om_active) = true -> r.(r_order_messages) !! i = Some m;
}.

Lemma detach_loop_spec f n : forall r H x batch,
  receive_wf r -> holds r f H -> close H -> (forall y, y ∈ zseq x (Z.of_nat n) -> y ∈ H) ->
  exists r' l, detach_loop r f (marker_of x) n batch = (r', batch ++ l) /\ detached r r' f /\
    holds r' f (filter (fun y => ~ (x <= y < x + Z.of_nat n)) H) /\ Forall2 (delivers r f) (zseq x (Z.of_nat n)) l.
Proof.
  induction n as [|n IH]; intros r H x batch Hw Hh Hc Hin.
  - exists r, []. rewrite app_nil_r. split; [reflexivity|]. split; [constructor; try easy|]. split; [|constructor].
    apply (holds_ext r f H); [|exact Hh]. intros y. rewrite list_elem_of_filter. split; [intros ?; split; [lia|easy]|tauto].
  - rewrite zseq_S in Hin |- *. pose proof (Hin x ltac:(apply elem_of_cons; now left)) as Hx.
    destruct (find_held r f H x Hh Hx) as (i & m & Hf & Hm & Hk). cbn [detach_loop]. rewrite Hf. cbn [mbind option_bind].
    rewrite (proj1 Hm). cbn [fmap option_fmap option_map]. fold (take_message r i m). rewrite next_marker.
    destruct (take_message_wf r i m Hw (proj1 Hm) (proj1 (proj2 Hm))) as (Hw' & Hrest & Hb).
    destruct (IH (take_message r i m) (filter (fun y => y <> x) H) (x + 1) (batch ++ [m])) as (r' & l & -> & [D1 D2 D3 D4 D5] & Hh' & Hl).
    + exact Hw'.
    + now apply (take_message_holds r f H x).
    + intros y z [_ Hy]%list_elem_of_filter [_ Hz]%list_elem_of_filter. now apply Hc.
    + intros y Hy. apply list_elem_of_filter. split; [apply elem_of_zseq in Hy; lia|]. apply Hin, elem_of_cons. now right.
    + pose proof (fun g j n => take_message_buffered r i m g j n (proj1 Hm)) as Hbuf.
      exists r', (m :: l). split; [now rewrite <- app_assoc|]. split; [constructor|split].
      * exact D1.
      * now transitivity (take_message r i m).
      * lia.
      * intros g K Hg HK. apply D4; [exact Hg|]. now apply (take_message_other r f).
      * intros j n0 Hj Ha. specialize (D5 j n0 Hj Ha). unfold take_message in D5.
        cbn [set_r_order_bytes set_r_order_messages r_order_messages] in D5. destruct (decide (j = i)) as [->|Hne].
        -- rewrite list_lookup_insert_eq in D5 by (apply (lookup_lt_Some _ _ _ (proj1 Hm))). injection D5 as <-. discriminate.
        -- now rewrite list_lookup_insert_ne in D5 by auto.
      * refine (holds_ext _ _ _ _ _ Hh'). intros y. rewrite !list_elem_of_filter. intuition lia.
      * constructor; [split; [exact Hk|now exists i]|]. revert Hl. apply List.Forall2_impl.
        intros y n0 (Hy & j & Hj). split; [exact Hy|]. exists j. now apply Hbuf in Hj.
Qed.

Lemma detach_spec r f H x n batch :
  receive_wf r -> holds r f H -> close H -> (forall y, y ∈ zseq x n -> y ∈ H) -> 0 <= n -> zlen batch + n <= batch_limit ->
  exists r' l, melodi_order_detach_locked r f (marker_of x) n batch = (r', batch ++ l, Ok tt) /\ detached r r' f /\
    holds r' f (filter (fun y => ~ (x <= y < x + n)) H) /\ Forall2 (delivers r f) (zseq x n) l.
Proof.
  intros Hw Hh Hc Hin Hn Hroom. unfold melodi_order_detach_locked. replace (batch_limit - zlen batch <? n) with false by lia.
  rewrite <- (Z2Nat.id n Hn) in Hin. rewrite (detach_check_true r f H x _ Hh Hin). cbn [negb].
  destruct (detach_loop_spec f (Z.to_nat n) r H x batch Hw Hh Hc Hin) as (r' & l & E & Hd & Hh' & Hl).
  rewrite Z2Nat.id in Hh', Hl by exact Hn. exists r', l. rewrite E. auto.
Qed.

(** ** The invariant *)

Definition spec_of_flow (r : receive_state) (f : nat) (flow : melodi_order_rx_flow) (s : order_spec) : Prop :=
  order_rep flow.(orx_state) s /\ holds r f s.(held).

(** What identifies a flow. *)
Definition flow_key (flow : melodi_order_rx_flow) : melodi_node_id * Z * Z * Z * Z :=
  (flow.(orx_source), flow.(orx_session_epoch), flow.(orx_generation), flow.(orx_source_service), flow.(orx_destination_service)).

(** A message has the source and the services of its flow. *)
Definition belongs (m : melodi_order_message) (k : melodi_node_id * Z * Z * Z * Z) : Prop :=
  let '(source, _, _, source_service, destination_service) := k in
  m.(om_source) = source /\ m.(om_source_service) = source_service /\ m.(om_destination_service) = destination_service.

(** Each flow in use follows its specification, and each buffered message is of
    a flow in use. *)
Record order_rel (r : receive_state) (specs : gmap (melodi_node_id * Z * Z * Z * Z) order_spec) : Prop := {
  or_wf : receive_wf r;
  or_limit : r.(r_order_bytes) <= MELODI_ORDER_BYTE_LIMIT;
  or_keys : table_wf orx_active flow_key r.(r_order_rx);
  or_messages f i m : buffered r f i m -> exists flow, r.(r_order_rx) !! f = Some flow /\ flow.(orx_active) = true /\
    belongs m (flow_key flow);
  or_nat i m : r.(r_order_messages) !! i = Some m -> m.(om_active) = true -> exists f, m.(om_flow_index) = Z.of_nat f;
  or_active f flow : r.(r_order_rx) !! f = Some flow -> flow.(orx_active) = true ->
    exists s, specs !! flow_key flow = Some s /\ spec_of_flow r f flow s;
  or_specs k s : specs !! k = Some s ->
    exists f flow, r.(r_order_rx) !! f = Some flow /\ flow.(orx_active) = true /\ flow_key flow = k;
}.

Lemma held_window st s x : order_rep st s -> x ∈ s.(held) -> s.(next_index) < x <= s.(next_index) + 32.
Proof.
  intros (_ & Hp & Hb & Hh) Hx. specialize (Hh x Hx). split; [exact Hh|].
  destruct (Z.le_gt_cases x (next_index s + 32)); [assumption|exfalso].
  specialize (Hb (x - next_index s - 1) ltac:(lia)). rewrite bool_decide_eq_true_2 in Hb by (now replace (next_index s + 1 + (x - next_index s - 1)) with x by lia).
  rewrite (uint_testbit_high 32) in Hb; [discriminate|lia|exact Hp|lia].
Qed.

Lemma held_close st s : order_rep st s -> close (s.(next_index) :: s.(held)).
Proof.
  intros HR x y. rewrite !elem_of_cons. intros [->|Hx] [->|Hy];
    repeat match goal with H : _ ∈ held s |- _ => apply (held_window st s _ HR) in H end; lia.
Qed.

Lemma unbuffered_flow r specs f flow : order_rel r specs -> r.(r_order_rx) !! f = Some flow -> flow.(orx_active) = false -> holds r f [].
Proof.
  intros Hi Hf Ha. assert (forall i m, ~ buffered r f i m) as Hno.
  { intros i m Hm. destruct (or_messages r specs Hi f i m Hm) as (flow' & E & Hga & _). congruence. }
  constructor; [intros x Hx; now apply elem_of_nil in Hx| |]; intros i m; [|intros ? ?]; intros Hb; now apply Hno in Hb.
Qed.

(** Every marker is that of an index near the next one. *)
Lemma marker_near e marker : 1 <= marker < 2 ^ 32 -> exists i, marker = marker_of i /\ Z.abs (i - e) < 2 ^ 31.
Proof.
  intros Hm. change (2 ^ 32) with 4294967296 in Hm. change (2 ^ 31) with 2147483648.
  set (d := (marker - 1 - e) mod 4294967295). assert (0 <= d < 4294967295) by (apply Z.mod_pos_bound; lia).
  assert (marker_of (e + d) = marker) as E. { unfold marker_of, d. rewrite Zplus_mod_idemp_r. replace (e + (marker - 1 - e)) with (marker - 1) by lia. rewrite Z.mod_small; lia. }
  destruct (Z.lt_ge_cases d 2147483648).
  - exists (e + d). split; [now symmetry|lia].
  - exists (e + d - 4294967295). split; [|lia]. rewrite <- E. unfold marker_of. f_equal. div_lia.
Qed.

Lemma run_length_le fuel h k : run_length fuel h k <= Z.of_nat fuel.
Proof. revert k. induction fuel as [|fuel IH]; intros k; cbn [run_length]; [lia|]. case_decide; [specialize (IH (k + 1))|]; lia. Qed.

Lemma run_length_end fuel h k : run_length fuel h k < Z.of_nat fuel -> k + run_length fuel h k ∉ h.
Proof.
  revert k. induction fuel as [|fuel IH]; intros k; cbn [run_length]; [lia|]. case_decide as Hk; intros Hlt; [|now rewrite Z.add_0_r].
  replace (k + (1 + run_length fuel h (k + 1))) with (k + 1 + run_length fuel h (k + 1)) by lia. apply IH. lia.
Qed.

(** What the window releases is what the buffer has. *)
Lemma release_detach r f st s K m :
  receive_wf r -> order_rep st s -> holds r f K -> (forall x, x ∈ K <-> x = m \/ x ∈ s.(held)) ->
  s.(next_index) <= m -> m = s.(next_index) \/ m ∈ s.(held) -> (forall x, x ∈ s.(held) -> m <= x) ->
  let '(s', n) := spec_release s m in
  exists r' l, melodi_order_detach_locked r f (marker_of m) n [] = (r', l, Ok tt) /\ detached r r' f /\
    holds r' f s'.(held) /\ Forall2 (delivers r f) (zseq m n) l.
Proof.
  intros Hw HR Hh HK Hle Hm Hmin. unfold spec_release. set (n := run_length 32 (held s) (m + 1)).
  pose proof (run_length_le 32 (held s) (m + 1)) as Hn. pose proof (run_length_nonneg 32 (held s) (m + 1)) as Hn0. fold n in Hn, Hn0.
  destruct (detach_spec r f K m (1 + n) [] Hw Hh) as (r' & l & E & Hd & Hh' & Hl).
  - intros x y Hx%HK Hy%HK. apply (held_close st s HR); apply elem_of_cons; intuition congruence.
  - intros y Hy%elem_of_zseq. apply HK. destruct (decide (y = m)) as [->|]; [now left|right].
    replace y with (m + 1 + (y - m - 1)) by lia. apply (run_length_mem 32). fold n. lia.
  - lia.
  - unfold batch_limit, zlen. cbn [length]. lia.
  - exists r', l. split; [exact E|]. split; [exact Hd|]. split; [|exact Hl]. cbn [held].
    refine (holds_ext _ _ _ _ _ Hh'). intros y. rewrite !list_elem_of_filter, HK. split.
    + intros [Hy [->|Hin]]; [lia|]. specialize (Hmin y Hin). split; [|exact Hin].
      destruct (decide (y = m + 1 + n)) as [->|]; [exfalso|lia]. destruct (decide (n < 32)) as [Hlt|Hge].
      * apply (run_length_end 32 (held s) (m + 1)); fold n; [lia|exact Hin].
      * pose proof (held_window st s _ HR Hin). lia.
    + intros [Hy Hin]. split; [lia|now right].
Qed.

(** A message is put into a free place. *)
Definition put_message (r : receive_state) (i : nat) (m : melodi_order_message) : receive_state :=
  let r := set_r_order_messages (<[i := m]> r.(r_order_messages)) r in
  set_r_order_bytes (wrap 32 (r.(r_order_bytes) + m.(om_length))) r.

Lemma put_message_spec r i m f :
  receive_wf r -> melodi_order_message_empty r = Some i -> m.(om_active) = true -> m.(om_flow_index) = Z.of_nat f ->
  0 <= m.(om_length) <= MELODI_ORDER_BYTE_LIMIT - r.(r_order_bytes) ->
  receive_wf (put_message r i m) /\ same_rest r (put_message r i m) /\
  (put_message r i m).(r_order_bytes) = r.(r_order_bytes) + m.(om_length) /\
  (forall g j n, buffered (put_message r i m) g j n <-> buffered r g j n \/ g = f /\ j = i /\ n = m).
Proof.
  intros [W1 W2 W3 W4 W5 W6 W7 W8 W9] He Ha Hf Hl. apply find_index_Some in He as (z & Hi & Hz%negb_true_iff & _).
  assert (0 <= r_order_bytes r) as Hb0 by (rewrite W9; apply sumZ_nonneg, Forall_map; exact W7).
  assert (wrap 32 (r_order_bytes r + om_length m) = r_order_bytes r + om_length m) as Hwrap by (apply wrap_id; width_lia).
  assert (om_weight z = 0 /\ om_weight m = om_length m) as [Ez Em] by (unfold om_weight; now rewrite Hz, Ha).
  unfold put_message. split; [|split; [repeat split|split]].
  - constructor; cbn [set_r_order_bytes set_r_order_messages r_reassemblies r_reassembly_bytes r_receipts r_order_tx r_order_rx
      r_order_messages r_order_bytes]; try assumption; [now rewrite length_insert|apply Forall_insert; [exact W7|lia]|].
    rewrite Hwrap, (sum_weight_insert om_weight _ i z m Hi), Ez, Em, <- W9. lia.
  - cbn [set_r_order_bytes set_r_order_messages r_order_bytes]. exact Hwrap.
  - intros g j n. unfold buffered. cbn [set_r_order_bytes set_r_order_messages r_order_messages].
    destruct (decide (j = i)) as [->|Hne].
    + rewrite list_lookup_insert_eq by (apply (lookup_lt_Some _ _ _ Hi)). split.
      * intros ([= <-] & _ & Hg). right. assert (g = f) by lia. auto.
      * intros [(Hn & Hna & _)|(-> & _ & ->)]; [congruence|auto].
    + rewrite list_lookup_insert_ne by auto. split; [intros H; now left|intros [H|(_ & ? & _)]; [exact H|congruence]].
Qed.

Lemma put_message_holds r i m f H x :
  receive_wf r -> melodi_order_message_empty r = Some i -> m.(om_active) = true -> m.(om_flow_index) = Z.of_nat f ->
  0 <= m.(om_length) <= MELODI_ORDER_BYTE_LIMIT - r.(r_order_bytes) ->
  holds r f H -> close (x :: H) -> x ∉ H -> m.(om_marker) = marker_of x ->
  holds (put_message r i m) f (x :: H) /\ (forall g K, g <> f -> holds r g K -> holds (put_message r i m) g K).
Proof.
  intros Hw He Ha Hf Hl Hh Hc Hx Hk. destruct (put_message_spec r i m f Hw He Ha Hf Hl) as (_ & _ & _ & Hb).
  assert (forall j n, buffered r f j n -> n.(om_marker) <> marker_of x) as Hfresh.
  { intros j n Hn. destruct (ho_all _ _ _ Hh j n Hn) as (y & Hy & ->). intros E. apply Hx.
    rewrite <- (marker_inj y x); [exact Hy| |exact E]. apply Hc; apply elem_of_cons; auto. }
  split.
  - destruct Hh as [H1 H2 H3]. constructor.
    + intros y [->|Hy]%elem_of_cons.
      * exists i, m. split; [|exact Hk]. apply Hb. now right.
      * destruct (H1 y Hy) as (j & n & Hn & Hnk). exists j, n. split; [|exact Hnk]. apply Hb. now left.
    + intros j n [Hn|(_ & -> & ->)]%Hb.
      * destruct (H2 j n Hn) as (y & Hy & Hnk). exists y. split; [apply elem_of_cons; now right|exact Hnk].
      * exists x. split; [apply elem_of_cons; now left|exact Hk].
    + intros j k n n' [Hn|(_ & -> & ->)]%Hb [Hn'|(_ & -> & ->)]%Hb E.
      * now apply (H3 j k n n').
      * exfalso. apply (Hfresh j n Hn). congruence.
      * exfalso. apply (Hfresh k n' Hn'). congruence.
      * reflexivity.
  - intros g K Hg [H1 H2 H3].
    assert (forall j n, buffered (put_message r i m) g j n <-> buffered r g j n) as Hb'.
    { intros j n. rewrite Hb. split; [intros [H0|[? _]]; [exact H0|congruence]|now left]. }
    constructor; setoid_rewrite Hb'; assumption.
Qed.
