(* ===== verification/Identity.v ===== *)
(** * Identity checks of the kernel (src/kernel/core/main.c)

    Which node identities the kernel accepts from user space, and the counter
    that numbers outgoing control frames.  The point check of the vendored
    Ed25519 implementation is a parameter, as the integer it returns; nothing
    is assumed about it. *)
From S2P Require Import Prelude Buffer Uapi Device NodeId.

Definition prime : bytes :=
  [0xed; 0xff; 0xff; 0xff; 0xff; 0xff; 0xff; 0xff; 0xff; 0xff; 0xff; 0xff; 0xff; 0xff; 0xff; 0xff;
   0xff; 0xff; 0xff; 0xff; 0xff; 0xff; 0xff; 0xff; 0xff; 0xff; 0xff; 0xff; 0xff; 0xff; 0xff; 0x7f].

(** [for (index = MELODI_NODE_KEY_SIZE - 1; index >= 0; index--)] over the two
    arrays in the order they are visited: the loop's return value, or none when
    it runs to its end. *)
Fixpoint prime_loop (encoded prime : bytes) : option bool :=
  match encoded, prime with
  | e :: encoded, p :: prime =>
      if e <? p then Some true else if p <? e then Some false else prime_loop encoded prime
  | _, _ => None
  end.

Definition melodi_node_id_valid (crypto_eddsa_public_key_check : bytes -> Z) (node_id : melodi_node_id) : bool :=
  if negb (byte_at 0 node_id.(node_bytes) =? MELODI_NODE_ID_SCHEME_ED25519) then false else
  let encoded := drop 1 node_id.(node_bytes) in
  let '(different_zero, different_ones) :=
    fold_left (fun '(z, o) b => (Z.lor z b, Z.lor o (Z.lxor b 0xff))) encoded (0, 0) in
  if (different_zero =? 0) || (different_ones =? 0) then false else
  let encoded := <[31%nat := Z.land (byte_at 31 encoded) 0x7f]> encoded in
  match prime_loop (rev encoded) (rev prime) with
  | Some returned => returned
  | None => crypto_eddsa_public_key_check (drop 1 node_id.(node_bytes)) =? 0
  end.

Definition melodi_counter_next_locked (melodi : melodi_device) : melodi_device * result Z :=
  let link := melodi.(d_link) in
  if link.(l_transmit_counter) =? U64_MAX then (melodi, Err EOVERFLOW) else
  let counter := wrap 64 (link.(l_transmit_counter) + 1) in
  (set_d_link (set_l_transmit_counter counter link) melodi, Ok counter).

(** ** The accepted keys *)

Lemma fold_different l : forall z o, 0 <= z -> 0 <= o ->  Forall u8 l ->
  let '(z', o') := fold_left (fun '(z, o) b => (Z.lor z b, Z.lor o (Z.lxor b 0xff))) l (z, o) in
  0 <= z' /\ 0 <= o' /\ (z' = 0 <-> z = 0 /\ Forall (fun b => b = 0) l) /\
  (o' = 0 <-> o = 0 /\ Forall (fun b => b = 0xff) l).
Proof.
  induction l as [|b l IH]; intros z o Hz Ho Hl; cbn [fold_left].
  - conj_split; auto; split; auto; tauto.
  - apply Forall_cons_iff in Hl as [Hb Hl]. unfold uint in Hb.
    assert (0 <= Z.lxor b 0xff) by (apply Z.lxor_nonneg; lia).
    specialize (IH (Z.lor z b) (Z.lor o (Z.lxor b 0xff))). cbn beta iota in IH.
    destruct (fold_left _ l _) as [z' o']. destruct IH as (H1 & H2 & H3 & H4);
      [apply Z.lor_nonneg; lia|apply Z.lor_nonneg; lia|exact Hl|].
    conj_split; auto.
    + rewrite H3, Forall_cons_iff, Z.lor_eq_0_iff. tauto.
    + rewrite H4, Forall_cons_iff, Z.lor_eq_0_iff, Z.lxor_eq_0_iff. tauto.
Qed.

Lemma Forall_eq_replicate (x : Z) l n : length l = n -> Forall (fun b => b = x) l <-> l = replicate n x.
Proof.
  intros <-. induction l as [|a l IH]; cbn [length replicate]; [split; auto|].
  rewrite Forall_cons_iff, IH. split; [now intros [-> <-]|now intros [= -> <-]].
Qed.

(** The loop compares the numbers the arrays stand for. *)
Lemma prime_loop_compare l : forall k, length l = length k -> Forall u8 l -> Forall u8 k ->
  prime_loop l k = (if num 256 l <? num 256 k then Some true
                    else if num 256 k <? num 256 l then Some false else None).
Proof.
  induction l as [|a l IH]; intros [|b k] Hlen Hl Hk; try discriminate; [reflexivity|].
  cbn [length] in Hlen. apply Forall_cons_iff in Hl as [Ha Hl]. apply Forall_cons_iff in Hk as [Hb Hk].
  assert (forall d r, num 256 (d :: r) = d * 256 ^ Z.of_nat (length r) + num 256 r) as Hc.
  { intros d r. unfold num at 1. cbn [fold_left]. now rewrite num_acc. }
  rewrite !Hc. injection Hlen as Hlen.
  pose proof (num_bound 256 l ltac:(lia) Hl) as B1. pose proof (num_bound 256 k ltac:(lia) Hk) as B2.
  rewrite Hlen in B1 |- *. set (w := 256 ^ Z.of_nat (length k)) in *.
  cbn [prime_loop]. rewrite IH by auto. unfold uint in *.
  destruct (Z.ltb_spec a b); [|destruct (Z.ltb_spec b a)].
  - rewrite (proj2 (Z.ltb_lt _ _)) by nia. reflexivity.
  - rewrite (proj2 (Z.ltb_ge _ _)), (proj2 (Z.ltb_lt _ _)) by nia. reflexivity.
  - assert (a = b) as <- by lia.
    destruct (Z.ltb_spec (num 256 l) (num 256 k)), (Z.ltb_spec (a * w + num 256 l) (a * w + num 256 k)),
      (Z.ltb_spec (num 256 k) (num 256 l)), (Z.ltb_spec (a * w + num 256 k) (a * w + num 256 l));
      reflexivity || lia.
Qed.

(** The y-coordinate a key encodes, little-endian without its top bit. *)
Definition coordinate (key : bytes) : Z := num 256 (rev key) mod 2 ^ 255.
Definition field_prime : Z := 2 ^ 255 - 19.

Lemma masked_coordinate key :
  wf_bytes 32 key -> num 256 (rev (<[31%nat := Z.land (byte_at 31 key) 0x7f]> key)) = coordinate key.
Proof.
  intros [Hl Hu]. destruct (lookup_lt_is_Some_2 key 31) as [t Ht]; [lia|].
  rewrite (byte_at_lookup _ _ _ Ht).
  assert (key = take 31 key ++ [t]) as Hk.
  { rewrite <- (take_S_r _ _ _ Ht), take_ge by lia. reflexivity. }
  assert (length (take 31 key) = 31%nat) as H31 by (rewrite length_take; lia).
  assert (u8 t) as Hut by (rewrite list.Forall_lookup in Hu; exact (Hu _ _ Ht)).
  assert (Forall u8 (take 31 key)) as Hu31 by now apply Forall_take.
  set (l := take 31 key) in *. unfold coordinate. rewrite Hk.
  rewrite insert_app_r_alt, H31, Nat.sub_diag by lia. cbn [insert list_insert]. rewrite !rev_app_distr. cbn [rev app].
  assert (forall d, num 256 (d :: rev l) = d * 2 ^ 248 + num 256 (rev l)) as Hc.
  { intros d. unfold num at 1. cbn [fold_left]. rewrite num_acc, length_rev, H31. reflexivity. }
  rewrite !Hc. pose proof (num_bound 256 (rev l) ltac:(lia)) as B. rewrite length_rev, H31 in B.
  specialize (B ltac:(apply Forall_rev; exact Hu31)). change (256 ^ Z.of_nat 31) with (2 ^ 248) in B.
  change 0x7f with (Z.ones 7). rewrite Z.land_ones by lia. change (2 ^ 255) with (2 ^ 7 * 2 ^ 248).
  set (r := num 256 (rev l)) in *. clearbody r. change (2 ^ 7) with 128. set (w := 2 ^ 248) in *.
  rewrite <- (Z.mod_unique (t * w + r) (128 * w) (t / 128) (t mod 128 * w + r)); [reflexivity| |].
  - left. pose proof (Z.mod_pos_bound t 128). nia.
  - rewrite (Z.div_mod t 128) at 1 by lia. ring.
Qed.

(** C39: the identities the kernel accepts.  A node identity is accepted if
    and only if its scheme is Ed25519, its key is neither all zeros nor all
    ones, and the coordinate the key encodes is below the field prime, or equal
    to it and approved by the point check.  Below the prime the point check is
    not consulted. *)
Theorem node_id_valid_exact check node :
  wf_node_id node ->
  let key := drop 1 node.(node_bytes) in
  melodi_node_id_valid check node = true <->
  byte_at 0 node.(node_bytes) = MELODI_NODE_ID_SCHEME_ED25519 /\
  key <> replicate 32 0 /\ key <> replicate 32 0xff /\
  (coordinate key < field_prime \/ coordinate key = field_prime /\ check key = 0).
Proof.
  intros [Hl Hu]. cbv zeta. unfold melodi_node_id_valid.
  assert (wf_bytes 32 (drop 1 node.(node_bytes))) as Hk by (split; [rewrite length_drop; lia|auto with melodi]).
  set (key := drop 1 (node_bytes node)) in *.
  destruct (Z.eqb_spec (byte_at 0 (node_bytes node)) MELODI_NODE_ID_SCHEME_ED25519) as [->|Hne]; cbn [negb];
    [|split; [discriminate|tauto]].
  pose proof (fold_different key 0 0 ltac:(lia) ltac:(lia) (proj2 Hk)) as Hf.
  destruct (fold_left _ key (0, 0)) as [z o]. destruct Hf as (_ & _ & Hz & Ho).
  rewrite (Forall_eq_replicate 0 key 32) in Hz by apply Hk. rewrite (Forall_eq_replicate 0xff key 32) in Ho by apply Hk.
  destruct ((z =? 0) || (o =? 0)) eqn:E.
  - split; [discriminate|]. intros (_ & N0 & N1 & _). exfalso.
    apply orb_true_iff in E as [E%Z.eqb_eq|E%Z.eqb_eq]; [now apply N0, Hz|now apply N1, Ho].
  - guard_hyps. rewrite prime_loop_compare.
    + rewrite masked_coordinate by exact Hk. change (num 256 (rev prime)) with field_prime.
      assert (key <> replicate 32 0 /\ key <> replicate 32 255) by tauto.
      destruct (Z.ltb_spec (coordinate key) field_prime); [intuition lia|].
      destruct (Z.ltb_spec field_prime (coordinate key)).
      * split; [discriminate|]. intuition lia.
      * rewrite Z.eqb_eq. intuition lia.
    + rewrite !length_rev, length_insert. exact (proj1 Hk).
    + apply Forall_rev, Forall_insert; [apply Hk|]. apply uint_land; [lia|apply byte_at_u8, Hk|lia].
    + apply Forall_rev. by_decide.
Qed.

Lemma node_id_valid_exact_witness :
  melodi_node_id_valid (fun _ => -1) sample_id = true.
Proof.
  apply (node_id_valid_exact (fun _ => -1) sample_id ltac:(by_decide)).
  split; [reflexivity|]. split; [discriminate|]. split; [discriminate|]. left. by_decide.
Defined.

(** The kernel accepts identities even when the point check rejects their key:
    [return true] where the vendored check itself breaks out of the same
    comparison and goes on to test the point. *)
Lemma node_id_valid_skips_point_check :
  exists node, wf_node_id node /\ melodi_node_id_valid (fun _ => -1) node = true.
Proof. exists (MkNodeId ([1; 2] ++ replicate 31 0)). split; [by_decide|]. vm_compute. reflexivity. Qed.
