(* ===== verification/Policy.v ===== *)
(** * Peer and service policy (src/kernel/core/policy.c)

    Trusted and blocked peers, allowed and denied services, and the checks
    every message passes before it is sent.  A table entry is found by its
    index.  The functions that change the policy release the lock before they
    call into the queue, the data path and discovery; those calls are the last
    component of their result, in order, and are made on the state returned. *)
From stdpp Require Import gmap.
From S2P Require Import Prelude Buffer Uapi Slots Device Peers Identity.

(** What a function calls after it has released the lock:
    [melodi_policy_state_changed] and, as the function's own return value,
    [melodi_discovery_announce]. *)
Inductive after : Set := StateChanged | Announce.

Definition melodi_policy_peer_locked (melodi : melodi_device) (node_id : melodi_node_id) (create : bool)
    : option nat :=
  match slot_search pp_active (fun e => node_eqb e.(pp_node_id) node_id) melodi.(d_policy).(y_peers) 0 None with
  | (Some index, _) => Some index
  | (None, empty) => if create then empty else None
  end.

(** The state of the entry found, if one is. *)
Definition entry_state (melodi : melodi_device) (node_id : melodi_node_id) : option Z :=
  match melodi_policy_peer_locked melodi node_id false with
  | Some index => pp_state <$> melodi.(d_policy).(y_peers) !! index
  | None => None
  end.

Definition state_is (entry : option Z) (state : Z) : bool :=
  match entry with Some s => s =? state | None => false end.

Definition melodi_policy_check_locked (melodi : melodi_device) (node_id : melodi_node_id) : result unit :=
  let entry := entry_state melodi node_id in
  if state_is entry MELODI_PEER_BLOCKED then Err EACCES else
  if (melodi.(d_policy).(y_mode) =? MELODI_POLICY_REQUIRE_TRUST) && negb (state_is entry MELODI_PEER_TRUSTED)
  then Err EACCES else Ok tt.

Definition melodi_policy_check_service_locked (melodi : melodi_device) (service : Z) (broadcast : bool)
    : result unit :=
  if broadcast && negb melodi.(d_policy).(y_broadcast_allowed) then Err EACCES else
  match find_index (fun e => e.(ps_active) && (e.(ps_service) =? service)) melodi.(d_policy).(y_services) with
  | Some index =>
      match melodi.(d_policy).(y_services) !! index with
      | Some e => if e.(ps_action) =? MELODI_POLICY_SERVICE_DENY then Err EACCES else Ok tt
      | None => Ok tt
      end
  | None => Ok tt
  end.

Definition melodi_policy_check_message_locked (melodi : melodi_device) (destination : melodi_node_id)
    (destination_service : Z) (broadcast : bool) : result unit :=
  _ ← (if negb broadcast then melodi_policy_check_locked melodi destination else Ok tt);
  melodi_policy_check_service_locked melodi destination_service broadcast.

Definition melodi_policy_peer_state_locked (melodi : melodi_device) (peer : melodi_peer) : Z :=
  let entry := entry_state melodi peer.(p_node_id) in
  if state_is entry MELODI_PEER_BLOCKED then MELODI_PEER_BLOCKED else
  if peer.(p_conflicted) then MELODI_PEER_CONFLICTED else
  if negb peer.(p_session_ready)
  then (if peer.(p_handshake_pending) then MELODI_PEER_CHALLENGED else MELODI_PEER_OBSERVED) else
  if state_is entry MELODI_PEER_TRUSTED then MELODI_PEER_TRUSTED else MELODI_PEER_AUTHENTICATED.

Definition melodi_policy_peer_policy_locked (melodi : melodi_device) (peer : melodi_peer) : Z :=
  match entry_state melodi peer.(p_node_id) with
  | None => MELODI_PEER_POLICY_DEFAULT
  | Some state => if state =? MELODI_PEER_BLOCKED then MELODI_PEER_POLICY_BLOCKED else MELODI_PEER_POLICY_TRUSTED
  end.

(** Updates of the policy tables of a device. *)
Definition with_policy_peers (l : list melodi_policy_peer) (melodi : melodi_device) : melodi_device :=
  set_d_policy (set_y_peers l melodi.(d_policy)) melodi.
Definition with_policy_services (l : list melodi_policy_service) (melodi : melodi_device) : melodi_device :=
  set_d_policy (set_y_services l melodi.(d_policy)) melodi.

Section Policy.
  Context (crypto_eddsa_public_key_check : bytes -> Z).
  Abbreviation melodi_node_id_valid := (Identity.melodi_node_id_valid crypto_eddsa_public_key_check).

Definition melodi_policy_set_peer (melodi : melodi_device) (node_id : melodi_node_id) (state : Z)
    : melodi_device * result unit * list after :=
  if negb (melodi_node_id_valid node_id) ||
     (negb (state =? MELODI_PEER_TRUSTED) && negb (state =? MELODI_PEER_BLOCKED))
  then (melodi, Err EINVAL, []) else
  match melodi_policy_peer_locked melodi node_id true with
  | None => (melodi, Err ENOSPC, [])
  | Some index =>
      let melodi := with_policy_peers
                      (<[index := MkPolicyPeer node_id state true]> melodi.(d_policy).(y_peers)) melodi in
      let melodi :=
        if state =? MELODI_PEER_BLOCKED then
          match melodi_peer_by_node melodi node_id with
          | Some peer => melodi_peer_session_reset_locked melodi peer
          | None => melodi
          end
        else melodi in
      (melodi, Ok tt, [StateChanged])
  end.

Definition melodi_policy_clear_peer (melodi : melodi_device) (node_id : melodi_node_id)
    : melodi_device * result unit * list after :=
  if negb (melodi_node_id_valid node_id) then (melodi, Err EINVAL, []) else
  match melodi_policy_peer_locked melodi node_id false with
  | Some index =>
      (with_policy_peers (<[index := zero_policy_peer]> melodi.(d_policy).(y_peers)) melodi, Ok tt, [StateChanged])
  | None => (melodi, Err ENOENT, [])
  end.

Definition melodi_policy_set_service (melodi : melodi_device) (service action : Z)
    : melodi_device * result unit * list after :=
  if (service =? MELODI_SERVICE_CONTROL) || (action <? MELODI_POLICY_SERVICE_ALLOW) ||
     (MELODI_POLICY_SERVICE_CLEAR <? action)
  then (melodi, Err EINVAL, []) else
  let services := melodi.(d_policy).(y_services) in
  let '(entry, empty) := slot_search ps_active (fun e => e.(ps_service) =? service) services 0 None in
  if action =? MELODI_POLICY_SERVICE_CLEAR then
    match entry with
    | Some index => (with_policy_services (<[index := zero_policy_service]> services) melodi, Ok tt, [StateChanged])
    | None => (melodi, Err ENOENT, [])
    end
  else
    match (match entry with Some index => Some index | None => empty end) with
    | Some index =>
        (with_policy_services (<[index := MkPolicyService service (wrap 8 action) true]> services) melodi,
         Ok tt, [StateChanged])
    | None => (melodi, Err ENOSPC, [])
    end.

Definition melodi_policy_set_broadcast (melodi : melodi_device) (allowed : bool)
    : melodi_device * result unit * list after :=
  (set_d_policy (set_y_broadcast_allowed allowed melodi.(d_policy)) melodi, Ok tt, [StateChanged]).

Definition melodi_policy_set_mode (melodi : melodi_device) (mode : Z)
    : melodi_device * result unit * list after :=
  if (mode <? MELODI_POLICY_ALLOW_AUTHENTICATED) || (MELODI_POLICY_REQUIRE_TRUST <? mode)
  then (melodi, Err EINVAL, []) else
  (set_d_policy (set_y_mode mode melodi.(d_policy)) melodi, Ok tt, [StateChanged]).

Definition melodi_policy_reset (melodi : melodi_device) : melodi_device * result unit * list after :=
  (set_d_policy (MkPolicy MELODI_POLICY_ALLOW_AUTHENTICATED true
     (replicate MELODI_POLICY_PEER_LIMIT zero_policy_peer)
     (replicate MELODI_POLICY_SERVICE_LIMIT zero_policy_service)) melodi, Ok tt, []).

(** The result is that of the announcement when there is one. *)
Definition melodi_policy_reverify_peer (melodi : melodi_device) (node_id : melodi_node_id)
    : melodi_device * result unit * list after :=
  if negb (melodi_node_id_valid node_id) then (melodi, Err EINVAL, []) else
  match melodi_peer_by_node melodi node_id with
  | Some peer => (melodi_peer_session_reset_locked melodi peer, Ok tt, [StateChanged; Announce])
  | None => (melodi, Err ENOENT, [])
  end.
End Policy.

(** Whether a queued or reserved message may still be sent (src/kernel/core/data.c). *)
Definition melodi_data_queue_valid_locked (melodi : melodi_device) (destination : melodi_node_id)
    (destination_service : Z) (broadcast : bool) (metadata : melodi_tx_meta)
    (identity_generation session_epoch : Z) : result unit :=
  let link := melodi.(d_link) in
  if negb link.(l_identity_ready) || negb link.(l_transport_ready) ||
     negb (link.(l_identity_generation) =? identity_generation) ||
     negb (link.(l_local_link_locator) =? metadata.(tm_source_locator))
  then Err EKEYREVOKED else
  match melodi_policy_check_message_locked melodi destination destination_service broadcast with
  | Err e => Err e
  | Ok _ =>
      if broadcast then Ok tt else
      match melodi_peer_by_node melodi destination ≫= fun i => melodi.(d_peers) !! i with
      | None => Err EHOSTUNREACH
      | Some peer =>
          if negb peer.(p_session_ready) || peer.(p_conflicted) ||
             negb (peer.(p_link_locator) =? metadata.(tm_destination_locator))
          then Err EHOSTUNREACH else
          if peer.(p_session_epoch) =? session_epoch then Ok tt else Err EKEYREVOKED
      end
  end.

(** ** The specification: two finite maps and two switches *)

Record policy_spec := MkPolicySpec {
  spec_mode : Z;
  spec_broadcast : bool;
  spec_peers : gmap melodi_node_id Z;
  spec_services : gmap Z Z;
}.

Definition spec_of (y : policy_state) : policy_spec :=
  MkPolicySpec y.(y_mode) y.(y_broadcast_allowed)
    (table_map pp_active pp_node_id pp_state y.(y_peers))
    (table_map ps_active ps_service ps_action y.(y_services)).

Record policy_wf (y : policy_state) : Prop := {
  wf_peers_length : length y.(y_peers) = MELODI_POLICY_PEER_LIMIT;
  wf_services_length : length y.(y_services) = MELODI_POLICY_SERVICE_LIMIT;
  wf_peers_table : table_wf pp_active pp_node_id y.(y_peers);
  wf_services_table : table_wf ps_active ps_service y.(y_services);
}.

(** Which messages the policy admits. *)
Definition spec_admits (s : policy_spec) (destination : melodi_node_id) (service : Z) (broadcast : bool) : bool :=
  (if broadcast then s.(spec_broadcast) else
   match s.(spec_peers) !! destination with
   | Some state => negb (state =? MELODI_PEER_BLOCKED) &&
                   ((state =? MELODI_PEER_TRUSTED) || negb (s.(spec_mode) =? MELODI_POLICY_REQUIRE_TRUST))
   | None => negb (s.(spec_mode) =? MELODI_POLICY_REQUIRE_TRUST)
   end) &&
  match s.(spec_services) !! service with
  | Some action => negb (action =? MELODI_POLICY_SERVICE_DENY)
  | None => true
  end.

(** The requests of the administrator. *)
Inductive policy_request :=
| SetPeer (node : melodi_node_id) (state : Z)
| ClearPeer (node : melodi_node_id)
| SetService (service action : Z)
| SetBroadcast (allowed : bool)
| SetMode (mode : Z)
| ResetPolicy
| Reverify (node : melodi_node_id).

Section Refinement.
  Context (check : bytes -> Z).

Definition policy_exec (melodi : melodi_device) (q : policy_request)
    : melodi_device * result unit * list after :=
  match q with
  | SetPeer node state => melodi_policy_set_peer check melodi node state
  | ClearPeer node => melodi_policy_clear_peer check melodi node
  | SetService service action => melodi_policy_set_service melodi service action
  | SetBroadcast allowed => melodi_policy_set_broadcast melodi allowed
  | SetMode mode => melodi_policy_set_mode melodi mode
  | ResetPolicy => melodi_policy_reset melodi
  | Reverify node => melodi_policy_reverify_peer check melodi node
  end.

(** What a request does to the specification; [known] says whether a peer with
    the identity is authenticated, which only re-verification asks. *)
Definition spec_exec (known : melodi_node_id -> bool) (s : policy_spec) (q : policy_request)
    : policy_spec * result unit :=
  let with_peers m := MkPolicySpec s.(spec_mode) s.(spec_broadcast) m s.(spec_services) in
  let with_services m := MkPolicySpec s.(spec_mode) s.(spec_broadcast) s.(spec_peers) m in
  match q with
  | SetPeer node state =>
      if negb (melodi_node_id_valid check node) || negb (bool_decide (state = 1 \/ state = 2)) then (s, Err EINVAL) else
      if bool_decide (s.(spec_peers) !! node = None /\ size s.(spec_peers) = 64%nat) then (s, Err ENOSPC)
      else (with_peers (<[node := state]> s.(spec_peers)), Ok tt)
  | ClearPeer node =>
      if negb (melodi_node_id_valid check node) then (s, Err EINVAL) else
      if bool_decide (s.(spec_peers) !! node = None) then (s, Err ENOENT)
      else (with_peers (delete node s.(spec_peers)), Ok tt)
  | SetService service action =>
      if negb (bool_decide (service <> MELODI_SERVICE_CONTROL /\ 1 <= action <= 3)) then (s, Err EINVAL) else
      if action =? MELODI_POLICY_SERVICE_CLEAR then
        if bool_decide (s.(spec_services) !! service = None) then (s, Err ENOENT)
        else (with_services (delete service s.(spec_services)), Ok tt)
      else if bool_decide (s.(spec_services) !! service = None /\ size s.(spec_services) = 64%nat)
      then (s, Err ENOSPC) else (with_services (<[service := action]> s.(spec_services)), Ok tt)
  | SetBroadcast allowed => (MkPolicySpec s.(spec_mode) allowed s.(spec_peers) s.(spec_services), Ok tt)
  | SetMode mode =>
      if bool_decide (mode = 0 \/ mode = 1)
      then (MkPolicySpec mode s.(spec_broadcast) s.(spec_peers) s.(spec_services), Ok tt) else (s, Err EINVAL)
  | ResetPolicy => (MkPolicySpec 0 true ∅ ∅, Ok tt)
  | Reverify node =>
      if negb (melodi_node_id_valid check node) then (s, Err EINVAL) else
      if known node then (s, Ok tt) else (s, Err ENOENT)
  end.

Definition known (melodi : melodi_device) (node : melodi_node_id) : bool :=
  match melodi_peer_by_node melodi node with Some _ => true | None => false end.

(** Ending a session leaves the policy alone. *)
Lemma session_reset_policy melodi i : d_policy (melodi_peer_session_reset_locked melodi i) = d_policy melodi.
Proof. unfold melodi_peer_session_reset_locked. now destruct (d_peers melodi !! i). Qed.

Lemma block_policy melodi node :
  d_policy (match melodi_peer_by_node melodi node with
            | Some peer => melodi_peer_session_reset_locked melodi peer
            | None => melodi
            end) = d_policy melodi.
Proof. destruct (melodi_peer_by_node melodi node); [apply session_reset_policy|reflexivity]. Qed.

(** Writing the entry of a peer that has one, or a free entry. *)
Lemma write_peer melodi node state i e :
  policy_wf melodi.(d_policy) -> melodi.(d_policy).(y_peers) !! i = Some e ->
  (e.(pp_active) = true /\ e.(pp_node_id) = node \/
   e.(pp_active) = false /\ (spec_of melodi.(d_policy)).(spec_peers) !! node = None) ->
  let melodi1 := with_policy_peers (<[i := MkPolicyPeer node state true]> melodi.(d_policy).(y_peers)) melodi in
  let melodi2 := if state =? MELODI_PEER_BLOCKED then
                   match melodi_peer_by_node melodi1 node with
                   | Some peer => melodi_peer_session_reset_locked melodi1 peer
                   | None => melodi1
                   end
                 else melodi1 in
  policy_wf melodi2.(d_policy) /\
  spec_of melodi2.(d_policy) =
    let s := spec_of melodi.(d_policy) in
    MkPolicySpec s.(spec_mode) s.(spec_broadcast) (<[node := state]> s.(spec_peers)) s.(spec_services).
Proof.
  intros [H1 H2 H3 H4] He Hcase. cbv zeta. set (melodi1 := with_policy_peers _ _).
  assert (d_policy (if state =? MELODI_PEER_BLOCKED then
                   match melodi_peer_by_node melodi1 node with
                   | Some peer => melodi_peer_session_reset_locked melodi1 peer
                   | None => melodi1
                   end
                 else melodi1) = d_policy melodi1) as ->
    by (destruct (state =? 2); [apply block_policy|reflexivity]).
  destruct (table_insert pp_active pp_node_id pp_state (y_peers (d_policy melodi)) i e
              (MkPolicyPeer node state true) node H3 He Hcase eq_refl eq_refl) as [Hw' Hm'].
  split; [constructor; cbn; rewrite ?length_insert; auto|].
  unfold spec_of. cbn [d_policy melodi1 with_policy_peers set_d_policy set_y_peers y_peers y_services y_mode
    y_broadcast_allowed spec_mode spec_broadcast spec_peers spec_services]. now rewrite Hm'.
Qed.

Lemma set_peer_refines melodi node state :
  policy_wf melodi.(d_policy) ->
  let '(melodi', r, _) := melodi_policy_set_peer check melodi node state in
  policy_wf melodi'.(d_policy) /\
  (spec_of melodi'.(d_policy), r) = spec_exec (known melodi) (spec_of melodi.(d_policy)) (SetPeer node state).
Proof.
  intros Hwf. unfold melodi_policy_set_peer, melodi_policy_peer_locked. cbn [spec_exec].
  assert (negb (bool_decide (state = 1 \/ state = 2)) = negb (state =? MELODI_PEER_TRUSTED) && negb (state =? MELODI_PEER_BLOCKED)) as ->.
  { rewrite <- negb_orb. f_equal. apply eq_true_iff_eq. rewrite bool_decide_eq_true, orb_true_iff, !Z.eqb_eq. reflexivity. }
  destruct (negb (melodi_node_id_valid check node) || _); [now split|].
  pose proof (slot_search_table pp_active pp_node_id pp_state melodi.(d_policy).(y_peers) node (wf_peers_table _ Hwf)) as Hs.
  change (fun e => bool_decide (pp_node_id e = node)) with (fun e => node_eqb (pp_node_id e) node) in Hs.
  change (table_map pp_active pp_node_id pp_state (y_peers (d_policy melodi))) with (spec_peers (spec_of (d_policy melodi))) in Hs.
  rewrite (wf_peers_length _ Hwf) in Hs.
  destruct (slot_search pp_active _ _ 0 None) as [[i|] empty].
  - destruct Hs as (e & He & Ha & Hk & Hl). rewrite bool_decide_eq_false_2 by (intros [? _]; congruence).
    destruct (write_peer melodi node state i e Hwf He ltac:(auto)) as [Hw Hm]. split; [exact Hw|]. now rewrite Hm.
  - destruct empty as [i|].
    + destruct Hs as (Hn & Hsz & e & He & Ha). rewrite bool_decide_eq_false_2 by (intros [_ ?]; lia).
      destruct (write_peer melodi node state i e Hwf He ltac:(auto)) as [Hw Hm]. split; [exact Hw|]. now rewrite Hm.
    + rewrite bool_decide_eq_true_2 by tauto. now split.
Qed.

Lemma clear_peer_refines melodi node :
  policy_wf melodi.(d_policy) ->
  let '(melodi', r, _) := melodi_policy_clear_peer check melodi node in
  policy_wf melodi'.(d_policy) /\
  (spec_of melodi'.(d_policy), r) = spec_exec (known melodi) (spec_of melodi.(d_policy)) (ClearPeer node).
Proof.
  intros Hwf. unfold melodi_policy_clear_peer, melodi_policy_peer_locked. cbn [spec_exec].
  destruct (negb (melodi_node_id_valid check node)); [now split|].
  pose proof (slot_search_table pp_active pp_node_id pp_state melodi.(d_policy).(y_peers) node (wf_peers_table _ Hwf)) as Hs.
  change (fun e => bool_decide (pp_node_id e = node)) with (fun e => node_eqb (pp_node_id e) node) in Hs.
  change (table_map pp_active pp_node_id pp_state (y_peers (d_policy melodi))) with (spec_peers (spec_of (d_policy melodi))) in Hs.
  destruct (slot_search pp_active _ _ 0 None) as [[i|] empty].
  - destruct Hs as (e & He & Ha & Hk & Hl). rewrite bool_decide_eq_false_2 by congruence.
    destruct (table_delete pp_active pp_node_id pp_state (y_peers (d_policy melodi)) i e zero_policy_peer node
                (wf_peers_table _ Hwf) He Ha Hk eq_refl) as [Hw' Hm'].
    destruct Hwf as [H1 H2 H3 H4]. split; [constructor; cbn; rewrite ?length_insert; auto|].
    unfold spec_of. cbn [d_policy with_policy_peers set_d_policy set_y_peers y_peers y_services y_mode
      y_broadcast_allowed spec_mode spec_broadcast spec_peers spec_services]. now rewrite Hm'.
  - rewrite bool_decide_eq_true_2 by (destruct empty; tauto). now split.
Qed.

Lemma write_service melodi i e e' m :
  policy_wf melodi.(d_policy) -> melodi.(d_policy).(y_services) !! i = Some e ->
  table_wf ps_active ps_service (<[i := e']> melodi.(d_policy).(y_services)) /\
  table_map ps_active ps_service ps_action (<[i := e']> melodi.(d_policy).(y_services)) = m ->
  let melodi' := with_policy_services (<[i := e']> melodi.(d_policy).(y_services)) melodi in
  policy_wf melodi'.(d_policy) /\
  spec_of melodi'.(d_policy) =
    let s := spec_of melodi.(d_policy) in
    MkPolicySpec s.(spec_mode) s.(spec_broadcast) s.(spec_peers) m.
Proof.
  intros [H1 H2 H3 H4] He [Hw Hm]. split; [constructor; cbn; rewrite ?length_insert; auto|].
  unfold spec_of. cbn. now rewrite <- Hm.
Qed.

Lemma set_service_refines melodi service action :
  policy_wf melodi.(d_policy) ->
  let '(melodi', r, _) := melodi_policy_set_service melodi service action in
  policy_wf melodi'.(d_policy) /\
  (spec_of melodi'.(d_policy), r) = spec_exec (known melodi) (spec_of melodi.(d_policy)) (SetService service action).
Proof.
  intros Hwf. unfold melodi_policy_set_service. cbn [spec_exec].
  assert (negb (bool_decide (service <> MELODI_SERVICE_CONTROL /\ 1 <= action <= 3)) =
    (service =? MELODI_SERVICE_CONTROL) || (action <? MELODI_POLICY_SERVICE_ALLOW) || (MELODI_POLICY_SERVICE_CLEAR <? action)) as ->.
  { apply eq_true_iff_eq. rewrite negb_true_iff, bool_decide_eq_false, !orb_true_iff, Z.eqb_eq, !Z.ltb_lt. lia. }
  destruct (_ || _ || _) eqn:Hg; [now split|]. guard_hyps.
  pose proof (slot_search_table ps_active ps_service ps_action melodi.(d_policy).(y_services) service (wf_services_table _ Hwf)) as Hs.
  rewrite (slot_search_ext _ _ (fun e => ps_service e =? service)) in Hs
    by (intros e; apply eq_true_iff_eq; now rewrite bool_decide_eq_true, Z.eqb_eq).
  change (table_map ps_active ps_service ps_action (y_services (d_policy melodi))) with (spec_services (spec_of (d_policy melodi))) in Hs.
  rewrite (wf_services_length _ Hwf) in Hs. rewrite (wrap_id 8 action) by (unfold uint; lia).
  destruct (slot_search ps_active _ _ 0 None) as [[i|] empty].
  - destruct Hs as (e & He & Ha & Hk & Hl). destruct (action =? MELODI_POLICY_SERVICE_CLEAR).
    + rewrite bool_decide_eq_false_2 by congruence.
      destruct (write_service melodi i e _ _ Hwf He (table_delete ps_active ps_service ps_action _ i e
        zero_policy_service service (wf_services_table _ Hwf) He Ha Hk eq_refl)) as [Hw Hm].
      split; [exact Hw|]. now rewrite Hm.
    + rewrite bool_decide_eq_false_2 by (intros [? _]; congruence).
      destruct (write_service melodi i e _ _ Hwf He (table_insert ps_active ps_service ps_action _ i e
        (MkPolicyService service action true) service (wf_services_table _ Hwf) He ltac:(auto) eq_refl eq_refl)) as [Hw Hm].
      split; [exact Hw|]. now rewrite Hm.
  - assert (spec_services (spec_of (d_policy melodi)) !! service = None) as Hn by (destruct empty; tauto).
    destruct (action =? MELODI_POLICY_SERVICE_CLEAR); [now rewrite bool_decide_eq_true_2|].
    destruct empty as [i|].
    + destruct Hs as (_ & Hsz & e & He & Ha). rewrite bool_decide_eq_false_2 by (intros [_ ?]; lia).
      destruct (write_service melodi i e _ _ Hwf He (table_insert ps_active ps_service ps_action _ i e
        (MkPolicyService service action true) service (wf_services_table _ Hwf) He ltac:(auto) eq_refl eq_refl)) as [Hw Hm].
      split; [exact Hw|]. now rewrite Hm.
    + rewrite bool_decide_eq_true_2 by tauto. now split.
Qed.

Lemma policy_exec_refines melodi q :
  policy_wf melodi.(d_policy) ->
  let '(melodi', r, _) := policy_exec melodi q in
  policy_wf melodi'.(d_policy) /\
  (spec_of melodi'.(d_policy), r) = spec_exec (known melodi) (spec_of melodi.(d_policy)) q.
Proof.
  intros Hwf. destruct q as [node state|node|service action|allowed|mode| |node]; cbn [policy_exec].
  - now apply set_peer_refines.
  - now apply clear_peer_refines.
  - now apply set_service_refines.
  - cbn. destruct Hwf. split; [now constructor|reflexivity].
  - unfold melodi_policy_set_mode. cbn [spec_exec].
    assert (bool_decide (mode = 0 \/ mode = 1) =
      negb ((mode <? MELODI_POLICY_ALLOW_AUTHENTICATED) || (MELODI_POLICY_REQUIRE_TRUST <? mode))) as ->.
    { apply eq_true_iff_eq. rewrite bool_decide_eq_true, negb_true_iff, orb_false_iff, !Z.ltb_ge. lia. }
    destruct (_ || _); cbn [negb]; [now split|]. cbn. destruct Hwf. split; [now constructor|reflexivity].
  - destruct (empty_table pp_active pp_node_id pp_state 64 zero_policy_peer eq_refl) as [W1 M1].
    destruct (empty_table ps_active ps_service ps_action 64 zero_policy_service eq_refl) as [W2 M2].
    unfold melodi_policy_reset. split; [constructor; auto|]. cbn [spec_exec]. unfold spec_of.
    cbn [d_policy set_d_policy y_peers y_services y_mode y_broadcast_allowed]. now rewrite M1, M2.
  - unfold melodi_policy_reverify_peer. cbn [spec_exec]. destruct (negb _); [now split|].
    unfold known. destruct (melodi_peer_by_node melodi node) as [i|]; [|now split].
    rewrite session_reset_policy. now split.
Qed.

(** Any sequence of requests: the final device and the answers. *)
Fixpoint policy_run (melodi : melodi_device) (qs : list policy_request) : melodi_device * list (result unit) :=
  match qs with
  | [] => (melodi, [])
  | q :: qs =>
      let '(melodi, r, _) := policy_exec melodi q in
      let '(melodi, rs) := policy_run melodi qs in (melodi, r :: rs)
  end.

(** Requests other than re-verification do not ask which peers there are. *)
Definition no_reverify (q : policy_request) : bool := match q with Reverify _ => false | _ => true end.

Fixpoint spec_run (s : policy_spec) (qs : list policy_request) : policy_spec * list (result unit) :=
  match qs with
  | [] => (s, [])
  | q :: qs =>
      let '(s, r) := spec_exec (fun _ => false) s q in
      let '(s, rs) := spec_run s qs in (s, r :: rs)
  end.

Lemma policy_run_refines qs : forall melodi,
  policy_wf melodi.(d_policy) -> forallb no_reverify qs = true ->
  let '(melodi', rs) := policy_run melodi qs in
  policy_wf melodi'.(d_policy) /\ spec_run (spec_of melodi.(d_policy)) qs = (spec_of melodi'.(d_policy), rs).
Proof.
  induction qs as [|q qs IH]; intros melodi Hwf Hq; [now split|]. cbn [forallb] in Hq.
  apply andb_true_iff in Hq as [Hq1 Hq]. cbn [policy_run spec_run].
  pose proof (policy_exec_refines melodi q Hwf) as H. destruct (policy_exec melodi q) as [[melodi1 r] calls].
  destruct H as [Hwf1 Hs]. assert (spec_exec (fun _ => false) (spec_of (d_policy melodi)) q = (spec_of (d_policy melodi1), r)) as ->
    by (rewrite Hs; now destruct q).
  specialize (IH melodi1 Hwf1 Hq). destruct (policy_run melodi1 qs) as [melodi2 rs]. destruct IH as [Hwf2 ->]. now split.
Qed.

(** ** The checks *)

Lemma entry_state_spec melodi node :
  policy_wf melodi.(d_policy) -> entry_state melodi node = (spec_of melodi.(d_policy)).(spec_peers) !! node.
Proof.
  intros Hwf. unfold entry_state, melodi_policy_peer_locked.
  pose proof (slot_search_table pp_active pp_node_id pp_state melodi.(d_policy).(y_peers) node (wf_peers_table _ Hwf)) as Hs.
  change (fun e => bool_decide (pp_node_id e = node)) with (fun e => node_eqb (pp_node_id e) node) in Hs.
  destruct (slot_search pp_active _ _ 0 None) as [[i|] empty]; cbn [spec_of spec_peers].
  - destruct Hs as (e & He & _ & _ & Hl). now rewrite He, Hl.
  - destruct empty; symmetry; apply Hs.
Qed.

Lemma check_message_spec melodi destination service broadcast :
  policy_wf melodi.(d_policy) ->
  melodi_policy_check_message_locked melodi destination service broadcast =
  if spec_admits (spec_of melodi.(d_policy)) destination service broadcast then Ok tt else Err EACCES.
Proof.
  intros Hwf. unfold melodi_policy_check_message_locked, spec_admits.
  assert (melodi_policy_check_service_locked melodi service broadcast =
    if (if broadcast then (spec_of melodi.(d_policy)).(spec_broadcast) else true) &&
       match (spec_of melodi.(d_policy)).(spec_services) !! service with
       | Some action => negb (action =? MELODI_POLICY_SERVICE_DENY)
       | None => true
       end then Ok tt else Err EACCES) as ->.
  { unfold melodi_policy_check_service_locked. cbn [spec_of spec_broadcast spec_services].
    destruct broadcast, (y_broadcast_allowed (d_policy melodi)); cbn [negb andb]; try reflexivity.
    all: set (l := y_services (d_policy melodi)); assert (table_wf ps_active ps_service l) as Hw by apply Hwf.
    all: rewrite (find_index_ext _ (matches_key ps_active ps_service service))
           by (intros e; unfold matches_key; f_equal; apply eq_true_iff_eq; now rewrite bool_decide_eq_true, Z.eqb_eq).
    all: destruct (find_index (matches_key ps_active ps_service service) l) as [i|] eqn:F;
           [destruct (find_key_Some _ _ _ _ _ F) as (e & He & _); rewrite He;
            rewrite (find_key_lookup ps_active ps_service ps_action l service i e Hw F He); now destruct (ps_action e =? 2)
           |apply (find_key_None ps_active ps_service ps_action) in F; [|exact Hw]; now rewrite F]. }
  destruct broadcast; cbn [negb]; [reflexivity|].
  unfold melodi_policy_check_locked. rewrite entry_state_spec by exact Hwf. cbn [spec_of spec_mode].
  destruct (spec_peers (spec_of (d_policy melodi)) !! destination) as [state|]; cbn [state_is].
  - destruct (state =? 2), (state =? 1), (y_mode (d_policy melodi) =? 1); reflexivity.
  - destruct (y_mode (d_policy melodi) =? 1); reflexivity.
Qed.

Lemma fresh_policy_wf : policy_wf fresh_device.(d_policy).
Proof.
  constructor; [reflexivity|reflexivity| |].
  - apply (empty_table pp_active pp_node_id pp_state 64 zero_policy_peer eq_refl).
  - apply (empty_table ps_active ps_service ps_action 64 zero_policy_service eq_refl).
Qed.

(** C34: the tables implement finite maps.  After any sequence of requests on
    a device with sound tables the answers are those of the specification with
    a map from identities to trust and a map from services to actions
    (full only at sixty-four keys, [ENOSPC] for one more, [ENOENT] for what is
    not there), the tables are still sound, and a message is admitted exactly
    when the maps and the two switches admit it, otherwise [EACCES]. *)
Theorem policy_refines_maps melodi qs destination service broadcast :
  policy_wf melodi.(d_policy) -> forallb no_reverify qs = true ->
  let '(melodi', rs) := policy_run melodi qs in
  policy_wf melodi'.(d_policy) /\
  spec_run (spec_of melodi.(d_policy)) qs = (spec_of melodi'.(d_policy), rs) /\
  melodi_policy_check_message_locked melodi' destination service broadcast =
    if spec_admits (spec_of melodi'.(d_policy)) destination service broadcast then Ok tt else Err EACCES.
Proof.
  intros Hwf Hq. pose proof (policy_run_refines qs melodi Hwf Hq) as H.
  destruct (policy_run melodi qs) as [melodi' rs]. destruct H as [Hwf' Hs]. auto using check_message_spec.
Qed.
End Refinement.

(** ** Blocked peers *)

Section Blocked.
  Context (check : bytes -> Z) (node : melodi_node_id).

(** A request that does not lift a block of [node]. *)
Definition keeps_block (q : policy_request) : Prop :=
  match q with
  | SetPeer n state => n = node -> state = MELODI_PEER_BLOCKED
  | ClearPeer n => n <> node
  | ResetPolicy => False
  | _ => True
  end.

Definition blocked (melodi : melodi_device) : Prop :=
  policy_wf melodi.(d_policy) /\
  (spec_of melodi.(d_policy)).(spec_peers) !! node = Some MELODI_PEER_BLOCKED.

Lemma blocked_exec melodi q :
  blocked melodi -> keeps_block q -> blocked (policy_exec check melodi q).1.1.
Proof.
  intros [Hwf Hb] Hk. pose proof (policy_exec_refines check melodi q Hwf) as H.
  destruct (policy_exec check melodi q) as [[melodi1 r] calls]. destruct H as [Hwf1 Hs]. cbn [fst].
  split; [exact Hwf1|]. set (s := spec_of (d_policy melodi)) in *. set (s1 := spec_of (d_policy melodi1)) in *.
  clearbody s s1. destruct q as [n state|n|service action|allowed|mode| |n]; cbn [spec_exec keeps_block] in *;
    repeat case_match; simplify_eq; cbn [spec_peers]; auto.
  - destruct (decide (n = node)) as [->|]; [rewrite lookup_insert_eq; f_equal; auto|now rewrite lookup_insert_ne].
  - now rewrite lookup_delete_ne.
  - contradiction.
Qed.

Lemma blocked_run qs : forall melodi,
  blocked melodi -> Forall keeps_block qs -> blocked (policy_run check melodi qs).1.
Proof.
  induction qs as [|q qs IH]; intros melodi Hb Hq; [exact Hb|]. apply Forall_cons_iff in Hq as [Hq1 Hq].
  pose proof (blocked_exec melodi q Hb Hq1) as H1. cbn [policy_run].
  destruct (policy_exec check melodi q) as [[melodi1 r] calls]. cbn [fst] in H1. specialize (IH melodi1 H1 Hq).
  now destruct (policy_run check melodi1 qs).
Qed.

Lemma blocked_denied melodi service : blocked melodi ->
  melodi_policy_check_message_locked melodi node service false = Err EACCES.
Proof.
  intros [Hwf Hb]. rewrite check_message_spec by exact Hwf. unfold spec_admits. now rewrite Hb.
Qed.

(** C15: a blocked peer is cut off.  Once blocking an identity has succeeded,
    then whatever requests follow, unless one trusts or clears that identity or
    resets the policy, every unicast message to it is refused with [EACCES] and
    nothing queued for it is still valid; it is reported as blocked; and a peer
    with that identity has lost its session at the moment of blocking. *)
Theorem blocked_peer_cut_off melodi melodi1 calls qs service metadata generation epoch peer :
  policy_wf melodi.(d_policy) -> Forall keeps_block qs ->
  melodi_policy_set_peer check melodi node MELODI_PEER_BLOCKED = (melodi1, Ok tt, calls) ->
  let melodi' := (policy_run check melodi1 qs).1 in
  melodi_policy_check_message_locked melodi' node service false = Err EACCES /\
  melodi_data_queue_valid_locked melodi' node service false metadata generation epoch <> Ok tt /\
  (peer.(p_node_id) = node -> melodi_policy_peer_state_locked melodi' peer = MELODI_PEER_BLOCKED) /\
  calls = [StateChanged] /\
  (forall i p, melodi_peer_by_node melodi node = Some i -> melodi.(d_peers) !! i = Some p ->
     receive_wf melodi.(d_receive) -> u64 p.(p_session_epoch) ->
     exists p', melodi1.(d_peers) !! i = Some p' /\ session_gone p p').
Proof.
  intros Hwf Hq Hset. cbv zeta.
  assert (blocked melodi1) as Hb1.
  { pose proof (set_peer_refines check melodi node MELODI_PEER_BLOCKED Hwf) as H. rewrite Hset in H.
    destruct H as [Hwf1 Hs]. split; [exact Hwf1|]. cbn [spec_exec] in Hs. repeat case_match; simplify_eq.
    match goal with G : spec_of (d_policy melodi1) = _ |- _ => rewrite G end. apply lookup_insert_eq. }
  pose proof (blocked_run qs melodi1 Hb1 Hq) as Hb'. set (melodi' := (policy_run check melodi1 qs).1) in *.
  conj_split.
  - now apply blocked_denied.
  - unfold melodi_data_queue_valid_locked. rewrite blocked_denied by exact Hb'. destruct (_ || _ || _ || _); discriminate.
  - intros Hn. unfold melodi_policy_peer_state_locked. destruct Hb' as [Hwf' Hb'].
    now rewrite Hn, entry_state_spec, Hb' by exact Hwf'.
  - unfold melodi_policy_set_peer in Hset. repeat case_match; simplify_eq; reflexivity.
  - intros i p Hi Hp Hr Hu. unfold melodi_policy_set_peer in Hset. destruct (_ || _); [discriminate|].
    destruct (melodi_policy_peer_locked melodi node true) as [k|]; [|discriminate]. cbn [Z.eqb Pos.eqb] in Hset.
    set (m0 := with_policy_peers _ _) in Hset. change (melodi_peer_by_node m0 node) with (melodi_peer_by_node melodi node) in Hset.
    rewrite Hi in Hset. destruct (session_reset_result m0 i p Hr Hp Hu) as (p' & Hg & Hres).
    injection Hset as <- _. exists p'. split; [|exact Hg]. rewrite Hres. cbn [d_peers].
    apply list_lookup_insert_eq. apply lookup_lt_Some in Hp. exact Hp.
Qed.
End Blocked.

(** ** Concrete requests *)

Definition sample_requests : list policy_request :=
  [SetPeer (sample_peer 4 30).(p_node_id) MELODI_PEER_TRUSTED; SetService 40 MELODI_POLICY_SERVICE_DENY;
   SetMode MELODI_POLICY_REQUIRE_TRUST; ClearPeer (sample_peer 5 30).(p_node_id)].

Lemma policy_refines_maps_witness :
  melodi_policy_check_message_locked (policy_run (fun _ => 0) sample_device sample_requests).1
    (sample_peer 4 30).(p_node_id) 40 false = Err EACCES /\
  (policy_run (fun _ => 0) sample_device sample_requests).2 = [Ok tt; Ok tt; Ok tt; Err ENOENT].
Proof.
  pose proof (policy_refines_maps (fun _ => 0) sample_device sample_requests (sample_peer 4 30).(p_node_id) 40 false
    fresh_policy_wf eq_refl) as H.
  destruct (policy_run (fun _ => 0) sample_device sample_requests) as [melodi' rs] eqn:E.
  destruct H as (_ & Hr & Hc). cbn [fst snd]. split.
  - rewrite Hc. replace (spec_of (d_policy melodi')) with (spec_run (fun _ => 0) (spec_of (d_policy sample_device)) sample_requests).1
      by now rewrite Hr. vm_compute. reflexivity.
  - replace rs with (spec_run (fun _ => 0) (spec_of (d_policy sample_device)) sample_requests).2 by now rewrite Hr.
    vm_compute. reflexivity.
Defined.

Lemma blocked_peer_cut_off_witness :
  let node := (sample_peer 4 30).(p_node_id) in
  let melodi1 := (melodi_policy_set_peer (fun _ => 0) sample_device node MELODI_PEER_BLOCKED).1.1 in
  melodi_policy_check_message_locked
    (policy_run (fun _ => 0) melodi1 [SetMode MELODI_POLICY_ALLOW_AUTHENTICATED; Reverify node]).1 node 7 false =
  Err EACCES.
Proof.
  cbv zeta.
  apply (blocked_peer_cut_off (fun _ => 0) (sample_peer 4 30).(p_node_id) sample_device
    (melodi_policy_set_peer (fun _ => 0) sample_device (sample_peer 4 30).(p_node_id) MELODI_PEER_BLOCKED).1.1
    [StateChanged] [SetMode MELODI_POLICY_ALLOW_AUTHENTICATED; Reverify (sample_peer 4 30).(p_node_id)]
    7 zero_tx_meta 0 0 zero_peer fresh_policy_wf); [repeat constructor|vm_compute; reflexivity].
Defined.
