(* ===== verification/Queue.v ===== *)
(** * The transmit queue (src/kernel/core/queue.c): state and operations

    Reservations, queued frames, the limits of device, peer, service, binding
    and network namespace, and the worker that schedules frames onto the link.

    [core] is a device together with the namespace table, which all devices
    share, and the log of what the queue did to the outside: delivery errors
    reported to bindings, frames released, frames shown to the monitor and frames
    handed to the link.  Table entries are indices.  The clock, the state of the
    interface and the answers of the link driver are arguments.  A scheduled work
    item is the delay in milliseconds it was last scheduled with (a delay the
    code gives in jiffies is kept as it is). *)
From S2P Require Import Prelude Buffer Uapi Slots Device Peers Policy.
From S2P Require Import Airtime.

(** ** Namespaces *)

Record melodi_namespace_queue := MkNamespace { ns_net : Z; ns_messages : Z; ns_bytes : Z }.

Inductive event : Type :=
| DeliveryError (portid generation service cookie : Z) (error : errno)
| Released (frame : bytes)
| Monitored (frame : bytes)
| Transmitted (frame : bytes) (meta : melodi_tx_meta).

Record core := MkCore {
  c_dev : melodi_device;
  c_spaces : list melodi_namespace_queue;
  c_log : list event;
}.

Abbreviation tx s := (s.(c_dev).(d_tx)).

Definition set_tx (t : tx_state) (s : core) : core := MkCore (set_d_tx t s.(c_dev)) s.(c_spaces) s.(c_log).
Definition set_spaces (l : list melodi_namespace_queue) (s : core) : core := MkCore s.(c_dev) l s.(c_log).
Definition emit (e : event) (s : core) : core := MkCore s.(c_dev) s.(c_spaces) (s.(c_log) ++ [e]).

Definition melodi_namespace_queue_find (spaces : list melodi_namespace_queue) (net : Z) : option nat :=
  find_index (fun q => q.(ns_net) =? net) spaces.

(** [alloc]: whether the allocation of a new record succeeds. *)
Definition melodi_namespace_queue_get (alloc : bool) (spaces : list melodi_namespace_queue) (net : Z)
    : option (list melodi_namespace_queue * nat) :=
  match melodi_namespace_queue_find spaces net with
  | Some i => Some (spaces, i)
  | None => if alloc then Some (spaces ++ [MkNamespace net 0 0], length spaces) else None
  end.

Definition melodi_namespace_queue_put (spaces : list melodi_namespace_queue) (i : nat)
    : list melodi_namespace_queue :=
  match spaces !! i with
  | Some q => if negb (q.(ns_messages) =? 0) then spaces else delete i spaces
  | None => spaces
  end.

(** [namespace->messages += messages; namespace->bytes += bytes] at 32 bits. *)
Definition namespace_add (messages bytes : Z) (i : nat) (spaces : list melodi_namespace_queue)
    : list melodi_namespace_queue :=
  alter (fun q => MkNamespace q.(ns_net) (wrap 32 (q.(ns_messages) + messages)) (wrap 32 (q.(ns_bytes) + bytes)))
    i spaces.

(** ** Entries and reservations *)

Definition melodi_queue_has_peer (t : tx_state) (peer_index : nat) : bool :=
  existsb (fun e => e.(e_active) && negb e.(e_control) && Nat.eqb e.(e_peer_index) peer_index) t.(t_queue) ||
  existsb (fun r => r.(v_active) && Nat.eqb r.(v_peer_index) peer_index) t.(t_reservations).

Definition melodi_queue_has_flow (t : tx_state) (flow_index : nat) : bool :=
  existsb (fun e => e.(e_active) && negb e.(e_control) && Nat.eqb e.(e_flow_index) flow_index) t.(t_queue) ||
  existsb (fun r => r.(v_active) && Nat.eqb r.(v_flow_index) flow_index) t.(t_reservations).

Definition melodi_reservation_find_locked (t : tx_state) (id : Z) : option nat :=
  find_index (fun r => r.(v_active) && (r.(v_id) =? id)) t.(t_reservations).

(** The clearing of turns nobody uses any more. *)
Definition release_flow (flow_index : nat) (t : tx_state) : tx_state :=
  if melodi_queue_has_flow t flow_index then t
  else set_t_flows (<[flow_index := zero_tx_flow_turn]> t.(t_flows)) t.
Definition release_peer (peer_index : nat) (t : tx_state) : tx_state :=
  if melodi_queue_has_peer t peer_index then t
  else set_t_peers (<[peer_index := zero_tx_peer_turn]> t.(t_peers)) t.

Definition melodi_reservation_remove_locked (s : core) (index : nat) : core :=
  match (tx s).(t_reservations) !! index with
  | None => s
  | Some reservation =>
      let namespace := melodi_namespace_queue_find s.(c_spaces) reservation.(v_net) in
      let s := match namespace with
               | Some i => set_spaces (namespace_add (- reservation.(v_count)) (- reservation.(v_bytes)) i s.(c_spaces)) s
               | None => s
               end in
      let t := tx s in
      let t := set_t_reserved_count (wrap 16 (t.(t_reserved_count) - reservation.(v_count))) t in
      let t := set_t_reserved_bytes (wrap 32 (t.(t_reserved_bytes) - reservation.(v_bytes))) t in
      let t := if reservation.(v_pending_reserved)
               then set_t_pending_reserved (wrap 16 (t.(t_pending_reserved) - 1)) t else t in
      let t := set_t_reservations (<[index := zero_tx_reservation]> t.(t_reservations)) t in
      let t := release_flow reservation.(v_flow_index) t in
      let t := release_peer reservation.(v_peer_index) t in
      let s := set_tx t s in
      match namespace with
      | Some i => set_spaces (melodi_namespace_queue_put s.(c_spaces) i) s
      | None => s
      end
  end.

(** The entry's frame is the caller's. *)
Definition melodi_queue_remove_locked (s : core) (index : nat) : core * bytes :=
  match (tx s).(t_queue) !! index with
  | None => (s, [])
  | Some entry =>
      let namespace := melodi_namespace_queue_find s.(c_spaces) entry.(e_net) in
      let s := match namespace with
               | Some i => set_spaces (namespace_add (-1) (- entry.(e_length)) i s.(c_spaces)) s
               | None => s
               end in
      let t := tx s in
      let t := set_t_queue_count (wrap 16 (t.(t_queue_count) - 1)) t in
      let t := set_t_queue_bytes (wrap 32 (t.(t_queue_bytes) - entry.(e_length))) t in
      let t := set_t_queue (<[index := zero_tx_queue_entry]> t.(t_queue)) t in
      let t := if entry.(e_control) then t else release_flow entry.(e_flow_index) t in
      let t := if entry.(e_control) then t else release_peer entry.(e_peer_index) t in
      let s := set_tx t s in
      (match namespace with
       | Some i => set_spaces (melodi_namespace_queue_put s.(c_spaces) i) s
       | None => s
       end, entry.(e_frame))
  end.

(** [kfree_skb(frame); stats.tx_dropped++] *)
Definition drop_frame (frame : bytes) (s : core) : core :=
  let s := emit (Released frame) s in
  set_tx (set_t_dropped ((tx s).(t_dropped) + 1) (tx s)) s.

(** ** Notices *)

Record melodi_queue_notice := MkNotice {
  n_binding_generation : Z;
  n_cookie : Z;
  n_binding_portid : Z;
  n_service : Z;
  n_error : option errno;
  n_active : bool;
}.

Definition zero_notice : melodi_queue_notice := MkNotice 0 0 0 0 None false.

Definition melodi_queue_notice_entry (notice : melodi_queue_notice) (entry : melodi_tx_queue_entry) (error : errno)
    : melodi_queue_notice :=
  if notice.(n_active) || entry.(e_terminal_notified) then notice else
  MkNotice entry.(e_binding_generation) entry.(e_metadata).(tm_cookie) entry.(e_binding_portid)
    entry.(e_service) (Some error) true.

Definition melodi_queue_notice_reservation (reservation : melodi_tx_reservation) (error : errno)
    : melodi_queue_notice :=
  MkNotice reservation.(v_binding_generation) reservation.(v_cookie) reservation.(v_binding_portid)
    reservation.(v_service) (Some error) true.

Definition melodi_queue_notify (notice : melodi_queue_notice) (s : core) : core :=
  match notice.(n_active), notice.(n_error) with
  | true, Some error =>
      emit (DeliveryError notice.(n_binding_portid) notice.(n_binding_generation) notice.(n_service)
              notice.(n_cookie) error) s
  | _, _ => s
  end.

(** ** Pending messages (src/kernel/core/data.c) *)

Definition melodi_pending_clear (s : core) (index : nat) : core :=
  match s.(c_dev).(d_pending) !! index with
  | Some pending =>
      if negb pending.(pm_allocated) then s else
      let s := fold_left (fun s f => emit (Released f) s)
                 (take (Z.to_nat pending.(pm_reliability).(Reliability.fragment_count)) pending.(pm_fragments)) s in
      MkCore (set_d_pending (<[index := zero_pending_message]> s.(c_dev).(d_pending)) s.(c_dev))
        s.(c_spaces) s.(c_log)
  | None => s
  end.

Definition melodi_data_cancel_pending_locked (s : core) (destination : melodi_node_id)
    (message_id reservation_id : Z) : core * bool :=
  match find_index (fun p =>
          p.(pm_allocated) &&
          ((reservation_id =? 0) || (p.(pm_reservation_id) =? reservation_id)) &&
          ((message_id =? 0) || (p.(pm_reliability).(Reliability.message_id) =? message_id)) &&
          node_eqb p.(pm_destination) destination) s.(c_dev).(d_pending) with
  | Some index => (melodi_pending_clear s index, true)
  | None => (s, false)
  end.

(** ** Cancelling a group *)

Definition queue_indices : list nat := seq 0 MELODI_TX_QUEUE_LIMIT.

(** The entries of a group of the same reliable message as the representative. *)
Definition same_message (representative entry : melodi_tx_queue_entry) : bool :=
  representative.(e_reliable) && negb (representative.(e_message_id) =? 0) && entry.(e_reliable) &&
  (entry.(e_message_id) =? representative.(e_message_id)) &&
  (entry.(e_binding_portid) =? representative.(e_binding_portid)) &&
  (entry.(e_binding_generation) =? representative.(e_binding_generation)) &&
  (entry.(e_service) =? representative.(e_service)) &&
  node_eqb entry.(e_destination) representative.(e_destination).

(** One turn of the loop that cancels. *)
Definition cancel_entry (group_id : Z) (owned : option nat) (representative : melodi_tx_queue_entry)
    (s : core) (index : nat) : core :=
  match (tx s).(t_queue) !! index with
  | None => s
  | Some entry =>
      if negb entry.(e_active) || (negb (entry.(e_group_id) =? group_id) && negb (same_message representative entry))
      then s else
      if entry.(e_in_flight) && negb (bool_decide (owned = Some index)) then
        set_tx (set_t_queue (<[index := set_e_terminal_notified true (set_e_cancelled true entry)]>
                               (tx s).(t_queue)) (tx s)) s
      else
        let '(s, frame) := melodi_queue_remove_locked s index in drop_frame frame s
  end.

Definition melodi_queue_cancel_group_locked (s : core) (group_id : Z) (owned : option nat) (error : errno)
    (notice : melodi_queue_notice) : core * melodi_queue_notice * bool :=
  let members := filter (fun e => e.(e_active) && (e.(e_group_id) =? group_id) = true) (tx s).(t_queue) in
  let notice := fold_left (fun n e => melodi_queue_notice_entry n e error) members notice in
  match members with
  | [] => (s, notice, false)
  | representative :: _ =>
      let s := if representative.(e_reliable)
               then (melodi_data_cancel_pending_locked s representative.(e_destination)
                       representative.(e_message_id) 0).1
               else s in
      (fold_left (cancel_entry group_id owned representative) queue_indices s, notice, true)
  end.

(** ** Turns and capacity *)

Definition melodi_queue_peer_locked (t : tx_state) (locator : Z) : result (nat * bool) :=
  match slot_search pt_active (fun p => p.(pt_locator) =? locator) t.(t_peers) 0 None with
  | (Some index, _) => Ok (index, false)
  | (None, Some empty) => Ok (empty, true)
  | (None, None) => Err ENOSPC
  end.

Definition melodi_queue_flow_locked (t : tx_state) (locator : Z) (request : melodi_queue_request)
    : result (nat * bool) :=
  match slot_search ft_active
          (fun f => (f.(ft_locator) =? locator) && (f.(ft_service) =? request.(q_service)) &&
                    (f.(ft_binding_portid) =? request.(q_binding_portid)) &&
                    (f.(ft_binding_generation) =? request.(q_binding_generation))) t.(t_flows) 0 None with
  | (Some index, _) => Ok (index, false)
  | (None, Some empty) => Ok (empty, true)
  | (None, None) => Err ENOSPC
  end.

(** What an entry and a reservation count for in the limits. *)
Definition entry_data (e : melodi_tx_queue_entry) : bool := e.(e_active) && negb e.(e_control).
Definition entry_count (c : melodi_tx_queue_entry -> bool) (e : melodi_tx_queue_entry) : Z :=
  if entry_data e && c e then 1 else 0.
Definition reservation_count (c : melodi_tx_reservation -> bool) (r : melodi_tx_reservation) : Z :=
  if r.(v_active) && c r then r.(v_count) else 0.

Definition tally (ce : melodi_tx_queue_entry -> bool) (cr : melodi_tx_reservation -> bool) (t : tx_state) : Z :=
  sumZ (map (entry_count ce) t.(t_queue)) + sumZ (map (reservation_count cr) t.(t_reservations)).

Definition data_count (t : tx_state) : Z := tally (fun _ => true) (fun _ => true) t.
Definition peer_count (locator : Z) (t : tx_state) : Z :=
  tally (fun e => e.(e_metadata).(tm_destination_locator) =? locator) (fun r => r.(v_locator) =? locator) t.
Definition service_count (service : Z) (t : tx_state) : Z :=
  tally (fun e => e.(e_service) =? service) (fun r => r.(v_service) =? service) t.
Definition binding_count (portid generation : Z) (t : tx_state) : Z :=
  tally (fun e => (e.(e_binding_portid) =? portid) && (e.(e_binding_generation) =? generation))
    (fun r => (r.(v_binding_portid) =? portid) && (r.(v_binding_generation) =? generation)) t.

(** The namespace table (a record may have been added), the record found, and
    the verdict.  The per-peer, per-service and per-binding counts matter only
    for data. *)
Definition melodi_queue_capacity_locked (alloc : bool) (s : core) (net locator : Z)
    (request : melodi_queue_request) (count bytes : Z)
    : core * option nat * result unit :=
  let t := tx s in
  match melodi_namespace_queue_get alloc s.(c_spaces) net with
  | None => (s, None, Err ENOMEM)
  | Some (spaces, i) =>
      let s := set_spaces spaces s in
      let namespace := default (MkNamespace net 0 0) (spaces !! i) in
      let data := negb request.(q_control) in
      if (128 <? count) || (MELODI_TX_BYTE_LIMIT <? bytes) || (MELODI_TX_NAMESPACE_LIMIT <? count) ||
         (MELODI_TX_NAMESPACE_BYTE_LIMIT <? bytes)
      then (s, Some i, Err ENOBUFS) else
      if data && ((MELODI_TX_DATA_LIMIT <? count) || (MELODI_TX_PER_PEER_LIMIT <? count) ||
                  (MELODI_TX_PER_SERVICE_LIMIT <? count) || (MELODI_TX_PER_BINDING_LIMIT <? count))
      then (s, Some i, Err ENOBUFS) else
      if (128 - count <? t.(t_queue_count) + t.(t_reserved_count)) ||
         (MELODI_TX_BYTE_LIMIT - bytes <? wrap 32 (t.(t_queue_bytes) + t.(t_reserved_bytes))) ||
         (MELODI_TX_NAMESPACE_LIMIT - count <? namespace.(ns_messages)) ||
         (MELODI_TX_NAMESPACE_BYTE_LIMIT - bytes <? namespace.(ns_bytes))
      then (s, Some i, Err ENOBUFS) else
      if data && ((MELODI_TX_DATA_LIMIT - count <? data_count t) ||
                  (MELODI_TX_PER_PEER_LIMIT - count <? peer_count locator t) ||
                  (MELODI_TX_PER_SERVICE_LIMIT - count <? service_count request.(q_service) t) ||
                  (MELODI_TX_PER_BINDING_LIMIT - count <?
                     binding_count request.(q_binding_portid) request.(q_binding_generation) t))
      then (s, Some i, Err ENOBUFS) else
      (s, Some i, Ok tt)
  end.

(** ** Reservations *)

(** [melodi_reservation_schedule_locked]: the earliest expiry decides. *)
Definition melodi_reservation_schedule_locked (now_ms : Z) (t : tx_state) : tx_state :=
  let next_ms := fold_left (fun next r => if r.(v_active) then Z.min next r.(v_expires_ms) else next)
                   t.(t_reservations) U64_MAX in
  if next_ms =? U64_MAX then t
  else set_t_reservation_work (Some (if now_ms <? next_ms then next_ms - now_ms else 1)) t.

(** One turn of the expiry work; whether it goes on. *)
Definition melodi_reservation_work_turn (s : core) (now_ms : Z) : core * bool :=
  match find_index (fun r => r.(v_active) && (r.(v_expires_ms) <=? now_ms)) (tx s).(t_reservations) with
  | None => (set_tx (melodi_reservation_schedule_locked now_ms (tx s)) s, false)
  | Some index =>
      match (tx s).(t_reservations) !! index with
      | None => (s, false)
      | Some reservation =>
          let s := melodi_reservation_remove_locked s index in
          let s := set_tx (set_t_queue_expired (wrap 64 ((tx s).(t_queue_expired) + 1)) (tx s)) s in
          let s := set_tx (set_t_dropped ((tx s).(t_dropped) + 1) (tx s)) s in
          (emit (DeliveryError reservation.(v_binding_portid) reservation.(v_binding_generation)
                   reservation.(v_service) reservation.(v_cookie) ETIMEDOUT) s, true)
      end
  end.

(** The work with the successive readings of the clock. *)
Fixpoint melodi_reservation_work (nows : list Z) (s : core) : core * bool :=
  match nows with
  | [] => (s, true)
  | now_ms :: nows =>
      let '(s, continue) := melodi_reservation_work_turn s now_ms in
      if continue then melodi_reservation_work nows s else (s, false)
  end.

(** The turns of a new peer and flow. *)
Definition create_peer (created : bool) (peer_index : nat) (locator : Z) (t : tx_state) : tx_state :=
  if created
  then set_t_peers (alter (fun p => MkPeerTurn p.(pt_turn) locator true) peer_index t.(t_peers)) t else t.
Definition create_flow (created : bool) (flow_index peer_index : nat) (locator : Z)
    (request : melodi_queue_request) (t : tx_state) : tx_state :=
  if created
  then set_t_flows (alter (fun f => MkFlowTurn f.(ft_turn) request.(q_binding_generation) locator
                                      request.(q_binding_portid) request.(q_service) peer_index true)
                      flow_index t.(t_flows)) t else t.

(** The error path of reserving: turns created and not used, and the namespace
    record, are given back. *)
Definition reserve_fail (peer flow : option nat) (namespace : option nat) (s : core) : core :=
  let t := tx s in
  let t := match flow with Some i => release_flow i t | None => t end in
  let t := match peer with Some i => release_peer i t | None => t end in
  let s := set_tx t s in
  match namespace with
  | Some i => set_spaces (melodi_namespace_queue_put s.(c_spaces) i) s
  | None => s
  end.

Definition created_slot (r : nat * bool) : option nat := if r.2 then Some r.1 else None.

Definition melodi_queue_reserve (alloc : bool) (s : core) (net locator : Z) (request : melodi_queue_request)
    (count bytes logical_length cookie : Z) (reliable : bool) (active_pending now_ms : Z) : core * result Z :=
  if (count =? 0) || (bytes =? 0) || request.(q_control) || (request.(q_ttl_ms) =? 0) ||
     negb (Bool.eqb request.(q_reliable) reliable) || (MELODI_TTL_DEFAULT_MS <? request.(q_ttl_ms))
  then (s, Err EINVAL) else
  if U64_MAX - request.(q_ttl_ms) <? now_ms then (s, Err EOVERFLOW) else
  if (tx s).(t_queue_stopping) then (s, Err ENETDOWN) else
  if reliable && (32 <=? active_pending + (tx s).(t_pending_reserved)) then (s, Err ENOSPC) else
  match find_index (fun r => negb r.(v_active)) (tx s).(t_reservations) with
  | None => (s, Err ENOBUFS)
  | Some index =>
      let '(s, namespace, capacity) := melodi_queue_capacity_locked alloc s net locator request count bytes in
      match capacity, namespace with
      | Ok _, Some ns =>
          match melodi_queue_peer_locked (tx s) locator with
          | Err error => (reserve_fail None None (Some ns) s, Err error)
          | Ok peer =>
              match melodi_queue_flow_locked (tx s) locator request with
              | Err error => (reserve_fail (created_slot peer) None (Some ns) s, Err error)
              | Ok flow =>
                  if (tx s).(t_reservation_sequence) =? U64_MAX
                  then (reserve_fail (created_slot peer) (created_slot flow) (Some ns) s, Err EOVERFLOW) else
                  let t := create_peer peer.2 peer.1 locator (tx s) in
                  let t := create_flow flow.2 flow.1 peer.1 locator request t in
                  let id := wrap 64 (t.(t_reservation_sequence) + 1) in
                  let t := set_t_reservation_sequence id t in
                  let tag := default 0 (v_tag <$> t.(t_reservations) !! index) in
                  let reservation :=
                    MkReservation request.(q_destination) net id (now_ms + request.(q_ttl_ms))
                      request.(q_binding_generation) cookie tag request.(q_session_epoch) locator
                      request.(q_source_locator) request.(q_binding_portid) request.(q_identity_generation)
                      bytes logical_length count request.(q_service) request.(q_destination_service)
                      request.(q_priority) peer.1 flow.1 reliable request.(q_broadcast) reliable
                      (default false (v_claimed <$> t.(t_reservations) !! index))
                      (default false (v_sealed <$> t.(t_reservations) !! index)) true in
                  let t := set_t_reservations (<[index := reservation]> t.(t_reservations)) t in
                  let t := set_t_reserved_count (wrap 16 (t.(t_reserved_count) + count)) t in
                  let t := set_t_reserved_bytes (wrap 32 (t.(t_reserved_bytes) + bytes)) t in
                  let t := if reliable then set_t_pending_reserved (wrap 16 (t.(t_pending_reserved) + 1)) t else t in
                  let t := melodi_reservation_schedule_locked now_ms t in
                  (set_spaces (namespace_add count bytes ns s.(c_spaces)) (set_tx t s), Ok id)
              end
          end
      | Err error, Some ns => (reserve_fail None None (Some ns) s, Err error)
      | Err error, None => (s, Err error)
      | Ok _, None => (s, Err ENOMEM)
      end
  end.

Definition melodi_queue_reservation_cancel (s : core) (id : Z) (error : errno) (notify : bool) : core :=
  match melodi_reservation_find_locked (tx s) id with
  | None => s
  | Some index =>
      match (tx s).(t_reservations) !! index with
      | None => s
      | Some r =>
          let s := melodi_reservation_remove_locked s index in
          if notify then emit (DeliveryError r.(v_binding_portid) r.(v_binding_generation) r.(v_service)
                                 r.(v_cookie) error) s
          else s
      end
  end.

(** An update of the reservation with an identifier, if it satisfies a guard. *)
Definition with_reservation (s : core) (id : Z) (guard : melodi_tx_reservation -> bool)
    (f : melodi_tx_reservation -> melodi_tx_reservation) (g : tx_state -> tx_state) : core * result unit :=
  match melodi_reservation_find_locked (tx s) id ≫= fun i => pair i <$> (tx s).(t_reservations) !! i with
  | None => (s, Err ENOENT)
  | Some (index, r) =>
      if guard r then
        (set_tx (g (set_t_reservations (<[index := f r]> (tx s).(t_reservations)) (tx s))) s, Ok tt)
      else (s, Err ENOENT)
  end.

Definition melodi_queue_reservation_pending (s : core) (id : Z) : core * result unit :=
  with_reservation s id v_pending_reserved (set_v_pending_reserved false)
    (fun t => set_t_pending_reserved (wrap 16 (t.(t_pending_reserved) - 1)) t).

Section Tags.
  (** The keyed hash of the kernel, under the key of the device. *)
  Context (siphash : bytes -> Z).

Definition melodi_queue_reservation_seal (s : core) (id : Z) (data : bytes) : core * result unit :=
  if zlen data =? 0 then (s, Err EINVAL) else
  with_reservation s id (fun r => negb r.(v_sealed))
    (fun r => set_v_sealed true (set_v_tag (siphash data) r)) (fun t => t).

Definition melodi_queue_reservation_claim (s : core) (id : Z) (data : bytes) : core * result unit :=
  if zlen data =? 0 then (s, Err EINVAL) else
  with_reservation s id (fun r => r.(v_sealed) && negb r.(v_claimed) && (r.(v_tag) =? siphash data))
    (set_v_claimed true) (fun t => t).
End Tags.

Definition melodi_queue_reservation_locator (s : core) (id : Z) : result Z :=
  match melodi_reservation_find_locked (tx s) id ≫= fun i => (tx s).(t_reservations) !! i with
  | None => Err ENOENT
  | Some r => Ok r.(v_locator)
  end.

(** ** Queueing frames *)

(** The total length of a batch. *)
Fixpoint batch_bytes (frames : list bytes) (bytes : Z) : result Z :=
  match frames with
  | [] => Ok bytes
  | frame :: frames =>
      if zlen frame =? 0 then Err EINVAL else
      if wrap 32 (MELODI_TX_BYTE_LIMIT - zlen frame) <? bytes then Err EMSGSIZE else
      batch_bytes frames (wrap 32 (bytes + zlen frame))
  end.

(** [for (index = 0; index < LIMIT && found < count; index++)]: the first free
    slots, at most [count]. *)
Fixpoint free_slots (queue : list melodi_tx_queue_entry) (index count : nat) : list nat :=
  match queue, count with
  | e :: queue, S n => if e.(e_active) then free_slots queue (S index) count
                       else index :: free_slots queue (S index) n
  | _, _ => []
  end.

(** An entry as a batch writes it over a free one; what the batch does not
    assign stays. *)
Definition fill_entry (old : melodi_tx_queue_entry) (frame : bytes) (net : Z) (meta : melodi_tx_meta)
    (sequence group_id expires_ms : Z) (request : melodi_queue_request) (peer_index flow_index : nat)
    (control : bool) : melodi_tx_queue_entry :=
  MkEntry request.(q_destination) frame net meta sequence group_id request.(q_message_id)
    request.(q_session_epoch) expires_ms old.(e_defer_until_ms) request.(q_binding_generation)
    request.(q_binding_portid) request.(q_identity_generation) (zlen frame) request.(q_service)
    request.(q_destination_service) request.(q_priority) peer_index flow_index control
    request.(q_broadcast) request.(q_reliable) old.(e_cancelled) old.(e_terminal_notified)
    old.(e_in_flight) true.

(** One turn of the loop over the frames of a batch; [namespace] is the record
    charged for it (none when the batch was reserved). *)
Definition fill_slot (net : Z) (meta : melodi_tx_meta) (group_id expires_ms : Z) (request : melodi_queue_request)
    (peer_index flow_index : nat) (control : option bool) (namespace : option nat) (s : core)
    (slot_frame : nat * bytes) : core :=
  let '(slot, frame) := slot_frame in
  let t := tx s in
  let sequence := wrap 64 (t.(t_queue_sequence) + 1) in
  let t := set_t_queue_sequence sequence t in
  let t := set_t_queue (alter (fun old => fill_entry old frame net meta sequence group_id expires_ms request
                                 peer_index flow_index (default old.(e_control) control)) slot t.(t_queue)) t in
  let t := set_t_queue_count (wrap 16 (t.(t_queue_count) + 1)) t in
  let t := set_t_queue_bytes (wrap 32 (t.(t_queue_bytes) + zlen frame)) t in
  let s := set_tx t s in
  match namespace with
  | Some i => set_spaces (namespace_add 1 (zlen frame) i s.(c_spaces)) s
  | None => s
  end.

(** Work is scheduled at once and a full queue stops the interface. *)
Definition batch_done (s : core) : core :=
  let t := set_t_queue_work (Some 0) (tx s) in
  set_tx (if MELODI_TX_HIGH_WATER <=? t.(t_queue_count) then set_t_stopped true t else t) s.

Definition melodi_core_send_batch (alloc running carrier : bool) (dev_net : Z) (s : core) (frames : list bytes)
    (meta : melodi_tx_meta) (request : melodi_queue_request) (now_ms : Z) : core * result unit :=
  let count := zlen frames in
  if (count =? 0) || (MELODI_FRAGMENT_LIMIT <? count) || (request.(q_ttl_ms) =? 0) ||
     (MELODI_TTL_DEFAULT_MS <? request.(q_ttl_ms)) || (MELODI_PRIORITY_MAX <? request.(q_priority))
  then (s, Err EINVAL) else
  if negb running || negb carrier then (s, Err ENETDOWN) else
  match batch_bytes frames 0 with
  | Err error => (s, Err error)
  | Ok bytes =>
  if U64_MAX - request.(q_ttl_ms) <? now_ms then (s, Err EOVERFLOW) else
  match (if request.(q_control) then Ok tt
         else melodi_data_queue_valid_locked s.(c_dev) request.(q_destination) request.(q_destination_service)
                request.(q_broadcast) meta request.(q_identity_generation) request.(q_session_epoch)) with
  | Err error => (s, Err error)
  | Ok _ =>
  let expires_ms := now_ms + request.(q_ttl_ms) in
  if (tx s).(t_queue_stopping) then (s, Err ENETDOWN) else
  let '(s, namespace, capacity) :=
    melodi_queue_capacity_locked alloc s dev_net meta.(tm_destination_locator) request count bytes in
  match capacity, namespace with
  | Ok _, Some ns =>
      let fail error := (set_spaces (melodi_namespace_queue_put s.(c_spaces) ns) s, Err error) in
      if (U64_MAX - count <? (tx s).(t_queue_sequence)) || ((tx s).(t_group_sequence) =? U64_MAX)
      then fail EOVERFLOW else
      let slots := free_slots (tx s).(t_queue) 0 (length frames) in
      if negb (Nat.eqb (length slots) (length frames)) then fail ENOBUFS else
      match (if request.(q_control) then Ok ((0%nat, false), (0%nat, false))
             else peer ← melodi_queue_peer_locked (tx s) meta.(tm_destination_locator);
                  flow ← melodi_queue_flow_locked (tx s) meta.(tm_destination_locator) request;
                  Ok (peer, flow)) with
      | Err error => fail error
      | Ok (peer, flow) =>
          let t := create_peer peer.2 peer.1 meta.(tm_destination_locator) (tx s) in
          let t := create_flow flow.2 flow.1 peer.1 meta.(tm_destination_locator) request t in
          let group_id := wrap 64 (t.(t_group_sequence) + 1) in
          let s := set_tx (set_t_group_sequence group_id t) s in
          let net := default 0 (ns_net <$> s.(c_spaces) !! ns) in
          let s := fold_left (fill_slot net meta group_id expires_ms request peer.1 flow.1
                                (Some request.(q_control)) (Some ns)) (zip slots frames) s in
          (batch_done s, Ok tt)
      end
  | Err error, Some ns => (set_spaces (melodi_namespace_queue_put s.(c_spaces) ns) s, Err error)
  | Err error, None => (s, Err error)
  | Ok _, None => (s, Err ENOMEM)
  end
  end
  end.

(** The conditions under which a reservation fits the batch that claims it. *)
Definition reservation_matches (r : melodi_tx_reservation) (count bytes : Z) (meta : melodi_tx_meta)
    (request : melodi_queue_request) : bool :=
  (r.(v_count) =? count) && (r.(v_bytes) =? bytes) && (r.(v_locator) =? meta.(tm_destination_locator)) &&
  (r.(v_binding_portid) =? request.(q_binding_portid)) &&
  (r.(v_binding_generation) =? request.(q_binding_generation)) && (r.(v_service) =? request.(q_service)) &&
  (r.(v_destination_service) =? request.(q_destination_service)) &&
  Bool.eqb r.(v_broadcast) request.(q_broadcast) && Bool.eqb r.(v_reliable) request.(q_reliable) &&
  (r.(v_identity_generation) =? request.(q_identity_generation)) &&
  (r.(v_source_locator) =? request.(q_source_locator)) && (r.(v_session_epoch) =? request.(q_session_epoch)) &&
  node_eqb r.(v_destination) request.(q_destination) && (r.(v_priority) =? request.(q_priority)) &&
  negb r.(v_pending_reserved) && r.(v_claimed).

Definition melodi_core_send_batch_reserved (running carrier : bool) (s : core) (frames : list bytes)
    (meta : melodi_tx_meta) (request : melodi_queue_request) (reservation_id : Z) : core * result unit :=
  let count := zlen frames in
  if (reservation_id =? 0) || (count =? 0) || (MELODI_FRAGMENT_LIMIT <? count) || request.(q_control)
  then (s, Err EINVAL) else
  if negb running || negb carrier then (s, Err ENETDOWN) else
  match batch_bytes frames 0 with
  | Err error => (s, Err error)
  | Ok bytes =>
  match melodi_data_queue_valid_locked s.(c_dev) request.(q_destination) request.(q_destination_service)
          request.(q_broadcast) meta request.(q_identity_generation) request.(q_session_epoch) with
  | Err error => (s, Err error)
  | Ok _ =>
  match melodi_reservation_find_locked (tx s) reservation_id ≫= fun i => pair i <$> (tx s).(t_reservations) !! i with
  | None => (s, Err ENOENT)
  | Some (index, r) =>
      if (tx s).(t_queue_stopping) then (s, Err ENETDOWN) else
      if negb (reservation_matches r count bytes meta request) then (s, Err ESTALE) else
      let slots := free_slots (tx s).(t_queue) 0 (length frames) in
      if negb (Nat.eqb (length slots) (length frames)) then (s, Err ENOBUFS) else
      if (U64_MAX - count <? (tx s).(t_queue_sequence)) || ((tx s).(t_group_sequence) =? U64_MAX)
      then (s, Err EOVERFLOW) else
      let t := tx s in
      let group_id := wrap 64 (t.(t_group_sequence) + 1) in
      let t := set_t_group_sequence group_id t in
      let t := set_t_reserved_count (wrap 16 (t.(t_reserved_count) - count)) t in
      let t := set_t_reserved_bytes (wrap 32 (t.(t_reserved_bytes) - bytes)) t in
      let t := set_t_reservations (<[index := zero_tx_reservation]> t.(t_reservations)) t in
      let s := set_tx t s in
      let s := fold_left (fill_slot r.(v_net) meta group_id r.(v_expires_ms) request r.(v_peer_index)
                            r.(v_flow_index) None None) (zip slots frames) s in
      let t := tx s in
      let t := set_t_packets (t.(t_packets) + 1) t in
      let t := set_t_bytes (t.(t_bytes) + r.(v_logical_length)) t in
      (batch_done (set_tx t s), Ok tt)
  end
  end
  end.

Definition control_request : melodi_queue_request :=
  MkRequest zero_node 0 0 MELODI_TX_CONTROL_TTL_MS 0 0 0 0 MELODI_SERVICE_CONTROL 0 0 false false true.

Definition melodi_core_send (alloc running carrier : bool) (dev_net : Z) (s : core) (frame : bytes)
    (meta : melodi_tx_meta) (now_ms : Z) : core * result unit :=
  melodi_core_send_batch alloc running carrier dev_net s [frame] meta control_request now_ms.

(** ** Scheduling *)

Definition melodi_priority_cycle : list Z := [0; 0; 0; 0; 0; 0; 0; 0; 1; 1; 1; 1; 2; 2; 3].

(** An entry that may be sent now. *)
Definition ready (now_ms : Z) (e : melodi_tx_queue_entry) : bool :=
  e.(e_active) && negb e.(e_in_flight) && (e.(e_defer_until_ms) <=? now_ms).

(** [for (index ...) if (c) { if (less) { best = ...; selected = index; } }]: the
    loops of the scheduler keep the first index whose key is below all before. *)
Fixpoint select_loop {K} (c : melodi_tx_queue_entry -> bool) (key : melodi_tx_queue_entry -> K) (less : K -> K -> bool)
    (queue : list melodi_tx_queue_entry) (index : nat) (best : K) (selected : option nat) : option nat :=
  match queue with
  | [] => selected
  | e :: queue =>
      if c e && less (key e) best
      then select_loop c key less queue (S index) (key e) (Some index)
      else select_loop c key less queue (S index) best selected
  end.

(** Turn first, then sequence. *)
Definition turn_less (a b : Z * Z) : bool := (a.1 <? b.1) || ((a.1 =? b.1) && (a.2 <? b.2)).

Definition melodi_queue_oldest_control (t : tx_state) (now_ms : Z) : option nat :=
  select_loop (fun e => ready now_ms e && e.(e_control)) e_sequence Z.ltb t.(t_queue) 0 U64_MAX None.

Definition data_ready (now_ms priority : Z) (e : melodi_tx_queue_entry) : bool :=
  ready now_ms e && negb e.(e_control) && (e.(e_priority) =? priority).

(** The turns of the cycle, from the current slot on. *)
Fixpoint priority_loop (fuel : nat) (t : tx_state) (now_ms cycle : Z) : option (Z * Z) :=
  match fuel with
  | O => None
  | S fuel =>
      let slot := (t.(t_priority_slot) + cycle) mod 15 in
      let candidate := nth (Z.to_nat slot) melodi_priority_cycle 0 in
      if existsb (data_ready now_ms candidate) t.(t_queue) then Some (candidate, (slot + 1) mod 15)
      else priority_loop fuel t now_ms (cycle + 1)
  end.

Definition melodi_queue_priority (t : tx_state) (now_ms : Z) : tx_state * result Z :=
  match priority_loop 15 t now_ms 0 with
  | Some (priority, slot) => (set_t_priority_slot slot t, Ok priority)
  | None => (t, Err ENOENT)
  end.

Definition peer_turn (t : tx_state) (e : melodi_tx_queue_entry) : Z :=
  default 0 (pt_turn <$> t.(t_peers) !! e.(e_peer_index)).
Definition flow_turn (t : tx_state) (e : melodi_tx_queue_entry) : Z :=
  default 0 (ft_turn <$> t.(t_flows) !! e.(e_flow_index)).

(** The choice among the ready frames of a priority: the peer, then its flow,
    whose turn was longest ago, then the oldest frame of that flow. *)
Definition choose (t : tx_state) (now_ms priority : Z) : option (nat * nat * nat) :=
  let r := data_ready now_ms priority in
  i ← select_loop r (fun e => (peer_turn t e, e.(e_sequence))) turn_less t.(t_queue) 0 (U64_MAX, U64_MAX) None;
  peer_index ← e_peer_index <$> t.(t_queue) !! i;
  let r := fun e => data_ready now_ms priority e && Nat.eqb e.(e_peer_index) peer_index in
  j ← select_loop r (fun e => (flow_turn t e, e.(e_sequence))) turn_less t.(t_queue) 0 (U64_MAX, U64_MAX) None;
  flow_index ← e_flow_index <$> t.(t_queue) !! j;
  let r := fun e => data_ready now_ms priority e && Nat.eqb e.(e_peer_index) peer_index &&
                    Nat.eqb e.(e_flow_index) flow_index in
  selected ← select_loop r e_sequence Z.ltb t.(t_queue) 0 U64_MAX None;
  Some (selected, peer_index, flow_index).

(** [if (melodi->tx_scheduler_turn == U64_MAX)]: the turns start over. *)
Definition restart_turns (t : tx_state) : tx_state :=
  if t.(t_scheduler_turn) =? U64_MAX then
    let t := set_t_peers (map (set_pt_turn 0) t.(t_peers)) t in
    let t := set_t_flows (map (set_ft_turn 0) t.(t_flows)) t in
    set_t_scheduler_turn 0 t
  else t.

Definition melodi_queue_data (t : tx_state) (now_ms : Z) : tx_state * option nat :=
  let '(t, priority) := melodi_queue_priority t now_ms in
  match priority with
  | Err _ => (t, None)
  | Ok priority =>
      match choose t now_ms priority with
      | None => (t, None)
      | Some (selected, peer_index, flow_index) =>
          let t := restart_turns t in
          let turn := wrap 64 (t.(t_scheduler_turn) + 1) in
          let t := set_t_scheduler_turn turn t in
          let t := set_t_peers (alter (set_pt_turn turn) peer_index t.(t_peers)) t in
          let t := set_t_flows (alter (set_ft_turn turn) flow_index t.(t_flows)) t in
          (t, Some selected)
      end
  end.

(** ** The worker *)

(** What the driver reports of the link: frames pending and the pace of frames. *)
Definition melodi_queue_pacing (info : option (Z * Z)) : bool * Z :=
  match info with
  | None => (false, 0)
  | Some (transmit_pending, frame_pace_us) => (negb (transmit_pending =? 0), frame_pace_us / 2000)
  end.

Definition expire_entry (now_ms : Z) (sn : core * melodi_queue_notice) (index : nat) : core * melodi_queue_notice :=
  let '(s, notice) := sn in
  match (tx s).(t_queue) !! index with
  | None => sn
  | Some e =>
      if e.(e_active) && negb e.(e_in_flight) && (e.(e_expires_ms) <=? now_ms) then
        let notice := melodi_queue_notice_entry notice e ETIMEDOUT in
        let '(s, frame) := melodi_queue_remove_locked s index in
        let s := drop_frame frame s in
        (set_tx (set_t_queue_expired (wrap 64 ((tx s).(t_queue_expired) + 1)) (tx s)) s, notice)
      else sn
  end.

Definition melodi_queue_expire_locked (now_ms : Z) (s : core) (notice : melodi_queue_notice)
    : core * melodi_queue_notice :=
  fold_left (expire_entry now_ms) queue_indices (s, notice).

(** The delay until the queue must be looked at again: none, the next jiffy, or
    milliseconds. *)
Fixpoint next_delay_loop (now_ms : Z) (queue : list melodi_tx_queue_entry) (wake_ms : Z) : option Z :=
  match queue with
  | [] => Some wake_ms
  | e :: queue =>
      if negb e.(e_active) || e.(e_in_flight) then next_delay_loop now_ms queue wake_ms else
      if now_ms <? e.(e_defer_until_ms)
      then next_delay_loop now_ms queue (Z.min wake_ms (Z.min e.(e_expires_ms) e.(e_defer_until_ms)))
      else None
  end.

Definition melodi_queue_next_delay_locked (t : tx_state) (now_ms : Z) : Z :=
  match next_delay_loop now_ms t.(t_queue) U64_MAX with
  | None => 1
  | Some wake_ms =>
      if wake_ms =? U64_MAX then 0 else
      if wake_ms <=? now_ms then 1 else Z.min (wake_ms - now_ms) U32_MAX
  end.

Record melodi_airtime_charge := MkCharge { duration_us : Z; budget_us : Z; broadcast_budget_us : Z }.

(** [*wait_ms] and the return value; the windows after the transmission are left
    in the state. *)
Definition melodi_queue_airtime_locked (t : tx_state) (charge : melodi_airtime_charge) (broadcast : bool)
    (now_ms : Z) : tx_state * Z * result unit :=
  let t := set_t_broadcast_after t.(t_broadcast_airtime) (set_t_airtime_after t.(t_airtime) t) in
  if charge.(duration_us) =? 0 then (t, 0, Ok tt) else
  let t :=
    if negb (t.(t_airtime_budget_us) =? charge.(budget_us)) ||
       negb (t.(t_broadcast_budget_us) =? charge.(broadcast_budget_us))
    then
      let t := set_t_airtime (melodi_airtime_reset t.(t_airtime)) t in
      let t := set_t_broadcast_airtime (melodi_airtime_reset t.(t_broadcast_airtime)) t in
      let t := set_t_airtime_budget_us charge.(budget_us) t in
      let t := set_t_broadcast_budget_us charge.(broadcast_budget_us) t in
      set_t_broadcast_after t.(t_broadcast_airtime) (set_t_airtime_after t.(t_airtime) t)
    else t in
  let '(after, total_wait, total_error) :=
    melodi_airtime_admit t.(t_airtime_after) now_ms charge.(budget_us) charge.(duration_us) 0 in
  let t := set_t_airtime_after after t in
  let '(after, broadcast_wait, broadcast_error) :=
    if broadcast
    then melodi_airtime_admit t.(t_broadcast_after) now_ms charge.(broadcast_budget_us) charge.(duration_us) 0
    else (t.(t_broadcast_after), 0, Ok tt) in
  let t := set_t_broadcast_after after t in
  match total_error, broadcast_error with
  | Err EAGAIN, Err EAGAIN | Err EAGAIN, Ok _ | Ok _, Err EAGAIN => (t, Z.max total_wait broadcast_wait, Err EAGAIN)
  | Err EAGAIN, Err e => (t, 0, Err e)
  | Err e, _ => (t, 0, Err e)
  | Ok _, Err e => (t, 0, Err e)
  | Ok _, Ok _ => (t, 0, Ok tt)
  end.

Definition melodi_queue_transient (error : errno) : bool :=
  bool_decide (error = EAGAIN \/ error = ENOBUFS \/ error = ENOSPC).

(** [if (tx_queue_count <= MELODI_TX_LOW_WATER && ...) netif_tx_wake_all_queues()] *)
Definition wake_if_low (up : bool) (s : core) : core :=
  if ((tx s).(t_queue_count) <=? MELODI_TX_LOW_WATER) && up then set_tx (set_t_stopped false (tx s)) s else s.

Definition schedule_work (delay : Z) (s : core) : core := set_tx (set_t_queue_work (Some delay) (tx s)) s.

(** The frame the worker has taken up, between the sections in which it holds
    the lock. *)
Record selection := MkSelection {
  x_index : nat;
  x_metadata : melodi_tx_meta;
  x_frame : bytes;
  x_control : bool;
  x_broadcast : bool;
}.

(** Where the worker is: not running, a frame selected, found still valid, or
    charged to the airtime windows and handed to the link. *)
Inductive worker : Type :=
| Idle
| Selected (x : selection)
| Validated (x : selection)
| Charged (x : selection) (airtime_admitted : bool).

Definition update_entry (f : melodi_tx_queue_entry -> melodi_tx_queue_entry) (index : nat) (s : core) : core :=
  set_tx (set_t_queue (alter f index (tx s).(t_queue)) (tx s)) s.

(** First section of [melodi_queue_work]. *)
Definition work_select (up : bool) (info : option (Z * Z)) (now_ms : Z) (s : core) : core * worker :=
  let '(link_busy, guard_ms) := melodi_queue_pacing info in
  if (tx s).(t_queue_stopping) then (s, Idle) else
  let '(s, expired) := melodi_queue_expire_locked now_ms s zero_notice in
  let s := if link_busy then set_tx (set_t_guard_until_ms (wrap 64 (now_ms + guard_ms)) (tx s)) s else s in
  if negb ((tx s).(t_queue_count) =? 0) && (link_busy || (now_ms <? (tx s).(t_guard_until_ms)))
  then (melodi_queue_notify expired (schedule_work 100 s), Idle) else
  let s := wake_if_low up s in
  let control := melodi_queue_oldest_control (tx s) now_ms in
  let '(s, selected) :=
    match control with
    | Some c =>
        if (tx s).(t_control_burst) <? MELODI_TX_CONTROL_BURST then (s, Some c) else
        let '(t, data) := melodi_queue_data (tx s) now_ms in
        (set_tx t s, match data with Some d => Some d | None => Some c end)
    | None => let '(t, data) := melodi_queue_data (tx s) now_ms in (set_tx t s, data)
    end in
  match selected ≫= fun i => pair i <$> (tx s).(t_queue) !! i with
  | None =>
      let delay := melodi_queue_next_delay_locked (tx s) now_ms in
      let s := if negb (delay =? 0) && negb (tx s).(t_queue_stopping) then schedule_work delay s else s in
      (melodi_queue_notify expired s, Idle)
  | Some (index, entry) =>
      let s := update_entry (set_e_in_flight true) index s in
      (melodi_queue_notify expired s,
       Selected (MkSelection index entry.(e_metadata) entry.(e_frame) entry.(e_control)
                   (negb entry.(e_control) &&
                    (entry.(e_metadata).(tm_destination_locator) =? MELODI_LINK_LOCATOR_BROADCAST))))
  end.

(** Second section: a data frame must still be valid. *)
Definition work_validate (up : bool) (x : selection) (s : core) : core * worker :=
  if x.(x_control) then (s, Validated x) else
  match (tx s).(t_queue) !! x.(x_index) with
  | None => (s, Idle)
  | Some entry =>
      match (if entry.(e_cancelled) then Err EACCES else
             melodi_data_queue_valid_locked s.(c_dev) entry.(e_destination) entry.(e_destination_service)
               entry.(e_broadcast) entry.(e_metadata) entry.(e_identity_generation) entry.(e_session_epoch)) with
      | Ok _ => (s, Validated x)
      | Err error =>
          let '(s, notice, _) :=
            melodi_queue_cancel_group_locked s entry.(e_group_id) (Some x.(x_index)) error zero_notice in
          let s := wake_if_low up s in
          let s := if negb ((tx s).(t_queue_count) =? 0) && negb (tx s).(t_queue_stopping)
                   then schedule_work 1 s else s in
          (melodi_queue_notify notice s, Idle)
      end
  end.

(** Third section: airtime.  [charge] is the driver's answer. *)
Definition work_charge (up : bool) (x : selection) (charge : result melodi_airtime_charge) (now_ms : Z) (s : core)
    : core * worker :=
  if (tx s).(t_queue_stopping) then
    let '(s, frame) := melodi_queue_remove_locked s x.(x_index) in (emit (Released frame) s, Idle)
  else
  match (tx s).(t_queue) !! x.(x_index) with
  | None => (s, Idle)
  | Some entry =>
      let '(s, wait_ms, error, budget_checked) :=
        if entry.(e_cancelled) then (s, 0, Err EACCES, false) else
        if entry.(e_expires_ms) <=? now_ms then (s, 0, Err ETIMEDOUT, false) else
        match charge with
        | Err e => (s, 0, Err e, false)
        | Ok charge =>
            let '(t, wait_ms, r) := melodi_queue_airtime_locked (tx s) charge x.(x_broadcast) now_ms in
            (set_tx t s, wait_ms, r, true)
        end in
      match error with
      | Ok _ =>
          (s, Charged x (match charge with Ok charge => negb (charge.(duration_us) =? 0) | Err _ => false end))
      | Err error =>
          if bool_decide (error = EAGAIN) && budget_checked then
            let s := set_tx (set_t_duty_defers (wrap 64 ((tx s).(t_duty_defers) + 1)) (tx s)) s in
            let s := update_entry (fun e => set_e_defer_until_ms (now_ms + Z.min wait_ms (e.(e_expires_ms) - now_ms))
                                              (set_e_in_flight false e)) x.(x_index) s in
            (schedule_work 1 s, Idle)
          else
            let notice := melodi_queue_notice_entry zero_notice entry error in
            let '(s, frame) := melodi_queue_remove_locked s x.(x_index) in
            let s := drop_frame frame s in
            let s := if bool_decide (error = ETIMEDOUT)
                     then set_tx (set_t_queue_expired (wrap 64 ((tx s).(t_queue_expired) + 1)) (tx s)) s else s in
            let s := wake_if_low up s in
            let s := if negb ((tx s).(t_queue_count) =? 0) then schedule_work 1 s else s in
            (melodi_queue_notify notice s, Idle)
      end
  end.

(** The frame is shown to the monitor and handed to the link, which answers
    [sent]; then the last section. *)
Definition work_complete (up : bool) (x : selection) (airtime_admitted : bool) (sent : result unit) (now_ms : Z)
    (s : core) : core * worker :=
  let s := emit (Monitored x.(x_frame)) s in
  let s := match sent with Ok _ => emit (Transmitted x.(x_frame) x.(x_metadata)) s | Err _ => s end in
  match (tx s).(t_queue) !! x.(x_index) with
  | None => (s, Idle)
  | Some entry =>
      let retry := match sent with
                   | Err error => melodi_queue_transient error && negb (tx s).(t_queue_stopping) &&
                                  (now_ms <? entry.(e_expires_ms))
                   | Ok _ => false
                   end in
      let '(s, notice) :=
        if retry then
          (update_entry (fun e => set_e_defer_until_ms (Z.min e.(e_expires_ms) (wrap 64 (now_ms + 100)))
                                    (set_e_in_flight false e)) x.(x_index) s, zero_notice)
        else
          let notice := match sent with
                        | Err error => melodi_queue_notice_entry zero_notice entry error
                        | Ok _ => zero_notice
                        end in
          let '(s, _) := melodi_queue_remove_locked s x.(x_index) in
          let s := match sent with
                   | Err _ => drop_frame x.(x_frame) s
                   | Ok _ =>
                       let t := tx s in
                       let t := if airtime_admitted
                                then set_t_broadcast_airtime t.(t_broadcast_after) (set_t_airtime t.(t_airtime_after) t)
                                else t in
                       let t := if x.(x_control) && (t.(t_control_burst) <? U8_MAX)
                                then set_t_control_burst (wrap 8 (t.(t_control_burst) + 1)) t
                                else set_t_control_burst 0 t in
                       set_tx t s
                   end in
          (wake_if_low up s, notice) in
      let s := if negb ((tx s).(t_queue_count) =? 0) && negb (tx s).(t_queue_stopping) then schedule_work 1 s else s in
      (melodi_queue_notify notice s, Idle)
  end.

(** ** Changes of state *)

(** Whether a reservation may stay. *)
Definition reservation_valid (melodi : melodi_device) (r : melodi_tx_reservation) : result unit :=
  if negb (r.(v_identity_generation) =? 0) then
    melodi_data_queue_valid_locked melodi r.(v_destination) r.(v_destination_service) r.(v_broadcast)
      (MkTxMeta r.(v_locator) r.(v_source_locator) 0) r.(v_identity_generation) r.(v_session_epoch)
  else melodi_policy_check_message_locked melodi r.(v_destination) r.(v_destination_service) r.(v_broadcast).

Definition entry_valid (melodi : melodi_device) (e : melodi_tx_queue_entry) : result unit :=
  melodi_data_queue_valid_locked melodi e.(e_destination) e.(e_destination_service) e.(e_broadcast)
    e.(e_metadata) e.(e_identity_generation) e.(e_session_epoch).

(** The end of a turn that changed something. *)
Definition changed_tail (up : bool) (now_ms : Z) (s : core) : core :=
  let s := wake_if_low up s in
  let s := if negb ((tx s).(t_queue_count) =? 0) && negb (tx s).(t_queue_stopping) then schedule_work 1 s else s in
  set_tx (melodi_reservation_schedule_locked now_ms (tx s)) s.

(** One turn of [melodi_queue_state_changed]; whether it goes on. *)
Definition state_changed_turn (up : bool) (now_ms : Z) (s : core) : core * bool :=
  match find_index (fun r => r.(v_active) && negb (is_ok (reservation_valid s.(c_dev) r))) (tx s).(t_reservations)
          ≫= fun i => pair i <$> (tx s).(t_reservations) !! i with
  | Some (index, r) =>
      let error := match reservation_valid s.(c_dev) r with Err e => e | Ok _ => EINVAL end in
      let notice := melodi_queue_notice_reservation r error in
      let s := if r.(v_reliable) then (melodi_data_cancel_pending_locked s r.(v_destination) 0 r.(v_id)).1 else s in
      let s := melodi_reservation_remove_locked s index in
      let s := set_tx (set_t_dropped ((tx s).(t_dropped) + 1) (tx s)) s in
      (melodi_queue_notify notice (changed_tail up now_ms s), true)
  | None =>
      match find_index (fun e => e.(e_active) && negb e.(e_control) && negb e.(e_cancelled) &&
                                 negb (is_ok (entry_valid s.(c_dev) e))) (tx s).(t_queue)
              ≫= fun i => (tx s).(t_queue) !! i with
      | Some e =>
          let error := match entry_valid s.(c_dev) e with Err e => e | Ok _ => EINVAL end in
          let '(s, notice, changed) := melodi_queue_cancel_group_locked s e.(e_group_id) None error zero_notice in
          let s := if changed then changed_tail up now_ms s else s in
          (melodi_queue_notify notice s, changed)
      | None => (s, false)
      end
  end.

(** The loop, with the readings of the clock of its turns. *)
Fixpoint melodi_queue_state_changed (up : bool) (nows : list Z) (s : core) : core * bool :=
  match nows with
  | [] => (s, true)
  | now_ms :: nows =>
      let '(s, changed) := state_changed_turn up now_ms s in
      if changed then melodi_queue_state_changed up nows s else (s, false)
  end.

Definition melodi_queue_init (t : tx_state) : tx_state := set_t_queue_stopping true t.

(** [melodi_queue_drain], before and after the work items have been cancelled
    and waited for. *)
Definition drain_begin (s : core) : core := set_tx (set_t_queue_stopping true (tx s)) s.

Fixpoint drain_reservations (fuel : nat) (error : errno) (s : core) : core :=
  match fuel with
  | O => s
  | S fuel =>
      match find_index v_active (tx s).(t_reservations) ≫= fun i => (tx s).(t_reservations) !! i with
      | None => s
      | Some r =>
          if r.(v_id) =? 0 then s
          else drain_reservations fuel error (melodi_queue_reservation_cancel s r.(v_id) error true)
      end
  end.

Definition drain_entry (s : core) (index : nat) : core :=
  match (tx s).(t_queue) !! index with
  | Some e => if e.(e_active)
              then let '(s, frame) := melodi_queue_remove_locked s index in emit (Released frame) s else s
  | None => s
  end.

(** Both loops. *)
Definition drain_loops (error : errno) (s : core) : core :=
  let s := set_tx (set_t_reservation_work None (set_t_queue_work None (tx s))) s in
  fold_left drain_entry queue_indices (drain_reservations (S MELODI_TX_RESERVATION_LIMIT) error s).

(** The fields cleared after them. *)
Definition drain_reset (t : tx_state) : tx_state :=
  let t := set_t_peers (replicate MELODI_TX_FLOW_LIMIT zero_tx_peer_turn) t in
  let t := set_t_flows (replicate MELODI_TX_FLOW_LIMIT zero_tx_flow_turn) t in
  let t := set_t_queue_bytes 0 t in
  let t := set_t_queue_count 0 t in
  let t := set_t_guard_until_ms 0 t in
  let t := set_t_control_burst 0 t in
  let t := set_t_airtime_budget_us 0 t in
  let t := set_t_broadcast_budget_us 0 t in
  let t := set_t_airtime (melodi_airtime_reset t.(t_airtime)) t in
  set_t_broadcast_airtime (melodi_airtime_reset t.(t_broadcast_airtime)) t.

Definition drain_finish (error : errno) (s : core) : core :=
  let s := drain_loops error s in set_tx (drain_reset (tx s)) s.

Definition melodi_queue_drain (error : errno) (s : core) : core := drain_finish error (drain_begin s).
Definition melodi_queue_pause (s : core) : core := melodi_queue_drain ENETDOWN s.
Definition melodi_queue_fail (error : errno) (s : core) : core := melodi_queue_drain error s.
Definition melodi_queue_stop (s : core) : core := melodi_queue_fail ENODEV s.

Definition melodi_queue_start (now_ms : Z) (s : core) : core :=
  let t := set_t_queue_stopping false (tx s) in
  let t := if negb (t.(t_queue_count) =? 0) then set_t_queue_work (Some 0) t else t in
  set_tx (melodi_reservation_schedule_locked now_ms t) s.

Definition melodi_queue_message_queued (t : tx_state) (destination : melodi_node_id)
    (message_id binding_portid binding_generation service : Z) : bool :=
  existsb (fun e => e.(e_active) && e.(e_reliable) && (e.(e_message_id) =? message_id) &&
                    (e.(e_binding_portid) =? binding_portid) &&
                    (e.(e_binding_generation) =? binding_generation) && (e.(e_service) =? service) &&
                    node_eqb e.(e_destination) destination) t.(t_queue).

(** Frames, bytes, airtime and broadcast airtime. *)
Definition melodi_queue_stats (t : tx_state) : Z * Z * Z * Z :=
  (t.(t_queue_count) + t.(t_reserved_count), wrap 32 (t.(t_queue_bytes) + t.(t_reserved_bytes)),
   t.(t_airtime).(total_us), t.(t_broadcast_airtime).(total_us)).

(** ** A device in use

    One authenticated peer, and a queue that was started. *)
Definition online_device : melodi_device :=
  MkDevice (MkLink (MkNodeId (1 :: replicate 32 9)) true true 40 40 0 1 0)
    (<[0%nat := sample_peer 5 31]> fresh_device.(d_peers)) fresh_device.(d_receive) fresh_device.(d_pending)
    fresh_device.(d_policy) fresh_device.(d_tx) fresh_device.(d_data).

Definition sample_core : core := Eval vm_compute in melodi_queue_start 0 (MkCore online_device [] []).

Definition sample_request (priority binding_portid : Z) : melodi_queue_request :=
  MkRequest (MkNodeId (1 :: replicate 32 5)) 1 5 30000 binding_portid 1 40 3 10 20 priority false false false.
Definition sample_meta : melodi_tx_meta := MkTxMeta 31 40 77.

(** Three data frames of three priorities and a control frame. *)
Definition sample_queued : core := Eval vm_compute in
  let s := (melodi_core_send_batch true true true 1 sample_core [[1; 2; 3]; [4; 5]] sample_meta (sample_request 2 7) 100).1 in
  let s := (melodi_core_send_batch true true true 1 s [[6]] sample_meta (sample_request 0 8) 101).1 in
  let s := (melodi_core_send_batch true true true 1 s [[7; 8]] sample_meta (sample_request 3 8) 102).1 in
  (melodi_core_send true true true 1 s [9; 9] sample_meta 103).1.
