(* ===== verification/QueueInv.v ===== *)
(** * The transmit queue: accounts and limits

    What the counters of the queue stand for, the limits that hold in every
    reachable state, and who owns the frame in flight. *)
From S2P Require Import Prelude Buffer Uapi Slots Device Peers Policy Queue.

(** ** Shares

    What an entry or a reservation takes up of a limited resource. *)

Inductive resource : Set :=
| Frames
| Octets
| Data
| PeerShare (locator : Z)
| ServiceShare (service : Z)
| BindingShare (portid generation : Z)
| NetFrames (net : Z)
| NetOctets (net : Z).

Definition entry_share (l : resource) (e : melodi_tx_queue_entry) : Z :=
  if e.(e_active) then
    match l with
    | Frames => 1
    | Octets => e.(e_length)
    | Data => entry_count (fun _ => true) e
    | PeerShare locator => entry_count (fun e => e.(e_metadata).(tm_destination_locator) =? locator) e
    | ServiceShare service => entry_count (fun e => e.(e_service) =? service) e
    | BindingShare portid generation =>
        entry_count (fun e => (e.(e_binding_portid) =? portid) && (e.(e_binding_generation) =? generation)) e
    | NetFrames net => if e.(e_net) =? net then 1 else 0
    | NetOctets net => if e.(e_net) =? net then e.(e_length) else 0
    end
  else 0.

Definition reservation_share (l : resource) (r : melodi_tx_reservation) : Z :=
  if r.(v_active) then
    match l with
    | Frames => r.(v_count)
    | Octets => r.(v_bytes)
    | Data => reservation_count (fun _ => true) r
    | PeerShare locator => reservation_count (fun r => r.(v_locator) =? locator) r
    | ServiceShare service => reservation_count (fun r => r.(v_service) =? service) r
    | BindingShare portid generation =>
        reservation_count (fun r => (r.(v_binding_portid) =? portid) && (r.(v_binding_generation) =? generation)) r
    | NetFrames net => if r.(v_net) =? net then r.(v_count) else 0
    | NetOctets net => if r.(v_net) =? net then r.(v_bytes) else 0
    end
  else 0.

(** What the frames queued and the reservations take up. *)
Definition queued (l : resource) (t : tx_state) : Z := sumZ (map (entry_share l) t.(t_queue)).
Definition reserved (l : resource) (t : tx_state) : Z := sumZ (map (reservation_share l) t.(t_reservations)).
Definition holdings (l : resource) (t : tx_state) : Z := queued l t + reserved l t.

Definition pending_share (r : melodi_tx_reservation) : Z :=
  if r.(v_active) && r.(v_pending_reserved) then 1 else 0.

(** The limits of one device. *)
Definition bound (l : resource) : Z :=
  match l with
  | Frames => 128
  | Octets => MELODI_TX_BYTE_LIMIT
  | Data => MELODI_TX_DATA_LIMIT
  | PeerShare _ => MELODI_TX_PER_PEER_LIMIT
  | ServiceShare _ => MELODI_TX_PER_SERVICE_LIMIT
  | BindingShare _ _ => MELODI_TX_PER_BINDING_LIMIT
  | NetFrames _ => 128
  | NetOctets _ => MELODI_TX_BYTE_LIMIT
  end.

(** ** The invariant of the device *)

Definition entry_ok (e : melodi_tx_queue_entry) : Prop :=
  if e.(e_active) then e.(e_length) = zlen e.(e_frame) /\ 0 < e.(e_length) else e = zero_tx_queue_entry.

Definition reservation_ok (r : melodi_tx_reservation) : Prop :=
  if r.(v_active) then 0 < r.(v_count) /\ 0 < r.(v_bytes) /\ 0 < r.(v_id) else r = zero_tx_reservation.

Record accounts (t : tx_state) : Prop := {
  acc_queue_length : length t.(t_queue) = MELODI_TX_QUEUE_LIMIT;
  acc_reservations_length : length t.(t_reservations) = MELODI_TX_RESERVATION_LIMIT;
  acc_entries : Forall entry_ok t.(t_queue);
  acc_reservations : Forall reservation_ok t.(t_reservations);
  acc_count : t.(t_queue_count) = queued Frames t;
  acc_bytes : t.(t_queue_bytes) = queued Octets t;
  acc_reserved_count : t.(t_reserved_count) = reserved Frames t;
  acc_reserved_bytes : t.(t_reserved_bytes) = reserved Octets t;
  acc_pending : t.(t_pending_reserved) = sumZ (map pending_share t.(t_reservations));
  acc_limits : forall l, holdings l t <= bound l;
  acc_sequence : 0 <= t.(t_reservation_sequence) <= U64_MAX;
}.

(** The part of the state the accounts speak of. *)
Definition ledger (t : tx_state) :=
  (t.(t_queue), t.(t_reservations), (t.(t_queue_count), t.(t_queue_bytes)),
   (t.(t_reserved_count), t.(t_reserved_bytes), t.(t_pending_reserved), t.(t_reservation_sequence))).

Lemma accounts_ledger t t' : ledger t = ledger t' -> accounts t -> accounts t'.
Proof.
  intros H [H1 H2 H3 H4 H5 H6 H7 H8 H9 H10 H11]. unfold ledger in H.
  injection H as E1 E2 E3 E4 E5 E6 E7 E8. unfold holdings, queued, reserved in *.
  constructor; unfold holdings, queued, reserved; rewrite <- ?E1, <- ?E2, <- ?E3, <- ?E4, <- ?E5, <- ?E6, <- ?E7, <- ?E8; assumption.
Qed.

(** ** Shares are not negative *)

Lemma entry_count_bound c e : 0 <= entry_count c e <= 1.
Proof. unfold entry_count. destruct (_ && _); lia. Qed.

Lemma entry_share_nonneg l e : entry_ok e -> 0 <= entry_share l e.
Proof.
  unfold entry_ok, entry_share. destruct (e_active e); [|lia]. intros [_ He].
  destruct l; try apply entry_count_bound; try lia; destruct (_ =? _); lia.
Qed.

Lemma reservation_count_nonneg c r : 0 <= v_count r -> 0 <= reservation_count c r.
Proof. unfold reservation_count. destruct (_ && _); lia. Qed.

Lemma reservation_share_nonneg l r : reservation_ok r -> 0 <= reservation_share l r.
Proof.
  unfold reservation_ok, reservation_share. destruct (v_active r); [|lia]. intros (Hc & Hb & _).
  destruct l; try apply reservation_count_nonneg; try lia; destruct (_ =? _); lia.
Qed.

Lemma queued_nonneg l t : Forall entry_ok t.(t_queue) -> 0 <= queued l t.
Proof.
  intros H. apply sumZ_nonneg, Forall_map. apply (list.Forall_impl _ _ _ H). intros e. apply entry_share_nonneg.
Qed.

Lemma reserved_nonneg l t : Forall reservation_ok t.(t_reservations) -> 0 <= reserved l t.
Proof.
  intros H. apply sumZ_nonneg, Forall_map. apply (list.Forall_impl _ _ _ H). intros r. apply reservation_share_nonneg.
Qed.

Lemma zero_entry_share l : entry_share l zero_tx_queue_entry = 0.
Proof. reflexivity. Qed.
Lemma zero_reservation_share l : reservation_share l zero_tx_reservation = 0.
Proof. reflexivity. Qed.

(** Replacing one entry, or one reservation. *)
Lemma queued_insert l t i e e' :
  t.(t_queue) !! i = Some e ->
  queued l (set_t_queue (<[i := e']> t.(t_queue)) t) = queued l t - entry_share l e + entry_share l e'.
Proof. apply sum_weight_insert. Qed.

Lemma reserved_insert l t i r r' :
  t.(t_reservations) !! i = Some r ->
  reserved l (set_t_reservations (<[i := r']> t.(t_reservations)) t) =
  reserved l t - reservation_share l r + reservation_share l r'.
Proof. apply sum_weight_insert. Qed.

Lemma holdings_nonneg l t : accounts t -> 0 <= holdings l t.
Proof.
  intros A. pose proof (queued_nonneg l t (acc_entries t A)). pose proof (reserved_nonneg l t (acc_reservations t A)).
  unfold holdings. lia.
Qed.

(** The counters fit their widths. *)
Lemma accounts_range t : accounts t ->
  0 <= t.(t_queue_count) /\ 0 <= t.(t_reserved_count) /\ t.(t_queue_count) + t.(t_reserved_count) <= 128 /\
  0 <= t.(t_queue_bytes) /\ 0 <= t.(t_reserved_bytes) /\
  t.(t_queue_bytes) + t.(t_reserved_bytes) <= MELODI_TX_BYTE_LIMIT.
Proof.
  intros A. rewrite (acc_count t A), (acc_bytes t A), (acc_reserved_count t A), (acc_reserved_bytes t A).
  pose proof (queued_nonneg Frames t (acc_entries t A)). pose proof (queued_nonneg Octets t (acc_entries t A)).
  pose proof (reserved_nonneg Frames t (acc_reservations t A)). pose proof (reserved_nonneg Octets t (acc_reservations t A)).
  pose proof (acc_limits t A Frames). pose proof (acc_limits t A Octets). unfold holdings in *. cbn [bound] in *. lia.
Qed.

(** A share is part of its sum. *)
Lemma entry_share_le l t i e :
  Forall entry_ok t.(t_queue) -> t.(t_queue) !! i = Some e -> entry_share l e <= queued l t.
Proof.
  intros H He. apply (sum_weight_lower (entry_share l) _ i); [|exact He].
  apply (list.Forall_impl _ _ _ H). intros x. apply entry_share_nonneg.
Qed.

Lemma reservation_share_le l t i r :
  Forall reservation_ok t.(t_reservations) -> t.(t_reservations) !! i = Some r -> reservation_share l r <= reserved l t.
Proof.
  intros H Hr. apply (sum_weight_lower (reservation_share l) _ i); [|exact Hr].
  apply (list.Forall_impl _ _ _ H). intros x. apply reservation_share_nonneg.
Qed.

Lemma pending_share_le t i r :
  t.(t_reservations) !! i = Some r -> 0 <= pending_share r <= sumZ (map pending_share t.(t_reservations)).
Proof.
  intros Hr. split; [unfold pending_share; destruct (_ && _); lia|].
  apply (sum_weight_lower pending_share _ i); [|exact Hr].
  apply list.Forall_forall. intros x _. unfold pending_share. destruct (_ && _); lia.
Qed.

(** Pending reservations are at most as many as reserved frames. *)
Lemma pending_range t : accounts t -> 0 <= t.(t_pending_reserved) <= 128.
Proof.
  intros A. pose proof (accounts_range t A) as (_ & _ & Hc & _). rewrite (acc_pending t A).
  assert (0 <= sumZ (map pending_share t.(t_reservations)) <= reserved Frames t) as H; [|
    rewrite <- (acc_reserved_count t A) in H; pose proof (accounts_range t A); lia].
  unfold reserved. pose proof (acc_reservations t A) as Hr. induction Hr as [|r l Hr _ IH]; cbn [map]; [cbn; lia|].
  rewrite !sumZ_cons. assert (0 <= pending_share r <= reservation_share Frames r); [|lia].
  unfold reservation_ok, pending_share, reservation_share in *.
  destruct (v_active r); cbn [andb]; [destruct (v_pending_reserved r)|]; lia.
Qed.

Ltac ledger_eq := apply accounts_ledger with (2 := ltac:(eassumption)); reflexivity.

(** ** Removing an entry *)

(** The state of the device after the entry at an index is removed, without the
    turns. *)
Definition entry_removed (i : nat) (e : melodi_tx_queue_entry) (t : tx_state) : tx_state :=
  let t := set_t_queue_count (wrap 16 (t.(t_queue_count) - 1)) t in
  let t := set_t_queue_bytes (wrap 32 (t.(t_queue_bytes) - e.(e_length))) t in
  set_t_queue (<[i := zero_tx_queue_entry]> t.(t_queue)) t.

Lemma release_flow_ledger i t : ledger (release_flow i t) = ledger t.
Proof. unfold release_flow. now destruct (melodi_queue_has_flow t i). Qed.
Lemma release_peer_ledger i t : ledger (release_peer i t) = ledger t.
Proof. unfold release_peer. now destruct (melodi_queue_has_peer t i). Qed.

Lemma entry_removed_accounts i e t :
  accounts t -> t.(t_queue) !! i = Some e -> e.(e_active) = true ->
  accounts (entry_removed i e t) /\
  forall l, queued l (entry_removed i e t) = queued l t - entry_share l e /\
            reserved l (entry_removed i e t) = reserved l t.
Proof.
  intros A He Ha. assert (forall l, queued l (entry_removed i e t) = queued l t - entry_share l e) as Hq.
  { intros l. pose proof (queued_insert l t i e zero_tx_queue_entry He) as H. rewrite zero_entry_share in H.
    change (queued l (entry_removed i e t)) with (queued l (set_t_queue (<[i := zero_tx_queue_entry]> (t_queue t)) t)). lia. }
  split; [|intros l; split; [apply Hq|reflexivity]].
  pose proof (accounts_range t A) as R. pose proof A as [H1 H2 H3 H4 H5 H6 H7 H8 H9 H10 H11].
  pose proof (entry_share_le Frames t i e H3 He) as F1. pose proof (entry_share_le Octets t i e H3 He) as F2.
  assert (entry_ok e) as Hok by (rewrite list.Forall_lookup in H3; exact (H3 _ _ He)).
  unfold entry_share in F1, F2. unfold entry_ok in Hok. rewrite Ha in F1, F2, Hok.
  pose proof (Hq Frames) as Q1. pose proof (Hq Octets) as Q2. unfold entry_share in Q1, Q2. rewrite Ha in Q1, Q2.
  constructor; auto.
  - cbn. now rewrite length_insert.
  - cbn. apply Forall_insert; [exact H3|reflexivity].
  - rewrite Q1. unfold entry_removed. cbn. rewrite wrap_id by (unfold uint; pow_norm; lia). lia.
  - rewrite Q2. unfold entry_removed. cbn. rewrite wrap_id by (unfold uint; pow_norm; lia). lia.
  - intros l. specialize (H10 l). unfold holdings in *. rewrite Hq.
    change (reserved l (entry_removed i e t)) with (reserved l t).
    assert (0 <= entry_share l e) by (apply entry_share_nonneg; unfold entry_ok; now rewrite Ha). lia.
Qed.

(** ** The namespace table *)

Fixpoint space (l : list melodi_namespace_queue) (net : Z) : Z * Z :=
  match l with
  | [] => (0, 0)
  | q :: l => if q.(ns_net) =? net then (q.(ns_messages), q.(ns_bytes)) else space l net
  end.

Lemma find_space l net :
  match melodi_namespace_queue_find l net with
  | Some i => exists q, l !! i = Some q /\ q.(ns_net) = net /\ space l net = (q.(ns_messages), q.(ns_bytes))
  | None => space l net = (0, 0) /\ net ∉ map ns_net l
  end.
Proof.
  unfold melodi_namespace_queue_find. induction l as [|q l IH]; cbn [find_index space].
  - split; [reflexivity|]. apply not_elem_of_nil.
  - destruct (Z.eqb_spec (ns_net q) net) as [<-|Hne]; [now exists q|].
    destruct (find_index (fun q => ns_net q =? net) l) as [i|]; cbn; [exact IH|].
    destruct IH as [IH Hn]. split; [exact IH|]. apply not_elem_of_cons. auto.
Qed.

Lemma space_absent l net : net ∉ map ns_net l -> space l net = (0, 0).
Proof.
  induction l as [|q l IH]; intros H; [reflexivity|]. cbn in *. apply not_elem_of_cons in H as [Hne H].
  destruct (Z.eqb_spec (ns_net q) net); [congruence|auto].
Qed.

(** A record of a table without duplicates, rewritten or deleted in place. *)
Lemma space_insert l i q m b net :
  NoDup (map ns_net l) -> l !! i = Some q ->
  space (<[i := MkNamespace q.(ns_net) m b]> l) net = if net =? q.(ns_net) then (m, b) else space l net.
Proof.
  revert i. induction l as [|p l IH]; intros [|i] Hnd Hi; simplify_eq/=; apply list.NoDup_cons in Hnd as [Hp Hnd].
  - destruct (Z.eqb_spec (ns_net q) net), (Z.eqb_spec net (ns_net q)); congruence || reflexivity.
  - rewrite (IH i Hnd Hi). destruct (Z.eqb_spec (ns_net p) net) as [<-|]; [|reflexivity].
    destruct (Z.eqb_spec (ns_net p) (ns_net q)) as [E|]; [|reflexivity].
    exfalso. apply Hp. rewrite E. apply list_elem_of_In, in_map, list_elem_of_In. apply list_elem_of_lookup. now exists i.
Qed.

Lemma space_delete l i q net :
  NoDup (map ns_net l) -> l !! i = Some q ->
  space (delete i l) net = if net =? q.(ns_net) then (0, 0) else space l net.
Proof.
  revert i. induction l as [|p l IH]; intros [|i] Hnd Hi; simplify_eq/=; apply list.NoDup_cons in Hnd as [Hp Hnd].
  - clear IH. destruct (Z.eqb_spec net (ns_net q)) as [E|].
    + rewrite E. now apply space_absent.
    + destruct (Z.eqb_spec (ns_net q) net); [congruence|reflexivity].
  - rewrite (IH i Hnd Hi). destruct (Z.eqb_spec (ns_net p) net) as [<-|]; [|reflexivity].
    destruct (Z.eqb_spec (ns_net p) (ns_net q)) as [E|]; [|reflexivity].
    exfalso. apply Hp. rewrite E. apply list_elem_of_In, in_map, list_elem_of_In. apply list_elem_of_lookup. now exists i.
Qed.

Lemma nets_insert l i q m b :
  l !! i = Some q -> map ns_net (<[i := MkNamespace q.(ns_net) m b]> l) = map ns_net l.
Proof. revert i. induction l as [|p l IH]; intros [|i] Hi; simplify_eq/=; [reflexivity|]. f_equal. auto. Qed.

Lemma nets_delete l i : NoDup (map ns_net l) -> NoDup (map ns_net (delete i l)).
Proof.
  intros H. change (NoDup (ns_net <$> delete i l)). rewrite list_fmap_delete.
  exact (sublist_NoDup _ _ H (sublist_delete _ i)).
Qed.

(** What the other devices of a namespace take up. *)
Definition others_ok (others : Z -> Z * Z) : Prop :=
  forall net, 0 <= (others net).1 /\ 0 <= (others net).2 /\ ((others net).1 = 0 -> (others net).2 = 0).

Record spaces_ok (others : Z -> Z * Z) (t : tx_state) (l : list melodi_namespace_queue) : Prop := {
  sp_nodup : NoDup (map ns_net l);
  sp_space : forall net, space l net = (holdings (NetFrames net) t + (others net).1, holdings (NetOctets net) t + (others net).2);
  sp_limits : forall net, (space l net).1 <= MELODI_TX_NAMESPACE_LIMIT /\
                          (space l net).2 <= MELODI_TX_NAMESPACE_BYTE_LIMIT;
  sp_used : Forall (fun q => 0 < q.(ns_messages)) l;
}.

(** Without frames there are no octets. *)
Lemma net_empty t net : accounts t -> holdings (NetFrames net) t = 0 -> holdings (NetOctets net) t = 0.
Proof.
  intros A. assert (queued (NetFrames net) t = 0 -> queued (NetOctets net) t = 0) as Hq.
  { unfold queued. induction (acc_entries t A) as [|e l He Hl IH]; [reflexivity|]. cbn [map]. rewrite !sumZ_cons.
    assert (0 <= sumZ (map (entry_share (NetFrames net)) l)).
    { apply sumZ_nonneg, Forall_map. apply (list.Forall_impl _ _ _ Hl). intros x. apply entry_share_nonneg. }
    pose proof (entry_share_nonneg (NetFrames net) e He). intros Hsum. rewrite IH by lia.
    assert (entry_share (NetFrames net) e = 0) as E by lia. revert E. unfold entry_share.
    destruct (e_active e); [destruct (_ =? _)|]; lia. }
  assert (reserved (NetFrames net) t = 0 -> reserved (NetOctets net) t = 0) as Hr.
  { unfold reserved. induction (acc_reservations t A) as [|r l Hr Hl IH]; [reflexivity|]. cbn [map]. rewrite !sumZ_cons.
    assert (0 <= sumZ (map (reservation_share (NetFrames net)) l)).
    { apply sumZ_nonneg, Forall_map. apply (list.Forall_impl _ _ _ Hl). intros x. apply reservation_share_nonneg. }
    pose proof (reservation_share_nonneg (NetFrames net) r Hr). intros Hsum. rewrite IH by lia.
    assert (reservation_share (NetFrames net) r = 0) as E by lia. revert E. unfold reservation_share, reservation_ok in *.
    destruct (v_active r); [destruct (_ =? _)|]; lia. }
  pose proof (queued_nonneg (NetFrames net) t (acc_entries t A)).
  pose proof (reserved_nonneg (NetFrames net) t (acc_reservations t A)).
  unfold holdings. intros Husage. rewrite Hq, Hr by lia. reflexivity.
Qed.

(** Giving back part of what a namespace holds. *)
Definition space_sub (net frames octets : Z) (l : list melodi_namespace_queue) : list melodi_namespace_queue :=
  match melodi_namespace_queue_find l net with
  | Some i => melodi_namespace_queue_put (namespace_add (- frames) (- octets) i l) i
  | None => l
  end.

Lemma space_sub_ok l net frames octets :
  NoDup (map ns_net l) -> Forall (fun q => 0 < q.(ns_messages)) l ->
  0 < frames <= (space l net).1 -> 0 <= octets <= (space l net).2 ->
  (space l net).1 <= MELODI_TX_NAMESPACE_LIMIT -> (space l net).2 <= MELODI_TX_NAMESPACE_BYTE_LIMIT ->
  (frames = (space l net).1 -> octets = (space l net).2) ->
  NoDup (map ns_net (space_sub net frames octets l)) /\
  Forall (fun q => 0 < q.(ns_messages)) (space_sub net frames octets l) /\
  forall n, space (space_sub net frames octets l) n =
    if n =? net then ((space l net).1 - frames, (space l net).2 - octets) else space l n.
Proof.
  intros Hnd Hpos Hf Ho Hlm Hlb Hz. unfold space_sub. pose proof (find_space l net) as H.
  destruct (melodi_namespace_queue_find l net) as [i|]; [|destruct H as [H _]; rewrite H in Hf; cbn in Hf; lia].
  destruct H as (q & Hq & <- & Hs). rewrite Hs in *. cbn [fst snd] in *. pose proof (lookup_lt_Some _ _ _ Hq) as Hi.
  assert (namespace_add (- frames) (- octets) i l =
    <[i := MkNamespace (ns_net q) (ns_messages q - frames) (ns_bytes q - octets)]> l) as ->.
  { unfold namespace_add. apply list_eq. intros j. destruct (decide (j = i)) as [->|Hj].
    - rewrite list_lookup_alter_eq, Hq, list_lookup_insert_eq by exact Hi. cbn. do 2 f_equal.
      + apply wrap_id. unfold uint. pow_norm. lia.
      + apply wrap_id. unfold uint. pow_norm. lia.
    - now rewrite list_lookup_alter_ne, list_lookup_insert_ne by auto. }
  unfold melodi_namespace_queue_put. rewrite list_lookup_insert_eq by exact Hi. cbn [ns_messages].
  set (q' := MkNamespace (ns_net q) (ns_messages q - frames) (ns_bytes q - octets)).
  assert (NoDup (map ns_net (<[i := q']> l))) as Hnd' by (unfold q'; now rewrite nets_insert).
  assert (<[i := q']> l !! i = Some q') as Hq' by now apply list_lookup_insert_eq.
  destruct (Z.eqb_spec (ns_messages q - frames) 0) as [E|E]; cbn [negb].
  - split; [now apply nets_delete|]. split.
    + assert (delete i (<[i := q']> l) = delete i l) as ->.
      { rewrite !delete_take_drop. now rewrite take_insert_ge, drop_insert_lt by lia. }
      now apply Forall_delete.
    + intros n. rewrite (space_delete _ i q' n Hnd' Hq'). cbn [ns_net q'].
      destruct (n =? ns_net q) eqn:En; [f_equal; lia|]. unfold q'. rewrite (space_insert l i q _ _ n Hnd Hq). now rewrite En.
  - split; [exact Hnd'|]. split; [apply Forall_insert; [exact Hpos|cbn; lia]|].
    intros n. apply (space_insert l i q _ _ n Hnd Hq).
Qed.

(** ** Good states *)

Record good (others : Z -> Z * Z) (s : core) : Prop := {
  g_others : others_ok others;
  g_accounts : accounts (tx s);
  g_spaces : spaces_ok others (tx s) s.(c_spaces);
}.

(** The namespace table only depends on what is queued and reserved. *)
Lemma spaces_ok_lists others t t' l :
  t.(t_queue) = t'.(t_queue) -> t.(t_reservations) = t'.(t_reservations) -> spaces_ok others t l -> spaces_ok others t' l.
Proof.
  intros E1 E2 [H1 H2 H3 H4]. constructor; auto. intros net. rewrite H2. unfold holdings, queued, reserved. now rewrite E1, E2.
Qed.

(** A change outside the ledger. *)
Lemma good_ledger others s s' :
  good others s -> ledger (tx s') = ledger (tx s) -> s'.(c_spaces) = s.(c_spaces) -> good others s'.
Proof.
  intros [H1 H2 H3] E1 E2. constructor; [exact H1| |].
  - apply (accounts_ledger (tx s)); auto.
  - rewrite E2. unfold ledger in E1. injection E1 as Eq Er _ _ _ _ _ _. eapply spaces_ok_lists; [| |exact H3]; congruence.
Qed.

(** Turns released are an update of the turn tables. *)
Lemma release_flow_shape i t : exists fl, release_flow i t = set_t_flows fl t.
Proof.
  unfold release_flow. destruct (melodi_queue_has_flow t i); [|eauto]. exists t.(t_flows). now destruct t.
Qed.
Lemma release_peer_shape i t : exists pe, release_peer i t = set_t_peers pe t.
Proof.
  unfold release_peer. destruct (melodi_queue_has_peer t i); [|eauto]. exists t.(t_peers). now destruct t.
Qed.

(** A device with other turns. *)
Definition with_turns (pe : list melodi_tx_peer_turn) (fl : list melodi_tx_flow_turn) (t : tx_state) : tx_state :=
  set_t_peers pe (set_t_flows fl t).

Lemma remove_entry_shape s i e :
  (tx s).(t_queue) !! i = Some e ->
  exists pe fl, melodi_queue_remove_locked s i =
    (MkCore (set_d_tx (with_turns pe fl (entry_removed i e (tx s))) s.(c_dev))
       (space_sub e.(e_net) 1 e.(e_length) s.(c_spaces)) s.(c_log), e.(e_frame)).
Proof.
  intros He. unfold melodi_queue_remove_locked. rewrite He.
  set (t1 := entry_removed i e (tx s)).
  assert (exists pe fl, (if e_control e then if e_control e then t1 else release_flow (e_flow_index e) t1
                         else release_peer (e_peer_index e) (if e_control e then t1 else release_flow (e_flow_index e) t1))
                        = with_turns pe fl t1) as (pe & fl & Ht).
  { destruct (e_control e).
    - exists t1.(t_peers), t1.(t_flows). unfold with_turns. now destruct t1.
    - destruct (release_flow_shape (e_flow_index e) t1) as [fl Hf]. rewrite Hf.
      destruct (release_peer_shape (e_peer_index e) (set_t_flows fl t1)) as [pe Hp]. rewrite Hp. now exists pe, fl. }
  exists pe, fl. unfold space_sub. rewrite <- Ht. destruct (melodi_namespace_queue_find (c_spaces s) (e_net e)); reflexivity.
Qed.

(** The namespace table after part of what a namespace holds was given back. *)
Lemma spaces_released others t t' l net frames octets :
  others_ok others -> accounts t' -> spaces_ok others t l -> 0 < frames -> 0 <= octets ->
  (forall n, holdings (NetFrames n) t' = holdings (NetFrames n) t - (if n =? net then frames else 0)) ->
  (forall n, holdings (NetOctets n) t' = holdings (NetOctets n) t - (if n =? net then octets else 0)) ->
  spaces_ok others t' (space_sub net frames octets l).
Proof.
  intros Ho A [S1 S2 S3 S4] Hf Hb Uf Ub. pose proof (S2 net) as Hs. pose proof (S3 net) as [B1 B2].
  pose proof (Uf net) as Uf1. pose proof (Ub net) as Ub1. rewrite Z.eqb_refl in Uf1, Ub1.
  destruct (Ho net) as (O1 & O2 & O3). pose proof (net_empty t' net A) as Hemp.
  pose proof (holdings_nonneg (NetFrames net) t' A). pose proof (holdings_nonneg (NetOctets net) t' A).
  destruct (space_sub_ok l net frames octets S1 S4) as (N1 & N2 & N3); try assumption;
    [rewrite Hs; cbn [fst snd]; lia|rewrite Hs; cbn [fst snd]; lia|rewrite Hs; cbn [fst snd]; lia|].
  constructor; auto.
  - intros n. rewrite N3, Hs, Uf, Ub, S2. destruct (Z.eqb_spec n net) as [->|_]; cbn [fst snd]; f_equal; lia.
  - intros n. rewrite N3. destruct (n =? net); [|auto]. rewrite Hs in B1, B2 |- *. cbn [fst snd] in *. lia.
Qed.

Lemma remove_entry_good others s i e :
  good others s -> (tx s).(t_queue) !! i = Some e -> e.(e_active) = true ->
  good others (melodi_queue_remove_locked s i).1.
Proof.
  intros [Ho A S] He Ha. destruct (remove_entry_shape s i e He) as (pe & fl & ->). cbn [fst snd].
  destruct (entry_removed_accounts i e (tx s) A He Ha) as [A' Hq].
  assert (entry_ok e) as Hok by (pose proof (acc_entries _ A) as H; rewrite list.Forall_lookup in H; exact (H _ _ He)).
  unfold entry_ok in Hok. rewrite Ha in Hok.
  constructor; [exact Ho|eapply accounts_ledger; [|exact A']; reflexivity|].
  cbn [c_dev c_spaces d_tx set_d_tx].
  apply (spaces_ok_lists _ (entry_removed i e (tx s))); [reflexivity|reflexivity|].
  apply (spaces_released _ (tx s)); try assumption; try lia; intros n; unfold holdings.
  - destruct (Hq (NetFrames n)) as [-> ->]. unfold entry_share. rewrite Ha, Z.eqb_sym. destruct (_ =? _); lia.
  - destruct (Hq (NetOctets n)) as [-> ->]. unfold entry_share. rewrite Ha, Z.eqb_sym. destruct (_ =? _); lia.
Qed.

(** ** Frames in flight

    What the link is about to be given: the frame, its metadata and whether it is
    a control frame, by index. *)
Definition cargo (e : melodi_tx_queue_entry) : bytes * melodi_tx_meta * bool := (e.(e_frame), e.(e_metadata), e.(e_control)).

Definition flying (e : melodi_tx_queue_entry) : option (bytes * melodi_tx_meta * bool) :=
  if e.(e_active) && e.(e_in_flight) then Some (cargo e) else None.

Definition flight (t : tx_state) (j : nat) : option (bytes * melodi_tx_meta * bool) := t.(t_queue) !! j ≫= flying.

(** A step that keeps the books and leaves the frames in flight alone. *)
Definition sound (others : Z -> Z * Z) (s s' : core) : Prop :=
  good others s' /\ forall j, flight (tx s') j = flight (tx s) j.

Lemma sound_refl others s : good others s -> sound others s s.
Proof. now split. Qed.

Lemma sound_trans others s1 s2 s3 :
  sound others s1 s2 -> (good others s2 -> sound others s2 s3) -> sound others s1 s3.
Proof. intros [G F] H. destruct (H G) as [G' F']. split; [exact G'|]. intros j. now rewrite F', F. Qed.

Lemma flight_queue t t' : t'.(t_queue) = t.(t_queue) -> forall j, flight t' j = flight t j.
Proof. unfold flight. now intros ->. Qed.

(** A change of neither ledger nor namespace table. *)
Lemma sound_ledger others s s' :
  good others s -> ledger (tx s') = ledger (tx s) -> s'.(c_spaces) = s.(c_spaces) -> sound others s s'.
Proof.
  intros G E1 E2. split; [now apply (good_ledger _ s)|]. apply flight_queue. unfold ledger in E1. congruence.
Qed.

Lemma sound_ledger_r others s s1 s2 :
  sound others s s1 -> ledger (tx s2) = ledger (tx s1) -> s2.(c_spaces) = s1.(c_spaces) -> sound others s s2.
Proof. intros H E1 E2. apply (sound_trans _ _ _ _ H). intros G. now apply sound_ledger. Qed.

Lemma flight_insert t t' i e :
  t'.(t_queue) = <[i := e]> t.(t_queue) -> (i < length t.(t_queue))%nat ->
  forall j, flight t' j = if decide (j = i) then flying e else flight t j.
Proof.
  intros E Hi j. unfold flight. rewrite E. destruct (decide (j = i)) as [->|Hj].
  - now rewrite list_lookup_insert_eq.
  - now rewrite list_lookup_insert_ne by congruence.
Qed.

(** ** Entries and reservations rewritten in place *)

Lemma entry_ok_at t i e : accounts t -> t.(t_queue) !! i = Some e -> entry_ok e.
Proof. intros A He. pose proof (acc_entries t A) as H. rewrite list.Forall_lookup in H. exact (H _ _ He). Qed.

Lemma reservation_ok_at t i r : accounts t -> t.(t_reservations) !! i = Some r -> reservation_ok r.
Proof. intros A Hr. pose proof (acc_reservations t A) as H. rewrite list.Forall_lookup in H. exact (H _ _ Hr). Qed.

Lemma queued_same l t i e e' :
  t.(t_queue) !! i = Some e -> entry_share l e' = entry_share l e ->
  queued l (set_t_queue (<[i := e']> t.(t_queue)) t) = queued l t.
Proof. intros He E. rewrite (queued_insert l t i e e' He). lia. Qed.

Lemma entry_update_accounts t i e e' :
  accounts t -> t.(t_queue) !! i = Some e -> entry_ok e' -> (forall l, entry_share l e' = entry_share l e) ->
  accounts (set_t_queue (<[i := e']> t.(t_queue)) t).
Proof.
  intros A He Hok Hs. destruct A as [H1 H2 H3 H4 H5 H6 H7 H8 H9 H10 H11].
  assert (forall l, queued l (set_t_queue (<[i := e']> (t_queue t)) t) = queued l t) as Hq
    by (intros l; now apply (queued_same l t i e)).
  constructor; auto.
  - cbn. now rewrite length_insert.
  - cbn. now apply Forall_insert.
  - now rewrite Hq.
  - now rewrite Hq.
  - intros l. unfold holdings. rewrite Hq. apply H10.
Qed.

Lemma entry_update_good others s i e e' :
  good others s -> (tx s).(t_queue) !! i = Some e -> entry_ok e' -> (forall l, entry_share l e' = entry_share l e) ->
  good others (set_tx (set_t_queue (<[i := e']> (tx s).(t_queue)) (tx s)) s).
Proof.
  intros [Ho A [S1 S2 S3 S4]] He Hok Hs. constructor; [exact Ho|now apply (entry_update_accounts _ i e)|].
  constructor; auto. intros net. rewrite S2. unfold holdings. cbn [c_dev set_tx d_tx set_d_tx].
  rewrite !(queued_same _ _ i e) by auto. reflexivity.
Qed.

Lemma alter_insert {A} (f : A -> A) (l : list A) i x : l !! i = Some x -> alter f i l = <[i := f x]> l.
Proof.
  intros H. apply list_eq. intros j. destruct (decide (j = i)) as [->|Hj].
  - rewrite list_lookup_alter_eq, list_lookup_insert_eq, H by exact (lookup_lt_Some _ _ _ H). reflexivity.
  - now rewrite list_lookup_alter_ne, list_lookup_insert_ne by congruence.
Qed.

(** ** Removing a reservation *)

Definition reservation_removed (i : nat) (r : melodi_tx_reservation) (t : tx_state) : tx_state :=
  let t := set_t_reserved_count (wrap 16 (t.(t_reserved_count) - r.(v_count))) t in
  let t := set_t_reserved_bytes (wrap 32 (t.(t_reserved_bytes) - r.(v_bytes))) t in
  let t := if r.(v_pending_reserved) then set_t_pending_reserved (wrap 16 (t.(t_pending_reserved) - 1)) t else t in
  set_t_reservations (<[i := zero_tx_reservation]> t.(t_reservations)) t.

Lemma reservation_removed_accounts i r t :
  accounts t -> t.(t_reservations) !! i = Some r -> r.(v_active) = true ->
  accounts (reservation_removed i r t) /\
  forall l, queued l (reservation_removed i r t) = queued l t /\
            reserved l (reservation_removed i r t) = reserved l t - reservation_share l r.
Proof.
  intros A Hr Ha. assert (forall l, reserved l (reservation_removed i r t) = reserved l t - reservation_share l r) as Hq.
  { intros l. pose proof (reserved_insert l t i r zero_tx_reservation Hr) as H. rewrite zero_reservation_share in H.
    transitivity (reserved l (set_t_reservations (<[i := zero_tx_reservation]> (t_reservations t)) t)); [|lia].
    unfold reservation_removed, reserved. now destruct (v_pending_reserved r). }
  assert (forall l, queued l (reservation_removed i r t) = queued l t) as Hk
    by (intros l; unfold reservation_removed, queued; now destruct (v_pending_reserved r)).
  split; [|now intros l].
  pose proof (accounts_range t A) as R. pose proof (pending_range t A) as P. pose proof (reservation_ok_at t i r A Hr) as Hok.
  pose proof (pending_share_le t i r Hr) as Hp. pose proof (sum_weight_insert pending_share _ i r zero_tx_reservation Hr) as Hz.
  pose proof A as [H1 H2 H3 H4 H5 H6 H7 H8 H9 H10 H11].
  pose proof (reservation_share_le Frames t i r H4 Hr) as F1. pose proof (reservation_share_le Octets t i r H4 Hr) as F2.
  pose proof (Hq Frames) as Q1. pose proof (Hq Octets) as Q2.
  unfold reservation_share in F1, F2, Q1, Q2. unfold reservation_ok in Hok. 
  change (pending_share zero_tx_reservation) with 0 in Hz. assert (pending_share r = if v_pending_reserved r then 1 else 0) as Hpr by (unfold pending_share; now rewrite Ha).
  rewrite Ha in F1, F2, Hok, Q1, Q2. rewrite Hpr in Hp, Hz.
  constructor.
  - unfold reservation_removed. now destruct (v_pending_reserved r).
  - unfold reservation_removed. destruct (v_pending_reserved r); cbn; now rewrite length_insert.
  - unfold reservation_removed. now destruct (v_pending_reserved r).
  - unfold reservation_removed. destruct (v_pending_reserved r); cbn; now apply Forall_insert.
  - rewrite Hk. unfold reservation_removed. now destruct (v_pending_reserved r).
  - rewrite Hk. unfold reservation_removed. now destruct (v_pending_reserved r).
  - rewrite Q1. unfold reservation_removed. destruct (v_pending_reserved r); cbn; rewrite wrap_id; unfold uint; pow_norm; lia.
  - rewrite Q2. unfold reservation_removed. destruct (v_pending_reserved r); cbn; rewrite wrap_id; unfold uint; pow_norm; lia.
  - unfold reservation_removed. destruct (v_pending_reserved r);
      cbn [t_pending_reserved t_reservations set_t_reservations set_t_pending_reserved set_t_reserved_bytes
           set_t_reserved_count]; rewrite Hz; [rewrite wrap_id by (unfold uint; pow_norm; lia)|]; lia.
  - intros l. specialize (H10 l). unfold holdings in *. rewrite Hq, Hk.
    assert (0 <= reservation_share l r) by (apply reservation_share_nonneg; unfold reservation_ok; now rewrite Ha). lia.
  - unfold reservation_removed. now destruct (v_pending_reserved r).
Qed.

Lemma release_turns_shape i j t : exists pe fl, release_peer i (release_flow j t) = with_turns pe fl t.
Proof.
  destruct (release_flow_shape j t) as [fl ->]. destruct (release_peer_shape i (set_t_flows fl t)) as [pe ->].
  now exists pe, fl.
Qed.

Lemma remove_reservation_shape s i r :
  (tx s).(t_reservations) !! i = Some r ->
  exists pe fl, melodi_reservation_remove_locked s i =
    MkCore (set_d_tx (with_turns pe fl (reservation_removed i r (tx s))) s.(c_dev))
      (space_sub r.(v_net) r.(v_count) r.(v_bytes) s.(c_spaces)) s.(c_log).
Proof.
  intros Hr. unfold melodi_reservation_remove_locked. rewrite Hr.
  destruct (release_turns_shape (v_peer_index r) (v_flow_index r) (reservation_removed i r (tx s))) as (pe & fl & Ht).
  exists pe, fl. unfold space_sub. rewrite <- Ht.
  destruct (melodi_namespace_queue_find (c_spaces s) (v_net r)); reflexivity.
Qed.

Lemma reservation_removed_queue i r t : (reservation_removed i r t).(t_queue) = t.(t_queue).
Proof. unfold reservation_removed. now destruct (v_pending_reserved r). Qed.

Lemma remove_reservation_sound others s i r :
  good others s -> (tx s).(t_reservations) !! i = Some r -> r.(v_active) = true ->
  sound others s (melodi_reservation_remove_locked s i).
Proof.
  intros [Ho A S] Hr Ha. destruct (remove_reservation_shape s i r Hr) as (pe & fl & ->).
  destruct (reservation_removed_accounts i r (tx s) A Hr Ha) as [A' Hq].
  pose proof (reservation_ok_at _ i r A Hr) as Hok. unfold reservation_ok in Hok. rewrite Ha in Hok.
  split; [|apply flight_queue, reservation_removed_queue].
  constructor; [exact Ho|eapply accounts_ledger; [|exact A']; reflexivity|].
  cbn [c_dev c_spaces d_tx set_d_tx].
  apply (spaces_ok_lists _ (reservation_removed i r (tx s))); [reflexivity|reflexivity|].
  apply (spaces_released _ (tx s)); try assumption; try lia; intros n; unfold holdings.
  - destruct (Hq (NetFrames n)) as [-> ->]. unfold reservation_share. rewrite Ha, Z.eqb_sym. destruct (_ =? _); lia.
  - destruct (Hq (NetOctets n)) as [-> ->]. unfold reservation_share. rewrite Ha, Z.eqb_sym. destruct (_ =? _); lia.
Qed.

(** Frames in flight after an entry is removed. *)
Lemma remove_entry_flight s i e :
  (tx s).(t_queue) !! i = Some e ->
  forall j, flight (tx (melodi_queue_remove_locked s i).1) j = if decide (j = i) then None else flight (tx s) j.
Proof.
  intros He. destruct (remove_entry_shape s i e He) as (pe & fl & ->).
  apply (flight_insert (tx s) _ i zero_tx_queue_entry); [reflexivity|exact (lookup_lt_Some _ _ _ He)].
Qed.

(** A frame the worker does not hold is removed. *)
Lemma remove_entry_sound others s i e :
  good others s -> (tx s).(t_queue) !! i = Some e -> e.(e_active) = true -> e.(e_in_flight) = false ->
  sound others s (melodi_queue_remove_locked s i).1.
Proof.
  intros G He Ha Hf. split; [now apply (remove_entry_good _ s i e)|]. intros j. rewrite (remove_entry_flight s i e He).
  destruct (decide (j = i)) as [->|]; [|reflexivity]. unfold flight. rewrite He. cbn. unfold flying. now rewrite Ha, Hf.
Qed.

(** Logging, dropping and pending messages do not touch the ledger. *)
Lemma pending_clear_tx s i : tx (melodi_pending_clear s i) = tx s /\ (melodi_pending_clear s i).(c_spaces) = s.(c_spaces).
Proof.
  unfold melodi_pending_clear. destruct (d_pending (c_dev s) !! i) as [p|]; [|auto].
  destruct (negb (pm_allocated p)); [auto|]. cbn [c_dev c_spaces d_tx set_d_pending].
  set (l := take _ _). clearbody l. revert s. induction l as [|f l IH]; intros s; cbn [fold_left]; [auto|].
  destruct (IH (emit (Released f) s)) as [-> ->]. auto.
Qed.

Lemma cancel_pending_tx s d m r :
  tx (melodi_data_cancel_pending_locked s d m r).1 = tx s /\
  (melodi_data_cancel_pending_locked s d m r).1.(c_spaces) = s.(c_spaces).
Proof.
  unfold melodi_data_cancel_pending_locked. destruct (find_index _ _) as [i|]; [apply pending_clear_tx|auto].
Qed.

Lemma notify_tx n s : tx (melodi_queue_notify n s) = tx s /\ (melodi_queue_notify n s).(c_spaces) = s.(c_spaces).
Proof. unfold melodi_queue_notify. destruct (n_active n), (n_error n); auto. Qed.

Lemma notify_sound others n s s' : sound others s s' -> sound others s (melodi_queue_notify n s').
Proof. intros H. destruct (notify_tx n s') as [E1 E2]. apply (sound_ledger_r _ _ _ _ H); now rewrite ?E1. Qed.

Lemma drop_frame_sound others f s s' : sound others s s' -> sound others s (drop_frame f s').
Proof. intros H. now apply (sound_ledger_r _ _ _ _ H). Qed.

Lemma wake_sound others up s s' : sound others s s' -> sound others s (wake_if_low up s').
Proof. intros H. unfold wake_if_low. destruct (_ && _); [now apply (sound_ledger_r _ _ _ _ H)|exact H]. Qed.

Lemma schedule_work_sound others d s s' : sound others s s' -> sound others s (schedule_work d s').
Proof. intros H. now apply (sound_ledger_r _ _ _ _ H). Qed.

Lemma schedule_reservation_ledger now t : ledger (melodi_reservation_schedule_locked now t) = ledger t.
Proof. unfold melodi_reservation_schedule_locked. now destruct (_ =? _). Qed.

Create HintDb queue.
#[export] Hint Resolve sound_refl notify_sound drop_frame_sound wake_sound schedule_work_sound : queue.

(** A loop whose turns are sound is sound. *)
Lemma sound_fold {A} others (f : core -> A -> core) l s :
  (forall s a, good others s -> sound others s (f s a)) -> good others s -> sound others s (fold_left f l s).
Proof.
  intros Hf. revert s. induction l as [|a l IH]; intros s G; [now apply sound_refl|]. cbn [fold_left].
  apply (sound_trans _ _ (f s a)); auto.
Qed.

(** ** Expiry and cancellation *)

Lemma expire_entry_sound others now sn i : good others sn.1 -> sound others sn.1 (expire_entry now sn i).1.
Proof.
  destruct sn as [s n]. cbn [fst]. intros G. unfold expire_entry. destruct (t_queue (tx s) !! i) as [e|] eqn:He; [|auto with queue].
  destruct (e_active e && negb (e_in_flight e) && (e_expires_ms e <=? now)) eqn:Hc; [|auto with queue].
  apply andb_true_iff in Hc as [Hc _]. apply andb_true_iff in Hc as [Ha Hf]. apply negb_true_iff in Hf.
  pose proof (remove_entry_sound others s i e G He Ha Hf) as H. destruct (melodi_queue_remove_locked s i) as [s' f]. cbn [fst] in *.
  now apply (sound_ledger_r _ _ _ _ (drop_frame_sound others f s s' H)).
Qed.

Lemma expire_sound others now s n : good others s -> sound others s (melodi_queue_expire_locked now s n).1.
Proof.
  unfold melodi_queue_expire_locked. generalize queue_indices as l. intros l. revert s n.
  induction l as [|i l IH]; intros s n G; cbn [fold_left]; [now apply sound_refl|].
  pose proof (expire_entry_sound others now (s, n) i G) as H. destruct (expire_entry now (s, n) i) as [s' n'].
  apply (sound_trans _ _ s'); [exact H|]. apply IH.
Qed.

(** A cancelled frame in flight stays in the books. *)
Lemma mark_sound others s i e e' :
  good others s -> (tx s).(t_queue) !! i = Some e -> e.(e_active) = true -> entry_ok e' ->
  (forall l, entry_share l e' = entry_share l e) -> flying e' = flying e ->
  sound others s (set_tx (set_t_queue (<[i := e']> (tx s).(t_queue)) (tx s)) s).
Proof.
  intros G He Ha Hok Hs Hfl. split; [now apply (entry_update_good _ _ _ e)|]. intros j.
  rewrite (flight_insert (tx s) _ i e'); [|reflexivity|exact (lookup_lt_Some _ _ _ He)].
  destruct (decide (j = i)) as [->|]; [|reflexivity].
  unfold flight. now rewrite He.
Qed.

(** One turn of the loop that cancels: the worker's own frame may go, no other
    frame in flight does. *)
Lemma cancel_entry_spec others g own rep s i :
  good others s ->
  good others (cancel_entry g own rep s i) /\
  (forall j, own <> Some j -> flight (tx (cancel_entry g own rep s i)) j = flight (tx s) j) /\
  (forall j, i <> j -> (tx (cancel_entry g own rep s i)).(t_queue) !! j = (tx s).(t_queue) !! j) /\
  (forall e, own = Some i -> (tx s).(t_queue) !! i = Some e -> e.(e_active) = true -> e.(e_group_id) = g ->
     flight (tx (cancel_entry g own rep s i)) i = None).
Proof.
  intros G. unfold cancel_entry. destruct (t_queue (tx s) !! i) as [e|] eqn:He;
    [|split; [exact G|split; [auto|split; [auto|congruence]]]].
  destruct (negb (e_active e) || _) eqn:Hc.
  { split; [exact G|split; [auto|split; [auto|]]]. intros e' _ [= <-] Ha Hg. rewrite Ha, Hg, Z.eqb_refl in Hc. discriminate Hc. }
  apply orb_false_iff in Hc as [Ha _]. apply negb_false_iff in Ha. pose proof (lookup_lt_Some _ _ _ He) as Hi.
  destruct (e_in_flight e && negb (bool_decide (own = Some i))) eqn:Hf.
  - apply andb_true_iff in Hf as [Hf Hown]. apply negb_true_iff, bool_decide_eq_false in Hown.
    set (e' := set_e_terminal_notified true (set_e_cancelled true e)).
    assert (entry_ok e') as Hok.
    { pose proof (entry_ok_at _ i e (g_accounts _ _ G) He) as Hok. unfold entry_ok in *. cbn. now rewrite Ha in *. }
    destruct (mark_sound others s i e e' G He Ha Hok (fun l => eq_refl) eq_refl) as [G' F].
    split; [exact G'|]. split; [auto|]. split; [|congruence].
    intros j Hj. cbn. now apply list_lookup_insert_ne.
  - pose proof (remove_entry_good others s i e G He Ha) as G'. pose proof (remove_entry_flight s i e He) as F.
    destruct (remove_entry_shape s i e He) as (pe & fl & E). rewrite E in *. cbn [fst] in *.
    split; [now apply (drop_frame_sound others _ _ _ (sound_refl _ _ G'))|]. split; [|split].
    + intros j Hj. etransitivity; [exact (F j)|]. destruct (decide (j = i)) as [->|]; [|reflexivity].
      rewrite bool_decide_false in Hf by exact Hj. rewrite andb_true_r in Hf. unfold flight. rewrite He. cbn.
      unfold flying. now rewrite Ha, Hf.
    + intros j Hj. cbn. now apply list_lookup_insert_ne.
    + intros e0 _ _ _ _. etransitivity; [exact (F i)|]. now rewrite decide_True.
Qed.

Lemma cancel_loop_spec others g own rep l s :
  good others s ->
  good others (fold_left (cancel_entry g own rep) l s) /\
  (forall j, own <> Some j -> flight (tx (fold_left (cancel_entry g own rep) l s)) j = flight (tx s) j) /\
  (forall i e, own = Some i -> i ∈ l -> NoDup l -> (tx s).(t_queue) !! i = Some e -> e.(e_active) = true ->
     e.(e_group_id) = g -> flight (tx (fold_left (cancel_entry g own rep) l s)) i = None) /\
  (forall j, j ∉ l -> (tx (fold_left (cancel_entry g own rep) l s)).(t_queue) !! j = (tx s).(t_queue) !! j).
Proof.
  revert s. induction l as [|i l IH]; intros s G; cbn [fold_left].
  { split; [exact G|split; [auto|split; [|auto]]]. intros i e _ Hi. now apply not_elem_of_nil in Hi. }
  destruct (cancel_entry_spec others g own rep s i G) as (G1 & F1 & Q1 & N1).
  destruct (IH _ G1) as (G2 & F2 & N2 & Q2). split; [exact G2|]. split; [|split].
  - intros j Hj. now rewrite F2, F1.
  - intros k e Hown Hk Hnd He Ha Hg. apply list.NoDup_cons in Hnd as [Hi Hnd]. destruct (decide (i = k)) as [->|Hik].
    + unfold flight at 1. rewrite (Q2 k Hi). exact (N1 e Hown He Ha Hg).
    + apply list.elem_of_cons in Hk as [->|Hk]; [congruence|]. apply (N2 k e); auto. now rewrite Q1.
  - intros j Hj. apply not_elem_of_cons in Hj as [Hj1 Hj2]. rewrite Q2, Q1; auto.
Qed.

Lemma cancel_group_prefix others s rep :
  good others s ->
  sound others s (if rep.(e_reliable)
                  then (melodi_data_cancel_pending_locked s rep.(e_destination) rep.(e_message_id) 0).1 else s) /\
  tx (if rep.(e_reliable)
      then (melodi_data_cancel_pending_locked s rep.(e_destination) rep.(e_message_id) 0).1 else s) = tx s.
Proof.
  intros G. destruct (e_reliable rep); [|split; [now apply sound_refl|reflexivity]].
  destruct (cancel_pending_tx s (e_destination rep) (e_message_id rep) 0) as [E1 E2].
  split; [|exact E1]. apply sound_ledger; auto. now rewrite E1.
Qed.

Lemma cancel_group_sound others s g error n :
  good others s -> sound others s (melodi_queue_cancel_group_locked s g None error n).1.1.
Proof.
  intros G. unfold melodi_queue_cancel_group_locked. destruct (filter _ _) as [|rep ms]; [now apply sound_refl|]. cbn [fst].
  destruct (cancel_group_prefix others s rep G) as [H1 _]. apply (sound_trans _ _ _ _ H1). intros G1.
  destruct (cancel_loop_spec others g None rep queue_indices _ G1) as (G2 & F2 & _).
  split; [exact G2|]. intros j. now apply F2.
Qed.

(** The worker cancels the group of the frame it holds. *)
Lemma cancel_group_owned others s i e error n :
  good others s -> (tx s).(t_queue) !! i = Some e -> e.(e_active) = true ->
  good others (melodi_queue_cancel_group_locked s e.(e_group_id) (Some i) error n).1.1 /\
  forall j, flight (tx (melodi_queue_cancel_group_locked s e.(e_group_id) (Some i) error n).1.1) j =
            if decide (j = i) then None else flight (tx s) j.
Proof.
  intros G He Ha. unfold melodi_queue_cancel_group_locked.
  destruct (filter _ _) as [|rep ms] eqn:Hm; cbn [fst].
  { exfalso. assert (e ∈ ([] : list melodi_tx_queue_entry)) as Hin; [|now apply not_elem_of_nil in Hin].
    rewrite <- Hm. apply list_elem_of_filter. rewrite Ha, Z.eqb_refl. split; [reflexivity|].
    apply list_elem_of_lookup. now exists i. }
  destruct (cancel_group_prefix others s rep G) as [[G1 F1] E1].
  destruct (cancel_loop_spec others (e_group_id e) (Some i) rep queue_indices _ G1) as (G2 & F2 & N2 & _).
  split; [exact G2|]. intros j. destruct (decide (j = i)) as [->|Hj].
  - apply (N2 i e); auto.
    + apply elem_of_seq. pose proof (lookup_lt_Some _ _ _ He). rewrite (acc_queue_length _ (g_accounts _ _ G)) in *. lia.
    + apply NoDup_seq.
    + rewrite E1. exact He.
  - rewrite F2 by congruence. apply F1.
Qed.
