(* ===== verification/QueueOps.v ===== *)
(** * The transmit queue: reserving and queueing

    Reservations and batches keep the accounts of the queue, and a batch that
    claims a reservation finds the room it was promised. *)
From S2P Require Import Prelude Buffer Uapi Slots Device Peers Policy Queue QueueInv.

(** ** The life of a reservation *)

Lemma find_reservation t id i :
  melodi_reservation_find_locked t id = Some i ->
  exists r, t.(t_reservations) !! i = Some r /\ r.(v_active) = true /\ r.(v_id) = id.
Proof.
  intros H. apply find_index_Some in H as (r & Hr & Hc & _). exists r. apply andb_true_iff in Hc as [Ha Hid].
  repeat split; auto. lia.
Qed.

Lemma reservation_cancel_sound others s id error notify :
  good others s -> sound others s (melodi_queue_reservation_cancel s id error notify).
Proof.
  intros G. unfold melodi_queue_reservation_cancel.
  destruct (melodi_reservation_find_locked (tx s) id) as [i|] eqn:Hf; [|auto with queue].
  destruct (find_reservation _ _ _ Hf) as (r & Hr & Ha & _). rewrite Hr.
  pose proof (remove_reservation_sound others s i r G Hr Ha) as H.
  destruct notify; [now apply (sound_ledger_r _ _ _ _ H)|exact H].
Qed.

Lemma reservation_work_turn_sound others s now :
  good others s -> sound others s (melodi_reservation_work_turn s now).1.
Proof.
  intros G. unfold melodi_reservation_work_turn. destruct (find_index _ _) as [i|] eqn:Hf; cbn [fst].
  - apply find_index_Some in Hf as (r & Hr & Hc & _). apply andb_true_iff in Hc as [Ha _]. rewrite Hr. cbn [fst].
    now apply (sound_ledger_r _ _ _ _ (remove_reservation_sound others s i r G Hr Ha)).
  - apply sound_ledger; auto. apply schedule_reservation_ledger.
Qed.

(** A reservation rewritten in place. *)
Lemma reservation_update_good others s i r r' t' :
  good others s -> (tx s).(t_reservations) !! i = Some r -> reservation_ok r' ->
  (forall l, reservation_share l r' = reservation_share l r) ->
  t'.(t_queue) = (tx s).(t_queue) -> t'.(t_reservations) = <[i := r']> (tx s).(t_reservations) ->
  (t'.(t_queue_count), t'.(t_queue_bytes)) = ((tx s).(t_queue_count), (tx s).(t_queue_bytes)) ->
  (t'.(t_reserved_count), t'.(t_reserved_bytes)) = ((tx s).(t_reserved_count), (tx s).(t_reserved_bytes)) ->
  t'.(t_pending_reserved) = (tx s).(t_pending_reserved) - pending_share r + pending_share r' ->
  t'.(t_reservation_sequence) = (tx s).(t_reservation_sequence) -> sound others s (set_tx t' s).
Proof.
  intros [Ho A [S1 S2 S3 S4]] Hr Hok Hs Eq Er Eqc Erc Ep Es. injection Eqc as E1 E2. injection Erc as E3 E4.
  assert (forall l, queued l t' = queued l (tx s)) as Hq by (intros l; unfold queued; now rewrite Eq).
  assert (forall l, reserved l t' = reserved l (tx s)) as Hv.
  { intros l. unfold reserved. rewrite Er, (sum_weight_insert _ _ _ r) by exact Hr. rewrite Hs. lia. }
  split; [|now apply flight_queue]. destruct A as [H1 H2 H3 H4 H5 H6 H7 H8 H9 H10 H11].
  constructor; [exact Ho| |].
  - constructor; cbn [c_dev set_tx d_tx set_d_tx]; rewrite ?Eq, ?Er, ?Hq, ?Hv, ?E1, ?E2, ?E3, ?E4, ?Es; auto.
    + now rewrite length_insert.
    + now apply Forall_insert.
    + rewrite Ep, (sum_weight_insert _ _ _ r) by exact Hr. lia.
    + intros l. unfold holdings. rewrite Hq, Hv. apply H10.
  - constructor; auto. intros net. rewrite S2. unfold holdings. cbn [c_dev set_tx d_tx set_d_tx]. now rewrite !Hq, !Hv.
Qed.

Lemma with_reservation_sound others s id guard f g :
  good others s ->
  (forall r, r.(v_active) = true -> guard r = true -> (f r).(v_active) = true /\ (f r).(v_count) = r.(v_count) /\
     (f r).(v_bytes) = r.(v_bytes) /\ (f r).(v_id) = r.(v_id) /\ forall l, reservation_share l (f r) = reservation_share l r) ->
  (forall t, (g t).(t_queue) = t.(t_queue) /\ (g t).(t_reservations) = t.(t_reservations) /\
     (g t).(t_queue_count) = t.(t_queue_count) /\ (g t).(t_queue_bytes) = t.(t_queue_bytes) /\
     (g t).(t_reserved_count) = t.(t_reserved_count) /\ (g t).(t_reserved_bytes) = t.(t_reserved_bytes) /\
     (g t).(t_reservation_sequence) = t.(t_reservation_sequence)) ->
  (forall r, r.(v_active) = true -> guard r = true ->
     forall t, pending_share r <= t.(t_pending_reserved) <= 128 ->
     (g t).(t_pending_reserved) = t.(t_pending_reserved) - pending_share r + pending_share (f r)) ->
  sound others s (with_reservation s id guard f g).1.
Proof.
  intros G Hf Hg Hp. unfold with_reservation.
  destruct (melodi_reservation_find_locked (tx s) id) as [i|] eqn:Hi; [|auto with queue].
  destruct (find_reservation _ _ _ Hi) as (r & Hr & Ha & _). cbn. rewrite Hr. cbn. destruct (guard r) eqn:Hgr; [|auto with queue].
  destruct (Hf r Ha Hgr) as (F1 & F2 & F3 & F5 & F4). cbn [fst]. set (t' := g _).
  destruct (Hg (set_t_reservations (<[i := f r]> (t_reservations (tx s))) (tx s))) as (E1 & E2 & E3 & E4 & E5 & E6 & E7).
  pose proof (pending_share_le _ i r Hr) as Hle. rewrite <- (acc_pending _ (g_accounts _ _ G)) in Hle.
  pose proof (pending_range _ (g_accounts _ _ G)) as Hrange.
  fold t' in E1, E2, E3, E4, E5, E6, E7. cbn in E1, E2, E3, E4, E5, E6, E7.
  apply (reservation_update_good others s i r (f r)); auto; try congruence.
  - pose proof (reservation_ok_at _ i r (g_accounts _ _ G) Hr) as Hok. unfold reservation_ok in *. now rewrite F1, F2, F3, F5, Ha in *.
  - unfold t'. rewrite (Hp r Ha Hgr); cbn; lia.
Qed.

Lemma reservation_pending_sound others s id :
  good others s -> sound others s (melodi_queue_reservation_pending s id).1.
Proof.
  intros G. unfold melodi_queue_reservation_pending. apply with_reservation_sound; [exact G| | |].
  - intros r Ha _. cbn. repeat split; auto.
  - intros t. cbn. repeat split; auto.
  - intros r Ha Hgr t Ht. unfold pending_share in *. cbn [v_active v_pending_reserved set_v_pending_reserved].
    rewrite Ha, Hgr in *. cbn [andb] in *. cbn. rewrite wrap_id; unfold uint; pow_norm; lia.
Qed.

Lemma reservation_seal_sound siphash others s id data :
  good others s -> sound others s (melodi_queue_reservation_seal siphash s id data).1.
Proof.
  intros G. unfold melodi_queue_reservation_seal. destruct (zlen data =? 0); [auto with queue|].
  apply with_reservation_sound; [exact G| | |].
  - intros r Ha _. cbn. repeat split; auto.
  - intros t. repeat split; auto.
  - intros r Ha _ t _. unfold pending_share. cbn. lia.
Qed.

Lemma reservation_claim_sound siphash others s id data :
  good others s -> sound others s (melodi_queue_reservation_claim siphash s id data).1.
Proof.
  intros G. unfold melodi_queue_reservation_claim. destruct (zlen data =? 0); [auto with queue|].
  apply with_reservation_sound; [exact G| | |].
  - intros r Ha _. cbn. repeat split; auto.
  - intros t. repeat split; auto.
  - intros r Ha _ t _. unfold pending_share. cbn. lia.
Qed.

(** ** The namespace record of a caller *)

Record opened (l l' : list melodi_namespace_queue) (net : Z) (i : nat) (q : melodi_namespace_queue) : Prop := {
  op_nodup : NoDup (map ns_net l');
  op_space : forall n, space l' n = space l n;
  op_record : l' !! i = Some q;
  op_net : q.(ns_net) = net;
  op_value : (q.(ns_messages), q.(ns_bytes)) = space l net;
  op_put : melodi_namespace_queue_put l' i = l;
  op_used : forall j p, l' !! j = Some p -> j <> i -> 0 < p.(ns_messages);
}.

Lemma space_app l q n : q.(ns_net) ∉ map ns_net l ->
  space (l ++ [q]) n = if n =? q.(ns_net) then (q.(ns_messages), q.(ns_bytes)) else space l n.
Proof.
  induction l as [|p l IH]; cbn [app map space]; intros H.
  - rewrite Z.eqb_sym. reflexivity.
  - apply not_elem_of_cons in H as [Hp H]. rewrite (IH H).
    destruct (Z.eqb_spec (ns_net p) n) as [<-|]; [|reflexivity]. destruct (Z.eqb_spec (ns_net p) (ns_net q)); congruence.
Qed.

Lemma namespace_get_opened alloc l net l' i :
  NoDup (map ns_net l) -> Forall (fun q => 0 < q.(ns_messages)) l ->
  melodi_namespace_queue_get alloc l net = Some (l', i) -> exists q, opened l l' net i q.
Proof.
  intros Hnd Hpos. unfold melodi_namespace_queue_get. pose proof (find_space l net) as H.
  rewrite list.Forall_lookup in Hpos.
  destruct (melodi_namespace_queue_find l net) as [k|].
  - intros [= <- <-]. destruct H as (q & Hq & Hn & Hs). exists q. constructor; auto.
    + unfold melodi_namespace_queue_put. rewrite Hq. pose proof (Hpos _ _ Hq). destruct (Z.eqb_spec (ns_messages q) 0); [lia|reflexivity].
    + intros j p Hp _. exact (Hpos _ _ Hp).
  - destruct alloc; [|discriminate]. intros [= <- <-]. destruct H as [Hs Hn]. set (q := MkNamespace net 0 0).
    assert ((l ++ [q]) !! length l = Some q) as Hq by now apply list_lookup_middle.
    exists q. constructor; auto.
    + rewrite map_app. apply list.NoDup_app. split; [exact Hnd|]. split; [|apply NoDup_singleton].
      intros x Hx Hx'. apply list_elem_of_singleton in Hx'. subst x. contradiction.
    + intros n. rewrite space_app by exact Hn. cbn. destruct (Z.eqb_spec n net) as [->|]; congruence.
    + unfold melodi_namespace_queue_put. rewrite Hq. cbn [ns_messages q Z.eqb negb].
      rewrite delete_middle, app_nil_r. reflexivity.
    + intros j p Hp Hj. apply lookup_app_Some in Hp as [Hp|[Hle Hp]]; [exact (Hpos _ _ Hp)|].
      apply list_lookup_singleton_Some in Hp as [Hp _]. lia.
Qed.

Lemma wrap_add_l w a b : wrap w (wrap w a + b) = wrap w (a + b).
Proof. unfold wrap. apply Zplus_mod_idemp_l. Qed.

Lemma namespace_add_add m b m' b' i l :
  namespace_add m' b' i (namespace_add m b i l) = namespace_add (m + m') (b + b') i l.
Proof.
  unfold namespace_add. apply list_eq. intros j. destruct (decide (j = i)) as [->|Hj].
  - rewrite !list_lookup_alter_eq. destruct (l !! i) as [q|]; [|reflexivity]. cbn. now rewrite !wrap_add_l, !Z.add_assoc.
  - now rewrite !list_lookup_alter_ne by congruence.
Qed.

Lemma spaces_charged others t t' l l' net i q m b :
  opened l l' net i q -> spaces_ok others t l -> 0 < m -> 0 <= b -> others_ok others -> accounts t ->
  (space l net).1 + m <= MELODI_TX_NAMESPACE_LIMIT -> (space l net).2 + b <= MELODI_TX_NAMESPACE_BYTE_LIMIT ->
  (forall n, holdings (NetFrames n) t' = holdings (NetFrames n) t + (if n =? net then m else 0)) ->
  (forall n, holdings (NetOctets n) t' = holdings (NetOctets n) t + (if n =? net then b else 0)) ->
  spaces_ok others t' (namespace_add m b i l').
Proof.
  intros [P1 P2 P3 P4 P5 P6 P7] [S1 S2 S3 S4] Hm Hb Ho A Lm Lb Uf Ub.
  pose proof (S2 net) as Hs. destruct (Ho net) as (O1 & O2 & _).
  pose proof (holdings_nonneg (NetFrames net) t A). pose proof (holdings_nonneg (NetOctets net) t A).
  rewrite <- P5 in Hs, Lm, Lb. cbn [fst snd] in Lm, Lb. injection Hs as Hs1 Hs2.
  assert (namespace_add m b i l' = <[i := MkNamespace (ns_net q) (ns_messages q + m) (ns_bytes q + b)]> l') as ->.
  { unfold namespace_add. rewrite (alter_insert _ _ _ q P3). f_equal. f_equal; apply wrap_id; unfold uint; pow_norm; lia. }
  assert (forall n, space (<[i := MkNamespace (ns_net q) (ns_messages q + m) (ns_bytes q + b)]> l') n =
    if n =? net then (ns_messages q + m, ns_bytes q + b) else space l n) as Hsp.
  { intros n. rewrite (space_insert l' i q _ _ n P1 P3), P4. now destruct (n =? net). }
  constructor.
  - now rewrite nets_insert.
  - intros n. rewrite Hsp, Uf, Ub, S2. destruct (Z.eqb_spec n net) as [->|]; f_equal; lia.
  - intros n. rewrite Hsp. destruct (n =? net); [cbn; lia|apply S3].
  - apply list.Forall_lookup. intros j p Hp. destruct (decide (j = i)) as [->|Hj].
    + rewrite list_lookup_insert_eq in Hp by exact (lookup_lt_Some _ _ _ P3). injection Hp as <-. cbn. lia.
    + rewrite list_lookup_insert_ne in Hp by congruence. exact (P7 _ _ Hp Hj).
Qed.

(** ** Capacity *)

Lemma tally_usage (ce : melodi_tx_queue_entry -> bool) (cr : melodi_tx_reservation -> bool) l t :
  (forall e, entry_share l e = entry_count ce e) -> (forall r, reservation_share l r = reservation_count cr r) ->
  tally ce cr t = holdings l t.
Proof.
  intros He Hr. unfold tally, holdings, queued, reserved. f_equal; f_equal; apply map_ext; intros x; symmetry; auto.
Qed.

Lemma share_if (b : bool) (c : bool) (x : Z) : (if b then if b && c then x else 0 else 0) = if b && c then x else 0.
Proof. now destruct b. Qed.

Ltac tally_usage := apply tally_usage; intros ?;
  unfold entry_share, reservation_share, entry_count, reservation_count, entry_data; destruct (e_active _) || destruct (v_active _); reflexivity.

Lemma data_count_usage t : data_count t = holdings Data t.
Proof. tally_usage. Qed.
Lemma peer_count_usage locator t : peer_count locator t = holdings (PeerShare locator) t.
Proof. tally_usage. Qed.
Lemma service_count_usage service t : service_count service t = holdings (ServiceShare service) t.
Proof. tally_usage. Qed.
Lemma binding_count_usage p g t : binding_count p g t = holdings (BindingShare p g) t.
Proof. tally_usage. Qed.

(** What one more frame, or one more reservation, of a request takes up. *)
Definition demand (control : bool) (net locator service portid generation count bytes : Z) (l : resource) : Z :=
  match l with
  | Frames => count
  | Octets => bytes
  | Data => if control then 0 else count
  | PeerShare p => if negb control && (locator =? p) then count else 0
  | ServiceShare x => if negb control && (service =? x) then count else 0
  | BindingShare p g => if negb control && ((portid =? p) && (generation =? g)) then count else 0
  | NetFrames n => if net =? n then count else 0
  | NetOctets n => if net =? n then bytes else 0
  end.

(** The shares of a namespace are part of the shares of the device. *)
Lemma share_net_le n t : accounts t ->
  holdings (NetFrames n) t <= holdings Frames t /\ holdings (NetOctets n) t <= holdings Octets t.
Proof.
  intros A. unfold holdings, queued, reserved.
  assert (sumZ (map (entry_share (NetFrames n)) t.(t_queue)) <= sumZ (map (entry_share Frames) t.(t_queue)) /\
          sumZ (map (entry_share (NetOctets n)) t.(t_queue)) <= sumZ (map (entry_share Octets) t.(t_queue))) as [Q1 Q2].
  { induction (acc_entries t A) as [|e l He _ IH]; [cbn; lia|]. cbn [map]. rewrite !sumZ_cons.
    unfold entry_ok, entry_share in *. destruct (e_active e); [destruct (e_net e =? n)|]; lia. }
  assert (sumZ (map (reservation_share (NetFrames n)) t.(t_reservations)) <= sumZ (map (reservation_share Frames) t.(t_reservations)) /\
          sumZ (map (reservation_share (NetOctets n)) t.(t_reservations)) <= sumZ (map (reservation_share Octets) t.(t_reservations))) as [R1 R2].
  { induction (acc_reservations t A) as [|r l Hr _ IH]; [cbn; lia|]. cbn [map]. rewrite !sumZ_cons.
    unfold reservation_ok, reservation_share in *. destruct (v_active r); [destruct (v_net r =? n)|]; lia. }
  lia.
Qed.

(** What the check of the capacity promises. *)
Record room (others : Z -> Z * Z) (s s1 : core) (net locator : Z) (request : melodi_queue_request) (count bytes : Z)
    (i : nat) (q : melodi_namespace_queue) : Prop := {
  rm_core : exists l', s1 = set_spaces l' s /\ opened s.(c_spaces) l' net i q;
  rm_limits : forall l, holdings l (tx s) + demand request.(q_control) net locator request.(q_service)
                request.(q_binding_portid) request.(q_binding_generation) count bytes l <= bound l;
  rm_space : (space s.(c_spaces) net).1 + count <= MELODI_TX_NAMESPACE_LIMIT /\
             (space s.(c_spaces) net).2 + bytes <= MELODI_TX_NAMESPACE_BYTE_LIMIT;
}.

(** The guards of the code, one by one. *)
Ltac pass_check G :=
  match goal with |- (if ?b then _ else _) = _ -> _ => destruct b eqn:G; [discriminate|] end.

Ltac sound_check G :=
  match goal with |- sound _ _ (if ?b then _ else _).1 => destruct b eqn:G; [solve [auto with queue]|] end.

Lemma capacity_room others alloc s net locator request count bytes s1 i :
  good others s -> 0 <= count -> 0 <= bytes ->
  melodi_queue_capacity_locked alloc s net locator request count bytes = (s1, Some i, Ok tt) ->
  exists q, room others s s1 net locator request count bytes i q.
Proof.
  intros [Ho A S] Hc Hb. unfold melodi_queue_capacity_locked.
  destruct (melodi_namespace_queue_get alloc (c_spaces s) net) as [[l' k]|] eqn:Hget; [|discriminate].
  destruct (namespace_get_opened _ _ _ _ _ (sp_nodup _ _ _ S) (sp_used _ _ _ S) Hget) as [q Hop].
  rewrite data_count_usage, peer_count_usage, service_count_usage, binding_count_usage.
  pose proof (accounts_range _ A) as R. rewrite (wrap_id 32) by (unfold uint; pow_norm; lia).
  rewrite (op_record _ _ _ _ _ Hop). cbn [default].
  cbn [id]. pass_check G1. pass_check G2. pass_check G3. pass_check G4.
  intros [= <- <-]. exists q.
  repeat (rewrite ?orb_false_iff, ?Z.ltb_ge in G3). destruct G3 as (((G3 & G5) & G6) & G7).
  pose proof (op_value _ _ _ _ _ Hop) as Hv.
  constructor; [eauto| |rewrite <- Hv; cbn [fst snd]; lia].
  intros l. pose proof (acc_limits _ A l) as L.
  assert (forall n, holdings (NetFrames n) (tx s) <= holdings Frames (tx s) /\ holdings (NetOctets n) (tx s) <= holdings Octets (tx s))
    as N by (intros n; now apply share_net_le).
  rewrite (acc_count _ A), (acc_bytes _ A), (acc_reserved_count _ A), (acc_reserved_bytes _ A) in *.
  unfold holdings in *.
  destruct l; cbn [demand bound] in *; try lia.
  1-4: destruct (q_control request); cbn [negb andb] in *; [lia|];
       rewrite !orb_false_iff, !Z.ltb_ge in G4; destruct G4 as (((G8 & G9) & G10) & G11).
  - lia.
  - destruct (Z.eqb_spec locator locator0) as [<-|]; lia.
  - destruct (Z.eqb_spec (q_service request) service) as [<-|]; lia.
  - destruct (Z.eqb_spec (q_binding_portid request) portid) as [<-|]; cbn [andb]; [|lia].
    destruct (Z.eqb_spec (q_binding_generation request) generation) as [<-|]; lia.
  - destruct (net =? net0); [|lia]. pose proof (N net0). lia.
  - destruct (net =? net0); [|lia]. pose proof (N net0). lia.
Qed.

(** A refused caller leaves the table as it was. *)
Lemma capacity_refused others alloc s net locator request count bytes s1 o error :
  good others s -> melodi_queue_capacity_locked alloc s net locator request count bytes = (s1, o, Err error) ->
  match o with
  | Some i => tx s1 = tx s /\ melodi_namespace_queue_put s1.(c_spaces) i = s.(c_spaces)
  | None => s1 = s
  end.
Proof.
  intros [Ho A S]. unfold melodi_queue_capacity_locked.
  destruct (melodi_namespace_queue_get alloc (c_spaces s) net) as [[l' k]|] eqn:Hget; [|now intros [= <- <- <-]].
  destruct (namespace_get_opened _ _ _ _ _ (sp_nodup _ _ _ S) (sp_used _ _ _ S) Hget) as [q Hop].
  pose proof (op_put _ _ _ _ _ Hop). repeat (destruct (_ || _) || destruct (_ && _)); intros [= <- <- <-]; auto.
Qed.

(** ** Reserving *)

Lemma create_turns_shape pc pi fc fi locator request t :
  exists pe fl, create_flow fc fi pi locator request (create_peer pc pi locator t) = with_turns pe fl t.
Proof.
  set (t' := create_flow _ _ _ _ _ _). exists t'.(t_peers), t'.(t_flows). subst t'. destruct t, pc, fc; reflexivity.
Qed.

Lemma reserve_fail_shape peer flow ns s :
  ledger (tx (reserve_fail peer flow ns s)) = ledger (tx s) /\
  (reserve_fail peer flow ns s).(c_spaces) =
    match ns with Some i => melodi_namespace_queue_put s.(c_spaces) i | None => s.(c_spaces) end.
Proof.
  unfold reserve_fail. split; [|now destruct ns].
  transitivity (ledger (match peer with
                        | Some i => release_peer i (match flow with Some j => release_flow j (tx s) | None => tx s end)
                        | None => match flow with Some j => release_flow j (tx s) | None => tx s end end)).
  { now destruct ns. }
  destruct peer; rewrite ?release_peer_ledger; destruct flow; rewrite ?release_flow_ledger; reflexivity.
Qed.

Lemma reserve_fail_sound others s s1 l' net i q peer flow :
  good others s -> s1 = set_spaces l' s -> opened s.(c_spaces) l' net i q ->
  sound others s (reserve_fail peer flow (Some i) s1).
Proof.
  intros G -> Hop. destruct (reserve_fail_shape peer flow (Some i) (set_spaces l' s)) as [E1 E2].
  apply sound_ledger; [exact G|exact E1|]. rewrite E2. exact (op_put _ _ _ _ _ Hop).
Qed.

Lemma accounts_sequence n t : accounts t -> 0 <= n <= U64_MAX -> accounts (set_t_reservation_sequence n t).
Proof. intros [] Hn. now constructor. Qed.

Lemma wrap_u64 x : 0 <= wrap 64 x <= U64_MAX.
Proof. pose proof (wrap_uint 64 x ltac:(lia)) as H. unfold uint, U64_MAX in *. lia. Qed.

(** A state with one more reservation. *)
Definition reservation_added (i : nat) (r : melodi_tx_reservation) (t : tx_state) : tx_state :=
  let t := set_t_reservations (<[i := r]> t.(t_reservations)) t in
  let t := set_t_reserved_count (wrap 16 (t.(t_reserved_count) + r.(v_count))) t in
  let t := set_t_reserved_bytes (wrap 32 (t.(t_reserved_bytes) + r.(v_bytes))) t in
  if r.(v_pending_reserved) then set_t_pending_reserved (wrap 16 (t.(t_pending_reserved) + 1)) t else t.

Lemma reservation_added_accounts i r t :
  accounts t -> t.(t_reservations) !! i = Some zero_tx_reservation -> r.(v_active) = true -> reservation_ok r ->
  (forall l, holdings l t + reservation_share l r <= bound l) ->
  accounts (reservation_added i r t) /\
  forall l, holdings l (reservation_added i r t) = holdings l t + reservation_share l r.
Proof.
  intros A Hr Ha Hok Hl.
  assert (forall l, reserved l (reservation_added i r t) = reserved l t + reservation_share l r) as Hq.
  { intros l. pose proof (reserved_insert l t i _ r Hr) as H. rewrite zero_reservation_share in H.
    transitivity (reserved l (set_t_reservations (<[i := r]> (t_reservations t)) t)); [|lia].
    unfold reservation_added, reserved. now destruct (v_pending_reserved r). }
  assert (forall l, queued l (reservation_added i r t) = queued l t) as Hk
    by (intros l; unfold reservation_added, queued; now destruct (v_pending_reserved r)).
  split; [|intros l; unfold holdings; rewrite Hq, Hk; lia].
  pose proof (accounts_range t A) as R. pose proof (pending_range t A) as P.
  pose proof (sum_weight_insert pending_share _ i _ r Hr) as Hz. change (pending_share zero_tx_reservation) with 0 in Hz.
  assert (pending_share r = if v_pending_reserved r then 1 else 0) as Hpr by (unfold pending_share; now rewrite Ha).
  pose proof A as [H1 H2 H3 H4 H5 H6 H7 H8 H9 H10 H11].
  pose proof (Hl Frames) as L1. pose proof (Hl Octets) as L2.
  assert (reservation_share Frames r = r.(v_count) /\ reservation_share Octets r = r.(v_bytes)) as [S1 S2]
    by (unfold reservation_share; now rewrite Ha).
  pose proof Hok as Hok'. unfold reservation_ok in Hok'. rewrite Ha in Hok'. cbn [bound] in L1, L2. unfold holdings in L1, L2.
  constructor.
  - unfold reservation_added. now destruct (v_pending_reserved r).
  - unfold reservation_added. destruct (v_pending_reserved r); cbn; now rewrite length_insert.
  - unfold reservation_added. now destruct (v_pending_reserved r).
  - unfold reservation_added. destruct (v_pending_reserved r); cbn; now apply Forall_insert.
  - rewrite Hk. unfold reservation_added. now destruct (v_pending_reserved r).
  - rewrite Hk. unfold reservation_added. now destruct (v_pending_reserved r).
  - rewrite Hq, S1. unfold reservation_added. destruct (v_pending_reserved r); cbn; rewrite wrap_id; unfold uint; pow_norm; lia.
  - rewrite Hq, S2. unfold reservation_added. destruct (v_pending_reserved r); cbn; rewrite wrap_id; unfold uint; pow_norm; lia.
  - unfold reservation_added. destruct (v_pending_reserved r);
      cbn [t_pending_reserved t_reservations set_t_reservations set_t_pending_reserved set_t_reserved_bytes
           set_t_reserved_count]; rewrite Hz, Hpr; [rewrite wrap_id by (unfold uint; pow_norm; lia)|]; lia.
  - intros l. specialize (Hl l). unfold holdings in *. rewrite Hq, Hk. lia.
  - unfold reservation_added. now destruct (v_pending_reserved r).
Qed.

Lemma reservation_demand r :
  r.(v_active) = true -> forall l, reservation_share l r =
    demand false r.(v_net) r.(v_locator) r.(v_service) r.(v_binding_portid) r.(v_binding_generation) r.(v_count) r.(v_bytes) l.
Proof.
  intros Ha l. unfold reservation_share, reservation_count. rewrite Ha. cbn [andb]. now destruct l.
Qed.

Lemma free_reservation t i :
  accounts t -> find_index (fun r => negb r.(v_active)) t.(t_reservations) = Some i ->
  t.(t_reservations) !! i = Some zero_tx_reservation.
Proof.
  intros A H. apply find_index_Some in H as (r & Hr & Hn & _). apply negb_true_iff in Hn.
  pose proof (reservation_ok_at t i r A Hr) as Hok. unfold reservation_ok in Hok. rewrite Hn in Hok. now subst r.
Qed.

(** The reservation that is admitted. *)
Lemma reserve_commit others s s1 l' net i q index r t1 t :
  good others s -> s1 = set_spaces l' s -> opened s.(c_spaces) l' net i q ->
  accounts t1 -> t1.(t_queue) = (tx s).(t_queue) -> t1.(t_reservations) = (tx s).(t_reservations) ->
  t1.(t_reservations) !! index = Some zero_tx_reservation -> r.(v_active) = true -> reservation_ok r -> r.(v_net) = net ->
  (forall l, holdings l (tx s) + reservation_share l r <= bound l) ->
  (space s.(c_spaces) net).1 + r.(v_count) <= MELODI_TX_NAMESPACE_LIMIT ->
  (space s.(c_spaces) net).2 + r.(v_bytes) <= MELODI_TX_NAMESPACE_BYTE_LIMIT ->
  ledger t = ledger (reservation_added index r t1) ->
  sound others s (set_spaces (namespace_add r.(v_count) r.(v_bytes) i s1.(c_spaces)) (set_tx t s1)).
Proof.
  intros G -> Hop A1 Q1 R1 Hz Ha Hok Hnet Hlim Sp1 Sp2 Hled.
  assert (forall l, holdings l t1 = holdings l (tx s)) as Hu by (intros l; unfold holdings, queued, reserved; now rewrite Q1, R1).
  destruct (reservation_added_accounts index r t1 A1 Hz Ha Hok) as [A2 U2]; [intros l; now rewrite Hu|].
  pose proof (f_equal (fun x => x.1.1.1) Hled) as T1. pose proof (f_equal (fun x => x.1.1.2) Hled) as T2.
  cbn [ledger fst snd] in T1, T2.
  assert (t_queue (reservation_added index r t1) = t_queue t1) as Q2 by (unfold reservation_added; now destruct (v_pending_reserved r)).
  unfold reservation_ok in Hok. rewrite Ha in Hok.
  split; [|apply flight_queue; cbn; congruence].
  constructor; [apply G|now apply (accounts_ledger (reservation_added index r t1))|].
  cbn [c_dev c_spaces d_tx set_d_tx set_spaces set_tx].
  apply (spaces_ok_lists _ (reservation_added index r t1)); [congruence|congruence|].
  apply (spaces_charged _ (tx s) _ _ _ net i q _ _ Hop (g_spaces _ _ G)); try apply G; try assumption; try lia;
    intros n; rewrite U2, Hu, (reservation_demand r Ha); cbn [demand]; rewrite Hnet, Z.eqb_sym; reflexivity.
Qed.

Lemma reserve_sound others alloc s net locator request count bytes logical cookie reliable active now :
  good others s -> 0 <= count -> 0 <= bytes ->
  sound others s (melodi_queue_reserve alloc s net locator request count bytes logical cookie reliable active now).1.
Proof.
  intros G Hc Hb. unfold melodi_queue_reserve.
  sound_check G1. sound_check G2. sound_check G3. sound_check G4.
  destruct (find_index _ _) as [index|] eqn:Hfree; [|auto with queue].
  apply (free_reservation _ _ (g_accounts _ _ G)) in Hfree.
  destruct (melodi_queue_capacity_locked alloc s net locator request count bytes) as [[s1 ns] [[]|error]] eqn:Hcap.
  2:{ pose proof (capacity_refused _ _ _ _ _ _ _ _ _ _ _ G Hcap) as H. destruct ns as [i|]; [|subst s1; auto with queue].
      destruct H as [E1 E2]. destruct (reserve_fail_shape None None (Some i) s1) as [F1 F2]. cbn [fst].
      apply sound_ledger; [exact G|now rewrite F1, E1|now rewrite F2]. }
  destruct ns as [i|]; [|unfold melodi_queue_capacity_locked in Hcap;
    destruct (melodi_namespace_queue_get _ _ _) as [[? ?]|]; [|discriminate];
    repeat (destruct (_ || _) || destruct (_ && _)); discriminate].
  destruct (capacity_room _ _ _ _ _ _ _ _ _ _ G Hc Hb Hcap) as [q [(l' & Es1 & Hop) Hlim [Sp1 Sp2]]].
  assert (tx s1 = tx s) as Etx by now rewrite Es1.
  destruct (melodi_queue_peer_locked (tx s1) locator) as [peer|error] eqn:Hpeer; [|now apply (reserve_fail_sound others s s1 l' net i q)].
  destruct (melodi_queue_flow_locked (tx s1) locator request) as [flow|error] eqn:Hflow; [|now apply (reserve_fail_sound others s s1 l' net i q)].
  destruct (_ =? U64_MAX) eqn:Hseq; [now apply (reserve_fail_sound others s s1 l' net i q)|]. apply Z.eqb_neq in Hseq. rewrite Etx in Hseq.
  pose proof (acc_sequence _ (g_accounts _ _ G)) as Hsr.
  assert (wrap 64 (t_reservation_sequence (tx s) + 1) = t_reservation_sequence (tx s) + 1) as Eid
    by (apply wrap_id; unfold uint, U64_MAX in *; pow_norm; lia).
  destruct (create_turns_shape peer.2 peer.1 flow.2 flow.1 locator request (tx s1)) as (pe & fl & ->). rewrite Etx.
  repeat rewrite orb_false_iff in G1. destruct G1 as (((((Z1 & Z2) & Z3) & Z4) & Z5) & Z6).
  set (t1 := set_t_reservation_sequence _ _).
  assert (t_reservations t1 !! index = Some zero_tx_reservation) as Hz by exact Hfree. rewrite Hz.
  set (r := MkReservation _ _ _ _ _ _ _ _ _ _ _ _ _ _ _ _ _ _ _ _ _ _ _ _ _ _). cbn [fst].
  assert (reservation_ok r) as Hok by (unfold reservation_ok, r; cbn [v_active v_count v_bytes v_id]; cbn in Eid |- *; rewrite Eid; lia).
  assert (forall l, holdings l (tx s) + reservation_share l r <= bound l) as Hlim'.
  { intros l. specialize (Hlim l). rewrite Z3 in Hlim. rewrite (reservation_demand r eq_refl). exact Hlim. }
  apply (reserve_commit others s s1 l' net i q index r t1); auto.
  - apply accounts_sequence; [|apply wrap_u64]. apply (accounts_ledger (tx s)); [reflexivity|apply G].
  - rewrite schedule_reservation_ledger. unfold reservation_added. destruct reliable; reflexivity.
Qed.

(** ** Queueing a batch *)

(** The fill loop, state of the device and namespace table apart. *)
Section Fill.
  Context (net : Z) (meta : melodi_tx_meta) (group_id expires_ms : Z) (request : melodi_queue_request)
    (peer_index flow_index : nat) (control : option bool).

Definition fill_tx (t : tx_state) (slot_frame : nat * bytes) : tx_state :=
  let '(slot, frame) := slot_frame in
  let sequence := wrap 64 (t.(t_queue_sequence) + 1) in
  let t := set_t_queue_sequence sequence t in
  let t := set_t_queue (alter (fun old => fill_entry old frame net meta sequence group_id expires_ms request
                                 peer_index flow_index (default old.(e_control) control)) slot t.(t_queue)) t in
  let t := set_t_queue_count (wrap 16 (t.(t_queue_count) + 1)) t in
  set_t_queue_bytes (wrap 32 (t.(t_queue_bytes) + zlen frame)) t.

Lemma fill_loop_tx ns l s :
  tx (fold_left (fill_slot net meta group_id expires_ms request peer_index flow_index control ns) l s) =
  fold_left fill_tx l (tx s).
Proof.
  revert s. induction l as [|[slot frame] l IH]; intros s; [reflexivity|]. cbn [fold_left]. rewrite IH. f_equal.
  destruct ns; reflexivity.
Qed.

Lemma fill_loop_spaces ns l s :
  (fold_left (fill_slot net meta group_id expires_ms request peer_index flow_index control ns) l s).(c_spaces) =
  match ns with
  | Some i => fold_left (fun sp f => namespace_add 1 (zlen f) i sp) l.*2 s.(c_spaces)
  | None => s.(c_spaces)
  end.
Proof.
  revert s. induction l as [|[slot frame] l IH]; intros s; [now destruct ns|]. cbn [fold_left]. rewrite IH.
  destruct ns; reflexivity.
Qed.

(** A frame of the batch in a free slot. *)
Definition filled (sequence : Z) (frame : bytes) : melodi_tx_queue_entry :=
  fill_entry zero_tx_queue_entry frame net meta sequence group_id expires_ms request peer_index flow_index
    (default false control).

(** What one frame takes up. *)
Definition frame_demand (frame : bytes) : resource -> Z :=
  demand (default false control) net meta.(tm_destination_locator) request.(q_service) request.(q_binding_portid)
    request.(q_binding_generation) 1 (zlen frame).

Lemma filled_share sequence frame l : entry_share l (filled sequence frame) = frame_demand frame l.
Proof.
  unfold entry_share, filled, frame_demand, entry_count, entry_data. cbn. destruct (default false control); destruct l; reflexivity.
Qed.

Lemma fill_tx_shape t slot frame :
  t.(t_queue) !! slot = Some zero_tx_queue_entry ->
  (fill_tx t (slot, frame)).(t_queue) = <[slot := filled (wrap 64 (t.(t_queue_sequence) + 1)) frame]> t.(t_queue).
Proof. intros H. cbn. rewrite (alter_insert _ _ _ _ H). reflexivity. Qed.

Lemma fill_tx_accounts t slot frame :
  accounts t -> t.(t_queue) !! slot = Some zero_tx_queue_entry -> 0 < zlen frame ->
  (forall l, holdings l t + frame_demand frame l <= bound l) ->
  accounts (fill_tx t (slot, frame)) /\ forall l, holdings l (fill_tx t (slot, frame)) = holdings l t + frame_demand frame l.
Proof.
  intros A He Hf Hl. set (e := filled (wrap 64 (t.(t_queue_sequence) + 1)) frame).
  assert (forall l, queued l (fill_tx t (slot, frame)) = queued l t + frame_demand frame l) as Hq.
  { intros l. unfold queued. rewrite (fill_tx_shape t slot frame He), (sum_weight_insert _ _ _ _ _ He).
    rewrite filled_share, zero_entry_share. lia. }
  assert (forall l, reserved l (fill_tx t (slot, frame)) = reserved l t) as Hv by reflexivity.
  split; [|intros l; unfold holdings; rewrite Hq, Hv; lia].
  pose proof (accounts_range t A) as R. pose proof (Hl Frames) as L1. pose proof (Hl Octets) as L2.
  pose proof A as [H1 H2 H3 H4 H5 H6 H7 H8 H9 H10 H11]. unfold holdings in L1, L2. cbn [frame_demand demand bound] in L1, L2.
  pose proof (Hq Frames) as Q1. pose proof (Hq Octets) as Q2. cbn [frame_demand demand] in Q1, Q2.
  constructor; auto.
  - rewrite (fill_tx_shape t slot frame He). now rewrite length_insert.
  - rewrite (fill_tx_shape t slot frame He). apply Forall_insert; [exact H3|]. unfold entry_ok. cbn. lia.
  - rewrite Q1. cbn. rewrite wrap_id; unfold uint; pow_norm; lia.
  - rewrite Q2. cbn. rewrite wrap_id; unfold uint; pow_norm; lia.
  - intros l. specialize (Hl l). unfold holdings in *. rewrite Hq, Hv. lia.
Qed.

Lemma frame_demand_nonneg frame l : 0 <= frame_demand frame l.
Proof.
  unfold frame_demand, demand, zlen. destruct l; try lia; repeat (destruct (_ && _) || destruct (_ =? _) || destruct (default _ _)); lia.
Qed.

Definition frames_demand (frames : list bytes) (l : resource) : Z := sumZ (map (fun f => frame_demand f l) frames).

Lemma frames_demand_nonneg frames l : 0 <= frames_demand frames l.
Proof. apply sumZ_nonneg, Forall_map, list.Forall_forall. intros f _. apply frame_demand_nonneg. Qed.

(** All frames of a batch in their slots. *)
Lemma fill_loop_accounts slots frames t :
  length slots = length frames -> accounts t -> NoDup slots ->
  (forall i, i ∈ slots -> t.(t_queue) !! i = Some zero_tx_queue_entry) -> Forall (fun f => 0 < zlen f) frames ->
  (forall l, holdings l t + frames_demand frames l <= bound l) ->
  let t' := fold_left fill_tx (zip slots frames) t in
  accounts t' /\ (forall l, holdings l t' = holdings l t + frames_demand frames l) /\ (forall j, flight t' j = flight t j).
Proof.
  revert frames t. induction slots as [|i slots IH]; intros [|f frames] t Hlen A Hnd Hfree Hpos Hl; cbn in Hlen; try lia.
  - split; [exact A|]. split; [|reflexivity]. intros l. unfold frames_demand. cbn. lia.
  - apply list.NoDup_cons in Hnd as [Hi Hnd]. apply list.Forall_cons in Hpos as [Hf Hpos].
    assert (t_queue t !! i = Some zero_tx_queue_entry) as He by (apply Hfree; left).
    assert (forall l, holdings l t + frame_demand f l + frames_demand frames l <= bound l) as Hl'.
    { intros l. specialize (Hl l). unfold frames_demand in Hl. cbn [map] in Hl. rewrite sumZ_cons in Hl. unfold frames_demand. lia. }
    destruct (fill_tx_accounts t i f A He Hf) as [A1 U1].
    { intros l. pose proof (frames_demand_nonneg frames l). specialize (Hl' l). lia. }
    destruct (IH frames (fill_tx t (i, f))) as (A2 & U2 & F2); auto.
    { intros k Hk. rewrite (fill_tx_shape t i f He). rewrite list_lookup_insert_ne by congruence. apply Hfree. now right. }
    { intros l. rewrite U1. apply Hl'. }
    cbn [zip zip_with fold_left]. split; [exact A2|]. split.
    + intros l. rewrite U2, U1. unfold frames_demand. cbn [map]. rewrite sumZ_cons. lia.
    + intros j. rewrite F2. rewrite (flight_insert t _ i _ (fill_tx_shape t i f He)) by exact (lookup_lt_Some _ _ _ He).
      destruct (decide (j = i)) as [->|]; [|reflexivity]. unfold flight. rewrite He. reflexivity.
Qed.
End Fill.

(** ** Free slots *)

Lemma free_slots_bound q k n i : i ∈ free_slots q k n -> (k <= i)%nat.
Proof.
  revert k n. induction q as [|e q IH]; intros k [|n] H; cbn in H; try (now apply not_elem_of_nil in H).
  destruct (e_active e); [apply IH in H; lia|]. apply list.elem_of_cons in H as [->|H]; [lia|]. apply IH in H. lia.
Qed.

Lemma free_slots_NoDup q k n : NoDup (free_slots q k n).
Proof.
  revert k n. induction q as [|e q IH]; intros k [|n]; cbn; try apply NoDup_nil_2.
  destruct (e_active e); [apply IH|]. apply NoDup_cons_2; [|apply IH].
  intros H. apply free_slots_bound in H. lia.
Qed.

Lemma free_slots_free q k n i : i ∈ free_slots q k n -> exists e, q !! (i - k)%nat = Some e /\ e.(e_active) = false.
Proof.
  revert k n. induction q as [|e q IH]; intros k [|n] H; cbn in H; try (now apply not_elem_of_nil in H).
  destruct (e_active e) eqn:Ha.
  - pose proof (free_slots_bound _ _ _ _ H). destruct (IH _ _ H) as (e' & He & Ha').
    exists e'. split; [|exact Ha']. now replace (i - k)%nat with (S (i - S k)) by lia.
  - apply list.elem_of_cons in H as [->|H]; [exists e; now rewrite Nat.sub_diag|].
    pose proof (free_slots_bound _ _ _ _ H). destruct (IH _ _ H) as (e' & He & Ha').
    exists e'. split; [|exact Ha']. now replace (i - k)%nat with (S (i - S k)) by lia.
Qed.

(** As many as asked for, when that many are free. *)
Lemma free_slots_length q k n :
  Z.of_nat n + sumZ (map (entry_share Frames) q) <= zlen q -> length (free_slots q k n) = n.
Proof.
  revert k n. induction q as [|e q IH]; intros k n H; unfold zlen in *; cbn [length map] in H; [cbn in *; lia|].
  rewrite sumZ_cons in H. unfold entry_share at 1 in H. destruct n as [|n]; [reflexivity|]. cbn [free_slots].
  destruct (e_active e); [apply IH; lia|]. cbn [length]. f_equal. apply IH. lia.
Qed.

Lemma free_slots_zero t n i : accounts t -> i ∈ free_slots t.(t_queue) 0 n -> t.(t_queue) !! i = Some zero_tx_queue_entry.
Proof.
  intros A H. apply free_slots_free in H as (e & He & Ha). rewrite Nat.sub_0_r in He.
  pose proof (entry_ok_at t i e A He) as Hok. unfold entry_ok in Hok. rewrite Ha in Hok. now subst e.
Qed.

(** ** The length of a batch *)

Definition batch_length (frames : list bytes) : Z := sumZ (map zlen frames).

Definition frames_ok (frames : list bytes) : Prop := Forall (fun f => zlen f <= MELODI_TX_BYTE_LIMIT) frames.

Lemma batch_bytes_exact frames b : frames_ok frames -> 0 <= b <= MELODI_TX_BYTE_LIMIT ->
  match batch_bytes frames b with
  | Ok n => n = b + batch_length frames /\ n <= MELODI_TX_BYTE_LIMIT /\ Forall (fun f => 0 < zlen f) frames
  | Err e => (e = EINVAL /\ Exists (fun f => f = []) frames) \/ (e = EMSGSIZE /\ MELODI_TX_BYTE_LIMIT < b + batch_length frames)
  end.
Proof.
  intros H. revert b. induction H as [|f frames Hf H IH]; intros b Hb; cbn [batch_bytes].
  { unfold batch_length. cbn. split; [lia|]. split; [lia|constructor]. }
  assert (0 <= zlen f) as Hz by (unfold zlen; lia).
  assert (0 <= batch_length frames) as Hn.
  { apply sumZ_nonneg, Forall_map, list.Forall_forall. intros x _. unfold zlen. lia. }
  assert (batch_length (f :: frames) = zlen f + batch_length frames) as -> by (unfold batch_length; cbn [map]; apply sumZ_cons).
  destruct (Z.eqb_spec (zlen f) 0) as [E|E].
  { left. split; [reflexivity|]. left. destruct f; [reflexivity|]. unfold zlen in E. cbn in E. lia. }
  rewrite wrap_id by (unfold uint; pow_norm; lia).
  destruct (Z.ltb_spec (MELODI_TX_BYTE_LIMIT - zlen f) b); [right; split; [reflexivity|lia]|].
  rewrite wrap_id by (unfold uint; pow_norm; lia). specialize (IH (b + zlen f) ltac:(lia)).
  destruct (batch_bytes frames (b + zlen f)) as [n|e].
  - destruct IH as (I1 & I2 & I3). split; [lia|]. split; [lia|]. constructor; [lia|exact I3].
  - destruct IH as [[I1 I2]|[I1 I2]]; [left; auto using Exists_cons_tl|right; split; [exact I1|lia]].
Qed.

Lemma frames_demand_exact net meta request control frames l :
  frames_demand net meta request control frames l =
  demand (default false control) net meta.(tm_destination_locator) request.(q_service) request.(q_binding_portid)
    request.(q_binding_generation) (zlen frames) (batch_length frames) l.
Proof.
  unfold frames_demand, frame_demand, batch_length. induction frames as [|f frames IH].
  - destruct l; cbn [demand]; try reflexivity; repeat (destruct (_ && _) || destruct (_ =? _) || destruct (default _ _)); reflexivity.
  - cbn [map]. rewrite !sumZ_cons, IH. assert (zlen (f :: frames) = zlen frames + 1) as -> by (unfold zlen; cbn [length]; lia).
    destruct l; cbn [demand]; repeat (destruct (_ && _) || destruct (_ =? _) || destruct (default _ _)); lia.
Qed.

Lemma charge_loop_from i frames m b l :
  fold_left (fun sp (f : bytes) => namespace_add 1 (zlen f) i sp) frames (namespace_add m b i l) =
  namespace_add (m + zlen frames) (b + batch_length frames) i l.
Proof.
  revert m b. induction frames as [|g frames IH]; intros m b; cbn [fold_left].
  - unfold zlen, batch_length. cbn. now rewrite !Z.add_0_r.
  - rewrite namespace_add_add, IH. unfold batch_length. cbn [map]. rewrite sumZ_cons.
    f_equal; unfold zlen; cbn [length]; lia.
Qed.

Lemma charge_loop i frames l :
  frames <> [] -> fold_left (fun sp (f : bytes) => namespace_add 1 (zlen f) i sp) frames l =
  namespace_add (zlen frames) (batch_length frames) i l.
Proof.
  destruct frames as [|f frames]; [congruence|]. intros _. cbn [fold_left]. rewrite charge_loop_from.
  unfold batch_length. cbn [map]. rewrite sumZ_cons. f_equal; unfold zlen; cbn [length]; lia.
Qed.

Lemma holdings_ledger l t t' : ledger t = ledger t' -> holdings l t = holdings l t'.
Proof.
  intros H. pose proof (f_equal (fun x => x.1.1.1) H) as T1. pose proof (f_equal (fun x => x.1.1.2) H) as T2.
  cbn [ledger fst snd] in T1, T2. unfold holdings, queued, reserved. now rewrite T1, T2.
Qed.

Lemma reserved_ledger l t t' : ledger t = ledger t' -> reserved l t = reserved l t'.
Proof. intros H. pose proof (f_equal (fun x => x.1.1.2) H) as T2. cbn [ledger fst snd] in T2. unfold reserved. now rewrite T2. Qed.

Lemma batch_done_ledger s : ledger (tx (batch_done s)) = ledger (tx s) /\ (batch_done s).(c_spaces) = s.(c_spaces).
Proof. unfold batch_done. split; [|reflexivity]. cbn. now destruct (_ <=? _). Qed.

(** The batch that is admitted. *)
Lemma batch_commit others s l' net i q t meta gid expires request pi fi frames :
  good others s -> opened s.(c_spaces) l' net i q -> ledger t = ledger (tx s) -> frames <> [] ->
  Forall (fun f => 0 < zlen f) frames ->
  (forall l, holdings l (tx s) + demand request.(q_control) net meta.(tm_destination_locator) request.(q_service)
     request.(q_binding_portid) request.(q_binding_generation) (zlen frames) (batch_length frames) l <= bound l) ->
  (space s.(c_spaces) net).1 + zlen frames <= MELODI_TX_NAMESPACE_LIMIT ->
  (space s.(c_spaces) net).2 + batch_length frames <= MELODI_TX_NAMESPACE_BYTE_LIMIT ->
  length (free_slots (tx s).(t_queue) 0 (length frames)) = length frames ->
  sound others s
    (batch_done (fold_left (fill_slot net meta gid expires request pi fi (Some request.(q_control)) (Some i))
                   (zip (free_slots (tx s).(t_queue) 0 (length frames)) frames) (set_tx t (set_spaces l' s)))).
Proof.
  intros G Hop Hled Hne Hpos Hlim Sp1 Sp2 Hlen. set (slots := free_slots _ _ _) in *.
  set (s2 := fold_left _ _ _). destruct (batch_done_ledger s2) as [B1 B2].
  assert (sound others s s2) as H; [|now apply (sound_ledger_r _ _ _ _ H)].
  assert (accounts t) as A by (apply (accounts_ledger (tx s)); [now rewrite Hled|apply G]).
  unfold ledger in Hled. injection Hled as T1 T2 _ _ _ _ _ _.
  assert (forall l, holdings l t = holdings l (tx s)) as Hu by (intros l; unfold holdings, queued, reserved; now rewrite T1, T2).
  destruct (fill_loop_accounts net meta gid expires request pi fi (Some request.(q_control)) slots frames t) as (A2 & U2 & F2); auto.
  { apply free_slots_NoDup. }
  { intros k Hk. rewrite T1. exact (free_slots_zero _ _ _ (g_accounts _ _ G) Hk). }
  { intros l. rewrite frames_demand_exact, Hu. apply Hlim. }
  assert (tx s2 = fold_left (fill_tx net meta gid expires request pi fi (Some request.(q_control))) (zip slots frames) t) as E2
    by apply fill_loop_tx.
  assert (s2.(c_spaces) = namespace_add (zlen frames) (batch_length frames) i l') as E3.
  { unfold s2. rewrite fill_loop_spaces. cbn [c_spaces set_tx set_spaces]. rewrite snd_zip by lia. now apply charge_loop. }
  assert (0 < zlen frames) as Hc by (destruct frames; [congruence|unfold zlen; cbn; lia]).
  assert (0 <= batch_length frames) as Hb.
  { apply sumZ_nonneg, Forall_map, list.Forall_forall. intros x _. unfold zlen. lia. }
  split; [|intros j; rewrite E2, F2; now apply flight_queue].
  constructor; [apply G|now rewrite E2|]. rewrite E2, E3.
  apply (spaces_charged _ (tx s) _ _ _ net i q _ _ Hop (g_spaces _ _ G) Hc Hb (g_others _ _ G) (g_accounts _ _ G) Sp1 Sp2);
    intros n; rewrite U2, Hu, frames_demand_exact; cbn [demand]; now rewrite Z.eqb_sym.
Qed.

Lemma capacity_Ok_record alloc s net locator request count bytes s1 :
  melodi_queue_capacity_locked alloc s net locator request count bytes <> (s1, None, Ok tt).
Proof.
  unfold melodi_queue_capacity_locked. destruct (melodi_namespace_queue_get _ _ _) as [[? ?]|]; [|discriminate].
  repeat (destruct (_ || _) || destruct (_ && _)); discriminate.
Qed.

Lemma send_batch_sound others alloc running carrier net s frames meta request now :
  good others s -> frames_ok frames ->
  sound others s (melodi_core_send_batch alloc running carrier net s frames meta request now).1.
Proof.
  intros G Hok. unfold melodi_core_send_batch. sound_check G1. sound_check G2.
  pose proof (batch_bytes_exact frames 0 Hok ltac:(lia)) as Hb.
  destruct (batch_bytes frames 0) as [bytes|]; [|auto with queue]. destruct Hb as (-> & Hb & Hpos). sound_check G3.
  destruct (if q_control request then Ok tt else _); [|auto with queue]. sound_check G4.
  assert (0 <= batch_length frames) as Hb0.
  { apply sumZ_nonneg, Forall_map, list.Forall_forall. intros x _. unfold zlen. lia. }
  destruct (melodi_queue_capacity_locked _ _ _ _ _ _ _) as [[s1 ns] [[]|error]] eqn:Hcap.
  2:{ pose proof (capacity_refused _ _ _ _ _ _ _ _ _ _ _ G Hcap) as H. destruct ns as [i|]; [|subst s1; auto with queue].
      destruct H as [E1 E2]. apply sound_ledger; [exact G|cbn; now rewrite E1|exact E2]. }
  destruct ns as [i|]; [|now apply capacity_Ok_record in Hcap].
  destruct (capacity_room _ _ _ _ _ _ _ _ _ _ G (Nat2Z.is_nonneg _) Hb0 Hcap) as [q [(l' & -> & Hop) Hlim [Sp1 Sp2]]].
  assert (sound others s (set_spaces (melodi_namespace_queue_put (c_spaces (set_spaces l' s)) i) (set_spaces l' s))) as Hfail.
  { apply sound_ledger; [exact G|reflexivity|]. exact (op_put _ _ _ _ _ Hop). }
  destruct (_ || (_ =? U64_MAX)); [exact Hfail|].
  destruct (negb (Nat.eqb _ _)) eqn:Hlen; [exact Hfail|]. apply negb_false_iff, Nat.eqb_eq in Hlen.
  destruct (if q_control request then Ok ((0%nat, false), (0%nat, false)) else _) as [[peer flow]|]; [|exact Hfail].
  destruct (create_turns_shape peer.2 peer.1 flow.2 flow.1 (tm_destination_locator meta) request (tx (set_spaces l' s))) as (pe & fl & ->).
  cbn [fst c_spaces set_tx set_spaces]. rewrite (op_record _ _ _ _ _ Hop). cbn [fmap option_fmap option_map default].
  change (default 0 (Some (ns_net q))) with (ns_net q). rewrite (op_net _ _ _ _ _ Hop).
  apply (batch_commit others s l' net i q); auto.
  - intros ->. cbn in G1. discriminate G1.
Qed.

(** ** Claiming a reservation *)

(** The slots a reservation stands for are free. *)
Lemma reserved_slots t i r (frames : list bytes) :
  accounts t -> t.(t_reservations) !! i = Some r -> r.(v_active) = true -> r.(v_count) = zlen frames ->
  length (free_slots t.(t_queue) 0 (length frames)) = length frames.
Proof.
  intros A Hr Ha Hc. apply free_slots_length. fold (queued Frames t). fold (zlen frames). rewrite <- Hc.
  pose proof (reservation_share_le Frames t i r (acc_reservations t A) Hr) as H. unfold reservation_share in H. rewrite Ha in H.
  pose proof (acc_limits t A Frames) as L. unfold holdings in L. cbn [bound] in L.
  unfold zlen. rewrite (acc_queue_length t A). change (Z.of_nat MELODI_TX_QUEUE_LIMIT) with 128. lia.
Qed.

Lemma matches_demand r count bytes meta request :
  r.(v_active) = true -> reservation_matches r count bytes meta request = true ->
  r.(v_pending_reserved) = false /\ r.(v_count) = count /\ r.(v_bytes) = bytes /\
  forall l, reservation_share l r = demand false r.(v_net) meta.(tm_destination_locator) request.(q_service)
              request.(q_binding_portid) request.(q_binding_generation) count bytes l.
Proof.
  intros Ha H. unfold reservation_matches in H. rewrite !andb_true_iff, !Z.eqb_eq in H.
  destruct H as (((((((((((((((H1 & H2) & H3) & H4) & H5) & H6) & _) & _) & _) & _) & _) & _) & _) & _) & H7) & _).
  apply negb_true_iff in H7. repeat split; auto.
  intros l. rewrite (reservation_demand r Ha). now rewrite H1, H2, H3, H4, H5, H6.
Qed.

Lemma fill_loop_reserved net meta gid expires request pi fi control l t k :
  reserved k (fold_left (fill_tx net meta gid expires request pi fi control) l t) = reserved k t.
Proof. revert t. induction l as [|[i f] l IH]; intros t; [reflexivity|]. cbn [fold_left]. now rewrite IH. Qed.

Lemma reserved_commit others s i r t meta gid expires request frames :
  good others s -> (tx s).(t_reservations) !! i = Some r -> r.(v_active) = true ->
  reservation_matches r (zlen frames) (batch_length frames) meta request = true ->
  ledger t = ledger (reservation_removed i r (tx s)) -> Forall (fun f => 0 < zlen f) frames ->
  let s2 := fold_left (fill_slot r.(v_net) meta gid expires request r.(v_peer_index) r.(v_flow_index) None None)
              (zip (free_slots (tx s).(t_queue) 0 (length frames)) frames) (set_tx t s) in
  sound others s s2 /\ forall l, holdings l (tx s2) = holdings l (tx s) /\ reserved l (tx s2) = reserved l (tx s) - reservation_share l r.
Proof.
  intros G Hr Ha Hm Hled Hpos s2. pose proof (g_accounts _ _ G) as A.
  destruct (matches_demand r _ _ _ _ Ha Hm) as (Hp & Hc & Hb & Hd).
  pose proof (reserved_slots _ i r frames A Hr Ha Hc) as Hlen. set (slots := free_slots _ _ _) in *.
  destruct (reservation_removed_accounts i r (tx s) A Hr Ha) as [A1 U1].
  assert (accounts t) as A2 by (apply (accounts_ledger (reservation_removed i r (tx s))); [now rewrite Hled|exact A1]).
  pose proof (f_equal (fun x => x.1.1.1) Hled) as T1. pose proof (f_equal (fun x => x.1.1.2) Hled) as T2.
  cbn [ledger fst snd] in T1, T2. rewrite reservation_removed_queue in T1.
  assert (forall l, holdings l t = holdings l (tx s) - reservation_share l r) as Hu.
  { intros l. destruct (U1 l) as [_ E]. unfold holdings, queued, reserved in *. rewrite T1, T2, E. lia. }
  destruct (fill_loop_accounts r.(v_net) meta gid expires request r.(v_peer_index) r.(v_flow_index) None slots frames t)
    as (A3 & U3 & F3); auto.
  { apply free_slots_NoDup. }
  { intros k Hk. rewrite T1. exact (free_slots_zero _ _ _ A Hk). }
  { intros l. rewrite frames_demand_exact, Hu, Hd. cbn [default]. pose proof (acc_limits _ A l). lia. }
  assert (tx s2 = fold_left (fill_tx r.(v_net) meta gid expires request r.(v_peer_index) r.(v_flow_index) None) (zip slots frames) t)
    as E2 by apply fill_loop_tx.
  assert (s2.(c_spaces) = s.(c_spaces)) as E3 by (unfold s2; rewrite fill_loop_spaces; reflexivity).
  assert (forall l, holdings l (tx s2) = holdings l (tx s)) as Hus.
  { intros l. rewrite E2, U3, frames_demand_exact, Hu, Hd. cbn [default]. lia. }
  split.
  2:{ intros l. split; [apply Hus|]. rewrite E2, fill_loop_reserved. unfold reserved. rewrite T2. apply U1. }
  split; [|intros j; rewrite E2, F3; now apply flight_queue].
  constructor; [apply G|now rewrite E2|]. rewrite E2, E3. destruct (g_spaces _ _ G) as [S1 S2 S3 S4].
  constructor; auto. intros n. rewrite S2, <- E2, !Hus. reflexivity.
Qed.

Lemma send_batch_reserved_sound others running carrier s frames meta request id :
  good others s -> frames_ok frames ->
  sound others s (melodi_core_send_batch_reserved running carrier s frames meta request id).1.
Proof.
  intros G Hok. unfold melodi_core_send_batch_reserved. sound_check G1. sound_check G2.
  pose proof (batch_bytes_exact frames 0 Hok ltac:(lia)) as Hb.
  destruct (batch_bytes frames 0) as [bytes|]; [|auto with queue]. destruct Hb as (-> & Hb & Hpos).
  destruct (melodi_data_queue_valid_locked _ _ _ _ _ _ _); [|auto with queue].
  destruct (melodi_reservation_find_locked (tx s) id) as [i|] eqn:Hfind; [|auto with queue].
  destruct (find_reservation _ _ _ Hfind) as (r & Hr & Ha & _). cbn. rewrite Hr. cbn.
  sound_check G3. sound_check G4. sound_check G5. sound_check G6. apply negb_false_iff in G4.
  destruct (matches_demand r _ _ _ _ Ha G4) as (Hp & Hc & Hb' & _). cbn [fst].
  set (s3 := fold_left _ _ _). destruct (batch_done_ledger (set_tx (set_t_bytes (t_bytes (tx s3) + v_logical_length r)
    (set_t_packets (t_packets (tx s3) + 1) (tx s3))) s3)) as [B1 B2].
  assert (sound others s s3) as H; [|apply (sound_ledger_r _ _ _ _ H); [exact B1|exact B2]].
  apply (reserved_commit others s i r); auto. unfold reservation_removed. rewrite Hp, Hc, Hb'. reflexivity.
Qed.

(** With a reservation that fits, the batch is queued: neither the limits nor the
    slots can refuse it, and what it takes up was its reservation's. *)
Lemma send_batch_reserved_result others running carrier s frames meta request id i r :
  good others s -> frames_ok frames -> frames <> [] -> zlen frames <= MELODI_FRAGMENT_LIMIT -> Forall (fun f => f <> []) frames ->
  running = true -> carrier = true -> id <> 0 -> request.(q_control) = false -> batch_length frames <= MELODI_TX_BYTE_LIMIT ->
  melodi_data_queue_valid_locked s.(c_dev) request.(q_destination) request.(q_destination_service)
    request.(q_broadcast) meta request.(q_identity_generation) request.(q_session_epoch) = Ok tt ->
  melodi_reservation_find_locked (tx s) id = Some i -> (tx s).(t_reservations) !! i = Some r ->
  let result := melodi_core_send_batch_reserved running carrier s frames meta request id in
  result.2 =
    (if (tx s).(t_queue_stopping) then Err ENETDOWN else
     if negb (reservation_matches r (zlen frames) (batch_length frames) meta request) then Err ESTALE else
     if (U64_MAX - zlen frames <? (tx s).(t_queue_sequence)) || ((tx s).(t_group_sequence) =? U64_MAX) then Err EOVERFLOW
     else Ok tt) /\
  if is_ok result.2
  then forall l, holdings l (tx result.1) = holdings l (tx s) /\ reserved l (tx result.1) = reserved l (tx s) - reservation_share l r
  else result.1 = s.
Proof.
  intros G Hok Hne Hc Hpos -> -> Hid Hctl Hb Hvalid Hfind Hr. cbv zeta. unfold melodi_core_send_batch_reserved.
  assert (0 < zlen frames) as Hc0 by (destruct frames; [congruence|unfold zlen; cbn; lia]).
  rewrite (proj2 (Z.eqb_neq id 0)), (proj2 (Z.eqb_neq (zlen frames) 0)), (proj2 (Z.ltb_ge _ _)), Hctl by lia. cbn [orb negb].
  pose proof (batch_bytes_exact frames 0 Hok ltac:(lia)) as Hbytes. destruct (batch_bytes frames 0) as [bytes|].
  2:{ destruct Hbytes as [[_ Hx]|[_ Hx]]; [|lia]. apply list.Exists_exists in Hx as (f & Hf & ->).
      rewrite list.Forall_forall in Hpos. now destruct (Hpos _ Hf). }
  destruct Hbytes as (-> & _ & Hlen). rewrite Hvalid, Hfind. cbn [option_bind mbind]. rewrite Hr. change (pair i <$> Some r) with (Some (i, r)). cbv iota beta.
  destruct (find_reservation _ _ _ Hfind) as (r' & Hr' & Ha & _). replace r' with r in * by congruence.
  rewrite Z.add_0_l. destruct (t_queue_stopping (tx s)); [now split|].
  destruct (reservation_matches _ _ _ _ _) eqn:Hm; cbn [negb]; [|now split].
  destruct (matches_demand r _ _ _ _ Ha Hm) as (Hp & Hcount & Hbytes & _).
  rewrite (reserved_slots _ i r frames (g_accounts _ _ G) Hr Ha Hcount), Nat.eqb_refl. cbn [negb].
  destruct (_ || _); [now split|]. cbn [fst snd is_ok]. split; [reflexivity|].
  match goal with |- context [batch_done (set_tx ?t ?s3)] => destruct (batch_done_ledger (set_tx t s3)) as [B1 _] end.
  intros l. rewrite <- (holdings_ledger l _ _ (eq_sym B1)), <- (reserved_ledger l _ _ (eq_sym B1)).
  refine (proj2 (reserved_commit others s i r _ meta _ _ request frames G Hr Ha Hm _ Hlen) l).
  unfold reservation_removed. rewrite Hp, Hcount, Hbytes. reflexivity.
Qed.
