(* ===== verification/QueueSched.v ===== *)
(** * The transmit queue: scheduling

    Which frame is sent next, and what share of the decisions each priority gets. *)
From S2P Require Import Prelude Buffer Uapi Slots Device Peers Policy Queue.

(** ** Selection loops *)

Section Select.
  Context {K : Type} (c : melodi_tx_queue_entry -> bool) (key : melodi_tx_queue_entry -> K) (less : K -> K -> bool).
  Context (less_irrefl : forall a, less a a = false).
  Context (less_trans : forall a b d, less a b = true -> less b d = true -> less a d = true).

(** Nothing that qualifies is below. *)
Definition lowest (queue : list melodi_tx_queue_entry) (k : K) : Prop :=
  forall e, e ∈ queue -> c e = true -> less (key e) k = false.

Lemma select_loop_spec queue index best selected :
  match select_loop c key less queue index best selected with
  | Some i => (selected = Some i /\ lowest queue best) \/
      exists e, (index <= i)%nat /\ queue !! (i - index)%nat = Some e /\ c e = true /\ less (key e) best = true /\
                lowest queue (key e)
  | None => selected = None /\ lowest queue best
  end.
Proof.
  revert index best selected. induction queue as [|e queue IH]; intros index best selected; cbn [select_loop].
  { destruct selected; [left|]; split; auto; intros e He; now apply not_elem_of_nil in He. }
  destruct (c e && less (key e) best) eqn:Hc.
  - apply andb_true_iff in Hc as [Hc Hl]. specialize (IH (S index) (key e) (Some index)).
    destruct (select_loop _ _ _ _ _ _ _) as [i|]; [|destruct IH; discriminate].
    right. destruct IH as [[[= <-] Hlow]|(e' & Hi & He' & Hc' & Hl' & Hlow)].
    + exists e. rewrite Nat.sub_diag. repeat split; auto. intros x Hx Hcx. apply list.elem_of_cons in Hx as [->|Hx]; auto.
    + exists e'. replace (i - index)%nat with (S (i - S index)) by lia. repeat split; auto; [lia|eauto|].
      intros x Hx Hcx. apply list.elem_of_cons in Hx as [->|Hx]; [|auto].
      destruct (less (key e) (key e')) eqn:Hx; [|reflexivity]. rewrite <- (less_irrefl (key e)). symmetry. eauto.
  - specialize (IH (S index) best selected).
    assert (lowest queue best -> lowest (e :: queue) best) as Hcons.
    { intros H x Hx Hcx. apply list.elem_of_cons in Hx as [->|Hx]; [|auto]. rewrite Hcx in Hc. exact Hc. }
    destruct (select_loop _ _ _ _ _ _ _) as [i|].
    + destruct IH as [[E H]|(e' & Hi & He' & Hc' & Hl' & Hlow)]; [left; auto|]. right. exists e'.
      replace (i - index)%nat with (S (i - S index)) by lia. repeat split; auto; [lia|].
      intros x Hx Hcx. apply list.elem_of_cons in Hx as [->|Hx]; [|auto].
      rewrite Hcx in Hc. cbn in Hc. destruct (less (key e) (key e')) eqn:Hlx; [|reflexivity].
      rewrite <- Hc. symmetry. eauto.
    + destruct IH as [E H]. auto.
Qed.

(** From an empty start. *)
Lemma select_first queue best :
  match select_loop c key less queue 0 best None with
  | Some i => exists e, queue !! i = Some e /\ c e = true /\ less (key e) best = true /\ lowest queue (key e)
  | None => lowest queue best
  end.
Proof.
  pose proof (select_loop_spec queue 0 best None) as H. destruct (select_loop _ _ _ _ _ _ _) as [i|].
  - destruct H as [[H _]|(e & _ & He & Hc & Hl & Hlow)]; [discriminate|]. rewrite Nat.sub_0_r in He. now exists e.
  - apply H.
Qed.
End Select.

Lemma turn_less_irrefl a : turn_less a a = false.
Proof. unfold turn_less. destruct a. cbn. destruct (Z.ltb_spec z z), (Z.ltb_spec z0 z0), (Z.eqb_spec z z); cbn; lia || reflexivity. Qed.

Lemma turn_less_spec a b : turn_less a b = true <-> a.1 < b.1 \/ (a.1 = b.1 /\ a.2 < b.2).
Proof. unfold turn_less. rewrite orb_true_iff, andb_true_iff, !Z.ltb_lt, Z.eqb_eq. reflexivity. Qed.

Lemma turn_less_trans a b d : turn_less a b = true -> turn_less b d = true -> turn_less a d = true.
Proof. rewrite !turn_less_spec. lia. Qed.

Lemma ltb_trans a b d : (a <? b) = true -> (b <? d) = true -> (a <? d) = true.
Proof. lia. Qed.

(** ** Control frames: the oldest that is ready *)

Lemma oldest_control_spec t now :
  match melodi_queue_oldest_control t now with
  | Some i => exists e, t.(t_queue) !! i = Some e /\ ready now e = true /\ e.(e_control) = true /\
      forall e', e' ∈ t.(t_queue) -> ready now e' = true -> e'.(e_control) = true -> e.(e_sequence) <= e'.(e_sequence)
  | None => forall e, e ∈ t.(t_queue) -> ready now e = true -> e.(e_control) = true -> U64_MAX <= e.(e_sequence)
  end.
Proof.
  unfold melodi_queue_oldest_control.
  pose proof (select_first (fun e => ready now e && e_control e) e_sequence Z.ltb Z.ltb_irrefl ltb_trans t.(t_queue) U64_MAX) as H.
  destruct (select_loop _ _ _ _ _ _ _) as [i|].
  - destruct H as (e & He & Hc & _ & Hlow). apply andb_true_iff in Hc as [Hr Hc]. exists e. repeat split; auto.
    intros e' He' Hr' Hc'. specialize (Hlow e' He'). cbn beta in Hlow. rewrite Hr', Hc' in Hlow. specialize (Hlow eq_refl). lia.
  - intros e He Hr Hc. specialize (H e He). cbn beta in H. rewrite Hr, Hc in H. specialize (H eq_refl). lia.
Qed.

(** ** Data frames *)

(** The frame that is chosen among those of a priority that are ready. *)
Record chosen (t : tx_state) (now priority : Z) (i : nat) (e : melodi_tx_queue_entry) : Prop := {
  ch_entry : t.(t_queue) !! i = Some e;
  ch_ready : data_ready now priority e = true;
  ch_peer : forall e', e' ∈ t.(t_queue) -> data_ready now priority e' = true -> peer_turn t e <= peer_turn t e';
  ch_flow : forall e', e' ∈ t.(t_queue) -> data_ready now priority e' = true -> e'.(e_peer_index) = e.(e_peer_index) ->
    flow_turn t e <= flow_turn t e';
  ch_oldest : forall e', e' ∈ t.(t_queue) -> data_ready now priority e' = true -> e'.(e_peer_index) = e.(e_peer_index) ->
    e'.(e_flow_index) = e.(e_flow_index) -> e.(e_sequence) <= e'.(e_sequence);
}.

(** Sequence numbers and turns below the end of their range. *)
Definition numbered (t : tx_state) : Prop :=
  forall e, e ∈ t.(t_queue) -> e.(e_active) = true ->
    e.(e_sequence) < U64_MAX /\ peer_turn t e <= U64_MAX /\ flow_turn t e <= U64_MAX.

Lemma data_ready_active now priority e : data_ready now priority e = true -> e.(e_active) = true.
Proof. unfold data_ready, ready. rewrite !andb_true_iff. tauto. Qed.

Lemma not_lowest_max (t : tx_state) now priority (f : melodi_tx_queue_entry -> Z) c :
  numbered t -> (forall e, e ∈ t.(t_queue) -> e.(e_active) = true -> f e <= U64_MAX) ->
  (forall e, c e = true -> data_ready now priority e = true) ->
  lowest c (fun e => (f e, e.(e_sequence))) turn_less t.(t_queue) (U64_MAX, U64_MAX) ->
  forall e, e ∈ t.(t_queue) -> c e = false.
Proof.
  intros Hn Hf Hc H e He. destruct (c e) eqn:E; [|reflexivity]. exfalso. specialize (H e He E).
  pose proof (data_ready_active _ _ _ (Hc e E)) as Ha. destruct (Hn e He Ha) as [Hs _]. specialize (Hf e He Ha).
  assert (turn_less (f e, e_sequence e) (U64_MAX, U64_MAX) = true); [|congruence]. apply turn_less_spec. cbn [fst snd]. lia.
Qed.

Lemma turn_less_false a b : turn_less a b = false -> b.1 <= a.1.
Proof. intros H. destruct (Z.le_gt_cases b.1 a.1); [auto|]. assert (turn_less a b = true) by (apply turn_less_spec; lia). congruence. Qed.

Lemma choose_spec t now priority : numbered t ->
  match choose t now priority with
  | Some (i, p, f) => exists e, chosen t now priority i e /\ e.(e_peer_index) = p /\ e.(e_flow_index) = f
  | None => forall e, e ∈ t.(t_queue) -> data_ready now priority e = false
  end.
Proof.
  intros Hn. unfold choose.
  pose proof (select_first (data_ready now priority) (fun e => (peer_turn t e, e_sequence e)) turn_less
                turn_less_irrefl turn_less_trans t.(t_queue) (U64_MAX, U64_MAX)) as H1.
  destruct (select_loop _ _ _ _ _ _ _) as [i|]; cbn.
  2:{ apply (not_lowest_max t now priority (peer_turn t)); auto. intros e He Ha. now apply (Hn e). }
  destruct H1 as (e1 & He1 & Hr1 & _ & Hlow1). rewrite He1. cbn.
  set (c2 := fun e => data_ready now priority e && Nat.eqb (e_peer_index e) (e_peer_index e1)).
  pose proof (select_first c2 (fun e => (flow_turn t e, e_sequence e)) turn_less
                turn_less_irrefl turn_less_trans t.(t_queue) (U64_MAX, U64_MAX)) as H2.
  assert (e1 ∈ t.(t_queue)) as Hin1 by (apply list_elem_of_lookup; eauto).
  assert (c2 e1 = true) as Hc1 by (unfold c2; now rewrite Hr1, Nat.eqb_refl).
  destruct (select_loop c2 _ _ _ _ _ _) as [j|]; cbn.
  2:{ rewrite (not_lowest_max t now priority (flow_turn t) c2 Hn) in Hc1; auto; [discriminate| |].
      - intros e He Ha. now apply (Hn e).
      - intros e He. now apply andb_true_iff in He as [He _]. }
  destruct H2 as (e2 & He2 & Hc2 & _ & Hlow2). rewrite He2. cbn.
  assert (e2 ∈ t.(t_queue)) as Hin2 by (apply list_elem_of_lookup; eauto).
  set (c3 := fun e => data_ready now priority e && Nat.eqb (e_peer_index e) (e_peer_index e1) &&
                      Nat.eqb (e_flow_index e) (e_flow_index e2)).
  pose proof (select_first c3 e_sequence Z.ltb Z.ltb_irrefl ltb_trans t.(t_queue) U64_MAX) as H3.
  assert (c3 e2 = true) as Hc3 by (unfold c3; unfold c2 in Hc2; now rewrite Hc2, Nat.eqb_refl).
  assert (data_ready now priority e2 = true) as Hr2 by (unfold c2 in Hc2; now apply andb_true_iff in Hc2 as [? _]).
  destruct (select_loop c3 _ _ _ _ _ _) as [k|]; cbn.
  2:{ specialize (H3 e2 Hin2 Hc3). destruct (Hn e2 Hin2 (data_ready_active _ _ _ Hr2)) as [Hs _]. lia. }
  destruct H3 as (e3 & He3 & Hc & _ & Hlow3). unfold c3 in Hc. rewrite !andb_true_iff, !Nat.eqb_eq in Hc.
  destruct Hc as [[Hr3 Hp3] Hf3]. exists e3. split; [|auto].
  assert (peer_turn t e3 = peer_turn t e1) as Ep by (unfold peer_turn; now rewrite Hp3).
  assert (flow_turn t e3 = flow_turn t e2) as Ef by (unfold flow_turn; now rewrite Hf3).
  constructor; auto.
  - intros e' Hin Hr. rewrite Ep. exact (turn_less_false _ _ (Hlow1 e' Hin Hr)).
  - intros e' Hin Hr Hp. rewrite Ef. apply (turn_less_false _ _ (Hlow2 e' Hin ltac:(unfold c2; now rewrite Hr, Hp, Hp3, Nat.eqb_refl))).
  - intros e' Hin Hr Hp Hf. assert (c3 e' = true) as Hc by (unfold c3; now rewrite Hr, Hp, Hf, Hp3, Hf3, !Nat.eqb_refl).
    specialize (Hlow3 e' Hin Hc). lia.
Qed.

(** ** The cycle of priorities *)

(** The priority served at a position of the cycle. *)
Definition cycle_at (position : Z) : Z := nth (Z.to_nat (position mod 15)) melodi_priority_cycle 0.

Definition waiting (t : tx_state) (now priority : Z) : bool := existsb (data_ready now priority) t.(t_queue).

Lemma priority_loop_spec fuel t now cycle :
  match priority_loop fuel t now cycle with
  | Some (p, slot) => exists c, cycle <= c < cycle + Z.of_nat fuel /\ p = cycle_at (t.(t_priority_slot) + c) /\
      slot = (t.(t_priority_slot) + c + 1) mod 15 /\ waiting t now p = true /\
      forall d, cycle <= d < c -> waiting t now (cycle_at (t.(t_priority_slot) + d)) = false
  | None => forall d, cycle <= d < cycle + Z.of_nat fuel -> waiting t now (cycle_at (t.(t_priority_slot) + d)) = false
  end.
Proof.
  revert cycle. induction fuel as [|fuel IH]; intros cycle; cbn [priority_loop]; [lia|].
  fold (cycle_at (t_priority_slot t + cycle)). fold (waiting t now (cycle_at (t_priority_slot t + cycle))).
  destruct (waiting t now (cycle_at (t_priority_slot t + cycle))) eqn:Hw.
  - exists cycle. repeat split; auto; try lia. now rewrite Zplus_mod_idemp_l.
  - specialize (IH (cycle + 1)). destruct (priority_loop fuel t now (cycle + 1)) as [[p slot]|].
    + destruct IH as (c & Hc & Hp & Hs & Hwp & Hd). exists c. repeat split; auto; try lia.
      intros d Hd'. destruct (Z.eq_dec d cycle) as [->|]; [exact Hw|]. apply Hd. lia.
    + intros d Hd. destruct (Z.eq_dec d cycle) as [->|]; [exact Hw|]. apply IH. lia.
Qed.

(** Every priority has a position, wherever the cycle starts. *)
Lemma cycle_covers slot priority : 0 <= slot < 15 -> 0 <= priority <= 3 ->
  exists d, 0 <= d < 15 /\ cycle_at (slot + d) = priority.
Proof.
  intros Hs Hp.
  assert (forallb (fun s => forallb (fun p => existsb (fun d => cycle_at (Z.of_nat s + Z.of_nat d) =? Z.of_nat p) (seq 0 15)) (seq 0 4))
            (seq 0 15) = true) as H by (vm_compute; reflexivity).
  rewrite forallb_forall in H. specialize (H (Z.to_nat slot) ltac:(apply in_seq; lia)).
  rewrite forallb_forall in H. specialize (H (Z.to_nat priority) ltac:(apply in_seq; lia)).
  apply existsb_exists in H as (d & Hd & E). apply in_seq in Hd. exists (Z.of_nat d). split; [lia|].
  rewrite Z.eqb_eq in E. rewrite !Z2Nat.id in E by lia. exact E.
Qed.

Lemma waiting_false t now priority : waiting t now priority = false ->
  forall e, e ∈ t.(t_queue) -> data_ready now priority e = false.
Proof.
  intros H e He. destruct (data_ready now priority e) eqn:E; [|reflexivity]. unfold waiting in H.
  assert (existsb (data_ready now priority) t.(t_queue) = true); [|congruence].
  apply existsb_exists. exists e. split; [now apply list_elem_of_In|exact E].
Qed.

(** *** Shares of the priorities

    A run of decisions: before each, queue and clock are arbitrary; only the
    position in the cycle is carried over. *)
Fixpoint served (slot : Z) (turns : list (tx_state * Z)) : list (option Z) :=
  match turns with
  | [] => []
  | (t, now) :: turns =>
      let '(t, r) := melodi_queue_priority (set_t_priority_slot slot t) now in
      match r with
      | Ok p => Some p :: served t.(t_priority_slot) turns
      | Err _ => None :: served t.(t_priority_slot) turns
      end
  end.

Definition times (priority : Z) (l : list (option Z)) : Z :=
  sumZ (map (fun o => if decide (o = Some priority) then 1 else 0) l).

(** The positions of a priority among the next [n]. *)
Fixpoint positions (priority slot : Z) (n : nat) : Z :=
  match n with
  | O => 0
  | S n => (if cycle_at slot =? priority then 1 else 0) + positions priority (slot + 1) n
  end.

Lemma cycle_at_mod slot : cycle_at (slot mod 15) = cycle_at slot.
Proof. unfold cycle_at. now rewrite Z.mod_mod. Qed.

Lemma positions_mod priority slot n : positions priority (slot mod 15) n = positions priority slot n.
Proof.
  revert slot. induction n as [|n IH]; intros slot; [reflexivity|]. cbn [positions]. rewrite cycle_at_mod. f_equal.
  rewrite <- (IH (slot mod 15 + 1)), <- (IH (slot + 1)). f_equal. now rewrite Zplus_mod_idemp_l.
Qed.

Lemma positions_nonneg priority slot n : 0 <= positions priority slot n.
Proof. revert slot. induction n as [|n IH]; intros slot; cbn [positions]; [lia|]. specialize (IH (slot + 1)). destruct (_ =? _); lia. Qed.

Lemma positions_add priority slot n m :
  positions priority slot (n + m) = positions priority slot n + positions priority (slot + Z.of_nat n) m.
Proof.
  revert slot. induction n as [|n IH]; intros slot; cbn [positions Nat.add].
  - now rewrite Z.add_0_r.
  - rewrite IH. replace (slot + 1 + Z.of_nat n) with (slot + Z.of_nat (S n)) by lia. lia.
Qed.

(** Positions of other priorities. *)
Lemma positions_none priority slot n :
  (forall d, 0 <= d < Z.of_nat n -> cycle_at (slot + d) <> priority) -> positions priority slot n = 0.
Proof.
  revert slot. induction n as [|n IH]; intros slot H; cbn [positions]; [reflexivity|].
  rewrite (proj2 (Z.eqb_neq _ _)) by (specialize (H 0); rewrite Z.add_0_r in H; apply H; lia). apply IH.
  intros d Hd. replace (slot + 1 + d) with (slot + (d + 1)) by lia. apply H. lia.
Qed.

Lemma served_positions priority slot turns :
  0 <= slot < 15 -> 0 <= priority <= 3 -> Forall (fun tn => waiting tn.1 tn.2 priority = true) turns ->
  exists n, (length turns <= n)%nat /\ times priority (served slot turns) = positions priority slot n.
Proof.
  intros Hslot Hp H. revert slot Hslot. induction H as [|[t now] turns Hw H IH]; intros slot Hslot.
  { exists 0%nat. auto. }
  cbn [served fst snd] in *. set (t0 := set_t_priority_slot slot t). unfold melodi_queue_priority.
  pose proof (priority_loop_spec 15 t0 now 0) as S. destruct (priority_loop 15 t0 now 0) as [[p slot']|].
  - destruct S as (c & Hc & Ep & -> & _ & Hskip). change (t_priority_slot t0) with slot in *. cbn [t_priority_slot set_t_priority_slot].
    destruct (IH ((slot + c + 1) mod 15) ltac:(apply Z.mod_pos_bound; lia)) as (n & Hn & E).
    exists (Z.to_nat c + S n)%nat. split; [cbn [length]; lia|]. unfold times in *. cbn [map]. rewrite sumZ_cons, E.
    rewrite positions_add, (positions_none priority slot (Z.to_nat c)). cbn [positions]. rewrite Z2Nat.id by lia. rewrite positions_mod.
    + rewrite <- Ep. destruct (decide (Some p = Some priority)) as [[= ->]|Hne]; [rewrite Z.eqb_refl; lia|].
      destruct (Z.eqb_spec p priority); [congruence|lia].
    + intros d Hd <-. specialize (Hskip d ltac:(lia)). change (waiting t now (cycle_at (slot + d)) = false) in Hskip. congruence.
  - destruct (cycle_covers slot priority Hslot Hp) as (d & Hd & E). specialize (S d ltac:(lia)).
    change (waiting t now (cycle_at (slot + d)) = false) in S. rewrite E in S. congruence.
Qed.

Lemma positions_full priority slot : 0 <= slot < 15 -> 0 <= priority <= 3 -> positions priority slot 15 = nth (Z.to_nat priority) [8; 4; 2; 1] 0.
Proof.
  intros Hs Hp.
  assert (forallb (fun s => forallb (fun p => positions (Z.of_nat p) (Z.of_nat s) 15 =? nth p [8; 4; 2; 1] 0) (seq 0 4)) (seq 0 15) = true)
    as H by (vm_compute; reflexivity).
  rewrite forallb_forall in H. specialize (H (Z.to_nat slot) ltac:(apply in_seq; lia)).
  rewrite forallb_forall in H. specialize (H (Z.to_nat priority) ltac:(apply in_seq; lia)).
  rewrite Z.eqb_eq in H. now rewrite !Z2Nat.id in H by lia.
Qed.

(** ** The scheduler *)

(** One decision for a data frame. *)
Record decided (t t' : tx_state) (now : Z) (i : nat) (e : melodi_tx_queue_entry) (c : Z) : Prop := {
  dc_cycle : 0 <= c < 15;
  dc_priority : e.(e_priority) = cycle_at (t.(t_priority_slot) + c);
  dc_skipped : forall d, 0 <= d < c -> waiting t now (cycle_at (t.(t_priority_slot) + d)) = false;
  dc_slot : t'.(t_priority_slot) = (t.(t_priority_slot) + c + 1) mod 15;
  dc_chosen : chosen t now e.(e_priority) i e;
  dc_turn : t'.(t_scheduler_turn) = if t.(t_scheduler_turn) =? U64_MAX then 1 else t.(t_scheduler_turn) + 1;
  dc_served : peer_turn t' e = (if decide (e.(e_peer_index) < length t.(t_peers))%nat then t'.(t_scheduler_turn) else 0) /\
              flow_turn t' e = (if decide (e.(e_flow_index) < length t.(t_flows))%nat then t'.(t_scheduler_turn) else 0);
  dc_queue : t'.(t_queue) = t.(t_queue) /\ t'.(t_reservations) = t.(t_reservations);
}.

Lemma restart_lengths t :
  length (restart_turns t).(t_peers) = length t.(t_peers) /\ length (restart_turns t).(t_flows) = length t.(t_flows) /\
  (restart_turns t).(t_scheduler_turn) = (if t.(t_scheduler_turn) =? U64_MAX then 0 else t.(t_scheduler_turn)) /\
  (restart_turns t).(t_queue) = t.(t_queue) /\ (restart_turns t).(t_reservations) = t.(t_reservations) /\
  (restart_turns t).(t_priority_slot) = t.(t_priority_slot).
Proof. unfold restart_turns. destruct (_ =? _); cbn; rewrite ?length_map; auto 10. Qed.

Lemma turn_at {A} (f : A -> Z) (g : A -> A) (l : list A) i v n :
  length l = n -> (forall a, f (g a) = v) ->
  default 0 (f <$> alter g i l !! i) = if decide (i < n)%nat then v else 0.
Proof.
  intros <- Hg. rewrite list_lookup_alter_eq. destruct (decide (i < length l)%nat) as [H|H].
  - destruct (lookup_lt_is_Some_2 l i H) as [a ->]. cbn. apply Hg.
  - rewrite lookup_ge_None_2 by lia. reflexivity.
Qed.

(** The choice of the next data frame.  If no data frame is ready nothing is
    chosen and nothing changes.  Otherwise the first priority of the cycle, from
    the current slot on, that has a ready frame is served: among its ready frames
    the peer whose turn was longest ago, then the flow of that peer whose turn was
    longest ago, then the oldest frame of that flow.  The slot moves past the one
    served, peer and flow get the newest turn, and neither queue nor reservations
    change. *)
Theorem scheduler_choice t now :
  numbered t -> 0 <= t.(t_priority_slot) < 15 -> 0 <= t.(t_scheduler_turn) <= U64_MAX ->
  (forall e, e ∈ t.(t_queue) -> e.(e_active) = true -> 0 <= e.(e_priority) <= 3) ->
  match melodi_queue_data t now with
  | (t', None) => t' = t /\ forall e, e ∈ t.(t_queue) -> ready now e = true -> e.(e_control) = true
  | (t', Some i) => exists e c, decided t t' now i e c
  end.
Proof.
  intros Hn Hs Ht Hp. unfold melodi_queue_data, melodi_queue_priority.
  pose proof (priority_loop_spec 15 t now 0) as H. destruct (priority_loop 15 t now 0) as [[p slot]|].
  2:{ split; [reflexivity|]. intros e He Hr. destruct (e_control e) eqn:Hc; [reflexivity|].
      assert (e_active e = true) as Ha by (unfold ready in Hr; rewrite !andb_true_iff in Hr; tauto).
      destruct (cycle_covers _ _ Hs (Hp e He Ha)) as (d & Hd & E). specialize (H d ltac:(lia)). rewrite E in H.
      pose proof (waiting_false _ _ _ H e He) as Hf. unfold data_ready in Hf. rewrite Hr, Hc, Z.eqb_refl in Hf. discriminate. }
  destruct H as (c & Hc & -> & -> & Hw & Hskip). set (t1 := set_t_priority_slot _ t). set (p := cycle_at _) in *.
  pose proof (choose_spec t1 now p Hn) as Hch. destruct (choose t1 now p) as [[[i pi] fi]|].
  2:{ apply existsb_exists in Hw as (e & He & Hr). apply list_elem_of_In in He. rewrite (Hch e He) in Hr. discriminate. }
  destruct Hch as (e & [C1 C2 C3 C4 C5] & <- & <-). exists e, c.
  assert (e_priority e = p) as Ep by (unfold data_ready in C2; rewrite !andb_true_iff, Z.eqb_eq in C2; tauto).
  destruct (restart_lengths t1) as (L1 & L2 & L3 & L4 & L5 & L6). change (t_scheduler_turn t1) with (t_scheduler_turn t) in L3.
  assert (wrap 64 (t_scheduler_turn (restart_turns t1) + 1) =
          if t_scheduler_turn t =? U64_MAX then 1 else t_scheduler_turn t + 1) as Eturn.
  { rewrite L3. destruct (Z.eqb_spec (t_scheduler_turn t) U64_MAX); apply wrap_id; unfold uint, U64_MAX in *; pow_norm; lia. }
  constructor; cbn [t_priority_slot t_scheduler_turn t_queue t_reservations set_t_flows set_t_peers set_t_scheduler_turn]; auto.
  - rewrite Ep. constructor; auto.
  - split; [unfold peer_turn|unfold flow_turn]; cbn [t_peers t_flows set_t_flows set_t_peers set_t_scheduler_turn];
      apply turn_at; auto.
Qed.

(** C31: no priority starves.  As long as a frame of a priority is ready, any
    fifteen successive decisions serve it at least as often as it stands in the
    cycle (eight, four, two and one times), whatever else is queued and however the
    queue changes in between. *)
Theorem priority_share slot turns priority :
  0 <= slot < 15 -> 0 <= priority <= 3 -> length turns = 15%nat ->
  Forall (fun tn => waiting tn.1 tn.2 priority = true) turns ->
  nth (Z.to_nat priority) [8; 4; 2; 1] 0 <= times priority (served slot turns).
Proof.
  intros Hs Hp Hl H. destruct (served_positions priority slot turns Hs Hp H) as (n & Hn & ->).
  replace n with (15 + (n - 15))%nat by lia. rewrite positions_add, (positions_full priority slot Hs Hp).
  pose proof (positions_nonneg priority (slot + Z.of_nat 15) (n - 15)). lia.
Qed.

(** ** A queue with frames of several priorities *)

Definition numbered_b (t : tx_state) : bool :=
  forallb (fun e => (e_sequence e <? U64_MAX) && (peer_turn t e <=? U64_MAX) && (flow_turn t e <=? U64_MAX) &&
                    (0 <=? e_priority e) && (e_priority e <=? 3)) t.(t_queue).

Lemma numbered_b_spec t : numbered_b t = true ->
  numbered t /\ forall e, e ∈ t.(t_queue) -> e.(e_active) = true -> 0 <= e.(e_priority) <= 3.
Proof.
  unfold numbered_b. rewrite forallb_forall. intros H.
  split; intros e He _; specialize (H e ltac:(now apply list_elem_of_In));
    rewrite !andb_true_iff, Z.ltb_lt, !Z.leb_le in H; tauto.
Qed.

Lemma scheduler_choice_witness :
  exists e c, decided (tx sample_queued) (melodi_queue_data (tx sample_queued) 200).1 200 2 e c.
Proof.
  pose proof (scheduler_choice (tx sample_queued) 200) as H.
  destruct (numbered_b_spec (tx sample_queued)) as [Hn Hp]; [vm_compute; reflexivity|].
  specialize (H Hn ltac:(vm_compute; split; congruence) ltac:(vm_compute; split; congruence) Hp).
  assert ((melodi_queue_data (tx sample_queued) 200).2 = Some 2%nat) as E by (vm_compute; reflexivity).
  destruct (melodi_queue_data (tx sample_queued) 200) as [t' r]. cbn [snd] in E. subst r. exact H.
Defined.

Lemma priority_share_witness :
  1 <= times 3 (served 4 (replicate 15 (tx sample_queued, 200))).
Proof.
  apply (priority_share 4 (replicate 15 (tx sample_queued, 200)) 3); [lia|lia|reflexivity|].
  apply Forall_replicate. vm_compute. reflexivity.
Defined.
