(* ===== verification/QueueRun.v ===== *)
(** * The transmit queue: all of it together

    Every entry point and every section of the worker as steps of one machine, the
    invariant of its runs, what a change of state and a drain leave behind. *)
From S2P Require Import Prelude Buffer Uapi Slots Device Peers Policy Queue QueueInv QueueOps QueueSched.

(** ** The worker's hold on a frame *)

Definition held (w : worker) : option selection :=
  match w with
  | Idle => None
  | Selected x | Validated x | Charged x _ => Some x
  end.

(** What the worker believes to be in flight. *)
Definition holding (w : worker) (j : nat) : option (bytes * melodi_tx_meta * bool) :=
  match held w with
  | Some x => if decide (j = x.(x_index)) then Some (x.(x_frame), x.(x_metadata), x.(x_control)) else None
  | None => None
  end.

Definition safe (others : Z -> Z * Z) (s : core) (w : worker) : Prop :=
  good others s /\ forall j, flight (tx s) j = holding w j.

Lemma safe_sound others s s' w : safe others s w -> sound others s s' -> safe others s' w.
Proof. intros [_ F] [G' F']. split; [exact G'|]. intros j. now rewrite F'. Qed.

(** The entry behind the worker's hold. *)
Lemma safe_entry others s w x : safe others s w -> held w = Some x ->
  exists e, (tx s).(t_queue) !! x.(x_index) = Some e /\ e.(e_active) = true /\ e.(e_in_flight) = true /\
    e.(e_frame) = x.(x_frame) /\ e.(e_metadata) = x.(x_metadata) /\ e.(e_control) = x.(x_control).
Proof.
  intros [_ F] Hw. specialize (F x.(x_index)). unfold holding in F. rewrite Hw, decide_True in F by reflexivity.
  unfold flight in F. destruct (t_queue (tx s) !! x_index x) as [e|]; [|discriminate]. exists e. cbn in F.
  unfold flying, cargo in F. destruct (e_active e), (e_in_flight e); try discriminate. cbn in F. injection F as F1 F2 F3. auto 10.
Qed.

(** Letting go of the frame. *)
Lemma safe_release others s s' w x :
  safe others s w -> held w = Some x -> good others s' ->
  (forall j, flight (tx s') j = if decide (j = x.(x_index)) then None else flight (tx s) j) -> safe others s' Idle.
Proof.
  intros [_ F] Hw G F'. split; [exact G|]. intros j. rewrite F', F. unfold holding. rewrite Hw. cbn.
  now destruct (decide (j = x_index x)).
Qed.

Lemma safe_worker others s w w' : held w = held w' -> safe others s w -> safe others s w'.
Proof. intros E [G F]. split; [exact G|]. intros j. rewrite F. unfold holding. now rewrite E. Qed.

Lemma safe_remove others s w x :
  safe others s w -> held w = Some x -> safe others (melodi_queue_remove_locked s x.(x_index)).1 Idle.
Proof.
  intros H Hw. destruct (safe_entry _ _ _ _ H Hw) as (e & He & Ha & _).
  apply (safe_release others s _ w x H Hw).
  - now apply (remove_entry_good others s _ e); [apply H| |].
  - exact (remove_entry_flight s _ e He).
Qed.

(** The frame goes back to the queue. *)
Lemma safe_defer others s w x f :
  safe others s w -> held w = Some x ->
  (forall e, (f e).(e_in_flight) = false /\ (f e).(e_active) = e.(e_active) /\ (f e).(e_length) = e.(e_length) /\
     (f e).(e_frame) = e.(e_frame) /\ forall l, entry_share l (f e) = entry_share l e) ->
  safe others (update_entry f x.(x_index) s) Idle.
Proof.
  intros H Hw Hf. destruct (safe_entry _ _ _ _ H Hw) as (e & He & Ha & _). destruct (Hf e) as (F1 & F2 & F3 & F4 & F5).
  unfold update_entry. rewrite (alter_insert _ _ _ e He).
  apply (safe_release others s _ w x H Hw).
  - apply (entry_update_good others s _ e); auto; [apply H|]. destruct H as [G _].
    pose proof (entry_ok_at _ _ e (g_accounts _ _ G) He) as Hok. unfold entry_ok in *. now rewrite F2, F3, F4, Ha in *.
  - intros j. rewrite (flight_insert (tx s) _ (x_index x) (f e)); [|reflexivity|exact (lookup_lt_Some _ _ _ He)].
    destruct (decide (j = x_index x)); [|reflexivity]. unfold flying. rewrite F1. now destruct (e_active (f e)).
Qed.

(** ** The sections of the worker *)

Lemma queue_data_ledger t now : ledger (melodi_queue_data t now).1 = ledger t.
Proof.
  unfold melodi_queue_data, melodi_queue_priority. destruct (priority_loop _ _ _ _) as [[p slot]|]; [|reflexivity].
  destruct (choose _ _ _) as [[[i pi] fi]|]; [|reflexivity]. unfold restart_turns. now destruct (_ =? _).
Qed.

Lemma choose_ready t now p i pi fi : choose t now p = Some (i, pi, fi) ->
  exists e, t.(t_queue) !! i = Some e /\ data_ready now p e = true.
Proof.
  unfold choose. intros H. apply bind_Some in H as (a & _ & H). apply bind_Some in H as (pa & _ & H).
  apply bind_Some in H as (b & _ & H). apply bind_Some in H as (fb & _ & H). apply bind_Some in H as (k & Hk & H).
  injection H as -> -> ->.
  pose proof (select_first (fun e => data_ready now p e && Nat.eqb (e_peer_index e) pi && Nat.eqb (e_flow_index e) fi)
    e_sequence Z.ltb Z.ltb_irrefl ltb_trans t.(t_queue) U64_MAX) as Hs.
  rewrite Hk in Hs. destruct Hs as (e & He & Hc & _). exists e. rewrite !andb_true_iff in Hc. tauto.
Qed.

Lemma queue_data_ready t now i : (melodi_queue_data t now).2 = Some i ->
  exists e, t.(t_queue) !! i = Some e /\ ready now e = true /\ e.(e_control) = false.
Proof.
  unfold melodi_queue_data, melodi_queue_priority. destruct (priority_loop _ _ _ _) as [[p slot]|]; [|discriminate].
  destruct (choose _ _ _) as [[[k pi] fi]|] eqn:Hc; [|discriminate]. intros [= ->].
  apply choose_ready in Hc as (e & He & Hr). exists e. unfold data_ready in Hr. rewrite !andb_true_iff, negb_true_iff in Hr.
  split; [exact He|tauto].
Qed.

Lemma oldest_control_ready t now i : melodi_queue_oldest_control t now = Some i ->
  exists e, t.(t_queue) !! i = Some e /\ ready now e = true /\ e.(e_control) = true.
Proof. intros E. pose proof (oldest_control_spec t now) as H. rewrite E in H. destruct H as (e & H). exists e. tauto. Qed.

(** The choice of the first section. *)
Definition work_choice (now : Z) (s : core) : core * option nat :=
  match melodi_queue_oldest_control (tx s) now with
  | Some c =>
      if (tx s).(t_control_burst) <? MELODI_TX_CONTROL_BURST then (s, Some c) else
      let '(t, data) := melodi_queue_data (tx s) now in
      (set_tx t s, match data with Some d => Some d | None => Some c end)
  | None => let '(t, data) := melodi_queue_data (tx s) now in (set_tx t s, data)
  end.

Lemma work_choice_spec others now s : good others s ->
  sound others s (work_choice now s).1 /\
  (tx (work_choice now s).1).(t_queue) = (tx s).(t_queue) /\
  forall i, (work_choice now s).2 = Some i -> exists e, (tx s).(t_queue) !! i = Some e /\ ready now e = true.
Proof.
  intros G. unfold work_choice. pose proof (queue_data_ledger (tx s) now) as L. pose proof (queue_data_ready (tx s) now) as R.
  assert (sound others s (set_tx (melodi_queue_data (tx s) now).1 s)) as HS by (apply sound_ledger; auto).
  assert (t_queue (melodi_queue_data (tx s) now).1 = t_queue (tx s)) as HQ by (unfold ledger in L; congruence).
  assert (forall i, (melodi_queue_data (tx s) now).2 = Some i -> exists e, (tx s).(t_queue) !! i = Some e /\ ready now e = true) as R'.
  { intros i Hi. destruct (R i Hi) as (e & He & Hr & _). eauto. }
  destruct (melodi_queue_data (tx s) now) as [t data]. cbn [fst snd] in *.
  destruct (melodi_queue_oldest_control (tx s) now) as [c|] eqn:Hc; [|auto].
  assert (forall i, Some c = Some i -> exists e, (tx s).(t_queue) !! i = Some e /\ ready now e = true) as RC.
  { intros i [= <-]. destruct (oldest_control_ready _ _ _ Hc) as (e & He & Hr & _). eauto. }
  destruct (_ <? _); [split; [now apply sound_refl|auto]|]. cbn [fst snd]. split; [exact HS|]. split; [exact HQ|].
  destruct data; auto.
Qed.

Lemma work_select_safe others up info now s : safe others s Idle ->
  safe others (work_select up info now s).1 (work_select up info now s).2.
Proof.
  intros H. unfold work_select. destruct (melodi_queue_pacing info) as [busy guard].
  destruct (t_queue_stopping (tx s)); [exact H|]. pose proof (expire_sound others now s zero_notice (proj1 H)) as HE.
  destruct (melodi_queue_expire_locked now s zero_notice) as [s1 expired]. cbn [fst] in HE.
  set (s2 := if busy then _ else s1).
  assert (sound others s s2) as H2 by (unfold s2; destruct busy; [now apply (sound_ledger_r _ _ _ _ HE)|exact HE]).
  destruct (_ && (busy || _)); [apply (safe_sound others s _ _ H), notify_sound, schedule_work_sound, H2|].
  set (s3 := wake_if_low up s2). assert (sound others s s3) as H3 by now apply wake_sound.
  change (match melodi_queue_oldest_control (tx s3) now with Some c => _ | None => _ end) with (work_choice now s3).
  destruct (work_choice_spec others now s3 (proj1 H3)) as (H4 & Q4 & R4).
  destruct (work_choice now s3) as [s4 selected]. cbn [fst snd] in *.
  assert (safe others s4 Idle) as S4.
  { apply (safe_sound others s3); [|exact H4]. now apply (safe_sound others s). }
  destruct (selected ≫= fun i => pair i <$> (tx s4).(t_queue) !! i) as [[i e]|] eqn:Hsel; cbn [fst snd].
  2:{ match goal with |- context [if ?b then schedule_work _ _ else _] => destruct b end;
      apply (safe_sound others s4 _ _ S4); destruct S4 as [G4 _]; auto with queue. }
  apply bind_Some in Hsel as (k & -> & Hk). apply fmap_Some in Hk as (e' & He4 & [= -> ->]).
  destruct (R4 k eq_refl) as (e0 & He & Hr). assert (e0 = e') as -> by congruence. clear He. rename k into i, e' into e.
  assert (e.(e_active) = true /\ e.(e_in_flight) = false) as [Ha Hf].
  { unfold ready in Hr. rewrite !andb_true_iff, negb_true_iff in Hr. tauto. }
  destruct S4 as [G4 F4]. unfold update_entry. rewrite (alter_insert _ _ _ e He4).
  set (s5 := set_tx _ s4). destruct (notify_tx expired s5) as [N1 N2].
  assert (good others s5) as G5.
  { apply (entry_update_good others s4 i e); auto. pose proof (entry_ok_at _ _ e (g_accounts _ _ G4) He4) as Hok.
    unfold entry_ok in *. cbn. now rewrite Ha in *. }
  split; [now apply (notify_sound others expired _ _ (sound_refl _ _ G5))|].
  intros j. rewrite N1. unfold s5. rewrite (flight_insert (tx s4) _ i (set_e_in_flight true e));
    [|reflexivity|exact (lookup_lt_Some _ _ _ He4)].
  unfold holding. cbn [held x_index x_frame x_metadata x_control]. destruct (decide (j = i)); [|apply F4].
  unfold flying. cbn. now rewrite Ha.
Qed.

(** What follows a release of the frame leaves the books alone. *)
Lemma safe_emit others e s w : safe others s w -> safe others (emit e s) w.
Proof. intros H. apply (safe_sound others s _ _ H). apply sound_ledger; [apply H|reflexivity|reflexivity]. Qed.
Lemma safe_drop others f s w : safe others s w -> safe others (drop_frame f s) w.
Proof. intros H. apply (safe_sound others s _ _ H), drop_frame_sound, sound_refl, H. Qed.
Lemma safe_wake others up s w : safe others s w -> safe others (wake_if_low up s) w.
Proof. intros H. apply (safe_sound others s _ _ H), wake_sound, sound_refl, H. Qed.
Lemma safe_notify others n s w : safe others s w -> safe others (melodi_queue_notify n s) w.
Proof. intros H. apply (safe_sound others s _ _ H), notify_sound, sound_refl, H. Qed.
Lemma safe_schedule others (b : bool) d s w : safe others s w -> safe others (if b then schedule_work d s else s) w.
Proof. intros H. destruct b; [|exact H]. apply (safe_sound others s _ _ H), schedule_work_sound, sound_refl, H. Qed.
Lemma safe_tx others t s w : safe others s w -> ledger t = ledger (tx s) -> safe others (set_tx t s) w.
Proof. intros H E. apply (safe_sound others s _ _ H), sound_ledger; [apply H|exact E|reflexivity]. Qed.
#[export] Hint Resolve safe_emit safe_drop safe_wake safe_notify safe_schedule : queue.

Lemma work_validate_safe others up x s : safe others s (Selected x) ->
  safe others (work_validate up x s).1 (work_validate up x s).2.
Proof.
  intros H. unfold work_validate. destruct (x_control x); [exact (safe_worker _ _ _ (Validated x) eq_refl H)|].
  destruct (safe_entry _ _ _ x H eq_refl) as (e & He & Ha & _). rewrite He.
  destruct (if e_cancelled e then _ else _) as [?|error]; [exact (safe_worker _ _ _ (Validated x) eq_refl H)|].
  destruct (cancel_group_owned others s (x_index x) e error zero_notice (proj1 H) He Ha) as [G F].
  destruct (melodi_queue_cancel_group_locked _ _ _ _ _) as [[s1 notice] changed]. cbn [fst snd] in *.
  apply safe_notify, safe_schedule, safe_wake. exact (safe_release others s s1 _ x H eq_refl G F).
Qed.

Lemma airtime_ledger t charge broadcast now : ledger (melodi_queue_airtime_locked t charge broadcast now).1.1 = ledger t.
Proof.
  unfold melodi_queue_airtime_locked. destruct (_ =? 0); [reflexivity|]. set (t1 := if _ || _ then _ else _).
  assert (ledger t1 = ledger t) as E by (unfold t1; now destruct (_ || _)).
  destruct (Airtime.melodi_airtime_admit _ _ _ _ _) as [[a w] r]. destruct (if broadcast then _ else _) as [[a' w'] r'].
  transitivity (ledger t1); [|exact E]. destruct r as [?|[]], r' as [?|[]]; reflexivity.
Qed.

Lemma work_charge_safe others up x charge now s : safe others s (Validated x) ->
  safe others (work_charge up x charge now s).1 (work_charge up x charge now s).2.
Proof.
  intros H. unfold work_charge. pose proof (safe_remove others s _ x H eq_refl) as Hrem.
  destruct (t_queue_stopping (tx s)).
  { destruct (melodi_queue_remove_locked s (x_index x)) as [s1 f]. now apply safe_emit. }
  destruct (safe_entry _ _ _ x H eq_refl) as (e & He & Ha & _). rewrite He.
  set (p := if e_cancelled e then _ else _). assert (safe others p.1.1.1 (Validated x)) as Hp.
  { unfold p. destruct (e_cancelled e); [exact H|]. destruct (_ <=? _); [exact H|]. destruct charge as [c|]; [|exact H].
    pose proof (airtime_ledger (tx s) c (x_broadcast x) now) as E.
    destruct (melodi_queue_airtime_locked (tx s) c (x_broadcast x) now) as [[t wait] r]. now apply safe_tx. }
  clearbody p. destruct p as [[[s1 wait] error] checked]. cbn [fst] in Hp.
  destruct error as [?|error]; [exact (safe_worker _ _ _ (Charged x _) eq_refl Hp)|].
  destruct (bool_decide (error = EAGAIN) && checked); cbn [fst snd].
  - apply (safe_schedule others true). apply (safe_defer others _ (Validated x) x); [now apply safe_tx|reflexivity|].
    intros e'. repeat split; reflexivity.
  - pose proof (safe_remove others s1 _ x Hp eq_refl) as Hr. destruct (melodi_queue_remove_locked s1 (x_index x)) as [s2 f].
    cbn [fst snd] in *. apply safe_notify, safe_schedule, safe_wake.
    destruct (bool_decide (error = ETIMEDOUT)); [apply safe_tx; [|reflexivity]|]; now apply safe_drop.
Qed.

Lemma work_complete_safe others up x admitted sent now s : safe others s (Charged x admitted) ->
  safe others (work_complete up x admitted sent now s).1 (work_complete up x admitted sent now s).2.
Proof.
  intros H. unfold work_complete. set (s1 := match sent with Ok _ => _ | Err _ => _ end).
  assert (safe others s1 (Charged x admitted)) as H1 by (unfold s1; destruct sent; auto with queue). clearbody s1. clear H.
  destruct (safe_entry _ _ _ x H1 eq_refl) as (e & He & Ha & _). rewrite He. cbn [fst snd].
  set (retry := match sent with Ok _ => _ | Err _ => _ end). set (p := if retry then _ else _).
  assert (safe others p.1 Idle) as Hp.
  { unfold p. destruct retry; cbn [fst].
    - apply (safe_defer others _ (Charged x admitted) x); [exact H1|reflexivity|]. intros e'. repeat split; reflexivity.
    - pose proof (safe_remove others s1 _ x H1 eq_refl) as Hr. destruct (melodi_queue_remove_locked s1 (x_index x)) as [s2 f].
      cbn [fst snd] in *. apply safe_wake. destruct sent; [|now apply safe_drop].
      apply safe_tx; [exact Hr|]. destruct admitted, (x_control x && _); reflexivity. }
  destruct p as [s2 notice]. apply safe_notify, safe_schedule, Hp.
Qed.

(** ** Changes of state *)

Lemma changed_tail_sound others up now s s' : sound others s s' -> sound others s (changed_tail up now s').
Proof.
  intros H. unfold changed_tail. set (s1 := wake_if_low up s'). assert (sound others s s1) as H1 by now apply wake_sound.
  set (s2 := if _ && _ then schedule_work 1 s1 else s1).
  assert (sound others s s2) as H2 by (unfold s2; destruct (_ && _); [now apply schedule_work_sound|exact H1]).
  apply (sound_ledger_r _ _ _ _ H2); [apply schedule_reservation_ledger|reflexivity].
Qed.

Lemma cancel_pending_sound others s d m r : good others s -> sound others s (melodi_data_cancel_pending_locked s d m r).1.
Proof. intros G. destruct (cancel_pending_tx s d m r) as [E1 E2]. apply sound_ledger; auto. now rewrite E1. Qed.

(** The first thing that is not valid any more. *)
Definition bad_reservation (s : core) : option nat :=
  find_index (fun r => r.(v_active) && negb (is_ok (reservation_valid s.(c_dev) r))) (tx s).(t_reservations).
Definition bad_entry (s : core) : option nat :=
  find_index (fun e => e.(e_active) && negb e.(e_control) && negb e.(e_cancelled) && negb (is_ok (entry_valid s.(c_dev) e)))
    (tx s).(t_queue).

Lemma find_lookup {A} (P : A -> bool) (l : list A) i : find_index P l = Some i -> exists x, l !! i = Some x /\ P x = true.
Proof. intros H. apply find_index_Some in H as (x & Hx & Hp & _). eauto. Qed.

Lemma state_changed_turn_sound others up now s :
  good others s -> sound others s (state_changed_turn up now s).1.
Proof.
  intros G. unfold state_changed_turn. fold (bad_reservation s) (bad_entry s).
  destruct (bad_reservation s) as [i|] eqn:Hr; cbn [option_bind mbind].
  - destruct (find_lookup _ _ _ Hr) as (r & Hi & Hb). rewrite Hi. apply andb_true_iff in Hb as [Ha _]. cbn [fmap option_fmap option_map fst].
    set (s1 := if v_reliable r then _ else s). 
    assert (sound others s s1 /\ t_reservations (tx s1) !! i = Some r) as [H1 E1].
    { unfold s1. destruct (v_reliable r); [|split; [now apply sound_refl|exact Hi]].
      split; [now apply cancel_pending_sound|]. now rewrite (proj1 (cancel_pending_tx _ _ _ _)). }
    apply notify_sound, changed_tail_sound. apply (sound_trans _ _ _ _ H1). intros G1.
    now apply (sound_ledger_r _ _ _ _ (remove_reservation_sound others s1 i r G1 E1 Ha)).
  - destruct (bad_entry s) as [i|] eqn:He; cbn [option_bind mbind]; [|now apply sound_refl].
    destruct (find_lookup _ _ _ He) as (e & Hi & Hb). rewrite Hi.
    set (error := match entry_valid (c_dev s) e with Ok _ => _ | Err _ => _ end).
    pose proof (cancel_group_sound others s e.(e_group_id) error zero_notice G) as H.
    destruct (melodi_queue_cancel_group_locked _ _ _ _ _) as [[s1 n] changed]. cbn [fst] in *. apply notify_sound.
    destruct changed; [now apply changed_tail_sound|exact H].
Qed.

Lemma state_changed_sound others up nows s :
  good others s -> sound others s (melodi_queue_state_changed up nows s).1.
Proof.
  revert s. induction nows as [|now nows IH]; intros s G; [now apply sound_refl|]. cbn [melodi_queue_state_changed].
  pose proof (state_changed_turn_sound others up now s G) as H. destruct (state_changed_turn up now s) as [s1 [|]]; [|exact H].
  apply (sound_trans _ _ _ _ H). apply IH.
Qed.

(** *** What is left to look at *)

Definition live_entry (e : melodi_tx_queue_entry) : Z := if e.(e_active) && negb e.(e_cancelled) then 1 else 0.
Definition live_reservation (r : melodi_tx_reservation) : Z := if r.(v_active) then 1 else 0.
Definition live_entries (t : tx_state) : Z := sumZ (map live_entry t.(t_queue)).
Definition live (t : tx_state) : Z := live_entries t + sumZ (map live_reservation t.(t_reservations)).

Lemma live_entry_bound e : 0 <= live_entry e <= 1.
Proof. unfold live_entry. destruct (_ && _); lia. Qed.

Lemma live_nonneg t : 0 <= live t.
Proof.
  unfold live, live_entries. assert (0 <= sumZ (map live_entry (t_queue t)) /\ 0 <= sumZ (map live_reservation (t_reservations t))); [|lia].
  split; apply sumZ_nonneg, Forall_map, list.Forall_forall; intros x _; [apply live_entry_bound|].
  unfold live_reservation. destruct (v_active x); lia.
Qed.

Lemma sumZ_le_length {A} (w : A -> Z) l : (forall x, w x <= 1) -> sumZ (map w l) <= zlen l.
Proof.
  intros H. induction l as [|x l IH]; [cbn; unfold zlen; cbn; lia|]. cbn [map]. rewrite sumZ_cons. specialize (H x).
  unfold zlen in *. cbn [length]. lia.
Qed.

Lemma live_bound t : accounts t -> live t <= 256.
Proof.
  intros A. unfold live, live_entries.
  pose proof (sumZ_le_length live_entry t.(t_queue) (fun e => proj2 (live_entry_bound e))) as H1.
  pose proof (sumZ_le_length live_reservation t.(t_reservations)) as H2. unfold zlen in *.
  rewrite (acc_queue_length t A) in H1. rewrite (acc_reservations_length t A) in H2.
  specialize (H2 ltac:(intros r; unfold live_reservation; destruct (v_active r); lia)).
  change (Z.of_nat MELODI_TX_QUEUE_LIMIT) with 128 in H1. change (Z.of_nat MELODI_TX_RESERVATION_LIMIT) with 128 in H2. lia.
Qed.

Lemma live_ledger t t' : ledger t' = ledger t -> live t' = live t.
Proof.
  intros H. pose proof (f_equal (fun x => x.1.1.1) H) as T1. pose proof (f_equal (fun x => x.1.1.2) H) as T2.
  cbn [ledger fst snd] in T1, T2. unfold live, live_entries. now rewrite T1, T2.
Qed.

(** Cancelling never adds to it. *)
Lemma cancel_entry_live g rep s i :
  live_entries (tx (cancel_entry g None rep s i)) <= live_entries (tx s) /\
  (tx (cancel_entry g None rep s i)).(t_reservations) = (tx s).(t_reservations) /\
  (forall j, i <> j -> (tx (cancel_entry g None rep s i)).(t_queue) !! j = (tx s).(t_queue) !! j) /\
  (forall e, (tx s).(t_queue) !! i = Some e -> e.(e_active) = true -> e.(e_group_id) = g ->
     live_entries (tx (cancel_entry g None rep s i)) = live_entries (tx s) - live_entry e).
Proof.
  unfold cancel_entry. destruct (t_queue (tx s) !! i) as [e|] eqn:He; [|split; [lia|split; [auto|split; [auto|congruence]]]].
  pose proof (live_entry_bound e) as Hb.
  destruct (negb (e_active e) || _) eqn:Hc.
  { split; [lia|split; [auto|split; [auto|]]]. intros e' [= <-] Ha Hg. rewrite Ha, Hg, Z.eqb_refl in Hc. discriminate Hc. }
  assert (forall e' s', (tx s').(t_queue) = <[i := e']> (tx s).(t_queue) -> live_entry e' = 0 ->
    (tx s').(t_reservations) = (tx s).(t_reservations) ->
    live_entries (tx s') <= live_entries (tx s) /\ (tx s').(t_reservations) = (tx s).(t_reservations) /\
    (forall j, i <> j -> (tx s').(t_queue) !! j = (tx s).(t_queue) !! j) /\
    (forall e0, Some e = Some e0 -> e_active e0 = true -> e_group_id e0 = g -> live_entries (tx s') = live_entries (tx s) - live_entry e0)) as Hgo.
  { intros e' s' Eq E0 Er. unfold live_entries. rewrite Eq, (sum_weight_insert live_entry _ _ e) by exact He. rewrite E0.
    split; [lia|]. split; [exact Er|]. split; [intros j Hj; now apply list_lookup_insert_ne|]. intros e0 [= <-] _ _. lia. }
  destruct (e_in_flight e && _).
  - apply (Hgo (set_e_terminal_notified true (set_e_cancelled true e))); [reflexivity| |reflexivity].
    unfold live_entry. cbn. now rewrite andb_false_r.
  - destruct (remove_entry_shape s i e He) as (pe & fl & E). rewrite E. apply (Hgo zero_tx_queue_entry); reflexivity.
Qed.

Lemma cancel_loop_live g rep l s :
  live_entries (tx (fold_left (cancel_entry g None rep) l s)) <= live_entries (tx s) /\
  (tx (fold_left (cancel_entry g None rep) l s)).(t_reservations) = (tx s).(t_reservations) /\
  (forall i e, i ∈ l -> (tx s).(t_queue) !! i = Some e -> e.(e_active) = true -> e.(e_group_id) = g ->
     NoDup l -> live_entries (tx (fold_left (cancel_entry g None rep) l s)) <= live_entries (tx s) - live_entry e).
Proof.
  revert s. induction l as [|k l IH]; intros s; cbn [fold_left].
  { split; [lia|]. split; [reflexivity|]. intros i e Hi. now apply not_elem_of_nil in Hi. }
  destruct (cancel_entry_live g rep s k) as (L1 & R1 & Q1 & E1). destruct (IH (cancel_entry g None rep s k)) as (L2 & R2 & E2).
  split; [lia|]. split; [congruence|]. intros i e Hi He Ha Hg Hnd. apply list.NoDup_cons in Hnd as [Hk Hnd].
  apply list.elem_of_cons in Hi as [->|Hi]; [rewrite (E1 e He Ha Hg) in L2; exact L2|].
  assert (k <> i) as Hki by (intros ->; contradiction).
  specialize (E2 i e Hi). rewrite (Q1 i Hki) in E2. specialize (E2 He Ha Hg Hnd). lia.
Qed.

Lemma cancel_group_live s g error n i e :
  (tx s).(t_queue) !! i = Some e -> (i < MELODI_TX_QUEUE_LIMIT)%nat -> e.(e_active) = true -> e.(e_group_id) = g -> e.(e_cancelled) = false ->
  let r := melodi_queue_cancel_group_locked s g None error n in r.2 = true /\ live (tx r.1.1) < live (tx s).
Proof.
  intros He Hi Ha Hg Hc. cbn zeta. unfold melodi_queue_cancel_group_locked. destruct (filter _ _) as [|rep ms] eqn:Hm; cbn [fst snd].
  { exfalso. assert (e ∈ ([] : list melodi_tx_queue_entry)) as Hin; [|now apply not_elem_of_nil in Hin].
    rewrite <- Hm. apply list_elem_of_filter. rewrite Ha, Hg, Z.eqb_refl. split; [reflexivity|].
    apply list_elem_of_lookup. now exists i. }
  split; [reflexivity|]. set (s1 := if e_reliable rep then _ else s).
  assert (tx s1 = tx s) as E1 by (unfold s1; destruct (e_reliable rep); [apply cancel_pending_tx|reflexivity]).
  destruct (cancel_loop_live g rep queue_indices s1) as (_ & R & L). rewrite E1 in R, L.
  assert (i ∈ queue_indices) as Hin by (apply elem_of_seq; lia). specialize (L i e Hin He Ha Hg (NoDup_seq _ _)).
  assert (live_entry e = 1) as Hone by (unfold live_entry; now rewrite Ha, Hc).
  unfold live. rewrite R. lia.
Qed.

(** A turn that goes on leaves less to look at, and the last turn found nothing. *)
Lemma live_tail up now s : live (tx (changed_tail up now s)) = live (tx s).
Proof.
  apply live_ledger. unfold changed_tail. cbn [c_dev set_tx d_tx set_d_tx]. rewrite schedule_reservation_ledger.
  set (s1 := wake_if_low up s). assert (ledger (tx s1) = ledger (tx s)) as E by (unfold s1, wake_if_low; now destruct (_ && _)).
  now destruct (_ && _).
Qed.

Lemma remove_reservation_live s i r :
  (tx s).(t_reservations) !! i = Some r -> r.(v_active) = true ->
  live (tx (melodi_reservation_remove_locked s i)) = live (tx s) - 1.
Proof.
  intros Hi Ha. destruct (remove_reservation_shape s i r Hi) as (pe & fl & ->). cbn [c_dev d_tx set_d_tx].
  unfold live, live_entries, with_turns. cbn [t_queue t_reservations set_t_peers set_t_flows].
  rewrite reservation_removed_queue.
  assert (t_reservations (reservation_removed i r (tx s)) = <[i := zero_tx_reservation]> (t_reservations (tx s))) as ->
    by (unfold reservation_removed; now destruct (v_pending_reserved r)).
  rewrite (sum_weight_insert live_reservation _ _ r) by exact Hi.
  assert (live_reservation r = 1 /\ live_reservation zero_tx_reservation = 0) as [-> ->] by (unfold live_reservation; now rewrite Ha).
  lia.
Qed.

Lemma state_changed_turn_live up now s : accounts (tx s) ->
  if (state_changed_turn up now s).2 then live (tx (state_changed_turn up now s).1) < live (tx s)
  else (state_changed_turn up now s).1 = s /\ bad_reservation s = None /\ bad_entry s = None.
Proof.
  intros A. unfold state_changed_turn. fold (bad_reservation s) (bad_entry s).
  destruct (bad_reservation s) as [i|] eqn:Hr; cbn [option_bind mbind].
  - destruct (find_lookup _ _ _ Hr) as (r & Hi & Hb). rewrite Hi. apply andb_true_iff in Hb as [Ha _].
    cbn [fmap option_fmap option_map fst snd].
    set (s1 := if v_reliable r then _ else s).
    assert (tx s1 = tx s) as E1 by (unfold s1; destruct (v_reliable r); [apply cancel_pending_tx|reflexivity]).
    rewrite (proj1 (notify_tx _ _)), live_tail.
    pose proof (remove_reservation_live s1 i r ltac:(rewrite E1; exact Hi) Ha) as H. rewrite <- E1.
    cbn [c_dev set_tx d_tx set_d_tx]. rewrite (live_ledger (tx (melodi_reservation_remove_locked s1 i))) by reflexivity. lia.
  - destruct (bad_entry s) as [i|] eqn:He; cbn [option_bind mbind]; [|cbn [fst snd]; auto].
    destruct (find_lookup _ _ _ He) as (e & Hi & Hb). rewrite Hi.
    rewrite !andb_true_iff, !negb_true_iff in Hb. destruct Hb as (((Ha & _) & Hc) & _).
    set (error := match entry_valid (c_dev s) e with Ok _ => _ | Err _ => _ end).
    pose proof (cancel_group_live s e.(e_group_id) error zero_notice i e Hi) as H. cbn zeta in H.
    pose proof (lookup_lt_Some _ _ _ Hi) as Hlt. rewrite (acc_queue_length _ A) in Hlt.
    specialize (H Hlt Ha eq_refl Hc).
    destruct (melodi_queue_cancel_group_locked _ _ _ _ _) as [[s1 n] changed]. cbn [fst snd] in *.
    destruct H as [-> H]. rewrite (proj1 (notify_tx _ _)), live_tail. exact H.
Qed.

Lemma state_changed_live up nows s others : good others s -> live (tx s) < zlen nows ->
  (melodi_queue_state_changed up nows s).2 = false /\
  bad_reservation (melodi_queue_state_changed up nows s).1 = None /\ bad_entry (melodi_queue_state_changed up nows s).1 = None.
Proof.
  revert s. induction nows as [|now nows IH]; intros s G Hl; [pose proof (live_nonneg (tx s)); unfold zlen in Hl; cbn in Hl; lia|].
  cbn [melodi_queue_state_changed]. pose proof (state_changed_turn_live up now s (g_accounts _ _ G)) as H.
  pose proof (state_changed_turn_sound others up now s G) as HS. destruct (state_changed_turn up now s) as [s1 [|]]; cbn [fst snd] in *.
  - apply IH; [apply HS|]. unfold zlen in *. cbn [length] in Hl. lia.
  - destruct H as (-> & H). auto.
Qed.

Lemma bad_reservation_none s : bad_reservation s = None ->
  forall r, r ∈ (tx s).(t_reservations) -> r.(v_active) = true -> reservation_valid s.(c_dev) r = Ok tt.
Proof.
  unfold bad_reservation. rewrite find_index_None. intros H r Hr Ha. specialize (H r ltac:(now apply list_elem_of_In)).
  rewrite Ha in H. destruct (reservation_valid (c_dev s) r) as [[]|]; [reflexivity|discriminate].
Qed.

Lemma bad_entry_none s : bad_entry s = None ->
  forall e, e ∈ (tx s).(t_queue) -> e.(e_active) = true -> e.(e_control) = false -> e.(e_cancelled) = false ->
    entry_valid s.(c_dev) e = Ok tt.
Proof.
  unfold bad_entry. rewrite find_index_None. intros H e He Ha Hc Hx. specialize (H e ltac:(now apply list_elem_of_In)).
  rewrite Ha, Hc, Hx in H. destruct (entry_valid (c_dev s) e) as [[]|]; [reflexivity|discriminate].
Qed.
