(* ===== verification/QueueDrain.v ===== *)
(** * The transmit queue: settling after a change, and draining

    What a change of policy, peer or link leaves in the queue, and that pausing,
    failing or stopping the device empties it. *)
From S2P Require Import Prelude Buffer Uapi Airtime Slots Device Peers Policy Queue QueueInv QueueOps QueueRun.

(** ** The rest of the device *)

Definition rules (s : core) := (s.(c_dev).(d_link), s.(c_dev).(d_peers), s.(c_dev).(d_receive), s.(c_dev).(d_policy)).

Lemma rules_pending_clear s i : rules (melodi_pending_clear s i) = rules s.
Proof.
  unfold melodi_pending_clear. destruct (d_pending (c_dev s) !! i) as [p|]; [|reflexivity].
  destruct (negb (pm_allocated p)); [reflexivity|]. set (l := take _ _). clearbody l. unfold rules.
  cbn [c_dev d_link d_peers d_receive d_policy set_d_pending].
  revert s. induction l as [|f l IH]; intros s; cbn [fold_left]; [reflexivity|]. now rewrite IH.
Qed.

Lemma rules_cancel_pending s d m r : rules (melodi_data_cancel_pending_locked s d m r).1 = rules s.
Proof. unfold melodi_data_cancel_pending_locked. destruct (find_index _ _); [apply rules_pending_clear|reflexivity]. Qed.

Lemma rules_notify n s : rules (melodi_queue_notify n s) = rules s.
Proof. unfold melodi_queue_notify. now destruct (n_active n), (n_error n). Qed.

Lemma rules_remove_entry s i : rules (melodi_queue_remove_locked s i).1 = rules s.
Proof.
  destruct (t_queue (tx s) !! i) as [e|] eqn:He; [|unfold melodi_queue_remove_locked; now rewrite He].
  now destruct (remove_entry_shape s i e He) as (pe & fl & ->).
Qed.

Lemma rules_remove_reservation s i : rules (melodi_reservation_remove_locked s i) = rules s.
Proof.
  destruct (t_reservations (tx s) !! i) as [r|] eqn:Hr; [|unfold melodi_reservation_remove_locked; now rewrite Hr].
  now destruct (remove_reservation_shape s i r Hr) as (pe & fl & ->).
Qed.

Lemma rules_cancel_entry g own rep s i : rules (cancel_entry g own rep s i) = rules s.
Proof.
  unfold cancel_entry. destruct (t_queue (tx s) !! i) as [e|]; [|reflexivity]. destruct (_ || _); [reflexivity|].
  destruct (_ && _); [reflexivity|]. pose proof (rules_remove_entry s i) as H.
  destruct (melodi_queue_remove_locked s i) as [s1 f]. exact H.
Qed.

Lemma rules_fold {A} (f : core -> A -> core) l s : (forall s a, rules (f s a) = rules s) -> rules (fold_left f l s) = rules s.
Proof. intros H. revert s. induction l as [|a l IH]; intros s; cbn [fold_left]; [reflexivity|]. now rewrite IH. Qed.

Lemma rules_cancel_group s g own error n : rules (melodi_queue_cancel_group_locked s g own error n).1.1 = rules s.
Proof.
  unfold melodi_queue_cancel_group_locked. destruct (filter _ _) as [|rep ms]; [reflexivity|]. cbn [fst].
  rewrite rules_fold by (intros; apply rules_cancel_entry). destruct (e_reliable rep); [apply rules_cancel_pending|reflexivity].
Qed.

Lemma rules_tail up now s : rules (changed_tail up now s) = rules s.
Proof.
  unfold changed_tail. set (s1 := wake_if_low up s). assert (rules s1 = rules s) as E by (unfold s1, wake_if_low; now destruct (_ && _)).
  rewrite <- E. now destruct (_ && _).
Qed.

Lemma rules_state_changed_turn up now s : rules (state_changed_turn up now s).1 = rules s.
Proof.
  unfold state_changed_turn. destruct (find_index _ _ ≫= _) as [[i r]|].
  - cbn [fst]. rewrite rules_notify, rules_tail.
    match goal with |- rules (set_tx _ ?x) = _ => change (rules x = rules s) end. rewrite rules_remove_reservation.
    destruct (v_reliable r); [apply rules_cancel_pending|reflexivity].
  - destruct (find_index _ _ ≫= _) as [e|]; [|reflexivity].
    set (error := match entry_valid (c_dev s) e with Ok _ => _ | Err _ => _ end).
    pose proof (rules_cancel_group s e.(e_group_id) None error zero_notice) as H.
    destruct (melodi_queue_cancel_group_locked _ _ _ _ _) as [[s1 n] changed]. cbn [fst] in *. rewrite rules_notify, <- H.
    destruct changed; [apply rules_tail|reflexivity].
Qed.

Lemma rules_state_changed up nows s : rules (melodi_queue_state_changed up nows s).1 = rules s.
Proof.
  revert s. induction nows as [|now nows IH]; intros s; [reflexivity|]. cbn [melodi_queue_state_changed].
  pose proof (rules_state_changed_turn up now s) as H. destruct (state_changed_turn up now s) as [s1 [|]]; [|exact H].
  rewrite IH. exact H.
Qed.

(** ** Draining *)

Lemma filter_first {A} (P : A -> bool) (l : list A) i x z :
  find_index P l = Some i -> l !! i = Some x -> P z = false ->
  filter (fun a => P a = true) l = x :: filter (fun a => P a = true) (<[i := z]> l).
Proof.
  intros Hf Hx Hz. revert i Hf Hx. induction l as [|a l IH]; intros i Hf Hx; [discriminate|]. cbn [find_index] in Hf.
  destruct (P a) eqn:Ha.
  - injection Hf as <-. injection Hx as ->. cbn [insert list_insert]. rewrite filter_cons_True by exact Ha.
    now rewrite filter_cons_False by congruence.
  - destruct (find_index P l) as [k|] eqn:Hk; [|discriminate]. injection Hf as <-. cbn in Hx.
    cbn [insert list_insert]. rewrite !filter_cons_False by congruence. now apply IH.
Qed.

Lemma filter_none {A} (P : A -> bool) (l : list A) : find_index P l = None -> filter (fun a => P a = true) l = [].
Proof.
  rewrite find_index_None. intros H. induction l as [|a l IH]; [reflexivity|].
  rewrite filter_cons_False by (rewrite (H a (or_introl eq_refl)); discriminate). apply IH. intros x Hx. apply H. now right.
Qed.

Definition active_reservations (t : tx_state) : list melodi_tx_reservation := filter (fun r => r.(v_active) = true) t.(t_reservations).
Definition active_entries (l : list melodi_tx_queue_entry) : list melodi_tx_queue_entry := filter (fun e => e.(e_active) = true) l.

Definition reservation_error (error : errno) (r : melodi_tx_reservation) : event :=
  DeliveryError r.(v_binding_portid) r.(v_binding_generation) r.(v_service) r.(v_cookie) error.

(** The reservation that goes first. *)
Lemma first_reservation t i r : accounts t ->
  find_index v_active t.(t_reservations) = Some i -> t.(t_reservations) !! i = Some r ->
  r.(v_active) = true /\ 0 < r.(v_id) /\ melodi_reservation_find_locked t r.(v_id) = Some i.
Proof.
  intros A Hf Hr. apply find_index_Some in Hf as (r' & Hr' & Ha & Hmin). replace r' with r in * by congruence.
  pose proof (reservation_ok_at t i r A Hr) as Hok. unfold reservation_ok in Hok. rewrite Ha in Hok.
  split; [exact Ha|]. split; [lia|]. unfold melodi_reservation_find_locked.
  destruct (find_index (fun r0 => v_active r0 && (v_id r0 =? v_id r)) (t_reservations t)) as [k|] eqn:Hk.
  - apply find_index_Some in Hk as (rk & Hrk & Hck & Hmk). apply andb_true_iff in Hck as [Hak _].
    destruct (Nat.lt_trichotomy k i) as [Hlt|[->|Hlt]]; [|reflexivity|].
    + specialize (Hmin k rk Hlt Hrk). congruence.
    + specialize (Hmk i r Hlt Hr). rewrite Ha, Z.eqb_refl in Hmk. discriminate.
  - rewrite find_index_None in Hk. specialize (Hk r ltac:(apply list_elem_of_In, list_elem_of_lookup; eauto)).
    rewrite Ha, Z.eqb_refl in Hk. discriminate.
Qed.

Lemma drain_reservations_spec others fuel error s :
  good others s -> (length (active_reservations (tx s)) < fuel)%nat ->
  let s' := drain_reservations fuel error s in
  sound others s s' /\ active_reservations (tx s') = [] /\ rules s' = rules s /\ (tx s').(t_queue) = (tx s).(t_queue) /\
  (tx s').(t_queue_stopping) = (tx s).(t_queue_stopping) /\
  s'.(c_log) = s.(c_log) ++ map (reservation_error error) (active_reservations (tx s)).
Proof.
  revert s. induction fuel as [|fuel IH]; intros s G Hl; [lia|]. cbn [drain_reservations].
  destruct (find_index v_active (t_reservations (tx s))) as [i|] eqn:Hf; cbn [option_bind mbind].
  2:{ pose proof (filter_none _ _ Hf) as E. unfold active_reservations. rewrite E. cbn [map]. rewrite app_nil_r.
      split; [now apply sound_refl|auto]. }
  destruct (find_lookup _ _ _ Hf) as (r & Hr & _). rewrite Hr.
  destruct (first_reservation _ _ _ (g_accounts _ _ G) Hf Hr) as (Ha & Hid & Hfind).
  rewrite (proj2 (Z.eqb_neq _ _)) by lia.
  pose proof (reservation_cancel_sound others s r.(v_id) error true G) as HS.
  assert (active_reservations (tx s) = r :: filter (fun a => v_active a = true) (<[i := zero_tx_reservation]> (t_reservations (tx s)))) as E
    by (apply filter_first; auto).
  set (s1 := melodi_queue_reservation_cancel s (v_id r) error true) in *.
  assert (active_reservations (tx s1) = filter (fun a => v_active a = true) (<[i := zero_tx_reservation]> (t_reservations (tx s))) /\
          rules s1 = rules s /\ t_queue (tx s1) = t_queue (tx s) /\ t_queue_stopping (tx s1) = t_queue_stopping (tx s) /\
          c_log s1 = c_log s ++ [reservation_error error r]) as (E1 & E2 & E3 & E4 & E5).
  { unfold s1, melodi_queue_reservation_cancel. rewrite Hfind, Hr.
    destruct (remove_reservation_shape s i r Hr) as (pe & fl & ->). unfold active_reservations, reservation_removed.
    destruct (v_pending_reserved r); cbn; auto. }
  destruct (IH s1 (proj1 HS)) as (I1 & I2 & I3 & I4 & I5 & I6).
  { rewrite E1. rewrite E in Hl. cbn [length] in Hl. lia. }
  split; [apply (sound_trans _ _ _ _ HS); intros _; exact I1|]. split; [exact I2|]. split; [congruence|]. split; [congruence|].
  split; [congruence|]. rewrite I6, E5, E1, E. cbn [map]. now rewrite <- app_assoc.
Qed.

Lemma drain_entries_spec others k n s :
  good others s -> length (tx s).(t_queue) = (k + n)%nat ->
  let s' := fold_left drain_entry (seq k n) s in
  good others s' /\ (tx s').(t_queue) = take k (tx s).(t_queue) ++ replicate n zero_tx_queue_entry /\
  rules s' = rules s /\ (tx s').(t_reservations) = (tx s).(t_reservations) /\
  (tx s').(t_queue_stopping) = (tx s).(t_queue_stopping) /\
  s'.(c_log) = s.(c_log) ++ map (fun e => Released e.(e_frame)) (active_entries (drop k (tx s).(t_queue))).
Proof.
  revert k s. induction n as [|n IH]; intros k s G Hlen; cbn [seq fold_left].
  { cbn zeta. rewrite drop_ge, app_nil_r, firstn_all2 by lia. cbn. rewrite app_nil_r. auto 10. }
  destruct (lookup_lt_is_Some_2 (t_queue (tx s)) k ltac:(lia)) as [e He].
  assert (drop k (t_queue (tx s)) = e :: drop (S k) (t_queue (tx s))) as Hd by now apply drop_S.
  assert (good others (drain_entry s k) /\ t_queue (tx (drain_entry s k)) = <[k := zero_tx_queue_entry]> (t_queue (tx s)) /\
          rules (drain_entry s k) = rules s /\ t_reservations (tx (drain_entry s k)) = t_reservations (tx s) /\
          t_queue_stopping (tx (drain_entry s k)) = t_queue_stopping (tx s) /\
          c_log (drain_entry s k) = c_log s ++ if e_active e then [Released (e_frame e)] else []) as (D1 & D2 & D3 & D4 & D6 & D5).
  { unfold drain_entry. rewrite He. destruct (e_active e) eqn:Ha.
    - pose proof (remove_entry_good others s k e G He Ha) as H. destruct (remove_entry_shape s k e He) as (pe & fl & E).
      rewrite E in *. cbn [fst] in H. split; [|cbn; auto 10].
      eapply good_ledger; [exact H|reflexivity|reflexivity].
    - split; [exact G|]. rewrite app_nil_r. split; [|auto]. rewrite list_insert_id; [reflexivity|].
      pose proof (entry_ok_at _ k e (g_accounts _ _ G) He) as Hok. unfold entry_ok in Hok. rewrite Ha in Hok. now subst e. }
  destruct (IH (S k) (drain_entry s k) D1) as (I1 & I2 & I3 & I4 & I6 & I5); [rewrite D2, length_insert; lia|].
  cbn zeta. split; [exact I1|]. split; [|split; [congruence|split; [congruence|split; [congruence|]]]].
  - rewrite I2, D2. rewrite (take_S_r _ _ zero_tx_queue_entry) by (apply list_lookup_insert_eq; lia).
    rewrite take_insert_ge by lia. rewrite <- app_assoc. reflexivity.
  - rewrite I5, D5, D2, drop_insert_lt by lia. rewrite Hd. unfold active_entries. rewrite <- app_assoc. f_equal.
    destruct (e_active e) eqn:Ha; [rewrite filter_cons_True by exact Ha|rewrite filter_cons_False by congruence]; reflexivity.
Qed.

Lemma all_inactive t : accounts t -> active_reservations t = [] ->
  t.(t_reservations) = replicate MELODI_TX_RESERVATION_LIMIT zero_tx_reservation.
Proof.
  intros A H. symmetry. apply replicate_as_elem_of. split; [apply A|]. intros r Hr. pose proof (acc_reservations t A) as Hok. rewrite list.Forall_forall in Hok.
  specialize (Hok r Hr). unfold reservation_ok in Hok. destruct (v_active r) eqn:Ha; [|auto].
  exfalso. assert (r ∈ active_reservations t) as Hin by (now apply list_elem_of_filter). rewrite H in Hin. now apply not_elem_of_nil in Hin.
Qed.

Lemma holdings_empty l t :
  t.(t_queue) = replicate MELODI_TX_QUEUE_LIMIT zero_tx_queue_entry ->
  t.(t_reservations) = replicate MELODI_TX_RESERVATION_LIMIT zero_tx_reservation ->
  queued l t = 0 /\ reserved l t = 0.
Proof.
  intros Eq Er. unfold queued, reserved. rewrite Eq, Er.
  split; apply Z.le_antisymm; try (apply sumZ_nonneg, Forall_map, Forall_replicate; reflexivity); vm_compute; discriminate.
Qed.

(** What draining does to the books, before the final resets. *)
Lemma drain_books others error s : safe others s Idle ->
  let s2 := drain_loops error s in
  good others s2 /\ (tx s2).(t_queue) = replicate MELODI_TX_QUEUE_LIMIT zero_tx_queue_entry /\
  (tx s2).(t_reservations) = replicate MELODI_TX_RESERVATION_LIMIT zero_tx_reservation /\ rules s2 = rules s /\
  s2.(c_log) = s.(c_log) ++ map (reservation_error error) (active_reservations (tx s)) ++
               map (fun e => Released e.(e_frame)) (active_entries (tx s).(t_queue)).
Proof.
  intros [G _]. unfold drain_loops. set (s0 := set_tx (set_t_reservation_work None (set_t_queue_work None (tx s))) s).
  assert (good others s0) as G0 by (apply (good_ledger others s); [exact G|reflexivity|reflexivity]).
  destruct (drain_reservations_spec others (S MELODI_TX_RESERVATION_LIMIT) error s0 G0) as (D1 & D2 & D3 & D4 & D5 & D6).
  { unfold active_reservations. pose proof (length_filter (fun r => v_active r = true) (t_reservations (tx s0))) as L.
    rewrite (acc_reservations_length _ (g_accounts _ _ G0)) in L. lia. }
  set (s1 := drain_reservations _ error s0) in *.
  assert (length (t_queue (tx s1)) = (0 + MELODI_TX_QUEUE_LIMIT)%nat) as Hlen by (rewrite D4; apply (acc_queue_length _ (g_accounts _ _ G))).
  destruct (drain_entries_spec others 0 MELODI_TX_QUEUE_LIMIT s1 (proj1 D1) Hlen) as (E1 & E2 & E3 & E4 & E5 & E6).
  cbv zeta. fold s1. unfold queue_indices. cbn [take app] in E2.
  split; [exact E1|]. split; [exact E2|]. split; [rewrite E4; apply all_inactive; [apply (proj1 D1)|exact D2]|].
  split; [rewrite E3; exact D3|]. rewrite E6, D6, D4. rewrite drop_0, <- app_assoc. reflexivity.
Qed.

(** The final resets only write what is zero already. *)
Lemma drain_reset_spec others s :
  good others s -> (tx s).(t_queue) = replicate MELODI_TX_QUEUE_LIMIT zero_tx_queue_entry ->
  (tx s).(t_reservations) = replicate MELODI_TX_RESERVATION_LIMIT zero_tx_reservation ->
  ledger (drain_reset (tx s)) = ledger (tx s) /\ t_reserved_count (tx s) = 0 /\ t_reserved_bytes (tx s) = 0 /\
  t_pending_reserved (tx s) = 0 /\ forall net, space s.(c_spaces) net = others net.
Proof.
  intros G Eq Er. pose proof (g_accounts _ _ G) as A. pose proof (fun l => holdings_empty l _ Eq Er) as Hu.
  destruct (Hu Frames) as [U1 U2]. destruct (Hu Octets) as [U3 U4].
  pose proof (acc_count _ A) as C1. pose proof (acc_bytes _ A) as C2. pose proof (acc_reserved_count _ A) as C3.
  pose proof (acc_reserved_bytes _ A) as C4. pose proof (acc_pending _ A) as C5.
  rewrite U1 in C1. rewrite U3 in C2. rewrite U2 in C3. rewrite U4 in C4. rewrite Er in C5.
  split; [unfold ledger, drain_reset; cbn [t_queue t_reservations t_queue_count t_queue_bytes t_reserved_count t_reserved_bytes
    t_pending_reserved t_reservation_sequence set_t_peers set_t_flows set_t_queue_bytes set_t_queue_count set_t_guard_until_ms
    set_t_control_burst set_t_airtime_budget_us set_t_broadcast_budget_us set_t_airtime set_t_broadcast_airtime]; now rewrite C1, C2|].
  split; [exact C3|]. split; [exact C4|]. split; [exact C5|].
  intros net. destruct (g_spaces _ _ G) as [_ Hs _ _]. rewrite (Hs net). unfold holdings.
  destruct (Hu (NetFrames net)) as [V1 V2]. destruct (Hu (NetOctets net)) as [V3 V4]. rewrite V1, V2, V3, V4.
  now destruct (others net).
Qed.

(** Draining.  Once the worker has stopped, pausing, failing or stopping the
    device empties the queue whatever it held: the loops end, every reservation is
    cancelled with one error to its binding, every frame is released exactly once,
    all counters, turns and airtime windows are back at zero, the namespace table
    holds only what other devices use, and nothing else of the device changes. *)
Theorem queue_drain_empties others error s :
  safe others s Idle ->
  let s' := drain_finish error s in
  let t := tx s' in
  good others s' /\ t.(t_queue) = fresh_tx.(t_queue) /\ t.(t_reservations) = fresh_tx.(t_reservations) /\
  t.(t_peers) = fresh_tx.(t_peers) /\ t.(t_flows) = fresh_tx.(t_flows) /\
  t.(t_queue_count) = 0 /\ t.(t_queue_bytes) = 0 /\ t.(t_reserved_count) = 0 /\ t.(t_reserved_bytes) = 0 /\
  t.(t_pending_reserved) = 0 /\ t.(t_airtime) = melodi_airtime_reset (tx s).(t_airtime) /\
  (forall net, space s'.(c_spaces) net = others net) /\ rules s' = rules s /\
  s'.(c_log) = s.(c_log) ++ map (reservation_error error) (active_reservations (tx s)) ++
               map (fun e => Released e.(e_frame)) (active_entries (tx s).(t_queue)).
Proof.
  intros H. destruct (drain_books others error s H) as (G & Eq & Er & Eu & El). unfold drain_finish.
  generalize dependent (drain_loops error s). intros s2 G Eq Er Eu El. cbv zeta.
  destruct (drain_reset_spec others s2 G Eq Er) as (Hled & C3 & C4 & C5 & Hsp).
  split; [apply (good_ledger others s2); auto|]. split; [exact Eq|]. split; [exact Er|].
  repeat (split; [reflexivity|]). split; [exact C3|]. split; [exact C4|]. split; [exact C5|].
  split; [reflexivity|]. split; [exact Hsp|]. split; [exact Eu|exact El].
Qed.

(** C30: a change of policy, of a peer or of the link.  With more readings of the
    clock than there can be messages, the loop that follows such a change ends; no
    reservation is left that may not be sent any more, and no data frame except
    cancelled ones in the hands of the worker or put back by it; the books stay
    exact, the worker keeps its frame, and the rules are not touched. *)
Theorem state_changed_settles others up nows s w :
  safe others s w -> 256 < zlen nows ->
  let r := melodi_queue_state_changed up nows s in
  r.2 = false /\ safe others r.1 w /\ rules r.1 = rules s /\
  (forall v, v ∈ (tx r.1).(t_reservations) -> v.(v_active) = true -> reservation_valid r.1.(c_dev) v = Ok tt) /\
  (forall e, e ∈ (tx r.1).(t_queue) -> e.(e_active) = true -> e.(e_control) = false -> e.(e_cancelled) = false ->
     entry_valid r.1.(c_dev) e = Ok tt).
Proof.
  intros H Hn r. pose proof (live_bound _ (g_accounts _ _ (proj1 H))) as Hl.
  destruct (state_changed_live up nows s others (proj1 H) ltac:(lia)) as (E & Br & Be).
  split; [exact E|]. split; [|split; [apply rules_state_changed|split]].
  - apply (safe_sound others s); [exact H|]. now apply state_changed_sound, H.
  - apply bad_reservation_none, Br.
  - apply bad_entry_none, Be.
Qed.
