(* ===== verification/QueueSteps.v ===== *)
(** * The transmit queue: runs

    The entry points of the queue, the sections of its worker and the changes the
    rest of the kernel may make in between, as steps; what holds in every state a
    run reaches. *)
From stdpp Require Import relations.
From S2P Require Import Prelude Buffer Uapi Slots Device Peers Policy Queue QueueInv QueueOps QueueSched QueueRun QueueDrain.

(** What other devices hold of the namespaces is part of the state. *)
Record machine := MkMachine { m_others : Z -> Z * Z; m_core : core; m_worker : worker }.

Section Steps.
  Context (siphash : bytes -> Z).

(** Steps that do not concern the airtime windows. *)
Inductive quiet_step : machine -> machine -> Prop :=
(* Anything outside the queue of the device. *)
| step_device o s w d log : d.(d_tx) = tx s -> quiet_step (MkMachine o s w) (MkMachine o (MkCore d s.(c_spaces) log) w)
(* Other devices take and give back room in the shared namespace table. *)
| step_others o o' s w l : others_ok o' -> spaces_ok o' (tx s) l ->
    quiet_step (MkMachine o s w) (MkMachine o' (set_spaces l s) w)
| step_reserve o s w alloc net locator request count bytes logical cookie reliable pending now :
    0 <= count -> 0 <= bytes ->
    quiet_step (MkMachine o s w)
      (MkMachine o (melodi_queue_reserve alloc s net locator request count bytes logical cookie reliable pending now).1 w)
| step_reservation_cancel o s w id error notify :
    quiet_step (MkMachine o s w) (MkMachine o (melodi_queue_reservation_cancel s id error notify) w)
| step_reservation_pending o s w id :
    quiet_step (MkMachine o s w) (MkMachine o (melodi_queue_reservation_pending s id).1 w)
| step_reservation_seal o s w id data :
    quiet_step (MkMachine o s w) (MkMachine o (melodi_queue_reservation_seal siphash s id data).1 w)
| step_reservation_claim o s w id data :
    quiet_step (MkMachine o s w) (MkMachine o (melodi_queue_reservation_claim siphash s id data).1 w)
| step_send_batch o s w alloc running carrier net frames meta request now : frames_ok frames ->
    quiet_step (MkMachine o s w)
      (MkMachine o (melodi_core_send_batch alloc running carrier net s frames meta request now).1 w)
| step_send_batch_reserved o s w running carrier frames meta request id : frames_ok frames ->
    quiet_step (MkMachine o s w)
      (MkMachine o (melodi_core_send_batch_reserved running carrier s frames meta request id).1 w)
(* One turn of the expiry of reservations: the lock is released between turns. *)
| step_reservation_work o s w now : quiet_step (MkMachine o s w) (MkMachine o (melodi_reservation_work_turn s now).1 w)
| step_state_changed o s w up now : quiet_step (MkMachine o s w) (MkMachine o (state_changed_turn up now s).1 w)
(* The worker; its sections are separated by releases of the lock. *)
| step_select o s up info now :
    quiet_step (MkMachine o s Idle) (MkMachine o (work_select up info now s).1 (work_select up info now s).2)
| step_validate o s up x :
    quiet_step (MkMachine o s (Selected x)) (MkMachine o (work_validate up x s).1 (work_validate up x s).2)
(* The first half of a drain. *)
| step_drain_begin o s w : quiet_step (MkMachine o s w) (MkMachine o (drain_begin s) w)
| step_start o s w now : quiet_step (MkMachine o s w) (MkMachine o (melodi_queue_start now s) w).

Inductive queue_step : machine -> machine -> Prop :=
| step_quiet m m' : quiet_step m m' -> queue_step m m'
(* The worker charges the airtime and hands the frame to the link. *)
| step_charge o s up x charge now :
    queue_step (MkMachine o s (Validated x)) (MkMachine o (work_charge up x charge now s).1 (work_charge up x charge now s).2)
| step_complete o s up x admitted sent now :
    queue_step (MkMachine o s (Charged x admitted))
      (MkMachine o (work_complete up x admitted sent now s).1 (work_complete up x admitted sent now s).2)
(* The second half of a drain, once the worker has been waited for. *)
| step_drain_finish o s error : queue_step (MkMachine o s Idle) (MkMachine o (drain_finish error s) Idle).

Definition machine_safe (m : machine) : Prop := safe m.(m_others) m.(m_core) m.(m_worker).

(** Draining leaves nothing in flight. *)
Lemma drain_finish_safe others error s : safe others s Idle -> safe others (drain_finish error s) Idle.
Proof.
  intros H. destruct (drain_books others error s H) as (G & Eq & Er & _). unfold drain_finish.
  generalize dependent (drain_loops error s). intros s2 G Eq Er.
  destruct (drain_reset_spec others s2 G Eq Er) as (Hled & _).
  apply (safe_sound others s2); [|now apply sound_ledger]. split; [exact G|].
  intros j. unfold flight. rewrite Eq. destruct (replicate MELODI_TX_QUEUE_LIMIT zero_tx_queue_entry !! j) as [e|] eqn:He; [|reflexivity].
  apply lookup_replicate in He as [-> _]. reflexivity.
Qed.

Lemma start_sound others now s : good others s -> sound others s (melodi_queue_start now s).
Proof.
  intros G. apply sound_ledger; [exact G| |reflexivity]. unfold melodi_queue_start. cbn [c_dev set_tx d_tx set_d_tx].
  rewrite schedule_reservation_ledger. cbn [t_queue_count set_t_queue_stopping]. now destruct (negb _).
Qed.

Lemma safe_quiet m m' : machine_safe m -> quiet_step m m' -> machine_safe m'.
Proof.
  intros H Hstep. destruct Hstep; unfold machine_safe in *; cbn [m_others m_core m_worker] in *.
  2:{ destruct H as [[_ A _] F]. split; [|exact F]. constructor; assumption. }
  11:{ exact (work_select_safe _ _ _ _ _ H). }
  11:{ exact (work_validate_safe _ _ _ _ H). }
  all: apply (safe_sound o s _ _ H); pose proof (proj1 H) as G; clear H.
  - apply sound_ledger; [exact G| |reflexivity]. cbn [c_dev]. now rewrite H0.
  - now apply reserve_sound.
  - now apply reservation_cancel_sound.
  - now apply reservation_pending_sound.
  - now apply reservation_seal_sound.
  - now apply reservation_claim_sound.
  - now apply send_batch_sound.
  - now apply send_batch_reserved_sound.
  - now apply reservation_work_turn_sound.
  - now apply state_changed_turn_sound.
  - now apply sound_ledger.
  - now apply start_sound.
Qed.

Lemma safe_step m m' : machine_safe m -> queue_step m m' -> machine_safe m'.
Proof.
  intros H Hstep. destruct Hstep; [now apply (safe_quiet m)| | |].
  - exact (work_charge_safe _ _ _ _ _ _ H).
  - exact (work_complete_safe _ _ _ _ _ _ _ H).
  - exact (drain_finish_safe _ _ _ H).
Qed.

(** A device as it is brought up, on a table that other devices use already. *)
Definition initial (m : machine) : Prop :=
  tx m.(m_core) = melodi_queue_init fresh_tx /\ m.(m_worker) = Idle /\ others_ok m.(m_others) /\
  spaces_ok m.(m_others) fresh_tx m.(m_core).(c_spaces).

Lemma fresh_accounts : accounts fresh_tx.
Proof.
  constructor; try (vm_compute; reflexivity); try (apply Forall_replicate; reflexivity).
  - intros l. unfold holdings. destruct (holdings_empty l fresh_tx eq_refl eq_refl) as [-> ->]. destruct l; vm_compute; discriminate.
  - vm_compute. split; discriminate.
Qed.

Lemma initial_safe m : initial m -> machine_safe m.
Proof.
  destruct m as [o s w]. intros (Ht & Hw & Ho & Hs). unfold machine_safe. cbn [m_others m_core m_worker] in *. subst w. split.
  - constructor; [exact Ho| |].
    + rewrite Ht. apply (accounts_ledger fresh_tx); [reflexivity|apply fresh_accounts].
    + rewrite Ht. now apply (spaces_ok_lists _ fresh_tx).
  - intros j. unfold flight. rewrite Ht. change (t_queue (melodi_queue_init fresh_tx)) with (replicate MELODI_TX_QUEUE_LIMIT zero_tx_queue_entry).
    destruct (replicate MELODI_TX_QUEUE_LIMIT zero_tx_queue_entry !! j) as [e|] eqn:He; [|reflexivity].
    apply lookup_replicate in He as [-> _]. reflexivity.
Qed.

Lemma run_safe m m' : machine_safe m -> rtc queue_step m m' -> machine_safe m'.
Proof. intros H Hrun. induction Hrun as [|m1 m2 m3 Hs _ IH]; [exact H|]. apply IH, (safe_step _ _ H Hs). Qed.

(** C1: the books of the queue.  In every state that a run reaches, whatever is
    interleaved with whatever: the counters of frames, bytes and pending
    reservations are exact, frames and reservations together stay within the limits
    of the device, of every peer, service and binding, and of every network
    namespace (other devices included); free entries are clear.  The frame the
    worker holds is still in the queue, unchanged and marked as in flight, so that
    nothing frees or replaces it under the worker, and no other frame is marked. *)
Theorem queue_run_safe m0 m :
  initial m0 -> rtc queue_step m0 m ->
  let t := tx m.(m_core) in
  accounts t /\ spaces_ok m.(m_others) t m.(m_core).(c_spaces) /\
  (forall x, held m.(m_worker) = Some x -> exists e,
     t.(t_queue) !! x.(x_index) = Some e /\ e.(e_active) = true /\ e.(e_in_flight) = true /\
     e.(e_frame) = x.(x_frame) /\ e.(e_metadata) = x.(x_metadata) /\ e.(e_control) = x.(x_control)) /\
  (forall j e, t.(t_queue) !! j = Some e -> e.(e_active) = true -> e.(e_in_flight) = true ->
     exists x, held m.(m_worker) = Some x /\ x.(x_index) = j).
Proof.
  intros Hi Hrun. pose proof (run_safe _ _ (initial_safe _ Hi) Hrun) as H. cbv zeta.
  split; [apply H|]. split; [apply H|]. split; [intros x Hx; exact (safe_entry _ _ _ x H Hx)|].
  intros j e He Ha Hf. destruct H as [_ F]. specialize (F j). unfold flight in F. rewrite He in F. cbn in F.
  unfold flying in F. rewrite Ha, Hf in F. unfold holding in F. destruct (held (m_worker m)) as [x|]; [|discriminate].
  destruct (decide (j = x_index x)) as [->|]; [now exists x|discriminate].
Qed.

(** C27: a reservation is a promise.  In every state that a run reaches, a batch
    that claims a live reservation (and is valid under the present rules) is refused
    only if the queue is stopping, if it is not the batch that was reserved, or if
    the sequence numbers are used up: never for want of slots or room.  When it is
    queued it takes up exactly what the reservation did, so no limit moves; when it
    is refused nothing changes. *)
Theorem reserved_batch_admitted m0 m frames meta request id i r :
  initial m0 -> rtc queue_step m0 m ->
  frames_ok frames -> frames <> [] -> zlen frames <= MELODI_FRAGMENT_LIMIT -> Forall (fun f => f <> []) frames ->
  id <> 0 -> request.(q_control) = false -> batch_length frames <= MELODI_TX_BYTE_LIMIT ->
  melodi_data_queue_valid_locked m.(m_core).(c_dev) request.(q_destination) request.(q_destination_service)
    request.(q_broadcast) meta request.(q_identity_generation) request.(q_session_epoch) = Ok tt ->
  melodi_reservation_find_locked (tx m.(m_core)) id = Some i -> (tx m.(m_core)).(t_reservations) !! i = Some r ->
  let t := tx m.(m_core) in
  let result := melodi_core_send_batch_reserved true true m.(m_core) frames meta request id in
  result.2 =
    (if t.(t_queue_stopping) then Err ENETDOWN else
     if negb (reservation_matches r (zlen frames) (batch_length frames) meta request) then Err ESTALE else
     if (U64_MAX - zlen frames <? t.(t_queue_sequence)) || (t.(t_group_sequence) =? U64_MAX) then Err EOVERFLOW
     else Ok tt) /\
  if is_ok result.2
  then forall l, holdings l (tx result.1) = holdings l t /\ reserved l (tx result.1) = reserved l t - reservation_share l r
  else result.1 = m.(m_core).
Proof.
  intros Hi Hrun ? ? ? ? ? ? ? ? ? ?. destruct (run_safe _ _ (initial_safe _ Hi) Hrun) as [G _].
  now apply (send_batch_reserved_result m.(m_others) true true m.(m_core) frames meta request id i r G).
Qed.
End Steps.

(** ** A run *)

Definition sample_hash (data : bytes) : Z := sumZ data.
Definition alone (net : Z) : Z * Z := (0, 0).

Definition sample_initial : machine :=
  MkMachine alone (MkCore (set_d_tx (melodi_queue_init fresh_tx) online_device) [] []) Idle.

Lemma sample_initial_ok : initial sample_initial.
Proof.
  split; [reflexivity|]. split; [reflexivity|]. split; [intros net; cbn; lia|].
  constructor; try constructor; cbn; try lia.
Qed.

(** A reservation of two frames, sealed and claimed, and a control frame the
    worker has selected. *)
Definition sample_started : core := Eval vm_compute in melodi_queue_start 10 sample_initial.(m_core).
Definition sample_reserved : core := Eval vm_compute in
  (melodi_queue_reserve true sample_started 1 31 (sample_request 2 7) 2 5 5 77 false 0 20).1.
Definition sample_sealed : core := Eval vm_compute in (melodi_queue_reservation_seal sample_hash sample_reserved 1 [8; 8]).1.
Definition sample_claimed : core := Eval vm_compute in (melodi_queue_reservation_claim sample_hash sample_sealed 1 [8; 8]).1.
Definition sample_sent : core := Eval vm_compute in
  (melodi_core_send true true true 1 sample_claimed [9; 9] sample_meta 30).1.

Lemma step_to h m m1 m' : m1 = m' -> quiet_step h m m1 -> quiet_step h m m'.
Proof. now intros ->. Qed.

Lemma sample_quiet_run : rtc (quiet_step sample_hash) sample_initial (MkMachine alone sample_sent Idle).
Proof.
  apply (rtc_l _ _ (MkMachine alone sample_started Idle)).
  { apply (step_to _ _ (MkMachine alone (melodi_queue_start 10 sample_initial.(m_core)) Idle)); [vm_compute; reflexivity|].
    apply step_start. }
  apply (rtc_l _ _ (MkMachine alone sample_reserved Idle)).
  { apply (step_to _ _ (MkMachine alone
      (melodi_queue_reserve true sample_started 1 31 (sample_request 2 7) 2 5 5 77 false 0 20).1 Idle)); [vm_compute; reflexivity|].
    apply step_reserve; lia. }
  apply (rtc_l _ _ (MkMachine alone sample_sealed Idle)).
  { apply (step_to _ _ (MkMachine alone (melodi_queue_reservation_seal sample_hash sample_reserved 1 [8; 8]).1 Idle));
      [vm_compute; reflexivity|]. apply step_reservation_seal. }
  apply (rtc_l _ _ (MkMachine alone sample_claimed Idle)).
  { apply (step_to _ _ (MkMachine alone (melodi_queue_reservation_claim sample_hash sample_sealed 1 [8; 8]).1 Idle));
      [vm_compute; reflexivity|]. apply step_reservation_claim. }
  apply rtc_once.
  apply (step_to _ _ (MkMachine alone
    (melodi_core_send_batch true true true 1 sample_claimed [[9; 9]] sample_meta control_request 30).1 Idle)); [vm_compute; reflexivity|].
  apply step_send_batch. apply list.Forall_singleton. vm_compute. discriminate.
Qed.

Lemma sample_run : rtc (queue_step sample_hash) sample_initial (MkMachine alone sample_sent Idle).
Proof. eapply rtc_subrel; [|exact sample_quiet_run]. intros m m'. apply step_quiet. Qed.

Definition sample_selected : machine :=
  MkMachine alone (work_select true None 40 sample_sent).1 (work_select true None 40 sample_sent).2.

Lemma queue_run_safe_witness :
  accounts (tx sample_selected.(m_core)) /\ option_map x_frame (held sample_selected.(m_worker)) = Some [9; 9].
Proof.
  split; [|vm_compute; reflexivity].
  apply (queue_run_safe sample_hash sample_initial sample_selected sample_initial_ok).
  eapply rtc_r; [exact sample_run|]. unfold sample_selected. apply step_quiet, step_select.
Defined.

Definition sample_promise : melodi_tx_reservation := default zero_tx_reservation ((tx sample_sent).(t_reservations) !! 0%nat).

Lemma reserved_batch_admitted_witness :
  (melodi_core_send_batch_reserved true true sample_sent [[1; 2; 3]; [4; 5]] sample_meta (sample_request 2 7) 1).2 = Ok tt.
Proof.
  assert (frames_ok [[1; 2; 3]; [4; 5]]) as H1 by (repeat constructor; vm_compute; discriminate).
  assert (Forall (fun f : bytes => f <> []) [[1; 2; 3]; [4; 5]]) as H2 by (repeat constructor; discriminate).
  assert (zlen [[1; 2; 3]; [4; 5]] <= MELODI_FRAGMENT_LIMIT) as H3 by (vm_compute; discriminate).
  assert (batch_length [[1; 2; 3]; [4; 5]] <= MELODI_TX_BYTE_LIMIT) as H4 by (vm_compute; discriminate).
  assert (melodi_data_queue_valid_locked sample_sent.(c_dev) (q_destination (sample_request 2 7)) 20 false sample_meta 1 5 = Ok tt)
    as H5 by (vm_compute; reflexivity).
  assert (melodi_reservation_find_locked (tx sample_sent) 1 = Some 0%nat) as H6 by (vm_compute; reflexivity).
  assert ((tx sample_sent).(t_reservations) !! 0%nat = Some sample_promise) as H7 by (vm_compute; reflexivity).
  pose proof (reserved_batch_admitted sample_hash sample_initial (MkMachine alone sample_sent Idle) [[1; 2; 3]; [4; 5]]
    sample_meta (sample_request 2 7) 1 0 sample_promise sample_initial_ok sample_run H1 ltac:(discriminate) H3 H2
    ltac:(discriminate) eq_refl H4 H5 H6 H7) as [H _].
  cbn [m_core] in H. etransitivity; [exact H|]. vm_compute. reflexivity.
Defined.

(** ** The peer of the run is blocked, and the device paused *)

Definition sample_blocked : core := Eval vm_compute in
  MkCore (melodi_policy_set_peer (fun _ => 0) sample_sent.(c_dev) (MkNodeId (1 :: replicate 32 5)) MELODI_PEER_BLOCKED).1.1
    sample_sent.(c_spaces) sample_sent.(c_log).

Lemma sample_sent_safe : safe alone sample_sent Idle.
Proof. exact (run_safe _ _ _ (initial_safe _ sample_initial_ok) sample_run). Qed.

Lemma sample_blocked_safe : safe alone sample_blocked Idle.
Proof.
  assert (machine_safe (MkMachine alone sample_blocked Idle)) as H; [|exact H].
  apply (safe_step sample_hash (MkMachine alone sample_sent Idle)); [exact sample_sent_safe|].
  apply step_quiet, (step_to _ _ (MkMachine alone (MkCore sample_blocked.(c_dev) sample_sent.(c_spaces) sample_blocked.(c_log)) Idle));
    [vm_compute; reflexivity|]. apply step_device. vm_compute. reflexivity.
Qed.

Lemma state_changed_settles_witness :
  (melodi_queue_state_changed true (replicate 257 50) sample_blocked).2 = false /\
  existsb v_active (tx sample_blocked).(t_reservations) = true /\
  existsb v_active (tx (melodi_queue_state_changed true (replicate 257 50) sample_blocked).1).(t_reservations) = false.
Proof.
  split; [|split; vm_compute; reflexivity].
  apply (state_changed_settles alone true (replicate 257 50) sample_blocked Idle sample_blocked_safe). vm_compute. reflexivity.
Defined.

Lemma queue_drain_empties_witness :
  (tx (drain_finish ENETDOWN sample_sent)).(t_queue) = fresh_tx.(t_queue) /\
  (drain_finish ENETDOWN sample_sent).(c_log) = sample_sent.(c_log) ++ [DeliveryError 7 3 10 77 ENETDOWN; Released [9; 9]].
Proof.
  split; [apply (queue_drain_empties alone ENETDOWN sample_sent sample_sent_safe)|].
  vm_compute. reflexivity.
Defined.
