(* ===== verification/QueueAir.v ===== *)
(** * The transmit queue: airtime

    The worker charges every data and control frame to the windows of Airtime before
    it goes to the link, and keeps the charge only when the link took the frame.
    What that promises is the duty cycle, over whole runs of the queue. *)
From stdpp Require Import relations.
From S2P Require Import Prelude Buffer Uapi Airtime Slots Device Peers Policy Queue QueueInv QueueOps QueueSched QueueRun QueueDrain QueueSteps.

(** ** What the rest of the queue leaves alone *)

Definition air (t : tx_state) :=
  (t.(t_airtime), t.(t_broadcast_airtime), t.(t_airtime_after), t.(t_broadcast_after),
   t.(t_airtime_budget_us), t.(t_broadcast_budget_us)).

Lemma air_remove_entry s i : air (tx (melodi_queue_remove_locked s i).1) = air (tx s).
Proof.
  destruct (t_queue (tx s) !! i) as [e|] eqn:He; [|unfold melodi_queue_remove_locked; now rewrite He].
  now destruct (remove_entry_shape s i e He) as (pe & fl & ->).
Qed.

Lemma air_remove_reservation s i : air (tx (melodi_reservation_remove_locked s i)) = air (tx s).
Proof.
  destruct (t_reservations (tx s) !! i) as [r|] eqn:Hr; [|unfold melodi_reservation_remove_locked; now rewrite Hr].
  destruct (remove_reservation_shape s i r Hr) as (pe & fl & ->). unfold reservation_removed. now destruct (v_pending_reserved r).
Qed.

Lemma air_schedule now t : air (melodi_reservation_schedule_locked now t) = air t.
Proof. unfold melodi_reservation_schedule_locked. now destruct (_ =? _). Qed.

Lemma air_wake up s : air (tx (wake_if_low up s)) = air (tx s).
Proof. unfold wake_if_low. now destruct (_ && _). Qed.

Lemma air_notify n s : air (tx (melodi_queue_notify n s)) = air (tx s).
Proof. now rewrite (proj1 (notify_tx n s)). Qed.

Lemma air_schedule_if (b : bool) d s : air (tx (if b then schedule_work d s else s)) = air (tx s).
Proof. now destruct b. Qed.

Lemma air_fold {A} (f : core -> A -> core) l s : (forall s a, air (tx (f s a)) = air (tx s)) -> air (tx (fold_left f l s)) = air (tx s).
Proof. intros H. revert s. induction l as [|a l IH]; intros s; cbn [fold_left]; [reflexivity|]. now rewrite IH. Qed.

Lemma air_cancel_entry g own rep s i : air (tx (cancel_entry g own rep s i)) = air (tx s).
Proof.
  unfold cancel_entry. destruct (t_queue (tx s) !! i) as [e|]; [|reflexivity]. destruct (_ || _); [reflexivity|].
  destruct (_ && _); [reflexivity|]. pose proof (air_remove_entry s i) as H.
  destruct (melodi_queue_remove_locked s i) as [s1 f]. exact H.
Qed.

Lemma air_cancel_group s g own error n : air (tx (melodi_queue_cancel_group_locked s g own error n).1.1) = air (tx s).
Proof.
  unfold melodi_queue_cancel_group_locked. destruct (filter _ _) as [|rep ms]; [reflexivity|]. cbn [fst].
  rewrite air_fold by (intros; apply air_cancel_entry).
  destruct (e_reliable rep); [now rewrite (proj1 (cancel_pending_tx _ _ _ _))|reflexivity].
Qed.

Lemma air_expire now s n : air (tx (melodi_queue_expire_locked now s n).1) = air (tx s).
Proof.
  unfold melodi_queue_expire_locked. generalize queue_indices as l. intros l. revert s n.
  induction l as [|i l IH]; intros s n; cbn [fold_left]; [reflexivity|].
  assert (air (tx (expire_entry now (s, n) i).1) = air (tx s)) as H.
  { unfold expire_entry. destruct (t_queue (tx s) !! i) as [e|]; [|reflexivity]. destruct (_ && _); [|reflexivity].
    pose proof (air_remove_entry s i) as H. destruct (melodi_queue_remove_locked s i) as [s1 f]. exact H. }
  destruct (expire_entry now (s, n) i) as [s1 n1]. rewrite IH. exact H.
Qed.

Lemma air_turns pe fl t : air (with_turns pe fl t) = air t.
Proof. reflexivity. Qed.

Lemma capacity_tx alloc s net locator request count bytes :
  tx (melodi_queue_capacity_locked alloc s net locator request count bytes).1.1 = tx s.
Proof.
  unfold melodi_queue_capacity_locked. destruct (melodi_namespace_queue_get _ _ _) as [[l k]|]; [|reflexivity].
  repeat match goal with |- context [if ?b then (set_spaces l s, _, _) else _] => destruct b; [reflexivity|] end. reflexivity.
Qed.

Lemma air_reserve_fail peer flow ns s : air (tx (reserve_fail peer flow ns s)) = air (tx s).
Proof.
  unfold reserve_fail, release_flow, release_peer. destruct ns, peer, flow; cbn [c_dev set_tx set_spaces d_tx set_d_tx];
    repeat match goal with |- context [if ?b then _ else _] => destruct b end; reflexivity.
Qed.

Ltac air_check := match goal with |- air (tx (if ?b then _ else _).1) = _ => destruct b; [reflexivity|] end.

Lemma air_reserve alloc s net locator request count bytes logical cookie reliable active now :
  air (tx (melodi_queue_reserve alloc s net locator request count bytes logical cookie reliable active now).1) = air (tx s).
Proof.
  unfold melodi_queue_reserve. do 4 air_check. destruct (find_index _ _) as [index|]; [|reflexivity].
  pose proof (capacity_tx alloc s net locator request count bytes) as E.
  destruct (melodi_queue_capacity_locked alloc s net locator request count bytes) as [[s1 ns] capacity]. cbn [fst] in E.
  rewrite <- E. destruct capacity as [?|error], ns as [i|]; try reflexivity.
  destruct (melodi_queue_peer_locked (tx s1) locator) as [peer|]; [|apply air_reserve_fail].
  destruct (melodi_queue_flow_locked (tx s1) locator request) as [flow|]; [|apply air_reserve_fail].
  destruct (_ =? U64_MAX); [apply air_reserve_fail|]. cbn [fst c_dev set_tx set_spaces d_tx set_d_tx].
  destruct (create_turns_shape peer.2 peer.1 flow.2 flow.1 locator request (tx s1)) as (pe & fl & ->).
  rewrite air_schedule. now destruct reliable.
Qed.

Lemma air_cancel_reservation s id error notify : air (tx (melodi_queue_reservation_cancel s id error notify)) = air (tx s).
Proof.
  unfold melodi_queue_reservation_cancel. destruct (melodi_reservation_find_locked (tx s) id) as [i|]; [|reflexivity].
  destruct (t_reservations (tx s) !! i) as [r|]; [|reflexivity]. destruct notify; apply air_remove_reservation.
Qed.

Lemma air_with_reservation s id guard f g : (forall t, air (g t) = air t) -> air (tx (with_reservation s id guard f g).1) = air (tx s).
Proof.
  intros Hg. unfold with_reservation. destruct (_ ≫= _) as [[i r]|]; [|reflexivity].
  destruct (guard r); [|reflexivity]. cbn [fst c_dev set_tx d_tx set_d_tx]. now rewrite Hg.
Qed.

Lemma air_fill net meta gid expires request pi fi control l t :
  air (fold_left (fill_tx net meta gid expires request pi fi control) l t) = air t.
Proof. revert t. induction l as [|[i f] l IH]; intros t; [reflexivity|]. cbn [fold_left]. now rewrite IH. Qed.

Lemma air_batch_done s : air (tx (batch_done s)) = air (tx s).
Proof. unfold batch_done. cbn [c_dev set_tx d_tx set_d_tx]. now destruct (_ <=? _). Qed.

Lemma air_send_batch alloc running carrier net s frames meta request now :
  air (tx (melodi_core_send_batch alloc running carrier net s frames meta request now).1) = air (tx s).
Proof.
  unfold melodi_core_send_batch. do 2 air_check. destruct (batch_bytes frames 0) as [bytes|]; [|reflexivity]. air_check.
  destruct (if q_control request then Ok tt else _); [|reflexivity]. air_check.
  pose proof (capacity_tx alloc s net (tm_destination_locator meta) request (zlen frames) bytes) as E.
  destruct (melodi_queue_capacity_locked _ _ _ _ _ _ _) as [[s1 ns] capacity]. cbn [fst] in E. rewrite <- E.
  destruct capacity as [?|error], ns as [i|]; try reflexivity. do 2 air_check.
  destruct (if q_control request then Ok ((0%nat, false), (0%nat, false)) else _) as [[peer flow]|]; [|reflexivity].
  cbn [fst]. rewrite air_batch_done, fill_loop_tx, air_fill.
  destruct (create_turns_shape peer.2 peer.1 flow.2 flow.1 (tm_destination_locator meta) request (tx s1)) as (pe & fl & ->).
  reflexivity.
Qed.

Lemma air_send_batch_reserved running carrier s frames meta request id :
  air (tx (melodi_core_send_batch_reserved running carrier s frames meta request id).1) = air (tx s).
Proof.
  unfold melodi_core_send_batch_reserved. do 2 air_check. destruct (batch_bytes frames 0) as [bytes|]; [|reflexivity].
  destruct (melodi_data_queue_valid_locked _ _ _ _ _ _ _); [|reflexivity].
  destruct (_ ≫= _) as [[i r]|]; [|reflexivity]. do 4 air_check. cbn [fst]. rewrite air_batch_done.
  match goal with |- air (tx (set_tx _ ?s3)) = _ => change (air (tx s3) = air (tx s)) end.
  now rewrite fill_loop_tx, air_fill.
Qed.

Lemma air_work_turn s now : air (tx (melodi_reservation_work_turn s now).1) = air (tx s).
Proof.
  unfold melodi_reservation_work_turn. destruct (find_index _ _) as [i|]; cbn [fst]; [|apply air_schedule].
  destruct (t_reservations (tx s) !! i) as [r|]; [|reflexivity]. apply air_remove_reservation.
Qed.

Lemma air_changed_tail up now s : air (tx (changed_tail up now s)) = air (tx s).
Proof.
  unfold changed_tail. cbn [c_dev set_tx d_tx set_d_tx]. rewrite air_schedule, air_schedule_if. apply air_wake.
Qed.

Lemma air_state_changed_turn up now s : air (tx (state_changed_turn up now s).1) = air (tx s).
Proof.
  unfold state_changed_turn. destruct (find_index _ _ ≫= _) as [[i r]|].
  - cbn [fst]. rewrite air_notify, air_changed_tail.
    match goal with |- air (tx (set_tx _ ?x)) = _ => change (air (tx x) = air (tx s)) end. rewrite air_remove_reservation.
    destruct (v_reliable r); [now rewrite (proj1 (cancel_pending_tx _ _ _ _))|reflexivity].
  - destruct (find_index _ _ ≫= _) as [e|]; [|reflexivity].
    set (error := match entry_valid (c_dev s) e with Ok _ => _ | Err _ => _ end).
    pose proof (air_cancel_group s e.(e_group_id) None error zero_notice) as H.
    destruct (melodi_queue_cancel_group_locked _ _ _ _ _) as [[s1 n] changed]. cbn [fst] in *. rewrite air_notify, <- H.
    destruct changed; [apply air_changed_tail|reflexivity].
Qed.

Lemma air_queue_data t now : air (melodi_queue_data t now).1 = air t.
Proof.
  unfold melodi_queue_data, melodi_queue_priority. destruct (priority_loop _ _ _ _) as [[p slot]|]; [|reflexivity].
  destruct (choose _ _ _) as [[[i pi] fi]|]; [|reflexivity]. unfold restart_turns. now destruct (_ =? _).
Qed.

Lemma air_select up info now s : air (tx (work_select up info now s).1) = air (tx s).
Proof.
  unfold work_select. destruct (melodi_queue_pacing info) as [busy guard]. destruct (t_queue_stopping (tx s)); [reflexivity|].
  pose proof (air_expire now s zero_notice) as HE. destruct (melodi_queue_expire_locked now s zero_notice) as [s1 expired].
  cbn [fst] in HE. rewrite <- HE. set (s2 := if busy then _ else s1).
  assert (air (tx s2) = air (tx s1)) as E2 by (unfold s2; now destruct busy). rewrite <- E2.
  destruct (_ && (busy || _)); [cbn [fst]; now rewrite air_notify|].
  rewrite <- (air_wake up s2). set (s3 := wake_if_low up s2).
  change (match melodi_queue_oldest_control (tx s3) now with Some c => _ | None => _ end) with (work_choice now s3).
  assert (air (tx (work_choice now s3).1) = air (tx s3)) as E4.
  { unfold work_choice. pose proof (air_queue_data (tx s3) now) as E.
    destruct (melodi_queue_data (tx s3) now) as [t data]. cbn [fst] in E.
    destruct (melodi_queue_oldest_control (tx s3) now); [destruct (_ <? _); [reflexivity|]|]; exact E. }
  destruct (work_choice now s3) as [s4 selected]. cbn [fst] in E4. rewrite <- E4.
  destruct (selected ≫= fun i => pair i <$> (tx s4).(t_queue) !! i) as [[i e]|]; cbn [fst]; rewrite air_notify; [reflexivity|].
  apply air_schedule_if.
Qed.

Lemma air_validate up x s : air (tx (work_validate up x s).1) = air (tx s).
Proof.
  unfold work_validate. destruct (x_control x); [reflexivity|]. destruct (t_queue (tx s) !! x_index x) as [e|]; [|reflexivity].
  destruct (if e_cancelled e then _ else _) as [?|error]; [reflexivity|].
  pose proof (air_cancel_group s (e_group_id e) (Some (x_index x)) error zero_notice) as H.
  destruct (melodi_queue_cancel_group_locked _ _ _ _ _) as [[s1 n] changed]. cbn [fst] in *.
  now rewrite air_notify, air_schedule_if, air_wake.
Qed.

(** A step that does not concern the windows. *)
Lemma air_quiet siphash m m' : quiet_step siphash m m' ->
  air (tx m'.(m_core)) = air (tx m.(m_core)) /\
  match m.(m_worker) with Validated _ | Charged _ _ => m'.(m_worker) = m.(m_worker) | _ => True end.
Proof.
  intros H. destruct H; cbn [m_core m_worker]; (split; [|try reflexivity; try exact I; destruct w; (reflexivity || exact I)]).
  - cbn [c_dev]. now rewrite H.
  - reflexivity.
  - apply air_reserve.
  - apply air_cancel_reservation.
  - now apply air_with_reservation.
  - unfold melodi_queue_reservation_seal. destruct (_ =? 0); [reflexivity|now apply air_with_reservation].
  - unfold melodi_queue_reservation_claim. destruct (_ =? 0); [reflexivity|now apply air_with_reservation].
  - apply air_send_batch.
  - apply air_send_batch_reserved.
  - apply air_work_turn.
  - apply air_state_changed_turn.
  - apply air_select.
  - apply air_validate.
  - reflexivity.
  - unfold melodi_queue_start. cbn [c_dev set_tx d_tx set_d_tx]. rewrite air_schedule. now destruct (negb _).
Qed.

(** ** Metering

    A transmission: when it was charged, for how long, and whether it went to
    everybody. *)
Definition transmission : Type := Z * Z * bool.

(** What the link took, as the windows see it. *)
Definition total_log (log : list transmission) : airtime_log := map fst log.
Definition broadcast_log (log : list transmission) : airtime_log := map fst (filter (fun e => e.2 = true) log).

Section Meter.
  Context (meters : Z -> melodi_airtime_window -> airtime_log -> Z -> Prop) `{!AirtimeGate meters}.
  Context (budget broadcast_budget : Z).

Record metered (t : tx_state) (log : list transmission) (now : Z) : Prop := {
  mt_total : meters budget t.(t_airtime) (total_log log) now;
  mt_broadcast : meters broadcast_budget t.(t_broadcast_airtime) (broadcast_log log) now;
  mt_budgets : (t.(t_airtime_budget_us) = budget /\ t.(t_broadcast_budget_us) = broadcast_budget) \/ log = [];
}.

(** The charge the worker holds for the frame it has handed to the link. *)
Definition pending_charge (t : tx_state) (log : list transmission) (now : Z) (x : selection) (admitted : bool)
    (held : option transmission) : Prop :=
  exists d, held = Some (now, d, x.(x_broadcast)) /\ admitted = negb (d =? 0) /\
    (d <> 0 -> (t.(t_airtime_budget_us) = budget /\ t.(t_broadcast_budget_us) = broadcast_budget) /\
               meters budget t.(t_airtime_after) ((now, d) :: total_log log) now /\
               meters broadcast_budget t.(t_broadcast_after)
                 (if x.(x_broadcast) then (now, d) :: broadcast_log log else broadcast_log log) now).

Lemma metered_air t t' log now : air t = air t' -> metered t log now -> metered t' log now.
Proof. intros E [H1 H2 H3]. unfold air in E. injection E as E1 E2 E3 E4 E5 E6. constructor; rewrite <- ?E1, <- ?E2, <- ?E5, <- ?E6; assumption. Qed.

Lemma pending_air t t' log now x a held : air t = air t' -> pending_charge t log now x a held -> pending_charge t' log now x a held.
Proof.
  intros E (d & H1 & H2 & H3). exists d. split; [exact H1|]. split; [exact H2|]. unfold air in E. injection E as E1 E2 E3 E4 E5 E6.
  now rewrite <- E3, <- E4, <- E5, <- E6.
Qed.

Lemma metered_later t log now later : metered t log now -> now <= later -> metered t log later.
Proof. intros [H1 H2 H3] Hle. constructor; [exact (gate_later _ _ _ _ _ H1 Hle)|exact (gate_later _ _ _ _ _ H2 Hle)|exact H3]. Qed.

(** The charge of one frame. *)
Lemma airtime_locked_spec t log last now d broadcast :
  metered t log last -> last <= now -> u64 now -> 0 <= d -> 0 <= budget -> 0 <= broadcast_budget ->
  let r := melodi_queue_airtime_locked t (MkCharge d budget broadcast_budget) broadcast now in
  metered r.1.1 log now /\
  (is_ok r.2 = true -> d <> 0 ->
     (r.1.1.(t_airtime_budget_us) = budget /\ r.1.1.(t_broadcast_budget_us) = broadcast_budget) /\
     meters budget r.1.1.(t_airtime_after) ((now, d) :: total_log log) now /\
     meters broadcast_budget r.1.1.(t_broadcast_after)
       (if broadcast then (now, d) :: broadcast_log log else broadcast_log log) now).
Proof.
  intros M Hle Hnow Hd Hb Hbb. cbv zeta. unfold melodi_queue_airtime_locked. cbn [duration_us budget_us broadcast_budget_us].
  destruct (Z.eqb_spec d 0) as [E|E].
  { cbn [fst snd]. split; [|congruence]. apply (metered_later _ _ last); [|exact Hle]. destruct M. now constructor. }
  set (t1 := if _ || _ then _ else _).
  assert (metered t1 log last /\ t1.(t_airtime_after) = t1.(t_airtime) /\ t1.(t_broadcast_after) = t1.(t_broadcast_airtime) /\
          t1.(t_airtime_budget_us) = budget /\ t1.(t_broadcast_budget_us) = broadcast_budget)
    as (M1 & A1 & A2 & B1 & B2).
  { unfold t1. cbn [t_airtime_budget_us t_broadcast_budget_us set_t_broadcast_after set_t_airtime_after].
    destruct (Z.eqb_spec (t_airtime_budget_us t) budget) as [E1|E1],
      (Z.eqb_spec (t_broadcast_budget_us t) broadcast_budget) as [E2|E2]; cbn [negb orb].
    { split; [destruct M; now constructor|]. repeat split; assumption. }
    all: destruct (mt_budgets _ _ _ M) as [[? ?]| ->]; [congruence|];
      (split; [constructor; cbn; [now apply gate_reset|now apply gate_reset|now left]|repeat split]). }
  clearbody t1. rewrite A1.
  pose proof (gate_admit budget (t_airtime t1) (total_log log) last now d (mt_total _ _ _ M1) Hle Hnow Hd) as Gt.
  destruct (melodi_airtime_admit (t_airtime t1) now budget d 0) as [[after w] rt].
  pose proof (gate_admit broadcast_budget (t_broadcast_airtime t1) (broadcast_log log) last now d
    (mt_broadcast _ _ _ M1) Hle Hnow Hd) as Gb.
  assert (meters broadcast_budget (t_broadcast_airtime t1) (broadcast_log log) now) as Gn
    by exact (gate_later _ _ _ _ _ (mt_broadcast _ _ _ M1) Hle).
  cbn [t_broadcast_after set_t_airtime_after] in *. rewrite ?A2.
  set (pb := if broadcast then _ else _).
  assert (is_ok pb.2 = true -> meters broadcast_budget pb.1.1
    (if broadcast then (now, d) :: broadcast_log log else broadcast_log log) now) as Gpb.
  { unfold pb. destruct broadcast; [exact Gb|now intros _]. }
  clearbody pb. destruct pb as [[bafter bw] rb]. cbn [fst snd] in *.
  assert (metered (set_t_broadcast_after bafter (set_t_airtime_after after t1)) log now) as M2.
  { apply (metered_later _ _ last); [|exact Hle]. destruct M1. now constructor. }
  assert (is_ok rt = true -> is_ok rb = true ->
    (t_airtime_budget_us (set_t_broadcast_after bafter (set_t_airtime_after after t1)) = budget /\
     t_broadcast_budget_us (set_t_broadcast_after bafter (set_t_airtime_after after t1)) = broadcast_budget) /\
    meters budget after ((now, d) :: total_log log) now /\
    meters broadcast_budget bafter
      (if broadcast then (now, d) :: broadcast_log log else broadcast_log log) now) as Hgo by auto.
  destruct rt as [u|er], rb as [u'|er']; cbn [fst snd is_ok] in *.
  - split; [exact M2|]. intros _ _. auto.
  - split; [now destruct er'|]. now destruct er'.
  - split; [now destruct er|]. now destruct er.
  - split; [now destruct er, er'|]. now destruct er, er'.
Qed.
(** Removing an entry and what follows a removal. *)
Lemma air_removed_tail (up : bool) s i n (b : core -> bool) (g : core -> bytes -> core) :
  (forall s f, air (tx (g s f)) = air (tx s)) ->
  let '(s1, f) := melodi_queue_remove_locked s i in
  let s2 := wake_if_low up (g s1 f) in
  air (tx (melodi_queue_notify n (if b s2 then schedule_work 1 s2 else s2))) = air (tx s).
Proof.
  intros Hg. pose proof (air_remove_entry s i) as H. destruct (melodi_queue_remove_locked s i) as [s1 f]. cbn [fst] in H.
  cbv zeta. now rewrite air_notify, air_schedule_if, air_wake, Hg.
Qed.

(** The windows after the section of [melodi_queue_work] that charges: those before
    it, or those [melodi_queue_airtime_locked] left. *)
Lemma charge_air up x charge now s :
  let r := work_charge up x charge now s in
  (air (tx r.1) = air (tx s) /\ r.2 = Idle) \/
  exists c, charge = Ok c /\
    let a := melodi_queue_airtime_locked (tx s) c x.(x_broadcast) now in
    air (tx r.1) = air a.1.1 /\
    (r.2 = Idle \/ is_ok a.2 = true /\ r.2 = Charged x (negb (c.(duration_us) =? 0))).
Proof.
  cbv zeta. unfold work_charge. destruct (t_queue_stopping (tx s)).
  { left. pose proof (air_remove_entry s (x_index x)) as H. destruct (melodi_queue_remove_locked s (x_index x)). now split. }
  destruct (t_queue (tx s) !! x_index x) as [e|]; [|left; now split].
  assert (forall s er n,
    let '(s1, f) := melodi_queue_remove_locked s (x_index x) in
    let s1 := drop_frame f s1 in
    let s1 := if bool_decide (er = ETIMEDOUT)
              then set_tx (set_t_queue_expired (wrap 64 ((tx s1).(t_queue_expired) + 1)) (tx s1)) s1 else s1 in
    let s1 := wake_if_low up s1 in
    let s1 := if negb ((tx s1).(t_queue_count) =? 0) then schedule_work 1 s1 else s1 in
    air (tx (melodi_queue_notify n s1)) = air (tx s)) as Hfail.
  { intros s0 er n. apply (air_removed_tail up s0 (x_index x) n (fun s => negb ((tx s).(t_queue_count) =? 0))
      (fun s1 f => if bool_decide (er = ETIMEDOUT) then
         set_tx (set_t_queue_expired (wrap 64 ((tx (drop_frame f s1)).(t_queue_expired) + 1)) (tx (drop_frame f s1))) (drop_frame f s1)
         else drop_frame f s1)). intros. now destruct (bool_decide _). }
  destruct (e_cancelled e); [|destruct (_ <=? now); [|destruct charge as [c|er]]].
  1,2,4: left; rewrite andb_false_r;
    match goal with |- context [melodi_queue_notice_entry zero_notice ?e0 ?er] =>
      specialize (Hfail s er (melodi_queue_notice_entry zero_notice e0 er)) end;
    destruct (melodi_queue_remove_locked s (x_index x)); split; [exact Hfail|reflexivity].
  right. exists c. split; [reflexivity|]. destruct (melodi_queue_airtime_locked (tx s) c (x_broadcast x) now) as [[t wait] [u|er]].
  - split; [reflexivity|]. right. now split.
  - cbn [fst snd is_ok]. destruct (_ && true); [now split; [|left]|].
    specialize (Hfail (set_tx t s) er (melodi_queue_notice_entry zero_notice e er)).
    destruct (melodi_queue_remove_locked (set_tx t s) (x_index x)). split; [exact Hfail|now left].
Qed.

(** The windows after the last section: the charge is kept when the link took the
    frame. *)
Definition kept (admitted : bool) (sent : result unit) : bool := admitted && is_ok sent.

Lemma complete_air up x admitted sent now s e :
  (tx s).(t_queue) !! x.(x_index) = Some e ->
  let r := work_complete up x admitted sent now s in
  let t := tx s in
  r.2 = Idle /\
  air (tx r.1) = if kept admitted sent
                 then air (set_t_broadcast_airtime t.(t_broadcast_after) (set_t_airtime t.(t_airtime_after) t)) else air t.
Proof.
  intros He. cbv zeta. unfold work_complete, kept.
  assert (forall s0 : core, tx s0 = tx s -> t_queue (tx s0) !! x_index x = Some e) as Hq by now intros s0 ->.
  destruct sent as [[]|er].
  - cbn [is_ok]. rewrite andb_true_r.
    match goal with |- context [t_queue (tx ?s0) !! _] => rewrite (Hq s0) by reflexivity; set (s1 := s0) end.
    pose proof (air_remove_entry s1 (x_index x)) as H. change (air (tx s1)) with (air (tx s)) in H.
    destruct (melodi_queue_remove_locked s1 (x_index x)) as [s2 f]. cbn [fst] in H. unfold air in H.
    injection H as E1 E2 E3 E4 E5 E6.
    destruct admitted; cbn [fst snd]; (split; [reflexivity|]); rewrite air_notify, air_schedule_if, air_wake;
      destruct (_ && _); unfold air; cbn [c_dev set_tx d_tx set_d_tx]; cbn; congruence.
  - cbn [is_ok]. rewrite andb_false_r.
    match goal with |- context [t_queue (tx ?s0) !! _] => rewrite (Hq s0) by reflexivity; set (s1 := s0) end.
    destruct (_ && _ && _); cbn [fst snd].
    + split; [reflexivity|]. now rewrite air_notify, air_schedule_if.
    + pose proof (air_remove_entry s1 (x_index x)) as H. change (air (tx s1)) with (air (tx s)) in H.
      destruct (melodi_queue_remove_locked s1 (x_index x)) as [s2 f]. cbn [fst] in H. cbn [fst snd].
      split; [reflexivity|]. now rewrite air_notify, air_schedule_if, air_wake.
Qed.

(** A run of the queue that records the transmissions the link took since the windows
    were last reset (newest first), the charge in the worker's hands, and the time of
    the last charge.  The link reports one pair of budgets, and readings of the clock
    do not run backwards. *)
Inductive metered_run (siphash : bytes -> Z) :
    machine -> list transmission -> option transmission -> Z -> Prop :=
| metered_start m : initial m -> metered_run siphash m [] None 0
| metered_quiet m m' log held last :
    metered_run siphash m log held last -> quiet_step siphash m m' -> metered_run siphash m' log held last
| metered_charge o s x log held last up d now :
    metered_run siphash (MkMachine o s (Validated x)) log held last -> last <= now -> u64 now -> 0 <= d ->
    let r := work_charge up x (Ok (MkCharge d budget broadcast_budget)) now s in
    metered_run siphash (MkMachine o r.1 r.2) log (Some (now, d, x.(x_broadcast))) now
| metered_charge_failed o s x log held last up error now :
    metered_run siphash (MkMachine o s (Validated x)) log held last ->
    let r := work_charge up x (Err error) now s in metered_run siphash (MkMachine o r.1 r.2) log held last
| metered_complete o s x admitted log held last up sent now :
    metered_run siphash (MkMachine o s (Charged x admitted)) log held last ->
    let r := work_complete up x admitted sent now s in
    metered_run siphash (MkMachine o r.1 r.2) (if kept admitted sent then from_option (fun e => e :: log) log held else log)
      None last
| metered_drain o s log held last error :
    metered_run siphash (MkMachine o s Idle) log held last ->
    metered_run siphash (MkMachine o (drain_finish error s) Idle) [] None last.

Definition charge_held (t : tx_state) (log : list transmission) (last : Z) (held : option transmission) (w : worker) : Prop :=
  match w with Charged x admitted => pending_charge t log last x admitted held | _ => True end.

Lemma metered_reset t last : 0 <= budget -> 0 <= broadcast_budget ->
  t.(t_airtime) = airtime_zero -> t.(t_broadcast_airtime) = airtime_zero -> metered t [] last.
Proof. intros ? ? E1 E2. constructor; [rewrite E1| rewrite E2|now right]; now apply (gate_reset _ airtime_zero). Qed.

Lemma worker_idle_quiet siphash m m' t log last held : quiet_step siphash m m' ->
  charge_held t log last held m.(m_worker) -> charge_held t log last held m'.(m_worker).
Proof.
  intros H. destruct H; cbn [m_worker]; try (intros Hh; exact Hh); intros _; unfold charge_held.
  - unfold work_select. destruct (melodi_queue_pacing info) as [busy guard]. destruct (t_queue_stopping (tx s)); [exact I|].
    destruct (melodi_queue_expire_locked now s zero_notice) as [s1 n]. destruct (_ && (busy || _)); [exact I|].
    match goal with |- context [match ?c with (_, _) => _ end] => destruct c as [s4 sel] end.
    destruct (sel ≫= _) as [[i e]|]; exact I.
  - unfold work_validate. destruct (x_control x); [exact I|]. destruct (t_queue (tx s) !! x_index x) as [e|]; [|exact I].
    destruct (if e_cancelled e then _ else _); [exact I|].
    destruct (melodi_queue_cancel_group_locked _ _ _ _ _) as [[s1 n] c]. exact I.
Qed.

Lemma charge_metered up x d now s log last :
  metered (tx s) log last -> last <= now -> u64 now -> 0 <= d -> 0 <= budget -> 0 <= broadcast_budget ->
  let r := work_charge up x (Ok (MkCharge d budget broadcast_budget)) now s in
  metered (tx r.1) log now /\ charge_held (tx r.1) log now (Some (now, d, x.(x_broadcast))) r.2.
Proof.
  intros M Hle Hnow Hd Hb Hbb. cbv zeta.
  destruct (charge_air up x (Ok (MkCharge d budget broadcast_budget)) now s) as [[E ->]|(c & Hc & E & Hw)].
  { split; [|exact I]. apply (metered_air (tx s)); [now symmetry|]. now apply (metered_later _ _ last). }
  injection Hc as <-. pose proof (airtime_locked_spec (tx s) log last now d (x_broadcast x) M Hle Hnow Hd Hb Hbb) as [M' Hok].
  split; [exact (metered_air _ _ _ _ (eq_sym E) M')|]. destruct Hw as [-> |[Hw ->]]; [exact I|].
  apply (pending_air _ _ _ _ _ _ _ (eq_sym E)). exists d. repeat split; now apply Hok.
Qed.

Lemma complete_metered up x admitted sent now s e log held last :
  (tx s).(t_queue) !! x.(x_index) = Some e ->
  metered (tx s) log last -> pending_charge (tx s) log last x admitted held ->
  metered (tx (work_complete up x admitted sent now s).1)
    (if kept admitted sent then from_option (fun e => e :: log) log held else log) last.
Proof.
  intros He M (d & -> & -> & Hd). destruct (complete_air up x (negb (d =? 0)) sent now s e He) as [_ E].
  unfold kept in *. destruct (Z.eqb_spec d 0) as [->|Hne]; cbn [negb andb] in *; [exact (metered_air _ _ _ _ (eq_sym E) M)|].
  destruct (is_ok sent); [|exact (metered_air _ _ _ _ (eq_sym E) M)].
  destruct (Hd Hne) as (B & T1 & T2). apply (metered_air _ _ _ _ (eq_sym E)). cbn [from_option].
  constructor; [exact T1| |now left]. unfold broadcast_log. rewrite filter_cons. cbn [snd].
  destruct (x_broadcast x); cbn; exact T2.
Qed.

Lemma metered_run_inv siphash m log held last : 0 <= budget -> 0 <= broadcast_budget ->
  metered_run siphash m log held last ->
  machine_safe m /\ metered (tx m.(m_core)) log last /\ charge_held (tx m.(m_core)) log last held m.(m_worker).
Proof.
  intros Hb Hbb. induction 1 as [m Hi|m m' log held last H IH Hq|o s x log held last up d now H IH Hle Hnow Hd r
    |o s x log held last up er now H IH r|o s x admitted log held last up sent now H IH r|o s log held last er H IH].
  - split; [exact (initial_safe _ Hi)|]. destruct Hi as (Ht & -> & _). split; [|exact I].
    rewrite Ht. now apply metered_reset.
  - destruct IH as (Hs & M & Hh). pose proof (air_quiet _ _ _ Hq) as [E _]. split; [exact (safe_quiet _ _ _ Hs Hq)|].
    split; [exact (metered_air _ _ _ _ (eq_sym E) M)|]. pose proof (worker_idle_quiet _ _ _ _ _ _ _ Hq Hh) as Hh'.
    unfold charge_held in *. destruct (m_worker m'); try exact I. exact (pending_air _ _ _ _ _ _ _ (eq_sym E) Hh').
  - destruct IH as (Hs & M & _). cbn [m_core m_worker] in *. split; [exact (work_charge_safe _ _ _ _ _ _ Hs)|].
    now apply (charge_metered up x d now s log last).
  - destruct IH as (Hs & M & _). cbn [m_core m_worker] in *. split; [exact (work_charge_safe _ _ _ _ _ _ Hs)|].
    destruct (charge_air up x (Err er) now s) as [[E Hw]|(c & Hc & _)]; [|discriminate].
    unfold r. rewrite Hw. split; [exact (metered_air _ _ _ _ (eq_sym E) M)|exact I].
  - destruct IH as (Hs & M & Hh). cbn [m_core m_worker] in *. split; [exact (work_complete_safe _ _ _ _ _ _ _ Hs)|].
    destruct (safe_entry _ _ _ x Hs eq_refl) as (e & He & _).
    split; [exact (complete_metered up x admitted sent now s e log held last He M Hh)|].
    destruct (complete_air up x admitted sent now s e He) as [Hw _]. unfold r. now rewrite Hw.
  - destruct IH as (Hs & M & _). cbn [m_core m_worker] in *. split; [exact (drain_finish_safe _ _ _ Hs)|].
    split; [|exact I]. now apply metered_reset.
Qed.

(** The airtime of a log within 3590 seconds from [t]. *)
Definition spent_within (log : airtime_log) (t : Z) : Z :=
  sumZ (map snd (filter (fun e => t <= e.1 <= t + 3590000) log)).

Lemma metered_bounds siphash m log held last t : 0 <= budget -> 0 <= broadcast_budget ->
  metered_run siphash m log held last ->
  spent_within (total_log log) t <= budget /\ spent_within (broadcast_log log) t <= broadcast_budget.
Proof.
  intros Hb Hbb H. destruct (metered_run_inv _ _ _ _ _ Hb Hbb H) as (_ & M & _).
  split; [exact (gate_bound _ _ _ _ t (mt_total _ _ _ M))|exact (gate_bound _ _ _ _ t (mt_broadcast _ _ _ M))].
Qed.
End Meter.

(** C23: the duty cycle of the device.  In every state that a run reaches, with other
    entry points, failed transmissions, retries and pauses in between: within 3590
    seconds, the link took frames of at most the budgeted airtime since the queue
    was last drained, and broadcasts of at most the budget for these. *)
Theorem queue_duty_cycle siphash budget broadcast_budget m log held last t :
  0 <= budget -> 0 <= broadcast_budget ->
  metered_run budget broadcast_budget siphash m log held last ->
  spent_within (total_log log) t <= budget /\ spent_within (broadcast_log log) t <= broadcast_budget.
Proof. intros. now apply (metered_bounds meters budget broadcast_budget siphash m log held last t). Qed.

(** The control frame of the run is charged, and taken by the link; a second is put
    off: the budget has been spent. *)
Definition sample_validated : core := Eval vm_compute in (work_select true None 40 sample_sent).1.
Definition sample_choice : selection := Eval vm_compute in
  match (work_select true None 40 sample_sent).2 with Selected x => x | _ => MkSelection 0 sample_meta [] false false end.
Definition sample_charged : core := Eval vm_compute in
  (work_charge true sample_choice (Ok (MkCharge 900 1000 500)) 40 sample_validated).1.
Definition sample_completed : core := Eval vm_compute in (work_complete true sample_choice true (Ok tt) 41 sample_charged).1.

Lemma sample_metered : metered_run 1000 500 sample_hash (MkMachine alone sample_completed Idle) [(40, 900, false)] None 40.
Proof.
  assert (forall m m', rtc (quiet_step sample_hash) m m' -> metered_run 1000 500 sample_hash m [] None 0 ->
    metered_run 1000 500 sample_hash m' [] None 0) as Hq.
  { induction 1 as [|m1 m2 m3 H1 _ IH]; [trivial|]. intros H. apply IH. exact (metered_quiet _ _ _ _ _ _ _ _ H H1). }
  pose proof (Hq _ _ sample_quiet_run (metered_start _ _ _ _ sample_initial_ok)) as H0.
  assert (metered_run 1000 500 sample_hash (MkMachine alone sample_validated (Validated sample_choice)) [] None 0) as H1.
  { apply (Hq (MkMachine alone sample_sent Idle)); [|exact H0]. eapply rtc_l.
    - apply (step_to _ _ (MkMachine alone (work_select true None 40 sample_sent).1 (work_select true None 40 sample_sent).2)
        (MkMachine alone sample_validated (Selected sample_choice))); [vm_compute; reflexivity|]. apply step_select.
    - apply rtc_once. apply (step_to _ _ (MkMachine alone (work_validate true sample_choice sample_validated).1
        (work_validate true sample_choice sample_validated).2)); [vm_compute; reflexivity|]. apply step_validate. }
  pose proof (metered_charge _ _ _ _ _ _ _ _ _ true 900 40 H1 ltac:(lia) ltac:(vm_compute; split; [discriminate|reflexivity])
    ltac:(lia)) as H2. cbv zeta in H2.
  assert (work_charge true sample_choice (Ok (MkCharge 900 1000 500)) 40 sample_validated =
          (sample_charged, Charged sample_choice true)) as E2 by (vm_compute; reflexivity).
  rewrite E2 in H2. cbn [fst snd] in H2.
  pose proof (metered_complete _ _ _ _ _ _ _ _ _ _ true (Ok tt) 41 H2) as H3. cbv zeta in H3.
  assert (work_complete true sample_choice true (Ok tt) 41 sample_charged = (sample_completed, Idle)) as E3
    by (vm_compute; reflexivity).
  rewrite E3 in H3. exact H3.
Qed.

Lemma queue_duty_cycle_witness :
  spent_within (total_log [(40, 900, false)]) 0 <= 1000 /\
  (melodi_queue_airtime_locked (tx sample_completed) (MkCharge 101 1000 500) false 50).2 = Err EAGAIN.
Proof.
  split; [|vm_compute; reflexivity].
  apply (queue_duty_cycle sample_hash 1000 500 _ _ _ _ 0 ltac:(lia) ltac:(lia) sample_metered).
Defined.

(** A pause forgets what was spent: the same frame is admitted after it. *)
Lemma pause_restores_budget :
  (melodi_queue_airtime_locked (tx (melodi_queue_pause sample_completed)) (MkCharge 1000 1000 500) false 50).2 = Ok tt.
Proof. vm_compute. reflexivity. Qed.
