(* ===== verification/Send.v ===== *)
(** * Sending (src/kernel/core/data.c)

    Admission of messages, the sealing of a message under the session of its
    destination, reliable messages that stay until they are acknowledged, broadcasts
    and acknowledgements.  A call of the code releases the lock of the device between
    its sections; what everybody else does in between is an argument, a function on
    the core. *)
From S2P Require Import Prelude Buffer Uapi Wire Reliability Slots Device Fragments Peers Delivery Identity Policy Queue.

(** ** Arguments

    What the caller of a send hands in, and what the call finds around it. *)
Record send_args := MkSend {
  sa_destination : option melodi_node_id;
  sa_source_service : Z;
  sa_destination_service : Z;
  sa_payload : bytes;
  sa_flags : Z;
  sa_cookie : Z;
  sa_ttl_ms : Z;
  sa_binding_portid : Z;
  sa_binding_generation : Z;
  sa_priority : Z;
  sa_reservation : Z;
}.

(** The link's MTU and pace, the allocations that succeed, the random message
    identifier that the loop over [get_random_u64] ends with, the clock, the state of
    the interface and its network namespace. *)
Record send_env := MkSendEnv {
  se_frame_mtu : Z;
  se_pace_ms : Z;
  se_batch : bool;
  se_encrypted : bool;
  se_skb : Z -> option (nat -> Z);
  se_signing : Z -> bool;
  se_clone : Z -> bool;
  se_message_id : Z;
  se_now_ms : Z;
  se_namespace : bool;
  se_running : bool;
  se_carrier : bool;
  se_net : Z;
  se_queue_ms : Z;
}.

Definition reliable_flags (flags : Z) : bool := has flags (Z.lor MELODI_F_RELIABLE MELODI_F_ORDERED).

(** [struct melodi_queue_request request = { ... }] *)
Definition initial_request (a : send_args) : melodi_queue_request :=
  MkRequest (match a.(sa_destination) with Some d => d | None => zero_node end) 0 0 a.(sa_ttl_ms) a.(sa_binding_portid)
    0 0 a.(sa_binding_generation) a.(sa_source_service) a.(sa_destination_service) a.(sa_priority)
    (has a.(sa_flags) MELODI_F_BROADCAST) (reliable_flags a.(sa_flags)) false.

(** The fields of the request that a section under the lock fills in. *)
Definition request_of (r : melodi_queue_request) (identity_generation source_locator session_epoch message_id : Z)
    : melodi_queue_request :=
  MkRequest r.(q_destination) message_id session_epoch r.(q_ttl_ms) r.(q_binding_portid) identity_generation source_locator
    r.(q_binding_generation) r.(q_service) r.(q_destination_service) r.(q_priority) r.(q_broadcast) r.(q_reliable) r.(q_control).

Abbreviation dev s := (s.(c_dev)).
Definition set_dev (melodi : melodi_device) (s : core) : core := MkCore melodi s.(c_spaces) s.(c_log).

(** The counter of the device moves past [count] counters. *)
Definition take_counters (count : Z) (melodi : melodi_device) : melodi_device :=
  set_d_link (set_l_transmit_counter (wrap 64 (melodi.(d_link).(l_transmit_counter) + count)) melodi.(d_link)) melodi.

(** What is carried from the section that prepares a message to the rest of the call. *)
Record prepared := MkPrepared {
  pr_header : melodi_wire_data;
  pr_base : Z;
  pr_key : bytes;
  pr_meta : melodi_tx_meta;
  pr_request : melodi_queue_request;
}.

(** ** Pending messages *)

Section Clock.
  Context (msecs_to_jiffies : Z -> Z).

Definition melodi_reliability_pending (melodi : melodi_device) : bool := existsb pm_allocated melodi.(d_pending).

Definition melodi_reliability_schedule (melodi : melodi_device) : melodi_device :=
  if melodi_reliability_pending melodi
  then set_d_data (set_a_reliability_work (Some (msecs_to_jiffies 100)) melodi.(d_data)) melodi else melodi.

Definition melodi_pending_admit_locked (s : core) (a : send_args) (destination : melodi_node_id) (meta : melodi_tx_meta)
    (source_native_locator destination_native_locator generation destination_generation session_epoch message_id
     fragment_count pace_ms now_ms : Z) (frames : list bytes) : core * result unit :=
  match find_index (fun p => negb p.(pm_allocated)) (dev s).(d_pending) with
  | None => (s, Err ENOSPC)
  | Some index =>
      let '(s, reserved) := if a.(sa_reservation) =? 0 then (s, Ok tt)
                            else melodi_queue_reservation_pending s a.(sa_reservation) in
      match reserved with
      | Err error => (s, Err error)
      | Ok _ =>
          if U64_MAX - a.(sa_ttl_ms) <? now_ms then (s, Err EOVERFLOW) else
          let old := match (dev s).(d_pending) !! index with Some p => p | None => zero_pending_message end in
          let '(reliability, started) := melodi_reliability_start old.(pm_reliability) message_id generation fragment_count
                                           now_ms pace_ms a.(sa_ttl_ms) in
          match started with
          | Err error =>
              (set_dev (set_d_pending (<[index := set_pm_reliability reliability old]> (dev s).(d_pending)) (dev s)) s, Err error)
          | Ok _ =>
              let pending := MkPending reliability destination
                               (take (Z.to_nat fragment_count) frames ++ drop (Z.to_nat fragment_count) old.(pm_fragments))
                               a.(sa_reservation) meta.(tm_cookie) (now_ms + a.(sa_ttl_ms)) session_epoch
                               a.(sa_binding_generation) source_native_locator destination_native_locator
                               meta.(tm_source_locator) meta.(tm_destination_locator) destination_generation
                               a.(sa_source_service) a.(sa_destination_service) a.(sa_binding_portid) a.(sa_priority) true in
              let melodi := set_d_pending (<[index := pending]> (dev s).(d_pending)) (dev s) in
              (set_dev (melodi_reliability_schedule melodi) s, Ok tt)
          end
      end
  end.

(** ** The message is prepared *)

(** The section of [melodi_data_send_internal] that looks the session up; without a
    lookup when a reservation was made without a peer. *)
Definition prepare_unicast (s : core) (a : send_args) (destination : melodi_node_id) (lookup : bool)
    (fragment_count message_id : Z) : core * result prepared :=
  let melodi := dev s in
  match (if lookup then melodi_peer_by_node melodi destination ≫= fun i => melodi.(d_peers) !! i else None) with
  | None => (s, Err EHOSTUNREACH)
  | Some peer =>
  if negb peer.(p_session_ready) || peer.(p_conflicted) then (s, Err EHOSTUNREACH) else
  match (_ ← melodi_policy_check_locked melodi destination;
         melodi_policy_check_service_locked melodi a.(sa_destination_service) false) with
  | Err error => (s, Err error)
  | Ok _ =>
  if U64_MAX - fragment_count <? melodi.(d_link).(l_transmit_counter) then (s, Err EOVERFLOW) else
  let base_counter := melodi.(d_link).(l_transmit_counter) + 1 in
  let melodi := take_counters fragment_count melodi in
  let '(melodi, marker) :=
    if has a.(sa_flags) MELODI_F_ORDERED then
      let '(r, marker) := melodi_order_tx_marker_locked melodi.(d_receive) destination a.(sa_source_service)
                            a.(sa_destination_service) peer.(p_generation) peer.(p_session_epoch) in
      (set_d_receive r melodi, marker)
    else (melodi, Ok 0) in
  match marker with
  | Err error => (set_dev melodi s, Err error)
  | Ok ordering_marker =>
      let link := melodi.(d_link) in
      let header := {|
        data_common := {|
          version := 0; frame_class := 0; flags := melodi_data_wire_flags a.(sa_flags); header_length := 0; payload_length := 0;
          source_native_locator := link.(l_local_native_locator);
          destination_native_locator := peer.(p_native_locator);
          identity_generation := link.(l_identity_generation); Wire.message_id := message_id; counter := 0 |};
        destination_service := a.(sa_destination_service); source_service := a.(sa_source_service);
        fragment_index := 0; Wire.fragment_count := fragment_count; logical_length := zlen a.(sa_payload);
        delivery_mode := if has a.(sa_flags) MELODI_F_ORDERED then MELODI_DELIVERY_RELIABLE_ORDERED
                         else if has a.(sa_flags) MELODI_F_RELIABLE then MELODI_DELIVERY_RELIABLE
                         else MELODI_DELIVERY_UNRELIABLE;
        priority := a.(sa_priority); ordering_marker := ordering_marker; data_tag := replicate 16 0 |} in
      (set_dev melodi s,
       Ok (MkPrepared header base_counter peer.(p_transmit_key)
             (MkTxMeta peer.(p_link_locator) link.(l_local_link_locator) a.(sa_cookie))
             (request_of (initial_request a) link.(l_identity_generation) link.(l_local_link_locator)
                peer.(p_session_epoch) message_id)))
  end
  end
  end.

(** ** Unicast messages *)

Section Seal.
  Context {A : Aead} {Sg : Signer}.

(** Everything of [melodi_data_send_internal] behind the section that prepares the
    message; [between] is what happens before the section that files a reliable
    message, and [after] what happens between that and the queue. *)
Definition finish_unicast (between after : core -> core) (e : send_env) (s : core) (a : send_args)
    (destination : melodi_node_id) (payload_mtu fragment_count : Z) (p : prepared) : core * result unit :=
  let header := p.(pr_header) in
  match seal_loop e.(se_skb) payload_mtu p.(pr_base) a.(sa_payload) p.(pr_key) (Z.to_nat fragment_count) 0 0 header with
  | Err error => (s, Err error)
  | Ok frames =>
  let reliable := reliable_flags a.(sa_flags) in
  let '(s, filed) :=
    if reliable then
      if negb (forallb e.(se_clone) (map Z.of_nat (seq 0 (Z.to_nat fragment_count)))) then (s, Err ENOMEM) else
      let s := between s in
      let melodi := dev s in
      match melodi_peer_by_node melodi destination ≫= fun i => melodi.(d_peers) !! i with
      | None => (s, Err EHOSTUNREACH)
      | Some peer =>
          if negb peer.(p_session_ready) || peer.(p_conflicted) ||
             negb (peer.(p_link_locator) =? p.(pr_meta).(tm_destination_locator)) ||
             negb (melodi.(d_link).(l_local_link_locator) =? p.(pr_meta).(tm_source_locator)) ||
             negb (melodi.(d_link).(l_identity_generation) =? header.(data_common).(identity_generation))
          then (s, Err EHOSTUNREACH) else
          melodi_pending_admit_locked s a destination p.(pr_meta) header.(data_common).(source_native_locator)
            header.(data_common).(destination_native_locator) header.(data_common).(identity_generation)
            peer.(p_generation) peer.(p_session_epoch) header.(data_common).(Wire.message_id) fragment_count
            e.(se_pace_ms) e.(se_now_ms) frames
      end
    else (s, Ok tt) in
  match filed with
  | Err error => (s, Err error)
  | Ok _ =>
      let s := after s in
      let '(s, sent) :=
        if a.(sa_reservation) =? 0
        then melodi_core_send_batch e.(se_namespace) e.(se_running) e.(se_carrier) e.(se_net) s frames p.(pr_meta)
               p.(pr_request) e.(se_queue_ms)
        else melodi_core_send_batch_reserved e.(se_running) e.(se_carrier) s frames p.(pr_meta) p.(pr_request)
               a.(sa_reservation) in
      match sent with
      | Ok _ => (s, Ok tt)
      | Err error =>
          if negb reliable then (s, Err error) else
          match find_index (fun m => m.(pm_allocated) &&
                              (m.(pm_reliability).(Reliability.message_id) =? header.(data_common).(Wire.message_id)) &&
                              (m.(pm_reliability).(Reliability.generation) =? header.(data_common).(identity_generation)))
                  (dev s).(d_pending) with
          | Some index => (melodi_pending_clear s index, Err error)
          | None => (s, Err error)
          end
      end
  end
  end.

(** [melodi_data_send_internal] for one destination, up to the queueing of messages
    for peers that are still looked for. *)
Definition send_unicast (before between after : core -> core) (e : send_env) (s : core) (a : send_args)
    (destination : melodi_node_id) : core * result unit :=
  if (a.(sa_destination_service) =? MELODI_SERVICE_ECHO) && reliable_flags a.(sa_flags) then (s, Err EOPNOTSUPP) else
  match (if a.(sa_reservation) =? 0 then Ok MELODI_NATIVE_LOCATOR_INVALID
         else melodi_queue_reservation_locator s a.(sa_reservation)) with
  | Err error => (s, Err error)
  | Ok reserved_locator =>
  if mtu_bad e.(se_frame_mtu) MELODI_WIRE_DATA_SIZE (zlen a.(sa_payload)) then (s, Err EMSGSIZE) else
  let payload_mtu := e.(se_frame_mtu) - MELODI_WIRE_DATA_SIZE in
  let fragment_count := fragments_of (zlen a.(sa_payload)) payload_mtu in
  if MELODI_FRAGMENT_LIMIT <? fragment_count then (s, Err EMSGSIZE) else
  if negb e.(se_batch) || negb e.(se_encrypted) then (s, Err ENOMEM) else
  let lookup := negb ((reserved_locator =? MELODI_NATIVE_LOCATOR_INVALID) && negb (a.(sa_reservation) =? 0)) in
  match prepare_unicast (before s) a destination lookup fragment_count e.(se_message_id) with
  | (s, Err error) => (s, Err error)
  | (s, Ok p) => finish_unicast between after e s a destination payload_mtu fragment_count p
  end
  end.

(** ** Broadcasts *)

Definition prepare_broadcast (s : core) (a : send_args) (fragment_count message_id : Z) : core * result prepared :=
  let melodi := dev s in
  let link := melodi.(d_link) in
  if negb link.(l_identity_ready) then (s, Err ENOKEY) else
  if negb link.(l_transport_ready) then (s, Err ENETDOWN) else
  if U64_MAX - fragment_count <? link.(l_transmit_counter) then (s, Err EOVERFLOW) else
  match melodi_policy_check_service_locked melodi a.(sa_destination_service) true with
  | Err error => (s, Err error)
  | Ok _ =>
      let header := {|
        data_common := {|
          version := 0; frame_class := 0; flags := MELODI_WIRE_F_BROADCAST; header_length := 0; payload_length := 0;
          source_native_locator := link.(l_local_native_locator);
          destination_native_locator := MELODI_NATIVE_LOCATOR_BROADCAST;
          identity_generation := link.(l_identity_generation); Wire.message_id := message_id; counter := 0 |};
        destination_service := a.(sa_destination_service); source_service := a.(sa_source_service);
        fragment_index := 0; Wire.fragment_count := fragment_count; logical_length := zlen a.(sa_payload);
        delivery_mode := MELODI_DELIVERY_UNRELIABLE; priority := a.(sa_priority); ordering_marker := 0;
        data_tag := replicate 16 0 |} in
      (set_dev (take_counters fragment_count melodi) s,
       Ok (MkPrepared header (link.(l_transmit_counter) + 1) []
             (MkTxMeta MELODI_LINK_LOCATOR_BROADCAST link.(l_local_link_locator) a.(sa_cookie))
             (request_of (initial_request (MkSend None a.(sa_source_service) a.(sa_destination_service) a.(sa_payload)
                            MELODI_F_BROADCAST a.(sa_cookie) a.(sa_ttl_ms) a.(sa_binding_portid) a.(sa_binding_generation)
                            a.(sa_priority) a.(sa_reservation)))
                link.(l_identity_generation) link.(l_local_link_locator) 0 0)))
  end.

Definition melodi_data_send_broadcast (before after : core -> core) (e : send_env) (s : core) (a : send_args)
    : core * result unit :=
  let overhead := MELODI_WIRE_DATA_SIZE + MELODI_WIRE_BROADCAST_OVERHEAD in
  if MELODI_BROADCAST_MTU <? zlen a.(sa_payload) then (s, Err EMSGSIZE) else
  if mtu_bad e.(se_frame_mtu) overhead (zlen a.(sa_payload)) then (s, Err EMSGSIZE) else
  let payload_mtu := e.(se_frame_mtu) - overhead in
  let fragment_count := fragments_of (zlen a.(sa_payload)) payload_mtu in
  if MELODI_FRAGMENT_LIMIT <? fragment_count then (s, Err EMSGSIZE) else
  if negb e.(se_batch) then (s, Err ENOMEM) else
  match prepare_broadcast (before s) a fragment_count e.(se_message_id) with
  | (s, Err error) => (s, Err error)
  | (s, Ok p) =>
      match sign_loop e.(se_skb) e.(se_signing) payload_mtu p.(pr_base) a.(sa_payload) (Z.to_nat fragment_count) 0 0
              p.(pr_header) with
      | Err error => (s, Err error)
      | Ok frames =>
          let s := after s in
          let '(s, sent) :=
            if a.(sa_reservation) =? 0
            then melodi_core_send_batch e.(se_namespace) e.(se_running) e.(se_carrier) e.(se_net) s frames p.(pr_meta)
                   p.(pr_request) e.(se_queue_ms)
            else melodi_core_send_batch_reserved e.(se_running) e.(se_carrier) s frames p.(pr_meta) p.(pr_request)
                   a.(sa_reservation) in
          match sent with
          | Err error => (s, Err error)
          | Ok _ => (set_dev (set_d_data (set_a_broadcast_tx ((dev s).(d_data).(a_broadcast_tx) + 1) (dev s).(d_data)) (dev s)) s, Ok tt)
          end
      end
  end.

(** [melodi_data_send_internal] for a caller that does not wait for unknown peers. *)
Definition send_direct (crypto_eddsa_public_key_check : bytes -> Z) (before between after : core -> core) (e : send_env)
    (s : core) (a : send_args) : core * result unit :=
  let broadcast := has a.(sa_flags) MELODI_F_BROADCAST in
  if (MELODI_MESSAGE_MTU <? zlen a.(sa_payload)) || has a.(sa_flags) (Z.lnot MELODI_F_ALL) || (a.(sa_ttl_ms) =? 0) ||
     (MELODI_TTL_DEFAULT_MS <? a.(sa_ttl_ms)) || (MELODI_PRIORITY_MAX <? a.(sa_priority)) ||
     (a.(sa_source_service) =? MELODI_SERVICE_CONTROL) || (a.(sa_destination_service) =? MELODI_SERVICE_CONTROL)
  then (s, Err EINVAL) else
  match a.(sa_destination), broadcast with
  | None, false | Some _, true => (s, Err EINVAL)
  | Some destination, false =>
      if negb (melodi_node_id_valid crypto_eddsa_public_key_check destination) then (s, Err EINVAL) else
      send_unicast before between after e s a destination
  | None, true =>
      if (a.(sa_source_service) =? MELODI_SERVICE_ECHO) || (a.(sa_destination_service) =? MELODI_SERVICE_ECHO)
      then (s, Err EINVAL) else
      if reliable_flags a.(sa_flags) then (s, Err EOPNOTSUPP) else
      melodi_data_send_broadcast before after e s a
  end.

(** ** Acknowledgements *)

Definition melodi_peer_by_native_locator (melodi : melodi_device) (native_locator : Z) : option nat :=
  find_index (fun p => p.(p_authenticated) && negb p.(p_conflicted) && (p.(p_native_locator) =? native_locator))
    melodi.(d_peers).

(** The section under the lock: the acknowledgement, the key and where it goes. *)
Definition prepare_ack (melodi : melodi_device) (data : melodi_wire_data) (bitmap status : Z)
    : melodi_device * result (melodi_wire_ack * bytes * melodi_tx_meta) :=
  match melodi_peer_by_native_locator melodi data.(data_common).(source_native_locator) ≫= fun i => melodi.(d_peers) !! i with
  | None => (melodi, Err EHOSTUNREACH)
  | Some peer =>
      if negb peer.(p_session_ready) || peer.(p_conflicted) ||
         negb (data.(data_common).(identity_generation) =? peer.(p_generation))
      then (melodi, Err EHOSTUNREACH) else
      match melodi_counter_next_locked melodi with
      | (melodi, Err error) => (melodi, Err error)
      | (melodi, Ok counter) =>
          let link := melodi.(d_link) in
          (melodi, Ok ({|
             ack_common := {|
               version := 0; frame_class := 0; flags := MELODI_WIRE_F_ENCRYPTED; header_length := 0; payload_length := 0;
               source_native_locator := link.(l_local_native_locator);
               destination_native_locator := peer.(p_native_locator);
               identity_generation := link.(l_identity_generation);
               Wire.message_id := data.(data_common).(Wire.message_id); counter := counter |};
             acknowledged_generation := data.(data_common).(identity_generation);
             ack_fragment_count := data.(Wire.fragment_count); ack_status := status; ack_bitmap := bitmap;
             ack_tag := replicate 16 0 |},
             peer.(p_transmit_key), MkTxMeta peer.(p_link_locator) link.(l_local_link_locator) 0))
      end
  end.

(** The frame of an acknowledgement, sealed in place; [stack] is the array it is built
    in. *)
Definition seal_ack (stack : bytes) (ack : melodi_wire_ack) (key : bytes) : result bytes :=
  frame ← melodi_wire_encode_ack stack ack;
  let authenticated := xchacha20poly1305_encrypt [] (load 0 56 frame) (frame_nonce ack.(ack_common)) key in
  Ok (store 56 (load 0 16 authenticated) frame).

Definition melodi_data_send_ack (after : core -> core) (e : send_env) (stack : bytes) (s : core) (data : melodi_wire_data)
    (bitmap status : Z) : core * result unit :=
  match prepare_ack (dev s) data bitmap status with
  | (melodi, Err error) => (set_dev melodi s, Err error)
  | (melodi, Ok (ack, key, meta)) =>
      let s := set_dev melodi s in
      match seal_ack stack ack key with
      | Err error => (s, Err error)
      | Ok frame =>
          match e.(se_skb) 0 with
          | None => (s, Err ENOMEM)
          | Some _ => melodi_core_send e.(se_namespace) e.(se_running) e.(se_carrier) e.(se_net) (after s) frame meta e.(se_queue_ms)
          end
      end
  end.
End Seal.

(** ** Admission *)

Definition melodi_data_admit (crypto_eddsa_public_key_check : bytes -> Z) (e : send_env) (s : core) (a : send_args)
    (length : Z) : core * result Z :=
  let broadcast := has a.(sa_flags) MELODI_F_BROADCAST in
  let reliable := reliable_flags a.(sa_flags) in
  let has_destination := match a.(sa_destination) with Some _ => true | None => false end in
  if (MELODI_MESSAGE_MTU <? length) || has a.(sa_flags) (Z.lnot MELODI_F_ALL) || (a.(sa_ttl_ms) =? 0) ||
     (MELODI_TTL_DEFAULT_MS <? a.(sa_ttl_ms)) || (MELODI_PRIORITY_MAX <? a.(sa_priority)) ||
     (a.(sa_source_service) =? MELODI_SERVICE_CONTROL) || (a.(sa_destination_service) =? MELODI_SERVICE_CONTROL) ||
     Bool.eqb broadcast has_destination
  then (s, Err EINVAL) else
  if (match a.(sa_destination) with
      | Some d => negb (melodi_node_id_valid crypto_eddsa_public_key_check d) | None => false end)
  then (s, Err EINVAL) else
  if broadcast && (reliable || (MELODI_BROADCAST_MTU <? length) || (a.(sa_source_service) =? MELODI_SERVICE_ECHO) ||
                   (a.(sa_destination_service) =? MELODI_SERVICE_ECHO))
  then (s, Err (if reliable then EOPNOTSUPP else EINVAL)) else
  if negb broadcast && (a.(sa_destination_service) =? MELODI_SERVICE_ECHO) && reliable then (s, Err EOPNOTSUPP) else
  if negb e.(se_running) || negb e.(se_carrier) then (s, Err ENETDOWN) else
  let overhead := MELODI_WIRE_DATA_SIZE + (if broadcast then MELODI_WIRE_BROADCAST_OVERHEAD else 0) in
  if mtu_bad e.(se_frame_mtu) overhead length then (s, Err EMSGSIZE) else
  let fragment_count := fragments_of length (e.(se_frame_mtu) - overhead) in
  if MELODI_FRAGMENT_LIMIT <? fragment_count then (s, Err EMSGSIZE) else
  let bytes := overhead * fragment_count + length in
  let melodi := dev s in
  let link := melodi.(d_link) in
  if negb link.(l_identity_ready) then (s, Err ENOKEY) else
  if negb link.(l_transport_ready) then (s, Err ENETDOWN) else
  let request := initial_request a in
  let '(locator, request, error) :=
    match a.(sa_destination) with
    | None =>
        (MELODI_LINK_LOCATOR_BROADCAST,
         request_of request link.(l_identity_generation) link.(l_local_link_locator) 0 0,
         melodi_policy_check_service_locked melodi a.(sa_destination_service) true)
    | Some destination =>
        let error := _ ← melodi_policy_check_locked melodi destination;
                     melodi_policy_check_service_locked melodi a.(sa_destination_service) false in
        let waits := (MELODI_NATIVE_LOCATOR_INVALID, request_of request 0 link.(l_local_link_locator) 0 0,
                      if has a.(sa_flags) MELODI_F_DONTWAIT then Err EHOSTUNREACH else error) in
        match melodi_peer_by_node melodi destination ≫= fun i => melodi.(d_peers) !! i with
        | Some peer =>
            if peer.(p_session_ready) && negb peer.(p_conflicted)
            then (peer.(p_link_locator),
                  request_of request link.(l_identity_generation) link.(l_local_link_locator) peer.(p_session_epoch) 0, error)
            else waits
        | None => waits
        end
    end in
  match error with
  | Err error => (s, Err error)
  | Ok _ =>
      let active_pending := if reliable then zlen (filter (fun p => pm_allocated p = true) melodi.(d_pending)) else 0 in
      melodi_queue_reserve e.(se_namespace) s e.(se_net) locator request fragment_count bytes length a.(sa_cookie) reliable
        active_pending e.(se_queue_ms)
  end.
End Clock.
