(* ===== verification/Receive.v ===== *)
(** * Receiving (src/kernel/core/data.c)

    A data frame on its way in: the session it belongs to, the cipher or the
    signature, the replay window, reassembly, ordered delivery, and the answer to the
    sender.  As in Send, what others do while the lock is released is an argument. *)
From S2P Require Import Prelude Buffer Uapi Wire Replay Slots Device Fragments Peers Reassembly Delivery Policy Queue Send.

(** What a frame hands to user space. *)
Record delivery := MkDelivery {
  de_source : melodi_node_id;
  de_source_service : Z;
  de_destination_service : Z;
  de_payload : bytes;
  de_meta : melodi_rx_meta;
}.

(** [melodi_order_deliver] *)
Definition melodi_order_deliver (batch : melodi_order_batch) : list delivery :=
  map (fun m => MkDelivery m.(om_source) m.(om_source_service) m.(om_destination_service)
                  (load 0 (Z.to_nat m.(om_length)) m.(om_payload)) m.(om_metadata)) batch.

(** [melodi_reassembly_work]: the section, then, with the lock released, the batch.
    [between] is what everybody else does from the end of the section on, deliveries of
    their own included. *)
Definition melodi_reassembly_work (msecs_to_jiffies : Z -> Z) (between : melodi_device -> melodi_device) (alloc : bool)
    (jiffies now_ms : Z) (melodi : melodi_device) : melodi_device * list delivery :=
  let '(melodi, batch) := melodi_reassembly_locked msecs_to_jiffies alloc jiffies now_ms melodi in
  (between melodi, melodi_order_deliver batch).

(** What a call finds around it: the allocations that succeed, the memory for a
    complete message, the clocks, what user space answers, and what is needed to
    send. *)
Record receive_env := MkReceiveEnv {
  re_batch : bool;
  re_buffers : bool;
  re_signing : bool;
  re_plaintext : bool;
  re_memory : option bytes;
  re_jiffies : Z;
  re_now_ms : Z;
  re_now_ns : Z;
  re_user : result unit;
  re_stack : bytes;
  re_echo : send_env;
  re_ack : send_env;
}.

(** What everybody else does while the lock is released: before the second and third
    section of a broadcast, before the second section of a unicast frame, between the
    last section and what is handed to user space, at the three gaps of an echo, before
    the receipt is stored, and before and behind the lock of the acknowledgement. *)
Record receive_gaps := MkGaps {
  rg_verified : core -> core;
  rg_broadcast : core -> core;
  rg_opened : core -> core;
  rg_unlocked : core -> core;
  rg_echo_before : core -> core;
  rg_echo_between : core -> core;
  rg_echo_after : core -> core;
  rg_receipt : core -> core;
  rg_ack : core -> core;
  rg_sent : core -> core;
}.

Definition melodi_peer_observe_locked (now_ns : Z) (meta : melodi_rx_meta) (peer : melodi_peer) : melodi_peer :=
  let peer := set_p_last_seen_ns (if meta.(rm_timestamp_ns) =? 0 then now_ns else meta.(rm_timestamp_ns)) peer in
  let peer := set_p_rssi meta.(rm_rssi) peer in
  let peer := set_p_snr meta.(rm_snr) peer in
  set_p_hops meta.(rm_hops) peer.

Definition set_authenticated (authenticated : bool) (m : melodi_rx_meta) : melodi_rx_meta :=
  MkRxMeta m.(rm_timestamp_ns) m.(rm_source_locator) m.(rm_destination_locator) m.(rm_duplicates) m.(rm_rssi) m.(rm_snr)
    m.(rm_hops) m.(rm_retransmissions) authenticated.

(** The peer of an index is replaced. *)
Definition with_peer (index : nat) (peer : melodi_peer) (melodi : melodi_device) : melodi_device :=
  set_d_peers (<[index := peer]> melodi.(d_peers)) melodi.

(** What the sections under the lock make of a frame. *)
Inductive receive_outcome : Type :=
| RxRefused (error : errno)
| RxDuplicate (answer : result (Z * Z))
| RxPartial (bitmap : Z)
| RxOrdered (admitted : result unit) (batch : melodi_order_batch) (bitmap : Z) (message : completed)
| RxComplete (bitmap : Z) (message : completed).

Definition header_ordered (header : melodi_wire_data) : bool := header.(delivery_mode) =? MELODI_DELIVERY_RELIABLE_ORDERED.
Definition header_reliable (header : melodi_wire_data) : bool := negb (header.(delivery_mode) =? MELODI_DELIVERY_UNRELIABLE).
Definition header_broadcast (header : melodi_wire_data) : bool := has header.(data_common).(flags) MELODI_WIRE_F_BROADCAST.

Section Clock.
  Context (msecs_to_jiffies : Z -> Z).

(** From the label [admit] to the end of the section under the lock. *)
Definition receive_admit (e : receive_env) (melodi : melodi_device) (source : melodi_node_id) (header : melodi_wire_data)
    (session_epoch : Z) (metadata : melodi_rx_meta) (plaintext : bytes) : melodi_device * receive_outcome :=
  let finish melodi bitmap message :=
    if header_ordered header then
      let '(melodi, batch, admitted) :=
        melodi_order_admit_locked msecs_to_jiffies e.(re_jiffies) e.(re_now_ms) melodi message.(co_source) header session_epoch
          message.(co_metadata) message.(co_payload) message.(co_length) [] in
      (melodi, RxOrdered admitted batch bitmap message)
    else (melodi, RxComplete bitmap message) in
  if header.(fragment_count) =? 1 then
    finish melodi 1 (MkCompleted source header.(source_service) header.(destination_service) metadata plaintext (zlen plaintext))
  else
    match melodi_reassembly_add msecs_to_jiffies e.(re_jiffies) e.(re_now_ms) e.(re_memory) melodi source header session_epoch
            metadata plaintext with
    | (melodi, Err error) => (melodi, RxRefused error)
    | (melodi, Ok (Partial bitmap)) => (melodi, RxPartial bitmap)
    | (melodi, Ok (Complete bitmap message)) => finish melodi bitmap message
    end.

(** ** Unicast frames *)

(** The first section: whether the counter was seen, the key, the peer and its epoch. *)
Definition receive_lookup (melodi : melodi_device) (header : melodi_wire_data) (link_meta : melodi_rx_meta)
    : result (bool * bytes * melodi_node_id * Z) :=
  let c := header.(data_common) in
  let link := melodi.(d_link) in
  match melodi_peer_by_native_locator melodi c.(source_native_locator) ≫= fun i => melodi.(d_peers) !! i with
  | None => Err EKEYREJECTED
  | Some peer =>
      if negb peer.(p_session_ready) || negb (c.(destination_native_locator) =? link.(l_local_native_locator)) ||
         negb (link_meta.(rm_source_locator) =? peer.(p_link_locator)) ||
         negb (link_meta.(rm_destination_locator) =? link.(l_local_link_locator)) ||
         negb (c.(identity_generation) =? peer.(p_generation)) ||
         negb (is_ok (melodi_policy_check_locked melodi peer.(p_node_id))) ||
         negb (is_ok (melodi_policy_check_service_locked melodi header.(destination_service) false))
      then Err EKEYREJECTED
      else Ok (melodi_replay_seen peer.(p_receive_replay) c.(counter), peer.(p_receive_key), peer.(p_node_id),
               peer.(p_session_epoch))
  end.

(** The second section, once the frame has been opened. *)
Definition receive_opened (e : receive_env) (melodi : melodi_device) (source : melodi_node_id) (header : melodi_wire_data)
    (session_epoch : Z) (duplicate : bool) (link_meta : melodi_rx_meta) (plaintext : bytes)
    : melodi_device * receive_outcome :=
  let c := header.(data_common) in
  let link := melodi.(d_link) in
  let metadata := set_authenticated true link_meta in
  match melodi_peer_by_native_locator melodi c.(source_native_locator) ≫= fun i => pair i <$> melodi.(d_peers) !! i with
  | None => (melodi, RxRefused EKEYREJECTED)
  | Some (index, peer) =>
      if negb peer.(p_session_ready) || negb (c.(identity_generation) =? peer.(p_generation)) ||
         negb (peer.(p_session_epoch) =? session_epoch) || negb (link_meta.(rm_source_locator) =? peer.(p_link_locator)) ||
         negb (link_meta.(rm_destination_locator) =? link.(l_local_link_locator)) ||
         negb (node_eqb source peer.(p_node_id)) ||
         negb (is_ok (melodi_policy_check_locked melodi peer.(p_node_id))) ||
         negb (is_ok (melodi_policy_check_service_locked melodi header.(destination_service) false))
      then (melodi, RxRefused EKEYREJECTED) else
      let repeated melodi :=
        (melodi, RxDuplicate (melodi_data_duplicate_ack_locked melodi.(d_receive) source header session_epoch)) in
      if duplicate then
        let melodi := with_peer index (melodi_peer_observe_locked e.(re_now_ns) metadata peer) melodi in
        if negb (header_reliable header) then (melodi, RxRefused EALREADY) else repeated melodi
      else
        match melodi_replay_mark peer.(p_receive_replay) c.(counter) with
        | Err error =>
            if (match error with EALREADY => true | _ => false end) && header_reliable header
            then repeated melodi else (melodi, RxRefused error)
        | Ok replay =>
            let peer := melodi_peer_observe_locked e.(re_now_ns) metadata (set_p_receive_replay replay peer) in
            receive_admit e (with_peer index peer melodi) source header session_epoch metadata plaintext
        end
  end.

(** ** Broadcasts *)

Definition melodi_data_broadcast_peer_locked (melodi : melodi_device) (header : melodi_wire_data)
    (expected : option melodi_node_id) (metadata : melodi_rx_meta) : result (nat * melodi_peer) :=
  let c := header.(data_common) in
  match melodi_peer_by_native_locator melodi c.(source_native_locator) ≫= fun i => pair i <$> melodi.(d_peers) !! i with
  | None => Err EKEYREJECTED
  | Some (index, peer) =>
      if negb peer.(p_session_ready) || negb (c.(identity_generation) =? peer.(p_generation)) ||
         negb (metadata.(rm_source_locator) =? peer.(p_link_locator)) ||
         negb (metadata.(rm_destination_locator) =? MELODI_LINK_LOCATOR_BROADCAST) ||
         (match expected with Some source => negb (node_eqb source peer.(p_node_id)) | None => false end) ||
         negb (is_ok (melodi_policy_check_locked melodi peer.(p_node_id)))
      then Err EKEYREJECTED else Ok (index, peer)
  end.

Definition set_payload_length (n : Z) (h : melodi_wire_data) : melodi_wire_data :=
  let c := h.(data_common) in
  {| data_common := {|
       version := c.(version); frame_class := c.(frame_class); flags := c.(flags); header_length := c.(header_length);
       payload_length := n; source_native_locator := c.(source_native_locator);
       destination_native_locator := c.(destination_native_locator); identity_generation := c.(identity_generation);
       Wire.message_id := c.(Wire.message_id); counter := c.(counter) |};
     destination_service := h.(destination_service); source_service := h.(source_service);
     fragment_index := h.(fragment_index); fragment_count := h.(fragment_count);
     logical_length := h.(logical_length); delivery_mode := h.(delivery_mode);
     priority := h.(priority); ordering_marker := h.(ordering_marker); data_tag := h.(data_tag) |}.

Section Verify.
  Context (crypto_ed25519_check : bytes -> bytes -> bytes -> bool).

(** [melodi_identity_verify]: the check of the signature over a message that fits a
    frame, by an identity of the one known scheme. *)
Definition melodi_identity_verify (node : melodi_node_id) (message signature : bytes) : result unit :=
  if (MELODI_FRAME_MTU_MAX <? zlen message) || negb (byte_at 0 node.(node_bytes) =? MELODI_NODE_ID_SCHEME_ED25519) then Err EINVAL else
  if crypto_ed25519_check signature (drop 1 node.(node_bytes)) message then Ok tt else Err EKEYREJECTED.

(** The header as it goes on, the peer that has signed and the payload. *)
Definition melodi_data_authenticate_broadcast (e : receive_env) (gap : core -> core) (s : core) (frame : bytes)
    (metadata : melodi_rx_meta) : core * result (melodi_wire_data * melodi_node_id * bytes) :=
  match melodi_wire_decode_broadcast_data frame with
  | Err error => (s, Err error)
  | Ok (header, signature, payload) =>
  if negb e.(re_signing) then (s, Err ENOMEM) else
  match melodi_data_broadcast_peer_locked (dev s) header None metadata with
  | Err error => (s, Err error)
  | Ok (_, peer) =>
  let source := peer.(p_node_id) in
  match melodi_identity_verify source (load 0 MELODI_WIRE_BROADCAST_AUTH_SIZE frame ++ payload) signature with
  | Err error => (s, Err error)
  | Ok _ =>
  let s := gap s in
  match melodi_data_broadcast_peer_locked (dev s) header (Some source) metadata with
  | Err error => (s, Err error)
  | Ok (index, peer) =>
      match melodi_replay_mark peer.(p_receive_replay) header.(data_common).(counter) with
      | Err error => (s, Err error)
      | Ok replay =>
          let s := set_dev (with_peer index (set_p_receive_replay replay peer) (dev s)) s in
          if negb e.(re_plaintext) then (s, Err ENOMEM) else
          (s, Ok (set_payload_length (zlen payload) header, source, payload))
      end
  end
  end
  end
  end.

(** ** A frame is received *)

Section Cipher.
  Context {A : Aead} {Sg : Signer} (crypto_eddsa_public_key_check : bytes -> Z).

(** A broadcast, up to the end of its last section: the header and the peer that the
    rest of the call uses. *)
Definition receive_broadcast (e : receive_env) (g : receive_gaps) (s : core) (frame : bytes) (link_meta : melodi_rx_meta)
    (header : melodi_wire_data) : core * melodi_wire_data * melodi_node_id * Z * receive_outcome :=
  match melodi_data_authenticate_broadcast e g.(rg_verified) s frame link_meta with
  | (s, Err error) => (s, header, zero_node, 0, RxRefused error)
  | (s, Ok (header, source, plaintext)) =>
      let s := g.(rg_broadcast) s in
      let metadata := set_authenticated true link_meta in
      match (peer ← melodi_data_broadcast_peer_locked (dev s) header (Some source) link_meta;
             _ ← melodi_policy_check_service_locked (dev s) header.(destination_service) true;
             Ok peer) with
      | Err error => (s, header, source, 0, RxRefused error)
      | Ok (index, peer) =>
          let melodi := with_peer index (melodi_peer_observe_locked e.(re_now_ns) metadata peer) (dev s) in
          let '(melodi, outcome) := receive_admit e melodi source header 0 metadata plaintext in
          (set_dev melodi s, header, source, 0, outcome)
      end
  end.

(** A unicast frame, up to the end of its second section. *)
Definition receive_unicast (e : receive_env) (g : receive_gaps) (s : core) (frame : bytes) (link_meta : melodi_rx_meta)
    (header : melodi_wire_data) (ciphertext : bytes) : core * melodi_wire_data * melodi_node_id * Z * receive_outcome :=
  if negb e.(re_buffers) then (s, header, zero_node, 0, RxRefused ENOMEM) else
  match receive_lookup (dev s) header link_meta with
  | Err error => (s, header, zero_node, 0, RxRefused error)
  | Ok (duplicate, key, source, session_epoch) =>
      match open_fragment frame header ciphertext key with
      | None => (s, header, source, session_epoch, RxRefused EKEYREJECTED)
      | Some plaintext =>
          let s := g.(rg_opened) s in
          let '(melodi, outcome) := receive_opened e (dev s) source header session_epoch duplicate link_meta plaintext in
          (set_dev melodi s, header, source, session_epoch, outcome)
      end
  end.

(** What is handed to user space for a complete message, or echoed, the lock being free;
    with the error of the call so far. *)
Definition receive_hand_over (e : receive_env) (g : receive_gaps) (s : core) (outcome : receive_outcome)
    : core * list delivery * result unit :=
  match outcome with
  | RxOrdered (Ok _) batch _ _ => (g.(rg_unlocked) s, melodi_order_deliver batch, Ok tt)
  | RxOrdered (Err error) _ _ _ => (s, [], Err error)
  | RxComplete _ message =>
      let payload := load 0 (Z.to_nat message.(co_length)) message.(co_payload) in
      if message.(co_destination_service) =? MELODI_SERVICE_ECHO then
        let '(s, sent) :=
          send_direct msecs_to_jiffies crypto_eddsa_public_key_check g.(rg_echo_before) g.(rg_echo_between) g.(rg_echo_after)
            e.(re_echo) s
            (MkSend (Some message.(co_source)) MELODI_SERVICE_ECHO message.(co_source_service) payload MELODI_F_AUTH_REQUIRED 0
               MELODI_TTL_DEFAULT_MS 0 0 1 0) in
        (s, [], sent)
      else
        (g.(rg_unlocked) s, [MkDelivery message.(co_source) message.(co_source_service) message.(co_destination_service) payload
               message.(co_metadata)], e.(re_user))
  | _ => (s, [], Ok tt)
  end.

Definition count_broadcast_rx (melodi : melodi_device) : melodi_device :=
  set_d_data (set_a_broadcast_rx (melodi.(d_data).(a_broadcast_rx) + 1) melodi.(d_data)) melodi.

(** The receipt of a complete reliable message. *)
Definition receive_receipt (e : receive_env) (s : core) (message : completed) (header : melodi_wire_data)
    (session_epoch bitmap status : Z) : core * result unit :=
  let melodi := dev s in
  let c := header.(data_common) in
  let '(r, stored) := melodi_receipt_store msecs_to_jiffies e.(re_jiffies) melodi.(d_receive) message.(co_source)
                        c.(identity_generation) session_epoch c.(Wire.message_id) header.(fragment_count) bitmap status in
  (set_dev (melodi_reassembly_schedule msecs_to_jiffies e.(re_jiffies) e.(re_now_ms) (set_d_receive r melodi)) s, stored).

(** The first of two errors is reported. *)
Definition first_error (first second : result unit) : result unit :=
  match first with Err _ => first | Ok _ => second end.

(** Behind the sections under the lock: deliveries, statistics, receipt and
    acknowledgement. *)
Definition receive_finish (e : receive_env) (g : receive_gaps) (s : core) (header : melodi_wire_data) (session_epoch : Z)
    (outcome : receive_outcome) : core * list delivery * result unit :=
  let acknowledge s bitmap status :=
    melodi_data_send_ack g.(rg_sent) e.(re_ack) e.(re_stack) (g.(rg_ack) s) header bitmap status in
  match outcome with
  | RxRefused error => (s, [], Err error)
  | RxDuplicate (Err error) => (s, [], Err error)
  | RxDuplicate (Ok (bitmap, status)) => let '(s, sent) := acknowledge s bitmap status in (s, [], sent)
  | RxPartial bitmap =>
      if header_reliable header
      then let '(s, sent) := acknowledge s bitmap MELODI_ACK_PARTIAL in (s, [], sent)
      else (s, [], Ok tt)
  | RxOrdered _ _ bitmap message | RxComplete bitmap message =>
      let '(s, deliveries, error) := receive_hand_over e g s outcome in
      let s := if header_broadcast header && is_ok error then set_dev (count_broadcast_rx (dev s)) s else s in
      if header_reliable header then
        let status := if is_ok error then MELODI_ACK_COMPLETE else MELODI_ACK_REJECTED in
        let '(s, stored) := receive_receipt e (g.(rg_receipt) s) message header session_epoch bitmap status in
        let '(s, sent) := acknowledge s bitmap status in
        (s, deliveries, first_error (first_error error stored) sent)
      else (s, deliveries, error)
  end.

(** The checks before anything else is done with a frame. *)
Definition receive_checked (e : receive_env) (frame : bytes) : result (melodi_wire_data * bytes) :=
  '(header, ciphertext) ← melodi_wire_decode_data frame;
  _ ← melodi_data_header_valid header;
  if header_ordered header && negb e.(re_batch) then Err ENOMEM else Ok (header, ciphertext).

(** The sections under the lock. *)
Definition receive_sections (e : receive_env) (g : receive_gaps) (s : core) (frame : bytes) (link_meta : melodi_rx_meta)
    (header : melodi_wire_data) (ciphertext : bytes) : core * melodi_wire_data * melodi_node_id * Z * receive_outcome :=
  if header_broadcast header then receive_broadcast e g s frame link_meta header
  else receive_unicast e g s frame link_meta header ciphertext.

Definition melodi_data_receive (e : receive_env) (g : receive_gaps) (s : core) (frame : bytes) (link_meta : melodi_rx_meta)
    : core * list delivery * result unit :=
  match receive_checked e frame with
  | Err error => (s, [], Err error)
  | Ok (header, ciphertext) =>
      let '(s, header, _, session_epoch, outcome) := receive_sections e g s frame link_meta header ciphertext in
      receive_finish e g s header session_epoch outcome
  end.
End Cipher.
End Verify.
End Clock.
