(* ===== verification/Sequence.v ===== *)
(** * Sequences of ordered messages (src/kernel/core/data.c)

    The ordered flows of a device over arrivals, timer ticks and the ends of
    sessions: every operation keeps buffers and windows together, none of the
    failures the code guards against occurs, and what a flow takes out under the lock
    follows the order of its sender.  The batches are handed to user space with the lock
    released, each by the thread that took it out: what is handed on is what was taken
    out, each message once, and in that order while no batch overtakes another. *)
From stdpp Require Import gmap.
From S2P Require Import Prelude Buffer Uapi Wire Ordering Slots Device Peers Reassembly Delivery Send Receive.

(** ** One flow changes *)

Lemma set_flow_wf r f flow : receive_wf r -> receive_wf (set_r_order_rx (<[f := flow]> r.(r_order_rx)) r).
Proof.
  intros [W1 W2 W3 W4 W5 W6 W7 W8 W9]. constructor; cbn [set_r_order_rx r_reassemblies r_reassembly_bytes r_receipts
    r_order_tx r_order_rx r_order_messages r_order_bytes]; rewrite ?length_insert; assumption.
Qed.

(** The flow at a place keeps its key, or takes a new one. *)
Definition flow_place (r : receive_state) (f : nat) (flow : melodi_order_rx_flow) : Prop :=
  flow.(orx_active) = true /\ exists old, r.(r_order_rx) !! f = Some old /\
    (if old.(orx_active) then flow_key old = flow_key flow
     else forall g other, r.(r_order_rx) !! g = Some other -> other.(orx_active) = true -> flow_key other <> flow_key flow).

Lemma flow_place_key r specs f flow g other : order_rel r specs -> flow_place r f flow -> g <> f ->
  r.(r_order_rx) !! g = Some other -> other.(orx_active) = true -> flow_key other <> flow_key flow.
Proof.
  intros HR (_ & old & Hold & Hk) Hne Hg Ha E. destruct (orx_active old) eqn:Eo; [|now apply (Hk g other Hg Ha)].
  apply Hne, (or_keys r specs HR g f other old Hg Hold Ha Eo). congruence.
Qed.

Lemma place_belongs r specs f flow : order_rel r specs -> flow_place r f flow ->
  forall i m, buffered r f i m -> belongs m (flow_key flow).
Proof.
  intros HR (_ & old & Hold & Hk) i m Hm. destruct (or_messages r specs HR f i m Hm) as (fl & Hfl & Hfa & Hfb).
  rewrite Hold in Hfl. injection Hfl as ->. rewrite Hfa in Hk. now rewrite <- Hk.
Qed.

Lemma rel_update r r' specs f flow s :
  order_rel r specs -> flow_place r f flow -> r'.(r_order_rx) = <[f := flow]> r.(r_order_rx) ->
  receive_wf r' -> r'.(r_order_bytes) <= MELODI_ORDER_BYTE_LIMIT ->
  spec_of_flow r' f flow s -> (forall g K, g <> f -> holds r g K -> holds r' g K) ->
  (forall g j n, buffered r' g j n -> buffered r g j n \/ g = f /\ belongs n (flow_key flow)) ->
  (forall j n, r'.(r_order_messages) !! j = Some n -> n.(om_active) = true -> exists g, n.(om_flow_index) = Z.of_nat g) ->
  order_rel r' (<[flow_key flow := s]> specs).
Proof.
  intros HR Hp Hrx Hw Hb Hs Ho Hm Hn. pose proof (flow_place_key r specs f flow) as Hother.
  destruct (Hp) as (Ha & old & Hold & Hk). pose proof (lookup_lt_Some _ _ _ Hold) as Hf.
  assert (forall g other, r'.(r_order_rx) !! g = Some other -> other.(orx_active) = true ->
    g = f /\ other = flow \/ g <> f /\ r.(r_order_rx) !! g = Some other /\ flow_key other <> flow_key flow) as Hcase.
  { intros g other Hg Hga. rewrite Hrx in Hg. destruct (decide (g = f)) as [->|Hne].
    - rewrite list_lookup_insert_eq in Hg by exact Hf. injection Hg as <-. now left.
    - rewrite list_lookup_insert_ne in Hg by auto. right. eauto. }
  assert (forall g other, g <> f -> r.(r_order_rx) !! g = Some other -> r'.(r_order_rx) !! g = Some other) as Hkeep
    by (intros g other Hne Hg; now rewrite Hrx, list_lookup_insert_ne by auto).
  assert (r'.(r_order_rx) !! f = Some flow) as Hflow by (rewrite Hrx; now apply list_lookup_insert_eq).
  constructor; try assumption.
  - intros i j a b Hi Hj Hia Hja E. destruct (Hcase i a Hi Hia) as [[-> ->]|(Hi0 & Hi1 & Hi2)], (Hcase j b Hj Hja) as [[-> ->]|(Hj0 & Hj1 & Hj2)];
      [reflexivity|congruence|congruence|]. now apply (or_keys r specs HR i j a b).
  - intros g i m Hi. destruct (Hm g i m Hi) as [Hi'|[-> Hbel]]; [|exists flow; auto].
    destruct (decide (g = f)) as [->|Hne]; [exists flow; split; [exact Hflow|]; split; [exact Ha|]; now apply (place_belongs r specs f flow HR Hp i)|].
    destruct (or_messages r specs HR g i m Hi') as (fl & Hfl & Hfa & Hfb). exists fl. auto.
  - intros g flow' Hg Hga. destruct (Hcase g flow' Hg Hga) as [[-> ->]|(Hne & Hg' & Hk')].
    + exists s. split; [apply lookup_insert_eq|exact Hs].
    + destruct (or_active r specs HR g flow' Hg' Hga) as (s' & Hs' & HRs & Hh).
      exists s'. rewrite lookup_insert_ne by congruence. split; [exact Hs'|]. split; [exact HRs|]. now apply Ho.
  - intros k s' Hk'. destruct (decide (k = flow_key flow)) as [->|Hne]; [now exists f, flow|].
    rewrite lookup_insert_ne in Hk' by congruence. destruct (or_specs r specs HR k s' Hk') as (g & other & Hg & Hga & <-).
    exists g, other. split; [|auto]. apply Hkeep; [|exact Hg]. intros ->. rewrite Hold in Hg. injection Hg as ->.
    rewrite Hga in Hk. congruence.
Qed.

(** ** What a step delivers *)

(** From the next index on, with no more than 32 given up before each. *)
Fixpoint advances (e : Z) (idx : list Z) (e' : Z) : Prop :=
  match idx with
  | [] => e' = e
  | x :: idx => e <= x <= e + 32 /\ advances (x + 1) idx e'
  end.

Lemma advances_app e idx e1 idx' e2 : advances e idx e1 -> advances e1 idx' e2 -> advances e (idx ++ idx') e2.
Proof.
  revert e. induction idx as [|x idx IH]; intros e; cbn [advances app]; [intros ->; auto|]. intros [? ?] ?. auto.
Qed.

Lemma advances_zseq e m n : e <= m <= e + 32 -> 0 < n -> advances e (zseq m n) (m + n).
Proof.
  intros Hm Hn. rewrite <- (Z2Nat.id n) by lia. assert (Z.to_nat n <> 0%nat) as Hk by lia. revert Hk. generalize (Z.to_nat n).
  clear n Hn. intros n. revert e m Hm. induction n as [|n IH]; intros e m Hm Hk; [congruence|]. rewrite zseq_S. cbn [advances].
  split; [exact Hm|]. destruct n as [|n]; [change (zseq (m + 1) (Z.of_nat 0)) with (@nil Z); cbn [advances]; lia|]. replace (m + Z.of_nat (S (S n))) with (m + 1 + Z.of_nat (S n)) by lia.
  apply IH; [lia|congruence].
Qed.

Abbreviation flow_specs := (gmap (melodi_node_id * Z * Z * Z * Z) order_spec) (only parsing).

Definition next_of (specs : flow_specs) (k : melodi_node_id * Z * Z * Z * Z) : Z :=
  match specs !! k with Some s => s.(next_index) | None => 0 end.

(** A step on the flow at [f] with the key [k], in which [new] may have arrived. *)
Record flow_step (r r' : receive_state) (specs specs' : flow_specs) (f : nat) (k : melodi_node_id * Z * Z * Z * Z)
    (new : option melodi_order_message) (batch : melodi_order_batch) : Prop := {
  fs_rel : order_rel r' specs';
  fs_other j : j <> k -> specs' !! j = specs !! j;
  fs_place : batch = [] \/ exists flow, r'.(r_order_rx) !! f = Some flow /\ flow_key flow = k;
  fs_order : exists idx, map om_marker batch = map marker_of idx /\ advances (next_of specs k) idx (next_of specs' k);
  fs_batch m : m ∈ batch -> m.(om_flow_index) = Z.of_nat f /\ belongs m k /\
    (m ∈ r.(r_order_messages) /\ m.(om_active) = true \/ Some m = new);
  fs_buffer m : m ∈ r'.(r_order_messages) -> m.(om_active) = true -> m ∈ r.(r_order_messages) \/ Some m = new;
}.

Lemma stutter_flow_step r specs f k new : order_rel r specs -> flow_step r r specs specs f k new [].
Proof.
  intros HR. constructor; [exact HR|reflexivity|now left|exists []; split; reflexivity|intros m Hm; now apply elem_of_nil in Hm|].
  intros m Hm _. now left.
Qed.

(** ** The flow of a message *)

Lemma rx_flow_found r source ss ds generation epoch :
  let k := (source, epoch, generation, ss, ds) in
  match melodi_order_rx_flow_locked r source ss ds generation epoch with
  | Ok (f, created) => exists old, r.(r_order_rx) !! f = Some old /\ old.(orx_active) = negb created /\
      (if created then forall g other, r.(r_order_rx) !! g = Some other -> other.(orx_active) = true -> flow_key other <> k
       else flow_key old = k)
  | Err e => e = ENOSPC
  end.
Proof.
  cbv zeta. unfold melodi_order_rx_flow_locked.
  set (same := fun f : melodi_order_rx_flow => (orx_generation f =? generation) && (orx_session_epoch f =? epoch) && (orx_source_service f =? ss) &&
    (orx_destination_service f =? ds) && node_eqb (orx_source f) source).
  assert (forall f, same f = true <-> flow_key f = (source, epoch, generation, ss, ds)) as Hsame.
  { intros f. unfold same, flow_key. unfold node_eqb. rewrite !andb_true_iff, !Z.eqb_eq, bool_decide_eq_true. split; [intros [[[[? ?] ?] ?] ?]|intros [= ? ? ? ? ?]]; subst; auto. }
  destruct (slot_search orx_active same (r_order_rx r) 0 None) as [found empty] eqn:Es.
  pose proof (slot_search_entry orx_active same (r_order_rx r) 0 None) as H1. rewrite Es in H1. cbn [fst] in H1.
  pose proof (slot_search_empty orx_active same (r_order_rx r) 0) as H2. rewrite Es in H2. cbn [snd] in H2.
  destruct (find_index (fun e => orx_active e && same e) (r_order_rx r)) as [j|] eqn:Ef; cbn [fmap option_fmap option_map Nat.add] in H1; subst found.
  - apply find_index_Some in Ef as (old & Hold & Ht & _). apply andb_true_iff in Ht as [Ha Hs%Hsame]. exists old. auto.
  - rewrite (H2 eq_refl). destruct (find_index (fun e => negb (orx_active e)) (r_order_rx r)) as [j|] eqn:Ee;
      cbn [fmap option_fmap option_map Nat.add]; [|reflexivity].
    apply find_index_Some in Ee as (old & Hold & Ha%negb_true_iff & _). exists old. split; [exact Hold|]. split; [exact Ha|].
    intros g other Hg Hga Hk%Hsame. rewrite find_index_None in Ef. specialize (Ef other (proj1 (list_elem_of_In _ _) (list_elem_of_lookup_2 _ _ _ Hg))).
    rewrite Hga, Hk in Ef. discriminate.
Qed.

(** What the window of a key is before a message of it is admitted. *)
Definition spec_of (specs : flow_specs) (k : melodi_node_id * Z * Z * Z * Z) : order_spec :=
  match specs !! k with Some s => s | None => MkSpec 0 [] end.

Lemma next_of_spec specs k : next_of specs k = (spec_of specs k).(next_index).
Proof. unfold next_of, spec_of. now destruct (specs !! k). Qed.

Lemma next_of_insert specs k s : next_of (<[k := s]> specs) k = s.(next_index).
Proof. unfold next_of. now rewrite lookup_insert_eq. Qed.

Lemma flow_before r specs f (created : bool) old k :
  order_rel r specs -> r.(r_order_rx) !! f = Some old -> old.(orx_active) = negb created ->
  (if created then forall g other, r.(r_order_rx) !! g = Some other -> other.(orx_active) = true -> flow_key other <> k
   else flow_key old = k) ->
  order_rep (if created then melodi_order_reset else old.(orx_state)) (spec_of specs k) /\ holds r f (spec_of specs k).(held).
Proof.
  intros HR Hf Ha Hk. destruct created; unfold spec_of.
  - destruct (specs !! k) as [s|] eqn:E.
    + destruct (or_specs r specs HR k s E) as (g & other & Hg & Hga & Hgk). now destruct (Hk g other Hg Hga).
    + split; [exact order_rep_reset|]. exact (unbuffered_flow r specs f old HR Hf Ha).
  - destruct (or_active r specs HR f old Hf Ha) as (s & Hs & HRs & Hh). rewrite <- Hk, Hs. auto.
Qed.

(** ** A flow takes a state, a message enters, a run leaves *)

Definition with_flow (r : receive_state) (f : nat) (flow : melodi_order_rx_flow) : receive_state :=
  set_r_order_rx (<[f := flow]> r.(r_order_rx)) r.

Lemma step_intro r r' specs f flow s new batch idx :
  order_rel r specs -> flow_place r f flow -> r'.(r_order_rx) = <[f := flow]> r.(r_order_rx) ->
  receive_wf r' -> r'.(r_order_bytes) <= MELODI_ORDER_BYTE_LIMIT ->
  spec_of_flow r' f flow s -> (forall g K, g <> f -> holds r g K -> holds r' g K) ->
  (forall g j n, buffered r' g j n -> buffered r g j n \/ g = f /\ Some n = new) ->
  (forall n, Some n = new -> belongs n (flow_key flow)) ->
  (forall j n, r'.(r_order_messages) !! j = Some n -> n.(om_active) = true -> exists g, n.(om_flow_index) = Z.of_nat g) ->
  map om_marker batch = map marker_of idx -> advances (next_of specs (flow_key flow)) idx s.(next_index) ->
  (forall m, m ∈ batch -> m.(om_flow_index) = Z.of_nat f /\ ((exists j, buffered r f j m) \/ Some m = new)) ->
  flow_step r r' specs (<[flow_key flow := s]> specs) f (flow_key flow) new batch.
Proof.
  intros HR Hp Hrx Hw Hb Hs Ho Hm Hnew Hn Hk Hadv Hbatch. constructor.
  - apply (rel_update r r' specs f flow s); try assumption. intros g j n Hj. destruct (Hm g j n Hj) as [?|[? ?]]; auto.
  - intros j Hj. now rewrite lookup_insert_ne by congruence.
  - right. exists flow. split; [|reflexivity]. rewrite Hrx. apply list_lookup_insert_eq.
    destruct Hp as (_ & old & Hold & _). exact (lookup_lt_Some _ _ _ Hold).
  - exists idx. rewrite next_of_insert. auto.
  - intros m Hm0. destruct (Hbatch m Hm0) as [Hf [[j Hj]|?]]; (split; [exact Hf|]); [|auto]. split; [now apply (place_belongs r specs f flow HR Hp j)|].
    left. split; [exact (list_elem_of_lookup_2 _ _ _ (proj1 Hj))|apply Hj].
  - intros m (j & Hj)%list_elem_of_lookup Ha. destruct (Hn j m Hj Ha) as (g & Hg).
    assert (buffered r' g j m) as Hbuf by (now split).
    assert (buffered r g j m -> m ∈ r_order_messages r) as Hin by (intros [H _]; now apply (list_elem_of_lookup_2 _ j)).
    destruct (Hm g j m Hbuf) as [?|[_ ?]]; auto.
Qed.

Lemma put_messages r i m f j n :
  melodi_order_message_empty r = Some i -> m.(om_flow_index) = Z.of_nat f ->
  (forall j n, r.(r_order_messages) !! j = Some n -> n.(om_active) = true -> exists g, n.(om_flow_index) = Z.of_nat g) ->
  (put_message r i m).(r_order_messages) !! j = Some n -> n.(om_active) = true -> exists g, n.(om_flow_index) = Z.of_nat g.
Proof.
  intros _ Hf Hn. unfold put_message. cbn [set_r_order_bytes set_r_order_messages r_order_messages]. destruct (decide (j = i)) as [->|Hne].
  - intros H _. apply list_lookup_insert_Some in H as [(_ & <- & _)|[? _]]; [now exists f|congruence].
  - rewrite list_lookup_insert_ne by auto. apply Hn.
Qed.

Section Step.
  Context (r : receive_state) (specs : flow_specs) (f : nat) (flow : melodi_order_rx_flow).
  Context (HR : order_rel r specs) (Hp : flow_place r f flow).
Let k := flow_key flow.
Let s := spec_of specs k.
  Context (st : melodi_order_state) (Hst : order_rep st s) (Hheld : holds r f s.(held)).

Lemma with_flow_other g K : holds r g K -> holds (with_flow r f flow) g K.
Proof. now apply holds_messages. Qed.

(** A message that waits. *)
Lemma held_step i m x :
  melodi_order_message_empty r = Some i -> m.(om_active) = true -> m.(om_flow_index) = Z.of_nat f ->
  0 <= m.(om_length) <= MELODI_ORDER_BYTE_LIMIT - r.(r_order_bytes) -> m.(om_marker) = marker_of x ->
  belongs m k -> x ∉ s.(held) -> close (x :: s.(held)) -> order_rep flow.(orx_state) (MkSpec s.(next_index) (x :: s.(held))) ->
  flow_step r (put_message (with_flow r f flow) i m) specs (<[k := MkSpec s.(next_index) (x :: s.(held))]> specs) f k (Some m) [].
Proof.
  intros He Ha Hf Hl Hk Hbel Hx Hc Hrep. pose proof (set_flow_wf r f flow (or_wf r specs HR)) as Hw.
  destruct (put_message_spec (with_flow r f flow) i m f Hw He Ha Hf Hl) as (Hw' & (_ & _ & _ & _ & Hrx) & Hb & Hbuf).
  destruct (put_message_holds (with_flow r f flow) i m f _ x Hw He Ha Hf Hl (with_flow_other f _ Hheld) Hc Hx Hk) as [Hh Ho].
  apply (step_intro _ _ _ _ _ _ _ _ []); try assumption.
  - rewrite Hb. change (r_order_bytes (with_flow r f flow)) with (r_order_bytes r). lia.
  - now split.
  - intros g K Hg HK. apply Ho; [exact Hg|now apply with_flow_other].
  - intros g j n [Hn|(-> & _ & ->)]%Hbuf; [now left|auto].
  - now intros n [= ->].
  - intros j n. apply (put_messages (with_flow r f flow) i m f); [exact He|exact Hf|]. exact (or_nat r specs HR).
  - reflexivity.
  - cbn [advances next_index]. now rewrite next_of_spec.
  - intros n Hn. now apply elem_of_nil in Hn.
Qed.

(** A run that leaves. *)
Lemma release_step r2 K m new :
  receive_wf r2 -> r2.(r_order_bytes) <= MELODI_ORDER_BYTE_LIMIT -> r2.(r_order_rx) = <[f := flow]> r.(r_order_rx) ->
  holds r2 f K -> (forall x, x ∈ K <-> x = m \/ x ∈ s.(held)) -> (forall g K, g <> f -> holds r g K -> holds r2 g K) ->
  (forall g j n, buffered r2 g j n -> buffered r g j n \/ g = f /\ Some n = new) -> (forall n, Some n = new -> belongs n k) ->
  (forall j n, r2.(r_order_messages) !! j = Some n -> n.(om_active) = true -> exists g, n.(om_flow_index) = Z.of_nat g) ->
  s.(next_index) <= m -> m = s.(next_index) \/ m ∈ s.(held) -> (forall x, x ∈ s.(held) -> m <= x) ->
  order_rep flow.(orx_state) (spec_release s m).1 ->
  exists r' l, melodi_order_detach_locked r2 f (marker_of m) (spec_release s m).2 [] = (r', l, Ok tt) /\
    flow_step r r' specs (<[k := (spec_release s m).1]> specs) f k new l.
Proof.
  intros Hw Hb Hrx Hh HK Ho Hbuf Hnew Hn Hle Hm Hmin Hrep.
  pose proof (release_detach r2 f st s K m Hw Hst Hh HK Hle Hm Hmin) as H. pose proof (run_length_nonneg 32 (held s) (m + 1)) as Hlen.
  assert (m <= next_index s + 32) as Hwin by (destruct Hm as [->|Hm]; [lia|]; pose proof (held_window st s m Hst Hm); lia).
  unfold spec_release in *. set (n := run_length 32 (held s) (m + 1)) in *. cbn [fst snd] in *.
  destruct H as (r' & l & E & [D1 (_ & _ & _ & _ & D2) D3 D4 D5] & Hh' & Hl). exists r', l. split; [exact E|].
  assert (forall n0, n0 ∈ l -> exists j, buffered r2 f j n0) as Hin.
  { intros n0 Hn0. apply list_elem_of_lookup in Hn0 as [j Hj]. destruct (Forall2_lookup_r _ _ _ _ _ Hl Hj) as (y & _ & _ & H). exact H. }
  apply (step_intro _ _ _ _ _ _ _ _ (zseq m (1 + n))); try assumption.
  - congruence.
  - lia.
  - split; [exact Hrep|exact Hh'].
  - intros g K0 Hg HK0. apply D4; [exact Hg|now apply Ho].
  - intros g j n0 (Hj & Ha & Hg). destruct (Hbuf g j n0) as [?|[-> ?]]; [split; [now apply D5|auto]|auto|auto].
  - intros j n0 Hj Ha. exact (Hn j n0 (D5 j n0 Hj Ha) Ha).
  - clear - Hl. induction Hl as [|x n0 l1 l2 [Hx _] _ IH]; cbn; [reflexivity|]. now rewrite Hx, IH.
  - rewrite next_of_spec. cbn [next_index]. replace (m + 1 + n) with (m + (1 + n)) by lia. fold k s. apply advances_zseq; lia.
  - intros n0 Hn0. destruct (Hin n0 Hn0) as (j & Hj). split; [apply Hj|].
    destruct (Hbuf f j n0 Hj) as [Hj0|[_ ?]]; [left; now exists j|auto].
Qed.

(** The message that is waited for. *)
Lemma enter_release j m :
  melodi_order_message_empty r = Some j -> m.(om_active) = true -> m.(om_flow_index) = Z.of_nat f ->
  0 <= m.(om_length) <= MELODI_ORDER_BYTE_LIMIT - r.(r_order_bytes) -> m.(om_marker) = marker_of s.(next_index) -> belongs m k ->
  order_rep flow.(orx_state) (spec_release s s.(next_index)).1 ->
  exists r' l, melodi_order_detach_locked (put_message (with_flow r f flow) j m) f (marker_of s.(next_index))
      (spec_release s s.(next_index)).2 [] = (r', l, Ok tt) /\
    flow_step r r' specs (<[k := (spec_release s s.(next_index)).1]> specs) f k (Some m) l.
Proof.
  intros He Ha Hf Hl Hk Hbel Hrep. pose proof (set_flow_wf r f flow (or_wf r specs HR)) as Hw.
  destruct (put_message_spec (with_flow r f flow) j m f Hw He Ha Hf Hl) as (Hw' & (_ & _ & _ & _ & Hrx) & Hb & Hbuf).
  assert (next_index s ∉ held s) as Hnin by (intros H%(held_window st s _ Hst); lia).
  destruct (put_message_holds (with_flow r f flow) j m f (held s) (next_index s) Hw He Ha Hf Hl (with_flow_other f _ Hheld)
    (held_close st s Hst) Hnin Hk) as [Hh Ho].
  apply (release_step _ (next_index s :: held s)); try assumption.
  - rewrite Hb. change (r_order_bytes (with_flow r f flow)) with (r_order_bytes r). lia.
  - intros x. apply elem_of_cons.
  - intros g K Hg HK. apply Ho; [exact Hg|]. now apply with_flow_other.
  - intros g j0 n [Hn|(-> & _ & ->)]%Hbuf; [now left|auto].
  - now intros n [= ->].
  - intros j0 n. apply (put_messages (with_flow r f flow) j m f); [exact He|exact Hf|]. exact (or_nat r specs HR).
  - lia.
  - now left.
  - intros x Hx. apply (held_window st s x Hst) in Hx. lia.
Qed.
End Step.

(** ** The operations *)

Lemma admit_zero state now : state.(expected) <> 0 -> melodi_order_admit state 0 now = (state, Err EINVAL).
Proof.
  intros He. unfold melodi_order_admit, melodi_order_distance. destruct (Z.eqb_spec (expected state) 0); [congruence|].
  now rewrite orb_true_r.
Qed.

Section Operations.
  Context (msecs_to_jiffies : Z -> Z).

(** The message that an arrival is buffered as. *)
Definition order_message (source : melodi_node_id) (header : melodi_wire_data) (metadata : melodi_rx_meta)
    (payload : bytes) (length : Z) (f : nat) : melodi_order_message :=
  MkOrderMessage source metadata payload length header.(ordering_marker) header.(source_service) header.(destination_service)
    (Z.of_nat f) true.

Definition header_flow (source : melodi_node_id) (header : melodi_wire_data) (epoch : Z) : melodi_node_id * Z * Z * Z * Z :=
  (source, epoch, header.(data_common).(identity_generation), header.(source_service), header.(destination_service)).

Lemma order_room r specs : order_rel r specs ->
  wrap 32 (MELODI_ORDER_BYTE_LIMIT - r.(r_order_bytes)) = MELODI_ORDER_BYTE_LIMIT - r.(r_order_bytes).
Proof.
  intros HR. pose proof (or_limit r specs HR). destruct (or_wf r specs HR) as [_ _ _ _ _ _ W7 _ W9].
  assert (0 <= r_order_bytes r) by (rewrite W9; apply sumZ_nonneg, Forall_map; exact W7). apply wrap_id. unfold uint. lia.
Qed.

Lemma arrival_flow r f (created : bool) old source epoch generation ss ds state :
  r.(r_order_rx) !! f = Some old -> old.(orx_active) = negb created ->
  (if created then forall g other, r.(r_order_rx) !! g = Some other -> other.(orx_active) = true ->
     flow_key other <> (source, epoch, generation, ss, ds)
   else flow_key old = (source, epoch, generation, ss, ds)) ->
  let flow := set_orx_state state (if created then MkOrderRx old.(orx_state) source epoch generation ss ds true else old) in
  flow_place r f flow /\ flow_key flow = (source, epoch, generation, ss, ds).
Proof.
  intros Hold Ha Hk. cbv zeta. unfold flow_place. destruct created; cbn [negb] in Ha; (split; [|try exact Hk; reflexivity]);
    (split; [first [exact Ha|reflexivity]|]); exists old; (split; [exact Hold|]); now rewrite Ha.
Qed.

(** What became of an arrival on the flow [k]: the code, the device, the batch. *)
Definition admitted (k : melodi_node_id * Z * Z * Z * Z) (specs : flow_specs) (message : nat -> melodi_order_message)
    (melodi melodi' : melodi_device) (batch : melodi_order_batch)
    (res : result unit) : Prop :=
  (exists e, res = Err e /\ In e [ENOSPC; ERANGE; EINVAL] /\ melodi' = melodi /\ batch = []) \/
  (res = Ok tt /\ exists f specs', flow_step melodi.(d_receive) melodi'.(d_receive) specs specs' f k (Some (message f)) batch).

Lemma admitted_refused k specs message melodi e :
  In e [ENOSPC; ERANGE; EINVAL] -> admitted k specs message melodi melodi [] (Err e).
Proof. intros He. left. now exists e. Qed.

Lemma admitted_duplicate k specs message melodi (f : nat) :
  order_rel melodi.(d_receive) specs -> admitted k specs message melodi melodi [] (Ok tt).
Proof. intros HR. right. split; [reflexivity|]. exists f, specs. now apply stutter_flow_step. Qed.

Lemma spec_admit_cases s i s' o : spec_admit s i = (s', o) ->
  match o with
  | SHeld => s.(next_index) < i <= s.(next_index) + 32 /\ (i ∉ s.(held)) /\ s' = MkSpec s.(next_index) (i :: s.(held))
  | SReleased first count => i = s.(next_index) /\ first = s.(next_index) /\ spec_release s s.(next_index) = (s', count)
  | SDuplicate | SRange => s' = s
  end.
Proof.
  unfold spec_admit. destruct (Z.eqb_spec i (next_index s)) as [->|Hne].
  - destruct (spec_release s (next_index s)) as [s1 n1]. intros [= <- <-]. auto.
  - destruct (Z.ltb_spec (next_index s) i), (Z.leb_spec i (next_index s + 32)); cbn [andb].
    1: case_decide; intros [= <- <-]; [reflexivity|auto].
    all: destruct (_ && _); now intros [= <- <-].
Qed.

Lemma admit_step jiffies now melodi source header epoch metadata payload length specs :
  order_rel melodi.(d_receive) specs -> now <= U64_MAX - 5000 -> u32 header.(ordering_marker) -> 0 <= length ->
  let '(melodi', batch, res) := melodi_order_admit_locked msecs_to_jiffies jiffies now melodi source header epoch metadata payload length [] in
  admitted (header_flow source header epoch) specs (order_message source header metadata payload length) melodi melodi' batch res.
Proof.
  intros HR Hnow Hmk Hlen. unfold melodi_order_admit_locked.
  pose proof (rx_flow_found (d_receive melodi) source (source_service header) (destination_service header)
    (identity_generation (data_common header)) epoch) as Hfl. cbv zeta in Hfl. fold (header_flow source header epoch) in Hfl.
  set (k := header_flow source header epoch) in *. set (r := d_receive melodi) in *.
  destruct (melodi_order_rx_flow_locked r source _ _ _ epoch) as [[f created]|e].
  2:{ subst e. apply admitted_refused. cbn [In]. auto. }
  destruct Hfl as (old & Hold & Ha & Hk). rewrite Hold.
  destruct (flow_before r specs f created old k HR Hold Ha Hk) as [Hst Hheld].
  set (state := if created then melodi_order_reset else orx_state old) in *. set (s := spec_of specs k) in *.
  destruct (decide (ordering_marker header = 0)) as [E0|E0].
  { rewrite E0, admit_zero. 2:{ destruct Hst as (-> & _). pose proof (marker_of_range (next_index s)). lia. }
    apply admitted_refused. cbn [In]. auto. }
  destruct (marker_near (next_index s) (ordering_marker header)) as (i & Hi & Hnear); [unfold uint in Hmk; lia|].
  pose proof (order_admit_refines state s i now Hst Hnear Hnow) as Hadm. rewrite Hi.
  destruct (melodi_order_admit state (marker_of i) now) as [next rep]. destruct (spec_admit s i) as [s' o] eqn:Es.
  destruct Hadm as [Hnext Hrep].
  set (base := if created then MkOrderRx (orx_state old) source epoch (identity_generation (data_common header)) (source_service header)
    (destination_service header) true else old) in *.
  set (flow := set_orx_state next base).
  destruct (arrival_flow r f created old source epoch (identity_generation (data_common header)) (source_service header)
    (destination_service header) next Hold Ha Hk) as [Hp Hkey]. fold base in Hp, Hkey. fold flow in Hp, Hkey. change (flow_key flow = k) in Hkey.
  rewrite (order_room r specs HR). apply spec_admit_cases in Es.
  pose proof (enter_release r specs f flow HR Hp state) as Hrelease. pose proof (held_step r specs f flow HR Hp) as Hhold.
  rewrite Hkey in Hrelease, Hhold. fold s in Hrelease, Hhold. specialize (Hrelease Hst Hheld). specialize (Hhold Hheld).
  set (m := order_message source header metadata payload length f).
  assert (om_marker m = marker_of i) as Hmark by exact Hi. assert (belongs m k) as Hbel by (now cbn).
  destruct o; cbn [reports] in Hrep; subst rep; cbn [code release_marker release_count].
  - destruct Es as (Hi1 & Hi2 & ->). destruct (Z.ltb_spec (MELODI_ORDER_BYTE_LIMIT - r_order_bytes r) length);
      [apply admitted_refused; cbn [In]; auto|].
    destruct (melodi_order_message_empty r) as [j|] eqn:Ee; [|apply admitted_refused; cbn [In]; auto].
    right. split; [reflexivity|]. exists f, (<[k := MkSpec (next_index s) (i :: held s)]> specs). rewrite schedule_receive. cbn [d_receive set_d_receive].
    rewrite <- Hi. fold base. fold flow. fold m. change (set_r_order_bytes _ _) with (put_message (with_flow r f flow) j m).
    apply Hhold; auto. intros x y. rewrite !elem_of_cons.
    intros [->|Hx] [->|Hy]; repeat match goal with H : _ ∈ held s |- _ => apply (held_window state s _ Hst) in H end; lia.
  - apply admitted_duplicate; assumption.
  - destruct Es as (-> & -> & Erel). destruct (Z.ltb_spec (MELODI_ORDER_BYTE_LIMIT - r_order_bytes r) length);
      [apply admitted_refused; cbn [In]; auto|].
    destruct (melodi_order_message_empty r) as [j|] eqn:Ee; [|apply admitted_refused; cbn [In]; auto].
    rewrite Erel in Hrelease. cbn [fst snd] in Hrelease. destruct (Hrelease j m) as (r' & l & Hdet & Hstep); auto.
    rewrite <- Hi. fold base. fold flow. fold m. change (set_r_order_bytes _ _) with (put_message (with_flow r f flow) j m).
    rewrite Hi, Hdet. right. split; [reflexivity|]. exists f, (<[k := s']> specs). rewrite schedule_receive. exact Hstep.
  - apply admitted_refused. cbn [In]. auto.
Qed.

(** The pass over the flows: nothing, or the run of one of them. *)
Definition polled (r r' : receive_state) (specs : flow_specs) (batch : melodi_order_batch) : Prop :=
  r' = r /\ batch = [] \/ exists f k specs', flow_step r r' specs specs' f k None batch.

Lemma poll_quiet st now : st.(expected) <> 0 -> st.(pending) = 0 \/ now < st.(deadline_ms) ->
  melodi_order_poll st now = (st, Ok (MkReport MELODI_ORDER_HELD 0 0)).
Proof.
  intros He Hq. unfold melodi_order_poll. destruct (Z.eqb_spec (expected st) 0); [congruence|].
  now replace ((pending st =? 0) || (now <? deadline_ms st)) with true by lia.
Qed.

Lemma poll_loop_step now r specs indices :
  order_rel r specs -> now <= U64_MAX - 5000 ->
  exists r' batch, order_poll_loop indices now r [] = (r', batch, Ok tt) /\ polled r r' specs batch.
Proof.
  intros HR Hnow. induction indices as [|f indices IH]; cbn [order_poll_loop]; [exists r, []; split; [reflexivity|now left]|].
  destruct (r_order_rx r !! f) as [flow|] eqn:Hf; [|exact IH]. destruct (orx_active flow) eqn:Ha; cbn [negb]; [|exact IH].
  destruct (or_active r specs HR f flow Hf Ha) as (s & Hs & Hst & Hheld).
  assert (spec_of specs (flow_key flow) = s) as Espec by (unfold spec_of; now rewrite Hs).
  destruct (decide (pending (orx_state flow) = 0 \/ now < deadline_ms (orx_state flow))) as [Hq|Hq].
  - rewrite poll_quiet; [|destruct Hst as (-> & _); pose proof (marker_of_range (next_index s)); lia|exact Hq].
    cbn [code]. replace (set_orx_state (orx_state flow) flow) with flow by (now destruct flow). rewrite list_insert_id by exact Hf.
    replace (set_r_order_rx (r_order_rx r) r) with r by (now destruct r). exact IH.
  - destruct (order_poll_refines (orx_state flow) s now Hst) as (m & Hm & Hmin & H); [lia|lia|].
    destruct (melodi_order_poll (orx_state flow) now) as [st' rep]. destruct (spec_release s m) as [s' n] eqn:Erel.
    destruct H as (Hst' & -> & _). cbn [code release_marker release_count].
    set (flow' := set_orx_state st' flow). assert (flow_place r f flow') as Hp by (split; [exact Ha|]; exists flow; rewrite Ha; auto).
    assert (s.(next_index) <= m) as Hle by (apply (held_window _ s m Hst) in Hm; lia).
    destruct (release_step r specs f flow' HR Hp
        (orx_state flow) ltac:(change (flow_key flow') with (flow_key flow); now rewrite Espec) (with_flow r f flow') (held s) m None)
      as (r' & l & Hdet & Hstep); change (flow_key flow') with (flow_key flow); rewrite ?Espec; rewrite ?Erel; try assumption; auto.
    + now apply set_flow_wf, (or_wf r specs HR).
    + exact (or_limit r specs HR).
    + now apply (holds_messages r).
    + intros x. split; [auto|]. now intros [->|?].
    + intros g K _. now apply holds_messages.
    + discriminate.
    + exact (or_nat r specs HR).
    + change (flow_key flow') with (flow_key flow) in Hdet, Hstep. rewrite Espec, Erel in Hdet, Hstep. cbn [fst snd] in Hdet, Hstep.
      change (set_r_order_rx _ r) with (with_flow r f flow'). rewrite Hdet. exists r', l. split; [reflexivity|]. right.
      exists f, (flow_key flow), (<[flow_key flow := s']> specs). exact Hstep.
Qed.

(** What does not touch the flows keeps the relation. *)
Lemma rel_same_flows r r' specs :
  order_rel r specs -> receive_wf r' -> r'.(r_order_rx) = r.(r_order_rx) -> r'.(r_order_messages) = r.(r_order_messages) ->
  r'.(r_order_bytes) = r.(r_order_bytes) -> order_rel r' specs.
Proof.
  intros [R1 R2 R3 R4 R5 R6 R7] Hw Hx Hm Hb. constructor; unfold buffered in *; rewrite ?Hx, ?Hm, ?Hb; try assumption.
  intros f flow Hf Ha. destruct (R6 f flow Hf Ha) as (s & Hs & HRs & Hh). exists s. split; [exact Hs|]. split; [exact HRs|].
  now apply (holds_messages r).
Qed.

(** ** The end of a session *)

Definition key_source (k : melodi_node_id * Z * Z * Z * Z) : melodi_node_id := k.1.1.1.1.

Definition forget_flows (node : melodi_node_id) (specs : flow_specs) : flow_specs :=
  filter (fun ks => key_source ks.1 <> node) specs.

Lemma forgotten_messages r node specs g j n : order_rel r specs ->
  buffered (peer_forgotten r node) g j n <->
  buffered r g j n /\ forall flow, r.(r_order_rx) !! g = Some flow -> flow.(orx_source) <> node.
Proof.
  intros HR. unfold buffered, peer_forgotten. cbn [r_order_messages].
  change (map (cleared ?c ?z) ?l !! j) with ((cleared c z <$> l) !! j). rewrite list_lookup_fmap.
  set (from := fun f : melodi_order_rx_flow => orx_active f && node_eqb (orx_source f) node).
  set (c := of_flows from (r_order_rx r) MELODI_ORDER_FLOW_LIMIT).
  assert (forall m, buffered r g j m -> c m = true <-> exists flow, r.(r_order_rx) !! g = Some flow /\ orx_source flow = node) as Hc.
  { intros m Hm. destruct (or_messages r specs HR g j m Hm) as (flow & Hflow & Ha & _). destruct Hm as (_ & Hma & Hmg).
    unfold c, of_flows, in_flow. rewrite Hma. cbn [andb]. rewrite existsb_exists. split.
    - intros (x & _ & [Hx Hat]%andb_true_iff). assert (x = g) as -> by lia. exists flow. split; [exact Hflow|].
      unfold at_index in Hat. rewrite Hflow in Hat. apply andb_true_iff in Hat as [_ Hat]. unfold node_eqb in Hat.
      now apply bool_decide_eq_true in Hat.
    - intros (flow' & Hflow' & Hsrc). rewrite Hflow in Hflow'. injection Hflow' as <-. exists g. split.
      + apply in_seq. pose proof (lookup_lt_Some _ _ _ Hflow). rewrite (wf_order_rx r (or_wf r specs HR)) in *. lia.
      + unfold at_index. rewrite Hflow. unfold from, node_eqb. rewrite Ha, Hsrc, bool_decide_eq_true_2 by reflexivity. lia. }
  split.
  - intros (Hn & Ha & Hg). destruct (r_order_messages r !! j) as [m|] eqn:Hm; [|discriminate]. injection Hn as <-. unfold cleared in *.
    destruct (c m) eqn:Ec; [discriminate|]. split; [auto|]. intros flow Hflow Hsrc.
    rewrite (proj2 (Hc m ltac:(repeat split; auto))) in Ec; [discriminate|]. now exists flow.
  - intros ((Hn & Ha & Hg) & Hno). rewrite Hn. cbn [fmap option_fmap option_map]. unfold cleared.
    destruct (c n) eqn:Ec; [|auto]. apply (Hc n ltac:(repeat split; auto)) in Ec as (flow & Hflow & Hsrc). now destruct (Hno flow Hflow).
Qed.

Lemma forgotten_flow r node g flow :
  (peer_forgotten r node).(r_order_rx) !! g = Some flow -> flow.(orx_active) = true ->
  r.(r_order_rx) !! g = Some flow /\ flow.(orx_source) <> node.
Proof.
  unfold peer_forgotten. cbn [r_order_rx]. change (map (cleared ?c ?z) ?l !! g) with ((cleared c z <$> l) !! g).
  rewrite list_lookup_fmap. destruct (r_order_rx r !! g) as [old|]; [|discriminate]. intros [= <-]. unfold cleared, node_eqb.
  destruct (orx_active old) eqn:Ha; cbn [andb]; [|congruence]. case_bool_decide as Hs; [discriminate|auto].
Qed.

Lemma kept_flow r node g flow : r.(r_order_rx) !! g = Some flow -> flow.(orx_source) <> node ->
  (peer_forgotten r node).(r_order_rx) !! g = Some flow.
Proof.
  intros Hg Hs. unfold peer_forgotten. cbn [r_order_rx]. change (map (cleared ?c ?z) ?l !! g) with ((cleared c z <$> l) !! g).
  rewrite list_lookup_fmap, Hg. cbn [fmap option_fmap option_map]. unfold cleared, node_eqb.
  rewrite bool_decide_eq_false_2 by exact Hs. now rewrite andb_false_r.
Qed.

Lemma forget_step r node specs : order_rel r specs -> order_rel (melodi_data_peer_reset_locked r node) (forget_flows node specs).
Proof.
  intros HR. pose proof (or_wf r specs HR) as Hw. rewrite (peer_reset_forgets r node Hw).
  pose proof (forgotten_messages r node specs) as Hb.
  constructor.
  - now apply peer_forgotten_wf.
  - pose proof (or_limit r specs HR). destruct Hw as [_ _ _ _ _ _ W7 _ W9]. unfold peer_forgotten. cbn [r_order_bytes].
    match goal with |- sumZ (map om_weight (map (cleared ?c _) _)) <= _ =>
      destruct (cleared_sum om_weight c zero_order_message (r_order_messages r) eq_refl W7) as [_ Hle] end. lia.
  - intros i j a b Hi Hj Ha Hb' E. apply forgotten_flow in Hi as [Hi _], Hj as [Hj _]; auto. now apply (or_keys r specs HR i j a b).
  - intros g i m Hm. apply (Hb g i m HR) in Hm as [Hm Hno]. destruct (or_messages r specs HR g i m Hm) as (flow & Hf & Ha & Hbel).
    exists flow. split; [|auto]. apply kept_flow; [exact Hf|now apply Hno].
  - intros i m Hi Ha. unfold peer_forgotten in Hi. cbn [r_order_messages] in Hi. apply list_elem_of_lookup_2, list_elem_of_In, in_map_iff in Hi as (old & E & Hin%list_elem_of_In).
    unfold cleared in E. destruct (of_flows _ _ _ old); [subst m; discriminate|subst old].
    apply list_elem_of_lookup in Hin as [j Hj]. exact (or_nat r specs HR j m Hj Ha).
  - intros g flow Hg Ha. apply forgotten_flow in Hg as [Hg Hs]; [|exact Ha]. destruct (or_active r specs HR g flow Hg Ha) as (s & Hk & Hst & [H1 H2 H3]).
    exists s. split; [apply map_lookup_filter_Some; auto|]. split; [exact Hst|].
    assert (forall j n, buffered (peer_forgotten r node) g j n <-> buffered r g j n) as Hb'.
    { intros j n. rewrite (Hb g j n HR). split; [tauto|]. intros H; split; [exact H|]. intros fl Hfl. congruence. }
    constructor; setoid_rewrite Hb'; assumption.
  - intros k s (Hk & Hs)%map_lookup_filter_Some. cbn [fst] in Hs. destruct (or_specs r specs HR k s Hk) as (f & flow & Hf & Ha & <-).
    exists f, flow. split; [|auto]. now apply kept_flow.
Qed.

(** ** Runs *)

(** What happens to the flows: a message arrives, the timer's work runs, a session
    ends. *)
Inductive flow_event : Type :=
| FArrive (jiffies now : Z) (source : melodi_node_id) (header : melodi_wire_data) (epoch : Z) (metadata : melodi_rx_meta)
    (payload : bytes) (length : Z)
| FTimer (alloc : bool) (jiffies now : Z)
| FForget (node : melodi_node_id).

(** The device after the section of an event under the lock, and the batch that the
    section takes out. *)
Definition flow_event_run (melodi : melodi_device) (ev : flow_event) : melodi_device * melodi_order_batch :=
  match ev with
  | FArrive jiffies now source header epoch metadata payload length =>
      fst (melodi_order_admit_locked msecs_to_jiffies jiffies now melodi source header epoch metadata payload length [])
  | FTimer alloc jiffies now => melodi_reassembly_locked msecs_to_jiffies alloc jiffies now melodi
  | FForget node => (set_d_receive (melodi_data_peer_reset_locked melodi.(d_receive) node) melodi, [])
  end.

(** Each message taken out, with the flow that its index names. *)
Definition tagged (melodi : melodi_device) (batch : melodi_order_batch)
    : list (option (melodi_node_id * Z * Z * Z * Z) * melodi_order_message) :=
  map (fun m => (flow_key <$> melodi.(d_receive).(r_order_rx) !! Z.to_nat m.(om_flow_index), m)) batch.

Fixpoint flow_run (melodi : melodi_device) (evs : list flow_event)
    : list (option (melodi_node_id * Z * Z * Z * Z) * melodi_order_message) :=
  match evs with
  | [] => []
  | ev :: evs => let '(melodi', batch) := flow_event_run melodi ev in tagged melodi' batch ++ flow_run melodi' evs
  end.

(** Times before the end of the clock, markers of 32 bits. *)
Definition event_ok (ev : flow_event) : Prop :=
  match ev with
  | FArrive _ now _ header _ _ _ length => now <= U64_MAX - 5000 /\ u32 header.(ordering_marker) /\ 0 <= length
  | FTimer _ _ now => now <= U64_MAX - 5000
  | FForget _ => True
  end.

(** The messages of a flow among those. *)
Definition of_key (k : melodi_node_id * Z * Z * Z * Z)
    (out : list (option (melodi_node_id * Z * Z * Z * Z) * melodi_order_message)) : list melodi_order_message :=
  map snd (filter (fun o => o.1 = Some k) out).

(** What may be taken out: what was buffered, and what has arrived. *)
Definition arrived (evs : list flow_event) (m : melodi_order_message) : Prop :=
  exists jiffies now source header epoch metadata payload length f,
    FArrive jiffies now source header epoch metadata payload length ∈ evs /\
    m = order_message source header metadata payload length f.

Definition available (r : receive_state) (evs : list flow_event) (m : melodi_order_message) : Prop :=
  m ∈ r.(r_order_messages) /\ m.(om_active) = true \/ arrived evs m.

(** One event: the flow [k] goes on by what is taken out for it. *)
Definition event_effect (k : melodi_node_id * Z * Z * Z * Z) (melodi melodi' : melodi_device) (specs specs' : flow_specs)
    (ev : flow_event) (batch : melodi_order_batch) : Prop :=
  order_rel melodi'.(d_receive) specs' /\
  (exists idx, map om_marker (of_key k (tagged melodi' batch)) = map marker_of idx /\
     advances (next_of specs k) idx (next_of specs' k)) /\
  (forall m, m ∈ of_key k (tagged melodi' batch) -> belongs m k /\ available melodi.(d_receive) [ev] m) /\
  (forall m, m ∈ melodi'.(d_receive).(r_order_messages) -> m.(om_active) = true -> available melodi.(d_receive) [ev] m).

Lemma of_key_tagged melodi batch k f flow :
  (forall m, m ∈ batch -> m.(om_flow_index) = Z.of_nat f) -> melodi.(d_receive).(r_order_rx) !! f = Some flow ->
  of_key k (tagged melodi batch) = if decide (flow_key flow = k) then batch else [].
Proof.
  intros Hb Hf. unfold of_key, tagged. induction batch as [|m batch IH]; [now destruct (decide _)|]. cbn [map].
  rewrite filter_cons. cbn [fst]. rewrite (Hb m) by (apply elem_of_cons; auto). rewrite Nat2Z.id, Hf. cbn [fmap option_fmap option_map].
  assert (forall m0, m0 ∈ batch -> om_flow_index m0 = Z.of_nat f) as Hb' by (intros m0 H; apply Hb, elem_of_cons; auto). specialize (IH Hb').
  destruct (decide (flow_key flow = k)) as [E|E].
  - rewrite decide_True by congruence. cbn [map snd]. now rewrite IH.
  - rewrite decide_False by congruence. exact IH.
Qed.

Lemma step_effect k j melodi melodi' specs specs' f new batch ev :
  flow_step melodi.(d_receive) melodi'.(d_receive) specs specs' f j new batch ->
  (forall m, Some m = new -> arrived [ev] m) -> event_effect k melodi melodi' specs specs' ev batch.
Proof.
  intros [S1 S2 S3 S4 S5 S6] Hnew. assert (forall m, m ∈ r_order_messages (d_receive melodi) /\ om_active m = true \/ Some m = new -> available (d_receive melodi) [ev] m)
    as Hav by (intros m [?|?]; [now left|right; auto]).
  split; [exact S1|]. split; [|split].
  2:{ destruct S3 as [->|(flow & Hf & Hk)]; [intros m Hm; now apply elem_of_nil in Hm|].
      rewrite (of_key_tagged melodi' batch k f flow (fun m Hm => proj1 (S5 m Hm)) Hf). destruct (decide (flow_key flow = k)) as [E|E].
      - intros m Hm. destruct (S5 m Hm) as (_ & Hbel & Hm'). split; [congruence|auto].
      - intros m Hm. now apply elem_of_nil in Hm. }
  2:{ intros m Hm Ha. destruct (S6 m Hm Ha); apply Hav; auto. }
  destruct (decide (j = k)) as [->|Hne].
  - destruct S4 as (idx & Hidx & Hadv). destruct S3 as [->|(flow & Hf & Hk)]; [exists idx; auto|].
    rewrite (of_key_tagged melodi' batch k f flow (fun m Hm => proj1 (S5 m Hm)) Hf), decide_True by exact Hk. exists idx. auto.
  - exists []. unfold next_of. rewrite (S2 k) by congruence. split; [|reflexivity]. destruct S3 as [->|(flow & Hf & Hk)]; [reflexivity|].
    now rewrite (of_key_tagged melodi' batch k f flow (fun m Hm => proj1 (S5 m Hm)) Hf), decide_False by congruence.
Qed.

(** An event that takes out nothing and leaves the flows of the key. *)
Lemma silent_effect k melodi melodi' specs specs' ev :
  order_rel melodi'.(d_receive) specs' -> next_of specs' k = next_of specs k ->
  (forall m, m ∈ melodi'.(d_receive).(r_order_messages) -> m.(om_active) = true -> m ∈ melodi.(d_receive).(r_order_messages)) ->
  event_effect k melodi melodi' specs specs' ev [].
Proof.
  intros HR Hn Hm. split; [exact HR|]. split; [exists []; now rewrite Hn|]. split; [intros m H; now apply elem_of_nil in H|].
  intros m H Ha. left. auto.
Qed.

Lemma expire_rel jiffies r specs : order_rel r specs ->
  order_rel (melodi_reassembly_expire jiffies r) specs /\
  (melodi_reassembly_expire jiffies r).(r_order_messages) = r.(r_order_messages).
Proof.
  intros HR. pose proof (or_wf r specs HR) as Hw. rewrite (expire_shape jiffies r Hw). cbv zeta. split; [|reflexivity].
  apply (rel_same_flows r); try reflexivity; [exact HR|]. destruct Hw as [W1 W2 W3 W4 W5 W6 W7 W8 W9].
  constructor; cbn [r_reassemblies r_reassembly_bytes r_receipts r_order_tx r_order_rx r_order_messages r_order_bytes];
    rewrite ?length_map; auto. apply Forall_cleared; [cbn; lia|exact W6].
Qed.

Lemma forgotten_subset r node specs m : order_rel r specs ->
  m ∈ (peer_forgotten r node).(r_order_messages) -> m.(om_active) = true -> m ∈ r.(r_order_messages).
Proof.
  intros HR Hm Ha. unfold peer_forgotten in Hm. cbn [r_order_messages] in Hm.
  apply list_elem_of_In, in_map_iff in Hm as (old & E & Hin%list_elem_of_In). unfold cleared in E.
  destruct (of_flows _ _ _ old); [subst m; discriminate|now subst].
Qed.

Lemma poll_locked_step now r specs : order_rel r specs -> now <= U64_MAX - 5000 ->
  exists r' batch, melodi_order_poll_locked now r [] = (r', batch, Ok tt) /\ polled r r' specs batch.
Proof. exact (poll_loop_step now r specs _). Qed.

Lemma timer_step k alloc jiffies now melodi specs :
  order_rel melodi.(d_receive) specs -> now <= U64_MAX - 5000 ->
  let res := melodi_reassembly_locked msecs_to_jiffies alloc jiffies now melodi in
  exists specs', event_effect k melodi res.1 specs specs' (FTimer alloc jiffies now) res.2.
Proof.
  intros HR Hnow. cbv zeta. unfold melodi_reassembly_locked. destruct alloc; cbn [negb]; [|exists specs; apply silent_effect; auto].
  destruct (expire_rel jiffies _ specs HR) as [HR' Hm]. generalize dependent (melodi_reassembly_expire jiffies (d_receive melodi)). intros r HR' Hm.
  destruct (poll_locked_step now r specs HR' Hnow) as (r' & batch & -> & Heff). cbn [fst snd].
  pose proof (schedule_receive msecs_to_jiffies jiffies now (set_d_receive r' melodi)) as Hr'. cbn [d_receive set_d_receive] in Hr'.
  generalize dependent (melodi_reassembly_schedule msecs_to_jiffies jiffies now (set_d_receive r' melodi)). intros melodi' Hr'.
  destruct Heff as [[-> ->]|(f & j & specs' & Hstep)].
  - exists specs. apply silent_effect; rewrite ?Hr'; auto. intros m. now rewrite Hm.
  - exists specs'. rewrite <- Hr' in Hstep. change r with (d_receive (set_d_receive r melodi)) in Hstep.
    destruct (step_effect k j _ _ _ _ f None batch (FTimer true jiffies now) Hstep ltac:(discriminate)) as (E1 & E2 & E3 & E4).
    unfold available in E3, E4. cbn [d_receive set_d_receive] in E3, E4. rewrite Hm in E3, E4.
    exact (conj E1 (conj E2 (conj E3 E4))).
Qed.

Lemma event_step k melodi ev specs :
  order_rel melodi.(d_receive) specs -> event_ok ev -> ev <> FForget (key_source k) ->
  exists specs', event_effect k melodi (flow_event_run melodi ev).1 specs specs' ev (flow_event_run melodi ev).2.
Proof.
  intros HR Hok Hforget. destruct ev as [jiffies now source header epoch metadata payload length|alloc jiffies now|node]; cbn [event_ok flow_event_run] in *.
  - destruct Hok as (H1 & H2 & H3).
    pose proof (admit_step jiffies now melodi source header epoch metadata payload length specs HR H1 H2 H3) as H.
    destruct (melodi_order_admit_locked _ _ _ _ _ _ _ _ _ _ _) as [[melodi' batch] res]. cbn [fst snd].
    destruct H as [(e & _ & _ & -> & ->)|(_ & f & specs' & Hstep)].
    + exists specs. apply silent_effect; auto.
    + exists specs'. apply (step_effect k _ _ _ _ _ f _ _ _ Hstep). intros m [= ->].
      exists jiffies, now, source, header, epoch, metadata, payload, length, f. split; [apply elem_of_cons; now left|reflexivity].
  - exact (timer_step k alloc jiffies now melodi specs HR Hok).
  - exists (forget_flows node specs). pose proof (forget_step (d_receive melodi) node specs HR) as HR'.
    apply silent_effect; cbn [fst d_receive set_d_receive]; [exact HR'| |].
    + unfold next_of, forget_flows. assert (filter (fun ks : (melodi_node_id * Z * Z * Z * Z) * order_spec => key_source ks.1 <> node) specs !! k = specs !! k) as ->; [|reflexivity].
      apply option_eq. intros s. rewrite map_lookup_filter_Some. cbn [fst]. split; [tauto|]. intros Hs. split; [exact Hs|congruence].
    + rewrite (peer_reset_forgets _ _ (or_wf _ _ HR)). intros m. now apply (forgotten_subset _ _ specs).
Qed.

Lemma available_later melodi melodi' ev evs m :
  (forall m, m ∈ melodi'.(d_receive).(r_order_messages) -> m.(om_active) = true -> available melodi.(d_receive) [ev] m) ->
  available melodi'.(d_receive) evs m -> available melodi.(d_receive) (ev :: evs) m.
Proof.
  assert (forall evs' n, (forall e, e ∈ evs' -> e ∈ ev :: evs) -> arrived evs' n -> arrived (ev :: evs) n) as Hmono.
  { intros evs' n Hsub (jiffies & now & source & header & epoch & metadata & payload & length & f & Hin & ->).
    exists jiffies, now, source, header, epoch, metadata, payload, length, f. split; [now apply Hsub|reflexivity]. }
  intros Hm [[Hin Ha]|Harr].
  - destruct (Hm m Hin Ha) as [?|Harr]; [now left|]. right. apply (Hmono [ev]); [|exact Harr].
    intros e [->|He]%elem_of_cons; [apply elem_of_cons; auto|now apply elem_of_nil in He].
  - right. apply (Hmono evs); [|exact Harr]. intros e He. apply elem_of_cons. auto.
Qed.

Lemma flow_run_order k evs : forall melodi specs,
  order_rel melodi.(d_receive) specs -> Forall event_ok evs -> FForget (key_source k) ∉ evs ->
  exists idx e', map om_marker (of_key k (flow_run melodi evs)) = map marker_of idx /\ advances (next_of specs k) idx e' /\
    forall m, m ∈ of_key k (flow_run melodi evs) -> belongs m k /\ available melodi.(d_receive) evs m.
Proof.
  induction evs as [|ev evs IH]; intros melodi specs HR Hok Hforget.
  { exists [], (next_of specs k). split; [reflexivity|]. split; [reflexivity|]. intros m Hm. now apply elem_of_nil in Hm. }
  apply Forall_cons_iff in Hok as [Hev Hok]. rewrite not_elem_of_cons in Hforget. destruct Hforget as [Hne Hforget].
  destruct (event_step k melodi ev specs HR Hev ltac:(congruence)) as (specs' & HR' & (idx & Hidx & Hadv) & Hb & Hm).
  cbn [flow_run]. destruct (flow_event_run melodi ev) as [melodi' batch]. cbn [fst snd] in *.
  destruct (IH melodi' specs' HR' Hok Hforget) as (idx' & e' & Hidx' & Hadv' & Hb').
  assert (of_key k (tagged melodi' batch ++ flow_run melodi' evs) = of_key k (tagged melodi' batch) ++ of_key k (flow_run melodi' evs)) as ->
    by (unfold of_key; now rewrite list.filter_app, map_app).
  exists (idx ++ idx'), e'. split; [rewrite !map_app; congruence|]. split; [exact (advances_app _ _ _ _ _ Hadv Hadv')|].
  intros m [H|H]%elem_of_app.
  - destruct (Hb m H) as [Hbel Hav]. split; [exact Hbel|]. destruct Hav as [?|(j & n & so & h & e & me & p & l & f & Hin & ->)]; [now left|].
    right. exists j, n, so, h, e, me, p, l, f. split; [|reflexivity]. apply elem_of_cons. left.
    apply elem_of_cons in Hin as [Hin|Hin]; [exact Hin|now apply elem_of_nil in Hin].
  - destruct (Hb' m H) as [Hbel Hav]. split; [exact Hbel|]. now apply (available_later melodi melodi').
Qed.

(** ** Handing on

    A batch that a section took out is handed on by its thread after the lock has been
    released, message by message, as [melodi_order_deliver] does. *)

(** The device, the batches in the hands of threads, in the order in which they were
    taken out, and what has been handed on. *)
Record order_machine := MkOrderMachine {
  om_device : melodi_device;
  om_flight : list (list (option (melodi_node_id * Z * Z * Z * Z) * melodi_order_message));
  om_handed : list (option (melodi_node_id * Z * Z * Z * Z) * melodi_order_message);
}.

(** A section under the lock, or a message handed on from one of the batches. *)
Inductive order_step : Type :=
| OLocked (ev : flow_event)
| OHand (thread : nat).

(** The batches that are not empty; a thread whose batch is empty is done. *)
Definition busy {A} (flight : list (list A)) : list (list A) := filter (fun batch => batch <> []) flight.

Definition order_step_run (m : order_machine) (step : order_step) : order_machine :=
  match step with
  | OLocked ev =>
      let '(melodi, batch) := flow_event_run m.(om_device) ev in
      MkOrderMachine melodi (busy (m.(om_flight) ++ [tagged melodi batch])) m.(om_handed)
  | OHand thread =>
      match m.(om_flight) !! thread with
      | Some (message :: batch) => MkOrderMachine m.(om_device) (busy (<[thread := batch]> m.(om_flight))) (m.(om_handed) ++ [message])
      | _ => m
      end
  end.

Definition order_run (m : order_machine) (steps : list order_step) : order_machine := fold_left order_step_run steps m.

(** The sections of a run. *)
Definition sections (steps : list order_step) : list flow_event :=
  omap (fun step => match step with OLocked ev => Some ev | OHand _ => None end) steps.

(** The thread that took out first hands on first. *)
Definition in_turn (step : order_step) : Prop := match step with OHand thread => thread = 0%nat | OLocked _ => True end.

Lemma of_key_app k out out' : of_key k (out ++ out') = of_key k out ++ of_key k out'.
Proof. unfold of_key. now rewrite list.filter_app, map_app. Qed.

#[export] Instance of_key_perm k : Proper (Permutation ==> Permutation) (of_key k).
Proof. intros l l' H. unfold of_key. now rewrite H. Qed.

Lemma concat_busy {A} (l : list (list A)) : concat (busy l) = concat l.
Proof.
  unfold busy. induction l as [|x l IH]; [reflexivity|]. rewrite filter_cons. destruct (decide (x <> [])) as [|Hx]; cbn [concat]; [now rewrite IH|].
  destruct x; [exact IH|now destruct Hx].
Qed.

Lemma take_from {A} (l : list (list A)) i x batch : l !! i = Some (x :: batch) -> concat l ≡ₚ x :: concat (<[i := batch]> l).
Proof.
  intros Hi. rewrite insert_take_drop by exact (lookup_lt_Some _ _ _ Hi). rewrite <- (take_drop_middle l i _ Hi) at 1.
  rewrite !concat_app. cbn [concat]. cbn [app]. now rewrite <- Permutation_middle.
Qed.

Lemma handed_once steps : forall m,
  m.(om_handed) ++ concat m.(om_flight) ++ flow_run m.(om_device) (sections steps) ≡ₚ
  (order_run m steps).(om_handed) ++ concat (order_run m steps).(om_flight).
Proof.
  induction steps as [|[ev|thread] steps IH]; intros m; cbn [order_run fold_left sections omap list_omap].
  - cbn [flow_run]. now rewrite app_nil_r.
  - fold (order_run (order_step_run m (OLocked ev)) steps). rewrite <- IH. cbn [order_step_run flow_run]. destruct (flow_event_run (om_device m) ev) as [melodi batch].
    cbn [om_handed om_flight om_device]. rewrite concat_busy, concat_app. cbn [concat]. now rewrite app_nil_r, <- !app_assoc.
  - fold (order_run (order_step_run m (OHand thread)) steps). rewrite <- IH. cbn [order_step_run]. destruct (om_flight m !! thread) as [[|x batch]|] eqn:E; [reflexivity| |reflexivity].
    cbn [om_handed om_flight om_device]. rewrite concat_busy, (take_from _ _ _ _ E), <- !app_assoc. reflexivity.
Qed.

Lemma handed_in_turn steps : forall m, Forall in_turn steps ->
  m.(om_handed) ++ concat m.(om_flight) ++ flow_run m.(om_device) (sections steps) =
  (order_run m steps).(om_handed) ++ concat (order_run m steps).(om_flight).
Proof.
  induction steps as [|[ev|thread] steps IH]; intros m Hin; cbn [order_run fold_left sections omap list_omap].
  - cbn [flow_run]. now rewrite app_nil_r.
  - apply list.Forall_cons in Hin as [_ Hin]. fold (order_run (order_step_run m (OLocked ev)) steps). rewrite <- IH by exact Hin.
    cbn [order_step_run flow_run]. destruct (flow_event_run (om_device m) ev) as [melodi batch].
    cbn [om_handed om_flight om_device]. rewrite concat_busy, concat_app. cbn [concat]. now rewrite app_nil_r, <- !app_assoc.
  - apply list.Forall_cons in Hin as [Hth Hin]. cbn [in_turn] in Hth. subst thread. fold (order_run (order_step_run m (OHand 0)) steps).
    rewrite <- IH by exact Hin. cbn [order_step_run]. destruct (om_flight m) as [|[|x batch] rest] eqn:E; cbn [lookup list_lookup];
      [now rewrite E|now rewrite E|]. cbn [om_handed om_flight om_device]. rewrite concat_busy. cbn [concat insert list_insert]. cbn [app]. now rewrite <- !app_assoc.
Qed.

(** A call of the timer's work is a run: its section, and then its own batch, with
    whatever the others do in between. *)
Lemma order_run_device steps : forall m m', m.(om_device) = m'.(om_device) -> (order_run m steps).(om_device) = (order_run m' steps).(om_device).
Proof.
  induction steps as [|[ev|thread] steps IH]; intros m m' E; cbn [order_run fold_left]; [exact E|apply IH..].
  - cbn [order_step_run]. rewrite E. now destruct (flow_event_run (om_device m') ev).
  - cbn [order_step_run]. destruct (om_flight m !! thread) as [[]|], (om_flight m' !! thread) as [[]|]; exact E.
Qed.

Lemma work_is_run alloc jiffies now m steps :
  let work := melodi_reassembly_work msecs_to_jiffies (fun melodi => (order_run (MkOrderMachine melodi [] []) steps).(om_device)) alloc jiffies now m.(om_device) in
  work.1 = (order_run m (OLocked (FTimer alloc jiffies now) :: steps)).(om_device) /\
  work.2 = melodi_order_deliver (flow_event_run m.(om_device) (FTimer alloc jiffies now)).2.
Proof.
  cbv zeta. unfold melodi_reassembly_work. cbn [order_run fold_left order_step_run flow_event_run].
  destruct (melodi_reassembly_locked msecs_to_jiffies alloc jiffies now (om_device m)) as [melodi batch]. cbn [fst snd]. split; [|reflexivity].
  now apply order_run_device.
Qed.
End Operations.

Lemma order_rel_fresh : order_rel fresh_device.(d_receive) ∅.
Proof.
  assert (forall f flow, r_order_rx (d_receive fresh_device) !! f = Some flow -> orx_active flow = false) as Hrx.
  { intros f flow H. apply lookup_replicate in H as [-> _]. reflexivity. }
  assert (forall i m, r_order_messages (d_receive fresh_device) !! i = Some m -> om_active m = false) as Hom.
  { intros i m H. apply lookup_replicate in H as [-> _]. reflexivity. }
  constructor.
  - constructor; try reflexivity; apply Forall_replicate; cbn; lia.
  - cbn. lia.
  - intros i j a b Hi _ Ha. rewrite (Hrx i a Hi) in Ha. discriminate.
  - intros f i m (Hm & Ha & _). rewrite (Hom i m Hm) in Ha. discriminate.
  - intros i m Hm Ha. rewrite (Hom i m Hm) in Ha. discriminate.
  - intros f flow Hf Ha. rewrite (Hrx f flow Hf) in Ha. discriminate.
  - intros k s H. rewrite lookup_empty in H. discriminate.
Qed.

(** ** Properties *)

(** C25: ordered delivery on the device, which hands batches on with the lock released.
    From any state in which the buffered messages and the windows of the flows agree (a
    fresh device is one) and nothing is being handed on, over any interleaving of
    sections under the lock, for arrivals on any flows with any markers, timer work and
    ends of sessions of other nodes, with the deliveries of single messages by any of the
    threads that hold a batch: the messages that the sections take out for a flow carry
    the markers of a sequence of indices that starts at the one the flow expects and only
    goes forward, giving up at most 32 before each, and each is a message of that flow's
    source and services that was buffered or has arrived; what has been handed on and
    what the threads still hold are together the messages taken out, each once; and if
    the threads hand on in the order in which they took out, what is handed on for the
    flow is a beginning of that sequence.  They need not: see [batches_overtake]. *)
Theorem ordered_sequence msecs_to_jiffies k melodi specs steps :
  order_rel melodi.(d_receive) specs -> Forall event_ok (sections steps) -> FForget (key_source k) ∉ sections steps ->
  let m := order_run msecs_to_jiffies (MkOrderMachine melodi [] []) steps in
  let taken := of_key k (flow_run msecs_to_jiffies melodi (sections steps)) in
  let handed := of_key k m.(om_handed) in
  exists idx e', map om_marker taken = map marker_of idx /\ advances (next_of specs k) idx e' /\
    Forall (fun m => belongs m k /\ available melodi.(d_receive) (sections steps) m) taken /\
    taken ≡ₚ handed ++ of_key k (concat m.(om_flight)) /\
    (Forall in_turn steps -> handed `prefix_of` taken).
Proof.
  cbv zeta. intros HR Hok Hf. destruct (flow_run_order msecs_to_jiffies k (sections steps) melodi specs HR Hok Hf) as (idx & e' & H1 & H2 & H3).
  exists idx, e'. split; [exact H1|]. split; [exact H2|]. split; [now apply list.Forall_forall|].
  pose proof (handed_once msecs_to_jiffies steps (MkOrderMachine melodi [] [])) as Hp.
  pose proof (handed_in_turn msecs_to_jiffies steps (MkOrderMachine melodi [] [])) as Ht. cbn [om_handed om_flight om_device concat app] in Hp, Ht.
  split; [rewrite Hp; now rewrite of_key_app|]. intros Hin. rewrite (Ht Hin), of_key_app. now apply prefix_app_r.
Qed.

(** The guards of ordered delivery.  While buffers and windows agree, the
    arrival of a message succeeds or reports that the tables are full, that its
    marker lies outside of the window or that it has none, and then changes nothing;
    the pass of the timer always succeeds; both leave buffers and windows in agreement,
    and so does the end of a session, which forgets exactly the flows of its node.  In particular the failures for which the code
    throws a whole flow away, a message missing from a run or a batch too small for
    it, do not occur. *)
Theorem order_operations_total msecs_to_jiffies melodi specs now :
  order_rel melodi.(d_receive) specs -> now <= U64_MAX - 5000 ->
  (forall jiffies source header epoch metadata payload length, u32 header.(ordering_marker) -> 0 <= length ->
   let '(melodi', batch, res) := melodi_order_admit_locked msecs_to_jiffies jiffies now melodi source header epoch metadata payload length [] in
   (res = Ok tt /\ exists specs', order_rel melodi'.(d_receive) specs') \/
   (exists e, res = Err e /\ In e [ENOSPC; ERANGE; EINVAL] /\ melodi' = melodi /\ batch = [])) /\
  (exists r' batch specs', melodi_order_poll_locked now melodi.(d_receive) [] = (r', batch, Ok tt) /\ order_rel r' specs') /\
  (forall node, order_rel (melodi_data_peer_reset_locked melodi.(d_receive) node) (forget_flows node specs)).
Proof.
  intros HR Hnow. split; [|split].
  - intros jiffies source header epoch metadata payload length H1 H2.
    pose proof (admit_step msecs_to_jiffies jiffies now melodi source header epoch metadata payload length specs HR Hnow H1 H2) as H.
    destruct (melodi_order_admit_locked _ _ _ _ _ _ _ _ _ _ _) as [[melodi' batch] res].
    destruct H as [H|(-> & f & specs' & Hstep)]; [now right|]. left. split; [reflexivity|]. exists specs'. apply Hstep.
  - destruct (poll_locked_step now _ specs HR Hnow) as (r' & batch & E & [[-> ->]|(f & k & specs' & Hstep)]).
    + now exists (d_receive melodi), [], specs.
    + exists r', batch, specs'. split; [exact E|apply Hstep].
  - intros node. now apply forget_step.
Qed.

(** Three messages, of which the first arrives last and twice. *)
Definition sample_ordered (marker : Z) : melodi_wire_data := {|
  data_common := {| version := 1; frame_class := 1; flags := 3; header_length := 80; payload_length := 2;
    source_native_locator := 31; destination_native_locator := 40; identity_generation := 1; message_id := 77 + marker;
    counter := 5 + marker |};
  destination_service := 20; source_service := 10; fragment_index := 0; fragment_count := 1; logical_length := 2;
  delivery_mode := 1; priority := 2; ordering_marker := marker; data_tag := replicate 16 0;
|}.

Definition sample_source : melodi_node_id := MkNodeId (2 :: replicate 32 6).
Definition sample_flow : melodi_node_id * Z * Z * Z * Z := (sample_source, 3, 1, 10, 20).

Definition sample_admission (now marker : Z) : flow_event :=
  FArrive now now sample_source (sample_ordered marker) 3 zero_rx_meta [marker; 7] 2.

Definition sample_admissions : list flow_event :=
  [sample_admission 10 2; FTimer true 15 15; sample_admission 20 4; sample_admission 30 1; sample_admission 40 1; FTimer true 6000 6000].

Lemma sample_admissions_ok : Forall event_ok sample_admissions.
Proof. repeat constructor; by_decide. Qed.

(** The threads take turns in any order. *)
Definition sample_steps : list order_step :=
  map OLocked (take 4 sample_admissions) ++ [OHand 0] ++ map OLocked (drop 4 sample_admissions) ++ [OHand 0; OHand 0].

Lemma ordered_sequence_witness :
  let m := order_run id (MkOrderMachine fresh_device [] []) sample_steps in
  map om_marker (of_key sample_flow m.(om_handed)) = [1; 2; 4] /\ m.(om_flight) = [] /\
  exists idx e', map om_marker (of_key sample_flow (flow_run id fresh_device (sections sample_steps))) = map marker_of idx /\
    advances 0 idx e' /\
    of_key sample_flow m.(om_handed) `prefix_of` of_key sample_flow (flow_run id fresh_device (sections sample_steps)).
Proof.
  split; [vm_compute; reflexivity|]. split; [vm_compute; reflexivity|].
  destruct (ordered_sequence id sample_flow fresh_device ∅ sample_steps order_rel_fresh sample_admissions_ok) as (idx & e' & H1 & H2 & _ & _ & H3).
  - change (sections sample_steps) with sample_admissions. unfold sample_admissions. rewrite !not_elem_of_cons.
    repeat split; try discriminate. apply not_elem_of_nil.
  - exists idx, e'. split; [exact H1|]. split; [exact H2|]. apply H3. repeat constructor.
Defined.

(** The timer gives up waiting for the first message and takes out the second; before it
    hands it on, another thread takes out the third and hands it on. *)
Lemma batches_overtake :
  map om_marker (of_key sample_flow (order_run id (MkOrderMachine fresh_device [] [])
    [OLocked (sample_admission 10 2); OLocked (FTimer true 6000 6000); OLocked (sample_admission 6001 3); OHand 1; OHand 0]).(om_handed)) = [3; 2].
Proof. vm_compute. reflexivity. Qed.

Lemma order_operations_total_witness :
  (exists r' batch specs', melodi_order_poll_locked 5 fresh_device.(d_receive) [] = (r', batch, Ok tt) /\ order_rel r' specs').
Proof.
  apply (order_operations_total id fresh_device ∅ 5 order_rel_fresh). vm_compute. discriminate.
Defined.
