(* ===== verification/Kept.v ===== *)
(** * What sending leaves alone

    The sessions, the messages under way and the rules that decide about received
    frames are the same before and after every part of a send; what happens while the
    lock is released is the only way they change.  The lemmas are about any preorder
    on the states that contains this, so that a client chooses what it assumes of the
    others. *)
From S2P Require Import Prelude Buffer Uapi Wire Reliability Slots Device Fragments Peers Reassembly Delivery Identity Policy Queue Send Receive.

(** What decides about a received frame. *)
Definition underway (r : receive_state) :=
  (r.(r_reassembly_bytes), r.(r_reassemblies), r.(r_order_rx), r.(r_order_messages), r.(r_order_bytes),
   length r.(r_receipts), length r.(r_order_tx)).

Definition reception (s : core) :=
  (set_l_transmit_counter 0 (dev s).(d_link), (dev s).(d_peers), (dev s).(d_policy), underway (dev s).(d_receive)).

(** The messages that wait for a peer. *)
Definition waits_of (s : core) :=
  let a := (dev s).(d_data) in (a.(a_discovery_targets), a.(a_discovery_pending), a.(a_discovery_bytes), a.(a_discovery_count)).

(** What a step leaves alone that reports nothing ... *)
Definition aside (s : core) := (reception s, waits_of s, c_log s).

(** ... and what a step leaves alone that may add to the log. *)
Record quiet (s s' : core) : Prop := {
  quiet_reception : reception s = reception s';
  quiet_waits : waits_of s = waits_of s';
  quiet_log : exists events, c_log s' = c_log s ++ events;
}.

Lemma quiet_aside s s' : aside s = aside s' -> quiet s s'.
Proof.
  intros [[H1 H2]%pair_equal_spec H3]%pair_equal_spec. constructor; [exact H1|exact H2|]. exists []. now rewrite app_nil_r.
Qed.

#[export] Instance quiet_preorder : PreOrder quiet.
Proof.
  split; [intros s; now apply quiet_aside|]. intros s1 s2 s3 [A1 A2 [l1 A3]] [B1 B2 [l2 B3]].
  constructor; [now rewrite A1|now rewrite A2|]. exists (l1 ++ l2). now rewrite B3, A3, app_assoc.
Qed.

(** ** The queue *)

(** All of the core but its transmit queue. *)
Definition outside (s : core) : melodi_device * list event := (set_d_tx fresh_tx (dev s), c_log s).

Lemma outside_fill net meta gid expires request pi fi control ns l s :
  outside (fold_left (fill_slot net meta gid expires request pi fi control ns) l s) = outside s.
Proof. revert s. induction l as [|[slot frame] l IH]; intros s; [reflexivity|]. cbn [fold_left]. rewrite IH. cbn [fill_slot]. now destruct ns. Qed.

Lemma outside_capacity alloc s net locator request count bytes :
  outside (melodi_queue_capacity_locked alloc s net locator request count bytes).1.1 = outside s.
Proof.
  unfold melodi_queue_capacity_locked. destruct (melodi_namespace_queue_get _ _ _) as [[l k]|]; [|reflexivity].
  repeat match goal with |- context [if ?b then (set_spaces l s, _, _) else _] => destruct b; [reflexivity|] end. reflexivity.
Qed.

Ltac outside_check := match goal with |- outside ((if ?b then _ else _).1) = _ => destruct b; [reflexivity|] end.

Lemma outside_send_batch alloc running carrier net s frames meta request now :
  outside (melodi_core_send_batch alloc running carrier net s frames meta request now).1 = outside s.
Proof.
  unfold melodi_core_send_batch. do 2 outside_check. destruct (batch_bytes frames 0) as [bytes|]; [|reflexivity]. outside_check.
  destruct (if q_control request then Ok tt else _); [|reflexivity]. outside_check.
  pose proof (outside_capacity alloc s net (tm_destination_locator meta) request (zlen frames) bytes) as E.
  destruct (melodi_queue_capacity_locked _ _ _ _ _ _ _) as [[s1 ns] capacity]. cbn [fst] in E. rewrite <- E.
  destruct capacity as [?|error], ns as [i|]; try reflexivity. do 2 outside_check.
  destruct (if q_control request then Ok ((0%nat, false), (0%nat, false)) else _) as [[peer flow]|]; [|reflexivity].
  cbn [fst]. transitivity (outside (set_tx (set_t_group_sequence 0 fresh_tx) s1)); [|reflexivity].
  match goal with |- outside (batch_done ?x) = _ => change (outside x = outside s1) end. rewrite outside_fill. reflexivity.
Qed.

Lemma outside_send_batch_reserved running carrier s frames meta request id :
  outside (melodi_core_send_batch_reserved running carrier s frames meta request id).1 = outside s.
Proof.
  unfold melodi_core_send_batch_reserved. do 2 outside_check. destruct (batch_bytes frames 0) as [bytes|]; [|reflexivity].
  destruct (melodi_data_queue_valid_locked _ _ _ _ _ _ _); [|reflexivity].
  destruct (_ ≫= _) as [[i r]|]; [|reflexivity]. do 4 outside_check. cbn [fst].
  match goal with |- outside (batch_done (set_tx _ ?x)) = _ => change (outside x = outside s) end. rewrite outside_fill. reflexivity.
Qed.

Lemma outside_with_reservation s id guard f g : outside (with_reservation s id guard f g).1 = outside s.
Proof.
  unfold with_reservation. destruct (_ ≫= _) as [[i r]|]; [|reflexivity]. now destruct (guard r).
Qed.

Lemma aside_outside s s' : outside s = outside s' -> aside s = aside s'.
Proof.
  intros E. assert (forall s, aside s = aside (MkCore (outside s).1 [] (outside s).2)) as H by reflexivity.
  rewrite (H s), (H s'). now rewrite E.
Qed.

(** ** The parts of a send *)

Lemma quiet_emit e s : quiet s (emit e s).
Proof. constructor; [reflexivity|reflexivity|now exists [e]]. Qed.

Lemma quiet_pending_clear s i : quiet s (melodi_pending_clear s i).
Proof.
  unfold melodi_pending_clear. destruct (d_pending (c_dev s) !! i) as [p|]; [|reflexivity].
  destruct (negb (pm_allocated p)); [reflexivity|]. set (l := take _ _). clearbody l.
  transitivity (fold_left (fun s f => emit (Released f) s) l s); [|now apply quiet_aside].
  revert s. induction l as [|f l IH]; intros s; cbn [fold_left]; [reflexivity|]. etransitivity; [apply quiet_emit|apply IH].
Qed.

Lemma aside_counter melodi s count : aside (set_dev (take_counters count melodi) s) = aside (set_dev melodi s).
Proof. reflexivity. Qed.

Lemma aside_receive s r : underway r = underway (dev s).(d_receive) ->
  aside (set_dev (set_d_receive r (dev s)) s) = aside s.
Proof. intros E. unfold aside, reception, waits_of. cbn [set_dev c_dev set_d_receive d_link d_peers d_policy d_receive]. now rewrite E. Qed.

Lemma tx_marker_receive r destination ss ds generation epoch :
  underway (melodi_order_tx_marker_locked r destination ss ds generation epoch).1 = underway r.
Proof.
  unfold melodi_order_tx_marker_locked.
  repeat match goal with |- context [match ?x with _ => _ end] => destruct x end; cbn [fst]; try reflexivity;
    unfold underway; cbn [set_r_order_tx r_reassembly_bytes r_reassemblies r_order_rx r_order_messages r_order_bytes r_receipts r_order_tx];
    now rewrite ?length_insert.
Qed.

Lemma aside_prepare s a destination lookup count id : aside (prepare_unicast s a destination lookup count id).1 = aside s.
Proof.
  unfold prepare_unicast. destruct (if lookup then _ else _) as [peer|]; [|reflexivity].
  destruct (_ || _); [reflexivity|]. destruct (_ ← _; _) as [[]|]; [|reflexivity]. destruct (_ <? _); [reflexivity|].
  destruct (has _ MELODI_F_ORDERED) eqn:E; rewrite ?E; [|reflexivity].
  pose proof (tx_marker_receive (d_receive (take_counters count (dev s))) destination (sa_source_service a) (sa_destination_service a)
                (p_generation peer) (p_session_epoch peer)) as H.
  destruct (melodi_order_tx_marker_locked _ _ _ _ _ _) as [r marker]. cbn [fst] in H.
  assert (aside (set_dev (set_d_receive r (take_counters count (dev s))) s) = aside s) as Hr.
  { exact (aside_receive (set_dev (take_counters count (dev s)) s) r H). }
  destruct marker; exact Hr.
Qed.

Lemma aside_prepare_broadcast s a count id : aside (prepare_broadcast s a count id).1 = aside s.
Proof.
  unfold prepare_broadcast. do 3 (match goal with |- context [if ?b then _ else _] => destruct b; [reflexivity|] end).
  now destruct (melodi_policy_check_service_locked _ _ _) as [[]|].
Qed.

Section Kept.
  Context (R : core -> core -> Prop) `{!PreOrder R} (HQ : forall s s', quiet s s' -> R s s').
  Context {A : Aead} {Sg : Signer} (msecs_to_jiffies : Z -> Z).

Lemma HR s s' : aside s = aside s' -> R s s'.
Proof. intros H. now apply HQ, quiet_aside. Qed.

Lemma kept_admit s a destination meta sl dl g dg ep id count pace now frames :
  R s (melodi_pending_admit_locked msecs_to_jiffies s a destination meta sl dl g dg ep id count pace now frames).1.
Proof.
  apply HR. symmetry. unfold melodi_pending_admit_locked. destruct (find_index _ _) as [index|]; [|reflexivity].
  pose proof (outside_with_reservation s (sa_reservation a) v_pending_reserved (set_v_pending_reserved false)
    (fun t => set_t_pending_reserved (wrap 16 (t.(t_pending_reserved) - 1)) t)) as E.
  assert (exists s1 reserved, (if sa_reservation a =? 0 then (s, Ok tt) else melodi_queue_reservation_pending s (sa_reservation a)) = (s1, reserved) /\
            aside s1 = aside s) as (s1 & reserved & -> & <-).
  { destruct (sa_reservation a =? 0); [eauto|]. unfold melodi_queue_reservation_pending. destruct (with_reservation _ _ _ _ _) as [s1 reserved].
    exists s1, reserved. split; [reflexivity|]. now apply aside_outside. }
  destruct reserved as [[]|]; [|reflexivity]. destruct (_ <? _); [reflexivity|].
  destruct (melodi_reliability_start _ _ _ _ _ _ _) as [reliability [[]|]]; [|reflexivity].
  cbn [fst]. unfold melodi_reliability_schedule. destruct (melodi_reliability_pending _); reflexivity.
Qed.

Lemma kept_batch (e : send_env) (reservation : Z) s frames meta request :
  R s (if reservation =? 0
       then melodi_core_send_batch e.(se_namespace) e.(se_running) e.(se_carrier) e.(se_net) s frames meta request e.(se_queue_ms)
       else melodi_core_send_batch_reserved e.(se_running) e.(se_carrier) s frames meta request reservation).1.
Proof.
  apply HR. symmetry. apply aside_outside. destruct (reservation =? 0); [apply outside_send_batch|apply outside_send_batch_reserved].
Qed.

Lemma kept_finish between after e s a destination mtu count p : (forall s, R s (between s)) -> (forall s, R s (after s)) ->
  R s (finish_unicast msecs_to_jiffies between after e s a destination mtu count p).1.
Proof.
  intros Hb Ha. unfold finish_unicast. destruct (seal_loop _ _ _ _ _ _ _ _ _) as [frames|]; [|reflexivity].
  match goal with |- context [let '(s, filed) := ?x in _] => set (X := x) end.
  assert (R s X.1) as Hx.
  { subst X. destruct (reliable_flags _); [|reflexivity]. destruct (negb _); [reflexivity|].
    destruct (_ ≫= _) as [peer|]; [|apply Hb]. destruct (_ || _); [apply Hb|]. etransitivity; [apply Hb|apply kept_admit]. }
  destruct X as [s1 filed]. cbn [fst] in Hx. destruct filed as [[]|]; [|exact Hx].
  pose proof (kept_batch e (sa_reservation a) (after s1) frames (pr_meta p) (pr_request p)) as H2.
  destruct (if sa_reservation a =? 0 then _ else _) as [s2 sent]. cbn [fst] in H2.
  assert (R s s2) as H3 by (etransitivity; [exact Hx|]; etransitivity; [apply Ha|exact H2]).
  destruct sent as [[]|]; [exact H3|]. destruct (negb _); [exact H3|]. destruct (find_index _ _); [|exact H3].
  cbn [fst]. etransitivity; [exact H3|]. apply HQ, quiet_pending_clear.
Qed.

Lemma kept_unicast before between after e s a destination :
  (forall s, R s (before s)) -> (forall s, R s (between s)) -> (forall s, R s (after s)) ->
  R s (send_unicast msecs_to_jiffies before between after e s a destination).1.
Proof.
  intros H1 H2 H3. unfold send_unicast.
  destruct (_ && _); [reflexivity|]. destruct (if sa_reservation a =? 0 then _ else _) as [locator|]; [|reflexivity].
  do 3 (match goal with |- context [if ?b then _ else _] => destruct b; [reflexivity|] end).
  match goal with |- context [prepare_unicast ?s ?a ?d ?l ?c ?i] => pose proof (aside_prepare s a d l c i) as Hp; destruct (prepare_unicast s a d l c i) as [s1 [p|]] end;
    cbn [fst] in Hp |- *; (etransitivity; [apply H1|]); [|now apply HR].
  etransitivity; [apply HR; symmetry; exact Hp|]. now apply kept_finish.
Qed.

Lemma kept_broadcast before after e s a : (forall s, R s (before s)) -> (forall s, R s (after s)) ->
  R s (melodi_data_send_broadcast before after e s a).1.
Proof.
  intros H1 H3. unfold melodi_data_send_broadcast.
  do 4 (match goal with |- context [if ?b then _ else _] => destruct b; [reflexivity|] end).
  match goal with |- context [prepare_broadcast ?s ?a ?c ?i] => pose proof (aside_prepare_broadcast s a c i) as Hp; destruct (prepare_broadcast s a c i) as [s1 [p|]] end;
    cbn [fst] in Hp |- *; (etransitivity; [apply H1|]); [|now apply HR].
  etransitivity; [apply HR; symmetry; exact Hp|]. destruct (sign_loop _ _ _ _ _ _ _ _ _) as [frames|]; [|reflexivity].
  pose proof (kept_batch e (sa_reservation a) (after s1) frames (pr_meta p) (pr_request p)) as H2.
  destruct (if sa_reservation a =? 0 then _ else _) as [s2 sent]. cbn [fst] in H2.
  etransitivity; [apply H3|]. etransitivity; [exact H2|]. destruct sent as [[]|]; [now apply HR|reflexivity].
Qed.

Lemma kept_direct check before between after e s a :
  (forall s, R s (before s)) -> (forall s, R s (between s)) -> (forall s, R s (after s)) ->
  R s (send_direct msecs_to_jiffies check before between after e s a).1.
Proof.
  intros H1 H2 H3. unfold send_direct. destruct (_ || _); [reflexivity|].
  destruct (sa_destination a) as [d|], (has _ MELODI_F_BROADCAST); try reflexivity.
  - destruct (negb _); [reflexivity|]. now apply kept_unicast.
  - destruct (_ || _); [reflexivity|]. destruct (reliable_flags _); [reflexivity|]. now apply kept_broadcast.
Qed.

Lemma kept_ack after e stack s data bitmap status : (forall s, R s (after s)) ->
  R s (melodi_data_send_ack after e stack s data bitmap status).1.
Proof.
  intros H3. unfold melodi_data_send_ack.
  assert (aside (set_dev (prepare_ack (dev s) data bitmap status).1 s) = aside s) as Hp.
  { unfold prepare_ack. destruct (_ ≫= _) as [peer|]; [|reflexivity]. destruct (_ || _); [reflexivity|].
    unfold melodi_counter_next_locked. destruct (_ =? _); reflexivity. }
  destruct (prepare_ack (dev s) data bitmap status) as [melodi [[[ack key] meta]|]]; cbn [fst] in Hp |- *; [|now apply HR].
  destruct (seal_ack stack ack key) as [frame|]; [|now apply HR]. destruct (se_skb e 0); [|now apply HR].
  etransitivity; [apply HR; symmetry; exact Hp|]. etransitivity; [apply H3|]. apply HR. symmetry. apply aside_outside.
  unfold melodi_core_send. apply outside_send_batch.
Qed.

(** ** Behind the sections of a receive *)

(** What the others may do at the gaps behind the sections under the lock. *)
Record gaps_kept (g : receive_gaps) : Prop := {
  gk_unlocked : forall s, R s (g.(rg_unlocked) s);
  gk_echo_before : forall s, R s (g.(rg_echo_before) s);
  gk_echo_between : forall s, R s (g.(rg_echo_between) s);
  gk_echo_after : forall s, R s (g.(rg_echo_after) s);
  gk_receipt : forall s, R s (g.(rg_receipt) s);
  gk_ack : forall s, R s (g.(rg_ack) s);
  gk_sent : forall s, R s (g.(rg_sent) s);
}.

Lemma kept_hand_over check e g s outcome : gaps_kept g -> R s (receive_hand_over msecs_to_jiffies check e g s outcome).1.1.
Proof.
  intros [H0 H1 H2 H3 _ _ _]. destruct outcome as [error|answer|bitmap|[[]|error] batch bitmap message|bitmap message];
    try reflexivity; cbn [receive_hand_over]; [apply H0|].
  destruct (_ =? MELODI_SERVICE_ECHO); [|apply H0].
  match goal with |- context [send_direct ?m ?c ?x ?y ?z ?e ?s ?a] => pose proof (kept_direct c x y z e s a H1 H2 H3) as H; destruct (send_direct m c x y z e s a) end.
  exact H.
Qed.

Lemma schedule_shape jiffies now melodi :
  exists w, melodi_reassembly_schedule msecs_to_jiffies jiffies now melodi = set_d_data (set_a_reassembly_work w melodi.(d_data)) melodi.
Proof.
  unfold melodi_reassembly_schedule. destruct (_ =? 0); [|eauto]. exists (a_reassembly_work (d_data melodi)). now destruct melodi as [? ? ? ? ? ? []].
Qed.

Lemma kept_receipt_store e s message header epoch bitmap status :
  R s (receive_receipt msecs_to_jiffies e s message header epoch bitmap status).1.
Proof.
  apply HR. symmetry. unfold receive_receipt.
  match goal with |- context [melodi_receipt_store ?m ?j ?r ?a ?b ?c ?d ?x ?y ?z] =>
    assert (exists l o, melodi_receipt_store m j r a b c d x y z = (set_r_receipts l r, o) /\ length l = length r.(r_receipts)) as (l & o & -> & El) end.
  { unfold melodi_receipt_store. match goal with |- context [match ?x with Some _ => _ | None => _ end] => destruct x as [i|] end.
    - do 2 eexists. split; [reflexivity|apply length_insert].
    - exists (r_receipts (d_receive (dev s))). eexists. split; [|reflexivity]. f_equal. now destruct (d_receive (dev s)). }
  cbn [fst]. match goal with |- context [melodi_reassembly_schedule _ ?j ?n ?m] => destruct (schedule_shape j n m) as [w ->] end.
  unfold aside, reception, waits_of, underway. cbn [c_log set_a_reassembly_work a_discovery_targets a_discovery_pending a_discovery_bytes a_discovery_count set_dev c_dev set_d_data set_d_receive d_link d_peers d_policy d_receive set_r_receipts r_reassembly_bytes
    r_reassemblies r_order_rx r_order_messages r_order_bytes r_receipts r_order_tx]. now rewrite El.
Qed.

Lemma kept_receive_finish check e g s header epoch outcome : gaps_kept g ->
  R s (receive_finish msecs_to_jiffies check e g s header epoch outcome).1.1.
Proof.
  intros Hg. pose proof Hg as [_ _ _ _ H4 H5 H6].
  assert (forall s bitmap status, R s (melodi_data_send_ack (rg_sent g) (re_ack e) (re_stack e) (rg_ack g s) header bitmap status).1) as Hack.
  { intros s0 bitmap status. etransitivity; [apply H5|]. now apply kept_ack. }
  assert (forall (message : completed) bitmap,
    R s (let '(s, deliveries, error) := receive_hand_over msecs_to_jiffies check e g s outcome in
      let s := if header_broadcast header && is_ok error then set_dev (count_broadcast_rx (dev s)) s else s in
      if header_reliable header then
        let status := if is_ok error then MELODI_ACK_COMPLETE else MELODI_ACK_REJECTED in
        let '(s, stored) := receive_receipt msecs_to_jiffies e (rg_receipt g s) message header epoch bitmap status in
        let '(s, sent) := melodi_data_send_ack (rg_sent g) (re_ack e) (re_stack e) (rg_ack g s) header bitmap status in
        (s, deliveries, first_error (first_error error stored) sent)
      else (s, deliveries, error)).1.1) as Hdone.
  { intros message bitmap. pose proof (kept_hand_over check e g s outcome Hg) as Hh.
    destruct (receive_hand_over _ _ _ _ _ _) as [[s1 ds] err]. cbn [fst] in Hh.
    set (s2 := if header_broadcast header && is_ok err then _ else s1).
    assert (R s s2) as H2 by (subst s2; destruct (_ && _); [|exact Hh]; etransitivity; [exact Hh|now apply HR]).
    destruct (header_reliable header); [|exact H2]. cbv zeta.
    match goal with |- context [receive_receipt ?m ?e ?s ?x ?h ?p ?b ?t] => pose proof (kept_receipt_store e s x h p b t) as H3; destruct (receive_receipt m e s x h p b t) as [s3 stored] end.
    cbn [fst] in H3. pose proof (Hack s3 bitmap (if is_ok err then MELODI_ACK_COMPLETE else MELODI_ACK_REJECTED)) as H7.
    destruct (melodi_data_send_ack _ _ _ _ _ _ _) as [s4 sent]. cbn [fst] in *.
    etransitivity; [exact H2|]. etransitivity; [apply H4|]. etransitivity; [exact H3|exact H7]. }
  destruct outcome as [error|[[bitmap status]|]|bitmap|admitted batch bitmap message|bitmap message]; cbn [receive_finish]; try reflexivity.
  - pose proof (Hack s bitmap status) as H. now destruct (melodi_data_send_ack _ _ _ _ _ _ _).
  - destruct (header_reliable header); [|reflexivity]. pose proof (Hack s bitmap MELODI_ACK_PARTIAL) as H. now destruct (melodi_data_send_ack _ _ _ _ _ _ _).
  - apply Hdone.
  - apply Hdone.
Qed.
End Kept.
