(* ===== verification/Secure.v ===== *)
(** * What a receiver accepts (src/kernel/core/data.c)

    A frame that is not sealed under the session of a known peer, or not signed by
    one, changes nothing; and no counter of a session is accepted twice, whatever
    frames arrive and whatever happens while the lock is released, as long as the
    sessions stay. *)
From S2P Require Import Prelude Buffer Uapi Wire Replay Slots Device Fragments Peers Reassembly Delivery Policy Queue Send Receive Kept.

(** ** Peers by native locator *)

Lemma peer_by_locator_Some melodi locator i : melodi_peer_by_native_locator melodi locator = Some i ->
  exists peer, melodi.(d_peers) !! i = Some peer /\ peer.(p_authenticated) = true /\ peer.(p_conflicted) = false /\
    peer.(p_native_locator) = locator.
Proof.
  intros H. apply find_index_Some in H as (peer & Hp & Hc & _). apply andb_prop in Hc as [Hc H3]. apply andb_prop in Hc as [H1 H2].
  exists peer. repeat split; [exact Hp|exact H1|now apply negb_true_iff|lia].
Qed.

Lemma peer_entry_Some melodi locator i peer :
  (melodi_peer_by_native_locator melodi locator ≫= fun i => pair i <$> melodi.(d_peers) !! i) = Some (i, peer) <->
  melodi_peer_by_native_locator melodi locator = Some i /\ melodi.(d_peers) !! i = Some peer.
Proof.
  split.
  - intros H. apply bind_Some in H as (j & Hj & H). apply fmap_Some in H as (p & Hp & H). injection H as -> ->. now split.
  - intros [H1 H2]. rewrite H1. cbn. now rewrite H2.
Qed.

Lemma node_eqb_eq a b : node_eqb a b = true <-> a = b.
Proof. apply bool_decide_eq_true. Qed.

(** ** Authentic frames *)

Section Authentic.
  Context {A : Aead} (crypto_ed25519_check : bytes -> bytes -> bytes -> bool).

(** A peer with a session that a frame with this header may come from. *)
Record session_of (melodi : melodi_device) (header : melodi_wire_data) (meta : melodi_rx_meta) (peer : melodi_peer) : Prop := {
  so_known : exists i, melodi.(d_peers) !! i = Some peer;
  so_authenticated : peer.(p_authenticated) = true;
  so_ready : peer.(p_session_ready) = true;
  so_unique : peer.(p_conflicted) = false;
  so_locator : peer.(p_native_locator) = header.(data_common).(source_native_locator);
  so_generation : peer.(p_generation) = header.(data_common).(identity_generation);
  so_link : peer.(p_link_locator) = meta.(rm_source_locator);
  so_policy : melodi_policy_check_locked melodi peer.(p_node_id) = Ok tt;
}.

(** What makes a frame authentic for a device, and whom it comes from. *)
Inductive authentic (melodi : melodi_device) (meta : melodi_rx_meta) (frame : bytes) : melodi_peer -> Prop :=
| by_session header ciphertext peer plaintext :
    melodi_wire_decode_data frame = Ok (header, ciphertext) -> session_of melodi header meta peer ->
    header.(data_common).(destination_native_locator) = melodi.(d_link).(l_local_native_locator) ->
    meta.(rm_destination_locator) = melodi.(d_link).(l_local_link_locator) ->
    melodi_policy_check_service_locked melodi header.(destination_service) false = Ok tt ->
    load 0 (Z.to_nat header.(data_common).(payload_length)) ciphertext ++ header.(data_tag) =
      xchacha20poly1305_encrypt plaintext (load 0 60 frame) (frame_nonce header.(data_common)) peer.(p_receive_key) ->
    authentic melodi meta frame peer
| by_signature header signature payload peer :
    melodi_wire_decode_broadcast_data frame = Ok (header, signature, payload) -> session_of melodi header meta peer ->
    meta.(rm_destination_locator) = MELODI_LINK_LOCATOR_BROADCAST ->
    crypto_ed25519_check signature (drop 1 peer.(p_node_id).(node_bytes)) (load 0 MELODI_WIRE_BROADCAST_AUTH_SIZE frame ++ payload) = true ->
    authentic melodi meta frame peer.

Lemma is_ok_unit (r : result unit) : is_ok r = true -> r = Ok tt.
Proof. now destruct r as [[]|]. Qed.

Lemma lookup_session melodi header meta duplicate key source epoch :
  receive_lookup melodi header meta = Ok (duplicate, key, source, epoch) ->
  exists peer, session_of melodi header meta peer /\ header.(data_common).(destination_native_locator) = melodi.(d_link).(l_local_native_locator) /\
    meta.(rm_destination_locator) = melodi.(d_link).(l_local_link_locator) /\
    melodi_policy_check_service_locked melodi header.(destination_service) false = Ok tt /\
    duplicate = melodi_replay_seen peer.(p_receive_replay) header.(data_common).(counter) /\ key = peer.(p_receive_key) /\
    source = peer.(p_node_id) /\ epoch = peer.(p_session_epoch).
Proof.
  unfold receive_lookup. intros H. destruct (_ ≫= _) as [peer|] eqn:Hb; [|discriminate]. apply bind_Some in Hb as (i & Hi & Hp).
  destruct (peer_by_locator_Some _ _ _ Hi) as (peer' & Hp' & Ha & Hc & Hl). assert (peer' = peer) as -> by congruence.
  destruct (_ || _) eqn:G in H; [discriminate|]. injection H as <- <- <- <-. rewrite !orb_false_iff, !negb_false_iff in G. split_hyps.
  exists peer. repeat split; eauto using is_ok_unit; lia.
Qed.

Lemma broadcast_session melodi header expected meta i peer :
  melodi_data_broadcast_peer_locked melodi header expected meta = Ok (i, peer) ->
  session_of melodi header meta peer /\ meta.(rm_destination_locator) = MELODI_LINK_LOCATOR_BROADCAST /\
  melodi.(d_peers) !! i = Some peer /\ match expected with Some source => source = peer.(p_node_id) | None => True end.
Proof.
  unfold melodi_data_broadcast_peer_locked. intros H. destruct (_ ≫= _) as [[j p]|] eqn:Hb; [|discriminate].
  destruct (_ || _) eqn:G in H; [discriminate|]. injection H as -> ->. apply peer_entry_Some in Hb as [Hi Hp].
  destruct (peer_by_locator_Some _ _ _ Hi) as (peer' & Hp' & Ha & Hc & Hl). assert (peer' = peer) as -> by congruence.
  rewrite !orb_false_iff, !negb_false_iff in G. split_hyps. repeat split; eauto using is_ok_unit; try lia.
  destruct expected; [|exact I]. now apply node_eqb_eq, negb_false_iff.
Qed.
Lemma broadcast_entry melodi header expected meta i peer :
  melodi_data_broadcast_peer_locked melodi header expected meta = Ok (i, peer) ->
  melodi_peer_by_native_locator melodi header.(data_common).(source_native_locator) = Some i /\ melodi.(d_peers) !! i = Some peer.
Proof.
  unfold melodi_data_broadcast_peer_locked. intros H. destruct (_ ≫= _) as [[j p]|] eqn:Hb; [|discriminate].
  destruct (_ || _) in H; [discriminate|]. injection H as -> ->. now apply peer_entry_Some.
Qed.
End Authentic.

Section Run.
  Context {A : Aead} {L : AeadLaws A} {Sg : Signer} (msecs_to_jiffies : Z -> Z) (crypto_ed25519_check : bytes -> bytes -> bytes -> bool).
  Context (crypto_eddsa_public_key_check : bytes -> Z).

(** Up to the end of the sections under the lock, a frame is refused at once or is
    authentic. *)
Lemma unicast_authentic e g s frame meta header ciphertext s' header' source epoch outcome :
  melodi_wire_decode_data frame = Ok (header, ciphertext) ->
  receive_unicast msecs_to_jiffies e g s frame meta header ciphertext = (s', header', source, epoch, outcome) ->
  s' = s /\ (exists error, outcome = RxRefused error) \/
  exists peer, authentic crypto_ed25519_check (dev s) meta frame peer /\ source = peer.(p_node_id).
Proof.
  intros Hd. unfold receive_unicast. destruct (negb _); [intros [= <- _ _ _ <-]; left; eauto|].
  destruct (receive_lookup _ _ _) as [[[[duplicate key] src] ep]|] eqn:El; [|intros [= <- _ _ _ <-]; left; eauto].
  destruct (open_fragment _ _ _ _) as [plaintext|] eqn:Eo; [|intros [= <- _ _ _ <-]; left; eauto].
  destruct (receive_opened _ _ _ _ _ _ _ _ _) as [melodi out]. intros [= _ _ <- _ _]. right.
  destruct (lookup_session _ _ _ _ _ _ _ El) as (peer & Hso & Hdst & Hl & Hsv & _ & -> & -> & _). exists peer. split; [|reflexivity].
  apply aead_open in Eo. exact (by_session _ _ _ _ header ciphertext peer plaintext Hd Hso Hdst Hl Hsv Eo).
Qed.

Lemma broadcast_authentic e g s frame meta header s' header' source epoch outcome :
  receive_broadcast msecs_to_jiffies crypto_ed25519_check e g s frame meta header = (s', header', source, epoch, outcome) ->
  s' = s /\ (exists error, outcome = RxRefused error) \/
  exists peer, authentic crypto_ed25519_check (dev s) meta frame peer /\ (source = peer.(p_node_id) \/ exists error, outcome = RxRefused error).
Proof.
  unfold receive_broadcast, melodi_data_authenticate_broadcast.
  destruct (melodi_wire_decode_broadcast_data frame) as [[[h signature] payload]|] eqn:Ed; [|intros [= <- _ _ _ <-]; left; eauto].
  destruct (negb (re_signing e)); [intros [= <- _ _ _ <-]; left; eauto|].
  destruct (melodi_data_broadcast_peer_locked (dev s) h None meta) as [[i peer]|] eqn:Ep; [|intros [= <- _ _ _ <-]; left; eauto].
  destruct (melodi_identity_verify _ _ _ _) as [[]|] eqn:Ev; [|intros [= <- _ _ _ <-]; left; eauto].
  apply broadcast_session in Ep as (Hso & Hb & _ & _). intros H. right. exists peer. split.
  { refine (by_signature _ _ _ _ h signature payload peer Ed Hso Hb _). unfold melodi_identity_verify in Ev.
    destruct (_ || _); [discriminate|]. destruct (crypto_ed25519_check _ _ _); [reflexivity|discriminate]. }
  destruct (melodi_data_broadcast_peer_locked _ h (Some _) meta) as [[j peer']|]; [|injection H as _ _ _ _ <-; eauto].
  destruct (melodi_replay_mark _ _) as [replay|]; [|injection H as _ _ _ _ <-; eauto].
  destruct (negb (re_plaintext e)); [injection H as _ _ _ _ <-; eauto|].
  destruct (peer0 ← _; _) as [[k p]|]; [|injection H as _ _ _ _ <-; eauto].
  destruct (receive_admit _ _ _ _ _ _ _ _) as [melodi out]. injection H as _ _ <- _ _. now left.
Qed.
End Run.

(** ** Counters *)

Lemma seen_mark w c w' d : melodi_replay_mark w c = Ok w' -> melodi_replay_seen w d = true -> melodi_replay_seen w' d = true.
Proof.
  unfold melodi_replay_mark, melodi_replay_seen. destruct (c =? 0); [discriminate|].
  destruct (d =? 0); [reflexivity|]. destruct (highest w <? d) eqn:Hd; [discriminate|].
  destruct (highest w <? c) eqn:Hc.
  - intros [= <-] Hs. cbn [highest bitmap]. assert ((c <? d) = false) as -> by lia.
    destruct (64 <=? c - d) eqn:E; [reflexivity|]. cbn [orb]. rewrite has_bit_testbit by lia.
    destruct (64 <=? c - highest w) eqn:E2; [lia|]. assert ((64 <=? highest w - d) = false) as E3 by lia. rewrite E3, orb_false_l, has_bit_testbit in Hs by lia.
    rewrite Z.lor_spec. unfold wrap. rewrite Z.mod_pow2_bits_low by lia. rewrite Z.shiftl_spec by lia.
    replace (c - d - (c - highest w)) with (highest w - d) by lia. now rewrite Hs.
  - destruct (_ || _); [discriminate|]. intros [= <-] Hs. cbn [highest bitmap]. rewrite Hd.
    destruct (64 <=? highest w - d) eqn:E; [reflexivity|]. cbn [orb] in *. rewrite has_bit_testbit in * by lia. now rewrite Z.lor_spec, Hs.
Qed.

Lemma mark_marks w c w' : melodi_replay_mark w c = Ok w' -> melodi_replay_seen w c = false /\ melodi_replay_seen w' c = true.
Proof.
  intros H. split; [pose proof (mark_seen w c) as E; rewrite H in E; cbn in E; now destruct (melodi_replay_seen w c)|].
  revert H. unfold melodi_replay_mark, melodi_replay_seen. destruct (c =? 0); [discriminate|]. destruct (highest w <? c) eqn:Hc.
  - intros [= <-]. cbn [highest bitmap]. rewrite Z.ltb_irrefl, Z.sub_diag. apply orb_true_intro. right. rewrite has_bit_testbit by lia.
    destruct (_ <=? _); [reflexivity|]. now rewrite Z.lor_spec, orb_true_r.
  - destruct (_ || _) eqn:E; [discriminate|]. intros [= <-]. cbn [highest bitmap]. rewrite Hc. apply orb_true_intro. right.
    rewrite has_bit_testbit by lia. rewrite Z.lor_spec. unfold bit. rewrite Z.shiftl_spec by lia.
    rewrite Z.sub_diag. apply orb_true_r.
Qed.

(** ** Sessions that stay *)

(** The same peer with the same session, that remembers at least as many counters. *)
Record session_le (p q : melodi_peer) : Prop := {
  sl_node : q.(p_node_id) = p.(p_node_id);
  sl_authenticated : q.(p_authenticated) = p.(p_authenticated);
  sl_conflicted : q.(p_conflicted) = p.(p_conflicted);
  sl_locator : q.(p_native_locator) = p.(p_native_locator);
  sl_epoch : q.(p_session_epoch) = p.(p_session_epoch);
  sl_seen c : melodi_replay_seen p.(p_receive_replay) c = true -> melodi_replay_seen q.(p_receive_replay) c = true;
}.

#[export] Instance session_le_preorder : PreOrder session_le.
Proof. split; [now split|]. intros p q r [] []. split; try congruence; auto. Qed.

Definition sessions_kept (s s' : core) : Prop := Forall2 session_le (dev s).(d_peers) (dev s').(d_peers).

#[export] Instance sessions_kept_preorder : PreOrder sessions_kept.
Proof.
  unfold sessions_kept. split; [intros s; reflexivity|]. intros s1 s2 s3 H1 H2. now transitivity (d_peers (dev s2)).
Qed.

Lemma kept_reception s s' : reception s = reception s' -> sessions_kept s s'.
Proof. intros E. apply (f_equal (fun x => x.1.1.2)) in E. cbn in E. unfold sessions_kept. now rewrite E. Qed.

Lemma kept_find s s' locator : sessions_kept s s' ->
  melodi_peer_by_native_locator (dev s') locator = melodi_peer_by_native_locator (dev s) locator.
Proof.
  unfold sessions_kept, melodi_peer_by_native_locator. induction 1 as [|p q l l' [_ H1 H2 H3 _ _] _ IH]; [reflexivity|].
  cbn [find_index]. now rewrite H1, H2, H3, IH.
Qed.

(** The window of the peer at a locator has seen a counter. *)
Definition seen_at (s : core) (lc : Z * Z) : Prop :=
  exists i peer, melodi_peer_by_native_locator (dev s) lc.1 = Some i /\ (dev s).(d_peers) !! i = Some peer /\
    melodi_replay_seen peer.(p_receive_replay) lc.2 = true.

Lemma seen_kept s s' lc : sessions_kept s s' -> seen_at s lc -> seen_at s' lc.
Proof.
  intros H (i & p & Hi & Hp & Hs). destruct (Forall2_lookup_l _ _ _ _ _ H Hp) as (q & Hq & Hle). exists i, q.
  rewrite (kept_find _ _ _ H). repeat split; [exact Hi|exact Hq|now apply (sl_seen _ _ Hle)].
Qed.

Lemma kept_peer s s' i p q : (dev s).(d_peers) !! i = Some p -> session_le p q -> (dev s').(d_peers) = <[i := q]> (dev s).(d_peers) ->
  sessions_kept s s'.
Proof.
  intros Hp Hle E. unfold sessions_kept. rewrite E. revert i Hp E. generalize (d_peers (dev s)). intros l i Hp _. revert i Hp.
  induction l as [|a l IH]; intros [|i] Hp; cbn in *; try discriminate.
  - injection Hp as ->. constructor; [exact Hle|]. clear. induction l; constructor; auto; reflexivity.
  - constructor; [reflexivity|]. now apply IH.
Qed.

(** ** What the sections under the lock accept *)

Definition outcome_accepted (outcome : receive_outcome) : bool :=
  match outcome with RxPartial _ | RxOrdered _ _ _ _ | RxComplete _ _ => true | _ => false end.

Lemma observe_le now meta p : session_le p (melodi_peer_observe_locked now meta p).
Proof. now split. Qed.

Lemma marked_le now meta p c replay : melodi_replay_mark p.(p_receive_replay) c = Ok replay ->
  session_le p (melodi_peer_observe_locked now meta (set_p_receive_replay replay p)).
Proof. intros H. split; try reflexivity. intros d. exact (seen_mark _ _ _ d H). Qed.

Section Sections.
  Context (msecs_to_jiffies : Z -> Z).

Lemma admit_peers e melodi source header epoch meta plaintext :
  (receive_admit msecs_to_jiffies e melodi source header epoch meta plaintext).1.(d_peers) = melodi.(d_peers).
Proof.
  assert (forall melodi message, (melodi_order_admit_locked msecs_to_jiffies e.(re_jiffies) e.(re_now_ms) melodi message.(co_source) header epoch
          message.(co_metadata) message.(co_payload) message.(co_length) []).1.1.(d_peers) = melodi.(d_peers)) as Ho.
  { intros m message. unfold melodi_order_admit_locked.
    repeat match goal with
    | |- context [melodi_reassembly_schedule ?f ?j ?n ?x] => destruct (schedule_shape f j n x) as [? ->]
    | |- context [match ?x with _ => _ end] => destruct x
    end; reflexivity. }
  assert (forall melodi bitmap message, (if header_ordered header then
      let '(melodi, batch, admitted) := melodi_order_admit_locked msecs_to_jiffies e.(re_jiffies) e.(re_now_ms) melodi message.(co_source) header epoch
          message.(co_metadata) message.(co_payload) message.(co_length) [] in (melodi, RxOrdered admitted batch bitmap message)
      else (melodi, RxComplete bitmap message)).1.(d_peers) = melodi.(d_peers)) as Hf.
  { intros m bitmap message. destruct (header_ordered header); [|reflexivity]. specialize (Ho m message).
    now destruct (melodi_order_admit_locked _ _ _ _ _ _ _ _ _ _ _) as [[m' batch] admitted]. }
  unfold receive_admit. destruct (_ =? 1); [apply Hf|].
  assert ((melodi_reassembly_add msecs_to_jiffies (re_jiffies e) (re_now_ms e) (re_memory e) melodi source header epoch meta plaintext).1.(d_peers) = d_peers melodi) as Ha.
  { unfold melodi_reassembly_add, reassembly_file.
    repeat match goal with
    | |- context [melodi_reassembly_schedule ?f ?j ?n ?x] => destruct (schedule_shape f j n x) as [? ->]
    | |- context [match ?x with _ => _ end] => destruct x
    end; reflexivity. }
  destruct (melodi_reassembly_add _ _ _ _ _ _ _ _ _ _) as [m [[]|]]; cbn [fst] in *; try exact Ha. rewrite <- Ha. apply Hf.
Qed.
End Sections.

Section Sections2.
  Context (msecs_to_jiffies : Z -> Z).

Lemma admit_core e s i p q melodi source header epoch meta plaintext :
  (dev s).(d_peers) !! i = Some p -> session_le p q -> melodi.(d_peers) = <[i := q]> (dev s).(d_peers) ->
  sessions_kept s (set_dev (receive_admit msecs_to_jiffies e melodi source header epoch meta plaintext).1 s).
Proof.
  intros Hp Hle E. apply (kept_peer s _ i p q Hp Hle). cbn [set_dev c_dev]. now rewrite admit_peers.
Qed.

(** The counter of an accepted frame has not been seen before, and has been then. *)
Definition fresh_accept (s s' : core) (header : melodi_wire_data) : Prop :=
  let lc := (header.(data_common).(source_native_locator), header.(data_common).(counter)) in
  ~ seen_at s lc /\ seen_at s' lc.

Lemma fresh_marked s s' header i p replay now meta :
  let q := melodi_peer_observe_locked now meta (set_p_receive_replay replay p) in
  melodi_peer_by_native_locator (dev s) header.(data_common).(source_native_locator) = Some i ->
  (dev s).(d_peers) !! i = Some p -> melodi_replay_mark p.(p_receive_replay) header.(data_common).(counter) = Ok replay ->
  sessions_kept (set_dev (with_peer i q (dev s)) s) s' -> fresh_accept s s' header.
Proof.
  intros q Hi Hp Hm Hk. apply mark_marks in Hm as Hs. destruct Hs as [Hs1 Hs2].
  assert (session_le p q) as Hle by exact (marked_le now meta p _ replay Hm).
  assert (sessions_kept s (set_dev (with_peer i q (dev s)) s)) as Hk1 by now apply (kept_peer s _ i p q Hp Hle).
  split.
  - intros (j & r & Hj & Hr & Hseen). cbn [fst snd] in *. congruence.
  - apply (seen_kept _ _ _ Hk). exists i, q. cbn [fst snd]. rewrite (kept_find _ _ _ Hk1). split; [exact Hi|]. split; [|exact Hs2].
    cbn [set_dev c_dev with_peer set_d_peers d_peers]. apply list_lookup_insert_eq. now apply lookup_lt_Some in Hp.
Qed.

Lemma opened_kept e s source header epoch duplicate meta plaintext :
  let '(melodi, outcome) := receive_opened msecs_to_jiffies e (dev s) source header epoch duplicate meta plaintext in
  sessions_kept s (set_dev melodi s) /\ (outcome_accepted outcome = true -> fresh_accept s (set_dev melodi s) header).
Proof.
  unfold receive_opened. assert (sessions_kept s (set_dev (dev s) s)) as Hsame by now apply kept_reception.
  destruct (_ ≫= _) as [[i p]|] eqn:Hb; [|now split]. apply peer_entry_Some in Hb as [Hi Hp].
  destruct (_ || _); [now split|]. destruct duplicate.
  - pose proof (kept_peer s (set_dev (with_peer i (melodi_peer_observe_locked (re_now_ns e) (set_authenticated true meta) p) (dev s)) s) i p
                  _ Hp (observe_le _ _ p) eq_refl) as Hk.
    destruct (negb (header_reliable header)); (split; [exact Hk|discriminate]).
  - destruct (melodi_replay_mark (p_receive_replay p) (counter (data_common header))) as [replay|error] eqn:Em.
    2: { destruct (_ && _); (split; [exact Hsame|discriminate]). }
    set (q := melodi_peer_observe_locked _ _ (set_p_receive_replay replay p)).
    pose proof (admit_core e s i p q (with_peer i q (dev s)) source header epoch (set_authenticated true meta) plaintext Hp
                  (marked_le _ _ p _ replay Em) eq_refl) as Hk.
    pose proof (fresh_marked s (set_dev (receive_admit msecs_to_jiffies e (with_peer i q (dev s)) source header epoch (set_authenticated true meta) plaintext).1 s)
                  header i p replay (re_now_ns e) (set_authenticated true meta) Hi Hp Em) as Hf.
    destruct (receive_admit _ _ _ _ _ _ _ _) as [melodi out] eqn:Ea. cbn [fst] in *. split; [exact Hk|]. intros _. apply Hf. fold q.
    unfold sessions_kept. cbn [set_dev c_dev]. replace (d_peers melodi) with (d_peers (with_peer i q (dev s))); [reflexivity|].
    change melodi with (melodi, out).1. rewrite <- Ea. now rewrite admit_peers.
Qed.
End Sections2.

(** ** Frames, one after the other *)

Section Frames.
  Context {A : Aead} {Sg : Signer} (msecs_to_jiffies : Z -> Z) (crypto_ed25519_check : bytes -> bytes -> bytes -> bool).
  Context (crypto_eddsa_public_key_check : bytes -> Z).

(** What the others do in all the gaps of a call leaves the sessions. *)
Record quiet (g : receive_gaps) : Prop := {
  qu_verified : forall s, sessions_kept s (g.(rg_verified) s);
  qu_broadcast : forall s, sessions_kept s (g.(rg_broadcast) s);
  qu_opened : forall s, sessions_kept s (g.(rg_opened) s);
  qu_rest : gaps_kept sessions_kept g;
}.

Lemma fresh_between s0 s1 s2 s3 header : sessions_kept s0 s1 -> fresh_accept s1 s2 header -> sessions_kept s2 s3 -> fresh_accept s0 s3 header.
Proof. intros H1 [Hn Hs] H3. split; [intros H; now apply Hn, (seen_kept _ _ _ H1)|now apply (seen_kept _ _ _ H3)]. Qed.

Lemma broadcast_kept e g s frame meta header : quiet g ->
  let '(s', header', _, _, outcome) := receive_broadcast msecs_to_jiffies crypto_ed25519_check e g s frame meta header in
  sessions_kept s s' /\ (outcome_accepted outcome = true -> fresh_accept s s' header').
Proof.
  intros Hq. unfold receive_broadcast, melodi_data_authenticate_broadcast.
  destruct (melodi_wire_decode_broadcast_data frame) as [[[h signature] payload]|]; [|split; [reflexivity|discriminate]].
  destruct (negb (re_signing e)); [split; [reflexivity|discriminate]|].
  destruct (melodi_data_broadcast_peer_locked (dev s) h None meta) as [[i0 p0]|]; [|split; [reflexivity|discriminate]].
  destruct (melodi_identity_verify _ _ _ _) as [[]|]; [|split; [reflexivity|discriminate]].
  set (source := p_node_id p0). set (s1 := rg_verified g s). assert (sessions_kept s s1) as H1 by apply (qu_verified _ Hq).
  destruct (melodi_data_broadcast_peer_locked (dev s1) h (Some source) meta) as [[i p]|] eqn:Ep; [|split; [exact H1|discriminate]].
  destruct (melodi_replay_mark _ _) as [replay|] eqn:Em; [|split; [exact H1|discriminate]].
  apply broadcast_entry in Ep as [Hi Hp].
  set (q := set_p_receive_replay replay p). set (s2 := set_dev (with_peer i q (dev s1)) s1).
  assert (session_le p q) as Hle by (split; try reflexivity; intros d; exact (seen_mark _ _ _ d Em)).
  assert (sessions_kept s1 s2) as H2 by now apply (kept_peer s1 _ i p q Hp Hle).
  assert (fresh_accept s1 s2 h) as Hf.
  { apply mark_marks in Em as [Hs1 Hs2]. split.
    - intros (j & r & Hj & Hr & Hseen). cbn [fst snd] in *. congruence.
    - exists i, q. cbn [fst snd]. rewrite (kept_find _ _ _ H2). split; [exact Hi|]. split; [|exact Hs2].
      cbn [s2 set_dev c_dev with_peer set_d_peers d_peers]. apply list_lookup_insert_eq. now apply lookup_lt_Some in Hp. }
  assert (sessions_kept s s2) as H02 by (etransitivity; eassumption).
  destruct (negb (re_plaintext e)); [split; [exact H02|discriminate]|].
  set (s3 := rg_broadcast g s2). assert (sessions_kept s2 s3) as H3 by apply (qu_broadcast _ Hq).
  assert (sessions_kept s s3) as H03 by (etransitivity; eassumption).
  destruct (melodi_data_broadcast_peer_locked (dev s3) _ (Some source) meta) as [[j r]|] eqn:Er; cbn [mbind result_bind]; [|split; [exact H03|discriminate]].
  destruct (melodi_policy_check_service_locked _ _ _) as [[]|]; [|split; [exact H03|discriminate]].
  apply broadcast_entry in Er as [Hj Hr]. cbn [mbind result_bind].
  match goal with |- context [receive_admit _ e (with_peer j ?q _) _ ?h _ ?m ?pl] =>
    pose proof (admit_core msecs_to_jiffies e s3 j r q (with_peer j q (dev s3)) source h 0 m pl Hr (observe_le _ _ r) eq_refl) as H4;
    destruct (receive_admit _ e _ _ _ _ _ _) as [melodi out] end.
  cbn [fst] in H4. split; [etransitivity; eassumption|]. intros _. apply (fresh_between s s1 s2 _ h H1 Hf). etransitivity; eassumption.
Qed.

Lemma unicast_kept e g s frame meta header ciphertext : quiet g ->
  let '(s', header', _, _, outcome) := receive_unicast msecs_to_jiffies e g s frame meta header ciphertext in
  sessions_kept s s' /\ (outcome_accepted outcome = true -> fresh_accept s s' header').
Proof.
  intros Hq. unfold receive_unicast. destruct (negb _); [split; [reflexivity|discriminate]|].
  destruct (receive_lookup _ _ _) as [[[[duplicate key] src] ep]|]; [|split; [reflexivity|discriminate]].
  destruct (open_fragment _ _ _ _) as [plaintext|]; [|split; [reflexivity|discriminate]].
  pose proof (opened_kept msecs_to_jiffies e (rg_opened g s) src header ep duplicate meta plaintext) as H.
  destruct (receive_opened _ _ _ _ _ _ _ _ _) as [melodi out]. destruct H as [H1 H2].
  assert (sessions_kept s (rg_opened g s)) as H0 by apply (qu_opened _ Hq).
  split; [etransitivity; eassumption|]. intros Hout. exact (fresh_between _ _ _ _ _ H0 (H2 Hout) (reflexivity _)).
Qed.

Lemma sections_kept e g s frame meta header ciphertext : quiet g ->
  let '(s', header', _, _, outcome) := receive_sections msecs_to_jiffies crypto_ed25519_check e g s frame meta header ciphertext in
  sessions_kept s s' /\ (outcome_accepted outcome = true -> fresh_accept s s' header').
Proof. intros Hq. unfold receive_sections. destruct (header_broadcast header); [now apply broadcast_kept|now apply unicast_kept]. Qed.

(** What arrives: the surroundings of the call, the frame and what the link says of it. *)
Definition frame_event : Type := receive_env * receive_gaps * bytes * melodi_rx_meta.

(** The locator of the sender and the counter of a frame, if the call accepts it. *)
Definition accepts (s : core) (ev : frame_event) : option (Z * Z) :=
  let '(e, g, frame, meta) := ev in
  match receive_checked e frame with
  | Err _ => None
  | Ok (header, ciphertext) =>
      let '(_, header, _, _, outcome) := receive_sections msecs_to_jiffies crypto_ed25519_check e g s frame meta header ciphertext in
      if outcome_accepted outcome then Some (header.(data_common).(source_native_locator), header.(data_common).(counter)) else None
  end.

Definition receive_step (s : core) (ev : frame_event) : core * list delivery * result unit :=
  let '(e, g, frame, meta) := ev in
  melodi_data_receive msecs_to_jiffies crypto_ed25519_check crypto_eddsa_public_key_check e g s frame meta.

(** The frames that a run accepts, in order. *)
Fixpoint accepted_run (s : core) (l : list frame_event) : list (Z * Z) :=
  match l with
  | [] => []
  | ev :: l => option_list (accepts s ev) ++ accepted_run (receive_step s ev).1.1 l
  end.

Lemma step_kept s ev : quiet ev.1.1.2 ->
  sessions_kept s (receive_step s ev).1.1 /\
  forall lc, accepts s ev = Some lc -> ~ seen_at s lc /\ seen_at (receive_step s ev).1.1 lc.
Proof.
  destruct ev as [[[e g] frame] meta]. cbn [fst snd]. intros Hq. unfold receive_step, accepts, melodi_data_receive.
  destruct (receive_checked e frame) as [[header ciphertext]|]; [|split; [reflexivity|discriminate]].
  pose proof (sections_kept e g s frame meta header ciphertext Hq) as H.
  destruct (receive_sections _ _ _ _ _ _ _ _ _) as [[[[s' h'] src] ep] out]. destruct H as [H1 H2].
  pose proof (kept_receive_finish sessions_kept (fun s s' H => kept_reception s s' (quiet_reception s s' H)) msecs_to_jiffies crypto_eddsa_public_key_check e g s' h' ep out (qu_rest _ Hq)) as H3.
  split; [etransitivity; eassumption|]. intros lc E. destruct (outcome_accepted out); [|discriminate]. injection E as <-.
  exact (fresh_between _ _ _ _ _ (reflexivity _) (H2 eq_refl) H3).
Qed.

Lemma run_fresh l : forall s, Forall (fun ev : frame_event => quiet ev.1.1.2) l ->
  NoDup (accepted_run s l) /\ forall lc, lc ∈ accepted_run s l -> ~ seen_at s lc.
Proof.
  induction l as [|ev l IH]; intros s Hq; cbn [accepted_run]; [split; [constructor|intros lc H; now apply not_elem_of_nil in H]|].
  inversion_clear Hq as [|? ? He Hl]. destruct (step_kept s ev He) as [Hk Ha]. destruct (IH (receive_step s ev).1.1 Hl) as [IH1 IH2].
  destruct (accepts s ev) as [lc|]; cbn [option_list app].
  - destruct (Ha lc eq_refl) as [Hn Hs]. split.
    + apply list.NoDup_cons. split; [|exact IH1]. intros H. exact (IH2 _ H Hs).
    + intros lc' H. apply list.elem_of_cons in H as [->|H]; [exact Hn|]. intros H'. exact (IH2 _ H (seen_kept _ _ _ Hk H')).
  - split; [exact IH1|]. intros lc H H'. exact (IH2 _ H (seen_kept _ _ _ Hk H')).
Qed.
End Frames.

(** ** Properties *)

(** Nothing is taken from strangers.  Whatever bytes arrive, and whatever happens
    while the lock is released: either the call fails, delivers nothing and leaves
    the device exactly as it was, or the frame is authentic.  Then it was sealed, with
    everything its header says, under the receive key of an authenticated peer with a
    session and a locator of its own that the policy admits, and was addressed to this
    node by the link of that peer; or it is a broadcast that the identity of such a
    peer has signed. *)
Theorem receive_authentic {A : Aead} {L : AeadLaws A} {Sg : Signer} msecs_to_jiffies verify public_key_check e g s frame meta :
  let '(s', deliveries, res) := melodi_data_receive msecs_to_jiffies verify public_key_check e g s frame meta in
  (s' = s /\ deliveries = [] /\ is_ok res = false) \/ exists peer, authentic verify (dev s) meta frame peer.
Proof.
  unfold melodi_data_receive. destruct (receive_checked e frame) as [[header ciphertext]|] eqn:Ec; [|now left].
  apply bind_Ok in Ec as ([h c] & Ed & Ec). apply bind_Ok in Ec as ([] & _ & Ec).
  destruct (_ && _) in Ec; [discriminate|]. injection Ec as -> ->. unfold receive_sections. destruct (header_broadcast header).
  - pose proof (broadcast_authentic msecs_to_jiffies verify e g s frame meta header) as H.
    destruct (receive_broadcast _ _ _ _ _ _ _ _) as [[[[s1 h1] src] ep] out].
    destruct (H _ _ _ _ _ eq_refl) as [[-> [error ->]]|(peer & Hp & _)]; [now left|].
    destruct (receive_finish _ _ _ _ _ _ _ _) as [[s2 ds] r]. eauto.
  - pose proof (unicast_authentic msecs_to_jiffies verify e g s frame meta header ciphertext) as H.
    destruct (receive_unicast _ _ _ _ _ _ _ _) as [[[[s1 h1] src] ep] out].
    destruct (H _ _ _ _ _ Ed eq_refl) as [[-> [error ->]]|(peer & Hp & _)]; [now left|].
    destruct (receive_finish _ _ _ _ _ _ _ _) as [[s2 ds] r]. eauto.
Qed.

(** C14: no frame is accepted twice.  While the sessions stay, no counter of a peer is
    accepted more than once over any run of received frames, unicast and broadcast
    together, whatever the frames are, however they are repeated and reordered, and
    whatever else is received while the lock is released; and none that the window has
    already seen. *)
Theorem accepted_once {A : Aead} {Sg : Signer} msecs_to_jiffies verify public_key_check s l :
  Forall (fun ev : frame_event => quiet ev.1.1.2) l ->
  NoDup (accepted_run msecs_to_jiffies verify public_key_check s l) /\
  forall lc, lc ∈ accepted_run msecs_to_jiffies verify public_key_check s l -> ~ seen_at s lc.
Proof. apply run_fresh. Qed.

(** ** Two frames, repeated *)

#[export] Instance toy_signer : Signer := {| melodi_identity_sign _ := Err ENOKEY |}.

Definition sample_send_env : send_env :=
  MkSendEnv 4176 0 true true (fun _ => Some (fun _ => 0)) (fun _ => true) (fun _ => true) 1 100 true true true 1 100.
Definition sample_env : receive_env :=
  MkReceiveEnv true true true true (Some (replicate 5 0)) 20 20 20 (Ok tt) (replicate 72 0) sample_send_env sample_send_env.
Definition idle_gaps : receive_gaps := MkGaps id id id id id id id id id id.
Definition sample_link_meta : melodi_rx_meta := MkRxMeta 10 31 40 0 (-80) 5 1 0 false.

Definition sample_event (i : nat) : frame_event := (sample_env, idle_gaps, nth i sample_frames [], sample_link_meta).

Lemma idle_quiet : quiet idle_gaps.
Proof. split; [| | |split]; intros s; cbn; reflexivity. Qed.

Lemma receive_authentic_witness :
  exists peer, authentic (fun _ _ _ => false) (dev sample_core) sample_link_meta (nth 0 sample_frames []) peer.
Proof.
  pose proof (receive_authentic id (fun _ _ _ => false) (fun _ => 0) sample_env idle_gaps sample_core (nth 0 sample_frames []) sample_link_meta) as H.
  destruct (melodi_data_receive _ _ _ _ _ _ _ _) as [[s' ds] r] eqn:E. destruct H as [(_ & _ & Hr)|H]; [|exact H].
  assert (is_ok r = true) as Ht by (change r with (s', ds, r).2; rewrite <- E; vm_compute; reflexivity).
  rewrite Ht in Hr. discriminate.
Defined.

Lemma accepted_once_witness :
  let run := accepted_run id (fun _ _ _ => false) (fun _ => 0) sample_core (map sample_event [1; 1; 0; 1; 0]%nat) in
  run = [(31, 6); (31, 5)] /\ NoDup run.
Proof.
  split; [vm_compute; reflexivity|]. apply accepted_once. repeat constructor; apply idle_quiet.
Defined.
