(* ===== verification/Transfer.v ===== *)
(** * From one node to another (src/kernel/core/data.c)

    A message that one node has prepared and sealed, and another that shares the
    session: however its frames are reordered and repeated on their way, the other node
    hands the message over, once, and with the bytes that were sent.  The sections of a
    receive may be interleaved with anything that leaves sessions, policy and the
    messages under way as they are. *)
From stdpp Require Import gmap.
From S2P Require Import Prelude Buffer Uapi Wire Replay Slots Device Fragments Peers Reassembly Arrivals Delivery Policy Queue Send Receive Kept Secure.

(** ** Windows *)

Lemma testbit_bit i n : 0 <= i -> 0 <= n -> Z.testbit (bit i) n = (i =? n).
Proof. intros Hi Hn. unfold bit. rewrite Z.shiftl_1_l. rewrite Z.pow2_bits_eqb by lia. reflexivity. Qed.

(** Marking a counter close to another leaves the other as it was. *)
Lemma unseen_mark w c w' d : melodi_replay_mark w c = Ok w' -> melodi_replay_seen w d = false -> d <> c -> c - d < 64 ->
  melodi_replay_seen w' d = false.
Proof.
  unfold melodi_replay_mark, melodi_replay_seen. destruct (c =? 0); [discriminate|].
  destruct (d =? 0); [discriminate|]. destruct (highest w <? c) eqn:Hc.
  - intros [= <-] Hs Hne Hd. cbn [highest bitmap]. destruct (c <? d) eqn:Hcd; [reflexivity|].
    assert ((64 <=? c - d) = false) as -> by lia. cbn [orb]. rewrite has_bit_testbit by lia.
    assert (Z.testbit 1 (c - d) = false) as H1 by (change 1 with (bit 0); rewrite testbit_bit; lia).
    destruct (64 <=? c - highest w) eqn:E2; [exact H1|]. rewrite Z.lor_spec, H1, orb_false_r.
    unfold wrap. rewrite Z.mod_pow2_bits_low by lia. rewrite Z.shiftl_spec by lia.
    destruct (highest w <? d) eqn:Hd2; [apply Z.testbit_neg_r; lia|].
    apply orb_false_iff in Hs as [Hs1 Hs2]. rewrite has_bit_testbit in Hs2 by lia.
    now replace (c - d - (c - highest w)) with (highest w - d) by lia.
  - destruct (_ || _); [discriminate|]. intros [= <-] Hs Hne Hd. cbn [highest bitmap]. destruct (highest w <? d) eqn:Hd2; [reflexivity|].
    apply orb_false_iff in Hs as [Hs1 Hs2]. rewrite Hs1. cbn [orb]. rewrite has_bit_testbit in * by lia. rewrite Z.lor_spec, Hs2.
    rewrite testbit_bit by lia. lia.
Qed.

(** ** States that decide alike *)

Definition same_reception (s s' : core) : Prop := reception s = reception s'.

#[export] Instance same_reception_preorder : PreOrder same_reception.
Proof. split; [intros s; reflexivity|]. intros s1 s2 s3. apply eq_trans. Qed.

Lemma underway_inv r r' : underway r = underway r' -> reassembly_inv r -> reassembly_inv r' /\ messages r' = messages r.
Proof.
  unfold underway. intros [= E1 E2 E3 E4 E5 E6 E7] [[] H2 H3 H4].
  split; [|unfold messages; now rewrite E2]. split; [split|..]; rewrite <- ?E1, <- ?E2, <- ?E3, <- ?E4, <- ?E5, <- ?E6, <- ?E7; assumption.
Qed.

Lemma reception_parts s s' : reception s = reception s' ->
  (dev s').(d_peers) = (dev s).(d_peers) /\ (dev s').(d_policy) = (dev s).(d_policy) /\
  (dev s').(d_link).(l_local_native_locator) = (dev s).(d_link).(l_local_native_locator) /\
  (dev s').(d_link).(l_local_link_locator) = (dev s).(d_link).(l_local_link_locator) /\
  underway (dev s).(d_receive) = underway (dev s').(d_receive).
Proof.
  intros E. pose proof (f_equal (fun x => x.1.1.1.(l_local_native_locator)) E) as E1. pose proof (f_equal (fun x => x.1.1.1.(l_local_link_locator)) E) as E2.
  pose proof (f_equal (fun x => x.1.1.2) E) as E3. pose proof (f_equal (fun x => x.1.2) E) as E4. pose proof (f_equal snd E) as E5.
  cbn in E1, E2, E3, E4. cbn [reception snd] in E5. repeat split; congruence.
Qed.

Lemma policy_check_ext m m' node : m'.(d_policy) = m.(d_policy) -> melodi_policy_check_locked m' node = melodi_policy_check_locked m node.
Proof. intros E. unfold melodi_policy_check_locked, entry_state, melodi_policy_peer_locked. now rewrite E. Qed.
Lemma policy_service_ext m m' service b : m'.(d_policy) = m.(d_policy) ->
  melodi_policy_check_service_locked m' service b = melodi_policy_check_service_locked m service b.
Proof. intros E. unfold melodi_policy_check_service_locked. now rewrite E. Qed.
Lemma by_locator_ext m m' l : m'.(d_peers) = m.(d_peers) -> melodi_peer_by_native_locator m' l = melodi_peer_by_native_locator m l.
Proof. intros E. unfold melodi_peer_by_native_locator. now rewrite E. Qed.

(** ** A receiver that expects a message *)

Section Transfer.
  Context {A : Aead} {L : AeadLaws A} {Sg : Signer} (msecs_to_jiffies : Z -> Z).
  Context (crypto_ed25519_check : bytes -> bytes -> bytes -> bool) (crypto_eddsa_public_key_check : bytes -> Z).
  Context (h : melodi_wire_data) (payload : bytes) (mtu base : Z) (key : bytes) (Hok : message_ok h payload mtu base).
  Context (node : melodi_node_id) (epoch source_link local_link : Z).

Abbreviation count := (Z.to_nat h.(fragment_count)).

(** The peer with the session of the message, that has seen the counters of the
    fragments in [marked] and of no other. *)
Record partner (marked : list nat) (p : melodi_peer) : Prop := {
  pa_ready : p.(p_session_ready) = true;
  pa_generation : p.(p_generation) = h.(data_common).(identity_generation);
  pa_link : p.(p_link_locator) = source_link;
  pa_node : p.(p_node_id) = node;
  pa_epoch : p.(p_session_epoch) = epoch;
  pa_key : p.(p_receive_key) = key;
  pa_counters k : (k < count)%nat -> melodi_replay_seen p.(p_receive_replay) (base + Z.of_nat k) = bool_decide (k ∈ marked);
}.

Record expects (s : core) (marked : list nat) (m : gmap message_key partial) : Prop := {
  ex_partner : exists i p, melodi_peer_by_native_locator (dev s) h.(data_common).(source_native_locator) = Some i /\
    (dev s).(d_peers) !! i = Some p /\ partner marked p;
  ex_native : (dev s).(d_link).(l_local_native_locator) = h.(data_common).(destination_native_locator);
  ex_link : (dev s).(d_link).(l_local_link_locator) = local_link;
  ex_policy : melodi_policy_check_locked (dev s) node = Ok tt;
  ex_service : melodi_policy_check_service_locked (dev s) h.(destination_service) false = Ok tt;
  ex_inv : reassembly_inv (dev s).(d_receive);
  ex_messages : messages (dev s).(d_receive) = m;
}.

Lemma expects_same s s' marked m : reception s = reception s' -> expects s marked m -> expects s' marked m.
Proof.
  intros E [(i & p & Hi & Hp & Hpart) H2 H3 H4 H5 H6 H7]. destruct (reception_parts _ _ E) as (E1 & E2 & E3 & E4 & E5).
  destruct (underway_inv _ _ E5 H6) as [H6' H7']. split; try congruence.
  - exists i, p. rewrite (by_locator_ext _ _ _ E1), E1. auto.
  - now rewrite (policy_check_ext _ _ _ E2).
  - now rewrite (policy_service_ext _ _ _ _ E2).
Qed.

(** One of its frames is heard. *)
Record hearing := MkHearing { he_index : nat; he_env : receive_env; he_gaps : receive_gaps; he_meta : melodi_rx_meta }.

Record hearing_ok (x : hearing) : Prop := {
  ho_index : (x.(he_index) < count)%nat;
  ho_buffers : x.(he_env).(re_buffers) = true;
  ho_memory : exists mem, x.(he_env).(re_memory) = Some mem /\ zlen payload <= zlen mem;
  ho_source : x.(he_meta).(rm_source_locator) = source_link;
  ho_local : x.(he_meta).(rm_destination_locator) = local_link;
  ho_opened s : same_reception s (x.(he_gaps).(rg_opened) s);
  ho_gaps : gaps_kept same_reception x.(he_gaps);
}.

Definition heard_frame (x : hearing) : bytes := message_frame h payload mtu base key x.(he_index).
Definition hear (s : core) (x : hearing) : core * list delivery * result unit :=
  receive_step msecs_to_jiffies crypto_ed25519_check crypto_eddsa_public_key_check s (x.(he_env), x.(he_gaps), heard_frame x, x.(he_meta)).

Definition heard_piece (x : hearing) : bytes := piece mtu payload (Z.of_nat x.(he_index)).
(** The header as it is received; the tag does not matter. *)
Definition heard_header (x : hearing) (t : bytes) : melodi_wire_data :=
  sent_data (set_tag (fragment_header h base (Z.of_nat x.(he_index))) t) (zlen (heard_piece x)).

Context (Hmode : h.(delivery_mode) <> MELODI_DELIVERY_RELIABLE_ORDERED) (Hecho : h.(destination_service) <> MELODI_SERVICE_ECHO).

Lemma heard_not_ordered x t : header_ordered (heard_header x t) = false.
Proof. unfold header_ordered, heard_header. cbn [sent_data set_tag fragment_header delivery_mode]. now apply Z.eqb_neq. Qed.

Lemma heard_not_broadcast x t : header_broadcast (heard_header x t) = false.
Proof.
  pose proof (mo_mode _ _ _ _ Hok) as Hm. unfold header_broadcast, heard_header.
  cbn [sent_data set_common set_tag fragment_header data_common flags]. rewrite !elem_of_cons, elem_of_nil in Hm.
  destruct Hm as [E|[E|[E|[]]]]; injection E as -> _; destruct (_ =? _); reflexivity.
Qed.

Lemma heard_counter x t : hearing_ok x -> (heard_header x t).(data_common).(counter) = base + Z.of_nat x.(he_index).
Proof.
  intros [Hi _ _ _ _ _ _]. pose proof (mo_counter _ _ _ _ Hok). pose proof (mo_limit _ _ _ _ Hok).
  unfold heard_header. cbn [sent_data set_common set_tag fragment_header data_common counter]. apply wrap_id. width_lia.
Qed.

(** The frame is read and opened. *)
Lemma heard_opens x : hearing_ok x -> exists t ciphertext,
  receive_checked x.(he_env) (heard_frame x) = Ok (heard_header x t, ciphertext) /\
  open_fragment (heard_frame x) (heard_header x t) ciphertext key = Some (heard_piece x).
Proof.
  intros [Hi _ _ _ _ _ _]. assert (Z.of_nat (he_index x) < fragment_count h) as Hi' by lia.
  destruct (message_frame_opens h payload mtu base key (he_index x) Hok Hi') as (header & ct & Hd & Hv & Ho & t & ->).
  exists t, ct. split; [|exact Ho]. unfold receive_checked, heard_frame. rewrite Hd. cbn [mbind result_bind]. rewrite Hv. cbn [mbind result_bind].
  fold (heard_piece x). fold (heard_header x t). now rewrite heard_not_ordered.
Qed.

Lemma heard_lookup s x t marked m : expects s marked m -> hearing_ok x ->
  receive_lookup (dev s) (heard_header x t) x.(he_meta) = Ok (bool_decide (x.(he_index) ∈ marked), key, node, epoch).
Proof.
  intros [(i & p & Hi & Hp & [P1 P2 P3 P4 P5 P6 P7]) H2 H3 H4 H5 _ _] Hx. pose proof (heard_counter x t Hx) as Hc.
  destruct Hx as [X1 _ _ X4 X5 _ _]. unfold receive_lookup.
  change (source_native_locator (data_common (heard_header x t))) with (source_native_locator (data_common h)).
  change (destination_native_locator (data_common (heard_header x t))) with (destination_native_locator (data_common h)).
  change (identity_generation (data_common (heard_header x t))) with (identity_generation (data_common h)).
  change (destination_service (heard_header x t)) with (destination_service h).
  rewrite Hi. cbn [mbind option_bind]. rewrite Hp, Hc, P1, P2, P3, P4, P5, P6, H2, H3, X4, X5, H4, H5, P7, !Z.eqb_refl by exact X1. reflexivity.
Qed.

(** The peer of the session is written back, with what has become of the messages. *)
Lemma expects_peer s i p q marked marked' m m' r w :
  melodi_peer_by_native_locator (dev s) h.(data_common).(source_native_locator) = Some i -> (dev s).(d_peers) !! i = Some p ->
  session_le p q -> partner marked' q -> expects s marked m -> reassembly_inv r -> messages r = m' ->
  expects (set_dev (set_d_data w (set_d_receive r (with_peer i q (dev s)))) s) marked' m'.
Proof.
  intros Hi Hp Hle Hq [_ H2 H3 H4 H5 _ _] H6 H7.
  assert (sessions_kept s (set_dev (set_d_data w (set_d_receive r (with_peer i q (dev s)))) s)) as Hk by now apply (kept_peer s _ i p q Hp Hle).
  split; try assumption. exists i, q. rewrite (kept_find _ _ _ Hk). split; [exact Hi|]. split; [|exact Hq].
  cbn [set_dev c_dev set_d_data set_d_receive with_peer set_d_peers d_peers]. apply list_lookup_insert_eq. now apply lookup_lt_Some in Hp.
Qed.

Lemma partner_marked p marked c replay now meta : partner marked p -> (c < count)%nat ->
  melodi_replay_mark p.(p_receive_replay) (base + Z.of_nat c) = Ok replay ->
  partner (c :: marked) (melodi_peer_observe_locked now meta (set_p_receive_replay replay p)).
Proof.
  intros [P1 P2 P3 P4 P5 P6 P7] Hc Hm. split; try assumption. intros k Hk.
  change (melodi_replay_seen replay (base + Z.of_nat k) = bool_decide (k ∈ c :: marked)).
  destruct (decide (k = c)) as [->|Hne].
  - rewrite bool_decide_eq_true_2 by apply list.elem_of_cons, or_introl, eq_refl. now apply mark_marks in Hm.
  - assert (bool_decide (k ∈ c :: marked) = bool_decide (k ∈ marked)) as ->
      by (apply bool_decide_ext; rewrite list.elem_of_cons; intuition congruence).
    rewrite <- (P7 k Hk). pose proof (mo_limit _ _ _ _ Hok). destruct (melodi_replay_seen (p_receive_replay p) (base + Z.of_nat k)) eqn:E.
    + exact (seen_mark _ _ _ _ Hm E).
    + apply (unseen_mark _ _ _ _ Hm E); lia.
Qed.

(** The state behind the second section, and what it makes of the frame. *)
Lemma heard_opened s x t marked m : expects s marked m -> hearing_ok x -> exists i p,
  melodi_peer_by_native_locator (dev s) h.(data_common).(source_native_locator) = Some i /\ (dev s).(d_peers) !! i = Some p /\
  partner marked p /\
  receive_opened msecs_to_jiffies x.(he_env) (dev s) node (heard_header x t) epoch (bool_decide (x.(he_index) ∈ marked)) x.(he_meta)
    (heard_piece x) =
  let meta := set_authenticated true x.(he_meta) in
  if bool_decide (x.(he_index) ∈ marked) then
    (with_peer i (melodi_peer_observe_locked x.(he_env).(re_now_ns) meta p) (dev s),
     if header_reliable h then RxDuplicate (melodi_data_duplicate_ack_locked (dev s).(d_receive) node (heard_header x t) epoch)
     else RxRefused EALREADY)
  else match melodi_replay_mark p.(p_receive_replay) (base + Z.of_nat x.(he_index)) with
       | Ok replay =>
           receive_admit msecs_to_jiffies x.(he_env)
             (with_peer i (melodi_peer_observe_locked x.(he_env).(re_now_ns) meta (set_p_receive_replay replay p)) (dev s)) node
             (heard_header x t) epoch meta (heard_piece x)
       | Err error => (dev s, RxRefused error)
       end.
Proof.
  intros [(i & p & Hi & Hp & Hpart) H2 H3 H4 H5 _ _] Hx. pose proof (heard_counter x t Hx) as Hc. exists i, p.
  split; [exact Hi|]. split; [exact Hp|]. split; [exact Hpart|]. destruct Hpart as [P1 P2 P3 P4 P5 P6 P7]. destruct Hx as [X1 _ _ X4 X5 _ _].
  unfold receive_opened. change (source_native_locator (data_common (heard_header x t))) with (source_native_locator (data_common h)).
  change (identity_generation (data_common (heard_header x t))) with (identity_generation (data_common h)).
  change (destination_service (heard_header x t)) with (destination_service h).
  change (header_reliable (heard_header x t)) with (header_reliable h).
  rewrite Hi. cbn [mbind option_bind]. rewrite Hp. cbn [fmap option_fmap option_map].
  rewrite P1, P2, P3, P4, P5, X4, X5, H3, H4, H5, !Z.eqb_refl, Hc. unfold node_eqb. rewrite (bool_decide_eq_true_2 (node = node)) by reflexivity.
  cbn [negb orb is_ok]. cbv zeta. destruct (bool_decide _) eqn:E; [now destruct (header_reliable h)|].
  destruct (melodi_replay_mark _ _) as [replay|error] eqn:Em; [reflexivity|].
  pose proof (mark_seen (p_receive_replay p) (base + Z.of_nat (he_index x))) as Hs. rewrite Em, (P7 _ X1), E in Hs. discriminate.
Qed.

(** A frame heard before is not delivered again. *)
Lemma heard_again s x marked m : expects s marked m -> hearing_ok x -> x.(he_index) ∈ marked ->
  exists s' r, hear s x = (s', [], r) /\ expects s' marked m.
Proof.
  intros He Hx Hin. destruct (heard_opens x Hx) as (t & ct & Hch & Hop). unfold hear, receive_step, melodi_data_receive.
  rewrite Hch. unfold receive_sections. rewrite heard_not_broadcast. unfold receive_unicast.
  rewrite (ho_buffers _ Hx), (heard_lookup s x t marked m He Hx), Hop. cbn [negb].
  pose proof (ho_opened _ Hx s) as Hs. set (s1 := rg_opened (he_gaps x) s) in *. pose proof (expects_same _ _ _ _ Hs He) as He1.
  destruct (heard_opened s1 x t marked m He1 Hx) as (i & p & Hi & Hp & Hpart & E). cbv zeta in E. rewrite E, bool_decide_eq_true_2 by exact Hin.
  match goal with |- context [with_peer i ?y (dev s1)] => set (q := y) end.
  assert (partner marked q) as Hq by now destruct Hpart.
  pose proof (expects_peer s1 i p q marked marked m m (d_receive (dev s1)) (d_data (dev s1)) Hi Hp (observe_le _ _ p) Hq He1 (ex_inv _ _ _ He1) (ex_messages _ _ _ He1)) as He2.
  change (set_d_data (d_data (dev s1)) (set_d_receive (d_receive (dev s1)) (with_peer i q (dev s1)))) with (with_peer i q (dev s1)) in He2.
  set (s2 := set_dev (with_peer i q (dev s1)) s1) in *.
  match goal with |- context [receive_finish ?f ?c ?e ?g ?s2 ?hd ?ep ?out] =>
    pose proof (kept_receive_finish same_reception quiet_reception f c e g s2 hd ep out (ho_gaps _ Hx)) as Hf;
    assert ((receive_finish f c e g s2 hd ep out).1.2 = []) as Hd end.
  { destruct (header_reliable h); [|reflexivity]. cbn [receive_finish]. destruct (melodi_data_duplicate_ack_locked _ _ _ _) as [[b st]|]; [|reflexivity].
    now destruct (melodi_data_send_ack _ _ _ _ _ _ _). }
  destruct (receive_finish _ _ _ _ _ _ _ _) as [[s3 ds] r]. cbn [fst snd] in *. subst ds. exists s3, r. split; [reflexivity|].
  exact (expects_same _ _ _ _ Hf He2).
Qed.

(** *** New fragments *)

Definition message_key_of : message_key := (node, h.(data_common).(identity_generation), epoch, h.(data_common).(Wire.message_id)).

Definition delivered_by (res : result reassembled) : list delivery :=
  match res with
  | Ok (Complete _ c) => [MkDelivery c.(co_source) c.(co_source_service) c.(co_destination_service) c.(co_payload) c.(co_metadata)]
  | _ => []
  end.

Lemma spec_file_service has_memory m k p index fragment m' b c :
  spec_file has_memory m k p index fragment = (m', Ok (Complete b c)) -> c.(co_destination_service) = p.(pa_destination_service).
Proof.
  unfold spec_file. destruct (pa_parts p !! index) as [[?|]|]; [discriminate| |];
    (destruct (_ <? _); [discriminate|]; destruct (negb _); [discriminate|]; destruct (negb _); [discriminate|]; destruct has_memory; [|discriminate];
     intros [= _ _ <-]; reflexivity).
Qed.

Lemma spec_add_service jiffies has_memory m k header metadata fragment m' b c :
  spec_add msecs_to_jiffies jiffies has_memory m k header metadata fragment = (m', Ok (Complete b c)) ->
  c.(co_destination_service) = header.(destination_service).
Proof.
  unfold spec_add. destruct (_ !! k) as [p|].
  - destruct (agrees p header) eqn:Ea; [|discriminate]. intros H%spec_file_service. apply bool_decide_eq_true in Ea. congruence.
  - destruct (bool_decide _); [|discriminate]. intros H%spec_file_service. exact H.
Qed.

Lemma add_shape jiffies now memory melodi source header ep metadata fragment : exists r w,
  (melodi_reassembly_add msecs_to_jiffies jiffies now memory melodi source header ep metadata fragment).1 = set_d_data w (set_d_receive r melodi).
Proof.
  assert (forall m m' : melodi_device, (m'.(d_link), m'.(d_peers), m'.(d_pending), m'.(d_policy), m'.(d_tx)) =
            (m.(d_link), m.(d_peers), m.(d_pending), m.(d_policy), m.(d_tx)) -> exists r w, m' = set_d_data w (set_d_receive r m)) as H.
  { intros [] [] [= -> -> -> -> ->]. do 2 eexists. reflexivity. }
  apply H. unfold melodi_reassembly_add, reassembly_file.
  repeat match goal with
  | |- context [melodi_reassembly_schedule ?f ?j ?n ?x] => destruct (schedule_shape f j n x) as [? ->]
  | |- context [match ?x with _ => _ end] => destruct x
  end; reflexivity.
Qed.

Lemma heard_header_ok x t : hearing_ok x -> header_ok (heard_header x t).
Proof.
  intros [Hi _ _ _ _ _ _]. pose proof (mo_limit _ _ _ _ Hok). pose proof (mo_small _ _ _ _ Hok).
  assert (0 <= Z.of_nat (he_index x) < fragment_count h) as Hi' by lia.
  destruct (piece_length h payload mtu base Hok _ Hi') as [E1 E2]. pose proof (mo_mtu _ _ _ _ Hok). pose proof (mo_length _ _ _ _ Hok).
  unfold header_ok, heard_header, heard_piece.
  cbn [sent_data set_common set_tag fragment_header fragment_index fragment_count data_common payload_length logical_length].
  rewrite E1. unfold uint, zlen in *. nia.
Qed.

Lemma heard_new s x marked m : fragment_count h <> 1 -> expects s marked m -> hearing_ok x -> x.(he_index) ∉ marked ->
  let '(m', res) := spec_add msecs_to_jiffies x.(he_env).(re_jiffies) true m message_key_of (heard_header x []) (set_authenticated true x.(he_meta))
                      (heard_piece x) in
  exists s' r, hear s x = (s', delivered_by res, r) /\ expects s' (x.(he_index) :: marked) m'.
Proof.
  intros Hone He Hx Hin. destruct (heard_opens x Hx) as (t & ct & Hch & Hop). unfold hear, receive_step, melodi_data_receive.
  rewrite Hch. unfold receive_sections. rewrite heard_not_broadcast. unfold receive_unicast.
  rewrite (ho_buffers _ Hx), (heard_lookup s x t marked m He Hx), Hop. cbn [negb].
  pose proof (ho_opened _ Hx s) as Hs. set (s1 := rg_opened (he_gaps x) s) in *. pose proof (expects_same _ _ _ _ Hs He) as He1.
  destruct (heard_opened s1 x t marked m He1 Hx) as (i & p & Hi & Hp & Hpart & E). cbv zeta in E. rewrite E, bool_decide_eq_false_2 by exact Hin.
  pose proof (mark_seen (p_receive_replay p) (base + Z.of_nat (he_index x))) as Hm.
  rewrite (pa_counters _ _ Hpart _ (ho_index _ Hx)), bool_decide_eq_false_2 in Hm by exact Hin.
  destruct (melodi_replay_mark _ _) as [replay|] eqn:Em; [|discriminate]. clear Hm E.
  match goal with |- context [with_peer i ?y (dev s1)] => set (q := y) end.
  pose proof (partner_marked p marked (he_index x) replay (re_now_ns (he_env x)) (set_authenticated true (he_meta x)) Hpart (ho_index _ Hx) Em) as Hq.
  pose proof (marked_le (re_now_ns (he_env x)) (set_authenticated true (he_meta x)) p _ replay Em) as Hle. fold q in Hq, Hle.
  unfold receive_admit. change (fragment_count (heard_header x t)) with (fragment_count h). rewrite (proj2 (Z.eqb_neq _ 1) Hone), heard_not_ordered.
  destruct (ho_memory _ Hx) as (mem & Hmem & Hlen).
  pose proof (add_refines msecs_to_jiffies (re_jiffies (he_env x)) (re_now_ms (he_env x)) (re_memory (he_env x)) (with_peer i q (dev s1)) node
    (heard_header x t) epoch (set_authenticated true (he_meta x)) (heard_piece x) (ex_inv _ _ _ He1) (heard_header_ok x t Hx)) as Hadd.
  destruct (add_shape (re_jiffies (he_env x)) (re_now_ms (he_env x)) (re_memory (he_env x)) (with_peer i q (dev s1)) node
    (heard_header x t) epoch (set_authenticated true (he_meta x)) (heard_piece x)) as (rr & w & Hshape).
  destruct (melodi_reassembly_add _ _ _ _ _ _ _ _ _ _) as [mel res]. cbn [fst snd] in *. subst mel.
  assert (load 0 (Z.to_nat (payload_length (data_common (heard_header x t)))) (heard_piece x) = heard_piece x) as El.
  { apply load_all. unfold heard_header. cbn [sent_data set_common data_common payload_length]. unfold zlen. lia. }
  destruct Hadd as [Hinv Hspec].
  { unfold heard_header. cbn [sent_data set_common data_common payload_length]. lia. }
  { intros mem' E. assert (mem' = mem) as -> by congruence. change (logical_length (heard_header x t)) with (logical_length h).
    now rewrite (mo_length _ _ _ _ Hok). }
  rewrite El, bool_decide_eq_true_2 in Hspec by (rewrite Hmem; discriminate).
  change (messages (d_receive (with_peer i q (dev s1)))) with (messages (d_receive (dev s1))) in Hspec. rewrite (ex_messages _ _ _ He1) in Hspec.
  change (header_key node (heard_header x t) epoch) with message_key_of in Hspec.
  change (spec_add msecs_to_jiffies (re_jiffies (he_env x)) true m message_key_of (heard_header x t) (set_authenticated true (he_meta x)) (heard_piece x))
    with (spec_add msecs_to_jiffies (re_jiffies (he_env x)) true m message_key_of (heard_header x []) (set_authenticated true (he_meta x)) (heard_piece x)) in Hspec.
  pose proof (fun m' b c => spec_add_service (re_jiffies (he_env x)) true m message_key_of (heard_header x []) (set_authenticated true (he_meta x))
    (heard_piece x) m' b c) as Hsv. rewrite <- Hspec in Hsv |- *.
  pose proof (expects_peer s1 i p q marked (he_index x :: marked) m _ rr w Hi Hp Hle Hq He1 Hinv eq_refl) as He2.
  assert (forall out, (receive_finish msecs_to_jiffies crypto_eddsa_public_key_check (he_env x) (he_gaps x)
            (set_dev (set_d_data w (set_d_receive rr (with_peer i q (dev s1)))) s1) (heard_header x t) epoch out).1.2 = delivered_by (seen res) ->
    exists s' r, receive_finish msecs_to_jiffies crypto_eddsa_public_key_check (he_env x) (he_gaps x)
            (set_dev (set_d_data w (set_d_receive rr (with_peer i q (dev s1)))) s1) (heard_header x t) epoch out = (s', delivered_by (seen res), r) /\
      expects s' (he_index x :: marked) (messages rr)) as Hfin.
  { intros out Ho. pose proof (kept_receive_finish same_reception quiet_reception msecs_to_jiffies crypto_eddsa_public_key_check (he_env x) (he_gaps x)
      (set_dev (set_d_data w (set_d_receive rr (with_peer i q (dev s1)))) s1) (heard_header x t) epoch out (ho_gaps _ Hx)) as Hf.
    destruct (receive_finish _ _ _ _ _ _ _ _) as [[s3 ds] r]. cbn [fst snd] in *. subst ds. exists s3, r. split; [reflexivity|].
    exact (expects_same _ _ _ _ Hf He2). }
  clear Hle Hq He1 Hs Hop Hch. destruct res as [[b|b c]|error]; cbn [seen content] in *.
  - apply Hfin. cbn [receive_finish delivered_by]. destruct (header_reliable _); [|reflexivity]. now destruct (melodi_data_send_ack _ _ _ _ _ _ _).
  - apply Hfin. cbn [receive_finish delivered_by receive_hand_over]. specialize (Hsv _ _ _ eq_refl). cbn [co_destination_service] in Hsv.
    change (destination_service (heard_header x [])) with (destination_service h) in Hsv. rewrite Hsv, (proj2 (Z.eqb_neq _ 65535) Hecho).
    destruct (header_reliable _); [|destruct (_ && _); reflexivity]. cbv zeta.
    destruct (receive_receipt _ _ _ _ _ _ _ _) as [s3 stored]. now destruct (melodi_data_send_ack _ _ _ _ _ _ _).
  - apply Hfin. reflexivity.
Qed.

(** The delivery of the message, with what the link said of the first frame heard. *)
Definition message_delivery (meta : melodi_rx_meta) : delivery :=
  MkDelivery node h.(source_service) h.(destination_service) payload (set_authenticated true meta).

Lemma heard_single s x m : fragment_count h = 1 -> expects s [] m -> hearing_ok x ->
  exists s' r, hear s x = (s', [message_delivery x.(he_meta)], r) /\ expects s' [0%nat] m.
Proof.
  intros Hone He Hx. destruct (heard_opens x Hx) as (t & ct & Hch & Hop). unfold hear, receive_step, melodi_data_receive.
  rewrite Hch. unfold receive_sections. rewrite heard_not_broadcast. unfold receive_unicast.
  rewrite (ho_buffers _ Hx), (heard_lookup s x t [] m He Hx), Hop. cbn [negb].
  pose proof (ho_opened _ Hx s) as Hs. set (s1 := rg_opened (he_gaps x) s) in *. pose proof (expects_same _ _ _ _ Hs He) as He1.
  destruct (heard_opened s1 x t [] m He1 Hx) as (i & p & Hi & Hp & Hpart & E). cbv zeta in E.
  assert (he_index x = 0%nat) as Hx0 by (pose proof (ho_index _ Hx); lia).
  assert (heard_piece x = payload) as Hpc.
  { pose proof (message_pieces h payload mtu base Hok) as Hm. rewrite Hone in Hm. change (Z.to_nat 1) with 1%nat in Hm. cbn [seq map concat] in Hm.
    rewrite app_nil_r in Hm. unfold heard_piece. now rewrite Hx0. }
  rewrite E, bool_decide_eq_false_2 by apply not_elem_of_nil.
  pose proof (mark_seen (p_receive_replay p) (base + Z.of_nat (he_index x))) as Hm.
  rewrite (pa_counters _ _ Hpart _ (ho_index _ Hx)), bool_decide_eq_false_2 in Hm by apply not_elem_of_nil.
  destruct (melodi_replay_mark _ _) as [replay|] eqn:Em; [|discriminate]. clear Hm E.
  match goal with |- context [with_peer i ?y (dev s1)] => set (q := y) end.
  pose proof (partner_marked p [] (he_index x) replay (re_now_ns (he_env x)) (set_authenticated true (he_meta x)) Hpart (ho_index _ Hx) Em) as Hq.
  pose proof (marked_le (re_now_ns (he_env x)) (set_authenticated true (he_meta x)) p _ replay Em) as Hle. fold q in Hq, Hle.
  unfold receive_admit. change (fragment_count (heard_header x t)) with (fragment_count h). rewrite Hone, heard_not_ordered.
  change (1 =? 1) with true. cbv iota.
  pose proof (expects_peer s1 i p q [] [he_index x] m m (d_receive (dev s1)) (d_data (dev s1)) Hi Hp Hle Hq He1 (ex_inv _ _ _ He1) (ex_messages _ _ _ He1)) as He2.
  change (set_d_data (d_data (dev s1)) (set_d_receive (d_receive (dev s1)) (with_peer i q (dev s1)))) with (with_peer i q (dev s1)) in He2.
  match goal with |- context [receive_finish ?f ?c ?e ?g ?s2 ?hd ?ep ?out] =>
    pose proof (kept_receive_finish same_reception quiet_reception f c e g s2 hd ep out (ho_gaps _ Hx)) as Hf;
    assert ((receive_finish f c e g s2 hd ep out).1.2 = [message_delivery (he_meta x)]) as Hd end.
  { cbn [receive_finish receive_hand_over co_destination_service co_source co_source_service co_length co_payload co_metadata].
    change (destination_service (heard_header x t)) with (destination_service h). change (source_service (heard_header x t)) with (source_service h).
    rewrite (proj2 (Z.eqb_neq _ 65535) Hecho), load_all, Hpc by (unfold zlen; lia).
    destruct (header_reliable _); [|destruct (_ && _); reflexivity]. cbv zeta.
    destruct (receive_receipt _ _ _ _ _ _ _ _) as [s3 stored]. now destruct (melodi_data_send_ack _ _ _ _ _ _ _). }
  destruct (receive_finish _ _ _ _ _ _ _ _) as [[s3 ds] r]. cbn [fst snd] in *. subst ds. exists s3, r. split; [reflexivity|].
  rewrite <- Hx0. exact (expects_same _ _ _ _ Hf He2).
Qed.

(** ** Any number of frames *)

(** The deliveries of a run. *)
Fixpoint hear_all (s : core) (l : list hearing) : core * list delivery :=
  match l with
  | [] => (s, [])
  | x :: l => let '(s, ds, _) := hear s x in let '(s, ds') := hear_all s l in (s, ds ++ ds')
  end.

Definition arrival_of (x : hearing) : arrival :=
  MkArrival x.(he_env).(re_jiffies) x.(he_env).(re_now_ms) x.(he_env).(re_memory) node (heard_header x []) epoch
    (set_authenticated true x.(he_meta)) (heard_piece x).

(** The frames that are heard for the first time. *)
Fixpoint firsts (marked : list nat) (l : list hearing) : list hearing :=
  match l with
  | [] => []
  | x :: l => if decide (x.(he_index) ∈ marked) then firsts marked l else x :: firsts (x.(he_index) :: marked) l
  end.

Lemma heard_all_again l : forall s marked m, expects s marked m -> Forall hearing_ok l -> (forall k, (k < count)%nat -> k ∈ marked) ->
  exists s', hear_all s l = (s', []) /\ expects s' marked m.
Proof.
  induction l as [|x l IH]; intros s marked m He Hl Hall; [now exists s|]. inversion_clear Hl as [|? ? Hx Hl'].
  destruct (heard_again s x marked m He Hx (Hall _ (ho_index _ Hx))) as (s1 & r & E & He1). cbn [hear_all]. rewrite E.
  destruct (IH s1 marked m He1 Hl' Hall) as (s2 & -> & He2). now exists s2.
Qed.

Lemma arrival_of_content x : hearing_ok x -> arrival_content (arrival_of x) = heard_piece x.
Proof.
  intros _. unfold arrival_content. cbn [arrival_of ar_header ar_fragment]. apply load_all.
  unfold heard_header. cbn [sent_data set_common data_common payload_length]. unfold zlen. lia.
Qed.

Lemma heard_all l : forall s marked m, fragment_count h <> 1 -> expects s marked m -> Forall hearing_ok l ->
  let '(m', rs) := spec_arrivals msecs_to_jiffies m (map arrival_of (firsts marked l)) in
  exists s' marked', hear_all s l = (s', concat (map delivered_by rs)) /\ expects s' marked' m'.
Proof.
  induction l as [|x l IH]; intros s marked m Hone He Hl; cbn [firsts map spec_arrivals]; [now exists s, marked|].
  inversion_clear Hl as [|? ? Hx Hl']. cbn [hear_all]. destruct (decide (he_index x ∈ marked)) as [Hin|Hin].
  - destruct (heard_again s x marked m He Hx Hin) as (s1 & r & -> & He1). specialize (IH s1 marked m Hone He1 Hl').
    destruct (spec_arrivals _ _ _) as [m' rs]. destruct IH as (s2 & marked' & -> & He2). now exists s2, marked'.
  - cbn [map spec_arrivals]. pose proof (heard_new s x marked m Hone He Hx Hin) as Hn.
    rewrite (arrival_of_content x Hx). destruct (ho_memory _ Hx) as (mem & Hmem & _).
    cbn [arrival_of ar_jiffies ar_memory ar_header ar_metadata]. rewrite (bool_decide_eq_true_2 (re_memory (he_env x) <> None)) by (rewrite Hmem; discriminate).
    change (arrival_key (arrival_of x)) with message_key_of.
    destruct (spec_add _ _ _ _ _ _ _ _) as [m1 r1]. destruct Hn as (s1 & r & -> & He1).
    specialize (IH s1 (he_index x :: marked) m1 Hone He1 Hl'). destruct (spec_arrivals _ _ _) as [m' rs].
    destruct IH as (s2 & marked' & -> & He2). now exists s2, marked'.
Qed.

Lemma firsts_sub l : forall marked y, y ∈ firsts marked l -> y ∈ l.
Proof.
  induction l as [|x l IH]; intros marked y; cbn [firsts]; [auto|]. destruct (decide _).
  - intros H. right. now apply (IH marked).
  - rewrite list.elem_of_cons. intros [->|H]; [left|right]. now apply (IH (he_index x :: marked)).
Qed.

Lemma firsts_spec l : forall marked,
  NoDup (map he_index (firsts marked l)) /\
  (forall k, k ∈ map he_index (firsts marked l) <-> k ∈ map he_index l /\ k ∉ marked) /\
  (Forall hearing_ok l -> Forall hearing_ok (firsts marked l)).
Proof.
  induction l as [|x l IH]; intros marked; cbn [firsts map].
  - split; [constructor|]. split; [|auto]. intros k. rewrite !elem_of_nil. tauto.
  - destruct (decide (he_index x ∈ marked)) as [Hin|Hin].
    + destruct (IH marked) as (H1 & H2 & H3). split; [exact H1|]. split.
      * intros k. rewrite H2, list.elem_of_cons. split; [tauto|]. intros [[->|H] Hn]; [contradiction|tauto].
      * intros Hl. inversion_clear Hl. auto.
    + destruct (IH (he_index x :: marked)) as (H1 & H2 & H3). cbn [map]. split; [|split].
      * apply list.NoDup_cons. split; [|exact H1]. rewrite H2, list.elem_of_cons. tauto.
      * intros k. rewrite !list.elem_of_cons, H2, list.elem_of_cons. destruct (decide (k = he_index x)) as [->|Hne]; tauto.
      * intros Hl. inversion_clear Hl. constructor; auto.
Qed.

(** *** The whole message *)

Definition message_parts : list bytes := map (fun i => piece mtu payload (Z.of_nat i)) (seq 0 count).

Lemma parts_lookup_piece i : (i < count)%nat -> message_parts !! i = Some (piece mtu payload (Z.of_nat i)).
Proof. intros Hi. unfold message_parts. rewrite list_lookup_fmap, lookup_seq_lt by exact Hi. reflexivity. Qed.

Lemma heard_agrees x y jiffies meta :
  agrees (fresh_partial msecs_to_jiffies jiffies (heard_header x []) meta) (heard_header y []) = true.
Proof.
  apply bool_decide_eq_true. unfold fresh_partial, heard_header.
  cbn [pa_length pa_source_service pa_destination_service pa_count pa_flags pa_mode pa_priority pa_marker sent_data set_common set_tag
    fragment_header data_common flags logical_length source_service destination_service fragment_count delivery_mode priority ordering_marker].
  f_equal. pose proof (mo_mode _ _ _ _ Hok) as Hm. rewrite !elem_of_cons, elem_of_nil in Hm.
  do 3 f_equal. destruct Hm as [E|[E|[E|[]]]]; injection E as -> _; destruct (Z.of_nat (he_index x) + 1 =? _), (Z.of_nat (he_index y) + 1 =? _); reflexivity.
Qed.

Lemma sumZ_perm l l' : Permutation l l' -> sumZ l = sumZ l'.
Proof. unfold sumZ. induction 1; cbn [foldr]; lia. Qed.

Lemma zlen_concat (l : list bytes) : zlen (concat l) = sumZ (map zlen l).
Proof. induction l as [|a l IH]; [reflexivity|]. cbn [concat map]. rewrite sumZ_cons, <- IH. unfold zlen. rewrite length_app. lia. Qed.

(** The frames heard first are the fragments, in some order. *)
Lemma firsts_cover l : Forall hearing_ok l -> (forall k, (k < count)%nat -> k ∈ map he_index l) ->
  Permutation (map he_index (firsts [] l)) (seq 0 count).
Proof.
  intros Hl Hcov. destruct (firsts_spec l []) as (Hnd & Hmem & _).
  apply NoDup_Permutation; [exact Hnd|apply NoDup_seq|]. intros k. rewrite Hmem, elem_of_seq. split.
  - intros [Hk _]. apply list_elem_of_fmap in Hk as (y & -> & Hy). rewrite list.Forall_forall in Hl. pose proof (ho_index _ (Hl y Hy)). lia.
  - intros Hk. split; [apply Hcov; lia|apply not_elem_of_nil].
Qed.

Lemma parts_concat : concat message_parts = payload.
Proof. exact (message_pieces h payload mtu base Hok). Qed.

Lemma heard_sizes l : Forall hearing_ok l -> Permutation (map he_index l) (seq 0 count) -> sizes (map arrival_of l) = zlen payload.
Proof.
  intros Hl HP. unfold sizes. rewrite map_map. rewrite <- parts_concat, zlen_concat. unfold message_parts. rewrite map_map.
  rewrite <- (sumZ_perm _ _ (Permutation_map (fun i => zlen (piece mtu payload (Z.of_nat i))) HP)), map_map. f_equal.
  apply map_ext_in. intros y Hy%list_elem_of_In. rewrite list.Forall_forall in Hl. now rewrite (arrival_of_content y (Hl y Hy)).
Qed.

(** Nothing is heard so late that the message opened by [x] has expired. *)
Definition in_time (x : hearing) (l : list hearing) : Prop :=
  Forall (fun y => time_after_eq y.(he_env).(re_jiffies)
                     (wrap 64 (x.(he_env).(re_jiffies) + msecs_to_jiffies MELODI_REASSEMBLY_TIMEOUT_MS)) = false) l.

Lemma heard_arrives x l : Forall hearing_ok l -> in_time x l ->
  Forall (arrives_for message_key_of message_parts
    (fresh_partial msecs_to_jiffies x.(he_env).(re_jiffies) (heard_header x []) (set_authenticated true x.(he_meta)))) (map arrival_of l).
Proof.
  intros Hl Ht. apply Forall_map. unfold in_time in Ht. rewrite list.Forall_forall in *. intros y Hy. pose proof (Hl y Hy) as Hyok.
  split; [reflexivity|]. split.
  { destruct (ho_memory _ Hyok) as (mem & E & _). cbn [arrival_of ar_memory]. rewrite E. discriminate. }
  split; [apply heard_agrees|]. split; [exact (Ht y Hy)|].
  rewrite (arrival_of_content y Hyok). unfold arrival_index. change (fragment_index (ar_header (arrival_of y))) with (Z.of_nat (he_index y)).
  rewrite Nat2Z.id. apply parts_lookup_piece, (ho_index _ Hyok).
Qed.

Lemma delivered_run p rs : delivered message_key_of p message_parts rs ->
  p.(pa_source_service) = h.(source_service) -> p.(pa_destination_service) = h.(destination_service) ->
  concat (map delivered_by rs) = [MkDelivery node h.(source_service) h.(destination_service) payload p.(pa_metadata)].
Proof.
  intros (bs & b & ->) E1 E2. rewrite map_app, concat_app, map_map. cbn [map delivered_by concat co_source co_source_service co_destination_service co_payload co_metadata].
  change (map (fun x : Z => delivered_by (Ok (Partial x))) bs) with (map (fun _ : Z => @nil delivery) bs).
  assert (concat (map (fun _ : Z => @nil delivery) bs) = []) as -> by (clear; induction bs; auto).
  cbn [app]. now rewrite parts_concat, E1, E2.
Qed.

Lemma heard_whole x l s m : expects s [] m -> Forall hearing_ok (x :: l) ->
  (forall k, (k < count)%nat -> k ∈ map he_index (x :: l)) -> in_time x (x :: l) ->
  m !! message_key_of = None -> (size m < MELODI_REASSEMBLY_LIMIT)%nat -> messages_size m + zlen payload <= MELODI_REASSEMBLY_BYTE_LIMIT ->
  (hear_all s (x :: l)).2 = [message_delivery x.(he_meta)].
Proof.
  intros He Hl Hcov Htime Hm Hsz Hroom. destruct (decide (fragment_count h = 1)) as [Hone|Hone].
  { inversion_clear Hl as [|? ? Hx Hl']. destruct (heard_single s x m Hone He Hx) as (s1 & r & E & He1). cbn [hear_all]. rewrite E.
    destruct (heard_all_again l s1 [0%nat] m He1 Hl') as (s2 & -> & _); [|reflexivity].
    intros k Hk. replace k with 0%nat by lia. left. }
  pose proof (heard_all (x :: l) s [] m Hone He Hl) as Hrun. pose proof (firsts_cover _ Hl Hcov) as HP.
  pose proof (proj2 (proj2 (firsts_spec (x :: l) [])) Hl) as Hfok.
  assert (in_time x (firsts [] (x :: l))) as Hft
    by (unfold in_time in *; rewrite list.Forall_forall in *; intros y Hy; apply Htime; exact (firsts_sub _ _ _ Hy)).
  assert (firsts [] (x :: l) = x :: firsts [he_index x] l) as Hf by (cbn [firsts]; rewrite decide_False by apply not_elem_of_nil; reflexivity).
  rewrite Hf in *. set (rest := firsts [he_index x] l) in *.
  destruct (message_count h payload mtu base Hok) as [Hcnt _]. pose proof (mo_limit _ _ _ _ Hok).
  assert (length message_parts = count) as Hlp by (unfold message_parts; now rewrite length_map, length_seq).
  pose proof (spec_arrivals_whole msecs_to_jiffies message_key_of message_parts m (arrival_of x) (map arrival_of rest) Hm Hsz) as Hw. cbv zeta in Hw.
  change (arrival_of x :: map arrival_of rest) with (map arrival_of (x :: rest)) in Hw.
  rewrite (heard_sizes _ Hfok HP), Hlp in Hw. specialize (Hw Hroom ltac:(lia) ltac:(unfold zlen; rewrite Hlp; cbn; lia)
    ltac:(rewrite parts_concat; apply (mo_length _ _ _ _ Hok)) (heard_arrives x _ Hfok Hft)).
  assert (map arrival_index (map arrival_of (x :: rest)) = map he_index (x :: rest)) as Hidx
    by (rewrite map_map; apply map_ext; intros y; apply Nat2Z.id).
  rewrite Hidx in Hw. specialize (Hw HP). destruct (spec_arrivals _ _ _) as [m' rs].
  destruct Hrun as (s' & marked' & -> & _). destruct Hw as [_ Hd]. now apply (delivered_run _ _ Hd).
Qed.
End Transfer.

(** ** The sender *)

(** The sender's own fields and those of its peers have their widths and are in use. *)
Record sender_wf (melodi : melodi_device) : Prop := {
  sw_native : u32 melodi.(d_link).(l_local_native_locator) /\ locator_bad melodi.(d_link).(l_local_native_locator) = false;
  sw_generation : u32 melodi.(d_link).(l_identity_generation) /\ melodi.(d_link).(l_identity_generation) <> 0;
  sw_counter : 0 <= melodi.(d_link).(l_transmit_counter);
  sw_peers : Forall (fun p => p.(p_authenticated) = true -> u32 p.(p_native_locator) /\ locator_bad p.(p_native_locator) = false)
               melodi.(d_peers);
}.

(** The arguments have their widths and have passed the checks of the call. *)
Record args_ok (a : send_args) (frame_mtu : Z) : Prop := {
  ao_services : u16 a.(sa_source_service) /\ u16 a.(sa_destination_service);
  ao_control : a.(sa_source_service) <> MELODI_SERVICE_CONTROL /\ a.(sa_destination_service) <> MELODI_SERVICE_CONTROL;
  ao_priority : 0 <= a.(sa_priority) <= MELODI_PRIORITY_MAX;
  ao_payload : Forall u8 a.(sa_payload) /\ zlen a.(sa_payload) <= MELODI_MESSAGE_MTU;
  ao_mtu : mtu_bad frame_mtu MELODI_WIRE_DATA_SIZE (zlen a.(sa_payload)) = false;
  ao_fragments : fragments_of (zlen a.(sa_payload)) (frame_mtu - MELODI_WIRE_DATA_SIZE) <= MELODI_FRAGMENT_LIMIT;
  ao_ordered : has a.(sa_flags) MELODI_F_ORDERED = false;
  ao_echo : a.(sa_destination_service) <> MELODI_SERVICE_ECHO;
}.

Lemma reliable_flags_unordered flags : has flags MELODI_F_ORDERED = false -> reliable_flags flags = has flags MELODI_F_RELIABLE.
Proof.
  unfold reliable_flags, has. intros H. apply negb_false_iff, Z.eqb_eq in H. change (Z.lor 1 2) with 3.
  change 3 with (Z.lor 1 2). now rewrite Z.land_lor_distr_r, H, Z.lor_0_r.
Qed.

Lemma prepare_message s a destination lookup frame_mtu id s1 p :
  let mtu := frame_mtu - MELODI_WIRE_DATA_SIZE in
  sender_wf (dev s) -> args_ok a frame_mtu -> u64 id -> id <> 0 ->
  prepare_unicast s a destination lookup (fragments_of (zlen a.(sa_payload)) mtu) id = (s1, Ok p) ->
  message_ok p.(pr_header) a.(sa_payload) mtu p.(pr_base) /\ p.(pr_header).(delivery_mode) <> MELODI_DELIVERY_RELIABLE_ORDERED /\
  p.(pr_header).(destination_service) = a.(sa_destination_service).
Proof.
  cbv zeta. intros [[W1 W2] [W3 W4] W5 W6] [[A1 A2] [A3 A4] A5 [A6 A7] A8 A9 A10 A11] Hid Hid0. unfold prepare_unicast.
  destruct (if lookup then _ else _) as [peer|] eqn:Hpeer; [|discriminate]. destruct (_ || _); [discriminate|].
  match goal with |- context [melodi_policy_check_locked ?x ?y ≫= ?f] => destruct (melodi_policy_check_locked x y ≫= f) as [[]|] end; [|discriminate]. destruct (_ <? _) eqn:Hov; [discriminate|]. rewrite A10. intros [= _ <-].
  assert (u32 peer.(p_native_locator) /\ locator_bad peer.(p_native_locator) = false) as [P1 P2].
  { destruct lookup; [|discriminate]. apply bind_Some in Hpeer as (i & Hi & Hp). apply find_index_Some in Hi as (q & Hq & Hc & _).
    assert (q = peer) as -> by congruence. apply andb_prop in Hc as [Hc _]. rewrite list.Forall_forall in W6. apply W6; [|exact Hc].
    apply list_elem_of_lookup. eauto. }
  apply orb_false_iff in A8 as [A8 A8']. set (mtu := frame_mtu - 80) in *.
  assert (zlen (sa_payload a) <> 0 -> 0 < mtu) as Hroom by lia.
  assert (1 <= fragments_of (zlen (sa_payload a)) mtu) as Hc1.
  { destruct (decide (zlen (sa_payload a) = 0)) as [E|E]; [rewrite E; reflexivity|].
    pose proof (fragments_bounds (zlen (sa_payload a)) mtu ltac:(unfold zlen in *; lia) (Hroom E)). lia. }
  cbn [pr_header pr_base delivery_mode destination_service]. rewrite ?A10. split; [|split; [destruct (has _ MELODI_F_RELIABLE); discriminate|reflexivity]].
  split; cbn [data_common flags delivery_mode ordering_marker priority logical_length fragment_count source_native_locator
    destination_native_locator identity_generation message_id source_service destination_service d_link take_counters set_d_link
    set_l_transmit_counter l_local_native_locator l_identity_generation l_transmit_counter]; try assumption; try lia; try tauto.
  - unfold wf_data, wf_common. cbn. unfold melodi_data_wire_flags. rewrite ?A10. unfold wf_bytes, uint in *.
    conj_split; try lia; try (destruct (has _ (Z.lor 1 2)); change (Z.lor 2 4) with 6; lia); try (destruct (has _ MELODI_F_RELIABLE); lia);
      try (unfold zlen in *; lia).
    + reflexivity.
    + repeat (apply List.Forall_cons; [lia|]). apply List.Forall_nil.
  - unfold melodi_data_wire_flags. rewrite ?A10. change (has (sa_flags a) (Z.lor 1 2)) with (reliable_flags (sa_flags a)).
    rewrite (reliable_flags_unordered _ A10). rewrite !elem_of_cons. destruct (has _ MELODI_F_RELIABLE); auto.
  - destruct (has _ MELODI_F_RELIABLE); reflexivity.
Qed.

(** ** Properties *)

Section Runs.
  Context {A : Aead} {Sg : Signer} (msecs_to_jiffies : Z -> Z).
  Context (crypto_ed25519_check : bytes -> bytes -> bytes -> bool) (crypto_eddsa_public_key_check : bytes -> Z).

(** Frames are received one after the other; all that is handed over. *)
Fixpoint frames_run (s : core) (l : list frame_event) : core * list delivery :=
  match l with
  | [] => (s, [])
  | ev :: l =>
      let '(s, ds, _) := receive_step msecs_to_jiffies crypto_ed25519_check crypto_eddsa_public_key_check s ev in
      let '(s, ds') := frames_run s l in (s, ds ++ ds')
  end.

(** The frame number [he_index] of a message is received. *)
Definition frame_of (frames : list bytes) (x : hearing) : frame_event :=
  (x.(he_env), x.(he_gaps), nth x.(he_index) frames [], x.(he_meta)).

Lemma frames_run_hear h payload mtu base key l : forall s, Forall (fun x => (x.(he_index) < Z.to_nat h.(fragment_count))%nat) l ->
  frames_run s (map (frame_of (message_frames h payload mtu base key)) l) =
  hear_all msecs_to_jiffies crypto_ed25519_check crypto_eddsa_public_key_check h payload mtu base key s l.
Proof.
  induction l as [|x l IH]; intros s Hl; [reflexivity|]. inversion_clear Hl as [|? ? Hx Hl'].
  cbn [map frames_run hear_all]. unfold hear, frame_of at 1, heard_frame.
  assert (nth (he_index x) (message_frames h payload mtu base key) [] = message_frame h payload mtu base key (he_index x)) as ->.
  { apply nth_lookup_Some. unfold message_frames. rewrite list_lookup_fmap, lookup_seq_lt by exact Hx. reflexivity. }
  destruct (receive_step _ _ _ _ _) as [[s1 ds] r]. now rewrite IH.
Qed.
End Runs.

(** C2: from the sender's call to the receiver's user.  One node prepares an unordered
    message for a peer and seals its fragments; the other holds the same session and
    has not seen the counters that the message takes.  Whenever every frame is heard at
    least once before the message expires, in any order and with any repetitions, with
    memory for it and room in the tables, and whatever happens between the sections of
    the calls that leaves the reception as it is, then exactly one delivery is made: the
    message with the sender's node, its services and its bytes. *)
Theorem message_delivered {A : Aead} {L : AeadLaws A} {Sg : Signer} msecs_to_jiffies verify public_key_check
    s0 a destination lookup frame_mtu id s1 p alloc frames node epoch source_link local_link s m x l :
  let h := p.(pr_header) in
  let mtu := frame_mtu - MELODI_WIRE_DATA_SIZE in
  let n := fragments_of (zlen a.(sa_payload)) mtu in
  sender_wf (dev s0) -> args_ok a frame_mtu -> u64 id -> id <> 0 ->
  prepare_unicast s0 a destination lookup n id = (s1, Ok p) ->
  seal_loop alloc mtu p.(pr_base) a.(sa_payload) p.(pr_key) (Z.to_nat n) 0 0 h = Ok frames ->
  expects h p.(pr_base) p.(pr_key) node epoch source_link local_link s [] m ->
  m !! message_key_of h node epoch = None -> (size m < MELODI_REASSEMBLY_LIMIT)%nat ->
  messages_size m + zlen a.(sa_payload) <= MELODI_REASSEMBLY_BYTE_LIMIT ->
  Forall (hearing_ok h a.(sa_payload) source_link local_link) (x :: l) ->
  (forall k, (k < length frames)%nat -> k ∈ map he_index (x :: l)) -> in_time msecs_to_jiffies x (x :: l) ->
  (frames_run msecs_to_jiffies verify public_key_check s (map (frame_of frames) (x :: l))).2 =
    [MkDelivery node a.(sa_source_service) a.(sa_destination_service) a.(sa_payload) (set_authenticated true x.(he_meta))].
Proof.
  cbv zeta. intros Hwf Ha Hid Hid0 Hp Hs He Hm Hsz Hroom Hl Hcov Ht.
  destruct (prepare_message s0 a destination lookup frame_mtu id s1 p Hwf Ha Hid Hid0 Hp) as (Hok & Hmode & Hds).
  rewrite <- (mo_count _ _ _ _ Hok) in Hs. rewrite (seal_message alloc _ _ _ _ _ Hok) in Hs. destruct (forallb _ _); [|discriminate].
  injection Hs as <-. rewrite frames_run_hear by (rewrite list.Forall_forall in *; intros y Hy; exact (ho_index _ _ _ _ _ (Hl y Hy))).
  assert (length (message_frames (pr_header p) (sa_payload a) (frame_mtu - 80) (pr_base p) (pr_key p)) = Z.to_nat (fragment_count (pr_header p))) as El
    by (unfold message_frames; now rewrite length_map, length_seq).
  rewrite El in Hcov.
  rewrite (heard_whole msecs_to_jiffies verify public_key_check (pr_header p) (sa_payload a) (frame_mtu - 80) (pr_base p) (pr_key p) Hok node epoch
    source_link local_link Hmode ltac:(rewrite Hds; exact (ao_echo _ _ Ha)) x l s m He Hl Hcov Ht Hm Hsz Hroom).
  unfold message_delivery. rewrite Hds. do 2 f_equal. clear - Hp. revert Hp. unfold prepare_unicast.
  destruct (if lookup then _ else _) as [peer|]; [|discriminate]. destruct (_ || _); [discriminate|].
  match goal with |- context [melodi_policy_check_locked ?x ?y ≫= ?f] => destruct (melodi_policy_check_locked x y ≫= f) as [[]|] end; [|discriminate].
  destruct (_ <? _); [discriminate|]. destruct (if has _ _ then _ else _) as [mel [mk|]]; [|discriminate]. now intros [= _ <-].
Qed.

(** ** A message from one sample device to another *)

Definition sender_core : core :=
  MkCore (MkDevice (MkLink (MkNodeId (1 :: replicate 32 5)) true true 31 31 0 1 4)
            (<[0%nat := set_p_transmit_key (replicate 32 2) (sample_peer 9 40)]> fresh_device.(d_peers)) fresh_device.(d_receive)
            fresh_device.(d_pending) fresh_device.(d_policy) fresh_device.(d_tx) fresh_device.(d_data)) [] [].

Definition sample_args : send_args := MkSend (Some (MkNodeId (1 :: replicate 32 9))) 10 20 sample_payload MELODI_F_RELIABLE 5 1000 3 1 2 0.

Definition sample_hearing (i : nat) : hearing := MkHearing i sample_env idle_gaps sample_link_meta.

Definition sample_prepared : core * result prepared :=
  Eval vm_compute in prepare_unicast sender_core sample_args (MkNodeId (1 :: replicate 32 9)) true 2 77.
Definition sample_p : prepared := Eval vm_compute in match sample_prepared.2 with Ok p => p | Err _ => MkPrepared sample_message 0 [] sample_meta control_request end.
Definition sample_sealed : list bytes := Eval vm_compute in
  match seal_loop (fun _ => Some (fun _ => 0)) 3 5 sample_payload (replicate 32 2) 2 0 0 sample_p.(pr_header) with Ok l => l | Err _ => [] end.

Lemma sender_core_wf : sender_wf (dev sender_core).
Proof.
  split.
  - split; [unfold uint; cbn; lia|reflexivity].
  - split; [unfold uint; cbn; lia|discriminate].
  - cbn. lia.
  - apply Forall_insert; [|intros _; split; [unfold uint; cbn; lia|reflexivity]]. apply Forall_replicate. discriminate.
Qed.

Lemma sample_args_ok : args_ok sample_args 83.
Proof.
  split; try (split; vm_compute; split; congruence); try (split; vm_compute; congruence); try (vm_compute; congruence); try reflexivity.
  split; [|vm_compute; congruence]. repeat (apply List.Forall_cons; [unfold uint; lia|]). apply List.Forall_nil.
Qed.

Lemma sample_inv : reassembly_inv (dev sample_core).(d_receive) /\ messages (dev sample_core).(d_receive) = ∅.
Proof. exact fresh_inv. Qed.

Lemma sample_expects : expects sample_p.(pr_header) 5 (replicate 32 2) (MkNodeId (1 :: replicate 32 5)) 5 31 40 sample_core [] ∅.
Proof.
  split; [|vm_compute; reflexivity..|exact (proj1 sample_inv)|exact (proj2 sample_inv)].
  exists 0%nat, (sample_peer 5 31). split; [vm_compute; reflexivity|]. split; [vm_compute; reflexivity|]. split; try (vm_compute; reflexivity).
  intros k Hk. change (k < 2)%nat in Hk. destruct k as [|[|k]]; [vm_compute; reflexivity|vm_compute; reflexivity|lia].
Qed.

Lemma sample_hearing_ok i : (i < 2)%nat -> hearing_ok sample_p.(pr_header) sample_payload 31 40 (sample_hearing i).
Proof.
  intros Hi. split; try reflexivity; [exact Hi| |].
  - exists (replicate 5 0). split; [reflexivity|vm_compute; discriminate].
  - split; intros s; reflexivity.
Qed.

Lemma message_delivered_witness :
  (frames_run id (fun _ _ _ => false) (fun _ => 0) sample_core (map (frame_of sample_sealed) (map sample_hearing [1; 1; 0; 1]%nat))).2 =
    [MkDelivery (MkNodeId (1 :: replicate 32 5)) 10 20 [1; 2; 3; 4; 5] (set_authenticated true sample_link_meta)].
Proof.
  refine (message_delivered id (fun _ _ _ => false) (fun _ => 0) sender_core sample_args (MkNodeId (1 :: replicate 32 9)) true 83 77
    sample_prepared.1 sample_p (fun _ => Some (fun _ => 0)) sample_sealed (MkNodeId (1 :: replicate 32 5)) 5 31 40 sample_core ∅
    (sample_hearing 1) (map sample_hearing [1; 0; 1]%nat) sender_core_wf sample_args_ok _ _ _ _ sample_expects _ _ _ _ _ _).
  - unfold uint. lia.
  - discriminate.
  - vm_compute. reflexivity.
  - vm_compute. reflexivity.
  - reflexivity.
  - rewrite map_size_empty. lia.
  - vm_compute. discriminate.
  - repeat (apply List.Forall_cons; [apply sample_hearing_ok; lia|]). apply List.Forall_nil.
  - change (length sample_sealed) with 2%nat. intros k Hk. destruct k as [|[|k]]; [|left|lia]. right. right. left.
  - repeat (apply List.Forall_cons; [reflexivity|]). apply List.Forall_nil.
Defined.
