(* ===== verification/Nonces.v ===== *)
(** * Counters and nonces (src/kernel/core/data.c, main.c)

    Every frame that is sealed under a session key takes the next counters of the
    device under the lock, and its nonce consists of the locator, the generation, the
    counter and the message identifier.  Over any run of sends, acknowledgements and
    control frames, with anything in between that keeps or renews the identity, no
    nonce is used twice. *)
From S2P Require Import Prelude Buffer Uapi Wire Slots Device Fragments Peers Delivery Identity Policy Queue Send.

(** What takes counters; [Other] is anything else. *)
Inductive counter_event : Type :=
| SealMessage (a : send_args) (destination : melodi_node_id) (lookup : bool) (count : Z) (id : Z)
| SignBroadcast (a : send_args) (count : Z) (id : Z)
| SealAck (data : melodi_wire_data) (bitmap status : Z)
| SignControl
| Other (f : core -> core).

(** The frames of a message, from its prepared header. *)
Definition fragment_commons (header : melodi_wire_data) (base count : Z) : list melodi_wire_common :=
  map (fun i => (fragment_header header base (Z.of_nat i)).(data_common)) (seq 0 (Z.to_nat count)).

(** The state behind the section under the lock, and what names the frames it seals. *)
Definition counter_step (s : core) (ev : counter_event) : core * list melodi_wire_common :=
  match ev with
  | SealMessage a destination lookup count id =>
      match prepare_unicast s a destination lookup count id with
      | (s, Ok p) => (s, fragment_commons p.(pr_header) p.(pr_base) count)
      | (s, Err _) => (s, [])
      end
  | SignBroadcast a count id =>
      match prepare_broadcast s a count id with
      | (s, Ok p) => (s, fragment_commons p.(pr_header) p.(pr_base) count)
      | (s, Err _) => (s, [])
      end
  | SealAck data bitmap status =>
      match prepare_ack (dev s) data bitmap status with
      | (melodi, Ok (ack, _, _)) => (set_dev melodi s, [ack.(ack_common)])
      | (melodi, Err _) => (set_dev melodi s, [])
      end
  | SignControl => (set_dev (melodi_counter_next_locked (dev s)).1 s, [])
  | Other f => (f s, [])
  end.

Fixpoint counter_run (s : core) (l : list counter_event) : list melodi_wire_common :=
  match l with
  | [] => []
  | ev :: l => let '(s, cs) := counter_step s ev in cs ++ counter_run s l
  end.

(** ** Stamps *)

Definition stamp_lt (x y : Z * Z) : Prop := x.1 < y.1 \/ x.1 = y.1 /\ x.2 < y.2.
Definition stamp_le (x y : Z * Z) : Prop := x.1 < y.1 \/ x.1 = y.1 /\ x.2 <= y.2.

Definition stamp_of (s : core) : Z * Z := ((dev s).(d_link).(l_identity_generation), (dev s).(d_link).(l_transmit_counter)).
Definition stamp (c : melodi_wire_common) : Z * Z := (c.(identity_generation), c.(counter)).

Definition link_wf (s : core) : Prop :=
  u32 (dev s).(d_link).(l_local_native_locator) /\ u32 (dev s).(d_link).(l_identity_generation) /\ u64 (dev s).(d_link).(l_transmit_counter).

(** A new generation starts the counter anew; within one it only grows. *)
Definition event_wf (ev : counter_event) : Prop :=
  match ev with
  | SealMessage _ _ _ count id | SignBroadcast _ count id => 1 <= count <= MELODI_FRAGMENT_LIMIT /\ u64 id
  | SealAck data _ _ => u64 data.(data_common).(message_id)
  | SignControl => True
  | Other f => forall s, link_wf s -> link_wf (f s) /\ stamp_le (stamp_of s) (stamp_of (f s))
  end.

Definition common_wf (c : melodi_wire_common) : Prop :=
  u32 c.(source_native_locator) /\ u32 c.(identity_generation) /\ u64 c.(counter) /\ u64 c.(message_id).

(** The frames of a step: their stamps rise from that of the device before to that behind. *)
Definition step_stamps (s s' : core) (cs : list melodi_wire_common) : Prop :=
  link_wf s' /\ stamp_le (stamp_of s) (stamp_of s') /\ Forall common_wf cs /\ NoDup (map stamp cs) /\
  Forall (fun c => stamp_lt (stamp_of s) (stamp c) /\ stamp_le (stamp c) (stamp_of s')) cs.

Lemma stamps_none s s' : link_wf s' -> stamp_le (stamp_of s) (stamp_of s') -> step_stamps s s' [].
Proof. intros H1 H2. split; [exact H1|]. split; [exact H2|]. repeat constructor. Qed.

Lemma stamp_le_refl x : stamp_le x x.
Proof. unfold stamp_le. lia. Qed.
#[local] Hint Resolve stamp_le_refl : core.

(** The link state with [count] counters taken. *)
Definition taken (s s' : core) (count : Z) : Prop :=
  (dev s').(d_link) = set_l_transmit_counter (wrap 64 ((dev s).(d_link).(l_transmit_counter) + count)) (dev s).(d_link) /\
  1 <= count /\ (dev s).(d_link).(l_transmit_counter) <= U64_MAX - count.

Lemma taken_wf s s' count : link_wf s -> taken s s' count -> link_wf s' /\ stamp_le (stamp_of s) (stamp_of s').
Proof.
  intros (H1 & H2 & H3) (E & Hc & Hov). set (base := l_transmit_counter (d_link (dev s))) in *.
  assert (wrap 64 (base + count) = base + count) as Ew by (apply wrap_id; width_lia).
  unfold link_wf, stamp_of. rewrite E, Ew. cbn [set_l_transmit_counter l_local_native_locator l_identity_generation l_transmit_counter].
  split; [split; [exact H1|split; [exact H2|width_lia]]|]. unfold stamp_le. cbn. lia.
Qed.

(** The counters of a batch. *)
Lemma batch_stamps s s' header count id :
  link_wf s -> taken s s' count -> u64 id ->
  header.(data_common).(source_native_locator) = (dev s).(d_link).(l_local_native_locator) ->
  header.(data_common).(identity_generation) = (dev s).(d_link).(l_identity_generation) ->
  header.(data_common).(message_id) = id ->
  step_stamps s s' (fragment_commons header ((dev s).(d_link).(l_transmit_counter) + 1) count).
Proof.
  intros Hs Ht Hid Es Eg Em. destruct (taken_wf s s' count Hs Ht) as [Hw Hle]. split; [exact Hw|]. split; [exact Hle|]. clear Hw Hle.
  destruct Hs as (H1 & H2 & H3), Ht as (E & Hc & Hov). set (base := l_transmit_counter (d_link (dev s))) in *.
  assert (forall i, (i < Z.to_nat count)%nat -> wrap 64 (base + 1 + Z.of_nat i) = base + 1 + Z.of_nat i) as Ei
    by (intros i Hi; apply wrap_id; width_lia).
  assert (wrap 64 (base + count) = base + count) as Ew by (apply wrap_id; width_lia).
  unfold fragment_commons. split; [|split].
  - apply Forall_map. rewrite list.Forall_forall. intros i [_ Hi]%elem_of_seq. unfold common_wf. cbn [fragment_header data_common source_native_locator
      identity_generation counter message_id]. rewrite Es, Eg, Em, Ei by lia. repeat split; width_lia.
  - rewrite map_map. apply NoDup_fmap_2_strong; [|apply NoDup_seq]. intros i j [_ Hi]%elem_of_seq [_ Hj]%elem_of_seq E2. apply (f_equal snd) in E2.
    change (wrap 64 (base + 1 + Z.of_nat i) = wrap 64 (base + 1 + Z.of_nat j)) in E2. rewrite !Ei in E2 by lia. lia.
  - apply Forall_map. rewrite list.Forall_forall. intros i [_ Hi]%elem_of_seq. unfold stamp, stamp_of. rewrite E, Ew.
    cbn [fragment_header data_common identity_generation counter]. rewrite Eg, Ei by lia. unfold stamp_lt, stamp_le. cbn. fold base. lia.
Qed.

Lemma stamp_le_trans x y z : stamp_le x y -> stamp_le y z -> stamp_le x z.
Proof. unfold stamp_le. lia. Qed.

Lemma next_stamps s : link_wf s -> forall m, (m = (melodi_counter_next_locked (dev s)).1) ->
  link_wf (set_dev m s) /\ stamp_le (stamp_of s) (stamp_of (set_dev m s)).
Proof.
  intros (H1 & H2 & H3) m ->. unfold melodi_counter_next_locked. destruct (_ =? U64_MAX) eqn:E; [split; [now split|apply stamp_le_refl]|].
  assert (wrap 64 (l_transmit_counter (d_link (dev s)) + 1) = l_transmit_counter (d_link (dev s)) + 1) as Ew by (apply wrap_id; width_lia).
  unfold link_wf, stamp_of, stamp_le. cbn [fst set_dev c_dev set_d_link d_link set_l_transmit_counter l_local_native_locator l_identity_generation l_transmit_counter snd].
  rewrite Ew. split; [split; [exact H1|split; [exact H2|width_lia]]|lia].
Qed.

(** Every step keeps the order. *)
Lemma counter_step_stamps s ev : link_wf s -> event_wf ev -> let '(s', cs) := counter_step s ev in step_stamps s s' cs.
Proof.
  intros Hs He. pose proof Hs as (H1 & H2 & H3). destruct ev as [a destination lookup count id|a count id|data bitmap status| |f]; cbn [counter_step event_wf] in *.
  - destruct He as [Hc Hid]. unfold prepare_unicast. destruct (if lookup then _ else _) as [peer|]; [|now apply stamps_none].
    destruct (_ || _); [now apply stamps_none|].
    match goal with |- context [melodi_policy_check_locked ?x ?y ≫= ?f] => destruct (melodi_policy_check_locked x y ≫= f) as [[]|] end;
      [|now apply stamps_none].
    destruct (_ <? _) eqn:Hov; [now apply stamps_none|].
    assert (exists r mk, (if has (sa_flags a) MELODI_F_ORDERED then
        let '(r, marker) := melodi_order_tx_marker_locked (d_receive (take_counters count (dev s))) destination (sa_source_service a)
                              (sa_destination_service a) (p_generation peer) (p_session_epoch peer) in
        (set_d_receive r (take_counters count (dev s)), marker) else (take_counters count (dev s), Ok 0)) =
        (set_d_receive r (take_counters count (dev s)), mk)) as (r & mk & ->).
    { destruct (has _ _); [destruct (melodi_order_tx_marker_locked _ _ _ _ _ _); eauto|]. exists (d_receive (dev s)). eexists. reflexivity. }
    match goal with |- context [set_dev ?m s] => set (s' := set_dev m s) end.
    assert (taken s s' count) as Ht by (split; [reflexivity|lia]).
    destruct mk as [marker|]; [now apply (batch_stamps s s' _ count id)|]. destruct (taken_wf s s' count Hs Ht). now apply stamps_none.
  - destruct He as [Hc Hid]. unfold prepare_broadcast. do 2 (match goal with |- context [if ?b then _ else _] => destruct b; [now apply stamps_none|] end).
    destruct (_ <? _) eqn:Hov; [now apply stamps_none|]. destruct (melodi_policy_check_service_locked _ _ _) as [[]|]; [|now apply stamps_none].
    match goal with |- context [set_dev ?m s] => set (s' := set_dev m s) end.
    assert (taken s s' count) as Ht by (split; [reflexivity|lia]). now apply (batch_stamps s s' _ count id).
  - unfold prepare_ack. destruct (_ ≫= _) as [peer|]; [|now apply stamps_none]. destruct (_ || _); [now apply stamps_none|].
    unfold melodi_counter_next_locked. destruct (_ =? U64_MAX) eqn:E; [now apply stamps_none|].
    match goal with |- context [set_dev ?m s] => set (s' := set_dev m s) end.
    assert (taken s s' 1) as Ht by (split; [reflexivity|width_lia]). destruct (taken_wf s s' 1 Hs Ht) as [Hw Hle].
    split; [exact Hw|]. split; [exact Hle|].
    assert (wrap 64 (l_transmit_counter (d_link (dev s)) + 1) = l_transmit_counter (d_link (dev s)) + 1) as Ew by (apply wrap_id; width_lia).
    split; [|split].
    + constructor; [|constructor]. unfold common_wf.
      cbn [ack_common source_native_locator identity_generation counter message_id d_link set_d_link set_l_transmit_counter
        l_local_native_locator l_identity_generation]. rewrite Ew. repeat split; width_lia.
    + apply NoDup_singleton.
    + constructor; [|constructor]. unfold stamp, stamp_of, stamp_lt, stamp_le.
      cbn [ack_common identity_generation counter s' set_dev c_dev d_link set_d_link set_l_transmit_counter l_local_native_locator l_identity_generation
        l_transmit_counter fst snd]. rewrite Ew. lia.
  - destruct (next_stamps s Hs _ eq_refl). now apply stamps_none.
  - destruct (He s Hs). now apply stamps_none.
Qed.

Lemma stamps_later x y z : stamp_le x y -> stamp_lt y z -> stamp_lt x z.
Proof. unfold stamp_le, stamp_lt. lia. Qed.

Lemma counter_run_stamps l : forall s, link_wf s -> Forall event_wf l ->
  Forall common_wf (counter_run s l) /\ NoDup (map stamp (counter_run s l)) /\ Forall (fun c => stamp_lt (stamp_of s) (stamp c)) (counter_run s l).
Proof.
  induction l as [|ev l IH]; intros s Hs Hl; cbn [counter_run]; [repeat constructor|]. inversion_clear Hl as [|? ? He Hl'].
  pose proof (counter_step_stamps s ev Hs He) as Hstep. destruct (counter_step s ev) as [s1 cs]. destruct Hstep as (Hw & Hle & Hc & Hnd & Hst).
  destruct (IH s1 Hw Hl') as (I1 & I2 & I3). rewrite list.Forall_forall in *. split; [|split].
  - intros c [Hx|Hx]%elem_of_app; auto.
  - rewrite map_app. apply list.NoDup_app. split; [exact Hnd|]. split; [|exact I2]. intros x Hx Hy.
    apply list_elem_of_fmap in Hx as (c & -> & Hx), Hy as (d & E & Hy). specialize (Hst c Hx). specialize (I3 d Hy).
    rewrite E in Hst. unfold stamp_lt, stamp_le in *. lia.
  - apply list.Forall_forall. intros c [Hx|Hx]%elem_of_app; [apply Hst, Hx|]. exact (stamps_later _ _ _ Hle (I3 c Hx)).
Qed.

(** C9: no nonce is used twice.  Over any run of messages and acknowledgements that are
    sealed, broadcasts and control frames that are signed, and anything in between that
    keeps the identity and its counter or replaces the generation by a later one, the
    pairs of generation and counter of all frames, and the nonces they are sealed
    under, are pairwise distinct, whatever identifiers the messages draw; no counter
    wraps around. *)
Theorem nonces_unique s l : link_wf s -> Forall event_wf l ->
  NoDup (map stamp (counter_run s l)) /\ NoDup (map frame_nonce (counter_run s l)).
Proof.
  intros Hs Hl. destruct (counter_run_stamps l s Hs Hl) as (Hw & Hnd & _). split; [exact Hnd|].
  revert Hw Hnd. generalize (counter_run s l). intros cs. induction cs as [|c cs IH]; intros Hw Hnd; [constructor|]. cbn [map] in *.
  inversion_clear Hw as [|? ? Hc Hw']. apply list.NoDup_cons in Hnd as [Hn Hnd]. apply list.NoDup_cons. split; [|now apply IH].
  intros Hin. apply list_elem_of_fmap in Hin as (d & E & Hd). apply Hn, list_elem_of_fmap. exists d. split; [|exact Hd].
  rewrite list.Forall_forall in Hw'. destruct Hc as (C1 & C2 & C3 & C4), (Hw' d Hd) as (D1 & D2 & D3 & D4).
  destruct (nonce_inj _ _ _ _ _ _ _ _ C1 C2 C3 C4 D1 D2 D3 D4 E) as (_ & Eg & Ec & _). unfold stamp. congruence.
Qed.

(** A message of two fragments, an acknowledgement, a control frame, a new generation
    and another message. *)
Definition sample_counters : list counter_event :=
  let a := MkSend (Some (MkNodeId (1 :: replicate 32 5))) 20 10 [1; 2; 3] 0 5 1000 3 1 2 0 in
  [SealMessage a (MkNodeId (1 :: replicate 32 5)) true 2 77;
   SealAck (sent_data (set_tag sample_message (replicate 16 0)) 3) 1 0; SignControl;
   Other (fun s => if l_identity_generation (d_link (dev s)) =? 1
                   then set_dev (set_d_link (MkLink (MkNodeId []) true true 40 40 0 2 0) (dev s)) s else s);
   SealMessage a (MkNodeId (1 :: replicate 32 5)) true 1 77].

Lemma nonces_unique_witness :
  map stamp (counter_run sample_core sample_counters) = [(1, 1); (1, 2); (1, 3); (2, 1)] /\
  NoDup (map frame_nonce (counter_run sample_core sample_counters)).
Proof.
  split; [vm_compute; reflexivity|]. apply nonces_unique.
  - unfold link_wf, uint. cbn. lia.
  - unfold sample_counters. repeat (apply List.Forall_cons); [..|apply List.Forall_nil]; cbn [event_wf].
    + unfold uint. lia.
    + unfold uint. cbn. lia.
    + exact I.
    + intros s (H1 & H2 & H3). destruct (_ =? 1) eqn:E; [|split; [now split|unfold stamp_le; lia]].
      unfold link_wf, stamp_le, stamp_of, uint in *. cbn. lia.
    + unfold uint. lia.
Defined.
