(* ===== verification/Discovery.v ===== *)
(** * Discovery and session set-up (src/kernel/core/discovery.c)

    Announcements, the claim of an identity on a locator, the challenge and the
    response that give two peers a pair of session keys, the expiry of peers and the
    resolution of locator collisions.  Curve25519, the keyed hash and the signature
    are the kernel's and the vendored library's, and are interfaces here; a call's
    random bytes and clocks are in its environment. *)
From S2P Require Import Prelude Buffer Uapi Wire Replay Mapping Slots Device Fragments Peers Reassembly Delivery Identity Queue Send Receive.

Abbreviation MELODI_PEER_EXPIRY_MAX_SECONDS := 300.
Abbreviation MELODI_ANNOUNCE_JITTER_MS := 3000.
Abbreviation MELODI_ANNOUNCE_SLOTS := 4.
Abbreviation MELODI_CONTROL_EXPIRY_SECONDS := 30.
Abbreviation MELODI_WIRE_HELLO_SIGNED_SIZE := 149%nat.
Abbreviation MELODI_WIRE_AUTH_SIGNED_SIZE := 238%nat.
Abbreviation MELODI_WIRE_CONTROL_SIGNED_SIZE := 145%nat.
Abbreviation MELODI_WIRE_SIGNATURE_SIZE := 64%nat.

(** ** Interfaces

    [curve25519_generate_public] writes its first argument, whatever it returns;
    what [curve25519] writes when it fails is not used. *)
Class Curve := {
  curve25519 (secret basepoint : bytes) : option bytes;
  curve25519_generate_public (pub secret : bytes) : bytes * bool;
}.

(** What two holders of a secret agree on. *)
Class CurveLaws (C : Curve) : Prop := {
  curve_agrees p p' a b A B :
    curve25519_generate_public p a = (A, true) -> curve25519_generate_public p' b = (B, true) ->
    curve25519 a B = curve25519 b A;
}.

(** [blake2s_init_key(&context, 32, key, 32)], updates with the parts of some data in
    order, and [blake2s_final]. *)
Class KeyedHash := {
  keyed_blake2s (key data : bytes) : bytes;
}.

(** ** State

    The members of [struct melodi_device] that only discovery uses. *)
Record discovery_state := MkDiscoveryState {
  m_mesh_domain : bytes;
  m_last_hello_challenge : bytes;
  m_previous_hello_challenge : bytes;
  m_conflict_pending : bool;
  m_peer_expiry_work : option Z;
  m_announce_work : option Z;
}.

Record node := MkNode {
  n_core : core;
  n_disc : discovery_state;
}.

Abbreviation ndev n := (n.(n_core).(c_dev)).
Abbreviation nlink n := (n.(n_core).(c_dev).(d_link)).
Definition with_dev (melodi : melodi_device) (n : node) : node := MkNode (set_dev melodi n.(n_core)) n.(n_disc).
Definition set_m_last_hello_challenge (v : bytes) (m : discovery_state) : discovery_state :=
  MkDiscoveryState m.(m_mesh_domain) v m.(m_previous_hello_challenge) m.(m_conflict_pending) m.(m_peer_expiry_work)
    m.(m_announce_work).
Definition set_m_previous_hello_challenge (v : bytes) (m : discovery_state) : discovery_state :=
  MkDiscoveryState m.(m_mesh_domain) m.(m_last_hello_challenge) v m.(m_conflict_pending) m.(m_peer_expiry_work)
    m.(m_announce_work).
Definition set_m_conflict_pending (v : bool) (m : discovery_state) : discovery_state :=
  MkDiscoveryState m.(m_mesh_domain) m.(m_last_hello_challenge) m.(m_previous_hello_challenge) v m.(m_peer_expiry_work)
    m.(m_announce_work).
Definition set_m_peer_expiry_work (v : option Z) (m : discovery_state) : discovery_state :=
  MkDiscoveryState m.(m_mesh_domain) m.(m_last_hello_challenge) m.(m_previous_hello_challenge) m.(m_conflict_pending) v
    m.(m_announce_work).
Definition set_m_announce_work (v : option Z) (m : discovery_state) : discovery_state :=
  MkDiscoveryState m.(m_mesh_domain) m.(m_last_hello_challenge) m.(m_previous_hello_challenge) m.(m_conflict_pending)
    m.(m_peer_expiry_work) v.
Definition with_disc (m : discovery_state) (n : node) : node := MkNode n.(n_core) m.

(** What a call finds around it: the memory of the hash context and of the frame it
    builds, the clocks, the random bytes it draws, and the state of the interface. *)
Record discovery_env := MkDiscoveryEnv {
  de_stack : bytes;
  de_frame : bytes;
  de_jiffies : Z;
  de_now_ns : Z;
  de_public : bytes;
  de_secret : bytes;
  de_challenge : bytes;
  de_message_id : Z;
  de_below : Z -> Z;
  de_running : bool;
  de_carrier : bool;
  de_send : send_env;
}.

(** What happens outside: the reactions of the queue and the data plane to a changed
    state, the configuration of the transport (with [melodi_link_ready(dev, false, 0)]
    and [melodi_data_fail_pending] before it), and what everybody else does between
    the section that builds a frame and [melodi_send_frame], and between its section
    and the queue. *)
Record discovery_gaps := MkDiscoveryGaps {
  dg_settle : node -> node;
  dg_configure : node -> node * result unit;
  dg_built : node -> node;
  dg_queue : node -> node;
}.

(** ** Peers and locators *)

Section Clock.
  Context (msecs_to_jiffies : Z -> Z).

Definition earliest_expiry (peers : list melodi_peer) : Z :=
  fold_left (fun earliest p =>
    if p.(p_authenticated) && ((earliest =? 0) || time_before p.(p_expires) earliest) then p.(p_expires) else earliest)
    peers 0.

Definition melodi_peer_expiry_schedule_locked (jiffies : Z) (n : node) : node :=
  let earliest := earliest_expiry (ndev n).(d_peers) in
  if earliest =? 0 then n else
  let delay := if time_after_eq jiffies earliest then 1 else wrap 64 (earliest - jiffies) in
  with_disc (set_m_peer_expiry_work (Some delay) n.(n_disc)) n.

Definition expired (jiffies : Z) (p : melodi_peer) : bool := p.(p_authenticated) && negb (time_before jiffies p.(p_expires)).

(** The loop of [melodi_peer_expiry_work]. *)
Definition expiry_loop (jiffies : Z) (melodi : melodi_device) : melodi_device :=
  fold_left (fun melodi index =>
    if at_index melodi.(d_peers) index (expired jiffies)
    then with_peer index zero_peer (melodi_peer_session_reset_locked melodi index) else melodi) (seq 0 MELODI_PEER_LIMIT) melodi.

(** The section under the lock of [melodi_peer_expiry_work]. *)
Definition expiry_locked (jiffies : Z) (n : node) : node :=
  let melodi := melodi_conflicts_recompute_locked (expiry_loop jiffies (ndev n)) in
  melodi_peer_expiry_schedule_locked jiffies (with_dev melodi n).

Definition melodi_peer_expiry_work (jiffies : Z) (g : discovery_gaps) (n : node) : node := g.(dg_settle) (expiry_locked jiffies n).

Definition announce_lane (pace_ms : Z) : Z :=
  if MELODI_ANNOUNCE_JITTER_MS <? pace_ms then pace_ms else MELODI_ANNOUNCE_JITTER_MS.

Definition announce_slot (node_id : melodi_node_id) : Z :=
  fold_left (fun slot b => wrap 32 (slot + b)) node_id.(node_bytes) 0 mod MELODI_ANNOUNCE_SLOTS.

Definition melodi_announce_schedule (e : discovery_env) (base_ms : Z) (n : node) : node :=
  let lane := announce_lane e.(de_send).(se_pace_ms) in
  let slot := announce_slot (nlink n).(l_node_id) in
  let delay := wrap 32 (base_ms + slot * lane + e.(de_below) lane) in
  with_disc (set_m_announce_work (Some (msecs_to_jiffies delay)) n.(n_disc)) n.

Definition melodi_announce_period (pace_ms : Z) : Z := wrap 32 (MELODI_ANNOUNCE_SLOTS * announce_lane pace_ms).

Definition melodi_discovery_announce_soon (e : discovery_env) (n : node) : node := melodi_announce_schedule e 0 n.

(** [for (index ...) if (peers[index].authenticated) melodi_peer_session_reset_locked(...)] *)
Definition end_sessions (melodi : melodi_device) : melodi_device :=
  fold_left (fun melodi index =>
    if at_index melodi.(d_peers) index p_authenticated then melodi_peer_session_reset_locked melodi index else melodi)
    (seq 0 MELODI_PEER_LIMIT) melodi.

Definition melodi_discovery_reset_locked (melodi : melodi_device) : melodi_device :=
  let melodi := end_sessions melodi in
  set_d_peers (replicate MELODI_PEER_LIMIT zero_peer) melodi.

Definition set_locator (native_locator round : Z) (l : link_state) : link_state :=
  MkLink l.(l_node_id) l.(l_identity_ready) l.(l_transport_ready) native_locator l.(l_local_link_locator) round
    l.(l_identity_generation) l.(l_transmit_counter).

Definition melodi_local_reassign_locked (stack : bytes) (n : node) : node * result unit :=
  let link := nlink n in
  if link.(l_local_collision_round) =? U32_MAX then (n, Err EOVERFLOW) else
  let occupied := map p_native_locator (List.filter p_authenticated (ndev n).(d_peers)) in
  match melodi_map_native_locator_available stack n.(n_disc).(m_mesh_domain) link.(l_node_id)
          (link.(l_local_collision_round) + 1) occupied with
  | Err error => (n, Err error)
  | Ok (native_locator, round) =>
      let melodi := set_d_link (set_locator native_locator round link) (ndev n) in
      let melodi := end_sessions melodi in
      let melodi := set_d_receive (melodi_data_reassembly_reset_locked melodi.(d_receive)) melodi in
      let melodi := set_d_receive (melodi_data_order_reset_locked melodi.(d_receive)) melodi in
      (with_disc (set_m_conflict_pending true n.(n_disc)) (with_dev melodi n), Ok tt)
  end.

(** ** Session keys *)

Definition melodi_hash_u32 (value : Z) : bytes :=
  [wrap 8 (Z.shiftr value 24); wrap 8 (Z.shiftr value 16); wrap 8 (Z.shiftr value 8); wrap 8 value].

(** ["melodi-session-v1"] *)
Definition session_label : bytes :=
  [109; 101; 108; 111; 100; 105; 45; 115; 101; 115; 115; 105; 111; 110; 45; 118; 49].

Definition melodi_session_key {H : KeyedHash} (shared domain : bytes) (initiator responder : melodi_node_id)
    (initiator_native_locator responder_native_locator initiator_round responder_round
     initiator_generation responder_generation : Z)
    (initiator_ephemeral responder_ephemeral initiator_nonce responder_nonce : bytes) (direction : Z) : bytes :=
  keyed_blake2s shared
    (session_label ++ domain ++ initiator.(node_bytes) ++ responder.(node_bytes) ++
     melodi_hash_u32 initiator_native_locator ++ melodi_hash_u32 responder_native_locator ++
     melodi_hash_u32 initiator_round ++ melodi_hash_u32 responder_round ++
     melodi_hash_u32 initiator_generation ++ melodi_hash_u32 responder_generation ++
     initiator_ephemeral ++ responder_ephemeral ++ initiator_nonce ++ responder_nonce ++ [direction]).

(** ** The claim of a peer *)

(** [*result], [*local_changed] and [*local_collision]. *)
Record claim := MkClaim {
  cl_index : nat;
  cl_changed : bool;
  cl_collision : bool;
}.

(** The entry with the claimed identity. *)
Definition claimed (node_id : melodi_node_id) (native_locator link_locator round generation counter : Z)
    (p : melodi_peer) : melodi_peer :=
  MkPeer node_id native_locator link_locator round generation counter p.(p_expires) p.(p_capabilities)
    p.(p_last_seen_ns) p.(p_rssi) p.(p_snr) p.(p_hops) p.(p_receive_replay) p.(p_session_epoch) p.(p_transmit_key)
    p.(p_receive_key) p.(p_ephemeral_private) p.(p_ephemeral_public) p.(p_remote_hello_challenge) p.(p_local_challenge)
    true p.(p_conflicted) p.(p_handshake_pending) p.(p_session_ready).

(** A claim that is not newer than the last one. *)
Definition stale_claim (p : melodi_peer) (generation counter : Z) : bool :=
  p.(p_authenticated) &&
  ((generation <? p.(p_generation)) ||
   ((generation =? p.(p_generation)) && (counter <=? p.(p_control_counter)))).

Definition claim_resets (p : melodi_peer) (native_locator link_locator round generation : Z) : bool :=
  negb p.(p_authenticated) || negb (generation =? p.(p_generation)) ||
  negb (native_locator =? p.(p_native_locator)) || negb (link_locator =? p.(p_link_locator)) ||
  negb (round =? p.(p_collision_round)).

(** The peer is stored. *)
Definition claim_peer (melodi : melodi_device) (index : nat) (p : melodi_peer) (node_id : melodi_node_id)
    (native_locator link_locator round generation counter : Z) : melodi_device :=
  let melodi :=
    if negb p.(p_authenticated) then with_peer index zero_peer melodi
    else if claim_resets p native_locator link_locator round generation then melodi_peer_session_reset_locked melodi index
    else melodi in
  set_d_peers (alter (claimed node_id native_locator link_locator round generation counter) index melodi.(d_peers)) melodi.

(** What follows a stored claim. *)
Definition claim_finish (n : node) (index : nat) (resolve_local changed collision : bool) : node * result claim :=
  let n := with_dev (melodi_conflicts_recompute_locked (ndev n)) n in
  if at_index (ndev n).(d_peers) index p_conflicted && negb resolve_local then (n, Err EADDRINUSE)
  else (n, Ok (MkClaim index changed collision)).

Definition melodi_claim_locked (stack : bytes) (n : node) (node_id : melodi_node_id)
    (native_locator link_locator round generation counter : Z) (resolve_local : bool) : node * result claim :=
  if (link_locator =? 0) || (link_locator =? MELODI_LINK_LOCATOR_BROADCAST) then (n, Err EPROTO) else
  match melodi_map_native_locator stack n.(n_disc).(m_mesh_domain) node_id round with
  | Err error => (n, Err error)
  | Ok (derived_locator, selected_round) =>
  if negb (selected_round =? round) || negb (derived_locator =? native_locator) then (n, Err EPROTO) else
  if node_eqb node_id (nlink n).(l_node_id) then (n, Err EALREADY) else
  match melodi_peer_slot (ndev n) node_id ≫= fun i => pair i <$> (ndev n).(d_peers) !! i with
  | None => (n, Err ENOSPC)
  | Some (index, p) =>
  if stale_claim p generation counter then (n, Err EALREADY) else
  let n := with_dev (claim_peer (ndev n) index p node_id native_locator link_locator round generation counter) n in
  let collision := native_locator =? (nlink n).(l_local_native_locator) in
  if collision && (match node_cmp node_id (nlink n).(l_node_id) with Lt => true | _ => false end) && resolve_local then
    match melodi_local_reassign_locked stack n with
    | (n, Err error) => (with_dev (melodi_conflicts_recompute_locked (ndev n)) n, Err error)
    | (n, Ok _) => claim_finish n index resolve_local true collision
    end
  else claim_finish n index resolve_local false collision
  end
  end.
End Clock.

(** ** Frames that go out *)

Section Handlers.
  Context {Sg : Signer} {C : Curve} {H : KeyedHash} (msecs_to_jiffies : Z -> Z)
    (crypto_ed25519_check : bytes -> bytes -> bytes -> bool).

(** The section under the lock of [melodi_send_frame]. *)
Definition frame_metadata (melodi : melodi_device) (source_native_locator destination_native_locator : Z)
    : result melodi_tx_meta :=
  let link := melodi.(d_link) in
  if negb link.(l_transport_ready) || negb (source_native_locator =? link.(l_local_native_locator)) then Err ENETDOWN else
  if destination_native_locator =? MELODI_NATIVE_LOCATOR_BROADCAST
  then Ok (MkTxMeta MELODI_LINK_LOCATOR_BROADCAST link.(l_local_link_locator) 0) else
  match find_index (fun p => p.(p_authenticated) && (p.(p_native_locator) =? destination_native_locator)) melodi.(d_peers)
          ≫= fun i => melodi.(d_peers) !! i with
  | None => Err EHOSTUNREACH
  | Some p => Ok (MkTxMeta p.(p_link_locator) link.(l_local_link_locator) 0)
  end.

Definition melodi_send_frame (e : discovery_env) (g : discovery_gaps) (n : node) (frame : bytes)
    (source_native_locator destination_native_locator : Z) : node * result unit :=
  match frame_metadata (ndev n) source_native_locator destination_native_locator with
  | Err error => (n, Err error)
  | Ok metadata =>
      match e.(de_send).(se_skb) 0 with
      | None => (n, Err ENOMEM)
      | Some _ =>
          let n := g.(dg_queue) n in
          let '(s, r) := melodi_core_send e.(de_send).(se_namespace) e.(de_send).(se_running) e.(de_send).(se_carrier)
                           e.(de_send).(se_net) n.(n_core) frame metadata e.(de_send).(se_queue_ms) in
          (MkNode s n.(n_disc), r)
      end
  end.

Definition set_auth_signature (signature : bytes) (a : melodi_wire_auth) : melodi_wire_auth := {|
  auth_common := a.(auth_common); auth_source_node_id := a.(auth_source_node_id);
  auth_destination_node_id := a.(auth_destination_node_id); auth_ephemeral_key := a.(auth_ephemeral_key);
  auth_challenge := a.(auth_challenge); auth_reply_to := a.(auth_reply_to); auth_mesh_domain := a.(auth_mesh_domain);
  auth_collision_round := a.(auth_collision_round); auth_signature := signature |}.

(** The frame of a challenge or a response: encoded without a signature in the memory
    of the frame, signed, and the signature filled in. *)
Definition auth_frame (stack : bytes) (auth : melodi_wire_auth) : result bytes :=
  let auth := set_auth_signature (replicate MELODI_WIRE_SIGNATURE_SIZE 0) auth in
  frame ← melodi_wire_encode_auth stack auth;
  signature ← melodi_identity_sign (load 0 MELODI_WIRE_AUTH_SIGNED_SIZE frame);
  Ok (store MELODI_WIRE_AUTH_SIGNED_SIZE signature frame).

Definition melodi_send_auth (e : discovery_env) (g : discovery_gaps) (n : node) (auth : melodi_wire_auth)
    : node * result unit :=
  match auth_frame e.(de_frame) auth with
  | Err error => (n, Err error)
  | Ok frame =>
      melodi_send_frame e g n frame auth.(auth_common).(source_native_locator)
        auth.(auth_common).(destination_native_locator)
  end.

Definition auth_common_of (frame_class source destination generation message_id counter : Z) : melodi_wire_common := {|
  version := 0; frame_class := frame_class; flags := 0; header_length := 0; payload_length := 0;
  source_native_locator := source; destination_native_locator := destination; identity_generation := generation;
  Wire.message_id := message_id; counter := counter |}.

(** The handshake of a peer that is challenged. *)
Definition challenged (ephemeral_private ephemeral_public local_challenge remote_hello_challenge : bytes) (p : melodi_peer)
    : melodi_peer :=
  let p := set_p_ephemeral_private ephemeral_private p in
  let p := set_p_ephemeral_public ephemeral_public p in
  let p := set_p_local_challenge local_challenge p in
  let p := set_p_remote_hello_challenge remote_hello_challenge p in
  set_p_handshake_pending true p.

(** The section under the lock of [melodi_send_challenge]. *)
Definition challenge_locked (e : discovery_env) (n : node) (hello : melodi_wire_hello) : node * result melodi_wire_auth :=
  let link := nlink n in
  match melodi_peer_slot (ndev n) hello.(hello_node_id) ≫= fun i => pair i <$> (ndev n).(d_peers) !! i with
  | None => (n, Err ENETDOWN)
  | Some (index, p) =>
  if negb p.(p_authenticated) || negb link.(l_identity_ready) || negb link.(l_transport_ready) then (n, Err ENETDOWN) else
  let '(public, valid) := curve25519_generate_public p.(p_ephemeral_public) e.(de_secret) in
  if negb valid then
    let p := set_p_ephemeral_public public (set_p_ephemeral_private e.(de_secret) p) in
    (with_dev (with_peer index p (ndev n)) n, Err EKEYREJECTED) else
  let p := challenged e.(de_secret) public e.(de_challenge) hello.(hello_challenge) p in
  let n := with_dev (with_peer index p (ndev n)) n in
  match melodi_counter_next_locked (ndev n) with
  | (melodi, Err error) => (with_dev melodi n, Err error)
  | (melodi, Ok counter) =>
      (with_dev melodi n, Ok {|
         auth_common := auth_common_of MELODI_WIRE_CHALLENGE link.(l_local_native_locator) p.(p_native_locator)
                          link.(l_identity_generation) e.(de_message_id) counter;
         auth_source_node_id := link.(l_node_id); auth_destination_node_id := p.(p_node_id);
         auth_ephemeral_key := p.(p_ephemeral_public); auth_challenge := p.(p_local_challenge);
         auth_reply_to := p.(p_remote_hello_challenge); auth_mesh_domain := n.(n_disc).(m_mesh_domain);
         auth_collision_round := link.(l_local_collision_round);
         auth_signature := replicate MELODI_WIRE_SIGNATURE_SIZE 0 |})
  end
  end.

Definition melodi_send_challenge (e : discovery_env) (g : discovery_gaps) (n : node) (hello : melodi_wire_hello)
    : node * result unit :=
  match challenge_locked e n hello with
  | (n, Err error) => (n, Err error)
  | (n, Ok auth) => melodi_send_auth e g (g.(dg_built) n) auth
  end.

Definition broadcast_common (frame_class source generation message_id counter : Z) : melodi_wire_common := {|
  version := 0; frame_class := frame_class; flags := MELODI_WIRE_F_BROADCAST; header_length := 0; payload_length := 0;
  source_native_locator := source; destination_native_locator := MELODI_NATIVE_LOCATOR_BROADCAST;
  identity_generation := generation; Wire.message_id := message_id; counter := counter |}.

(** The section under the lock of [melodi_discovery_announce]. *)
Definition announce_locked (e : discovery_env) (n : node) : node * result melodi_wire_hello :=
  let link := nlink n in
  if negb link.(l_identity_ready) || negb link.(l_transport_ready) then (n, Err ENETDOWN) else
  match melodi_counter_next_locked (ndev n) with
  | (melodi, Err error) => (with_dev melodi n, Err error)
  | (melodi, Ok counter) =>
      let hello := {|
        hello_common := broadcast_common 0 link.(l_local_native_locator) link.(l_identity_generation) e.(de_message_id) counter;
        hello_node_id := link.(l_node_id); hello_mesh_domain := n.(n_disc).(m_mesh_domain);
        hello_collision_round := link.(l_local_collision_round); hello_capabilities := 0; hello_expiry_seconds := 300;
        hello_challenge := e.(de_challenge); hello_signature := replicate MELODI_WIRE_SIGNATURE_SIZE 0 |} in
      let m := set_m_previous_hello_challenge n.(n_disc).(m_last_hello_challenge) n.(n_disc) in
      let m := set_m_last_hello_challenge hello.(hello_challenge) m in
      (with_disc m (with_dev melodi n), Ok hello)
  end.

Definition hello_frame (stack : bytes) (conflict : bool) (hello : melodi_wire_hello) : result bytes :=
  frame ← (if conflict then melodi_wire_encode_conflict stack hello else melodi_wire_encode_hello stack hello);
  signature ← melodi_identity_sign (load 0 MELODI_WIRE_HELLO_SIGNED_SIZE frame);
  Ok (store MELODI_WIRE_HELLO_SIGNED_SIZE signature frame).

Definition melodi_discovery_announce (e : discovery_env) (g : discovery_gaps) (n : node) : node * result unit :=
  let conflict := n.(n_disc).(m_conflict_pending) in
  match announce_locked e n with
  | (n, Err error) => (n, Err error)
  | (n, Ok hello) =>
      let n := g.(dg_built) n in
      match hello_frame e.(de_frame) conflict hello with
      | Err error => (n, Err error)
      | Ok frame =>
          let '(n, r) := melodi_send_frame e g n frame hello.(hello_common).(source_native_locator)
                           MELODI_NATIVE_LOCATOR_BROADCAST in
          if is_ok r && conflict && ((nlink n).(l_local_collision_round) =? hello.(hello_collision_round))
          then (with_disc (set_m_conflict_pending false n.(n_disc)) n, r) else (n, r)
      end
  end.

(** The section under the lock of [melodi_discovery_probe]. *)
Definition probe_locked (e : discovery_env) (n : node) : node * result melodi_wire_control :=
  let link := nlink n in
  if negb link.(l_identity_ready) || negb link.(l_transport_ready) then (n, Err ENETDOWN) else
  match melodi_counter_next_locked (ndev n) with
  | (melodi, Err error) => (with_dev melodi n, Err error)
  | (melodi, Ok counter) =>
      (with_dev melodi n, Ok {|
        control_common := broadcast_common MELODI_WIRE_CONTROL link.(l_local_native_locator) link.(l_identity_generation)
                            e.(de_message_id) counter;
        control_node_id := link.(l_node_id); control_mesh_domain := n.(n_disc).(m_mesh_domain);
        control_collision_round := link.(l_local_collision_round); control_opcode := MELODI_CONTROL_PROBE;
        control_data := replicate 32 0; control_signature := replicate MELODI_WIRE_SIGNATURE_SIZE 0 |})
  end.

Definition control_frame (stack : bytes) (control : melodi_wire_control) : result bytes :=
  frame ← melodi_wire_encode_control stack control;
  signature ← melodi_identity_sign (load 0 MELODI_WIRE_CONTROL_SIGNED_SIZE frame);
  Ok (store MELODI_WIRE_CONTROL_SIGNED_SIZE signature frame).

Definition melodi_discovery_probe (e : discovery_env) (g : discovery_gaps) (n : node) : node * result unit :=
  match probe_locked e n with
  | (n, Err error) => (n, Err error)
  | (n, Ok control) =>
      let n := g.(dg_built) n in
      match control_frame e.(de_frame) control with
      | Err error => (n, Err error)
      | Ok frame =>
          melodi_send_frame e g n frame control.(control_common).(source_native_locator) MELODI_NATIVE_LOCATOR_BROADCAST
      end
  end.

(** [established += melodi->peers[index].session_ready], as whether there is one. *)
Definition melodi_announce_work (e : discovery_env) (g : discovery_gaps) (n : node) : node :=
  if negb e.(de_running) || negb e.(de_carrier) then n else
  if existsb p_session_ready (ndev n).(d_peers) then n else
  let n := (melodi_discovery_announce e g n).1 in
  melodi_announce_schedule msecs_to_jiffies e (melodi_announce_period e.(de_send).(se_pace_ms)) n.

(** ** Frames that come in *)

(** Who of two peers answers the other's announcement with a challenge. *)
Definition melodi_responder_locked (melodi : melodi_device) (peer : melodi_node_id) : bool :=
  match memcmp melodi.(d_link).(l_node_id).(node_bytes) peer.(node_bytes) with Gt => true | _ => false end.

(** What the section under the lock of [melodi_receive_hello] finds. *)
Record hello_seen := MkHelloSeen {
  hs_changed : bool;
  hs_collision : bool;
  hs_conflicted : bool;
  hs_responder : bool;
  hs_stale : bool;
}.

Definition hello_checked (frame : bytes) (conflict : bool) : result melodi_wire_hello :=
  hello ← (if conflict then melodi_wire_decode_conflict frame else melodi_wire_decode_hello frame);
  if (hello.(hello_expiry_seconds) =? 0) || (MELODI_PEER_EXPIRY_MAX_SECONDS <? hello.(hello_expiry_seconds)) then Err EPROTO else
  _ ← melodi_identity_verify crypto_ed25519_check hello.(hello_node_id) (load 0 MELODI_WIRE_HELLO_SIGNED_SIZE frame)
        hello.(hello_signature);
  Ok hello.

Definition hello_locked (e : discovery_env) (n : node) (hello : melodi_wire_hello) (meta : melodi_rx_meta)
    : node * result hello_seen :=
  if negb (bool_decide (hello.(hello_mesh_domain) = n.(n_disc).(m_mesh_domain))) then (n, Err EXDEV) else
  match melodi_claim_locked e.(de_stack) n hello.(hello_node_id) hello.(hello_common).(source_native_locator)
          meta.(rm_source_locator) hello.(hello_collision_round) hello.(hello_common).(identity_generation)
          hello.(hello_common).(counter) true with
  | (n, Err error) => (n, Err error)
  | (n, Ok c) =>
      match (ndev n).(d_peers) !! c.(cl_index) with
      | None => (n, Err ENOSPC)
      | Some p =>
          let p := set_p_capabilities hello.(hello_capabilities) p in
          let p := set_p_expires (wrap 64 (e.(de_jiffies) +
                     msecs_to_jiffies (wrap 32 (hello.(hello_expiry_seconds) * 1000)))) p in
          let p := melodi_peer_observe_locked e.(de_now_ns) meta p in
          let melodi := with_peer c.(cl_index) p (ndev n) in
          let seen := MkHelloSeen c.(cl_changed) c.(cl_collision) p.(p_conflicted)
                        (melodi_responder_locked melodi p.(p_node_id)) p.(p_session_ready) in
          let melodi := if p.(p_session_ready) then melodi_peer_session_reset_locked melodi c.(cl_index) else melodi in
          (melodi_peer_expiry_schedule_locked e.(de_jiffies) (with_dev melodi n), Ok seen)
      end
  end.

Definition melodi_receive_hello (e : discovery_env) (g : discovery_gaps) (n : node) (frame : bytes) (conflict : bool)
    (meta : melodi_rx_meta) : node * result unit :=
  match hello_checked frame conflict with
  | Err error => (n, Err error)
  | Ok hello =>
  match hello_locked e n hello meta with
  | (n, Err error) => (n, Err error)
  | (n, Ok seen) =>
  let n := if seen.(hs_stale) then g.(dg_settle) n else n in
  if seen.(hs_changed) then g.(dg_configure) n else
  if seen.(hs_conflicted) then
    if seen.(hs_collision) && e.(de_running) && e.(de_carrier) then melodi_discovery_announce e g n else (n, Ok tt) else
  if negb e.(de_running) || negb e.(de_carrier) then (n, Ok tt) else
  if seen.(hs_responder) then melodi_send_challenge e g n hello else
  (melodi_discovery_announce_soon msecs_to_jiffies e n, Ok tt)
  end
  end.

Definition melodi_auth_validate (stack : bytes) (n : node) (auth : melodi_wire_auth) (meta : melodi_rx_meta)
    : node * result claim :=
  let link := nlink n in
  if negb (bool_decide (auth.(auth_mesh_domain) = n.(n_disc).(m_mesh_domain))) ||
     negb (node_eqb auth.(auth_destination_node_id) link.(l_node_id)) ||
     negb (auth.(auth_common).(destination_native_locator) =? link.(l_local_native_locator)) ||
     negb (meta.(rm_destination_locator) =? link.(l_local_link_locator)) then (n, Err EPROTO) else
  match melodi_peer_by_node (ndev n) auth.(auth_source_node_id) ≫= fun i => (ndev n).(d_peers) !! i with
  | None => (n, Err ENOENT)
  | Some known =>
      if negb (known.(p_link_locator) =? meta.(rm_source_locator)) then (n, Err EHOSTUNREACH) else
      melodi_claim_locked stack n auth.(auth_source_node_id) auth.(auth_common).(source_native_locator)
        meta.(rm_source_locator) auth.(auth_collision_round) auth.(auth_common).(identity_generation)
        auth.(auth_common).(counter) false
  end.

Definition auth_checked (frame : bytes) (class : Z) : result melodi_wire_auth :=
  auth ← melodi_wire_decode_auth frame;
  if negb (auth.(auth_common).(frame_class) =? class) then Err EPROTO else
  _ ← melodi_identity_verify crypto_ed25519_check auth.(auth_source_node_id) (load 0 MELODI_WIRE_AUTH_SIGNED_SIZE frame)
        auth.(auth_signature);
  Ok auth.

(** The announcement a challenge replies to. *)
Definition announced_challenge (m : discovery_state) (reply_to : bytes) : option bytes :=
  if bool_decide (reply_to = m.(m_last_hello_challenge)) then Some m.(m_last_hello_challenge)
  else if bool_decide (reply_to = m.(m_previous_hello_challenge)) then Some m.(m_previous_hello_challenge)
  else None.

(** The session of a peer begins with two keys. *)
Definition session_begins (transmit_key receive_key : bytes) (p : melodi_peer) : melodi_peer :=
  let p := set_p_transmit_key transmit_key p in
  let p := set_p_receive_key receive_key p in
  let p := set_p_receive_replay melodi_replay_reset p in
  let p := melodi_peer_session_advance p in
  set_p_session_ready true p.

Definition challenge_section (e : discovery_env) (n : node) (auth : melodi_wire_auth) (public shared : bytes)
    (meta : melodi_rx_meta) : node * result melodi_wire_auth :=
  match melodi_auth_validate e.(de_stack) n auth meta with
  | (n, Err error) => (n, Err error)
  | (n, Ok c) =>
  match (ndev n).(d_peers) !! c.(cl_index) with
  | None => (n, Err ENOSPC)
  | Some p =>
  let p := melodi_peer_observe_locked e.(de_now_ns) meta p in
  let n := with_dev (with_peer c.(cl_index) p (ndev n)) n in
  match announced_challenge n.(n_disc) auth.(auth_reply_to) with
  | None => (n, Err EKEYREJECTED)
  | Some announced =>
      let link := nlink n in
      let melodi := set_d_receive (melodi_data_peer_reset_locked (ndev n).(d_receive) p.(p_node_id)) (ndev n) in
      let key := melodi_session_key shared n.(n_disc).(m_mesh_domain) link.(l_node_id) p.(p_node_id)
                   link.(l_local_native_locator) p.(p_native_locator) link.(l_local_collision_round) p.(p_collision_round)
                   link.(l_identity_generation) p.(p_generation) public auth.(auth_ephemeral_key)
                   announced auth.(auth_challenge) in
      let p := session_begins (key 0) (key 1) p in
      let n := with_dev (with_peer c.(cl_index) p melodi) n in
      match melodi_counter_next_locked (ndev n) with
      | (melodi, Err error) => (with_dev melodi n, Err error)
      | (melodi, Ok counter) =>
          (with_dev melodi n, Ok {|
             auth_common := auth_common_of MELODI_WIRE_RESPONSE link.(l_local_native_locator) p.(p_native_locator)
                              link.(l_identity_generation) auth.(auth_common).(Wire.message_id) counter;
             auth_source_node_id := link.(l_node_id); auth_destination_node_id := p.(p_node_id);
             auth_ephemeral_key := public; auth_challenge := announced; auth_reply_to := auth.(auth_challenge);
             auth_mesh_domain := n.(n_disc).(m_mesh_domain); auth_collision_round := link.(l_local_collision_round);
             auth_signature := replicate MELODI_WIRE_SIGNATURE_SIZE 0 |})
      end
  end
  end
  end.

(** The ephemeral key of this side and the secret it shares with the other's. *)
Definition ephemeral_exchange (e : discovery_env) (ephemeral_key : bytes) : option (bytes * bytes) :=
  match curve25519_generate_public e.(de_public) e.(de_secret) with
  | (public, true) => pair public <$> curve25519 e.(de_secret) ephemeral_key
  | (_, false) => None
  end.

Definition melodi_receive_challenge (e : discovery_env) (g : discovery_gaps) (n : node) (frame : bytes)
    (meta : melodi_rx_meta) : node * result unit :=
  match auth_checked frame MELODI_WIRE_CHALLENGE with
  | Err error => (n, Err error)
  | Ok auth =>
  match ephemeral_exchange e auth.(auth_ephemeral_key) with
  | None => (n, Err EKEYREJECTED)
  | Some (public, shared) =>
  match challenge_section e n auth public shared meta with
  | (n, Err error) => (n, Err error)
  | (n, Ok response) => melodi_send_auth e g (g.(dg_built) n) response
  end
  end
  end.

(** Whether a response answers the challenge that is out. *)
Definition answers (auth : melodi_wire_auth) (p : melodi_peer) : bool :=
  p.(p_handshake_pending) && bool_decide (auth.(auth_challenge) = p.(p_remote_hello_challenge)) &&
  bool_decide (auth.(auth_reply_to) = p.(p_local_challenge)).

Definition response_section (e : discovery_env) (n : node) (auth : melodi_wire_auth) (meta : melodi_rx_meta)
    : node * result unit :=
  match melodi_peer_slot (ndev n) auth.(auth_source_node_id) ≫= fun i => (ndev n).(d_peers) !! i with
  | None => (n, Err EKEYREJECTED)
  | Some p =>
  if negb (answers auth p) then (n, Err EKEYREJECTED) else
  match melodi_auth_validate e.(de_stack) n auth meta with
  | (n, Err error) => (n, Err error)
  | (n, Ok c) =>
  match (ndev n).(d_peers) !! c.(cl_index) with
  | None => (n, Err ENOSPC)
  | Some p =>
  let p := melodi_peer_observe_locked e.(de_now_ns) meta p in
  let n := with_dev (with_peer c.(cl_index) p (ndev n)) n in
  match curve25519 p.(p_ephemeral_private) auth.(auth_ephemeral_key) with
  | None => (n, Err EKEYREJECTED)
  | Some shared =>
      let link := nlink n in
      let melodi := set_d_receive (melodi_data_peer_reset_locked (ndev n).(d_receive) p.(p_node_id)) (ndev n) in
      let key := melodi_session_key shared n.(n_disc).(m_mesh_domain) p.(p_node_id) link.(l_node_id)
                   p.(p_native_locator) link.(l_local_native_locator) p.(p_collision_round) link.(l_local_collision_round)
                   p.(p_generation) link.(l_identity_generation) auth.(auth_ephemeral_key) p.(p_ephemeral_public)
                   p.(p_remote_hello_challenge) p.(p_local_challenge) in
      let p := session_begins (key 1) (key 0) p in
      let p := set_p_handshake_pending false p in
      let p := set_p_ephemeral_private (replicate 32 0) p in
      (with_dev (with_peer c.(cl_index) p melodi) n, Ok tt)
  end
  end
  end
  end.

Definition melodi_receive_response (e : discovery_env) (n : node) (frame : bytes) (meta : melodi_rx_meta)
    : node * result unit :=
  match auth_checked frame MELODI_WIRE_RESPONSE with
  | Err error => (n, Err error)
  | Ok auth => response_section e n auth meta
  end.

Definition control_checked (frame : bytes) : result melodi_wire_control :=
  control ← melodi_wire_decode_control frame;
  if negb (control.(control_opcode) =? MELODI_CONTROL_PROBE) then Err EPROTO else
  _ ← melodi_identity_verify crypto_ed25519_check control.(control_node_id) (load 0 MELODI_WIRE_CONTROL_SIGNED_SIZE frame)
        control.(control_signature);
  Ok control.

(** Whether the own locator changed. *)
Definition control_locked (e : discovery_env) (n : node) (control : melodi_wire_control) (meta : melodi_rx_meta)
    : node * result bool :=
  if negb (bool_decide (control.(control_mesh_domain) = n.(n_disc).(m_mesh_domain))) then (n, Err EXDEV) else
  match melodi_claim_locked e.(de_stack) n control.(control_node_id) control.(control_common).(source_native_locator)
          meta.(rm_source_locator) control.(control_collision_round) control.(control_common).(identity_generation)
          control.(control_common).(counter) true with
  | (n, Err error) => (n, Err error)
  | (n, Ok c) =>
      match (ndev n).(d_peers) !! c.(cl_index) with
      | None => (n, Err ENOSPC)
      | Some p =>
          let expires := wrap 64 (e.(de_jiffies) + msecs_to_jiffies (MELODI_CONTROL_EXPIRY_SECONDS * 1000)) in
          let p := if (p.(p_expires) =? 0) || time_before p.(p_expires) expires then set_p_expires expires p else p in
          let p := melodi_peer_observe_locked e.(de_now_ns) meta p in
          (melodi_peer_expiry_schedule_locked e.(de_jiffies) (with_dev (with_peer c.(cl_index) p (ndev n)) n),
           Ok c.(cl_changed))
      end
  end.

Definition melodi_receive_control (e : discovery_env) (g : discovery_gaps) (n : node) (frame : bytes)
    (meta : melodi_rx_meta) : node * result unit :=
  match control_checked frame with
  | Err error => (n, Err error)
  | Ok control =>
  match control_locked e n control meta with
  | (n, Err error) => (n, Err error)
  | (n, Ok changed) =>
      if changed then g.(dg_configure) n else
      if e.(de_running) && e.(de_carrier) then melodi_discovery_announce e g n else (n, Ok tt)
  end
  end.

Definition melodi_discovery_receive (e : discovery_env) (g : discovery_gaps) (n : node) (frame : bytes)
    (meta : melodi_rx_meta) : node * result unit :=
  match melodi_wire_decode_common frame with
  | Err error => (n, Err error)
  | Ok common =>
      let class := common.(frame_class) in
      let known r := (g.(dg_settle) r.1, r.2) in
      if class =? MELODI_WIRE_HELLO then known (melodi_receive_hello e g n frame false meta)
      else if class =? MELODI_WIRE_CONFLICT then known (melodi_receive_hello e g n frame true meta)
      else if class =? MELODI_WIRE_CHALLENGE then known (melodi_receive_challenge e g n frame meta)
      else if class =? MELODI_WIRE_RESPONSE then known (melodi_receive_response e n frame meta)
      else if class =? MELODI_WIRE_CONTROL then known (melodi_receive_control e g n frame meta)
      else (n, Err EPROTO)
  end.
End Handlers.
