(* ===== verification/Nodes.v ===== *)
(** * Two nodes

    Two concrete nodes that hear each other announce themselves, with toy cryptography
    in place of the kernel's: the data the witnesses of the following files run on, and
    the exchange of Discovery.v from the first announcement to the two session keys. *)
From S2P Require Import Prelude Buffer Uapi Wire Replay Mapping Slots Device Fragments Peers Reassembly Delivery Identity Queue Send Receive Discovery.

(** ** Toy cryptography *)

Definition toy_curve : Curve := {|
  curve25519 secret basepoint := Some (zip_with Z.lxor secret basepoint);
  curve25519_generate_public _ secret := (secret, true) |}.

Lemma toy_curve_laws : CurveLaws toy_curve.
Proof.
  constructor. intros p p' a b A B. cbn. intros [= <-] [= <-]. f_equal. apply list_eq. intros i. rewrite !lookup_zip_with.
  destruct (a !! i), (b !! i); cbn; try reflexivity. now rewrite Z.lxor_comm.
Qed.

Definition toy_hash : KeyedHash := {|
  keyed_blake2s key data :=
    let h := fold_left (fun h b => (h * 31 + b) mod 2 ^ 64) (key ++ data) 7 in
    map (fun i => wrap 8 (Z.shiftr h (Z.of_nat i mod 8 * 8))) (seq 0 32) |}.

(** A signature is its signer's mark and a checksum; the mark is in the public key. *)
Definition toy_sign (mark : Z) (message : bytes) : bytes :=
  replicate 32 mark ++ replicate 32 (fold_left (fun h b => (h * 7 + b) mod 251) message 3).
Definition toy_signer (mark : Z) : Signer := {| melodi_identity_sign message := Ok (toy_sign mark message) |}.
Definition toy_check (signature key message : bytes) : bool :=
  bool_decide (signature = toy_sign (byte_at 31 key) message).
Definition sample_jiffies (ms : Z) : Z := ms.

#[local] Existing Instances toy_curve toy_hash.

(** ** The nodes *)

Definition sample_domain : bytes := replicate 32 0.

(** A node that has its identity and its transport, and has heard nobody. *)
Definition fresh_node (id : melodi_node_id) (link : Z) : node :=
  let locator := match melodi_map_native_locator (replicate 64 0) sample_domain id 0 with Ok (l, _) => l | Err _ => 0 end in
  let d := sample_core.(c_dev) in
  MkNode (MkCore (MkDevice (MkLink id true true locator link 0 1 0) (replicate 64 zero_peer)
      d.(d_receive) d.(d_pending) d.(d_policy) d.(d_tx) d.(d_data)) [] [])
    (MkDiscoveryState sample_domain (replicate 32 0) (replicate 32 0) false None None).

Definition node_a : node := Eval vm_compute in fresh_node (Mapping.sample_node 0x1a) 10.
Definition node_b : node := Eval vm_compute in fresh_node (Mapping.sample_node 0x1b) 11.

(** What a call finds: random bytes made from one number, memory for a frame of some
    length, and nobody else around. *)
Definition sample_around (frame : nat) (k : Z) : discovery_env :=
  MkDiscoveryEnv (replicate 64 0) (replicate frame 0) 1000 5 (replicate 32 0) (replicate 32 k) (replicate 32 (k + 1)) (k + 2)
    (fun _ => 0) true true
    (MkSendEnv 300 0 true true (fun _ => Some (fun _ => 0)) (fun _ => true) (fun _ => true) 77 100 true true true 1 100).
Definition sample_alone : discovery_gaps := MkDiscoveryGaps id (fun n => (n, Ok tt)) id id.

(** The frame at the end of the queue. *)
Definition last_frame (n : node) : bytes :=
  List.last (map e_frame (List.filter e_active (ndev n).(d_tx).(t_queue))) [].
Definition sample_from (link own : Z) : melodi_rx_meta := MkRxMeta 9 link own 0 (-80) 5 1 0 false.

(** ** The exchange

    The second node announces itself, the first hears it; the first announces itself,
    and the second, whose identity is the greater, answers with a challenge, to which the
    first responds. *)
Definition announce_as (mark k : Z) (n : node) : node :=
  (@melodi_discovery_announce (toy_signer mark) (sample_around 213 k) sample_alone n).1.
Definition hear_as (mark k : Z) (frame : nat) (bytes : list Z) (link own : Z) (n : node) : node * result unit :=
  @melodi_discovery_receive (toy_signer mark) toy_curve toy_hash sample_jiffies toy_check
    (sample_around frame k) sample_alone n bytes (sample_from link own).

Definition b_announced : node := Eval vm_compute in announce_as 0x1b 20 node_b.
Definition hello_b : bytes := Eval vm_compute in last_frame b_announced.
Definition a_knows_b : node := Eval vm_compute in (hear_as 0x1a 30 302 hello_b 11 10 node_a).1.
Definition a_announced : node := Eval vm_compute in announce_as 0x1a 40 a_knows_b.
Definition hello_a : bytes := Eval vm_compute in last_frame a_announced.
Definition b_challenged : node := Eval vm_compute in (hear_as 0x1b 50 302 hello_a 10 11 b_announced).1.
Definition challenge_b : bytes := Eval vm_compute in last_frame b_challenged.
Definition a_responded : node := Eval vm_compute in (hear_as 0x1a 60 302 challenge_b 11 10 a_announced).1.
Definition response_a : bytes := Eval vm_compute in last_frame a_responded.
Definition b_done : node := Eval vm_compute in (hear_as 0x1b 70 302 response_a 10 11 b_challenged).1.

Definition first_peer (n : node) : melodi_peer := nth 0 (ndev n).(d_peers) zero_peer.
