(* ===== verification/Claims.v ===== *)
(** * The table of peers over a run of discovery

    What every entry of the peer table is worth: it belongs to another node, holds
    the locator that node derives for its round, is the only one of its node, and is
    flagged exactly when its locator is also somebody else's.  Every handler of
    Discovery.v keeps that, whatever the frames. *)
From stdpp Require Import gmap.
From S2P Require Import Prelude Buffer Uapi Wire Replay Blake2s Mapping Slots Device Fragments Peers Reassembly Delivery Identity Queue Send Receive Kept Discovery Nodes.

(** ** What the operations do to the table *)

Definition session_ended (p : melodi_peer) : melodi_peer :=
  melodi_peer_session_advance (set_p_handshake_pending false (set_p_session_ready false
    (set_p_receive_replay melodi_replay_reset (set_p_ephemeral_private (replicate 32 0)
    (set_p_receive_key (replicate 32 0) (set_p_transmit_key (replicate 32 0) p)))))).

Lemma alter_lookup {A} (f : A -> A) (i : nat) (l : list A) x : l !! i = Some x -> alter f i l = <[i := f x]> l.
Proof.
  intros Hx. apply list_eq. intros j. destruct (decide (i = j)) as [<-|Hj].
  - rewrite list_lookup_alter_eq, Hx, list_lookup_insert_eq by now apply lookup_lt_Some in Hx. reflexivity.
  - now rewrite list_lookup_alter_ne, list_lookup_insert_ne.
Qed.

Lemma session_reset_peers melodi i :
  d_peers (melodi_peer_session_reset_locked melodi i) = alter session_ended i melodi.(d_peers) /\
  d_link (melodi_peer_session_reset_locked melodi i) = melodi.(d_link).
Proof.
  unfold melodi_peer_session_reset_locked. destruct (melodi.(d_peers) !! i) as [p|] eqn:E.
  - split; [|reflexivity]. now rewrite (alter_lookup _ _ _ p) by exact E.
  - split; [|reflexivity]. symmetry. apply list_eq. intros j. destruct (decide (i = j)) as [<-|Hj].
    + now rewrite list_lookup_alter_eq, E.
    + now rewrite list_lookup_alter_ne.
Qed.

Lemma fold_table {T A} (table : T -> list A) (c : A -> bool) (f : A -> A) (op : T -> nat -> T) s n :
  (forall s i, table (op s i) = alter f i (table s)) -> length (table s) = n ->
  table (fold_left (fun s i => if at_index (table s) i c then op s i else s) (seq 0 n) s) =
  map (fun x => if c x then f x else x) (table s).
Proof.
  intros Hop Hl. set (g := fun x => if c x then f x else x).
  rewrite <- (swept_all g (table s)), Hl.
  apply (fold_seq_ind (fun i t => table t = swept g i (table s))).
  - now rewrite swept_0.
  - intros i t Hi Ht. unfold at_index. rewrite Ht, swept_lookup.
    destruct (lookup_lt_is_Some_2 (table s) i) as [x Hx]; [lia|]. rewrite Hx.
    rewrite (swept_S g i (table s) x) by exact Hx. assert (g x = if c x then f x else x) as -> by reflexivity. destruct (c x).
    + rewrite Hop, Ht. rewrite (alter_lookup _ _ _ x); [reflexivity|]. now rewrite swept_lookup.
    + rewrite Ht. symmetry. apply list_insert_id. now rewrite swept_lookup.
Qed.

Lemma fold_kept {T A} (view : T -> A) (op : T -> nat -> T) l : forall s,
  (forall s i, view (op s i) = view s) -> view (fold_left op l s) = view s.
Proof. induction l as [|i l IH]; intros s Hop; cbn; [reflexivity|]. now rewrite IH, Hop. Qed.

(** ** What an entry is worth *)

(** What a claim leaves in an entry. *)
Definition claim_view (p : melodi_peer) : melodi_node_id * Z * Z * Z * bool * (Z * Z) :=
  (p.(p_node_id), p.(p_native_locator), p.(p_link_locator), p.(p_collision_round), p.(p_authenticated),
   (p.(p_generation), p.(p_control_counter))).

Definition located (domain : bytes) (node_id : melodi_node_id) (native_locator round : Z) : Prop :=
  native_locator = ref_candidate domain node_id round /\ acceptable native_locator = true /\ u32 round.

Definition claim_ok (domain : bytes) (local : melodi_node_id) (p : melodi_peer) : Prop :=
  p.(p_authenticated) = true ->
  located domain p.(p_node_id) p.(p_native_locator) p.(p_collision_round) /\ p.(p_node_id) <> local /\
  p.(p_link_locator) <> 0 /\ p.(p_link_locator) <> MELODI_LINK_LOCATOR_BROADCAST.

Record claims_ok (domain : bytes) (local : melodi_node_id) (peers : list melodi_peer) : Prop := {
  ck_length : length peers = MELODI_PEER_LIMIT;
  ck_claims : Forall (claim_ok domain local) peers;
  ck_distinct : table_wf p_authenticated p_node_id peers;
}.

(** No session and no handshake with a node that is not authenticated. *)
Definition idle (p : melodi_peer) : Prop :=
  p.(p_authenticated) = false -> p.(p_session_ready) = false /\ p.(p_handshake_pending) = false.

Definition flags_ok (local_locator : Z) (peers : list melodi_peer) : Prop :=
  forall i p, peers !! i = Some p -> p.(p_conflicted) = true <-> in_conflict local_locator peers i p.

Definition own_ok (domain : bytes) (l : link_state) : Prop :=
  u32 l.(l_local_collision_round) /\
  (l.(l_identity_ready) = true -> located domain l.(l_node_id) l.(l_local_native_locator) l.(l_local_collision_round)).

Record table_ok (n : node) : Prop := {
  to_claims : claims_ok n.(n_disc).(m_mesh_domain) (nlink n).(l_node_id) (ndev n).(d_peers);
  to_flags : flags_ok (nlink n).(l_local_native_locator) (ndev n).(d_peers);
  to_idle : Forall idle (ndev n).(d_peers);
  to_own : own_ok n.(n_disc).(m_mesh_domain) (nlink n);
}.

(** ** Tables with the same claims *)

Lemma views_lookup (l l' : list melodi_peer) i p :
  map claim_view l = map claim_view l' -> l' !! i = Some p -> exists q, l !! i = Some q /\ claim_view q = claim_view p.
Proof.
  intros Hv Hp. assert (map claim_view l !! i = Some (claim_view p)) as Hi by (rewrite Hv, list_lookup_fmap, Hp; reflexivity).
  rewrite list_lookup_fmap in Hi. destruct (l !! i) as [q|] eqn:E; [|discriminate]. exists q. split; [reflexivity|]. cbn in Hi. congruence.
Qed.

Lemma claim_view_eq p q :
  claim_view p = claim_view q ->
  p.(p_node_id) = q.(p_node_id) /\ p.(p_native_locator) = q.(p_native_locator) /\
  p.(p_link_locator) = q.(p_link_locator) /\ p.(p_collision_round) = q.(p_collision_round) /\
  p.(p_authenticated) = q.(p_authenticated).
Proof. unfold claim_view. intros [= H1 H2 H3 H4 H5 H6 H7]. auto. Qed.

Lemma claims_ok_views domain local l l' : map claim_view l = map claim_view l' -> claims_ok domain local l -> claims_ok domain local l'.
Proof.
  intros Hv [Hl Hc Hd]. constructor.
  - rewrite <- Hl. apply (f_equal length) in Hv. now rewrite !length_map in Hv.
  - apply Forall_lookup. intros i p Hp. destruct (views_lookup l l' i p Hv Hp) as (q & Hq & Hpq).
    pose proof (Forall_lookup_1 _ _ _ _ Hc Hq) as H. apply claim_view_eq in Hpq as (E1 & E2 & E3 & E4 & E5).
    unfold claim_ok in *. now rewrite <- E1, <- E2, <- E3, <- E4, <- E5.
  - intros i j p q Hp Hq Ap Aq Hk. destruct (views_lookup l l' i p Hv Hp) as (p0 & Hp0 & Hv1).
    destruct (views_lookup l l' j q Hv Hq) as (q0 & Hq0 & Hv2). apply claim_view_eq in Hv1, Hv2.
    destruct Hv1 as (? & ? & ? & ? & ?), Hv2 as (? & ? & ? & ? & ?).
    apply (Hd i j p0 q0); congruence.
Qed.

Lemma in_conflict_views local l l' i p q :
  map claim_view l = map claim_view l' -> claim_view p = claim_view q -> in_conflict local l i p -> in_conflict local l' i q.
Proof.
  intros Hv Hpq (Ha & Hc). apply claim_view_eq in Hpq as (E1 & E2 & E3 & E4 & E5).
  unfold in_conflict. rewrite <- E2, <- E5. split; [exact Ha|]. destruct Hc as [Hc|(j & r & Hj & Hr & Ar & Lr)]; [now left|right].
  destruct (views_lookup l' l j r (eq_sym Hv) Hr) as (r' & Hr' & Hv'). apply claim_view_eq in Hv' as (? & ? & ? & ? & ?). exists j, r'. conj_split; congruence.
Qed.

Definition flag_view (p : melodi_peer) : melodi_node_id * Z * Z * Z * bool * (Z * Z) * bool := (claim_view p, p.(p_conflicted)).

Lemma flag_views_claims l l' : map flag_view l = map flag_view l' -> map claim_view l = map claim_view l'.
Proof. intros H. apply (f_equal (map fst)) in H. now rewrite !map_map in H. Qed.

Lemma flags_ok_views local l l' : map flag_view l = map flag_view l' -> flags_ok local l -> flags_ok local l'.
Proof.
  intros Hv Hf i p Hp. assert (map flag_view l !! i = Some (flag_view p)) as Hi by (rewrite Hv, list_lookup_fmap, Hp; reflexivity).
  rewrite list_lookup_fmap in Hi. destruct (l !! i) as [q|] eqn:E; [|discriminate]. cbn in Hi.
  assert (claim_view q = claim_view p /\ q.(p_conflicted) = p.(p_conflicted)) as [Hc Hfl] by (unfold flag_view in Hi; split; congruence).
  rewrite <- Hfl, (Hf i q E). apply flag_views_claims in Hv. split; apply in_conflict_views; auto.
Qed.

(** ** Steps that leave the claims alone *)

Record table_kept (n n' : node) : Prop := {
  tk_domain : n'.(n_disc).(m_mesh_domain) = n.(n_disc).(m_mesh_domain);
  tk_node : (nlink n').(l_node_id) = (nlink n).(l_node_id);
  tk_ready : (nlink n').(l_identity_ready) = (nlink n).(l_identity_ready);
  tk_locator : (nlink n').(l_local_native_locator) = (nlink n).(l_local_native_locator);
  tk_round : (nlink n').(l_local_collision_round) = (nlink n).(l_local_collision_round);
  tk_views : map flag_view (ndev n').(d_peers) = map flag_view (ndev n).(d_peers);
  tk_idle : Forall idle (ndev n).(d_peers) -> Forall idle (ndev n').(d_peers);
}.

#[export] Instance table_kept_preorder : PreOrder table_kept.
Proof.
  split; [intros n; constructor; auto|]. intros a b c [A1 A2 A3 A4 A5 A6 A7] [B1 B2 B3 B4 B5 B6 B7].
  constructor; try congruence. auto.
Qed.

Lemma own_ok_kept domain l l' :
  l'.(l_node_id) = l.(l_node_id) -> l'.(l_identity_ready) = l.(l_identity_ready) ->
  l'.(l_local_native_locator) = l.(l_local_native_locator) -> l'.(l_local_collision_round) = l.(l_local_collision_round) ->
  own_ok domain l -> own_ok domain l'.
Proof. unfold own_ok. intros -> -> -> ->. auto. Qed.

Lemma table_ok_kept n n' : table_kept n n' -> table_ok n -> table_ok n'.
Proof.
  intros [K1 K2 K3 K4 K5 K6 K7] [H1 H2 H3 H4]. constructor.
  - rewrite K1, K2. apply (claims_ok_views _ _ (ndev n).(d_peers)); [|exact H1]. symmetry. now apply flag_views_claims.
  - rewrite K4. now apply (flags_ok_views _ (ndev n).(d_peers)).
  - auto.
  - rewrite K1. now apply (own_ok_kept _ (nlink n)).
Qed.

(** An operation on one entry that keeps what the invariant reads. *)
Definition view_kept (f : melodi_peer -> melodi_peer) : Prop :=
  forall p, flag_view (f p) = flag_view p /\ (idle p -> idle (f p)).

Lemma map_alter_view f i l : view_kept f -> map flag_view (alter f i l) = map flag_view l.
Proof.
  intros Hf. destruct (l !! i) as [p|] eqn:E.
  - rewrite (alter_lookup _ _ _ p) by exact E. apply list_eq. intros j. rewrite !list_lookup_fmap.
    destruct (decide (i = j)) as [<-|Hj]; [|now rewrite list_lookup_insert_ne].
    rewrite list_lookup_insert_eq by now apply lookup_lt_Some in E. rewrite E. cbn. now rewrite (proj1 (Hf p)).
  - f_equal. apply list_eq. intros j. destruct (decide (i = j)) as [<-|Hj]; [now rewrite list_lookup_alter_eq, E|].
    now rewrite list_lookup_alter_ne.
Qed.

Lemma idle_alter (f : melodi_peer -> melodi_peer) i l :
  (forall p, l !! i = Some p -> idle p -> idle (f p)) -> Forall idle l -> Forall idle (alter f i l).
Proof.
  intros Hf Hl. apply Forall_lookup. intros j q Hq. destruct (decide (i = j)) as [<-|Hj].
  - rewrite list_lookup_alter_eq in Hq. destruct (l !! i) as [p|] eqn:E; [|discriminate]. injection Hq as <-.
    apply Hf; [reflexivity|]. exact (Forall_lookup_1 _ _ _ _ Hl E).
  - rewrite list_lookup_alter_ne in Hq by exact Hj. exact (Forall_lookup_1 _ _ _ _ Hl Hq).
Qed.

Lemma ended_kept : view_kept session_ended.
Proof. intros p. split; [reflexivity|]. intros _ _. split; reflexivity. Qed.

Lemma observe_kept now meta : view_kept (melodi_peer_observe_locked now meta).
Proof. intros p. split; [reflexivity|]. auto. Qed.

(** Steps under the lock change the peers, the link's counter and the reception. *)
Lemma alter_table_kept f i n melodi :
  view_kept f -> melodi.(d_peers) = alter f i (ndev n).(d_peers) -> melodi.(d_link) = nlink n ->
  table_kept n (with_dev melodi n).
Proof.
  intros Hf Hp Hl. constructor; cbn [n_core n_disc with_dev set_dev c_dev]; rewrite ?Hl, ?Hp; auto.
  - now apply map_alter_view.
  - apply idle_alter. intros p _. apply (Hf p).
Qed.

Lemma session_reset_kept n i : table_kept n (with_dev (melodi_peer_session_reset_locked (ndev n) i) n).
Proof. destruct (session_reset_peers (ndev n) i). eapply alter_table_kept; eauto using ended_kept. Qed.

Lemma counter_kept n : table_kept n (with_dev (melodi_counter_next_locked (ndev n)).1 n).
Proof. unfold melodi_counter_next_locked. destruct (_ =? _); constructor; auto. Qed.

Lemma schedule_kept jiffies n : table_kept n (melodi_peer_expiry_schedule_locked jiffies n).
Proof. unfold melodi_peer_expiry_schedule_locked. destruct (_ =? 0); [reflexivity|constructor; auto]. Qed.

Lemma announce_schedule_kept f e base n : table_kept n (melodi_announce_schedule f e base n).
Proof. constructor; auto. Qed.

(** The queue is none of the table's business. *)
Lemma send_kept alloc running carrier net n frame meta now :
  table_kept n (MkNode (melodi_core_send alloc running carrier net n.(n_core) frame meta now).1 n.(n_disc)).
Proof.
  unfold melodi_core_send. pose proof (outside_send_batch alloc running carrier net n.(n_core) [frame] meta control_request now) as Ho.
  destruct (melodi_core_send_batch _ _ _ _ _ _ _ _ _) as [s r]. cbn [fst] in Ho |- *.
  unfold outside in Ho. apply (f_equal (fun d => (d.1.(d_link), d.1.(d_peers)))) in Ho. cbn [fst d_link d_peers set_d_tx] in Ho.
  apply pair_equal_spec in Ho as [H1 H2]. constructor; cbn [n_core n_disc]; rewrite ?H1, ?H2; auto.
Qed.

(** ** A claim *)

(** Everything but the flags, which are recomputed at the end. *)
Record unflagged (n : node) : Prop := {
  uf_claims : claims_ok n.(n_disc).(m_mesh_domain) (nlink n).(l_node_id) (ndev n).(d_peers);
  uf_idle : Forall idle (ndev n).(d_peers);
  uf_own : own_ok n.(n_disc).(m_mesh_domain) (nlink n);
}.

Lemma table_unflagged n : table_ok n -> unflagged n.
Proof. intros [? ? ? ?]. now constructor. Qed.

Lemma recompute_link melodi : (melodi_conflicts_recompute_locked melodi).(d_link) = melodi.(d_link).
Proof. reflexivity. Qed.

Lemma recompute_receive melodi : (melodi_conflicts_recompute_locked melodi).(d_receive) = melodi.(d_receive).
Proof. reflexivity. Qed.

Lemma recompute_spec melodi :
  length melodi.(d_peers) = MELODI_PEER_LIMIT ->
  (forall i p, melodi.(d_peers) !! i = Some p ->
     exists c, (melodi_conflicts_recompute_locked melodi).(d_peers) !! i = Some (set_p_conflicted c p) /\
       (c = true <-> in_conflict melodi.(d_link).(l_local_native_locator) melodi.(d_peers) i p)) /\
  length (melodi_conflicts_recompute_locked melodi).(d_peers) = length melodi.(d_peers).
Proof.
  intros Hl. destruct (conflicts_recompute_exact melodi Hl) as (H & Hl' & _). split; [exact H|].
  exact (eq_trans Hl' (eq_sym Hl)).
Qed.

#[local] Opaque melodi_conflicts_recompute_locked.

Lemma recompute_views melodi :
  length melodi.(d_peers) = MELODI_PEER_LIMIT ->
  map claim_view (melodi_conflicts_recompute_locked melodi).(d_peers) = map claim_view melodi.(d_peers).
Proof.
  intros Hl. destruct (recompute_spec melodi Hl) as (H & Hl'). apply list_eq. intros i.
  rewrite !list_lookup_fmap. destruct (melodi.(d_peers) !! i) as [p|] eqn:E.
  - destruct (H i p E) as (c & -> & _). reflexivity.
  - rewrite lookup_ge_None_2; [reflexivity|]. rewrite Hl'. now apply lookup_ge_None_1.
Qed.

Lemma recompute_ok n : unflagged n -> table_ok (with_dev (melodi_conflicts_recompute_locked (ndev n)) n).
Proof.
  intros [H1 H2 H3]. pose proof (ck_length _ _ _ H1) as Hl. pose proof (recompute_views (ndev n) Hl) as Hv.
  destruct (recompute_spec (ndev n) Hl) as (He & Hl').
  assert (forall i q, (melodi_conflicts_recompute_locked (ndev n)).(d_peers) !! i = Some q ->
            exists p c, (ndev n).(d_peers) !! i = Some p /\ q = set_p_conflicted c p /\
              (c = true <-> in_conflict (nlink n).(l_local_native_locator) (ndev n).(d_peers) i p)) as Hq.
  { intros i q E. destruct (lookup_lt_is_Some_2 (ndev n).(d_peers) i) as [p Hp].
    { rewrite <- Hl'. now apply lookup_lt_Some in E. }
    destruct (He i p Hp) as (c & E' & Hc). rewrite E in E'. injection E' as ->. eauto. }
  constructor; cbn [n_core n_disc with_dev set_dev c_dev]; rewrite ?recompute_link; auto.
  - apply (claims_ok_views _ _ (ndev n).(d_peers)); auto.
  - intros i q E. destruct (Hq i q E) as (p & c & Hp & -> & Hc). cbn [p_conflicted set_p_conflicted]. rewrite Hc.
    split; apply in_conflict_views; auto.
  - apply Forall_lookup. intros i q E. destruct (Hq i q E) as (p & c & Hp & -> & _).
    exact (Forall_lookup_1 _ _ _ _ H2 Hp).
Qed.

(** The slot of a node: its own entry, or an entry that is not in use while no other
    entry is the node's. *)
Lemma peer_slot_spec melodi node_id i p :
  melodi_peer_slot melodi node_id = Some i -> melodi.(d_peers) !! i = Some p ->
  (p.(p_authenticated) = true /\ p.(p_node_id) = node_id) \/
  (p.(p_authenticated) = false /\
   forall j q, melodi.(d_peers) !! j = Some q -> q.(p_authenticated) = true -> q.(p_node_id) <> node_id).
Proof.
  unfold melodi_peer_slot. intros Hs Hp. destruct (slot_search _ _ _ _ _) as [[k|] empty] eqn:E;
    pose proof (slot_search_entry p_authenticated (fun p => node_eqb p.(p_node_id) node_id) melodi.(d_peers) 0 None) as H1;
    rewrite E in H1; cbn in H1.
  - injection Hs as ->. destruct (find_index _ _) as [j|] eqn:F; [|discriminate]. injection H1 as ->.
    apply find_index_Some in F as (x & Hx & [Ha Hn]%andb_true_iff & _). rewrite Hp in Hx. injection Hx as <-.
    left. split; [exact Ha|]. now apply bool_decide_eq_true in Hn.
  - destruct (find_index _ _) as [j|] eqn:F; [discriminate|].
    pose proof (slot_search_empty p_authenticated (fun p => node_eqb p.(p_node_id) node_id) melodi.(d_peers) 0 F) as H2.
    rewrite E in H2. cbn in H2. rewrite Hs in H2. destruct (find_index (fun e => negb _) _) as [k|] eqn:G; [|discriminate].
    injection H2 as ->. apply find_index_Some in G as (x & Hx & Hn%negb_true_iff & _). rewrite Hp in Hx. injection Hx as <-.
    right. split; [exact Hn|]. intros j q Hq Aq Nq. apply list_elem_of_lookup_2, list_elem_of_In in Hq.
    pose proof (proj1 (find_index_None _ _) F q Hq) as C. cbn in C. rewrite Aq in C. unfold node_eqb in C.
    now rewrite bool_decide_eq_true_2 in C.
Qed.

Lemma map_locator_located stack domain node_id native_locator round :
  length stack = 64%nat -> u32 round -> melodi_map_native_locator stack domain node_id round = Ok (native_locator, round) ->
  located domain node_id native_locator round.
Proof.
  intros Hs Hr Hm. destruct (melodi_mapping_node_valid node_id) eqn:Hv.
  - destruct (map_locator_search stack domain node_id round Hv) as [(q & Hq & _ & Ha & _)|[Hq _]].
    { unfold U32_MAX. width_lia. }
    + rewrite Hm in Hq. apply Ok_inj, pair_equal_spec in Hq as [-> <-]. cbn beta in Ha.
      rewrite candidate_ref in Ha |- * by exact Hs. split; [reflexivity|]. split; [exact Ha|exact Hr].
    + congruence.
  - unfold melodi_map_native_locator in Hm. rewrite Hv in Hm. discriminate.
Qed.

Lemma insert_claims_ok domain local peers i p :
  claims_ok domain local peers -> (i < length peers)%nat -> claim_ok domain local p ->
  (forall j q, j <> i -> peers !! j = Some q -> q.(p_authenticated) = true -> p.(p_authenticated) = true -> q.(p_node_id) <> p.(p_node_id)) ->
  claims_ok domain local (<[i := p]> peers).
Proof.
  intros [Hl Hc Hd] Hi Hp Ho. constructor.
  - now rewrite length_insert.
  - now apply Forall_insert.
  - intros j k q r Hq Hr Aq Ar Hk.
    destruct (decide (j = i)) as [->|Hj], (decide (k = i)) as [->|Hk']; [reflexivity|..].
    + rewrite list_lookup_insert_eq in Hq by exact Hi. injection Hq as <-. rewrite list_lookup_insert_ne in Hr by auto.
      exfalso. apply (Ho k r); auto.
    + rewrite list_lookup_insert_eq in Hr by exact Hi. injection Hr as <-. rewrite list_lookup_insert_ne in Hq by auto.
      exfalso. apply (Ho j q); auto.
    + rewrite list_lookup_insert_ne in Hq, Hr by auto. exact (Hd j k q r Hq Hr Aq Ar Hk).
Qed.

(** What the entry starts from: an entry not in use is cleared, one whose claim
    changes loses its session. *)
Definition claim_base (p : melodi_peer) (native_locator link_locator round generation : Z) : melodi_peer :=
  if negb p.(p_authenticated) then zero_peer
  else if claim_resets p native_locator link_locator round generation then session_ended p else p.

Lemma claim_peer_result melodi i p node_id native link round generation counter :
  melodi.(d_peers) !! i = Some p ->
  let melodi' := claim_peer melodi i p node_id native link round generation counter in
  melodi'.(d_peers) = <[i := claimed node_id native link round generation counter
                              (claim_base p native link round generation)]> melodi.(d_peers) /\
  melodi'.(d_link) = melodi.(d_link).
Proof.
  intros Hp. cbv zeta. unfold claim_peer, claim_base. pose proof (lookup_lt_Some _ _ _ Hp).
  destruct (negb p.(p_authenticated)); [|destruct (claim_resets _ _ _ _ _)]; cbn [d_peers d_link set_d_peers with_peer].
  - rewrite (alter_lookup _ _ _ zero_peer) by now apply list_lookup_insert_eq. now rewrite list_insert_insert_eq.
  - destruct (session_reset_peers melodi i) as [-> ->]. rewrite (alter_lookup session_ended _ _ p) by exact Hp.
    rewrite (alter_lookup _ _ _ (session_ended p)) by now apply list_lookup_insert_eq.
    now rewrite list_insert_insert_eq.
  - now rewrite (alter_lookup _ _ _ p).
Qed.

Lemma claim_peer_ok n i p node_id native link round generation counter :
  unflagged n -> melodi_peer_slot (ndev n) node_id = Some i -> (ndev n).(d_peers) !! i = Some p ->
  located n.(n_disc).(m_mesh_domain) node_id native round -> node_id <> (nlink n).(l_node_id) ->
  link <> 0 -> link <> MELODI_LINK_LOCATOR_BROADCAST ->
  unflagged (with_dev (claim_peer (ndev n) i p node_id native link round generation counter) n).
Proof.
  intros [H1 H2 H3] Hs Hp Hloc Hne Hl1 Hl2.
  destruct (claim_peer_result (ndev n) i p node_id native link round generation counter Hp) as [E1 E2].
  pose proof (lookup_lt_Some _ _ _ Hp) as Hi.
  constructor; cbn [n_core n_disc with_dev set_dev c_dev]; rewrite ?E1, ?E2; auto.
  - apply insert_claims_ok; auto.
    { intros _. cbn. auto. }
    intros j q Hj Hq Aq _. cbn [claimed p_node_id].
    destruct (peer_slot_spec _ _ _ _ Hs Hp) as [[Ap <-]|[_ Hno]]; [|exact (Hno j q Hq Aq)].
    intros E. apply Hj. exact (ck_distinct _ _ _ H1 j i q p Hq Hp Aq Ap E).
  - apply Forall_insert; [exact H2|]. intros C. discriminate C.
Qed.

(** The loop that ends the sessions of all peers. *)
Lemma sessions_ended melodi :
  length melodi.(d_peers) = MELODI_PEER_LIMIT ->
  (end_sessions melodi).(d_peers) = map (fun p => if p.(p_authenticated) then session_ended p else p) melodi.(d_peers) /\
  (end_sessions melodi).(d_link) = melodi.(d_link).
Proof.
  intros Hl. split.
  - apply (fold_table d_peers p_authenticated session_ended melodi_peer_session_reset_locked); [|exact Hl].
    intros s i. apply session_reset_peers.
  - apply (fold_kept d_link). intros s i. destruct (at_index _ _ _); [|reflexivity]. apply session_reset_peers.
Qed.

Lemma map_views (f : melodi_peer -> melodi_peer) l :
  (forall p, claim_view (f p) = claim_view p) -> map claim_view (map f l) = map claim_view l.
Proof. intros H. rewrite map_map. now apply map_ext. Qed.

Lemma ended_view p : claim_view (if p.(p_authenticated) then session_ended p else p) = claim_view p.
Proof. destruct p.(p_authenticated) eqn:E; [|reflexivity]. unfold claim_view. now cbn. Qed.

Lemma set_receive_twice a b m : set_d_receive a (set_d_receive b m) = set_d_receive a m.
Proof. reflexivity. Qed.

(** What a reassignment stores. *)
Definition reassigned (n : node) (locator round : Z) : melodi_device :=
  end_sessions (set_d_link (set_locator locator round (nlink n)) (ndev n)).

Lemma reassign_node stack n :
  match melodi_local_reassign_locked stack n with
  | (n', Err _) => n' = n
  | (n', Ok _) => exists locator round,
      (nlink n).(l_local_collision_round) <> U32_MAX /\
      melodi_map_native_locator_available stack n.(n_disc).(m_mesh_domain) (nlink n).(l_node_id)
        ((nlink n).(l_local_collision_round) + 1) (map p_native_locator (List.filter p_authenticated (ndev n).(d_peers)))
        = Ok (locator, round) /\
      (ndev n').(d_peers) = (reassigned n locator round).(d_peers) /\ nlink n' = (reassigned n locator round).(d_link) /\
      n'.(n_disc) = set_m_conflict_pending true n.(n_disc)
  end.
Proof.
  unfold melodi_local_reassign_locked. cbv zeta.
  destruct (Z.eqb_spec (l_local_collision_round (nlink n)) U32_MAX) as [|Hne]; [reflexivity|].
  destruct (melodi_map_native_locator_available _ _ _ _ _) as [[locator round]|]; [|reflexivity].
  exists locator, round. split; [exact Hne|]. split; [reflexivity|]. unfold reassigned.
  match goal with |- context [end_sessions ?x] => generalize (end_sessions x) end. intros melodi. conj_split; reflexivity.
Qed.

#[local] Opaque melodi_local_reassign_locked end_sessions.

(** The new own locator is one that no peer holds. *)
Lemma reassign_result stack n :
  length stack = 64%nat -> unflagged n ->
  match melodi_local_reassign_locked stack n with
  | (n', Err _) => n' = n
  | (n', Ok _) => unflagged n' /\
      (ndev n').(d_peers) = map (fun p => if p.(p_authenticated) then session_ended p else p) (ndev n).(d_peers) /\
      (nlink n').(l_node_id) = (nlink n).(l_node_id) /\ n'.(n_disc).(m_mesh_domain) = n.(n_disc).(m_mesh_domain) /\
      Forall (fun p => p.(p_authenticated) = true -> p.(p_native_locator) <> (nlink n').(l_local_native_locator)) (ndev n').(d_peers)
  end.
Proof.
  intros Hs [H1 H2 [H3 H4]]. pose proof (reassign_node stack n) as Hre.
  destruct (melodi_local_reassign_locked stack n) as [n' [u|e]]; [|exact Hre].
  destruct Hre as (locator & round & Hne & Ha & Ep & El & Ed).
  assert (0 <= l_local_collision_round (nlink n) + 1 <= U32_MAX) as Hr by (unfold U32_MAX in *; width_lia).
  apply available_Ok in Ha as (Hloc & (Hr' & Hf & _)); [|exact Hs|exact Hr]. apply andb_true_iff in Hf as [Hacc Hfree].
  apply bool_decide_eq_true in Hfree. rewrite <- Hloc in Hacc, Hfree.
  unfold reassigned in Ep, El.
  destruct (sessions_ended (set_d_link (set_locator locator round (nlink n)) (ndev n)) (ck_length _ _ _ H1)) as [E1 E2].
  rewrite E1 in Ep. rewrite E2 in El. cbn [d_peers d_link set_d_link] in Ep, El.
  assert (u32 round) as Hu by width_lia.
  assert (n'.(n_disc).(m_mesh_domain) = n.(n_disc).(m_mesh_domain)) as Hd by (rewrite Ed; reflexivity).
  assert ((nlink n').(l_node_id) = (nlink n).(l_node_id)) as Hn by (rewrite El; reflexivity).
  conj_split; auto.
  - constructor.
    + rewrite Hd, Hn, Ep. apply (claims_ok_views _ _ (ndev n).(d_peers)); [|exact H1]. symmetry. apply map_views, ended_view.
    + rewrite Ep. apply Forall_map. apply (list.Forall_impl _ _ _ H2). intros p Hp. destruct (p_authenticated p) eqn:Ap; [|exact Hp].
      now apply ended_kept.
    + rewrite Hd, El. split; [exact Hu|]. intros _. exact (conj Hloc (conj Hacc Hu)).
  - rewrite Ep, El. cbn [l_local_native_locator set_locator].
    apply Forall_map, list.Forall_forall. intros p Hp Ap Hpl. apply Hfree.
    assert (p_authenticated p = true) as Ap' by (destruct (p_authenticated p) eqn:E; [reflexivity|cbn in Ap; congruence]).
    apply list_elem_of_In, in_map_iff. exists p. split.
    + rewrite Ap' in Hpl. exact Hpl.
    + apply filter_In. split; [now apply list_elem_of_In|exact Ap'].
Qed.

Lemma claim_finish_node n i rl changed collision :
  (claim_finish n i rl changed collision).1 = with_dev (melodi_conflicts_recompute_locked (ndev n)) n.
Proof. unfold claim_finish. now destruct (_ && _). Qed.

Lemma node_eqb_false a b : node_eqb a b = false -> a <> b.
Proof. apply bool_decide_eq_false_1. Qed.

Lemma slot_bind melodi node_id i p :
  melodi_peer_slot melodi node_id ≫= (fun i => pair i <$> melodi.(d_peers) !! i) = Some (i, p) ->
  melodi_peer_slot melodi node_id = Some i /\ melodi.(d_peers) !! i = Some p.
Proof.
  destruct (melodi_peer_slot melodi node_id) as [j|]; cbn; [|discriminate].
  destruct (melodi.(d_peers) !! j) eqn:E; [|discriminate]. cbn. intros [= -> ->]. auto.
Qed.

(** Which of two nodes with the same locator moves. *)
Definition yields (own other : melodi_node_id) : bool := match node_cmp other own with Lt => true | _ => false end.

(** A claim is refused without a change, or stored and followed by what its collision
    asks for. *)
Definition claim_stored (n n1 : node) (i : nat) (p : melodi_peer) (node_id : melodi_node_id)
    (native link round generation counter : Z) : Prop :=
  melodi_peer_slot (ndev n) node_id = Some i /\ (ndev n).(d_peers) !! i = Some p /\ stale_claim p generation counter = false /\
  unflagged n1 /\ nlink n1 = nlink n /\ n1.(n_disc) = n.(n_disc) /\
  (ndev n1).(d_peers) = <[i := claimed node_id native link round generation counter (claim_base p native link round generation)]> (ndev n).(d_peers).

Lemma claim_locked_cases stack n node_id native link round generation counter rl :
  length stack = 64%nat -> u32 round -> table_ok n ->
  (exists error, melodi_claim_locked stack n node_id native link round generation counter rl = (n, Err error)) \/
  exists i p n1, claim_stored n n1 i p node_id native link round generation counter /\
    let collision := native =? (nlink n).(l_local_native_locator) in
    melodi_claim_locked stack n node_id native link round generation counter rl =
    if collision && yields (nlink n).(l_node_id) node_id && rl then
      match melodi_local_reassign_locked stack n1 with
      | (n, Err error) => (with_dev (melodi_conflicts_recompute_locked (ndev n)) n, Err error)
      | (n, Ok _) => claim_finish n i rl true collision
      end
    else claim_finish n1 i rl false collision.
Proof.
  intros Hs Hr Hok. unfold melodi_claim_locked.
  destruct ((link =? 0) || (link =? MELODI_LINK_LOCATOR_BROADCAST)) eqn:Hlink; [eauto|].
  destruct (melodi_map_native_locator _ _ _ _) as [[derived selected]|] eqn:Hm; [|eauto].
  destruct (negb (selected =? round) || negb (derived =? native)) eqn:Hsel; [eauto|].
  destruct (node_eqb _ _) eqn:Hne; [eauto|].
  destruct (_ ≫= _) as [[i p]|] eqn:Hslot; [|eauto]. destruct (stale_claim _ _ _) eqn:Hst; [eauto|].
  apply slot_bind in Hslot as [Hslot Hp]. apply orb_false_iff in Hlink as [Hl1%Z.eqb_neq Hl2%Z.eqb_neq].
  apply orb_false_iff in Hsel as [->%negb_false_iff%Z.eqb_eq ->%negb_false_iff%Z.eqb_eq]. apply node_eqb_false in Hne.
  apply map_locator_located in Hm; [|exact Hs|exact Hr].
  pose proof (claim_peer_ok n i p node_id native link round generation counter (table_unflagged n Hok) Hslot Hp Hm Hne Hl1 Hl2) as H1.
  destruct (claim_peer_result (ndev n) i p node_id native link round generation counter Hp) as [E1 E2].
  set (n1 := with_dev (claim_peer _ _ _ _ _ _ _ _ _) n) in *.
  assert (nlink n1 = nlink n) as Hl by exact E2. assert (n1.(n_disc) = n.(n_disc)) as Hd by reflexivity.
  assert ((ndev n1).(d_peers) = <[i := claimed node_id native link round generation counter (claim_base p native link round generation)]>
    (ndev n).(d_peers)) as Hpe by exact E1.
  clearbody n1. right. exists i, p, n1. split; [unfold claim_stored; conj_split; auto|]. cbv zeta. rewrite Hl. reflexivity.
Qed.

Lemma claim_locked_ok stack n node_id native link round generation counter rl :
  length stack = 64%nat -> u32 round -> table_ok n ->
  table_ok (melodi_claim_locked stack n node_id native link round generation counter rl).1.
Proof.
  intros Hs Hr Hok. destruct (claim_locked_cases stack n node_id native link round generation counter rl Hs Hr Hok)
    as [[error ->]|(i & p & n1 & (_ & _ & _ & H1 & _) & ->)]; [exact Hok|]. cbv zeta. destruct (_ && _ && _).
  - pose proof (reassign_result stack n1 Hs H1) as Hre. destruct (melodi_local_reassign_locked stack n1) as [n2 [?|?]].
    + rewrite claim_finish_node. now apply recompute_ok.
    + subst n2. now apply recompute_ok.
  - rewrite claim_finish_node. now apply recompute_ok.
Qed.

(** What a claim does to the table, whether it is accepted in the end or not. *)
Lemma claim_locked_views stack n node_id native link round generation counter rl :
  length stack = 64%nat -> u32 round -> table_ok n ->
  let n' := (melodi_claim_locked stack n node_id native link round generation counter rl).1 in
  n' = n \/
  exists i p, melodi_peer_slot (ndev n) node_id = Some i /\ (ndev n).(d_peers) !! i = Some p /\
    stale_claim p generation counter = false /\
    map claim_view (ndev n').(d_peers) =
    map claim_view (<[i := claimed node_id native link round generation counter p]> (ndev n).(d_peers)).
Proof.
  intros Hs Hr Hok. destruct (claim_locked_cases stack n node_id native link round generation counter rl Hs Hr Hok)
    as [[error ->]|(i & p & n1 & (Hslot & Hp & Hst & H1 & _ & _ & Ep) & ->)]; cbv zeta; [now left|].
  right. exists i, p.
  assert (map claim_view (ndev n1).(d_peers) =
    map claim_view (<[i := claimed node_id native link round generation counter p]> (ndev n).(d_peers))) as Hv.
  { rewrite Ep. apply list_eq. intros j. rewrite !list_lookup_fmap.
    destruct (decide (i = j)) as [<-|Hj]; [|now rewrite !list_lookup_insert_ne].
    now rewrite !list_lookup_insert_eq by now apply lookup_lt_Some in Hp. }
  conj_split; auto. rewrite <- Hv.
  assert (forall m, unflagged m -> map claim_view (ndev (with_dev (melodi_conflicts_recompute_locked (ndev m)) m)).(d_peers) =
            map claim_view (ndev m).(d_peers)) as Hre.
  { intros m Hm'. apply recompute_views, (uf_claims _ Hm'). }
  destruct (_ && _ && _).
  - pose proof (reassign_result stack n1 Hs H1) as Hra. destruct (melodi_local_reassign_locked stack n1) as [n2 [?|?]].
    + rewrite claim_finish_node. destruct Hra as (H2 & Ep2 & _). rewrite (Hre n2 H2), Ep2. apply map_views, ended_view.
    + subst n2. now apply Hre.
  - rewrite claim_finish_node. now apply Hre.
Qed.

(** What an accepted claim leaves in the entry of the node. *)
Definition claim_made (node_id : melodi_node_id) (native link round generation counter : Z) (p : melodi_peer) : Prop :=
  p.(p_node_id) = node_id /\ p.(p_native_locator) = native /\ p.(p_link_locator) = link /\ p.(p_collision_round) = round /\
  p.(p_generation) = generation /\ p.(p_control_counter) = counter /\ p.(p_authenticated) = true.

Lemma claim_finish_Ok n i rl changed collision n' c p :
  length (ndev n).(d_peers) = MELODI_PEER_LIMIT -> (ndev n).(d_peers) !! i = Some p ->
  claim_finish n i rl changed collision = (n', Ok c) ->
  c = MkClaim i changed collision /\ n' = with_dev (melodi_conflicts_recompute_locked (ndev n)) n /\
  exists f, (ndev n').(d_peers) !! i = Some (set_p_conflicted f p) /\ (rl = false -> f = false).
Proof.
  intros Hl Hp. destruct (recompute_spec (ndev n) Hl) as [He _]. destruct (He i p Hp) as (f & Hf & _).
  unfold claim_finish. destruct (at_index _ _ _ && _) eqn:E; [discriminate|]. intros [= <- <-].
  split; [reflexivity|]. split; [reflexivity|]. exists f. split; [exact Hf|]. intros ->. cbn [negb] in E. rewrite andb_true_r in E.
  unfold at_index in E. cbn [n_core with_dev set_dev c_dev] in E. rewrite Hf in E. exact E.
Qed.

Lemma claim_locked_Ok stack n node_id native link round generation counter rl n' c :
  length stack = 64%nat -> u32 round -> table_ok n ->
  melodi_claim_locked stack n node_id native link round generation counter rl = (n', Ok c) ->
  exists p f, melodi_peer_slot (ndev n) node_id = Some c.(cl_index) /\ (ndev n).(d_peers) !! c.(cl_index) = Some p /\
    stale_claim p generation counter = false /\ n'.(n_disc).(m_mesh_domain) = n.(n_disc).(m_mesh_domain) /\
    (nlink n').(l_node_id) = (nlink n).(l_node_id) /\
    let q := claimed node_id native link round generation counter (claim_base p native link round generation) in
    (ndev n').(d_peers) !! c.(cl_index) = Some (set_p_conflicted f (if c.(cl_changed) then session_ended q else q)) /\
    (c.(cl_changed) = false -> n'.(n_disc) = n.(n_disc) /\ nlink n' = nlink n) /\
    (rl = false -> c.(cl_changed) = false /\ f = false).
Proof.
  intros Hs Hr Hok. destruct (claim_locked_cases stack n node_id native link round generation counter rl Hs Hr Hok)
    as [[error ->]|(i & p & n1 & (Hslot & Hp & Hst & H1 & Hl & Hd & Ep) & ->)]; [discriminate|]. cbv zeta.
  set (q := claimed node_id native link round generation counter _) in *.
  assert ((ndev n1).(d_peers) !! i = Some q) as Hq.
  { rewrite Ep. apply list_lookup_insert_eq. now apply lookup_lt_Some in Hp. }
  destruct (_ && _ && rl) eqn:Hres.
  - apply andb_true_iff in Hres as [_ ->].
    pose proof (reassign_result stack n1 Hs H1) as Hre. destruct (melodi_local_reassign_locked stack n1) as [n2 [?|?]]; [|discriminate].
    destruct Hre as (H2 & Ep2 & En & Ed & _). intros Hf.
    apply (claim_finish_Ok _ _ _ _ _ _ _ (session_ended q)) in Hf as (-> & -> & f & Hf & _).
    2: { exact (ck_length _ _ _ (uf_claims _ H2)). }
    2: { rewrite Ep2, list_lookup_fmap, Hq. reflexivity. }
    exists p, f. cbn [cl_index cl_changed n_disc with_dev]. rewrite Ed, Hd. conj_split; auto; try discriminate.
    cbn [n_core with_dev set_dev c_dev]. rewrite recompute_link, En. now rewrite Hl.
  - intros Hf. apply (claim_finish_Ok _ _ _ _ _ _ _ q) in Hf as (-> & -> & f & Hf & Hrl);
      [|exact (ck_length _ _ _ (uf_claims _ H1))|exact Hq].
    exists p, f. cbn [cl_index cl_changed n_disc with_dev]. rewrite Hd. conj_split; auto.
    cbn [n_core with_dev set_dev c_dev]. now rewrite recompute_link, Hl.
Qed.

Lemma session_ended_idle p : p_session_ready (if p.(p_authenticated) then session_ended p else p) = true -> idle p -> False.
Proof. destruct (p_authenticated p) eqn:Ap; [discriminate|]. intros H1 H2. destruct (H2 Ap). congruence. Qed.

Lemma recompute_Forall (Q : melodi_peer -> Prop) melodi :
  length melodi.(d_peers) = MELODI_PEER_LIMIT -> (forall f q, Q q -> Q (set_p_conflicted f q)) -> Forall Q melodi.(d_peers) ->
  Forall Q (melodi_conflicts_recompute_locked melodi).(d_peers).
Proof.
  intros Hlen HQ HF. destruct (recompute_spec melodi Hlen) as [Hrec Hlen'].
  apply Forall_lookup. intros k q Hk. destruct (lookup_lt_is_Some_2 melodi.(d_peers) k) as [q0 Hq0].
  { rewrite <- Hlen'. now apply lookup_lt_Some in Hk. }
  destruct (Hrec k q0 Hq0) as (f & Hf & _). rewrite Hk in Hf. injection Hf as ->. apply HQ. exact (Forall_lookup_1 _ _ _ _ HF Hq0).
Qed.

Lemma reassign_round stack n :
  length stack = 64%nat -> unflagged n ->
  match melodi_local_reassign_locked stack n with
  | (n', Ok _) => n'.(n_disc).(m_conflict_pending) = true /\
      (nlink n).(l_local_collision_round) < (nlink n').(l_local_collision_round)
  | _ => True
  end.
Proof.
  intros Hs [H1 _ [Hu _]]. pose proof (reassign_node stack n) as Hnode.
  destruct (melodi_local_reassign_locked stack n) as [n' [?|?]]; [|exact I].
  destruct Hnode as (locator & round & Hmax & Ha & _ & El & ->). split; [reflexivity|]. unfold reassigned in El.
  apply available_Ok in Ha as (_ & (Hr' & _)); [|exact Hs|unfold U32_MAX in *; width_lia].
  destruct (sessions_ended (set_d_link (set_locator locator round (nlink n)) (ndev n)) (ck_length _ _ _ H1)) as [_ E].
  rewrite E in El. rewrite El. cbn [d_link set_d_link l_local_collision_round set_locator]. lia.
Qed.

Lemma claim_locked_moves stack n node_id native link round generation counter rl n' c :
  length stack = 64%nat -> u32 round -> table_ok n ->
  melodi_claim_locked stack n node_id native link round generation counter rl = (n', Ok c) ->
  c.(cl_collision) = (native =? (nlink n).(l_local_native_locator)) /\
  c.(cl_changed) = c.(cl_collision) && yields (nlink n).(l_node_id) node_id && rl /\
  (c.(cl_changed) = true ->
     n'.(n_disc).(m_conflict_pending) = true /\
     (nlink n).(l_local_collision_round) < (nlink n').(l_local_collision_round) /\
     Forall (fun p => p.(p_authenticated) = true -> p.(p_native_locator) <> (nlink n').(l_local_native_locator)) (ndev n').(d_peers) /\
     Forall (fun p => p.(p_session_ready) = false) (ndev n').(d_peers)).
Proof.
  intros Hs Hr Hok. destruct (claim_locked_cases stack n node_id native link round generation counter rl Hs Hr Hok)
    as [[error ->]|(i & p & n1 & (_ & _ & _ & H1 & Hl & _) & ->)]; [discriminate|]. cbv zeta.
  destruct (_ && _ && rl) eqn:Hres.
  - pose proof (reassign_result stack n1 Hs H1) as Hre. pose proof (reassign_round stack n1 Hs H1) as Hround.
    destruct (melodi_local_reassign_locked stack n1) as [n2 [?|?]]; [|discriminate].
    destruct Hre as (H2 & Ep & En & Ed & Hfree). rewrite Hl in Hround.
    unfold claim_finish. destruct (_ && negb _); [discriminate|]. intros [= <- <-]. cbn [cl_collision cl_changed].
    split; [reflexivity|]. split; [now rewrite Hres|]. intros _.
    pose proof (ck_length _ _ _ (uf_claims _ H2)) as Hlen.
    cbn [n_core n_disc with_dev set_dev c_dev]. rewrite recompute_link. conj_split; try apply Hround.
    + apply recompute_Forall; [exact Hlen| |exact Hfree]. intros f q Hq. exact Hq.
    + apply recompute_Forall; [exact Hlen|intros f q Hq; exact Hq|]. rewrite Ep. apply Forall_map. pose proof (uf_idle _ H1) as Hi.
      apply (list.Forall_impl _ _ _ Hi). intros q Hq. apply not_true_is_false. intros Hc. exact (session_ended_idle q Hc Hq).
  - unfold claim_finish. destruct (_ && negb _); [discriminate|]. intros [= <- <-]. cbn [cl_collision cl_changed].
    split; [reflexivity|]. split; [now rewrite Hres|discriminate].
Qed.

Lemma claim_locked_entry stack n node_id native link round generation counter rl n' c :
  length stack = 64%nat -> u32 round -> table_ok n ->
  melodi_claim_locked stack n node_id native link round generation counter rl = (n', Ok c) ->
  exists p, (ndev n').(d_peers) !! c.(cl_index) = Some p /\ claim_made node_id native link round generation counter p.
Proof.
  intros Hs Hr Hok Hc. destruct (claim_locked_Ok _ _ _ _ _ _ _ _ _ _ _ Hs Hr Hok Hc) as (p & f & _ & _ & _ & _ & _ & Hp & _).
  eexists. split; [exact Hp|]. now destruct (cl_changed c).
Qed.

(** ** The handlers *)

Lemma store_peer_kept n melodi i p p' :
  melodi.(d_peers) = (ndev n).(d_peers) -> melodi.(d_link) = nlink n -> (ndev n).(d_peers) !! i = Some p ->
  flag_view p' = flag_view p -> (idle p -> idle p') -> table_kept n (with_dev (with_peer i p' melodi) n).
Proof.
  intros Hp Hl Hi Hv Hidle. constructor; cbn [n_core n_disc with_dev set_dev c_dev with_peer d_peers d_link set_d_peers]; rewrite ?Hl, ?Hp; auto.
  - apply list_eq. intros j. rewrite !list_lookup_fmap. destruct (decide (i = j)) as [<-|Hj]; [|now rewrite list_lookup_insert_ne].
    rewrite list_lookup_insert_eq by now apply lookup_lt_Some in Hi. rewrite Hi. cbn. now rewrite Hv.
  - intros H. apply Forall_insert; [exact H|]. apply Hidle. exact (Forall_lookup_1 _ _ _ _ H Hi).
Qed.

Lemma idle_ready p : p.(p_authenticated) = true -> idle p.
Proof. intros H1 H2. congruence. Qed.

(** What everybody else does keeps a property of nodes. *)
Record gaps_ok (P : node -> Prop) (g : discovery_gaps) : Prop := {
  go_settle n : P n -> P (g.(dg_settle) n);
  go_configure n : P n -> P (g.(dg_configure) n).1;
  go_built n : P n -> P (g.(dg_built) n);
  go_queue n : P n -> P (g.(dg_queue) n);
}.

Section Table.
  Context {Sg : Signer} {C : Curve} {H : KeyedHash} (msecs_to_jiffies : Z -> Z)
    (crypto_ed25519_check : bytes -> bytes -> bytes -> bool).
  Context (e : discovery_env) (g : discovery_gaps).
  Context (P : node -> Prop) (Hg : gaps_ok P g) (Hs : length e.(de_stack) = 64%nat).
  Context (P_table : forall n, P n -> table_ok n) (P_kept : forall n n', table_kept n n' -> P n -> P n').
  Context (P_claim : forall n node_id native link round generation counter rl, u32 round -> P n ->
    P (melodi_claim_locked e.(de_stack) n node_id native link round generation counter rl).1).

Lemma send_frame_ok n frame source destination :
  P n -> P (melodi_send_frame e g n frame source destination).1.
Proof.
  intros Hok. unfold melodi_send_frame. destruct (frame_metadata _ _ _) as [meta|]; [|exact Hok].
  destruct (se_skb _ 0); [|exact Hok]. apply (go_queue P g Hg) in Hok. set (n' := dg_queue g n) in *.
  pose proof (send_kept (se_namespace (de_send e)) (se_running (de_send e)) (se_carrier (de_send e))
    (se_net (de_send e)) n' frame meta (se_queue_ms (de_send e))) as Hk.
  destruct (melodi_core_send _ _ _ _ _ _ _ _) as [s r]. exact (P_kept _ _ Hk Hok).
Qed.

Lemma send_auth_ok n auth : P n -> P (melodi_send_auth e g n auth).1.
Proof. intros Hok. unfold melodi_send_auth. destruct (auth_frame _ _); [now apply send_frame_ok|exact Hok]. Qed.

Lemma counter_ok n : P n -> P (with_dev (melodi_counter_next_locked (ndev n)).1 n).
Proof. apply P_kept, counter_kept. Qed.

Lemma send_challenge_ok n hello : P n -> P (melodi_send_challenge e g n hello).1.
Proof.
  intros Hok. assert (P (challenge_locked e n hello).1) as Hc.
  { unfold challenge_locked. destruct (_ ≫= _) as [[i p]|] eqn:Hslot; [|exact Hok].
    apply slot_bind in Hslot as [_ Hp]. destruct (p_authenticated p) eqn:Ap; cbn [negb orb]; [|exact Hok].
    destruct (_ || _); [exact Hok|]. destruct (curve25519_generate_public _ _) as [public valid].
    destruct valid; cbn [negb].
    2: { refine (P_kept _ _ (store_peer_kept n (ndev n) i p _ _ _ Hp _ _) Hok); auto. }
    set (n1 := with_dev (with_peer i _ _) n).
    assert (P n1) as H1.
    { refine (P_kept _ _ (store_peer_kept n (ndev n) i p _ _ _ Hp _ _) Hok); auto. intros _. now apply idle_ready. }
    pose proof (counter_ok n1 H1) as H2. now destruct (melodi_counter_next_locked (ndev n1)) as [melodi [counter|error]]. }
  unfold melodi_send_challenge. destruct (challenge_locked e n hello) as [n1 [auth|error]]; [|exact Hc].
  apply send_auth_ok, (go_built P g Hg), Hc.
Qed.

Lemma announce_ok n : P n -> P (melodi_discovery_announce e g n).1.
Proof.
  intros Hok. assert (P (announce_locked e n).1) as Hc.
  { unfold announce_locked. destruct (_ || _); [exact Hok|]. pose proof (counter_ok n Hok) as H1.
    destruct (melodi_counter_next_locked (ndev n)) as [melodi [counter|error]]; [|exact H1].
    refine (P_kept _ _ _ H1). constructor; auto. }
  unfold melodi_discovery_announce. destruct (announce_locked e n) as [n1 [hello|error]]; [|exact Hc].
  apply (go_built P g Hg) in Hc. cbn [fst] in Hc. set (n2 := dg_built g n1) in *.
  destruct (hello_frame _ _ _) as [frame|]; [|exact Hc].
  pose proof (send_frame_ok n2 frame (source_native_locator (hello_common hello)) MELODI_NATIVE_LOCATOR_BROADCAST Hc) as H3.
  destruct (melodi_send_frame _ _ _ _ _ _) as [n3 r]. cbn [fst] in H3. destruct (_ && _ && _); [|exact H3].
  refine (P_kept _ _ _ H3). constructor; auto.
Qed.

Lemma probe_ok n : P n -> P (melodi_discovery_probe e g n).1.
Proof.
  intros Hok. assert (P (probe_locked e n).1) as Hc.
  { unfold probe_locked. destruct (_ || _); [exact Hok|]. pose proof (counter_ok n Hok) as H1.
    now destruct (melodi_counter_next_locked (ndev n)) as [melodi [counter|error]]. }
  unfold melodi_discovery_probe. destruct (probe_locked e n) as [n1 [control|error]]; [|exact Hc].
  apply (go_built P g Hg) in Hc. destruct (control_frame _ _); [now apply send_frame_ok|exact Hc].
Qed.

Lemma announce_work_ok n : P n -> P (melodi_announce_work msecs_to_jiffies e g n).
Proof.
  intros Hok. unfold melodi_announce_work. destruct (_ || _); [exact Hok|]. destruct (existsb _ _); [exact Hok|].
  refine (P_kept _ _ (announce_schedule_kept _ _ _ _) _). now apply announce_ok.
Qed.

(** The peer a claim has been accepted for is stored again. *)
Lemma hello_locked_ok n hello meta :
  u32 hello.(hello_collision_round) -> P n -> P (hello_locked msecs_to_jiffies e n hello meta).1.
Proof.
  intros Hr Hok. unfold hello_locked. destruct (negb _); [exact Hok|].
  pose proof (P_claim n hello.(hello_node_id) hello.(hello_common).(source_native_locator) meta.(rm_source_locator)
    hello.(hello_collision_round) hello.(hello_common).(identity_generation) hello.(hello_common).(counter) true Hr Hok) as H1.
  destruct (melodi_claim_locked _ _ _ _ _ _ _ _ _) as [n1 [c|error]]; [|exact H1]. cbn [fst] in H1.
  destruct ((ndev n1).(d_peers) !! cl_index c) as [p|] eqn:Hp; [|exact H1].
  set (p' := melodi_peer_observe_locked _ _ _). cbv zeta. cbn [fst].
  refine (P_kept _ _ (schedule_kept _ _) _).
  set (n2 := with_dev (with_peer (cl_index c) p' (ndev n1)) n1).
  assert (P n2) as H2 by (refine (P_kept _ _ (store_peer_kept n1 (ndev n1) _ p _ _ _ Hp _ _) H1); auto).
  destruct (p_session_ready p'); [|exact H2]. exact (P_kept _ _ (session_reset_kept n2 (cl_index c)) H2).
Qed.

Lemma control_locked_ok n control meta :
  u32 control.(control_collision_round) -> P n -> P (control_locked msecs_to_jiffies e n control meta).1.
Proof.
  intros Hr Hok. unfold control_locked. destruct (negb _); [exact Hok|].
  pose proof (P_claim n control.(control_node_id) control.(control_common).(source_native_locator) meta.(rm_source_locator)
    control.(control_collision_round) control.(control_common).(identity_generation) control.(control_common).(counter) true Hr Hok) as H1.
  destruct (melodi_claim_locked _ _ _ _ _ _ _ _ _) as [n1 [c|error]]; [|exact H1]. cbn [fst] in H1.
  destruct ((ndev n1).(d_peers) !! cl_index c) as [p|] eqn:Hp; [|exact H1]. cbv zeta. cbn [fst].
  refine (P_kept _ _ (schedule_kept _ _) _). destruct (_ || _);
    (refine (P_kept _ _ (store_peer_kept n1 (ndev n1) _ p _ _ _ Hp _ _) H1); auto).
Qed.

Lemma auth_validate_ok n auth meta :
  u32 auth.(auth_collision_round) -> P n -> P (melodi_auth_validate e.(de_stack) n auth meta).1.
Proof.
  intros Hr Hok. unfold melodi_auth_validate. destruct (_ || _ || _ || _); [exact Hok|].
  destruct (_ ≫= _) as [known|]; [|exact Hok]. destruct (negb _); [exact Hok|]. now apply P_claim.
Qed.

Lemma auth_validate_entry n auth meta n' c :
  u32 auth.(auth_collision_round) -> table_ok n -> melodi_auth_validate e.(de_stack) n auth meta = (n', Ok c) ->
  exists p, (ndev n').(d_peers) !! c.(cl_index) = Some p /\
    claim_made auth.(auth_source_node_id) auth.(auth_common).(source_native_locator) meta.(rm_source_locator)
      auth.(auth_collision_round) auth.(auth_common).(identity_generation) auth.(auth_common).(counter) p.
Proof.
  clear P Hg P_table P_kept P_claim. intros Hr Hok. unfold melodi_auth_validate. destruct (_ || _ || _ || _); [discriminate|].
  destruct (_ ≫= _) as [known|]; [|discriminate]. destruct (negb _); [discriminate|]. now apply claim_locked_entry.
Qed.

Lemma challenge_section_ok n auth public shared meta :
  u32 auth.(auth_collision_round) -> P n -> P (challenge_section e n auth public shared meta).1.
Proof.
  intros Hr Hok. unfold challenge_section. pose proof (auth_validate_ok n auth meta Hr Hok) as H1.
  pose proof (auth_validate_entry n auth meta) as Hentry.
  destruct (melodi_auth_validate _ _ _ _) as [n1 [c|error]]; [|exact H1]. cbn [fst] in H1.
  destruct (Hentry n1 c Hr (P_table n Hok) eq_refl) as (p & Hp & (_ & _ & _ & _ & _ & _ & Ap)). rewrite Hp.
  set (p1 := melodi_peer_observe_locked _ _ _). set (n2 := with_dev (with_peer (cl_index c) p1 (ndev n1)) n1).
  assert (P n2) as H2 by (refine (P_kept _ _ (store_peer_kept n1 (ndev n1) _ p _ _ _ Hp _ _) H1); auto).
  destruct (announced_challenge _ _) as [announced|]; [|exact H2].
  assert ((ndev n2).(d_peers) !! cl_index c = Some p1) as Hp2 by (apply list_lookup_insert_eq; now apply lookup_lt_Some in Hp).
  set (melodi := set_d_receive _ _). set (p2 := session_begins _ _ _). set (n3 := with_dev (with_peer (cl_index c) p2 melodi) n2).
  assert (P n3) as H3.
  { refine (P_kept _ _ (store_peer_kept n2 melodi _ p1 _ _ _ Hp2 _ _) H2); try reflexivity. intros _. now apply idle_ready. }
  cbv zeta. pose proof (counter_ok n3 H3) as H4. now destruct (melodi_counter_next_locked (ndev n3)) as [? [?|?]].
Qed.

Lemma response_section_ok n auth meta :
  u32 auth.(auth_collision_round) -> P n -> P (response_section e n auth meta).1.
Proof.
  intros Hr Hok. unfold response_section. destruct (_ ≫= _) as [p0|]; [|exact Hok]. destruct (negb _); [exact Hok|].
  pose proof (auth_validate_ok n auth meta Hr Hok) as H1. pose proof (auth_validate_entry n auth meta) as Hentry.
  destruct (melodi_auth_validate _ _ _ _) as [n1 [c|error]]; [|exact H1]. cbn [fst] in H1.
  destruct (Hentry n1 c Hr (P_table n Hok) eq_refl) as (p & Hp & (_ & _ & _ & _ & _ & _ & Ap)). rewrite Hp.
  set (p1 := melodi_peer_observe_locked _ _ _). set (n2 := with_dev (with_peer (cl_index c) p1 (ndev n1)) n1).
  assert (P n2) as H2 by (refine (P_kept _ _ (store_peer_kept n1 (ndev n1) _ p _ _ _ Hp _ _) H1); auto).
  destruct (curve25519 _ _) as [shared|]; [|exact H2].
  assert ((ndev n2).(d_peers) !! cl_index c = Some p1) as Hp2 by (apply list_lookup_insert_eq; now apply lookup_lt_Some in Hp).
  cbn [fst]. set (melodi := set_d_receive _ _).
  refine (P_kept _ _ (store_peer_kept n2 melodi _ p1 _ _ _ Hp2 _ _) H2); try reflexivity. intros _. now apply idle_ready.
Qed.

Lemma wire_get32_u32 off frame : Forall u8 frame -> u32 (melodi_wire_get32 (drop off frame)).
Proof. intros Hf. apply get_be32_u32. now apply Forall_drop. Qed.

Lemma claim_round frame class hello : Forall u8 frame -> melodi_wire_decode_claim frame class = Ok hello -> u32 hello.(hello_collision_round).
Proof.
  intros Hf. unfold melodi_wire_decode_claim. destruct (melodi_wire_decode_common frame); [|discriminate]. cbn [mbind result_bind].
  destruct (_ || _ || _ || _ || _); [discriminate|]. destruct (_ =? _); [|discriminate]. intros [= <-]. now apply wire_get32_u32.
Qed.

Lemma hello_checked_round frame conflict hello :
  Forall u8 frame -> hello_checked crypto_ed25519_check frame conflict = Ok hello -> u32 hello.(hello_collision_round).
Proof.
  intros Hf. unfold hello_checked. intros Hc. apply bind_Ok in Hc as (h & Hd & Hc).
  destruct (_ || _); [discriminate|]. apply bind_Ok in Hc as (_ & _ & [= <-]).
  destruct conflict; exact (claim_round _ _ _ Hf Hd).
Qed.

Lemma auth_round frame auth : Forall u8 frame -> melodi_wire_decode_auth frame = Ok auth -> u32 auth.(auth_collision_round).
Proof.
  intros Hf. unfold melodi_wire_decode_auth. destruct (melodi_wire_decode_common frame); [|discriminate]. cbn [mbind result_bind].
  destruct (_ || _ || _ || _ || _ || _); [discriminate|]. destruct (_ || _); [discriminate|]. intros [= <-]. now apply wire_get32_u32.
Qed.

Lemma auth_checked_decoded frame class auth :
  auth_checked crypto_ed25519_check frame class = Ok auth ->
  melodi_wire_decode_auth frame = Ok auth /\ auth.(auth_common).(frame_class) = class /\
  melodi_identity_verify crypto_ed25519_check auth.(auth_source_node_id) (load 0 MELODI_WIRE_AUTH_SIGNED_SIZE frame)
    auth.(auth_signature) = Ok tt.
Proof.
  unfold auth_checked. intros Hc. apply bind_Ok in Hc as (a & Hd & Hc).
  destruct (negb _) eqn:Hn; [discriminate|]. apply bind_Ok in Hc as ([] & Hv & [= <-]).
  apply negb_false_iff, Z.eqb_eq in Hn. auto.
Qed.

Lemma control_checked_round frame control :
  Forall u8 frame -> control_checked crypto_ed25519_check frame = Ok control -> u32 control.(control_collision_round).
Proof.
  intros Hf. unfold control_checked. intros Hc. apply bind_Ok in Hc as (h & Hd & Hc).
  destruct (negb _); [discriminate|]. apply bind_Ok in Hc as (_ & _ & [= <-]). revert Hd.
  unfold melodi_wire_decode_control. destruct (melodi_wire_decode_common frame); [|discriminate]. cbn [mbind result_bind].
  destruct (_ || _ || _ || _ || _ || _ || _ || _); [discriminate|]. destruct (_ || _); [discriminate|]. intros [= <-]. now apply wire_get32_u32.
Qed.

Lemma receive_hello_ok n frame conflict meta :
  Forall u8 frame -> P n -> P (melodi_receive_hello msecs_to_jiffies crypto_ed25519_check e g n frame conflict meta).1.
Proof.
  intros Hf Hok. unfold melodi_receive_hello. destruct (hello_checked _ _ _) as [hello|] eqn:Hc; [|exact Hok].
  apply hello_checked_round in Hc; [|exact Hf]. pose proof (hello_locked_ok n hello meta Hc Hok) as H1.
  destruct (hello_locked _ _ _ _ _) as [n1 [seen|]]; [|exact H1]. cbn [fst] in H1.
  set (n2 := if hs_stale seen then _ else _). assert (P n2) as H2 by (unfold n2; destruct (hs_stale seen); [now apply (go_settle P g Hg)|exact H1]).
  clearbody n2. destruct (hs_changed seen); [now apply (go_configure P g Hg)|]. destruct (hs_conflicted seen).
  { destruct (_ && _ && _); [now apply announce_ok|exact H2]. }
  destruct (_ || _); [exact H2|]. destruct (hs_responder seen); [now apply send_challenge_ok|].
  exact (P_kept _ _ (announce_schedule_kept _ _ _ _) H2).
Qed.

Lemma receive_challenge_ok n frame meta :
  Forall u8 frame -> P n -> P (melodi_receive_challenge crypto_ed25519_check e g n frame meta).1.
Proof.
  intros Hf Hok. unfold melodi_receive_challenge. destruct (auth_checked _ _ _) as [auth|] eqn:Hc; [|exact Hok].
  apply auth_checked_decoded in Hc as [Hc _]. apply auth_round in Hc; [|exact Hf].
  destruct (ephemeral_exchange _ _) as [[public shared]|]; [|exact Hok].
  pose proof (challenge_section_ok n auth public shared meta Hc Hok) as H1.
  destruct (challenge_section _ _ _ _ _ _) as [n1 [response|]]; [|exact H1].
  apply send_auth_ok. now apply (go_built P g Hg).
Qed.

Lemma receive_response_ok n frame meta :
  Forall u8 frame -> P n -> P (melodi_receive_response crypto_ed25519_check e n frame meta).1.
Proof.
  intros Hf Hok. unfold melodi_receive_response. destruct (auth_checked _ _ _) as [auth|] eqn:Hc; [|exact Hok].
  apply auth_checked_decoded in Hc as [Hc _]. apply auth_round in Hc; [|exact Hf]. now apply response_section_ok.
Qed.

Lemma receive_control_ok n frame meta :
  Forall u8 frame -> P n -> P (melodi_receive_control msecs_to_jiffies crypto_ed25519_check e g n frame meta).1.
Proof.
  intros Hf Hok. unfold melodi_receive_control. destruct (control_checked _ _) as [control|] eqn:Hc; [|exact Hok].
  apply control_checked_round in Hc; [|exact Hf]. pose proof (control_locked_ok n control meta Hc Hok) as H1.
  destruct (control_locked _ _ _ _ _) as [n1 [changed|]]; [|exact H1].
  destruct changed; [now apply (go_configure P g Hg)|]. destruct (_ && _); [now apply announce_ok|exact H1].
Qed.

Lemma discovery_receive_ok n frame meta :
  Forall u8 frame -> P n -> P (melodi_discovery_receive msecs_to_jiffies crypto_ed25519_check e g n frame meta).1.
Proof.
  intros Hf Hok. unfold melodi_discovery_receive. destruct (melodi_wire_decode_common frame) as [common|]; [|exact Hok].
  cbv zeta. repeat match goal with |- context [if ?b then _ else _] => destruct b end; cbn [fst]; try exact Hok;
    apply (go_settle P g Hg); auto using receive_hello_ok, receive_challenge_ok, receive_response_ok, receive_control_ok.
Qed.
End Table.

(** ** Expiry *)

Lemma no_trace_forgotten r node node' : no_trace r node -> no_trace (peer_forgotten r node') node.
Proof. intros (H1 & H2 & H3 & H4). unfold no_trace, peer_forgotten. cbn. conj_split; now apply Forall_cleared. Qed.

Lemma expire_turn melodi i p :
  melodi.(d_peers) !! i = Some p ->
  let melodi' := with_peer i zero_peer (melodi_peer_session_reset_locked melodi i) in
  melodi'.(d_peers) = <[i := zero_peer]> melodi.(d_peers) /\ melodi'.(d_link) = melodi.(d_link) /\
  melodi'.(d_receive) = melodi_data_peer_reset_locked melodi.(d_receive) p.(p_node_id).
Proof.
  intros Hp. cbv zeta. destruct (session_reset_peers melodi i) as [E1 E2]. unfold with_peer.
  cbn [d_peers d_link d_receive set_d_peers]. rewrite E1, E2, (alter_lookup _ _ _ p) by exact Hp.
  rewrite list_insert_insert_eq. conj_split; auto. unfold melodi_peer_session_reset_locked. now rewrite Hp.
Qed.

Lemma expiry_loop_result jiffies melodi :
  length melodi.(d_peers) = MELODI_PEER_LIMIT -> receive_wf melodi.(d_receive) ->
  let melodi' := expiry_loop jiffies melodi in
  melodi'.(d_peers) = map (fun p => if expired jiffies p then zero_peer else p) melodi.(d_peers) /\
  melodi'.(d_link) = melodi.(d_link) /\ receive_wf melodi'.(d_receive) /\
  Forall (fun p => expired jiffies p = true -> no_trace melodi'.(d_receive) p.(p_node_id)) melodi.(d_peers).
Proof.
  intros Hl Hwf. cbv zeta. set (g := fun p => if expired jiffies p then zero_peer else p).
  assert (forall i m, (i < MELODI_PEER_LIMIT)%nat ->
    m.(d_peers) = swept g i melodi.(d_peers) /\ m.(d_link) = melodi.(d_link) /\ receive_wf m.(d_receive) /\
      (forall j p, (j < i)%nat -> melodi.(d_peers) !! j = Some p -> expired jiffies p = true -> no_trace m.(d_receive) p.(p_node_id)) ->
    let m' := if at_index m.(d_peers) i (expired jiffies)
              then with_peer i zero_peer (melodi_peer_session_reset_locked m i) else m in
    m'.(d_peers) = swept g (S i) melodi.(d_peers) /\ m'.(d_link) = melodi.(d_link) /\ receive_wf m'.(d_receive) /\
      (forall j p, (j < S i)%nat -> melodi.(d_peers) !! j = Some p -> expired jiffies p = true -> no_trace m'.(d_receive) p.(p_node_id))) as Hturn.
  { intros i m Hi (E1 & E2 & E3 & E4). cbv zeta. destruct (lookup_lt_is_Some_2 melodi.(d_peers) i) as [p Hp]; [now rewrite Hl|].
    assert (m.(d_peers) !! i = Some p) as Hmp by (now rewrite E1, swept_lookup).
    unfold at_index. rewrite Hmp. destruct (expired jiffies p) eqn:Ex.
    - destruct (expire_turn m i p Hmp) as (-> & -> & ->). rewrite peer_reset_forgets by exact E3. conj_split.
      + rewrite (swept_S g i _ p) by exact Hp. assert (g p = zero_peer) as -> by (unfold g; now rewrite Ex). now rewrite E1.
      + exact E2.
      + now apply peer_forgotten_wf.
      + intros j q Hj Hq Eq. destruct (decide (j = i)) as [->|Hne].
        * rewrite Hp in Hq. injection Hq as <-. apply peer_forgotten_no_trace.
        * apply no_trace_forgotten, (E4 j q); auto. lia.
    - conj_split; auto.
      + rewrite (swept_S_id g i _ p) by (exact Hp || (unfold g; now rewrite Ex)). exact E1.
      + intros j q Hj Hq Eq. destruct (decide (j = i)) as [->|Hne]; [congruence|]. apply (E4 j q); auto. lia. }
  assert (let m := expiry_loop jiffies melodi in
    m.(d_peers) = swept g MELODI_PEER_LIMIT melodi.(d_peers) /\ m.(d_link) = melodi.(d_link) /\ receive_wf m.(d_receive) /\
    (forall j p, (j < MELODI_PEER_LIMIT)%nat -> melodi.(d_peers) !! j = Some p -> expired jiffies p = true -> no_trace m.(d_receive) p.(p_node_id)))
    as (E1 & E2 & E3 & E4).
  { apply (fold_seq_ind (fun i m => m.(d_peers) = swept g i melodi.(d_peers) /\ m.(d_link) = melodi.(d_link) /\ receive_wf m.(d_receive) /\
      (forall j p, (j < i)%nat -> melodi.(d_peers) !! j = Some p -> expired jiffies p = true -> no_trace m.(d_receive) p.(p_node_id)))).
    - conj_split; auto. intros. lia.
    - intros i m Hi Hm. exact (Hturn i m Hi Hm). }
  conj_split; auto.
  - rewrite E1, <- Hl. apply swept_all.
  - apply Forall_lookup. intros j p Hp. apply (E4 j p); auto. apply lookup_lt_Some in Hp. now rewrite <- Hl.
Qed.

#[local] Opaque expiry_loop.

Lemma with_dev_twice a b n : with_dev a (with_dev b n) = with_dev a n.
Proof. reflexivity. Qed.

(** The next expiry, when all times are on this side of the wrap. *)
Definition near (p : melodi_peer) : Prop := p.(p_authenticated) = true -> 0 < p.(p_expires) < 2 ^ 63.

Lemma time_before_near a b : 0 <= a < 2 ^ 63 -> 0 <= b < 2 ^ 63 -> time_before a b = (a <? b).
Proof.
  intros Ha Hb. unfold time_before, to_signed, wrap. destruct (Z.ltb_spec a b).
  - rewrite <- (Z.mod_add (a - b) 1) by lia. rewrite Z.mod_small by lia.
    destruct (Z.ltb_spec (a - b + 1 * 2 ^ 64) (2 ^ (64 - 1))); apply Z.ltb_lt; lia.
  - rewrite Z.mod_small by lia. destruct (Z.ltb_spec (a - b) (2 ^ (64 - 1))); apply Z.ltb_ge; lia.
Qed.

Lemma earliest_near peers : Forall near peers ->
  (Forall (fun p => p.(p_authenticated) = false) peers /\ earliest_expiry peers = 0) \/
  (exists p, p ∈ peers /\ p.(p_authenticated) = true /\ earliest_expiry peers = p.(p_expires) /\
     Forall (fun q => q.(p_authenticated) = true -> p.(p_expires) <= q.(p_expires)) peers).
Proof.
  induction peers as [|x peers IH] using rev_ind; intros Hn; [left; split; [constructor|reflexivity]|].
  apply Forall_app in Hn as [Hn Hx]. apply Forall_inv in Hx. unfold earliest_expiry. rewrite fold_left_app. cbn [fold_left].
  fold (earliest_expiry peers). destruct (p_authenticated x) eqn:Ax; cbn [andb].
  2: { destruct (IH Hn) as [[H1 H2]|(p & Hp & Ap & E & H1)].
       - left. split; [|exact H2]. apply Forall_app. split; [exact H1|now constructor].
       - right. exists p. conj_split; auto; [now apply elem_of_app; left|]. apply Forall_app. split; [exact H1|].
         constructor; [congruence|constructor]. }
  right. specialize (Hx Ax). destruct (IH Hn) as [[H1 ->]|(p & Hp & Ap & -> & H1)].
  - exists x. cbn. conj_split; auto; [apply elem_of_app; right; now apply list_elem_of_singleton|].
    apply Forall_app. split; [|constructor; [lia|constructor]]. apply (list.Forall_impl _ _ _ H1). intros q Hq Aq. congruence.
  - assert (0 < p_expires p < 2 ^ 63) as Hpn by exact (proj1 (list.Forall_forall _ _) Hn p Hp Ap).
    rewrite time_before_near by lia. destruct (Z.eqb_spec (p_expires p) 0); [lia|]. cbn [orb].
    destruct (Z.ltb_spec (p_expires x) (p_expires p)).
    + exists x. conj_split; auto; [apply elem_of_app; right; now apply list_elem_of_singleton|].
      apply Forall_app. split; [|constructor; [lia|constructor]].
      apply (list.Forall_impl _ _ _ H1). intros q Hq Aq. specialize (Hq Aq). lia.
    + exists p. conj_split; auto; [now apply elem_of_app; left|]. apply Forall_app. split; [exact H1|]. constructor; [lia|constructor].
Qed.

Lemma schedule_near jiffies n :
  0 <= jiffies < 2 ^ 63 -> Forall near (ndev n).(d_peers) ->
  Forall (fun p => p.(p_authenticated) = true -> jiffies < p.(p_expires)) (ndev n).(d_peers) ->
  let work := (melodi_peer_expiry_schedule_locked jiffies n).(n_disc).(m_peer_expiry_work) in
  (Forall (fun p => p.(p_authenticated) = false) (ndev n).(d_peers) /\ work = n.(n_disc).(m_peer_expiry_work)) \/
  (exists p, p ∈ (ndev n).(d_peers) /\ p.(p_authenticated) = true /\ work = Some (p.(p_expires) - jiffies) /\
     Forall (fun q => q.(p_authenticated) = true -> p.(p_expires) <= q.(p_expires)) (ndev n).(d_peers)).
Proof.
  intros Hj Hn Ha. cbv zeta. unfold melodi_peer_expiry_schedule_locked.
  destruct (earliest_near _ Hn) as [[H1 ->]|(p & Hp & Ap & -> & H1)]; [left; split; [exact H1|reflexivity]|].
  right. exists p. pose proof (proj1 (list.Forall_forall _ _) Hn p Hp Ap). pose proof (proj1 (list.Forall_forall _ _) Ha p Hp Ap).
  destruct (Z.eqb_spec (p_expires p) 0); [lia|]. unfold time_after_eq. rewrite time_before_near by lia.
  destruct (Z.ltb_spec jiffies (p_expires p)); [|lia]. cbn [negb n_disc with_disc m_peer_expiry_work set_m_peer_expiry_work].
  rewrite wrap_id by width_lia. auto.
Qed.

Lemma expired_near jiffies p : 0 <= jiffies < 2 ^ 63 -> near p -> expired jiffies p = p.(p_authenticated) && (p.(p_expires) <=? jiffies).
Proof.
  intros Hj Hn. unfold expired. destruct (p_authenticated p) eqn:Ap; [|reflexivity]. specialize (Hn Ap). cbn [andb].
  rewrite time_before_near by lia. destruct (Z.ltb_spec jiffies (p_expires p)), (Z.leb_spec (p_expires p) jiffies); try reflexivity; lia.
Qed.

(** Entries are removed without a trace, others keep their claims. *)
Lemma swept_claims domain local peers (c : melodi_peer -> bool) :
  claims_ok domain local peers -> claims_ok domain local (map (fun p : melodi_peer => if c p then zero_peer else p) peers).
Proof.
  intros [H1 H2 H3]. constructor.
  - now rewrite length_map.
  - apply Forall_map. apply (list.Forall_impl _ _ _ H2). intros p Hp. destruct (c p); [intros C; discriminate C|exact Hp].
  - exact (proj1 (table_sweep p_authenticated p_node_id id c (fun _ e => c e) zero_peer peers H3 eq_refl (fun _ _ => eq_refl))).
Qed.

Lemma expiry_ok jiffies n : table_ok n -> receive_wf (ndev n).(d_receive) -> table_ok (expiry_locked jiffies n).
Proof.
  intros Hok Hwf. destruct (expiry_loop_result jiffies (ndev n) (ck_length _ _ _ (to_claims _ Hok)) Hwf) as (E1 & E2 & _).
  unfold expiry_locked. cbv zeta. refine (table_ok_kept _ _ (schedule_kept _ _) _).
  rewrite <- (with_dev_twice _ (expiry_loop jiffies (ndev n)) n).
  apply (recompute_ok (with_dev (expiry_loop jiffies (ndev n)) n)). destruct Hok as [H1 H2 H3 H4].
  constructor; cbn [n_core n_disc with_dev set_dev c_dev]; rewrite ?E1, ?E2; auto.
  - now apply swept_claims.
  - apply Forall_map. apply (list.Forall_impl _ _ _ H3). intros p Hp. destruct (expired jiffies p); [|exact Hp]. intros _. split; reflexivity.
Qed.

(** The peer's time has come. *)
Definition due (jiffies : Z) (p : melodi_peer) : bool := p.(p_authenticated) && (p.(p_expires) <=? jiffies).

(** The table of a node after a pass is that of the node before it, entry by entry. *)
Definition expiry_left (jiffies : Z) (peers after : list melodi_peer) : Prop :=
  (forall (i : nat) p, peers !! i = Some p -> exists f, after !! i = Some (set_p_conflicted f (if due jiffies p then zero_peer else p))) /\
  (forall (i : nat) q, after !! i = Some q ->
     exists p f, peers !! i = Some p /\ q = set_p_conflicted f (if due jiffies p then zero_peer else p)).

Lemma expiry_entries jiffies melodi :
  length melodi.(d_peers) = MELODI_PEER_LIMIT -> receive_wf melodi.(d_receive) -> Forall near melodi.(d_peers) -> 0 <= jiffies < 2 ^ 63 ->
  let melodi' := melodi_conflicts_recompute_locked (expiry_loop jiffies melodi) in
  expiry_left jiffies melodi.(d_peers) melodi'.(d_peers) /\
  Forall (fun p : melodi_peer => due jiffies p = true -> no_trace melodi'.(d_receive) p.(p_node_id)) melodi.(d_peers).
Proof.
  intros Hlen Hwf Hn Hj. cbv zeta. destruct (expiry_loop_result jiffies melodi Hlen Hwf) as (E1 & _ & _ & E4).
  rewrite recompute_receive. set (after := expiry_loop jiffies melodi) in *.
  assert (Forall (fun p => expired jiffies p = due jiffies p) melodi.(d_peers)) as Hex
    by (apply (list.Forall_impl _ _ _ Hn); intros p; now apply expired_near).
  assert (length after.(d_peers) = MELODI_PEER_LIMIT) as Hl by (rewrite E1, length_map; exact Hlen).
  destruct (recompute_spec after Hl) as [Hre Hlen']. split; [split|].
  - intros i p Hp. destruct (Hre i (if expired jiffies p then zero_peer else p)) as (f & Hf & _).
    { rewrite E1, list_lookup_fmap, Hp. reflexivity. }
    exists f. rewrite <- (Forall_lookup_1 _ _ _ _ Hex Hp). exact Hf.
  - intros i q Hi. destruct (lookup_lt_is_Some_2 after.(d_peers) i) as [p0 Hp0]; [rewrite <- Hlen'; now apply lookup_lt_Some in Hi|].
    destruct (Hre i p0 Hp0) as (f & Hf & _). rewrite Hi in Hf. injection Hf as ->. rewrite E1, list_lookup_fmap in Hp0.
    destruct (melodi.(d_peers) !! i) as [p|] eqn:Hp; [|discriminate]. injection Hp0 as <-. exists p, f.
    rewrite (Forall_lookup_1 _ _ _ _ Hex Hp). auto.
  - apply Forall_lookup. intros i p Hp. rewrite <- (Forall_lookup_1 _ _ _ _ Hex Hp). exact (Forall_lookup_1 _ _ _ _ E4 Hp).
Qed.

(** The next run is planned for the first of the peers that are left. *)
Lemma expiry_plan jiffies peers n :
  expiry_left jiffies peers (ndev n).(d_peers) -> Forall near peers -> 0 <= jiffies < 2 ^ 63 ->
  let left := List.filter (fun p => p.(p_authenticated) && negb (due jiffies p)) peers in
  let work := (melodi_peer_expiry_schedule_locked jiffies n).(n_disc).(m_peer_expiry_work) in
  (left = [] /\ work = n.(n_disc).(m_peer_expiry_work)) \/
  (exists p, p ∈ left /\ work = Some (p.(p_expires) - jiffies) /\ Forall (fun q => p.(p_expires) <= q.(p_expires)) left).
Proof.
  intros [Hre Hq] Hn Hj. cbv zeta. set (kept := fun p => _ && negb _).
  assert (forall q, q ∈ (ndev n).(d_peers) -> q.(p_authenticated) = true ->
            exists p f, p ∈ List.filter kept peers /\ q = set_p_conflicted f p /\ jiffies < p.(p_expires) < 2 ^ 63) as Hin.
  { intros q (i & Hi)%list_elem_of_lookup Aq. destruct (Hq i q Hi) as (p & f & Hp & ->).
    destruct (due jiffies p) eqn:Hd; [discriminate Aq|]. cbn in Aq. exists p, f. pose proof (Forall_lookup_1 _ _ _ _ Hn Hp Aq) as Hr.
    pose proof Hd as Hd'. unfold due in Hd'. rewrite Aq in Hd'. apply Z.leb_gt in Hd'. conj_split; auto; [|lia].
    apply list_elem_of_In, filter_In. split; [apply list_elem_of_In; exact (list_elem_of_lookup_2 _ _ _ Hp)|].
    unfold kept. now rewrite Aq, Hd. }
  assert (forall p, p ∈ List.filter kept peers -> exists f, set_p_conflicted f p ∈ (ndev n).(d_peers) /\ p.(p_authenticated) = true) as Hout.
  { intros p Hp%list_elem_of_In. apply filter_In in Hp as [Hp Hk]. apply list_elem_of_In, list_elem_of_lookup in Hp as (i & Hp).
    unfold kept in Hk. apply andb_true_iff in Hk as [Ap Hk%negb_true_iff]. destruct (Hre i p Hp) as (f & Hf). rewrite Hk in Hf.
    exists f. split; [|exact Ap]. exact (list_elem_of_lookup_2 _ _ _ Hf). }
  assert (Forall (fun q => q.(p_authenticated) = true -> jiffies < q.(p_expires) < 2 ^ 63) (ndev n).(d_peers)) as Hnear.
  { apply list.Forall_forall. intros q Hq' Aq. destruct (Hin q Hq' Aq) as (p & f & _ & -> & Hr). exact Hr. }
  destruct (schedule_near jiffies n Hj) as [[Hnone ->]|(q & Hq' & Aq & -> & Hmin)];
    [apply (list.Forall_impl _ _ _ Hnear); intros q Hr Aq; specialize (Hr Aq); lia..| |].
  - left. split; [|reflexivity]. destruct (List.filter kept peers) as [|p l] eqn:El; [reflexivity|].
    destruct (Hout p) as (f & Hf & Ap); [apply list_elem_of_here|].
    pose proof (proj1 (list.Forall_forall _ _) Hnone _ Hf) as Hc. cbn in Hc. congruence.
  - right. destruct (Hin q Hq' Aq) as (p & f & Hp & -> & Hr). exists p. conj_split; auto.
    apply list.Forall_forall. intros r Hr'. destruct (Hout r Hr') as (f' & Hf' & Ar).
    exact (proj1 (list.Forall_forall _ _) Hmin _ Hf' Ar).
Qed.

(** Expiry is exact.  The work, under the lock, removes the entries of exactly the authenticated
    peers whose time has come, with everything received from them, keeps every other
    entry up to its conflict flag, which is recomputed, keeps the table well-formed,
    and plans its next run for the moment the first of the remaining peers expires,
    neither sooner nor later; when no peer remains it plans nothing. *)
Theorem expiry_exact jiffies n :
  table_ok n -> receive_wf (ndev n).(d_receive) -> Forall near (ndev n).(d_peers) -> 0 <= jiffies < 2 ^ 63 ->
  let n' := expiry_locked jiffies n in
  table_ok n' /\
  expiry_left jiffies (ndev n).(d_peers) (ndev n').(d_peers) /\
  Forall (fun p : melodi_peer => due jiffies p = true -> no_trace (ndev n').(d_receive) p.(p_node_id)) (ndev n).(d_peers) /\
  let left := List.filter (fun p => p.(p_authenticated) && negb (due jiffies p)) (ndev n).(d_peers) in
  (left = [] /\ n'.(n_disc).(m_peer_expiry_work) = n.(n_disc).(m_peer_expiry_work)) \/
  (exists p, p ∈ left /\ n'.(n_disc).(m_peer_expiry_work) = Some (p.(p_expires) - jiffies) /\
     Forall (fun q => p.(p_expires) <= q.(p_expires)) left).
Proof.
  intros Hok Hwf Hn Hj. cbv zeta.
  destruct (expiry_entries jiffies (ndev n) (ck_length _ _ _ (to_claims _ Hok)) Hwf Hn Hj) as [Hl Ht].
  set (n1 := with_dev (melodi_conflicts_recompute_locked (expiry_loop jiffies (ndev n))) n).
  assert (ndev (expiry_locked jiffies n) = ndev n1) as ->
    by (unfold expiry_locked, melodi_peer_expiry_schedule_locked; now destruct (_ =? 0)).
  split; [exact (expiry_ok jiffies n Hok Hwf)|]. split; [exact Hl|]. split; [exact Ht|].
  exact (expiry_plan jiffies (ndev n).(d_peers) n1 Hl Hn Hj).
Qed.

(** ** Runs *)

(** What can happen to the table: a frame, the two works, an announcement or a probe
    that somebody asks for. *)
Inductive discovery_event :=
| FrameArrives (e : discovery_env) (g : discovery_gaps) (frame : bytes) (meta : melodi_rx_meta)
| ExpiryRuns (jiffies : Z) (g : discovery_gaps)
| AnnounceRuns (e : discovery_env) (g : discovery_gaps)
| AnnounceAsked (e : discovery_env) (g : discovery_gaps)
| ProbeAsked (e : discovery_env) (g : discovery_gaps).

Definition around_ok (P : node -> Prop) (e : discovery_env) (g : discovery_gaps) : Prop :=
  length e.(de_stack) = 64%nat /\ gaps_ok P g.

Definition event_ok (P : node -> Prop) (n : node) (ev : discovery_event) : Prop :=
  match ev with
  | FrameArrives e g frame _ => around_ok P e g /\ Forall u8 frame
  | ExpiryRuns _ g => gaps_ok P g /\ receive_wf (ndev n).(d_receive)
  | AnnounceRuns e g | AnnounceAsked e g | ProbeAsked e g => around_ok P e g
  end.

Section Run.
  Context {Sg : Signer} {C : Curve} {H : KeyedHash} (msecs_to_jiffies : Z -> Z)
    (crypto_ed25519_check : bytes -> bytes -> bytes -> bool).

Definition discovery_step (n : node) (ev : discovery_event) : node :=
  match ev with
  | FrameArrives e g frame meta => (melodi_discovery_receive msecs_to_jiffies crypto_ed25519_check e g n frame meta).1
  | ExpiryRuns jiffies g => melodi_peer_expiry_work jiffies g n
  | AnnounceRuns e g => melodi_announce_work msecs_to_jiffies e g n
  | AnnounceAsked e g => (melodi_discovery_announce e g n).1
  | ProbeAsked e g => (melodi_discovery_probe e g n).1
  end.

(** The nodes a run reaches while everybody else keeps a property. *)
Inductive reaches (P : node -> Prop) (n : node) : list discovery_event -> node -> Prop :=
| reaches_nil : reaches P n [] n
| reaches_snoc l m ev : reaches P n l m -> event_ok P m ev -> reaches P n (l ++ [ev]) (discovery_step m ev).

Lemma step_keeps (P : node -> Prop) n ev :
  (forall n, P n -> table_ok n) -> (forall n n', table_kept n n' -> P n -> P n') ->
  (forall stack n node_id native link round generation counter rl, length stack = 64%nat -> u32 round -> P n ->
     P (melodi_claim_locked stack n node_id native link round generation counter rl).1) ->
  (forall jiffies g, ev = ExpiryRuns jiffies g -> P n -> P (expiry_locked jiffies n)) ->
  event_ok P n ev -> P n -> P (discovery_step n ev).
Proof.
  intros HT HK HC HE. destruct ev as [e g frame meta|jiffies g|e g|e g|e g]; cbn [event_ok discovery_step]; intros Hev Hok.
  - destruct Hev as [[Hs Hg] Hf]. apply discovery_receive_ok with (P := P);
      [exact Hg|exact Hs|exact HT|exact HK|intros; now apply HC|exact Hf|exact Hok].
  - destruct Hev as [Hg _]. apply (go_settle _ _ Hg). now apply (HE jiffies g).
  - apply announce_work_ok with (P := P); [apply Hev|exact HK|exact Hok].
  - apply announce_ok with (P := P); [apply Hev|exact HK|exact Hok].
  - apply probe_ok with (P := P); [apply Hev|exact HK|exact Hok].
Qed.

Lemma step_ok n ev : event_ok table_ok n ev -> table_ok n -> table_ok (discovery_step n ev).
Proof.
  intros Hev Hok. apply step_keeps; [auto|exact table_ok_kept|intros; now apply claim_locked_ok| |exact Hev|exact Hok].
  intros jiffies g -> _. destruct Hev as [_ Hw]. now apply expiry_ok.
Qed.
End Run.

(** C4: the table of peers stays well-formed.  Whatever frames arrive, genuine, forged
    or replayed, and however expiry, announcements and probes come in between, every
    authenticated entry belongs to another node than the device's own, to no node twice,
    holds the locator its node derives for its round and a link address that is not the
    broadcast address, and is marked as conflicting exactly when the device or another
    authenticated peer has the same locator; an entry not in use has no session and no
    handshake; and the device's own locator stays one derived from its identity. *)
Theorem peer_table_typed {Sg : Signer} {C : Curve} {H : KeyedHash} msecs_to_jiffies check n events n' :
  table_ok n -> reaches msecs_to_jiffies check table_ok n events n' -> table_ok n'.
Proof. intros Hok Hr. induction Hr; auto using step_ok. Qed.

Lemma yields_opposite a b : wf_node_id a -> wf_node_id b -> a <> b -> yields a b = negb (yields b a).
Proof.
  intros Wa Wb Hne. unfold yields, node_cmp. rewrite (memcmp_opp (node_bytes b) (node_bytes a)).
  destruct (memcmp (node_bytes b) (node_bytes a)) eqn:E; try reflexivity.
  exfalso. apply Hne. symmetry. now apply (node_cmp_eq b a).
Qed.

Lemma schedule_dev jiffies n : ndev (melodi_peer_expiry_schedule_locked jiffies n) = ndev n.
Proof. unfold melodi_peer_expiry_schedule_locked. now destruct (_ =? 0). Qed.

Lemma schedule_pending jiffies n :
  (melodi_peer_expiry_schedule_locked jiffies n).(n_disc).(m_conflict_pending) = n.(n_disc).(m_conflict_pending).
Proof. unfold melodi_peer_expiry_schedule_locked. now destruct (_ =? 0). Qed.

(** C19: a locator collision moves one of the two nodes, to a free locator.  An accepted
    announcement with the device's own locator makes the device move exactly if the
    announcing identity is the smaller one, so of two nodes that hear each other exactly
    one moves; it moves to a later round whose locator no authenticated peer holds, ends
    all its sessions, since they were negotiated for the old locator, and remembers to
    announce the conflict.  Every other announcement leaves the own locator alone. *)
Theorem collision_moves_one msecs_to_jiffies e n hello meta n' seen :
  table_ok n -> length e.(de_stack) = 64%nat -> u32 hello.(hello_collision_round) ->
  wf_node_id (nlink n).(l_node_id) -> wf_node_id hello.(hello_node_id) ->
  hello_locked msecs_to_jiffies e n hello meta = (n', Ok seen) ->
  seen.(hs_collision) = (hello.(hello_common).(source_native_locator) =? (nlink n).(l_local_native_locator)) /\
  seen.(hs_changed) = seen.(hs_collision) && yields (nlink n).(l_node_id) hello.(hello_node_id) /\
  yields (nlink n).(l_node_id) hello.(hello_node_id) = negb (yields hello.(hello_node_id) (nlink n).(l_node_id)) /\
  if seen.(hs_changed) then
    n'.(n_disc).(m_conflict_pending) = true /\
    (nlink n).(l_local_collision_round) < (nlink n').(l_local_collision_round) /\
    Forall (fun p => p.(p_authenticated) = true -> p.(p_native_locator) <> (nlink n').(l_local_native_locator)) (ndev n').(d_peers) /\
    Forall (fun p => p.(p_session_ready) = false) (ndev n').(d_peers)
  else nlink n' = nlink n.
Proof.
  intros Hok Hs Hr W1 W2. unfold hello_locked. destruct (negb _); [discriminate|].
  destruct (melodi_claim_locked _ _ _ _ _ _ _ _ _) as [n1 [c|error]] eqn:Hc; [|discriminate].
  destruct (claim_locked_moves _ _ _ _ _ _ _ _ _ _ _ Hs Hr Hok Hc) as (M1 & M2 & M3).
  destruct (claim_locked_Ok _ _ _ _ _ _ _ _ _ _ _ Hs Hr Hok Hc) as (p0 & f & _ & _ & _ & _ & _ & Hp & Hsame & _).
  assert (hello.(hello_node_id) <> (nlink n).(l_node_id)) as Hne.
  { intros E. revert Hc. unfold melodi_claim_locked. rewrite E. destruct (_ || _); [discriminate|].
    destruct (melodi_map_native_locator _ _ _ _) as [[? ?]|]; [|discriminate]. destruct (negb (_ =? _) || _); [discriminate|].
    unfold node_eqb. now rewrite bool_decide_eq_true_2. }
  cbv zeta in Hp. set (p := set_p_conflicted _ _) in Hp. clearbody p. rewrite Hp.
  set (p' := melodi_peer_observe_locked _ _ _). cbv zeta. intros [= <- <-]. cbn [hs_collision hs_changed].
  rewrite schedule_dev, schedule_pending. rewrite andb_true_r in M2. split; [exact M1|]. split; [exact M2|].
  split; [apply yields_opposite; auto|].
  assert (d_link (if p_session_ready p then melodi_peer_session_reset_locked (with_peer (cl_index c) p' (ndev n1)) (cl_index c)
            else with_peer (cl_index c) p' (ndev n1)) = nlink n1) as El.
  { destruct (p_session_ready p); [|reflexivity]. now destruct (session_reset_peers (with_peer (cl_index c) p' (ndev n1)) (cl_index c)) as [_ ->]. }
  cbn [n_core n_disc with_dev set_dev c_dev].
  destruct (cl_changed c) eqn:Hch; [|rewrite El; now apply Hsame].
  destruct (M3 eq_refl) as (C1 & C2 & C3 & C4). pose proof (Forall_lookup_1 _ _ _ _ C4 Hp) as Hrp. cbn beta in Hrp.
  pose proof (Forall_lookup_1 _ _ _ _ C3 Hp) as Hlp. cbn beta in Hlp.
  rewrite El. rewrite Hrp. cbn [d_peers with_peer set_d_peers]. conj_split; auto.
  - apply Forall_insert; [exact C3|exact Hlp].
  - apply Forall_insert; [exact C4|exact Hrp].
Qed.

(** ** Concrete tables *)

Lemma fresh_table n :
  (ndev n).(d_peers) = replicate MELODI_PEER_LIMIT zero_peer -> own_ok n.(n_disc).(m_mesh_domain) (nlink n) -> table_ok n.
Proof.
  intros Hp Ho. assert (Forall (fun p => p = zero_peer) (ndev n).(d_peers)) as Hz by (rewrite Hp; now apply Forall_replicate).
  constructor; auto.
  - constructor.
    + now rewrite Hp, length_replicate.
    + apply (list.Forall_impl _ _ _ Hz). intros p ->. discriminate.
    + rewrite Hp. exact (proj1 (empty_table p_authenticated p_node_id id MELODI_PEER_LIMIT zero_peer eq_refl)).
  - intros i p Hi. pose proof (Forall_lookup_1 _ _ _ _ Hz Hi) as ->. split; [discriminate|]. intros [C _]. discriminate C.
  - apply (list.Forall_impl _ _ _ Hz). intros p ->. split; reflexivity.
Qed.

Lemma alone_ok P : gaps_ok P sample_alone.
Proof. constructor; auto. Qed.

Lemma around_alone P frame k : around_ok P (sample_around frame k) sample_alone.
Proof. split; [reflexivity|apply alone_ok]. Qed.

Lemma node_a_ok : table_ok node_a.
Proof. apply fresh_table; [vm_compute; reflexivity|]. split; [by_decide|]. intros _. repeat split; vm_compute; congruence. Qed.

Lemma node_b_ok : table_ok node_b.
Proof. apply fresh_table; [vm_compute; reflexivity|]. split; [by_decide|]. intros _. repeat split; vm_compute; congruence. Qed.

(** The steps of the exchange of Nodes.v. *)
Lemma announced_ok mark k n : table_ok n -> table_ok (announce_as mark k n).
Proof. intros Hok. apply announce_ok with (P := table_ok); [apply alone_ok|exact table_ok_kept|exact Hok]. Qed.

Lemma heard_ok mark k frame l link own n : Forall u8 l -> table_ok n -> table_ok (hear_as mark k frame l link own n).1.
Proof.
  intros Hl Hok. apply discovery_receive_ok with (P := table_ok);
    [apply alone_ok|reflexivity|exact (fun _ h => h)|exact table_ok_kept| |exact Hl|exact Hok].
  intros. now apply claim_locked_ok.
Qed.

Lemma a_knows_b_ok : table_ok a_knows_b.
Proof. assert (a_knows_b = (hear_as 0x1a 30 302 hello_b 11 10 node_a).1) as -> by (vm_compute; reflexivity). apply heard_ok; [by_decide|exact node_a_ok]. Qed.
Lemma b_announced_ok : table_ok b_announced.
Proof. assert (b_announced = announce_as 0x1b 20 node_b) as -> by (vm_compute; reflexivity). apply announced_ok, node_b_ok. Qed.
Lemma a_announced_ok : table_ok a_announced.
Proof. assert (a_announced = announce_as 0x1a 40 a_knows_b) as -> by (vm_compute; reflexivity). apply announced_ok, a_knows_b_ok. Qed.
Lemma b_challenged_ok : table_ok b_challenged.
Proof. assert (b_challenged = (hear_as 0x1b 50 302 hello_a 10 11 b_announced).1) as -> by (vm_compute; reflexivity). apply heard_ok; [by_decide|exact b_announced_ok]. Qed.

Definition sample_arrival : discovery_event := FrameArrives (sample_around 302 30) sample_alone hello_b (sample_from 11 10).

Lemma peer_table_typed_witness :
  let n := @discovery_step (Nodes.toy_signer 0x1a) toy_curve toy_hash sample_jiffies toy_check node_a sample_arrival in
  (first_peer n).(p_authenticated) = true /\ table_ok n.
Proof.
  split; [vm_compute; reflexivity|]. assert (Forall u8 hello_b) as Hb by by_decide.
  exact (@peer_table_typed (Nodes.toy_signer 0x1a) toy_curve toy_hash sample_jiffies toy_check node_a [sample_arrival] _ node_a_ok
    (@reaches_snoc (Nodes.toy_signer 0x1a) toy_curve toy_hash sample_jiffies toy_check table_ok node_a [] node_a sample_arrival
      (@reaches_nil (Nodes.toy_signer 0x1a) toy_curve toy_hash sample_jiffies toy_check table_ok node_a)
      (conj (around_alone table_ok 302 30) Hb))).
Defined.

(** The peer of the first node is due at 301000. *)
Lemma expiry_exact_witness :
  (expiry_locked 301000 a_knows_b).(n_disc).(m_peer_expiry_work) = a_knows_b.(n_disc).(m_peer_expiry_work) /\
  (expiry_locked 300999 a_knows_b).(n_disc).(m_peer_expiry_work) = Some 1.
Proof.
  assert (receive_wf (ndev a_knows_b).(d_receive)) as Hwf by (constructor; by_decide).
  assert (Forall near (ndev a_knows_b).(d_peers)) as Hn.
  { apply list.Forall_forall. intros p Hp Ap. assert (Forall (fun p => p.(p_authenticated) = true -> p.(p_expires) = 301000) (ndev a_knows_b).(d_peers)) as H.
    { vm_compute. repeat constructor; intros; congruence. }
    rewrite (proj1 (list.Forall_forall _ _) H p Hp Ap). lia. }
  split.
  - destruct (expiry_exact 301000 a_knows_b a_knows_b_ok Hwf Hn) as (_ & _ & _ & [[_ H]|(p & Hp & _)]); [lia|exact H|].
    apply list_elem_of_In in Hp. vm_compute in Hp. destruct Hp.
  - destruct (expiry_exact 300999 a_knows_b a_knows_b_ok Hwf Hn) as (_ & _ & _ & [[H _]|(p & Hp & -> & _)]); [lia|discriminate H|].
    apply list_elem_of_In in Hp. vm_compute in Hp. destruct Hp as [<-|[]]. reflexivity.
Defined.

(** A node that is still without an identity of its own, with the first node's locator. *)
Definition colliding_node : node := Eval vm_compute in
  with_dev (set_d_link (MkLink (Mapping.sample_node 0x1b) false true (nlink node_a).(l_local_native_locator) 11 0 1 0) (ndev node_b)) node_b.
Definition sample_hello : melodi_wire_hello := Eval vm_compute in
  match melodi_wire_decode_hello hello_a with Ok h => h | Err _ => Wire.sample_hello end.

Lemma collision_moves_one_witness :
  exists n' seen, hello_locked sample_jiffies (sample_around 302 50) colliding_node sample_hello (sample_from 10 11) = (n', Ok seen) /\
    seen.(hs_changed) = true /\ n'.(n_disc).(m_conflict_pending) = true /\
    Forall (fun p => p.(p_authenticated) = true -> p.(p_native_locator) <> (nlink n').(l_local_native_locator)) (ndev n').(d_peers).
Proof.
  destruct (hello_locked sample_jiffies (sample_around 302 50) colliding_node sample_hello (sample_from 10 11)) as [n' [seen|error]] eqn:E;
    [|vm_compute in E; discriminate E].
  assert (hs_changed seen = true) as Hch by (vm_compute in E; injection E as <- <-; reflexivity).
  assert (table_ok colliding_node) as Hok.
  { apply fresh_table; [vm_compute; reflexivity|]. split; [by_decide|discriminate]. }
  destruct (collision_moves_one sample_jiffies (sample_around 302 50) colliding_node sample_hello (sample_from 10 11) n' seen
    Hok eq_refl ltac:(by_decide) ltac:(split; by_decide) ltac:(split; by_decide) E) as (_ & _ & _ & H).
  rewrite Hch in H. destruct H as (H1 & _ & H2 & _). exists n', seen. auto.
Defined.
