(* ===== verification/Freshness.v ===== *)
(** * Frames of discovery count once, and only when they are signed

    A frame changes the state only if the node it names has signed it, and once the
    claim in it has been made, the same frame, or an older one of that node, is refused
    for as long as the node stays in the table. *)
From stdpp Require Import gmap.
From S2P Require Import Prelude Buffer Uapi Wire Replay Blake2s Mapping Slots Device Fragments Peers Reassembly Delivery Identity Queue Send Receive Kept Discovery Nodes Claims.

(** ** The claim in a frame *)

Definition claim_le (a b : Z * Z) : Prop := a.1 < b.1 \/ (a.1 = b.1 /\ a.2 <= b.2).

#[export] Instance claim_le_preorder : PreOrder claim_le.
Proof. split; unfold claim_le; [intros [a b]; cbn; lia|]. intros [a b] [c d] [e f]. cbn. lia. Qed.

(** The node is in the table with a claim at least as new. *)
Definition known (node_id : melodi_node_id) (gc : Z * Z) (n : node) : Prop :=
  exists (i : nat) p, (ndev n).(d_peers) !! i = Some p /\ p.(p_authenticated) = true /\ p.(p_node_id) = node_id /\
    claim_le gc (p.(p_generation), p.(p_control_counter)).

Lemma known_views node_id gc n n' :
  map claim_view (ndev n').(d_peers) = map claim_view (ndev n).(d_peers) -> known node_id gc n -> known node_id gc n'.
Proof.
  intros Hv (i & p & Hp & Ap & Np & Le). destruct (views_lookup (ndev n').(d_peers) (ndev n).(d_peers) i p Hv Hp) as (q & Hq & Hqp).
  exists i, q. unfold claim_view in Hqp. inversion Hqp. conj_split; congruence.
Qed.

Lemma known_kept node_id gc n n' : table_kept n n' -> known node_id gc n -> known node_id gc n'.
Proof. intros Hk. apply known_views, flag_views_claims, Hk. Qed.

Lemma stale_claim_new p generation counter :
  p.(p_authenticated) = true -> stale_claim p generation counter = false ->
  claim_le (p.(p_generation), p.(p_control_counter)) (generation, counter).
Proof.
  unfold stale_claim. intros ->. cbn [andb]. intros [H1%Z.ltb_ge H2]%orb_false_iff. unfold claim_le. cbn.
  destruct (Z.eqb_spec generation (p_generation p)); [|lia]. cbn [andb] in H2. apply Z.leb_gt in H2. lia.
Qed.

Lemma known_claim stack n node_id gc node_id' native link round generation counter rl :
  length stack = 64%nat -> u32 round -> table_ok n -> known node_id gc n ->
  known node_id gc (melodi_claim_locked stack n node_id' native link round generation counter rl).1.
Proof.
  intros Hs Hr Hok Hk. destruct (claim_locked_views stack n node_id' native link round generation counter rl Hs Hr Hok)
    as [->|(i & p & Hslot & Hp & Hst & Hv)]; [exact Hk|].
  set (n' := (melodi_claim_locked _ _ _ _ _ _ _ _ _).1) in *. clearbody n'.
  destruct Hk as (j & q & Hq & Aq & Nq & Le).
  assert (exists k r, (<[i := claimed node_id' native link round generation counter p]> (ndev n).(d_peers)) !! k = Some r /\
            r.(p_authenticated) = true /\ r.(p_node_id) = node_id /\ claim_le gc (r.(p_generation), r.(p_control_counter)))
    as (k & r & Hkr & Ar & Nr & Lr).
  { destruct (decide (i = j)) as [<-|Hne].
    - rewrite Hp in Hq. injection Hq as ->. exists i. eexists. rewrite list_lookup_insert_eq by now apply lookup_lt_Some in Hp.
      split; [reflexivity|]. cbn. split; [reflexivity|].
      destruct (peer_slot_spec _ _ _ _ Hslot Hp) as [[_ Nq']|[Hn _]]; [|congruence].
      split; [congruence|]. etransitivity; [exact Le|]. now apply stale_claim_new.
    - exists j, q. rewrite list_lookup_insert_ne by exact Hne. auto. }
  destruct (views_lookup (ndev n').(d_peers) _ k r Hv Hkr) as (r' & Hr' & Hrr). exists k, r'.
  unfold claim_view in Hrr. inversion Hrr. conj_split; congruence.
Qed.

(** A claim that is not newer than what is known of the node changes nothing. *)
Lemma claim_refused stack n node_id gc native link round generation counter rl :
  known node_id gc n -> table_ok n -> claim_le (generation, counter) gc ->
  exists error, melodi_claim_locked stack n node_id native link round generation counter rl = (n, Err error).
Proof.
  intros (i & p & Hp & Ap & Np & Le) Hok Hgc. unfold melodi_claim_locked. destruct (_ || _); [eauto|].
  destruct (melodi_map_native_locator _ _ _ _) as [[derived selected]|]; [|eauto].
  destruct (negb (selected =? round) || negb (derived =? native)); [eauto|]. destruct (node_eqb _ _); [eauto|].
  destruct (_ ≫= _) as [[k q]|] eqn:Hslot; [|eauto]. apply slot_bind in Hslot as [Hslot Hq].
  destruct (peer_slot_spec _ _ _ _ Hslot Hq) as [[Aq Nq]|[_ Hno]]; [|exfalso; exact (Hno i p Hp Ap Np)].
  assert (k = i) as -> by (apply (ck_distinct _ _ _ (to_claims _ Hok) k i q p); congruence).
  rewrite Hp in Hq. injection Hq as ->.
  assert (stale_claim q generation counter = true) as ->; [|eauto].
  unfold stale_claim. rewrite Aq. cbn [andb]. assert (claim_le (generation, counter) (p_generation q, p_control_counter q)) as Hle
    by (etransitivity; [exact Hgc|exact Le]). unfold claim_le in Hle. cbn in Hle.
  apply orb_true_iff. destruct Hle as [?|[-> ?]]; [left; now apply Z.ltb_lt|right]. rewrite Z.eqb_refl. now apply Z.leb_le.
Qed.

(** The node a frame names, with generation and counter, when its signature is good. *)
Section Frames.
  Context {Sg : Signer} {C : Curve} {H : KeyedHash} (msecs_to_jiffies : Z -> Z)
    (crypto_ed25519_check : bytes -> bytes -> bytes -> bool).

Definition common_claim (node_id : melodi_node_id) (c : melodi_wire_common) : melodi_node_id * (Z * Z) :=
  (node_id, (c.(identity_generation), c.(counter))).

Definition frame_claim (frame : bytes) : result (melodi_node_id * (Z * Z)) :=
  common ← melodi_wire_decode_common frame;
  let class := common.(frame_class) in
  if class =? MELODI_WIRE_HELLO then
    h ← hello_checked crypto_ed25519_check frame false; Ok (common_claim h.(hello_node_id) h.(hello_common))
  else if class =? MELODI_WIRE_CONFLICT then
    h ← hello_checked crypto_ed25519_check frame true; Ok (common_claim h.(hello_node_id) h.(hello_common))
  else if class =? MELODI_WIRE_CHALLENGE then
    a ← auth_checked crypto_ed25519_check frame MELODI_WIRE_CHALLENGE; Ok (common_claim a.(auth_source_node_id) a.(auth_common))
  else if class =? MELODI_WIRE_RESPONSE then
    a ← auth_checked crypto_ed25519_check frame MELODI_WIRE_RESPONSE; Ok (common_claim a.(auth_source_node_id) a.(auth_common))
  else if class =? MELODI_WIRE_CONTROL then
    c ← control_checked crypto_ed25519_check frame; Ok (common_claim c.(control_node_id) c.(control_common))
  else Err EPROTO.

(** The bytes a frame carries as identity and signature, when it signs the first [signed]. *)
Definition frame_node (frame : bytes) : melodi_node_id := MkNodeId (load 40 33 frame).
Definition signed_by (frame : bytes) (signed : nat) : Prop :=
  melodi_identity_verify crypto_ed25519_check (frame_node frame) (load 0 signed frame) (load signed 64 frame) = Ok tt.

Lemma hello_fields frame class hello :
  melodi_wire_decode_claim frame class = Ok hello ->
  hello.(hello_node_id) = frame_node frame /\ hello.(hello_signature) = load 149 64 frame.
Proof.
  unfold melodi_wire_decode_claim. destruct (melodi_wire_decode_common frame); [|discriminate]. cbn [mbind result_bind].
  destruct (_ || _ || _ || _ || _); [discriminate|]. destruct (_ =? _); [|discriminate]. intros [= <-]. auto.
Qed.

Lemma hello_checked_signed frame conflict hello :
  hello_checked crypto_ed25519_check frame conflict = Ok hello -> hello.(hello_node_id) = frame_node frame /\ signed_by frame 149.
Proof.
  unfold hello_checked. intros Hc. apply bind_Ok in Hc as (h & Hd & Hc). destruct (_ || _); [discriminate|].
  apply bind_Ok in Hc as ([] & Hv & [= <-]).
  assert (h.(hello_node_id) = frame_node frame /\ h.(hello_signature) = load 149 64 frame) as [E1 E2]
    by (destruct conflict; exact (hello_fields _ _ _ Hd)).
  rewrite E1, E2 in Hv. split; [exact E1|exact Hv].
Qed.

Lemma auth_checked_signed frame class auth :
  auth_checked crypto_ed25519_check frame class = Ok auth -> auth.(auth_source_node_id) = frame_node frame /\ signed_by frame 238.
Proof.
  intros Hc. apply auth_checked_decoded in Hc as (Hd & _ & Hv).
  assert (auth.(auth_source_node_id) = frame_node frame /\ auth.(auth_signature) = load 238 64 frame) as [E1 E2].
  { revert Hd. clear Hv. unfold melodi_wire_decode_auth. destruct (melodi_wire_decode_common frame); [|discriminate]. cbn [mbind result_bind].
    destruct (_ || _ || _ || _ || _ || _); [discriminate|]. destruct (_ || _); [discriminate|]. intros [= <-]. auto. }
  rewrite E1, E2 in Hv. split; [exact E1|exact Hv].
Qed.

Lemma control_checked_signed frame control :
  control_checked crypto_ed25519_check frame = Ok control -> control.(control_node_id) = frame_node frame /\ signed_by frame 145.
Proof.
  unfold control_checked. intros Hc. apply bind_Ok in Hc as (h & Hd & Hc). destruct (negb _); [discriminate|].
  apply bind_Ok in Hc as ([] & Hv & [= <-]).
  assert (h.(control_node_id) = frame_node frame /\ h.(control_signature) = load 145 64 frame) as [E1 E2].
  { revert Hd. clear Hv. unfold melodi_wire_decode_control. destruct (melodi_wire_decode_common frame); [|discriminate]. cbn [mbind result_bind].
    destruct (_ || _ || _ || _ || _ || _ || _ || _); [discriminate|]. destruct (_ || _); [discriminate|]. intros [= <-]. auto. }
  rewrite E1, E2 in Hv. split; [exact E1|exact Hv].
Qed.

(** A claim names the node of the frame, and the frame is signed by it. *)
Lemma frame_claim_signed frame node_id gc :
  frame_claim frame = Ok (node_id, gc) ->
  node_id = frame_node frame /\ (signed_by frame 149 \/ signed_by frame 238 \/ signed_by frame 145).
Proof.
  unfold frame_claim. destruct (melodi_wire_decode_common frame) as [common|]; [|discriminate]. cbn [mbind result_bind]. cbv zeta.
  repeat match goal with |- context [if frame_class common =? ?k then _ else _] => destruct (frame_class common =? k) end; intros Hc;
    try discriminate; apply bind_Ok in Hc as (x & Hx & [= <- <-]).
  - apply hello_checked_signed in Hx. tauto.
  - apply hello_checked_signed in Hx. tauto.
  - apply auth_checked_signed in Hx. tauto.
  - apply auth_checked_signed in Hx. tauto.
  - apply control_checked_signed in Hx. tauto.
Qed.

(** A frame without a claim is refused and changes nothing. *)
Lemma no_claim_refused e g n frame meta error :
  frame_claim frame = Err error ->
  let r := melodi_discovery_receive msecs_to_jiffies crypto_ed25519_check e g n frame meta in
  (r.1 = n \/ r.1 = g.(dg_settle) n) /\ exists error', r.2 = Err error'.
Proof.
  unfold frame_claim, melodi_discovery_receive. destruct (melodi_wire_decode_common frame) as [common|]; cbn [mbind result_bind]; [|eauto].
  cbv zeta.
  repeat match goal with |- context [if frame_class common =? ?k then _ else _] => destruct (frame_class common =? k) end; intros Hc; [..|eauto].
  - unfold melodi_receive_hello. destruct (hello_checked _ _ _); [discriminate Hc|eauto].
  - unfold melodi_receive_hello. destruct (hello_checked _ _ _); [discriminate Hc|eauto].
  - unfold melodi_receive_challenge. destruct (auth_checked _ _ _); [discriminate Hc|eauto].
  - unfold melodi_receive_response. destruct (auth_checked _ _ _); [discriminate Hc|eauto].
  - unfold melodi_receive_control. destruct (control_checked _ _); [discriminate Hc|eauto].
Qed.

(** A claim that is known already is refused, and changes nothing either. *)
Lemma known_refused e g n frame meta node_id gc :
  frame_claim frame = Ok (node_id, gc) -> known node_id gc n -> table_ok n ->
  let r := melodi_discovery_receive msecs_to_jiffies crypto_ed25519_check e g n frame meta in
  r.1 = g.(dg_settle) n /\ exists error, r.2 = Err error.
Proof.
  intros Hc Hk Hok. cbv zeta.
  assert (forall stack native link round rl gc', gc' = gc ->
    exists error, melodi_claim_locked stack n node_id native link round gc'.1 gc'.2 rl = (n, Err error)) as Href.
  { intros stack native link round rl gc' ->. apply (claim_refused _ _ _ gc); auto. now destruct gc. }
  assert (forall stack a meta', a.(auth_source_node_id) = node_id ->
    (a.(auth_common).(identity_generation), a.(auth_common).(counter)) = gc ->
    exists error, melodi_auth_validate stack n a meta' = (n, Err error)) as Hval.
  { intros stack a meta' E1 E2. unfold melodi_auth_validate. destruct (_ || _ || _ || _); [eauto|]. destruct (_ ≫= _); [|eauto].
    destruct (negb _); [eauto|]. rewrite E1. exact (Href _ _ _ _ _ _ E2). }
  revert Hc. unfold frame_claim, melodi_discovery_receive. destruct (melodi_wire_decode_common frame) as [common|]; [|discriminate].
  cbn [mbind result_bind]. cbv zeta.
  repeat match goal with |- context [if frame_class common =? ?k then _ else _] => destruct (frame_class common =? k) end;
    intros Hc; try discriminate; apply bind_Ok in Hc as (x & Hx & Hgc); unfold common_claim in Hgc; apply Ok_inj, pair_equal_spec in Hgc as [E1 E2];
    cbn [fst snd].
  - unfold melodi_receive_hello. rewrite Hx. unfold hello_locked. destruct (negb _); [eauto|]. rewrite E1.
    destruct (Href (de_stack e) (source_native_locator (hello_common x)) (rm_source_locator meta) (hello_collision_round x) true _ E2) as [error E].
    cbn [fst snd] in E. rewrite E. eauto.
  - unfold melodi_receive_hello. rewrite Hx. unfold hello_locked. destruct (negb _); [eauto|]. rewrite E1.
    destruct (Href (de_stack e) (source_native_locator (hello_common x)) (rm_source_locator meta) (hello_collision_round x) true _ E2) as [error E].
    cbn [fst snd] in E. rewrite E. eauto.
  - unfold melodi_receive_challenge. rewrite Hx. destruct (ephemeral_exchange _ _) as [[public shared]|]; [|eauto].
    unfold challenge_section. destruct (Hval (de_stack e) x meta E1 E2) as [error ->]. eauto.
  - unfold melodi_receive_response. rewrite Hx. unfold response_section. destruct (_ ≫= _); [|eauto]. destruct (negb _); [eauto|].
    destruct (Hval (de_stack e) x meta E1 E2) as [error ->]. eauto.
  - unfold melodi_receive_control. rewrite Hx. unfold control_locked. destruct (negb _); [eauto|]. rewrite E1.
    destruct (Href (de_stack e) (source_native_locator (control_common x)) (rm_source_locator meta) (control_collision_round x) true _ E2) as [error E].
    cbn [fst snd] in E. rewrite E. eauto.
Qed.

(** *** A frame that is accepted leaves its claim *)

Definition common_gc (c : melodi_wire_common) : Z * Z := (c.(identity_generation), c.(counter)).

Lemma made_known n i p node_id native link round generation counter :
  (ndev n).(d_peers) !! i = Some p -> claim_made node_id native link round generation counter p ->
  known node_id (generation, counter) n.
Proof. intros Hp (E1 & _ & _ & _ & E5 & E6 & E7). exists i, p. rewrite E5, E6. conj_split; auto. reflexivity. Qed.

Section Known.
  Context (e : discovery_env) (Hs : length e.(de_stack) = 64%nat).

Lemma hello_locked_known n hello meta n' seen :
  u32 hello.(hello_collision_round) -> table_ok n -> hello_locked msecs_to_jiffies e n hello meta = (n', Ok seen) ->
  known hello.(hello_node_id) (common_gc hello.(hello_common)) n'.
Proof.
  intros Hr Hok. unfold hello_locked. destruct (negb _); [discriminate|].
  destruct (melodi_claim_locked _ _ _ _ _ _ _ _ _) as [n1 [c|error]] eqn:Hc; [|discriminate].
  destruct (claim_locked_entry _ _ _ _ _ _ _ _ _ _ _ Hs Hr Hok Hc) as (p & Hp & Hmade). rewrite Hp.
  apply (made_known _ _ _ _ _ _ _ _ _ Hp) in Hmade.
  set (p' := melodi_peer_observe_locked _ _ _). cbv zeta. intros [= <- _].
  apply (known_kept _ _ _ _ (schedule_kept _ _)).
  set (n2 := with_dev (with_peer (cl_index c) p' (ndev n1)) n1).
  assert (known hello.(hello_node_id) (common_gc hello.(hello_common)) n2) as H2.
  { refine (known_kept _ _ _ _ (store_peer_kept n1 (ndev n1) _ p _ _ _ Hp _ _) Hmade); auto. }
  destruct (p_session_ready p); [|exact H2]. exact (known_kept _ _ _ _ (session_reset_kept n2 (cl_index c)) H2).
Qed.

Lemma control_locked_known n control meta n' changed :
  u32 control.(control_collision_round) -> table_ok n -> control_locked msecs_to_jiffies e n control meta = (n', Ok changed) ->
  known control.(control_node_id) (common_gc control.(control_common)) n'.
Proof.
  intros Hr Hok. unfold control_locked. destruct (negb _); [discriminate|].
  destruct (melodi_claim_locked _ _ _ _ _ _ _ _ _) as [n1 [c|error]] eqn:Hc; [|discriminate].
  destruct (claim_locked_entry _ _ _ _ _ _ _ _ _ _ _ Hs Hr Hok Hc) as (p & Hp & Hmade). rewrite Hp.
  apply (made_known _ _ _ _ _ _ _ _ _ Hp) in Hmade. cbv zeta. intros [= <- _].
  apply (known_kept _ _ _ _ (schedule_kept _ _)). destruct (_ || _);
    (refine (known_kept _ _ _ _ (store_peer_kept n1 (ndev n1) _ p _ _ _ Hp _ _) Hmade); auto).
Qed.

Lemma challenge_section_known n auth public shared meta n' response :
  u32 auth.(auth_collision_round) -> table_ok n -> challenge_section e n auth public shared meta = (n', Ok response) ->
  known auth.(auth_source_node_id) (common_gc auth.(auth_common)) n'.
Proof.
  intros Hr Hok. unfold challenge_section. destruct (melodi_auth_validate _ _ _ _) as [n1 [c|error]] eqn:Hc; [|discriminate].
  destruct (auth_validate_entry e Hs n auth meta n1 c Hr Hok Hc) as (p & Hp & Hmade). rewrite Hp.
  assert (p.(p_authenticated) = true) as Ap by apply Hmade. apply (made_known _ _ _ _ _ _ _ _ _ Hp) in Hmade.
  set (p1 := melodi_peer_observe_locked _ _ _). set (n2 := with_dev (with_peer (cl_index c) p1 (ndev n1)) n1).
  assert (known auth.(auth_source_node_id) (common_gc auth.(auth_common)) n2) as H2.
  { refine (known_kept _ _ _ _ (store_peer_kept n1 (ndev n1) _ p _ _ _ Hp _ _) Hmade); auto. }
  destruct (announced_challenge _ _) as [announced|]; [|discriminate].
  assert ((ndev n2).(d_peers) !! cl_index c = Some p1) as Hp2 by (apply list_lookup_insert_eq; now apply lookup_lt_Some in Hp).
  set (melodi := set_d_receive _ _). set (p2 := session_begins _ _ _). set (n3 := with_dev (with_peer (cl_index c) p2 melodi) n2).
  assert (known auth.(auth_source_node_id) (common_gc auth.(auth_common)) n3) as H3.
  { refine (known_kept _ _ _ _ (store_peer_kept n2 melodi _ p1 _ _ _ Hp2 _ _) H2); try reflexivity. intros _. now apply idle_ready. }
  cbv zeta. pose proof (known_kept _ _ _ _ (counter_kept n3) H3) as H4.
  destruct (melodi_counter_next_locked (ndev n3)) as [? [?|?]]; [|discriminate]. intros [= <- _]. exact H4.
Qed.

Lemma response_section_known n auth meta n' u :
  u32 auth.(auth_collision_round) -> table_ok n -> response_section e n auth meta = (n', Ok u) ->
  known auth.(auth_source_node_id) (common_gc auth.(auth_common)) n'.
Proof.
  intros Hr Hok. unfold response_section. destruct (_ ≫= _) as [p0|]; [|discriminate]. destruct (negb _); [discriminate|].
  destruct (melodi_auth_validate _ _ _ _) as [n1 [c|error]] eqn:Hc; [|discriminate].
  destruct (auth_validate_entry e Hs n auth meta n1 c Hr Hok Hc) as (p & Hp & Hmade). rewrite Hp.
  assert (p.(p_authenticated) = true) as Ap by apply Hmade. apply (made_known _ _ _ _ _ _ _ _ _ Hp) in Hmade.
  set (p1 := melodi_peer_observe_locked _ _ _). set (n2 := with_dev (with_peer (cl_index c) p1 (ndev n1)) n1).
  assert (known auth.(auth_source_node_id) (common_gc auth.(auth_common)) n2) as H2.
  { refine (known_kept _ _ _ _ (store_peer_kept n1 (ndev n1) _ p _ _ _ Hp _ _) Hmade); auto. }
  destruct (curve25519 _ _) as [shared|]; [|discriminate].
  assert ((ndev n2).(d_peers) !! cl_index c = Some p1) as Hp2 by (apply list_lookup_insert_eq; now apply lookup_lt_Some in Hp).
  set (melodi := set_d_receive _ _). intros [= <-].
  refine (known_kept _ _ _ _ (store_peer_kept n2 melodi _ p1 _ _ _ Hp2 _ _) H2); try reflexivity. intros _. now apply idle_ready.
Qed.
End Known.
End Frames.

(** The table is well-formed and a claim is known. *)
Definition holding (node_id : melodi_node_id) (gc : Z * Z) (n : node) : Prop := table_ok n /\ known node_id gc n.

Lemma holding_kept node_id gc n n' : table_kept n n' -> holding node_id gc n -> holding node_id gc n'.
Proof. intros Hk [H1 H2]. split; [exact (table_ok_kept _ _ Hk H1)|exact (known_kept _ _ _ _ Hk H2)]. Qed.

Lemma holding_claim node_id gc stack n node_id' native link round generation counter rl :
  length stack = 64%nat -> u32 round -> holding node_id gc n ->
  holding node_id gc (melodi_claim_locked stack n node_id' native link round generation counter rl).1.
Proof. intros Hs Hr [H1 H2]. split; [now apply claim_locked_ok|now apply known_claim]. Qed.

Section Accepted.
  Context {Sg : Signer} {C : Curve} {H : KeyedHash} (msecs_to_jiffies : Z -> Z)
    (crypto_ed25519_check : bytes -> bytes -> bytes -> bool).
  Context (e : discovery_env) (g : discovery_gaps) (node_id : melodi_node_id) (gc : Z * Z).
  Context (Hs : length e.(de_stack) = 64%nat) (Hk : gaps_ok (holding node_id gc) g).

Lemma hold n : table_ok n -> known node_id gc n -> holding node_id gc n.
Proof. now split. Qed.

Lemma receive_hello_known n frame conflict meta hello n' :
  Forall u8 frame -> table_ok n -> hello_checked crypto_ed25519_check frame conflict = Ok hello ->
  common_claim hello.(hello_node_id) hello.(hello_common) = (node_id, gc) ->
  melodi_receive_hello msecs_to_jiffies crypto_ed25519_check e g n frame conflict meta = (n', Ok tt) -> holding node_id gc n'.
Proof.
  intros Hf Hok Hc [= E1 E2]. unfold melodi_receive_hello. rewrite Hc.
  apply hello_checked_round in Hc; [|exact Hf].
  pose proof (hello_locked_ok msecs_to_jiffies e table_ok table_ok_kept (fun n id nl ll r ge ct rl => claim_locked_ok _ n id nl ll r ge ct rl Hs) n hello meta Hc Hok) as H1.
  destruct (hello_locked _ _ _ _ _) as [n1 [seen|]] eqn:Hl; [|discriminate].
  pose proof (hello_locked_known msecs_to_jiffies e Hs n hello meta n1 seen Hc Hok Hl) as H2.
  unfold common_gc in H2. rewrite E1, E2 in H2. apply (hold n1 H1) in H2. clear H1.
  set (n2 := if hs_stale seen then _ else _).
  assert (holding node_id gc n2) as H3 by (unfold n2; destruct (hs_stale seen); [now apply (go_settle _ g Hk)|exact H2]).
  clearbody n2. intros Hr.
  assert (holding node_id gc (fst (n', Ok tt : result unit))) as H4; [|exact H4]. rewrite <- Hr. clear Hr.
  destruct (hs_changed seen); [now apply (go_configure _ g Hk)|]. destruct (hs_conflicted seen).
  { destruct (_ && _ && _); [|exact H3]. apply announce_ok with (P := holding node_id gc); [exact Hk|exact (holding_kept node_id gc)|exact H3]. }
  destruct (_ || _); [exact H3|]. destruct (hs_responder seen); [apply send_challenge_ok with (P := holding node_id gc); [exact Hk|exact (holding_kept node_id gc)|exact H3]|].
  exact (holding_kept _ _ _ _ (announce_schedule_kept _ _ _ _) H3).
Qed.

Lemma receive_challenge_known n frame meta auth n' :
  Forall u8 frame -> table_ok n -> auth_checked crypto_ed25519_check frame MELODI_WIRE_CHALLENGE = Ok auth ->
  common_claim auth.(auth_source_node_id) auth.(auth_common) = (node_id, gc) ->
  melodi_receive_challenge crypto_ed25519_check e g n frame meta = (n', Ok tt) -> holding node_id gc n'.
Proof.
  intros Hf Hok Hc [= E1 E2]. unfold melodi_receive_challenge. rewrite Hc.
  apply auth_checked_decoded in Hc as [Hc _]. apply auth_round in Hc; [|exact Hf].
  destruct (ephemeral_exchange _ _) as [[public shared]|]; [|discriminate].
  pose proof (challenge_section_ok e table_ok Hs (fun _ h => h) table_ok_kept (fun n id nl ll r ge ct rl => claim_locked_ok _ n id nl ll r ge ct rl Hs)
    n auth public shared meta Hc Hok) as H1.
  destruct (challenge_section _ _ _ _ _ _) as [n1 [response|]] eqn:Hl; [|discriminate].
  pose proof (challenge_section_known e Hs n auth public shared meta n1 response Hc Hok Hl) as H2.
  unfold common_gc in H2. rewrite E1, E2 in H2. apply (hold n1 H1) in H2. clear H1. intros Hr.
  assert (holding node_id gc (fst (n', Ok tt : result unit))) as H4; [|exact H4]. rewrite <- Hr.
  apply send_auth_ok with (P := holding node_id gc); [exact Hk|exact (holding_kept node_id gc)|]. now apply (go_built _ g Hk).
Qed.

Lemma receive_response_known n frame meta auth n' :
  Forall u8 frame -> table_ok n -> auth_checked crypto_ed25519_check frame MELODI_WIRE_RESPONSE = Ok auth ->
  common_claim auth.(auth_source_node_id) auth.(auth_common) = (node_id, gc) ->
  melodi_receive_response crypto_ed25519_check e n frame meta = (n', Ok tt) -> holding node_id gc n'.
Proof.
  intros Hf Hok Hc [= E1 E2]. unfold melodi_receive_response. rewrite Hc.
  apply auth_checked_decoded in Hc as [Hc _]. apply auth_round in Hc; [|exact Hf]. intros Hr.
  pose proof (response_section_known e Hs n auth meta n' tt Hc Hok Hr) as H2. unfold common_gc in H2. rewrite E1, E2 in H2.
  pose proof (response_section_ok e table_ok Hs (fun _ h => h) table_ok_kept (fun n id nl ll r ge ct rl => claim_locked_ok _ n id nl ll r ge ct rl Hs)
    n auth meta Hc Hok) as H1. rewrite Hr in H1. exact (hold n' H1 H2).
Qed.

Lemma receive_control_known n frame meta control n' :
  Forall u8 frame -> table_ok n -> control_checked crypto_ed25519_check frame = Ok control ->
  common_claim control.(control_node_id) control.(control_common) = (node_id, gc) ->
  melodi_receive_control msecs_to_jiffies crypto_ed25519_check e g n frame meta = (n', Ok tt) -> holding node_id gc n'.
Proof.
  intros Hf Hok Hc [= E1 E2]. unfold melodi_receive_control. rewrite Hc. apply control_checked_round in Hc; [|exact Hf].
  pose proof (control_locked_ok msecs_to_jiffies e table_ok table_ok_kept (fun n id nl ll r ge ct rl => claim_locked_ok _ n id nl ll r ge ct rl Hs) n control meta Hc Hok) as H1.
  destruct (control_locked _ _ _ _ _) as [n1 [changed|]] eqn:Hl; [|discriminate].
  pose proof (control_locked_known msecs_to_jiffies e Hs n control meta n1 changed Hc Hok Hl) as H2.
  unfold common_gc in H2. rewrite E1, E2 in H2. apply (hold n1 H1) in H2. clear H1. intros Hr.
  assert (holding node_id gc (fst (n', Ok tt : result unit))) as H4; [|exact H4]. rewrite <- Hr.
  destruct changed; [now apply (go_configure _ g Hk)|]. destruct (_ && _); [|exact H2].
  apply announce_ok with (P := holding node_id gc); [exact Hk|exact (holding_kept node_id gc)|exact H2].
Qed.

Lemma receive_known n frame meta n' :
  Forall u8 frame -> table_ok n -> frame_claim crypto_ed25519_check frame = Ok (node_id, gc) ->
  melodi_discovery_receive msecs_to_jiffies crypto_ed25519_check e g n frame meta = (n', Ok tt) -> holding node_id gc n'.
Proof.
  intros Hf Hok. unfold frame_claim, melodi_discovery_receive. destruct (melodi_wire_decode_common frame) as [common|]; [|discriminate].
  cbn [mbind result_bind]. cbv zeta.
  repeat match goal with |- context [if frame_class common =? ?k then _ else _] => destruct (frame_class common =? k) end;
    intros Hc Hr; try discriminate; apply bind_Ok in Hc as (x & Hx & Hgc%Ok_inj); apply pair_equal_spec in Hr as [<- Hr]; apply (go_settle _ g Hk).
  - destruct (melodi_receive_hello _ _ _ _ _ _ _ _) as [m r] eqn:E. cbn [snd fst] in *. subst r.
    exact (receive_hello_known _ _ _ _ _ _ Hf Hok Hx Hgc E).
  - destruct (melodi_receive_hello _ _ _ _ _ _ _ _) as [m r] eqn:E. cbn [snd fst] in *. subst r.
    exact (receive_hello_known _ _ _ _ _ _ Hf Hok Hx Hgc E).
  - destruct (melodi_receive_challenge _ _ _ _ _ _) as [m r] eqn:E. cbn [snd fst] in *. subst r.
    exact ((receive_challenge_known _ _ _ _ _ Hf Hok Hx Hgc E)).
  - destruct (melodi_receive_response _ _ _ _ _) as [m r] eqn:E. cbn [snd fst] in *. subst r.
    exact (receive_response_known _ _ _ _ _ Hf Hok Hx Hgc E).
  - destruct (melodi_receive_control _ _ _ _ _ _ _) as [m r] eqn:E. cbn [snd fst] in *. subst r.
    exact ((receive_control_known _ _ _ _ _ Hf Hok Hx Hgc E)).
Qed.
End Accepted.

(** ** Properties *)

(** Only signed frames count.  A discovery frame changes the state of a node, or is
    answered with success, only if the bytes that precede its signature are signed by
    the node it names; any other frame is refused, and nothing happens but the settling
    that follows every frame of a known class. *)
Theorem discovery_signed {Sg : Signer} {C : Curve} {H : KeyedHash} msecs_to_jiffies check e g n frame meta :
  let r := melodi_discovery_receive msecs_to_jiffies check e g n frame meta in
  (signed_by check frame 149 \/ signed_by check frame 238 \/ signed_by check frame 145) \/
  ((r.1 = n \/ r.1 = g.(dg_settle) n) /\ exists error, r.2 = Err error).
Proof.
  cbv zeta. destruct (frame_claim check frame) as [[node_id gc]|error] eqn:E.
  - left. exact (proj2 (frame_claim_signed check frame node_id gc E)).
  - right. exact (no_claim_refused msecs_to_jiffies check e g n frame meta error E).
Qed.

(** Nothing in a run is an expiry. *)
Definition no_expiry (ev : discovery_event) : Prop := match ev with ExpiryRuns _ _ => False | _ => True end.

(** C5: a frame is accepted once.  Once a hello, conflict, challenge, response or control
    frame has been accepted, the same frame is refused, and nothing happens but the
    settling that follows every frame, after any run of received frames, announcements
    and probes, in whose gaps the others leave the node in the table with a claim that is
    at least as new.  A node that is forgotten is another matter: it expires, a detach or
    a change of the namespace or of the own identity clears the table, and the frame is
    accepted again ([accepted_again]). *)
Theorem frame_accepted_once {Sg : Signer} {C : Curve} {H : KeyedHash} msecs_to_jiffies check e g n frame meta n1 node_id gc events m e' g' meta' :
  table_ok n -> Forall u8 frame -> length e.(de_stack) = 64%nat -> gaps_ok (holding node_id gc) g ->
  frame_claim check frame = Ok (node_id, gc) ->
  melodi_discovery_receive msecs_to_jiffies check e g n frame meta = (n1, Ok tt) ->
  reaches msecs_to_jiffies check (holding node_id gc) n1 events m -> Forall no_expiry events ->
  let r := melodi_discovery_receive msecs_to_jiffies check e' g' m frame meta' in
  r.1 = g'.(dg_settle) m /\ exists error, r.2 = Err error.
Proof.
  intros Hok Hf Hs Hk Hc Hr Hrun Hno.
  pose proof (receive_known _ _ _ _ _ _ Hs Hk _ _ _ _ Hf Hok Hc Hr) as H1.
  assert (holding node_id gc m) as [H2 H3].
  { clear Hr. induction Hrun as [|l m ev Hrun IH Hev]; [exact H1|]. apply Forall_app in Hno as [Hno1 Hno2]. apply Forall_inv in Hno2.
    apply step_keeps; [intros ? [? _]; assumption|exact (holding_kept node_id gc)|intros; now apply holding_claim| |exact Hev|now apply IH].
    intros jiffies g0 ->. destruct Hno2. }
  exact (known_refused msecs_to_jiffies check e' g' m frame meta' node_id gc Hc H3 H2).
Qed.

(** The announcement of the second node, heard twice by the first, which announces
    itself in between. *)
Lemma frame_accepted_once_witness :
  (hear_as 0x1a 30 302 hello_b 11 10 node_a).2 = Ok tt /\
  (hear_as 0x1a 80 302 hello_b 11 10 a_announced).1 = a_announced /\
  exists error, (hear_as 0x1a 80 302 hello_b 11 10 a_announced).2 = Err error.
Proof.
  split; [vm_compute; reflexivity|].
  assert (a_announced = @discovery_step (toy_signer 0x1a) toy_curve toy_hash sample_jiffies toy_check a_knows_b
    (AnnounceAsked (sample_around 213 40) sample_alone)) as -> by (vm_compute; reflexivity).
  assert (Forall u8 hello_b) as Hb by by_decide.
  refine (@frame_accepted_once (toy_signer 0x1a) toy_curve toy_hash sample_jiffies toy_check (sample_around 302 30) sample_alone
    node_a hello_b (sample_from 11 10) a_knows_b (Mapping.sample_node 0x1b) (1, 1)
    [AnnounceAsked (sample_around 213 40) sample_alone] _ (sample_around 302 80) sample_alone (sample_from 11 10)
    node_a_ok Hb eq_refl (alone_ok _) _ _ _ _).
  - vm_compute. reflexivity.
  - apply injective_projections; vm_compute; reflexivity.
  - apply (@reaches_snoc (toy_signer 0x1a) toy_curve toy_hash sample_jiffies toy_check _ a_knows_b [] a_knows_b);
      [apply reaches_nil|apply around_alone].
  - repeat constructor.
Defined.

(** The same announcement is accepted again once the table has been cleared, as it is in a
    detach, a change of the namespace and a change of the own identity, or once its node
    has expired. *)
Definition a_cleared : node := Eval vm_compute in
  MkNode (set_dev (melodi_discovery_reset_locked a_knows_b.(n_core).(c_dev)) a_knows_b.(n_core)) a_knows_b.(n_disc).

Lemma accepted_again :
  (hear_as 0x1a 80 302 hello_b 11 10 a_cleared).2 = Ok tt /\
  (hear_as 0x1a 400000 302 hello_b 11 10 (expiry_locked 302000 a_knows_b)).2 = Ok tt.
Proof. split; vm_compute; reflexivity. Qed.
