(* ===== verification/Handshake.v ===== *)
(** * The handshake of two nodes

    The challenge of one node and the response of the other, taken together: both end
    with the same two keys, each other's way round.  And what becomes of the keys when
    the response carries a newer identity generation than the announcement did. *)
From stdpp Require Import gmap.
From S2P Require Import Prelude Buffer Uapi Wire Replay Blake2s Mapping Slots Device Fragments Peers Reassembly Delivery Identity Queue Send Receive Kept Discovery Nodes Claims.

(** ** Frames of the handshake *)

(** What a signature of a device is: 64 bytes. *)
Class SignerLaws (S : Signer) : Prop := {
  signature_bytes message signature : @melodi_identity_sign S message = Ok signature -> wf_bytes 64 signature;
}.

Lemma store_over off (a b buf : bytes) : length a = length b -> store off b (store off a buf) = store off b buf.
Proof.
  intros Hl. unfold store. apply list_eq. intros i.
  destruct (decide (i < off)%nat) as [|Hi]; [now rewrite !list_lookup_inserts_lt by lia|].
  destruct (decide (i < off + length b)%nat) as [|Hi']; [|now rewrite !list_lookup_inserts_ge by lia].
  destruct (decide (i < length buf)%nat).
  - rewrite !list_lookup_inserts; try lia; [reflexivity|rewrite length_inserts; lia].
  - rewrite !lookup_ge_None_2; [reflexivity|rewrite length_inserts; lia|rewrite !length_inserts; lia].
Qed.

Section Frames.
  Context {Sg : Signer} {L : SignerLaws Sg}.

Lemma auth_frame_decode stack auth frame :
  length stack = 302%nat -> wf_auth auth -> auth_frame stack auth = Ok frame ->
  exists signature, melodi_wire_decode_auth frame = Ok (sent_auth (set_auth_signature signature auth)).
Proof.
  intros Hs Hw Hf. unfold auth_frame in Hf. apply bind_Ok in Hf as (f0 & He & Hf). apply bind_Ok in Hf as (sg & Hsg & [= <-]).
  apply signature_bytes in Hsg. exists sg. apply (auth_encode_decode stack).
  - unfold wf_auth in *. cbn [auth_common auth_source_node_id auth_destination_node_id auth_ephemeral_key auth_challenge auth_reply_to
      auth_mesh_domain auth_collision_round auth_signature set_auth_signature]. tauto.
  - exact Hs.
  - unfold melodi_wire_encode_auth in *. cbn [auth_common auth_source_node_id auth_destination_node_id auth_ephemeral_key auth_challenge auth_reply_to
      auth_mesh_domain auth_collision_round auth_signature set_auth_signature] in *.
    destruct (_ || _ || _ || _ || _ || _); [discriminate|]. apply Ok_inj in He. rewrite <- He.
    rewrite store_over; [reflexivity|].
    rewrite length_replicate. symmetry. apply Hsg.
Qed.
End Frames.

(** ** What each section leaves *)

(** The keys of a session, by the role of the two nodes: the initiator has announced
    itself, the responder has challenged it. *)
Definition session_keys {H : KeyedHash} (shared domain : bytes) (initiator responder : melodi_node_id)
    (iloc rloc iround rround igen rgen : Z) (ieph reph inonce rnonce : bytes) : bytes * bytes :=
  let key := melodi_session_key shared domain initiator responder iloc rloc iround rround igen rgen ieph reph inonce rnonce in
  (key 0, key 1).

(** A session that has just begun. *)
Definition session_new (p : melodi_peer) : Prop :=
  p.(p_authenticated) = true /\ p.(p_session_ready) = true /\ p.(p_receive_replay) = melodi_replay_reset.

Section Sections.
  Context {Sg : Signer} {C : Curve} {H : KeyedHash} (crypto_ed25519_check : bytes -> bytes -> bytes -> bool).

Lemma challenge_locked_Ok e n hello n1 auth :
  challenge_locked e n hello = (n1, Ok auth) ->
  exists i p public counter, melodi_peer_slot (ndev n) hello.(hello_node_id) = Some i /\ (ndev n).(d_peers) !! i = Some p /\
    p.(p_authenticated) = true /\ curve25519_generate_public p.(p_ephemeral_public) e.(de_secret) = (public, true) /\
    (ndev n1).(d_peers) !! i = Some (challenged e.(de_secret) public e.(de_challenge) hello.(hello_challenge) p) /\
    auth = {|
      auth_common := auth_common_of MELODI_WIRE_CHALLENGE (nlink n).(l_local_native_locator) p.(p_native_locator)
                       (nlink n).(l_identity_generation) e.(de_message_id) counter;
      auth_source_node_id := (nlink n).(l_node_id); auth_destination_node_id := p.(p_node_id);
      auth_ephemeral_key := public; auth_challenge := e.(de_challenge); auth_reply_to := hello.(hello_challenge);
      auth_mesh_domain := n.(n_disc).(m_mesh_domain); auth_collision_round := (nlink n).(l_local_collision_round);
      auth_signature := replicate 64 0 |}.
Proof.
  unfold challenge_locked. destruct (_ ≫= _) as [[i p]|] eqn:Hslot; [|discriminate]. apply slot_bind in Hslot as [Hslot Hp].
  destruct (p_authenticated p) eqn:Ap; cbn [negb orb]; [|discriminate]. destruct (_ || _); [discriminate|].
  destruct (curve25519_generate_public _ _) as [public []] eqn:Hg; cbn [negb]; [|discriminate].
  unfold melodi_counter_next_locked. destruct (_ =? _); [discriminate|]. intros [= <- <-].
  exists i, p, public. eexists. conj_split; auto. cbn. apply list_lookup_insert_eq. now apply lookup_lt_Some in Hp.
Qed.

Lemma auth_validate_Ok stack n auth meta n1 c :
  length stack = 64%nat -> u32 auth.(auth_collision_round) -> table_ok n ->
  melodi_auth_validate stack n auth meta = (n1, Ok c) ->
  auth.(auth_mesh_domain) = n.(n_disc).(m_mesh_domain) /\ auth.(auth_destination_node_id) = (nlink n).(l_node_id) /\
  auth.(auth_common).(destination_native_locator) = (nlink n).(l_local_native_locator) /\
  n1.(n_disc) = n.(n_disc) /\ nlink n1 = nlink n /\
  exists p, melodi_peer_slot (ndev n) auth.(auth_source_node_id) = Some c.(cl_index) /\ (ndev n).(d_peers) !! c.(cl_index) = Some p /\
    let native := auth.(auth_common).(source_native_locator) in let link := meta.(rm_source_locator) in
    let generation := auth.(auth_common).(identity_generation) in
    (ndev n1).(d_peers) !! c.(cl_index) = Some (set_p_conflicted false
      (claimed auth.(auth_source_node_id) native link auth.(auth_collision_round) generation auth.(auth_common).(counter)
         (claim_base p native link auth.(auth_collision_round) generation))).
Proof.
  intros Hs Hr Hok. unfold melodi_auth_validate. destruct (_ || _ || _ || _) eqn:Hg; [discriminate|].
  destruct (_ ≫= _) as [known|]; [|discriminate].
  destruct (negb (p_link_locator known =? _)); [discriminate|]. intros Hc.
  destruct (claim_locked_Ok _ _ _ _ _ _ _ _ _ _ _ Hs Hr Hok Hc) as (p & f & H1 & H2 & _ & _ & _ & H6 & H7 & H8).
  destruct (H8 eq_refl) as [Hch ->]. rewrite Hch in H6. destruct (H7 Hch) as [Hd Hl].
  apply orb_false_iff in Hg as [Hg _]. apply orb_false_iff in Hg as [Hg ?]. apply orb_false_iff in Hg as [? ?].
  rewrite negb_false_iff in *. unfold node_eqb in *. rewrite !bool_decide_eq_true, ?Z.eqb_eq in *.
  conj_split; auto. exists p. auto.
Qed.

(** The initiator: the challenge replies to one of its announcements, and the keys are
    those of what it sends back. *)
Lemma challenge_section_Ok e n auth public shared meta n1 response :
  length e.(de_stack) = 64%nat -> u32 auth.(auth_collision_round) -> table_ok n ->
  challenge_section e n auth public shared meta = (n1, Ok response) ->
  exists i p counter, (ndev n1).(d_peers) !! i = Some p /\ session_new p /\ p.(p_node_id) = auth.(auth_source_node_id) /\
    auth.(auth_mesh_domain) = n.(n_disc).(m_mesh_domain) /\ auth.(auth_destination_node_id) = (nlink n).(l_node_id) /\
    (auth.(auth_reply_to) = n.(n_disc).(m_last_hello_challenge) \/ auth.(auth_reply_to) = n.(n_disc).(m_previous_hello_challenge)) /\
    (p.(p_transmit_key), p.(p_receive_key)) =
      session_keys shared n.(n_disc).(m_mesh_domain) (nlink n).(l_node_id) auth.(auth_source_node_id)
        (nlink n).(l_local_native_locator) auth.(auth_common).(source_native_locator)
        (nlink n).(l_local_collision_round) auth.(auth_collision_round)
        (nlink n).(l_identity_generation) auth.(auth_common).(identity_generation)
        public auth.(auth_ephemeral_key) auth.(auth_reply_to) auth.(auth_challenge) /\
    response = {|
      auth_common := auth_common_of MELODI_WIRE_RESPONSE (nlink n).(l_local_native_locator)
                       auth.(auth_common).(source_native_locator) (nlink n).(l_identity_generation)
                       auth.(auth_common).(Wire.message_id) counter;
      auth_source_node_id := (nlink n).(l_node_id); auth_destination_node_id := auth.(auth_source_node_id);
      auth_ephemeral_key := public; auth_challenge := auth.(auth_reply_to); auth_reply_to := auth.(auth_challenge);
      auth_mesh_domain := n.(n_disc).(m_mesh_domain); auth_collision_round := (nlink n).(l_local_collision_round);
      auth_signature := replicate 64 0 |}.
Proof.
  intros Hs Hr Hok. unfold challenge_section. destruct (melodi_auth_validate _ _ _ _) as [na [c|]] eqn:Hv; [|discriminate].
  destruct (auth_validate_Ok _ _ _ _ _ _ Hs Hr Hok Hv) as (Hd & Hn & _ & Ed & El & p0 & _ & _ & Hp). cbv zeta in Hp. rewrite Hp.
  cbn [n_core n_disc with_dev set_dev c_dev with_peer d_link d_receive set_d_peers]. rewrite Ed, El.
  assert (forall announced, announced_challenge n.(n_disc) auth.(auth_reply_to) = Some announced -> announced = auth.(auth_reply_to) /\
    (auth.(auth_reply_to) = n.(n_disc).(m_last_hello_challenge) \/ auth.(auth_reply_to) = n.(n_disc).(m_previous_hello_challenge))) as Han.
  { unfold announced_challenge. intros a. repeat case_bool_decide; intros [= <-]; auto. }
  destruct (announced_challenge _ _) as [announced|]; [|discriminate]. destruct (Han announced eq_refl) as [-> Hreply].
  unfold melodi_counter_next_locked. destruct (_ =? _); [discriminate|]. intros [= <- <-].
  exists (cl_index c). do 2 eexists. split.
  { cbn. apply list_lookup_insert_eq. rewrite length_insert. now apply lookup_lt_Some in Hp. }
  split; [|split; [|split; [exact Hd|split; [exact Hn|split; [exact Hreply|split; reflexivity]]]]].
  - repeat split.
  - reflexivity.
Qed.

(** The responder: the keys are those of what it has kept of its challenge. *)
Lemma response_section_Ok e n auth meta n1 :
  length e.(de_stack) = 64%nat -> u32 auth.(auth_collision_round) -> table_ok n ->
  response_section e n auth meta = (n1, Ok tt) ->
  exists i p q shared,
    melodi_peer_slot (ndev n) auth.(auth_source_node_id) = Some i /\ (ndev n).(d_peers) !! i = Some p /\ answers auth p = true /\
    (ndev n1).(d_peers) !! i = Some q /\ session_new q /\ q.(p_node_id) = auth.(auth_source_node_id) /\
    q.(p_handshake_pending) = false /\ q.(p_ephemeral_private) = replicate 32 0 /\
    auth.(auth_mesh_domain) = n.(n_disc).(m_mesh_domain) /\ auth.(auth_destination_node_id) = (nlink n).(l_node_id) /\
    let base := claim_base p auth.(auth_common).(source_native_locator) meta.(rm_source_locator) auth.(auth_collision_round)
                  auth.(auth_common).(identity_generation) in
    curve25519 base.(p_ephemeral_private) auth.(auth_ephemeral_key) = Some shared /\
    (q.(p_receive_key), q.(p_transmit_key)) =
      session_keys shared n.(n_disc).(m_mesh_domain) auth.(auth_source_node_id) (nlink n).(l_node_id)
        auth.(auth_common).(source_native_locator) (nlink n).(l_local_native_locator)
        auth.(auth_collision_round) (nlink n).(l_local_collision_round)
        auth.(auth_common).(identity_generation) (nlink n).(l_identity_generation)
        auth.(auth_ephemeral_key) base.(p_ephemeral_public) base.(p_remote_hello_challenge) base.(p_local_challenge).
Proof.
  intros Hs Hr Hok. unfold response_section.
  destruct (melodi_peer_slot (ndev n) (auth_source_node_id auth)) as [i|] eqn:Hslot; [|discriminate]. cbn [mbind option_bind].
  destruct ((ndev n).(d_peers) !! i) as [p|] eqn:Hp0; [|discriminate]. destruct (answers auth p) eqn:Hans; cbn [negb]; [|discriminate].
  destruct (melodi_auth_validate _ _ _ _) as [na [c|]] eqn:Hv; [|discriminate].
  destruct (auth_validate_Ok _ _ _ _ _ _ Hs Hr Hok Hv) as (Hd & Hn & _ & Ed & El & p0 & Hslot' & Hp' & Hp). cbv zeta in Hp.
  rewrite Hslot in Hslot'. injection Hslot' as Hi. rewrite <- Hi in *. rewrite Hp0 in Hp'. injection Hp' as <-. rewrite Hp.
  cbn [n_core n_disc with_dev set_dev c_dev with_peer d_link d_receive set_d_peers]. rewrite Ed, El.
  match goal with |- context [curve25519 ?a ?b] => destruct (curve25519 a b) as [shared|] eqn:Hcv end; [|discriminate].
  intros [= <-]. exists i, p. do 2 eexists. split; [reflexivity|]. split; [exact Hp0|]. split; [exact Hans|]. split.
  { cbn. apply list_lookup_insert_eq. rewrite length_insert. now apply lookup_lt_Some in Hp. }
  split; [repeat split|]. do 3 (split; [reflexivity|]). split; [exact Hd|]. split; [exact Hn|]. split; [exact Hcv|reflexivity].
Qed.
End Sections.

(** ** The two sides *)

(** The node is the one the challenge speaks for. *)
Definition speaks_for (n : node) (challenge : melodi_wire_auth) : Prop :=
  (nlink n).(l_node_id) = challenge.(auth_source_node_id) /\
  (nlink n).(l_local_native_locator) = challenge.(auth_common).(source_native_locator) /\
  (nlink n).(l_local_collision_round) = challenge.(auth_collision_round) /\
  (nlink n).(l_identity_generation) = challenge.(auth_common).(identity_generation) /\
  n.(n_disc).(m_mesh_domain) = challenge.(auth_mesh_domain).

(** The entry of the challenged peer still has the ephemeral key of the challenge. *)
Definition awaiting (n : node) (secret public : bytes) (peer : melodi_node_id) (P : melodi_peer -> Prop) : Prop :=
  exists i p, melodi_peer_slot (ndev n) peer = Some i /\ (ndev n).(d_peers) !! i = Some p /\
    p.(p_ephemeral_private) = secret /\ p.(p_ephemeral_public) = public /\ P p.

Lemma claim_base_kept p native link round generation : claim_resets p native link round generation = false ->
  claim_base p native link round generation = p.
Proof.
  intros Hr. unfold claim_base. rewrite Hr. unfold claim_resets in Hr. destruct (p_authenticated p); [reflexivity|discriminate].
Qed.

Lemma claim_base_reset p native link round generation :
  p.(p_authenticated) = true -> generation <> p.(p_generation) -> claim_base p native link round generation = session_ended p.
Proof.
  intros Ap Hg. unfold claim_base, claim_resets. rewrite Ap. cbn [negb orb]. destruct (Z.eqb_spec generation (p_generation p)); [contradiction|reflexivity].
Qed.

Lemma answers_fields auth p : answers auth p = true -> auth.(auth_challenge) = p.(p_remote_hello_challenge) /\ auth.(auth_reply_to) = p.(p_local_challenge).
Proof. unfold answers. rewrite !andb_true_iff, !bool_decide_eq_true. tauto. Qed.

(** What anybody who has seen challenge and response can compute when the private key
    is the one a reset leaves. *)
Definition eavesdropped {C : Curve} {H : KeyedHash} (challenge response : melodi_wire_auth) : option (bytes * bytes) :=
  shared ← curve25519 (replicate 32 0) response.(auth_ephemeral_key);
  Some (session_keys shared response.(auth_mesh_domain) response.(auth_source_node_id) challenge.(auth_source_node_id)
    response.(auth_common).(source_native_locator) challenge.(auth_common).(source_native_locator)
    response.(auth_collision_round) challenge.(auth_collision_round)
    response.(auth_common).(identity_generation) challenge.(auth_common).(identity_generation)
    response.(auth_ephemeral_key) challenge.(auth_ephemeral_key) response.(auth_challenge) response.(auth_reply_to)).

(** C40: a newer generation exposes the keys.  When the peer of a response reports another identity generation than it
    had announced, accepting the claim ends the session of the peer, which wipes the
    ephemeral private key, but the handshake goes on with the wiped key: the session is
    ready, and both its keys are a function of the two frames on the air. *)
Theorem newer_generation_exposes_keys {C : Curve} {H : KeyedHash} check e n frame meta n1 challenge response secret :
  table_ok n -> length e.(de_stack) = 64%nat -> u32 response.(auth_collision_round) ->
  auth_checked check frame MELODI_WIRE_RESPONSE = Ok response -> speaks_for n challenge ->
  awaiting n secret challenge.(auth_ephemeral_key) response.(auth_source_node_id)
    (fun p => p.(p_authenticated) = true /\ p.(p_generation) <> response.(auth_common).(identity_generation)) ->
  melodi_receive_response check e n frame meta = (n1, Ok tt) ->
  exists i q, (ndev n1).(d_peers) !! i = Some q /\ q.(p_node_id) = response.(auth_source_node_id) /\ session_new q /\
    eavesdropped challenge response = Some (q.(p_receive_key), q.(p_transmit_key)).
Proof.
  intros Hok Hs Hr Hc (S1 & S2 & S3 & S4 & S5) (i & p & Hslot & Hp & _ & Hpub & Ap & Hg) Hrecv.
  unfold melodi_receive_response in Hrecv. rewrite Hc in Hrecv.
  destruct (response_section_Ok e n response meta n1 Hs Hr Hok Hrecv)
    as (i' & p' & q & shared & Hslot' & Hp' & Hans & Hq & Hnew & Hnode & _ & _ & Hd & Hn & Hcv & Hkeys).
  rewrite Hslot in Hslot'. injection Hslot' as <-. rewrite Hp in Hp'. injection Hp' as <-.
  cbv zeta in Hcv, Hkeys. rewrite claim_base_reset in Hcv, Hkeys by auto. apply answers_fields in Hans as [A1 A2].
  change (p_ephemeral_private (session_ended p)) with (replicate 32 0) in Hcv.
  change (p_ephemeral_public (session_ended p)) with (p_ephemeral_public p) in Hkeys.
  change (p_remote_hello_challenge (session_ended p)) with (p_remote_hello_challenge p) in Hkeys.
  change (p_local_challenge (session_ended p)) with (p_local_challenge p) in Hkeys. exists i, q. conj_split; auto. unfold eavesdropped. rewrite Hcv. cbn [mbind option_bind]. f_equal. symmetry.
  now rewrite Hkeys, Hpub, <- A1, <- A2, S1, S2, S3, S4, <- Hd.
Qed.

(** C3: both ends of a handshake hold the same keys.  One node challenges another that
    has announced itself, the other accepts the challenge and responds, and the first
    accepts the response, each frame as it was sent: then each holds a session with the
    other that is ready, with a fresh replay window, in which the key either sends with
    is the key the other receives with; the challenger has wiped its ephemeral key.  The
    conditions: when the response arrives the challenger has the identity, generation and
    locator it challenged with and still holds the ephemeral key of its challenge, and
    the response claims for its sender the generation, locators and round that the
    challenger's table has ([claim_resets] is false).  A response that claims a newer
    generation is accepted with other keys: [newer_generation_exposes_keys]. *)
Theorem handshake_keys_agree {C : Curve} {CL : CurveLaws C} {H : KeyedHash} {SA SB : Signer} {LA : SignerLaws SA} {LB : SignerLaws SB} check
    eB nB hello nB1 challenge stackB frameB eA nA got public shared metaA nA1 response stackA frameA eB' nB2 metaB nB3 :
  table_ok nA -> table_ok nB2 -> length eA.(de_stack) = 64%nat -> length eB'.(de_stack) = 64%nat ->
  challenge_locked eB nB hello = (nB1, Ok challenge) ->
  wf_auth challenge -> length stackB = 302%nat -> @auth_frame SB stackB challenge = Ok frameB ->
  auth_checked check frameB MELODI_WIRE_CHALLENGE = Ok got ->
  ephemeral_exchange eA got.(auth_ephemeral_key) = Some (public, shared) ->
  challenge_section eA nA got public shared metaA = (nA1, Ok response) ->
  wf_auth response -> length stackA = 302%nat -> @auth_frame SA stackA response = Ok frameA ->
  speaks_for nB2 challenge ->
  awaiting nB2 eB.(de_secret) challenge.(auth_ephemeral_key) response.(auth_source_node_id) (fun p =>
    claim_resets p response.(auth_common).(source_native_locator) metaB.(rm_source_locator) response.(auth_collision_round)
      response.(auth_common).(identity_generation) = false) ->
  melodi_receive_response check eB' nB2 frameA metaB = (nB3, Ok tt) ->
  exists (i j : nat) pA pB,
    (ndev nA1).(d_peers) !! i = Some pA /\ pA.(p_node_id) = (nlink nB).(l_node_id) /\ session_new pA /\
    (ndev nB3).(d_peers) !! j = Some pB /\ pB.(p_node_id) = (nlink nA).(l_node_id) /\ session_new pB /\
    pA.(p_transmit_key) = pB.(p_receive_key) /\ pA.(p_receive_key) = pB.(p_transmit_key) /\
    pB.(p_handshake_pending) = false /\ pB.(p_ephemeral_private) = replicate 32 0.
Proof.
  intros OA OB SlA SlB Hch Wc LsB FB CB Hex Hsec Wr LsA FA (S1 & S2 & S3 & S4 & S5) (j & p & Hslot & Hp & Hpriv & Hpub & Hkeep) Hrecv.
  destruct (challenge_locked_Ok _ _ _ _ _ Hch) as (i0 & p0 & public0 & counter0 & _ & _ & _ & Hgen & _ & Ech).
  destruct (auth_frame_decode (L := LB) stackB challenge frameB LsB Wc FB) as (sB & DB).
  apply auth_checked_decoded in CB as (DB' & _ & _). rewrite DB in DB'. injection DB' as <-.
  assert (u32 challenge.(auth_collision_round)) as Rc by apply Wc. assert (u32 response.(auth_collision_round)) as Rr by apply Wr.
  destruct (challenge_section_Ok eA nA _ public shared metaA nA1 response SlA Rc OA Hsec)
    as (i & pA & counterA & HpA & NewA & NodeA & DomA & _ & _ & KeysA & Eres).
  destruct (auth_frame_decode (L := LA) stackA response frameA LsA Wr FA) as (sA & DA).
  unfold melodi_receive_response in Hrecv. destruct (auth_checked check frameA MELODI_WIRE_RESPONSE) as [got'|] eqn:CA; [|discriminate].
  apply auth_checked_decoded in CA as (DA' & _ & _). rewrite DA in DA'. injection DA' as <-.
  destruct (response_section_Ok eB' nB2 _ metaB nB3 SlB Rr OB Hrecv)
    as (j' & p' & pB & sharedB & Hslot' & Hp' & Hans & HpB & NewB & NodeB & Pend & Priv & DomB & _ & Hcv & KeysB).
  cbn [sent_auth set_auth_signature auth_source_node_id auth_common] in Hslot', Hp'.
  rewrite Hslot in Hslot'. injection Hslot' as <-. rewrite Hp in Hp'. injection Hp' as <-.
  apply answers_fields in Hans as [A1 A2].
  cbn [sent_auth set_auth_signature auth_source_node_id auth_destination_node_id auth_ephemeral_key auth_challenge auth_reply_to
    auth_mesh_domain auth_collision_round auth_common set_common source_native_locator destination_native_locator identity_generation]
    in Hex, NodeA, DomA, KeysA, NodeB, DomB, Hcv, KeysB, A1, A2, Eres.
  cbv zeta in Hcv, KeysB. rewrite claim_base_kept in Hcv, KeysB by exact Hkeep. rewrite Hpriv in Hcv.
  (* the shared secret *)
  unfold ephemeral_exchange in Hex. destruct (curve25519_generate_public (de_public eA) (de_secret eA)) as [pub []] eqn:GA; [|discriminate].
  destruct (curve25519 (de_secret eA) (auth_ephemeral_key challenge)) as [sh|] eqn:SA'; [|discriminate].
  cbn in Hex. injection Hex as -> ->.
  assert (auth_ephemeral_key challenge = public0) as Ep by (rewrite Ech; reflexivity).
  assert (auth_ephemeral_key response = public) as Er by (rewrite Eres; reflexivity).
  rewrite Ep in SA'. rewrite Er in Hcv.
  assert (sharedB = shared) as ->.
  { pose proof (curve_agrees _ _ _ _ _ _ GA Hgen) as Hag. rewrite SA', Hcv in Hag. congruence. }
  exists i, j, pA, pB.
  assert ((pA.(p_transmit_key), pA.(p_receive_key)) = (pB.(p_receive_key), pB.(p_transmit_key))) as Hk.
  { rewrite KeysA, KeysB, Hpub, <- A1, <- A2, S1, S2, S3, S4, S5, DomA, Er, Ep.
    rewrite Eres. cbn [auth_source_node_id auth_common auth_common_of source_native_locator identity_generation auth_collision_round
      auth_challenge auth_reply_to]. reflexivity. }
  apply pair_equal_spec in Hk as [K1 K2]. conj_split; auto.
  - rewrite NodeA, Ech. reflexivity.
  - rewrite NodeB, Eres. reflexivity.
Qed.

(** ** The exchange of Nodes.v *)

#[local] Existing Instances toy_curve toy_curve_laws toy_hash.

Lemma toy_sign_bytes mark message : u8 mark -> wf_bytes 64 (toy_sign mark message).
Proof.
  intros Hm. unfold toy_sign. set (s := fold_left _ _ _). assert (u8 s) as Hs.
  { unfold s. clear. assert (u8 3) as H3 by width_lia. revert H3. generalize 3. induction message as [|b l IH]; cbn; intros h Hh; [exact Hh|].
    apply IH. pose proof (Z.mod_pos_bound (h * 7 + b) 251 ltac:(lia)). width_lia. }
  clearbody s. split.
  - rewrite length_app, !length_replicate. reflexivity.
  - apply Forall_app. split; now apply Forall_replicate.
Qed.

Lemma toy_signer_laws mark : u8 mark -> SignerLaws (toy_signer mark).
Proof. intros Hm. constructor. intros message signature [= <-]. now apply toy_sign_bytes. Qed.

Definition empty_auth : melodi_wire_auth := {|
  auth_common := auth_common_of 0 0 0 0 0 0; auth_source_node_id := MkNodeId []; auth_destination_node_id := MkNodeId [];
  auth_ephemeral_key := []; auth_challenge := []; auth_reply_to := []; auth_mesh_domain := []; auth_collision_round := 0;
  auth_signature := [] |}.
Definition auth_of (r : node * result melodi_wire_auth) : melodi_wire_auth := match r.2 with Ok a => a | Err _ => empty_auth end.

(** The second node has heard the first and is about to challenge it. *)
Definition b_heard : node := Eval vm_compute in
  (hello_locked sample_jiffies (sample_around 302 50) b_announced sample_hello (sample_from 10 11)).1.
Definition sample_challenge : melodi_wire_auth := Eval vm_compute in
  auth_of (challenge_locked (sample_around 302 50) b_heard sample_hello).
Definition sample_got : melodi_wire_auth := Eval vm_compute in
  match auth_checked toy_check challenge_b MELODI_WIRE_CHALLENGE with Ok a => a | Err _ => empty_auth end.
Definition sample_exchange : bytes * bytes := Eval vm_compute in
  match ephemeral_exchange (sample_around 302 60) sample_got.(auth_ephemeral_key) with Some ps => ps | None => ([], []) end.
Definition sample_response : melodi_wire_auth := Eval vm_compute in
  auth_of (challenge_section (sample_around 302 60) a_announced sample_got sample_exchange.1 sample_exchange.2 (sample_from 11 10)).

Lemma handshake_keys_agree_witness :
  (first_peer a_responded).(p_transmit_key) = (first_peer b_done).(p_receive_key) /\
  (first_peer a_responded).(p_receive_key) = (first_peer b_done).(p_transmit_key) /\
  exists (i j : nat) pA pB nA1 nB3,
    (ndev nA1).(d_peers) !! i = Some pA /\ (ndev nB3).(d_peers) !! j = Some pB /\
    pA.(p_transmit_key) = pB.(p_receive_key) /\ pA.(p_receive_key) = pB.(p_transmit_key).
Proof.
  split; [vm_compute; reflexivity|]. split; [vm_compute; reflexivity|].
  destruct (challenge_section (sample_around 302 60) a_announced sample_got sample_exchange.1 sample_exchange.2 (sample_from 11 10)) as [nA1 rA] eqn:EA.
  destruct (melodi_receive_response toy_check (sample_around 302 70) b_challenged response_a (sample_from 10 11)) as [nB3 rB] eqn:EB.
  assert (rA = Ok sample_response) as -> by (apply (f_equal snd) in EA; cbn [snd] in EA; rewrite <- EA; vm_compute; reflexivity).
  assert (rB = Ok tt) as -> by (apply (f_equal snd) in EB; cbn [snd] in EB; rewrite <- EB; vm_compute; reflexivity).
  destruct (@handshake_keys_agree toy_curve toy_curve_laws toy_hash (toy_signer 0x1a) (toy_signer 0x1b)
    (toy_signer_laws 0x1a ltac:(by_decide)) (toy_signer_laws 0x1b ltac:(by_decide)) toy_check
    (sample_around 302 50) b_heard sample_hello
    (challenge_locked (sample_around 302 50) b_heard sample_hello).1 sample_challenge (replicate 302 0) challenge_b
    (sample_around 302 60) a_announced sample_got sample_exchange.1 sample_exchange.2 (sample_from 11 10) nA1 sample_response
    (replicate 302 0) response_a (sample_around 302 70) b_challenged (sample_from 10 11) nB3)
    as (i & j & pA & pB & H1 & _ & _ & H2 & _ & _ & H3 & H4 & _ & _).
  - exact a_announced_ok.
  - exact b_challenged_ok.
  - reflexivity.
  - reflexivity.
  - apply injective_projections; vm_compute; reflexivity.
  - by_decide.
  - reflexivity.
  - vm_compute. reflexivity.
  - vm_compute. reflexivity.
  - vm_compute. reflexivity.
  - exact EA.
  - by_decide.
  - reflexivity.
  - vm_compute. reflexivity.
  - repeat split; vm_compute; reflexivity.
  - exists 0%nat, (first_peer b_challenged). repeat split; vm_compute; reflexivity.
  - exact EB.
  - exists i, j, pA, pB, nA1, nB3. auto.
Defined.

(** The same response, of a node that has begun its second generation in between. *)
Definition newer_common : melodi_wire_common := Eval vm_compute in
  let c := sample_response.(auth_common) in
  auth_common_of MELODI_WIRE_RESPONSE c.(source_native_locator) c.(destination_native_locator) 2 c.(Wire.message_id) 1.
Definition newer_response : melodi_wire_auth := Eval vm_compute in {|
  auth_common := newer_common; auth_source_node_id := sample_response.(auth_source_node_id);
  auth_destination_node_id := sample_response.(auth_destination_node_id);
  auth_ephemeral_key := sample_response.(auth_ephemeral_key); auth_challenge := sample_response.(auth_challenge);
  auth_reply_to := sample_response.(auth_reply_to); auth_mesh_domain := sample_response.(auth_mesh_domain);
  auth_collision_round := sample_response.(auth_collision_round); auth_signature := replicate 64 0 |}.
Definition newer_frame : bytes := Eval vm_compute in
  match @auth_frame (toy_signer 0x1a) (replicate 302 0) newer_response with Ok f => f | Err _ => [] end.
Definition newer_got : melodi_wire_auth := Eval vm_compute in
  match auth_checked toy_check newer_frame MELODI_WIRE_RESPONSE with Ok a => a | Err _ => empty_auth end.

Lemma newer_generation_exposes_keys_witness :
  exists i q n1, (ndev n1).(d_peers) !! i = Some q /\ session_new q /\
    eavesdropped sample_challenge newer_got = Some (q.(p_receive_key), q.(p_transmit_key)).
Proof.
  destruct (melodi_receive_response toy_check (sample_around 302 70) b_challenged newer_frame (sample_from 10 11)) as [n1 r] eqn:E.
  assert (r = Ok tt) as -> by (apply (f_equal snd) in E; cbn [snd] in E; rewrite <- E; vm_compute; reflexivity).
  destruct (@newer_generation_exposes_keys toy_curve toy_hash toy_check (sample_around 302 70) b_challenged newer_frame
    (sample_from 10 11) n1 sample_challenge newer_got (replicate 32 50) b_challenged_ok) as (i & q & H1 & _ & H2 & H3).
  - reflexivity.
  - by_decide.
  - vm_compute. reflexivity.
  - repeat split; vm_compute; reflexivity.
  - exists 0%nat, (first_peer b_challenged). split; [|split; [|split; [|split; [|split]]]]; try (vm_compute; reflexivity).
    vm_compute. discriminate.
  - exact E.
  - exists i, q, n1. auto.
Defined.
