(* ===== verification/Outstanding.v ===== *)
(** * Outstanding messages (src/kernel/core/data.c)

    Messages that wait for their peer to be found, reliable messages that wait for
    their acknowledgement, and what ends the wait: a session, an acknowledgement, a
    retransmission too many, a change of state, a failure of the link.  As in Send, one
    function is one holding of the lock, and what everybody else does between two of
    them is an argument. *)
From S2P Require Import Prelude Buffer Uapi Wire Replay Reliability Slots Device Fragments Peers Reassembly Identity Policy Queue Send Receive Discovery.

(** ** Messages that wait for a peer *)

Definition melodi_discovery_target_find_locked (a : data_state) (destination : melodi_node_id) : option nat * option nat :=
  slot_search dt_active (fun t => node_eqb t.(dt_destination) destination) a.(a_discovery_targets) 0 None.

Definition melodi_discovery_destination_pending_locked (a : data_state) (destination : melodi_node_id) : bool :=
  existsb (fun p => p.(dp_active) && node_eqb p.(dp_destination) destination) a.(a_discovery_pending).

Definition melodi_discovery_target_release_locked (destination : melodi_node_id) (a : data_state) : data_state :=
  if melodi_discovery_destination_pending_locked a destination then a else
  match (melodi_discovery_target_find_locked a destination).1 with
  | Some i => set_a_discovery_targets (<[i := zero_discovery_target]> a.(a_discovery_targets)) a
  | None => a
  end.

Definition melodi_discovery_pending_clear_locked (index : nat) (a : data_state) : data_state :=
  match a.(a_discovery_pending) !! index with
  | None => a
  | Some p =>
      if negb p.(dp_active) then a else
      let a := set_a_discovery_bytes (if p.(dp_length) <=? a.(a_discovery_bytes) then a.(a_discovery_bytes) - p.(dp_length) else 0) a in
      let a := if a.(a_discovery_count) =? 0 then a else set_a_discovery_count (a.(a_discovery_count) - 1) a in
      let a := set_a_discovery_pending (<[index := zero_discovery_pending]> a.(a_discovery_pending)) a in
      melodi_discovery_target_release_locked p.(dp_destination) a
  end.

Definition melodi_discovery_schedule_locked (delay : Z) (a : data_state) : data_state :=
  if a.(a_discovery_count) =? 0 then a else set_a_discovery_work (Some delay) a.

(** How many messages wait for a destination. *)
Definition destination_count (a : data_state) (destination : melodi_node_id) : Z :=
  zlen (List.filter (fun p => p.(dp_active) && node_eqb p.(dp_destination) destination) a.(a_discovery_pending)).

(** The message that is filed. *)
Definition waiting_message (m : send_args) (destination : melodi_node_id) (expires_ms : Z) : melodi_discovery_pending :=
  MkDiscovery destination m.(sa_payload) m.(sa_cookie) expires_ms m.(sa_binding_generation) m.(sa_binding_portid)
    m.(sa_flags) (zlen m.(sa_payload)) m.(sa_source_service) m.(sa_destination_service) m.(sa_priority) false true.

(** The section of [melodi_discovery_pending_admit] that files the message: its index,
    and whether its destination has to be probed for. *)
Definition discovery_admit_locked (link : link_state) (now_ms : Z) (m : send_args) (destination : melodi_node_id)
    (a : data_state) : data_state * result (nat * bool) :=
  let length := zlen m.(sa_payload) in
  let '(found, empty_target) := melodi_discovery_target_find_locked a destination in
  let target := found ≫= fun i => a.(a_discovery_targets) !! i in
  if negb link.(l_identity_ready) then (a, Err ENOKEY) else
  if negb link.(l_transport_ready) then (a, Err ENETDOWN) else
  if (match target with Some t => t.(dt_expires_ms) <=? now_ms | None => false end) then (a, Err EHOSTUNREACH) else
  match find_index (fun p => negb p.(dp_active)) a.(a_discovery_pending) with
  | None => (a, Err ENOBUFS)
  | Some index =>
      if (Z.of_nat MELODI_DISCOVERY_PENDING_LIMIT <=? a.(a_discovery_count)) ||
         (MELODI_DISCOVERY_PER_NODE_LIMIT <=? destination_count a destination) ||
         (wrap 32 (MELODI_DISCOVERY_BYTE_LIMIT - a.(a_discovery_bytes)) <? length) then (a, Err ENOBUFS) else
      let file target_expires_ms a :=
        let expires_ms := Z.min (wrap 64 (now_ms + m.(sa_ttl_ms))) target_expires_ms in
        let a := set_a_discovery_pending (<[index := waiting_message m destination expires_ms]> a.(a_discovery_pending)) a in
        let a := set_a_discovery_bytes (wrap 32 (a.(a_discovery_bytes) + length)) a in
        set_a_discovery_count (wrap 16 (a.(a_discovery_count) + 1)) a in
      match target with
      | Some t => (file t.(dt_expires_ms) a, Ok (index, false))
      | None =>
          match empty_target with
          | None => (a, Err ENOSPC)
          | Some i =>
              let t := MkTarget destination (wrap 64 (now_ms + Z.min m.(sa_ttl_ms) MELODI_DISCOVERY_TIMEOUT_MS)) true in
              (file t.(dt_expires_ms) (set_a_discovery_targets (<[i := t]> a.(a_discovery_targets)) a), Ok (index, true))
          end
      end
  end.

Definition melodi_discovery_retryable (error : errno) : bool :=
  match error with EHOSTUNREACH | EAGAIN | ENOBUFS | ENOSPC | ENOMEM => true | _ => false end.

Abbreviation data s := (s.(c_dev).(d_data)).
Definition set_data (a : data_state) (s : core) : core := set_dev (set_d_data a s.(c_dev)) s.

(** [melodi_netlink_delivery_error] for a message that waited. *)
Definition waiting_error (p : melodi_discovery_pending) (error : errno) : event :=
  DeliveryError p.(dp_binding_portid) p.(dp_binding_generation) p.(dp_source_service) p.(dp_cookie) error.
Definition pending_error (p : melodi_pending_message) (error : errno) : event :=
  DeliveryError p.(pm_binding_portid) p.(pm_binding_generation) p.(pm_source_service) p.(pm_cookie) error.

Definition peer_ready (melodi : melodi_device) (destination : melodi_node_id) : bool :=
  match melodi_peer_by_node melodi destination ≫= fun i => melodi.(d_peers) !! i with
  | Some peer => peer.(p_session_ready) && negb peer.(p_conflicted)
  | None => false
  end.

(** ** Reliable messages *)

Definition melodi_pending_valid_locked (now_ms : Z) (melodi : melodi_device) (pending : melodi_pending_message) : result unit :=
  let link := melodi.(d_link) in
  if pending.(pm_expires_ms) <=? now_ms then Err ETIMEDOUT else
  if negb link.(l_transport_ready) || negb (link.(l_identity_generation) =? pending.(pm_reliability).(Reliability.generation)) ||
     negb (link.(l_local_native_locator) =? pending.(pm_source_native_locator)) ||
     negb (link.(l_local_link_locator) =? pending.(pm_source_link_locator)) then Err ENETDOWN else
  match melodi_peer_by_node melodi pending.(pm_destination) ≫= fun i => melodi.(d_peers) !! i with
  | None => Err EHOSTUNREACH
  | Some peer =>
      if negb peer.(p_session_ready) || peer.(p_conflicted) then Err EHOSTUNREACH else
      if negb (peer.(p_native_locator) =? pending.(pm_destination_native_locator)) ||
         negb (peer.(p_link_locator) =? pending.(pm_destination_link_locator)) ||
         negb (peer.(p_generation) =? pending.(pm_destination_generation)) ||
         negb (peer.(p_session_epoch) =? pending.(pm_session_epoch)) then Err EKEYREVOKED else
      _ ← melodi_policy_check_locked melodi pending.(pm_destination);
      melodi_policy_check_service_locked melodi pending.(pm_destination_service) false
  end.

(** ** Changes of state *)

Definition with_pending (index : nat) (p : melodi_pending_message) (s : core) : core :=
  set_dev (set_d_pending (<[index := p]> s.(c_dev).(d_pending)) s.(c_dev)) s.

Definition error_of (r : result unit) : errno := match r with Err e => e | Ok _ => EINVAL end.

(** The policy on a message that waits for its peer. *)
Definition waiting_allowed (melodi : melodi_device) (p : melodi_discovery_pending) : result unit :=
  melodi_policy_check_message_locked melodi p.(dp_destination) p.(dp_destination_service) false.

(** One turn of the loop: whether it found a message that is not valid any more. *)
Definition data_changed_turn (now_ms : Z) (s : core) : core * bool :=
  match find_index (fun p => p.(pm_allocated) && negb (is_ok (melodi_pending_valid_locked now_ms s.(c_dev) p))) s.(c_dev).(d_pending)
          ≫= fun i => pair i <$> s.(c_dev).(d_pending) !! i with
  | Some (index, p) =>
      (emit (pending_error p (error_of (melodi_pending_valid_locked now_ms s.(c_dev) p))) (melodi_pending_clear s index), true)
  | None =>
      match find_index (fun p => p.(dp_active) && negb p.(dp_in_flight) && negb (is_ok (waiting_allowed s.(c_dev) p)))
                (data s).(a_discovery_pending) ≫= fun i => pair i <$> (data s).(a_discovery_pending) !! i with
      | Some (index, p) =>
          (emit (waiting_error p (error_of (waiting_allowed s.(c_dev) p)))
             (set_data (melodi_discovery_pending_clear_locked index (data s)) s), true)
      | None => (s, false)
      end
  end.

(** The loop, with the readings of the clock of its turns. *)
Fixpoint melodi_data_state_changed (nows : list Z) (s : core) : core * bool :=
  match nows with
  | [] => (s, true)
  | now_ms :: nows =>
      let '(s, changed) := data_changed_turn now_ms s in
      if changed then melodi_data_state_changed nows s else (s, false)
  end.

(** ** Failure and reset *)

(** The two loops of [melodi_data_fail_pending]; a source service of zero ends them. *)
Fixpoint fail_messages (fuel : nat) (error : errno) (s : core) : core :=
  match fuel with
  | O => s
  | S fuel =>
      match find_index pm_allocated s.(c_dev).(d_pending) ≫= fun i => pair i <$> s.(c_dev).(d_pending) !! i with
      | None => s
      | Some (index, p) =>
          let s := melodi_pending_clear s index in
          if p.(pm_source_service) =? 0 then s else fail_messages fuel error (emit (pending_error p error) s)
      end
  end.

Fixpoint fail_waiting (fuel : nat) (error : errno) (s : core) : core :=
  match fuel with
  | O => s
  | S fuel =>
      match find_index dp_active (data s).(a_discovery_pending) ≫= fun i => pair i <$> (data s).(a_discovery_pending) !! i with
      | None => s
      | Some (index, p) =>
          let s := set_data (melodi_discovery_pending_clear_locked index (data s)) s in
          if p.(dp_source_service) =? 0 then s else fail_waiting fuel error (emit (waiting_error p error) s)
      end
  end.

Definition melodi_data_fail_pending (error : errno) (s : core) : core :=
  let s := set_data (set_a_discovery_work None (set_a_reliability_work None (data s))) s in
  fail_waiting (S MELODI_DISCOVERY_PENDING_LIMIT) error (fail_messages (S MELODI_PENDING_LIMIT) error s).

(** The loop over the messages that wait, and what follows it. *)
Definition reset_waiting (a : data_state) : data_state :=
  let a := fold_left (fun a index => melodi_discovery_pending_clear_locked index a) (seq 0 MELODI_DISCOVERY_PENDING_LIMIT) a in
  let a := set_a_discovery_targets (replicate MELODI_DISCOVERY_TARGET_LIMIT zero_discovery_target) a in
  set_a_discovery_count 0 (set_a_discovery_bytes 0 a).

Definition melodi_data_reset_locked (s : core) : core :=
  let r := s.(c_dev).(d_receive) in
  let r := melodi_data_order_reset_locked (melodi_data_reassembly_reset_locked r) in
  let s := set_dev (set_d_receive r s.(c_dev)) s in
  let s := fold_left melodi_pending_clear (seq 0 MELODI_PENDING_LIMIT) s in
  set_data (reset_waiting (data s)) s.

Definition melodi_data_stop (s : core) : core :=
  let a := set_a_discovery_work None (set_a_reliability_work None (set_a_reassembly_work None (data s))) in
  melodi_data_reset_locked (set_data a s).

(** ** Work on the waiting messages *)

Section Clock.
  Context (msecs_to_jiffies : Z -> Z).

(** What the first section of [melodi_discovery_work] decides: nothing to do, a message
    too late, or the message at an index to send with what is left of its time. *)
Inductive discovery_choice :=
| ChooseNothing
| ChooseLate (p : melodi_discovery_pending)
| ChooseSend (index : nat) (ttl_ms : Z).

Definition discovery_pick (now_ms : Z) (melodi : melodi_device) : data_state * discovery_choice :=
  let a := melodi.(d_data) in
  let '(a, choice) :=
    match find_index (fun p => p.(dp_active) && negb p.(dp_in_flight) &&
                               ((p.(dp_expires_ms) <=? now_ms) || peer_ready melodi p.(dp_destination)))
            a.(a_discovery_pending) ≫= fun i => pair i <$> a.(a_discovery_pending) !! i with
    | None => (a, ChooseNothing)
    | Some (index, p) =>
        if p.(dp_expires_ms) <=? now_ms then (melodi_discovery_pending_clear_locked index a, ChooseLate p) else
        (set_a_discovery_pending (<[index := set_dp_in_flight true p]> a.(a_discovery_pending)) a,
         ChooseSend index (Z.min (p.(dp_expires_ms) - now_ms) U32_MAX))
    end in
  (melodi_discovery_schedule_locked (match choice with ChooseLate _ => 1 | _ => msecs_to_jiffies 100 end) a, choice).

(** The last section, with the result of the send: the message that failed for good. *)
Definition discovery_finish (now_ms : Z) (index : nat) (sent : result unit) (a : data_state)
    : data_state * option (melodi_discovery_pending * errno) :=
  let '(a, failed) :=
    match sent with
    | Ok _ => (melodi_discovery_pending_clear_locked index a, None)
    | Err error =>
        match a.(a_discovery_pending) !! index with
        | None => (a, None)
        | Some p =>
            if melodi_discovery_retryable error && (now_ms <? p.(dp_expires_ms))
            then (set_a_discovery_pending (<[index := set_dp_in_flight false p]> a.(a_discovery_pending)) a, None)
            else (melodi_discovery_pending_clear_locked index a, Some (p, error))
        end
    end in
  (melodi_discovery_schedule_locked (msecs_to_jiffies 100) a, failed).

(** The arguments of the send for a message that waited. *)
Definition waiting_args (p : melodi_discovery_pending) (ttl_ms : Z) : send_args :=
  MkSend (Some p.(dp_destination)) p.(dp_source_service) p.(dp_destination_service) p.(dp_payload) p.(dp_flags) p.(dp_cookie)
    ttl_ms p.(dp_binding_portid) p.(dp_binding_generation) p.(dp_priority) 0.

(** What everybody else does in the gaps of a send: before its first section, before it
    files a reliable message, before the queue; before the work reads the message that it
    chose; and the gaps of what may follow: before and behind the probe, or before the last
    section of the work. *)
Record waiting_gaps := MkWaitingGaps {
  wg_before : core -> core;
  wg_between : core -> core;
  wg_after : core -> core;
  wg_chosen : core -> core;
  wg_probe : node -> node;
  wg_last : node -> node;
}.

Section Sends.
  Context {A : Aead} {Sg : Signer} (crypto_eddsa_public_key_check : bytes -> Z).

(** The arguments of the send are read from the slot with the lock released, whatever it
    holds then; a slot that was cleared has no payload.  (That the payload of a slot that
    is cleared later, while the send goes on, has been freed is beyond the model.) *)
Definition melodi_discovery_work (w : waiting_gaps) (e : send_env) (now_ms later_ms : Z) (s : core) : core :=
  let '(a, choice) := discovery_pick now_ms s.(c_dev) in
  let s := set_data a s in
  match choice with
  | ChooseNothing => s
  | ChooseLate p => emit (waiting_error p EHOSTUNREACH) s
  | ChooseSend index ttl_ms =>
      let s := w.(wg_chosen) s in
      match (data s).(a_discovery_pending) !! index with
      | None => s
      | Some p =>
      let '(s, sent) := send_direct msecs_to_jiffies crypto_eddsa_public_key_check w.(wg_before) w.(wg_between) w.(wg_after) e s
                          (waiting_args p ttl_ms) in
      let '(a, failed) := discovery_finish later_ms index sent (data s) in
      let s := set_data a s in
      match failed with
      | Some (p, error) => emit (waiting_error p error) s
      | None => s
      end
      end
  end.

(** ** Messages without a session are filed *)

Definition with_core (s : core) (n : node) : node := MkNode s n.(n_disc).
Definition with_data (a : data_state) (n : node) : node := with_core (set_data a n.(n_core)) n.

Definition melodi_discovery_pending_admit (w : waiting_gaps) (de : discovery_env) (g : discovery_gaps) (copied : bool)
    (now_ms : Z) (n : node) (m : send_args) (destination : melodi_node_id) : node * result unit :=
  if has m.(sa_flags) MELODI_F_DONTWAIT then (n, Err EHOSTUNREACH) else
  if negb (zlen m.(sa_payload) =? 0) && negb copied then (n, Err ENOMEM) else
  match discovery_admit_locked (nlink n) now_ms m destination (ndev n).(d_data) with
  | (a, Err error) => (with_data a n, Err error)
  | (a, Ok (index, probe)) =>
      let n := w.(wg_probe) (with_data a n) in
      let '(n, probed) := if probe then melodi_discovery_probe de g n else (n, Ok tt) in
      let n := w.(wg_last) n in
      match probed with
      | Err error => (with_data (melodi_discovery_pending_clear_locked index (ndev n).(d_data)) n, Err error)
      | Ok _ => (with_data (melodi_discovery_schedule_locked (msecs_to_jiffies 100) (ndev n).(d_data)) n, Ok tt)
      end
  end.

(** [melodi_data_send_internal] as a whole; a message that finds no session is filed
    when the caller asks for it. *)
Definition melodi_data_send_internal (w : waiting_gaps) (e : send_env) (de : discovery_env) (g : discovery_gaps) (copied : bool)
    (now_ms : Z) (n : node) (m : send_args) (queue_discovery : bool) : node * result unit :=
  let '(s, sent) := send_direct msecs_to_jiffies crypto_eddsa_public_key_check w.(wg_before) w.(wg_between) w.(wg_after) e
                      n.(n_core) m in
  let n := with_core s n in
  match sent, m.(sa_destination) with
  | Err EHOSTUNREACH, Some destination =>
      if queue_discovery then melodi_discovery_pending_admit w de g copied now_ms n m destination else (n, Err EHOSTUNREACH)
  | _, _ => (n, sent)
  end.

Definition melodi_data_send_reserved (w : waiting_gaps) (e : send_env) (de : discovery_env) (g : discovery_gaps) (copied : bool)
    (now_ms : Z) (n : node) (m : send_args) : node * result unit :=
  melodi_data_send_internal w e de g copied now_ms n m true.

Definition without_reservation (m : send_args) : send_args :=
  MkSend m.(sa_destination) m.(sa_source_service) m.(sa_destination_service) m.(sa_payload) m.(sa_flags) m.(sa_cookie)
    m.(sa_ttl_ms) m.(sa_binding_portid) m.(sa_binding_generation) m.(sa_priority) 0.

Definition melodi_data_send (w : waiting_gaps) (e : send_env) (de : discovery_env) (g : discovery_gaps) (copied : bool)
    (now_ms : Z) (n : node) (m : send_args) : node * result unit :=
  melodi_data_send_internal w e de g copied now_ms n (without_reservation m) true.
End Sends.

(** ** Retransmission *)

(** The request of a retransmission; a clock past the end of the message wraps around. *)
Definition retry_request (now_ms : Z) (p : melodi_pending_message) : melodi_queue_request :=
  MkRequest p.(pm_destination) p.(pm_reliability).(Reliability.message_id) p.(pm_session_epoch)
    (Z.min (wrap 64 (p.(pm_expires_ms) - now_ms)) U32_MAX) p.(pm_binding_portid) p.(pm_reliability).(Reliability.generation)
    p.(pm_source_link_locator) p.(pm_binding_generation) p.(pm_source_service) p.(pm_destination_service) p.(pm_priority)
    false true false.

(** The missing fragments of a message that could be cloned. *)
Definition retry_frames (clone : Z -> bool) (missing : Z) (p : melodi_pending_message) : list bytes :=
  let indices := List.filter (fun i => has missing (bit (Z.of_nat i)) && clone (Z.of_nat i))
                   (seq 0 (Z.to_nat p.(pm_reliability).(Reliability.fragment_count))) in
  map (fun i => nth i p.(pm_fragments) []) indices.

Inductive retry_choice :=
| RetryNothing
| RetryFailed (p : melodi_pending_message) (error : errno)
| RetrySend (p : melodi_pending_message) (missing : Z).

(** The readings of the clock in one look over the messages: for the validity of the
    message at an index, for its poll, and for the time that a retransmission has. *)
Record look_clock := MkClock { ck_valid : nat -> Z; ck_poll : nat -> Z; ck_request : Z }.

(** A clock that stands still. *)
Definition stopped_at (now_ms : Z) : look_clock := MkClock (fun _ => now_ms) (fun _ => now_ms) now_ms.

(** The loop of [melodi_reliability_work] over the messages from [index] on. *)
Fixpoint retry_loop (busy : bool) (clock : look_clock) (indices : list nat) (s : core) : core * retry_choice :=
  match indices with
  | [] => (s, RetryNothing)
  | index :: indices =>
      match s.(c_dev).(d_pending) !! index with
      | None => retry_loop busy clock indices s
      | Some p =>
          if negb p.(pm_allocated) then retry_loop busy clock indices s else
          match melodi_pending_valid_locked (clock.(ck_valid) index) s.(c_dev) p with
          | Err error => (melodi_pending_clear s index, RetryFailed p error)
          | Ok _ =>
              let queued := busy || melodi_queue_message_queued s.(c_dev).(d_tx) p.(pm_destination)
                                      p.(pm_reliability).(Reliability.message_id) p.(pm_binding_portid)
                                      p.(pm_binding_generation) p.(pm_source_service) in
              let '(reliability, polled) := melodi_reliability_poll p.(pm_reliability) (clock.(ck_poll) index) queued in
              let s := with_pending index (set_pm_reliability reliability p) s in
              match polled with
              | Err ENOENT | Ok None => retry_loop busy clock indices s
              | Err error => (melodi_pending_clear s index, RetryFailed p error)
              | Ok (Some missing) => (s, RetrySend p missing)
              end
          end
      end
  end.

Definition retry_locked (busy : bool) (clock : look_clock) (s : core) : core * retry_choice :=
  let '(s, choice) := retry_loop busy clock (seq 0 MELODI_PENDING_LIMIT) s in
  (set_dev (melodi_reliability_schedule msecs_to_jiffies s.(c_dev)) s, choice).

Definition melodi_reliability_work (after : core -> core) (e : send_env) (clock : look_clock) (busy : bool) (s : core) : core :=
  let '(s, choice) := retry_locked busy clock s in
  match choice with
  | RetryNothing => s
  | RetryFailed p error => emit (pending_error p error) s
  | RetrySend p missing =>
      let frames := retry_frames e.(se_clone) missing p in
      if (length frames =? 0)%nat then s else
      (melodi_core_send_batch e.(se_namespace) e.(se_running) e.(se_carrier) e.(se_net) (after s) frames
         (MkTxMeta p.(pm_destination_link_locator) p.(pm_source_link_locator) p.(pm_cookie))
         (retry_request clock.(ck_request) p) e.(se_queue_ms)).1
  end.

(** ** Acknowledgements that arrive *)

Section Acks.
  Context {A : Aead}.

(** The first section: the key, the peer and its epoch. *)
Definition ack_lookup (melodi : melodi_device) (ack : melodi_wire_ack) (meta : melodi_rx_meta)
    : result (bytes * melodi_node_id * Z) :=
  let c := ack.(ack_common) in
  let link := melodi.(d_link) in
  match melodi_peer_by_native_locator melodi c.(source_native_locator) ≫= fun i => melodi.(d_peers) !! i with
  | None => Err EKEYREJECTED
  | Some peer =>
      if negb peer.(p_session_ready) || peer.(p_conflicted) ||
         negb (c.(destination_native_locator) =? link.(l_local_native_locator)) ||
         negb (meta.(rm_source_locator) =? peer.(p_link_locator)) ||
         negb (meta.(rm_destination_locator) =? link.(l_local_link_locator)) ||
         negb (c.(identity_generation) =? peer.(p_generation))
      then Err EKEYREJECTED else Ok (peer.(p_receive_key), peer.(p_node_id), peer.(p_session_epoch))
  end.

(** The message an acknowledgement names. *)
Definition acknowledges (ack : melodi_wire_ack) (session_epoch : Z) (peer : melodi_peer) (source : melodi_node_id)
    (p : melodi_pending_message) : bool :=
  p.(pm_allocated) && (p.(pm_reliability).(Reliability.message_id) =? ack.(ack_common).(Wire.message_id)) &&
  (p.(pm_reliability).(Reliability.generation) =? ack.(acknowledged_generation)) &&
  (p.(pm_reliability).(Reliability.fragment_count) =? ack.(ack_fragment_count)) &&
  (p.(pm_session_epoch) =? session_epoch) && (p.(pm_destination_generation) =? peer.(p_generation)) &&
  (p.(pm_destination_native_locator) =? peer.(p_native_locator)) && node_eqb p.(pm_destination) source.

(** The section on the message: what the call answers, and the error its binding is
    told. *)
Definition ack_settle (now_ms : Z) (index : nat) (p : melodi_pending_message) (ack : melodi_wire_ack) (s : core)
    : core * result unit * option errno :=
  if p.(pm_expires_ms) <=? now_ms then (melodi_pending_clear s index, Ok tt, Some ETIMEDOUT) else
  let '(reliability, acked) := melodi_reliability_ack p.(pm_reliability) ack.(ack_common).(Wire.message_id)
        ack.(acknowledged_generation) ack.(ack_fragment_count) ack.(ack_bitmap) (ack.(ack_status) =? MELODI_ACK_REJECTED) in
  let s := with_pending index (set_pm_reliability reliability p) s in
  match acked with
  | Ok true => (melodi_pending_clear s index, Ok tt, None)
  | Ok false => (s, Ok tt, None)
  | Err ECONNREFUSED => (melodi_pending_clear s index, Ok tt, Some ECONNREFUSED)
  | Err error => (s, Err error, None)
  end.

(** The second section, once the tag has been checked. *)
Definition ack_opened (now_ms now_ns : Z) (s : core) (ack : melodi_wire_ack) (source : melodi_node_id) (session_epoch : Z)
    (meta : melodi_rx_meta) : core * result unit :=
  let melodi := s.(c_dev) in
  let c := ack.(ack_common) in
  match melodi_peer_by_native_locator melodi c.(source_native_locator) ≫= fun i => pair i <$> melodi.(d_peers) !! i with
  | None => (s, Err EKEYREJECTED)
  | Some (slot, peer) =>
  if negb peer.(p_session_ready) || peer.(p_conflicted) || negb (node_eqb source peer.(p_node_id)) ||
     negb (meta.(rm_source_locator) =? peer.(p_link_locator)) ||
     negb (meta.(rm_destination_locator) =? melodi.(d_link).(l_local_link_locator)) ||
     negb (c.(identity_generation) =? peer.(p_generation)) || negb (session_epoch =? peer.(p_session_epoch))
  then (s, Err EKEYREJECTED) else
  match melodi_replay_mark peer.(p_receive_replay) c.(counter) with
  | Err error => (s, Err error)
  | Ok replay =>
      let peer := melodi_peer_observe_locked now_ns meta (set_p_receive_replay replay peer) in
      let s := set_dev (with_peer slot peer melodi) s in
      match find_index (acknowledges ack session_epoch peer source) s.(c_dev).(d_pending)
              ≫= fun i => pair i <$> s.(c_dev).(d_pending) !! i with
      | None => (s, Err ENOENT)
      | Some (index, p) =>
          let '(s, answer, told) := ack_settle now_ms index p ack s in
          let s := set_dev (melodi_reliability_schedule msecs_to_jiffies s.(c_dev)) s in
          (match told with Some error => emit (pending_error p error) s | None => s end, answer)
      end
  end
  end.

Definition melodi_data_receive_ack (between : core -> core) (now_ms now_ns : Z) (s : core) (frame : bytes) (meta : melodi_rx_meta)
    : core * result unit :=
  match melodi_wire_decode_ack frame with
  | Err error => (s, Err error)
  | Ok ack =>
  match ack_lookup s.(c_dev) ack meta with
  | Err error => (s, Err error)
  | Ok (key, source, session_epoch) =>
  match xchacha20poly1305_decrypt ack.(ack_tag) (load 0 56 frame) (frame_nonce ack.(ack_common)) key with
  | None => (s, Err EKEYREJECTED)
  | Some _ => ack_opened now_ms now_ns (between s) ack source session_epoch meta
  end
  end
  end.
End Acks.
End Clock.
