(* ===== verification/Waits.v ===== *)
(** * Messages that wait for their peer

    The books of the waiting messages and of the searches made for their peers, the
    decision whether another message may wait, and what becomes of every message that
    was let in. *)
From stdpp Require Import gmap.
From S2P Require Import Prelude Buffer Uapi Slots Device Fragments Peers Reassembly Identity Policy Queue Send Receive Kept Discovery Nodes Outstanding.

(** ** Lists *)

(** What a filtered list is but for one place. *)
Lemma filter_place {A} (f : A -> bool) (l : list A) i x :
  l !! i = Some x ->
  exists rest, List.filter f l ≡ₚ (if f x then x :: rest else rest) /\
    forall y, List.filter f (<[i := y]> l) ≡ₚ (if f y then y :: rest else rest).
Proof.
  intros Hi. exists (List.filter f (take i l) ++ List.filter f (drop (S i) l)). split.
  - rewrite <- (take_drop_middle l i x Hi) at 1. rewrite List.filter_app. cbn [List.filter]. destruct (f x); [|reflexivity].
    symmetry. apply Permutation_middle.
  - intros y. rewrite insert_take_drop by now apply lookup_lt_Some in Hi. rewrite List.filter_app. cbn [List.filter].
    destruct (f y); [|reflexivity]. symmetry. apply Permutation_middle.
Qed.

Lemma filter_all_false {A} (f : A -> bool) (l : list A) : (forall x, In x l -> f x = false) -> List.filter f l = [].
Proof.
  induction l as [|x l IH]; intros H; [reflexivity|]. cbn. rewrite (H x) by now left. apply IH. intros y Hy. apply H. now right.
Qed.

#[export] Instance zlen_perm {A} : Proper (Permutation ==> eq) (@zlen A).
Proof. intros l l' H. unfold zlen. now rewrite H. Qed.

#[export] Instance list_filter_perm {A} (f : A -> bool) : Proper (Permutation ==> Permutation) (List.filter f).
Proof.
  intros l l' H. induction H as [|x l l' H IH|x y l|l1 l2 l3 _ IH1 _ IH2]; cbn [List.filter].
  - reflexivity.
  - destruct (f x); now rewrite IH.
  - destruct (f x), (f y); reflexivity || apply perm_swap.
  - now transitivity (List.filter f l2).
Qed.

(** ** The books *)

Definition waiting (a : data_state) : list melodi_discovery_pending := List.filter dp_active a.(a_discovery_pending).
Definition searches (a : data_state) : list melodi_discovery_target := List.filter dt_active a.(a_discovery_targets).

(** A message that waits. *)
Definition waiting_wf (p : melodi_discovery_pending) : Prop :=
  p.(dp_length) = zlen p.(dp_payload) /\ p.(dp_source_service) <> 0.

(** The messages of a destination. *)
Definition waits_for (d : melodi_node_id) (p : melodi_discovery_pending) : bool := node_eqb p.(dp_destination) d.

(** There is a search for the destination of a message, and it lasts long enough. *)
Definition searched (a : data_state) (p : melodi_discovery_pending) : Prop :=
  exists t, In t (searches a) /\ t.(dt_destination) = p.(dp_destination) /\ p.(dp_expires_ms) <= t.(dt_expires_ms).

(** What the books say of places in the tables, sums and limits. *)
Record books_ok (a : data_state) : Prop := {
  bo_targets : length a.(a_discovery_targets) = MELODI_DISCOVERY_TARGET_LIMIT;
  bo_pending : length a.(a_discovery_pending) = MELODI_DISCOVERY_PENDING_LIMIT;
  bo_free : Forall (fun p => p.(dp_active) = false -> p = zero_discovery_pending) a.(a_discovery_pending);
  bo_wf : Forall waiting_wf (waiting a);
  bo_count : a.(a_discovery_count) = zlen (waiting a);
  bo_bytes : a.(a_discovery_bytes) = sumZ (map dp_length (waiting a));
  bo_limit : a.(a_discovery_bytes) <= MELODI_DISCOVERY_BYTE_LIMIT;
  bo_node d : zlen (List.filter (waits_for d) (waiting a)) <= MELODI_DISCOVERY_PER_NODE_LIMIT;
  bo_distinct : NoDup (map dt_destination (searches a));
  bo_searched : Forall (searched a) (waiting a);
}.

(** Every search has a message it is for. *)
Definition used (a : data_state) (d : melodi_node_id) : Prop := Exists (fun p => p.(dp_destination) = d) (waiting a).

Record waits_ok (a : data_state) : Prop := {
  wo_books : books_ok a;
  wo_used : Forall (fun t => used a t.(dt_destination)) (searches a);
}.

Lemma used_pending a d : melodi_discovery_destination_pending_locked a d = true <-> used a d.
Proof.
  unfold melodi_discovery_destination_pending_locked, used, waiting. rewrite existsb_exists, Exists_exists. unfold node_eqb. split.
  - intros (p & Hp & [Ha Hd%bool_decide_eq_true]%andb_true_iff). exists p. split; [|exact Hd]. apply filter_In. auto.
  - intros (p & [Hp Ha]%filter_In & Hd). exists p. split; [exact Hp|]. apply andb_true_iff. split; [exact Ha|].
    now apply bool_decide_eq_true.
Qed.

Lemma find_search a d :
  (melodi_discovery_target_find_locked a d).1 =
  find_index (fun t => dt_active t && node_eqb t.(dt_destination) d) a.(a_discovery_targets).
Proof. unfold melodi_discovery_target_find_locked. rewrite slot_search_entry. now destruct (find_index _ _). Qed.

(** The search for a destination. *)
Lemma find_search_Some a d i :
  (melodi_discovery_target_find_locked a d).1 = Some i ->
  exists t, a.(a_discovery_targets) !! i = Some t /\ t.(dt_active) = true /\ t.(dt_destination) = d.
Proof.
  rewrite find_search. intros (t & Ht & Hm & _)%find_index_Some. exists t.
  apply andb_true_iff in Hm as [Ha Hd%bool_decide_eq_true]. auto.
Qed.

Lemma find_search_None a d :
  (melodi_discovery_target_find_locked a d).1 = None -> Forall (fun t => t.(dt_destination) <> d) (searches a).
Proof.
  rewrite find_search. intros Hn. apply list.Forall_forall. intros t [Ht Ha]%list_elem_of_In%filter_In.
  pose proof (proj1 (find_index_None _ _) Hn t Ht) as Hm. cbn in Hm. rewrite Ha in Hm. cbn [andb] in Hm.
  now apply bool_decide_eq_false in Hm.
Qed.

(** A search that nobody waits for any more ends. *)
Lemma release_ok d a :
  books_ok a -> Forall (fun t => t.(dt_destination) <> d -> used a t.(dt_destination)) (searches a) ->
  waits_ok (melodi_discovery_target_release_locked d a) /\
  waiting (melodi_discovery_target_release_locked d a) = waiting a /\
  (melodi_discovery_target_release_locked d a).(a_discovery_count) = a.(a_discovery_count).
Proof.
  intros Hok Hu. unfold melodi_discovery_target_release_locked.
  destruct (melodi_discovery_destination_pending_locked a d) eqn:Hp.
  { split; [|auto]. constructor; [exact Hok|]. apply (list.Forall_impl _ _ _ Hu). intros t Ht.
    destruct (decide (dt_destination t = d)) as [->|]; [now apply used_pending|auto]. }
  assert (~ used a d) as Hnot by (rewrite <- used_pending; congruence).
  destruct (melodi_discovery_target_find_locked a d).1 as [i|] eqn:Hf.
  2: { apply find_search_None in Hf. split; [|auto]. constructor; [exact Hok|].
       apply list.Forall_forall. intros t Ht. exact (proj1 (list.Forall_forall _ _) Hu t Ht (proj1 (list.Forall_forall _ _) Hf t Ht)). }
  apply find_search_Some in Hf as (t & Ht & Ha & Hd). destruct (filter_place dt_active _ i t Ht) as (rest & H1 & H2).
  rewrite Ha in H1. specialize (H2 zero_discovery_target). cbn [dt_active zero_discovery_target] in H2.
  set (a' := set_a_discovery_targets _ a). assert (waiting a' = waiting a) as Hw by reflexivity.
  assert (searches a' ≡ₚ rest) as Hs' by exact H2. assert (searches a ≡ₚ t :: rest) as Hs by exact H1. clear H1 H2.
  destruct Hok as [B1 B2 B3 B4 B5 B6 B7 B8 B9 B10]. rewrite Hs in B9. cbn [map] in B9. apply list.NoDup_cons in B9 as [B9 B9'].
  split; [|auto]. constructor; [constructor|].
  - cbn. now rewrite length_insert.
  - exact B2.
  - exact B3.
  - exact B4.
  - exact B5.
  - exact B6.
  - exact B7.
  - exact B8.
  - now rewrite Hs'.
  - rewrite Hw. apply list.Forall_forall. intros p Hp'. pose proof (proj1 (list.Forall_forall _ _) B10 p Hp') as (t' & Ht' & Hd' & He).
    exists t'. split; [|auto]. apply (Permutation_in _ (Permutation_sym Hs')). apply (Permutation_in _ Hs) in Ht' as [<-|Ht']; [|exact Ht'].
    exfalso. apply Hnot. unfold used. apply Exists_exists. exists p. split; [now apply list_elem_of_In|congruence].
  - rewrite Hs'. rewrite Hs in Hu. apply list.Forall_cons in Hu as [_ Hu]. apply list.Forall_forall. intros t' Ht'.
    apply (proj1 (list.Forall_forall _ _) Hu t' Ht'). intros E. apply B9. rewrite Hd, <- E. apply list_elem_of_In, in_map.
    now apply list_elem_of_In.
Qed.

(** A message is taken out. *)
Lemma clear_ok a i p :
  waits_ok a -> a.(a_discovery_pending) !! i = Some p -> p.(dp_active) = true ->
  waits_ok (melodi_discovery_pending_clear_locked i a) /\
  waiting a ≡ₚ p :: waiting (melodi_discovery_pending_clear_locked i a).
Proof.
  intros [Hok Hu] Hp Ha. unfold melodi_discovery_pending_clear_locked. rewrite Hp, Ha. cbn [negb].
  destruct (filter_place dp_active _ i p Hp) as (rest & H1 & H2). rewrite Ha in H1. specialize (H2 zero_discovery_pending).
  cbn [dp_active zero_discovery_pending] in H2. destruct Hok as [B1 B2 B3 B4 B5 B6 B7 B8 B9 B10].
  assert (waiting a ≡ₚ p :: rest) as Hw by exact H1. rewrite Hw in B4, B5, B6.
  apply list.Forall_cons in B4 as [[L1 L2] B4]. cbn [map] in B6. rewrite sumZ_cons in B6.
  assert (0 <= sumZ (map dp_length rest)) as Hsum.
  { apply sumZ_nonneg, Forall_map. apply (list.Forall_impl _ _ _ B4). intros q [-> _]. unfold zlen. lia. }
  assert (0 <= p.(dp_length)) as Hl by (rewrite L1; unfold zlen; lia).
  assert ((p.(dp_length) <=? a.(a_discovery_bytes)) = true) as -> by (apply Z.leb_le; lia).
  assert (a.(a_discovery_count) = 1 + zlen rest) as Hc by (rewrite B5; unfold zlen; cbn [length]; lia).
  assert (0 <= zlen rest) as Hr by (unfold zlen; lia).
  cbn [a_discovery_count a_discovery_pending set_a_discovery_bytes]. destruct (Z.eqb_spec (a_discovery_count a) 0); [lia|].
  set (a1 := set_a_discovery_pending _ _).
  assert (waiting a1 ≡ₚ rest) as Hw1 by exact H2. clear H1 H2.
  assert (forall d, used a d -> d <> p.(dp_destination) -> used a1 d) as Hused.
  { intros d Hd Hne. unfold used in *. rewrite Hw1. rewrite Hw in Hd. apply List.Exists_cons in Hd as [Hd|Hd]; [congruence|exact Hd]. }
  destruct (release_ok p.(dp_destination) a1) as (R1 & R2 & _).
  - constructor.
    + exact B1.
    + cbn. now rewrite length_insert.
    + cbn. apply Forall_insert; [exact B3|reflexivity].
    + now rewrite Hw1.
    + rewrite Hw1. cbn. lia.
    + rewrite Hw1. cbn. lia.
    + cbn. lia.
    + intros d. rewrite Hw1. specialize (B8 d). rewrite Hw in B8. cbn [List.filter] in B8.
      destruct (waits_for d p); [|exact B8]. unfold zlen in *. cbn [length] in B8. lia.
    + exact B9.
    + rewrite Hw1. rewrite Hw in B10. apply list.Forall_cons in B10 as [_ B10]. exact B10.
  - apply (list.Forall_impl _ _ _ Hu). intros t Ht Hne. now apply Hused.
  - split; [exact R1|]. rewrite R2, Hw1. exact Hw.
Qed.

Lemma clear_free a i : waits_ok a -> (forall p, a.(a_discovery_pending) !! i = Some p -> p.(dp_active) = false) ->
  melodi_discovery_pending_clear_locked i a = a.
Proof.
  intros _ Hp. unfold melodi_discovery_pending_clear_locked. destruct (a_discovery_pending a !! i) as [p|]; [|reflexivity].
  now rewrite (Hp p eq_refl).
Qed.

(** A message is marked, as being sent or not. *)
Lemma mark_ok a i p b :
  waits_ok a -> a.(a_discovery_pending) !! i = Some p -> p.(dp_active) = true ->
  let a' := set_a_discovery_pending (<[i := set_dp_in_flight b p]> a.(a_discovery_pending)) a in
  waits_ok a' /\ map (set_dp_in_flight false) (waiting a') ≡ₚ map (set_dp_in_flight false) (waiting a).
Proof.
  intros [Hok Hu] Hp Ha. cbv zeta. set (a' := set_a_discovery_pending _ a).
  destruct (filter_place dp_active _ i p Hp) as (rest & H1 & H2). rewrite Ha in H1. specialize (H2 (set_dp_in_flight b p)).
  change (dp_active (set_dp_in_flight b p)) with (dp_active p) in H2. rewrite Ha in H2.
  assert (waiting a ≡ₚ p :: rest) as Hw by exact H1. assert (waiting a' ≡ₚ set_dp_in_flight b p :: rest) as Hw' by exact H2. clear H1 H2.
  destruct Hok as [B1 B2 B3 B4 B5 B6 B7 B8 B9 B10]. rewrite Hw in B4, B5, B6. split; [|now rewrite Hw, Hw'].
  constructor; [constructor|].
  - exact B1.
  - cbn. now rewrite length_insert.
  - cbn. apply Forall_insert; [exact B3|]. cbn. congruence.
  - rewrite Hw'. apply list.Forall_cons in B4 as [W B4]. now constructor.
  - rewrite Hw'. exact B5.
  - rewrite Hw'. exact B6.
  - exact B7.
  - intros d. rewrite Hw'. specialize (B8 d). rewrite Hw in B8. cbn [List.filter] in *. change (waits_for d (set_dp_in_flight b p)) with (waits_for d p). now destruct (waits_for d p).
  - exact B9.
  - rewrite Hw'. rewrite Hw in B10. apply list.Forall_cons in B10 as [S1 B10]. now constructor.
  - apply (list.Forall_impl _ _ _ Hu). intros t Ht. unfold used in *. rewrite Hw in Ht. rewrite Hw'.
    apply List.Exists_cons in Ht as [Ht|Ht]; [now left|now right].
Qed.

(** ** Who may wait *)

Lemma find_filter {A} (f g : A -> bool) l :
  List.find g (List.filter f l) = find_index (fun x => f x && g x) l ≫= fun i => l !! i.
Proof.
  induction l as [|x l IH]; cbn; [reflexivity|]. destruct (f x); cbn; [destruct (g x); cbn; [reflexivity|]|];
    rewrite IH; now destruct (find_index _ l).
Qed.

Lemma full_filter {A} (f : A -> bool) l :
  find_index (fun x => negb (f x)) l = None <-> (zlen l <=? zlen (List.filter f l)) = true.
Proof.
  rewrite Z.leb_le. unfold zlen. induction l as [|x l IH]; cbn; [split; [lia|reflexivity]|].
  pose proof (List.filter_length_le f l) as Hl. destruct (f x) eqn:E; cbn [negb length]; [|split; [discriminate|lia]].
  transitivity (find_index (fun x => negb (f x)) l = None); [destruct (find_index _ l); cbn; split; congruence|]. rewrite IH. lia.
Qed.

(** The search for a destination, and whether a message has room. *)
Definition search_of (a : data_state) (d : melodi_node_id) : option melodi_discovery_target :=
  List.find (fun t => node_eqb t.(dt_destination) d) (searches a).
Definition has_room (a : data_state) (d : melodi_node_id) (length : Z) : bool :=
  negb ((32 <=? zlen (waiting a)) || (4 <=? zlen (List.filter (waits_for d) (waiting a))) ||
        (MELODI_DISCOVERY_BYTE_LIMIT <? sumZ (map dp_length (waiting a)) + length)).

(** The decision: refused, or let in until some time, with or without a new search. *)
Definition admission (link : link_state) (now_ms : Z) (m : send_args) (d : melodi_node_id) (a : data_state) : result (bool * Z) :=
  let room := has_room a d (zlen m.(sa_payload)) in
  if negb link.(l_identity_ready) then Err ENOKEY else
  if negb link.(l_transport_ready) then Err ENETDOWN else
  match search_of a d with
  | Some t => if t.(dt_expires_ms) <=? now_ms then Err EHOSTUNREACH else
              if room then Ok (false, Z.min (now_ms + m.(sa_ttl_ms)) t.(dt_expires_ms)) else Err ENOBUFS
  | None => if negb room then Err ENOBUFS else
            if 16 <=? zlen (searches a) then Err ENOSPC else Ok (true, now_ms + Z.min m.(sa_ttl_ms) MELODI_DISCOVERY_TIMEOUT_MS)
  end.

Lemma search_found a d : search_of a d = (melodi_discovery_target_find_locked a d).1 ≫= fun i => a.(a_discovery_targets) !! i.
Proof. unfold search_of, searches. rewrite find_filter. now rewrite find_search. Qed.

Lemma search_free a d : length a.(a_discovery_targets) = MELODI_DISCOVERY_TARGET_LIMIT -> search_of a d = None ->
  ((melodi_discovery_target_find_locked a d).2 = None <-> (16 <=? zlen (searches a)) = true) /\
  forall i, (melodi_discovery_target_find_locked a d).2 = Some i ->
    exists t, a.(a_discovery_targets) !! i = Some t /\ t.(dt_active) = false.
Proof.
  intros Hl Hn. assert ((melodi_discovery_target_find_locked a d).1 = None) as Hf.
  { rewrite search_found in Hn. destruct (melodi_discovery_target_find_locked a d).1 as [i|] eqn:E; [|reflexivity].
    apply find_search_Some in E as (t & Ht & _). cbn in Hn. congruence. }
  rewrite find_search in Hf. unfold melodi_discovery_target_find_locked. rewrite slot_search_empty by exact Hf. split.
  - pose proof (full_filter dt_active a.(a_discovery_targets)) as H. unfold zlen at 1 in H. rewrite Hl in H.
    change (Z.of_nat MELODI_DISCOVERY_TARGET_LIMIT) with 16 in H. unfold searches. rewrite <- H.
    destruct (find_index (fun e => negb (dt_active e)) _); cbn; split; congruence.
  - intros i Hi. destruct (find_index (fun e => negb (dt_active e)) _) as [k|] eqn:E; [|discriminate]. injection Hi as <-.
    apply find_index_Some in E as (t & Ht & Ha & _). exists t. split; [exact Ht|]. now apply negb_true_iff in Ha.
Qed.

Lemma waiting_free a : length a.(a_discovery_pending) = MELODI_DISCOVERY_PENDING_LIMIT ->
  (find_index (fun p => negb p.(dp_active)) a.(a_discovery_pending) = None <-> (32 <=? zlen (waiting a)) = true).
Proof.
  intros Hl. pose proof (full_filter dp_active a.(a_discovery_pending)) as H. unfold zlen at 1 in H. rewrite Hl in H. exact H.
Qed.

Lemma destination_counted a d : destination_count a d = zlen (List.filter (waits_for d) (waiting a)).
Proof.
  unfold destination_count, waiting, waits_for. f_equal. induction (a_discovery_pending a) as [|p l IH]; cbn; [reflexivity|].
  destruct (dp_active p); cbn; rewrite IH; reflexivity.
Qed.

(** The books with a message more. *)
Definition filed (i : nat) (p : melodi_discovery_pending) (a : data_state) : data_state :=
  set_a_discovery_count (wrap 16 (a.(a_discovery_count) + 1))
    (set_a_discovery_bytes (wrap 32 (a.(a_discovery_bytes) + p.(dp_length)))
       (set_a_discovery_pending (<[i := p]> a.(a_discovery_pending)) a)).

Lemma filed_waiting i q p a :
  a.(a_discovery_pending) !! i = Some q -> q.(dp_active) = false -> p.(dp_active) = true ->
  waiting (filed i p a) ≡ₚ p :: waiting a.
Proof.
  intros Hq Aq Ap. destruct (filter_place dp_active _ i q Hq) as (rest & H1 & H2). rewrite Aq in H1. specialize (H2 p). rewrite Ap in H2.
  unfold waiting, filed. cbn [a_discovery_pending set_a_discovery_count set_a_discovery_bytes set_a_discovery_pending]. now rewrite H2, H1.
Qed.

Lemma bytes_bounds a : books_ok a -> 0 <= a.(a_discovery_bytes) <= MELODI_DISCOVERY_BYTE_LIMIT /\ 0 <= a.(a_discovery_count).
Proof.
  intros Hok. pose proof (bo_limit _ Hok). rewrite (bo_bytes _ Hok) in *. rewrite (bo_count _ Hok). unfold zlen. split; [|lia]. split; [|lia].
  apply sumZ_nonneg, Forall_map. apply (list.Forall_impl _ _ _ (bo_wf _ Hok)). intros q [-> _]. unfold zlen. lia.
Qed.

Lemma filed_books_ok i q p a :
  books_ok a -> a.(a_discovery_pending) !! i = Some q -> q.(dp_active) = false ->
  p.(dp_active) = true -> waiting_wf p -> searched a p -> has_room a p.(dp_destination) p.(dp_length) = true ->
  Forall (fun t => t.(dt_destination) <> p.(dp_destination) -> used a t.(dt_destination)) (searches a) ->
  waits_ok (filed i p a).
Proof.
  intros Hok Hq Aq Ap Hwf Hs Hroom Hu. pose proof (filed_waiting i q p a Hq Aq Ap) as Hw. set (a' := filed i p a) in *.
  destruct (bytes_bounds a Hok) as [Hb Hc0]. destruct Hok as [B1 B2 B3 B4 B5 B6 B7 B8 B9 B10].
  unfold has_room in Hroom. rewrite negb_true_iff, !orb_false_iff, !Z.leb_gt, Z.ltb_ge in Hroom. destruct Hroom as [[R1 R2] R3].
  rewrite <- B5 in R1. rewrite <- B6 in R3. assert (0 <= p.(dp_length)) as Hl by (destruct Hwf as [-> _]; unfold zlen; lia).
  constructor; [constructor|].
  - exact B1.
  - cbn. now rewrite length_insert.
  - cbn. apply Forall_insert; [exact B3|congruence].
  - rewrite Hw. now constructor.
  - rewrite Hw. transitivity (wrap 16 (a_discovery_count a + 1)); [reflexivity|]. rewrite wrap_id by width_lia. rewrite B5.
    unfold zlen. cbn [length]. lia.
  - rewrite Hw. transitivity (wrap 32 (a_discovery_bytes a + dp_length p)); [reflexivity|]. rewrite wrap_id by width_lia. rewrite B6.
    cbn [map]. rewrite sumZ_cons. lia.
  - change (wrap 32 (a_discovery_bytes a + dp_length p) <= MELODI_DISCOVERY_BYTE_LIMIT). rewrite wrap_id by width_lia. lia.
  - intros d. rewrite Hw. cbn [List.filter]. destruct (waits_for d p) eqn:E; [|apply B8].
    unfold waits_for, node_eqb in E. apply bool_decide_eq_true in E as <-. unfold zlen in *. cbn [length]. lia.
  - exact B9.
  - rewrite Hw. constructor; [exact Hs|exact B10].
  - apply (list.Forall_impl _ _ _ Hu). intros t Ht. unfold used in *. rewrite Hw.
    destruct (decide (dt_destination t = dp_destination p)) as [E|E]; [left; now symmetry|right; auto].
Qed.

Lemma room_decided a d length : books_ok a -> 0 <= length ->
  (Z.of_nat MELODI_DISCOVERY_PENDING_LIMIT <=? a.(a_discovery_count)) || (MELODI_DISCOVERY_PER_NODE_LIMIT <=? destination_count a d) ||
  (wrap 32 (MELODI_DISCOVERY_BYTE_LIMIT - a.(a_discovery_bytes)) <? length) = negb (has_room a d length).
Proof.
  intros Hok Hl. destruct (bytes_bounds a Hok) as [Hb _]. unfold has_room. rewrite negb_involutive, destination_counted, <- (bo_count _ Hok), <- (bo_bytes _ Hok).
  rewrite wrap_id by width_lia. f_equal. apply eq_true_iff_eq. rewrite !Z.ltb_lt. lia.
Qed.

Lemma search_of_Some a d t : search_of a d = Some t -> In t (searches a) /\ t.(dt_destination) = d.
Proof. intros [H1 H2]%List.find_some. split; [exact H1|]. now apply bool_decide_eq_true in H2. Qed.

Lemma search_of_None a d : search_of a d = None -> Forall (fun t => t.(dt_destination) <> d) (searches a).
Proof.
  intros Hn. apply list.Forall_forall. intros t Ht%list_elem_of_In E. pose proof (List.find_none _ _ Hn t Ht) as Hf.
  cbn in Hf. unfold node_eqb in Hf. now rewrite bool_decide_eq_true_2 in Hf.
Qed.

(** There is a search exactly for the destinations somebody waits for. *)
Lemma searched_waited a d : waits_ok a ->
  existsb (waits_for d) (waiting a) = match search_of a d with Some _ => true | None => false end.
Proof.
  intros [Hok Hu]. destruct (search_of a d) as [t|] eqn:Hs.
  - apply search_of_Some in Hs as [Ht Hd]. pose proof (proj1 (List.Forall_forall _ _) Hu t Ht) as Hx. unfold used in Hx.
    apply List.Exists_exists in Hx as (p & Hp & E). apply existsb_exists. exists p. split; [exact Hp|].
    unfold waits_for, node_eqb. apply bool_decide_eq_true. congruence.
  - destruct (existsb _ _) eqn:E; [|reflexivity]. apply existsb_exists in E as (p & Hp & E%bool_decide_eq_true).
    destruct (proj1 (List.Forall_forall _ _) (bo_searched _ Hok) p Hp) as (t & Ht & Hd & _).
    pose proof (search_of_None _ _ Hs) as Hn. exfalso. apply (proj1 (List.Forall_forall _ _) Hn t Ht). congruence.
Qed.

(** A search begins. *)
Lemma search_begun a d i t t0 :
  waits_ok a -> search_of a d = None -> a.(a_discovery_targets) !! i = Some t0 -> t0.(dt_active) = false ->
  t.(dt_active) = true -> t.(dt_destination) = d ->
  let a1 := set_a_discovery_targets (<[i := t]> a.(a_discovery_targets)) a in
  books_ok a1 /\ In t (searches a1) /\ Forall (fun t => t.(dt_destination) <> d -> used a1 t.(dt_destination)) (searches a1).
Proof.
  intros [Hok Hu] Hn Ht0 A0 At Dt. cbv zeta. set (a1 := set_a_discovery_targets _ a).
  destruct (filter_place dt_active _ i t0 Ht0) as (rest & H1 & H2). rewrite A0 in H1. specialize (H2 t). rewrite At in H2.
  assert (searches a1 ≡ₚ t :: searches a) as Hs by (unfold searches, a1 in *; cbn [a_discovery_targets set_a_discovery_targets]; now rewrite H2, H1).
  clear H1 H2. pose proof (search_of_None _ _ Hn) as Hd. destruct Hok as [B1 B2 B3 B4 B5 B6 B7 B8 B9 B10].
  split; [constructor|split].
  - cbn. now rewrite length_insert.
  - exact B2.
  - exact B3.
  - exact B4.
  - exact B5.
  - exact B6.
  - exact B7.
  - exact B8.
  - rewrite Hs. cbn [map]. apply list.NoDup_cons. split; [|exact B9]. rewrite Dt. intros (t' & E & Ht')%list_elem_of_In%in_map_iff.
    exact (proj1 (List.Forall_forall _ _) Hd t' Ht' E).
  - apply (list.Forall_impl _ _ _ B10). intros p (t' & Ht' & H'). exists t'. split; [|exact H'].
    apply (Permutation_in _ (Permutation_sym Hs)). now right.
  - apply (Permutation_in _ (Permutation_sym Hs)). now left.
  - rewrite Hs. constructor; [congruence|]. apply (list.Forall_impl _ _ _ Hu). auto.
Qed.

Lemma admission_decided link now_ms m d a :
  waits_ok a -> m.(sa_source_service) <> 0 -> 0 <= now_ms -> 0 <= m.(sa_ttl_ms) -> now_ms + Z.max m.(sa_ttl_ms) 5000 <= U64_MAX ->
  let '(a', r) := discovery_admit_locked link now_ms m d a in
  match admission link now_ms m d a with
  | Err error => r = Err error /\ a' = a
  | Ok (probe, expires_ms) =>
      exists i, r = Ok (i, probe) /\ waits_ok a' /\ a'.(a_discovery_pending) !! i = Some (waiting_message m d expires_ms) /\
        waiting a' ≡ₚ waiting_message m d expires_ms :: waiting a /\
        probe = negb (existsb (waits_for d) (waiting a))
  end.
Proof.
  intros Hok Hsv Hnow Httl Hmax. pose proof (wo_books _ Hok) as Hb. unfold discovery_admit_locked, admission. cbv zeta.
  set (length := zlen (sa_payload m)). assert (0 <= length) as Hl by (unfold length, zlen; lia).
  pose proof (search_found a d) as Hs. pose proof (fun H => search_free a d (bo_targets _ Hb) H) as Hfree.
  destruct (melodi_discovery_target_find_locked a d) as [found empty]. cbn [fst snd] in Hs, Hfree. rewrite <- Hs. clear Hs.
  rewrite (searched_waited a d Hok).
  destruct (negb (l_identity_ready link)); [auto|]. destruct (negb (l_transport_ready link)); [auto|].
  pose proof (waiting_free a (bo_pending _ Hb)) as Hw.
  assert (find_index (fun p => negb (dp_active p)) (a_discovery_pending a) = None -> has_room a d length = false) as Hfull.
  { intros E%Hw. unfold has_room. now rewrite E. }
  assert (forall i, find_index (fun p => negb (dp_active p)) (a_discovery_pending a) = Some i ->
            exists q, (a_discovery_pending a) !! i = Some q /\ q.(dp_active) = false) as Hidx.
  { intros i (q & Hq & Aq%negb_true_iff & _)%find_index_Some. eauto. }
  assert (forall expires_ms, waiting_wf (waiting_message m d expires_ms)) as Hwf by (split; [reflexivity|exact Hsv]).
  destruct (search_of a d) as [t|] eqn:Hs.
  - destruct (dt_expires_ms t <=? now_ms); [auto|].
    destruct (find_index _ _) as [i|]; [|now rewrite (Hfull eq_refl)]. rewrite (room_decided a d length Hb Hl).
    destruct (has_room a d length) eqn:Hr; cbn [negb]; [|auto]. destruct (Hidx i eq_refl) as (q & Hq & Aq).
    destruct (search_of_Some _ _ _ Hs) as [Ht Dt]. rewrite (wrap_id 64) by width_lia.
    set (p := waiting_message m d _). exists i. split; [reflexivity|]. split; [|split; [|split; [|reflexivity]]].
    + apply (filed_books_ok i q p a Hb Hq Aq eq_refl (Hwf _)); [|exact Hr|].
      * exists t. split; [exact Ht|]. split; [exact Dt|]. cbn. lia.
      * apply (list.Forall_impl _ _ _ (wo_used _ Hok)). auto.
    + cbn. apply list_lookup_insert_eq. now apply lookup_lt_Some in Hq.
    + exact (filed_waiting i q p a Hq Aq eq_refl).
  - destruct (find_index _ _) as [i|]; [|now rewrite (Hfull eq_refl)]. rewrite (room_decided a d length Hb Hl).
    destruct (has_room a d length) eqn:Hr; cbn [negb]; [|auto]. destruct (Hidx i eq_refl) as (q & Hq & Aq).
    destruct (Hfree eq_refl) as [He Hsome]. destruct empty as [j|].
    2: { now rewrite (proj1 He eq_refl). }
    destruct (16 <=? zlen (searches a)); [discriminate (proj2 He eq_refl)|]. destruct (Hsome j eq_refl) as (t0 & Ht0 & A0).
    rewrite !(wrap_id 64) by width_lia. set (t := MkTarget d _ true).
    destruct (search_begun a d j t t0 Hok Hs Ht0 A0 eq_refl eq_refl) as (Hb1 & Ht & Hu1). set (a1 := set_a_discovery_targets _ a) in *.
    replace (Z.min (now_ms + sa_ttl_ms m) (dt_expires_ms t)) with (now_ms + Z.min (sa_ttl_ms m) MELODI_DISCOVERY_TIMEOUT_MS)
      by (cbn; lia).
    set (p := waiting_message m d _). exists i. split; [reflexivity|]. split; [|split; [|split; [|reflexivity]]].
    + apply (filed_books_ok i q p a1 Hb1 Hq Aq eq_refl (Hwf _)); [|exact Hr|exact Hu1].
      exists t. split; [exact Ht|]. split; [reflexivity|]. cbn. lia.
    + cbn. apply list_lookup_insert_eq. now apply lookup_lt_Some in Hq.
    + exact (filed_waiting i q p a1 Hq Aq eq_refl).
Qed.

(** ** What becomes of the messages *)

Abbreviation plains l := (map (set_dp_in_flight false) l).

(** Messages and the errors their bindings are told. *)
Definition told_events (told : list (melodi_discovery_pending * errno)) : list event := map (fun pe => waiting_error pe.1 pe.2) told.

(** What a log has of the ends of messages. *)
Definition errors_of (l : list event) : list event :=
  List.filter (fun ev => match ev with DeliveryError _ _ _ _ _ => true | _ => false end) l.

Lemma errors_app l k : errors_of (l ++ k) = errors_of l ++ errors_of k.
Proof. apply List.filter_app. Qed.

(** The errors that were logged on the way from one state to another. *)
Definition errors_since (s s' : core) : list event := errors_of (drop (length (c_log s)) (c_log s')).

Lemma errors_since_app s s' events : c_log s' = c_log s ++ events -> errors_since s s' = errors_of events.
Proof. unfold errors_since. intros ->. now rewrite drop_app_length. Qed.

(** Between two states, some messages were let in, some are gone, and of the others that
    do not wait any more the bindings have been told an error each; the log has these
    errors, and [other] ones, and no error besides. *)
Definition accounted (s s' : core) (added gone : list melodi_discovery_pending) (other : list event) : Prop :=
  waits_ok (data s) ->
  waits_ok (data s') /\
  exists told events, c_log s' = c_log s ++ events /\ errors_of events ≡ₚ told_events told ++ other /\
    plains (waiting (data s)) ++ plains added ≡ₚ plains (waiting (data s')) ++ plains gone ++ plains (map fst told).

Lemma accounts_chain {A} (w1 a1 w2 g1 t1 a2 w3 g2 t2 : list A) :
  w1 ++ a1 ≡ₚ w2 ++ g1 ++ t1 -> w2 ++ a2 ≡ₚ w3 ++ g2 ++ t2 -> w1 ++ a1 ++ a2 ≡ₚ w3 ++ (g1 ++ g2) ++ t1 ++ t2.
Proof.
  intros P1 P2. transitivity ((w2 ++ a2) ++ g1 ++ t1).
  - rewrite app_assoc, P1, <- !app_assoc. apply Permutation_app_head. rewrite (app_assoc g1 t1 a2). apply Permutation_app_comm.
  - rewrite P2, <- !app_assoc. apply Permutation_app_head. rewrite (Permutation_app_swap_app t2 g1 t1), (Permutation_app_swap_app g2 g1).
    do 2 apply Permutation_app_head. apply Permutation_app_comm.
Qed.

Lemma accounted_trans s1 s2 s3 a1 g1 o1 a2 g2 o2 :
  accounted s1 s2 a1 g1 o1 -> accounted s2 s3 a2 g2 o2 -> accounted s1 s3 (a1 ++ a2) (g1 ++ g2) (o1 ++ o2).
Proof.
  intros H1 H2 Hok. destruct (H1 Hok) as (Hok2 & t1 & l1 & E1 & S1 & P1). destruct (H2 Hok2) as (Hok3 & t2 & l2 & E2 & S2 & P2).
  split; [exact Hok3|]. exists (t1 ++ t2), (l1 ++ l2). rewrite E2, E1, app_assoc. split; [reflexivity|].
  split; [rewrite errors_app, S1, S2; unfold told_events; rewrite map_app, <- !app_assoc; apply Permutation_app_head, Permutation_app_swap_app|].
  rewrite !map_app. exact (accounts_chain _ _ _ _ _ _ _ _ _ P1 P2).
Qed.

(** The tables of the waiting messages. *)
Definition same_waits (a a' : data_state) : Prop :=
  a'.(a_discovery_targets) = a.(a_discovery_targets) /\ a'.(a_discovery_pending) = a.(a_discovery_pending) /\
  a'.(a_discovery_bytes) = a.(a_discovery_bytes) /\ a'.(a_discovery_count) = a.(a_discovery_count).

Lemma same_waits_ok a a' : same_waits a a' -> waits_ok a -> waits_ok a' /\ waiting a' = waiting a.
Proof.
  destruct a, a'. unfold same_waits. cbn. intros (-> & -> & -> & ->) [[] Hu]. split; [|reflexivity]. now constructor; [constructor|].
Qed.

Lemma accounted_same s s' events : same_waits (data s) (data s') -> c_log s' = c_log s ++ events -> accounted s s' [] [] (errors_of events).
Proof.
  intros Hs Hl Hok. destruct (same_waits_ok _ _ Hs Hok) as [Hok' Hw]. split; [exact Hok'|]. exists [], events.
  split; [exact Hl|]. split; [reflexivity|]. now rewrite Hw.
Qed.

(** What leaves the tables and the log, whatever else it does. *)
Lemma accounted_quiet s s' : same_waits (data s) (data s') -> c_log s' = c_log s -> accounted s s' [] [] [].
Proof. intros Hs Hl. apply (accounted_same s s' []); [exact Hs|now rewrite app_nil_r]. Qed.

Lemma set_data_log a s : c_log (set_data a s) = c_log s.
Proof. reflexivity. Qed.

Lemma cons_perm {A} (l : list A) x w : l ≡ₚ x :: w -> l ++ [] ≡ₚ w ++ [x].
Proof. intros ->. rewrite app_nil_r. apply Permutation_cons_append. Qed.

(** A message is taken out without a word ... *)
Lemma accounted_clear s i p :
  (data s).(a_discovery_pending) !! i = Some p -> p.(dp_active) = true ->
  accounted s (set_data (melodi_discovery_pending_clear_locked i (data s)) s) [] [p] [].
Proof.
  intros Hp Ap Hok. destruct (clear_ok _ i p Hok Hp Ap) as [Hok' Hw]. split; [exact Hok'|]. exists [], []. rewrite app_nil_r.
  split; [reflexivity|]. split; [reflexivity|]. change (data (set_data ?a s)) with a. cbn [map app].
  apply cons_perm. now rewrite Hw.
Qed.

(** ... or its binding is told. *)
Lemma accounted_told s i p error :
  (data s).(a_discovery_pending) !! i = Some p -> p.(dp_active) = true ->
  accounted s (emit (waiting_error p error) (set_data (melodi_discovery_pending_clear_locked i (data s)) s)) [] [] [].
Proof.
  intros Hp Ap Hok. destruct (clear_ok _ i p Hok Hp Ap) as [Hok' Hw]. split; [exact Hok'|].
  exists [(p, error)], [waiting_error p error]. split; [reflexivity|]. split; [reflexivity|].
  change (data (emit _ (set_data ?a s))) with a. cbn [map app]. apply cons_perm. now rewrite Hw.
Qed.

Lemma schedule_waits delay a : same_waits a (melodi_discovery_schedule_locked delay a).
Proof. unfold melodi_discovery_schedule_locked. destruct (_ =? 0); repeat split. Qed.

(** Whatever else happens to the core leaves the tables alone and adds to the log. *)
Definition elsewhere (s s' : core) : Prop :=
  same_waits (data s) (data s') /\ exists events, c_log s' = c_log s ++ events.

Lemma accounted_elsewhere s s' : elsewhere s s' -> accounted s s' [] [] (errors_since s s').
Proof. intros [Hs [events He]]. rewrite (errors_since_app _ _ _ He). exact (accounted_same s s' events Hs He). Qed.

#[export] Instance elsewhere_preorder : PreOrder elsewhere.
Proof.
  split.
  - intros s. split; [repeat split|exists []; now rewrite app_nil_r].
  - intros s1 s2 s3 [H1 [l1 E1]] [H2 [l2 E2]]. split.
    { destruct H1 as (? & ? & ? & ?), H2 as (? & ? & ? & ?). repeat split; etransitivity; eassumption. }
    exists (l1 ++ l2). now rewrite E2, E1, app_assoc.
Qed.

(** ... or adds no error to it. *)
Definition silent (s s' : core) : Prop :=
  same_waits (data s) (data s') /\ exists events, c_log s' = c_log s ++ events /\ errors_of events = [].

Lemma accounted_silent s s' : silent s s' -> accounted s s' [] [] [].
Proof. intros [Hs (events & He & E)]. rewrite <- E. exact (accounted_same s s' events Hs He). Qed.

#[export] Instance silent_preorder : PreOrder silent.
Proof.
  split.
  - intros s. split; [repeat split|exists []; now rewrite app_nil_r].
  - intros s1 s2 s3 [H1 (l1 & E1 & N1)] [H2 (l2 & E2 & N2)]. split.
    { destruct H1 as (? & ? & ? & ?), H2 as (? & ? & ? & ?). repeat split; etransitivity; eassumption. }
    exists (l1 ++ l2). now rewrite E2, E1, app_assoc, errors_app, N1, N2.
Qed.

Lemma silent_data a s : same_waits (data s) a -> silent s (set_data a s).
Proof. intros H. split; [exact H|exists []; now rewrite app_nil_r]. Qed.

Lemma silent_schedule delay a s : silent (set_data a s) (set_data (melodi_discovery_schedule_locked delay a) s).
Proof. split; [apply schedule_waits|exists []; now rewrite app_nil_r]. Qed.

(** Work scheduled behind an error. *)
Lemma silent_emitted delay e a s : silent (emit e (set_data a s)) (emit e (set_data (melodi_discovery_schedule_locked delay a) s)).
Proof. split; [apply schedule_waits|exists []; now rewrite app_nil_r]. Qed.

(** Two stretches, the second of which is silent. *)
Lemma accounted_then s1 s2 s3 g o : accounted s1 s2 [] g o -> silent s2 s3 -> accounted s1 s3 [] g o.
Proof.
  intros H1 H2. rewrite <- (app_nil_r g), <- (app_nil_r o). exact (accounted_trans _ _ _ [] g o [] [] [] H1 (accounted_silent _ _ H2)).
Qed.

(** *** The sections of the work *)

Section Work.
  Context (msecs_to_jiffies : Z -> Z).

Lemma marked_accounted s i p b : (data s).(a_discovery_pending) !! i = Some p -> p.(dp_active) = true ->
  accounted s (set_data (set_a_discovery_pending (<[i := set_dp_in_flight b p]> (data s).(a_discovery_pending)) (data s)) s) [] [] [].
Proof.
  intros Hp Ap Hok. destruct (mark_ok _ i p b Hok Hp Ap) as [Hok' Hw]. split; [exact Hok'|]. exists [], []. rewrite app_nil_r.
  split; [reflexivity|]. split; [reflexivity|]. change (data (set_data ?a s)) with a. cbn [map app]. now rewrite Hw.
Qed.

Lemma pick_accounted now_ms s :
  let '(a, choice) := discovery_pick msecs_to_jiffies now_ms s.(c_dev) in
  accounted s (match choice with ChooseLate p => emit (waiting_error p EHOSTUNREACH) (set_data a s) | _ => set_data a s end) [] [] [].
Proof.
  unfold discovery_pick. destruct (find_index _ _) as [i|] eqn:Hf; cbn [mbind option_bind].
  2: { apply accounted_silent, silent_data, schedule_waits. }
  apply find_index_Some in Hf as (p & Hp & Hm & _). rewrite Hp. cbn [fmap option_fmap option_map].
  apply andb_true_iff in Hm as [Hm Hd]. apply andb_true_iff in Hm as [Ap Hi].
  destruct (dp_expires_ms p <=? now_ms) eqn:He.
  - exact (accounted_then _ _ _ _ _ (accounted_told s i p EHOSTUNREACH Hp Ap) (silent_emitted _ _ _ _)).
  - exact (accounted_then _ _ _ _ _ (marked_accounted s i p true Hp Ap) (silent_schedule _ _ _)).
Qed.

(** The message at a place, when one waits there. *)
Definition message_at (a : data_state) (i : nat) : list melodi_discovery_pending :=
  match a.(a_discovery_pending) !! i with Some p => if p.(dp_active) then [p] else [] | None => [] end.

(** An error for a message that is not there any more. *)
Definition stray (a : data_state) (i : nat) (now_ms : Z) (sent : result unit) : list event :=
  match sent, a.(a_discovery_pending) !! i with
  | Err error, Some p =>
      if p.(dp_active) || melodi_discovery_retryable error && (now_ms <? p.(dp_expires_ms)) then [] else [waiting_error p error]
  | _, _ => []
  end.

Lemma clear_accounted s i : accounted s (set_data (melodi_discovery_pending_clear_locked i (data s)) s) [] (message_at (data s) i) [].
Proof.
  unfold message_at. destruct ((data s).(a_discovery_pending) !! i) as [p|] eqn:Hp; [destruct (dp_active p) eqn:Ap|];
    [now apply accounted_clear|..]; intros Hok; (rewrite clear_free; [|exact Hok|congruence]);
    now apply (accounted_quiet s (set_data (data s) s)).
Qed.

Lemma mark_free s i p b : waits_ok (data s) -> (data s).(a_discovery_pending) !! i = Some p -> p.(dp_active) = false -> b = false ->
  same_waits (data s) (set_a_discovery_pending (<[i := set_dp_in_flight b p]> (data s).(a_discovery_pending)) (data s)).
Proof.
  intros Hok Hp Ap ->. repeat split. pose proof (Forall_lookup_1 _ _ _ _ (bo_free _ (wo_books _ Hok)) Hp Ap) as ->.
  cbn [a_discovery_pending set_a_discovery_pending]. now apply list_insert_id.
Qed.

Lemma finish_accounted now_ms i sent s :
  let '(a, failed) := discovery_finish msecs_to_jiffies now_ms i sent (data s) in
  accounted s (match failed with Some (p, error) => emit (waiting_error p error) (set_data a s) | None => set_data a s end) []
    (if is_ok sent then message_at (data s) i else []) (stray (data s) i now_ms sent).
Proof.
  unfold discovery_finish, stray. destruct sent as [[]|error]; cbn [is_ok].
  - exact (accounted_then _ _ _ _ _ (clear_accounted s i) (silent_schedule _ _ _)).
  - destruct ((data s).(a_discovery_pending) !! i) as [p|] eqn:Hp.
    2: { apply accounted_silent, silent_data, schedule_waits. }
    destruct (_ && _) eqn:Er; rewrite ?orb_true_r, ?orb_false_r.
    + refine (accounted_then _ _ _ _ _ _ (silent_schedule _ _ s)). destruct (dp_active p) eqn:Ap; [now apply marked_accounted|].
      intros Hok. apply (accounted_quiet s); [now apply mark_free|reflexivity|exact Hok].
    + destruct (dp_active p) eqn:Ap.
      * exact (accounted_then _ _ _ _ _ (accounted_told s i p error Hp Ap) (silent_emitted _ _ _ _)).
      * intros Hok. rewrite clear_free; [|exact Hok|congruence].
        apply (accounted_same s _ [waiting_error p error]); [apply schedule_waits|reflexivity|exact Hok].
Qed.
End Work.

(** *** Changes of state, failure and reset *)

Lemma pending_clear_silent s i : silent s (melodi_pending_clear s i).
Proof.
  unfold melodi_pending_clear. destruct (d_pending (c_dev s) !! i) as [p|]; [|reflexivity].
  destruct (negb (pm_allocated p)); [reflexivity|]. set (s1 := fold_left _ _ s).
  transitivity s1; [|split; [repeat split|exists []; now rewrite app_nil_r]]. unfold s1. generalize (take (Z.to_nat (Reliability.fragment_count (pm_reliability p))) (pm_fragments p)).
  intros l. clear. revert s. induction l as [|f l IH]; intros s; cbn [fold_left]; [reflexivity|]. etransitivity; [|apply IH].
  split; [repeat split|]. now exists [Released f].
Qed.

(** A filed message ends with an error. *)
Lemma filed_accounted s i p error : accounted s (emit (pending_error p error) (melodi_pending_clear s i)) [] [] [pending_error p error].
Proof.
  destruct (pending_clear_silent s i) as [Hs (events & He & E)].
  replace [pending_error p error] with (errors_of (events ++ [pending_error p error])) by now rewrite errors_app, E.
  apply accounted_same; [exact Hs|]. cbn [emit c_log]. now rewrite He, app_assoc.
Qed.

(** The filed message that a turn ends, and those that the turns end. *)
Definition turn_filed (now_ms : Z) (s : core) : list event :=
  match find_index (fun p => p.(pm_allocated) && negb (is_ok (melodi_pending_valid_locked now_ms s.(c_dev) p))) s.(c_dev).(d_pending)
          ≫= fun i => s.(c_dev).(d_pending) !! i with
  | Some p => [pending_error p (error_of (melodi_pending_valid_locked now_ms s.(c_dev) p))]
  | None => []
  end.
Fixpoint changed_filed (nows : list Z) (s : core) : list event :=
  match nows with
  | [] => []
  | now_ms :: nows =>
      let '(s', changed) := data_changed_turn now_ms s in turn_filed now_ms s ++ if changed then changed_filed nows s' else []
  end.

Lemma changed_turn_accounted now_ms s : accounted s (data_changed_turn now_ms s).1 [] [] (turn_filed now_ms s).
Proof.
  unfold data_changed_turn, turn_filed. destruct (find_index _ (d_pending _)) as [i|] eqn:Hf; cbn [mbind option_bind].
  { apply find_index_Some in Hf as (p & Hp & _). rewrite Hp. cbn [fmap option_fmap option_map fst]. apply filed_accounted. }
  clear Hf. destruct (find_index _ (a_discovery_pending _)) as [i|] eqn:Hf; cbn [mbind option_bind].
  - apply find_index_Some in Hf as (p & Hp & Hm & _). rewrite Hp. cbn [fmap option_fmap option_map fst].
    apply andb_true_iff in Hm as [[Ap _]%andb_true_iff _]. now apply accounted_told.
  - now apply accounted_silent.
Qed.

Lemma changed_accounted nows : forall s, accounted s (melodi_data_state_changed nows s).1 [] [] (changed_filed nows s).
Proof.
  induction nows as [|now_ms nows IH]; intros s; cbn [melodi_data_state_changed changed_filed]; [now apply accounted_silent|].
  pose proof (changed_turn_accounted now_ms s) as H. destruct (data_changed_turn now_ms s) as [s' [|]]; [|now rewrite app_nil_r].
  exact (accounted_trans _ _ _ [] [] _ [] [] _ H (IH s')).
Qed.

(** The filed messages that a failure ends. *)
Fixpoint failed_filed (fuel : nat) (error : errno) (s : core) : list event :=
  match fuel with
  | O => []
  | S fuel =>
      match find_index pm_allocated s.(c_dev).(d_pending) ≫= fun i => pair i <$> s.(c_dev).(d_pending) !! i with
      | None => []
      | Some (index, p) =>
          if p.(pm_source_service) =? 0 then []
          else pending_error p error :: failed_filed fuel error (emit (pending_error p error) (melodi_pending_clear s index))
      end
  end.

Lemma fail_messages_accounted error fuel : forall s, accounted s (fail_messages fuel error s) [] [] (failed_filed fuel error s).
Proof.
  induction fuel as [|fuel IH]; intros s; cbn [fail_messages failed_filed]; [now apply accounted_silent|].
  destruct (find_index _ _ ≫= _) as [[i p]|]; [|now apply accounted_silent]. destruct (_ =? 0); [apply accounted_silent, pending_clear_silent|].
  exact (accounted_trans _ _ _ [] [] [_] [] [] _ (filed_accounted s i p error) (IH _)).
Qed.

Lemma fail_waiting_accounted error fuel : forall s, accounted s (fail_waiting fuel error s) [] [] [].
Proof.
  induction fuel as [|fuel IH]; intros s; cbn [fail_waiting]; [now apply accounted_silent|].
  destruct (find_index _ _) as [i|] eqn:Hf; cbn [mbind option_bind]; [|now apply accounted_silent].
  apply find_index_Some in Hf as (p & Hp & Ap & _). rewrite Hp. cbn [fmap option_fmap option_map].
  intros Hok. assert ((dp_source_service p =? 0) = false) as ->.
  { apply Z.eqb_neq. assert (In p (waiting (data s))) as Hin by (apply filter_In; split; [now apply list_elem_of_In, list_elem_of_lookup_2 with i|exact Ap]).
    exact (proj2 (proj1 (List.Forall_forall _ _) (bo_wf _ (wo_books _ Hok)) p Hin)). }
  revert Hok. exact (accounted_trans _ _ _ [] [] [] [] [] [] (accounted_told s i p error Hp Ap) (IH _)).
Qed.

(** The state in which the loops of a failure begin. *)
Definition fail_begun (s : core) : core := set_data (set_a_discovery_work None (set_a_reliability_work None (data s))) s.

Lemma fail_accounted error s :
  accounted s (melodi_data_fail_pending error s) [] [] (failed_filed (S MELODI_PENDING_LIMIT) error (fail_begun s)).
Proof.
  unfold melodi_data_fail_pending. rewrite <- (app_nil_r (failed_filed _ _ _)).
  refine (accounted_trans _ _ _ [] [] _ [] [] [] _ (fail_waiting_accounted _ _ _)).
  refine (accounted_trans _ _ _ [] [] [] [] [] _ (accounted_silent s (fail_begun s) _) (fail_messages_accounted _ _ _)).
  now apply silent_data.
Qed.

Lemma clear_pending i a :
  (melodi_discovery_pending_clear_locked i a).(a_discovery_pending) =
  if match a.(a_discovery_pending) !! i with Some p => p.(dp_active) | None => false end
  then <[i := zero_discovery_pending]> a.(a_discovery_pending) else a.(a_discovery_pending).
Proof.
  unfold melodi_discovery_pending_clear_locked, melodi_discovery_target_release_locked.
  destruct (a_discovery_pending a !! i) as [p|]; [|reflexivity]. destruct (dp_active p); cbn [negb]; [|reflexivity].
  destruct (_ =? 0); (destruct (melodi_discovery_destination_pending_locked _ _); [reflexivity|]);
    now destruct (melodi_discovery_target_find_locked _ _).1.
Qed.

Lemma empty_ok a :
  a.(a_discovery_targets) = replicate MELODI_DISCOVERY_TARGET_LIMIT zero_discovery_target ->
  a.(a_discovery_pending) = replicate MELODI_DISCOVERY_PENDING_LIMIT zero_discovery_pending ->
  a.(a_discovery_bytes) = 0 -> a.(a_discovery_count) = 0 -> waits_ok a /\ waiting a = [].
Proof.
  intros Ht Hp Hb Hc. assert (waiting a = []) as Hw by (unfold waiting; rewrite Hp; reflexivity).
  assert (searches a = []) as Hs by (unfold searches; rewrite Ht; reflexivity). split; [|exact Hw].
  assert (Forall (fun p => dp_active p = false -> p = zero_discovery_pending) a.(a_discovery_pending)) as Hf
    by (rewrite Hp; now apply Forall_replicate).
  constructor; [constructor; try exact Hf; intros|]; rewrite ?Hw, ?Hs, ?Ht, ?Hp, ?Hb, ?Hc, ?length_replicate; try constructor; discriminate.
Qed.

Lemma clear_all a : waits_ok a ->
  (fold_left (fun a index => melodi_discovery_pending_clear_locked index a) (seq 0 MELODI_DISCOVERY_PENDING_LIMIT) a).(a_discovery_pending) =
  replicate MELODI_DISCOVERY_PENDING_LIMIT zero_discovery_pending.
Proof.
  intros Hok. pose (P := fun (k : nat) a => waits_ok a /\ forall j p, (j < k)%nat -> a.(a_discovery_pending) !! j = Some p -> p.(dp_active) = false).
  assert (P MELODI_DISCOVERY_PENDING_LIMIT (fold_left (fun a index => melodi_discovery_pending_clear_locked index a) (seq 0 MELODI_DISCOVERY_PENDING_LIMIT) a)) as [H1 H2].
  { apply fold_seq_ind.
    - split; [exact Hok|]. intros j p Hj. lia.
    - intros k b Hk [B1 B2]. destruct (match a_discovery_pending b !! k with Some p => dp_active p | None => false end) eqn:E.
      + destruct (a_discovery_pending b !! k) as [p|] eqn:Hp; [|discriminate]. split; [now apply (clear_ok b k p)|].
        intros j q Hj Hq. rewrite clear_pending, Hp, E in Hq. destruct (decide (j = k)) as [->|Hne].
        * rewrite list_lookup_insert_eq in Hq by now apply lookup_lt_Some in Hp. now injection Hq as <-.
        * rewrite list_lookup_insert_ne in Hq by auto. apply (B2 j q); [lia|exact Hq].
      + rewrite clear_free; [|exact B1|intros p Hp; now rewrite Hp in E]. split; [exact B1|]. intros j q Hj Hq.
        destruct (decide (j = k)) as [->|Hne]; [now rewrite Hq in E|]. apply (B2 j q); [lia|exact Hq]. }
  set (b := fold_left _ _ a) in *. destruct H1 as [B _]. apply list_eq. intros j. destruct (decide (j < MELODI_DISCOVERY_PENDING_LIMIT)%nat) as [Hj|Hj].
  - rewrite lookup_replicate_2 by exact Hj. destruct (lookup_lt_is_Some_2 b.(a_discovery_pending) j) as [p Hp]; [now rewrite (bo_pending _ B)|].
    rewrite Hp. f_equal. exact (Forall_lookup_1 _ _ _ _ (bo_free _ B) Hp (H2 j p Hj Hp)).
  - rewrite !lookup_ge_None_2; [reflexivity|rewrite length_replicate; lia|rewrite (bo_pending _ B); lia].
Qed.

Lemma clears_silent l : forall s, silent s (fold_left melodi_pending_clear l s).
Proof. induction l as [|i l IH]; intros s; cbn [fold_left]; [reflexivity|]. etransitivity; [apply pending_clear_silent|apply IH]. Qed.

Lemma reset_waiting_ok a : waits_ok a -> waits_ok (reset_waiting a) /\ waiting (reset_waiting a) = [].
Proof.
  intros Hok. pose proof (clear_all a Hok) as Hc. unfold reset_waiting. cbv zeta.
  generalize dependent (fold_left (fun a index => melodi_discovery_pending_clear_locked index a) (seq 0 MELODI_DISCOVERY_PENDING_LIMIT) a).
  intros b Hb. now apply empty_ok.
Qed.

Lemma reset_accounted s : accounted s (melodi_data_reset_locked s) [] (waiting (data s)) [].
Proof.
  unfold melodi_data_reset_locked. cbv zeta. match goal with |- context [set_dev ?d s] => set (s1 := set_dev d s) end.
  assert (silent s (fold_left melodi_pending_clear (seq 0 MELODI_PENDING_LIMIT) s1)) as [Hs (events & He & E)].
  { etransitivity; [|apply clears_silent]. split; [repeat split|exists []; now rewrite app_nil_r]. }
  generalize dependent (fold_left melodi_pending_clear (seq 0 MELODI_PENDING_LIMIT) s1). intros s2 Hs He Hok.
  destruct (same_waits_ok _ _ Hs Hok) as [Hok2 Hw2]. destruct (reset_waiting_ok _ Hok2) as [Hok' Hw]. split; [exact Hok'|].
  exists [], events. split; [exact He|]. split; [now rewrite E|]. change (data (set_data ?a s2)) with a. now rewrite Hw.
Qed.

(** ** Runs *)

(** What can happen to the messages that wait: one is filed; the probe for one failed;
    the two sections of the work, the last with the result of the send; a change of
    state, with the readings of the clock; a failure; a reset; anything else. *)
Inductive waiting_event :=
| EvAdmit (now_ms : Z) (m : send_args) (destination : melodi_node_id)
| EvWithdraw (index : nat)
| EvPick (now_ms : Z)
| EvFinish (now_ms : Z) (index : nat) (sent : result unit)
| EvChanged (nows : list Z)
| EvFail (error : errno)
| EvReset
| EvElse (f : core -> core).

Definition waiting_event_ok (ev : waiting_event) : Prop :=
  match ev with
  | EvAdmit now_ms m _ =>
      m.(sa_source_service) <> 0 /\ 0 <= now_ms /\ 0 <= m.(sa_ttl_ms) /\ now_ms + Z.max m.(sa_ttl_ms) 5000 <= U64_MAX
  | EvElse f => forall s, elsewhere s (f s)
  | _ => True
  end.

Section Run.
  Context (msecs_to_jiffies : Z -> Z).

Definition waiting_step (s : core) (ev : waiting_event) : core :=
  match ev with
  | EvAdmit now_ms m destination => set_data (discovery_admit_locked s.(c_dev).(d_link) now_ms m destination (data s)).1 s
  | EvWithdraw index => set_data (melodi_discovery_pending_clear_locked index (data s)) s
  | EvPick now_ms =>
      let '(a, choice) := discovery_pick msecs_to_jiffies now_ms s.(c_dev) in
      match choice with ChooseLate p => emit (waiting_error p EHOSTUNREACH) (set_data a s) | _ => set_data a s end
  | EvFinish now_ms index sent =>
      let '(a, failed) := discovery_finish msecs_to_jiffies now_ms index sent (data s) in
      match failed with Some (p, error) => emit (waiting_error p error) (set_data a s) | None => set_data a s end
  | EvChanged nows => (melodi_data_state_changed nows s).1
  | EvFail error => melodi_data_fail_pending error s
  | EvReset => melodi_data_reset_locked s
  | EvElse f => f s
  end.

(** The message a step lets in, and those that leave without an error: sent, withdrawn
    because its sender is told of the failed probe, or forgotten in a reset. *)
Definition let_in (s : core) (ev : waiting_event) : list melodi_discovery_pending :=
  match ev with
  | EvAdmit now_ms m destination =>
      match discovery_admit_locked s.(c_dev).(d_link) now_ms m destination (data s) with
      | (a, Ok (index, _)) => message_at a index
      | (_, Err _) => []
      end
  | _ => []
  end.
Definition gone (s : core) (ev : waiting_event) : list melodi_discovery_pending :=
  match ev with
  | EvWithdraw index => message_at (data s) index
  | EvFinish _ index (Ok _) => message_at (data s) index
  | EvReset => waiting (data s)
  | _ => []
  end.

(** The errors that a step logs of other than waiting messages. *)
Definition other_errors (s : core) (ev : waiting_event) : list event :=
  match ev with
  | EvFinish now_ms index sent => stray (data s) index now_ms sent
  | EvChanged nows => changed_filed nows s
  | EvFail error => failed_filed (S MELODI_PENDING_LIMIT) error (fail_begun s)
  | EvElse f => errors_since s (f s)
  | _ => []
  end.

Lemma step_accounted s ev : waiting_event_ok ev -> accounted s (waiting_step s ev) (let_in s ev) (gone s ev) (other_errors s ev).
Proof.
  destruct ev as [now_ms m d|i|now_ms|now_ms i sent|nows|error| |f]; cbn [waiting_event_ok waiting_step let_in gone other_errors].
  - intros (W1 & W2 & W3 & W4) Hok. pose proof (admission_decided (d_link (c_dev s)) now_ms m d (data s) Hok W1 W2 W3 W4) as H.
    destruct (discovery_admit_locked _ _ _ _ _) as [a r]. cbn [fst]. destruct (admission _ _ _ _ _) as [[probe expires_ms]|error].
    + destruct H as (i & -> & Hok' & Hp & Hw & _). split; [exact Hok'|]. exists [], []. rewrite app_nil_r. split; [reflexivity|].
      split; [reflexivity|]. unfold message_at. rewrite Hp. cbn [dp_active waiting_message]. change (data (set_data a s)) with a.
      rewrite Hw. cbn [map app]. rewrite app_nil_r. symmetry. apply Permutation_cons_append.
    + destruct H as [-> ->]. split; [exact Hok|]. exists [], []. rewrite app_nil_r. split; [reflexivity|]. split; reflexivity.
  - intros _. apply clear_accounted.
  - intros _. pose proof (pick_accounted msecs_to_jiffies now_ms s) as H. now destruct (discovery_pick _ _ _) as [a choice].
  - intros _. pose proof (finish_accounted msecs_to_jiffies now_ms i sent s) as H. destruct (discovery_finish _ _ _ _ _) as [a failed].
    destruct sent; exact H.
  - intros _. apply changed_accounted.
  - intros _. apply fail_accounted.
  - intros _. apply reset_accounted.
  - intros Hf. apply accounted_elsewhere, Hf.
Qed.

Fixpoint waiting_run (s : core) (events : list waiting_event) : core :=
  match events with [] => s | ev :: events => waiting_run (waiting_step s ev) events end.
Fixpoint all_in (s : core) (events : list waiting_event) : list melodi_discovery_pending :=
  match events with [] => [] | ev :: events => let_in s ev ++ all_in (waiting_step s ev) events end.
Fixpoint all_gone (s : core) (events : list waiting_event) : list melodi_discovery_pending :=
  match events with [] => [] | ev :: events => gone s ev ++ all_gone (waiting_step s ev) events end.

Fixpoint all_other (s : core) (events : list waiting_event) : list event :=
  match events with [] => [] | ev :: events => other_errors s ev ++ all_other (waiting_step s ev) events end.

Lemma run_accounted events : forall s, Forall waiting_event_ok events ->
  accounted s (waiting_run s events) (all_in s events) (all_gone s events) (all_other s events).
Proof.
  induction events as [|ev events IH]; intros s Hev; cbn [waiting_run all_in all_gone all_other]; [now apply accounted_silent|].
  apply list.Forall_cons in Hev as [H1 H2]. exact (accounted_trans _ _ _ _ _ _ _ _ _ (step_accounted s ev H1) (IH _ H2)).
Qed.
End Run.

(** C12: no message that waits is lost unseen, and none is reported twice.  Over any run
    of the operations on the messages that wait for a peer, in any order and with
    anything in between, the books stay exact: counter and bytes are those of the
    messages, no limit is passed, there is exactly one search for every destination that
    is waited for, and it lasts as long as its messages.  Every message that was let in
    is accounted for: it still waits, or its binding was told an error, or it left
    without an error, because it was sent, because its place was cleared after a probe
    that failed, whoever's message that place then held, or because a reset forgot it.
    And the errors in the log are exactly one for each message that was told, those of
    the filed messages that a change of state or a failure ended, those of a send whose
    message had left its place before it failed, and those of whatever else happened in
    between: no message that waited is told twice. *)
Theorem waiting_conserved msecs_to_jiffies s events :
  waits_ok (data s) -> Forall waiting_event_ok events ->
  let s' := waiting_run msecs_to_jiffies s events in
  waits_ok (data s') /\
  exists told logged, c_log s' = c_log s ++ logged /\
    errors_of logged ≡ₚ told_events told ++ all_other msecs_to_jiffies s events /\
    plains (waiting (data s)) ++ plains (all_in msecs_to_jiffies s events) ≡ₚ
    plains (waiting (data s')) ++ plains (all_gone msecs_to_jiffies s events) ++ plains (map fst told).
Proof. intros Hok Hev. exact (run_accounted msecs_to_jiffies events s Hev Hok). Qed.

(** Who may wait, and for how long.  A message is let in exactly if the device has
    identity and transport, a search for its destination that has begun before has not
    ended, fewer than 32 messages wait, fewer than 4 of them for this destination, their
    payloads with its own are not larger than 32768 bytes, and, when nobody waits for
    the destination yet, one of the 16 searches is free.  It waits until its own time or
    the end of the search, whichever comes first; a search is begun, and a probe sent,
    exactly if nobody waits for the destination.  A message that is refused changes
    nothing. *)
Theorem admission_exact link now_ms m d a :
  waits_ok a -> m.(sa_source_service) <> 0 -> 0 <= now_ms -> 0 <= m.(sa_ttl_ms) -> now_ms + Z.max m.(sa_ttl_ms) 5000 <= U64_MAX ->
  let '(a', r) := discovery_admit_locked link now_ms m d a in
  match admission link now_ms m d a with
  | Err error => r = Err error /\ a' = a
  | Ok (probe, expires_ms) =>
      exists i, r = Ok (i, probe) /\ waits_ok a' /\ a'.(a_discovery_pending) !! i = Some (waiting_message m d expires_ms) /\
        waiting a' ≡ₚ waiting_message m d expires_ms :: waiting a /\
        probe = negb (existsb (waits_for d) (waiting a))
  end.
Proof. exact (admission_decided link now_ms m d a). Qed.

(** ** Whole calls *)

(** The books are in order after the step if they were before. *)
Definition books_kept (s s' : core) : Prop := waits_ok (data s) -> waits_ok (data s').

#[export] Instance books_kept_preorder : PreOrder books_kept.
Proof. split; unfold books_kept; [intros s|intros s1 s2 s3]; auto. Qed.

Lemma quiet_books s s' : quiet s s' -> books_kept s s'.
Proof.
  intros [_ Hw _] Hok. apply (same_waits_ok (data s) (data s')); [|exact Hok]. unfold waits_of in Hw. injection Hw as W1 W2 W3 W4.
  repeat split; symmetry; assumption.
Qed.

Lemma accounted_books s s' a g o : accounted s s' a g o -> books_kept s s'.
Proof. intros H Hok. now destruct (H Hok). Qed.

(** What the others do in the gaps of a call keeps the books. *)
Record gaps_keep (w : waiting_gaps) : Prop := {
  gw_before s : books_kept s (w.(wg_before) s);
  gw_between s : books_kept s (w.(wg_between) s);
  gw_after s : books_kept s (w.(wg_after) s);
  gw_chosen s : books_kept s (w.(wg_chosen) s);
  gw_probe n : books_kept n.(n_core) (w.(wg_probe) n).(n_core);
  gw_last n : books_kept n.(n_core) (w.(wg_last) n).(n_core);
}.
Record probe_gaps_keep (g : discovery_gaps) : Prop := {
  gp_built n : books_kept n.(n_core) (g.(dg_built) n).(n_core);
  gp_queue n : books_kept n.(n_core) (g.(dg_queue) n).(n_core);
}.

Section Whole.
  Context {A : Aead} {Sg : Signer} (msecs_to_jiffies : Z -> Z) (crypto_eddsa_public_key_check : bytes -> Z).

Lemma probe_keeps_books de g n : probe_gaps_keep g -> books_kept n.(n_core) (melodi_discovery_probe de g n).1.(n_core).
Proof.
  intros Hg. assert (books_kept n.(n_core) (probe_locked de n).1.(n_core)) as Hc.
  { apply quiet_books, quiet_aside. unfold probe_locked. destruct (_ || _); [reflexivity|].
    unfold melodi_counter_next_locked. now destruct (_ =? _). }
  unfold melodi_discovery_probe. destruct (probe_locked de n) as [n1 [control|error]]; [|exact Hc]. cbn [fst] in Hc.
  etransitivity; [exact Hc|]. etransitivity; [apply (gp_built g Hg)|]. set (n2 := dg_built g n1).
  destruct (control_frame _ _) as [frame|]; [|reflexivity]. unfold melodi_send_frame.
  destruct (frame_metadata _ _ _) as [meta|]; [|reflexivity]. destruct (se_skb _ 0); [|reflexivity].
  etransitivity; [apply (gp_queue g Hg)|]. set (n3 := dg_queue g n2).
  pose proof (outside_send_batch (se_namespace (de_send de)) (se_running (de_send de)) (se_carrier (de_send de)) (se_net (de_send de))
    n3.(n_core) [frame] meta control_request (se_queue_ms (de_send de))) as Ho. unfold melodi_core_send.
  destruct (melodi_core_send_batch _ _ _ _ _ _ _ _ _) as [s r]. cbn [fst n_core] in Ho |- *.
  apply quiet_books, quiet_aside. symmetry. now apply aside_outside.
Qed.

Lemma work_keeps_books w e now_ms later_ms s : gaps_keep w ->
  books_kept s (melodi_discovery_work msecs_to_jiffies crypto_eddsa_public_key_check w e now_ms later_ms s).
Proof.
  intros [H1 H2 H3 H4 _ _]. unfold melodi_discovery_work. pose proof (pick_accounted msecs_to_jiffies now_ms s) as Hp.
  destruct (discovery_pick _ _ _) as [a [|p|i ttl_ms]]; apply accounted_books in Hp; [exact Hp|exact Hp|].
  etransitivity; [exact Hp|]. etransitivity; [apply H4|]. set (s0 := wg_chosen w (set_data a s)).
  destruct (a_discovery_pending (data s0) !! i) as [p|]; [|reflexivity].
  pose proof (kept_direct books_kept quiet_books msecs_to_jiffies crypto_eddsa_public_key_check _ _ _ e s0 (waiting_args p ttl_ms) H1 H2 H3) as Hs.
  destruct (send_direct _ _ _ _ _ _ _ _) as [s1 sent]. cbn [fst] in Hs.
  pose proof (finish_accounted msecs_to_jiffies later_ms i sent s1) as Hf. destruct (discovery_finish _ _ _ _ _) as [a' [[q error]|]];
    apply accounted_books in Hf; (etransitivity; [exact Hs|exact Hf]).
Qed.

Lemma pending_admit_keeps_books w de g copied now_ms n m d : gaps_keep w -> probe_gaps_keep g ->
  m.(sa_source_service) <> 0 -> 0 <= now_ms -> 0 <= m.(sa_ttl_ms) -> now_ms + Z.max m.(sa_ttl_ms) 5000 <= U64_MAX ->
  books_kept n.(n_core) (melodi_discovery_pending_admit msecs_to_jiffies w de g copied now_ms n m d).1.(n_core).
Proof.
  intros [_ _ _ _ H4 H5] Hg W1 W2 W3 W4. unfold melodi_discovery_pending_admit. destruct (has _ MELODI_F_DONTWAIT); [reflexivity|].
  destruct (_ && _); [reflexivity|].
  pose proof (accounted_books _ _ _ _ _ (step_accounted msecs_to_jiffies n.(n_core) (EvAdmit now_ms m d) (conj W1 (conj W2 (conj W3 W4))))) as Ha.
  cbn [waiting_step] in Ha. destruct (discovery_admit_locked _ _ _ _ _) as [a [[i probe]|error]]; cbn [fst] in Ha |- *; [|exact Ha].
  etransitivity; [exact Ha|]. change (set_data a (n_core n)) with (n_core (with_data a n)). etransitivity; [apply H4|].
  set (n1 := wg_probe w _). assert (books_kept n1.(n_core) (if probe then melodi_discovery_probe de g n1 else (n1, Ok tt)).1.(n_core)) as Hp.
  { destruct probe; [now apply probe_keeps_books|reflexivity]. }
  destruct (if probe then _ else _) as [n2 probed]. cbn [fst] in Hp. etransitivity; [exact Hp|]. etransitivity; [apply H5|].
  set (n3 := wg_last w n2). destruct probed as [[]|error]; cbn [fst].
  - intros Hok. exact (proj1 (same_waits_ok _ _ (schedule_waits _ _) Hok)).
  - exact (accounted_books _ _ _ _ _ (clear_accounted n3.(n_core) i)).
Qed.

(** What a message that finds no session has passed. *)
Lemma direct_unreachable before between after e s m s' :
  send_direct msecs_to_jiffies crypto_eddsa_public_key_check before between after e s m = (s', Err EHOSTUNREACH) ->
  m.(sa_source_service) <> 0 /\ m.(sa_ttl_ms) <= MELODI_TTL_DEFAULT_MS.
Proof.
  unfold send_direct. destruct (_ || _) eqn:E; [discriminate|]. intros _. rewrite !orb_false_iff, !Z.eqb_neq, !Z.ltb_ge in E. intuition.
Qed.
End Whole.

Lemma calls_kept {A : Aead} {Sg : Signer} msecs_to_jiffies check w e de g copied now_ms later_ms n m queue_discovery :
  gaps_keep w -> probe_gaps_keep g -> 0 <= now_ms -> 0 <= m.(sa_ttl_ms) -> now_ms + Z.max MELODI_TTL_DEFAULT_MS 5000 <= U64_MAX ->
  waits_ok (ndev n).(d_data) ->
  waits_ok (ndev (melodi_data_send_internal msecs_to_jiffies check w e de g copied now_ms n m queue_discovery).1).(d_data) /\
  waits_ok (data (melodi_discovery_work msecs_to_jiffies check w e now_ms later_ms n.(n_core))).
Proof.
  intros Hw Hg W1 W2 W3 Hok. split; [|now apply work_keeps_books]. unfold melodi_data_send_internal.
  pose proof (kept_direct books_kept quiet_books msecs_to_jiffies check _ _ _ e n.(n_core) m (gw_before w Hw) (gw_between w Hw) (gw_after w Hw)) as Hs.
  pose proof (direct_unreachable msecs_to_jiffies check (wg_before w) (wg_between w) (wg_after w) e n.(n_core) m) as Hu.
  destruct (send_direct _ _ _ _ _ _ _ _) as [s sent]. cbn [fst] in Hs. specialize (Hs Hok).
  destruct sent as [[]|[]]; try exact Hs. destruct (sa_destination m) as [d|]; [|exact Hs]. destruct queue_discovery; [|exact Hs].
  destruct (Hu s eq_refl) as [U1 U2]. apply (pending_admit_keeps_books msecs_to_jiffies w de g copied now_ms (with_core s n) m d Hw Hg U1 W1 W2); [lia|exact Hs].
Qed.

(** Whole calls keep the books.  Sending a message, directly or from the messages
    that wait, filing one that finds no session, with the probe for its peer, and the
    work that sends what waits leave the books in order, whatever everybody else does
    in the gaps where they release the lock, as long as that keeps the books too. *)
Theorem calls_keep_books {A : Aead} {Sg : Signer} msecs_to_jiffies check w e de g copied now_ms later_ms n m queue_discovery :
  gaps_keep w -> probe_gaps_keep g -> 0 <= now_ms -> 0 <= m.(sa_ttl_ms) -> now_ms + Z.max MELODI_TTL_DEFAULT_MS 5000 <= U64_MAX ->
  waits_ok (ndev n).(d_data) ->
  waits_ok (ndev (melodi_data_send_internal msecs_to_jiffies check w e de g copied now_ms n m queue_discovery).1).(d_data) /\
  waits_ok (data (melodi_discovery_work msecs_to_jiffies check w e now_ms later_ms n.(n_core))).
Proof. exact (calls_kept msecs_to_jiffies check w e de g copied now_ms later_ms n m queue_discovery). Qed.

(** ** A message for a node that has not been heard *)

Definition sample_waiting : send_args :=
  MkSend (Some (Mapping.sample_node 0x1b)) 10 20 [1; 2; 3] MELODI_F_RELIABLE 4 3000 7 1 2 0.

Lemma fresh_waits : waits_ok (ndev node_a).(d_data).
Proof. apply empty_ok; vm_compute; reflexivity. Qed.

Lemma admission_exact_witness :
  let '(a', r) := discovery_admit_locked (nlink node_a) 1000 sample_waiting (Mapping.sample_node 0x1b) (ndev node_a).(d_data) in
  r = Ok (0%nat, true) /\ waits_ok a' /\ waiting a' = [waiting_message sample_waiting (Mapping.sample_node 0x1b) 4000].
Proof.
  pose proof (admission_exact (nlink node_a) 1000 sample_waiting (Mapping.sample_node 0x1b) (ndev node_a).(d_data)
    fresh_waits ltac:(discriminate) ltac:(by_decide) ltac:(by_decide) ltac:(by_decide)) as H.
  destruct (discovery_admit_locked _ _ _ _ _) as [a' r] eqn:E. vm_compute in E. injection E as <- <-.
  match type of H with match ?x with _ => _ end => assert (x = Ok (true, 4000)) as Ea by (vm_compute; reflexivity); rewrite Ea in H end.
  destruct H as (i & [= <-] & H & _). split; [reflexivity|]. split; [exact H|vm_compute; reflexivity].
Defined.

(** It is let in, nobody answers, and three seconds later its binding is told. *)
Definition sample_wait : list waiting_event := [EvAdmit 1000 sample_waiting (Mapping.sample_node 0x1b); EvPick 2000; EvPick 4000].

Lemma waiting_conserved_witness :
  let s' := waiting_run sample_jiffies node_a.(n_core) sample_wait in
  waits_ok (data s') /\ waiting (data s') = [] /\ c_log s' = [DeliveryError 7 1 10 4 EHOSTUNREACH].
Proof.
  destruct (waiting_conserved sample_jiffies node_a.(n_core) sample_wait fresh_waits) as [H _].
  - repeat constructor; by_decide || discriminate.
  - split; [exact H|]. split; vm_compute; reflexivity.
Defined.

Definition sample_gaps : waiting_gaps := MkWaitingGaps id id id id id id.

(** The message is sent, and filed because the node has no session. *)
Definition sample_sent : node * result unit := Eval vm_compute in
  @melodi_data_send_internal sample_jiffies toy_aead (toy_signer 0x1a) (fun _ => 1) sample_gaps (de_send (sample_around 209 30))
    (sample_around 209 30) sample_alone true 1000 node_a sample_waiting true.

Lemma sample_sent_ok : waits_ok (ndev sample_sent.1).(d_data).
Proof.
  assert (sample_sent = @melodi_data_send_internal sample_jiffies toy_aead (toy_signer 0x1a) (fun _ => 1) sample_gaps (de_send (sample_around 209 30))
    (sample_around 209 30) sample_alone true 1000 node_a sample_waiting true) as -> by (vm_compute; reflexivity).
  apply (@calls_kept toy_aead (toy_signer 0x1a) sample_jiffies (fun _ => 1) sample_gaps (de_send (sample_around 209 30))
    (sample_around 209 30) sample_alone true 1000 1000 node_a sample_waiting true); try by_decide; try exact fresh_waits.
  - constructor; intros; exact (fun h => h).
  - constructor; intros; exact (fun h => h).
Qed.

Lemma calls_keep_books_witness :
  sample_sent.2 = Ok tt /\ length (waiting (ndev sample_sent.1).(d_data)) = 1%nat /\ waits_ok (ndev sample_sent.1).(d_data).
Proof.
  split; [vm_compute; reflexivity|]. split; [vm_compute; reflexivity|].
  assert (sample_sent = @melodi_data_send_internal sample_jiffies toy_aead (toy_signer 0x1a) (fun _ => 1) sample_gaps (de_send (sample_around 209 30))
    (sample_around 209 30) sample_alone true 1000 node_a sample_waiting true) as -> by (vm_compute; reflexivity).
  apply (@calls_keep_books toy_aead (toy_signer 0x1a) sample_jiffies (fun _ => 1) sample_gaps (de_send (sample_around 209 30))
    (sample_around 209 30) sample_alone true 1000 1000 node_a sample_waiting true); try by_decide; try exact fresh_waits.
  - constructor; intros; exact (fun h => h).
  - constructor; intros; exact (fun h => h).
Defined.

