(* ===== verification/Settled.v ===== *)
(** * How waiting ends

    A failure of the link, or of the identity, ends every message that is filed or waits
    for its peer, and a change of state those that are not valid any more; both loops of
    the code end, and every binding is told once. *)
From stdpp Require Import gmap.
From S2P Require Import Prelude Buffer Uapi Reliability Slots Device Fragments Peers Reassembly Identity Policy Queue Send Receive Kept Discovery Nodes Outstanding Waits.

(** ** The books of the filed messages *)

(** A reliable message that is filed. *)
Definition filed_wf (p : melodi_pending_message) : Prop := p.(pm_allocated) = true -> p.(pm_source_service) <> 0.

Definition filed_messages (s : core) : list melodi_pending_message := List.filter pm_allocated s.(c_dev).(d_pending).

(** A filed message is taken out. *)
Lemma pending_cleared s i p :
  s.(c_dev).(d_pending) !! i = Some p -> p.(pm_allocated) = true ->
  let s' := melodi_pending_clear s i in
  c_dev s' = set_d_pending (<[i := zero_pending_message]> s.(c_dev).(d_pending)) s.(c_dev) /\
  filed_messages s ≡ₚ p :: filed_messages s' /\
  exists released, c_log s' = c_log s ++ released /\ errors_of released = [].
Proof.
  intros Hp Ap. cbv zeta. unfold melodi_pending_clear. rewrite Hp, Ap. cbn [negb]. set (l := take _ _). clearbody l.
  assert (forall s, c_dev (fold_left (fun s f => emit (Released f) s) l s) = c_dev s /\
            exists released, c_log (fold_left (fun s f => emit (Released f) s) l s) = c_log s ++ released /\ errors_of released = []) as H.
  { induction l as [|f l IH]; intros s0; cbn [fold_left].
    - split; [reflexivity|]. exists []. now rewrite app_nil_r.
    - destruct (IH (emit (Released f) s0)) as (H1 & r & H2 & H3). split; [exact H1|]. exists (Released f :: r).
      split; [|exact H3]. rewrite H2. cbn. now rewrite <- app_assoc. }
  destruct (H s) as (H1 & r & H2 & H3). generalize dependent (fold_left (fun s f => emit (Released f) s) l s). intros s1 H1 H2.
  rewrite H1. split; [reflexivity|]. split; [|exists r; auto].
  destruct (filter_place pm_allocated _ i p Hp) as (rest & P1 & P2). rewrite Ap in P1. specialize (P2 zero_pending_message).
  cbn [pm_allocated zero_pending_message] in P2. unfold filed_messages. cbn [c_dev d_pending set_d_pending]. now rewrite P1, P2.
Qed.

(** The errors between two states. *)
Definition reported (s s' : core) (errors : list event) : Prop :=
  exists logged, c_log s' = c_log s ++ logged /\ errors_of logged ≡ₚ errors.

Lemma reported_trans s1 s2 s3 l1 l2 : reported s1 s2 l1 -> reported s2 s3 l2 -> reported s1 s3 (l1 ++ l2).
Proof.
  intros (k1 & E1 & P1) (k2 & E2 & P2). exists (k1 ++ k2). rewrite E2, E1, app_assoc. split; [reflexivity|]. now rewrite errors_app, P1, P2.
Qed.

Lemma reported_one s s' error p : reported s s' [] ->
  match error with DeliveryError _ _ _ _ _ => True | _ => False end -> p = emit error s' -> reported s p [error].
Proof.
  intros (k & E & P) He ->. exists (k ++ [error]). cbn. rewrite E, app_assoc. split; [reflexivity|].
  rewrite errors_app, P. now destruct error.
Qed.

(** The loop over the reliable messages: one error for each. *)
Lemma fail_messages_spec error fuel : forall s, Forall filed_wf s.(c_dev).(d_pending) -> (length (filed_messages s) < fuel)%nat ->
  let s' := fail_messages fuel error s in
  filed_messages s' = [] /\ data s' = data s /\ reported s s' (map (fun p => pending_error p error) (filed_messages s)).
Proof.
  induction fuel as [|fuel IH]; intros s Hwf Hf; [lia|]. cbv zeta. cbn [fail_messages].
  destruct (find_index pm_allocated (d_pending (c_dev s))) as [i|] eqn:Hi; cbn [mbind option_bind].
  2: { assert (filed_messages s = []) as E by exact (filter_all_false _ _ (proj1 (find_index_None _ _) Hi)).
       rewrite E. split; [reflexivity|]. split; [reflexivity|]. exists []. now rewrite app_nil_r. }
  apply find_index_Some in Hi as (p & Hp & Ap & _). rewrite Hp. cbn [fmap option_fmap option_map].
  destruct (pending_cleared s i p Hp Ap) as (E1 & P1 & r & E2 & E3). set (s1 := melodi_pending_clear s i) in *.
  pose proof (Forall_lookup_1 _ _ _ _ Hwf Hp Ap) as Hs. destruct (Z.eqb_spec (pm_source_service p) 0); [contradiction|].
  destruct (IH (emit (pending_error p error) s1)) as (H1 & H2 & H3).
  - cbn [c_dev emit]. rewrite E1. cbn. apply Forall_insert; [exact Hwf|discriminate].
  - rewrite P1 in Hf. cbn in Hf. change (filed_messages (emit _ s1)) with (filed_messages s1). lia.
  - split; [exact H1|]. split; [rewrite H2; cbn [c_dev emit]; rewrite E1; reflexivity|].
    assert (reported s (emit (pending_error p error) s1) [pending_error p error]) as Hr.
    { apply (reported_one s s1 _ _); [|exact I|reflexivity]. exists r. split; [exact E2|now rewrite E3]. }
    destruct (reported_trans _ _ _ _ _ Hr H3) as (k & K1 & K2). exists k. split; [exact K1|]. rewrite K2, P1. reflexivity.
Qed.

Lemma fail_waiting_spec error fuel : forall s, waits_ok (data s) -> (length (waiting (data s)) < fuel)%nat ->
  let s' := fail_waiting fuel error s in
  waits_ok (data s') /\ waiting (data s') = [] /\ d_pending (c_dev s') = d_pending (c_dev s) /\
  reported s s' (map (fun p => waiting_error p error) (waiting (data s))).
Proof.
  induction fuel as [|fuel IH]; intros s Hok Hf; [lia|]. cbv zeta. cbn [fail_waiting].
  destruct (find_index dp_active (a_discovery_pending (data s))) as [i|] eqn:Hi; cbn [mbind option_bind].
  2: { assert (waiting (data s) = []) as E by exact (filter_all_false _ _ (proj1 (find_index_None _ _) Hi)).
       rewrite E. split; [exact Hok|]. split; [reflexivity|]. split; [reflexivity|]. exists []. now rewrite app_nil_r. }
  apply find_index_Some in Hi as (p & Hp & Ap & _). rewrite Hp. cbn [fmap option_fmap option_map].
  destruct (clear_ok _ i p Hok Hp Ap) as [Hok' Hw]. set (a := melodi_discovery_pending_clear_locked i (data s)) in *.
  assert (waiting_wf p) as [_ Hs].
  { apply (proj1 (List.Forall_forall _ _) (bo_wf _ (wo_books _ Hok))). apply (Permutation_in _ (Permutation_sym Hw)). now left. }
  destruct (Z.eqb_spec (dp_source_service p) 0); [contradiction|].
  destruct (IH (emit (waiting_error p error) (set_data a s))) as (H1 & H2 & H3 & H4); [exact Hok'|..].
  - change (data (emit _ (set_data a s))) with a. rewrite Hw in Hf. cbn in Hf. lia.
  - split; [exact H1|]. split; [exact H2|]. split; [exact H3|].
    assert (reported s (emit (waiting_error p error) (set_data a s)) [waiting_error p error]) as Hr.
    { apply (reported_one s (set_data a s) _ _); [|exact I|reflexivity]. exists []. split; [now rewrite app_nil_r|reflexivity]. }
    destruct (reported_trans _ _ _ _ _ Hr H4) as (k & K1 & K2). exists k. split; [exact K1|]. rewrite K2, Hw. reflexivity.
Qed.

Lemma waiting_small a : books_ok a -> (length (waiting a) <= 32)%nat.
Proof. intros Hok. unfold waiting. rewrite <- (bo_pending _ Hok). apply List.filter_length_le. Qed.

(** ** Changes of state *)

(** The errors of messages of both kinds. *)
Definition ended (ms : list (melodi_pending_message * errno)) (ws : list (melodi_discovery_pending * errno)) : list event :=
  map (fun pe => pending_error pe.1 pe.2) ms ++ told_events ws.

(** What the policy, the sessions and the link decide. *)
Definition same_rules (d d' : melodi_device) : Prop :=
  d_link d' = d_link d /\ d_peers d' = d_peers d /\ d_policy d' = d_policy d.

Lemma rules_pending now_ms d d' p : same_rules d d' -> melodi_pending_valid_locked now_ms d' p = melodi_pending_valid_locked now_ms d p.
Proof.
  destruct d, d'. unfold same_rules. cbn. intros (-> & -> & ->). reflexivity.
Qed.

Lemma rules_waiting d d' p : same_rules d d' -> waiting_allowed d' p = waiting_allowed d p.
Proof. destruct d, d'. unfold same_rules. cbn. intros (-> & -> & ->). reflexivity. Qed.

(** Messages of a state that are still there, and the ends of the others. *)
Definition ends_between (nows : list Z) (s s' : core) : Prop :=
  same_rules s.(c_dev) s'.(c_dev) /\ waits_ok (data s') /\
  exists ms ws, filed_messages s ≡ₚ filed_messages s' ++ map fst ms /\ waiting (data s) ≡ₚ waiting (data s') ++ map fst ws /\
    reported s s' (ended ms ws) /\
    Forall (fun pe => exists now_ms, In now_ms nows /\ melodi_pending_valid_locked now_ms s.(c_dev) pe.1 = Err pe.2) ms /\
    Forall (fun pe => waiting_allowed s.(c_dev) pe.1 = Err pe.2) ws.

Lemma ends_trans nows s1 s2 s3 : ends_between nows s1 s2 -> ends_between nows s2 s3 -> ends_between nows s1 s3.
Proof.
  intros ((A1 & A2 & A3) & _ & ms1 & ws1 & P1 & Q1 & R1 & F1 & G1) ((B1 & B2 & B3) & Hok & ms2 & ws2 & P2 & Q2 & R2 & F2 & G2).
  assert (same_rules (c_dev s1) (c_dev s2)) as Hs by (repeat split; assumption).
  split; [repeat split; congruence|]. split; [exact Hok|]. exists (ms1 ++ ms2), (ws1 ++ ws2). rewrite !map_app.
  split; [rewrite P1, P2; rewrite <- app_assoc; apply Permutation_app_head, Permutation_app_comm|].
  split; [rewrite Q1, Q2; rewrite <- app_assoc; apply Permutation_app_head, Permutation_app_comm|].
  split; [|split; apply Forall_app; split; try assumption].
  - destruct (reported_trans _ _ _ _ _ R1 R2) as (k & K1 & K2). exists k. split; [exact K1|]. rewrite K2. unfold ended, told_events.
    rewrite !map_app, <- !app_assoc. apply Permutation_app_head. rewrite !app_assoc. apply Permutation_app_tail, Permutation_app_comm.
  - apply (list.Forall_impl _ _ _ F2). intros pe (now_ms & Hn & E). exists now_ms. split; [exact Hn|]. now rewrite <- (rules_pending now_ms _ _ pe.1 Hs).
  - apply (list.Forall_impl _ _ _ G2). intros pe E. now rewrite <- (rules_waiting _ _ pe.1 Hs).
Qed.

Lemma is_ok_error (r : result unit) : negb (is_ok r) = true -> r = Err (error_of r).
Proof. now destruct r. Qed.

(** A turn ends one message, or finds all of them valid. *)
Lemma changed_turn_spec nows now_ms s : waits_ok (data s) -> In now_ms nows ->
  let '(s', changed) := data_changed_turn now_ms s in
  if changed then ends_between nows s s' /\
    (length (filed_messages s) + length (waiting (data s)) = S (length (filed_messages s') + length (waiting (data s'))))%nat
  else s' = s /\ Forall (fun p => melodi_pending_valid_locked now_ms s.(c_dev) p = Ok tt) (filed_messages s) /\
    Forall (fun p => p.(dp_in_flight) = true \/ waiting_allowed s.(c_dev) p = Ok tt) (waiting (data s)).
Proof.
  intros Hok Hnow. unfold data_changed_turn. destruct (find_index _ (d_pending _)) as [i|] eqn:Hi; cbn [mbind option_bind].
  { apply find_index_Some in Hi as (p & Hp & [Ap Hv]%andb_true_iff & _). rewrite Hp. cbn [fmap option_fmap option_map].
    destruct (pending_cleared s i p Hp Ap) as (E1 & P1 & r & E2 & E3). set (s1 := melodi_pending_clear s i) in *.
    assert (data s1 = data s) as Ed by (rewrite E1; reflexivity). split.
    - split; [cbn [c_dev emit]; rewrite E1; repeat split|]. split; [change (waits_ok (data s1)); now rewrite Ed|].
      exists [(p, error_of (melodi_pending_valid_locked now_ms (c_dev s) p))], []. cbn [map fst app].
      change (filed_messages (emit _ s1)) with (filed_messages s1). change (data (emit _ s1)) with (data s1). rewrite Ed, app_nil_r.
      split; [rewrite P1; apply Permutation_cons_append|]. split; [reflexivity|]. split; [|split; [|constructor]].
      + apply (reported_one s s1 _ _); [|exact I|reflexivity]. exists r. split; [exact E2|now rewrite E3].
      + constructor; [|constructor]. exists now_ms. split; [exact Hnow|]. now apply is_ok_error.
    - change (filed_messages (emit _ s1)) with (filed_messages s1). change (data (emit _ s1)) with (data s1). rewrite P1, Ed. cbn. lia. }
  pose proof (proj1 (find_index_None _ _) Hi) as Hn. clear Hi.
  destruct (find_index _ (a_discovery_pending _)) as [i|] eqn:Hi; cbn [mbind option_bind].
  - apply find_index_Some in Hi as (p & Hp & [[Ap _]%andb_true_iff Hv]%andb_true_iff & _). rewrite Hp. cbn [fmap option_fmap option_map].
    destruct (clear_ok _ i p Hok Hp Ap) as [Hok' Hw]. set (a := melodi_discovery_pending_clear_locked i (data s)) in *. split.
    + split; [repeat split|]. split; [exact Hok'|]. exists [], [(p, error_of (waiting_allowed (c_dev s) p))]. cbn [map fst app].
      change (filed_messages (emit _ (set_data a s))) with (filed_messages s). change (data (emit _ (set_data a s))) with a. rewrite app_nil_r.
      split; [reflexivity|]. split; [rewrite Hw; apply Permutation_cons_append|]. split; [|split; [constructor|]].
      * apply (reported_one s (set_data a s) _ _); [|exact I|reflexivity]. exists []. split; [now rewrite app_nil_r|reflexivity].
      * constructor; [|constructor]. now apply is_ok_error.
    + change (filed_messages (emit _ (set_data a s))) with (filed_messages s). change (data (emit _ (set_data a s))) with a. rewrite Hw. cbn. lia.
  - pose proof (proj1 (find_index_None _ _) Hi) as Hn'. split; [reflexivity|].
    split; apply List.Forall_forall; intros p [Hp Ap]%filter_In.
    + pose proof (Hn p Hp) as E. cbn beta in E. rewrite Ap in E. now destruct (melodi_pending_valid_locked now_ms (c_dev s) p) as [[]|].
    + pose proof (Hn' p Hp) as E. cbn beta in E. rewrite Ap in E. destruct (dp_in_flight p); [now left|right].
      now destruct (waiting_allowed (c_dev s) p) as [[]|].
Qed.

Lemma ends_refl nows s : waits_ok (data s) -> ends_between nows s s.
Proof.
  intros Hok. split; [repeat split|]. split; [exact Hok|]. exists [], []. rewrite !app_nil_r. split; [reflexivity|]. split; [reflexivity|].
  split; [|split; constructor]. exists []. now rewrite app_nil_r.
Qed.

Lemma changed_spec all nows : forall s, waits_ok (data s) -> incl nows all ->
  (length (filed_messages s) + length (waiting (data s)) < length nows)%nat ->
  let '(s', more) := melodi_data_state_changed nows s in
  more = false /\ ends_between all s s' /\
  (exists now_ms, In now_ms all /\ Forall (fun p => melodi_pending_valid_locked now_ms s'.(c_dev) p = Ok tt) (filed_messages s')) /\
  Forall (fun p => p.(dp_in_flight) = true \/ waiting_allowed s'.(c_dev) p = Ok tt) (waiting (data s')).
Proof.
  induction nows as [|now_ms nows IH]; intros s Hok Hin Hl; [cbn in Hl; lia|]. cbn [melodi_data_state_changed].
  assert (In now_ms all) as Hnow by (apply Hin; now left).
  pose proof (changed_turn_spec all now_ms s Hok Hnow) as H. destruct (data_changed_turn now_ms s) as [s1 [|]].
  - destruct H as [H1 H2]. cbn [length] in Hl. pose proof H1 as (_ & Hok1 & _).
    pose proof (IH s1 Hok1 (fun x h => Hin x (or_intror h)) ltac:(lia)) as H. destruct (melodi_data_state_changed nows s1) as [s' more].
    destruct H as (H3 & H4 & H5). split; [exact H3|]. split; [exact (ends_trans _ _ _ _ H1 H4)|exact H5].
  - destruct H as (-> & H1 & H2). split; [reflexivity|]. split; [now apply ends_refl|]. split; [|exact H2]. exists now_ms. auto.
Qed.

(** A failure ends everything that waits.  After [melodi_data_fail_pending] no
    message is filed or waits for a peer, and the log has exactly one error more, the
    given one, for every message there was. *)
Theorem fail_pending_empties error s :
  waits_ok (data s) -> length s.(c_dev).(d_pending) = MELODI_PENDING_LIMIT -> Forall filed_wf s.(c_dev).(d_pending) ->
  let s' := melodi_data_fail_pending error s in
  filed_messages s' = [] /\ waits_ok (data s') /\ waiting (data s') = [] /\
  reported s s' (map (fun p => pending_error p error) (filed_messages s) ++ map (fun p => waiting_error p error) (waiting (data s))).
Proof.
  intros Hok Hl Hwf. unfold melodi_data_fail_pending. cbv zeta.
  set (s0 := set_data _ s). assert (data s0 = set_a_discovery_work None (set_a_reliability_work None (data s))) as E0 by reflexivity.
  destruct (same_waits_ok (data s) (data s0) ltac:(repeat split) Hok) as [Hok0 Hw0].
  assert ((length (filed_messages s0) < S MELODI_PENDING_LIMIT)%nat) as Hf.
  { pose proof (List.filter_length_le pm_allocated (d_pending (c_dev s0))) as H. change (d_pending (c_dev s0)) with (d_pending (c_dev s)) in H.
    unfold filed_messages. change (d_pending (c_dev s0)) with (d_pending (c_dev s)). rewrite Hl in H. lia. }
  destruct (fail_messages_spec error _ s0 Hwf Hf) as (H1 & H2 & H3). set (s1 := fail_messages _ error s0) in *. clearbody s1.
  rewrite <- H2 in Hok0. pose proof (waiting_small _ (wo_books _ Hok0)) as Hw.
  destruct (fail_waiting_spec error (S MELODI_DISCOVERY_PENDING_LIMIT) s1 Hok0 ltac:(lia)) as (H4 & H5 & H6 & H7).
  split; [unfold filed_messages in *; now rewrite H6|]. split; [exact H4|]. split; [exact H5|].
  rewrite <- Hw0, <- H2. exact (reported_trans _ _ _ _ _ H3 H7).
Qed.

(** A change of state is settled.  The loop of [melodi_data_state_changed] ends,
    with one reading of the clock more than there are messages; then every filed message
    is valid and every waiting message that is not being sent is allowed.  A message
    that was ended was not valid, or not allowed, and its binding was told why, once;
    nothing else was told, and no other message was touched. *)
Theorem data_changed_settles nows s :
  waits_ok (data s) -> (length (filed_messages s) + length (waiting (data s)) < length nows)%nat ->
  let '(s', more) := melodi_data_state_changed nows s in
  more = false /\ ends_between nows s s' /\
  (exists now_ms, In now_ms nows /\ Forall (fun p => melodi_pending_valid_locked now_ms s'.(c_dev) p = Ok tt) (filed_messages s')) /\
  Forall (fun p => p.(dp_in_flight) = true \/ waiting_allowed s'.(c_dev) p = Ok tt) (waiting (data s')).
Proof. intros Hok Hl. exact (changed_spec nows nows s Hok (incl_refl nows) Hl). Qed.

(** ** Witnesses *)

Lemma fail_pending_empties_witness :
  let s' := melodi_data_fail_pending ENETDOWN (n_core sample_sent.1) in
  waiting (data s') = [] /\ c_log s' = [DeliveryError 7 1 10 4 ENETDOWN].
Proof.
  assert (waits_ok (data (n_core sample_sent.1))) as Hok by exact sample_sent_ok.
  destruct (fail_pending_empties ENETDOWN (n_core sample_sent.1) Hok) as (_ & _ & H & _).
  - vm_compute. reflexivity.
  - vm_compute. repeat constructor; discriminate.
  - split; [exact H|vm_compute; reflexivity].
Defined.

Lemma data_changed_settles_witness :
  let '(s', more) := melodi_data_state_changed [2000; 2000] (n_core sample_sent.1) in more = false /\ length (waiting (data s')) = 1%nat.
Proof.
  assert (waits_ok (data (n_core sample_sent.1))) as Hok by exact sample_sent_ok.
  pose proof (data_changed_settles [2000; 2000] (n_core sample_sent.1) Hok ltac:(vm_compute; lia)) as H.
  destruct (melodi_data_state_changed _ _) as [s' more] eqn:E. destruct H as [H _]. split; [exact H|].
  vm_compute in E. injection E as <- <-. vm_compute. reflexivity.
Defined.
