(* ===== verification/Retry.v ===== *)
(** * How reliable messages end

    A filed message is sent again until it is acknowledged, refused, too old or not
    valid any more.  What a retransmission sends is exactly what was not acknowledged,
    in the bytes that were sealed at first; an acknowledgement settles the message it
    names and no other, and only under the key of its session; and no message outlives
    its time. *)
From stdpp Require Import gmap.
From S2P Require Import Prelude Buffer Uapi Wire Replay Reliability Slots Device Fragments Peers Reassembly Identity Policy Queue Send Receive Kept Secure Transfer Discovery Nodes Outstanding Waits Settled.

(** ** The record of a filed message *)

Record filed_message_ok (p : melodi_pending_message) : Prop := {
  fo_active : p.(pm_reliability).(active) = true;
  fo_inv : reliability_inv p.(pm_reliability);
  fo_service : p.(pm_source_service) <> 0;
  fo_frames : p.(pm_reliability).(Reliability.fragment_count) <= zlen p.(pm_fragments);
}.

Definition filing_ok (l : list melodi_pending_message) : Prop := Forall (fun p => p.(pm_allocated) = true -> filed_message_ok p) l.

(** The fragments of a message that are not acknowledged. *)
Definition unacknowledged (p : melodi_pending_message) : list nat :=
  List.filter (fun i => negb (Z.testbit p.(pm_reliability).(acknowledged) (Z.of_nat i)))
    (seq 0 (Z.to_nat p.(pm_reliability).(Reliability.fragment_count))).

Definition acknowledged_all (count bits : Z) : bool :=
  forallb (fun i => Z.testbit bits (Z.of_nat i)) (seq 0 (Z.to_nat count)).

Lemma acknowledged_all_mask count bits : 1 <= count <= 64 -> u64 bits -> (forall j, count <= j -> Z.testbit bits j = false) ->
  acknowledged_all count bits = (bits =? melodi_reliability_mask count).
Proof.
  intros Hc Hu Hb. apply eq_iff_eq_true. unfold acknowledged_all. rewrite List.forallb_forall, Z.eqb_eq. split.
  - intros H. apply Z.bits_inj'. intros j Hj. rewrite mask_testbit by lia. destruct (Z.ltb_spec j count); [|now apply Hb].
    specialize (H (Z.to_nat j)). rewrite Z2Nat.id in H by lia. apply H, in_seq. lia.
  - intros -> i Hi%in_seq. rewrite mask_testbit by lia. lia.
Qed.

(** A step of the record of a message keeps its invariant. *)
Lemma rel_step_inv r op : reliability_inv r -> wf_op op -> reliability_inv (rel_step r op).1.
Proof.
  intros Hi Hop Ha. pose proof (rel_step_active r op Ha) as Hr. destruct (Hi Hr) as (H1 & H2 & H3 & H4 & H5).
  destruct (rel_step_acknowledged r op Ha) as [K1 K2], (rel_step_retries r op Ha H5) as [K3 K4], (rel_step_same r op) as (_ & _ & K5 & _).
  rewrite K5. destruct (valid_ack _ _ _ op) as [b|] eqn:E.
  - destruct (valid_ack_within _ _ _ _ _ H1 Hop E) as [U1 U2]. conj_split; try lia; [| |now apply K2]; rewrite K1; [now apply uint_lor|].
    apply within_mask; [lia|now apply uint_lor|]. intros j Hj. rewrite Z.lor_spec, (U2 j Hj), orb_false_r.
    now apply (proj1 (within_mask _ _ H1 H2)).
  - conj_split; rewrite ?K1; auto; lia.
Qed.

(** ** Clearing *)

Definition with_table (l : list melodi_pending_message) (s : core) : core := set_dev (set_d_pending l s.(c_dev)) s.
Definition message_frames (p : melodi_pending_message) : list bytes :=
  take (Z.to_nat p.(pm_reliability).(Reliability.fragment_count)) p.(pm_fragments).

Definition logged (events : list event) (s : core) : core := MkCore s.(c_dev) s.(c_spaces) (s.(c_log) ++ events).

Lemma clear_exact s i p : s.(c_dev).(d_pending) !! i = Some p -> p.(pm_allocated) = true ->
  melodi_pending_clear s i = logged (map Released (message_frames p)) (with_table (<[i := zero_pending_message]> s.(c_dev).(d_pending)) s).
Proof.
  intros Hp Ap. unfold melodi_pending_clear. rewrite Hp, Ap. cbn [negb]. fold (message_frames p). generalize (message_frames p). intros l.
  assert (fold_left (fun s f => emit (Released f) s) l s = logged (map Released l) s) as ->.
  { revert s Hp. induction l as [|f l IH]; intros s Hp; cbn [fold_left map].
    - unfold logged. rewrite app_nil_r. now destruct s.
    - rewrite IH by exact Hp. unfold logged, emit. cbn. now rewrite <- app_assoc. }
  reflexivity.
Qed.

(** ** One look at the messages *)

(** A message of which only the time of the next retransmission was set. *)
Definition postponed (p q : melodi_pending_message) : Prop :=
  exists t, q = set_pm_reliability (set_next_retry p.(pm_reliability) t) p.

Lemma postponed_refl p : postponed p p.
Proof. exists p.(pm_reliability).(next_retry_ms). now destruct p as [[]]. Qed.

Lemma postponed_all l : Forall2 postponed l l.
Proof. induction l; constructor; auto using postponed_refl. Qed.

Definition message_queued (busy : bool) (melodi : melodi_device) (p : melodi_pending_message) : bool :=
  busy || melodi_queue_message_queued melodi.(d_tx) p.(pm_destination) p.(pm_reliability).(Reliability.message_id)
            p.(pm_binding_portid) p.(pm_binding_generation) p.(pm_source_service).

(** A message whose fragments are to be sent again, by the readings of the clock for its
    validity and for its poll, ... *)
Record retry_due (busy : bool) (valid_ms now_ms : Z) (s : core) (p : melodi_pending_message) : Prop := {
  rd_valid : melodi_pending_valid_locked valid_ms s.(c_dev) p = Ok tt;
  rd_queued : message_queued busy s.(c_dev) p = false;
  rd_time : p.(pm_reliability).(next_retry_ms) <= now_ms < p.(pm_reliability).(deadline_ms);
  rd_retries : p.(pm_reliability).(retries) < MELODI_RELIABLE_RETRY_LIMIT;
}.

(** ... one that is given up, and why, ... *)
Definition given_up (busy : bool) (valid_ms now_ms : Z) (s : core) (p : melodi_pending_message) (error : errno) : Prop :=
  melodi_pending_valid_locked valid_ms s.(c_dev) p = Err error \/
  melodi_pending_valid_locked valid_ms s.(c_dev) p = Ok tt /\ error = ETIMEDOUT /\
    (p.(pm_reliability).(deadline_ms) <= now_ms \/
     message_queued busy s.(c_dev) p = false /\ p.(pm_reliability).(next_retry_ms) <= now_ms /\
     p.(pm_reliability).(retries) = MELODI_RELIABLE_RETRY_LIMIT).

(** ... and one that goes on waiting. *)
Definition goes_on (busy : bool) (valid_ms now_ms : Z) (s : core) (p : melodi_pending_message) : Prop :=
  melodi_pending_valid_locked valid_ms s.(c_dev) p = Ok tt /\ now_ms < p.(pm_reliability).(deadline_ms) /\
  (message_queued busy s.(c_dev) p = true \/ now_ms < p.(pm_reliability).(next_retry_ms)).

(** The message with one retransmission more: the last one waits until the deadline. *)
Definition retried (now_ms : Z) (p : melodi_pending_message) : melodi_pending_message :=
  let r := p.(pm_reliability) in
  set_pm_reliability
    (set_next_retry (set_retries r (r.(retries) + 1))
       (if r.(retries) =? 3 then r.(deadline_ms)
        else now_ms + nth (Z.to_nat (r.(retries) + 1)) [2; 5; 10; 20] 0 * clamp_pace r.(pace_ms))) p.

(** What a look over the messages at some indices does. *)
Inductive retry_effect (busy : bool) (clock : look_clock) (indices : list nat) (s : core) : core -> retry_choice -> Prop :=
| effect_nothing mid :
    Forall2 postponed s.(c_dev).(d_pending) mid ->
    (forall i p, i ∈ indices -> s.(c_dev).(d_pending) !! i = Some p -> p.(pm_allocated) = true -> goes_on busy (clock.(ck_valid) i) (clock.(ck_poll) i) s p) ->
    retry_effect busy clock indices s (with_table mid s) RetryNothing
| effect_failed mid i p error :
    Forall2 postponed s.(c_dev).(d_pending) mid -> i ∈ indices ->
    s.(c_dev).(d_pending) !! i = Some p -> p.(pm_allocated) = true -> given_up busy (clock.(ck_valid) i) (clock.(ck_poll) i) s p error ->
    retry_effect busy clock indices s
      (logged (map Released (message_frames p)) (with_table (<[i := zero_pending_message]> mid) s)) (RetryFailed p error)
| effect_send mid i p missing :
    Forall2 postponed s.(c_dev).(d_pending) mid -> i ∈ indices ->
    s.(c_dev).(d_pending) !! i = Some p -> p.(pm_allocated) = true -> retry_due busy (clock.(ck_valid) i) (clock.(ck_poll) i) s p ->
    (forall j, 0 <= j -> Z.testbit missing j = (j <? p.(pm_reliability).(Reliability.fragment_count)) &&
                                                negb (Z.testbit p.(pm_reliability).(acknowledged) j)) ->
    retry_effect busy clock indices s (with_table (<[i := retried (clock.(ck_poll) i) p]> mid) s) (RetrySend p missing).

Lemma delay_bound r : 0 <= r.(retries) -> 0 <= melodi_reliability_delay r <= 600000.
Proof.
  intros H. unfold melodi_reliability_delay. set (i := if _ <=? _ then _ else _). assert (0 <= i <= 3) as Hi by (subst i; destruct (Z.leb_spec MELODI_RELIABLE_RETRY_LIMIT r.(retries)); lia). clearbody i.
  assert (100 <= clamp_pace r.(pace_ms) <= 30000) by (unfold clamp_pace; lia).
  assert (i = 0 \/ i = 1 \/ i = 2 \/ i = 3) as [-> | [-> | [-> | ->]]] by lia; cbn [Z.to_nat Pos.to_nat Pos.iter_op nth melodi_retry_delays Nat.add];
    [rewrite (scale_exact _ 2)|rewrite (scale_exact _ 5)|rewrite (scale_exact _ 10)|rewrite (scale_exact _ 20)]; lia.
Qed.

(** The answers of a poll of an active record. *)
Lemma poll_cases r now_ms queued : r.(active) = true -> reliability_inv r -> now_ms + 600000 <= U64_MAX ->
  let '(r', polled) := melodi_reliability_poll r now_ms queued in
  match polled with
  | Ok None => now_ms < r.(deadline_ms) /\ (queued = true \/ now_ms < r.(next_retry_ms)) /\ exists t, r' = set_next_retry r t
  | Ok (Some missing) => queued = false /\ r.(next_retry_ms) <= now_ms < r.(deadline_ms) /\ r.(retries) < 4 /\
      r' = set_next_retry (set_retries r (r.(retries) + 1))
             (if r.(retries) =? 3 then r.(deadline_ms)
              else now_ms + nth (Z.to_nat (r.(retries) + 1)) [2; 5; 10; 20] 0 * clamp_pace r.(pace_ms)) /\
      missing = Z.land (melodi_reliability_mask r.(Reliability.fragment_count)) (lnot_w 64 r.(acknowledged))
  | Err error => error = ETIMEDOUT /\ (r.(deadline_ms) <= now_ms \/ queued = false /\ r.(next_retry_ms) <= now_ms /\ r.(retries) = 4)
  end.
Proof.
  intros Ha Hi Hn. destruct (Hi Ha) as (_ & _ & _ & _ & Hr). pose proof (delay_bound r (proj1 Hr)) as Hd.
  destruct (Z.ltb_spec now_ms r.(deadline_ms)).
  2: { unfold melodi_reliability_poll. rewrite Ha. cbn [negb]. destruct (Z.leb_spec r.(deadline_ms) now_ms); [|lia]. auto. }
  destruct queued.
  - unfold melodi_reliability_poll. rewrite Ha. cbn [negb]. destruct (Z.leb_spec r.(deadline_ms) now_ms); [lia|].
    rewrite add_ok by lia. eauto.
  - destruct (Z.ltb_spec now_ms r.(next_retry_ms)).
    + unfold melodi_reliability_poll. rewrite Ha. cbn [negb]. destruct (Z.leb_spec r.(deadline_ms) now_ms); [lia|].
      destruct (Z.ltb_spec now_ms r.(next_retry_ms)); [|lia]. repeat split; auto. exists r.(next_retry_ms). now destruct r.
    + destruct (Z.ltb_spec r.(retries) 4).
      * rewrite poll_due by (auto; unfold clamp_pace in *; lia). conj_split; auto. rewrite <- Ha at 1. now destruct r.
      * unfold melodi_reliability_poll. rewrite Ha. cbn [negb]. destruct (Z.leb_spec r.(deadline_ms) now_ms); [lia|].
        destruct (Z.ltb_spec now_ms r.(next_retry_ms)); [lia|]. destruct (Z.leb_spec MELODI_RELIABLE_RETRY_LIMIT r.(retries)); [|lia].
        split; [reflexivity|]. right. lia.
Qed.

Lemma with_table_id s : with_table s.(c_dev).(d_pending) s = s.
Proof. now destruct s as [[] ? ?]. Qed.

Lemma with_table_twice l l' s : with_table l' (with_table l s) = with_table l' s.
Proof. reflexivity. Qed.

Lemma table_rules l s : same_rules s.(c_dev) (with_table l s).(c_dev).
Proof. repeat split. Qed.

Lemma postponed_insert l mid i p q : l !! i = Some p -> postponed p q -> Forall2 postponed (<[i := q]> l) mid ->
  mid !! i = None \/ (forall x, mid !! i = Some x -> postponed q x) -> Forall2 postponed l mid.
Proof.
  intros Hp (t & ->) H _. apply Forall2_same_length_lookup_2.
  - rewrite <- (list.Forall2_length _ _ _ H). now rewrite length_insert.
  - intros j x y Hx Hy. destruct (decide (i = j)) as [<-|Hne].
    + assert (x = p) as -> by congruence. destruct (Forall2_lookup_lr _ _ _ _ _ _ H (list_lookup_insert_eq _ _ _ (lookup_lt_Some _ _ _ Hp)) Hy) as [u ->].
      exists u. now destruct p as [[]].
    + apply (Forall2_lookup_lr _ _ _ _ _ _ H (eq_trans (list_lookup_insert_ne _ _ _ _ Hne) Hx) Hy).
Qed.

Lemma filed_postponed p q : postponed p q -> filed_message_ok p -> filed_message_ok q.
Proof. intros (t & ->) [H1 H2 H3 H4]. constructor; auto. Qed.

Lemma filing_insert l i p : filing_ok l -> (p.(pm_allocated) = true -> filed_message_ok p) -> filing_ok (<[i := p]> l).
Proof. intros. now apply Forall_insert. Qed.

Lemma filing_lookup l i p : filing_ok l -> l !! i = Some p -> p.(pm_allocated) = true -> filed_message_ok p.
Proof. intros H Hp. exact (Forall_lookup_1 _ _ _ _ H Hp). Qed.

Section Look.
  Context (busy : bool) (clock : look_clock).

(** What the rest of the messages are looked at for, the first one aside. *)
Lemma effect_skip i indices s s' choice :
  (forall p, s.(c_dev).(d_pending) !! i = Some p -> p.(pm_allocated) = true -> goes_on busy (clock.(ck_valid) i) (clock.(ck_poll) i) s p) ->
  retry_effect busy clock indices s s' choice -> retry_effect busy clock (i :: indices) s s' choice.
Proof.
  intros Hi [mid H1 H2|mid j p error H1 H2 H3 H4 H5|mid j p missing H1 H2 H3 H4 H5 H6].
  - constructor; [exact H1|]. intros j p [->|Hj]%elem_of_cons; [now apply Hi|now apply H2].
  - econstructor; eauto. now right.
  - econstructor; eauto. now right.
Qed.

Lemma effect_postponed i indices s s' choice p q : i ∉ indices ->
  s.(c_dev).(d_pending) !! i = Some p -> postponed p q ->
  retry_effect busy clock indices (with_table (<[i := q]> s.(c_dev).(d_pending)) s) s' choice ->
  retry_effect busy clock indices s s' choice.
Proof.
  intros Hi Hp Hq H. assert (forall j x, j ∈ indices -> (<[i := q]> s.(c_dev).(d_pending)) !! j = Some x -> s.(c_dev).(d_pending) !! j = Some x) as Hl.
  { intros j x Hj. rewrite list_lookup_insert_ne by congruence. auto. }
  assert (forall mid, Forall2 postponed (<[i := q]> s.(c_dev).(d_pending)) mid -> Forall2 postponed s.(c_dev).(d_pending) mid) as Hm.
  { intros mid H1. apply (postponed_insert _ _ i p q Hp Hq H1). right. intros x Hx.
    exact (Forall2_lookup_lr _ _ _ _ _ _ H1 (list_lookup_insert_eq _ _ _ (lookup_lt_Some _ _ _ Hp)) Hx). }
  destruct H as [mid H1 H2|mid j x error H1 H2 H3 H4 H5|mid j x missing H1 H2 H3 H4 H5 H6].
  - rewrite with_table_twice. constructor; [now apply Hm|]. intros j x Hj Hx Ax.
    apply (H2 j x Hj); [|exact Ax]. cbn [with_table set_dev c_dev set_d_pending d_pending]. rewrite list_lookup_insert_ne by congruence. exact Hx.
  - rewrite with_table_twice. exact (effect_failed busy clock indices s mid j x error (Hm _ H1) H2 (Hl _ _ H2 H3) H4 H5).
  - rewrite with_table_twice. refine (effect_send busy clock indices s mid j x missing (Hm _ H1) H2 (Hl _ _ H2 H3) H4 _ H6).
    destruct H5. now constructor.
Qed.

Lemma retry_loop_effect : (forall i, clock.(ck_poll) i + 600000 <= U64_MAX) -> forall indices s, List.NoDup indices -> filing_ok s.(c_dev).(d_pending) ->
  let '(s', choice) := retry_loop busy clock indices s in retry_effect busy clock indices s s' choice.
Proof.
  intros Hn. induction indices as [|i indices IH]; intros s Hd Hok.
  { cbn [retry_loop]. pose proof (effect_nothing busy clock [] s _ (postponed_all _)) as H. rewrite with_table_id in H. apply H. intros i p []%elem_of_nil. }
  apply List.NoDup_cons_iff in Hd as [Hi Hd]. assert (i ∉ indices) as Hi' by now rewrite list_elem_of_In.
  cbn [retry_loop]. destruct (d_pending (c_dev s) !! i) as [p|] eqn:Hp.
  2: { pose proof (IH s Hd Hok) as H. destruct (retry_loop _ _ _ _). apply effect_skip; [congruence|exact H]. }
  destruct (pm_allocated p) eqn:Ap; cbn [negb].
  2: { pose proof (IH s Hd Hok) as H. destruct (retry_loop _ _ _ _). apply effect_skip; [congruence|exact H]. }
  destruct (melodi_pending_valid_locked (ck_valid clock i) (c_dev s) p) as [[]|error] eqn:Hv.
  2: { rewrite (clear_exact s i p Hp Ap). apply effect_failed; auto using postponed_all, list_elem_of_here. now left. }
  destruct (filing_lookup _ _ _ Hok Hp Ap) as [F1 F2 F3 F4].
  pose proof (poll_cases p.(pm_reliability) (ck_poll clock i) (message_queued busy s.(c_dev) p) F1 F2 (Hn i)) as Hc.
  pose proof (rel_step_same p.(pm_reliability) (Poll (ck_poll clock i) (message_queued busy s.(c_dev) p))) as (_ & _ & Hs & _).
  fold (message_queued busy s.(c_dev) p). cbn [rel_step fst] in Hs.
  destruct (melodi_reliability_poll _ _ _) as [r [[missing|]|error]]; cbn [fst] in Hs.
  - destruct Hc as (C1 & C2 & C3 & C4 & C5). subst r. apply effect_send; auto using postponed_all, list_elem_of_here.
    + now constructor.
    + intros j Hj. subst missing. destruct (F2 F1) as (G1 & G2 & _). now apply missing_testbit.
  - destruct Hc as (C1 & C2 & t & ->). set (q := set_pm_reliability _ p).
    assert (postponed p q) as Hq by now exists t.
    pose proof (IH (with_pending i q s) Hd) as H. destruct (retry_loop _ _ _ _) as [s' choice].
    apply effect_skip; [intros p' Hp' _; assert (p' = p) as -> by congruence; now repeat split|].
    apply (effect_postponed i indices s s' choice p q Hi' Hp Hq). apply H. apply filing_insert; [exact Hok|]. intros _.
    apply (filed_postponed p q Hq). now constructor.
  - destruct Hc as [-> Hc]. set (q := set_pm_reliability r p).
    assert (melodi_pending_clear (with_pending i q s) i =
            logged (map Released (message_frames p)) (with_table (<[i := zero_pending_message]> s.(c_dev).(d_pending)) s)) as ->.
    { rewrite (clear_exact (with_pending i q s) i q); [|cbn; apply list_lookup_insert_eq; now apply lookup_lt_Some in Hp|exact Ap].
      unfold message_frames. cbn [q pm_reliability set_pm_reliability pm_fragments]. rewrite Hs. cbn [with_pending set_dev c_dev set_d_pending d_pending].
      rewrite list_insert_insert_eq. reflexivity. }
    apply effect_failed; auto using postponed_all, list_elem_of_here. right. auto.
Qed.
End Look.

(** ** A pass of the work *)

Lemma missing_frames clone missing p :
  (forall j, 0 <= j -> Z.testbit missing j = (j <? p.(pm_reliability).(Reliability.fragment_count)) &&
                                              negb (Z.testbit p.(pm_reliability).(acknowledged) j)) ->
  retry_frames clone missing p =
  map (fun i => nth i p.(pm_fragments) []) (List.filter (fun i => clone (Z.of_nat i)) (unacknowledged p)).
Proof.
  intros Hm. unfold retry_frames, unacknowledged. f_equal.
  assert (forall l, (forall i, In i l -> Z.of_nat i < p.(pm_reliability).(Reliability.fragment_count)) ->
    List.filter (fun i => has missing (bit (Z.of_nat i)) && clone (Z.of_nat i)) l =
    List.filter (fun i => clone (Z.of_nat i)) (List.filter (fun i => negb (Z.testbit p.(pm_reliability).(acknowledged) (Z.of_nat i))) l)) as H.
  { induction l as [|i l IH]; intros Hl; [reflexivity|]. cbn [List.filter]. specialize (Hl i (or_introl eq_refl)) as Hi.
    rewrite has_bit_testbit, Hm, IH by (lia || auto with datatypes). rewrite (proj2 (Z.ltb_lt _ _) Hi). cbn [andb].
    destruct (negb _); cbn [List.filter]; now destruct (clone _). }
  apply H. intros i Hi%in_seq. lia.
Qed.

Lemma unacknowledged_some p : filed_message_ok p -> unacknowledged p <> [].
Proof.
  intros [F1 F2 _ _] E. destruct (F2 F1) as (G1 & G2 & G3 & G4 & _). apply G4. apply Z.eqb_eq.
  rewrite <- acknowledged_all_mask; [|exact G1|exact G2|now apply (proj1 (within_mask _ _ G1 G2))].
  apply List.forallb_forall. intros i Hi. destruct (Z.testbit _ _) eqn:Ht; [reflexivity|].
  assert (In i (unacknowledged p)) as H by (apply filter_In; now rewrite Ht). now rewrite E in H.
Qed.

(** The clock is read again for the request.  When it has passed the end of the message
    since the message was found valid, the difference wraps around, and the request may
    wait for as long as there is a number for. *)
Lemma request_outlives now_ms p : 0 <= p.(pm_expires_ms) < now_ms -> now_ms <= p.(pm_expires_ms) + 2 ^ 63 ->
  (retry_request now_ms p).(q_ttl_ms) = U32_MAX.
Proof.
  intros H1 H2. unfold retry_request. cbn [q_ttl_ms]. assert (wrap 64 (pm_expires_ms p - now_ms) = pm_expires_ms p - now_ms + 2 ^ 64) as ->; [|width_lia].
  unfold wrap. symmetry. apply (Z.mod_unique _ _ (-1)); lia.
Qed.

(** The work sends exactly what one due message misses, or ends one message, or only
    puts off. *)
Section Pass.
  Context (msecs_to_jiffies : Z -> Z).

Definition scheduled (s : core) : core := set_dev (melodi_reliability_schedule msecs_to_jiffies s.(c_dev)) s.

(** What is handed to the queue for a message. *)
Definition sent_again (e : send_env) (p : melodi_pending_message) : list bytes :=
  map (fun i => nth i p.(pm_fragments) []) (List.filter (fun i => e.(se_clone) (Z.of_nat i)) (unacknowledged p)).

Definition after_look (after : core -> core) (e : send_env) (clock : look_clock) (choice : retry_choice) (s : core) : core :=
  match choice with
  | RetryNothing => s
  | RetryFailed p error => logged [pending_error p error] s
  | RetrySend p _ =>
      match sent_again e p with
      | [] => s
      | frames => (melodi_core_send_batch e.(se_namespace) e.(se_running) e.(se_carrier) e.(se_net) (after s) frames
                     (MkTxMeta p.(pm_destination_link_locator) p.(pm_source_link_locator) p.(pm_cookie))
                     (retry_request clock.(ck_request) p) e.(se_queue_ms)).1
      end
  end.

Lemma work_effect after e clock busy s : filing_ok s.(c_dev).(d_pending) -> (forall i, clock.(ck_poll) i + 600000 <= U64_MAX) ->
  exists looked choice, retry_effect busy clock (seq 0 MELODI_PENDING_LIMIT) s looked choice /\
    melodi_reliability_work msecs_to_jiffies after e clock busy s = after_look after e clock choice (scheduled looked).
Proof.
  intros Hok Hn. pose proof (retry_loop_effect busy clock Hn (seq 0 MELODI_PENDING_LIMIT) s (seq_NoDup _ _) Hok) as H.
  unfold melodi_reliability_work, retry_locked. destruct (retry_loop _ _ _ s) as [looked choice]. exists looked, choice. split; [exact H|].
  fold (scheduled looked). destruct H as [mid H1 H2|mid i p error H1 H2 H3 H4 H5|mid i p missing H1 H2 H3 H4 H5 H6]; [reflexivity..|].
  rewrite (missing_frames _ missing p H6). fold (sent_again e p). unfold after_look. now destruct (sent_again e p).
Qed.
End Pass.

(** ** Acknowledgements *)

(** What an authentic acknowledgement makes of the message it names: what is left of it,
    and what its binding is told. *)
Definition settlement (now_ms : Z) (ack : melodi_wire_ack) (p : melodi_pending_message) : option melodi_pending_message * option errno :=
  let r := p.(pm_reliability) in
  if p.(pm_expires_ms) <=? now_ms then (None, Some ETIMEDOUT) else
  if ack.(ack_status) =? MELODI_ACK_REJECTED then (None, Some ECONNREFUSED) else
  let bits := Z.lor r.(acknowledged) ack.(ack_bitmap) in
  if acknowledged_all r.(Reliability.fragment_count) bits then (None, None)
  else (Some (set_pm_reliability (set_acknowledged r bits) p), None).

Definition settled (s : core) (i : nat) (p : melodi_pending_message) (rest : option melodi_pending_message) : core :=
  match rest with
  | Some q => with_table (<[i := q]> s.(c_dev).(d_pending)) s
  | None => logged (map Released (message_frames p)) (with_table (<[i := zero_pending_message]> s.(c_dev).(d_pending)) s)
  end.

(** An acknowledgement as the decoder lets it through. *)
Record ack_wf (ack : melodi_wire_ack) : Prop := {
  aw_count : 1 <= ack.(ack_fragment_count) <= 64;
  aw_bitmap : u64 ack.(ack_bitmap);
  aw_some : ack.(ack_bitmap) <> 0;
  aw_within : has ack.(ack_bitmap) (lnot_w 64 (melodi_reliability_mask ack.(ack_fragment_count))) = false;
}.

Lemma decoded_ack_wf frame ack : Forall u8 frame -> melodi_wire_decode_ack frame = Ok ack -> ack_wf ack.
Proof.
  intros Hf Hd. wire_unfold_in melodi_wire_decode_ack Hd. apply bind_Ok in Hd as (c & _ & Hd). guards_in Hd. injection Hd as <-. guard_hyps. split_hyps.
  assert (u64 (get_be64 (drop 48 frame))) as Hu by (apply get_be64_u64; now apply Forall_drop).
  assert (u16 (get_be16 (drop 44 frame))) as [Hlo _] by (apply get_be16_u16; now apply Forall_drop).
  cbn [ack_fragment_count ack_bitmap ack_status acknowledged_generation] in *.
  constructor; cbn [ack_fragment_count ack_bitmap]; [lia|exact Hu|assumption|assumption].
Qed.

(** An acknowledgement and a message of the same name. *)
Record ack_names (ack : melodi_wire_ack) (source : melodi_node_id) (session_epoch : Z) (p : melodi_pending_message) : Prop := {
  an_filed : p.(pm_allocated) = true;
  an_message : p.(pm_reliability).(Reliability.message_id) = ack.(ack_common).(Wire.message_id);
  an_generation : p.(pm_reliability).(Reliability.generation) = ack.(acknowledged_generation);
  an_count : p.(pm_reliability).(Reliability.fragment_count) = ack.(ack_fragment_count);
  an_destination : p.(pm_destination) = source;
  an_session : p.(pm_session_epoch) = session_epoch;
  an_destination_generation : p.(pm_destination_generation) = ack.(ack_common).(identity_generation);
  an_locator : p.(pm_destination_native_locator) = ack.(ack_common).(source_native_locator);
}.

Lemma ack_settle_exact now_ms i p source epoch ack s : ack_wf ack -> ack_names ack source epoch p -> filed_message_ok p -> s.(c_dev).(d_pending) !! i = Some p ->
  ack_settle now_ms i p ack s = (settled s i p (settlement now_ms ack p).1, Ok tt, (settlement now_ms ack p).2).
Proof.
  intros [W1 W2 W3 W4] [N1 N2 N3 N4 _ _ _ _] [F1 F2 _ _] Hp. unfold ack_settle, settlement.
  destruct (_ <=? now_ms); [now rewrite (clear_exact s i p Hp N1)|].
  destruct (F2 F1) as (G1 & G2 & G3 & _ & _).
  unfold melodi_reliability_ack. rewrite F1, <- N2, <- N3, <- N4, !Z.eqb_refl. cbn [negb orb]. rewrite N4, W4, orb_false_r.
  rewrite (proj2 (Z.eqb_neq _ _) W3). set (bits := Z.lor _ _).
  assert (acknowledged_all ack.(ack_fragment_count) bits = (bits =? melodi_reliability_mask ack.(ack_fragment_count))) as ->.
  { apply acknowledged_all_mask; [exact W1|now apply uint_lor|]. intros j Hj. subst bits. rewrite Z.lor_spec. rewrite N4 in *.
    rewrite (proj1 (within_mask _ _ W1 G2) G3 j Hj). apply (within_mask _ _ W1 W2); [|exact Hj]. unfold has in W4. lia. }
  assert (forall r, r.(Reliability.fragment_count) = p.(pm_reliability).(Reliability.fragment_count) ->
    melodi_pending_clear (with_pending i (set_pm_reliability r p) s) i = settled s i p None) as Hc.
  { intros r Hr. rewrite (clear_exact _ i (set_pm_reliability r p)); [|cbn; apply list_lookup_insert_eq; now apply lookup_lt_Some in Hp|exact N1].
    unfold message_frames. cbn [pm_reliability set_pm_reliability pm_fragments]. rewrite Hr. cbn [settled with_pending set_dev c_dev set_d_pending d_pending].
    now rewrite list_insert_insert_eq. }
  destruct (_ =? MELODI_ACK_REJECTED); [now rewrite Hc|]. cbn [acknowledged set_acknowledged].
  destruct (bits =? _); [now rewrite Hc|reflexivity].
Qed.

(** The session an acknowledgement comes from. *)
Record ack_session (melodi : melodi_device) (ack : melodi_wire_ack) (meta : melodi_rx_meta) (peer : melodi_peer) : Prop := {
  as_known : exists i, melodi.(d_peers) !! i = Some peer;
  as_authenticated : peer.(p_authenticated) = true;
  as_ready : peer.(p_session_ready) = true;
  as_unique : peer.(p_conflicted) = false;
  as_locator : peer.(p_native_locator) = ack.(ack_common).(source_native_locator);
  as_generation : peer.(p_generation) = ack.(ack_common).(identity_generation);
  as_link : peer.(p_link_locator) = meta.(rm_source_locator);
  as_here : ack.(ack_common).(destination_native_locator) = melodi.(d_link).(l_local_native_locator) /\
            meta.(rm_destination_locator) = melodi.(d_link).(l_local_link_locator);
}.

Lemma ack_lookup_session melodi ack meta key source epoch : ack_lookup melodi ack meta = Ok (key, source, epoch) ->
  exists peer, ack_session melodi ack meta peer /\ key = peer.(p_receive_key) /\ source = peer.(p_node_id) /\ epoch = peer.(p_session_epoch).
Proof.
  unfold ack_lookup. intros H. destruct (_ ≫= _) as [peer|] eqn:Hb; [|discriminate]. apply bind_Some in Hb as (i & Hi & Hp).
  destruct (peer_by_locator_Some _ _ _ Hi) as (peer' & Hp' & Ha & Hc & Hl). assert (peer' = peer) as -> by congruence.
  destruct (_ || _) eqn:G in H; [discriminate|]. injection H as <- <- <-. rewrite !orb_false_iff, !negb_false_iff in G. split_hyps.
  exists peer. conj_split; auto. constructor; eauto; try split; lia.
Qed.

Lemma acknowledges_names ack source epoch peer p : peer.(p_generation) = ack.(ack_common).(identity_generation) ->
  peer.(p_native_locator) = ack.(ack_common).(source_native_locator) -> acknowledges ack epoch peer source p = true -> ack_names ack source epoch p.
Proof.
  intros Eg El. unfold acknowledges. rewrite !andb_true_iff, !Z.eqb_eq, node_eqb_eq. intros H. split_hyps. constructor; congruence.
Qed.

(** The counter of an acknowledgement, and the window that has seen it. *)
Definition ack_counter (ack : melodi_wire_ack) : Z * Z := (ack.(ack_common).(source_native_locator), ack.(ack_common).(counter)).

Definition ack_data (ack : melodi_wire_ack) : melodi_wire_data :=
  {| data_common := ack.(ack_common); destination_service := 0; source_service := 0; fragment_index := 0; Wire.fragment_count := 0;
     logical_length := 0; delivery_mode := 0; priority := 0; ordering_marker := 0; data_tag := [] |}.

Section Ack.
  Context {A : Aead} {L : AeadLaws A} (msecs_to_jiffies : Z -> Z).

(** The second section: refused, with the filed messages and the log as they were, or
    one message settled. *)
Lemma opened_settles now_ms now_ns s ack source epoch meta : ack_wf ack -> filing_ok s.(c_dev).(d_pending) ->
  let '(s', answer) := ack_opened msecs_to_jiffies now_ms now_ns s ack source epoch meta in
  sessions_kept s s' /\
  match answer with
  | Err _ => s'.(c_dev).(d_pending) = s.(c_dev).(d_pending) /\ s'.(c_log) = s.(c_log)
  | Ok _ => exists i p,
      ~ seen_at s (ack_counter ack) /\ seen_at s' (ack_counter ack) /\
      s.(c_dev).(d_pending) !! i = Some p /\ ack_names ack source epoch p /\
      let '(rest, told) := settlement now_ms ack p in
      s'.(c_dev).(d_pending) = (settled s i p rest).(c_dev).(d_pending) /\
      s'.(c_log) = (settled s i p rest).(c_log) ++ match told with Some error => [pending_error p error] | None => [] end
  end.
Proof.
  intros Hw Hok. unfold ack_opened. destruct (_ ≫= _) as [[slot peer]|] eqn:Hb; [|split; [apply kept_reception|]; auto].
  destruct (_ || _) eqn:G; [split; [apply kept_reception|]; auto|]. apply peer_entry_Some in Hb as [Hi Hp].
  destruct (peer_by_locator_Some _ _ _ Hi) as (peer' & Hp' & Ha & Hc & Hl). assert (peer' = peer) as -> by congruence.
  rewrite !orb_false_iff, !negb_false_iff in G. split_hyps.
  destruct (melodi_replay_mark _ _) as [replay|] eqn:Hm; [|split; [apply kept_reception|]; auto].
  set (q := melodi_peer_observe_locked _ _ _). set (s1 := set_dev (with_peer slot q (c_dev s)) s).
  assert (sessions_kept s s1) as Hk by (apply (kept_peer s s1 slot peer q Hp (marked_le _ _ _ _ _ Hm)); reflexivity).
  destruct (find_index _ _) as [i|] eqn:Hf; cbn [mbind option_bind]; [|split; auto].
  apply find_index_Some in Hf as (p & Hp2 & Hn & _). rewrite Hp2. cbn [fmap option_fmap option_map].
  assert (ack_names ack source epoch p) as Hnames by (apply (acknowledges_names ack source epoch q p); [cbn; lia|cbn; lia|exact Hn]).
  rewrite (ack_settle_exact now_ms i p source epoch ack s1 Hw Hnames (filing_lookup _ _ _ Hok Hp2 (an_filed _ _ _ _ Hnames)) Hp2).
  destruct (settlement now_ms ack p) as [rest told] eqn:Es. cbn [fst snd].
  set (s2 := set_dev (melodi_reliability_schedule _ _) _).
  set (s3 := match told with Some _ => _ | None => s2 end).
  assert (reception s3 = reception s1) as Hr by (subst s3 s2; unfold melodi_reliability_schedule, settled; destruct told, rest, (melodi_reliability_pending _); reflexivity).
  split; [etransitivity; [exact Hk|]; apply kept_reception; now rewrite Hr|].
  destruct (fresh_marked s s3 (ack_data ack) slot peer replay now_ns meta Hi Hp Hm) as [K1 K2].
  { apply kept_reception. exact (eq_sym Hr). }
  exists i, p. rewrite Es. conj_split; auto.
  - subst s3 s2. unfold melodi_reliability_schedule, settled. destruct told, rest, (melodi_reliability_pending _); reflexivity.
  - subst s3 s2. unfold melodi_reliability_schedule, settled.
    destruct told, rest, (melodi_reliability_pending _); cbn [c_log emit set_dev logged with_table]; symmetry; rewrite ?app_nil_r; reflexivity.
Qed.
End Ack.

(** ** Time *)

Lemma fold_left_step {S E} (f : S -> E -> S) x l a : fold_left f (x :: l) a = fold_left f l (f a x).
Proof. reflexivity. Qed.

Section Expiry.
  Context (msecs_to_jiffies : Z -> Z).

(** A look that finds only messages past their time ends the first of them. *)
Lemma expired_loop busy clock s : forall indices,
  (forall i p, In i indices -> s.(c_dev).(d_pending) !! i = Some p -> p.(pm_allocated) = true -> p.(pm_expires_ms) <= clock.(ck_valid) i) ->
  retry_loop busy clock indices s = (s, RetryNothing) /\
    (forall i p, In i indices -> s.(c_dev).(d_pending) !! i = Some p -> p.(pm_allocated) = false) \/
  exists i p, s.(c_dev).(d_pending) !! i = Some p /\ p.(pm_allocated) = true /\
    retry_loop busy clock indices s = (melodi_pending_clear s i, RetryFailed p ETIMEDOUT).
Proof.
  induction indices as [|i indices IH]; intros He; [left; split; [reflexivity|intros i p []]|].
  cbn [retry_loop]. specialize (IH (fun j p h => He j p (or_intror h))).
  assert ((forall p, s.(c_dev).(d_pending) !! i = Some p -> p.(pm_allocated) = false) ->
    retry_loop busy clock indices s = (s, RetryNothing) /\
      (forall j p, In j (i :: indices) -> s.(c_dev).(d_pending) !! j = Some p -> p.(pm_allocated) = false) \/
    exists j p, s.(c_dev).(d_pending) !! j = Some p /\ p.(pm_allocated) = true /\
      retry_loop busy clock indices s = (melodi_pending_clear s j, RetryFailed p ETIMEDOUT)) as Hskip.
  { intros Hi. destruct IH as [[H1 H2]|H]; [left; split; [exact H1|]|now right]. intros j p [->|Hj]; [apply Hi|now apply H2]. }
  destruct (d_pending (c_dev s) !! i) as [p|] eqn:Hp; [|apply Hskip; congruence].
  destruct (pm_allocated p) eqn:Ap; cbn [negb]; [|apply Hskip; congruence].
  right. exists i, p. repeat split; auto. unfold melodi_pending_valid_locked.
  now rewrite (proj2 (Z.leb_le _ _) (He i p (or_introl eq_refl) Hp Ap)).
Qed.

(** Passes of the work, each with what happens around it. *)
Definition work_pass : Type := (core -> core) * send_env * look_clock * bool.
Definition work_run (passes : list work_pass) (s : core) : core :=
  fold_left (fun s (pass : work_pass) => melodi_reliability_work msecs_to_jiffies pass.1.1.1 pass.1.1.2 pass.1.2 pass.2 s) passes s.

Lemma work_run_cons pass passes s :
  work_run (pass :: passes) s = work_run passes (melodi_reliability_work msecs_to_jiffies pass.1.1.1 pass.1.1.2 pass.1.2 pass.2 s).
Proof. unfold work_run. now rewrite fold_left_step. Qed.

Lemma scheduled_same s : filed_messages (scheduled msecs_to_jiffies s) = filed_messages s /\ c_log (scheduled msecs_to_jiffies s) = c_log s /\
  d_pending (c_dev (scheduled msecs_to_jiffies s)) = d_pending (c_dev s).
Proof. unfold filed_messages, scheduled, melodi_reliability_schedule. now destruct (melodi_reliability_pending _). Qed.

Definition past (s : core) (pass : work_pass) : Prop := Forall (fun p => forall i, p.(pm_expires_ms) <= pass.1.2.(ck_valid) i) (filed_messages s).

Lemma expired_pass s pass : length s.(c_dev).(d_pending) = MELODI_PENDING_LIMIT -> past s pass ->
  let s' := melodi_reliability_work msecs_to_jiffies pass.1.1.1 pass.1.1.2 pass.1.2 pass.2 s in
  length s'.(c_dev).(d_pending) = MELODI_PENDING_LIMIT /\
  (filed_messages s = [] /\ filed_messages s' = [] /\ c_log s' = c_log s \/
   exists p, filed_messages s ≡ₚ p :: filed_messages s' /\ reported s s' [pending_error p ETIMEDOUT]).
Proof.
  intros Hl Hpast. destruct pass as [[[after e] clock] busy]. cbn [fst snd] in *. unfold past in Hpast. rewrite List.Forall_forall in Hpast.
  destruct (expired_loop busy clock s (seq 0 MELODI_PENDING_LIMIT)) as [[E H]|(i & p & Hp & Ap & E)].
  - intros i p _ Hp Ap. apply Hpast. apply filter_In. split; [|exact Ap]. apply list_elem_of_In. now apply list_elem_of_lookup_2 in Hp.
  - unfold melodi_reliability_work, retry_locked. rewrite E. fold (scheduled msecs_to_jiffies s).
    destruct (scheduled_same s) as (S1 & S2 & S3). rewrite S1, S2, S3. split; [exact Hl|]. left.
    assert (filed_messages s = []) as Ef.
    { apply filter_all_false. intros p Hp. apply list_elem_of_In, list_elem_of_lookup_1 in Hp as [j Hj].
      apply (H j p); [|exact Hj]. apply in_seq. apply lookup_lt_Some in Hj. lia. }
    auto.
  - unfold melodi_reliability_work, retry_locked. rewrite E. fold (scheduled msecs_to_jiffies (melodi_pending_clear s i)).
    destruct (pending_cleared s i p Hp Ap) as (E1 & P1 & r & E2 & E3). set (s1 := melodi_pending_clear s i) in *.
    destruct (scheduled_same s1) as (S1 & S2 & S3).
    change (c_dev (emit (pending_error p ETIMEDOUT) (scheduled msecs_to_jiffies s1))) with (c_dev (scheduled msecs_to_jiffies s1)).
    change (filed_messages (emit _ (scheduled msecs_to_jiffies s1))) with (filed_messages (scheduled msecs_to_jiffies s1)).
    rewrite S1, S3. split; [rewrite E1; cbn; now rewrite length_insert|]. right. exists p. split; [exact P1|].
    apply (reported_one s (scheduled msecs_to_jiffies s1)); [|exact I|reflexivity]. exists r. rewrite S2. split; [exact E2|now rewrite E3].
Qed.

Lemma work_run_expires passes : forall s, length s.(c_dev).(d_pending) = MELODI_PENDING_LIMIT -> Forall (past s) passes ->
  (length (filed_messages s) <= length passes)%nat ->
  let s' := work_run passes s in
  filed_messages s' = [] /\ reported s s' (map (fun p => pending_error p ETIMEDOUT) (filed_messages s)).
Proof.
  induction passes as [|pass passes IH]; intros s Hl Hp Hn; cbv zeta.
  { assert (filed_messages s = []) as E by (destruct (filed_messages s); [reflexivity|cbn in Hn; lia]). unfold work_run. rewrite E. cbn [fold_left]. rewrite E.
    split; [reflexivity|]. exists []. now rewrite app_nil_r. }
  apply list.Forall_cons in Hp as [H1 H2]. pose proof (expired_pass s pass Hl H1) as H.
  rewrite work_run_cons.
  set (s1 := melodi_reliability_work _ _ _ _ _ s) in *.
  destruct H as [Hl1 [(E1 & E2 & E3)|(p & P & R)]].
  - destruct (IH s1 Hl1) as [K1 K2].
    + apply (list.Forall_impl _ _ _ H2). intros x _. unfold past. rewrite E2. constructor.
    + rewrite E2. cbn. lia.
    + split; [exact K1|]. rewrite E1. rewrite E2 in K2. destruct K2 as (k & G1 & G2). exists k. rewrite G1, E3. auto.
  - destruct (IH s1 Hl1) as [K1 K2].
    + apply (list.Forall_impl _ _ _ H2). intros x. unfold past. rewrite P. intros Hx. now apply list.Forall_cons in Hx as [_ Hx].
    + rewrite P in Hn. cbn in Hn. lia.
    + split; [exact K1|]. destruct (reported_trans _ _ _ _ _ R K2) as (k & G1 & G2). exists k. split; [exact G1|]. rewrite G2, P. reflexivity.
Qed.
End Expiry.

(** ** Every filed message ends once

    The sections of the code that file a message, settle an acknowledgement and look
    for messages to send again, as events. *)

Inductive filing_event :=
| EvFile (a : send_args) (destination : melodi_node_id) (meta : melodi_tx_meta)
    (source_native_locator destination_native_locator generation destination_generation session_epoch message_id
     fragment_count pace_ms now_ms : Z) (frames : list bytes)
| EvAnswer (now_ms now_ns : Z) (ack : melodi_wire_ack) (source : melodi_node_id) (session_epoch : Z) (meta : melodi_rx_meta)
| EvLook (busy : bool) (clock : look_clock).

Definition filing_event_ok (ev : filing_event) : Prop :=
  match ev with
  | EvFile a _ _ _ _ _ _ _ _ fragment_count _ _ frames =>
      a.(sa_source_service) <> 0 /\ 0 <= fragment_count <= zlen frames
  | EvAnswer _ _ ack _ _ _ => ack_wf ack
  | EvLook _ clock => forall i, clock.(ck_poll) i + 600000 <= U64_MAX
  end.

(** What stays of a message when it is sent again or acknowledged in part. *)
Definition letter (p : melodi_pending_message) : melodi_pending_message :=
  let r := p.(pm_reliability) in
  set_pm_reliability (set_next_retry (set_retries (set_acknowledged r 0) 0) 0) p.

Section Filing.
  Context (msecs_to_jiffies : Z -> Z).

(** A step, and the message that was filed. *)
Definition filing_step (s : core) (ev : filing_event) : core * list melodi_pending_message :=
  match ev with
  | EvFile a d meta sl dl g dg ep id count pace now frames =>
      let '(s', filed) := melodi_pending_admit_locked msecs_to_jiffies s a d meta sl dl g dg ep id count pace now frames in
      (s', match filed, find_index (fun p => negb p.(pm_allocated)) s.(c_dev).(d_pending) ≫= fun i => s'.(c_dev).(d_pending) !! i with
           | Ok _, Some p => [p]
           | _, _ => []
           end)
  | EvAnswer now_ms now_ns ack source epoch meta => ((ack_opened msecs_to_jiffies now_ms now_ns s ack source epoch meta).1, [])
  | EvLook busy clock =>
      let '(s', choice) := retry_locked msecs_to_jiffies busy clock s in
      (match choice with RetryFailed p error => emit (pending_error p error) s' | _ => s' end, [])
  end.

Fixpoint filing_run (s : core) (l : list filing_event) : core * list melodi_pending_message :=
  match l with
  | [] => (s, [])
  | ev :: l =>
      let '(s1, filed) := filing_step s ev in
      let '(s', more) := filing_run s1 l in (s', filed ++ more)
  end.
End Filing.

(** The end of a message: what it was, and what its binding was told. *)
Definition ending : Type := melodi_pending_message * option errno.
Definition told_of (e : ending) : list event := match e.2 with Some error => [pending_error e.1 error] | None => [] end.

Record filing_step_spec (now_answered : melodi_pending_message -> Prop) (s s' : core) (filed : list melodi_pending_message) (ends : list ending)
    : Prop := {
  fs_ok : filing_ok s'.(c_dev).(d_pending);
  fs_messages : map letter (filed_messages s ++ filed) ≡ₚ map letter (filed_messages s' ++ map fst ends);
  fs_told : reported s s' (concat (map told_of ends));
  fs_silent : Forall (fun e => e.2 = None -> now_answered e.1) ends;
}.

Lemma letters_postponed l mid : Forall2 postponed l mid -> map letter (List.filter pm_allocated mid) = map letter (List.filter pm_allocated l).
Proof.
  induction 1 as [|p q l mid (t & ->) H IH]; [reflexivity|]. cbn [List.filter pm_allocated set_pm_reliability].
  destruct (pm_allocated p); cbn [map]; [now rewrite IH|exact IH].
Qed.

Lemma filing_postponed l mid : Forall2 postponed l mid -> filing_ok l -> filing_ok mid.
Proof.
  intros H Hok. apply Forall_lookup_2. intros i q Hq Aq. destruct (Forall2_lookup_r _ _ _ _ _ H Hq) as (p & Hp & Hpq).
  apply (filed_postponed p q Hpq). apply (filing_lookup _ _ _ Hok Hp). now destruct Hpq as (t & ->).
Qed.

(** A place of the table is set: the messages but for that place. *)
Lemma letters_insert l i p q : l !! i = Some p ->
  exists rest, List.filter pm_allocated l ≡ₚ (if p.(pm_allocated) then p :: rest else rest) /\
    List.filter pm_allocated (<[i := q]> l) ≡ₚ (if q.(pm_allocated) then q :: rest else rest).
Proof. intros Hp. destruct (filter_place pm_allocated l i p Hp) as (rest & H1 & H2). exists rest. auto. Qed.

Lemma errors_released l : errors_of (map Released l) = [].
Proof. induction l; auto. Qed.

(** A message that was acknowledged wholly, by one of the acknowledgements of a run. *)
Definition answered (l : list filing_event) (p : melodi_pending_message) : Prop :=
  exists now_ms now_ns ack source epoch meta,
    In (EvAnswer now_ms now_ns ack source epoch meta) l /\ ack_names ack source epoch p /\ settlement now_ms ack p = (None, None).

Section Steps.
  Context (msecs_to_jiffies : Z -> Z).

Lemma reported_none s s' : c_log s' = c_log s -> reported s s' [].
Proof. intros E. exists []. now rewrite E, app_nil_r. Qed.

(** Nothing but the places of the messages changed. *)
Lemma filing_step_kept now_answered s s' mid : filing_ok s.(c_dev).(d_pending) -> Forall2 postponed s.(c_dev).(d_pending) mid ->
  s'.(c_dev).(d_pending) = mid -> c_log s' = c_log s -> filing_step_spec now_answered s s' [] [].
Proof.
  intros Hok Hm E El. constructor; [rewrite E; exact (filing_postponed _ _ Hm Hok)| |now apply reported_none|constructor].
  cbn [map]. rewrite !app_nil_r. unfold filed_messages. rewrite E. now rewrite (letters_postponed _ _ Hm).
Qed.

(** One place changed: its message goes on, or ends. *)
Lemma filing_step_place now_answered s s' mid i p o told : filing_ok s.(c_dev).(d_pending) -> Forall2 postponed s.(c_dev).(d_pending) mid ->
  s.(c_dev).(d_pending) !! i = Some p -> p.(pm_allocated) = true ->
  s'.(c_dev).(d_pending) = <[i := match o with Some q => q | None => zero_pending_message end]> mid ->
  (forall q, o = Some q -> q.(pm_allocated) = true /\ filed_message_ok q /\ letter q = letter p) ->
  (exists released, c_log s' = c_log s ++ released ++ match told with Some error => [pending_error p error] | None => [] end /\ errors_of released = []) ->
  (o <> None -> told = None) -> (o = None -> told = None -> now_answered p) ->
  filing_step_spec now_answered s s' [] (match o with Some _ => [] | None => [(p, told)] end).
Proof.
  intros Hok Hm Hp Ap E Ho (released & El & Er) Ht Ha. destruct (Forall2_lookup_l _ _ _ _ _ Hm Hp) as (q & Hq & Hpq).
  assert (pm_allocated q = true /\ letter q = letter p) as [Aq Eq] by (destruct Hpq as (t & ->); split; [exact Ap|reflexivity]).
  assert (filing_ok mid) as Hok' by exact (filing_postponed _ _ Hm Hok).
  destruct (letters_insert mid i q (match o with Some x => x | None => zero_pending_message end) Hq) as (rest & H1 & H2). rewrite Aq in H1.
  assert (map letter (filed_messages s) ≡ₚ letter p :: map letter rest) as Hs.
  { unfold filed_messages. rewrite <- (letters_postponed _ _ Hm), H1. cbn [map]. now rewrite Eq. }
  destruct o as [x|].
  - destruct (Ho x eq_refl) as (Ax & Fx & Ex). rewrite Ax in H2. rewrite (Ht ltac:(discriminate)) in El. constructor.
    + rewrite E. now apply filing_insert.
    + rewrite app_nil_r. cbn [map]. rewrite app_nil_r, Hs. unfold filed_messages. rewrite E, H2. cbn [map]. now rewrite Ex.
    + exists released. rewrite app_nil_r in El. cbn. now rewrite Er.
    + constructor.
  - constructor.
    + rewrite E. apply filing_insert; [exact Hok'|discriminate].
    + rewrite app_nil_r, Hs, map_app. unfold filed_messages. rewrite E, H2. cbn. apply Permutation_cons_append.
    + exists (released ++ match told with Some error => [pending_error p error] | None => [] end). split; [exact El|].
      rewrite errors_app, Er. unfold told_of. cbn. rewrite app_nil_r. now destruct told.
    + constructor; [|constructor]. cbn. intros ->. now apply Ha.
Qed.

Lemma filed_retried busy valid_ms now_ms s p : filed_message_ok p -> retry_due busy valid_ms now_ms s p -> filed_message_ok (retried now_ms p).
Proof.
  intros [F1 F2 F3 F4] [_ _ _ Hr]. constructor; auto. intros _. destruct (F2 F1) as (G1 & G2 & G3 & G4 & G5).
  unfold retried. cbn. conj_split; auto; lia.
Qed.

Lemma look_step l busy clock s : filing_ok s.(c_dev).(d_pending) -> (forall i, clock.(ck_poll) i + 600000 <= U64_MAX) ->
  exists ends, filing_step_spec (answered l) s (filing_step msecs_to_jiffies s (EvLook busy clock)).1 [] ends.
Proof.
  intros Hok Hn. pose proof (retry_loop_effect busy clock Hn (seq 0 MELODI_PENDING_LIMIT) s (seq_NoDup _ _) Hok) as H.
  cbn [filing_step]. unfold retry_locked. destruct (retry_loop _ _ _ s) as [looked choice]. fold (scheduled msecs_to_jiffies looked).
  destruct (scheduled_same msecs_to_jiffies looked) as (_ & Sl & Sp). cbn [fst].
  destruct H as [mid H1 H2|mid i p error H1 H2 H3 H4 H5|mid i p missing H1 H2 H3 H4 H5 H6].
  - exists []. now apply (filing_step_kept _ _ _ mid).
  - exists [(p, Some error)]. apply (filing_step_place _ s _ mid i p None (Some error)); auto; try congruence.
    exists (map Released (message_frames p)). split; [|apply errors_released]. cbn [c_log emit]. rewrite Sl. cbn. now rewrite app_assoc.
  - exists []. apply (filing_step_place _ s _ mid i p (Some (retried (ck_poll clock i) p)) None); auto; try congruence.
    + intros q [= <-]. split; [exact H4|]. split; [|reflexivity].
      exact (filed_retried busy _ _ s p (filing_lookup _ _ _ Hok H3 H4) H5).
    + exists []. split; [|reflexivity]. rewrite Sl. cbn. now rewrite app_nil_r.
Qed.

Lemma filed_acked p b : filed_message_ok p -> u64 b -> Z.land b (lnot_w 64 (melodi_reliability_mask p.(pm_reliability).(Reliability.fragment_count))) = 0 ->
  acknowledged_all p.(pm_reliability).(Reliability.fragment_count) (Z.lor p.(pm_reliability).(acknowledged) b) = false ->
  filed_message_ok (set_pm_reliability (set_acknowledged p.(pm_reliability) (Z.lor p.(pm_reliability).(acknowledged) b)) p).
Proof.
  intros [F1 F2 F3 F4] Hu Hb Hall. constructor; auto. intros _. destruct (F2 F1) as (G1 & G2 & G3 & G4 & G5).
  assert (forall j, Reliability.fragment_count (pm_reliability p) <= j -> Z.testbit (Z.lor (acknowledged (pm_reliability p)) b) j = false) as Hj.
  { intros j Hj. rewrite Z.lor_spec, (proj1 (within_mask _ _ G1 G2) G3 j Hj). exact (proj1 (within_mask _ _ G1 Hu) Hb j Hj). }
  assert (u64 (Z.lor (acknowledged (pm_reliability p)) b)) as Hl by now apply uint_lor.
  split; [exact G1|]. split; [exact Hl|]. split; [now apply within_mask|]. split; [|exact G5].
  cbn. intros E. rewrite acknowledged_all_mask, E, Z.eqb_refl in Hall by assumption. discriminate.
Qed.

Lemma answer_step l now_ms now_ns ack source epoch meta s : filing_ok s.(c_dev).(d_pending) -> ack_wf ack ->
  In (EvAnswer now_ms now_ns ack source epoch meta) l ->
  exists ends, filing_step_spec (answered l) s (filing_step msecs_to_jiffies s (EvAnswer now_ms now_ns ack source epoch meta)).1 [] ends.
Proof.
  intros Hok Hw Hin. pose proof (opened_settles msecs_to_jiffies now_ms now_ns s ack source epoch meta Hw Hok) as H. cbn [filing_step fst].
  destruct (ack_opened _ _ _ _ _ _ _ _) as [s' [[]|error]]; cbn [fst]; destruct H as [_ H].
  2: { exists []. destruct H as [H1 H2]. now apply (filing_step_kept _ _ _ s.(c_dev).(d_pending)); auto using postponed_all. }
  destruct H as (i & p & _ & _ & Hp & Hn & H). pose proof (filing_lookup _ _ _ Hok Hp (an_filed _ _ _ _ Hn)) as Hf.
  destruct (settlement now_ms ack p) as [o told] eqn:Es. destruct H as [H1 H2].
  assert (answered_if : o = None -> told = None -> answered l p).
  { intros -> ->. exists now_ms, now_ns, ack, source, epoch, meta. auto. }
  assert (o <> None -> told = None /\ forall q, o = Some q -> filed_message_ok q /\ letter q = letter p /\ q.(pm_allocated) = true) as Hrest.
  { revert Es. unfold settlement. do 2 (match goal with |- context [if ?b then _ else _] => destruct b; [intros [= <- <-]; congruence|] end).
    destruct (acknowledged_all _ _) eqn:Ea; [intros [= <- <-]; congruence|]. intros [= <- <-] _. split; [reflexivity|].
    intros q [= <-]. split; [|split; [reflexivity|exact (an_filed _ _ _ _ Hn)]]. destruct Hw as [_ W2 _ W4]. apply filed_acked; auto.
    rewrite (an_count _ _ _ _ Hn). unfold has in W4. lia. }
  exists (match o with Some _ => [] | None => [(p, told)] end).
  apply (filing_step_place _ s s' s.(c_dev).(d_pending) i p o told); auto using postponed_all.
  - exact (an_filed _ _ _ _ Hn).
  - rewrite H1. now destruct o.
  - intros q Eq. destruct Hrest as [_ Hq]; [congruence|]. destruct (Hq q Eq) as (K1 & K2 & K3). auto.
  - rewrite H2. destruct o; cbn.
    + exists []. auto.
    + exists (map Released (message_frames p)). rewrite app_assoc. split; [reflexivity|apply errors_released].
  - intros Ho. now destruct (Hrest Ho).
Qed.

(** A free place is set, to a message or not. *)
Lemma step_filed now_answered s s' i old q : filing_ok s.(c_dev).(d_pending) -> s.(c_dev).(d_pending) !! i = Some old -> old.(pm_allocated) = false ->
  s'.(c_dev).(d_pending) = <[i := q]> s.(c_dev).(d_pending) -> c_log s' = c_log s -> (q.(pm_allocated) = true -> filed_message_ok q) ->
  filing_step_spec now_answered s s' (if q.(pm_allocated) then [q] else []) [].
Proof.
  intros Hok Hp Ho E El Hq. destruct (letters_insert _ i old q Hp) as (rest & H1 & H2). rewrite Ho in H1. constructor.
  - rewrite E. now apply filing_insert.
  - cbn [map]. rewrite app_nil_r, map_app. unfold filed_messages. rewrite E, H1, H2. destruct (pm_allocated q); cbn [map].
    + symmetry. apply Permutation_cons_append.
    + now rewrite app_nil_r.
  - now apply reported_none.
  - constructor.
Qed.

Lemma started_filed r old_r id g count now pace ttl : melodi_reliability_start old_r id g count now pace ttl = (r, Ok tt) -> 0 <= count ->
  r.(active) = true /\ reliability_inv r /\ r.(Reliability.fragment_count) = count.
Proof.
  intros H Hc. destruct (start_state _ _ _ _ _ _ _ _ H Hc) as (H1 & H2 & H3 & H4 & _ & _ & H5). split; [exact H1|]. split; [|exact H5].
  destruct (rel_exec_history r [] ltac:(conj_split; auto; lia) ltac:(constructor)) as [_ K]. now destruct (K H1) as (_ & _ & K3).
Qed.

Lemma reserved_same s a :
  let s1 := (if sa_reservation a =? 0 then (s, Ok tt) else melodi_queue_reservation_pending s (sa_reservation a)).1 in
  s1.(c_dev).(d_pending) = s.(c_dev).(d_pending) /\ c_log s1 = c_log s.
Proof.
  destruct (_ =? 0); [auto|]. unfold melodi_queue_reservation_pending.
  pose proof (outside_with_reservation s (sa_reservation a) v_pending_reserved (set_v_pending_reserved false)
    (fun t => set_t_pending_reserved (wrap 16 (t.(t_pending_reserved) - 1)) t)) as E. cbn zeta.
  set (s1 := (with_reservation _ _ _ _ _).1) in *. clearbody s1.
  split; [change (d_pending (outside s1).1 = d_pending (outside s).1)|change ((outside s1).2 = (outside s).2)]; now rewrite E.
Qed.

Lemma filing_admits l a d meta sl dl g dg ep id count pace now frames s : filing_ok s.(c_dev).(d_pending) ->
  filing_event_ok (EvFile a d meta sl dl g dg ep id count pace now frames) ->
  exists filed, (filing_step msecs_to_jiffies s (EvFile a d meta sl dl g dg ep id count pace now frames)).2 = filed /\
    filing_step_spec (answered l) s (filing_step msecs_to_jiffies s (EvFile a d meta sl dl g dg ep id count pace now frames)).1 filed [].
Proof.
  intros Hok [Hsrc Hc]. eexists. split; [reflexivity|]. cbn [filing_step]. unfold melodi_pending_admit_locked.
  destruct (find_index _ _) as [i|] eqn:Hi; cbn [mbind option_bind].
  2: { cbn. apply (filing_step_kept _ _ _ s.(c_dev).(d_pending)); auto using postponed_all. }
  apply find_index_Some in Hi as (old & Hp & Ho%negb_true_iff & _). pose proof (reserved_same s a) as [E1 E2].
  destruct (if sa_reservation a =? 0 then _ else _) as [s1 [[]|error]]; cbn [fst snd] in *.
  2: { apply (filing_step_kept _ _ _ s.(c_dev).(d_pending)); auto using postponed_all. }
  destruct (_ <? _); [apply (filing_step_kept _ _ _ s.(c_dev).(d_pending)); auto using postponed_all|].
  rewrite E1, Hp. destruct (melodi_reliability_start _ _ _ _ _ _ _) as [r [[]|error]] eqn:Hr.
  - destruct (started_filed _ _ _ _ _ _ _ _ Hr ltac:(lia)) as (R1 & R2 & R3). set (q := MkPending _ _ _ _ _ _ _ _ _ _ _ _ _ _ _ _ _ _).
    set (s' := set_dev _ s1).
    assert (d_pending (c_dev s') = <[i := q]> (d_pending (c_dev s)) /\ c_log s' = c_log s) as [E3 E4].
    { subst s'. unfold melodi_reliability_schedule. now destruct (melodi_reliability_pending _). }
    cbn [fst snd]. rewrite E3, list_lookup_insert_eq by now apply lookup_lt_Some in Hp.
    apply (step_filed _ s s' i old q Hok Hp Ho E3 E4). intros _. constructor; cbn; auto; [].
    rewrite R3. unfold zlen in *. rewrite length_app, length_take. lia.
  - set (s' := set_dev _ s1). pose proof (step_filed (answered l) s s' i old (set_pm_reliability r old) Hok Hp Ho eq_refl E2) as H.
    cbn [pm_allocated set_pm_reliability] in H. rewrite Ho in H. apply H. congruence.
Qed.

Lemma look_files busy clock s : (filing_step msecs_to_jiffies s (EvLook busy clock)).2 = [].
Proof. unfold filing_step. now destruct (retry_locked msecs_to_jiffies busy clock s). Qed.

(** A run: what was filed is still there or ended, once. *)
Lemma spec_trans l1 l2 l s1 s2 s3 f1 f2 e1 e2 : incl l1 l -> incl l2 l ->
  filing_step_spec (answered l1) s1 s2 f1 e1 -> filing_step_spec (answered l2) s2 s3 f2 e2 ->
  filing_step_spec (answered l) s1 s3 (f1 ++ f2) (e1 ++ e2).
Proof.
  intros I1 I2 [A1 A2 A3 A4] [B1 B2 B3 B4].
  assert (forall l' e, incl l' l -> Forall (fun e : ending => e.2 = None -> answered l' e.1) e -> Forall (fun e => e.2 = None -> answered l e.1) e) as Hin.
  { intros l' e Hl He. apply (list.Forall_impl _ _ _ He). intros x Hx Hn. destruct (Hx Hn) as (? & ? & ? & ? & ? & ? & H & K).
    do 6 eexists. split; [apply Hl; exact H|exact K]. }
  constructor; [exact B1| | |apply Forall_app; split; eauto].
  - rewrite app_assoc, (map_app letter _ f2), A2, map_app, <- app_assoc, (Permutation_app_comm _ (map letter f2)), app_assoc, <- map_app, B2.
    rewrite !map_app, <- !app_assoc. apply Permutation_app_head, Permutation_app_comm.
  - rewrite map_app, concat_app. exact (reported_trans _ _ _ _ _ A3 B3).
Qed.

Lemma run_ends l : forall s, filing_ok s.(c_dev).(d_pending) -> Forall filing_event_ok l ->
  let '(s', filed) := filing_run msecs_to_jiffies s l in exists ends, filing_step_spec (answered l) s s' filed ends.
Proof.
  induction l as [|ev l IH]; intros s Hok Hl; cbn [filing_run].
  { exists []. apply (filing_step_kept _ _ _ s.(c_dev).(d_pending)); auto using postponed_all. }
  apply list.Forall_cons in Hl as [He Hl].
  assert (exists ends, filing_step_spec (answered [ev]) s (filing_step msecs_to_jiffies s ev).1 (filing_step msecs_to_jiffies s ev).2 ends) as (e1 & H1).
  { destruct ev as [a d meta sl dl g dg ep id count pace now frames|now_ms now_ns ack source epoch meta|busy clock].
    - destruct (filing_admits [EvFile a d meta sl dl g dg ep id count pace now frames] a d meta sl dl g dg ep id count pace now frames s Hok He) as (f & E & H).
      exists []. now rewrite E.
    - apply (answer_step _ now_ms now_ns ack source epoch meta s Hok He). now left.
    - destruct (look_step [EvLook busy clock] busy clock s Hok He) as (ends & H). exists ends. now rewrite look_files. }
  destruct (filing_step msecs_to_jiffies s ev) as [s1 f1]. cbn [fst snd] in H1. pose proof (IH s1 (fs_ok _ _ _ _ _ H1) Hl) as H2.
  destruct (filing_run msecs_to_jiffies s1 l) as [s' f2]. destruct H2 as (e2 & H2). exists (e1 ++ e2).
  apply (spec_trans [ev] l (ev :: l) _ _ _ _ _ _ _) with (3 := H1) (4 := H2); intros x Hx; [destruct Hx as [->|[]]; now left|now right].
Qed.
End Steps.

(** ** What holds of the code *)

(** Retransmission is exact.  A pass of [melodi_reliability_work] over filed messages
    in order, the clock ten minutes short of its end, does one of three things: it
    finds every message valid and puts off those that are queued; or it ends one, which
    is not valid any more or has used up its retransmissions or its deadline, and tells
    its binding why; or it hands the queue exactly those fragments of one due message
    that are not acknowledged and could be cloned, in order and in the bytes they were
    sealed to, under the session they were sealed for.  No other message changes but for
    the time of its next turn, and a due message always misses a fragment. *)
Theorem retransmission_exact msecs_to_jiffies after e clock busy s :
  filing_ok s.(c_dev).(d_pending) -> (forall i, clock.(ck_poll) i + 600000 <= U64_MAX) ->
  exists looked choice, retry_effect busy clock (seq 0 MELODI_PENDING_LIMIT) s looked choice /\
    melodi_reliability_work msecs_to_jiffies after e clock busy s = after_look after e clock choice (scheduled msecs_to_jiffies looked) /\
    forall p missing, choice = RetrySend p missing -> unacknowledged p <> [].
Proof.
  intros Hok Hn. destruct (work_effect msecs_to_jiffies after e clock busy s Hok Hn) as (looked & choice & H1 & H2).
  exists looked, choice. split; [exact H1|]. split; [exact H2|]. intros p missing ->. inversion H1 as [| |mid i p' m H3 H4 H5 H6 H7 H8]; subst.
  exact (unacknowledged_some p (filing_lookup _ _ _ Hok H5 H6)).
Qed.

(** C13: an acknowledgement settles one message.  If [melodi_data_receive_ack] accepts a
    frame, the frame is sealed under the receive key of a session of this device, its
    counter is seen for the first time, and exactly the filed message that it names, of
    the same session, changes: it ends as too late, as refused, or as acknowledged
    wholly, and otherwise has the fragments of the bitmap acknowledged; its binding is
    told in the first two cases.  If the frame is refused, no filed message changes and
    nobody is told anything. *)
Theorem ack_settles {A : Aead} {L : AeadLaws A} msecs_to_jiffies between now_ms now_ns s frame meta :
  Forall u8 frame -> filing_ok (between s).(c_dev).(d_pending) ->
  let '(s', answer) := melodi_data_receive_ack msecs_to_jiffies between now_ms now_ns s frame meta in
  match answer with
  | Err _ => s' = s \/ sessions_kept (between s) s' /\ s'.(c_dev).(d_pending) = (between s).(c_dev).(d_pending) /\ c_log s' = c_log (between s)
  | Ok _ => exists ack peer i p,
      melodi_wire_decode_ack frame = Ok ack /\ ack_session s.(c_dev) ack meta peer /\
      ack.(ack_tag) = xchacha20poly1305_encrypt [] (load 0 56 frame) (frame_nonce ack.(ack_common)) peer.(p_receive_key) /\
      ~ seen_at (between s) (ack_counter ack) /\ seen_at s' (ack_counter ack) /\ sessions_kept (between s) s' /\
      (between s).(c_dev).(d_pending) !! i = Some p /\ ack_names ack peer.(p_node_id) peer.(p_session_epoch) p /\
      let '(rest, told) := settlement now_ms ack p in
      s'.(c_dev).(d_pending) = (settled (between s) i p rest).(c_dev).(d_pending) /\
      s'.(c_log) = (settled (between s) i p rest).(c_log) ++ match told with Some error => [pending_error p error] | None => [] end
  end.
Proof.
  intros Hf Hok. unfold melodi_data_receive_ack. destruct (melodi_wire_decode_ack frame) as [ack|] eqn:Hd; [|now left].
  destruct (ack_lookup _ _ _) as [[[key source] epoch]|] eqn:Hl; [|now left].
  destruct (xchacha20poly1305_decrypt _ _ _ _) as [plain|] eqn:Ho; [|now left].
  destruct (ack_lookup_session _ _ _ _ _ _ Hl) as (peer & Hs & -> & -> & ->).
  pose proof (opened_settles msecs_to_jiffies now_ms now_ns (between s) ack (p_node_id peer) (p_session_epoch peer) meta (decoded_ack_wf _ _ Hf Hd) Hok) as H.
  destruct (ack_opened _ _ _ _ _ _ _ _) as [s' [[]|]]; destruct H as [Hk H]; [|right; auto].
  destruct H as (i & p & K1 & K2 & K3 & K4 & K5). exists ack, peer, i, p.
  assert (plain = []) as ->.
  { apply aead_open in Ho. apply (f_equal (@length Z)) in Ho. rewrite aead_length in Ho.
    assert (length ack.(ack_tag) <= 16)%nat by (clear -Hd; wire_unfold_in melodi_wire_decode_ack Hd; apply bind_Ok in Hd as (c & _ & Hd);
      guards_in Hd; injection Hd as <-; cbn; unfold load; rewrite length_take; lia).
    destruct plain; [reflexivity|cbn in Ho; lia]. }
  conj_split; auto. now apply aead_open in Ho.
Qed.

(** C20: no reliable message outlives its time.  As many passes of
    [melodi_reliability_work] as there are filed messages, at times past the end of
    each, whatever happens around them, leave none filed, and tell every binding once
    that its message timed out. *)
Theorem filed_messages_expire msecs_to_jiffies passes s :
  length s.(c_dev).(d_pending) = MELODI_PENDING_LIMIT -> Forall (past s) passes -> (length (filed_messages s) <= length passes)%nat ->
  let s' := work_run msecs_to_jiffies passes s in
  filed_messages s' = [] /\ reported s s' (map (fun p => pending_error p ETIMEDOUT) (filed_messages s)).
Proof. exact (work_run_expires msecs_to_jiffies passes s). Qed.

(** C8: every filed message ends once.  Over any sequence of sends that file a message,
    acknowledgements and looks for retransmissions, the records of the filed messages
    stay in order; every message that was filed is still filed, with the same fragments
    for the same destination, or has ended, exactly once; the log has one error for each
    message that ended with one; and a message ends without an error only when an
    acknowledgement of the run that names it completes it. *)
Theorem filed_conserved msecs_to_jiffies s l :
  filing_ok s.(c_dev).(d_pending) -> Forall filing_event_ok l ->
  let '(s', filed) := filing_run msecs_to_jiffies s l in exists ends, filing_step_spec (answered l) s s' filed ends.
Proof. exact (run_ends msecs_to_jiffies l s). Qed.

(** ** Witnesses *)

(** A message of two fragments that a sample device sends. *)
Definition filed_env (now_ms : Z) : send_env :=
  MkSendEnv 83 0 true true (fun _ => Some (fun _ => 0)) (fun _ => true) (fun _ => true) 77 now_ms true true true 1 100.
Definition sample_filed : core := Eval vm_compute in
  (@send_direct sample_jiffies toy_aead Secure.toy_signer (fun _ => 1) id id id (filed_env 1000) (melodi_queue_start 0 sender_core) sample_args).1.

(** It has left the queue. *)
Definition sample_left : core := Eval vm_compute in set_dev (set_d_tx (melodi_queue_start 0 sender_core).(c_dev).(d_tx) sample_filed.(c_dev)) sample_filed.

Definition sample_answer (counter bitmap status : Z) : melodi_wire_ack := {|
  ack_common := {| version := 0; frame_class := 0; flags := MELODI_WIRE_F_ENCRYPTED; header_length := 0; payload_length := 0;
    source_native_locator := 40; destination_native_locator := 31; identity_generation := 1; Wire.message_id := 77; counter := counter |};
  acknowledged_generation := 1; ack_fragment_count := 2; ack_status := status; ack_bitmap := bitmap; ack_tag := replicate 16 0 |}.
Definition sample_answer_frame : bytes := Eval vm_compute in
  match seal_ack (replicate 72 0) (sample_answer 3 1 MELODI_ACK_PARTIAL) (replicate 32 2) with Ok f => f | Err _ => [] end.
Definition answer_meta : melodi_rx_meta := MkRxMeta 10 40 31 0 (-80) 5 1 0 false.

(** What is left when the first fragment is acknowledged. *)
Definition sample_answered : core := Eval vm_compute in
  (@melodi_data_receive_ack sample_jiffies toy_aead id 1100 1100000000 sample_left sample_answer_frame answer_meta).1.

Lemma sample_filing : filing_ok sample_left.(c_dev).(d_pending) /\ filing_ok sample_answered.(c_dev).(d_pending).
Proof.
  split; unfold filing_ok; (apply List.Forall_cons; [|vm_compute; repeat (apply List.Forall_cons; [discriminate|]); apply List.Forall_nil]);
    intros _; constructor; try reflexivity; try discriminate; intros _; repeat split; discriminate.
Qed.

Lemma retransmission_exact_witness :
  let s' := melodi_reliability_work sample_jiffies id (filed_env 1300) (stopped_at 1300) false sample_answered in
  (exists looked choice, retry_effect false (stopped_at 1300) (seq 0 MELODI_PENDING_LIMIT) sample_answered looked choice /\
     s' = after_look id (filed_env 1300) (stopped_at 1300) choice (scheduled sample_jiffies looked)) /\
  map e_frame (List.filter e_active s'.(c_dev).(d_tx).(t_queue)) = [nth 1 (nth 0 sample_answered.(c_dev).(d_pending) zero_pending_message).(pm_fragments) []].
Proof.
  split; [|vm_compute; reflexivity].
  destruct (retransmission_exact sample_jiffies id (filed_env 1300) (stopped_at 1300) false sample_answered (proj2 sample_filing) ltac:(intros i; vm_compute; discriminate))
    as (looked & choice & H1 & H2 & _).
  exists looked, choice. split; [exact H1|exact H2].
Defined.

Lemma ack_settles_witness :
  let s' := (@melodi_data_receive_ack sample_jiffies toy_aead id 1100 1100000000 sample_left sample_answer_frame answer_meta).1 in
  unacknowledged (nth 0 s'.(c_dev).(d_pending) zero_pending_message) = [1%nat] /\ exists ack, seen_at s' (ack_counter ack).
Proof.
  assert (Forall u8 sample_answer_frame) as Hf by (vm_compute; repeat constructor; by_decide).
  split; [vm_compute; reflexivity|].
  pose proof (ack_settles sample_jiffies id 1100 1100000000 sample_left sample_answer_frame answer_meta Hf (proj1 sample_filing)) as H.
  destruct (melodi_data_receive_ack _ _ _ _ _ _ _) as [s' answer] eqn:E.
  assert (answer = Ok tt) as -> by (change (snd (s', answer) = Ok tt); rewrite <- E; vm_compute; reflexivity).
  destruct H as (ack & peer & i & p & _ & _ & _ & _ & H & _). exists ack. exact H.
Defined.

Lemma filed_messages_expire_witness :
  let s' := work_run sample_jiffies [(id, filed_env 2000, stopped_at 2000, true)] sample_left in
  filed_messages s' = [] /\ errors_of (c_log s') = [DeliveryError 3 1 10 5 ETIMEDOUT].
Proof.
  destruct (filed_messages_expire sample_jiffies [(id, filed_env 2000, stopped_at 2000, true)] sample_left) as [H _].
  - vm_compute. reflexivity.
  - apply List.Forall_cons; [|apply List.Forall_nil]. unfold past. vm_compute. repeat constructor; discriminate.
  - vm_compute. lia.
  - split; [exact H|vm_compute; reflexivity].
Defined.

(** The message is filed, sent once more, acknowledged in part and then wholly. *)
Definition sample_course : list filing_event :=
  [EvLook false (stopped_at 1300); EvAnswer 1400 1400000000 (sample_answer 3 1 MELODI_ACK_PARTIAL) (MkNodeId (1 :: replicate 32 9)) 5 answer_meta;
   EvAnswer 1500 1500000000 (sample_answer 4 3 MELODI_ACK_COMPLETE) (MkNodeId (1 :: replicate 32 9)) 5 answer_meta].

Lemma filed_conserved_witness :
  let s' := (filing_run sample_jiffies sample_left sample_course).1 in
  filing_ok s'.(c_dev).(d_pending) /\ filed_messages s' = [] /\ errors_of (c_log s') = [].
Proof.
  pose proof (filed_conserved sample_jiffies sample_left sample_course (proj1 sample_filing)) as H.
  split; [|split; vm_compute; reflexivity].
  destruct (filing_run _ _ _) as [s' filed]. destruct H as (ends & H); [|exact (fs_ok _ _ _ _ _ H)].
  repeat (apply List.Forall_cons; [|]); try apply List.Forall_nil; cbn [filing_event_ok]; try (intros i; vm_compute; discriminate);
    (constructor; by_decide).
Defined.
