(* ===== verification/Logical.v ===== *)
(** * The logical queue (src/kernel/core/main.c, src/kernel/core/netlink.c)

    A message of a binding goes through the network interface as a packet of its own:
    [melodi_send] reserves room for it, puts a header in front, seals the packet under
    a key of the device and hands it to the interface; [melodi_start_xmit] queues it,
    and the worker claims the reservation and sends the message.  What everybody else
    does between two sections is an argument, as in Send. *)
From stdpp Require Import relations.
From S2P Require Import Prelude Buffer Uapi Genl Wire Slots Device Fragments Peers Identity Policy Queue QueueInv QueueOps Send Secure Transfer Discovery Nodes Outstanding.

Abbreviation MELODI_LOGICAL_QUEUE_LIMIT := 128.
Abbreviation MELODI_LOGICAL_MAGIC := 0x4d454c51.
Abbreviation MELODI_LOGICAL_VERSION := 1.

(** [sizeof(struct melodi_logical_header)], with the padding of the usual alignment. *)
Abbreviation LOGICAL_SIZE := 96.

Record melodi_logical_header := MkLogical {
  lh_destination : melodi_node_id;
  lh_reservation_id : Z;
  lh_cookie : Z;
  lh_binding_generation : Z;
  lh_magic : Z;
  lh_flags : Z;
  lh_ttl_ms : Z;
  lh_binding_portid : Z;
  lh_payload_length : Z;
  lh_source_service : Z;
  lh_destination_service : Z;
  lh_header_length : Z;
  lh_priority : Z;
  lh_version : Z;
}.

(** A packet: its protocol, its bytes and how many of them are in its linear part. *)
Record sk_buff := MkSkb { sk_protocol : Z; sk_data : bytes; sk_headlen : Z }.

(** The fields of [struct melodi_device] and of the interface that the queue uses: the
    packets, whether it is stopping, whether its work is scheduled, the bytes that the
    interface was told are under way and done, and its count of dropped packets. *)
Record logical_state := MkLogicalState {
  lg_queue : list sk_buff;
  lg_stopping : bool;
  lg_work : bool;
  lg_sent : Z;
  lg_completed : Z;
  lg_dropped : Z;
}.

Definition fresh_logical : logical_state := MkLogicalState [] true false 0 0 0.

Definition set_lg_queue (v : list sk_buff) (l : logical_state) : logical_state :=
  MkLogicalState v l.(lg_stopping) l.(lg_work) l.(lg_sent) l.(lg_completed) l.(lg_dropped).
Definition set_lg_stopping (v : bool) (l : logical_state) : logical_state :=
  MkLogicalState l.(lg_queue) v l.(lg_work) l.(lg_sent) l.(lg_completed) l.(lg_dropped).
Definition set_lg_work (v : bool) (l : logical_state) : logical_state :=
  MkLogicalState l.(lg_queue) l.(lg_stopping) v l.(lg_sent) l.(lg_completed) l.(lg_dropped).

Definition drop_packet (l : logical_state) : logical_state :=
  MkLogicalState l.(lg_queue) l.(lg_stopping) l.(lg_work) l.(lg_sent) l.(lg_completed) (l.(lg_dropped) + 1).
(** [netdev_tx_sent_queue] and [netdev_tx_completed_queue] *)
Definition sent_packet (skb : sk_buff) (l : logical_state) : logical_state :=
  MkLogicalState l.(lg_queue) l.(lg_stopping) l.(lg_work) (l.(lg_sent) + zlen skb.(sk_data)) l.(lg_completed) l.(lg_dropped).
Definition completed_packet (skb : sk_buff) (l : logical_state) : logical_state :=
  MkLogicalState l.(lg_queue) l.(lg_stopping) l.(lg_work) l.(lg_sent) (l.(lg_completed) + zlen skb.(sk_data)) l.(lg_dropped).

Record station := MkStation { st_node : node; st_logical : logical_state }.
Definition with_node (n : node) (s : station) : station := MkStation n s.(st_logical).
Definition with_logical (l : logical_state) (s : station) : station := MkStation s.(st_node) l.
Definition at_core (f : core -> core) (s : station) : station := with_node (with_core (f s.(st_node).(n_core)) s.(st_node)) s.

(** ** The header in memory *)

Section Order.
  Context (big_endian : bool).

Definition host_get64 (b : bytes) : Z := if big_endian then get_be64 b else get_be64 (rev (load 0 8 b)).

Definition logical_bytes (h : melodi_logical_header) : bytes :=
  h.(lh_destination).(node_bytes) ++ replicate 7 0 ++ host64 big_endian h.(lh_reservation_id) ++ host64 big_endian h.(lh_cookie) ++
  host64 big_endian h.(lh_binding_generation) ++ host32 big_endian h.(lh_magic) ++ host32 big_endian h.(lh_flags) ++
  host32 big_endian h.(lh_ttl_ms) ++ host32 big_endian h.(lh_binding_portid) ++ host32 big_endian h.(lh_payload_length) ++
  host16 big_endian h.(lh_source_service) ++ host16 big_endian h.(lh_destination_service) ++ host16 big_endian h.(lh_header_length) ++
  [wrap 8 h.(lh_priority); wrap 8 h.(lh_version)] ++ replicate 4 0.

Definition logical_read (b : bytes) : melodi_logical_header :=
  MkLogical (MkNodeId (load 0 33 b)) (host_get64 (drop 40 b)) (host_get64 (drop 48 b)) (host_get64 (drop 56 b))
    (get32 big_endian (drop 64 b)) (get32 big_endian (drop 68 b)) (get32 big_endian (drop 72 b)) (get32 big_endian (drop 76 b))
    (get32 big_endian (drop 80 b)) (get16 big_endian (drop 84 b)) (get16 big_endian (drop 86 b)) (get16 big_endian (drop 88 b))
    (byte_at 90 b) (byte_at 91 b).

Definition melodi_logical_skb_valid (skb : sk_buff) : option melodi_logical_header :=
  if negb (skb.(sk_protocol) =? 0) || (skb.(sk_headlen) <? LOGICAL_SIZE) then None else
  let header := logical_read skb.(sk_data) in
  if (header.(lh_magic) =? MELODI_LOGICAL_MAGIC) && (header.(lh_version) =? MELODI_LOGICAL_VERSION) &&
     (header.(lh_header_length) =? LOGICAL_SIZE) && negb (header.(lh_reservation_id) =? 0) &&
     (header.(lh_payload_length) <=? MELODI_MESSAGE_MTU) && (zlen skb.(sk_data) =? LOGICAL_SIZE + header.(lh_payload_length))
  then Some header else None.

(** ** Packets in *)

(** The sections of [melodi_start_xmit]: the check, the queue under its lock, and what
    the interface is told afterwards. *)
Definition xmit_check (skb : sk_buff) (l : logical_state) : bool :=
  match melodi_logical_skb_valid skb with Some _ => negb l.(lg_stopping) | None => false end.

Definition xmit_queue (skb : sk_buff) (l : logical_state) : logical_state * bool :=
  if MELODI_LOGICAL_QUEUE_LIMIT <=? zlen l.(lg_queue) then (l, false) else (set_lg_queue (l.(lg_queue) ++ [skb]) l, true).

Definition xmit_account (skb : sk_buff) (l : logical_state) : logical_state := set_lg_work true (sent_packet skb l).

Definition melodi_start_xmit (before after : logical_state -> logical_state) (skb : sk_buff) (l : logical_state) : logical_state :=
  if negb (xmit_check skb l) then drop_packet l else
  match xmit_queue skb (before l) with
  | (l, false) => drop_packet l
  | (l, true) => xmit_account skb (after l)
  end.

Definition melodi_logical_start (l : logical_state) : logical_state := set_lg_stopping false l.

(** One packet of the loop of [melodi_logical_stop]. *)
Definition stop_packet (error : errno) (skb : sk_buff) (s : station) : station :=
  let s := match melodi_logical_skb_valid skb with
           | Some header => at_core (fun c => melodi_queue_reservation_cancel c header.(lh_reservation_id) error true) s
           | None => s
           end in
  with_logical (drop_packet (completed_packet skb s.(st_logical))) s.

(** The loop takes the packets that are there when the work has been cancelled. *)
Definition melodi_logical_stop (error : errno) (s : station) : station :=
  let l := set_lg_work false (set_lg_stopping true s.(st_logical)) in
  fold_left (fun s skb => stop_packet error skb s) l.(lg_queue) (with_logical (set_lg_queue [] l) s).

(** ** Packets out *)

Section Work.
  Context (msecs_to_jiffies : Z -> Z) {A : Aead} {Sg : Signer} (crypto_eddsa_public_key_check : bytes -> Z) (siphash : bytes -> Z).

(** What is around one turn of the work: the gaps between claim, send and cancellation,
    and what the send finds. *)
Record turn_env := MkTurn {
  tu_taken : station -> station;
  tu_claimed : station -> station;
  tu_sent : station -> station;
  tu_cancelled : station -> station;
  tu_waiting : waiting_gaps;
  tu_discovery_env : discovery_env;
  tu_discovery_gaps : discovery_gaps;
  tu_copied : bool;
  tu_send : send_env;
  tu_now_ms : Z;
}.

(** The arguments of the send that a header asks for. *)
Definition logical_args (header : melodi_logical_header) (payload : bytes) : send_args :=
  MkSend (if has header.(lh_flags) MELODI_F_BROADCAST then None else Some header.(lh_destination)) header.(lh_source_service)
    header.(lh_destination_service) payload header.(lh_flags) header.(lh_cookie) header.(lh_ttl_ms) header.(lh_binding_portid)
    header.(lh_binding_generation) header.(lh_priority) header.(lh_reservation_id).

Definition logical_done (dropped : bool) (skb : sk_buff) (s : station) : station :=
  with_logical (completed_packet skb (if dropped then drop_packet s.(st_logical) else s.(st_logical))) s.

(** What follows the claim of a packet: the send, and the end of its reservation. *)
Definition logical_tx_send (u : turn_env) (skb : sk_buff) (m : send_args) (s : station) : station :=
  let '(n, sent) := melodi_data_send_reserved msecs_to_jiffies crypto_eddsa_public_key_check u.(tu_waiting) u.(tu_send)
                      u.(tu_discovery_env) u.(tu_discovery_gaps) u.(tu_copied) u.(tu_now_ms) s.(st_node) m in
  let s := u.(tu_sent) (with_node n s) in
  let s := at_core (fun c => melodi_queue_reservation_cancel c m.(sa_reservation) (error_of sent) (negb (is_ok sent))) s in
  logical_done (negb (is_ok sent)) skb (u.(tu_cancelled) s).

(** One turn, for a packet that was taken from the queue. *)
Definition logical_tx_one (u : turn_env) (skb : sk_buff) (s : station) : station :=
  match melodi_logical_skb_valid skb with
  | None => logical_done true skb s
  | Some header =>
      let s := u.(tu_taken) s in
      match melodi_queue_reservation_claim siphash s.(st_node).(n_core) header.(lh_reservation_id) skb.(sk_data) with
      | (c, Err _) => logical_done true skb (at_core (fun _ => c) s)
      | (c, Ok _) =>
          logical_tx_send u skb (logical_args header (load 96 (Z.to_nat header.(lh_payload_length)) skb.(sk_data)))
            (u.(tu_claimed) (at_core (fun _ => c) s))
      end
  end.

(** The loop, a turn for each packet it finds; whether it may find more. *)
Fixpoint melodi_logical_tx_work (turns : list turn_env) (s : station) : station * bool :=
  match turns with
  | [] => (s, true)
  | u :: turns =>
      match s.(st_logical).(lg_queue) with
      | [] => (with_logical (set_lg_work false s.(st_logical)) s, false)
      | skb :: queue => melodi_logical_tx_work turns (logical_tx_one u skb (with_logical (set_lg_queue queue s.(st_logical)) s))
      end
  end.

(** ** A message of a binding *)

(** The attributes of the request that [melodi_send] looks at. *)
Record send_request := MkSendRequest {
  rq_destination : option melodi_node_id;
  rq_destination_service : option Z;
  rq_payload : option bytes;
  rq_flags : option Z;
  rq_cookie : option Z;
  rq_ttl_ms : option Z;
  rq_priority : option Z;
}.

(** The checks before the binding is looked up. *)
Definition send_checks (capable : bool) (rq : send_request) : result (Z * bytes * Z * Z * Z * Z) :=
  match rq.(rq_destination_service), rq.(rq_payload) with
  | Some destination_service, Some payload =>
      let flags := default 0 rq.(rq_flags) in
      if has flags (Z.lnot MELODI_F_ALL) then Err EINVAL else
      let broadcast := has flags MELODI_F_BROADCAST in
      if Bool.eqb broadcast (match rq.(rq_destination) with Some _ => true | None => false end) then Err EINVAL else
      if broadcast && negb capable then Err EPERM else
      if broadcast && reliable_flags flags then Err EOPNOTSUPP else
      if broadcast && (MELODI_BROADCAST_MTU <? zlen payload) then Err EMSGSIZE else
      let ttl_ms := default MELODI_TTL_DEFAULT_MS rq.(rq_ttl_ms) in
      if (ttl_ms =? 0) || (MELODI_TTL_DEFAULT_MS <? ttl_ms) then Err EINVAL else
      Ok (destination_service, payload, flags, default 0 rq.(rq_cookie), ttl_ms, default 0 rq.(rq_priority))
  | _, _ => Err EINVAL
  end.

Definition logical_packet (header : melodi_logical_header) (payload : bytes) : sk_buff :=
  let data := logical_bytes header ++ payload in MkSkb 0 data (zlen data).

(** [melodi_send] for a binding of the network namespace with a port, a generation and a
    service, on this device; [xmit] is [dev_queue_xmit], with its result as an error or
    none. *)
Definition melodi_send (capable : bool) (binding : option (Z * Z * Z)) (e : send_env) (copied : bool) (admitted sealed : station -> station)
    (xmit : sk_buff -> station -> station * result unit) (rq : send_request) (s : station) : station * result unit :=
  match send_checks capable rq with
  | Err error => (s, Err error)
  | Ok (destination_service, payload, flags, cookie, ttl_ms, priority) =>
  match binding with
  | None => (s, Err ENOTCONN)
  | Some (portid, binding_generation, source_service) =>
      let destination := if has flags MELODI_F_BROADCAST then None else rq.(rq_destination) in
      match melodi_data_admit crypto_eddsa_public_key_check e s.(st_node).(n_core)
              (MkSend destination source_service destination_service payload flags cookie ttl_ms portid binding_generation priority 0)
              (zlen payload) with
      | (c, Err error) => (at_core (fun _ => c) s, Err error)
      | (c, Ok reservation) =>
          let s := admitted (at_core (fun _ => c) s) in
          let cancel error s := at_core (fun c => melodi_queue_reservation_cancel c reservation error false) s in
          if negb copied then (cancel ENOMEM s, Err ENOMEM) else
          let header := MkLogical (default zero_node destination) reservation cookie binding_generation MELODI_LOGICAL_MAGIC flags
                          ttl_ms portid (zlen payload) source_service destination_service LOGICAL_SIZE priority MELODI_LOGICAL_VERSION in
          let skb := logical_packet header payload in
          match melodi_queue_reservation_seal siphash s.(st_node).(n_core) reservation skb.(sk_data) with
          | (c, Err error) => (cancel error (at_core (fun _ => c) s), Err error)
          | (c, Ok _) =>
              match xmit skb (sealed (at_core (fun _ => c) s)) with
              | (s, Ok _) => (s, Ok tt)
              | (s, Err error) => (cancel error s, Err error)
              end
          end
      end
  end
  end.
End Work.
End Order.

(** ** The header survives *)

Section Memory.
  Context (be : bool).

Lemma length_host64 v : length (host64 be v) = 8%nat.
Proof. destruct be; [reflexivity|]. cbn [host64]. now rewrite length_rev. Qed.

Lemma get64_host64 v l : u64 v -> host_get64 be (host64 be v ++ l) = v.
Proof.
  intros Hv. destruct be; cbn [host_get64 host64]; [now apply get_be64_be64|]. unfold load. rewrite drop_0.
  rewrite take_app_length' by now rewrite length_rev. rewrite rev_involutive. now apply get_be64_nil.
Qed.

Record logical_wf (h : melodi_logical_header) : Prop := {
  lw_destination : length h.(lh_destination).(node_bytes) = 33%nat;
  lw_64 : u64 h.(lh_reservation_id) /\ u64 h.(lh_cookie) /\ u64 h.(lh_binding_generation);
  lw_32 : u32 h.(lh_magic) /\ u32 h.(lh_flags) /\ u32 h.(lh_ttl_ms) /\ u32 h.(lh_binding_portid) /\ u32 h.(lh_payload_length);
  lw_16 : u16 h.(lh_source_service) /\ u16 h.(lh_destination_service) /\ u16 h.(lh_header_length);
  lw_8 : u8 h.(lh_priority) /\ u8 h.(lh_version);
}.

(** Skips the fields in front of the one that is read. *)
Ltac skip_fields Hd :=
  repeat (rewrite drop_app_ge by (rewrite ?Hd, ?length_replicate, ?length_host64, ?(length_host32 be), ?(length_host16 be); lia);
          rewrite ?Hd, ?length_replicate, ?length_host64, ?(length_host32 be), ?(length_host16 be); cbn [Nat.sub]);
  rewrite ?drop_0.

Lemma logical_read_bytes h payload : logical_wf h -> logical_read be (logical_bytes be h ++ payload) = h.
Proof.
  intros [Hd (A1 & A2 & A3) (B1 & B2 & B3 & B4 & B5) (C1 & C2 & C3) (D1 & D2)]. destruct h as [d rid ck gen mg fl ttl pid pl ss ds hl pr vs].
  cbn [lh_destination lh_reservation_id lh_cookie lh_binding_generation lh_magic lh_flags lh_ttl_ms lh_binding_portid lh_payload_length
    lh_source_service lh_destination_service lh_header_length lh_priority lh_version] in *.
  unfold logical_read, logical_bytes.
  cbn [lh_destination lh_reservation_id lh_cookie lh_binding_generation lh_magic lh_flags lh_ttl_ms lh_binding_portid lh_payload_length
    lh_source_service lh_destination_service lh_header_length lh_priority lh_version].
  rewrite <- !app_assoc. f_equal.
  - destruct d as [d]. cbn [node_bytes] in *. f_equal. unfold load. rewrite drop_0. now rewrite take_app_length'.
  - skip_fields Hd. now apply get64_host64.
  - skip_fields Hd. now apply get64_host64.
  - skip_fields Hd. now apply get64_host64.
  - skip_fields Hd. now apply get32_host32.
  - skip_fields Hd. now apply get32_host32.
  - skip_fields Hd. now apply get32_host32.
  - skip_fields Hd. now apply get32_host32.
  - skip_fields Hd. now apply get32_host32.
  - skip_fields Hd. now apply get16_host16.
  - skip_fields Hd. now apply get16_host16.
  - skip_fields Hd. now apply get16_host16.
  - replace 90%nat with (90 + 0)%nat by lia. rewrite <- byte_at_drop. skip_fields Hd. cbn. now apply wrap_id.
  - replace 91%nat with (90 + 1)%nat by lia. rewrite <- byte_at_drop. skip_fields Hd. cbn. now apply wrap_id.
Qed.

Lemma length_logical h : length h.(lh_destination).(node_bytes) = 33%nat -> length (logical_bytes be h) = 96%nat.
Proof.
  intros Hd. unfold logical_bytes. rewrite !length_app, !length_replicate, !length_host64, !length_host32, !length_host16, Hd. reflexivity.
Qed.

(** The packet of a header that names its payload is accepted as that header. *)
Lemma packet_valid h payload : logical_wf h -> h.(lh_magic) = MELODI_LOGICAL_MAGIC -> h.(lh_version) = MELODI_LOGICAL_VERSION ->
  h.(lh_header_length) = LOGICAL_SIZE -> h.(lh_reservation_id) <> 0 -> h.(lh_payload_length) = zlen payload -> zlen payload <= MELODI_MESSAGE_MTU ->
  melodi_logical_skb_valid be (logical_packet be h payload) = Some h /\
  load 96 (Z.to_nat h.(lh_payload_length)) (logical_packet be h payload).(sk_data) = payload.
Proof.
  intros Hw H1 H2 H3 H4 H5 H6. pose proof (length_logical h (lw_destination _ Hw)) as Hl.
  assert (zlen (logical_bytes be h ++ payload) = LOGICAL_SIZE + zlen payload) as Hz by (unfold zlen; rewrite length_app, Hl; lia).
  split.
  - unfold melodi_logical_skb_valid, logical_packet. cbn [sk_protocol sk_headlen sk_data]. rewrite Hz.
    assert (0 <= zlen payload) by (unfold zlen; lia).
    destruct (Z.ltb_spec (LOGICAL_SIZE + zlen payload) LOGICAL_SIZE); [lia|]. cbn [negb orb Z.eqb].
    rewrite logical_read_bytes by exact Hw. rewrite H1, H2, H3, H5, (proj2 (Z.eqb_neq _ _) H4), (proj2 (Z.leb_le _ _) H6), !Z.eqb_refl.
    reflexivity.
  - cbn [logical_packet sk_data]. unfold load. rewrite drop_app_length' by exact (eq_sym Hl). rewrite H5. unfold zlen. rewrite Nat2Z.id.
    now rewrite take_ge by lia.
Qed.
End Memory.

(** ** Seals and claims *)

Lemma find_index_insert {A} (P : A -> bool) l i x y : l !! i = Some x -> P y = P x -> find_index P (<[i := y]> l) = find_index P l.
Proof.
  revert i. induction l as [|a l IH]; intros [|i] Hi HP; try discriminate.
  - injection Hi as ->. cbn. now rewrite HP.
  - change (<[S i := y]> (a :: l)) with (a :: <[i := y]> l). cbn [find_index]. now rewrite (IH i Hi HP).
Qed.

(** Reservations have numbers up to the last that was given out, and free places are
    empty. *)
Definition numbered (t : tx_state) : Prop :=
  Forall (fun r => if r.(v_active) then r.(v_id) <= t.(t_reservation_sequence) else r = zero_tx_reservation) t.(t_reservations).

(** A reservation that waits for its packet: sealed or not, but not claimed. *)
Record reserved_as (s : core) (id : Z) (index : nat) (r : melodi_tx_reservation) : Prop := {
  ra_found : melodi_reservation_find_locked (tx s) id = Some index;
  ra_here : (tx s).(t_reservations) !! index = Some r;
  ra_active : r.(v_active) = true;
  ra_id : r.(v_id) = id;
  ra_unclaimed : r.(v_claimed) = false;
}.

Lemma free_place t i : numbered t -> find_index (fun r => negb r.(v_active)) t.(t_reservations) = Some i ->
  t.(t_reservations) !! i = Some zero_tx_reservation.
Proof.
  intros Hn H. apply find_index_Some in H as (r & Hr & Ha%negb_true_iff & _). pose proof (Forall_lookup_1 _ _ _ _ Hn Hr) as H. cbn beta in H.
  rewrite Ha in H. now subst r.
Qed.

Lemma find_index_intro {A} (P : A -> bool) l i x : l !! i = Some x -> P x = true ->
  (forall j y, (j < i)%nat -> l !! j = Some y -> P y = false) -> find_index P l = Some i.
Proof.
  revert i. induction l as [|a l IH]; intros [|i] Hi Hx Hj; try discriminate.
  - injection Hi as ->. cbn. now rewrite Hx.
  - cbn [find_index]. rewrite (Hj 0%nat a) by (lia || reflexivity). rewrite (IH i Hi Hx); [reflexivity|].
    intros j y Hlt Hy. apply (Hj (S j) y); [lia|exact Hy].
Qed.

Lemma reserve_reserves alloc s net locator request count bytes logical cookie reliable active now s' id :
  numbered (tx s) -> 0 <= (tx s).(t_reservation_sequence) <= U64_MAX ->
  melodi_queue_reserve alloc s net locator request count bytes logical cookie reliable active now = (s', Ok id) ->
  id <> 0 /\ u64 id /\ exists index r, reserved_as s' id index r /\ r.(v_sealed) = false.
Proof.
  intros Hn Hs. unfold melodi_queue_reserve.
  do 4 (match goal with |- context [if ?b then _ else _] => destruct b; [discriminate|] end).
  destruct (find_index _ _) as [index|] eqn:Hf; [|discriminate].
  destruct (melodi_queue_capacity_locked alloc s net locator request count bytes) as [[s1 ns] capacity] eqn:Hc.
  assert (tx s1 = tx s) as Et.
  { revert Hc. unfold melodi_queue_capacity_locked. destruct (melodi_namespace_queue_get _ _ _) as [[l k]|]; [|now intros [= <- _ _]].
    repeat match goal with |- context [if ?b then (set_spaces l s, _, _) else _] => destruct b; [now intros [= <- _ _]|] end. now intros [= <- _ _]. }
  destruct capacity as [[]|error], ns as [ns|]; try discriminate.
  destruct (melodi_queue_peer_locked (tx s1) locator) as [peer|]; [|discriminate].
  destruct (melodi_queue_flow_locked (tx s1) locator request) as [flow|]; [|discriminate].
  destruct (_ =? U64_MAX) eqn:Hq; [discriminate|]. rewrite Et in Hq. apply Z.eqb_neq in Hq.
  destruct (create_turns_shape peer.2 peer.1 flow.2 flow.1 locator request (tx s1)) as (pe & fl & ->). rewrite Et.
  set (t1 := set_t_reservation_sequence _ _). intros [= <- <-].
  assert (wrap 64 (t_reservation_sequence (tx s) + 1) = t_reservation_sequence (tx s) + 1) as Eid
    by (apply wrap_id; unfold uint, U64_MAX in *; pow_norm; lia).
  assert (0 <= t_reservation_sequence (tx s) < U64_MAX) as Hs' by lia.
  change (t_reservation_sequence (with_turns pe fl (tx s))) with (t_reservation_sequence (tx s)) in *.
  split; [rewrite Eid; lia|]. split; [rewrite Eid; unfold uint, U64_MAX in *; pow_norm; lia|].
  set (r := MkReservation _ _ _ _ _ _ _ _ _ _ _ _ _ _ _ _ _ _ _ _ _ _ _ _ _ _). exists index, r.
  pose proof (free_place _ _ Hn Hf) as Hz. change (t_reservations t1) with (t_reservations (tx s)) in r.
  assert (forall t, t_reservations (melodi_reservation_schedule_locked now t) = t_reservations t) as Hsch.
  { intros t. exact (f_equal (fun x => x.1.1.2) (schedule_reservation_ledger now t)). }
  match goal with |- reserved_as ?s2 _ _ _ /\ _ => assert ((tx s2).(t_reservations) = <[index := r]> (tx s).(t_reservations)) as Er by
    (cbn [c_dev set_spaces set_tx d_tx set_d_tx]; rewrite Hsch; now destruct reliable) end.
  assert (v_sealed r = false /\ v_claimed r = false) as [R1 R2] by (subst r; cbn; rewrite Hz; split; reflexivity).
  split; [|exact R1]. constructor; [|rewrite Er; apply list_lookup_insert_eq; now apply lookup_lt_Some in Hz|reflexivity|reflexivity|exact R2].
  unfold melodi_reservation_find_locked. rewrite Er. apply find_index_intro with r.
  - apply list_lookup_insert_eq. now apply lookup_lt_Some in Hz.
  - cbn. apply Z.eqb_refl.
  - intros j y Hj Hy. rewrite list_lookup_insert_ne in Hy by lia. pose proof (Forall_lookup_1 _ _ _ _ Hn Hy) as H. cbn beta in H.
    destruct (v_active y) eqn:Ay; [|reflexivity]. cbn. rewrite Eid. lia.
Qed.

Section Claims.
  Context (siphash : bytes -> Z).

Lemma seal_reserved s id i r data : reserved_as s id i r -> r.(v_sealed) = false -> zlen data <> 0 ->
  exists s' r', melodi_queue_reservation_seal siphash s id data = (s', Ok tt) /\ reserved_as s' id i r' /\
    r'.(v_sealed) = true /\ r'.(v_tag) = siphash data.
Proof.
  intros [H1 H2 H3 H4 H5] Hs Hd. unfold melodi_queue_reservation_seal, with_reservation. rewrite (proj2 (Z.eqb_neq _ _) Hd), H1. cbn [mbind option_bind].
  rewrite H2. cbn [fmap option_fmap option_map]. rewrite Hs. cbn [negb]. eexists _, (set_v_sealed true (set_v_tag (siphash data) r)). split; [reflexivity|].
  split; [constructor; cbn [c_dev set_tx d_tx set_d_tx t_reservations set_t_reservations v_active v_id v_claimed set_v_sealed set_v_tag]; auto|split; reflexivity].
  - unfold melodi_reservation_find_locked. cbn [t_reservations set_t_reservations]. rewrite (find_index_insert _ _ _ r); [exact H1|exact H2|reflexivity].
  - apply list_lookup_insert_eq. now apply lookup_lt_Some in H2.
Qed.

Lemma claim_sealed s id i r data : reserved_as s id i r -> r.(v_sealed) = true -> r.(v_tag) = siphash data -> zlen data <> 0 ->
  exists s', melodi_queue_reservation_claim siphash s id data = (s', Ok tt).
Proof.
  intros [H1 H2 H3 H4 H5] Hs Ht Hd. unfold melodi_queue_reservation_claim, with_reservation. rewrite (proj2 (Z.eqb_neq _ _) Hd), H1. cbn [mbind option_bind].
  rewrite H2. cbn [fmap option_fmap option_map]. rewrite Hs, H5, Ht, Z.eqb_refl. cbn [negb andb]. eauto.
Qed.
End Claims.

Lemma admit_reserves check e s a length s' id : melodi_data_admit check e s a length = (s', Ok id) ->
  length <= MELODI_MESSAGE_MTU /\ exists alloc net locator request count bytes cookie reliable active now,
    melodi_queue_reserve alloc s net locator request count bytes length cookie reliable active now = (s', Ok id).
Proof.
  unfold melodi_data_admit.
  match goal with |- context [if ?b then (s, Err EINVAL) else _] => destruct b eqn:G; [discriminate|] end. rewrite !orb_false_iff, Z.ltb_ge in G. split_hyps.
  repeat match goal with |- context [if ?b then (s, Err _) else _] => destruct b; [discriminate|] end.
  match goal with |- (match ?x with pair _ _ => _ end) = _ -> _ => destruct x as [[locator request] [[]|]] end; [|discriminate].
  intros Hr. split; [assumption|]. do 10 eexists. exact Hr.
Qed.

(** ** From the binding to the send *)

(** The values of a request as the attributes carry them. *)
Record request_wf (rq : send_request) (binding : Z * Z * Z) : Prop := {
  rw_destination : forall d, rq.(rq_destination) = Some d -> length d.(node_bytes) = 33%nat;
  rw_service : forall v, rq.(rq_destination_service) = Some v -> u16 v;
  rw_flags : forall v, rq.(rq_flags) = Some v -> u32 v;
  rw_cookie : forall v, rq.(rq_cookie) = Some v -> u64 v;
  rw_ttl : forall v, rq.(rq_ttl_ms) = Some v -> u32 v;
  rw_priority : forall v, rq.(rq_priority) = Some v -> u8 v;
  rw_binding : u32 binding.1.1 /\ u64 binding.1.2 /\ u16 binding.2;
}.

Lemma default_wf {w} (o : option Z) d : (forall v, o = Some v -> uint w v) -> uint w d -> uint w (default d o).
Proof. intros H Hd. destruct o; cbn; auto. Qed.

Lemma checked_request capable rq destination_service payload flags cookie ttl_ms priority :
  send_checks capable rq = Ok (destination_service, payload, flags, cookie, ttl_ms, priority) ->
  rq.(rq_destination_service) = Some destination_service /\ rq.(rq_payload) = Some payload /\ flags = default 0 rq.(rq_flags) /\
  cookie = default 0 rq.(rq_cookie) /\ ttl_ms = default MELODI_TTL_DEFAULT_MS rq.(rq_ttl_ms) /\ priority = default 0 rq.(rq_priority) /\
  has flags MELODI_F_BROADCAST = match rq.(rq_destination) with Some _ => false | None => true end.
Proof.
  unfold send_checks. destruct (rq_destination_service rq) as [ds|]; [|discriminate]. destruct (rq_payload rq) as [pl|]; [|discriminate].
  repeat match goal with |- context [if ?b then Err _ else _] => destruct b eqn:?; [discriminate|] end.
  intros [= <- <- <- <- <- <-]. repeat split. destruct (has _ MELODI_F_BROADCAST), (rq_destination rq); auto; discriminate.
Qed.

Section Path.
  Context (be : bool) (msecs_to_jiffies : Z -> Z) {A : Aead} {Sg : Signer} (check : bytes -> Z) (siphash : bytes -> Z).

(** The interface hands the packet on at once. *)
Definition straight (skb : sk_buff) (s : station) : station * result unit :=
  (with_logical (melodi_start_xmit be id id skb s.(st_logical)) s, Ok tt).

Lemma straight_queues skb header s : melodi_logical_skb_valid be skb = Some header -> s.(st_logical).(lg_stopping) = false ->
  zlen s.(st_logical).(lg_queue) < MELODI_LOGICAL_QUEUE_LIMIT ->
  (straight skb s).1 = with_logical (xmit_account skb (set_lg_queue (s.(st_logical).(lg_queue) ++ [skb]) s.(st_logical))) s.
Proof.
  intros Hv Hs Hl. unfold straight, melodi_start_xmit, xmit_check, xmit_queue. rewrite Hv, Hs. cbn [negb id].
  destruct (Z.leb_spec MELODI_LOGICAL_QUEUE_LIMIT (zlen s.(st_logical).(lg_queue))); [lia|reflexivity].
Qed.

(** What a successful [melodi_send] has done. *)
Lemma send_queues capable binding e rq s s1 : request_wf rq binding ->
  numbered (tx s.(st_node).(n_core)) -> 0 <= (tx s.(st_node).(n_core)).(t_reservation_sequence) <= U64_MAX ->
  s.(st_logical).(lg_stopping) = false -> zlen s.(st_logical).(lg_queue) < MELODI_LOGICAL_QUEUE_LIMIT ->
  melodi_send be check siphash capable (Some binding) e true id id straight rq s = (s1, Ok tt) ->
  exists destination_service payload header c index r,
    send_checks capable rq = Ok (destination_service, payload, default 0 rq.(rq_flags), default 0 rq.(rq_cookie),
                                 default MELODI_TTL_DEFAULT_MS rq.(rq_ttl_ms), default 0 rq.(rq_priority)) /\
    let skb := logical_packet be header payload in
    melodi_logical_skb_valid be skb = Some header /\ load 96 (Z.to_nat header.(lh_payload_length)) skb.(sk_data) = payload /\
    s1 = with_logical (xmit_account skb (set_lg_queue (s.(st_logical).(lg_queue) ++ [skb]) s.(st_logical))) (at_core (fun _ => c) s) /\
    reserved_as c header.(lh_reservation_id) index r /\ r.(v_sealed) = true /\ r.(v_tag) = siphash skb.(sk_data) /\
    logical_args header payload = MkSend rq.(rq_destination) binding.2 destination_service payload (default 0 rq.(rq_flags))
      (default 0 rq.(rq_cookie)) (default MELODI_TTL_DEFAULT_MS rq.(rq_ttl_ms)) binding.1.1 binding.1.2 (default 0 rq.(rq_priority))
      header.(lh_reservation_id).
Proof.
  intros Hw Hn Hq Hs Hl. unfold melodi_send. destruct (send_checks capable rq) as [[[[[[ds pl] fl] ck] ttl] pr]|] eqn:Hc; [|discriminate].
  destruct (checked_request _ _ _ _ _ _ _ _ Hc) as (E1 & E2 & -> & -> & -> & -> & Eb). destruct binding as [[portid generation] service]. cbn [fst snd].
  set (destination := if has _ MELODI_F_BROADCAST then None else rq_destination rq).
  assert (destination = rq_destination rq) as Ed by (subst destination; rewrite Eb; now destruct (rq_destination rq)). clearbody destination. subst destination.
  destruct (melodi_data_admit _ _ _ _ _) as [c0 [rid|]] eqn:Ha; [|discriminate]. cbn [negb id].
  destruct (admit_reserves _ _ _ _ _ _ _ Ha) as (Hlen & ? & ? & ? & ? & ? & ? & ? & ? & ? & ? & Hr). cbn in Hlen.
  destruct (reserve_reserves _ _ _ _ _ _ _ _ _ _ _ _ _ _ Hn Hq Hr) as (I1 & I2 & index & r & Hres & Hsealed).
  set (header := MkLogical _ _ _ _ _ _ _ _ _ _ _ _ _ _).
  assert (logical_wf header) as Hhw.
  { destruct Hw as [W1 W2 W3 W4 W5 W6 (W7 & W8 & W9)]. constructor; cbn.
    - destruct (rq_destination rq) as [d|]; cbn; [now apply W1|reflexivity].
    - repeat split; try apply I2; try apply W8; apply (default_wf _ 0 W4); unfold uint; cbn; lia.
    - repeat split; try (unfold uint, zlen in *; pow_norm; lia); try apply W7; try (apply (default_wf _ 0 W3); unfold uint; cbn; lia);
        apply (default_wf _ _ W5); unfold uint; pow_norm; lia.
    - repeat split; try apply W9; try (apply W2, E1); unfold uint; pow_norm; lia.
    - repeat split; try (apply (default_wf _ 0 W6); unfold uint; pow_norm; lia); unfold uint; pow_norm; lia. }
  destruct (packet_valid be header pl Hhw eq_refl eq_refl eq_refl I1 eq_refl Hlen) as [V1 V2].
  assert (zlen (sk_data (logical_packet be header pl)) <> 0) as Hz.
  { unfold logical_packet, zlen. cbn [sk_data]. rewrite length_app, (length_logical be header (lw_destination _ Hhw)). lia. }
  destruct (seal_reserved siphash c0 rid index r _ Hres Hsealed Hz) as (c & r' & Hseal & Hres' & Hs' & Ht').
  change (n_core (st_node (at_core (fun _ => c0) s))) with c0. rewrite Hseal.
  unfold straight at 1. intros [= <-]. exists ds, pl, header, c, index, r'. split; [reflexivity|]. cbv zeta.
  split; [exact V1|]. split; [exact V2|]. split; [exact (straight_queues _ header (at_core (fun _ => c) s) V1 Hs Hl)|].
  split; [exact Hres'|]. split; [exact Hs'|]. split; [exact Ht'|].
  unfold logical_args. cbn [lh_flags header lh_destination lh_source_service lh_destination_service lh_cookie lh_ttl_ms lh_binding_portid lh_binding_generation lh_priority lh_reservation_id].
  rewrite Eb. now destruct (rq_destination rq).
Qed.
End Path.

(** ** Bytes under way

    The sections of the threads that hand packets in, of the work and of a stop, in any
    order.  A thread looks at the packet and at the flag without a lock and queues the
    packet afterwards, so a stop may fall between the two; having queued it, it tells the
    interface.  The work has one packet in its hand, and so has a stop while it empties
    the queue. *)
Section Accounts.
  Context (be : bool).

(** The packets that passed the check and are about to be queued, those the interface has
    to be told of, and those in the hands of the work and of a stop. *)
Record logical_machine := MkLogicalMachine {
  lm_station : station;
  lm_passed : list sk_buff;
  lm_owed : list sk_buff;
  lm_hand : option sk_buff;
  lm_stop : option sk_buff;
}.

Definition at_logical (f : logical_state -> logical_state) (s : station) : station := with_logical (f s.(st_logical)) s.

Inductive logical_step : logical_machine -> logical_machine -> Prop :=
| ls_refuse s p owed hand stop skb : xmit_check be skb s.(st_logical) = false ->
    logical_step (MkLogicalMachine s p owed hand stop) (MkLogicalMachine (at_logical drop_packet s) p owed hand stop)
| ls_check s p owed hand stop skb : xmit_check be skb s.(st_logical) = true ->
    logical_step (MkLogicalMachine s p owed hand stop) (MkLogicalMachine s (p ++ [skb]) owed hand stop)
| ls_queue s p p' owed hand stop skb l : xmit_queue skb s.(st_logical) = (l, true) ->
    logical_step (MkLogicalMachine s (p ++ skb :: p') owed hand stop) (MkLogicalMachine (with_logical l s) (p ++ p') (owed ++ [skb]) hand stop)
| ls_full s p p' owed hand stop skb l : xmit_queue skb s.(st_logical) = (l, false) ->
    logical_step (MkLogicalMachine s (p ++ skb :: p') owed hand stop)
      (MkLogicalMachine (with_logical (drop_packet l) s) (p ++ p') owed hand stop)
| ls_account s p owed owed' hand stop skb :
    logical_step (MkLogicalMachine s p (owed ++ skb :: owed') hand stop)
      (MkLogicalMachine (at_logical (xmit_account skb) s) p (owed ++ owed') hand stop)
| ls_take s p owed stop skb queue : s.(st_logical).(lg_queue) = skb :: queue ->
    logical_step (MkLogicalMachine s p owed None stop) (MkLogicalMachine (at_logical (set_lg_queue queue) s) p owed (Some skb) stop)
| ls_done s p owed stop skb dropped :
    logical_step (MkLogicalMachine s p owed (Some skb) stop) (MkLogicalMachine (logical_done dropped skb s) p owed None stop)
| ls_idle s p owed stop : s.(st_logical).(lg_queue) = [] ->
    logical_step (MkLogicalMachine s p owed None stop) (MkLogicalMachine (at_logical (set_lg_work false) s) p owed None stop)
| ls_start s p owed hand stop :
    logical_step (MkLogicalMachine s p owed hand stop) (MkLogicalMachine (at_logical melodi_logical_start s) p owed hand stop)
| ls_stopping s p owed hand stop :
    logical_step (MkLogicalMachine s p owed hand stop) (MkLogicalMachine (at_logical (set_lg_stopping true) s) p owed hand stop)
| ls_cancel s p owed stop :
    logical_step (MkLogicalMachine s p owed None stop) (MkLogicalMachine (at_logical (set_lg_work false) s) p owed None stop)
| ls_stop_take s p owed hand skb queue : s.(st_logical).(lg_queue) = skb :: queue ->
    logical_step (MkLogicalMachine s p owed hand None) (MkLogicalMachine (at_logical (set_lg_queue queue) s) p owed hand (Some skb))
| ls_stop_done s p owed hand skb error :
    logical_step (MkLogicalMachine s p owed hand (Some skb)) (MkLogicalMachine (stop_packet be error skb s) p owed hand None)
| ls_node s p owed hand stop n :
    logical_step (MkLogicalMachine s p owed hand stop) (MkLogicalMachine (with_node n s) p owed hand stop).

Definition packet_bytes (l : list sk_buff) : Z := sumZ (map (fun skb => zlen skb.(sk_data)) l).
Definition hand_list (hand : option sk_buff) : list sk_buff := match hand with Some skb => [skb] | None => [] end.
Definition packet_ok (skb : sk_buff) : Prop := exists header, melodi_logical_skb_valid be skb = Some header.

Record logical_inv (m : logical_machine) : Prop := {
  li_bytes : m.(lm_station).(st_logical).(lg_sent) + packet_bytes m.(lm_owed) =
             m.(lm_station).(st_logical).(lg_completed) + packet_bytes (hand_list m.(lm_hand)) + packet_bytes (hand_list m.(lm_stop)) +
             packet_bytes m.(lm_station).(st_logical).(lg_queue);
  li_room : zlen m.(lm_station).(st_logical).(lg_queue) <= MELODI_LOGICAL_QUEUE_LIMIT;
  li_valid : Forall packet_ok (hand_list m.(lm_hand) ++ hand_list m.(lm_stop) ++ m.(lm_passed) ++ m.(lm_station).(st_logical).(lg_queue));
}.

Lemma packet_bytes_app l l' : packet_bytes (l ++ l') = packet_bytes l + packet_bytes l'.
Proof. unfold packet_bytes. now rewrite map_app, sumZ_app. Qed.

Lemma packet_bytes_cons skb l : packet_bytes (skb :: l) = zlen skb.(sk_data) + packet_bytes l.
Proof. reflexivity. Qed.

Lemma checked_ok skb l : xmit_check be skb l = true -> packet_ok skb.
Proof. unfold xmit_check, packet_ok. destruct (melodi_logical_skb_valid be skb) as [h|]; [now exists h|discriminate]. Qed.

Lemma stop_packet_logical error skb s :
  (stop_packet be error skb s).(st_logical) = drop_packet (completed_packet skb s.(st_logical)).
Proof. unfold stop_packet. now destruct (melodi_logical_skb_valid be skb). Qed.

(** The loop of a stop. *)
Lemma stop_packets error l : forall s,
  let s' := fold_left (fun s skb => stop_packet be error skb s) l s in
  s'.(st_logical) = MkLogicalState s.(st_logical).(lg_queue) s.(st_logical).(lg_stopping) s.(st_logical).(lg_work) s.(st_logical).(lg_sent)
                      (s.(st_logical).(lg_completed) + packet_bytes l) (s.(st_logical).(lg_dropped) + zlen l).
Proof.
  induction l as [|skb l IH]; intros s; cbv zeta; cbn [fold_left].
  - unfold packet_bytes, zlen. cbn. rewrite !Z.add_0_r. now destruct (st_logical s).
  - rewrite IH, stop_packet_logical, packet_bytes_cons.
    cbn [drop_packet completed_packet lg_queue lg_stopping lg_work lg_sent lg_completed lg_dropped]. unfold zlen. cbn [length]. f_equal; lia.
Qed.

(** The view of the machine in which a step is checked. *)
Ltac step_view :=
  constructor; cbn [lm_station lm_passed lm_owed lm_hand lm_stop at_logical with_logical st_logical set_lg_queue set_lg_work set_lg_stopping
    melodi_logical_start drop_packet completed_packet sent_packet xmit_account with_node hand_list
    lg_queue lg_sent lg_completed].
Ltac step_bytes :=
  cbn [hand_list] in *; change (packet_bytes []) with 0 in *; rewrite ?packet_bytes_app, ?packet_bytes_cons in *; change (packet_bytes []) with 0 in *; lia.

(** A permutation of the packets keeps them good; a part of them is good. *)
Lemma packets_sub l l' : Forall packet_ok l -> l' ⊆ l -> Forall packet_ok l'.
Proof. intros H Hs. rewrite list.Forall_forall in *. auto. Qed.

Ltac parts := intros ?; cbn [hand_list]; rewrite ?elem_of_app, ?elem_of_cons, ?elem_of_nil; tauto.

Lemma logical_step_inv m m' : logical_step m m' -> logical_inv m -> logical_inv m'.
Proof.
  intros H [H1 H2 H3]. destruct H as [s p owed hand stop skb Hc|s p owed hand stop skb Hc|s p p' owed hand stop skb l Hq|s p p' owed hand stop skb l Hq
    |s p owed owed' hand stop skb|s p owed stop skb queue Hq|s p owed stop skb dropped|s p owed stop Hq|s p owed hand stop|s p owed hand stop|s p owed stop
    |s p owed hand skb queue Hq|s p owed hand skb error|s p owed hand stop n];
    cbn [lm_station lm_passed lm_owed lm_hand lm_stop] in *; try (step_view; assumption).
  - step_view; try assumption. apply checked_ok in Hc. rewrite !Forall_app in *. intuition.
  - unfold xmit_queue in Hq. destruct (Z.leb_spec MELODI_LOGICAL_QUEUE_LIMIT (zlen s.(st_logical).(lg_queue))); [discriminate|]. injection Hq as <-. step_view.
    + step_bytes.
    + unfold zlen in *. rewrite length_app. cbn. lia.
    + apply (packets_sub _ _ H3). parts.
  - unfold xmit_queue in Hq. destruct (_ <=? _); [|discriminate]. injection Hq as <-. step_view; try assumption.
    apply (packets_sub _ _ H3). parts.
  - step_view; try assumption. step_bytes.
  - rewrite Hq in *. step_view; [step_bytes|unfold zlen in *; cbn in H2; lia|]. apply (packets_sub _ _ H3). parts.
  - destruct dropped; unfold logical_done; step_view; try assumption; try step_bytes; apply (packets_sub _ _ H3); parts.
  - rewrite Hq in *. step_view; [step_bytes|unfold zlen in *; cbn in H2; lia|]. apply (packets_sub _ _ H3). parts.
  - constructor; cbn [lm_station lm_passed lm_owed lm_hand lm_stop hand_list]; rewrite stop_packet_logical;
      cbn [drop_packet completed_packet lg_queue lg_sent lg_completed]; try assumption; [step_bytes|]. apply (packets_sub _ _ H3). parts.
Qed.

(** A stop that nobody disturbs is a run of its steps. *)
Lemma stop_packet_queue error skb q s :
  stop_packet be error skb (at_logical (set_lg_queue q) s) = at_logical (set_lg_queue q) (stop_packet be error skb s).
Proof. unfold stop_packet. now destruct (melodi_logical_skb_valid be skb). Qed.

Lemma drain_runs error p owed hand l : forall s,
  rtc logical_step (MkLogicalMachine (at_logical (set_lg_queue l) s) p owed hand None)
    (MkLogicalMachine (fold_left (fun s skb => stop_packet be error skb s) l (at_logical (set_lg_queue []) s)) p owed hand None).
Proof.
  induction l as [|skb l IH]; intros s; [apply rtc_refl|].
  eapply rtc_l; [now apply (ls_stop_take _ p owed hand skb l)|]. eapply rtc_l; [apply (ls_stop_done _ p owed hand skb error)|].
  cbn [fold_left]. change (at_logical (set_lg_queue l) (at_logical (set_lg_queue (skb :: l)) s)) with (at_logical (set_lg_queue l) s).
  rewrite !stop_packet_queue. apply IH.
Qed.

Lemma stop_runs error s p owed :
  rtc logical_step (MkLogicalMachine s p owed None None) (MkLogicalMachine (melodi_logical_stop be error s) p owed None None).
Proof.
  eapply rtc_l; [apply ls_stopping|]. eapply rtc_l; [apply ls_cancel|].
  pose proof (drain_runs error p owed None s.(st_logical).(lg_queue) (at_logical (set_lg_work false) (at_logical (set_lg_stopping true) s))) as H.
  unfold melodi_logical_stop. now destruct s as [n []].
Qed.
End Accounts.

(** C10: a message of a binding is sent as it was asked for.  When [melodi_send] succeeds
    and its packet goes straight to the queue of the interface, the packet is the last
    of the queue, and the turn of the work that takes it, nothing having touched its
    reservation, claims that reservation and sends to the destination, from the service
    of the binding, with the payload, flags, cookie, time, priority and binding of the
    request; broadcast exactly when the flags say so. *)
Theorem logical_path_exact be msecs_to_jiffies {A : Aead} {Sg : Signer} check siphash capable binding e rq s s1 u :
  request_wf rq binding ->
  numbered (tx s.(st_node).(n_core)) -> 0 <= (tx s.(st_node).(n_core)).(t_reservation_sequence) <= U64_MAX ->
  s.(st_logical).(lg_stopping) = false -> zlen s.(st_logical).(lg_queue) < MELODI_LOGICAL_QUEUE_LIMIT ->
  melodi_send be check siphash capable (Some binding) e true id id (straight be) rq s = (s1, Ok tt) ->
  u.(tu_taken) = id -> u.(tu_claimed) = id ->
  exists skb reservation destination_service payload c,
    s1.(st_logical).(lg_queue) = s.(st_logical).(lg_queue) ++ [skb] /\ s1.(st_logical).(lg_work) = true /\
    rq.(rq_destination_service) = Some destination_service /\ rq.(rq_payload) = Some payload /\
    melodi_queue_reservation_claim siphash s1.(st_node).(n_core) reservation skb.(sk_data) = (c, Ok tt) /\
    logical_tx_one be msecs_to_jiffies check siphash u skb s1 =
    logical_tx_send msecs_to_jiffies check u skb
      (MkSend rq.(rq_destination) binding.2 destination_service payload (default 0 rq.(rq_flags)) (default 0 rq.(rq_cookie))
         (default MELODI_TTL_DEFAULT_MS rq.(rq_ttl_ms)) binding.1.1 binding.1.2 (default 0 rq.(rq_priority)) reservation)
      (at_core (fun _ => c) s1).
Proof.
  intros Hw Hn Hq Hs Hl Hsend Ht Hc. destruct (send_queues be check siphash _ _ _ _ _ _ Hw Hn Hq Hs Hl Hsend)
    as (ds & payload & header & c0 & index & r & Hck & V1 & V2 & -> & Hr & Hse & Htag & Hargs).
  destruct (checked_request _ _ _ _ _ _ _ _ Hck) as (E1 & E2 & _).
  assert (zlen (sk_data (logical_packet be header payload)) <> 0) as Hz.
  { revert V1. unfold melodi_logical_skb_valid. destruct (_ || _) eqn:G; [discriminate|]. intros _. unfold logical_packet in *. cbn [sk_headlen sk_data] in *. lia. }
  destruct (claim_sealed siphash c0 _ index r _ Hr Hse Htag Hz) as [c Hclaim].
  exists (logical_packet be header payload), header.(lh_reservation_id), ds, payload, c.
  split; [reflexivity|]. split; [reflexivity|]. split; [exact E1|]. split; [exact E2|]. split; [exact Hclaim|].
  unfold logical_tx_one. rewrite V1, Ht. cbn [id]. rewrite V2.
  match goal with |- context [melodi_queue_reservation_claim siphash ?x _ _] => change x with c0 end. rewrite Hclaim, Hargs. now rewrite Hc.
Qed.

(** C24: the bytes under way are counted exactly.  Over any interleaving of threads that
    check, queue and report packets, the work, starts and stops, a stop between the check
    and the queueing included: the bytes reported to the interface as under way, and
    those of the packets that have been queued but not reported yet, are together the
    bytes done, those of the packets in the hands of the work and of a stop and those of
    the packets queued; so what is reported falls short of that sum by exactly what has
    not been reported, and may fall short of what is done.  Never more than 128 are
    queued, and every packet queued or in a hand passes the checks of the work. *)
Theorem logical_accounts be m m' : logical_inv be m -> rtc (logical_step be) m m' -> logical_inv be m'.
Proof. intros H Hr. induction Hr as [|m m1 m' H1 Hr IH]; [exact H|]. apply IH. exact (logical_step_inv be _ _ H1 H). Qed.

(** A packet that was not sealed for a reservation that still waits for it is dropped,
    and nothing is sent. *)
Lemma unsealed_dropped be msecs_to_jiffies {A : Aead} {Sg : Signer} check siphash u skb s error c header :
  melodi_logical_skb_valid be skb = Some header -> u.(tu_taken) = id ->
  melodi_queue_reservation_claim siphash s.(st_node).(n_core) header.(lh_reservation_id) skb.(sk_data) = (c, Err error) ->
  logical_tx_one be msecs_to_jiffies check siphash u skb s = logical_done true skb s.
Proof.
  intros Hv Ht Hc. unfold logical_tx_one. rewrite Hv, Ht. cbn [id]. rewrite Hc.
  assert (c = s.(st_node).(n_core)) as ->.
  { revert Hc. unfold melodi_queue_reservation_claim, with_reservation. destruct (_ =? 0); [now intros [= <- _]|].
    destruct (_ ≫= _) as [[i r]|]; [|now intros [= <- _]]. destruct (_ && _); [discriminate|now intros [= <- _]]. }
  now destruct s as [[] ?].
Qed.

(** ** Witnesses *)

(** A device that sends to a peer, and its interface, up. *)
Definition sample_station : station := Eval vm_compute in
  MkStation (MkNode (melodi_queue_start 0 sender_core) node_a.(n_disc)) (melodi_logical_start fresh_logical).
Definition sample_rq : send_request :=
  MkSendRequest (Some (MkNodeId (1 :: replicate 32 9))) (Some 20) (Some [1; 2; 3; 4; 5]) (Some MELODI_F_RELIABLE) (Some 5) (Some 1000) (Some 2).
Definition logical_env : send_env :=
  MkSendEnv 83 0 true true (fun _ => Some (fun _ => 0)) (fun _ => true) (fun _ => true) 77 1000 true true true 1 100.
Definition idle_turn : turn_env :=
  MkTurn id id id id (MkWaitingGaps id id id id id id) (sample_around 300 30) sample_alone true logical_env 1000.

Definition sample_posted : station := Eval vm_compute in
  (melodi_send false (fun _ => 1) sumZ false (Some (3, 1, 10)) logical_env true id id (straight false) sample_rq sample_station).1.

Lemma logical_path_exact_witness :
  (exists skb, sample_posted.(st_logical).(lg_queue) = [skb]) /\
  let s' := (@melodi_logical_tx_work false sample_jiffies toy_aead Secure.toy_signer (fun _ => 1) sumZ [idle_turn; idle_turn] sample_posted).1 in
  length (List.filter e_active s'.(st_node).(n_core).(c_dev).(d_tx).(t_queue)) = 2%nat /\ s'.(st_logical).(lg_dropped) = 0.
Proof.
  split; [|vm_compute; split; reflexivity].
  destruct (@logical_path_exact false sample_jiffies toy_aead Secure.toy_signer (fun _ => 1) sumZ false (3, 1, 10) logical_env sample_rq sample_station
    sample_posted idle_turn) as (skb & _ & _ & _ & _ & H & _); try reflexivity.
  - constructor; cbn [sample_rq rq_destination rq_destination_service rq_flags rq_cookie rq_ttl_ms rq_priority];
      try (intros v [= <-]; (reflexivity || by_decide)). by_decide.
  - vm_compute. repeat constructor.
  - by_decide.
  - exists skb. exact H.
Defined.

Definition idle_machine : logical_machine := MkLogicalMachine sample_station [] [] None None.

(** The thread that queued a packet has not told the interface when the work is done. *)
Definition sample_packet : sk_buff := Eval vm_compute in
  logical_packet false (MkLogical zero_node 1 0 0 MELODI_LOGICAL_MAGIC 0 1 0 3 0 0 LOGICAL_SIZE 0 MELODI_LOGICAL_VERSION) [1; 2; 3].
Definition overtaken : logical_machine :=
  let s := with_logical (set_lg_queue [sample_packet] sample_station.(st_logical)) sample_station in
  MkLogicalMachine (logical_done true sample_packet (with_logical (set_lg_queue [] s.(st_logical)) s)) [] [sample_packet] None None.

Lemma overtaken_reached : rtc (logical_step false) idle_machine overtaken.
Proof.
  eapply rtc_l; [apply (ls_check false sample_station [] [] None None sample_packet); vm_compute; reflexivity|].
  eapply rtc_l; [apply (ls_queue false sample_station [] [] [] None None sample_packet); vm_compute; reflexivity|].
  eapply rtc_l; [apply ls_take; reflexivity|]. eapply rtc_l; [apply (ls_done false _ _ _ _ sample_packet true)|]. apply rtc_refl.
Qed.

(** Then more bytes are done than were ever under way. *)
Lemma completion_can_overtake :
  rtc (logical_step false) idle_machine overtaken /\ overtaken.(lm_station).(st_logical).(lg_sent) < overtaken.(lm_station).(st_logical).(lg_completed).
Proof. split; [exact overtaken_reached|by_decide]. Qed.

Lemma logical_accounts_witness : logical_inv false overtaken.
Proof.
  apply (logical_accounts false idle_machine overtaken); [|exact overtaken_reached].
  constructor; [reflexivity|by_decide|constructor].
Defined.
