(* ===== verification/Bindings.v ===== *)
(** * Bindings (src/kernel/core/netlink.c)

    Which socket of user space has which service of which device, and what the kernel
    tells it: messages, errors and frames.  A binding has a generation of its own, so
    that what is told of an old binding reaches nobody who came later.  Network
    namespaces, devices and sockets are numbers; building and sending a netlink message
    may fail, and whether it does is an argument. *)
From stdpp Require Import relations.
From S2P Require Import Prelude Buffer Uapi Device Fragments Identity Policy Queue Receive.

Record melodi_binding := MkBinding {
  b_net : Z;
  b_dev : Z;
  b_generation : Z;
  b_portid : Z;
  b_service : Z;
}.
Record melodi_monitor := MkMonitor { mo_net : Z; mo_dev : Z; mo_portid : Z }.

(** The two lists under [melodi_bindings_lock] and the counter of generations. *)
Record netlink_state := MkNetlink {
  nl_bindings : list melodi_binding;
  nl_monitors : list melodi_monitor;
  nl_generation : Z;
}.

Definition set_nl_bindings (v : list melodi_binding) (s : netlink_state) : netlink_state := MkNetlink v s.(nl_monitors) s.(nl_generation).
Definition set_nl_monitors (v : list melodi_monitor) (s : netlink_state) : netlink_state := MkNetlink s.(nl_bindings) v s.(nl_generation).
Definition set_nl_generation (v : Z) (s : netlink_state) : netlink_state := MkNetlink s.(nl_bindings) s.(nl_monitors) v.

(** What a socket is told. *)
Inductive notice :=
| NoticeError (dev service : Z) (cookie : option Z) (error : errno)
| NoticeMessage (message : delivery)
| NoticeFrame (dev direction : Z) (frame : bytes) (meta : option melodi_rx_meta).

(** A notice and the socket, in its namespace, that it is sent to. *)
Definition letter_to : Type := Z * Z * notice.

(** ** Lookups *)

Definition melodi_binding_by_socket (s : netlink_state) (net portid : Z) : option melodi_binding :=
  List.find (fun b => (b.(b_net) =? net) && (b.(b_portid) =? portid)) s.(nl_bindings).
Definition melodi_service_bound (s : netlink_state) (dev service : Z) : bool :=
  existsb (fun b => (b.(b_dev) =? dev) && (b.(b_service) =? service)) s.(nl_bindings).
Definition melodi_binding_by_service (s : netlink_state) (dev service : Z) : option melodi_binding :=
  List.find (fun b => (b.(b_dev) =? dev) && (b.(b_service) =? service)) s.(nl_bindings).
Definition melodi_binding_by_token (s : netlink_state) (dev portid generation service : Z) : option melodi_binding :=
  List.find (fun b => (b.(b_dev) =? dev) && (b.(b_portid) =? portid) && (b.(b_generation) =? generation) && (b.(b_service) =? service))
    s.(nl_bindings).

(** ** Binding *)

(** [do { generation = atomic64_inc_return(...); } while (!generation)] *)
Definition next_generation (generation : Z) : Z :=
  let generation := wrap 64 (generation + 1) in
  if generation =? 0 then wrap 64 (generation + 1) else generation.

(** [melodi_bind] up to the lock of the bindings; [device] is [melodi_device_get] in the
    namespace of the socket, [memory] the allocation. *)
Definition bind_prepare (device : Z -> option (Z * melodi_device)) (memory : bool) (net portid : Z) (ifindex service : option Z)
    (s : netlink_state) : netlink_state * result melodi_binding :=
  match ifindex, service with
  | Some ifindex, Some service =>
      if (service =? MELODI_SERVICE_CONTROL) || (service =? MELODI_SERVICE_ECHO) then (s, Err EACCES) else
      match device ifindex with
      | None => (s, Err ENODEV)
      | Some (dev, melodi) =>
          if negb melodi.(d_link).(l_identity_ready) then (s, Err ENOKEY) else
          match melodi_policy_check_service_locked melodi service false with
          | Err error => (s, Err error)
          | Ok _ =>
              if negb memory then (s, Err ENOMEM) else
              let generation := next_generation s.(nl_generation) in
              (set_nl_generation generation s, Ok (MkBinding net dev generation portid service))
          end
      end
  | _, _ => (s, Err EINVAL)
  end.

(** The section under it. *)
Definition bind_insert (b : melodi_binding) (s : netlink_state) : netlink_state * result unit :=
  match melodi_binding_by_socket s b.(b_net) b.(b_portid) with
  | Some _ => (s, Err EALREADY)
  | None =>
      if melodi_service_bound s b.(b_dev) b.(b_service) then (s, Err EADDRINUSE) else
      (set_nl_bindings (s.(nl_bindings) ++ [b]) s, Ok tt)
  end.

Definition melodi_bind (between : netlink_state -> netlink_state) (device : Z -> option (Z * melodi_device)) (memory : bool)
    (net portid : Z) (ifindex service : option Z) (s : netlink_state) : netlink_state * result unit :=
  match bind_prepare device memory net portid ifindex service s with
  | (s, Err error) => (s, Err error)
  | (s, Ok b) => bind_insert b (between s)
  end.

(** [list_del] of the first binding of a socket. *)
Fixpoint delete_first {A} (P : A -> bool) (l : list A) : list A :=
  match l with
  | [] => []
  | x :: l => if P x then l else x :: delete_first P l
  end.

Definition melodi_unbind (net portid : Z) (s : netlink_state) : netlink_state * result unit :=
  match melodi_binding_by_socket s net portid with
  | None => (s, Err ENOENT)
  | Some _ => (set_nl_bindings (delete_first (fun b => (b.(b_net) =? net) && (b.(b_portid) =? portid)) s.(nl_bindings)) s, Ok tt)
  end.

(** The answer of [melodi_get_binding], with [dev->ifindex]. *)
Definition melodi_get_binding (ifindex_of : Z -> Z) (net portid : Z) (s : netlink_state) : result (Z * Z) :=
  match melodi_binding_by_socket s net portid with
  | None => Err ENOENT
  | Some b => Ok (ifindex_of b.(b_dev), b.(b_service))
  end.

(** The binding of a socket that sends; [net_of] is the namespace of a device now. *)
Definition send_binding (net_of : Z -> Z) (net portid : Z) (s : netlink_state) : result melodi_binding :=
  match melodi_binding_by_socket s net portid with
  | None => Err ENOTCONN
  | Some b => if negb (b.(b_net) =? net) || negb (net_of b.(b_dev) =? net) then Err ENODEV else Ok b
  end.

Definition melodi_monitor_bind (capable memory : bool) (device : Z -> option Z) (net portid : Z) (ifindex : option Z) (s : netlink_state)
    : netlink_state * result unit :=
  if negb capable then (s, Err EPERM) else
  match ifindex with
  | None => (s, Err EINVAL)
  | Some ifindex =>
      match device ifindex with
      | None => (s, Err ENODEV)
      | Some dev =>
          if negb memory then (s, Err ENOMEM) else
          if existsb (fun m => (m.(mo_net) =? net) && (m.(mo_portid) =? portid)) s.(nl_monitors) then (s, Err EALREADY) else
          (set_nl_monitors (s.(nl_monitors) ++ [MkMonitor net dev portid]) s, Ok tt)
      end
  end.

(** ** Ends *)

Definition melodi_netlink_release (net portid : Z) (s : netlink_state) : netlink_state :=
  let s := set_nl_bindings (List.filter (fun b => negb ((b.(b_net) =? net) && (b.(b_portid) =? portid))) s.(nl_bindings)) s in
  set_nl_monitors (List.filter (fun m => negb ((m.(mo_net) =? net) && (m.(mo_portid) =? portid))) s.(nl_monitors)) s.

(** [melodi_binding_error]; [told] is whether the message could be built and sent. *)
Definition melodi_binding_error (told : melodi_binding -> bool) (b : melodi_binding) (cookie : option Z) (error : errno) : list letter_to :=
  if told b then [(b.(b_net), b.(b_portid), NoticeError b.(b_dev) b.(b_service) cookie error)] else [].

Definition melodi_netlink_interface_removed (told : melodi_binding -> bool) (dev : Z) (s : netlink_state) : netlink_state * list letter_to :=
  let letters := concat (map (fun b => if b.(b_dev) =? dev then melodi_binding_error told b None ENODEV else []) s.(nl_bindings)) in
  let s := set_nl_bindings (List.filter (fun b => negb (b.(b_dev) =? dev)) s.(nl_bindings)) s in
  (set_nl_monitors (List.filter (fun m => negb (m.(mo_dev) =? dev)) s.(nl_monitors)) s, letters).

(** ** What the kernel tells *)

Definition melodi_netlink_delivery_error (told : melodi_binding -> bool) (dev portid generation service cookie : Z) (error : errno)
    (s : netlink_state) : list letter_to :=
  match melodi_binding_by_token s dev portid generation service with
  | Some b => melodi_binding_error told b (Some cookie) error
  | None => []
  end.

Definition melodi_netlink_link_error (told : melodi_binding -> bool) (dev : Z) (error : errno) (s : netlink_state) : list letter_to :=
  concat (map (fun b => if b.(b_dev) =? dev then melodi_binding_error told b None error else []) s.(nl_bindings)).

(** A message that arrived: what is sent, the answer, and whether it counts as dropped.
    [built] and [unicast] are whether the netlink message could be built and sent; [now_ns]
    stands in for a missing timestamp. *)
Definition stamped (now_ns : Z) (meta : melodi_rx_meta) : melodi_rx_meta :=
  MkRxMeta (if meta.(rm_timestamp_ns) =? 0 then now_ns else meta.(rm_timestamp_ns)) meta.(rm_source_locator)
    meta.(rm_destination_locator) meta.(rm_duplicates) meta.(rm_rssi) meta.(rm_snr) meta.(rm_hops) meta.(rm_retransmissions)
    meta.(rm_authenticated).

Definition melodi_netlink_receive (built unicast : result unit) (now_ns dev : Z) (message : delivery) (s : netlink_state)
    : list letter_to * result unit * bool :=
  if MELODI_MESSAGE_MTU <? zlen message.(de_payload) then ([], Err EINVAL, false) else
  match melodi_binding_by_service s dev message.(de_destination_service) with
  | None => ([], Err ECONNREFUSED, true)
  | Some b =>
      match built, unicast with
      | Err error, _ | Ok _, Err error => ([], Err error, true)
      | Ok _, Ok _ =>
          ([(b.(b_net), b.(b_portid),
             NoticeMessage (MkDelivery message.(de_source) message.(de_source_service) message.(de_destination_service)
                              message.(de_payload) (stamped now_ns message.(de_meta))))], Ok tt, false)
      end
  end.

(** A frame, for the monitors of the device in its namespace: what is sent, and how many
    copies are dropped; [sent] is whether a copy could be built and sent. *)
Definition melodi_netlink_monitor_frame (sent : melodi_monitor -> bool) (net_of : Z -> Z) (now_ns dev direction : Z) (frame : bytes)
    (meta : option melodi_rx_meta) (s : netlink_state) : list letter_to * Z :=
  if (zlen frame <? MELODI_FRAME_HEADER_MIN) || (MELODI_FRAME_MTU_MAX <? zlen frame) || (MELODI_MONITOR_TX <? direction) ||
     ((direction =? MELODI_MONITOR_RX) && match meta with None => true | Some _ => false end)
  then ([], 0) else
  let heard := List.filter (fun m => (m.(mo_dev) =? dev) && (m.(mo_net) =? net_of dev)) s.(nl_monitors) in
  let notice := NoticeFrame dev direction frame (if direction =? MELODI_MONITOR_RX then stamped now_ns <$> meta else None) in
  (map (fun m => (m.(mo_net), m.(mo_portid), notice)) (List.filter sent heard), zlen (List.filter (fun m => negb (sent m)) heard)).

Definition melodi_netlink_unregister (s : netlink_state) : netlink_state := set_nl_monitors [] (set_nl_bindings [] s).

(** ** What happens to the lists

    A binding between the allocation of its generation and the section that files it is
    in a list of its own. *)

Definition fresh_netlink : netlink_state := MkNetlink [] [] 0.

Inductive nl_event :=
| EvPrepare (device : Z -> option (Z * melodi_device)) (memory : bool) (net portid : Z) (ifindex service : option Z)
| EvInsert (which : nat)
| EvUnbind (net portid : Z)
| EvMonitor (capable memory : bool) (device : Z -> option Z) (net portid : Z) (ifindex : option Z)
| EvRelease (net portid : Z)
| EvRemoved (told : melodi_binding -> bool) (dev : Z)
| EvUnregister.

Definition nl_step (st : netlink_state * list melodi_binding) (event : nl_event) : netlink_state * list melodi_binding :=
  let '(s, prepared) := st in
  match event with
  | EvPrepare device memory net portid ifindex service =>
      match bind_prepare device memory net portid ifindex service s with
      | (s, Ok b) => (s, prepared ++ [b])
      | (s, Err _) => (s, prepared)
      end
  | EvInsert which =>
      match prepared !! which with
      | Some b => ((bind_insert b s).1, delete which prepared)
      | None => (s, prepared)
      end
  | EvUnbind net portid => ((melodi_unbind net portid s).1, prepared)
  | EvMonitor capable memory device net portid ifindex => ((melodi_monitor_bind capable memory device net portid ifindex s).1, prepared)
  | EvRelease net portid => (melodi_netlink_release net portid s, prepared)
  | EvRemoved told dev => ((melodi_netlink_interface_removed told dev s).1, prepared)
  | EvUnregister => (melodi_netlink_unregister s, prepared)
  end.

Definition nl_run (events : list nl_event) : netlink_state * list melodi_binding := fold_left nl_step events (fresh_netlink, []).

(** The events that end a binding. *)
Definition ends (b : melodi_binding) (event : nl_event) : Prop :=
  match event with
  | EvUnbind net portid | EvRelease net portid => net = b.(b_net) /\ portid = b.(b_portid)
  | EvRemoved _ dev => dev = b.(b_dev)
  | EvUnregister => True
  | _ => False
  end.

(** ** The lists are functions *)

Definition socket_of (b : melodi_binding) : Z * Z := (b.(b_net), b.(b_portid)).
Definition place_of (b : melodi_binding) : Z * Z := (b.(b_dev), b.(b_service)).
Definition monitor_socket (m : melodi_monitor) : Z * Z := (m.(mo_net), m.(mo_portid)).
Definition application (service : Z) : Prop := service <> MELODI_SERVICE_CONTROL /\ service <> MELODI_SERVICE_ECHO.

Record nl_ok (s : netlink_state) (prepared : list melodi_binding) : Prop := {
  no_sockets : NoDup (socket_of <$> s.(nl_bindings));
  no_places : NoDup (place_of <$> s.(nl_bindings));
  no_generations : NoDup (b_generation <$> s.(nl_bindings) ++ prepared);
  no_range : Forall (fun b => 0 < b.(b_generation) <= s.(nl_generation)) (s.(nl_bindings) ++ prepared);
  no_services : Forall (fun b => application b.(b_service)) (s.(nl_bindings) ++ prepared);
  no_monitors : NoDup (monitor_socket <$> s.(nl_monitors));
}.

Lemma sublist_map {A B} (f : A -> B) (l k : list A) : sublist l k -> sublist (f <$> l) (f <$> k).
Proof. induction 1; cbn; constructor; auto. Qed.

Lemma filter_sublist {A} (P : A -> bool) (l : list A) : sublist (List.filter P l) l.
Proof. induction l as [|x l IH]; cbn; [constructor|]. destruct (P x); constructor; auto. Qed.

Lemma delete_first_sublist {A} (P : A -> bool) (l : list A) : sublist (delete_first P l) l.
Proof. induction l as [|x l IH]; cbn; [constructor|]. destruct (P x); constructor; [reflexivity|auto]. Qed.

(** Lists that lose members stay right. *)
Lemma nl_ok_shrink s prepared bindings monitors prepared' : nl_ok s prepared -> sublist bindings s.(nl_bindings) ->
  sublist monitors s.(nl_monitors) -> sublist prepared' prepared -> nl_ok (MkNetlink bindings monitors s.(nl_generation)) prepared'.
Proof.
  intros [H1 H2 H3 H4 H5 H6] Hb Hm Hp.
  assert (Ha : sublist (bindings ++ prepared') (s.(nl_bindings) ++ prepared)) by now apply sublist_app.
  assert (Hin : forall b, b ∈ bindings ++ prepared' -> b ∈ s.(nl_bindings) ++ prepared) by now apply sublist_subseteq.
  rewrite list.Forall_forall in H4, H5.
  split; cbn [nl_bindings nl_monitors nl_generation]; try rewrite list.Forall_forall; eauto using sublist_NoDup, sublist_map.
Qed.

Lemma find_none {A} (P : A -> bool) (l : list A) : List.find P l = None -> forall x, x ∈ l -> P x = false.
Proof. intros H x Hx. apply (List.find_none P l H x). now apply list_elem_of_In. Qed.

Lemma existsb_none {A} (P : A -> bool) (l : list A) : existsb P l = false -> forall x, x ∈ l -> P x = false.
Proof.
  intros H x Hx. destruct (P x) eqn:E; [|reflexivity]. assert (existsb P l = true) as Ht; [|congruence].
  apply existsb_exists. exists x. split; [now apply list_elem_of_In|assumption].
Qed.

Lemma NoDup_snoc_map {A B} (f : A -> B) (l : list A) x : NoDup (f <$> l) -> (forall y, y ∈ l -> f y <> f x) -> NoDup (f <$> l ++ [x]).
Proof.
  intros H Hx. rewrite fmap_app. apply list.NoDup_app. split; [assumption|]. split; [|apply list.NoDup_singleton].
  intros z Hz Hn. apply list_elem_of_singleton in Hn. cbn in Hn. apply list_elem_of_fmap in Hz as (y & -> & Hy). now apply (Hx y).
Qed.

(** A binding that is filed moves from one list to the other. *)
Lemma bind_insert_ok s prepared which b : nl_ok s prepared -> prepared !! which = Some b ->
  nl_ok (bind_insert b s).1 (delete which prepared).
Proof.
  intros H Hw. pose proof (delete_Permutation _ _ _ Hw) as Hp. unfold bind_insert.
  assert (Hs : nl_ok s (delete which prepared)).
  { destruct s as [bs ms g]. eapply (nl_ok_shrink (MkNetlink bs ms g)); eauto using sublist_delete. }
  destruct (melodi_binding_by_socket _ _ _) eqn:E; [exact Hs|]. destruct (melodi_service_bound _ _ _) eqn:E'; [exact Hs|]. clear Hs.
  pose proof (find_none _ _ E) as Hso. pose proof (existsb_none _ _ E') as Hsv. destruct H as [H1 H2 H3 H4 H5 H6].
  assert (Hq : (s.(nl_bindings) ++ [b]) ++ delete which prepared ≡ₚ s.(nl_bindings) ++ prepared)
    by (rewrite <- app_assoc; cbn; now rewrite <- Hp).
  split; cbn [fst set_nl_bindings nl_bindings nl_monitors nl_generation]; try (rewrite Hq; assumption); try assumption.
  - apply NoDup_snoc_map; [assumption|]. intros c Hc He. specialize (Hso c Hc). cbn beta in Hso. injection He as E1 E2.
    rewrite E1, E2, !Z.eqb_refl in Hso. discriminate.
  - apply NoDup_snoc_map; [assumption|]. intros c Hc He. specialize (Hsv c Hc). cbn beta in Hsv. injection He as E1 E2.
    rewrite E1, E2, !Z.eqb_refl in Hsv. discriminate.
Qed.

Lemma monitor_bind_ok capable memory device net portid ifindex s prepared : nl_ok s prepared ->
  nl_ok (melodi_monitor_bind capable memory device net portid ifindex s).1 prepared.
Proof.
  intros H. unfold melodi_monitor_bind. destruct capable; [cbn [negb]|exact H]. destruct ifindex as [i|]; [|exact H].
  destruct (device i) as [dev|]; [|exact H]. destruct memory; [cbn [negb]|exact H]. destruct (existsb _ _) eqn:E; [exact H|].
  pose proof (existsb_none _ _ E) as Hm. destruct H as [H1 H2 H3 H4 H5 H6]. split; try assumption.
  cbn [fst set_nl_monitors nl_monitors]. apply NoDup_snoc_map; [assumption|]. intros m Hc He. specialize (Hm m Hc). cbn beta in Hm.
  injection He as E1 E2. rewrite E1, E2, !Z.eqb_refl in Hm. discriminate.
Qed.

(** ** Generations *)

Lemma next_generation_next g : 0 <= g < U64_MAX -> next_generation g = g + 1.
Proof.
  intros H. unfold next_generation. rewrite wrap_id by (split; [lia|change (2 ^ 64) with (U64_MAX + 1); lia]). destruct (Z.eqb_spec (g + 1) 0); [lia|reflexivity].
Qed.

(** What [melodi_bind] has when it takes the lock of the bindings. *)
Lemma bind_prepare_fields device memory net portid ifindex service s s' b : bind_prepare device memory net portid ifindex service s = (s', Ok b) ->
  s' = set_nl_generation (next_generation s.(nl_generation)) s /\ b.(b_generation) = next_generation s.(nl_generation) /\
  b.(b_net) = net /\ b.(b_portid) = portid /\ service = Some b.(b_service) /\ application b.(b_service).
Proof.
  unfold bind_prepare. destruct ifindex as [i|]; [|congruence]. destruct service as [service|]; [|congruence].
  destruct (Z.eqb_spec service MELODI_SERVICE_CONTROL); [cbn [orb]; congruence|].
  destruct (Z.eqb_spec service MELODI_SERVICE_ECHO); [cbn [orb]; congruence|]. cbn [orb].
  destruct (device i) as [[dev melodi]|]; [|congruence]. destruct (negb _); [congruence|].
  destruct (melodi_policy_check_service_locked _ _ _) as [u|error]; [|congruence]. destruct (negb memory); [congruence|].
  intros [= <- <-]. cbn. repeat split; auto.
Qed.

Lemma bind_prepare_error device memory net portid ifindex service s s' error :
  bind_prepare device memory net portid ifindex service s = (s', Err error) -> s' = s.
Proof.
  unfold bind_prepare. destruct ifindex as [i|]; [|congruence]. destruct service as [service|]; [|congruence].
  destruct (_ || _); [congruence|]. destruct (device i) as [[dev melodi]|]; [|congruence]. destruct (negb _); [congruence|].
  destruct (melodi_policy_check_service_locked _ _ _) as [u|e]; [|congruence]. destruct (negb memory); congruence.
Qed.

Lemma prepared_ok s prepared b : nl_ok s prepared -> 0 <= s.(nl_generation) < U64_MAX ->
  b.(b_generation) = next_generation s.(nl_generation) -> application b.(b_service) ->
  nl_ok (set_nl_generation (next_generation s.(nl_generation)) s) (prepared ++ [b]).
Proof.
  intros [H1 H2 H3 H4 H5 H6] Hg Hb Ha. rewrite next_generation_next in * by assumption.
  split; cbn [set_nl_generation nl_bindings nl_monitors nl_generation]; try assumption; rewrite app_assoc.
  - apply NoDup_snoc_map; [assumption|]. rewrite list.Forall_forall in H4. intros c Hc He. specialize (H4 c Hc). lia.
  - apply list.Forall_app. split; [|apply list.Forall_cons; split; [lia|constructor]]. eapply list.Forall_impl; [exact H4|]. cbn. lia.
  - apply list.Forall_app. split; [assumption|]. apply list.Forall_cons. split; [assumption|constructor].
Qed.

(** ** Any run *)

Definition generation_of (st : netlink_state * list melodi_binding) : Z := st.1.(nl_generation).
Definition members (st : netlink_state * list melodi_binding) : list melodi_binding := st.1.(nl_bindings) ++ st.2.
Definition nl_good (st : netlink_state * list melodi_binding) : Prop := nl_ok st.1 st.2 /\ 0 <= generation_of st.

Lemma fresh_good : nl_good (fresh_netlink, []).
Proof. split; [split; constructor|easy]. Qed.

Lemma set_nothing s : MkNetlink s.(nl_bindings) s.(nl_monitors) s.(nl_generation) = s.
Proof. now destruct s. Qed.

Lemma nl_step_good st event : nl_good st -> generation_of st < U64_MAX ->
  nl_good (nl_step st event) /\ generation_of st <= generation_of (nl_step st event) <= generation_of st + 1.
Proof.
  destruct st as [s prepared]. unfold nl_good, generation_of. cbn [fst snd]. intros [H Hg] Hm.
  assert (Hk : forall bindings monitors, sublist bindings s.(nl_bindings) -> sublist monitors s.(nl_monitors) ->
    nl_ok (MkNetlink bindings monitors s.(nl_generation)) prepared) by (intros; now apply (nl_ok_shrink _ _ _ _ prepared H)).
  destruct event as [device memory net portid ifindex service|which|net portid|capable memory device net portid ifindex|net portid|told dev|];
    cbn [nl_step].
  - destruct (bind_prepare _ _ _ _ _ _ _) as [s' [b|error]] eqn:E; cbn [fst snd].
    + apply bind_prepare_fields in E as (-> & Hb & _ & _ & _ & Ha). split; [split|]; [now apply prepared_ok|..];
        cbn [set_nl_generation nl_generation]; rewrite next_generation_next by lia; lia.
    + apply bind_prepare_error in E as ->. split; [now split|lia].
  - destruct (prepared !! which) as [b|] eqn:E; cbn [fst snd]; [|split; [now split|lia]].
    pose proof (bind_insert_ok _ _ _ _ H E) as Hi. assert (Hn : (bind_insert b s).1.(nl_generation) = s.(nl_generation)).
    { unfold bind_insert. destruct (melodi_binding_by_socket _ _ _); [reflexivity|]. now destruct (melodi_service_bound _ _ _). }
    rewrite Hn. split; [now split|lia].
  - unfold melodi_unbind. destruct (melodi_binding_by_socket _ _ _); cbn; (split; [split|]; [|lia..]); [|assumption].
    apply Hk; [apply delete_first_sublist|reflexivity].
  - pose proof (monitor_bind_ok capable memory device net portid ifindex s prepared H) as Hi.
    assert (Hn : (melodi_monitor_bind capable memory device net portid ifindex s).1.(nl_generation) = s.(nl_generation)).
    { unfold melodi_monitor_bind. destruct capable, ifindex as [i|]; cbn; auto. destruct (device i), memory; cbn; auto. now destruct (existsb _ _). }
    cbn [fst snd]. rewrite Hn. split; [now split|lia].
  - cbn. split; [split|]; [|lia..]. apply Hk; apply filter_sublist.
  - cbn. split; [split|]; [|lia..]. apply Hk; apply filter_sublist.
  - cbn. split; [split|]; [|lia..]. apply Hk; apply sublist_nil_l.
Qed.

(** Who is there after a step was there before it, or has the next generation. *)
Lemma nl_step_members st event b : 0 <= generation_of st < U64_MAX -> b ∈ members (nl_step st event) ->
  b ∈ members st \/ b.(b_generation) = generation_of st + 1.
Proof.
  destruct st as [s prepared]. unfold members, generation_of. cbn [fst snd]. intros Hg Hb.
  assert (Hk : forall bindings, sublist bindings s.(nl_bindings) -> b ∈ bindings ++ prepared -> b ∈ s.(nl_bindings) ++ prepared).
  { intros bs Hs. apply sublist_subseteq. now apply sublist_app. }
  destruct event as [device memory net portid ifindex service|which|net portid|capable memory device net portid ifindex|net portid|told dev|];
    cbn [nl_step] in Hb.
  - destruct (bind_prepare _ _ _ _ _ _ _) as [s' [c|error]] eqn:E; cbn [fst snd] in Hb.
    + apply bind_prepare_fields in E as (-> & Hc & _). cbn [set_nl_generation nl_bindings] in Hb. rewrite app_assoc in Hb.
      apply elem_of_app in Hb as [Hb|Hb]; [auto|]. apply list_elem_of_singleton in Hb as ->. right. now rewrite Hc, next_generation_next.
    + apply bind_prepare_error in E as ->. auto.
  - left. destruct (prepared !! which) as [c|] eqn:E; [|exact Hb]. cbn [fst snd] in Hb. pose proof (delete_Permutation _ _ _ E) as Hp.
    unfold bind_insert in Hb. assert (Hr : b ∈ s.(nl_bindings) ++ c :: delete which prepared -> b ∈ s.(nl_bindings) ++ prepared) by now rewrite <- Hp.
    apply Hr. destruct (melodi_binding_by_socket _ _ _); [|destruct (melodi_service_bound _ _ _)]; cbn [fst set_nl_bindings nl_bindings] in Hb;
      revert Hb; rewrite ?elem_of_app, ?elem_of_cons, ?elem_of_nil; tauto.
  - left. unfold melodi_unbind in Hb. destruct (melodi_binding_by_socket _ _ _); [|exact Hb]. eapply Hk; [apply delete_first_sublist|exact Hb].
  - left. revert Hb. cbn [fst snd]. unfold melodi_monitor_bind.
    destruct capable, ifindex as [i|]; cbn; auto. destruct (device i), memory; cbn; auto. now destruct (existsb _ _).
  - left. eapply Hk; [apply filter_sublist|exact Hb].
  - left. eapply Hk; [apply filter_sublist|exact Hb].
  - left. cbn in Hb. apply elem_of_app. now right.
Qed.

Lemma zlen_event (e : nl_event) events : zlen (e :: events) = zlen events + 1.
Proof. unfold zlen. cbn [length]. lia. Qed.

Lemma zlen_events (events : list nl_event) : 0 <= zlen events.
Proof. unfold zlen. lia. Qed.

Lemma nl_run_good events : forall st, nl_good st -> generation_of st + zlen events <= U64_MAX ->
  nl_good (fold_left nl_step events st) /\ generation_of st <= generation_of (fold_left nl_step events st) <= generation_of st + zlen events.
Proof.
  induction events as [|e events IH]; intros st H Hl; cbn [fold_left].
  - split; [assumption|]. change (zlen (@nil nl_event)) with 0. lia.
  - rewrite zlen_event in *. pose proof (zlen_events events). destruct (nl_step_good st e H ltac:(lia)) as (H' & Hg).
    destruct (IH _ H' ltac:(lia)). split; [assumption|lia].
Qed.

(** A generation that nobody has any more is nobody's for ever. *)
Definition spent (g : Z) (st : netlink_state * list melodi_binding) : Prop :=
  g <= generation_of st /\ forall b, b ∈ members st -> b.(b_generation) <> g.

Lemma nl_run_spent g events : forall st, nl_good st -> generation_of st + zlen events <= U64_MAX -> spent g st ->
  spent g (fold_left nl_step events st).
Proof.
  induction events as [|e events IH]; intros st H Hl Hs; cbn [fold_left]; [assumption|].
  rewrite zlen_event in *. pose proof (zlen_events events). destruct (nl_step_good st e H ltac:(lia)) as (H' & Hg).
  apply IH; [assumption|lia|]. destruct Hs as [Hs1 Hs2]. split; [lia|]. intros b Hb. destruct H as [_ Hz].
  destruct (nl_step_members st e b ltac:(lia) Hb) as [Ho| ->]; [now apply Hs2|lia].
Qed.

(** ** The end of a binding *)

Lemma delete_first_socket net portid l b : NoDup (socket_of <$> l) ->
  b ∈ delete_first (fun b => (b.(b_net) =? net) && (b.(b_portid) =? portid)) l -> socket_of b <> (net, portid).
Proof.
  induction l as [|c l IH]; cbn; intros H Hb; [now apply not_elem_of_nil in Hb|]. apply list.NoDup_cons in H as [Hc H].
  destruct ((_ =? net) && _) eqn:E.
  - intros He. apply Hc. apply andb_true_iff in E as [E1 E2]. apply Z.eqb_eq in E1, E2.
    replace (socket_of c) with (socket_of b) by (rewrite He; unfold socket_of; now rewrite E1, E2). now apply list_elem_of_fmap_2.
  - apply elem_of_cons in Hb as [->|Hb]; [|now apply IH]. intros [= <- <-]. rewrite !Z.eqb_refl in E. discriminate.
Qed.

Lemma filter_out {A} (P : A -> bool) l x : x ∈ List.filter (fun x => negb (P x)) l -> x ∈ l /\ P x = false.
Proof.
  intros H. apply list_elem_of_In, filter_In in H as [H Hp]. split; [now apply list_elem_of_In|]. now destruct (P x).
Qed.

Lemma ended_gone st event b c : nl_good st -> ends b event -> b ∈ st.1.(nl_bindings) -> c ∈ (nl_step st event).1.(nl_bindings) ->
  c <> b.
Proof.
  destruct st as [s prepared]. cbn [fst snd]. intros [H _] He Hb Hc ->. destruct H as [Hs _ _ _ _ _].
  destruct event as [device memory net portid ifindex service|which|net portid|capable memory device net portid ifindex|net portid|told dev|];
    cbn in He; try contradiction; cbn in Hc.
  - destruct He as [-> ->]. unfold melodi_unbind in Hc. destruct (melodi_binding_by_socket s (b_net b) (b_portid b)) eqn:E.
    + now apply (delete_first_socket _ _ _ _ Hs Hc).
    + pose proof (find_none _ _ E b Hb) as Hf. cbn beta in Hf. rewrite !Z.eqb_refl in Hf. discriminate.
  - destruct He as [-> ->]. apply (filter_out (fun c => (b_net c =? b_net b) && (b_portid c =? b_portid b))) in Hc as [_ Hf]. rewrite !Z.eqb_refl in Hf. discriminate.
  - subst dev. apply (filter_out (fun c => b_dev c =? b_dev b)) in Hc as [_ Hf]. rewrite !Z.eqb_refl in Hf. discriminate.
  - now apply not_elem_of_nil in Hc.
Qed.

Lemma NoDup_fmap_eq {A B} (f : A -> B) l x y : NoDup (f <$> l) -> x ∈ l -> y ∈ l -> f x = f y -> x = y.
Proof.
  induction l as [|z l IH]; cbn; intros H Hx Hy He; [now apply not_elem_of_nil in Hx|]. apply list.NoDup_cons in H as [Hz H].
  apply elem_of_cons in Hx as [->|Hx], Hy as [->|Hy]; auto.
  - destruct Hz. rewrite He. now apply list_elem_of_fmap_2.
  - destruct Hz. rewrite <- He. now apply list_elem_of_fmap_2.
Qed.

(** The generation of a binding that has ended is spent. *)
Lemma ended_spent st event b : nl_good st -> generation_of st < U64_MAX -> ends b event -> b ∈ st.1.(nl_bindings) ->
  spent b.(b_generation) (nl_step st event).
Proof.
  intros H Hm He Hb. destruct (nl_step_good st event H Hm) as (_ & Hg). pose proof H as [[_ _ Hn Hr _ _] Hz].
  assert (Hin : b ∈ members st) by (apply elem_of_app; now left).
  rewrite list.Forall_forall in Hr. pose proof (Hr b Hin) as Hrb. fold (generation_of st) in Hrb. split; [lia|].
  intros c Hc Heq. destruct (nl_step_members st event c ltac:(lia) Hc) as [Ho|Hx]; [|lia].
  pose proof (NoDup_fmap_eq b_generation (members st) c b Hn Ho Hin Heq) as ->.
  apply elem_of_app in Hc as [Hc|Hc]; [now apply (ended_gone st event b b H He Hb Hc)|].
  apply NoDup_fmap_1, list.NoDup_app in Hn as (_ & Hd & _). apply (Hd b Hb).
  destruct st as [s prepared]. now destruct event; cbn in He.
Qed.

(** ** Lookups in lists that are right *)

Lemma find_only {A} (P : A -> bool) (l : list A) b : b ∈ l -> P b = true -> (forall c, c ∈ l -> P c = true -> c = b) -> List.find P l = Some b.
Proof.
  intros Hb Hp Hu. destruct (List.find P l) as [c|] eqn:E.
  - apply List.find_some in E as [E1 E2]. f_equal. apply Hu; [now apply list_elem_of_In|assumption].
  - pose proof (find_none _ _ E b Hb). congruence.
Qed.

Lemma look_by_socket s prepared b : nl_ok s prepared -> b ∈ s.(nl_bindings) -> melodi_binding_by_socket s b.(b_net) b.(b_portid) = Some b.
Proof.
  intros H Hb. apply find_only; [assumption|now rewrite !Z.eqb_refl|]. intros c Hc Hp. apply andb_true_iff in Hp as [E1 E2].
  apply Z.eqb_eq in E1, E2. apply (NoDup_fmap_eq socket_of _ _ _ (no_sockets _ _ H)); auto. unfold socket_of. now rewrite E1, E2.
Qed.

Lemma look_by_service s prepared b : nl_ok s prepared -> b ∈ s.(nl_bindings) -> melodi_binding_by_service s b.(b_dev) b.(b_service) = Some b.
Proof.
  intros H Hb. apply find_only; [assumption|now rewrite !Z.eqb_refl|]. intros c Hc Hp. apply andb_true_iff in Hp as [E1 E2].
  apply Z.eqb_eq in E1, E2. apply (NoDup_fmap_eq place_of _ _ _ (no_places _ _ H)); auto. unfold place_of. now rewrite E1, E2.
Qed.

Lemma token_find s dev portid generation service b : melodi_binding_by_token s dev portid generation service = Some b ->
  b ∈ s.(nl_bindings) /\ b.(b_generation) = generation.
Proof.
  intros H. apply List.find_some in H as [H1 H2]. split; [now apply list_elem_of_In|]. rewrite !andb_true_iff, !Z.eqb_eq in H2. tauto.
Qed.

Lemma look_by_token s prepared b : nl_ok s prepared -> b ∈ s.(nl_bindings) ->
  melodi_binding_by_token s b.(b_dev) b.(b_portid) b.(b_generation) b.(b_service) = Some b.
Proof.
  intros H Hb. apply find_only; [assumption|now rewrite !Z.eqb_refl|]. intros c Hc Hp.
  rewrite !andb_true_iff, !Z.eqb_eq in Hp. apply (NoDup_fmap_eq b_generation _ _ _ (no_generations _ _ H)); [..|tauto];
    apply elem_of_app; now left.
Qed.

(** ** Properties *)

(** C17: from an empty registry, in any run of binds (whose preparation and filing may be
    apart, with other calls in between), unbinds, monitors, closed sockets, removed
    devices and the removal of the family, with fewer than 2^64 calls: every socket has
    one binding at most and every service of a device one socket at most, each of the
    three lookups of a binding finds it and nothing else, no binding has a service of
    the core, and no socket monitors twice. *)
Theorem bindings_unique events s prepared : zlen events <= U64_MAX -> nl_run events = (s, prepared) ->
  (forall b, b ∈ s.(nl_bindings) ->
     melodi_binding_by_socket s b.(b_net) b.(b_portid) = Some b /\
     melodi_binding_by_service s b.(b_dev) b.(b_service) = Some b /\
     melodi_binding_by_token s b.(b_dev) b.(b_portid) b.(b_generation) b.(b_service) = Some b /\
     b.(b_service) <> MELODI_SERVICE_CONTROL /\ b.(b_service) <> MELODI_SERVICE_ECHO) /\
  NoDup (monitor_socket <$> s.(nl_monitors)).
Proof.
  intros Hl Hr. destruct (nl_run_good events _ fresh_good Hl) as [[H _] _]. unfold nl_run in Hr. rewrite Hr in H. cbn [fst snd] in H.
  split; [|exact (no_monitors _ _ H)]. intros b Hb. split; [exact (look_by_socket _ _ _ H Hb)|].
  split; [exact (look_by_service _ _ _ H Hb)|]. split; [exact (look_by_token _ _ _ H Hb)|].
  pose proof (no_services _ _ H) as Ha. rewrite list.Forall_forall in Ha. apply Ha. apply elem_of_app. now left.
Qed.

(** C11: the error of a message reaches the socket that sent it while its binding lasts,
    and only it; once the binding has ended (unbound, its socket closed, its device
    removed, the family removed) the error reaches nobody, whatever happens after, even
    if the same socket binds the same service of the same device again. *)
Theorem no_stale_notice events event later b told told' cookie error cookie' error' :
  zlen events + 1 + zlen later <= U64_MAX -> b ∈ (nl_run events).1.(nl_bindings) -> ends b event ->
  melodi_netlink_delivery_error told b.(b_dev) b.(b_portid) b.(b_generation) b.(b_service) cookie error (nl_run events).1 =
    (if told b then [(b.(b_net), b.(b_portid), NoticeError b.(b_dev) b.(b_service) (Some cookie) error)] else []) /\
  melodi_netlink_delivery_error told' b.(b_dev) b.(b_portid) b.(b_generation) b.(b_service) cookie' error'
    (nl_run (events ++ event :: later)).1 = [].
Proof.
  intros Hl Hb He. pose proof (zlen_events events) as Z1. pose proof (zlen_events later) as Z2.
  destruct (nl_run_good events _ fresh_good ltac:(change (generation_of (fresh_netlink, [])) with 0; lia)) as [H Hg].
  change (generation_of (fresh_netlink, [])) with 0 in Hg. fold (nl_run events) in H, Hg. split.
  - unfold melodi_netlink_delivery_error. now rewrite (look_by_token _ _ _ (proj1 H) Hb).
  - pose proof (ended_spent _ event b H ltac:(lia) He Hb) as Hs. destruct (nl_step_good _ event H ltac:(lia)) as [H' Hg'].
    apply (nl_run_spent _ later _ H' ltac:(lia)) in Hs. unfold nl_run at 1. rewrite fold_left_app. cbn [fold_left]. fold (nl_run events).
    unfold melodi_netlink_delivery_error. destruct (melodi_binding_by_token _ _ _ _ _) as [c|] eqn:E; [|reflexivity].
    apply token_find in E as [E1 E2]. destruct Hs as [_ Hs]. destruct (Hs c); [apply elem_of_app; now left|assumption].
Qed.

(** A message for a service goes to the one socket that has it bound, in that
    socket's namespace and with the source, the services and the payload that arrived, a
    missing timestamp filled in; without a binding it is refused and counted, and one
    that is too long goes to nobody. *)
Theorem message_reaches_owner events built unicast now_ns dev m : zlen events <= U64_MAX ->
  let s := (nl_run events).1 in
  let '(letters, answer, dropped) := melodi_netlink_receive built unicast now_ns dev m s in
  match answer with
  | Ok _ =>
      exists b, b ∈ s.(nl_bindings) /\ b.(b_dev) = dev /\ b.(b_service) = m.(de_destination_service) /\
        (forall c, c ∈ s.(nl_bindings) -> c.(b_dev) = dev -> c.(b_service) = m.(de_destination_service) -> c = b) /\
        dropped = false /\ zlen m.(de_payload) <= MELODI_MESSAGE_MTU /\
        letters = [(b.(b_net), b.(b_portid),
          NoticeMessage (MkDelivery m.(de_source) m.(de_source_service) m.(de_destination_service) m.(de_payload) (stamped now_ns m.(de_meta))))]
  | Err error =>
      letters = [] /\ dropped = (zlen m.(de_payload) <=? MELODI_MESSAGE_MTU) /\
      (zlen m.(de_payload) <= MELODI_MESSAGE_MTU ->
       (forall c, c ∈ s.(nl_bindings) -> c.(b_dev) = dev -> c.(b_service) <> m.(de_destination_service)) -> error = ECONNREFUSED)
  end.
Proof.
  intros Hl s. destruct (nl_run_good events _ fresh_good Hl) as [[H _] _]. fold (nl_run events) in H. fold s in H.
  unfold melodi_netlink_receive. destruct (Z.ltb_spec MELODI_MESSAGE_MTU (zlen (de_payload m))) as [Hm|Hm].
  { destruct (Z.leb_spec (zlen (de_payload m)) MELODI_MESSAGE_MTU); [lia|]. split; [reflexivity|]. split; [reflexivity|lia]. }
  assert ((zlen (de_payload m) <=? MELODI_MESSAGE_MTU) = true) as Hle by (apply Z.leb_le; lia).
  destruct (melodi_binding_by_service s dev (de_destination_service m)) as [b|] eqn:E; [|rewrite Hle; auto].
  apply List.find_some in E as [Hb E]. apply list_elem_of_In in Hb. apply andb_true_iff in E as [E1 E2]. apply Z.eqb_eq in E1, E2.
  destruct built as [[]|e]; [destruct unicast as [[]|e]|];
    [|rewrite Hle; split; [reflexivity|]; split; [reflexivity|]; intros _ Hn; now destruct (Hn b Hb E1 E2)..].
  exists b. repeat (split; [assumption|]). split; [|auto]. intros c Hc F1 F2.
  apply (NoDup_fmap_eq place_of _ _ _ (no_places _ _ H)); auto. unfold place_of. congruence.
Qed.

(** ** At a concrete registry *)

Definition device_seven (ifindex : Z) : option (Z * melodi_device) := if ifindex =? 7 then Some (7, online_device) else None.

(** Two sockets of a namespace after one service: the second is the first to file. *)
Definition two_sockets : list nl_event :=
  [EvPrepare device_seven true 1 10 (Some 7) (Some 40); EvPrepare device_seven true 1 11 (Some 7) (Some 40); EvInsert 1; EvInsert 0;
   EvMonitor true true (fun _ => Some 7) 1 11 (Some 7)].

Definition eleven : melodi_binding := MkBinding 1 7 2 11 40.

Example two_sockets_run : nl_run two_sockets = (MkNetlink [eleven] [MkMonitor 1 7 11] 2, []).
Proof. vm_compute. reflexivity. Qed.

Lemma bindings_unique_witness : zlen two_sockets <= U64_MAX /\
  melodi_binding_by_service (nl_run two_sockets).1 7 40 = Some eleven /\
  melodi_binding_by_socket (nl_run two_sockets).1 1 11 = Some eleven.
Proof.
  split; [vm_compute; discriminate|].
  destruct (bindings_unique two_sockets (MkNetlink [eleven] [MkMonitor 1 7 11] 2) [] ltac:(vm_compute; discriminate) two_sockets_run) as [H _].
  destruct (H eleven ltac:(apply elem_of_cons; now left)) as (H1 & H2 & _). rewrite two_sockets_run. split; [exact H2|exact H1].
Defined.

(** The socket is closed, a new one has its port and binds the same service. *)
Definition same_again : list nl_event := [EvPrepare device_seven true 1 11 (Some 7) (Some 40); EvInsert 0].

Lemma no_stale_notice_witness :
  (nl_run (two_sockets ++ EvRelease 1 11 :: same_again)).1.(nl_bindings) = [MkBinding 1 7 3 11 40] /\
  melodi_netlink_delivery_error (fun _ => true) 7 11 2 40 5 ETIMEDOUT (nl_run two_sockets).1 = [(1, 11, NoticeError 7 40 (Some 5) ETIMEDOUT)] /\
  melodi_netlink_delivery_error (fun _ => true) 7 11 2 40 5 ETIMEDOUT (nl_run (two_sockets ++ EvRelease 1 11 :: same_again)).1 = [].
Proof.
  split; [vm_compute; reflexivity|].
  assert (Hb : eleven ∈ (nl_run two_sockets).1.(nl_bindings)) by (rewrite two_sockets_run; apply elem_of_cons; now left).
  exact (no_stale_notice two_sockets (EvRelease 1 11) same_again eleven (fun _ => true) (fun _ => true) 5 ETIMEDOUT 5 ETIMEDOUT
           ltac:(vm_compute; discriminate) Hb ltac:(split; reflexivity)).
Defined.

Definition a_message : delivery := MkDelivery (MkNodeId (replicate 33 2)) 9 40 [1; 2; 3] (MkRxMeta 0 1 2 0 0 0 0 0 true).

Lemma message_reaches_owner_witness : zlen two_sockets <= U64_MAX /\
  exists b, b ∈ (nl_run two_sockets).1.(nl_bindings) /\ b.(b_portid) = 11.
Proof.
  split; [vm_compute; discriminate|].
  pose proof (message_reaches_owner two_sockets (Ok tt) (Ok tt) 77 7 a_message ltac:(vm_compute; discriminate)) as H.
  rewrite two_sockets_run in *. cbn [fst] in *.
  assert (E : melodi_netlink_receive (Ok tt) (Ok tt) 77 7 a_message (MkNetlink [eleven] [MkMonitor 1 7 11] 2) =
    ([(1, 11, NoticeMessage (MkDelivery (MkNodeId (replicate 33 2)) 9 40 [1; 2; 3] (MkRxMeta 77 1 2 0 0 0 0 0 true)))], Ok tt, false))
    by reflexivity.
  rewrite E in H. destruct H as (b & Hb & _ & _ & _ & _ & _ & Hl). exists b. split; [assumption|]. now injection Hl.
Defined.

(** ** A device that moves

    A binding is filed after its device has left the namespace of the socket: the socket
    can send nothing, but hears what comes for the service in the other namespace. *)
Definition moved : list nl_event :=
  [EvPrepare device_seven true 1 10 (Some 7) (Some 40); EvRemoved (fun _ => true) 7; EvInsert 0].

Lemma moved_device_still_heard :
  send_binding (fun _ => 2) 1 10 (nl_run moved).1 = Err ENODEV /\
  map (fun l => l.1) (melodi_netlink_receive (Ok tt) (Ok tt) 77 7 a_message (nl_run moved).1).1.1 = [(1, 10)].
Proof. split; vm_compute; reflexivity. Qed.
