(* ===== verification/Link.v ===== *)
(** * Links (src/kernel/core/main.c)

    The life of a device: the transport that a driver attaches and detaches, the state
    of the link, the identity that user space loads, and what opening, closing and
    moving the interface does to the queues.  A function that releases the lock between
    two sections takes what everybody else does in the gap as an argument. *)
From stdpp Require Import relations.
From S2P Require Import Prelude Buffer Uapi Mapping Device Fragments Peers Identity Policy Airtime Queue QueueInv Send Discovery Nodes Outstanding Logical.

Abbreviation MELODI_LINK_FAILURE_NONE := 0.
Abbreviation MELODI_LINK_FAILURE_TRANSPORT := 1.
Abbreviation MELODI_LINK_FAILURE_MAX := 18.
Abbreviation MELODI_CORE_ABI_VERSION := 10.

(** [struct melodi_transport]: which of the optional operations its driver has, the
    references, whether [released] is complete, and whether it has been freed. *)
Record melodi_transport := MkTransport {
  tr_configure : bool;
  tr_get_info : bool;
  tr_airtime : bool;
  tr_references : Z;
  tr_released : bool;
  tr_freed : bool;
}.

(** The fields of [struct melodi_device] and of its interface that are not in the
    groups before: transports are numbered in the order of their allocation.
    [i_told] are the errors that were sent to the bindings of the device. *)
Record interface := MkInterface {
  i_station : station;
  i_transport : option nat;
  i_transports : list melodi_transport;
  i_key : option Z;
  i_persistent : bool;
  i_state : Z;
  i_failure : Z;
  i_error : option errno;
  i_serial : bytes;
  i_carrier : bool;
  i_dormant : bool;
  i_running : bool;
  i_told : list errno;
}.

Definition set_i_station (v : station) (i : interface) : interface :=
  MkInterface v i.(i_transport) i.(i_transports) i.(i_key) i.(i_persistent) i.(i_state) i.(i_failure) i.(i_error) i.(i_serial)
    i.(i_carrier) i.(i_dormant) i.(i_running) i.(i_told).
Definition set_i_transport (v : option nat) (i : interface) : interface :=
  MkInterface i.(i_station) v i.(i_transports) i.(i_key) i.(i_persistent) i.(i_state) i.(i_failure) i.(i_error) i.(i_serial)
    i.(i_carrier) i.(i_dormant) i.(i_running) i.(i_told).
Definition set_i_transports (v : list melodi_transport) (i : interface) : interface :=
  MkInterface i.(i_station) i.(i_transport) v i.(i_key) i.(i_persistent) i.(i_state) i.(i_failure) i.(i_error) i.(i_serial)
    i.(i_carrier) i.(i_dormant) i.(i_running) i.(i_told).
Definition set_i_key (v : option Z) (i : interface) : interface :=
  MkInterface i.(i_station) i.(i_transport) i.(i_transports) v i.(i_persistent) i.(i_state) i.(i_failure) i.(i_error) i.(i_serial)
    i.(i_carrier) i.(i_dormant) i.(i_running) i.(i_told).
(** [link_state], [link_failure] and [link_error] *)
Definition set_i_link (state failure : Z) (error : option errno) (i : interface) : interface :=
  MkInterface i.(i_station) i.(i_transport) i.(i_transports) i.(i_key) i.(i_persistent) state failure error i.(i_serial)
    i.(i_carrier) i.(i_dormant) i.(i_running) i.(i_told).
Definition set_i_serial (v : bytes) (i : interface) : interface :=
  MkInterface i.(i_station) i.(i_transport) i.(i_transports) i.(i_key) i.(i_persistent) i.(i_state) i.(i_failure) i.(i_error) v
    i.(i_carrier) i.(i_dormant) i.(i_running) i.(i_told).
Definition set_i_carrier (v : bool) (i : interface) : interface :=
  MkInterface i.(i_station) i.(i_transport) i.(i_transports) i.(i_key) i.(i_persistent) i.(i_state) i.(i_failure) i.(i_error)
    i.(i_serial) v i.(i_dormant) i.(i_running) i.(i_told).
Definition set_i_dormant (v : bool) (i : interface) : interface :=
  MkInterface i.(i_station) i.(i_transport) i.(i_transports) i.(i_key) i.(i_persistent) i.(i_state) i.(i_failure) i.(i_error)
    i.(i_serial) i.(i_carrier) v i.(i_running) i.(i_told).
Definition set_i_running (v : bool) (i : interface) : interface :=
  MkInterface i.(i_station) i.(i_transport) i.(i_transports) i.(i_key) i.(i_persistent) i.(i_state) i.(i_failure) i.(i_error)
    i.(i_serial) i.(i_carrier) i.(i_dormant) v i.(i_told).
(** [melodi_netlink_link_error] *)
Definition tell (error : errno) (i : interface) : interface :=
  MkInterface i.(i_station) i.(i_transport) i.(i_transports) i.(i_key) i.(i_persistent) i.(i_state) i.(i_failure) i.(i_error)
    i.(i_serial) i.(i_carrier) i.(i_dormant) i.(i_running) (i.(i_told) ++ [error]).

Abbreviation icore i := (i.(i_station).(st_node).(n_core)).
Abbreviation ilink i := (i.(i_station).(st_node).(n_core).(c_dev).(d_link)).

Definition on_node (f : node -> node) (i : interface) : interface :=
  set_i_station (with_node (f i.(i_station).(st_node)) i.(i_station)) i.
Definition on_core (f : core -> core) (i : interface) : interface := set_i_station (at_core f i.(i_station)) i.
Definition on_logical (f : logical_state -> logical_state) (i : interface) : interface :=
  set_i_station (with_logical (f i.(i_station).(st_logical)) i.(i_station)) i.
Definition on_link (f : link_state -> link_state) (i : interface) : interface :=
  on_core (fun c => set_dev (set_d_link (f c.(c_dev).(d_link)) c.(c_dev)) c) i.

(** [netif_tx_stop_all_queues] and its opposites *)
Definition netif_tx (stopped : bool) (i : interface) : interface := on_core (fun c => set_tx (set_t_stopped stopped (tx c)) c) i.

(** [transport_ready] and [local_link_locator] *)
Definition set_transport_ready (ready : bool) (locator : Z) (l : link_state) : link_state :=
  MkLink l.(l_node_id) l.(l_identity_ready) ready l.(l_local_native_locator) locator l.(l_local_collision_round)
    l.(l_identity_generation) l.(l_transmit_counter).

Section Order.
  Context (be : bool) (msecs_to_jiffies : Z -> Z).

(** [melodi_logical_stop], and the two drains of the queue with what else the callers do *)
Definition logical_stop (error : errno) (i : interface) : interface := set_i_station (melodi_logical_stop be error i.(i_station)) i.
Definition fail_all (error : errno) (i : interface) : interface :=
  on_core (melodi_data_fail_pending error) (on_core (melodi_queue_fail error) (logical_stop error i)).
Definition start_logical (i : interface) : interface := netif_tx false (on_logical melodi_logical_start i).

(** ** Opening and closing *)

(** [dev_open] marks the interface as running before [ndo_open]. *)
Definition melodi_open (now_ms : Z) (e : discovery_env) (i : interface) : interface :=
  let i := start_logical (set_i_running true i) in
  if i.(i_carrier) then on_node (melodi_discovery_announce_soon msecs_to_jiffies e) (on_core (melodi_queue_start now_ms) i) else i.

(** [dev_close] clears the mark before [ndo_stop]. *)
Definition melodi_stop (i : interface) : interface :=
  let i := set_i_running false i in
  let connected := i.(i_carrier) in
  let i := netif_tx true i in
  let i := if connected then tell ENETDOWN i else i in
  on_core (melodi_data_fail_pending ENETDOWN) (on_core melodi_queue_pause (logical_stop ENETDOWN i)).

(** ** The state of the link *)

(** What follows the section of [melodi_link_ready]. *)
Definition ready_after (now_ms : Z) (e : discovery_env) (link_ready notify : bool) (i : interface) : interface :=
  if link_ready then
    let i := on_core (melodi_queue_start now_ms) (set_i_carrier true (set_i_dormant false i)) in
    if i.(i_running) then on_node (melodi_discovery_announce_soon msecs_to_jiffies e) (start_logical i) else i
  else
    let i := netif_tx true (set_i_dormant true (set_i_carrier false i)) in
    let i := on_core melodi_queue_pause (logical_stop ENETDOWN i) in
    if notify then tell ENETDOWN i else i.

Definition ready_locked (ready : bool) (local_locator : Z) (i : interface) : interface * bool :=
  let i := on_link (set_transport_ready ready (if ready then local_locator else 0)) i in
  let link_ready := ready && (ilink i).(l_identity_ready) in
  (set_i_link (if link_ready then MELODI_LINK_READY else MELODI_LINK_CONFIGURING) MELODI_LINK_FAILURE_NONE None i, link_ready).

Definition melodi_link_ready (between : interface -> interface) (now_ms : Z) (e : discovery_env) (ready : bool) (local_locator : Z)
    (i : interface) : interface :=
  if ready && ((local_locator =? 0) || (local_locator =? MELODI_LINK_LOCATOR_BROADCAST)) then i else
  let notify := negb ready && i.(i_carrier) in
  let '(i, link_ready) := ready_locked ready local_locator i in
  ready_after now_ms e link_ready notify (between i).

(** [melodi_link_failed] before its section; [error] is a negative errno or not. *)
Definition failed_stop (error : errno) (i : interface) : interface :=
  let notify := i.(i_carrier) in
  let i := on_core (melodi_queue_fail error) (logical_stop error (netif_tx true (set_i_carrier false i))) in
  if notify then tell error i else i.

Definition failed_locked (failure : Z) (error : errno) (i : interface) : interface :=
  set_i_link MELODI_LINK_FAILED failure (Some error) (on_link (set_transport_ready false 0) i).

Definition melodi_link_failed (between : interface -> interface) (failure : Z) (error : option errno) (i : interface) : interface :=
  if (failure <=? MELODI_LINK_FAILURE_NONE) || (MELODI_LINK_FAILURE_MAX <? failure) then i else
  let error := default EIO error in
  set_i_dormant false (failed_locked failure error (between (failed_stop error i))).

(** ** References to the transport *)

Definition reference (change : Z) (released freed : bool) (t : nat) (i : interface) : interface :=
  match i.(i_transports) !! t with
  | None => i
  | Some tr => set_i_transports (<[t := MkTransport tr.(tr_configure) tr.(tr_get_info) tr.(tr_airtime) (tr.(tr_references) + change)
                                          (tr.(tr_released) || released) (tr.(tr_freed) || freed)]> i.(i_transports)) i
  end.

(** The transport and [refcount_inc_not_zero] on it. *)
Definition take_reference (wanted : melodi_transport -> bool) (i : interface) : option (interface * nat) :=
  match i.(i_transport) with
  | None => None
  | Some t =>
      match i.(i_transports) !! t with
      | None => None
      | Some tr => if negb (wanted tr) || (tr.(tr_references) =? 0) then None else Some (reference 1 false false t i, t)
      end
  end.

(** [refcount_dec_and_test] *)
Definition last_reference (t : nat) (i : interface) : bool :=
  match i.(i_transports) !! t with Some tr => tr.(tr_references) =? 1 | None => false end.
Definition put_reference (t : nat) (i : interface) : interface := reference (-1) (last_reference t i) false t i.

(** [driver] is the answer of the operation, [during] what happens while it runs. *)
Definition melodi_core_xmit (during : interface -> interface) (driver : result unit) (i : interface) : interface * result unit :=
  if negb i.(i_running) || negb i.(i_carrier) then (i, Err ENETDOWN) else
  match take_reference (fun _ => true) i with
  | None => (i, Err ENETDOWN)
  | Some (i, t) => (put_reference t (during i), driver)
  end.

Definition zero_charge : melodi_airtime_charge := MkCharge 0 0 0.

Definition melodi_core_airtime (during : interface -> interface) (driver : result melodi_airtime_charge) (i : interface)
    : interface * result melodi_airtime_charge :=
  match take_reference (fun _ => true) i with
  | None => (i, Err ENETDOWN)
  | Some (i, t) =>
      let has := match i.(i_transports) !! t with Some tr => tr.(tr_airtime) | None => false end in
      let answer :=
        if negb has then Ok zero_charge else
        match driver with
        | Err error => Err error
        | Ok charge =>
            if (charge.(duration_us) =? 0) || (charge.(budget_us) =? 0) || (charge.(broadcast_budget_us) =? 0) ||
               (MELODI_AIRTIME_WINDOW_US <? charge.(budget_us)) || (charge.(budget_us) <? charge.(broadcast_budget_us)) ||
               (MELODI_AIRTIME_WINDOW_US <? charge.(duration_us))
            then Err EPROTO else Ok charge
        end in
      (put_reference t (during i), answer)
  end.

Record melodi_link_info := MkLinkInfo {
  li_abi_version : Z;
  li_frame_mtu : Z;
  li_frame_pace_us : Z;
  li_transmit_pending : Z;
  li_driver_version : bytes;
  li_firmware_version : bytes;
  li_bus_info : bytes;
}.

(** [buffer\[sizeof(buffer) - 1\] = 0] *)
Definition terminated (buffer : bytes) : bytes := <[(length buffer - 1)%nat := 0]> buffer.

Definition zero_link_info : melodi_link_info :=
  MkLinkInfo MELODI_CORE_ABI_VERSION MELODI_FRAME_MTU_MAX 0 0 (replicate 32 0) (replicate 32 0) (replicate 32 0).

Definition melodi_core_link_info (during : interface -> interface) (driver : melodi_link_info -> melodi_link_info) (i : interface)
    : interface * result melodi_link_info :=
  match take_reference (fun _ => true) i with
  | None => (i, Err ENETDOWN)
  | Some (i, t) =>
      let has := match i.(i_transports) !! t with Some tr => tr.(tr_get_info) | None => false end in
      let link := if has then driver zero_link_info else zero_link_info in
      let link := MkLinkInfo link.(li_abi_version) link.(li_frame_mtu) link.(li_frame_pace_us) link.(li_transmit_pending)
                    (terminated link.(li_driver_version)) (terminated link.(li_firmware_version)) (terminated link.(li_bus_info)) in
      (put_reference t (during i),
       if negb (link.(li_abi_version) =? MELODI_CORE_ABI_VERSION) || (MELODI_FRAME_MTU_MAX <? link.(li_frame_mtu))
       then Err EPROTO else Ok link)
  end.

Definition melodi_core_frame_mtu (info : result melodi_link_info) : Z := match info with Ok link => link.(li_frame_mtu) | Err _ => 0 end.
Definition melodi_core_frame_pace_ms (info : result melodi_link_info) : Z :=
  match info with Ok link => link.(li_frame_pace_us) / 1000 | Err _ => 0 end.
Definition melodi_core_link_busy (info : result melodi_link_info) : bool :=
  match info with Ok link => negb (link.(li_transmit_pending) =? 0) | Err _ => false end.

(** ** Configuring *)

(** The section of [melodi_transport_configure]: the transport and the locator that its
    driver is asked for. *)
Definition configure_locked (i : interface) : interface * result (nat * Z) :=
  if negb (ilink i).(l_identity_ready) then (i, Err EAGAIN) else
  match take_reference tr_configure i with
  | None => (i, Err EOPNOTSUPP)
  | Some (i, t) =>
      let locator := (ilink i).(l_local_native_locator) in
      (set_i_link MELODI_LINK_CONFIGURING MELODI_LINK_FAILURE_NONE None (on_link (set_transport_ready false 0) i), Ok (t, locator))
  end.

(** [driver] is [ops->configure] with the locator, which may call back
    ([melodi_link_ready]). *)
Definition melodi_transport_configure (between : interface -> interface) (driver : Z -> interface -> interface * result unit)
    (i : interface) : interface * result unit :=
  match configure_locked i with
  | (i, Err error) => (i, Err error)
  | (i, Ok (t, locator)) =>
      let i := netif_tx true (set_i_dormant true (set_i_carrier false (between i))) in
      let '(i, configured) := driver locator (fail_all ENETDOWN i) in
      let i := put_reference t i in
      (match configured with
       | Ok _ => i
       | Err error => melodi_link_failed between MELODI_LINK_FAILURE_TRANSPORT (Some error) i
       end, configured)
  end.

(** ** Attaching and detaching *)

(** [melodi_link_attach]; [memory] is the allocation, which is undone when the device has
    a transport already. *)
Definition melodi_link_attach (memory configure get_info airtime : bool) (i : interface) : interface * result unit :=
  if negb memory then (i, Err ENOMEM) else
  match i.(i_transport) with
  | Some _ => (i, Err EBUSY)
  | None =>
      let i := set_i_transport (Some (length i.(i_transports))) i in
      let i := set_i_transports (i.(i_transports) ++ [MkTransport configure get_info airtime 1 false false]) i in
      (set_i_dormant true (set_i_link MELODI_LINK_CONFIGURING MELODI_LINK_FAILURE_NONE None i), Ok tt)
  end.

(** [melodi_discovery_stop] *)
Definition discovery_stop (n : node) : node := with_disc (set_m_announce_work None (set_m_peer_expiry_work None n.(n_disc))) n.

(** The end of every part of a device that goes; [melodi_netlink_interface_removed] tells
    the bindings as it drops them (Bindings). *)
Definition stop_parts (i : interface) : interface :=
  on_core melodi_data_stop (on_node discovery_stop (on_core melodi_queue_stop (logical_stop ENODEV (tell ENODEV i)))).

(** [melodi_unregister_device]: [unregister_netdev] closes an interface that is up.  The
    device is off the list of devices then, and is freed. *)
Definition melodi_unregister_device (i : interface) : interface :=
  let i := stop_parts i in
  if i.(i_running) then melodi_stop i else i.

(** [melodi_detach_transport]: up to the end of its first section, the reference that it
    gives back (whether it was the last), and what follows the wait for the others. *)
Definition detach_begin (i : interface) : interface * option nat :=
  let i := fail_all ENETDOWN (netif_tx true (set_i_carrier false i)) in
  match i.(i_transport) with
  | None => (i, None)
  | Some t =>
      (set_i_link MELODI_LINK_DISCONNECTED MELODI_LINK_FAILURE_NONE None
         (on_link (set_transport_ready false 0) (set_i_transport None i)), Some t)
  end.

(** Whoever gives back the last reference here waits for nobody, and completes nothing. *)
Definition detach_put (t : nat) (i : interface) : interface := reference (-1) false false t (set_i_dormant false i).

Definition reset_locked (i : interface) : interface :=
  on_core (fun c => set_dev (melodi_discovery_reset_locked c.(c_dev)) c) (on_core melodi_data_reset_locked i).

Definition detach_free (t : nat) (i : interface) : interface := reference 0 false true t (reset_locked i).

(** [waited] is what happens until the transport is released, when it is in use. *)
Definition melodi_detach_transport (between waited : interface -> interface) (i : interface) : interface :=
  match detach_begin i with
  | (i, None) => i
  | (i, Some t) =>
      let i := between i in
      let last := last_reference t i in
      let i := detach_put t i in
      let i := detach_free t (if last then i else waited i) in
      if i.(i_persistent) then i else melodi_unregister_device i
  end.

(** ** Identities *)

Definition melodi_device_identity (i : interface) : option (melodi_node_id * Z) :=
  if (ilink i).(l_identity_ready) then Some ((ilink i).(l_node_id), (ilink i).(l_identity_generation)) else None.

(** The first section of [melodi_device_set_identity]: the locator, the round, and
    whether another identity is replaced. *)
Definition identity_check (stack : bytes) (node_id : melodi_node_id) (generation : Z) (previous : option melodi_node_id) (i : interface)
    : result (Z * Z * bool) :=
  let link := ilink i in
  match melodi_map_native_locator stack i.(i_station).(st_node).(n_disc).(m_mesh_domain) node_id 0 with
  | Err error => Err error
  | Ok (native_locator, collision_round) =>
      let replacing := link.(l_identity_ready) && negb (node_eqb link.(l_node_id) node_id) in
      if link.(l_identity_ready) && negb replacing && (generation <=? link.(l_identity_generation)) then Err ESTALE else
      match previous with
      | Some previous =>
          if negb replacing || negb (node_eqb previous link.(l_node_id)) then Err ESTALE
          else Ok (native_locator, collision_round, replacing)
      | None => Ok (native_locator, collision_round, replacing)
      end
  end.

(** What ends under the old identity. *)
Definition identity_stop (i : interface) : interface :=
  let connected := i.(i_carrier) in
  let i := fail_all EKEYREVOKED (netif_tx true (set_i_carrier false i)) in
  if connected then tell EKEYREVOKED i else i.

Definition new_identity (node_id : melodi_node_id) (generation native_locator collision_round : Z) (l : link_state) : link_state :=
  MkLink node_id true l.(l_transport_ready) native_locator l.(l_local_link_locator) collision_round generation 0.

Definition can_configure (i : interface) : bool :=
  match i.(i_transport) ≫= fun t => i.(i_transports) !! t with Some tr => tr.(tr_configure) | None => false end.

(** The second section: whether the transport has to be configured, and whether to
    announce. *)
Definition identity_install (now_ms : Z) (node_id : melodi_node_id) (key generation : Z) (previous : option melodi_node_id)
    (native_locator collision_round : Z) (replacing : bool) (i : interface) : interface * bool * bool :=
  let i := on_link (new_identity node_id generation native_locator collision_round) (set_i_key (Some key) i) in
  let i := on_node (fun n => with_disc (set_m_conflict_pending false n.(n_disc)) n) i in
  let i := reset_locked i in
  let i := if replacing && match previous with None => true | Some _ => false end
           then on_core (fun c => set_dev (with_policy_peers (replicate MELODI_POLICY_PEER_LIMIT zero_policy_peer) c.(c_dev)) c) i
           else i in
  let configure := can_configure i in
  let i :=
    if configure then
      netif_tx true (set_i_dormant true (set_i_carrier false
        (set_i_link MELODI_LINK_CONFIGURING MELODI_LINK_FAILURE_NONE None (on_link (set_transport_ready false 0) i))))
    else if (ilink i).(l_transport_ready) then
      let i := set_i_carrier true (set_i_dormant false (set_i_link MELODI_LINK_READY MELODI_LINK_FAILURE_NONE None i)) in
      let i := on_core (melodi_queue_start now_ms) i in
      if i.(i_running) then start_logical i else i
    else i in
  (i, configure, (ilink i).(l_transport_ready) && i.(i_running)).

Definition melodi_device_set_identity (check : bytes -> Z) (between : interface -> interface)
    (driver : Z -> interface -> interface * result unit) (stack : bytes) (now_ms : Z) (e : discovery_env) (node_id : melodi_node_id)
    (key : option Z) (generation : Z) (previous : option melodi_node_id) (i : interface) : interface * result unit :=
  match key with
  | None => (i, Err EINVAL)
  | Some key =>
      if negb (melodi_node_id_valid check node_id) || (generation =? 0) then (i, Err EINVAL) else
      match identity_check stack node_id generation previous i with
      | Err error => (i, Err error)
      | Ok (native_locator, collision_round, replacing) =>
          let i := between (identity_stop (between i)) in
          let '(i, configure, announce) :=
            identity_install now_ms node_id key generation previous native_locator collision_round replacing i in
          let i := if configure then (melodi_transport_configure between driver i).1 else i in
          (if announce then on_node (melodi_discovery_announce_soon msecs_to_jiffies e) i else i, Ok tt)
      end
  end.

(** ** Moving and going *)

Definition melodi_namespace_reset (now_ms : Z) (i : interface) : interface :=
  let i := fail_all ENONET (netif_tx true i) in
  let i := reset_locked i in
  let i := on_core (fun c => set_dev (set_d_policy (MkPolicy MELODI_POLICY_ALLOW_AUTHENTICATED true
             (replicate MELODI_POLICY_PEER_LIMIT zero_policy_peer)
             (replicate MELODI_POLICY_SERVICE_LIMIT zero_policy_service)) c.(c_dev)) c) i in
  if (ilink i).(l_identity_ready) && (ilink i).(l_transport_ready) && i.(i_running)
  then start_logical (on_core (melodi_queue_start now_ms) i) else i.

Definition melodi_link_release (between waited : interface -> interface) (i : interface) : interface :=
  set_i_key None (stop_parts (melodi_detach_transport between waited i)).
End Order.

(** A device as it is allocated ([melodi_device_init]). *)
Definition fresh_interface (persistent : bool) (domain : bytes) : interface :=
  MkInterface (MkStation (MkNode (MkCore fresh_device [] []) (MkDiscoveryState domain (replicate 32 0) (replicate 32 0) false None None))
                 fresh_logical)
    None [] None persistent MELODI_LINK_DISCONNECTED MELODI_LINK_FAILURE_NONE None [] false false false [].

(** ** What the parts do to the link and the two queues *)

Definition core_view (c : core) : link_state * bool := (c.(c_dev).(d_link), (tx c).(t_queue_stopping)).
Definition view (i : interface) : link_state * bool * bool := (core_view (icore i), i.(i_station).(st_logical).(lg_stopping)).

Lemma fold_core {A} (f : core -> A -> core) l c : (forall c x, core_view (f c x) = core_view c) -> core_view (fold_left f l c) = core_view c.
Proof. intros H. revert c. induction l as [|x l IH]; intros c; [reflexivity|]. cbn [fold_left]. now rewrite IH. Qed.

Lemma cancel_view c id error notify : core_view (melodi_queue_reservation_cancel c id error notify) = core_view c.
Proof.
  unfold melodi_queue_reservation_cancel. destruct (melodi_reservation_find_locked _ _) as [k|]; [|reflexivity].
  destruct (t_reservations (tx c) !! k) as [r|] eqn:E; [|reflexivity].
  destruct (remove_reservation_shape c k r E) as (pe & fl & ->). unfold reservation_removed. now destruct notify, (v_pending_reserved r).
Qed.

Lemma drain_reservations_view fuel error : forall c, core_view (drain_reservations fuel error c) = core_view c.
Proof.
  induction fuel as [|fuel IH]; intros c; [reflexivity|]. cbn [drain_reservations]. destruct (_ ≫= _) as [r|]; [|reflexivity].
  destruct (v_id r =? 0); [reflexivity|]. now rewrite IH, cancel_view.
Qed.

Lemma drain_entry_view c k : core_view (drain_entry c k) = core_view c.
Proof.
  unfold drain_entry. destruct (t_queue (tx c) !! k) as [e|] eqn:E; [|reflexivity]. destruct (e_active e); [|reflexivity].
  destruct (remove_entry_shape c k e E) as (pe & fl & ->). reflexivity.
Qed.

Lemma drain_reset_view c : core_view (set_tx (drain_reset (tx c)) c) = core_view c.
Proof. reflexivity. Qed.

Lemma works_view c : core_view (set_tx (set_t_reservation_work None (set_t_queue_work None (tx c))) c) = core_view c.
Proof. reflexivity. Qed.

(** A drain leaves the queue stopped. *)
Lemma drain_view error c : core_view (melodi_queue_drain error c) = (c.(c_dev).(d_link), true).
Proof.
  unfold melodi_queue_drain, drain_finish. rewrite drain_reset_view. unfold drain_loops.
  rewrite fold_core by apply drain_entry_view. rewrite drain_reservations_view, works_view. reflexivity.
Qed.

Lemma pending_clear_view c k : core_view (melodi_pending_clear c k) = core_view c.
Proof.
  unfold melodi_pending_clear. destruct (_ !! k) as [p|]; [|reflexivity]. destruct (negb _); [reflexivity|].
  unfold core_view at 1. cbn [c_dev set_d_pending d_link d_tx]. apply (fold_core (fun s f => emit (Released f) s)). reflexivity.
Qed.

Lemma set_data_view a c : core_view (set_data a c) = core_view c.
Proof. reflexivity. Qed.

Lemma fail_messages_view error fuel : forall c, core_view (fail_messages fuel error c) = core_view c.
Proof.
  induction fuel as [|fuel IH]; intros c; [reflexivity|]. cbn [fail_messages]. destruct (_ ≫= _) as [[k p]|]; [|reflexivity].
  destruct (_ =? 0); [apply pending_clear_view|]. rewrite IH. apply (pending_clear_view c k).
Qed.

Lemma fail_waiting_view error fuel : forall c, core_view (fail_waiting fuel error c) = core_view c.
Proof.
  induction fuel as [|fuel IH]; intros c; [reflexivity|]. cbn [fail_waiting]. destruct (_ ≫= _) as [[k p]|]; [|reflexivity].
  destruct (_ =? 0); [apply set_data_view|]. rewrite IH. reflexivity.
Qed.

Lemma fail_pending_view error c : core_view (melodi_data_fail_pending error c) = core_view c.
Proof. unfold melodi_data_fail_pending. rewrite fail_waiting_view, fail_messages_view. apply set_data_view. Qed.

Lemma data_reset_view c : core_view (melodi_data_reset_locked c) = core_view c.
Proof.
  unfold melodi_data_reset_locked. rewrite set_data_view, fold_core by apply pending_clear_view. reflexivity.
Qed.

Lemma end_sessions_view m : d_link (end_sessions m) = d_link m /\ d_tx (end_sessions m) = d_tx m.
Proof.
  unfold end_sessions. generalize (seq 0 MELODI_PEER_LIMIT). intros l. revert m. induction l as [|k l IH]; intros m; [now split|].
  cbn [fold_left]. destruct (IH (if at_index m.(d_peers) k p_authenticated then melodi_peer_session_reset_locked m k else m)) as [-> ->].
  destruct (at_index _ _ _); [|now split]. unfold melodi_peer_session_reset_locked. destruct (_ !! k); now split.
Qed.

Lemma set_dev_view m c : core_view (set_dev m c) = (d_link m, t_queue_stopping (d_tx m)).
Proof. reflexivity. Qed.

Lemma set_peers_view v m : d_link (set_d_peers v m) = d_link m /\ d_tx (set_d_peers v m) = d_tx m.
Proof. now split. Qed.

Lemma discovery_reset_view c : core_view (set_dev (melodi_discovery_reset_locked c.(c_dev)) c) = core_view c.
Proof.
  rewrite set_dev_view. unfold melodi_discovery_reset_locked. cbv zeta.
  match goal with |- context [set_d_peers ?v ?m] => destruct (set_peers_view v m) as [-> ->] end.
  destruct (end_sessions_view (c_dev c)) as [-> ->]. reflexivity.
Qed.

Lemma start_view now c : core_view (melodi_queue_start now c) = (c.(c_dev).(d_link), false).
Proof.
  unfold melodi_queue_start, core_view. cbn [c_dev set_tx set_dev set_d_tx d_link d_tx]. f_equal.
  unfold melodi_reservation_schedule_locked. destruct (_ =? U64_MAX), (negb _); reflexivity.
Qed.

Section Views.
  Context (be : bool) (msecs_to_jiffies : Z -> Z).

Lemma on_core_view f i : (forall c, core_view (f c) = core_view c) -> view (on_core f i) = view i.
Proof. intros H. unfold view. cbn [i_station on_core set_i_station at_core with_node with_core st_node n_core st_logical]. now rewrite H. Qed.

Lemma drained_view error i : view (on_core (melodi_queue_drain error) i) = ((view i).1.1, true, (view i).2).
Proof. unfold view. cbn [i_station on_core set_i_station at_core with_node with_core st_node n_core st_logical snd]. now rewrite drain_view. Qed.

Lemma started_view now i : view (on_core (melodi_queue_start now) i) = ((view i).1.1, false, (view i).2).
Proof. unfold view. cbn [i_station on_core set_i_station at_core with_node with_core st_node n_core st_logical snd]. now rewrite start_view. Qed.

Lemma stop_packet_view error skb s : core_view (stop_packet be error skb s).(st_node).(n_core) = core_view s.(st_node).(n_core).
Proof.
  unfold stop_packet. destruct (melodi_logical_skb_valid be skb); [|reflexivity].
  cbn [with_logical st_node at_core with_node with_core n_core]. apply cancel_view.
Qed.

Lemma logical_stop_view error i : view (logical_stop be error i) = ((view i).1, true).
Proof.
  unfold view. cbn [logical_stop i_station set_i_station fst]. unfold melodi_logical_stop.
  match goal with |- context [fold_left ?f ?l ?s] => generalize (stop_packets be error l s); set (t := fold_left f l s) end.
  cbv zeta. intros E. f_equal; [|now rewrite E].
  assert (H : forall l s, core_view (fold_left (fun s skb => stop_packet be error skb s) l s).(st_node).(n_core) = core_view s.(st_node).(n_core)).
  { induction l as [|skb l IH]; intros s; [reflexivity|]. cbn [fold_left]. now rewrite IH, stop_packet_view. }
  unfold t. now rewrite H.
Qed.

Lemma fail_all_view error i : view (fail_all be error i) = ((view i).1.1, true, true).
Proof.
  unfold fail_all. rewrite (on_core_view (melodi_data_fail_pending error)) by apply fail_pending_view.
  unfold melodi_queue_fail. now rewrite drained_view, logical_stop_view.
Qed.

Lemma failed_view error i : view (on_core (melodi_data_fail_pending error) i) = view i.
Proof. apply on_core_view. intros c. apply fail_pending_view. Qed.

Lemma pause_view i : view (on_core melodi_queue_pause i) = ((view i).1.1, true, (view i).2).
Proof. unfold melodi_queue_pause. apply drained_view. Qed.

Lemma fail_view error i : view (on_core (melodi_queue_fail error) i) = ((view i).1.1, true, (view i).2).
Proof. unfold melodi_queue_fail. apply drained_view. Qed.

Lemma netif_tx_view b i : view (netif_tx b i) = view i.
Proof. now apply on_core_view. Qed.

Lemma start_logical_view i : view (start_logical i) = ((view i).1, false).
Proof. reflexivity. Qed.

Lemma announce_view e i : view (on_node (melodi_discovery_announce_soon msecs_to_jiffies e) i) = view i.
Proof. reflexivity. Qed.

Lemma reset_view i : view (reset_locked i) = view i.
Proof. unfold reset_locked. rewrite on_core_view by apply discovery_reset_view. apply on_core_view, data_reset_view. Qed.

Lemma on_link_view f i : view (on_link f i) = (f (view i).1.1, (view i).1.2, (view i).2).
Proof. reflexivity. Qed.
End Views.

(** ** Whole calls, one after the other

    What a driver does while it is configured: it may report its link, as the drivers
    of the repository do, and it answers. *)
Inductive driver_call :=
| CallReady (now_ms : Z) (e : discovery_env) (ready : bool) (local_locator : Z)
| CallFailed (failure : Z) (error : option errno).

Inductive link_call :=
| LinkOpen (now_ms : Z) (e : discovery_env)
| LinkStop
| LinkDriver (call : driver_call)
| LinkConfigure (calls : list driver_call) (answer : result unit)
| LinkAttach (memory configure get_info airtime : bool)
| LinkDetach
| LinkIdentity (calls : list driver_call) (answer : result unit) (stack : bytes) (now_ms : Z) (e : discovery_env) (node_id : melodi_node_id)
    (key : option Z) (generation : Z) (previous : option melodi_node_id)
| LinkMoved (now_ms : Z)
| LinkXmit (answer : result unit).

Section Calls.
  Context (be : bool) (msecs_to_jiffies : Z -> Z) (check : bytes -> Z).

Definition driver_step (i : interface) (call : driver_call) : interface :=
  match call with
  | CallReady now_ms e ready local_locator => melodi_link_ready be msecs_to_jiffies id now_ms e ready local_locator i
  | CallFailed failure error => melodi_link_failed be id failure error i
  end.

Definition driver_run (calls : list driver_call) (answer : result unit) (locator : Z) (i : interface) : interface * result unit :=
  (fold_left driver_step calls i, answer).

Definition link_exec (i : interface) (call : link_call) : interface :=
  match call with
  | LinkOpen now_ms e => melodi_open msecs_to_jiffies now_ms e i
  | LinkStop => melodi_stop be i
  | LinkDriver call => driver_step i call
  | LinkConfigure calls answer => (melodi_transport_configure be id (driver_run calls answer) i).1
  | LinkAttach memory configure get_info airtime => (melodi_link_attach memory configure get_info airtime i).1
  | LinkDetach => melodi_detach_transport be id id i
  | LinkIdentity calls answer stack now_ms e node_id key generation previous =>
      (melodi_device_set_identity be msecs_to_jiffies check id (driver_run calls answer) stack now_ms e node_id key generation previous i).1
  | LinkMoved now_ms => melodi_namespace_reset be now_ms i
  | LinkXmit answer => (melodi_core_xmit id answer i).1
  end.

(** A driver reports only what it is attached to. *)
Definition allowed (i : interface) (call : link_call) : Prop :=
  match call with LinkDriver _ => i.(i_transport) <> None | _ => True end.

Inductive link_step (i : interface) : interface -> Prop :=
| link_by call : allowed i call -> link_step i (link_exec i call).

(** ** The rules of the link *)

(** What the fields of a device say together. *)
Record link_rules (state failure : Z) (error : option errno) (key : option Z) (attached carrier dormant running : bool)
    (v : link_state * bool * bool) : Prop := {
  lr_carrier : carrier = (state =? MELODI_LINK_READY);
  lr_dormant : dormant = (state =? MELODI_LINK_CONFIGURING);
  lr_ready : (state =? MELODI_LINK_READY) = v.1.1.(l_identity_ready) && v.1.1.(l_transport_ready);
  lr_locator : if v.1.1.(l_transport_ready) then v.1.1.(l_local_link_locator) <> 0 /\ v.1.1.(l_local_link_locator) <> MELODI_LINK_LOCATOR_BROADCAST
               else v.1.1.(l_local_link_locator) = 0;
  lr_attached : attached = negb (state =? MELODI_LINK_DISCONNECTED);
  lr_detached : attached = false -> v.1.1.(l_transport_ready) = false;
  lr_failed : negb (failure =? MELODI_LINK_FAILURE_NONE) = (state =? MELODI_LINK_FAILED);
  lr_error : match error with Some _ => true | None => false end = (state =? MELODI_LINK_FAILED);
  lr_state : 0 <= state <= 3 /\ 0 <= failure <= MELODI_LINK_FAILURE_MAX;
  lr_key : match key with Some _ => true | None => false end = v.1.1.(l_identity_ready);
  lr_generation : v.1.1.(l_identity_ready) = true -> v.1.1.(l_identity_generation) <> 0;
  lr_queue : v.1.2 = false -> carrier = true;
  lr_logical : v.2 = false -> running = true;
}.

Definition is_some {A} (o : option A) : bool := match o with Some _ => true | None => false end.

Definition link_inv (i : interface) : Prop :=
  link_rules i.(i_state) i.(i_failure) i.(i_error) i.(i_key) (is_some i.(i_transport)) i.(i_carrier) i.(i_dormant) i.(i_running) (view i).

Lemma set_fields_view i : (forall v, view (set_i_transport v i) = view i) /\ (forall v, view (set_i_transports v i) = view i) /\
  (forall v, view (set_i_key v i) = view i) /\ (forall a b c, view (set_i_link a b c i) = view i) /\
  (forall v, view (set_i_carrier v i) = view i) /\ (forall v, view (set_i_dormant v i) = view i) /\
  (forall v, view (set_i_running v i) = view i) /\ (forall v, view (tell v i) = view i) /\
  (forall a b c t, view (reference a b c t i) = view i).
Proof. repeat split. intros. unfold reference. now destruct (i_transports i !! t). Qed.

(** Everything of an interface but its station and the transports. *)
Definition plain_fields (i : interface) :=
  (i.(i_transport), i.(i_key), i.(i_state), i.(i_failure), i.(i_error), (i.(i_carrier), i.(i_dormant), i.(i_running))).

Lemma reference_plain a b c t i : plain_fields (reference a b c t i) = plain_fields i.
Proof. unfold reference. now destruct (i_transports i !! t). Qed.
End Calls.

#[local] Opaque melodi_data_fail_pending melodi_queue_drain melodi_queue_pause melodi_queue_fail melodi_queue_start melodi_logical_stop
  melodi_data_reset_locked melodi_discovery_reset_locked.

Ltac view_rewrite :=
  repeat first
    [ rewrite fail_all_view | rewrite failed_view | rewrite pause_view | rewrite fail_view | rewrite started_view | rewrite logical_stop_view
    | rewrite netif_tx_view | rewrite start_logical_view | rewrite announce_view | rewrite reset_view | rewrite on_link_view
    | rewrite (proj1 (set_fields_view _)) | rewrite (proj1 (proj2 (set_fields_view _)))
    | rewrite (proj1 (proj2 (proj2 (set_fields_view _)))) | rewrite (proj1 (proj2 (proj2 (proj2 (set_fields_view _)))))
    | rewrite (proj1 (proj2 (proj2 (proj2 (proj2 (set_fields_view _))))))
    | rewrite (proj1 (proj2 (proj2 (proj2 (proj2 (proj2 (set_fields_view _)))))))
    | rewrite (proj1 (proj2 (proj2 (proj2 (proj2 (proj2 (proj2 (set_fields_view _))))))))
    | rewrite (proj1 (proj2 (proj2 (proj2 (proj2 (proj2 (proj2 (proj2 (set_fields_view _)))))))))
    | rewrite (proj2 (proj2 (proj2 (proj2 (proj2 (proj2 (proj2 (proj2 (set_fields_view _))))))))) ].

(** The rules of a result from the rules before: the fields by computation, the view by
    the lemmas above. *)
Ltac link_fields H :=
  unfold link_inv in *; view_rewrite; destruct H as [A1 A2 A3 A4 A5 A6 A7 A8 A9 A10 A11 A12 A13]; constructor;
  cbn -[view Z.eqb] in *.

Section Rules.
  Context (be : bool) (msecs_to_jiffies : Z -> Z) (check : bytes -> Z).

Lemma open_rules now_ms e i : link_inv i -> link_inv (melodi_open msecs_to_jiffies now_ms e i).
Proof.
  intros H. unfold melodi_open. destruct (i_carrier (start_logical (set_i_running true i))) eqn:E; link_fields H; auto.
Qed.

Lemma close_rules i : link_inv i -> link_inv (melodi_stop be i).
Proof.
  intros H. unfold melodi_stop. destruct (i_carrier (set_i_running false i)) eqn:E; link_fields H; auto; discriminate.
Qed.

(** The state after a section that decides about the link. *)
Ltac link_solve :=
  try first
    [ assumption | reflexivity | lia | congruence | intros; congruence | tauto
    | repeat match goal with H : _ = true |- _ => rewrite H | H : _ = false |- _ => rewrite H end; rewrite ?andb_false_r; reflexivity ].

Lemma ready_locked_eq ready locator i : ready_locked ready locator i =
  (set_i_link (if ready && l_identity_ready (view i).1.1 then MELODI_LINK_READY else MELODI_LINK_CONFIGURING) MELODI_LINK_FAILURE_NONE None
     (on_link (set_transport_ready ready (if ready then locator else 0)) i), ready && l_identity_ready (view i).1.1).
Proof. reflexivity. Qed.

Lemma ready_rules now_ms e ready local_locator i : link_inv i -> i.(i_transport) <> None ->
  link_inv (melodi_link_ready be msecs_to_jiffies id now_ms e ready local_locator i).
Proof.
  intros H Ht. unfold melodi_link_ready. destruct (ready && _) eqn:Hl; [exact H|]. rewrite ready_locked_eq.
  assert (Hs : is_some (i_transport i) = true) by now destruct (i_transport i).
  unfold id, ready_after. destruct (ready && l_identity_ready (view i).1.1) eqn:Hr.
  - apply andb_true_iff in Hr as [-> Hr]. cbn [andb negb] in *. apply orb_false_iff in Hl as [L1 L2]. apply Z.eqb_neq in L1, L2.
    match goal with |- link_inv (if ?b then _ else _) => destruct b eqn:Er end; link_fields H; link_solve.
  - destruct (negb ready && i_carrier i); link_fields H; link_solve; destruct ready; cbn [andb] in *; link_solve.
Qed.

Lemma failed_rules failure error i : link_inv i -> i.(i_transport) <> None -> link_inv (melodi_link_failed be id failure error i).
Proof.
  intros H Ht. unfold melodi_link_failed. destruct (_ || _) eqn:Hf; [exact H|]. apply orb_false_iff in Hf as [F1 F2].
  assert (Hs : is_some (i_transport i) = true) by now destruct (i_transport i).
  unfold failed_stop, failed_locked, id. destruct (i_carrier i) eqn:Ec; link_fields H; link_solve.
Qed.

Lemma failed_transport failure error i : i_transport (melodi_link_failed be id failure error i) = i_transport i.
Proof. unfold melodi_link_failed, failed_stop. destruct (_ || _); [reflexivity|]. now destruct (i_carrier i). Qed.

Lemma ready_transport now_ms e ready locator i :
  i_transport (melodi_link_ready be msecs_to_jiffies id now_ms e ready locator i) = i_transport i.
Proof.
  unfold melodi_link_ready. destruct (ready && _); [reflexivity|]. rewrite ready_locked_eq. unfold ready_after, id.
  destruct (ready && l_identity_ready _); [now match goal with |- i_transport (if ?b then _ else _) = _ => destruct b end|].
  now destruct (negb ready && _).
Qed.

Lemma driver_rules calls : forall i, link_inv i -> i.(i_transport) <> None ->
  link_inv (fold_left (driver_step be msecs_to_jiffies) calls i) /\ i_transport (fold_left (driver_step be msecs_to_jiffies) calls i) = i_transport i.
Proof.
  induction calls as [|call calls IH]; intros i H Ht; [now split|]. cbn [fold_left].
  assert (link_inv (driver_step be msecs_to_jiffies i call) /\ i_transport (driver_step be msecs_to_jiffies i call) = i_transport i) as [H' E].
  { destruct call; cbn [driver_step]; split; auto using ready_rules, failed_rules, ready_transport, failed_transport. }
  destruct (IH _ H' ltac:(congruence)) as [I1 I2]. split; [assumption|congruence].
Qed.

Lemma reference_rules a b c t i : link_inv i -> link_inv (reference a b c t i).
Proof. intros H. unfold reference. destruct (i_transports i !! t); [|exact H]. link_fields H; link_solve. Qed.

Lemma take_reference_shape wanted i j t : take_reference wanted i = Some (j, t) -> j = reference 1 false false t i /\ i_transport i = Some t.
Proof.
  unfold take_reference. destruct (i_transport i) as [u|]; [|discriminate]. destruct (i_transports i !! u); [|discriminate].
  destruct (_ || _); [discriminate|]. now intros [= <- <-].
Qed.

Lemma configure_locked_eq i : configure_locked i =
  if negb (l_identity_ready (view i).1.1) then (i, Err EAGAIN) else
  match take_reference tr_configure i with
  | None => (i, Err EOPNOTSUPP)
  | Some (j, t) => (set_i_link MELODI_LINK_CONFIGURING MELODI_LINK_FAILURE_NONE None (on_link (set_transport_ready false 0) j),
                    Ok (t, l_local_native_locator (view j).1.1))
  end.
Proof. reflexivity. Qed.

Lemma configure_rules calls answer i : link_inv i ->
  link_inv (melodi_transport_configure be id (driver_run be msecs_to_jiffies calls answer) i).1.
Proof.
  intros H. unfold melodi_transport_configure. rewrite configure_locked_eq. destruct (negb _); [exact H|].
  destruct (take_reference tr_configure i) as [[j t]|] eqn:E; [|exact H]. apply take_reference_shape in E as [-> Et].
  assert (H1 : link_inv (fail_all be ENETDOWN (netif_tx true (set_i_dormant true (set_i_carrier false (id (set_i_link MELODI_LINK_CONFIGURING
     MELODI_LINK_FAILURE_NONE None (on_link (set_transport_ready false 0) (reference 1 false false t i))))))))).
  { apply (reference_rules 1 false false t) in H.
    assert (Hs : is_some (i_transport (reference 1 false false t i)) = true)
      by (pose proof (reference_plain 1 false false t i) as Ep; injection Ep as -> _; now rewrite Et).
    unfold id. revert H Hs. generalize (reference 1 false false t i). intros j H Hs. link_fields H; link_solve. }
  assert (E1 : i_transport (fail_all be ENETDOWN (netif_tx true (set_i_dormant true (set_i_carrier false (id (set_i_link MELODI_LINK_CONFIGURING
     MELODI_LINK_FAILURE_NONE None (on_link (set_transport_ready false 0) (reference 1 false false t i)))))))) = Some t).
  { pose proof (reference_plain 1 false false t i) as Ep. injection Ep as Ep _. cbn. now rewrite Ep. }
  cbn beta iota zeta. unfold driver_run. revert H1 E1. generalize (l_local_native_locator (view (reference 1 false false t i)).1.1). intros locator.
  generalize (fail_all be ENETDOWN (netif_tx true (set_i_dormant true (set_i_carrier false (id (set_i_link MELODI_LINK_CONFIGURING
     MELODI_LINK_FAILURE_NONE None (on_link (set_transport_ready false 0) (reference 1 false false t i)))))))). intros k H1 E1.
  destruct (driver_rules calls k H1 ltac:(congruence)) as [H2 E2]. unfold put_reference.
  apply (reference_rules (-1) (last_reference t (fold_left (driver_step be msecs_to_jiffies) calls k)) false t) in H2.
  destruct answer as [[]|error]; [exact H2|]. apply failed_rules; [exact H2|].
  pose proof (reference_plain (-1) (last_reference t (fold_left (driver_step be msecs_to_jiffies) calls k)) false t
    (fold_left (driver_step be msecs_to_jiffies) calls k)) as Ep. injection Ep as -> _. congruence.
Qed.

Lemma detached_state i : link_inv i -> i_transport i = None -> i_state i = 0 /\ l_transport_ready (view i).1.1 = false.
Proof.
  intros [_ _ _ _ H5 H6 _ _ _ _ _ _ _] Et. rewrite Et in *. split; [|now apply H6]. apply Z.eqb_eq. now destruct (i_state i =? 0).
Qed.

Lemma attach_rules memory configure get_info airtime i : link_inv i -> link_inv (melodi_link_attach memory configure get_info airtime i).1.
Proof.
  intros H. unfold melodi_link_attach. destruct memory; [|exact H]. destruct (i_transport i) eqn:Et; [exact H|]. cbn [negb fst].
  destruct (detached_state i H Et) as [E0 El]. link_fields H; rewrite ?E0 in *; link_solve.
Qed.

Lemma reset_rules i : link_inv i -> link_inv (reset_locked i).
Proof. intros H. link_fields H; link_solve. Qed.

Lemma stop_parts_view i : view (stop_parts be i) = ((view i).1.1, true, true).
Proof.
  unfold stop_parts. rewrite (on_core_view melodi_data_stop).
  2:{ intros c. unfold melodi_data_stop. cbv zeta. now rewrite data_reset_view, set_data_view. }
  change (view (on_core melodi_queue_stop (logical_stop be ENODEV (tell ENODEV i))) = ((view i).1.1, true, true)).
  unfold melodi_queue_stop. now rewrite fail_view, logical_stop_view.
Qed.

Lemma unregister_rules i : link_inv i -> link_inv (melodi_unregister_device be i).
Proof.
  intros H. assert (H1 : link_inv (stop_parts be i)).
  { unfold link_inv. rewrite stop_parts_view. link_fields H; link_solve. }
  unfold melodi_unregister_device. revert H1. generalize (stop_parts be i). intros j H1. destruct (i_running j); [now apply close_rules|exact H1].
Qed.

Lemma detach_rules i : link_inv i -> link_inv (melodi_detach_transport be id id i).
Proof.
  intros H. unfold melodi_detach_transport, detach_begin.
  change (i_transport (fail_all be ENETDOWN (netif_tx true (set_i_carrier false i)))) with (i_transport i).
  destruct (i_transport i) as [t|] eqn:Et.
  - match goal with |- link_inv (if i_persistent ?j then _ else _) => enough (H1 : link_inv j) by
      (destruct (i_persistent j); [exact H1|now apply unregister_rules]) end.
    unfold detach_free. apply reference_rules, reset_rules. unfold id.
    match goal with |- link_inv (if ?b then ?x else ?x) => replace (if b then x else x) with x by now destruct b end.
    apply reference_rules. link_fields H; link_solve.
  - destruct (detached_state i H Et) as [E0 El]. link_fields H; rewrite ?E0 in *; link_solve.
Qed.

Lemma policy_view y i : view (on_core (fun c => set_dev (set_d_policy y c.(c_dev)) c) i) = view i.
Proof. now apply on_core_view. Qed.

(** A link that is ready is started. *)
Lemma restart_rules now_ms i : link_inv i ->
  link_inv (if (ilink i).(l_identity_ready) && (ilink i).(l_transport_ready) && i.(i_running)
            then start_logical (on_core (melodi_queue_start now_ms) i) else i).
Proof.
  intros H. change (ilink i) with (view i).1.1. destruct (_ && i_running i) eqn:E; [|exact H].
  apply andb_true_iff in E as [E Er]. link_fields H; link_solve.
Qed.

Lemma moved_rules now_ms i : link_inv i -> link_inv (melodi_namespace_reset be now_ms i).
Proof.
  intros H. unfold melodi_namespace_reset. apply restart_rules. assert (Hr : link_inv (reset_locked (fail_all be ENONET (netif_tx true i)))).
  { apply reset_rules. link_fields H; link_solve. }
  revert Hr. generalize (reset_locked (fail_all be ENONET (netif_tx true i))). clear i H. intros i H.
  unfold link_inv. rewrite policy_view. destruct H as [A1 A2 A3 A4 A5 A6 A7 A8 A9 A10 A11 A12 A13]. now constructor.
Qed.

(** ** A new identity *)

(** The section that installs it, for an interface that was stopped. *)
Lemma install_eq now_ms node_id key generation previous native_locator collision_round replacing i :
  let j := reset_locked (on_node (fun n => with_disc (set_m_conflict_pending false n.(n_disc)) n)
             (on_link (new_identity node_id generation native_locator collision_round) (set_i_key (Some key) i))) in
  let k := if replacing && match previous with None => true | Some _ => false end
           then on_core (fun c => set_dev (with_policy_peers (replicate MELODI_POLICY_PEER_LIMIT zero_policy_peer) c.(c_dev)) c) j else j in
  exists l, identity_install now_ms node_id key generation previous native_locator collision_round replacing i =
    (l, can_configure k, l_transport_ready (view l).1.1 && i_running l) /\
  l = (if can_configure k then
      netif_tx true (set_i_dormant true (set_i_carrier false
        (set_i_link MELODI_LINK_CONFIGURING MELODI_LINK_FAILURE_NONE None (on_link (set_transport_ready false 0) k))))
    else if l_transport_ready (view k).1.1 then
      let i := set_i_carrier true (set_i_dormant false (set_i_link MELODI_LINK_READY MELODI_LINK_FAILURE_NONE None k)) in
      let i := on_core (melodi_queue_start now_ms) i in
      if i.(i_running) then start_logical i else i
    else k).
Proof. eexists. split; reflexivity. Qed.

Lemma policy_peers_view l i : view (on_core (fun c => set_dev (with_policy_peers l c.(c_dev)) c) i) = view i.
Proof. now apply on_core_view. Qed.

Lemma conflict_view b i : view (on_node (fun n => with_disc (set_m_conflict_pending b n.(n_disc)) n) i) = view i.
Proof. reflexivity. Qed.

(** An interface [j] that was stopped from [i]. *)
Record stopped_from (i j : interface) : Prop := {
  sf_view : view j = ((view i).1.1, true, true);
  sf_fields : plain_fields j = (i_transport i, i_key i, i_state i, i_failure i, i_error i, (false, i_dormant i, i_running i));
}.

Lemma identity_stopped i : stopped_from i (identity_stop be i).
Proof. unfold identity_stop. destruct (i_carrier i); split; view_rewrite; reflexivity. Qed.

Lemma can_configure_attached i : can_configure i = true -> is_some (i_transport i) = true.
Proof. unfold can_configure. now destruct (i_transport i). Qed.

(** The fields of an interface whose identity is new. *)
Record renamed_from (i : interface) (key : Z) (l : link_state) (j : interface) : Prop := {
  rf_view : view j = (l, true, true);
  rf_transport : i_transport j = i_transport i;
  rf_key : i_key j = Some key;
  rf_state : i_state j = i_state i;
  rf_failure : i_failure j = i_failure i;
  rf_error : i_error j = i_error i;
  rf_carrier : i_carrier j = false;
  rf_dormant : i_dormant j = i_dormant i;
  rf_running : i_running j = i_running i;
}.

Lemma core_plain f i : plain_fields (on_core f i) = plain_fields i.
Proof. reflexivity. Qed.

Lemma renamed_reset i j key node_id generation native_locator collision_round : stopped_from i j ->
  renamed_from i key (new_identity node_id generation native_locator collision_round (view i).1.1)
    (reset_locked (on_node (fun n => with_disc (set_m_conflict_pending false n.(n_disc)) n)
       (on_link (new_identity node_id generation native_locator collision_round) (set_i_key (Some key) j)))).
Proof.
  intros [Hv Hf]. injection Hf as F1 F2 F3 F4 F5 F6 F7 F8.
  split; [|cbn; assumption || reflexivity..]. rewrite reset_view, conflict_view. view_rewrite. now rewrite Hv.
Qed.

Lemma renamed_policy i key l (b : bool) peers j : renamed_from i key l j ->
  renamed_from i key l (if b then on_core (fun c => set_dev (with_policy_peers peers c.(c_dev)) c) j else j).
Proof. intros [H1 H2 H3 H4 H5 H6 H7 H8 H9]. destruct b; [|now split]. split; [now rewrite policy_peers_view|assumption..]. Qed.

(** What follows for the link. *)
Lemma renamed_configuring i key l k : link_inv i -> renamed_from i key l k -> l_identity_ready l = true -> l_identity_generation l <> 0 ->
  is_some (i_transport i) = true ->
  link_inv (netif_tx true (set_i_dormant true (set_i_carrier false
    (set_i_link MELODI_LINK_CONFIGURING MELODI_LINK_FAILURE_NONE None (on_link (set_transport_ready false 0) k))))).
Proof.
  intros _ [Hv F1 F2 F3 F4 F5 F6 F7 F8] Hi Hg Hs. unfold link_inv. view_rewrite. rewrite Hv.
  constructor; cbn -[view Z.eqb]; rewrite ?F1, ?F2, ?Hs; link_solve.
Qed.

Lemma renamed_ready now_ms i key l k : link_inv i -> renamed_from i key l k -> l_identity_ready l = true -> l_identity_generation l <> 0 ->
  l_transport_ready l = true -> l_transport_ready l = l_transport_ready (view i).1.1 ->
  l_local_link_locator l = l_local_link_locator (view i).1.1 ->
  link_inv (let i := set_i_carrier true (set_i_dormant false (set_i_link MELODI_LINK_READY MELODI_LINK_FAILURE_NONE None k)) in
            let i := on_core (melodi_queue_start now_ms) i in
            if i.(i_running) then start_logical i else i).
Proof.
  intros [A1 A2 A3 A4 A5 A6 A7 A8 A9 A10 A11 A12 A13] [Hv F1 F2 F3 F4 F5 F6 F7 F8] Hi Hg Hr E1 E2. rewrite <- E1, <- E2, Hr in *.
  assert (Hs : is_some (i_transport i) = true) by (destruct (is_some (i_transport i)); [reflexivity|discriminate (A6 eq_refl)]).
  cbv zeta. match goal with |- link_inv (if ?b then _ else _) => destruct b eqn:Er end; cbn in Er;
    unfold link_inv; view_rewrite; rewrite Hv; constructor; cbn -[view Z.eqb]; rewrite ?F1, ?F2, ?Hs, ?Hi, ?Hr; link_solve.
Qed.

Lemma renamed_waiting i key l k : link_inv i -> renamed_from i key l k -> l_identity_ready l = true -> l_identity_generation l <> 0 ->
  l_transport_ready l = false -> l_transport_ready l = l_transport_ready (view i).1.1 ->
  l_local_link_locator l = l_local_link_locator (view i).1.1 -> link_inv k.
Proof.
  intros [A1 A2 A3 A4 A5 A6 A7 A8 A9 A10 A11 A12 A13] [Hv F1 F2 F3 F4 F5 F6 F7 F8] Hi Hg Hr E1 E2. rewrite <- E1, <- E2, Hr in *.
  assert (A3' : (i_state i =? 2) = false) by (rewrite A3; apply andb_false_r).
  unfold link_inv. rewrite Hv. constructor; cbn -[view Z.eqb]; rewrite ?F1, ?F2, ?F3, ?F4, ?F5, ?F6, ?F7, ?F8, ?Hi, ?Hr; link_solve.
Qed.

Lemma install_rules now_ms node_id key generation previous native_locator collision_round replacing i j : link_inv i -> stopped_from i j ->
  generation <> 0 -> link_inv (identity_install now_ms node_id key generation previous native_locator collision_round replacing j).1.1.
Proof.
  intros H Hj Hg. destruct (install_eq now_ms node_id key generation previous native_locator collision_round replacing j) as (l & -> & ->).
  cbn [fst]. pose proof (renamed_policy _ _ _ (replacing && match previous with None => true | Some _ => false end)
    (replicate MELODI_POLICY_PEER_LIMIT zero_policy_peer) _ (renamed_reset i j key node_id generation native_locator collision_round Hj)) as Hk.
  revert Hk. set (k := if _ && _ then _ else _). clearbody k. intros Hk. pose proof (can_configure_attached k) as Hc.
  rewrite (rf_transport _ _ _ _ Hk) in Hc. destruct (can_configure k).
  - apply (renamed_configuring i key (new_identity node_id generation native_locator collision_round (view i).1.1)); auto.
  - destruct (l_transport_ready (view k).1.1) eqn:El; rewrite (rf_view _ _ _ _ Hk) in El.
    + now apply (renamed_ready now_ms i key (new_identity node_id generation native_locator collision_round (view i).1.1)).
    + now apply (renamed_waiting i key (new_identity node_id generation native_locator collision_round (view i).1.1)).
Qed.

Lemma identity_rules calls answer stack now_ms e node_id key generation previous i : link_inv i ->
  link_inv (melodi_device_set_identity be msecs_to_jiffies check id (driver_run be msecs_to_jiffies calls answer) stack now_ms e node_id key
    generation previous i).1.
Proof.
  intros H. unfold melodi_device_set_identity. destruct key as [key|]; [|exact H]. destruct (_ || _) eqn:Eg; [exact H|].
  apply orb_false_iff in Eg as [_ Eg]. apply Z.eqb_neq in Eg.
  destruct (identity_check _ _ _ _ _) as [[[native_locator collision_round] replacing]|]; [|exact H]. unfold id.
  pose proof (install_rules now_ms node_id key generation previous native_locator collision_round replacing i (identity_stop be i) H
    (identity_stopped i) Eg) as Hi.
  destruct (identity_install _ _ _ _ _ _ _ _ _) as [[j configure] announce]. cbn [fst] in Hi.
  assert (Hc : link_inv (if configure then (melodi_transport_configure be id (driver_run be msecs_to_jiffies calls answer) j).1 else j))
    by (destruct configure; [now apply configure_rules|assumption]).
  cbn [fst]. change (fun x : interface => x) with (@id interface). revert Hc.
  generalize (if configure then (melodi_transport_configure be id (driver_run be msecs_to_jiffies calls answer) j).1 else j).
  intros k Hk. destruct announce; [|exact Hk]. link_fields Hk; link_solve.
Qed.

Lemma xmit_rules answer i : link_inv i -> link_inv (melodi_core_xmit id answer i).1.
Proof.
  intros H. unfold melodi_core_xmit. destruct (_ || _); [exact H|]. destruct (take_reference _ i) as [[j t]|] eqn:E; [|exact H].
  apply take_reference_shape in E as [-> _]. cbn [fst]. unfold id. now apply reference_rules, reference_rules.
Qed.
End Rules.

(** ** The life of a transport

    Calls of the core are inside the driver while others attach and detach: the numbers
    of the transports that calls are in, that a detach has taken off the device, and that
    a detach has given its reference back to, with whether it was the last one. *)
Record use := MkUse { u_calls : list nat; u_leaving : list nat; u_waiting : list (nat * bool) }.

Inductive use_step (be : bool) : interface * use -> interface * use -> Prop :=
| use_enter wanted i j t u : take_reference wanted i = Some (j, t) ->
    use_step be (i, u) (j, MkUse (t :: u.(u_calls)) u.(u_leaving) u.(u_waiting))
| use_leave i t calls calls' leaving waiting :
    use_step be (i, MkUse (calls ++ t :: calls') leaving waiting) (put_reference t i, MkUse (calls ++ calls') leaving waiting)
| use_begin i j t u : detach_begin be i = (j, Some t) -> use_step be (i, u) (j, MkUse u.(u_calls) (t :: u.(u_leaving)) u.(u_waiting))
| use_put i t calls leaving leaving' waiting :
    use_step be (i, MkUse calls (leaving ++ t :: leaving') waiting)
      (detach_put t i, MkUse calls (leaving ++ leaving') ((t, last_reference t i) :: waiting))
| use_free i t tr last calls leaving waiting waiting' : i.(i_transports) !! t = Some tr -> last = true \/ tr.(tr_released) = true ->
    use_step be (i, MkUse calls leaving (waiting ++ (t, last) :: waiting')) (detach_free t i, MkUse calls leaving (waiting ++ waiting'))
| use_attach i u memory configure get_info airtime : use_step be (i, u) ((melodi_link_attach memory configure get_info airtime i).1, u)
| use_other i j u : i_transport j = i_transport i -> i_transports j = i_transports i -> use_step be (i, u) (j, u).

Definition count (t : nat) (l : list nat) : Z := Z.of_nat (count_occ Nat.eq_dec l t).
Definition attached_list (i : interface) : list nat := match i.(i_transport) with Some t => [t] | None => [] end.

(** Whoever owns a transport: the device, or a detach. *)
Definition owners (i : interface) (u : use) : list nat := attached_list i ++ u.(u_leaving) ++ u.(u_waiting).*1.

Record transport_ok (i : interface) (u : use) (t : nat) (tr : melodi_transport) : Prop := {
  to_references : tr.(tr_freed) = false -> tr.(tr_references) = count t u.(u_calls) + count t (attached_list i ++ u.(u_leaving));
  to_owner : tr.(tr_freed) = false <-> t ∈ owners i u;
  to_calls : tr.(tr_freed) = true -> t ∉ u.(u_calls);
  to_released : tr.(tr_freed) = false -> tr.(tr_released) = true -> tr.(tr_references) = 0;
  to_waiting : forall last, (t, last) ∈ u.(u_waiting) -> (last = true -> tr.(tr_references) = 0) /\
    (tr.(tr_references) = 0 -> last = true \/ tr.(tr_released) = true);
}.

Record use_ok (st : interface * use) : Prop := {
  uo_owners : NoDup (owners st.1 st.2);
  uo_transports : forall t tr, st.1.(i_transports) !! t = Some tr -> transport_ok st.1 st.2 t tr;
  uo_known : forall t, t ∈ st.2.(u_calls) ++ owners st.1 st.2 -> (t < length st.1.(i_transports))%nat;
}.

Lemma reference_lookup c r f t i u : (reference c r f t i).(i_transports) !! u =
  if decide (u = t) then (fun tr => MkTransport tr.(tr_configure) tr.(tr_get_info) tr.(tr_airtime) (tr.(tr_references) + c)
                            (tr.(tr_released) || r) (tr.(tr_freed) || f)) <$> i.(i_transports) !! t
  else i.(i_transports) !! u.
Proof.
  unfold reference. destruct (i_transports i !! t) as [tr|] eqn:E.
  - cbn [i_transports set_i_transports]. destruct (decide (u = t)) as [->|Hn]; [|now apply list_lookup_insert_ne].
    apply list_lookup_insert_eq. now apply lookup_lt_Some in E.
  - destruct (decide (u = t)) as [->|]; [now rewrite E|reflexivity].
Qed.

Lemma reference_length c r f t i : length (reference c r f t i).(i_transports) = length i.(i_transports).
Proof. unfold reference. destruct (i_transports i !! t); [apply length_insert|reflexivity]. Qed.

Lemma reference_attached c r f t i : attached_list (reference c r f t i) = attached_list i.
Proof. unfold reference, attached_list. now destruct (i_transports i !! t). Qed.

Lemma count_app t l k : count t (l ++ k) = count t l + count t k.
Proof. unfold count. rewrite count_occ_app. lia. Qed.

Lemma count_cons t u l : count t (u :: l) = (if decide (u = t) then 1 else 0) + count t l.
Proof. unfold count. cbn [count_occ]. destruct (Nat.eq_dec u t), (decide (u = t)); try contradiction; lia. Qed.

Lemma count_nonneg t l : 0 <= count t l.
Proof. unfold count. lia. Qed.

Lemma count_in t l : t ∈ l <-> 0 < count t l.
Proof. unfold count. rewrite list_elem_of_In, (count_occ_In Nat.eq_dec). lia. Qed.

Lemma count_zero t l : t ∉ l -> count t l = 0.
Proof. intros H. pose proof (count_nonneg t l). destruct (Z.eq_dec (count t l) 0); [assumption|]. destruct H. apply count_in. lia. Qed.

(** The rules depend on the transports only. *)
Lemma use_ok_same i j u : i_transport j = i_transport i -> i_transports j = i_transports i -> use_ok (i, u) -> use_ok (j, u).
Proof.
  intros E1 E2 [H1 H2 H3]. cbn [fst snd] in *. assert (Ea : attached_list j = attached_list i) by (unfold attached_list; now rewrite E1).
  assert (Eo : owners j u = owners i u) by (unfold owners; now rewrite Ea).
  split; cbn [fst snd]; [now rewrite Eo| |intros t; rewrite Eo, E2; apply H3]. intros t tr Ht. rewrite E2 in Ht.
  destruct (H2 t tr Ht) as [A1 A2 A3 A4 A5]. now split; rewrite ?Ea, ?Eo.
Qed.

(** What a change of one transport has to keep. *)
Lemma use_ok_change c r f t i u v : use_ok (i, u) -> NoDup (owners i v) ->
  (forall x, x ∈ u_calls v ++ owners i v -> (x < length i.(i_transports))%nat) ->
  (forall x tr, x <> t -> i.(i_transports) !! x = Some tr -> transport_ok i u x tr -> transport_ok i v x tr) ->
  (forall tr, i.(i_transports) !! t = Some tr -> transport_ok i u t tr ->
     transport_ok i v t (MkTransport tr.(tr_configure) tr.(tr_get_info) tr.(tr_airtime) (tr.(tr_references) + c) (tr.(tr_released) || r)
                           (tr.(tr_freed) || f))) ->
  use_ok (reference c r f t i, v).
Proof.
  intros [H1 H2 H3] N K A B. assert (Ea := reference_attached c r f t i). assert (Eo : owners (reference c r f t i) v = owners i v)
    by (unfold owners; now rewrite Ea). split; cbn [fst snd].
  - now rewrite Eo.
  - intros x tr Hx. rewrite reference_lookup in Hx. destruct (decide (x = t)) as [->|Hn].
    + destruct (i_transports i !! t) as [old|] eqn:E; [|discriminate]. injection Hx as <-. destruct (B old eq_refl (H2 t old E)) as [B1 B2 B3 B4 B5].
      now split; rewrite ?Ea, ?Eo.
    + destruct (A x tr Hn Hx (H2 x tr Hx)) as [B1 B2 B3 B4 B5]. now split; rewrite ?Ea, ?Eo.
  - intros x. rewrite Eo, reference_length. apply K.
Qed.

Lemma enter_ok wanted i j t u : take_reference wanted i = Some (j, t) -> use_ok (i, u) ->
  use_ok (j, MkUse (t :: u.(u_calls)) u.(u_leaving) u.(u_waiting)).
Proof.
  intros E H. assert (Hz : forall tr, i_transports i !! t = Some tr -> tr_references tr <> 0).
  { revert E. unfold take_reference. destruct (i_transport i) as [x|]; [|discriminate]. destruct (i_transports i !! x) as [tr|] eqn:Ex; [|discriminate].
    destruct (_ || _) eqn:Eb; [discriminate|]. intros [= _ <-] tr' Htr. apply orb_false_iff in Eb as [_ Eb]. apply Z.eqb_neq in Eb. congruence. }
  assert (Hl : (t < length (i_transports i))%nat).
  { revert E. unfold take_reference. destruct (i_transport i) as [x|]; [|discriminate]. destruct (i_transports i !! x) as [tr|] eqn:Ex; [|discriminate].
    destruct (_ || _); [discriminate|]. intros [= _ <-]. now apply lookup_lt_Some in Ex. }
  apply take_reference_shape in E as [-> Et]. assert (Ha : attached_list i = [t]) by (unfold attached_list; now rewrite Et).
  pose proof H as [H1 H2 H3]. cbn [fst snd] in *. apply (use_ok_change 1 false false t i u); [exact H|exact H1| | |].
  - intros x [->|Hx]%elem_of_cons; [exact Hl|now apply H3].
  - intros x tr Hn Hx [A1 A2 A3 A4 A5]. split; auto; cbn [u_calls u_leaving].
    + intros Hf. rewrite (A1 Hf), count_cons. destruct (decide (t = x)); [congruence|reflexivity].
    + intros Hf [->|Hc]%elem_of_cons; [now apply Hn|now apply A3].
  - intros tr Hx [A1 A2 A3 A4 A5]. assert (Hf : tr_freed tr = false) by (apply A2; unfold owners; rewrite Ha; apply elem_of_cons; now left).
    assert (Hw : forall last, (t, last) ∉ u_waiting u).
    { intros last Hin. unfold owners in H1. rewrite Ha in H1. apply list.NoDup_cons in H1 as [H1 _]. apply H1.
      apply elem_of_app. right. now apply (list_elem_of_fmap_2 fst _ (t, last)). }
    split; cbn [tr_references tr_released tr_freed u_calls u_leaving u_waiting]; rewrite ?orb_false_r; auto.
    + intros _. rewrite (A1 Hf), count_cons. destruct (decide (t = t)); [lia|contradiction].
    + congruence.
    + intros _ Hr. destruct (Hz tr Hx). now apply A4.
    + intros last Hin. now destruct (Hw last).
Qed.

Lemma leave_ok i t calls calls' leaving waiting : use_ok (i, MkUse (calls ++ t :: calls') leaving waiting) ->
  use_ok (put_reference t i, MkUse (calls ++ calls') leaving waiting).
Proof.
  intros H. pose proof H as [H1 H2 H3]. cbn [fst snd u_calls] in *.
  assert (Hlast : forall tr, i_transports i !! t = Some tr -> last_reference t i = (tr_references tr =? 1)) by (unfold last_reference; now intros tr ->).
  assert (Hin : forall x, x ∈ calls ++ calls' -> x ∈ calls ++ t :: calls') by (intros x; rewrite !elem_of_app, elem_of_cons; tauto).
  apply (use_ok_change (-1) (last_reference t i) false t i (MkUse (calls ++ t :: calls') leaving waiting)); [exact H|exact H1| | |].
  - intros x Hx. apply H3. apply elem_of_app in Hx as [Hx|Hx]; apply elem_of_app; auto.
  - intros x tr Hn Hx [A1 A2 A3 A4 A5]. split; auto; cbn [u_calls u_leaving] in *; [|intros Hf Hc; now apply (A3 Hf), Hin].
    intros Hf. rewrite (A1 Hf), !count_app, count_cons. destruct (decide (t = x)); [congruence|reflexivity].
  - intros tr Hx [A1 A2 A3 A4 A5]. cbn [u_calls u_leaving u_waiting] in *.
    assert (Ht : t ∈ calls ++ t :: calls') by (apply elem_of_app; right; apply elem_of_cons; now left).
    assert (Hf : tr_freed tr = false) by (destruct (tr_freed tr); [destruct (A3 eq_refl Ht)|reflexivity]).
    specialize (A1 Hf). rewrite count_app, count_cons in A1. destruct (decide (t = t)); [|contradiction].
    pose proof (count_nonneg t calls). pose proof (count_nonneg t calls'). pose proof (count_nonneg t (attached_list i ++ leaving)).
    rewrite (Hlast tr Hx). split; cbn [tr_references tr_released tr_freed u_calls u_leaving u_waiting]; rewrite ?orb_false_r; auto.
    + intros _. rewrite count_app. lia.
    + congruence.
    + intros _ Hr. apply orb_true_iff in Hr as [Hr|Hr]; [specialize (A4 Hf Hr); lia|lia].
    + intros last Hl. destruct (A5 last Hl) as [B1 B2]. split; [intros E; specialize (B1 E); lia|]. intros E. right. apply orb_true_iff. right. lia.
Qed.

Lemma begin_shape be i j t : detach_begin be i = (j, Some t) ->
  i_transport i = Some t /\ i_transport j = None /\ i_transports j = i_transports i.
Proof.
  unfold detach_begin. change (i_transport (fail_all be ENETDOWN (netif_tx true (set_i_carrier false i)))) with (i_transport i).
  destruct (i_transport i); [|discriminate]. intros [= <- <-]. now split.
Qed.

Lemma begin_ok be i j t u : detach_begin be i = (j, Some t) -> use_ok (i, u) -> use_ok (j, MkUse u.(u_calls) (t :: u.(u_leaving)) u.(u_waiting)).
Proof.
  intros E [H1 H2 H3]. apply begin_shape in E as (E1 & E2 & E3). cbn [fst snd] in *.
  assert (Eo : owners j (MkUse (u_calls u) (t :: u_leaving u) (u_waiting u)) = owners i u) by (unfold owners, attached_list; now rewrite E1, E2).
  assert (Ea : attached_list j ++ t :: u_leaving u = attached_list i ++ u_leaving u) by (unfold attached_list; now rewrite E1, E2).
  split; cbn [fst snd]; rewrite ?Eo; [exact H1| |intros x; rewrite E3; apply H3]. intros x tr Hx. rewrite E3 in Hx.
  destruct (H2 x tr Hx) as [A1 A2 A3 A4 A5]. split; cbn [u_calls u_leaving u_waiting]; rewrite ?Eo, ?Ea; assumption.
Qed.

Lemma put_owners (a l l' : list nat) t w : a ++ (l ++ t :: l') ++ w ≡ₚ a ++ (l ++ l') ++ t :: w.
Proof. apply Permutation_app_head. rewrite <- !app_assoc. apply Permutation_app_head. cbn. now rewrite Permutation_middle. Qed.

Lemma put_ok i t calls leaving leaving' waiting : use_ok (i, MkUse calls (leaving ++ t :: leaving') waiting) ->
  use_ok (detach_put t i, MkUse calls (leaving ++ leaving') ((t, last_reference t i) :: waiting)).
Proof.
  intros H. unfold detach_put.
  change (last_reference t i) with (last_reference t (set_i_dormant false i)).
  apply (use_ok_same i (set_i_dormant false i)) in H; [|reflexivity..]. revert H. generalize (set_i_dormant false i). clear i. intros i H.
  pose proof H as [H1 H2 H3]. cbn [fst snd] in *.
  assert (Hlast : forall tr, i_transports i !! t = Some tr -> last_reference t i = (tr_references tr =? 1)) by (unfold last_reference; now intros tr ->).
  assert (Hp : owners i (MkUse calls (leaving ++ t :: leaving') waiting) ≡ₚ owners i (MkUse calls (leaving ++ leaving') ((t, last_reference t i) :: waiting)))
    by apply put_owners.
  apply (use_ok_change (-1) false false t i (MkUse calls (leaving ++ t :: leaving') waiting)); [exact H|now rewrite <- Hp| | |].
  - intros x. rewrite <- Hp. apply H3.
  - intros x tr Hn Hx [A1 A2 A3 A4 A5]. split; auto; cbn [u_calls u_leaving u_waiting] in *.
    + intros Hf. rewrite (A1 Hf), !count_app, count_cons. destruct (decide (t = x)); [congruence|reflexivity].
    + now rewrite <- Hp.
    + intros last [[= ? ?]|Hl]%elem_of_cons; [congruence|now apply A5].
  - intros tr Hx [A1 A2 A3 A4 A5]. cbn [u_calls u_leaving u_waiting] in *.
    assert (Ho : t ∈ owners i (MkUse calls (leaving ++ t :: leaving') waiting))
      by (unfold owners; cbn; rewrite !elem_of_app, elem_of_cons; tauto).
    pose proof (proj2 A2 Ho) as Hf. specialize (A1 Hf). rewrite !count_app, count_cons in A1. destruct (decide (t = t)); [|contradiction].
    pose proof (count_nonneg t calls). pose proof (count_nonneg t (attached_list i)). pose proof (count_nonneg t leaving). pose proof (count_nonneg t leaving').
    rewrite (Hlast tr Hx). split; cbn [tr_references tr_released tr_freed u_calls u_leaving u_waiting]; rewrite ?orb_false_r; auto.
    + intros _. rewrite !count_app. lia.
    + rewrite A2. split; intros _; [|exact Ho]. rewrite (Hlast tr Hx) in Hp. now rewrite <- Hp.
    + intros _ Hr. specialize (A4 Hf Hr). lia.
    + intros last [[= ->]|Hl]%elem_of_cons.
      * split; [intros E; lia|intros E; left; lia].
      * exfalso. rewrite Hp in H1. unfold owners in H1. cbn in H1. apply list.NoDup_app in H1 as (_ & _ & H1).
        apply list.NoDup_app in H1 as (_ & _ & H1). apply list.NoDup_cons in H1 as [H1 _]. apply H1. now apply (list_elem_of_fmap_2 fst _ (t, last)).
Qed.

Lemma free_ok i t tr last calls leaving waiting waiting' : i.(i_transports) !! t = Some tr -> last = true \/ tr.(tr_released) = true ->
  use_ok (i, MkUse calls leaving (waiting ++ (t, last) :: waiting')) -> use_ok (detach_free t i, MkUse calls leaving (waiting ++ waiting')).
Proof.
  intros Ht Hr H. unfold detach_free. apply (use_ok_same i (reset_locked i)) in H; [|reflexivity..].
  change (i_transports i) with (i_transports (reset_locked i)) in Ht. revert H Ht. generalize (reset_locked i). clear i. intros i H Ht.
  pose proof H as [H1 H2 H3]. cbn [fst snd] in *.
  assert (Hp : owners i (MkUse calls leaving (waiting ++ (t, last) :: waiting')) ≡ₚ t :: owners i (MkUse calls leaving (waiting ++ waiting'))).
  { unfold owners. cbn [u_leaving u_waiting]. rewrite !fmap_app. cbn. rewrite !app_assoc. symmetry. apply Permutation_middle. }
  rewrite Hp in H1. apply list.NoDup_cons in H1 as [Hn H1].
  assert (Hw : forall x l, (x, l) ∈ waiting ++ waiting' -> x <> t).
  { intros x l Hin ->. apply Hn. unfold owners. rewrite !elem_of_app. right. right. now apply (list_elem_of_fmap_2 fst _ (t, l)). }
  apply (use_ok_change 0 false true t i (MkUse calls leaving (waiting ++ (t, last) :: waiting'))); [exact H|exact H1| | |].
  - intros x Hx. apply H3. rewrite Hp. apply elem_of_app in Hx as [Hx|Hx]; apply elem_of_app; [now left|right; apply elem_of_cons; now right].
  - intros x y Hne Hx [A1 A2 A3 A4 A5]. split; auto; cbn [u_calls u_leaving u_waiting] in *.
    + rewrite A2, Hp, elem_of_cons. tauto.
    + intros l Hl. apply A5. rewrite elem_of_app, elem_of_cons. apply elem_of_app in Hl as [Hl|Hl]; auto.
  - intros y Hy [A1 A2 A3 A4 A5]. replace y with tr in * by congruence. cbn [u_calls u_leaving u_waiting] in *.
    assert (Hf : tr_freed tr = false) by (apply A2; rewrite Hp; apply elem_of_cons; now left). specialize (A1 Hf).
    assert (Hz : tr_references tr = 0).
    { destruct Hr as [-> |Hr]; [|now apply A4]. apply (A5 true); [|reflexivity]. apply elem_of_app. right. apply elem_of_cons. now left. }
    pose proof (count_nonneg t (attached_list i ++ leaving)). pose proof (count_nonneg t calls).
    split; cbn [tr_references tr_released tr_freed u_calls u_leaving u_waiting]; rewrite ?orb_true_r; try discriminate.
    + split; [discriminate|contradiction].
    + intros _ Hc. apply count_in in Hc. lia.
    + intros l Hl. now destruct (Hw t l Hl).
Qed.

Lemma attach_ok i u memory configure get_info airtime : use_ok (i, u) -> use_ok ((melodi_link_attach memory configure get_info airtime i).1, u).
Proof.
  intros H. unfold melodi_link_attach. destruct memory; [|exact H]. cbn [negb]. destruct (i_transport i) eqn:Et; [exact H|]. cbn [fst].
  pose proof H as [H1 H2 H3]. cbn [fst snd] in *. set (n := length (i_transports i)) in *.
  assert (Eo : owners i u = u_leaving u ++ (u_waiting u).*1) by (unfold owners, attached_list; now rewrite Et).
  assert (Hout : forall x, (n <= x)%nat -> x ∉ u_calls u ++ owners i u) by (intros x Hx Hin; specialize (H3 x Hin); lia).
  assert (Hn : (n ∉ u_calls u) /\ (n ∉ owners i u)) by (specialize (Hout n (Nat.le_refl _)); rewrite elem_of_app in Hout; tauto).
  match goal with |- use_ok (?j, u) => set (k := j) end.
  assert (Eo' : owners k u = n :: owners i u) by (rewrite Eo; reflexivity).
  assert (El : i_transports k = i_transports i ++ [MkTransport configure get_info airtime 1 false false]) by reflexivity.
  assert (Ea : attached_list k ++ u_leaving u = n :: attached_list i ++ u_leaving u) by (unfold attached_list; rewrite Et; reflexivity).
  clearbody k. split; cbn [fst snd]; rewrite ?Eo', ?El.
  - apply list.NoDup_cons. split; [apply Hn|exact H1].
  - intros x tr Hx. apply lookup_app_Some in Hx as [Hx|[Hge Hx]].
    + pose proof (lookup_lt_Some _ _ _ Hx) as Hlt. destruct (H2 x tr Hx) as [A1 A2 A3 A4 A5].
      split; rewrite ?Eo', ?Ea, ?count_cons, ?elem_of_cons; auto.
      * destruct (decide (n = x)); [lia|exact A1].
      * rewrite A2. split; [auto|]. intros [->|Hx']; [lia|assumption].
    + apply list_lookup_singleton_Some in Hx as [Hx <-]. assert (x = n) as -> by lia.
      split; rewrite ?Eo', ?Ea; cbn [tr_references tr_released tr_freed]; try discriminate.
      * intros _. rewrite count_cons. destruct (decide (n = n)); [|contradiction].
        rewrite (count_zero n (u_calls u)) by apply Hn. rewrite count_zero; [lia|]. intros Hin. apply Hn. unfold owners. rewrite app_assoc.
        apply elem_of_app. now left.
      * split; [intros _; apply elem_of_cons; now left|reflexivity].
      * intros l Hl. exfalso. apply Hn. unfold owners. rewrite !elem_of_app. right. right. now apply (list_elem_of_fmap_2 fst _ (n, l)).
  - intros x Hx. rewrite length_app. cbn. apply elem_of_app in Hx as [Hx|Hx]; [|apply elem_of_cons in Hx as [->|Hx]]; [|unfold n; lia|];
      (assert (x < n)%nat by (apply H3; apply elem_of_app; auto)); unfold n in *; lia.
Qed.

Lemma use_step_ok be st st' : use_step be st st' -> use_ok st -> use_ok st'.
Proof.
  intros Hs H. destruct Hs; [eapply enter_ok|apply leave_ok|eapply begin_ok|apply put_ok|eapply free_ok|apply attach_ok|eapply use_ok_same]; eauto.
Qed.

Lemma fresh_use persistent domain : use_ok (fresh_interface persistent domain, MkUse [] [] []).
Proof. split; cbn; [constructor|intros t tr Ht; now rewrite lookup_nil in Ht|]. intros t Ht. now apply not_elem_of_nil in Ht. Qed.

Lemma use_reachable_ok be st st' : rtc (use_step be) st st' -> use_ok st -> use_ok st'.
Proof. induction 1; eauto using use_step_ok. Qed.

(** C7: between any calls of the core into the driver, attaches and detaches, in any
    interleaving of their sections, the transport that a call is in has not been freed,
    and the one that is attached neither; every transport that has not been freed is
    attached or in the hands of exactly one detach, which may free it as soon as no call
    is in it; and none is freed twice. *)
Theorem transport_lives be persistent domain i u : rtc (use_step be) (fresh_interface persistent domain, MkUse [] [] []) (i, u) ->
  (forall t, t ∈ u.(u_calls) -> exists tr, i.(i_transports) !! t = Some tr /\ tr.(tr_freed) = false /\ 0 < tr.(tr_references)) /\
  (forall t, i.(i_transport) = Some t -> exists tr, i.(i_transports) !! t = Some tr /\ tr.(tr_freed) = false /\ 0 < tr.(tr_references)) /\
  (forall t tr, i.(i_transports) !! t = Some tr -> tr.(tr_freed) = false <-> t ∈ owners i u) /\ NoDup (owners i u) /\
  (forall t last tr, (t, last) ∈ u.(u_waiting) -> i.(i_transports) !! t = Some tr -> t ∉ u.(u_calls) -> last = true \/ tr.(tr_released) = true).
Proof.
  intros H. apply use_reachable_ok in H; [|apply fresh_use]. destruct H as [H1 H2 H3]. cbn [fst snd] in *.
  assert (Hk : forall t, t ∈ u_calls u ++ owners i u -> exists tr, i_transports i !! t = Some tr) by (intros t Ht; apply lookup_lt_is_Some, H3, Ht).
  split; [|split; [|split; [intros t tr Ht; apply (to_owner _ _ _ _ (H2 t tr Ht))|split; [exact H1|]]]].
  - intros t Ht. destruct (Hk t ltac:(apply elem_of_app; now left)) as [tr Htr]. exists tr. destruct (H2 t tr Htr) as [A1 A2 A3 A4 A5].
    assert (Hf : tr_freed tr = false) by (destruct (tr_freed tr); [destruct (A3 eq_refl Ht)|reflexivity]).
    repeat split; [assumption..|]. rewrite (A1 Hf). apply count_in in Ht. pose proof (count_nonneg t (attached_list i ++ u_leaving u)). lia.
  - intros t Ht. assert (Ha : attached_list i = [t]) by (unfold attached_list; now rewrite Ht).
    assert (Ho : t ∈ owners i u) by (unfold owners; rewrite Ha; apply elem_of_cons; now left).
    destruct (Hk t ltac:(apply elem_of_app; now right)) as [tr Htr]. exists tr. destruct (H2 t tr Htr) as [A1 A2 A3 A4 A5].
    repeat split; [assumption|now apply A2|]. rewrite A1 by now apply A2. rewrite Ha. cbn [app]. rewrite count_cons.
    destruct (decide (t = t)); [|contradiction]. pose proof (count_nonneg t (u_calls u)). pose proof (count_nonneg t (u_leaving u)). lia.
  - intros t last tr Hw Htr Hc. destruct (H2 t tr Htr) as [A1 A2 A3 A4 A5]. destruct (A5 last Hw) as [_ B2]. apply B2.
    assert (Ho : t ∈ owners i u) by (unfold owners; rewrite !elem_of_app; right; right; now apply (list_elem_of_fmap_2 fst _ (t, last))).
    rewrite A1 by now apply A2. rewrite count_zero by assumption. rewrite count_zero; [reflexivity|].
    unfold owners in H1. rewrite app_assoc in H1. apply list.NoDup_app in H1 as (_ & Hd & _). intros Hin. apply (Hd t Hin).
    now apply (list_elem_of_fmap_2 fst _ (t, last)).
Qed.

(** C16: whole calls one after the other, from a fresh device: the interface has its
    carrier exactly while the link is ready, it is dormant exactly while the link is
    being configured, the link is ready exactly when there is an identity and the
    transport is ready, which it is only with a usable locator and a transport attached;
    the failure and the error are set exactly in the failed state; there is a key, and a
    generation that is not zero, exactly when there is an identity; and the transmit
    queue runs only with the carrier and the logical queue only while the interface is
    up. *)
Theorem link_state_consistent be msecs_to_jiffies check persistent domain i :
  rtc (link_step be msecs_to_jiffies check) (fresh_interface persistent domain) i ->
  link_rules i.(i_state) i.(i_failure) i.(i_error) i.(i_key) (is_some i.(i_transport)) i.(i_carrier) i.(i_dormant) i.(i_running) (view i).
Proof.
  intros H. change (link_inv i). assert (H0 : link_inv (fresh_interface persistent domain)).
  { constructor; cbn; try reflexivity; try discriminate; try lia. }
  revert H0. induction H as [i|i j k Hs H IH]; [auto|]. intros Hi. apply IH. destruct Hs as [call Ha]. destruct call; cbn [link_exec].
  - now apply open_rules.
  - now apply close_rules.
  - cbn in Ha. apply (driver_rules be msecs_to_jiffies [call] i Hi Ha).
  - now apply configure_rules.
  - now apply attach_rules.
  - now apply detach_rules.
  - now apply identity_rules.
  - now apply moved_rules.
  - now apply xmit_rules.
Qed.

(** ** What a driver answers *)

Lemma put_taken wanted during i j t : (forall k, (during k).(i_transports) = k.(i_transports)) -> take_reference wanted i = Some (j, t) ->
  (put_reference t (during j)).(i_transports) = i.(i_transports).
Proof.
  intros Hd E. assert (Hz : exists tr, i_transports i !! t = Some tr /\ tr_references tr <> 0).
  { revert E. unfold take_reference. destruct (i_transport i) as [x|]; [|discriminate]. destruct (i_transports i !! x) as [tr|] eqn:Ex; [|discriminate].
    destruct (_ || _) eqn:Eb; [discriminate|]. intros [= _ <-]. apply orb_false_iff in Eb as [_ Eb]. apply Z.eqb_neq in Eb. eauto. }
  destruct Hz as (tr & Htr & Hz). apply take_reference_shape in E as [-> _]. apply list_eq. intros x. unfold put_reference, last_reference.
  rewrite reference_lookup, Hd, !reference_lookup. destruct (decide (t = t)); [|contradiction]. rewrite Htr. cbn.
  destruct (decide (x = t)) as [->|]; [|reflexivity]. rewrite Htr. f_equal. destruct tr as [a b c r rel f]. cbn in *.
  destruct (Z.eqb_spec (r + 1) 1); [lia|]. rewrite !orb_false_r. f_equal. lia.
Qed.

(** What the core takes from a driver: an airtime is nothing, when the driver does not
    say, or between one microsecond and the window, with the budgets in order and within
    the window; a frame size is at most that of the protocol; an interface that is down,
    or has no carrier or no transport, transmits nothing; and every reference that was
    taken is given back. *)
Theorem driver_answers_checked during airtime info sent i :
  (forall k, (during k).(i_transports) = k.(i_transports)) ->
  (forall c, airtime = Ok c -> u64 c.(duration_us) /\ u64 c.(budget_us) /\ u64 c.(broadcast_budget_us)) ->
  (match (melodi_core_airtime during airtime i).2 with
   | Ok c => c = zero_charge \/ airtime = Ok c /\ 1 <= c.(duration_us) <= MELODI_AIRTIME_WINDOW_US /\
               1 <= c.(broadcast_budget_us) <= c.(budget_us) /\ c.(budget_us) <= MELODI_AIRTIME_WINDOW_US
   | Err error => error = ENETDOWN \/ error = EPROTO \/ airtime = Err error
   end) /\
  melodi_core_frame_mtu (melodi_core_link_info during info i).2 <= MELODI_FRAME_MTU_MAX /\
  (i.(i_running) && i.(i_carrier) = false \/ i.(i_transport) = None -> melodi_core_xmit during sent i = (i, Err ENETDOWN)) /\
  (melodi_core_airtime during airtime i).1.(i_transports) = i.(i_transports) /\
  (melodi_core_link_info during info i).1.(i_transports) = i.(i_transports) /\
  (melodi_core_xmit during sent i).1.(i_transports) = i.(i_transports).
Proof.
  intros Hd Hu. split; [|split; [|split; [|split; [|split]]]].
  - unfold melodi_core_airtime. destruct (take_reference _ i) as [[j t]|]; [|now left]. cbn [snd]. destruct (negb _); [now left|].
    destruct airtime as [c|error]; [|auto]. destruct (_ || _) eqn:E; [auto|]. right. destruct (Hu c eq_refl) as ([? _] & [? _] & [? _]).
    rewrite !orb_false_iff in E. split; [reflexivity|]. lia.
  - unfold melodi_core_link_info. destruct (take_reference _ i) as [[j t]|]; [|cbn; lia]. cbn [snd].
    match goal with |- context [if ?b then Err EPROTO else _] => destruct b eqn:E end; [cbn; lia|]. apply orb_false_iff in E as [_ E].
    cbn [melodi_core_frame_mtu]. lia.
  - intros H. unfold melodi_core_xmit, take_reference. destruct (i_running i), (i_carrier i); try reflexivity. destruct H as [H|H]; [discriminate|].
    cbn [negb orb]. now rewrite H.
  - unfold melodi_core_airtime. destruct (take_reference _ i) as [[j t]|] eqn:E; [|reflexivity]. now apply (put_taken _ _ _ _ _ Hd E).
  - unfold melodi_core_link_info. destruct (take_reference _ i) as [[j t]|] eqn:E; [|reflexivity]. now apply (put_taken _ _ _ _ _ Hd E).
  - unfold melodi_core_xmit. destruct (_ || _); [reflexivity|]. destruct (take_reference _ i) as [[j t]|] eqn:E; [|reflexivity].
    now apply (put_taken _ _ _ _ _ Hd E).
Qed.

(** ** One device *)

Definition a_check (key : bytes) : Z := 0.
Definition a_env : discovery_env := sample_around 0 0.

(** It gets a transport without [configure], an identity, and its driver is ready. *)
Definition up_calls : list link_call :=
  [LinkOpen 5 a_env; LinkAttach true false true true;
   LinkIdentity [] (Ok tt) (replicate 64 0xcc) 6 a_env (Mapping.sample_node 0x1a) (Some 3) 1 None; LinkDriver (CallReady 7 a_env true 11)].

Definition exec (i : interface) (calls : list link_call) : interface := fold_left (link_exec false id a_check) calls i.

Definition up_interface : interface := Eval vm_compute in exec (fresh_interface true (replicate 32 0)) up_calls.

Definition allowed_now (i : interface) (call : link_call) : bool := match call with LinkDriver _ => is_some i.(i_transport) | _ => true end.

Fixpoint allowed_all (i : interface) (calls : list link_call) : bool :=
  match calls with [] => true | call :: calls => allowed_now i call && allowed_all (link_exec false id a_check i call) calls end.

Lemma exec_reached calls : forall i, allowed_all i calls = true -> rtc (link_step false id a_check) i (exec i calls).
Proof.
  induction calls as [|call calls IH]; intros i H; [apply rtc_refl|]. cbn [allowed_all] in H. apply andb_true_iff in H as [Ha H].
  apply (rtc_l _ _ (link_exec false id a_check i call)); [|exact (IH _ H)]. apply link_by. destruct call; try exact I. cbn in *.
  now destruct (i_transport i).
Qed.

Lemma up_reached : rtc (link_step false id a_check) (fresh_interface true (replicate 32 0)) up_interface.
Proof.
  assert (E : exec (fresh_interface true (replicate 32 0)) up_calls = up_interface) by (vm_compute; reflexivity). rewrite <- E.
  apply exec_reached. vm_compute. reflexivity.
Qed.

Lemma link_state_consistent_witness : rtc (link_step false id a_check) (fresh_interface true (replicate 32 0)) up_interface /\
  up_interface.(i_carrier) = true /\ (view up_interface).1.1.(l_local_link_locator) = 11 /\ (view up_interface).1.1.(l_identity_ready) = true.
Proof.
  split; [exact up_reached|]. split; [vm_compute; reflexivity|]. split; [vm_compute; reflexivity|].
  pose proof (link_state_consistent false id a_check true (replicate 32 0) up_interface up_reached) as H.
  rewrite <- (lr_key _ _ _ _ _ _ _ _ _ H). vm_compute. reflexivity.
Defined.

(** A call is in the driver while a detach waits for it. *)
Definition life_1 : interface := Eval vm_compute in (melodi_link_attach true false true true (fresh_interface true (replicate 32 0))).1.
Definition life_2 : interface := Eval vm_compute in reference 1 false false 0 life_1.
Definition life_3 : interface := Eval vm_compute in (detach_begin false life_2).1.
Definition life_4 : interface := Eval vm_compute in detach_put 0 life_3.

Lemma life_reached : rtc (use_step false) (fresh_interface true (replicate 32 0), MkUse [] [] []) (life_4, MkUse [0%nat] [] [(0%nat, false)]).
Proof.
  apply (rtc_l _ _ (life_1, MkUse [] [] [])).
  { replace life_1 with (melodi_link_attach true false true true (fresh_interface true (replicate 32 0))).1 by (vm_compute; reflexivity). apply use_attach. }
  apply (rtc_l _ _ (life_2, MkUse [0%nat] [] [])).
  { apply (use_enter false (fun _ => true) life_1 life_2 0 (MkUse [] [] [])). vm_compute. reflexivity. }
  apply (rtc_l _ _ (life_3, MkUse [0%nat] [0%nat] [])).
  { apply (use_begin false life_2 life_3 0 (MkUse [0%nat] [] [])). vm_compute. reflexivity. }
  apply (rtc_l _ _ (life_4, MkUse [0%nat] [] [(0%nat, false)])); [|apply rtc_refl].
  replace life_4 with (detach_put 0 life_3) by (vm_compute; reflexivity).
  replace false with (last_reference 0 life_3) at 2 by (vm_compute; reflexivity).
  apply (use_put false life_3 0 [0%nat] [] [] []).
Qed.

Lemma transport_lives_witness : rtc (use_step false) (fresh_interface true (replicate 32 0), MkUse [] [] []) (life_4, MkUse [0%nat] [] [(0%nat, false)]) /\
  exists tr, life_4.(i_transports) !! 0%nat = Some tr /\ tr.(tr_freed) = false /\ 0 < tr.(tr_references).
Proof.
  split; [exact life_reached|].
  destruct (transport_lives false true (replicate 32 0) life_4 (MkUse [0%nat] [] [(0%nat, false)]) life_reached) as [H _].
  apply H. apply elem_of_cons. now left.
Defined.

Lemma driver_answers_checked_witness :
  (melodi_core_airtime id (Ok (MkCharge 250000 36000000 3600000)) up_interface).2 = Ok (MkCharge 250000 36000000 3600000) /\
  (melodi_core_airtime id (Ok (MkCharge 250000 36000000 3600000)) up_interface).1.(i_transports) = up_interface.(i_transports) /\
  melodi_core_frame_mtu (melodi_core_link_info id (fun l => l) up_interface).2 <= MELODI_FRAME_MTU_MAX.
Proof.
  destruct (driver_answers_checked id (Ok (MkCharge 250000 36000000 3600000)) (fun l => l) (Ok tt) up_interface) as (_ & H2 & _ & H4 & _).
  - intros k. reflexivity.
  - intros c Hc. apply Ok_inj in Hc. subst c. cbn. repeat split; lia.
  - split; [vm_compute; reflexivity|]. split; [exact H4|exact H2].
Defined.

(** ** A failure while an identity is loaded

    [melodi_link_failed] takes the carrier away before its section, and
    [melodi_device_set_identity] gives it back in its own, when the transport is still
    ready: the link has failed and the interface has a carrier. *)
Lemma failure_can_leave_carrier :
  let load i := (melodi_device_set_identity false id a_check id (driver_run false id [] (Ok tt)) (replicate 64 0xcc) 8 a_env (Mapping.sample_node 0x1a)
                   (Some 3) 2 None i).1 in
  let i := melodi_link_failed false load MELODI_LINK_FAILURE_TRANSPORT (Some EIO) up_interface in
  i.(i_state) = MELODI_LINK_FAILED /\ (view i).1.1.(l_transport_ready) = false /\ i.(i_carrier) = true.
Proof. vm_compute. easy. Qed.
