(* ===== verification/Attach.v ===== *)
(** * Attaching radios (src/kernel/core/main.c)

    The list of devices, the radio that an interface is pinned to, and where a radio that
    comes goes: to the interface that is pinned to its serial, or to a free one, which it
    is then pinned to.  Devices are numbered in the order of their registration; a serial
    is the bytes of the string in front of its end.  Two sections that are not under one
    lock have what everybody else does in between as an argument. *)
From S2P Require Import Prelude Buffer Uapi Slots Device Queue Send Discovery Outstanding Logical Link.

(** The operations that a driver has besides [xmit]. *)
Record melodi_link_ops := MkOps { op_configure : bool; op_get_info : bool; op_airtime : bool }.

Definition attach (ops : melodi_link_ops) (i : interface) : interface :=
  (melodi_link_attach true ops.(op_configure) ops.(op_get_info) ops.(op_airtime) i).1.

Definition has_transport (i : interface) : bool := match i.(i_transport) with Some _ => true | None => false end.

(** An update of one device. *)
Definition at_device (dev : nat) (f : interface -> interface) (devices : list interface) : list interface := alter f dev devices.

Definition melodi_radio_serial_valid (radio_serial : bytes) : bool :=
  negb (zlen radio_serial =? 0) && (zlen radio_serial <=? MELODI_RADIO_SERIAL_MAX) &&
  forallb (fun c => negb ((c <? 0x21) || (0x7e <? c) || (c =? 44))) radio_serial.

Definition same_serial (radio_serial : bytes) (i : interface) : bool := bool_decide (i.(i_serial) = radio_serial).

(** The devices but one, as the loop of [melodi_set_transport_selector] meets them. *)
Definition others (dev : nat) (devices : list interface) : list interface := take dev devices ++ drop (S dev) devices.

Definition melodi_set_transport_selector (dev : nat) (radio_serial : bytes) (devices : list interface) : list interface * result unit :=
  if negb (melodi_radio_serial_valid radio_serial) then (devices, Err EINVAL) else
  if existsb (same_serial radio_serial) (others dev devices) then (devices, Err EEXIST) else
  match devices !! dev with
  | None => (devices, Err EINVAL)
  | Some i =>
      if has_transport i && negb (same_serial radio_serial i) then (devices, Err EBUSY)
      else (at_device dev (set_i_serial radio_serial) devices, Ok tt)
  end.

(** [melodi_alloc_device]; [created] is whether the memory and the registration succeed. *)
Definition melodi_alloc_device (created : result unit) (persistent : bool) (domain : bytes) (devices : list interface)
    : list interface * result nat :=
  match created with
  | Err error => (devices, Err error)
  | Ok _ => (devices ++ [fresh_interface persistent domain], Ok (length devices))
  end.

(** The loop of [melodi_attach_transport]: a turn for each of [gaps], the time between the
    registration of a new device and the look at it. *)
Fixpoint attach_loop (ops : melodi_link_ops) (created : result unit) (domain : bytes) (gaps : list (list interface -> list interface))
    (devices : list interface) : list interface * option (result nat) :=
  match gaps with
  | [] => (devices, None)
  | gap :: gaps =>
      match find_index (fun i => negb (has_transport i) && bool_decide (i.(i_serial) = [])) devices with
      | Some dev => (at_device dev (attach ops) devices, Some (Ok dev))
      | None =>
          match melodi_alloc_device created false domain devices with
          | (devices, Err error) => (devices, Some (Err error))
          | (devices, Ok dev) =>
              let devices := gap devices in
              match devices !! dev with
              | Some i => if has_transport i then attach_loop ops created domain gaps devices
                          else (at_device dev (attach ops) devices, Some (Ok dev))
              | None => (devices, None)
              end
          end
      end
  end.

Definition melodi_attach_transport (memory : bool) (ops : melodi_link_ops) (created : result unit) (domain : bytes)
    (gaps : list (list interface -> list interface)) (devices : list interface) : list interface * option (result nat) :=
  if negb memory then (devices, Some (Err ENOMEM)) else attach_loop ops created domain gaps devices.

Definition melodi_attach_selected_transport (memory : bool) (radio_serial : bytes) (ops : melodi_link_ops) (devices : list interface)
    : list interface * result nat :=
  if negb (melodi_radio_serial_valid radio_serial) then (devices, Err EINVAL) else
  if negb memory then (devices, Err ENOMEM) else
  match find_index (same_serial radio_serial) devices with
  | None => (devices, Err ENODEV)
  | Some dev =>
      if match devices !! dev with Some i => has_transport i | None => false end then (devices, Err EBUSY)
      else (at_device dev (attach ops) devices, Ok dev)
  end.

(** [selected] is what happens between the two searches, [attached] between the second and
    the section that pins the interface. *)
Definition melodi_attach_radio_transport (memory : bool) (radio_serial : bytes) (ops : melodi_link_ops) (created : result unit) (domain : bytes)
    (gaps : list (list interface -> list interface)) (selected attached : list interface -> list interface) (devices : list interface)
    : list interface * option (result nat) :=
  match melodi_attach_selected_transport memory radio_serial ops devices with
  | (devices, Ok dev) => (devices, Some (Ok dev))
  | (devices, Err ENODEV) =>
      if negb (melodi_radio_serial_valid radio_serial) then (devices, Some (Err EINVAL)) else
      match melodi_attach_transport memory ops created domain gaps (selected devices) with
      | (devices, Some (Ok dev)) => (at_device dev (set_i_serial radio_serial) (attached devices), Some (Ok dev))
      | r => r
      end
  | (devices, Err error) => (devices, Some (Err error))
  end.

(** [melodi_core_init]: the interfaces of the module's parameters, each pinned to its radio
    if there is one for it; the devices at the end, those of a failed start unregistered. *)
Fixpoint init_loop (created : nat -> result unit) (domain : bytes) (radio_serials : list bytes) (index count : nat) (devices : list interface)
    : list interface * result unit :=
  match count with
  | O => (devices, Ok tt)
  | S count =>
      match melodi_alloc_device (created index) true domain devices with
      | (_, Err error) => ([], Err error)
      | (devices, Ok dev) =>
          match radio_serials !! index with
          | None => init_loop created domain radio_serials (S index) count devices
          | Some radio_serial =>
              match melodi_set_transport_selector dev radio_serial devices with
              | (_, Err error) => ([], Err error)
              | (devices, Ok _) => init_loop created domain radio_serials (S index) count devices
              end
          end
      end
  end.

Definition melodi_core_init (registered : result unit) (created : nat -> result unit) (domain : bytes) (interface_count : Z)
    (radio_serials : list bytes) : list interface * result unit :=
  if (interface_count =? 0) || (8 <? interface_count) || (8 <? zlen radio_serials) then ([], Err EINVAL) else
  let interface_count := Z.max interface_count (zlen radio_serials) in
  match registered with
  | Err error => ([], Err error)
  | Ok _ => init_loop created domain radio_serials 0 (Z.to_nat interface_count) []
  end.

(** ** One interface for a radio *)

(** No two devices are pinned to one radio. *)
Definition unique (devices : list interface) : Prop :=
  forall a b i j, devices !! a = Some i -> devices !! b = Some j -> i.(i_serial) = j.(i_serial) -> i.(i_serial) <> [] -> a = b.

Lemma serial_kept ops i : (attach ops i).(i_serial) = i.(i_serial).
Proof. unfold attach, melodi_link_attach. cbn [negb]. now destruct (i_transport i). Qed.

Lemma attach_attaches ops i : has_transport (attach ops i) = true.
Proof. unfold attach, melodi_link_attach, has_transport. cbn [negb]. destruct (i_transport i) eqn:E; cbn; [now rewrite E|reflexivity]. Qed.

Lemma unique_keep dev f devices : (forall i, (f i).(i_serial) = i.(i_serial)) -> unique devices -> unique (at_device dev f devices).
Proof.
  intros Hf H a b i j Ha Hb He Hne. unfold at_device in *. rewrite list_lookup_alter in Ha, Hb.
  assert (Hs : forall x y, (if decide (dev = x) then f <$> devices !! dev else devices !! x) = Some y ->
    exists z, devices !! x = Some z /\ z.(i_serial) = y.(i_serial)).
  { intros x y Hx. destruct (decide (dev = x)) as [->|]; [|eauto]. apply fmap_Some in Hx as (z & Hz & ->). exists z. now rewrite Hf. }
  destruct (Hs a i Ha) as (i0 & Ha' & Ei), (Hs b j Hb) as (j0 & Hb' & Ej). apply (H a b i0 j0); congruence.
Qed.

Lemma unique_pin dev serial devices : unique devices -> (forall d i, d <> dev -> devices !! d = Some i -> i.(i_serial) <> serial) ->
  unique (at_device dev (set_i_serial serial) devices).
Proof.
  intros H Ho a b i j Ha Hb He Hne. unfold at_device in *. rewrite list_lookup_alter in Ha, Hb.
  destruct (decide (dev = a)) as [<-|Na], (decide (dev = b)) as [<-|Nb].
  - reflexivity.
  - apply fmap_Some in Ha as (z & _ & ->). cbn in He, Hne. destruct (Ho b j); [congruence|assumption|congruence].
  - apply fmap_Some in Hb as (z & _ & ->). cbn in He, Hne. destruct (Ho a i); [congruence|assumption|congruence].
  - now apply (H a b i j).
Qed.

Lemma unique_new persistent domain devices : unique devices -> unique (devices ++ [fresh_interface persistent domain]).
Proof.
  intros H a b i j Ha Hb He Hne.
  assert (Hs : forall x y, (devices ++ [fresh_interface persistent domain]) !! x = Some y -> y.(i_serial) <> [] -> devices !! x = Some y).
  { intros x y Hx Hy. apply lookup_app_Some in Hx as [Hx|[_ Hx]]; [assumption|]. apply list_lookup_singleton_Some in Hx as [_ <-]. now destruct Hy. }
  apply (H a b i j); auto. apply Hs; [assumption|congruence].
Qed.

Lemma unique_delete dev devices : unique devices -> unique (delete dev devices).
Proof.
  intros H a b i j Ha Hb He Hne. rewrite list_lookup_delete in Ha, Hb.
  destruct (decide (a < dev)%nat), (decide (b < dev)%nat); pose proof (H _ _ _ _ Ha Hb He Hne); lia.
Qed.

Lemma others_lookup dev devices d i : d <> dev -> devices !! d = Some i -> i ∈ others dev devices.
Proof.
  intros Hd Hi. unfold others. apply elem_of_app. destruct (decide (d < dev)%nat) as [Hlt|Hge].
  - left. apply (list_elem_of_lookup_2 _ d). now rewrite lookup_take_lt.
  - right. apply (list_elem_of_lookup_2 _ (d - S dev)). rewrite lookup_drop. now replace (S dev + (d - S dev))%nat with d by lia.
Qed.

Lemma select_unique dev serial devices : unique devices -> unique (melodi_set_transport_selector dev serial devices).1.
Proof.
  intros H. unfold melodi_set_transport_selector. destruct (negb _); [exact H|]. destruct (existsb _ _) eqn:E; [exact H|].
  destruct (devices !! dev) as [i|]; [|exact H]. destruct (_ && _); [exact H|]. apply unique_pin; [exact H|].
  intros d j Hd Hj Hs. assert (existsb (same_serial serial) (others dev devices) = true) as Ht; [|congruence].
  apply existsb_exists. exists j. split; [apply list_elem_of_In; now apply (others_lookup _ _ d)|]. now apply bool_decide_eq_true.
Qed.

Lemma attach_lookup ops dev devices i : devices !! dev = Some i -> at_device dev (attach ops) devices !! dev = Some (attach ops i).
Proof. intros H. unfold at_device. now rewrite list_lookup_alter_eq, H. Qed.

Lemma at_device_other dev f devices d : d <> dev -> at_device dev f devices !! d = devices !! d.
Proof. intros H. unfold at_device. now rewrite list_lookup_alter_ne. Qed.

(** A free interface, or a new one, when nobody interferes. *)
Lemma attach_transport_exact ops created domain gaps devices : let id := fun x : list interface => x in
  match melodi_attach_transport true ops created domain (id :: gaps) devices with
  | (devices', Some (Ok dev)) =>
      exists i, at_device dev (attach ops) (if bool_decide (dev < length devices)%nat then devices else devices ++ [fresh_interface false domain]) = devices' /\
        (if bool_decide (dev < length devices)%nat then devices else devices ++ [fresh_interface false domain]) !! dev = Some i /\
        (dev <= length devices)%nat /\ i.(i_serial) = [] /\ has_transport i = false
  | (devices', Some (Err error)) => devices' = devices /\ created = Err error
  | (_, None) => False
  end.
Proof.
  cbv zeta. unfold melodi_attach_transport. cbn [negb attach_loop]. destruct (find_index _ devices) as [dev|] eqn:E.
  - apply find_index_Some in E as (i & Hi & Hc & _). apply andb_true_iff in Hc as [H1 H2]. apply bool_decide_eq_true in H2.
    pose proof (lookup_lt_Some _ _ _ Hi) as Hl. rewrite bool_decide_eq_true_2 by assumption. exists i.
    split; [reflexivity|]. split; [assumption|]. split; [lia|]. split; [assumption|]. now destruct (has_transport i).
  - unfold melodi_alloc_device. destruct created as [[]|error]; [|now split].
    assert (El : (devices ++ [fresh_interface false domain]) !! length devices = Some (fresh_interface false domain))
      by (rewrite lookup_app_r by lia; now rewrite Nat.sub_diag).
    rewrite El. cbn [has_transport fresh_interface i_transport]. rewrite bool_decide_eq_false_2 by lia. eexists.
    split; [reflexivity|]. split; [exact El|]. now split.
Qed.

(** Where a radio goes when nobody interferes. *)
Lemma radio_attach_exact serial ops created domain gaps devices : unique devices -> melodi_radio_serial_valid serial = true ->
  let id := fun x : list interface => x in
  match melodi_attach_radio_transport true serial ops created domain (id :: gaps) id id devices with
  | (devices', Some (Ok dev)) =>
      unique devices' /\ (forall d, d <> dev -> (d < length devices)%nat -> devices' !! d = devices !! d) /\
      (exists i, devices' !! dev = Some i /\ i.(i_serial) = serial /\ has_transport i = true) /\
      (forall i, devices !! dev = Some i -> has_transport i = false /\ (i.(i_serial) = serial \/ i.(i_serial) = [])) /\
      (forall d i, devices !! d = Some i -> i.(i_serial) = serial -> d = dev)
  | (devices', Some (Err error)) =>
      devices' = devices /\
      (error = EBUSY /\ (exists d i, devices !! d = Some i /\ i.(i_serial) = serial /\ has_transport i = true) \/ created = Err error)
  | (_, None) => False
  end.
Proof.
  intros Hu Hv. cbv zeta. unfold melodi_attach_radio_transport, melodi_attach_selected_transport. rewrite Hv. cbn [negb].
  destruct (find_index (same_serial serial) devices) as [dev|] eqn:E.
  - apply find_index_Some in E as (i & Hi & Hs & _). apply bool_decide_eq_true in Hs. rewrite Hi.
    assert (Hne : i_serial i <> []) by (rewrite Hs; intros ->; discriminate). destruct (has_transport i) eqn:Ht.
    + split; [reflexivity|]. left. split; [reflexivity|]. now exists dev, i.
    + split; [apply unique_keep; [apply serial_kept|assumption]|]. split; [intros d Hd _; now apply at_device_other|].
      split; [exists (attach ops i); rewrite (attach_lookup _ _ _ _ Hi), serial_kept, attach_attaches; now split|].
      split; [intros j Hj; replace j with i by congruence; auto|]. intros d j Hd Hj. apply (Hu d dev j i); congruence.
  - rewrite find_index_None in E. assert (Hn : forall d j, devices !! d = Some j -> i_serial j <> serial).
    { intros d j Hd Hs. specialize (E j ltac:(apply list_elem_of_In; now apply (list_elem_of_lookup_2 _ d))). apply bool_decide_eq_false in E. contradiction. }
    pose proof (attach_transport_exact ops created domain gaps devices) as H. cbv zeta in H.
    destruct (melodi_attach_transport _ _ _ _ _ devices) as [devices' [[dev|error]|]]; [|destruct H as [-> H]; split; [reflexivity|now right]|exact H].
    destruct H as (i & <- & Hi & Hle & Hs & Ht). set (base := if bool_decide _ then _ else _) in *.
    assert (Hb : unique base /\ (forall d j, base !! d = Some j -> i_serial j <> serial) /\ (forall d, (d < length devices)%nat -> base !! d = devices !! d)).
    { unfold base. destruct (bool_decide _); [auto|]. split; [now apply unique_new|]. split; [|intros d Hd; now apply lookup_app_l].
      intros d j Hd. apply lookup_app_Some in Hd as [Hd|[_ Hd]]; [now apply Hn in Hd|]. apply list_lookup_singleton_Some in Hd as [_ <-].
      intros E'. rewrite <- E' in Hv. discriminate. }
    destruct Hb as (B1 & B2 & B3). clearbody base.
    split; [|split; [|split; [|split]]].
    + apply unique_pin; [apply unique_keep; [apply serial_kept|assumption]|]. intros d j Hd Hj. rewrite at_device_other in Hj by assumption. now apply B2 in Hj.
    + intros d Hd Hl. rewrite !at_device_other by assumption. now apply B3.
    + exists (set_i_serial serial (attach ops i)). unfold at_device at 1. rewrite list_lookup_alter_eq, (attach_lookup _ _ _ _ Hi).
      split; [reflexivity|]. split; [reflexivity|]. exact (attach_attaches ops i).
    + intros j Hj. pose proof (lookup_lt_Some _ _ _ Hj). rewrite B3 in Hi by assumption. replace j with i by congruence. auto.
    + intros d j Hd Hj. now apply Hn in Hd.
Qed.

(** ** Runs *)

Inductive attach_event :=
| EvSelect (dev : nat) (radio_serial : bytes)
| EvRadio (memory : bool) (radio_serial : bytes) (ops : melodi_link_ops) (created : result unit) (domain : bytes)
| EvAttach (memory : bool) (ops : melodi_link_ops) (created : result unit) (domain : bytes)
| EvSelected (memory : bool) (radio_serial : bytes) (ops : melodi_link_ops)
| EvChange (dev : nat) (f : interface -> interface)
| EvUnregister (dev : nat).

Definition attach_step (devices : list interface) (event : attach_event) : list interface :=
  let id := fun x : list interface => x in
  match event with
  | EvSelect dev radio_serial => (melodi_set_transport_selector dev radio_serial devices).1
  | EvRadio memory radio_serial ops created domain =>
      (melodi_attach_radio_transport memory radio_serial ops created domain [id] id id devices).1
  | EvAttach memory ops created domain => (melodi_attach_transport memory ops created domain [id] devices).1
  | EvSelected memory radio_serial ops => (melodi_attach_selected_transport memory radio_serial ops devices).1
  | EvChange dev f => at_device dev f devices
  | EvUnregister dev => delete dev devices
  end.

(** What else happens to a device leaves the radio that it is pinned to. *)
Definition keeps_serial (event : attach_event) : Prop :=
  match event with EvChange _ f => forall i, (f i).(i_serial) = i.(i_serial) | _ => True end.

Lemma radio_step_unique memory serial ops created domain devices : unique devices ->
  unique (attach_step devices (EvRadio memory serial ops created domain)).
Proof.
  intros H. cbn [attach_step]. destruct (melodi_radio_serial_valid serial) eqn:Ev.
  - destruct memory.
    + pose proof (radio_attach_exact serial ops created domain [] devices H Ev) as Hx. cbv zeta in Hx.
      destruct (melodi_attach_radio_transport _ _ _ _ _ _ _ _ _) as [devices' [[dev|error]|]]; [apply Hx|destruct Hx as [-> _]; exact H|destruct Hx].
    + unfold melodi_attach_radio_transport, melodi_attach_selected_transport. rewrite Ev. exact H.
  - unfold melodi_attach_radio_transport, melodi_attach_selected_transport. rewrite Ev. exact H.
Qed.

Lemma attach_step_unique devices event : keeps_serial event -> unique devices -> unique (attach_step devices event).
Proof.
  intros Hk H. destruct event as [dev serial|memory serial ops created domain|memory ops created domain|memory serial ops|dev f|dev].
  - now apply select_unique.
  - now apply radio_step_unique.
  - cbn [attach_step]. destruct memory; [|exact H].
    pose proof (attach_transport_exact ops created domain [] devices) as Hx. cbv zeta in Hx.
    destruct (melodi_attach_transport _ _ _ _ _ _) as [devices' [[dev|error]|]]; [|destruct Hx as [-> _]; exact H|destruct Hx].
    destruct Hx as (i & <- & _). apply unique_keep; [apply serial_kept|]. destruct (bool_decide _); [exact H|now apply unique_new].
  - cbn [attach_step]. unfold melodi_attach_selected_transport. destruct (negb _); [exact H|]. destruct memory; [cbn [negb]|exact H].
    destruct (find_index _ devices) as [dev|]; [|exact H]. destruct (match _ with Some _ => _ | None => _ end); [exact H|].
    apply unique_keep; [apply serial_kept|exact H].
  - now apply unique_keep.
  - now apply unique_delete.
Qed.

Lemma init_unique created domain serials count : forall index devices, unique devices ->
  unique (init_loop created domain serials index count devices).1.
Proof.
  induction count as [|count IH]; intros index devices H; [exact H|]. cbn [init_loop]. unfold melodi_alloc_device.
  assert (H0 : unique []) by (intros a b i j Ha; now rewrite lookup_nil in Ha).
  destruct (created index); [|exact H0]. pose proof (unique_new true domain devices H) as Hn. destruct (serials !! index) as [serial|]; [|now apply IH].
  pose proof (select_unique (length devices) serial _ Hn) as Hs.
  destruct (melodi_set_transport_selector _ _ _) as [devices' [[]|error]]; [|exact H0]. now apply IH.
Qed.

(** C18: from the start of the module, after any sequence of pinned and unpinned interfaces,
    radios that come and devices that go: no two interfaces are pinned to one radio; and
    a radio with a valid serial that comes then is given the interface that is pinned to
    it, which refuses it only when it has a transport (and then nothing changes), or else
    a free interface or a new one, which it is then pinned to.  Whichever it is, it has
    the transport and the serial, and no other interface changes. *)
Theorem radio_finds_interface registered made first_domain count serials events serial ops created domain gaps : Forall keeps_serial events ->
  melodi_radio_serial_valid serial = true ->
  let devices := fold_left attach_step events (melodi_core_init registered made first_domain count serials).1 in
  let id := fun x : list interface => x in
  unique devices /\
  match melodi_attach_radio_transport true serial ops created domain (id :: gaps) id id devices with
  | (devices', Some (Ok dev)) =>
      unique devices' /\ (forall d, d <> dev -> (d < length devices)%nat -> devices' !! d = devices !! d) /\
      (exists i, devices' !! dev = Some i /\ i.(i_serial) = serial /\ has_transport i = true) /\
      (forall i, devices !! dev = Some i -> has_transport i = false /\ (i.(i_serial) = serial \/ i.(i_serial) = [])) /\
      (forall d i, devices !! d = Some i -> i.(i_serial) = serial -> d = dev)
  | (devices', Some (Err error)) =>
      devices' = devices /\
      (error = EBUSY /\ (exists d i, devices !! d = Some i /\ i.(i_serial) = serial /\ has_transport i = true) \/ created = Err error)
  | (_, None) => False
  end.
Proof.
  intros Hk Hv. cbv zeta.
  assert (H0 : unique (melodi_core_init registered made first_domain count serials).1).
  { assert (Hn : unique []) by (intros a b i j Ha; now rewrite lookup_nil in Ha).
    unfold melodi_core_init. destruct (_ || _); [exact Hn|]. destruct registered; [now apply init_unique|exact Hn]. }
  assert (Hu : unique (fold_left attach_step events (melodi_core_init registered made first_domain count serials).1)).
  { revert H0. generalize (melodi_core_init registered made first_domain count serials).1. induction Hk as [|e l He Hl IH]; intros devices H; [exact H|].
    cbn [fold_left]. now apply IH, attach_step_unique. }
  split; [exact Hu|]. now apply radio_attach_exact.
Qed.

(** ** At concrete devices *)

Definition serial_of (n : Z) : bytes := [0x41; 0x30 + n].
Definition plain_ops : melodi_link_ops := MkOps true true true.

(** Two interfaces, the second of them for the radio A1; the radio A2 took the first. *)
Definition two_devices : list interface := Eval vm_compute in
  fold_left attach_step [EvSelect 1 (serial_of 1); EvRadio true (serial_of 2) plain_ops (Ok tt) (replicate 32 0)]
    (melodi_core_init (Ok tt) (fun _ => Ok tt) (replicate 32 0) 2 []).1.

Lemma radio_finds_interface_witness :
  (melodi_attach_radio_transport true (serial_of 1) plain_ops (Ok tt) (replicate 32 0) [fun x => x] (fun x => x) (fun x => x) two_devices).2 = Some (Ok 1%nat) /\
  unique two_devices.
Proof.
  split; [vm_compute; reflexivity|].
  assert (E : fold_left attach_step [EvSelect 1 (serial_of 1); EvRadio true (serial_of 2) plain_ops (Ok tt) (replicate 32 0)]
    (melodi_core_init (Ok tt) (fun _ => Ok tt) (replicate 32 0) 2 []).1 = two_devices) by (vm_compute; reflexivity).
  rewrite <- E.
  apply (radio_finds_interface (Ok tt) (fun _ => Ok tt) (replicate 32 0) 2 []
    [EvSelect 1 (serial_of 1); EvRadio true (serial_of 2) plain_ops (Ok tt) (replicate 32 0)] (serial_of 1) plain_ops (Ok tt) (replicate 32 0) []).
  - repeat constructor.
  - vm_compute. reflexivity.
Defined.

(** ** Two interfaces for one radio

    The administrator pins another interface to the radio while it is attached, between
    its transport and its serial: both interfaces are pinned to it. *)
Lemma radio_pinned_twice :
  let select devices := (melodi_set_transport_selector 1 (serial_of 3) devices).1 in
  let start := (melodi_core_init (Ok tt) (fun _ => Ok tt) (replicate 32 0) 2 []).1 in
  let result := melodi_attach_radio_transport true (serial_of 3) plain_ops (Ok tt) (replicate 32 0) [fun x => x] (fun x => x) select start in
  result.2 = Some (Ok 0%nat) /\ map i_serial result.1 = [serial_of 3; serial_of 3].
Proof. split; vm_compute; reflexivity. Qed.
