(* ===== verification/Input.v ===== *)
(** * Frames in (src/kernel/core/main.c)

    [melodi_rx_frame] is where a driver hands over what it received: the frame is looked
    at, whether it was sent to this node, copied to the monitors, given to the part of
    the core that its class belongs to, and counted.  [melodi_stats_read] collects the
    counters of all parts. *)
From S2P Require Import Prelude Buffer Uapi Wire Replay Slots Device Fragments Peers Identity Policy Queue Send Receive Secure Discovery Nodes Freshness Outstanding Logical Link Bindings.

(** The counters of received frames. *)
Record rx_counters := MkRxCounters {
  rx_packets : Z;
  rx_bytes : Z;
  rx_dropped : Z;
  rx_auth_failures : Z;
  rx_replay_drops : Z;
}.

Definition count_dropped (k : rx_counters) : rx_counters :=
  MkRxCounters k.(rx_packets) k.(rx_bytes) (k.(rx_dropped) + 1) k.(rx_auth_failures) k.(rx_replay_drops).
Definition count_received (length : Z) (k : rx_counters) : rx_counters :=
  MkRxCounters (k.(rx_packets) + 1) (k.(rx_bytes) + length) k.(rx_dropped) k.(rx_auth_failures) k.(rx_replay_drops).
Definition count_refused (error : errno) (k : rx_counters) : rx_counters :=
  match error with
  | EKEYREJECTED => MkRxCounters k.(rx_packets) k.(rx_bytes) k.(rx_dropped) (k.(rx_auth_failures) + 1) k.(rx_replay_drops)
  | EALREADY => MkRxCounters k.(rx_packets) k.(rx_bytes) k.(rx_dropped) k.(rx_auth_failures) (k.(rx_replay_drops) + 1)
  | _ => k
  end.

(** What the parts find around them. *)
Record input_env := MkInputEnv {
  ie_discovery : discovery_env;
  ie_discovery_gaps : discovery_gaps;
  ie_receive : receive_env;
  ie_receive_gaps : receive_gaps;
  ie_between : core -> core;
  ie_now_ms : Z;
  ie_now_ns : Z;
}.

(** The condition of the section on the lock. *)
Definition addressed (link : link_state) (header : melodi_wire_common) (meta : melodi_rx_meta) : bool :=
  negb (negb link.(l_transport_ready) || (meta.(rm_source_locator) =? 0) || (meta.(rm_source_locator) =? MELODI_LINK_LOCATOR_BROADCAST) ||
        (if header.(destination_native_locator) =? MELODI_NATIVE_LOCATOR_BROADCAST
         then negb (meta.(rm_destination_locator) =? MELODI_LINK_LOCATOR_BROADCAST)
         else negb (meta.(rm_destination_locator) =? link.(l_local_link_locator)))).

Definition discovery_class (class : Z) : bool :=
  (class =? MELODI_WIRE_HELLO) || (class =? MELODI_WIRE_CHALLENGE) || (class =? MELODI_WIRE_RESPONSE) ||
  (class =? MELODI_WIRE_CONFLICT) || (class =? MELODI_WIRE_CONTROL).

Section Input.
  Context {A : Aead} {Sg : Signer} {C : Curve} {H : KeyedHash} (msecs_to_jiffies : Z -> Z).
  Context (crypto_ed25519_check : bytes -> bytes -> bytes -> bool) (crypto_eddsa_public_key_check : bytes -> Z).

(** The part of the core that a class belongs to, with the messages it hands over. *)
Definition rx_dispatch (e : input_env) (class : Z) (n : node) (frame : bytes) (meta : melodi_rx_meta) : node * list delivery * result unit :=
  if discovery_class class then
    let '(n, r) := melodi_discovery_receive msecs_to_jiffies crypto_ed25519_check e.(ie_discovery) e.(ie_discovery_gaps) n frame meta in
    (n, [], r)
  else if class =? MELODI_WIRE_DATA then
    let '(s, deliveries, r) := melodi_data_receive msecs_to_jiffies crypto_ed25519_check crypto_eddsa_public_key_check e.(ie_receive)
                                 e.(ie_receive_gaps) n.(n_core) frame meta in
    (with_core s n, deliveries, r)
  else if class =? MELODI_WIRE_ACK then
    let '(s, r) := melodi_data_receive_ack msecs_to_jiffies e.(ie_between) e.(ie_now_ms) e.(ie_now_ns) n.(n_core) frame meta in
    (with_core s n, [], r)
  else (n, [], Err EOPNOTSUPP).

(** The frame for the monitors, the messages for their sockets, and the answer. *)
Definition melodi_rx_frame (e : input_env) (n : node) (k : rx_counters) (frame : bytes) (meta : melodi_rx_meta)
    : node * rx_counters * option bytes * list delivery * result unit :=
  if (zlen frame =? 0) || (MELODI_FRAME_MTU_MAX <? zlen frame) then (n, k, None, [], Err EINVAL) else
  match melodi_wire_decode_common frame with
  | Err error => (n, k, None, [], Err error)
  | Ok header =>
      if negb (addressed (nlink n) header meta) then (n, count_dropped k, None, [], Err EHOSTUNREACH) else
      let '(n, deliveries, r) := rx_dispatch e header.(frame_class) n frame meta in
      match r with
      | Err error => (n, count_refused error k, Some frame, deliveries, Err error)
      | Ok _ => (n, count_received (zlen frame) k, Some frame, deliveries, Ok tt)
      end
  end.
End Input.

(** ** Statistics *)

(** The counters that are not in the state of another part. *)
Record other_counters := MkOtherCounters {
  oc_rx_errors : Z;
  oc_tx_errors : Z;
  oc_app_delivery_drops : Z;
  oc_monitor_drops : Z;
}.

Definition count_if {T} (P : T -> bool) (l : list T) : Z := fold_left (fun count x => count + (if P x then 1 else 0)) l 0.

(** The values in the order of their numbers, from 1. *)
Definition melodi_stats_read (k : rx_counters) (o : other_counters) (i : interface) : list Z :=
  let melodi := (icore i).(c_dev) in
  let t := melodi.(d_tx) in
  let '(queue_frames, queue_bytes, airtime_us, broadcast_airtime_us) := melodi_queue_stats t in
  [k.(rx_packets); k.(rx_bytes); o.(oc_rx_errors); k.(rx_dropped); t.(t_packets); t.(t_bytes); o.(oc_tx_errors);
   t.(t_dropped) + i.(i_station).(st_logical).(lg_dropped); queue_frames; queue_bytes; count_if p_session_ready melodi.(d_peers);
   count_if re_active melodi.(d_receive).(r_reassemblies); count_if pm_allocated melodi.(d_pending);
   melodi.(d_data).(a_discovery_count); k.(rx_auth_failures); k.(rx_replay_drops); melodi.(d_data).(a_broadcast_tx);
   melodi.(d_data).(a_broadcast_rx); airtime_us; broadcast_airtime_us; t.(t_duty_defers); t.(t_queue_expired);
   o.(oc_app_delivery_drops); o.(oc_monitor_drops)].

(** [melodi_tx_complete] *)
Definition melodi_tx_complete (error : result unit) (o : other_counters) : other_counters :=
  match error with
  | Ok _ => o
  | Err _ => MkOtherCounters o.(oc_rx_errors) (o.(oc_tx_errors) + 1) o.(oc_app_delivery_drops) o.(oc_monitor_drops)
  end.

(** ** Only frames with a proof count *)

Section Proofs.
  Context {A : Aead} {L : AeadLaws A} {Sg : Signer} {C : Curve} {H : KeyedHash} (msecs_to_jiffies : Z -> Z).
  Context (crypto_ed25519_check : bytes -> bytes -> bytes -> bool) (crypto_eddsa_public_key_check : bytes -> Z).

(** An acknowledgement under the session of the peer that it comes from. *)
Definition ack_proved (melodi : melodi_device) (meta : melodi_rx_meta) (frame : bytes) : Prop :=
  exists ack key source epoch text, melodi_wire_decode_ack frame = Ok ack /\ ack_lookup melodi ack meta = Ok (key, source, epoch) /\
    ack.(ack_tag) = xchacha20poly1305_encrypt text (load 0 56 frame) (frame_nonce ack.(ack_common)) key.

(** What entitles a frame of a class to an effect. *)
Inductive proved (n : node) (meta : melodi_rx_meta) (frame : bytes) (class : Z) : Prop :=
| by_node signed : discovery_class class = true -> signed = 149%nat \/ signed = 238%nat \/ signed = 145%nat ->
    signed_by crypto_ed25519_check frame signed -> proved n meta frame class
| by_peer peer : class = MELODI_WIRE_DATA -> authentic crypto_ed25519_check (ndev n) meta frame peer -> proved n meta frame class
| by_ack : class = MELODI_WIRE_ACK -> ack_proved (ndev n) meta frame -> proved n meta frame class.

Lemma data_needs_proof e g s frame meta :
  let '(s', deliveries, res) := melodi_data_receive msecs_to_jiffies crypto_ed25519_check crypto_eddsa_public_key_check e g s frame meta in
  (s' = s /\ deliveries = [] /\ is_ok res = false) \/ exists peer, authentic crypto_ed25519_check (dev s) meta frame peer.
Proof.
  unfold melodi_data_receive. destruct (receive_checked e frame) as [[header ciphertext]|] eqn:Ec; [|now left].
  apply bind_Ok in Ec as ([h c] & Ed & Ec). apply bind_Ok in Ec as ([] & _ & Ec).
  destruct (_ && _) in Ec; [discriminate|]. injection Ec as -> ->. unfold receive_sections. destruct (header_broadcast header).
  - pose proof (broadcast_authentic msecs_to_jiffies crypto_ed25519_check e g s frame meta header) as Hb.
    destruct (receive_broadcast _ _ _ _ _ _ _ _) as [[[[s1 h1] src] ep] out].
    destruct (Hb _ _ _ _ _ eq_refl) as [[-> [error ->]]|(peer & Hp & _)]; [now left|].
    destruct (receive_finish _ _ _ _ _ _ _ _) as [[s2 ds] r]. eauto.
  - pose proof (unicast_authentic msecs_to_jiffies crypto_ed25519_check e g s frame meta header ciphertext) as Hb.
    destruct (receive_unicast _ _ _ _ _ _ _ _) as [[[[s1 h1] src] ep] out].
    destruct (Hb _ _ _ _ _ Ed eq_refl) as [[-> [error ->]]|(peer & Hp & _)]; [now left|].
    destruct (receive_finish _ _ _ _ _ _ _ _) as [[s2 ds] r]. eauto.
Qed.

Lemma ack_needs_proof between now_ms now_ns s frame meta :
  let r := melodi_data_receive_ack msecs_to_jiffies between now_ms now_ns s frame meta in
  (r.1 = s /\ is_ok r.2 = false) \/ ack_proved (dev s) meta frame.
Proof.
  unfold melodi_data_receive_ack. destruct (melodi_wire_decode_ack frame) as [ack|] eqn:Ed; [|now left].
  destruct (ack_lookup (dev s) ack meta) as [[[key source] epoch]|] eqn:El; [|now left].
  destruct (xchacha20poly1305_decrypt _ _ _ _) as [text|] eqn:Eo; [|now left]. right. apply aead_open in Eo.
  exists ack, key, source, epoch, text. auto.
Qed.

Lemma discovery_needs_proof e g n frame meta :
  let r := melodi_discovery_receive msecs_to_jiffies crypto_ed25519_check e g n frame meta in
  ((r.1 = n \/ r.1 = g.(dg_settle) n) /\ is_ok r.2 = false) \/
  exists signed, (signed = 149%nat \/ signed = 238%nat \/ signed = 145%nat) /\ signed_by crypto_ed25519_check frame signed.
Proof.
  cbv zeta. destruct (frame_claim crypto_ed25519_check frame) as [[node_id gc]|error] eqn:E.
  - right. destruct (frame_claim_signed crypto_ed25519_check frame node_id gc E) as [_ [Hs|[Hs|Hs]]]; eauto.
  - left. destruct (no_claim_refused msecs_to_jiffies crypto_ed25519_check e g n frame meta error E) as [H1 [error' ->]]. now split.
Qed.

(** Every class that the common header admits has a part that takes it. *)
Lemma every_class_dispatched frame header : melodi_wire_decode_common frame = Ok header ->
  discovery_class header.(frame_class) = true \/ header.(frame_class) = MELODI_WIRE_DATA \/ header.(frame_class) = MELODI_WIRE_ACK.
Proof.
  unfold melodi_wire_decode_common. destruct (_ <? _); [discriminate|]. cbn [frame_class].
  destruct (_ || negb (melodi_wire_class_valid _) || _ || _ || _ || _ || _ || _ || _ || _) eqn:E; [discriminate|]. intros [= <-]. cbn [frame_class].
  rewrite !orb_false_iff in E. assert (Hc : melodi_wire_class_valid (byte_at 1 frame) = true) by (apply negb_false_iff; tauto).
  unfold melodi_wire_class_valid, discovery_class in *. lia.
Qed.

Lemma dispatch_needs_proof e class n frame meta :
  let '(n', deliveries, r) := rx_dispatch msecs_to_jiffies crypto_ed25519_check crypto_eddsa_public_key_check e class n frame meta in
  ((n' = n \/ n' = e.(ie_discovery_gaps).(dg_settle) n) /\ deliveries = [] /\ is_ok r = false) \/ proved n meta frame class.
Proof.
  unfold rx_dispatch. destruct (discovery_class class) eqn:Ed; [|destruct (Z.eqb_spec class MELODI_WIRE_DATA); [|destruct (Z.eqb_spec class MELODI_WIRE_ACK)]].
  - pose proof (discovery_needs_proof e.(ie_discovery) e.(ie_discovery_gaps) n frame meta) as Hx.
    destruct (melodi_discovery_receive _ _ _ _ _ _ _) as [n' r]. destruct Hx as [[H1 H2]|(signed & H1 & H2)]; [left; auto|].
    right. exact (by_node _ _ _ _ signed Ed H1 H2).
  - pose proof (data_needs_proof e.(ie_receive) e.(ie_receive_gaps) n.(n_core) frame meta) as Hx.
    destruct (melodi_data_receive _ _ _ _ _ _ _ _) as [[s ds] r]. destruct Hx as [(-> & -> & Hr)|[peer Hp]].
    + left. split; [left; now destruct n|now split].
    + right. now apply (by_peer _ _ _ _ peer).
  - pose proof (ack_needs_proof e.(ie_between) e.(ie_now_ms) e.(ie_now_ns) n.(n_core) frame meta) as Hx.
    destruct (melodi_data_receive_ack _ _ _ _ _ _ _) as [s r]. destruct Hx as [[Hs Hr]|Hp].
    + left. cbn [fst snd] in *. subst s. split; [left; now destruct n|now split].
    + right. now apply by_ack.
  - left. auto.
Qed.
End Proofs.

(** C6: nothing is taken from strangers.  Whatever bytes a driver hands over, and whatever
    happens while the lock is released: either the frame is refused, no message is handed
    on and the node is as it was (but for the settling that follows a frame of
    discovery), or it was sent to this node over a link that is ready and carries the
    proof that its class asks for: a discovery frame the signature of the node that it
    names over everything in front of it, a data frame the seal of a session or the
    signature of an authenticated peer that the policy admits, an acknowledgement the
    seal of the session of the peer that it comes from. *)
Theorem frame_needs_proof {A : Aead} {L : AeadLaws A} {Sg : Signer} {C : Curve} {H : KeyedHash} msecs_to_jiffies verify public_key_check
    e n k frame meta :
  let '(n', k', monitored, deliveries, r) := melodi_rx_frame msecs_to_jiffies verify public_key_check e n k frame meta in
  ((n' = n \/ n' = e.(ie_discovery_gaps).(dg_settle) n) /\ deliveries = [] /\ is_ok r = false) \/
  exists header, melodi_wire_decode_common frame = Ok header /\ addressed (nlink n) header meta = true /\
    proved verify n meta frame header.(frame_class).
Proof.
  unfold melodi_rx_frame. destruct (_ || _); [left; auto|]. destruct (melodi_wire_decode_common frame) as [header|]; [|left; auto].
  destruct (addressed (nlink n) header meta) eqn:Ea; [|left; auto]. cbn [negb].
  pose proof (dispatch_needs_proof msecs_to_jiffies verify public_key_check e header.(frame_class) n frame meta) as Hx.
  destruct (rx_dispatch _ _ _ _ _ _ _ _) as [[n' ds] r].
  destruct Hx as [(H1 & H2 & H3)|Hp]; destruct r as [[]|error]; try discriminate; [left; auto|right; eauto..].
Qed.

(** ** Every frame is counted once *)

Section Counting.
  Context {A : Aead} {Sg : Signer} {C : Curve} {H : KeyedHash} (msecs_to_jiffies : Z -> Z).
  Context (verify : bytes -> bytes -> bytes -> bool) (public_key_check : bytes -> Z).

(** Frames in turn: the counters, and the answers. *)
Fixpoint rx_run (frames : list (input_env * bytes * melodi_rx_meta)) (n : node) (k : rx_counters) : node * rx_counters * list (result unit) :=
  match frames with
  | [] => (n, k, [])
  | (e, frame, meta) :: frames =>
      let '(n, k, _, _, r) := melodi_rx_frame msecs_to_jiffies verify public_key_check e n k frame meta in
      let '(n, k, rs) := rx_run frames n k in (n, k, r :: rs)
  end.

Definition answers (P : result unit -> bool) (rs : list (result unit)) : Z := count_if P rs.
Definition refused_with (error : errno) (r : result unit) : bool := match r with Err e => bool_decide (e = error) | Ok _ => false end.

Lemma count_if_cons {T} (P : T -> bool) x l : count_if P (x :: l) = (if P x then 1 else 0) + count_if P l.
Proof.
  unfold count_if. cbn [fold_left]. rewrite Z.add_0_l.
  assert (E : forall l c, fold_left (fun count x => count + (if P x then 1 else 0)) l c = c + fold_left (fun count x => count + (if P x then 1 else 0)) l 0).
  { clear. induction l as [|y l IH]; intros c; cbn [fold_left]; [lia|]. rewrite IH, (IH (0 + _)). lia. }
  apply E.
Qed.

Ltac refused_lia := cbn; unfold refused_with; repeat case_bool_decide; try discriminate; try congruence; cbn; lia.

Lemma rx_step_counts e n k frame meta :
  let '(_, k', _, _, r) := melodi_rx_frame msecs_to_jiffies verify public_key_check e n k frame meta in
  k'.(rx_packets) = k.(rx_packets) + (if is_ok r then 1 else 0) /\
  k'.(rx_bytes) = k.(rx_bytes) + (if is_ok r then zlen frame else 0) /\
  k'.(rx_auth_failures) = k.(rx_auth_failures) + (if refused_with EKEYREJECTED r then 1 else 0) /\
  k'.(rx_replay_drops) = k.(rx_replay_drops) + (if refused_with EALREADY r then 1 else 0) /\
  0 <= k'.(rx_dropped) - k.(rx_dropped) <= (if refused_with EHOSTUNREACH r then 1 else 0).
Proof.
  unfold melodi_rx_frame. destruct (_ || _); [refused_lia|]. destruct (melodi_wire_decode_common frame) as [header|error] eqn:Ed.
  2: { assert (error = EMSGSIZE \/ error = EPROTO) as [-> | ->]; [|refused_lia..]. revert Ed. unfold melodi_wire_decode_common.
    destruct (_ <? _); [intros [= <-]; now left|]. cbv zeta. destruct (_ || _); [intros [= <-]; now right|discriminate]. }
  destruct (negb _); [refused_lia|]. destruct (rx_dispatch _ _ _ _ _ _ _ _) as [[n' ds] r].
  destruct r as [[]|error]; [cbn; lia|]. destruct error; refused_lia.
Qed.

(** The counters of received frames over any run: the packets are the frames that were
    accepted, the failures of authentication and the repetitions those that were refused
    as such, and whatever counts as dropped was refused as not for this node. *)
Theorem rx_counts_exact frames : forall n k,
  let '(_, k', rs) := rx_run frames n k in
  length rs = length frames /\
  k'.(rx_packets) = k.(rx_packets) + answers is_ok rs /\
  k'.(rx_auth_failures) = k.(rx_auth_failures) + answers (refused_with EKEYREJECTED) rs /\
  k'.(rx_replay_drops) = k.(rx_replay_drops) + answers (refused_with EALREADY) rs /\
  0 <= k'.(rx_dropped) - k.(rx_dropped) <= answers (refused_with EHOSTUNREACH) rs.
Proof.
  induction frames as [|[[e frame] meta] frames IH]; intros n k; [cbn; lia|]. cbn [rx_run].
  pose proof (rx_step_counts e n k frame meta) as Hs. destruct (melodi_rx_frame _ _ _ _ _ _ _ _) as [[[[n' k'] m] ds] r].
  specialize (IH n' k'). destruct (rx_run frames n' k') as [[n'' k''] rs]. unfold answers in *. rewrite !count_if_cons. cbn [length]. lia.
Qed.
End Counting.

(** ** A hello arrives *)

Definition input_around : input_env := MkInputEnv (sample_around 302 30) sample_alone Secure.sample_env Secure.idle_gaps id 100 100.
Definition no_frames : rx_counters := MkRxCounters 0 0 0 0 0.

Lemma frame_needs_proof_witness :
  exists header, melodi_wire_decode_common hello_b = Ok header /\
    @proved toy_aead toy_check node_a (sample_from 11 MELODI_LINK_LOCATOR_BROADCAST) hello_b header.(frame_class).
Proof.
  pose proof (@frame_needs_proof toy_aead toy_laws (Nodes.toy_signer 0x1a) toy_curve toy_hash sample_jiffies toy_check (fun _ => 0) input_around
    node_a no_frames hello_b (sample_from 11 MELODI_LINK_LOCATOR_BROADCAST)) as Hx.
  destruct (@melodi_rx_frame _ _ _ _ _ _ _ _ _ _ _ _) as [[[[n' k'] m] ds] r] eqn:E.
  destruct Hx as [(_ & _ & Hr)|(header & H1 & _ & H2)]; [|exists header; split; [exact H1|exact H2]].
  assert (is_ok r = true) as Ht by (change r with (n', k', m, ds, r).2; rewrite <- E; vm_compute; reflexivity). congruence.
Defined.
