(* ===== verification/Keys.v ===== *)
(** * Identity keys (src/kernel/core/identity_crypto.c)

    The key of user space that an identity signs with: whether it belongs to the
    identity, and the signatures made with it.  Ed25519 itself is a parameter, with its
    law as the interface [Ed25519Laws]; the comparison of the public keys, which takes the
    same time for all keys, is that of the source (crypto/monocypher.c). *)
From S2P Require Import Prelude Buffer Uapi Fragments Receive Secure Handshake Nodes.

(** ** Comparing in constant time *)

Definition load64_le (b : bytes) : Z := Z.lor (get_le32 b) (Z.shiftl (get_le32 (drop 4 b)) 32).

(** 0 for 0 and -1 for the rest; [half - 1] wraps below zero. *)
Definition neq0 (diff : Z) : Z :=
  let half := Z.lor (Z.shiftr diff 32) (wrap 32 diff) in
  Z.land 1 (Z.shiftr (wrap 64 (half - 1)) 32) - 1.

Definition x16 (a b : bytes) : Z :=
  Z.lor (Z.lxor (load64_le a) (load64_le b)) (Z.lxor (load64_le (drop 8 a)) (load64_le (drop 8 b))).
Definition x32 (a b : bytes) : Z := Z.lor (x16 a b) (x16 (drop 16 a) (drop 16 b)).
Definition crypto_verify16 (a b : bytes) : Z := neq0 (x16 a b).
Definition crypto_verify32 (a b : bytes) : Z := neq0 (x32 a b).

(** ** Keys *)

(** A key of the kernel: whether it is of the type "user", what [key_validate] says of it
    (revoked, expired), and its payload. *)
Record key := MkKey { k_user : bool; k_validate : result unit; k_payload : option bytes }.

Section Keys.
  Context (crypto_ed25519_key_pair : bytes -> bytes * bytes) (crypto_ed25519_sign : bytes -> bytes -> bytes).

(** The payload, when it has the length of a seed. *)
Definition key_seed (key : key) : option bytes :=
  match key.(k_payload) with
  | Some payload => if zlen payload =? 32 then Some payload else None
  | None => None
  end.

Definition melodi_identity_key_matches (key : key) (node_id : melodi_node_id) : result unit :=
  if negb key.(k_user) then Err EKEYREJECTED else
  match key_seed key with
  | None => Err EKEYREJECTED
  | Some seed =>
      if crypto_verify32 (crypto_ed25519_key_pair seed).2 (drop 1 node_id.(node_bytes)) =? 0 then Ok tt else Err EKEYREJECTED
  end.

(** [stack] is the caller's [secret_key] before the call, which stays as it is when the
    payload has another length: [error] is 0 from [key_validate] on. *)
Definition melodi_identity_secret (stack : bytes) (key : key) : result bytes :=
  if negb key.(k_user) then Err EKEYREJECTED else
  match key.(k_validate) with
  | Err error => Err error
  | Ok _ => match key_seed key with Some seed => Ok (crypto_ed25519_key_pair seed).1 | None => Ok stack end
  end.

Definition melodi_identity_sign (stack : bytes) (identity_key : option key) (message : bytes) : result bytes :=
  if MELODI_FRAME_MTU_MAX <? zlen message then Err EINVAL else
  match identity_key with
  | None => Err ENOKEY
  | Some key =>
      secret_key ← melodi_identity_secret stack key;
      Ok (crypto_ed25519_sign secret_key message)
  end.

(** What the rest of the core signs with. *)
#[local] Instance identity_signer (stack : bytes) (identity_key : option key) : Signer :=
  {| Fragments.melodi_identity_sign := melodi_identity_sign stack identity_key |}.
End Keys.

(** The law of Ed25519: what the secret key of a seed signs, the check accepts under its
    public key. *)
Class Ed25519Laws (key_pair : bytes -> bytes * bytes) (sign : bytes -> bytes -> bytes) (check : bytes -> bytes -> bytes -> bool) : Prop := {
  public_bytes seed : wf_bytes 32 seed -> wf_bytes 32 (key_pair seed).2;
  sign_bytes secret message : wf_bytes 64 (sign secret message);
  sign_check seed message : wf_bytes 32 seed -> check (sign (key_pair seed).1 message) (key_pair seed).2 message = true;
}.

(** ** The comparison *)

Lemma load64_split b : wf_bytes 8 b -> u64 (load64_le b) /\ wrap 32 (load64_le b) = get_le32 b /\ Z.shiftr (load64_le b) 32 = get_le32 (drop 4 b).
Proof.
  intros [Hl Hu]. pose proof (get_le32_u32 b Hu) as H1. pose proof (get_le32_u32 (drop 4 b) ltac:(auto with melodi)) as H2.
  unfold load64_le. rewrite Z.lor_comm, lor_shiftl by (auto; lia). unfold uint, wrap in *. pow_norm.
  rewrite Z.shiftr_div_pow2 by lia. pow_norm. split; [lia|]. split; div_lia.
Qed.

Lemma load64_le_inj a b : wf_bytes 8 a -> wf_bytes 8 b -> load64_le a = load64_le b -> a = b.
Proof.
  intros Ha Hb E. destruct (load64_split a Ha) as (_ & A1 & A2). destruct (load64_split b Hb) as (_ & B1 & B2).
  rewrite E in A1, A2. assert (E1 : get_le32 a = get_le32 b) by congruence. assert (E2 : get_le32 (drop 4 a) = get_le32 (drop 4 b)) by congruence.
  destruct Ha as [La Ua], Hb as [Lb Ub]. rewrite <- (take_drop 4 a), <- (take_drop 4 b). f_equal.
  - assert (forall x : bytes, length x = 8%nat -> Forall u8 x -> take 4 x = le32 (get_le32 x)) as H.
    { intros x Hx Hu. rewrite <- (le32_get_le32 (take 4 x)); [|split; [rewrite length_take; lia|auto with melodi]].
      f_equal. now do 8 (destruct x as [|? x]; [discriminate Hx|]). }
    rewrite (H a), (H b) by assumption. congruence.
  - rewrite <- (le32_get_le32 (drop 4 a)), <- (le32_get_le32 (drop 4 b));
      [congruence|split; [rewrite length_drop; lia|auto with melodi]..].
Qed.

Lemma uint_lxor w x y : 0 <= w -> uint w x -> uint w y -> uint w (Z.lxor x y).
Proof.
  intros Hw Hx Hy. apply uint_testbit_intro; [lia|apply Z.lxor_nonneg; unfold uint in *; lia|].
  intros n Hn. rewrite Z.lxor_spec, !(uint_testbit_high w) by (auto; lia). reflexivity.
Qed.

Lemma neq0_exact diff : u64 diff -> neq0 diff = if diff =? 0 then 0 else -1.
Proof.
  intros Hd. unfold neq0. assert (Hh : Z.lor (Z.shiftr diff 32) (wrap 32 diff) = 0 <-> diff = 0).
  { rewrite Z.lor_eq_0_iff, Z.shiftr_div_pow2 by lia. unfold uint, wrap in *. pow_norm. split; [intros [H1 H2]; div_lia|intros ->; now split]. }
  assert (Hu : u32 (Z.lor (Z.shiftr diff 32) (wrap 32 diff))).
  { apply uint_lor; [lia| |apply wrap_uint; lia]. rewrite Z.shiftr_div_pow2 by lia. unfold uint in *. pow_norm. div_lia. }
  revert Hh Hu. generalize (Z.lor (Z.shiftr diff 32) (wrap 32 diff)). intros half Hh Hu. unfold uint in *. pow_norm.
  destruct (Z.eqb_spec diff 0) as [E|E].
  - apply Hh in E as ->. reflexivity.
  - assert (half <> 0) by tauto. rewrite wrap_id by (unfold uint; pow_norm; lia).
    rewrite Z.shiftr_div_pow2, Z.div_small by (pow_norm; lia). reflexivity.
Qed.

Lemma x16_zero a b : wf_bytes 16 a -> wf_bytes 16 b -> u64 (x16 a b) /\ (x16 a b = 0 <-> a = b).
Proof.
  intros [La Ua] [Lb Ub]. assert (Hw : forall x : bytes, length x = 16%nat -> Forall u8 x -> wf_bytes 8 (take 8 x) /\ wf_bytes 8 (drop 8 x)).
  { intros x Hx Hu. split; (split; [rewrite ?length_take, ?length_drop; lia|auto with melodi]). }
  destruct (Hw a La Ua) as [A1 A2], (Hw b Lb Ub) as [B1 B2].
  assert (Ht : forall x : bytes, length x = 16%nat -> load64_le x = load64_le (take 8 x)).
  { intros x Hx. now do 16 (destruct x as [|? x]; [discriminate Hx|]). }
  unfold x16. rewrite (Ht a La), (Ht b Lb).
  split; [apply uint_lor; [lia|apply uint_lxor; try lia; apply load64_split; assumption..]|].
  rewrite Z.lor_eq_0_iff, !Z.lxor_eq_0_iff. split; [|intros ->; auto]. intros [E1 E2].
  rewrite <- (take_drop 8 a), <- (take_drop 8 b). f_equal; now apply load64_le_inj.
Qed.

(** The comparison is 0 for equal keys, and -1 for others. *)
Lemma verify32_exact a b : wf_bytes 32 a -> wf_bytes 32 b -> crypto_verify32 a b = if decide (a = b) then 0 else -1.
Proof.
  intros [La Ua] [Lb Ub]. assert (Hw : forall x : bytes, length x = 32%nat -> Forall u8 x -> wf_bytes 16 (take 16 x) /\ wf_bytes 16 (drop 16 x)).
  { intros x Hx Hu. split; (split; [rewrite ?length_take, ?length_drop; lia|auto with melodi]). }
  destruct (Hw a La Ua) as [A1 A2], (Hw b Lb Ub) as [B1 B2].
  assert (Hx : x16 a b = x16 (take 16 a) (take 16 b)).
  { do 32 (destruct a as [|? a]; [discriminate La|]). do 32 (destruct b as [|? b]; [discriminate Lb|]). reflexivity. }
  destruct (x16_zero _ _ A1 B1) as [U1 Z1], (x16_zero _ _ A2 B2) as [U2 Z2].
  unfold crypto_verify32, x32. rewrite Hx, neq0_exact by (apply uint_lor; [lia|assumption..]).
  destruct (Z.eqb_spec (Z.lor (x16 (take 16 a) (take 16 b)) (x16 (drop 16 a) (drop 16 b))) 0) as [E|E].
  - apply Z.lor_eq_0_iff in E as [E1 E2]. destruct (decide (a = b)) as [|Hn]; [reflexivity|]. destruct Hn.
    rewrite <- (take_drop 16 a), <- (take_drop 16 b). f_equal; [now apply Z1|now apply Z2].
  - destruct (decide (a = b)) as [->|]; [|reflexivity]. destruct E. apply Z.lor_eq_0_iff. split; [now apply Z1|now apply Z2].
Qed.

(** ** Signatures of a matching key *)

Section Signing.
  Context (key_pair : bytes -> bytes * bytes) (sign : bytes -> bytes -> bytes) (check : bytes -> bytes -> bytes -> bool).
  Context {L : Ed25519Laws key_pair sign check}.

Definition key_wf (key : key) : Prop := match key.(k_payload) with Some payload => Forall u8 payload | None => True end.

Lemma seed_wf key seed : key_wf key -> key_seed key = Some seed -> wf_bytes 32 seed.
Proof.
  unfold key_wf, key_seed. destruct (k_payload key) as [payload|]; [|discriminate]. destruct (Z.eqb_spec (zlen payload) 32); [|discriminate].
  intros Hu [= ->]. split; [unfold zlen in *; lia|exact Hu].
Qed.

(** A key matches an identity exactly when it is one of user space with a seed whose
    public key is that of the identity. *)
Lemma matches_exact key node_id : key_wf key -> wf_bytes 33 node_id.(node_bytes) ->
  melodi_identity_key_matches key_pair key node_id = Ok tt <->
  k_user key = true /\ exists seed, key_seed key = Some seed /\ (key_pair seed).2 = drop 1 node_id.(node_bytes).
Proof.
  intros Hk [Hl Hu]. unfold melodi_identity_key_matches. destruct (k_user key); cbn [negb]; [|split; [discriminate|now intros [[=] _]]].
  destruct (key_seed key) as [seed|] eqn:Es; [|split; [discriminate|now intros (_ & ? & [=] & _)]].
  rewrite verify32_exact; [|apply (public_bytes seed), (seed_wf key); assumption|split; [rewrite length_drop; lia|auto with melodi]].
  destruct (decide _) as [E|E]; cbn [Z.eqb]; split; try discriminate; eauto.
  intros (_ & ? & [= <-] & H). contradiction.
Qed.

(** What such a key signs is accepted from the identity. *)
Lemma matching_signs stack key node_id message : key_wf key -> wf_bytes 33 node_id.(node_bytes) ->
  byte_at 0 node_id.(node_bytes) = MELODI_NODE_ID_SCHEME_ED25519 ->
  melodi_identity_key_matches key_pair key node_id = Ok tt -> k_validate key = Ok tt -> zlen message <= MELODI_FRAME_MTU_MAX ->
  exists signature, melodi_identity_sign key_pair sign stack (Some key) message = Ok signature /\ wf_bytes 64 signature /\
    melodi_identity_verify check node_id message signature = Ok tt.
Proof.
  intros Hk Hn Hs Hm Hv Hl. apply (matches_exact key node_id Hk Hn) in Hm as (Hu & seed & Es & Ep).
  unfold melodi_identity_sign, melodi_identity_secret. rewrite Hu, Hv, Es. destruct (Z.ltb_spec MELODI_FRAME_MTU_MAX (zlen message)); [lia|].
  cbn [negb mbind result_bind]. eexists. split; [reflexivity|]. split; [apply sign_bytes|].
  unfold melodi_identity_verify. destruct (Z.ltb_spec MELODI_FRAME_MTU_MAX (zlen message)); [lia|]. rewrite Hs, <- Ep. cbn [negb orb Z.eqb].
  now rewrite (sign_check seed) by now apply (seed_wf key).
Qed.

(** The signer of the core has the interface that the handshake asks for. *)
Lemma identity_signer_laws stack identity_key : SignerLaws (identity_signer key_pair sign stack identity_key).
Proof.
  constructor. intros message signature. cbn. unfold melodi_identity_sign. destruct (_ <? _); [discriminate|].
  destruct identity_key as [key|]; [|discriminate]. intros H. apply bind_Ok in H as (secret & _ & [= <-]). apply sign_bytes.
Qed.
End Signing.

(** A key whose payload user space has replaced by one of another length signs all the
    same, with whatever was on the stack. *)
Lemma replaced_key_signs key_pair sign stack payload message : zlen payload <> 32 -> zlen message <= MELODI_FRAME_MTU_MAX ->
  melodi_identity_sign key_pair sign stack (Some (MkKey true (Ok tt) (Some payload))) message = Ok (sign stack message).
Proof.
  intros Hp Hl. unfold melodi_identity_sign, melodi_identity_secret, key_seed. cbn [k_user k_validate k_payload negb].
  destruct (Z.ltb_spec MELODI_FRAME_MTU_MAX (zlen message)); [lia|]. destruct (Z.eqb_spec (zlen payload) 32); [contradiction|reflexivity].
Qed.

(** A small scheme that obeys the law. *)
Definition toy_key_pair (seed : bytes) : bytes * bytes := (seed, seed).
Definition toy_sign (secret message : bytes) : bytes := take 64 (map (wrap 8) (secret ++ message) ++ replicate 64 0).
Definition toy_accepts (signature public message : bytes) : bool := bool_decide (signature = toy_sign public message).

Lemma toy_ed25519 : Ed25519Laws toy_key_pair toy_sign toy_accepts.
Proof.
  constructor; [intros seed Hs; exact Hs| |].
  - intros secret message. split; [unfold toy_sign; rewrite length_take, length_app, length_replicate; lia|].
    apply Forall_take, Forall_app. split; [apply Forall_map, Forall_true; intros x; apply wrap_uint; lia|apply Forall_replicate; by_decide].
  - intros seed message _. now apply bool_decide_eq_true.
Qed.
