(* ===== verification/Requests.v ===== *)
(** * Requests (src/kernel/core/netlink.c)

    What user space asks of the core over generic netlink: the check of the attributes in
    front of every handler, the handlers that change a device, and the replies and dumps,
    laid out as Genl encodes attributes.  The attributes of a request
    are options here; netlink itself, its buffers and the capabilities of the sender are
    arguments.  Sending and bindings are in Logical and Bindings. *)
From S2P Require Import Prelude Buffer Uapi Genl Slots Device Peers Identity Reassembly Policy Queue Fragments Send Receive Discovery Nodes Outstanding Logical Link Attach Input Keys.

(** [NLA_F_NET_BYTEORDER], which no attribute of the family may carry, nor [NLA_F_NESTED]. *)
Abbreviation NLA_F_NET_BYTEORDER := 0x4000.

(** ** The check in front of the handlers *)

Definition melodi_allowed_attributes (command : Z) : Z :=
  if command =? MELODI_CMD_BIND then mask [MELODI_A_IFINDEX; MELODI_A_LOCAL_SERVICE] else
  if case command [MELODI_CMD_UNBIND; MELODI_CMD_GET_BINDING] then 0 else
  if command =? MELODI_CMD_SEND
  then mask [MELODI_A_DEST_NODE; MELODI_A_DEST_SERVICE; MELODI_A_PAYLOAD; MELODI_A_FLAGS; MELODI_A_COOKIE; MELODI_A_TTL_MS;
             MELODI_A_PRIORITY] else
  if case command [MELODI_CMD_LINK_GET; MELODI_CMD_IDENTITY_GET_PUBLIC] then mask [MELODI_A_IFINDEX] else
  if command =? MELODI_CMD_LINK_SET then mask [MELODI_A_IFINDEX; MELODI_A_RADIO_SERIAL] else
  if command =? MELODI_CMD_IDENTITY_LOAD
  then mask [MELODI_A_IFINDEX; MELODI_A_NODE_ID; MELODI_A_KEY_SERIAL; MELODI_A_GENERATION; MELODI_A_PREVIOUS_NODE_ID] else
  if command =? MELODI_CMD_PEER_DUMP then mask [MELODI_A_IFINDEX] else
  if case command [MELODI_CMD_PEER_TRUST; MELODI_CMD_PEER_BLOCK; MELODI_CMD_PEER_CLEAR; MELODI_CMD_PEER_REVERIFY]
  then mask [MELODI_A_IFINDEX; MELODI_A_NODE_ID] else
  if command =? MELODI_CMD_POLICY_GET then mask [MELODI_A_IFINDEX] else
  if command =? MELODI_CMD_POLICY_SET
  then mask [MELODI_A_IFINDEX; MELODI_A_POLICY_MODE; MELODI_A_POLICY_SERVICE; MELODI_A_POLICY_ACTION; MELODI_A_POLICY_BROADCAST;
             MELODI_A_POLICY_RESET] else
  if case command [MELODI_CMD_DISCOVER; MELODI_CMD_STATS_GET; MELODI_CMD_MONITOR_BIND] then mask [MELODI_A_IFINDEX] else 0.

Section Check.
  Context (be : bool).

(** [nla_for_each_attr] with the body of [melodi_pre_doit]: what remains of the message
    at its end.  [memory] goes on behind the message, where the padding of a last
    attribute that is cut short lies. *)
Fixpoint attribute_loop (fuel : nat) (allowed seen : Z) (memory : bytes) (remaining : Z) : result Z :=
  let raw_length := get16 be memory in
  if (remaining <? NLA_HDRLEN) || (raw_length <? NLA_HDRLEN) || (remaining <? raw_length) then Ok remaining else
  match fuel with
  | O => Err EPROTO
  | S fuel =>
      let nla_type := get16 be (drop 2 memory) in
      let type := Z.land nla_type NLA_TYPE_MASK in
      if (type =? MELODI_A_UNSPEC) || (MELODI_A_MAX <? type) || negb (has allowed (bit type)) || has seen (bit type) then Err EINVAL else
      if has nla_type (Z.lor NLA_F_NESTED NLA_F_NET_BYTEORDER) then Err EINVAL else
      let aligned := align raw_length in
      if padding_bad raw_length aligned memory then Err EPROTO else
      attribute_loop fuel allowed (Z.lor seen (bit type)) (drop (Z.to_nat aligned) memory) (remaining - aligned)
  end.

Definition melodi_pre_doit (version reserved command : Z) (data beyond : bytes) : result unit :=
  if negb (version =? MELODI_GENL_VERSION) || negb (reserved =? 0) then Err EPROTO else
  remaining ← attribute_loop (length data) (melodi_allowed_attributes command) 0 (data ++ beyond) (zlen data);
  if remaining =? 0 then Ok tt else Err EPROTO.

(** What the check requires of an attribute. *)
Definition request_ok (allowed : Z) (e : Z * bytes) : Prop :=
  1 <= e.1 <= MELODI_A_MAX /\ Z.testbit allowed e.1 = true /\ 4 + zlen e.2 < 65536 /\ Forall u8 e.2.

Definition plain_body (l : list (Z * bytes)) : bytes := concat (map (fun e => tlv be e.1 e.2) l).

Lemma plain_body_cons t v l : plain_body ((t, v) :: l) = tlv be t v ++ plain_body l.
Proof. reflexivity. Qed.

(** A type without flags. *)
Lemma unflagged w : u16 w -> has w (Z.lor NLA_F_NESTED NLA_F_NET_BYTEORDER) = false <-> w = Z.land w NLA_TYPE_MASK.
Proof.
  intros Hw. destruct (type_bits w Hw) as [E1 E2]. change (Z.lor NLA_F_NESTED NLA_F_NET_BYTEORDER) with (lnot_w 16 NLA_TYPE_MASK).
  unfold has. rewrite E2, E1. unfold uint in Hw. pow_norm. destruct (Z.eqb_spec (16384 * (w / 16384)) 0) as [E|E]; cbn [negb]; split; try discriminate; div_lia.
Qed.

Lemma seen_step seen t u : 0 <= t -> 0 <= u -> Z.testbit (Z.lor seen (bit t)) u = Z.testbit seen u || (t =? u).
Proof. intros Ht Hu. unfold bit. now rewrite Z.lor_spec, Z.shiftl_1_l, Z.pow2_bits_eqb by lia. Qed.

Lemma loop_accepts l : forall fuel allowed seen beyond,
  Forall (request_ok allowed) l -> NoDup l.*1 -> (forall t, t ∈ l.*1 -> Z.testbit seen t = false) ->
  (length (plain_body l) <= fuel)%nat ->
  attribute_loop fuel allowed seen (plain_body l ++ beyond) (zlen (plain_body l)) = Ok 0.
Proof.
  induction l as [|[t v] l IH]; intros fuel allowed seen beyond Hok Hnd Hno Hf; [now destruct fuel|].
  apply Forall_cons_iff in Hok as [(Ht & Ha & Hlen & _) Hok]. cbn [fst snd] in *.
  cbn [fmap list_fmap fst] in Hnd, Hno. apply list.NoDup_cons in Hnd as [Hin Hnd].
  assert (Ht16 : u16 t) by (unfold uint; pow_norm; lia).
  destruct (tlv_read be t v (plain_body l ++ beyond) Ht16 Hlen) as (R1 & R2 & R3 & R4 & R5).
  assert (Hz : zlen (plain_body ((t, v) :: l)) = align (4 + zlen v) + zlen (plain_body l))
    by (rewrite plain_body_cons, zlen_app, zlen_tlv; reflexivity).
  rewrite Hz, plain_body_cons, <- app_assoc. pose proof (align_bound (4 + zlen v)).
  assert (0 <= zlen v /\ 0 <= zlen (plain_body l)) by (unfold zlen; lia).
  destruct fuel as [|fuel]; [unfold zlen in *; lia|]. cbn [attribute_loop]. rewrite R1, R2, R4, R5.
  assert (Hm : Z.land t NLA_TYPE_MASK = t) by (destruct (type_bits t Ht16) as [-> _]; div_lia).
  rewrite Hm, !has_bit_testbit, Ha, Hno by (lia || now left).
  assert (has t (Z.lor NLA_F_NESTED NLA_F_NET_BYTEORDER) = false) as -> by (apply unflagged; auto).
  do 2 (match goal with |- (if ?b then _ else _) = _ => assert (b = false) as -> by lia end). replace (align (4 + zlen v) + zlen (plain_body l) - align (4 + zlen v)) with (zlen (plain_body l)) by lia.
  apply IH; auto; [|unfold zlen in *; lia]. intros u Hu. rewrite list.Forall_forall in Hok.
  rewrite seen_step; [|lia|]. { rewrite Hno by now right. apply Z.eqb_neq. intros ->. contradiction. }
  apply list_elem_of_fmap in Hu as ([? ?] & -> & Hu). apply Hok in Hu as [? _]. cbn in *. lia.
Qed.

Lemma loop_inv fuel : forall allowed seen memory remaining,
  Forall u8 memory -> remaining <= zlen memory -> attribute_loop fuel allowed seen memory remaining = Ok 0 ->
  exists l beyond, memory = plain_body l ++ beyond /\ zlen (plain_body l) = remaining /\ Forall (request_ok allowed) l /\
    NoDup l.*1 /\ (forall t, t ∈ l.*1 -> Z.testbit seen t = false).
Proof.
  induction fuel as [|fuel IH]; intros allowed seen memory remaining Hu Hr H; cbn [attribute_loop] in H;
    (match type of H with (if ?g then _ else _) = _ => destruct g eqn:G end;
     [injection H as ->; exists [], memory; conj_split; [reflexivity..|constructor|constructor|intros ? []%not_elem_of_nil]|]); [discriminate|].
  apply orb_false_iff in G as [[G1 G2]%orb_false_iff G3]. apply Z.ltb_ge in G1, G2, G3.
  set (raw := get16 be memory) in *. set (w := get16 be (drop 2 memory)) in *. set (t := Z.land w NLA_TYPE_MASK) in *.
  assert (Hw16 : u16 w) by (apply get16_u16; auto with melodi). assert (Hr16 : u16 raw) by (apply get16_u16; auto).
  guards_in H. guard_hyps. pose proof (align_bound raw).
  assert (Hpos : align raw <= remaining).
  { destruct (Z.le_gt_cases (align raw) remaining) as [|Hlt]; [assumption|]. exfalso.
    assert (Hneg : forall f a s m r, r < 0 -> attribute_loop f a s m r = Ok r).
    { intros f a s m r Hn. destruct f; cbn [attribute_loop]; now rewrite (proj2 (Z.ltb_lt r NLA_HDRLEN)) by lia. }
    rewrite Hneg in H by lia. injection H as H. lia. }
  assert (Hwt : w = t) by now apply unflagged.
  destruct (tlv_write be memory Hu) as (Hp & Hzv & Huv); fold raw; [lia|lia|assumption|]. fold raw w in Hp, Hzv, Huv. rewrite Hwt in Hp.
  assert (Ht : 0 <= t) by (apply Z.land_nonneg; right; lia).
  match goal with G : has seen _ = false |- _ => rewrite has_bit_testbit in G by lia; rename G into Gs end.
  match goal with G : has allowed _ = true |- _ => rewrite has_bit_testbit in G by lia; rename G into Ga end.
  apply IH in H as (l & beyond & Hl & Hz & Hok & Hnd & Hno); [|auto with melodi|unfold zlen in *; rewrite length_drop; lia].
  assert (Hin : t ∉ l.*1).
  { intros Hin. specialize (Hno t Hin). now rewrite seen_step, Z.eqb_refl, orb_true_r in Hno by lia. }
  exists ((t, load 4 (Z.to_nat (raw - 4)) memory) :: l), beyond. rewrite plain_body_cons, <- app_assoc, <- Hl, zlen_app, zlen_tlv, Hzv, Hz.
  cbn [fmap list_fmap fst]. unfold uint in Hr16. pow_norm. replace (4 + (raw - 4)) with raw by lia.
  conj_split; [exact Hp|lia| |now constructor|].
  - constructor; [|exact Hok]. unfold request_ok. cbn [fst snd]. conj_split; [lia|lia|exact Ga|lia|exact Huv].
  - intros u [->|Hu']%elem_of_cons; [exact Gs|]. specialize (Hno u Hu'). rewrite list.Forall_forall in Hok.
    apply list_elem_of_fmap in Hu' as ([u' ?] & -> & Hu'). apply Hok in Hu' as [? _]. cbn [fst] in *. rewrite seen_step in Hno by lia.
    now apply orb_false_iff in Hno as [? _].
Qed.
End Check.

(** ** Handlers that change a device *)

(** What a handler finds: whether the sender may administer the network, the device of an
    index in its namespace, the readings of the clock of the loops over a changed state,
    and what the calls under it take. *)
Record request_env := MkRequestEnv {
  qe_capable : bool;
  qe_device : Z -> option nat;
  qe_queue_nows : list Z;
  qe_data_nows : list Z;
  qe_discovery : discovery_env;
  qe_gaps : discovery_gaps;
  qe_stack : bytes;
  qe_now_ms : Z;
  qe_between : interface -> interface;
  qe_driver : Z -> interface -> interface * result unit;
}.

(** The attributes of a change of policy. *)
Record policy_request := MkPolicyRequest {
  pq_mode : option Z;
  pq_service : option Z;
  pq_action : option Z;
  pq_broadcast : option Z;
  pq_reset : option Z;
}.

Definition given {T} (o : option T) : bool := match o with Some _ => true | None => false end.

(** A handler for the device of an index, which must be in the namespace. *)
Definition with_interface {T} (e : request_env) (ifindex : Z) (f : interface -> interface * result T) (devices : list interface)
    : list interface * result T :=
  match e.(qe_device) ifindex ≫= fun dev => pair dev <$> devices !! dev with
  | None => (devices, Err ENODEV)
  | Some (dev, i) => let '(i, r) := f i in (<[dev := i]> devices, r)
  end.

Section Handlers.
  Context (be : bool) (msecs_to_jiffies : Z -> Z) {Sg : Signer} (crypto_eddsa_public_key_check : bytes -> Z).

(** [melodi_policy_state_changed] *)
Definition policy_changed (e : request_env) (i : interface) : interface :=
  let up := i.(i_running) && i.(i_carrier) in
  on_core (fun c => (melodi_data_state_changed e.(qe_data_nows) (melodi_queue_state_changed up e.(qe_queue_nows) c).1).1) i.

(** A function of the policy with what it calls after the lock; an announcement decides
    about the result. *)
Definition policy_after (e : request_env) (a : after) (ir : interface * result unit) : interface * result unit :=
  match a with
  | StateChanged => (policy_changed e ir.1, ir.2)
  | Announce =>
      let '(n, r) := melodi_discovery_announce e.(qe_discovery) e.(qe_gaps) ir.1.(i_station).(st_node) in
      (on_node (fun _ => n) ir.1, r)
  end.
Definition policy_call (e : request_env) (f : melodi_device -> melodi_device * result unit * list after) (i : interface)
    : interface * result unit :=
  let '(melodi, r, calls) := f (icore i).(c_dev) in
  fold_left (fun ir a => policy_after e a ir) calls (on_core (set_dev melodi) i, r).

Definition melodi_peer_policy_update (e : request_env) (ifindex : option Z) (node_id : option melodi_node_id) (state : Z)
    (devices : list interface) : list interface * result unit :=
  if negb e.(qe_capable) then (devices, Err EPERM) else
  match ifindex, node_id with
  | Some ifindex, Some node_id =>
      with_interface e ifindex (policy_call e (fun m => melodi_policy_set_peer crypto_eddsa_public_key_check m node_id state)) devices
  | _, _ => (devices, Err EINVAL)
  end.
Definition melodi_peer_trust (e : request_env) (ifindex : option Z) (node_id : option melodi_node_id) :=
  melodi_peer_policy_update e ifindex node_id MELODI_PEER_TRUSTED.
Definition melodi_peer_block (e : request_env) (ifindex : option Z) (node_id : option melodi_node_id) :=
  melodi_peer_policy_update e ifindex node_id MELODI_PEER_BLOCKED.

Definition melodi_peer_clear (e : request_env) (ifindex : option Z) (node_id : option melodi_node_id) (devices : list interface)
    : list interface * result unit :=
  if negb e.(qe_capable) then (devices, Err EPERM) else
  match ifindex, node_id with
  | Some ifindex, Some node_id =>
      with_interface e ifindex (policy_call e (fun m => melodi_policy_clear_peer crypto_eddsa_public_key_check m node_id)) devices
  | _, _ => (devices, Err EINVAL)
  end.

Definition melodi_peer_reverify (e : request_env) (ifindex : option Z) (node_id : option melodi_node_id) (devices : list interface)
    : list interface * result unit :=
  if negb e.(qe_capable) then (devices, Err EPERM) else
  match ifindex, node_id with
  | Some ifindex, Some node_id =>
      with_interface e ifindex (policy_call e (fun m => melodi_policy_reverify_peer crypto_eddsa_public_key_check m node_id)) devices
  | _, _ => (devices, Err EINVAL)
  end.

Definition policy_request_bad (q : policy_request) : bool :=
  negb (Bool.eqb (given q.(pq_service)) (given q.(pq_action))) ||
  (given q.(pq_reset) && (given q.(pq_mode) || given q.(pq_service) || given q.(pq_broadcast))) ||
  (given q.(pq_mode) && (given q.(pq_service) || given q.(pq_broadcast))) ||
  (given q.(pq_broadcast) && given q.(pq_service)) ||
  (negb (given q.(pq_mode)) && negb (given q.(pq_service)) && negb (given q.(pq_broadcast)) && negb (given q.(pq_reset))).

(** The one change that a request asks for. *)
Definition policy_change (q : policy_request) (melodi : melodi_device) : melodi_device * result unit * list after :=
  match q.(pq_reset) with
  | Some _ => melodi_policy_reset melodi
  | None =>
      match q.(pq_service), q.(pq_action) with
      | Some service, Some action => melodi_policy_set_service melodi service action
      | _, _ =>
          match q.(pq_broadcast) with
          | Some broadcast => melodi_policy_set_broadcast melodi (negb (broadcast =? 0))
          | None => match q.(pq_mode) with Some mode => melodi_policy_set_mode melodi mode | None => (melodi, Err EINVAL, []) end
          end
      end
  end.

Definition melodi_policy_set (e : request_env) (ifindex : option Z) (q : policy_request) (devices : list interface)
    : list interface * result unit :=
  if negb e.(qe_capable) then (devices, Err EPERM) else
  match ifindex with
  | None => (devices, Err EINVAL)
  | Some ifindex =>
      if policy_request_bad q then (devices, Err EINVAL) else with_interface e ifindex (policy_call e (policy_change q)) devices
  end.

Definition melodi_discover (e : request_env) (ifindex : option Z) (devices : list interface) : list interface * result unit :=
  if negb e.(qe_capable) then (devices, Err EPERM) else
  match ifindex with
  | None => (devices, Err EINVAL)
  | Some ifindex =>
      with_interface e ifindex (fun i =>
        let '(n, r) := melodi_discovery_probe e.(qe_discovery) e.(qe_gaps) i.(i_station).(st_node) in
        (on_node (fun _ => n) i, r)) devices
  end.

(** [radio_serial] is the bytes in front of the end of the string. *)
Definition melodi_link_set (e : request_env) (ifindex : option Z) (radio_serial : option bytes) (devices : list interface)
    : list interface * result unit :=
  if negb e.(qe_capable) then (devices, Err EPERM) else
  match ifindex, radio_serial with
  | Some ifindex, Some radio_serial =>
      match e.(qe_device) ifindex with
      | None => (devices, Err ENODEV)
      | Some dev => melodi_set_transport_selector dev radio_serial devices
      end
  | _, _ => (devices, Err EINVAL)
  end.

(** [keyring] is [lookup_user_key] for the sender. *)
Definition load_key (key_pair : bytes -> bytes * bytes) (keyring : Z -> result key) (key_serial : Z) (node_id : melodi_node_id)
    : result unit :=
  key ← keyring key_serial;
  _ ← key.(k_validate);
  if negb key.(k_user) then Err EKEYREJECTED else
  if negb (given (key_seed key)) then Err EKEYREJECTED else
  melodi_identity_key_matches key_pair key node_id.

Definition melodi_identity_load (key_pair : bytes -> bytes * bytes) (keyring : Z -> result key) (e : request_env) (ifindex : option Z)
    (node_id : option melodi_node_id) (key_serial generation : option Z) (previous : option melodi_node_id) (devices : list interface)
    : list interface * result unit :=
  if negb e.(qe_capable) then (devices, Err EPERM) else
  match ifindex, node_id, key_serial, generation with
  | Some ifindex, Some node_id, Some key_serial, Some generation =>
      if generation =? 0 then (devices, Err EINVAL) else
      if match previous with Some previous => negb (melodi_node_id_valid crypto_eddsa_public_key_check previous) | None => false end
      then (devices, Err EINVAL) else
      match load_key key_pair keyring key_serial node_id with
      | Err error => (devices, Err error)
      | Ok _ =>
          with_interface e ifindex (melodi_device_set_identity be msecs_to_jiffies crypto_eddsa_public_key_check e.(qe_between) e.(qe_driver)
            e.(qe_stack) e.(qe_now_ms) e.(qe_discovery) node_id (Some key_serial) generation previous) devices
      end
  | _, _, _, _ => (devices, Err EINVAL)
  end.
End Handlers.

(** The requests that change a device, and their handlers. *)
Inductive change :=
| ChangePeerTrust (node_id : option melodi_node_id)
| ChangePeerBlock (node_id : option melodi_node_id)
| ChangePeerClear (node_id : option melodi_node_id)
| ChangePeerReverify (node_id : option melodi_node_id)
| ChangePolicy (q : policy_request)
| ChangeDiscover
| ChangeLink (radio_serial : option bytes)
| ChangeIdentity (node_id : option melodi_node_id) (key_serial generation : option Z) (previous : option melodi_node_id).

Definition change_doit (be : bool) (msecs_to_jiffies : Z -> Z) {Sg : Signer} (check : bytes -> Z) (key_pair : bytes -> bytes * bytes)
    (keyring : Z -> result key) (e : request_env) (ifindex : option Z) (c : change) (devices : list interface) : list interface * result unit :=
  match c with
  | ChangePeerTrust node_id => melodi_peer_trust check e ifindex node_id devices
  | ChangePeerBlock node_id => melodi_peer_block check e ifindex node_id devices
  | ChangePeerClear node_id => melodi_peer_clear check e ifindex node_id devices
  | ChangePeerReverify node_id => melodi_peer_reverify check e ifindex node_id devices
  | ChangePolicy q => melodi_policy_set e ifindex q devices
  | ChangeDiscover => melodi_discover e ifindex devices
  | ChangeLink radio_serial => melodi_link_set e ifindex radio_serial devices
  | ChangeIdentity node_id key_serial generation previous =>
      melodi_identity_load be msecs_to_jiffies check key_pair keyring e ifindex node_id key_serial generation previous devices
  end.

(** ** Replies *)

(** The bytes of a string in front of its end. *)
Fixpoint c_string (buffer : bytes) : bytes :=
  match buffer with
  | [] => []
  | c :: buffer => if c =? 0 then [] else c :: c_string buffer
  end.

(** An attribute that is only put when its string is not empty, with its end. *)
Definition string_attribute (type : Z) (s : bytes) : list (Z * bytes) := match s with [] => [] | _ => [(type, s ++ [0])] end.

Section Replies.
  Context (be : bool).

(** A message as [genlmsg_put], the attributes and [genlmsg_end] lay it out. *)
Definition reply_bytes (family flags sequence portid command : Z) (l : list (Z * bytes)) : bytes :=
  header be (20 + zlen (body be l)) family flags sequence portid command ++ body be l.

(** The attributes of a reply, when there is memory for one with this room. *)
Definition answer (memory : bool) (room : Z) (l : list (Z * bytes)) : result (list (Z * bytes)) :=
  if negb memory then Err ENOMEM else if room <? 20 + zlen (body be l) then Err EMSGSIZE else Ok l.

Definition melodi_identity_get (memory : bool) (room : Z) (e : request_env) (ifindex : option Z) (devices : list interface)
    : list interface * result (list (Z * bytes)) :=
  match ifindex with
  | None => (devices, Err EINVAL)
  | Some ifindex =>
      with_interface e ifindex (fun i =>
        (i, match melodi_device_identity i with
            | None => Err ENOKEY
            | Some (node_id, generation) =>
                answer memory room [(MELODI_A_NODE_ID, node_id.(node_bytes)); (MELODI_A_GENERATION, host32 be generation)]
            end)) devices
  end.

(** [errno_of] is the number of an error. *)
Definition link_attributes (errno_of : errno -> Z) (i : interface) (info : result melodi_link_info) : list (Z * bytes) :=
  let bus_info := match info with Ok link => c_string link.(li_bus_info) | Err _ => [] end in
  let frame_pace_us := match info with Ok link => link.(li_frame_pace_us) | Err _ => 0 end in
  [(MELODI_A_LINK_STATE, [wrap 8 i.(i_state)]); (MELODI_A_LINK_FAILURE, host16 be i.(i_failure));
   (MELODI_A_LINK_ERROR, host32 be (wrap 32 (match i.(i_error) with Some error => - errno_of error | None => 0 end)))] ++
  string_attribute MELODI_A_RADIO_SERIAL i.(i_serial) ++ string_attribute MELODI_A_BUS_INFO bus_info ++
  (if frame_pace_us =? 0 then [] else [(MELODI_A_FRAME_PACE_US, host32 be frame_pace_us)]).

Definition melodi_link_get (errno_of : errno -> Z) (during : interface -> interface) (driver : melodi_link_info -> melodi_link_info)
    (memory : bool) (room : Z) (e : request_env) (ifindex : option Z) (devices : list interface)
    : list interface * result (list (Z * bytes)) :=
  match ifindex with
  | None => (devices, Err EINVAL)
  | Some ifindex =>
      with_interface e ifindex (fun i =>
        let '(j, info) := melodi_core_link_info during driver i in (j, answer memory room (link_attributes errno_of i info))) devices
  end.

Definition melodi_policy_get (memory : bool) (room : Z) (e : request_env) (ifindex : option Z) (devices : list interface)
    : list interface * result (list (Z * bytes)) :=
  match ifindex with
  | None => (devices, Err EINVAL)
  | Some ifindex =>
      with_interface e ifindex (fun i =>
        (i, answer memory room [(MELODI_A_POLICY_MODE, [wrap 8 (icore i).(c_dev).(d_policy).(y_mode)])])) devices
  end.

(** The block of the counters; [padded] is whether [nla_put_u64_64bit] puts padding in
    front of a value, which depends on the machine and on where the value would lie. *)
Definition stats_entries (padded : nat -> bool) (values : list Z) : list (Z * bytes) :=
  concat (imap (fun k v => (if padded k then [(MELODI_STAT_A_UNSPEC, [])] else []) ++ [(Z.of_nat k + 1, host64 be v)]) values).

Definition melodi_stats_get (padded : nat -> bool) (k : rx_counters) (o : other_counters) (memory : bool) (room : Z) (e : request_env)
    (ifindex : option Z) (devices : list interface) : list interface * result (list (Z * bytes)) :=
  match ifindex with
  | None => (devices, Err EINVAL)
  | Some ifindex =>
      with_interface e ifindex (fun i =>
        (i, answer memory room [(MELODI_A_STATS, nested_body be (stats_entries padded (melodi_stats_read k o i)))])) devices
  end.

(** ** The dump of the peers *)

Section Dump.
  Context (jiffies_to_msecs : Z -> Z) (strict : bool) (family sequence portid ifindex : Z).

(** [strict] is whether the machine wants 64-bit values aligned; then
    [nla_put_u64_64bit] puts an empty attribute in front of one whose header would lie on
    a multiple of eight.  [position] is the address of the end of the message. *)
Definition put_u64_64bit (position type value : Z) : list (Z * bytes) :=
  (if strict && (position mod 8 =? 0) then [(MELODI_A_UNSPEC, [])] else []) ++ [(type, host64 be value)].

Definition peer_front (jiffies : Z) (melodi : melodi_device) (peer : melodi_peer) : list (Z * bytes) :=
  let remaining := if time_before jiffies peer.(p_expires) then wrap 64 (peer.(p_expires) - jiffies) else 0 in
  let expiry_ms := Z.min (jiffies_to_msecs remaining) U32_MAX in
  [(MELODI_A_IFINDEX, host32 be ifindex); (MELODI_A_NODE_ID, peer.(p_node_id).(node_bytes));
   (MELODI_A_PEER_NATIVE_LOCATOR, host32 be peer.(p_native_locator)); (MELODI_A_COLLISION_ROUND, host32 be peer.(p_collision_round));
   (MELODI_A_GENERATION, host32 be peer.(p_generation)); (MELODI_A_PEER_STATE, [wrap 8 (melodi_policy_peer_state_locked melodi peer)]);
   (MELODI_A_PEER_EXPIRY_MS, host32 be expiry_ms); (MELODI_A_PEER_CAPABILITIES, host32 be peer.(p_capabilities));
   (MELODI_A_PEER_RSSI, host16 be (wrap 16 peer.(p_rssi))); (MELODI_A_PEER_SNR, host16 be (wrap 16 peer.(p_snr)));
   (MELODI_A_PEER_HOPS, [wrap 8 peer.(p_hops)])].

Definition peer_attributes (position jiffies : Z) (melodi : melodi_device) (peer : melodi_peer) : list (Z * bytes) :=
  let front := peer_front jiffies melodi peer in
  front ++ put_u64_64bit (position + 20 + zlen (body be front)) MELODI_A_PEER_LAST_SEEN_NS peer.(p_last_seen_ns) ++
  [(MELODI_A_PEER_POLICY, [wrap 8 (melodi_policy_peer_policy_locked melodi peer)])].

(** [NLM_F_MULTI] *)
Definition peer_entry (position jiffies : Z) (melodi : melodi_device) (peer : melodi_peer) : bytes :=
  reply_bytes family 2 sequence portid MELODI_CMD_PEER_DUMP (peer_attributes position jiffies melodi peer).

(** The loop from a place of the table on: the peers that are put into the message, each
    with its place, and the place where the next message goes on.  [room] is that of the
    message, [used] what is taken of it. *)
Fixpoint dump_loop (base room jiffies : Z) (melodi : melodi_device) (used : Z) (index next : nat) (peers : list melodi_peer)
    : list (nat * bytes) * nat :=
  match peers with
  | [] => ([], next)
  | peer :: peers =>
      if negb peer.(p_authenticated) then dump_loop base room jiffies melodi used (S index) next peers else
      let entry := peer_entry (base + used) jiffies melodi peer in
      if room <? used + zlen entry then ([], next) else
      let '(entries, next) := dump_loop base room jiffies melodi (used + zlen entry) (S index) (S index) peers in
      ((index, entry) :: entries, next)
  end.

(** One message of the dump; [next] is [callback->args\[0\]], [base] where the message begins. *)
Definition dump_page (base room jiffies : Z) (melodi : melodi_device) (next : nat) : list (nat * bytes) * nat :=
  dump_loop base room jiffies melodi 0 next next (drop next melodi.(d_peers)).
End Dump.

Definition melodi_peer_dump (jiffies_to_msecs : Z -> Z) (strict : bool) (family sequence portid base room jiffies : Z) (ifindex_of : nat -> Z)
    (e : request_env) (ifindex : option Z) (next : nat) (devices : list interface) : nat * result (list (nat * bytes)) :=
  match ifindex with
  | None => (next, Err EINVAL)
  | Some ifindex =>
      match e.(qe_device) ifindex ≫= fun dev => pair dev <$> devices !! dev with
      | None => (next, Err ENODEV)
      | Some (dev, i) =>
          let '(entries, next) := dump_page jiffies_to_msecs strict family sequence portid (ifindex_of dev) base room jiffies (icore i).(c_dev) next in
          (next, Ok entries)
      end
  end.
End Replies.

(** What one message of a dump finds: where it begins, its room, the time and the peers.
    netlink asks for messages until one is empty. *)
Record page_env := MkPage { pg_base : Z; pg_room : Z; pg_jiffies : Z; pg_device : melodi_device }.

Fixpoint dump_pages (page : page_env -> nat -> list (nat * bytes) * nat) (pages : list page_env) (next : nat)
    : list (nat * bytes) * bool :=
  match pages with
  | [] => ([], false)
  | p :: pages =>
      let '(entries, next) := page p next in
      match entries with
      | [] => ([], true)
      | _ => let '(rest, ended) := dump_pages page pages next in (entries ++ rest, ended)
      end
  end.

(** ** What gets through the check *)

(** the check in front of the handlers lets a request through exactly when its version
    and its reserved field are right and what follows is the encoding of attributes that
    its command allows, of different types, with neither flag, zero padded, and nothing
    else, whatever lies in memory behind the message. *)
Theorem pre_doit_exact be version reserved command data beyond : Forall u8 data -> Forall u8 beyond ->
  melodi_pre_doit be version reserved command data beyond = Ok tt <->
  version = MELODI_GENL_VERSION /\ reserved = 0 /\
  exists l, data = plain_body be l /\ Forall (request_ok (melodi_allowed_attributes command)) l /\ NoDup l.*1.
Proof.
  intros Hd Hb. unfold melodi_pre_doit. destruct (negb (version =? _) || _) eqn:G.
  { split; [discriminate|]. intros (-> & -> & _). discriminate. }
  apply orb_false_iff in G as [->%negb_false_iff%Z.eqb_eq ->%negb_false_iff%Z.eqb_eq]. split.
  - intros H. apply bind_Ok in H as (remaining & Hl & H). destruct (Z.eqb_spec remaining 0) as [->|]; [|discriminate].
    apply loop_inv in Hl as (l & b & E & Hz & Hok & Hnd & _); [|apply Forall_app; auto|rewrite zlen_app; unfold zlen; lia].
    apply app_inj_1 in E as [-> _]; [|unfold zlen in Hz; lia]. eauto 6.
  - intros (_ & _ & l & -> & Hok & Hnd). rewrite loop_accepts; [reflexivity|assumption..| |lia]. intros. apply Z.bits_0.
Qed.

(** ** Who changes what *)

Lemma with_interface_confined {T} e ifindex (f : interface -> interface * result T) devices :
  let '(devices', r) := with_interface e ifindex f devices in
  length devices' = length devices /\ (forall d, e.(qe_device) ifindex <> Some d -> devices' !! d = devices !! d) /\
  (is_ok r = true -> exists dev i, e.(qe_device) ifindex = Some dev /\ devices !! dev = Some i /\ devices' !! dev = Some (f i).1 /\ r = (f i).2).
Proof.
  unfold with_interface. destruct (e.(qe_device) ifindex) as [dev|] eqn:Ed; cbn [mbind option_bind]; [|now split].
  destruct (devices !! dev) as [i|] eqn:Ei; cbn [fmap option_fmap option_map]; [|now split].
  destruct (f i) as [j r] eqn:Ef. split; [apply length_insert|]. split.
  - intros d Hd. apply list_lookup_insert_ne. congruence.
  - intros _. exists dev, i. rewrite Ef. split; [reflexivity|]. split; [assumption|]. split; [|reflexivity].
    apply list_lookup_insert_eq. now apply lookup_lt_Some in Ei.
Qed.

Lemma selector_confined dev serial devices :
  let '(devices', r) := melodi_set_transport_selector dev serial devices in
  length devices' = length devices /\ (forall d, Some dev <> Some d -> devices' !! d = devices !! d) /\
  (is_ok r = true -> exists i, devices !! dev = Some i).
Proof.
  unfold melodi_set_transport_selector, at_device. destruct (negb _); [now split|]. destruct (existsb _ _); [now split|].
  destruct (devices !! dev) as [i|] eqn:E; [|now split]. destruct (_ && _); [now split|].
  split; [apply length_alter|]. split; [|eauto]. intros d Hd. apply list_lookup_alter_ne. congruence.
Qed.

(** What [changes_confined] says of one result. *)
Definition confined (e : request_env) (ifindex : option Z) (devices : list interface) (dr : list interface * result unit) : Prop :=
  length dr.1 = length devices /\ (forall d, ifindex ≫= e.(qe_device) <> Some d -> dr.1 !! d = devices !! d) /\
  (is_ok dr.2 = true -> exists dev, ifindex ≫= e.(qe_device) = Some dev /\ is_Some (devices !! dev)).

Lemma refused_confined e ifindex devices error : confined e ifindex devices (devices, Err error).
Proof. now split. Qed.

Lemma interface_confined e ifindex f devices : confined e (Some ifindex) devices (with_interface e ifindex f devices).
Proof.
  pose proof (with_interface_confined e ifindex f devices) as H. destruct (with_interface _ _ _ _) as [devices' r].
  destruct H as (H1 & H2 & H3). split; [exact H1|]. split; [exact H2|]. intros Hr. destruct (H3 Hr) as (dev & i & E1 & E2 & _).
  exists dev. split; [exact E1|eauto].
Qed.

(** what a request can change.  Without the capability every request that changes a
    device is refused and changes nothing; with it, only the device that the index of the
    request names in the namespace of the sender changes, whether or not the request
    succeeds, and it only succeeds when there is such a device. *)
Theorem changes_confined be msecs_to_jiffies {Sg : Signer} check key_pair keyring e ifindex c devices :
  let '(devices', r) := change_doit be msecs_to_jiffies check key_pair keyring e ifindex c devices in
  length devices' = length devices /\
  (e.(qe_capable) = false -> devices' = devices /\ r = Err EPERM) /\
  (forall d, ifindex ≫= e.(qe_device) <> Some d -> devices' !! d = devices !! d) /\
  (is_ok r = true -> exists dev, ifindex ≫= e.(qe_device) = Some dev /\ is_Some (devices !! dev)).
Proof.
  assert (H : (e.(qe_capable) = false -> change_doit be msecs_to_jiffies check key_pair keyring e ifindex c devices = (devices, Err EPERM)) /\
    confined e ifindex devices (change_doit be msecs_to_jiffies check key_pair keyring e ifindex c devices)).
  { assert (Hx : forall r, (e.(qe_capable) = true -> confined e ifindex devices r) ->
      (e.(qe_capable) = false -> (if negb e.(qe_capable) then (devices, Err EPERM) else r) = (devices, Err EPERM)) /\
      confined e ifindex devices (if negb e.(qe_capable) then (devices, Err EPERM) else r)).
    { intros r Hr. destruct (qe_capable e); cbn [negb]; split; try discriminate; auto using refused_confined. }
    destruct c; cbn [change_doit]; apply Hx; intros _; (destruct ifindex as [ix|]; [|apply refused_confined]).
    1-4: destruct node_id; [apply interface_confined|apply refused_confined].
    - destruct (policy_request_bad q); [apply refused_confined|apply interface_confined].
    - apply interface_confined.
    - destruct radio_serial as [serial|]; [|apply refused_confined]. unfold confined. cbn [mbind option_bind].
      destruct (qe_device e ix) as [dev|]; [|now split]. pose proof (selector_confined dev serial devices) as Hs.
      destruct (melodi_set_transport_selector _ _ _). destruct Hs as (H1 & H2 & H3). split; [exact H1|]. split; [exact H2|].
      intros Hr. exists dev. split; [reflexivity|]. destruct (H3 Hr). eauto.
    - destruct node_id, key_serial, generation as [g|]; try apply refused_confined. destruct (g =? 0); [apply refused_confined|].
      match goal with |- context [if ?b then _ else _] => destruct b end; [apply refused_confined|].
      destruct (load_key _ _ _ _); [apply interface_confined|apply refused_confined]. }
  destruct (change_doit _ _ _ _ _ _ _ _ _) as [devices' r]. destruct H as (H0 & H1 & H2 & H3). split; [exact H1|]. split; [|now split].
  intros Hc. specialize (H0 Hc). injection H0 as -> ->. now split.
Qed.

(** ** The dump is complete *)

Section DumpLoop.
  Context (be : bool) (jiffies_to_msecs : Z -> Z) (strict : bool) (family sequence portid ifindex : Z).
  Context (base room jiffies : Z) (melodi : melodi_device).

Abbreviation loop := (dump_loop be jiffies_to_msecs strict family sequence portid ifindex base room jiffies melodi).

(** The entries of a message: their places ascend, and no peer between them is left out. *)
Lemma dump_loop_places peers : forall used index next, (next <= index)%nat ->
  let '(entries, next') := loop used index next peers in
  StronglySorted lt (map fst entries) /\ Forall (fun k => index <= k < next')%nat (map fst entries) /\
  (next <= next')%nat /\ match entries with [] => next' = next | _ => (index < next' <= index + length peers)%nat end /\
  (forall k p, (index <= k < next')%nat -> peers !! (k - index)%nat = Some p -> p.(p_authenticated) = true -> k ∈ map fst entries).
Proof.
  induction peers as [|p peers IH]; intros used index next Hn; cbn [dump_loop].
  { cbn [map]. conj_split; try constructor; try lia; try reflexivity; intros k q ? Hk; destruct (k - index)%nat; discriminate Hk. }
  assert (Hback : forall k q, (index <= k)%nat -> (p :: peers) !! (k - index)%nat = Some q -> k <> index -> peers !! (k - S index)%nat = Some q).
  { intros k q Hk Hq Hne. replace (k - index)%nat with (S (k - S index)) in Hq by lia. exact Hq. }
  destruct (p_authenticated p) eqn:Ha; cbn [negb].
  - destruct (_ <? _).
    { cbn [map]. conj_split; try constructor; try lia; try reflexivity; intros k q ? _; lia. }
    specialize (IH (used + zlen (peer_entry be jiffies_to_msecs strict family sequence portid ifindex (base + used) jiffies melodi p)) (S index) (S index) ltac:(lia)).
    destruct (loop _ _ _ _) as [entries next']. destruct IH as (I1 & I2 & I3 & I4 & I5). cbn [map fst]. conj_split; try lia.
    + constructor; [exact I1|]. apply (list.Forall_impl _ _ _ I2). lia.
    + constructor; [lia|]. apply (list.Forall_impl _ _ _ I2). lia.
    + cbn [length]. destruct entries; lia.
    + intros k q Hk Hq Hqa. apply elem_of_cons. destruct (decide (k = index)) as [->|Hne]; [now left|right]. apply (I5 k q); [lia| |exact Hqa]. apply Hback; auto; lia.
  - specialize (IH used (S index) next ltac:(lia)). destruct (loop _ _ _ _) as [entries next']. destruct IH as (I1 & I2 & I3 & I4 & I5). conj_split; auto.
    + apply (list.Forall_impl _ _ _ I2). lia.
    + cbn [length]. destruct entries; lia.
    + intros k q Hk Hq Hqa. destruct (decide (k = index)) as [->|Hne]; [rewrite Nat.sub_diag in Hq; injection Hq as ->; congruence|].
      apply (I5 k q); [lia| |exact Hqa]. apply Hback; auto; lia.
Qed.

(** A message with room for any entry is empty only at the end of the table. *)
Lemma dump_loop_empty peers : forall index next next', Forall (fun p => p.(p_authenticated) = true ->
    zlen (peer_entry be jiffies_to_msecs strict family sequence portid ifindex base jiffies melodi p) <= room) peers ->
  loop 0 index next peers = ([], next') -> Forall (fun p => p.(p_authenticated) = false) peers.
Proof.
  induction peers as [|p peers IH]; intros index next next' Hr H; [constructor|]. apply list.Forall_cons in Hr as [Hp Hr].
  cbn [dump_loop] in H. destruct (p_authenticated p) eqn:Ha; cbn [negb] in H.
  - exfalso. rewrite Z.add_0_r, Z.add_0_l in H. destruct (Z.ltb_spec room (zlen (peer_entry be jiffies_to_msecs strict family sequence portid ifindex base jiffies melodi p)));
      [specialize (Hp eq_refl); lia|]. destruct (loop _ _ _ _). discriminate.
  - constructor; [exact Ha|]. exact (IH _ _ _ Hr H).
Qed.
End DumpLoop.

Section Dump.
  Context (be : bool) (jiffies_to_msecs : Z -> Z) (strict : bool) (family sequence portid ifindex : Z).

Definition device_page (p : page_env) : nat -> list (nat * bytes) * nat :=
  dump_page be jiffies_to_msecs strict family sequence portid ifindex p.(pg_base) p.(pg_room) p.(pg_jiffies) p.(pg_device).

(** An empty message has room for the entry of any peer. *)
Definition page_fits (p : page_env) : Prop :=
  Forall (fun peer => peer.(p_authenticated) = true ->
    zlen (peer_entry be jiffies_to_msecs strict family sequence portid ifindex p.(pg_base) p.(pg_jiffies) p.(pg_device) peer) <= p.(pg_room))
    p.(pg_device).(d_peers).

(** A dump takes one message more than there are places at most.  However the table
    changes between its messages, no place is reported twice, places ascend, and the peer
    of a place that is authenticated throughout is reported. *)
Theorem dump_complete pages : forall next,
  Forall page_fits pages -> Forall (fun p => (length p.(pg_device).(d_peers) <= MELODI_PEER_LIMIT)%nat) pages ->
  let '(entries, ended) := dump_pages device_page pages next in
  StronglySorted lt (map fst entries) /\ Forall (le next) (map fst entries) /\
  ((next <= MELODI_PEER_LIMIT)%nat -> (MELODI_PEER_LIMIT - next < length pages)%nat -> ended = true) /\
  (ended = true -> forall k, (next <= k)%nat ->
     Forall (fun p => exists peer, p.(pg_device).(d_peers) !! k = Some peer /\ peer.(p_authenticated) = true) pages -> k ∈ map fst entries).
Proof.
  induction pages as [|p pages IH]; intros next Hf Hl; cbn [dump_pages]; [cbn [map length]; conj_split; try constructor; lia || discriminate|].
  apply list.Forall_cons in Hf as [Hfp Hf], Hl as [Hlp Hl].
  assert (Hlook : forall k, (next <= k)%nat -> drop next p.(pg_device).(d_peers) !! (k - next)%nat = p.(pg_device).(d_peers) !! k).
  { intros k Hk. rewrite lookup_drop. f_equal. lia. }
  pose proof (dump_loop_places be jiffies_to_msecs strict family sequence portid ifindex p.(pg_base) p.(pg_room) p.(pg_jiffies) p.(pg_device)
    (drop next p.(pg_device).(d_peers)) 0 next next (le_n _)) as H.
  pose proof (dump_loop_empty be jiffies_to_msecs strict family sequence portid ifindex p.(pg_base) p.(pg_room) p.(pg_jiffies) p.(pg_device)
    (drop next p.(pg_device).(d_peers)) next next) as He.
  unfold device_page at 1, dump_page. destruct (dump_loop _ _ _ _ _ _ _ _ _ _ _ _ _ _ _) as [entries next']. destruct H as (P1 & P2 & P3 & P4 & P5).
  destruct entries as [|x entries].
  - cbn [map length]. conj_split; try constructor; try reflexivity. intros _ k Hk Hall. exfalso.
    apply list.Forall_cons in Hall as [(peer & Hp & Ha) _]. specialize (He next' (Forall_drop _ _ _ Hfp) eq_refl).
    rewrite list.Forall_forall in He. rewrite (He peer) in Ha; [discriminate|]. apply (list_elem_of_lookup_2 _ (k - next)). now rewrite Hlook.
  - rewrite length_drop in P4. specialize (IH next' Hf Hl). destruct (dump_pages device_page pages next') as [rest ended].
    destruct IH as (I1 & I2 & I3 & I4). rewrite map_app. conj_split.
    + apply StronglySorted_app. split; [|split; [exact P1|exact I1]]. intros a b Ha Hb. rewrite list.Forall_forall in P2, I2. specialize (P2 a Ha). specialize (I2 b Hb). lia.
    + apply Forall_app. split; [apply (list.Forall_impl _ _ _ P2); lia|apply (list.Forall_impl _ _ _ I2); lia].
    + intros Hn Hlen. cbn [length] in Hlen. apply I3; lia.
    + intros Hend k Hk Hall. apply elem_of_app. apply list.Forall_cons in Hall as [(peer & Hp & Ha) Hall].
      destruct (Nat.lt_ge_cases k next'); [left; apply (P5 k peer); [lia|now rewrite Hlook|exact Ha]|right; now apply I4].
Qed.
End Dump.

(** ** The identity that user space loads *)

(** A request to load an identity succeeds only with a key of the sender whose signatures
    are accepted from that identity. *)
Theorem loaded_key_signs be msecs_to_jiffies {Sg : Signer} check key_pair sign verify {L : Ed25519Laws key_pair sign verify}
    keyring e ifindex node_id key_serial generation previous devices devices' :
  (forall serial key, keyring serial = Ok key -> key_wf key) ->
  melodi_identity_load be msecs_to_jiffies check key_pair keyring e ifindex node_id key_serial generation previous devices = (devices', Ok tt) ->
  exists id serial key, node_id = Some id /\ key_serial = Some serial /\ keyring serial = Ok key /\
    (wf_bytes 33 id.(node_bytes) -> byte_at 0 id.(node_bytes) = MELODI_NODE_ID_SCHEME_ED25519 ->
     forall stack message, zlen message <= MELODI_FRAME_MTU_MAX ->
       exists signature, melodi_identity_sign key_pair sign stack (Some key) message = Ok signature /\
         melodi_identity_verify verify id message signature = Ok tt).
Proof.
  intros Hw. unfold melodi_identity_load. destruct (negb _); [discriminate|].
  destruct ifindex as [ifindex|], node_id as [id|], key_serial as [serial|], generation as [generation|]; try discriminate.
  destruct (_ =? 0); [discriminate|]. match goal with |- context [if ?b then _ else _] => destruct b end; [discriminate|].
  destruct (load_key key_pair keyring serial id) as [[]|] eqn:Hk; [|discriminate]. intros _. exists id, serial.
  apply bind_Ok in Hk as (key & Hk & H). exists key. conj_split; auto. intros Hn Hs stack message Hl.
  apply bind_Ok in H as ([] & Hv & H). destruct (k_user key); [|discriminate]. destruct (given _); [|discriminate].
  destruct (matching_signs key_pair sign verify stack key id message (Hw serial key Hk) Hn Hs H Hv Hl) as (signature & H1 & _ & H2). eauto.
Qed.
